(* ===== verification/_CoqProject ===== *)
-Q . S2P
Prelude.v
Capacity.v
Health.v
Candles.v
Discovery.v
KeeperSupport.v
JsText.v
SqlDb.v
IndexerEvents.v
IndexerDb.v
IndexerRpc.v
IndexerHandlers.v
IndexerReindex.v
IndexerPoller.v
KeeperEffects.v
KeeperLiquidations.v
KeeperOrders.v
KeeperAdl.v
KeeperSubmit.v
KeeperOracle.v
KeeperCycle.v
KeeperStork.v
TxFootprint.v
TxSubmission.v
ApiSockets.v
ApiEvents.v
ApiStats.v
ApiBoard.v
WebErrors.v
JsNumber.v
ApiAccess.v
ApiKeys.v
ApiLive.v
ApiCapacity.v
ApiOrders.v
ContractCalls.v
KeeperReads.v
WebTrades.v
WebReads.v
WebHistory.v
WebPage.v
WebVaults.v
WebVaultPages.v
ContractTypes.v
WebOrderForm.v
WebPositions.v
SdkSocket.v
ApiVaults.v
ApiAdmin.v
KeeperConfig.v
KeeperProcess.v
ApiHealth.v
ServiceConfig.v
IndexerShell.v
ApiReader.v
ApiAccount.v
