(* ===== verification/Prelude.v ===== *)
(** * Verification of the Noether exchange's TypeScript services

    Noether is a perpetual-futures exchange on Soroban. Its contracts are Rust;
    the services around them are TypeScript, and these are what this library
    models: the _keeper_ (src/scripts/keeper), which publishes prices,
    liquidates, executes orders and deleverages; the _indexer_ (src/indexer),
    which turns contract events into database tables; the _gateway_ (src/api),
    which serves those tables, prepares and submits transactions and streams
    events; the transaction builders, database adapter and capacity arithmetic
    they share (src/packages); and the parts of the SDK (src/sdk-ts) and of the
    web application (src/web) that build and submit transactions, read the
    chain back and tell the user what happened.
    A definition has the name of the function it translates; where Rocq forbids
    that (a field shared by two records, a method of a closure) its doc comment
    names the function.

    ** The parts and how they interact

    [[
      contract events --> RPC pool --> poll loop --> router --> handlers --> tables
                                          |                        |          |
                                       cursor                  bus messages   |
                                                                              |
      archive events_raw <----------------------------------------------------+
           |
           +--> reindex --> the same router and handlers --> rebuilt tables

      keeper cycle = publish prices -> discover ids -> read the snapshot
                     -> liquidations (isolated, cross) -> trailing stops
                     -> orders -> deleveraging -> custody -> funding -> TTLs
                     each submission through the retry policy of stellar.ts
      Stork websocket --> newest signed frame --> relay tick (beside the cycle)

      gateway:  request -> region guard -> authentication -> rate limit -> route
        reads   tables and archive -> statistics, board, feeds, candles
                contract reads -> capacity cache, ADL queue
        stream  archive -> tailer, oracle -> ticker --> bus --> websockets
        keys    challenge -> signature -> access grant -> key
        trades  SDK request -> validation -> call -> simulation -> padding
                wallet signature -> submission -> poll -> outcome -> rebuild?
    ]]

    ** Files

    This file is the prelude: [Result] with its bind, boolean list filters, truncating
    bigint division, decimal text, sums over maps, inserts with ON CONFLICT
    DO NOTHING, and the hint database [noether].

    _Arithmetic shared with the contracts._ [Capacity] is
    packages/shared/src/capacity.ts, [Health] is scripts/keeper/src/health.ts.
    JavaScript bigints are unbounded, so [Z] with [Z.quot] is exact and no
    wrap-around arises. [Candles] is indexer/src/candles (bucketing.ts,
    aggregator.ts, and the row rule of seed.ts).

    _Indexer._ [IndexerEvents] is decoders/*.ts with the event types;
    [IndexerDb] the tables and every statement of handlers/*.ts; [IndexerRpc]
    is rpc.ts; [IndexerHandlers] is a handler's transaction, positionSync.ts,
    vaultSync.ts, bus.ts and router.ts with the registrations of index.ts;
    [IndexerReindex] is reindex.ts; [IndexerPoller] is cursor.ts and one poll of
    poll.ts, with the cursor another process may store meanwhile as an input;
    [IndexerShell] is migrations.ts, the loop of poll.ts, the start in index.ts
    and health.ts.
    The state is [IndexerHandlers.Db]: the archive, the projection tables, the
    cursor, the dead letters and the recorded gaps. A transaction that throws
    returns the state it began with.

    _Keeper._ [Discovery] is discovery.ts; [KeeperSupport] the dead-man
    counters, alert dedupe and state-file throttle (deadman.ts, alerts.ts,
    state.ts). [KeeperEffects] is the framework of the phases of index.ts: the
    bot's memory ([Bot], one record per group of KeeperBot fields), the actions
    a phase performs ([Action], one constructor per call of the Stellar client,
    price service, alert channel or clock) and the monad [K]. On top of it,
    [KeeperOracle] is updateOraclePrices with its publish defenses,
    [KeeperLiquidations] checkLiquidations and checkCrossMarginLiquidations,
    [KeeperOrders] updateTrailingStopPeaks and checkOrders, [KeeperAdl]
    manageAdl, and [KeeperCycle] discovery per mode, the snapshot, custody,
    funding, TTL bumps and runKeeperCycle, which runs them all in the source's
    order. [KeeperSubmit] is the layer below one submission: withRpc,
    invokeContractWrite and invokeContractWriteWithRetry of stellar.ts;
    [KeeperReads] the views, previews and ledger reads of the same file, with a
    discovery run over them. [KeeperConfig] is config.ts, from the environment
    and contracts.json to the configuration of the phases ([phaseConfig]), and
    [KeeperProcess] what surrounds the cycle: the state file read back
    (state.ts), the loop, the watchdog and shutting down.

    The relay of prices beside the cycle is [KeeperStork]: the payload parser
    and websocket client of storkFast.ts, the caches of stork.ts and
    reference.ts, and storkRelayTick.

    _Database._ [SqlDb] is packages/db: the placeholder rewriter (rewrite.ts),
    statements, batches and transactions (index.ts, pg.ts).

    _Gateway._ [ApiAccess] is plugins/auth.ts, rateLimit.ts and geoBlock.ts with
    services/apiKeys.ts and rateLimit.ts; [ApiKeys] is walletAuth.ts,
    accessGrants.ts and routes/keys.ts; [ApiSockets] is wsManager.ts and
    plugins/ws.ts; [ApiLive] is liveTailer.ts, oracleTicker.ts and wsBus.ts;
    [ApiEvents] is the archive as the SQL of the gateway reads it, [ApiStats]
    the volume, solvency, market, trade, order and candle reads of stats.ts and
    binanceCandles.ts, [ApiBoard] its leaderboard with shared/scopes.ts and
    cache.ts; [ApiVaults] is vaults.ts, referral.ts and events.ts with their
    routes; [ApiCapacity] is capacity.ts and adlQueue.ts, on top of [Capacity]
    and [Health]; [ApiAdmin] is routes/access.ts, the waitlist and its
    administration, over the tables of [ApiKeys]. [ApiHealth] is keeperStatus.ts,
    oracle.ts and markets.ts with routes/oracleHealth.ts, oracle.ts and
    markets.ts, fed by the keeper's heartbeat; [ApiReader] is contractReader.ts,
    pauseState.ts, shortfall.ts, timeout.ts and routes/health.ts, up to the
    trust the web application puts in them; [ApiAccount] is routes/account.ts,
    positions.ts and the queue route of adl.ts. [SdkSocket] is the SDK's
    reconnecting client of the websocket (sdk-ts/src/sub/ws.ts), as a machine
    over its sockets, timers and promises, with its frames run against
    [ApiSockets].

    _Configuration._ [ServiceConfig] is packages/shared/src/contracts.ts,
    network.ts and rpc.ts with the config.ts of the gateway and of the indexer,
    what their index.ts hand to the services, and the error replies of
    server.ts.

    _Trades._ [ApiOrders] follows a request of sdk-ts/src/sub/orders.ts through
    routes/orders.ts into the calls of tx-builders/src/market; [TxFootprint] is
    tx-builders/src/footprintGuard.ts and client.ts; [TxSubmission] is
    txSubmit.ts, contractErrors.ts and routes/tx.ts, executeTrade of the SDK
    with its errors, and submitTransaction and runTradeTx of the web
    application. [ContractCalls] holds the builders of tx-builders/src/router
    and referral and every write of the keeper's stellar.ts; [WebTrades] the
    write path of web/lib/stellar/market.ts with noeracle.ts, capabilities.ts
    and buildTransaction of client.ts, run by [TxSubmission.runTradeTx].
    web/lib/stellar/footprintGuard.ts is a copy of the builders' file, so
    [TxFootprint] is its model too.

    _What the trader sees._ [WebReads] is the read path of the same market.ts,
    the trust of lib/api/gateway.ts and the sources of the trade page's rows;
    [WebHistory] the trade history from transactions and events; [WebPage] the
    account view of app/trade/page.tsx with its inbox (lib/notifications), as
    a machine of overlapping refreshes. [WebErrors] is every text an outcome
    is told in (contractErrors.ts, txCopy.ts, userError.ts and the messages of
    client.ts) with the toasts of the pages.

    _Placing and changing orders._ [JsNumber] is JavaScript's reading and
    rounding of numbers in binary64, with the amounts of lib/utils/format.ts;
    [WebOrderForm] is components/trading/OrderPanel.tsx, and [WebPositions] the
    modals of PositionsList.tsx, OrdersList.tsx and the handlers of
    app/trade/page.tsx, with the guards of the market contract they anticipate.
    What they submit is a [WebTrades.WebRequest].

    _Vaults and referrals._ [WebVaults] is vaultFactory.ts, the writes of
    vault.ts and referral.ts, signWithWallet, and the rows of the marketplace
    (types/vault.ts, app/vaults); [WebVaultPages] the deposit and withdrawal
    form, the forms for codes and the claim gate.

    _Across the clients._ [ContractTypes] is the signatures of the contracts'
    entry points, against which the calls of every client are checked.

    ** Interfaces

    - [KeeperEffects.World] is everything outside the keeper: per kind of
      answer a function of the whole history of actions. Nothing is assumed of
      it, so the keeper theorems hold whatever is answered, refused or thrown,
      and for any clock. [Composes], [Stable], [Always], [Ensures], [Keeps] and
      [Total] are the program logic: what every run emits relative to its
      history, what it leaves alone, that it completes.
    - [KeeperSubmit.Rpc] is a Soroban RPC endpoint, again a function of the
      history of calls.
    - [ApiReader.ReaderRpc] is the endpoint of the gateway's own reads.
    - [KeeperReads.ViewRpc] is the same for reads, and [KeeperReads.Faithful] says
      that an endpoint that answers tells the truth about a chain.
    - [IndexerDb.BigText] is the bigint of an event body: [Z] from the live
      decoders, decimal text when read back from the archive. Handlers are
      proved once for both.
    - [IndexerHandlers.Chain] and [Fault] are the on-chain views and the
      statements that throw in one handler run; [IndexerPoller.PollInput] the
      failures of one poll. The relation [idLe] of [IndexerReindex] is the
      database's text collation, assumed only to be a total order.

    - [TxFootprint.FeeBuilder] is the fee arithmetic of the SDK's transaction
      builder, [ApiOrders.IntCodec] its integer encoding: classes whose laws
      are the documented behaviour, with instances ([sdkFees], [sdkCodec]).
    - [WebReads.Chain] is what the chain answers to the web application's reads;
      [WebReads.Faithful] says that a view that answers tells the truth, and
      [WebReads.ledgerChain] is such a chain for any ledger.
    - [TxSubmission.Rpc] is one submission as the RPC answers it. The gateway,
      the SDK and the web application are proved over the same record.
      [WebVaults.TxWorld] is what one transaction of the vault pages meets: a
      quote, a simulation, a wallet ([WebVaults.WalletKit]) and such an RPC.
    - [ContractTypes.Issued] collects what the clients send; its constructors
      are the clients' own functions, so a new client is one more constructor.
    - [WebTrades.Reads] is what one attempt of a web trade reads, for every
      attempt another; the serialisation toXDR is a parameter of that file.
    - The digest of a secret, Ed25519 and the XDR decoder are arguments of
      [ApiAccess] and [ApiKeys]; nothing is assumed of them.
    - The gateway's long-lived objects (sockets, board cache, capacity cache,
      tailer, limiter, key server) and the SDK's websocket client are step
      functions on their state; the theorems are about all runs, awaits being separate steps where another
      request can come between.

    ** What the theorems show

    - _Events_: delivered once each, in order, over redelivery and failure
      ([deliver_exactly_once], [deliver_projects_processed]); the cursor passes
      only events that are archived, dead-lettered or unknown, and never beyond
      the batch, or a recorded gap ([cursor_never_skips]); a poison event delays a batch by a bounded
      number of polls ([poison_events_pass]); two pollers cannot both commit
      different ledgers ([cas_single_winner]); decoders are faithful and each
      event has one registration ([decoded_event_faithful],
      [decoded_event_routed_once]); failover of the pool
      ([fetchEvents_fails_over]).
    - _Projections_: the positions table is the life cycle of the positions
      ([positions_refine_lifecycle]), totals are sums of their logs
      ([referral_totals_are_log_sums], [vault_rows_are_log_sums]), and a
      reindex of plain events reproduces what live processing built, all but
      bad_debt ([reindex_rebuilds_live]).
    - _Indexer process_: the files of a directory load to the same migrations
      in whatever order it lists them ([directory_order_is_irrelevant]), a run
      applies exactly what is pending ([migration_run_is_exact]), several
      processes starting together are one run
      ([concurrent_migrations_are_one_run]), and a file's statements survive
      splitting ([statements_roundtrip]); the start leaves the vaults that are
      live ([boot_leaves_live_vaults]); /healthz is well only while polls
      complete ([healthy_means_polling]), and a process whose cursor was taken
      polls no more ([lost_cursor_is_final]).
    - _Keeper safety_: what is submitted was simulated or allowed by the chain
      first ([liquidation_after_simulation], [order_submitted_after_simulation],
      [adl_close_needs_chain_and_profit], with the flag read, turned on or
      remembered), is bounded ([adl_closes_bounded],
      [submission_is_bounded], [funding_attempts_spaced]), is not sent
      again while an accepted transaction is open, as long as statuses can be
      read ([never_resubmits_in_doubt]), and no price leaves without its
      defenses ([only_defended_prices_published], [prices_follow_the_chain]).
    - _Keeper progress_: a cycle always completes ([no_answer_stops_the_cycle])
      and looks at everything it read ([snapshot_is_fully_scanned],
      [scan_reaches_every_position], [every_pending_order_is_tried],
      [router_never_loses_liquidation]); without a snapshot it does nothing
      ([blind_cycle_never_trades], [snapshot_is_what_was_read]).
    - _Keeper reads_: what is read is the contracts' own record, endpoints that
      fail in passing passed over ([keeper_reads_are_the_chain]), discovery over these reads finds exactly
      what is open ([chain_discovery_is_exact]), a preview simulates the call
      that is then submitted ([previews_are_the_writes]), and extending a
      contract covers instance and code ([bump_extends_instance_and_code]).
    - _Keeper process_: a configuration that loads is usable
      ([loaded_config_is_usable]), loading fails exactly when it says
      ([boot_is_refused_exactly_when]), the admin's key stays off mainnet
      ([admin_key_never_signs_on_mainnet]), the contracts worked with are kept
      alive ([worked_with_is_extended]); the bands are the router's
      built-in ones ([keeper_bands_are_the_routers]), so what is published is
      accepted unless the router's admin narrowed one
      ([published_prices_pass_the_router]). The memory and the circuit breaker
      survive a restart ([restart_restores_the_memory],
      [breaker_survives_restart]); the loop goes on ([loop_never_gives_up]), a
      frozen process exits in bounded time ([frozen_keeper_exits]) and no exit
      lacks a cause ([exits_have_a_cause]).
    - _Refinements of arithmetic and walks_: [headroom_exact],
      [binding_rejects_next_unit], [prefilter_sound], [cross_prefilter_sound],
      [payable_tracks_winners], [adl_ranking_deterministic],
      [runTicks_reference], [accepted_walk_exact], [walk_incremental_complete].
    - _Alarms_: [strikes_fire_every_nth], [custody_pages_on_second_deficit],
      [stuck_iff_streak].
    - _Trades_: the call built is the order asked for, for the key's owner
      ([prepared_call_is_the_request], [prepare_binds_trader]); what is signed
      declares what the settlement of the vault and the market may write
      ([prepared_tx_declares_settlement], over the model of those writes in
      [TxFootprint.Settlement]; [padFootprint_idempotent]); no client rebuilds a trade in doubt
      ([web_never_rebuilds_in_doubt], [sdk_never_rebuilds_in_doubt]), polling
      ends and tells the truth ([gateway_submission_settles]), and the two
      clients classify failures alike where they can ([sdk_class_mirrors_web]).
      What the web application has signed is the trade asked for
      ([web_trade_signs_what_was_asked]), what the keeper submits the write it
      means ([keeper_calls_say_what_is_done]), and the three writers of the
      same calls agree ([web_calls_match_builders],
      [keeper_router_calls_match_builders]). Which of all these calls
      the contracts take is known exactly ([issued_calls_are_well_typed]): those
      with contract symbols, keys of the right length and the router's current
      generation; the two generations are never confused
      ([router_accepts_its_generation]).
    - _Deposits and claims_: a depositor's minimum is what the contract quoted
      ([depositor_minimum_is_quoted]), the pool is drawn on only after the
      approval ([withdrawal_follows_approval]), the form moves what it shows
      ([max_moves_the_balance]), no claim reaches the registry that would burn
      it ([claims_need_funded_registry]), and the marketplace shows the
      chain's numbers ([marketplace_is_the_chain],
      [shown_share_is_computed_alike], [deployed_counts_open_positions]).
    - _Forms_: an order placed is the one shown ([order_is_what_the_form_shows]),
      amounts typed are sent to the unit or one short
      ([typed_amounts_are_sent_to_the_unit]),
      and what the modals let through passes the contract's guards
      ([partial_close_passes_the_dust_guard], [removal_passes_the_margin_floor]);
      the fee tier quoted is the contract's ([quoted_tier_is_the_contracts]).
      These rest on binary64 rounding bounds proved in [JsNumber].
    - _Messages_: a revert is explained by words of its error and of no
      other of its contract ([revert_is_explained]) and the wallet is blamed for exactly what is
      listed ([toast_blames_wallet]).
    - _What the trader sees_: positions and orders shown are the ledger's, on
      both generations of the market ([page_positions_are_the_ledgers],
      [positions_are_the_traders], [pending_orders_either_generation],
      [attached_order_is_the_positions]); the gateway is believed only while it
      is fresh ([trust_is_recent]); history agrees with the indexer
      ([history_is_the_decoded_events]); slow responses do not overwrite newer
      ones ([stale_reads_never_overwrite]) and messages are true and not
      repeated ([liquidation_messages_are_real], [messages_are_not_repeated]).
    - _Access_: [authenticated_means_valid_key], [timingSafeEqualHex_eq],
      [rate_limit_exact], [keys_need_signed_challenges],
      [approval_follows_audit]; the app is unlocked by signature and approval
      ([unlock_needs_signature_and_approval]), each approval is mailed once
      ([approvals_are_mailed_once]), the export reads back
      ([export_roundtrip]).
    - _Streams_: [socket_counters_exact], [account_events_need_login],
      [tailer_delivers_once], [relay_is_newest_and_fresh],
      [fast_payload_roundtrip]; on the client's side a connect() is always
      settled ([connect_settles]), a closed client stays closed
      ([closed_client_stays_closed]), a client connected once has one
      connection ([one_connection_at_a_time]), and after a reconnect it is
      served what it asked for ([resubscription_is_complete]).
    - _Reads_: [volume14d_mirrors_contract], [trade_feed_lists_each_event_once],
      [order_feed_follows_lifecycle], [market_stats_exact],
      [served_candles_are_latest], [leaderboard_is_deterministic_ranking],
      [totals_match_board], [mainnet_board_isolated],
      [walked_pages_cover_board], [array_literal_roundtrip],
      [served_capacity_exact], [queue_is_keeper_order]; a vault's page adds up
      to its histories ([served_vault_adds_up]), its figures are honest
      ([vault_aggregates_are_honest]), and paging loses only ties
      ([walked_history_misses_only_ties]).
    - _Gateway health_: the custody block shown is the one the keeper's own
      check made ([shown_custody_is_the_keepers]), the verdict is exact
      ([health_is_ok_exactly_when]), a heartbeat needs the secret
      ([heartbeat_needs_the_secret]), a served price is recent
      ([served_price_is_recent]) and the same on both routes
      ([price_routes_agree]); exposure and counts are the ledger's
      ([exposure_is_the_ledgers], [drift_compares_the_ledger]), and a gateway
      the web application trusts reads this application's market
      ([trusted_gateway_reads_this_market]); an account's rows are its owner's
      ([account_events_are_the_owners], [my_orders_are_placements],
      [open_positions_show_the_queue]).
    - _Configuration_: the address reported is the one served
      ([served_address_is_the_reported_one]), gateway and indexer agree
      ([gateway_and_indexer_agree]), no two contracts share an override
      ([override_names_are_distinct]), the gateway starts exactly when its
      variables allow ([gateway_boots_exactly_when]), in production closed but
      for a star within a list of origins ([production_gateway_is_closed]), and faults of the server are told to
      nobody ([server_errors_are_opaque]).
    - _Database_: [rewrite_roundtrip], [batch_is_one_transaction].
    - _Divergences_, next to the theorems they limit:
      [Capacity.binding_overcommitted_diverges],
      [IndexerReindex.reindex_keeps_bad_debt],
      [IndexerPoller.cas_same_ledger_both_win],
      [IndexerPoller.clamp_can_move_back],
      [KeeperSubmit.unread_confirmation_resubmits],
      [KeeperAdl.remembered_flag_is_not_read_again],
      [TxFootprint.netting_open_is_not_covered],
      [ApiCapacity.invalidate_undone],
      [TxSubmission.rejected_not_rebuilt_by_sdk],
      [ApiOrders.gateway_close_lacks_market_keys],
      [ApiOrders.bad_id_is_rpc_error],
      [ContractCalls.cross_liquidation_pads_keeper],
      [WebTrades.legacy_trade_has_no_bound],
      [WebReads.foreign_hints_show_strangers],
      [WebReads.failed_rows_are_an_empty_account],
      [WebHistory.keeper_sees_others_closes],
      [WebPage.switched_wallet_reports_fills],
      [WebPage.late_refresh_shows_previous_account],
      [WebErrors.frozen_close_reads_rejected],
      [WebErrors.missed_minimum_reads_leverage],
      [WebErrors.applied_factory_error_uses_market_table],
      [WebVaults.shown_share_misses_open_gains],
      [WebVaults.pending_withdrawal_reads_failed],
      [WebOrderForm.amount_loses_a_unit],
      [WebOrderForm.limit_order_ignores_headroom],
      [WebOrderForm.cross_open_drops_triggers],
      [WebOrderForm.tiny_tolerance_is_unbounded],
      [WebOrderForm.zero_trailing_is_three],
      [WebPositions.max_removal_is_refused],
      [SdkSocket.background_connect_has_no_timeout],
      [SdkSocket.reopened_client_has_two_connections],
      [ApiVaults.page_boundary_loses_a_trade],
      [ApiVaults.outage_reads_as_no_record],
      [KeeperReads.void_view_is_an_empty_market],
      [KeeperConfig.narrowed_band_is_not_the_keepers],
      [KeeperConfig.environment_alone_extends_nothing],
      [KeeperConfig.admin_key_signs_for_the_public_network],
      [KeeperProcess.no_market_warned_then_refused],
      [ApiHealth.old_report_reads_fresh],
      [ApiHealth.strict_zero_is_strict],
      [ServiceConfig.factory_by_override_is_not_served],
      [ServiceConfig.mistyped_cap_is_no_cap],
      [ServiceConfig.star_in_a_list_boots],
      [IndexerShell.unpadded_ids_come_early],
      [ApiReader.malformed_exposure_is_zero],
      [ApiAccount.execution_is_not_listed] and
      [WebVaultPages.unconfigured_answer_is_kept].

    ** Bounds

    Loops of the source that count attempts are fixpoints on that count, so no
    fuel is added: [FETCH_RETRIES] for a getEvents call, [SEND_ATTEMPTS] (3),
    [CONFIRM_POLL_ATTEMPTS] (30) and [MAX_RETRIES] (3) for a submission, the
    number of endpoints for withRpc, [maxAttempts] (30) for the web
    application's poll. The gateway's poll loop has no count, only a deadline:
    [submitOnGateway] has fuel, and [gateway_submission_settles] proves that a
    read per second of the timeout and two more are enough. All other loops
    follow a list and are structural. Every definition is executable; the
    witnesses run them.

    ** What is not modelled, and why

    - Console output, sleeping between attempts, sockets, reading files and
      parsing JSON: input and output with no state of their own.
    - Transaction building, signing and scVal conversion: the Stellar SDK's.
      SQL is modelled as functions on maps by the statements' unique keys; the
      wall-clock columns no handler reads are left out.
    - The regular expressions of the source, on ASCII text, are string
      searches ([JsText]); non-ASCII input is not covered.
    - Concurrency inside a cycle: a phase's awaits are sequential in the source
      and so here; the two parallel reads behind getVaultCoverage are one
      action. The Stork relay and the watchdog are machines of their own.
    - Route schemas apart from the order body's; the routes that hand a query
      to a service modelled here (leaderboard.ts, trades.ts, volume.ts); the bot
      check over HTTP (turnstile.ts) and pool options; the SDK's sub-clients of
      one request each; the screens of the web application that only lay out
      what the modelled ones compute; formatting helpers nothing calls; the
      Python SDK. Of the Rust contracts only the signatures the clients call,
      the error enums, the stored structs, the fee tiers, two guards of the
      market, the router's price bands, the keys a settlement writes and the
      factory's share arithmetic are here. *)

From Stdlib Require Export ZArith Lia.
From stdpp Require Export base numbers option list gmap strings sorting pretty.

Declare Scope js_scope.
Delimit Scope js_scope with js.

(** JavaScript [BigInt] division and remainder truncate toward zero. *)
Notation "a ÷ b" := (Z.quot a b) (at level 40, left associativity) : js_scope.

Create HintDb noether.

#[export] Set Warnings "-notation-overridden".
Open Scope Z_scope.
Open Scope js_scope.

(** ** Boolean guards

    The guards of the source are boolean functions here; [bool_cases] splits
    on every boolean test of the goal and turns it into its proposition. *)
Ltac reflect_bools :=
  repeat match goal with
  | H : (_ <? _)%Z = true |- _ => apply Z.ltb_lt in H
  | H : (_ <? _)%Z = false |- _ => apply Z.ltb_ge in H
  | H : (_ <=? _)%Z = true |- _ => apply Z.leb_le in H
  | H : (_ <=? _)%Z = false |- _ => apply Z.leb_gt in H
  | H : (_ =? _)%Z = true |- _ => apply Z.eqb_eq in H
  | H : (_ =? _)%Z = false |- _ => apply Z.eqb_neq in H
  | H : (_ && _) = true |- _ => apply andb_true_iff in H as [? ?]
  | H : (_ || _) = false |- _ => apply orb_false_iff in H as [? ?]
  | H : (_ && _) = false |- _ => apply andb_false_iff in H
  | H : (_ || _) = true |- _ => apply orb_true_iff in H
  | H : negb _ = true |- _ => apply negb_true_iff in H
  | H : negb _ = false |- _ => apply negb_false_iff in H
  end.

Ltac bool_cases :=
  repeat match goal with
  | |- context [if ?b then _ else _] => destruct b eqn:?
  end; reflect_bools.

(** ** [BigInt] helpers *)

(** [Math.max(x, 0n)], written [floor0] in the source. *)
Definition floor0 (x : Z) : Z := if (x <? 0)%Z then 0%Z else x.

Lemma floor0_max x : floor0 x = Z.max 0 x.
Proof. unfold floor0. bool_cases; lia. Qed.

Lemma floor0_nonneg x : (0 <= floor0 x)%Z.
Proof. rewrite floor0_max; lia. Qed.

#[export] Hint Resolve floor0_nonneg : noether.

(** Truncated division agrees with the floor on non-negative operands and is
    monotone in the dividend. *)
Lemma quot_mono a b c : (0 < c -> a <= b -> Z.quot a c <= Z.quot b c)%Z.
Proof. intros Hc Hab. apply Z.quot_le_mono; lia. Qed.

Lemma quot_opp a c : (Z.quot (- a) c = - Z.quot a c)%Z.
Proof.
  destruct (Z.eq_dec c 0) as [->|Hc]; [by rewrite !Z.quot_0_r_ext |].
  by apply Z.quot_opp_l.
Qed.

Lemma quot_lower a c : (0 < c -> a < c * (Z.quot a c + 1))%Z.
Proof.
  intros Hc. pose proof (Z.quot_rem' a c) as Hqr.
  pose proof (Z.rem_bound_abs a c) as Hb. nia.
Qed.

Lemma quot_upper a c : (0 < c -> c * (Z.quot a c - 1) < a)%Z.
Proof.
  intros Hc. pose proof (Z.quot_rem' a c) as Hqr.
  pose proof (Z.rem_bound_abs a c) as Hb. nia.
Qed.

(** ** Lists *)

(** [Array.prototype.filter] by a boolean predicate. *)
Fixpoint bfilter {A} (p : A -> bool) (l : list A) : list A :=
  match l with
  | [] => []
  | x :: l => if p x then x :: bfilter p l else bfilter p l
  end.

Lemma elem_of_bfilter {A} (p : A -> bool) l x :
  x ∈ bfilter p l ↔ x ∈ l ∧ p x = true.
Proof.
  induction l as [|y l IH]; simpl.
  - by rewrite elem_of_nil; split; [|intros []].
  - rewrite elem_of_cons. destruct (p y) eqn:Hp; rewrite ?elem_of_cons, IH;
      split; intuition (subst; auto). congruence.
Qed.

Lemma NoDup_bfilter {A} (p : A -> bool) l : NoDup l -> NoDup (bfilter p l).
Proof.
  induction 1 as [|x l Hx Hl IH]; simpl; [constructor |].
  destruct (p x); [constructor|]; auto. rewrite elem_of_bfilter. tauto.
Qed.

Lemma bfilter_app {A} (p : A -> bool) l k :
  bfilter p (l ++ k) = bfilter p l ++ bfilter p k.
Proof. induction l as [|x l IH]; simpl; [done|]. destruct (p x); simpl; by rewrite IH. Qed.

Lemma bfilter_ext {A} (p q : A -> bool) l :
  (∀ x, x ∈ l -> p x = q x) -> bfilter p l = bfilter q l.
Proof.
  induction l as [|x l IH]; simpl; intros Hpq; [done|].
  rewrite (Hpq x) by (left). rewrite IH; [done|]. intros y Hy. apply Hpq. by right.
Qed.

Lemma length_bfilter_le {A} (p : A -> bool) l : (length (bfilter p l) <= length l)%nat.
Proof. induction l as [|x l IH]; simpl; [done|]. destruct (p x); simpl; lia. Qed.

Lemma length_bfilter_mono {A} (p q : A -> bool) l :
  (∀ x, p x = true -> q x = true) -> (length (bfilter p l) <= length (bfilter q l))%nat.
Proof.
  intros Hpq. induction l as [|x l IH]; simpl; [done|].
  destruct (p x) eqn:Hp; [rewrite (Hpq x Hp); simpl; lia|]. destruct (q x); simpl; lia.
Qed.

Lemma length_bfilter_lt {A} (p q : A -> bool) l x :
  (∀ x, p x = true -> q x = true) -> x ∈ l -> q x = true -> p x = false ->
  (length (bfilter p l) < length (bfilter q l))%nat.
Proof.
  intros Hpq Hx Hq Hp. induction l as [|y l IH]; [by apply elem_of_nil in Hx|]. simpl.
  pose proof (length_bfilter_mono p q l Hpq). apply elem_of_cons in Hx as [<-|Hx].
  - rewrite Hq, Hp. simpl. lia.
  - specialize (IH Hx). destruct (p y) eqn:Hpy; [rewrite (Hpq y Hpy); simpl; lia|].
    destruct (q y); simpl; lia.
Qed.

#[export] Hint Resolve NoDup_bfilter : noether.

(** ** Decimal text

    [x.toString()] of a [bigint] and the numeric reading of a decimal TEXT
    column, with their round trip. *)

From Stdlib Require Import DecimalString DecimalZ Decimal.

Definition decimalOfZ (z : Z) : string := NilZero.string_of_int (Z.to_int z).

Definition zOfDecimal (s : string) : option Z :=
  match NilZero.int_of_string s with
  | Some d => Some (Z.of_int d)
  | None => None
  end.

Lemma zOfDecimal_decimalOfZ z : zOfDecimal (decimalOfZ z) = Some z.
Proof.
  unfold zOfDecimal, decimalOfZ.
  assert (forall p, Pos.to_uint p ≠ Decimal.Nil) as Hne
    by (intros p; apply DecimalPos.Unsigned.to_uint_nonnil).
  rewrite NilZero.isi; [by rewrite DecimalZ.of_to | |];
    destruct z as [|p|p]; simpl; intros [=]; by eapply Hne.
Qed.

#[export] Instance decimalOfZ_inj : Inj (=) (=) decimalOfZ.
Proof.
  intros x y Hxy. pose proof (f_equal zOfDecimal Hxy) as H.
  rewrite !zOfDecimal_decimalOfZ in H. by simplify_eq.
Qed.

(** ** Exceptions

    Code that throws returns a [Result]; [Err] carries the message. *)

Definition Result (A : Type) : Type := (string + A)%type.
Definition Ok {A} (a : A) : Result A := inr a.
Definition Err {A} (message : string) : Result A := inl message.

#[export] Instance Result_bind : MBind Result :=
  fun A B k r => match r with inl e => inl e | inr a => k a end.

Lemma bind_Ok {A B} (r : Result A) (k : A -> Result B) b :
  r ≫= k = Ok b <-> exists a, r = Ok a /\ k a = Ok b.
Proof.
  destruct r as [e|a]; simpl; split; [done | by intros (a & ? & _) | eauto |].
  by intros (a' & [= ->] & ?).
Qed.

(** Split the successful run of a sequence of binds. *)
Ltac inv_binds :=
  repeat match goal with
  | H : (_ ≫= _) = Ok _ |- _ =>
      let a := fresh "a" in let Ha := fresh "Ha" in
      apply bind_Ok in H as (a & Ha & H)
  end.

(** ** Sums over maps *)

Definition sumMap {K V} `{Countable K} (f : V -> Z) (m : gmap K V) : Z :=
  map_fold (fun _ v acc => f v + acc) 0 m.

Lemma sumMap_empty {K V} `{Countable K} (f : V -> Z) : sumMap f (∅ : gmap K V) = 0.
Proof. apply map_fold_empty. Qed.

Lemma sumMap_insert {K V} `{Countable K} (f : V -> Z) (m : gmap K V) k v :
  m !! k = None -> sumMap f (<[k := v]> m) = f v + sumMap f m.
Proof.
  intros Hk. unfold sumMap. rewrite map_fold_insert_L; [done | | done].
  intros. lia.
Qed.

Lemma sumMap_zero {K V} `{Countable K} (f : V -> Z) (m : gmap K V) :
  (forall k v, m !! k = Some v -> f v = 0) -> sumMap f m = 0.
Proof.
  induction m as [|k v m Hk IH] using map_ind; intros Hf; [apply sumMap_empty|].
  rewrite sumMap_insert by done. rewrite (Hf k v) by apply lookup_insert_eq.
  rewrite IH; [done|]. intros j w Hj. apply (Hf j).
  rewrite lookup_insert_ne; [done|]. by intros ->; simplify_eq.
Qed.

(** [INSERT ... ON CONFLICT DO NOTHING]. *)
Definition insertNew {K V} `{Countable K} (k : K) (v : V) (m : gmap K V) : gmap K V :=
  match m !! k with Some _ => m | None => <[k := v]> m end.

Lemma insertNew_fresh {K V} `{Countable K} (k : K) (v : V) m :
  m !! k = None -> insertNew k v m = <[k := v]> m.
Proof. intros Hk. unfold insertNew. by rewrite Hk. Qed.

Lemma insertNew_present {K V} `{Countable K} (k : K) (v v' : V) m :
  m !! k = Some v' -> insertNew k v m = m.
Proof. intros Hk. unfold insertNew. by rewrite Hk. Qed.

Lemma lookup_insertNew {K V} `{Countable K} (k j : K) (v : V) m :
  insertNew k v m !! j
  = match m !! j with Some x => Some x | None => if decide (k = j) then Some v else None end.
Proof.
  unfold insertNew. destruct (m !! k) as [x|] eqn:Hk.
  - destruct (m !! j) eqn:Hj; [done|]. case_decide; [congruence|done].
  - destruct (decide (k = j)) as [->|Hne].
    + by rewrite lookup_insert_eq, Hk.
    + rewrite lookup_insert_ne by done. by destruct (m !! j).
Qed.
