(* ===== verification/Capacity.v ===== *)
(** * Pool-capacity headroom (packages/shared/src/capacity.ts)

    The gateway's mirror of the vault's [reserve_for_position] gates: the
    gate-by-gate decision [vaultAccepts] and the per-side headroom
    [computeHeadroom], with the theorem that the headroom is exactly the
    largest notional the gates accept. *)

From S2P Require Import Prelude.
Open Scope Z_scope.
Open Scope js_scope.

Inductive PositionSide := long | short.

Inductive CapacityBinding := aggregate | side | skew | liquidity | maxPosition.

#[export] Instance PositionSide_eq_dec : EqDecision PositionSide.
Proof. solve_decision. Defined.
#[export] Instance CapacityBinding_eq_dec : EqDecision CapacityBinding.
Proof. solve_decision. Defined.

Record CapacityInputs := {
  aum : Z;
  reservedPayout : Z;
  reserveCapBps : Z;
  usdcBalance : Z;
  shortfallReserve : Z;
  assetCapBps : Z;
  capAbs : Z;
  skewCapBps : Z;
  longOi : Z;
  shortOi : Z;
  maxPositionSize : option Z;
}.

Record SideHeadroom := { headroom : Z; binding : CapacityBinding }.

Record CapacityHeadroom := {
  hr_long : SideHeadroom;
  hr_short : SideHeadroom;
  aggregateHeadroom : Z;
  aggregateBinding : CapacityBinding;
  hr_reserveCap : Z;
  hr_sideCap : Z;
  hr_skewCap : Z;
  hr_net : Z;
}.

Definition BPS : Z := 10000.

Definition reserveCapOf (i : CapacityInputs) : Z := (aum i * reserveCapBps i) ÷ BPS.

Definition sideCapOf (i : CapacityInputs) : Z :=
  let leg := (aum i * assetCapBps i) ÷ BPS in
  if (0 <? capAbs i) && (capAbs i <? leg) then capAbs i else leg.

Definition skewCapOf (i : CapacityInputs) : Z := (aum i * skewCapBps i) ÷ BPS.

(** The open interest on the side of the order. *)
Definition sideOi (i : CapacityInputs) (s : PositionSide) : Z :=
  match s with long => longOi i | short => shortOi i end.

(** [{ ok: true }], or [{ ok: false }] with an optional gate. *)
Inductive Verdict := Accept | Reject (reason : option CapacityBinding).

Definition vaultAccepts (i : CapacityInputs) (s : PositionSide) (size : Z) : Verdict :=
  if size <=? 0 then Reject None
  else if reserveCapOf i <? reservedPayout i + size then Reject (Some aggregate)
  else
    let sideAfter := sideOi i s + size in
    if sideCapOf i <? sideAfter then Reject (Some side)
    else
      let before := longOi i - shortOi i in
      let after := match s with long => before + size | short => before - size end in
      if (skewCapOf i <? Z.abs after) && (Z.abs before <? Z.abs after)
      then Reject (Some skew)
      else if usdcBalance i - shortfallReserve i <? reservedPayout i + size
      then Reject (Some liquidity)
      else Accept.

Definition skewRoom (net skewCap : Z) (s : PositionSide) : Z :=
  let a := Z.abs net in
  let increasing :=
    (net =? 0) || Bool.eqb (bool_decide (s = long)) (0 <? net) in
  if increasing then skewCap - a
  else a + (if skewCap <? a then a else skewCap).

(** The [for] loop of [forSide]: the first term with the least room. *)
Fixpoint bestTerm (best : CapacityBinding * Z) (terms : list (CapacityBinding * Z))
  : CapacityBinding * Z :=
  match terms with
  | [] => best
  | t :: terms => bestTerm (if t.2 <? best.2 then t else best) terms
  end.

(** The four gates' rooms for a side, in the contract's order. *)
Definition gateRooms (i : CapacityInputs) (s : PositionSide) : list (CapacityBinding * Z) :=
  [ (side, sideCapOf i - sideOi i s);
    (skew, skewRoom (longOi i - shortOi i) (skewCapOf i) s);
    (liquidity, usdcBalance i - shortfallReserve i - reservedPayout i) ].

Definition maxPos (i : CapacityInputs) : option Z :=
  match maxPositionSize i with
  | Some m => if 0 <? m then Some m else None
  | None => None
  end.

Definition bestRoom (i : CapacityInputs) (s : PositionSide) : CapacityBinding * Z :=
  bestTerm (aggregate, reserveCapOf i - reservedPayout i)
    (gateRooms i s ++ match maxPos i with Some m => [(maxPosition, m)] | None => [] end).

Definition forSide (i : CapacityInputs) (s : PositionSide) : SideHeadroom :=
  let best := bestRoom i s in {| headroom := floor0 best.2; binding := best.1 |}.

Definition computeHeadroom (i : CapacityInputs) : CapacityHeadroom :=
  let aggRoom := reserveCapOf i - reservedPayout i in
  let liqRoom := usdcBalance i - shortfallReserve i - reservedPayout i in
  {| hr_long := forSide i long;
     hr_short := forSide i short;
     aggregateHeadroom := floor0 (if liqRoom <? aggRoom then liqRoom else aggRoom);
     aggregateBinding := if liqRoom <? aggRoom then liquidity else aggregate;
     hr_reserveCap := reserveCapOf i;
     hr_sideCap := sideCapOf i;
     hr_skewCap := skewCapOf i;
     hr_net := longOi i - shortOi i |}.

(** The side's entry of the result. *)
Definition sideOf (h : CapacityHeadroom) (s : PositionSide) : SideHeadroom :=
  match s with long => hr_long h | short => hr_short h end.

(** ** Lemmas *)

Lemma sideOf_computeHeadroom i s : sideOf (computeHeadroom i) s = forSide i s.
Proof. by destruct s. Qed.

(** The skew gate is exactly "the size fits the skew room". *)
Lemma skew_gate i s size :
  0 < size ->
  ((skewCapOf i <? Z.abs (match s with long => longOi i - shortOi i + size
                                  | short => longOi i - shortOi i - size end))
   && (Z.abs (longOi i - shortOi i) <?
       Z.abs (match s with long => longOi i - shortOi i + size
                      | short => longOi i - shortOi i - size end)))
  = negb (size <=? skewRoom (longOi i - shortOi i) (skewCapOf i) s).
Proof.
  intros Hs. generalize (longOi i - shortOi i) as n. generalize (skewCapOf i) as c.
  intros c n. unfold skewRoom.
  destruct s; simpl; destruct (n =? 0) eqn:?; destruct (0 <? n) eqn:?; simpl; reflect_bools;
    repeat match goal with
    | |- context [?a <? ?b] => destruct (Z.ltb_spec a b)
    | |- context [?a <=? ?b] => destruct (Z.leb_spec a b)
    end; simpl; try reflexivity; lia.
Qed.

(** Accepting is fitting every gate's room. *)
Lemma vaultAccepts_rooms i s size :
  vaultAccepts i s size = Accept <->
  0 < size /\ size <= reserveCapOf i - reservedPayout i /\
  Forall (fun t => size <= t.2) (gateRooms i s).
Proof.
  unfold vaultAccepts, gateRooms. rewrite !Forall_cons, Forall_nil; simpl.
  destruct (Z.leb_spec size 0); [split; [done|lia]|].
  rewrite skew_gate by lia. bool_cases; split; try done; intros; lia.
Qed.

Lemma bestTerm_le b ts :
  (bestTerm b ts).2 <= b.2 /\ Forall (fun t => (bestTerm b ts).2 <= t.2) ts.
Proof.
  revert b; induction ts as [|t ts IH]; intros b; simpl; [split; [lia|constructor]|].
  destruct (Z.ltb_spec t.2 b.2);
    [destruct (IH t) as [? ?] | destruct (IH b) as [? ?]];
    (split; [lia | constructor; [lia | done]]).
Qed.

Lemma bestTerm_in b ts : bestTerm b ts = b \/ bestTerm b ts ∈ ts.
Proof.
  revert b; induction ts as [|t ts IH]; intros b; simpl; [by left|].
  destruct (t.2 <? b.2).
  - destruct (IH t) as [-> | ?]; right; [left | by right].
  - destruct (IH b) as [-> | ?]; [by left | right; by right].
Qed.

(** Every size bound below the best room is a bound below each room. *)
Lemma bestTerm_glb b ts n :
  n <= (bestTerm b ts).2 <-> n <= b.2 /\ Forall (fun t => n <= t.2) ts.
Proof.
  split.
  - intros Hn. destruct (bestTerm_le b ts) as [Hb Hts]. split; [lia|].
    eapply Forall_impl; [exact Hts|]. simpl; intros; lia.
  - intros [Hb Hts]. destruct (bestTerm_in b ts) as [-> | Hin]; [done|].
    by apply (proj1 (Forall_forall _ _) Hts).
Qed.

(** The gates as one ordered list. *)
Definition gates (i : CapacityInputs) (s : PositionSide) : list (CapacityBinding * Z) :=
  (aggregate, reserveCapOf i - reservedPayout i) :: gateRooms i s.

(** The first gate whose room is below [size]. *)
Fixpoint firstFull (size : Z) (ts : list (CapacityBinding * Z)) : Verdict :=
  match ts with
  | [] => Accept
  | t :: ts => if t.2 <? size then Reject (Some t.1) else firstFull size ts
  end.

Lemma vaultAccepts_firstFull i s size :
  0 < size -> vaultAccepts i s size = firstFull size (gates i s).
Proof.
  intros Hs. unfold vaultAccepts, gates, gateRooms. simpl.
  destruct (Z.leb_spec size 0); [lia|]. rewrite skew_gate by done.
  repeat match goal with
  | |- context [?a <? ?b] => destruct (Z.ltb_spec a b)
  | |- context [?a <=? ?b] => destruct (Z.leb_spec a b)
  end; simpl; try reflexivity; lia.
Qed.

(** The loop keeps the first of the equally tight terms, so the first term
    with room below [best + 1] is the best one. *)
Lemma firstFull_best b ts :
  firstFull ((bestTerm b ts).2 + 1) (b :: ts) = Reject (Some (bestTerm b ts).1).
Proof.
  revert b; induction ts as [|t ts IH]; intros b; simpl.
  - destruct (Z.ltb_spec b.2 (b.2 + 1)); [done | lia].
  - destruct (Z.ltb_spec t.2 b.2) as [Hlt|Hge].
    + destruct (bestTerm_le t ts) as [Ht _]. rewrite <- (IH t). simpl.
      destruct (Z.ltb_spec b.2 ((bestTerm t ts).2 + 1)); [lia | done].
    + destruct (bestTerm_le b ts) as [Hb _]. specialize (IH b). simpl in IH.
      destruct (Z.ltb_spec b.2 ((bestTerm b ts).2 + 1)); [done|].
      destruct (Z.ltb_spec t.2 ((bestTerm b ts).2 + 1)); [lia | done].
Qed.

Lemma bestTerm_app b ts us :
  bestTerm b (ts ++ us) = bestTerm (bestTerm b ts) us.
Proof. revert b; induction ts as [|t ts IH]; intros b; simpl; [done | apply IH]. Qed.

(** The best room is the gates' best, unless the position limit is tighter. *)
Lemma bestRoom_gate i s :
  (bestRoom i s).1 ≠ maxPosition ->
  bestRoom i s = bestTerm (aggregate, reserveCapOf i - reservedPayout i) (gateRooms i s).
Proof.
  unfold bestRoom. rewrite bestTerm_app. destruct (maxPos i) as [m|]; simpl; [|done].
  bool_cases; simpl; done.
Qed.

(** A size passes the gates and the position limit exactly when it is positive
    and within the side's headroom. *)
Lemma forSide_iff i s size :
  (vaultAccepts i s size = Accept /\ forall m, maxPos i = Some m -> size <= m) <->
  0 < size /\ size <= headroom (forSide i s).
Proof.
  rewrite vaultAccepts_rooms. unfold forSide; simpl.
  rewrite floor0_max. unfold bestRoom.
  assert (forall n, n <= Z.max 0 (bestTerm (aggregate, reserveCapOf i - reservedPayout i)
      (gateRooms i s ++ match maxPos i with Some m => [(maxPosition, m)] | None => [] end)).2
    /\ 0 < n <-> 0 < n /\ n <= reserveCapOf i - reservedPayout i /\
      Forall (fun t => n <= t.2) (gateRooms i s) /\ (forall m, maxPos i = Some m -> n <= m))
    as Hglb; [|specialize (Hglb size); tauto].
  intros n. set (b := bestTerm _ _).
  transitivity (0 < n /\ n <= b.2); [lia|]. subst b.
  rewrite bestTerm_glb, Forall_app. simpl.
  destruct (maxPos i) as [m|]; rewrite ?Forall_cons, ?Forall_nil; simpl;
    intuition (try lia; try congruence; eauto).
Qed.

(** ** Properties *)

(** C36. The headroom is exact: an order of [size] on a side passes all four
    vault gates and the market's position limit exactly when
    [0 < size <= headroom]. *)
Theorem headroom_exact i s size :
  (vaultAccepts i s size = Accept /\ forall m, maxPos i = Some m -> size <= m) <->
  0 < size /\ size <= headroom (sideOf (computeHeadroom i) s).
Proof. rewrite sideOf_computeHeadroom. apply forSide_iff. Qed.

(** The reported binding is the gate that rejects one more unit, as long
    as no gate is over-committed already. *)
Theorem binding_rejects_next_unit i s :
  Forall (fun t => 0 <= t.2) (gates i s) ->
  binding (sideOf (computeHeadroom i) s) ≠ maxPosition ->
  vaultAccepts i s (headroom (sideOf (computeHeadroom i) s) + 1)
  = Reject (Some (binding (sideOf (computeHeadroom i) s))).
Proof.
  rewrite sideOf_computeHeadroom. unfold forSide; simpl. intros Hnn Hb.
  pose proof (bestRoom_gate i s Hb) as ->. unfold gates in Hnn.
  apply Forall_cons in Hnn as [Hagg Hrest]. simpl in Hagg.
  assert (0 <= (bestTerm (aggregate, reserveCapOf i - reservedPayout i) (gateRooms i s)).2)
    by (apply bestTerm_glb; simpl; auto).
  rewrite floor0_max, Z.max_r by done.
  rewrite vaultAccepts_firstFull by lia. apply firstFull_best.
Qed.

(** A pool with every gate open: the long side binds on the side cap. *)
Definition sampleInputs : CapacityInputs := {|
  aum := 1000000; reservedPayout := 300000; reserveCapBps := 8000;
  usdcBalance := 900000; shortfallReserve := 1000; assetCapBps := 4000;
  capAbs := 0; skewCapBps := 3000; longOi := 200000; shortOi := 100000;
  maxPositionSize := Some 1000000 |}.

Lemma binding_rejects_next_unit_witness :
  vaultAccepts sampleInputs long 200001 = Reject (Some side).
Proof.
  apply (binding_rejects_next_unit sampleInputs long).
  - repeat constructor; vm_compute; discriminate.
  - vm_compute. discriminate.
Defined.

(** When two gates are over-committed the binding can name the wrong one:
    the reported binding is the most negative room, while the vault reports
    the first closed gate. *)
Theorem binding_overcommitted_diverges :
  exists i s,
    binding (sideOf (computeHeadroom i) s) = side /\
    headroom (sideOf (computeHeadroom i) s) = 0 /\
    vaultAccepts i s 1 = Reject (Some aggregate).
Proof.
  exists {| aum := 1000000; reservedPayout := 800000; reserveCapBps := 8000;
       usdcBalance := 900000; shortfallReserve := 0; assetCapBps := 4000;
       capAbs := 0; skewCapBps := 3000; longOi := 400001; shortOi := 399999;
       maxPositionSize := None |}, long.
  vm_compute. auto.
Qed.

(** Skew-reducing opens are never blocked by the skew gate, even on a
    book already past a tightened cap, until they overshoot the old skew. *)
Theorem skew_reducing_always_admitted i size :
  shortOi i < longOi i -> 0 < size -> size <= 2 * (longOi i - shortOi i) ->
  vaultAccepts i short size ≠ Reject (Some skew).
Proof.
  intros Hnet Hs Hle. rewrite vaultAccepts_firstFull by done.
  unfold gates, gateRooms; simpl.
  assert (size <= skewRoom (longOi i - shortOi i) (skewCapOf i) short) as Hroom.
  { unfold skewRoom; simpl. destruct (Z.eqb_spec (longOi i - shortOi i) 0); [lia|].
    destruct (Z.ltb_spec 0 (longOi i - shortOi i)); simpl; bool_cases; lia. }
  destruct (Z.ltb_spec (skewRoom (longOi i - shortOi i) (skewCapOf i) short) size);
    [lia | bool_cases; done].
Qed.

Lemma skew_reducing_always_admitted_witness :
  shortOi sampleInputs < longOi sampleInputs /\
  vaultAccepts sampleInputs short 200000 ≠ Reject (Some skew).
Proof.
  split; [reflexivity | apply (skew_reducing_always_admitted sampleInputs 200000);
    vm_compute; congruence].
Defined.
