(* ===== verification/Health.v ===== *)
(** * Local liquidation and ADL mathematics (scripts/keeper/src/health.ts)

    The keeper's BigInt mirror of the contract's health math: PnL, margins,
    the buffered liquidation prefilters for isolated positions and cross
    accounts, the ADL ranking and the trigger/clear hysteresis. *)

From S2P Require Import Prelude.
Open Scope Z_scope.
Open Scope js_scope.

Definition PRECISION : Z := 10000000.
Definition BASIS_POINTS : Z := 10000.
Definition DEFAULT_MAINTENANCE_MARGIN_BPS : Z := 100.
Definition CANDIDATE_BUFFER : Z := 2.

Inductive Direction := Long | Short.

#[export] Instance Direction_eq_dec : EqDecision Direction.
Proof. solve_decision. Defined.

(** [HealthPosition], extended with the fields of the keeper's [Position]
    that the scans read. *)
Record Position := {
  id : Z;
  trader : string;
  asset : string;
  collateral : Z;
  size : Z;
  entry_price : Z;
  direction : Direction;
  leverage : Z;
  liquidation_price : Z;
  margin_mode : Z;
}.

#[export] Instance Position_eq_dec : EqDecision Position.
Proof. solve_decision. Defined.

Definition calculatePnl (p : Position) (currentPrice : Z) : Z :=
  if entry_price p =? 0 then 0
  else
    let priceDiff :=
      match direction p with
      | Long => currentPrice - entry_price p
      | Short => entry_price p - currentPrice
      end in
    (size p * priceDiff) ÷ entry_price p.

Definition positionMargin (p : Position) (currentPrice funding : Z) : Z :=
  collateral p + calculatePnl p currentPrice - funding.

Definition maintenanceMargin (sz mmBps : Z) : Z := (sz * mmBps) ÷ BASIS_POINTS.

Definition crossesLiquidationPrice (p : Position) (currentPrice : Z) : bool :=
  if liquidation_price p <=? 0 then false
  else match direction p with
       | Long => currentPrice <=? liquidation_price p
       | Short => liquidation_price p <=? currentPrice
       end.

Definition isUnderwater (p : Position) (currentPrice mmBps funding : Z) : bool :=
  if crossesLiquidationPrice p currentPrice then true
  else positionMargin p currentPrice funding <? maintenanceMargin (size p) mmBps.

Definition isLiquidationCandidate (p : Position) (currentPrice mmBps buffer : Z) : bool :=
  if crossesLiquidationPrice p currentPrice then true
  else positionMargin p currentPrice 0 <? maintenanceMargin (size p) mmBps * buffer.

(** The loop of [isCrossLiquidationCandidate]: [None] when a leg has no
    usable price (the early [return true]). *)
Fixpoint crossTotals (mmOf : Position -> Z) (prices : gmap string Z)
    (ps : list Position) (equity totalMaintenance : Z) : option (Z * Z) :=
  match ps with
  | [] => Some (equity, totalMaintenance)
  | p :: ps =>
      match prices !! asset p with
      | None => None
      | Some price =>
          if price <=? 0 then None
          else crossTotals mmOf prices ps
                 (equity + (collateral p + calculatePnl p price))
                 (totalMaintenance + maintenanceMargin (size p) (mmOf p))
      end
  end.

Definition isCrossLiquidationCandidate (poolBalance : Z) (ps : list Position)
    (prices : gmap string Z) (mmOf : Position -> Z) (buffer : Z) : bool :=
  match ps with
  | [] => false
  | _ =>
      match crossTotals mmOf prices ps poolBalance 0 with
      | None => true
      | Some (equity, totalMaintenance) => equity <? totalMaintenance * buffer
      end
  end.

Fixpoint crossEquity (poolBalance : Z) (ps : list Position) (prices : gmap string Z)
  : option Z :=
  match ps with
  | [] => Some poolBalance
  | p :: ps =>
      match prices !! asset p with
      | None => None
      | Some price =>
          if price <=? 0 then None
          else crossEquity (poolBalance + (collateral p + calculatePnl p price)) ps prices
      end
  end.

Definition adlRank (pnl coll lev : Z) : Z :=
  if (pnl <=? 0) || (coll <=? 0) then 0
  else ((pnl * BASIS_POINTS) ÷ coll) * lev.

(** The per-side exposure sums (lk, ls, sk, ss) of [assetPayableUpnl]. *)
Record Exposure := { lk : Z; ls : Z; sk : Z; ss : Z }.

Definition addExposure (e : Exposure) (p : Position) : Exposure :=
  if entry_price p <=? 0 then e
  else
    let qty := (size p * PRECISION) ÷ entry_price p in
    match direction p with
    | Long => {| lk := lk e + qty; ls := ls e + size p; sk := sk e; ss := ss e |}
    | Short => {| lk := lk e; ls := ls e; sk := sk e + qty; ss := ss e + size p |}
    end.

Definition exposureOf (ps : list Position) : Exposure :=
  foldl addExposure {| lk := 0; ls := 0; sk := 0; ss := 0 |} ps.

Definition longUpnl (e : Exposure) (price : Z) : Z := (price * lk e) ÷ PRECISION - ls e.
Definition shortUpnl (e : Exposure) (price : Z) : Z := ss e - (price * sk e) ÷ PRECISION.

Definition assetPayableUpnl (ps : list Position) (price : Z) : Z :=
  if price <=? 0 then 0
  else
    let e := exposureOf ps in
    (if 0 <? longUpnl e price then longUpnl e price else 0)
    + (if 0 <? shortUpnl e price then shortUpnl e price else 0).

Inductive AdlFlagDecision := activate | clear | hold.

Definition adlFlagDecision (payable coverage : Z) (active : bool)
    (triggerBps clearBps : Z) : AdlFlagDecision :=
  if negb active then
    if (0 <? payable) && (coverage * BASIS_POINTS <? payable * triggerBps)
    then activate else hold
  else
    if (payable =? 0) || (payable * clearBps <=? coverage * BASIS_POINTS)
    then clear else hold.

Record Ranked := { position : Position; pnl : Z; score : Z }.

(** The [for] loop of [rankAdlCandidates]. *)
Fixpoint adlWinners (ps : list Position) (price : Z) : list Ranked :=
  match ps with
  | [] => []
  | p :: ps =>
      let v := calculatePnl p price in
      if v <=? 0 then adlWinners ps price
      else {| position := p; pnl := v; score := adlRank v (collateral p) (leverage p) |}
           :: adlWinners ps price
  end.

(** The comparator: [a] is not ordered after [b]. *)
Definition rankedBefore (a b : Ranked) : Prop :=
  score b < score a \/ (score a = score b /\ id (position a) <= id (position b)).

#[export] Instance rankedBefore_dec : RelDecision rankedBefore.
Proof. unfold RelDecision, rankedBefore. intros a b. apply _. Defined.

Definition rankAdlCandidates (ps : list Position) (price : Z) : list Ranked :=
  merge_sort rankedBefore (adlWinners ps price).

(** ** Lemmas on the isolated math *)

Lemma maintenanceMargin_mono sz mm mm' :
  0 <= sz -> mm' <= mm -> maintenanceMargin sz mm' <= maintenanceMargin sz mm.
Proof. intros Hs Hm. apply quot_mono; [unfold BASIS_POINTS; lia | nia]. Qed.

Lemma maintenanceMargin_nonneg sz mm :
  0 <= sz -> 0 <= mm -> 0 <= maintenanceMargin sz mm.
Proof. intros Hs Hm. apply Z.quot_pos; [nia | unfold BASIS_POINTS; lia]. Qed.

#[export] Hint Resolve maintenanceMargin_mono maintenanceMargin_nonneg : noether.

(** The other side of the same position. *)
Definition flip (p : Position) : Position := {|
  id := id p; trader := trader p; asset := asset p; collateral := collateral p;
  size := size p; entry_price := entry_price p;
  direction := match direction p with Long => Short | Short => Long end;
  leverage := leverage p; liquidation_price := liquidation_price p;
  margin_mode := margin_mode p |}.

Lemma calculatePnl_flip p price : calculatePnl (flip p) price = - calculatePnl p price.
Proof.
  unfold calculatePnl, flip; simpl. destruct (entry_price p =? 0); [done|].
  destruct (direction p); rewrite <- quot_opp; f_equal; ring.
Qed.

Lemma calculatePnl_long_mono p price price' :
  direction p = Long -> 0 <= size p -> 0 < entry_price p -> price <= price' ->
  calculatePnl p price <= calculatePnl p price'.
Proof.
  intros Hd Hs He Hp. unfold calculatePnl. rewrite Hd.
  destruct (Z.eqb_spec (entry_price p) 0); [lia|]. apply quot_mono; [done|nia].
Qed.

(** Maximum loss of a long at a zero price. *)
Lemma calculatePnl_long_at_zero p :
  direction p = Long -> 0 < entry_price p -> calculatePnl p 0 = - size p.
Proof.
  intros Hd He. unfold calculatePnl. rewrite Hd.
  destruct (Z.eqb_spec (entry_price p) 0); [lia|].
  replace (size p * (0 - entry_price p)) with (- size p * entry_price p) by ring.
  by apply Z.quot_mul.
Qed.

(** ** Lemmas on cross accounts *)

Lemma crossTotals_shift mmOf prices ps e t e' t' :
  crossTotals mmOf prices ps e t = Some (e', t') ->
  crossTotals mmOf prices ps 0 0 = Some (e' - e, t' - t).
Proof.
  assert (forall e t d u, crossTotals mmOf prices ps (e + d) (t + u)
     = (fun r => (r.1 + d, r.2 + u)) <$> crossTotals mmOf prices ps e t) as Hsh.
  { induction ps as [|p ps IH]; intros e0 t0 d u; simpl; [done|].
    destruct (prices !! asset p) as [price|]; [|done].
    destruct (price <=? 0); [done|]. rewrite <- IH. f_equal; ring. }
  intros He. replace 0 with (e + - e) at 1 by ring. replace 0 with (t + - t) by ring.
  rewrite Hsh, He. simpl. do 2 f_equal; lia.
Qed.

Lemma crossTotals_equity mmOf prices ps e t :
  fst <$> crossTotals mmOf prices ps e t = crossEquity e ps prices.
Proof.
  revert e t; induction ps as [|p ps IH]; intros e t; simpl; [done|].
  destruct (prices !! asset p) as [price|]; [|done].
  by destruct (price <=? 0).
Qed.

Lemma crossTotals_mm mmOf mmOf' prices ps e t t' e1 t1 :
  (forall p, p ∈ ps -> 0 <= size p /\ mmOf' p <= mmOf p) -> t' <= t ->
  crossTotals mmOf prices ps e t = Some (e1, t1) ->
  exists t1', crossTotals mmOf' prices ps e t' = Some (e1, t1') /\ t1' <= t1.
Proof.
  revert e t t'; induction ps as [|p ps IH]; intros e t t' Hps Ht; simpl.
  - intros ?; simplify_eq. eauto.
  - destruct (prices !! asset p) as [price|]; [|done].
    destruct (price <=? 0); [done|]. apply IH.
    + intros q Hq. apply Hps. by right.
    + destruct (Hps p) as [? ?]; [by left|].
      auto using Z.add_le_mono with noether.
Qed.

Lemma crossTotals_lower mmOf prices ps e t e1 t1 :
  (forall p, p ∈ ps -> 0 <= size p /\ 0 <= mmOf p) ->
  crossTotals mmOf prices ps e t = Some (e1, t1) -> t <= t1.
Proof.
  revert e t; induction ps as [|p ps IH]; intros e t Hps; simpl; [by intros; simplify_eq|].
  destruct (prices !! asset p) as [price|]; [|done].
  destruct (price <=? 0); [done|]. intros Hc.
  apply IH in Hc; [|intros q Hq; apply Hps; by right].
  destruct (Hps p) as [? ?]; [by left|].
  assert (0 <= maintenanceMargin (size p) (mmOf p)) by auto with noether. lia.
Qed.

(** The contract's account test, with the pending funding it charges. *)
Definition crossLiquidatable (poolBalance : Z) (ps : list Position)
    (prices : gmap string Z) (mmOf : Position -> Z) (funding : Z) : bool :=
  match ps with
  | [] => false
  | _ =>
      match crossTotals mmOf prices ps poolBalance 0 with
      | None => false
      | Some (equity, totalMaintenance) => equity - funding <? totalMaintenance
      end
  end.

(** ** Lemmas on the ADL ranking *)

#[export] Instance rankedBefore_trans : Transitive rankedBefore.
Proof. intros a b c. unfold rankedBefore. lia. Qed.

#[export] Instance rankedBefore_total : Total rankedBefore.
Proof. intros a b. unfold rankedBefore. lia. Qed.

Lemma elem_of_adlWinners ps price r :
  r ∈ adlWinners ps price <->
  position r ∈ ps /\ 0 < pnl r /\ pnl r = calculatePnl (position r) price /\
  score r = adlRank (pnl r) (collateral (position r)) (leverage (position r)).
Proof.
  induction ps as [|p ps IH]; simpl.
  - split; [intros ?%not_elem_of_nil; done | intros [?%not_elem_of_nil _]; done].
  - destruct (Z.leb_spec (calculatePnl p price) 0); rewrite ?elem_of_cons, IH.
    + split; [tauto|]. intros ([->|] & ? & Heq & ?); [|tauto].
      rewrite Heq in *. lia.
    + split.
      * intros [-> | ?]; [simpl; tauto | tauto].
      * destruct r as [q v s]; simpl. intros ([->|] & ? & -> & ->); [by left | tauto].
Qed.

Lemma adlWinners_Permutation ps qs price :
  ps ≡ₚ qs -> adlWinners ps price ≡ₚ adlWinners qs price.
Proof.
  induction 1 as [|p ps qs _ IH|p q ps|ps qs rs _ IH1 _ IH2]; simpl; [done| | |].
  - destruct (calculatePnl p price <=? 0); [done | by constructor].
  - destruct (calculatePnl p price <=? 0), (calculatePnl q price <=? 0);
      try done. constructor.
  - by transitivity (adlWinners qs price).
Qed.

(** Two ranked entries neither of which precedes the other strictly have the
    same position, when positions are identified by their id. *)
Lemma rankedBefore_antisym_on rs rs' :
  (forall a b, a ∈ rs -> b ∈ rs -> id (position a) = id (position b) -> a = b) ->
  rs ≡ₚ rs' -> Sorted rankedBefore rs -> Sorted rankedBefore rs' -> rs = rs'.
Proof.
  intros Hinj Hp Hs Hs'.
  apply (Sorted_unique_strong rankedBefore); [|done..].
  intros a b Ha Hb Hab Hba. rewrite <- Hp in Hb. apply Hinj; [done..|].
  unfold rankedBefore in Hab, Hba. lia.
Qed.

(** ** Lemmas on the payable-uPnL aggregation *)

(** Winners' total, position by position. *)
Definition winnersTotal (ps : list Position) (price : Z) : Z :=
  foldr (fun p acc => Z.max 0 (calculatePnl p price) + acc) 0 ps.

Definition wellFormedPosition (p : Position) : Prop := 0 <= size p /\ 0 < entry_price p.

(** One position's scaled exposure exceeds its scaled PnL by less than one
    unit plus one price step. *)
Lemma long_exposure_step p price :
  direction p = Long -> wellFormedPosition p -> 0 < price ->
  price * ((size p * PRECISION) ÷ entry_price p) - PRECISION * size p
  <= PRECISION * (Z.max 0 (calculatePnl p price) + 1).
Proof.
  intros Hd [Hs He] Hp. unfold calculatePnl. rewrite Hd.
  destruct (Z.eqb_spec (entry_price p) 0); [lia|].
  set (q := _ ÷ entry_price p). set (m := _ ÷ entry_price p).
  assert (entry_price p * q <= size p * PRECISION).
  { apply Z.mul_quot_le; [unfold PRECISION; lia | lia]. }
  assert (size p * (price - entry_price p) < entry_price p * (m + 1))
    by (by apply quot_lower).
  assert (0 < PRECISION) by done.
  assert (entry_price p * (price * q - PRECISION * size p)
          <= entry_price p * (PRECISION * (Z.max 0 m + 1))) by nia.
  nia.
Qed.

Lemma short_exposure_step p price :
  direction p = Short -> wellFormedPosition p -> 0 < price ->
  PRECISION * size p - price * ((size p * PRECISION) ÷ entry_price p)
  <= PRECISION * (Z.max 0 (calculatePnl p price) + 1) + price.
Proof.
  intros Hd [Hs He] Hp. unfold calculatePnl. rewrite Hd.
  destruct (Z.eqb_spec (entry_price p) 0); [lia|].
  set (q := _ ÷ entry_price p). set (m := _ ÷ entry_price p).
  assert (size p * PRECISION < entry_price p * (q + 1)) by (by apply quot_lower).
  assert (size p * (entry_price p - price) < entry_price p * (m + 1))
    by (by apply quot_lower).
  assert (0 < PRECISION) by done.
  assert (price * (size p * PRECISION) <= price * (entry_price p * (q + 1))) by nia.
  assert (PRECISION * (size p * (entry_price p - price))
          <= PRECISION * (entry_price p * (m + 1))) by nia.
  assert (entry_price p * (PRECISION * size p - price * q)
          <= entry_price p * (PRECISION * (Z.max 0 m + 1) + price)) by nia.
  nia.
Qed.

(** What the long (resp. short) positions can contribute, scaled. *)
Definition longWeight (price : Z) (p : Position) : Z :=
  match direction p with
  | Long => PRECISION * (Z.max 0 (calculatePnl p price) + 1)
  | Short => 0
  end.
Definition shortWeight (price : Z) (p : Position) : Z :=
  match direction p with
  | Long => 0
  | Short => PRECISION * (Z.max 0 (calculatePnl p price) + 1) + price
  end.
Definition sumOf (f : Position -> Z) (ps : list Position) : Z :=
  foldr (fun p acc => f p + acc) 0 ps.

Lemma exposure_bound ps price e :
  Forall wellFormedPosition ps -> 0 < price ->
  let e' := foldl addExposure e ps in
  price * lk e' - PRECISION * ls e'
    <= price * lk e - PRECISION * ls e + sumOf (longWeight price) ps /\
  PRECISION * ss e' - price * sk e'
    <= PRECISION * ss e - price * sk e + sumOf (shortWeight price) ps.
Proof.
  intros Hwf Hp. revert e. induction Hwf as [|p ps Hw _ IH]; intros e; simpl; [lia|].
  destruct (IH (addExposure e p)) as [IHl IHs]. clear IH.
  revert IHl IHs. generalize (foldl addExposure (addExposure e p) ps) as e'.
  intros e'. unfold addExposure, longWeight, shortWeight.
  destruct (Z.leb_spec (entry_price p) 0); [destruct Hw; lia|].
  destruct (direction p) eqn:Hd; simpl.
  - pose proof (long_exposure_step p price Hd Hw Hp). lia.
  - pose proof (short_exposure_step p price Hd Hw Hp). lia.
Qed.

Lemma exposure_lk_nonneg ps e :
  Forall wellFormedPosition ps -> 0 <= lk e -> 0 <= lk (foldl addExposure e ps).
Proof.
  intros Hwf. revert e. induction Hwf as [|p ps [Hs He] _ IH]; intros e Hlk; simpl; [done|].
  apply IH. unfold addExposure. destruct (Z.leb_spec (entry_price p) 0); [done|].
  destruct (direction p); simpl; [|done].
  assert (0 <= (size p * PRECISION) ÷ entry_price p)
    by (apply Z.quot_pos; [unfold PRECISION|]; lia). lia.
Qed.

Lemma weights_total ps price :
  0 < price ->
  sumOf (longWeight price) ps + sumOf (shortWeight price) ps
  <= PRECISION * winnersTotal ps price + Z.of_nat (length ps) * (PRECISION + price).
Proof.
  intros Hp. induction ps as [|p ps IH]; simpl; [lia|].
  unfold longWeight at 1, shortWeight at 1.
  assert (0 < PRECISION) by done. destruct (direction p); lia.
Qed.

Lemma sumOf_nonneg f ps : (forall p, 0 <= f p) -> 0 <= sumOf f ps.
Proof. intros Hf. induction ps as [|p ps IH]; simpl; [lia|]. specialize (Hf p). lia. Qed.

Lemma winnersTotal_adlWinners ps price :
  winnersTotal ps price = foldr (fun r acc => pnl r + acc) 0 (adlWinners ps price).
Proof.
  induction ps as [|p ps IH]; simpl; [done|].
  destruct (Z.leb_spec (calculatePnl p price) 0); simpl; lia.
Qed.

(** ** Properties *)

(** Prefilter soundness: if the contract's test finds a position under
    water, with a maintenance margin no larger than the keeper's and a
    pending funding charge the buffer covers, the position is a candidate.
    The local prefilter therefore never hides a liquidatable position. *)
Theorem prefilter_sound p price mm mmOnChain buffer funding :
  0 <= size p -> 0 <= mm -> mmOnChain <= mm ->
  funding <= maintenanceMargin (size p) mm * (buffer - 1) ->
  isUnderwater p price mmOnChain funding = true ->
  isLiquidationCandidate p price mm buffer = true.
Proof.
  intros Hs Hmm Hle Hf. unfold isUnderwater, isLiquidationCandidate.
  destruct (crossesLiquidationPrice p price); [done|].
  unfold positionMargin. rewrite !Z.ltb_lt.
  pose proof (maintenanceMargin_mono (size p) mm mmOnChain Hs Hle). lia.
Qed.

Definition sampleLong : Position := {|
  id := 7; trader := "GA"; asset := "BTC"; collateral := 1000; size := 10000;
  entry_price := 500; direction := Long; leverage := 10;
  liquidation_price := 0; margin_mode := 0 |}.

Lemma prefilter_sound_witness :
  isUnderwater sampleLong 457 100 100 = true /\
  isLiquidationCandidate sampleLong 457 200 CANDIDATE_BUFFER = true.
Proof.
  split; [reflexivity|].
  apply (prefilter_sound sampleLong 457 200 100 CANDIDATE_BUFFER 100);
    vm_compute; congruence.
Defined.

(** Cross prefilter soundness: an account the contract's account test
    would liquidate is a cross candidate whenever every leg's margin
    parameter is conservative and the buffer covers the pending funding;
    and an account with an unpriced leg is always a candidate. *)
Theorem cross_prefilter_sound pool ps prices mmOf mmOnChain buffer funding :
  (forall p, p ∈ ps -> 0 <= size p /\ 0 <= mmOf p /\ mmOnChain p <= mmOf p) ->
  (forall e t, crossTotals mmOf prices ps pool 0 = Some (e, t) ->
     funding <= t * (buffer - 1)) ->
  (ps ≠ [] -> crossTotals mmOf prices ps pool 0 = None ->
     isCrossLiquidationCandidate pool ps prices mmOf buffer = true) /\
  (crossLiquidatable pool ps prices mmOnChain funding = true ->
     isCrossLiquidationCandidate pool ps prices mmOf buffer = true).
Proof.
  intros Hps Hf. unfold isCrossLiquidationCandidate, crossLiquidatable.
  destruct ps as [|p0 ps0] eqn:Heq; [done|]. rewrite <- Heq in *. clear Heq p0 ps0.
  destruct (crossTotals mmOf prices ps pool 0) as [[e t]|] eqn:Hc; [|done].
  split; [done|]. specialize (Hf e t eq_refl).
  destruct (crossTotals_mm mmOf mmOnChain prices ps pool 0 0 e t) as (t' & -> & Ht);
    [intros p Hp; destruct (Hps p Hp); lia | lia | done |].
  rewrite !Z.ltb_lt. lia.
Qed.

Lemma cross_prefilter_sound_witness :
  crossLiquidatable 0 [sampleLong] {["BTC" := 457]} (fun _ => 100) 100 = true /\
  isCrossLiquidationCandidate 0 [sampleLong] {["BTC" := 457]} (fun _ => 200)
    CANDIDATE_BUFFER = true.
Proof.
  split; [reflexivity|].
  apply (cross_prefilter_sound 0 [sampleLong] {["BTC" := 457]} (fun _ => 200)
           (fun _ => 100) CANDIDATE_BUFFER 100).
  - intros p ->%list_elem_of_singleton. vm_compute. intuition congruence.
  - intros e t. vm_compute. intros [= <- <-]. congruence.
  - reflexivity.
Defined.

(** The bankruptcy override fires only on accounts the prefilter already
    selects: equity at or below zero with a positive maintenance total makes
    the account a candidate, and an unpriced leg never counts as bankrupt. *)
Theorem cross_bankrupt_is_candidate pool ps prices mmOf buffer e :
  ps ≠ [] -> 1 <= buffer ->
  (forall p, p ∈ ps -> 0 <= size p /\ 0 <= mmOf p) ->
  crossEquity pool ps prices = Some e -> e <= 0 ->
  (exists e' t, crossTotals mmOf prices ps 0 0 = Some (e', t) /\ 0 < t) ->
  isCrossLiquidationCandidate pool ps prices mmOf buffer = true.
Proof.
  intros Hne Hb Hps He Hle (e' & t & Ht & Hpos).
  unfold isCrossLiquidationCandidate. destruct ps as [|p0 ps0] eqn:Heq; [done|].
  rewrite <- Heq in *. clear Heq p0 ps0.
  rewrite <- (crossTotals_equity mmOf prices ps pool 0) in He.
  destruct (crossTotals mmOf prices ps pool 0) as [[e1 t1]|] eqn:Hc; [|done].
  simpl in He. simplify_eq. apply crossTotals_shift in Hc. simplify_eq.
  apply Z.ltb_lt. nia.
Qed.

Lemma cross_bankrupt_is_candidate_witness :
  crossEquity 0 [sampleLong] {["BTC" := 440]} = Some (-200) /\
  isCrossLiquidationCandidate 0 [sampleLong] {["BTC" := 440]} (fun _ => 100) 2 = true.
Proof.
  split; [reflexivity|].
  apply (cross_bankrupt_is_candidate 0 [sampleLong] {["BTC" := 440]} (fun _ => 100) 2 (-200)).
  - congruence.
  - lia.
  - intros p ->%list_elem_of_singleton. vm_compute. intuition congruence.
  - reflexivity.
  - lia.
  - exists (-200), 100. split; reflexivity.
Defined.

(** The PnL is a zero-sum bet between the two sides, zero at the entry
    price; a long's PnL is monotone in the price and loses at most its size. *)
Theorem pnl_zero_sum_bounded p price :
  0 <= size p -> 0 < entry_price p -> 0 <= price ->
  calculatePnl (flip p) price = - calculatePnl p price /\
  calculatePnl p (entry_price p) = 0 /\
  (direction p = Long -> - size p <= calculatePnl p price) /\
  (direction p = Short -> calculatePnl p price <= size p).
Proof.
  intros Hs He Hp. split; [apply calculatePnl_flip|]. split.
  - unfold calculatePnl. destruct (Z.eqb_spec (entry_price p) 0); [done|].
    destruct (direction p); rewrite Z.sub_diag, Z.mul_0_r; by apply Z.quot_0_l.
  - split; intros Hd.
    + rewrite <- (calculatePnl_long_at_zero p) by done.
      by apply calculatePnl_long_mono.
    + assert (direction (flip p) = Long) as Hdf by (unfold flip; by rewrite Hd).
      pose proof (calculatePnl_long_at_zero (flip p) Hdf He) as Hz.
      pose proof (calculatePnl_long_mono (flip p) 0 price Hdf Hs He Hp) as Hm.
      rewrite Hz, calculatePnl_flip in Hm. unfold flip in Hm; simpl in Hm. lia.
Qed.

Lemma pnl_zero_sum_bounded_witness :
  - size sampleLong <= calculatePnl sampleLong 400.
Proof.
  destruct (pnl_zero_sum_bounded sampleLong 400) as (_ & _ & Hlong & _);
    [by vm_compute.. | by apply Hlong].
Defined.

(** Hysteresis: with the clear ratio at or above the trigger ratio, the
    condition that raises the ADL flag is never one that clears it, so the
    mirror cannot oscillate at fixed coverage. *)
Theorem adl_no_flap payable coverage triggerBps clearBps :
  triggerBps <= clearBps ->
  adlFlagDecision payable coverage false triggerBps clearBps = activate ->
  adlFlagDecision payable coverage true triggerBps clearBps = hold.
Proof.
  intros Hle. unfold adlFlagDecision; simpl.
  destruct (Z.ltb_spec 0 payable); simpl; [|done].
  destruct (Z.ltb_spec (coverage * BASIS_POINTS) (payable * triggerBps)); [|done].
  intros _. destruct (Z.eqb_spec payable 0); simpl; [lia|].
  destruct (Z.leb_spec (payable * clearBps) (coverage * BASIS_POINTS)); [nia|done].
Qed.

Lemma adl_no_flap_witness :
  adlFlagDecision 1000 900 true 9500 10500 = hold.
Proof. apply (adl_no_flap 1000 900 9500 10500); [lia | reflexivity]. Defined.

(** ADL ranking: the walk visits exactly the positions in profit, by
    descending score with ties by ascending id, and does not depend on the
    order of the snapshot. *)
Theorem adl_ranking_deterministic ps qs price :
  NoDup (id <$> ps) -> ps ≡ₚ qs ->
  Sorted rankedBefore (rankAdlCandidates ps price) /\
  (forall p, (exists r, r ∈ rankAdlCandidates ps price /\ position r = p) <->
             p ∈ ps /\ 0 < calculatePnl p price) /\
  rankAdlCandidates qs price = rankAdlCandidates ps price.
Proof.
  intros Hnd Hp. unfold rankAdlCandidates.
  split; [apply Sorted_merge_sort; apply _ | split].
  - intros p. split.
    + intros (r & Hr & <-). rewrite merge_sort_Permutation, elem_of_adlWinners in Hr.
      destruct Hr as (? & ? & <- & _). done.
    + intros [Hin Hpos].
      exists {| position := p; pnl := calculatePnl p price;
           score := adlRank (calculatePnl p price) (collateral p) (leverage p) |}.
      by rewrite merge_sort_Permutation, elem_of_adlWinners.
  - symmetry. apply rankedBefore_antisym_on.
    + intros a b. rewrite !merge_sort_Permutation, !elem_of_adlWinners.
      intros (Ha & _ & Hva & Hsa) (Hb & _ & Hvb & Hsb) Hid.
      assert (position a = position b) as Hpos.
      { apply list_elem_of_lookup in Ha as [i Hi].
        apply list_elem_of_lookup in Hb as [j Hj].
        assert (i = j) as ->; [|congruence].
        eapply NoDup_lookup; [exact Hnd | |]; rewrite list_lookup_fmap;
          [rewrite Hi | rewrite Hj]; simpl; by rewrite ?Hid. }
      destruct a, b; simpl in *. congruence.
    + by rewrite !merge_sort_Permutation, (adlWinners_Permutation _ _ _ Hp).
    + apply Sorted_merge_sort; apply _.
    + apply Sorted_merge_sort; apply _.
Qed.

Definition sampleShort : Position := {|
  id := 3; trader := "GB"; asset := "BTC"; collateral := 500; size := 4000;
  entry_price := 600; direction := Short; leverage := 8;
  liquidation_price := 700; margin_mode := 0 |}.

Lemma adl_ranking_deterministic_witness :
  rankAdlCandidates [sampleShort; sampleLong] 550 = rankAdlCandidates [sampleLong; sampleShort] 550.
Proof.
  apply (adl_ranking_deterministic [sampleLong; sampleShort]).
  - by apply (bool_decide_unpack _); vm_compute.
  - apply perm_swap.
Defined.

(** The exposure aggregation tracks the winners' total: the payable
    amount exceeds the sum of the positions' positive PnLs by at most the
    rounding of one unit and one price step per position. *)
Theorem payable_tracks_winners ps price :
  Forall wellFormedPosition ps -> 0 < price ->
  0 <= assetPayableUpnl ps price /\
  PRECISION * assetPayableUpnl ps price
  <= PRECISION * winnersTotal ps price
     + (Z.of_nat (length ps) + 1) * (PRECISION + price).
Proof.
  intros Hwf Hp. unfold assetPayableUpnl.
  destruct (Z.leb_spec price 0); [lia|].
  pose proof (exposure_bound ps price {| lk := 0; ls := 0; sk := 0; ss := 0 |} Hwf Hp)
    as [Hl Hs]. fold (exposureOf ps) in Hl, Hs.
  simpl (lk {| lk := _ |}) in *. simpl (ls {| lk := _ |}) in *.
  simpl (sk {| lk := _ |}) in *. simpl (ss {| lk := _ |}) in *.
  pose proof (weights_total ps price Hp) as Hw. assert (0 < PRECISION) as HP by done.
  assert (0 <= sumOf (longWeight price) ps)
    by (apply sumOf_nonneg; intros p; unfold longWeight; destruct (direction p); lia).
  assert (0 <= sumOf (shortWeight price) ps)
    by (apply sumOf_nonneg; intros p; unfold shortWeight; destruct (direction p); lia).
  unfold longUpnl, shortUpnl. set (e := exposureOf ps) in *.
  assert (0 <= lk e) by (by apply exposure_lk_nonneg).
  pose proof (Z.mul_quot_le (price * lk e) PRECISION ltac:(nia) ltac:(lia)).
  pose proof (quot_lower (price * sk e) PRECISION HP) as Hsu.
  assert (PRECISION * (ss e - (price * sk e) ÷ PRECISION)
          <= sumOf (shortWeight price) ps + PRECISION) by lia.
  bool_cases; split; nia.
Qed.

Lemma payable_tracks_winners_witness :
  0 <= assetPayableUpnl [sampleLong; sampleShort] 550 /\
  PRECISION * assetPayableUpnl [sampleLong; sampleShort] 550
  <= PRECISION * winnersTotal [sampleLong; sampleShort] 550
     + (Z.of_nat (length [sampleLong; sampleShort]) + 1) * (PRECISION + 550).
Proof.
  apply (payable_tracks_winners [sampleLong; sampleShort] 550); [|lia].
  rewrite !Forall_cons, Forall_nil. vm_compute. intuition congruence.
Defined.
