(* ===== verification/Candles.v ===== *)
(** * Candle bucketing and aggregation

    [Bucketing] models indexer/src/candles/bucketing.ts: the bucket
    alignment and the one-tick fold [stepBucket]. [Aggregator] models the
    poll of indexer/src/candles/aggregator.ts: one fold per asset and
    interval, and the upsert of closed candles into the [candles] table.
    Prices are 7-decimal integers and timestamps whole seconds. *)

From S2P Require Import Prelude.
Open Scope Z_scope.
Open Scope js_scope.

Module Bucketing.

Record IntervalDef := { name : string; sec : Z; offset : Z }.

Definition CANDLE_INTERVALS : list IntervalDef :=
  [ {| name := "1m"; sec := 60; offset := 0 |};
    {| name := "5m"; sec := 300; offset := 0 |};
    {| name := "15m"; sec := 900; offset := 0 |};
    {| name := "1h"; sec := 3600; offset := 0 |};
    {| name := "4h"; sec := 14400; offset := 0 |};
    {| name := "1d"; sec := 86400; offset := 0 |};
    {| name := "1w"; sec := 604800; offset := 345600 |} ].

Definition bucketStart (ts sec offset : Z) : Z :=
  ts - Z.rem (Z.rem (ts - offset) sec + sec) sec.

Record BucketState := {
  bucket : Z; open : Z; high : Z; low : Z; close : Z; owned : bool }.

Record CandleRow := {
  bucketTs : Z; c_open : Z; c_high : Z; c_low : Z; c_close : Z }.

Definition rowOf (s : BucketState) : CandleRow :=
  {| bucketTs := bucket s; c_open := open s; c_high := high s;
     c_low := low s; c_close := close s |}.

Definition fresh (b price : Z) (own : bool) : BucketState :=
  {| bucket := b; open := price; high := price; low := price; close := price;
     owned := own |}.

(** The state after one observation and the candle it closes, if any. *)
Definition stepBucket (prev : option BucketState) (b price : Z)
  : BucketState * option CandleRow :=
  match prev with
  | None => (fresh b price false, None)
  | Some prev =>
      if b =? bucket prev then
        ({| bucket := b; open := open prev;
            high := if high prev <? price then price else high prev;
            low := if price <? low prev then price else low prev;
            close := price; owned := owned prev |}, None)
      else if bucket prev <? b then
        (fresh b price true, if owned prev then Some (rowOf prev) else None)
      else (prev, None)
  end.

(** The aggregator's repeated application over a stream of ticks. *)
Fixpoint runTicks (prev : option BucketState) (ticks : list (Z * Z))
  : option BucketState * list CandleRow :=
  match ticks with
  | [] => (prev, [])
  | (b, price) :: ticks =>
      let (s, closed) := stepBucket prev b price in
      let (s', rows) := runTicks (Some s) ticks in
      (s', match closed with Some c => c :: rows | None => rows end)
  end.

(** ** Reference: the candle of the prices seen in a bucket *)

Definition ohlc (b : Z) (prices : list Z) : CandleRow :=
  match prices with
  | [] => {| bucketTs := b; c_open := 0; c_high := 0; c_low := 0; c_close := 0 |}
  | p :: ps => {| bucketTs := b; c_open := p; c_high := foldl Z.max p ps;
                  c_low := foldl Z.min p ps; c_close := List.last ps p |}
  end.

(** Drop the out-of-order ticks: those below the highest bucket so far. *)
Fixpoint admit_from (cur : Z) (ticks : list (Z * Z)) : list (Z * Z) :=
  match ticks with
  | [] => []
  | (b, p) :: ticks =>
      if b <? cur then admit_from cur ticks else (b, p) :: admit_from b ticks
  end.
Definition admitted (ticks : list (Z * Z)) : list (Z * Z) :=
  match ticks with
  | [] => []
  | (b, p) :: ticks => (b, p) :: admit_from b ticks
  end.

Definition pricesIn (b : Z) (ticks : list (Z * Z)) : list Z :=
  snd <$> bfilter (fun t => t.1 =? b) ticks.

(** The distinct buckets of a monotone stream, in order. *)
Fixpoint distinctFrom (b : Z) (ticks : list (Z * Z)) : list Z :=
  match ticks with
  | [] => [b]
  | (b', _) :: ticks => if b' =? b then distinctFrom b ticks else b :: distinctFrom b' ticks
  end.
Definition distinctBuckets (ticks : list (Z * Z)) : list Z :=
  match ticks with [] => [] | (b, _) :: ticks => distinctFrom b ticks end.

(** All but the first and the last element. *)
Definition middle {A} (l : list A) : list A := tail (removelast l).

(** ** Alignment *)

Lemma rem_twice a m : 0 < m -> Z.rem (Z.rem a m + m) m = a mod m.
Proof.
  intros Hm. pose proof (Z.rem_bound_abs a m ltac:(lia)).
  rewrite Z.rem_mod_nonneg by lia.
  pose proof (Z.quot_rem' a m) as Hq.
  replace (Z.rem a m + m) with (a + (1 - a ÷ m) * m) by lia.
  apply Z_mod_plus_full.
Qed.

Lemma bucketStart_mod ts sec offset :
  0 < sec -> bucketStart ts sec offset = ts - (ts - offset) mod sec.
Proof. intros Hs. unfold bucketStart. by rewrite rem_twice. Qed.

(** ** The groups of a monotone stream *)

(** One bucket's prices while it is being collected. *)
Fixpoint groupsFrom (b : Z) (ps : list Z) (ticks : list (Z * Z)) : list (Z * list Z) :=
  match ticks with
  | [] => [(b, ps)]
  | (b', p) :: ticks =>
      if b' =? b then groupsFrom b (ps ++ [p]) ticks
      else if b <? b' then (b, ps) :: groupsFrom b' [p] ticks
      else groupsFrom b ps ticks
  end.

Definition rowOfGroup (g : Z * list Z) : CandleRow := ohlc g.1 g.2.

(** The state that has folded the prices [ps] of bucket [b]. *)
Definition stateOf (b : Z) (ps : list Z) (own : bool) : BucketState :=
  let r := ohlc b ps in
  {| bucket := b; open := c_open r; high := c_high r; low := c_low r;
     close := c_close r; owned := own |}.

Lemma rowOf_stateOf b ps own : rowOf (stateOf b ps own) = ohlc b ps.
Proof. by destruct ps. Qed.

Lemma stepBucket_same b ps own p :
  ps ≠ [] ->
  stepBucket (Some (stateOf b ps own)) b p = (stateOf b (ps ++ [p]) own, None).
Proof.
  destruct ps as [|p0 ps]; [done|]. intros _. unfold stepBucket, stateOf; simpl.
  rewrite Z.eqb_refl. rewrite !foldl_app, List.last_last. simpl.
  do 2 f_equal; bool_cases; lia.
Qed.

Lemma groupsFrom_nonempty b ps ticks : groupsFrom b ps ticks ≠ [].
Proof.
  revert b ps; induction ticks as [|[b' p] ticks IH]; intros b ps; simpl; [done|].
  destruct (b' =? b), (b <? b'); auto; done.
Qed.

(** Emission, group by group: everything but the group still open, the
    first one only when it was owned. *)
Lemma runTicks_groups b ps own ticks :
  ps ≠ [] ->
  (runTicks (Some (stateOf b ps own)) ticks).2
  = rowOfGroup <$> (if own then removelast (groupsFrom b ps ticks)
                    else middle (groupsFrom b ps ticks)).
Proof.
  revert b ps own; induction ticks as [|[b' p] ticks IH]; intros b ps own Hne;
    [by destruct own|].
  cbn [runTicks groupsFrom]. destruct (Z.eqb_spec b' b) as [->|Hb].
  - rewrite stepBucket_same by done.
    specialize (IH b (ps ++ [p]) own ltac:(by destruct ps)).
    destruct (runTicks _ ticks) as [s' rows]. exact IH.
  - unfold stepBucket. cbn [bucket stateOf].
    destruct (Z.eqb_spec b' b); [done|]. destruct (Z.ltb_spec b b').
    + specialize (IH b' [p] true ltac:(done)).
      change (stateOf b' [p] true) with (fresh b' p true) in IH.
      destruct (runTicks (Some (fresh b' p true)) ticks) as [s' rows]. cbn [snd] in *.
      subst rows. pose proof (groupsFrom_nonempty b' [p] ticks) as Hg.
      unfold middle. cbn [removelast].
      destruct (groupsFrom b' [p] ticks) as [|g gs]; [done|].
      destruct own; cbn [owned stateOf tail]; [|done].
      rewrite fmap_cons. f_equal. apply rowOf_stateOf.
    + specialize (IH b ps own Hne). destruct (runTicks _ ticks) as [s' rows]. exact IH.
Qed.

Lemma groupsFrom_admit b ps ticks :
  groupsFrom b ps (admit_from b ticks) = groupsFrom b ps ticks.
Proof.
  revert b ps; induction ticks as [|[b' p] ticks IH]; intros b ps; simpl; [done|].
  destruct (Z.ltb_spec b' b).
  - destruct (Z.eqb_spec b' b); [lia|]. destruct (Z.ltb_spec b b'); [lia|]. apply IH.
  - simpl. destruct (Z.eqb_spec b' b) as [->|].
    + by rewrite IH.
    + destruct (Z.ltb_spec b b'); [|lia]. by rewrite IH.
Qed.

(** Monotone streams, from a starting bucket. *)
Fixpoint monotoneFrom (b : Z) (ticks : list (Z * Z)) : Prop :=
  match ticks with
  | [] => True
  | t :: ticks => b <= t.1 /\ monotoneFrom t.1 ticks
  end.

Lemma admit_monotone b ticks : monotoneFrom b (admit_from b ticks).
Proof.
  revert b; induction ticks as [|[b' p] ticks IH]; intros b; simpl; [done|].
  destruct (Z.ltb_spec b' b); simpl; auto.
Qed.

Lemma monotone_weaken b b' ticks :
  b' <= b -> monotoneFrom b ticks -> monotoneFrom b' ticks.
Proof. destruct ticks; simpl; [done|]. intros ? [? ?]; split; [lia|done]. Qed.

Lemma pricesIn_below b b' ticks :
  b' < b -> monotoneFrom b ticks -> pricesIn b' ticks = [].
Proof.
  revert b; induction ticks as [|[c p] ticks IH]; intros b Hb; simpl; [done|].
  intros [Hc Hm]. unfold pricesIn; simpl. destruct (Z.eqb_spec c b'); [lia|].
  apply (IH c); [lia | done].
Qed.

Lemma distinctFrom_bounds b ticks x :
  monotoneFrom b ticks -> x ∈ distinctFrom b ticks -> b <= x.
Proof.
  revert b; induction ticks as [|[c p] ticks IH]; intros b; simpl.
  - intros _ ->%list_elem_of_singleton. lia.
  - intros [Hc Hm]. destruct (Z.eqb_spec c b) as [->|]; [auto|].
    rewrite elem_of_cons. intros [->|Hx]; [lia|]. apply IH in Hx; [lia|done].
Qed.

(** The groups of a monotone stream are the distinct buckets with the prices
    seen in each. *)
Lemma groupsFrom_spec b ps ticks :
  monotoneFrom b ticks ->
  groupsFrom b ps ticks
  = (fun b' => (b', (if b' =? b then ps else []) ++ pricesIn b' ticks))
      <$> distinctFrom b ticks.
Proof.
  revert b ps; induction ticks as [|[c p] ticks IH]; intros b ps; simpl.
  - intros _. rewrite Z.eqb_refl. unfold pricesIn; simpl. by rewrite app_nil_r.
  - intros [Hc Hm]. unfold pricesIn in *; simpl. destruct (Z.eqb_spec c b) as [->|Hne].
    + rewrite IH by done. apply list_fmap_ext. intros i x Hx.
      destruct (Z.eqb_spec x b) as [->|].
      * rewrite Z.eqb_refl, fmap_cons, <- app_assoc. done.
      * destruct (Z.eqb_spec b x); [congruence|done].
    + destruct (Z.ltb_spec b c); [|lia]. rewrite IH by done. simpl. f_equal.
      * rewrite Z.eqb_refl. destruct (Z.eqb_spec c b); [done|]. f_equal.
        fold (pricesIn b ticks). rewrite (pricesIn_below c b) by (done || lia).
        by rewrite app_nil_r.
      * apply list_fmap_ext. intros i x Hx.
        assert (c <= x) by (eapply distinctFrom_bounds; [done|];
                            by eapply list_elem_of_lookup_2).
        destruct (Z.eqb_spec x b); [lia|]. destruct (Z.eqb_spec c x) as [->|].
        -- by rewrite Z.eqb_refl, fmap_cons.
        -- destruct (Z.eqb_spec x c); [congruence|done].
Qed.

Lemma removelast_fmap {A B} (f : A -> B) l : removelast (f <$> l) = f <$> removelast l.
Proof.
  induction l as [|x [|y l] IH]; [done..|].
  rewrite fmap_cons in IH. cbn [fmap list_fmap removelast] in *. by rewrite IH.
Qed.

Lemma tail_fmap {A B} (f : A -> B) l : tail (f <$> l) = f <$> tail l.
Proof. by destruct l. Qed.

(** Open and close lie between low and high. *)
Definition bracketed (o h l c : Z) : Prop := l <= o <= h /\ l <= c <= h.
Definition wfState (s : BucketState) : Prop := bracketed (open s) (high s) (low s) (close s).
Definition wfRow (c : CandleRow) : Prop :=
  bracketed (c_open c) (c_high c) (c_low c) (c_close c).

Lemma wfState_fresh b p own : wfState (fresh b p own).
Proof. unfold wfState, bracketed; simpl; lia. Qed.

(** One step keeps the state bracketed, never moves the bucket back, and
    closes at most the bucket it leaves. *)
Lemma stepBucket_wf s b p :
  wfState s ->
  let (s', closed) := stepBucket (Some s) b p in
  wfState s' /\ bucket s <= bucket s' /\
  (forall c, closed = Some c -> wfRow c /\ bucketTs c = bucket s /\ bucket s < bucket s').
Proof.
  intros Hs. unfold stepBucket.
  destruct (Z.eqb_spec b (bucket s)) as [->|]; [|destruct (Z.ltb_spec (bucket s) b)].
  - split; [|split; [simpl; lia | done]].
    unfold wfState, bracketed in *; simpl. bool_cases; lia.
  - split; [apply wfState_fresh | split; [simpl; lia|]].
    intros c. destruct (owned s); [|done]. intros [= <-]. auto.
  - split; [done | split; [lia|done]].
Qed.

Lemma runTicks_wf s ticks :
  wfState s ->
  let rows := (runTicks (Some s) ticks).2 in
  Forall (fun c => bucket s <= bucketTs c) rows /\
  StronglySorted (fun a b => bucketTs a < bucketTs b) rows /\ Forall wfRow rows.
Proof.
  revert s; induction ticks as [|[b p] ticks IH]; intros s Hs;
    [split; [|split]; constructor|].
  cbn [runTicks]. pose proof (stepBucket_wf s b p Hs) as Hstep.
  destruct (stepBucket (Some s) b p) as [s' closed].
  destruct Hstep as (Hs' & Hle & Hcl). destruct (IH s' Hs') as (Hlow & Hsort & Hwf).
  destruct (runTicks (Some s') ticks) as [s'' rows]. cbn [snd] in *.
  destruct closed as [c|].
  - destruct (Hcl c eq_refl) as (Hc & Heq & Hlt). split; [|split].
    + constructor; [lia|]. eapply Forall_impl; [exact Hlow|]. simpl; intros; lia.
    + constructor; [done|]. eapply Forall_impl; [exact Hlow|]. simpl; intros; lia.
    + by constructor.
  - split; [|done]. eapply Forall_impl; [exact Hlow|]. simpl; intros; lia.
Qed.

(** ** Properties *)

(** Bucket alignment: the bucket of a timestamp is the unique aligned
    start at or before it and less than one interval away, negative
    timestamps and the weekly Monday offset included. *)
Theorem bucketStart_aligned ts sec offset b :
  0 < sec ->
  bucketStart ts sec offset = b <->
  b <= ts < b + sec /\ (b - offset) mod sec = 0.
Proof.
  intros Hs. rewrite bucketStart_mod by done.
  pose proof (Z.mod_pos_bound (ts - offset) sec Hs) as Hb.
  pose proof (Z.div_mod (ts - offset) sec ltac:(lia)) as Hd. split.
  - intros <-. split; [lia|].
    replace (ts - (ts - offset) mod sec - offset)
      with ((ts - offset) / sec * sec) by lia.
    by apply Z_mod_mult.
  - intros [Hrange Hal]. apply Z.mod_divide in Hal as [k Hk]; [|lia].
    assert ((ts - offset) mod sec = ts - b); [|lia].
    symmetry. apply Z.mod_unique with (q := k); lia.
Qed.

Lemma bucketStart_aligned_witness :
  bucketStart (-1) 604800 345600 = -259200 /\ -259200 <= -1 < -259200 + 604800.
Proof.
  split; [reflexivity|]. apply (bucketStart_aligned (-1) 604800 345600); reflexivity.
Defined.

(** The incremental fold is the reference aggregation: over any stream of
    ticks, out-of-order ones included, the candles emitted are the
    open/high/low/close of the admitted prices of each bucket, in order,
    leaving out the bucket in progress at startup and the one still open. *)
Theorem runTicks_reference ticks :
  (runTicks None ticks).2
  = (fun b => ohlc b (pricesIn b (admitted ticks)))
      <$> middle (distinctBuckets (admitted ticks)).
Proof.
  destruct ticks as [|[b p] ticks]; [done|].
  cbn [runTicks stepBucket admitted distinctBuckets distinctFrom].
  pose proof (runTicks_groups b [p] false ticks ltac:(done)) as Hr.
  change (stateOf b [p] false) with (fresh b p false) in Hr.
  destruct (runTicks (Some (fresh b p false)) ticks) as [s rows]. cbn [snd] in *.
  rewrite Hr. cbn iota.
  rewrite <- groupsFrom_admit.
  rewrite groupsFrom_spec by apply admit_monotone.
  unfold middle. rewrite removelast_fmap, tail_fmap, <- list_fmap_compose.
  apply list_fmap_ext. intros i x _. unfold rowOfGroup, pricesIn; simpl.
  destruct (Z.eqb_spec b x) as [->|]; [by rewrite Z.eqb_refl|].
  destruct (Z.eqb_spec x b); [congruence|done].
Qed.

(** Emission order: the candles of a stream carry strictly increasing
    bucket starts, so no closed bucket is ever emitted twice, and each one's
    low and high bracket its open and close. *)
Theorem runTicks_increasing ticks :
  StronglySorted (fun a b => bucketTs a < bucketTs b) (runTicks None ticks).2 /\
  Forall wfRow (runTicks None ticks).2.
Proof.
  destruct ticks as [|[b p] ticks]; [split; constructor|].
  cbn [runTicks stepBucket].
  destruct (runTicks_wf (fresh b p false) ticks (wfState_fresh _ _ _)) as (_ & Hr).
  by destruct (runTicks (Some (fresh b p false)) ticks).
Qed.

End Bucketing.

Module Aggregator.
Import Bucketing.

(** One entry of the [/v1/latest] response. *)
Record LatestEntry := { price : option string; timestamp : option Z }.

Record Aggregator := {
  state : gmap string BucketState;
  writes : Z;
  errors : Z;
  candles : gmap (string * string * Z) CandleRow }.

Definition set_state (a : Aggregator) m := {|
  state := m; writes := writes a; errors := errors a; candles := candles a |}.

(** [writeClosed]: the upsert of one closed candle. [dbOk] says whether the
    write of that row succeeds; a failed write is counted and dropped. *)
Definition writeClosed (dbOk : string * string * Z -> bool)
    (asset interval : string) (c : CandleRow) (a : Aggregator) : Aggregator :=
  let k := (asset, interval, bucketTs c) in
  if dbOk k then
    {| state := state a; writes := writes a + 1; errors := errors a;
       candles := <[k := c]> (candles a) |}
  else
    {| state := state a; writes := writes a; errors := errors a + 1;
       candles := candles a |}.

Definition stateKey (asset interval : string) : string := asset +:+ ":" +:+ interval.

(** The body of the interval loop for one price observation. *)
Definition foldInterval (dbOk : string * string * Z -> bool) (asset : string)
    (p ts : Z) (a : Aggregator) (iv : IntervalDef) : Aggregator :=
  let key := stateKey asset (name iv) in
  let b := bucketStart ts (sec iv) (offset iv) in
  let (s, closed) := stepBucket (state a !! key) b p in
  let a := set_state a (<[key := s]> (state a)) in
  match closed with
  | Some c => writeClosed dbOk asset (name iv) c a
  | None => a
  end.

(** [BigInt(entry.price)] on the decimal text the service sends, with the
    guards of the asset loop: a missing, unparsable or non-positive price and
    a missing or non-positive timestamp skip the asset. *)
Definition observation (e : LatestEntry) : option (Z * Z) :=
  match price e, timestamp e with
  | Some text, Some ts =>
      if bool_decide (text = "") then None
      else match zOfDecimal text with
           | None => None
           | Some p => if p <=? 0 then None else if ts <=? 0 then None else Some (p, ts)
           end
  | _, _ => None
  end.

Definition pollAsset (dbOk : string * string * Z -> bool)
    (latest : gmap string LatestEntry) (a : Aggregator) (asset : string) : Aggregator :=
  match latest !! (asset +:+ "/USD") ≫= observation with
  | None => a
  | Some (p, ts) => foldl (foldInterval dbOk asset p ts) a CANDLE_INTERVALS
  end.

Definition poll (dbOk : string * string * Z -> bool) (assets : list string)
    (latest : gmap string LatestEntry) (a : Aggregator) : Aggregator :=
  foldl (pollAsset dbOk latest) a assets.

(** The statements of [seedFromBinance]: rows are inserted only where the
    pair's table is empty, and never over an existing row. *)
Definition hasRows (asset interval : string) (t : gmap (string * string * Z) CandleRow) : bool :=
  existsb (fun kv => bool_decide (kv.1.1 = (asset, interval))) (map_to_list t).

Definition seedRows (asset interval : string) (klines : list CandleRow)
    (t : gmap (string * string * Z) CandleRow) : gmap (string * string * Z) CandleRow * Z :=
  if hasRows asset interval t then (t, 0)
  else
    (foldl (fun t c => match t !! (asset, interval, bucketTs c) with
                       | Some _ => t
                       | None => <[(asset, interval, bucketTs c) := c]> t
                       end) t klines, Z.of_nat (length klines)).

(** ** Invariant *)

Record inv (a : Aggregator) : Prop := {
  inv_state : map_Forall (fun _ s => wfState s) (state a);
  inv_rows : map_Forall (fun k c => bucketTs c = k.2 /\ wfRow c) (candles a) }.

Lemma stepBucket_opt_wf prev b p :
  (forall s, prev = Some s -> wfState s) ->
  let (s', closed) := stepBucket prev b p in
  wfState s' /\ (forall c, closed = Some c -> wfRow c).
Proof.
  intros Hp. destruct prev as [s|]; [|split; [apply wfState_fresh|done]].
  pose proof (stepBucket_wf s b p (Hp s eq_refl)) as Hs.
  destruct (stepBucket (Some s) b p). destruct Hs as (? & _ & Hc).
  split; [done|]. intros c Hx. by destruct (Hc c Hx).
Qed.

Lemma foldInterval_inv dbOk asset p ts a iv :
  inv a -> inv (foldInterval dbOk asset p ts a iv).
Proof.
  intros [Hs Hr]. unfold foldInterval. set (key := stateKey asset (name iv)).
  pose proof (stepBucket_opt_wf (state a !! key) (bucketStart ts (sec iv) (offset iv)) p
                (fun s H => Hs key s H)) as Hstep.
  destruct (stepBucket _ _ _) as [s closed]. destruct Hstep as [Hw Hc].
  assert (inv (set_state a (<[key:=s]> (state a)))) as Ha
    by (split; simpl; [by apply map_Forall_insert_2 | done]).
  destruct closed as [c|]; [|done]. specialize (Hc c eq_refl). destruct Ha as [Hs' Hr'].
  unfold writeClosed. destruct (dbOk _); split; simpl; try done.
  by apply map_Forall_insert_2.
Qed.

Lemma pollAsset_inv dbOk latest a asset : inv a -> inv (pollAsset dbOk latest a asset).
Proof.
  intros Ha. unfold pollAsset. destruct (_ ≫= observation) as [[p ts]|]; [|done].
  revert a Ha. induction CANDLE_INTERVALS as [|iv ivs IH]; intros a Ha; simpl; [done|].
  apply IH. by apply foldInterval_inv.
Qed.

(** Whatever the service answers and whichever writes fail, a poll keeps
    every tracked bucket and every stored candle well formed (low and high
    bracket open and close, the row stored under its own bucket start), and
    so does any later Binance seed of well-formed klines. *)
Theorem poll_keeps_candles_wf dbOk assets latest a asset interval klines :
  inv a -> Forall wfRow klines ->
  inv (poll dbOk assets latest a) /\
  map_Forall (fun k c => bucketTs c = k.2 /\ wfRow c)
    (seedRows asset interval klines (candles (poll dbOk assets latest a))).1.
Proof.
  intros Ha Hk. assert (inv (poll dbOk assets latest a)) as Hp.
  { unfold poll. revert a Ha. induction assets as [|x xs IH]; intros a Ha; simpl; [done|].
    apply IH. by apply pollAsset_inv. }
  split; [done|]. destruct Hp as [_ Hr]. revert Hr.
  generalize (candles (poll dbOk assets latest a)) as t. intros t Ht.
  unfold seedRows. destruct (hasRows asset interval t); [done|]. simpl.
  revert t Ht. induction Hk as [|c cs Hc _ IH]; intros t Ht; simpl; [done|]. apply IH.
  destruct (t !! _); [done|]. by apply map_Forall_insert_2.
Qed.

Definition emptyAggregator : Aggregator := {|
  state := ∅; writes := 0; errors := 0; candles := ∅ |}.

Lemma poll_keeps_candles_wf_witness :
  inv (poll (fun _ => true) ["BTC"]
         {["BTC/USD" := {| price := Some "500"; timestamp := Some 120 |}]} emptyAggregator).
Proof.
  apply (poll_keeps_candles_wf (fun _ => true) ["BTC"] _ emptyAggregator "BTC" "1m" []).
  - split; apply map_Forall_empty.
  - constructor.
Defined.

(** The seed only fills missing history: it never overwrites a candle,
    and inserts nothing for an asset and interval that already has one. *)
Theorem seed_preserves_native_candles asset interval klines t k c :
  t !! k = Some c ->
  (seedRows asset interval klines t).1 !! k = Some c /\
  (k.1 = (asset, interval) -> seedRows asset interval klines t = (t, 0)).
Proof.
  intros Hk. split.
  - unfold seedRows. destruct (hasRows asset interval t); [done|]. simpl.
    revert t Hk. induction klines as [|r rs IH]; intros t Hk; simpl; [done|]. apply IH.
    destruct (t !! (asset, interval, bucketTs r)) eqn:Hr; [done|].
    rewrite lookup_insert_ne; [done|]. congruence.
  - intros Heq. unfold seedRows, hasRows.
    assert (existsb (fun kv : string * string * Z * CandleRow =>
        bool_decide (kv.1.1 = (asset, interval))) (map_to_list t) = true) as ->; [|done].
    apply existsb_exists. exists (k, c). split.
    + by apply list_elem_of_In, elem_of_map_to_list.
    + by apply bool_decide_eq_true_2.
Qed.

Lemma seed_preserves_native_candles_witness :
  (seedRows "BTC" "1m" [rowOf (fresh 60 9 true)]
     {[("BTC", "1m", 60) := rowOf (fresh 60 5 true)]}).1 !! ("BTC", "1m", 60)
  = Some (rowOf (fresh 60 5 true)).
Proof. apply (seed_preserves_native_candles "BTC" "1m"). reflexivity. Defined.

End Aggregator.
