(* ===== verification/Discovery.v ===== *)
(** * Chain-walk discovery (scripts/keeper/src/discovery.ts)

    The keeper's incremental walk over the position and order id spaces: a
    watermark and a known-live set per space, validated each cycle against
    the on-chain open counters. Ids and the decimal strings of the persisted
    state are the integers they denote; the ledger reads are the responses of
    the RPC node, given as an argument. *)

From S2P Require Import Prelude.
Open Scope Z_scope.
Open Scope js_scope.

Record EntityWalkState := { watermark : Z; live : list Z }.
Record DiscoveryState := { positions : EntityWalkState; orders : EntityWalkState }.
Record DiscoverySnapshot := { positionIds : list Z; orderIds : list Z }.

Definition emptyDiscoveryState : DiscoveryState :=
  {| positions := {| watermark := 0; live := [] |};
     orders := {| watermark := 0; live := [] |} |}.

Definition ORDER_STATUS_PENDING : Z := 0.
Definition MISMATCH_ESCALATION_STREAK : Z := 3.

Record WalkResult := { liveIds : list Z; counted : option Z; nextState : EntityWalkState }.

(** The four control entries; [None] is an absent ledger key. *)
Record Control := {
  positionCounter : option Z; orderCounter : option Z;
  openPositions : option Z; openOrders : option Z }.

(** The node's answers to the three reads of a cycle; [None] is a transport
    failure. A position answer says which ids have an entry, an order answer
    gives the [status] field of the ids that have one. *)
Record Reads := {
  r_control : option Control;
  r_positions : option (Z -> bool);
  r_orders : option (Z -> option Z) }.

Definition candidates (prior : EntityWalkState) (counter : Z) : list Z :=
  live prior ++ seqZ (watermark prior + 1) (counter - watermark prior).

Definition walk (prior : EntityWalkState) (counter : Z) (count : option Z)
    (isLive : Z -> bool) : WalkResult :=
  let ids := merge_sort Z.le (bfilter isLive (candidates prior counter)) in
  {| liveIds := ids; counted := count;
     nextState := {| watermark := if watermark prior <? counter then counter
                                  else watermark prior;
                     live := ids |} |}.

Definition checksumOk (r : WalkResult) (expected : option (list Z)) : bool :=
  match counted r with
  | Some n => n =? Z.of_nat (length (liveIds r))
  | None =>
      match expected with
      | Some e =>
          Nat.eqb (length e) (length (liveIds r))
          && forallb (fun x => bool_decide (x ∈ liveIds r)) e
      | None => false
      end
  end.

Inductive Entity := PositionEntity | OrderEntity.
Inductive AlertLevel := info | warn | critical.

(** [mismatchAlert]: the level of the alert raised for a mismatch. *)
Definition mismatchAlert (entity : Entity) (streak : Z) : Entity * AlertLevel :=
  (entity, if MISMATCH_ESCALATION_STREAK <=? streak then critical else warn).

Record ChainDiscovery := {
  lastGoodPositions : option (list Z);
  lastGoodOrders : option (list Z);
  positionMismatchStreak : Z;
  orderMismatchStreak : Z;
  state : DiscoveryState }.

Definition acceptPositions (r : WalkResult) (d : ChainDiscovery) : ChainDiscovery := {|
  lastGoodPositions := Some (liveIds r); lastGoodOrders := lastGoodOrders d;
  positionMismatchStreak := 0; orderMismatchStreak := orderMismatchStreak d;
  state := {| positions := nextState r; orders := orders (state d) |} |}.

Definition acceptOrders (r : WalkResult) (d : ChainDiscovery) : ChainDiscovery := {|
  lastGoodPositions := lastGoodPositions d; lastGoodOrders := Some (liveIds r);
  positionMismatchStreak := positionMismatchStreak d; orderMismatchStreak := 0;
  state := {| positions := positions (state d); orders := nextState r |} |}.

Definition holdPositions (d : ChainDiscovery) : ChainDiscovery := {|
  lastGoodPositions := lastGoodPositions d; lastGoodOrders := lastGoodOrders d;
  positionMismatchStreak := positionMismatchStreak d + 1;
  orderMismatchStreak := orderMismatchStreak d; state := state d |}.

Definition holdOrders (d : ChainDiscovery) : ChainDiscovery := {|
  lastGoodPositions := lastGoodPositions d; lastGoodOrders := lastGoodOrders d;
  positionMismatchStreak := positionMismatchStreak d;
  orderMismatchStreak := orderMismatchStreak d + 1; state := state d |}.

(** The read of a walk: no request is sent for an empty key list. *)
Definition readEntries {A} (keys : list Z) (answer : option (Z -> A)) (absent : A)
  : option (Z -> A) :=
  match keys with [] => Some (fun _ => absent) | _ => answer end.

Definition isPending (status : option Z) : bool :=
  match status with Some s => s =? ORDER_STATUS_PENDING | None => false end.

(** [discover]: [None] is the exception of a failed read. *)
Definition discover (rd : Reads) (expected : option DiscoverySnapshot) (d : ChainDiscovery)
  : option (DiscoverySnapshot * list (Entity * AlertLevel)) * ChainDiscovery :=
  match r_control rd with
  | None => (None, d)
  | Some c =>
      let pc := default 0 (positionCounter c) in
      let oc := default 0 (orderCounter c) in
      match readEntries (candidates (positions (state d)) pc) (r_positions rd) false with
      | None => (None, d)
      | Some present =>
          let ps := walk (positions (state d)) pc (openPositions c) present in
          match readEntries (candidates (orders (state d)) oc) (r_orders rd) None with
          | None => (None, d)
          | Some status =>
              let os := walk (orders (state d)) oc (openOrders c) (fun i => isPending (status i)) in
              let '(pids, palerts, d1) :=
                if checksumOk ps (positionIds <$> expected)
                then (liveIds ps, [], acceptPositions ps d)
                else let d1 := holdPositions d in
                     (default (liveIds ps) (lastGoodPositions d1),
                      [mismatchAlert PositionEntity (positionMismatchStreak d1)], d1) in
              let '(oids, oalerts, d2) :=
                if checksumOk os (orderIds <$> expected)
                then (liveIds os, [], acceptOrders os d1)
                else let d2 := holdOrders d1 in
                     (default (liveIds os) (lastGoodOrders d2),
                      [mismatchAlert OrderEntity (orderMismatchStreak d2)], d2) in
              (Some ({| positionIds := pids; orderIds := oids |}, palerts ++ oalerts), d2)
          end
      end
  end.

Definition setDiff (a b : list Z) : list Z * list Z :=
  (bfilter (fun x => bool_decide (x ∉ b)) (remove_dups a),
   bfilter (fun x => bool_decide (x ∉ a)) (remove_dups b)).

(** ** Lemmas *)

(** The persisted walk state: known-live ids without duplicates, none above
    the watermark. *)
Definition wfWalk (w : EntityWalkState) : Prop :=
  NoDup (live w) /\ Forall (fun x => x <= watermark w) (live w).

Lemma elem_of_candidates w counter x :
  x ∈ candidates w counter <-> x ∈ live w \/ watermark w < x <= counter.
Proof.
  unfold candidates. rewrite elem_of_app, elem_of_seqZ.
  split; (intros [?|?]; [by left | right; lia]).
Qed.

Lemma NoDup_candidates w counter : wfWalk w -> NoDup (candidates w counter).
Proof.
  intros [Hnd Hle]. unfold candidates. apply NoDup_app. split; [done|]. split.
  - intros x Hx. rewrite elem_of_seqZ. rewrite Forall_forall in Hle.
    specialize (Hle x Hx). lia.
  - apply NoDup_seqZ.
Qed.

#[export] Hint Resolve NoDup_candidates : noether.

Lemma elem_of_walk w counter n f x :
  x ∈ liveIds (walk w counter n f) <->
  (x ∈ live w \/ watermark w < x <= counter) /\ f x = true.
Proof. simpl. by rewrite merge_sort_Permutation, elem_of_bfilter, elem_of_candidates. Qed.

Lemma NoDup_walk w counter n f : wfWalk w -> NoDup (liveIds (walk w counter n f)).
Proof.
  intros Hw. simpl. rewrite merge_sort_Permutation.
  auto with noether.
Qed.

Lemma walk_wf w counter n f : wfWalk w -> wfWalk (nextState (walk w counter n f)).
Proof.
  intros Hw. split; [by apply (NoDup_walk w counter n f)|].
  apply Forall_forall. intros x Hx. apply (elem_of_walk w counter n f) in Hx as [Hx _].
  simpl. destruct Hw as [_ Hle]. rewrite Forall_forall in Hle.
  destruct (Z.ltb_spec (watermark w) counter); destruct Hx as [Hx|Hx];
    try apply Hle in Hx; lia.
Qed.

Lemma walk_sorted w counter n f : Sorted Z.le (liveIds (walk w counter n f)).
Proof. apply Sorted_merge_sort; apply _. Qed.

(** A duplicate-free list inside a set of the same size is the whole set. *)
Lemma list_fills_set (l : list Z) (L : gset Z) :
  NoDup l -> (forall x, x ∈ l -> x ∈ L) -> length l = size L ->
  forall x, x ∈ l <-> x ∈ L.
Proof.
  intros Hnd Hsub Hlen.
  assert ((list_to_set l : gset Z) = L) as Heq.
  { apply set_subseteq_size_eq.
    - intros x. rewrite elem_of_list_to_set. auto.
    - rewrite size_list_to_set by done. lia. }
  intros x. rewrite <- Heq, elem_of_list_to_set. done.
Qed.

(** What the checksum anchors to: the counter, or the legacy view's ids. *)
Definition anchored (L : gset Z) (count : option Z) (expected : option (list Z)) : Prop :=
  match count with
  | Some n => n = Z.of_nat (size L)
  | None => match expected with
            | Some e => NoDup e /\ (forall x, x ∈ e <-> x ∈ L)
            | None => True
            end
  end.

Lemma checksumOk_length L r expected :
  anchored L (counted r) expected -> checksumOk r expected = true ->
  length (liveIds r) = size L.
Proof.
  unfold anchored, checksumOk. destruct (counted r) as [n|].
  - intros -> ?%Z.eqb_eq. lia.
  - destruct expected as [e|]; [|done]. intros [Hnd He].
    rewrite andb_true_iff, Nat.eqb_eq. intros [<- _].
    rewrite <- (size_list_to_set (C:=gset Z) e Hnd). f_equal.
    apply set_eq. intros x. by rewrite elem_of_list_to_set, He.
Qed.

(** The accepted walk of a sound read is the live set. *)
Lemma accepted_walk (L : gset Z) w counter n f expected :
  wfWalk w -> (forall x, f x = true -> x ∈ L) -> anchored L n expected ->
  checksumOk (walk w counter n f) expected = true ->
  forall x, x ∈ liveIds (walk w counter n f) <-> x ∈ L.
Proof.
  intros Hw Hf Ha Hc. apply list_fills_set.
  - by apply NoDup_walk.
  - intros x [_ Hx]%elem_of_walk. by apply Hf.
  - eapply checksumOk_length; [|exact Hc]. exact Ha.
Qed.

(** What the state remembers about the chain: every live id at or below the
    watermark is in the known-live list. *)
Definition tracks (L : gset Z) (w : EntityWalkState) : Prop :=
  forall x, x ∈ L -> x <= watermark w -> x ∈ live w.

Lemma complete_walk (L : gset Z) w counter n f :
  tracks L w -> (forall x, x ∈ L -> x <= counter) -> (forall x, f x = true <-> x ∈ L) ->
  forall x, x ∈ liveIds (walk w counter n f) <-> x ∈ L.
Proof.
  intros Ht Hc Hf x. rewrite elem_of_walk, Hf. split; [tauto|]. intros Hx.
  split; [|done]. specialize (Hc x Hx).
  destruct (Z.le_gt_cases x (watermark w)); [left; by apply Ht | right; lia].
Qed.

(** The next state tracks the chain as long as dead ids stay dead. *)
Lemma tracks_next (L L' : gset Z) w counter n f :
  (forall x, x ∈ liveIds (walk w counter n f) <-> x ∈ L) ->
  (forall x, x ∈ L' -> x <= Z.max counter (watermark w) -> x ∈ L) ->
  tracks L' (nextState (walk w counter n f)).
Proof.
  intros Hl Hdead x Hx Hle. apply Hl. apply Hdead; [done|]. simpl in Hle.
  destruct (Z.ltb_spec (watermark w) counter); lia.
Qed.

(** ** Properties *)

(** Trust rule: whatever the node answers (archived entries may read as
    absent), a position walk whose checksum agreed with the on-chain counter
    or the legacy view returns exactly the live positions, in order. *)
Theorem accepted_walk_exact (L : gset Z) w counter n present expected :
  wfWalk w ->
  (forall x, present x = true -> x ∈ L) ->
  anchored L n expected ->
  checksumOk (walk w counter n present) expected = true ->
  (forall x, x ∈ liveIds (walk w counter n present) <-> x ∈ L) /\
  Sorted Z.le (liveIds (walk w counter n present)) /\
  NoDup (liveIds (walk w counter n present)).
Proof.
  intros Hw Hp Ha Hc. split; [by eapply accepted_walk | split].
  - apply walk_sorted.
  - by apply NoDup_walk.
Qed.

Lemma accepted_walk_exact_witness :
  5 ∈ liveIds (walk {| watermark := 3; live := [2] |} 5 (Some 2)
                 (fun i => (i =? 2) || (i =? 5))).
Proof.
  apply (accepted_walk_exact {[2; 5]} {| watermark := 3; live := [2] |} 5 (Some 2)
           (fun i => (i =? 2) || (i =? 5)) None).
  - split; simpl; [by apply (bool_decide_unpack _); vm_compute|].
    by apply Forall_singleton.
  - intros x. rewrite orb_true_iff, !Z.eqb_eq. set_solver.
  - reflexivity.
  - reflexivity.
  - set_solver.
Defined.

(** Incremental equals full: from a state that tracks the chain, when no
    dead id came back and every live entry is readable, the walk of the known
    ids and the new ones finds every live id, its checksum agrees with the
    counter, and the new state tracks every later chain in which dead ids
    stay dead. Only the new ids above the watermark are added to the reads. *)
Theorem walk_incremental_complete (L : gset Z) w counter present :
  wfWalk w -> tracks L w ->
  (forall x, x ∈ L -> x <= counter) -> (forall x, present x = true <-> x ∈ L) ->
  let r := walk w counter (Some (Z.of_nat (size L))) present in
  (forall x, x ∈ liveIds r <-> x ∈ L) /\
  checksumOk r None = true /\
  wfWalk (nextState r) /\
  (forall L' : gset Z, (forall x, x ∈ L' -> x <= Z.max counter (watermark w) -> x ∈ L) ->
     tracks L' (nextState r)) /\
  length (candidates w counter)
  = (length (live w) + Z.to_nat (counter - watermark w))%nat.
Proof.
  intros Hw Ht Hc Hp r.
  pose proof (complete_walk L w counter (Some (Z.of_nat (size L))) present Ht Hc Hp) as Hl.
  fold r in Hl. split; [done|]. split; [|split; [|split]].
  - assert (length (liveIds r) = size L) as Hlen.
    { rewrite <- (size_list_to_set (C:=gset Z) (liveIds r)) by (by apply NoDup_walk).
      f_equal. apply set_eq. intros x. by rewrite elem_of_list_to_set. }
    apply Z.eqb_eq. by rewrite Hlen.
  - by apply walk_wf.
  - intros L' HL'. by eapply tracks_next.
  - unfold candidates. by rewrite length_app, length_seqZ.
Qed.

Lemma walk_incremental_complete_witness :
  checksumOk (walk {| watermark := 3; live := [2] |} 5 (Some 2)
                (fun i => (i =? 2) || (i =? 5))) None = true.
Proof.
  destruct (walk_incremental_complete {[2; 5]} {| watermark := 3; live := [2] |} 5
           (fun i => (i =? 2) || (i =? 5))) as (_ & Hok & _); [| | | |exact Hok].
  - split; simpl; [by apply (bool_decide_unpack _); vm_compute|].
    by apply Forall_singleton.
  - intros x Hx Hle. simpl in *. set_unfold. lia.
  - intros x Hx. set_unfold. lia.
  - intros x. rewrite orb_true_iff, !Z.eqb_eq. set_solver.
Defined.

(** The two id spaces are gated independently, and an error is never an
    empty market: a transport failure changes nothing and returns nothing; a
    mismatch on a side keeps that side's persisted state, serves its last
    good set and raises exactly one alert, critical from the third
    consecutive mismatch on; an agreeing side is accepted either way. *)
Theorem discover_gates_independently rd expected d :
  match (discover rd expected d).1 with
  | None => (discover rd expected d).2 = d
  | Some (snap, alerts) =>
      let d' := (discover rd expected d).2 in
      ((positions (state d') = positions (state d) /\
        positionMismatchStreak d' = positionMismatchStreak d + 1 /\
        lastGoodPositions d' = lastGoodPositions d /\
        (forall ids, lastGoodPositions d = Some ids -> positionIds snap = ids) /\
        (PositionEntity,
           if MISMATCH_ESCALATION_STREAK <=? positionMismatchStreak d'
           then critical else warn) ∈ alerts)
       \/ (positionMismatchStreak d' = 0 /\
           lastGoodPositions d' = Some (positionIds snap) /\
           live (positions (state d')) = positionIds snap /\
           (forall l, (PositionEntity, l) ∉ alerts))) /\
      ((orders (state d') = orders (state d) /\
        orderMismatchStreak d' = orderMismatchStreak d + 1 /\
        lastGoodOrders d' = lastGoodOrders d /\
        (forall ids, lastGoodOrders d = Some ids -> orderIds snap = ids) /\
        (OrderEntity,
           if MISMATCH_ESCALATION_STREAK <=? orderMismatchStreak d'
           then critical else warn) ∈ alerts)
       \/ (orderMismatchStreak d' = 0 /\
           lastGoodOrders d' = Some (orderIds snap) /\
           live (orders (state d')) = orderIds snap /\
           (forall l, (OrderEntity, l) ∉ alerts)))
  end.
Proof.
  unfold discover. destruct (r_control rd) as [c|]; [|done].
  destruct (readEntries _ (r_positions rd) false) as [present|]; [|done].
  destruct (readEntries _ (r_orders rd) None) as [status|]; [|done].
  set (ps := walk _ _ _ present). set (os := walk _ _ _ _).
  destruct (checksumOk ps _); destruct (checksumOk os _); simpl;
    (split; [first [left; split; [done|]; split; [done|]; split; [done|];
                      split; [by intros ids -> | set_solver]
                   | right; split; [done|]; split; [done|]; split; [done | set_solver]]
            |first [left; split; [done|]; split; [done|]; split; [done|];
                      split; [by intros ids -> | set_solver]
                   | right; split; [done|]; split; [done|]; split; [done | set_solver]]]).
Qed.

(** Shadow parity is clean exactly when the two id lists are the same
    set. *)
Theorem setDiff_clean a b :
  setDiff a b = ([], []) <-> (forall x, x ∈ a <-> x ∈ b).
Proof.
  unfold setDiff. split.
  - intros [= Ha Hb] x.
    assert (forall l l' : list Z, bfilter (fun x => bool_decide (x ∉ l')) (remove_dups l) = []
      -> x ∈ l -> x ∈ l') as Hsub; [|split; eauto].
    intros l l' Hl Hx. destruct (decide (x ∈ l')) as [|Hn]; [done|].
    assert (x ∈ bfilter (fun x => bool_decide (x ∉ l')) (remove_dups l)) as Hin.
    { rewrite elem_of_bfilter, elem_of_remove_dups. by rewrite bool_decide_eq_true. }
    rewrite Hl in Hin. by apply elem_of_nil in Hin.
  - intros Hab.
    assert (forall l l' : list Z, (forall x, x ∈ l -> x ∈ l') ->
      bfilter (fun x => bool_decide (x ∉ l')) (remove_dups l) = []) as Hnil;
      [|rewrite !Hnil by (intros; by apply Hab); done].
    intros l l' Hll. apply list_nil_subseteq. intros x.
    rewrite elem_of_bfilter, elem_of_remove_dups, bool_decide_eq_true. naive_solver.
Qed.
