(* ===== verification/KeeperSupport.v ===== *)
(** * Keeper bookkeeping: dead-man counters, alert throttling, state writes

    [Deadman] models scripts/keeper/src/deadman.ts, [Alerts] the dedupe of
    scripts/keeper/src/alerts.ts and the log throttle of the keeper,
    [StateFile] the write avoidance of scripts/keeper/src/state.ts. Times are
    milliseconds. *)

From S2P Require Import Prelude.
Open Scope Z_scope.
Open Scope js_scope.

Module Deadman.

(** The counting loop: increments each triggered id and collects those whose
    count reaches the threshold in this call. *)
Fixpoint countTriggered (threshold : Z) (triggered : list string) (counts : gmap string Z)
  : gmap string Z * list string :=
  match triggered with
  | [] => (counts, [])
  | i :: triggered =>
      let next := default 0 (counts !! i) + 1 in
      let (counts', stuck) := countTriggered threshold triggered (<[i := next]> counts) in
      (counts', if next =? threshold then i :: stuck else stuck)
  end.

Definition trackTriggeredStuck (counts : gmap string Z) (triggered : list string)
    (threshold : Z) : gmap string Z * list string :=
  countTriggered threshold triggered (filter (fun kv => kv.1 ∈ triggered) counts).

(** The counters after a history of cycles, the latest one first. *)
Fixpoint countsAfter (threshold : Z) (history : list (list string)) : gmap string Z :=
  match history with
  | [] => ∅
  | triggered :: history =>
      (trackTriggeredStuck (countsAfter threshold history) triggered threshold).1
  end.

(** The number of consecutive latest cycles in which [i] was triggered. *)
Fixpoint streak (i : string) (history : list (list string)) : Z :=
  match history with
  | [] => 0
  | triggered :: history => if decide (i ∈ triggered) then 1 + streak i history else 0
  end.

Lemma countTriggered_spec threshold triggered counts :
  NoDup triggered ->
  (forall i, (countTriggered threshold triggered counts).1 !! i
     = if decide (i ∈ triggered) then Some (default 0 (counts !! i) + 1) else counts !! i) /\
  (forall i, i ∈ (countTriggered threshold triggered counts).2 <->
     i ∈ triggered /\ default 0 (counts !! i) + 1 = threshold).
Proof.
  intros Hnd. revert counts.
  induction Hnd as [|j triggered Hj _ IH]; intros counts; cbn [countTriggered fst snd].
  - split; intros i; [by rewrite decide_False by apply not_elem_of_nil|].
    split; [intros []%elem_of_nil | intros [[]%elem_of_nil _]].
  - destruct (IH (<[j := default 0 (counts !! j) + 1]> counts)) as [Hc Hs].
    destruct (countTriggered _ _ _) as [counts' stuck]. simpl in *. split; intros i.
    + rewrite Hc. destruct (decide (i = j)) as [->|Hne].
      * rewrite decide_False by done. rewrite lookup_insert_eq.
        by rewrite decide_True by left.
      * rewrite lookup_insert_ne by done.
        destruct (decide (i ∈ triggered)); [rewrite decide_True by (by right); done|].
        rewrite decide_False; [done|]. rewrite elem_of_cons. tauto.
    + specialize (Hs i). rewrite elem_of_cons. destruct (decide (i = j)) as [->|Hne].
      * destruct (Z.eqb_spec (default 0 (counts !! j) + 1) threshold) as [He|He];
          rewrite ?elem_of_cons; [tauto|].
        rewrite Hs. split; [tauto|]. intros [_ ?]. done.
      * rewrite lookup_insert_ne in Hs by done.
        destruct (default 0 (counts !! j) + 1 =? threshold); rewrite ?elem_of_cons, Hs; tauto.
Qed.

Lemma pruned_lookup (counts : gmap string Z) (triggered : list string) i :
  filter (fun kv => kv.1 ∈ triggered) counts !! i
  = if decide (i ∈ triggered) then counts !! i else None.
Proof.
  destruct (decide (i ∈ triggered)) as [Hi|Hi].
  - destruct (counts !! i) as [n|] eqn:Hn.
    + by apply map_lookup_filter_Some.
    + apply map_lookup_filter_None. by left.
  - apply map_lookup_filter_None. right. by intros n _.
Qed.

Lemma streak_nonneg i history : 0 <= streak i history.
Proof. induction history; simpl; [lia|]. case_decide; lia. Qed.

Lemma countsAfter_streak threshold history i :
  Forall (@NoDup string) history ->
  default 0 (countsAfter threshold history !! i) = streak i history.
Proof.
  induction 1 as [|triggered history Hnd _ IH]; simpl; [by rewrite lookup_empty|].
  unfold trackTriggeredStuck.
  destruct (countTriggered_spec threshold triggered
    (filter (fun kv => kv.1 ∈ triggered) (countsAfter threshold history)) Hnd) as [-> _].
  rewrite pruned_lookup. case_decide; simpl; lia.
Qed.

(** Dead-man semantics: over any history of cycles, an order is reported
    in a cycle exactly when that cycle is the [threshold]-th consecutive one
    in which it was triggered; one missed cycle restarts the count. *)
Theorem stuck_iff_streak threshold history triggered i :
  Forall (@NoDup string) (triggered :: history) -> 0 < threshold ->
  i ∈ (trackTriggeredStuck (countsAfter threshold history) triggered threshold).2
  <-> streak i (triggered :: history) = threshold.
Proof.
  intros Hnd Hth. apply Forall_cons in Hnd as [Hnd Hh]. unfold trackTriggeredStuck.
  destruct (countTriggered_spec threshold triggered
    (filter (fun kv => kv.1 ∈ triggered) (countsAfter threshold history)) Hnd) as [_ ->].
  rewrite pruned_lookup. simpl. case_decide.
  - rewrite (countsAfter_streak threshold history i Hh). split; [lia|]. intros; split; [done|lia].
  - split; [tauto|lia].
Qed.

Lemma stuck_iff_streak_witness :
  "7" ∈ (trackTriggeredStuck (countsAfter 2 [["7"; "9"]; []]) ["7"] 2).2.
Proof.
  apply (stuck_iff_streak 2 [["7"; "9"]; []] ["7"] "7"); [|lia|reflexivity].
  repeat (apply Forall_cons; split); try apply Forall_nil;
    by apply (bool_decide_unpack _); vm_compute.
Defined.

End Deadman.

Module Alerts.

Definition ALERT_DEDUPE_WINDOW_MS : Z := 600000.

(** [pruneDedupeMap]: above 200 keys, drop those outside the window. *)
Definition pruneDedupeMap (now : Z) (m : gmap string Z) : gmap string Z :=
  if (Z.of_nat (size m) <=? 200) then m
  else filter (fun kv => now - kv.2 < ALERT_DEDUPE_WINDOW_MS) m.

(** The dedupe of [sendAlert]: whether the alert of [key] goes out at [now],
    and the map afterwards. *)
Definition sendAlert (key : string) (now : Z) (lastSentAt : gmap string Z)
  : bool * gmap string Z :=
  match lastSentAt !! key with
  | Some previous =>
      if now - previous <? ALERT_DEDUPE_WINDOW_MS then (false, lastSentAt)
      else (true, pruneDedupeMap now (<[key := now]> lastSentAt))
  | None => (true, pruneDedupeMap now (<[key := now]> lastSentAt))
  end.

(** A run of alert calls at non-decreasing times: what went out. *)
Fixpoint runAlerts (calls : list (string * Z)) (m : gmap string Z) : list (string * Z) :=
  match calls with
  | [] => []
  | (key, now) :: calls =>
      let (out, m') := sendAlert key now m in
      if out then (key, now) :: runAlerts calls m' else runAlerts calls m'
  end.

(** The ideal throttle: no pruning, only the time of the last delivery. *)
Fixpoint idealAlerts (calls : list (string * Z)) (last : string -> option Z)
  : list (string * Z) :=
  match calls with
  | [] => []
  | (key, now) :: calls =>
      match last key with
      | Some previous =>
          if now - previous <? ALERT_DEDUPE_WINDOW_MS then idealAlerts calls last
          else (key, now) :: idealAlerts calls
                 (fun k => if decide (k = key) then Some now else last k)
      | None => (key, now) :: idealAlerts calls
                  (fun k => if decide (k = key) then Some now else last k)
      end
  end.

Fixpoint nondecreasing (from : Z) (calls : list (string * Z)) : Prop :=
  match calls with
  | [] => True
  | c :: calls => from <= c.2 /\ nondecreasing c.2 calls
  end.

(** The map agrees with the ideal record on everything still in the window. *)
Definition agrees (now : Z) (m : gmap string Z) (last : string -> option Z) : Prop :=
  forall k, (forall t, m !! k = Some t -> last k = Some t) /\
    (forall t, last k = Some t -> now - t < ALERT_DEDUPE_WINDOW_MS -> m !! k = Some t).

Lemma agrees_later now now' m last : now <= now' -> agrees now m last -> agrees now' m last.
Proof. intros Hle Ha k. destruct (Ha k) as [H1 H2]. split; [done|]. intros. apply H2; [done|lia]. Qed.

Lemma agrees_prune now m last : agrees now m last -> agrees now (pruneDedupeMap now m) last.
Proof.
  intros Ha k. unfold pruneDedupeMap. destruct (_ <=? 200); [apply Ha|].
  destruct (Ha k) as [H1 H2]. split.
  - intros t [Ht _]%map_lookup_filter_Some. by apply H1.
  - intros t Ht Hw. apply map_lookup_filter_Some. split; [by apply H2 | done].
Qed.

Lemma agrees_insert now key m last :
  agrees now m last ->
  agrees now (<[key := now]> m) (fun k => if decide (k = key) then Some now else last k).
Proof.
  intros Ha k. destruct (decide (k = key)) as [->|Hne].
  - rewrite lookup_insert_eq. done.
  - rewrite lookup_insert_ne by done. apply Ha.
Qed.

Lemma runAlerts_ideal from calls m last :
  nondecreasing from calls -> agrees from m last ->
  runAlerts calls m = idealAlerts calls last.
Proof.
  revert from m last; induction calls as [|[key now] calls IH]; intros from m last; [done|].
  simpl. intros [Hle Hnd] Ha. apply (agrees_later from now) in Ha; [|done].
  unfold sendAlert. destruct (Ha key) as [H1 H2].
  destruct (m !! key) as [t|] eqn:Hm.
  - rewrite (H1 t eq_refl). destruct (now - t <? ALERT_DEDUPE_WINDOW_MS); [by eapply IH|].
    f_equal. eapply IH; [done|]. by apply agrees_prune, agrees_insert.
  - destruct (last key) as [t|] eqn:Hl.
    + destruct (Z.ltb_spec (now - t) ALERT_DEDUPE_WINDOW_MS) as [Hw|Hw].
      * specialize (H2 t eq_refl Hw). congruence.
      * f_equal. eapply IH; [done|]. by apply agrees_prune, agrees_insert.
    + f_equal. eapply IH; [done|]. by apply agrees_prune, agrees_insert.
Qed.

(** Alert throttling: with a clock that does not run backwards, pruning
    the dedupe map never changes which alerts go out — an alert is dropped
    exactly when one with the same level and title was delivered less than
    ten minutes before. *)
Theorem alerts_prune_invisible calls :
  nondecreasing 0 calls ->
  runAlerts calls ∅ = idealAlerts calls (fun _ => None).
Proof.
  intros Hnd. apply (runAlerts_ideal 0); [done|]. intros k.
  rewrite lookup_empty. split; intros; done.
Qed.

Lemma alerts_prune_invisible_witness :
  runAlerts [("warn:x", 10); ("warn:x", 20); ("warn:x", 600010)] ∅
  = [("warn:x", 10); ("warn:x", 600010)].
Proof.
  etransitivity; [apply (alerts_prune_invisible
    [("warn:x", 10); ("warn:x", 20); ("warn:x", 600010)]); simpl; lia | reflexivity].
Defined.

End Alerts.

Module StateFile.

Definition STATE_MIN_WRITE_MS : Z := 60000.

(** One file: the last successful write of this process, and the disk. *)
Record File := { lastWrite : option (string * Z); disk : option string }.

(** [saveKeeperState]. [fsOk] says whether the mkdir/write/rename sequence
    succeeds; the rename is the only step that changes the file. *)
Definition saveKeeperState (fsOk : bool) (payload : string) (now : Z) (force : bool)
    (f : File) : File :=
  match lastWrite f with
  | Some (prev, at_) =>
      if bool_decide (prev = payload) then f
      else if negb force && (now - at_ <? STATE_MIN_WRITE_MS) then f
      else if fsOk then {| lastWrite := Some (payload, now); disk := Some payload |} else f
  | None => if fsOk then {| lastWrite := Some (payload, now); disk := Some payload |} else f
  end.

Definition consistent (f : File) : Prop :=
  forall p t, lastWrite f = Some (p, t) -> disk f = Some p.

(** Write avoidance loses at most one window: after a save on a working
    file system the disk holds the payload, unless the save was not forced
    and another one landed less than a minute before; a failed save leaves
    the file as it was, so the next call retries. *)
Theorem save_persists_within_window fsOk payload now force f :
  consistent f ->
  let f' := saveKeeperState fsOk payload now force f in
  consistent f' /\
  (fsOk = false -> f' = f) /\
  (fsOk = true -> disk f' = Some payload \/
     (force = false /\ f' = f /\
      exists p t, lastWrite f = Some (p, t) /\ now - t < STATE_MIN_WRITE_MS)).
Proof.
  intros Hc f'. subst f'. unfold saveKeeperState.
  destruct (lastWrite f) as [[p t]|] eqn:Hl.
  - case_bool_decide as Hp.
    + subst p. split; [done|]. split; [done|]. left. by eapply Hc.
    + destruct (negb force && (now - t <? STATE_MIN_WRITE_MS)) eqn:Hw.
      * apply andb_true_iff in Hw as [Hf Hlt]. apply Z.ltb_lt in Hlt.
        apply negb_true_iff in Hf. split; [done|]. split; [done|]. intros _. right.
        subst force. eauto 6.
      * destruct fsOk; [|by (split; [|split])].
        split; [intros p' t'; simpl; congruence | split; [done|by left]].
  - destruct fsOk; [|by (split; [|split])].
    split; [intros p' t'; simpl; congruence | split; [done|by left]].
Qed.

Lemma save_persists_within_window_witness :
  disk (saveKeeperState true "b" 90000 false
          {| lastWrite := Some ("a", 0); disk := Some "a" |}) = Some "b".
Proof.
  destruct (save_persists_within_window true "b" 90000 false
              {| lastWrite := Some ("a", 0); disk := Some "a" |}) as (_ & _ & [Hd|Hd]).
  - intros p t [= <- <-]. reflexivity.
  - reflexivity.
  - exact Hd.
  - destruct Hd as (_ & Hd & _). discriminate Hd.
Defined.

End StateFile.
