(* ===== verification/JsText.v ===== *)
(** * JavaScript text and numbers

    The string searches behind the regular expressions of the source (as
    functions on strings, on ASCII text), the conversion of bigints to numbers
    and the values of JSON, shared by the services. *)

From Stdlib Require Export Ascii SpecFloat.
From S2P Require Import Prelude.
Open Scope Z_scope.
Open Scope js_scope.

(** ** Numbers *)

(** [Number(v)] of a bigint: round to nearest, ties to even, on 53 bits. *)
Definition numberOfBigint (z : Z) : Z :=
  let a := Z.abs z in
  if a <=? 2 ^ 53 then z
  else
    let u := 2 ^ (Z.log2 a - 52) in
    let q := a / u in
    let r := a mod u in
    let q' := if 2 * r <? u then q
              else if u <? 2 * r then q + 1
              else if Z.even q then q else q + 1 in
    Z.sgn z * (q' * u).

(** JavaScript numbers that are not integers: IEEE binary64. *)
Definition number : Type := spec_float.
Definition divN (x y : number) : number := SFdiv 53 1024 x y.
Definition subN (x y : number) : number := SFsub 53 1024 x y.
Definition mulN (x y : number) : number := SFmul 53 1024 x y.
Definition numberOfZ (z : Z) : number := binary_normalize 53 1024 z 0 false.
Definition absN (x : number) : number := SFabs x.
Definition ltN (x y : number) : bool := SFltb x y.
Definition leN (x y : number) : bool := SFleb x y.
Definition isFinite (x : number) : bool :=
  match x with S754_infinity _ | S754_nan => false | _ => true end.
Definition addN (x y : number) : number := SFadd 53 1024 x y.
Definition minN (x y : number) : number := if ltN y x then y else x.

(** ** Concatenation *)

(** [+:+] does not unfold by itself. *)
Lemma str_app_nil s : EmptyString +:+ s = s.
Proof. done. Qed.

Lemma str_app_cons c a s : String c a +:+ s = String c (a +:+ s).
Proof. done. Qed.

Lemma str_app_nil_r s : s +:+ EmptyString = s.
Proof. induction s as [|c s IH]; [done|]. by rewrite str_app_cons, IH. Qed.

Lemma str_app_assoc a b c : a +:+ b +:+ c = (a +:+ b) +:+ c.
Proof. induction a as [|x a IH]; [done|]. by rewrite !str_app_cons, IH. Qed.

(** ** Searching *)

Definition lowerAscii (c : Ascii.ascii) : Ascii.ascii :=
  let n := Ascii.N_of_ascii c in
  if N.leb 65 n && N.leb n 90 then Ascii.ascii_of_N (n + 32) else c.

Fixpoint lower (s : string) : string :=
  match s with EmptyString => EmptyString | String c s => String (lowerAscii c) (lower s) end.

(** Every suffix, longest first: where a regular expression may start. *)
Fixpoint suffixes (s : string) : list string :=
  s :: match s with EmptyString => [] | String _ s => suffixes s end.

Fixpoint stripPrefix (p s : string) : option string :=
  match p, s with
  | EmptyString, _ => Some s
  | String a p, String b s => if Ascii.eqb a b then stripPrefix p s else None
  | String _ _, EmptyString => None
  end.

Definition startsWith (p s : string) : bool :=
  match stripPrefix p s with Some _ => true | None => false end.

Definition includes (s p : string) : bool := existsb (startsWith p) (suffixes s).

Definition isDigit (c : Ascii.ascii) : bool :=
  let n := Ascii.N_of_ascii c in N.leb 48 n && N.leb n 57.
Definition isSpace (c : Ascii.ascii) : bool :=
  let n := Ascii.N_of_ascii c in N.eqb n 32 || (N.leb 9 n && N.leb n 13).

(** The longest prefix of characters of a class, and the rest. *)
Fixpoint span (p : Ascii.ascii -> bool) (s : string) : string * string :=
  match s with
  | EmptyString => (EmptyString, EmptyString)
  | String c s' => if p c then let (a, b) := span p s' in (String c a, b) else (EmptyString, s)
  end.

Fixpoint firstSome {A B} (f : A -> option B) (l : list A) : option B :=
  match l with
  | [] => None
  | x :: l => match f x with Some y => Some y | None => firstSome f l end
  end.

(** [Number(digits)] *)
Definition numberOfDigits (s : string) : Z :=
  numberOfBigint (foldl (fun n c => 10 * n + (Z.of_N (Ascii.N_of_ascii c) - 48)) 0
                    (String.list_ascii_of_string s)).

(** ** JSON values *)

Inductive Json :=
| JNull | JBool (b : bool) | JNumber (x : number) | JString (s : string)
| JArray (l : list Json) | JObject (fields : list (string * Json)).

(** [j.name]; [None] is undefined. *)
Definition member (j : Json) (name : string) : Result (option Json) :=
  match j with
  | JNull => Err ("Cannot read properties of null (reading '" +:+ name +:+ "')")
  | JObject fields => Ok (snd <$> List.find (fun f => String.eqb f.1 name) fields)
  | _ => Ok None
  end.

(** [j?.name] *)
Definition memberIfAny (j : option Json) (name : string) : option Json :=
  match j with
  | Some j => match member j name with inr v => v | inl _ => None end
  | None => None
  end.

(** [Object.entries(j)] of what is an object to [typeof]. *)
Definition objectEntries (j : Json) : option (list (string * Json)) :=
  match j with
  | JObject fields => Some fields
  | JArray l => Some (imap (fun i v => (decimalOfZ (Z.of_nat i), v)) l)
  | _ => None
  end.

(** [/^\d+$/.test(s)] *)
Definition allDigits (s : string) : bool := negb (String.eqb s EmptyString) && forallb isDigit (String.list_ascii_of_string s).

(** ** Lemmas *)

Definition digits (s : string) : Prop := Forall (fun c => isDigit c = true) (String.list_ascii_of_string s).

Lemma span_app p d s :
  Forall (fun c => p c = true) (String.list_ascii_of_string d) -> (span p s).1 = EmptyString ->
  span p (d +:+ s) = (d, s).
Proof.
  intros Hd Hs. induction d as [|c d IH]; simpl in *.
  - destruct s as [|c s]; simpl in *; [done|]. destruct (p c); [|done].
    destruct (span p s). done.
  - inversion Hd as [|? ? Hc Hd']; subst. rewrite Hc, (IH Hd'). done.
Qed.

Lemma span_all p d :
  Forall (fun c => p c = true) (String.list_ascii_of_string d) -> span p d = (d, EmptyString).
Proof.
  intros Hd. induction d as [|c d IH]; simpl in *; [done|].
  inversion Hd as [|? ? Hc Hd']; subst. by rewrite Hc, (IH Hd').
Qed.


(** Digits have no case. *)
Lemma lowerAscii_digit c : isDigit c = true -> lowerAscii c = c.
Proof.
  unfold isDigit, lowerAscii. intros H. apply andb_true_iff in H as [_ H]. apply N.leb_le in H.
  destruct (N.leb_spec 65 (Ascii.N_of_ascii c)); [lia | done].
Qed.

(** The decimal text of a non-negative integer is a non-empty run of digits. *)
Lemma decimalOfZ_digits z : 0 <= z -> digits (decimalOfZ z) /\ decimalOfZ z <> EmptyString.
Proof.
  assert (forall d, digits (DecimalString.NilEmpty.string_of_uint d)) as Hd.
  { unfold digits. induction d; simpl; by constructor. }
  intros Hz. unfold decimalOfZ. destruct z as [|p|p]; [by split; [repeat constructor|] | |lia].
  simpl. split; unfold DecimalString.NilZero.string_of_uint; destruct (Pos.to_uint p) eqn:E;
    try done; try (by repeat constructor); apply (Hd _).
Qed.
