(* ===== verification/SqlDb.v ===== *)
(** * The database adapter

    Models packages/db: the placeholder rewriter of rewrite.ts, and the
    statement, batch and transaction wrappers of index.ts over one pooled
    connection of pg.ts. Postgres itself answers the queries. Text is a list
    of ASCII characters inside the scanner. *)

From S2P Require Import Prelude JsText.
Open Scope Z_scope.
Open Scope js_scope.

Definition text : Type := list ascii.
Definition textOf (s : string) : text := String.list_ascii_of_string s.
Definition stringOf (l : text) : string := String.string_of_list_ascii l.

Definition chr (n : nat) : ascii := Ascii.ascii_of_nat n.
Definition NEWLINE : ascii := chr 10.
Definition QUOTE : ascii := chr 39.
Definition DQUOTE : ascii := chr 34.
Definition DOLLAR : ascii := chr 36.
Definition QUESTION : ascii := chr 63.
Definition DASH : ascii := chr 45.
Definition SLASH : ascii := chr 47.
Definition STAR : ascii := chr 42.
Definition BAR : ascii := chr 124.
Definition AMP : ascii := chr 38.

(** ** The scanner's consumers: what is taken, and the rest *)

Fixpoint spanL (p : ascii -> bool) (s : text) : text * text :=
  match s with
  | [] => ([], [])
  | c :: s' => if p c then let (a, b) := spanL p s' in (c :: a, b) else ([], s)
  end.

(** Up to and including the two characters [x y]. *)
Fixpoint throughPair (x y : ascii) (s : text) : text * text :=
  match s with
  | [] => ([], [])
  | c :: s' =>
      match s' with
      | d :: s'' => if Ascii.eqb c x && Ascii.eqb d y then ([c; d], s'')
                    else let (a, b) := throughPair x y s' in (c :: a, b)
      | [] => ([c], [])
      end
  end.

(** The rest of a string literal, after its opening quote. *)
Fixpoint literalRest (s : text) : text * text :=
  match s with
  | [] => ([], [])
  | c :: s' =>
      if Ascii.eqb c QUOTE then
        match s' with
        | d :: s'' => if Ascii.eqb d QUOTE
                      then let (a, b) := literalRest s'' in (c :: d :: a, b)
                      else ([c], s')
        | [] => ([c], [])
        end
      else let (a, b) := literalRest s' in (c :: a, b)
  end.

(** The rest of a quoted identifier. *)
Fixpoint throughChar (x : ascii) (s : text) : text * text :=
  match s with
  | [] => ([], [])
  | c :: s' => if Ascii.eqb c x then ([c], s')
               else let (a, b) := throughChar x s' in (c :: a, b)
  end.

Fixpoint stripPrefixL (p s : text) : option text :=
  match p, s with
  | [], _ => Some s
  | a :: p, b :: s => if Ascii.eqb a b then stripPrefixL p s else None
  | _ :: _, [] => None
  end.

Fixpoint throughTag (tag s : text) : text * text :=
  match stripPrefixL tag s with
  | Some r => (tag, r)
  | None => match s with
            | [] => ([], [])
            | c :: s' => let (a, b) := throughTag tag s' in (c :: a, b)
            end
  end.

Definition isLetter (c : ascii) : bool :=
  let n := Ascii.N_of_ascii c in (N.leb 65 n && N.leb n 90) || (N.leb 97 n && N.leb n 122).
Definition isIdentStart (c : ascii) : bool := isLetter c || Ascii.eqb c (chr 95).
Definition isIdentChar (c : ascii) : bool := isIdentStart c || isDigit c.

(** The opening tag of a dollar-quoted string, given what follows its dollar. *)
Definition dollarTag (s : text) : option (text * text) :=
  let (ident, r) := match s with
                    | c :: s' => if isIdentStart c
                                 then let (a, b) := spanL isIdentChar s' in (c :: a, b)
                                 else ([], s)
                    | [] => ([], [])
                    end in
  match r with
  | d :: r' => if Ascii.eqb d DOLLAR then Some (DOLLAR :: ident ++ [DOLLAR], r') else None
  | [] => None
  end.

(** ** One turn of the scanning loop *)

Inductive Piece :=
| Copy (t : text)
| Positional (t : text)
| Placeholder
| JsonbOperator (second : ascii).

Definition headIs (x : ascii) (s : text) : bool :=
  match s with c :: _ => Ascii.eqb c x | [] => false end.

Definition nextPiece (c : ascii) (s : text) : Piece * text :=
  if Ascii.eqb c DASH && headIs DASH s then
    let (a, b) := spanL (fun x => negb (Ascii.eqb x NEWLINE)) (c :: s) in (Copy a, b)
  else if Ascii.eqb c SLASH && headIs STAR s then
    match s with
    | star :: s' => let (a, b) := throughPair STAR SLASH s' in (Copy (c :: star :: a), b)
    | [] => (Copy [c], [])
    end
  else if Ascii.eqb c QUOTE then let (a, b) := literalRest s in (Copy (c :: a), b)
  else if Ascii.eqb c DQUOTE then let (a, b) := throughChar DQUOTE s in (Copy (c :: a), b)
  else if Ascii.eqb c DOLLAR then
    match dollarTag s with
    | Some (tag, r) => let (a, b) := throughTag tag r in (Copy (tag ++ a), b)
    | None =>
        match spanL isDigit s with
        | ([], _) => (Copy [c], s)
        | (ds, r) => (Positional (c :: ds), r)
        end
    end
  else if Ascii.eqb c QUESTION then
    match s with
    | d :: _ => if Ascii.eqb d BAR || Ascii.eqb d AMP then (JsonbOperator d, s)
                else (Placeholder, s)
    | [] => (Placeholder, s)
    end
  else (Copy [c], s).

(** ** The rewriter *)

Definition JSONB_ERROR : string := "jsonb operator is not supported".
Definition MIXED_ERROR : string := "SQL mixes $n parameters with ? placeholders".

(** The loop; [fuel] bounds its turns, each of which consumes a character. *)
Fixpoint scan (fuel : nat) (s out : text) (param : Z) (sawPositional : bool)
  : Result (text * Z * bool) :=
  match s, fuel with
  | [], _ => Ok (out, param, sawPositional)
  | _, O => Err "unreachable"
  | c :: s, S fuel =>
      match nextPiece c s with
      | (Copy t, r) => scan fuel r (out ++ t) param sawPositional
      | (Positional t, r) => scan fuel r (out ++ t) param true
      | (JsonbOperator _, _) => Err JSONB_ERROR
      | (Placeholder, r) =>
          scan fuel r (out ++ DOLLAR :: textOf (decimalOfZ (param + 1))) (param + 1) sawPositional
      end
  end.

Definition rewriteWithCount (sql : string) : Result (string * Z) :=
  t ← scan (length (textOf sql)) (textOf sql) [] 0 false;
  let '(out, param, sawPositional) := (t : text * Z * bool) in
  if (sawPositional : bool) && (0 <? param) then Err MIXED_ERROR else Ok (stringOf out, param).

Definition rewritePlaceholders (sql : string) : Result string :=
  r ← rewriteWithCount sql; Ok (r : string * Z).1.

Example rewrite_sample :
  rewriteWithCount "a = ? -- why?
and b='it''s ?' and $t$ ? $t$ c = ?"
  = Ok ("a = $1 -- why?
and b='it''s ?' and $t$ ? $t$ c = $2", 2).
Proof. reflexivity. Qed.

Example rewrite_mixed : rewriteWithCount "a = $1 and b = ?" = Err MIXED_ERROR.
Proof. reflexivity. Qed.

(** ** Facts about the scanner *)

(** Text [r'] that stands where [b] stood: it begins alike, a placeholder
    having become a parameter. *)
Definition follows (b r' : text) : Prop :=
  match b, r' with
  | [], [] => True
  | c :: _, c' :: _ => c' = c \/ (c = QUESTION /\ c' = DOLLAR)
  | _, _ => False
  end.

Definition lossless (f : text -> text * text) : Prop :=
  forall s a b, f s = (a, b) -> s = a ++ b.

(** What [f] takes does not depend on what stands after it. *)
Definition stableConsumer (f : text -> text * text) : Prop :=
  forall s a b r', f s = (a, b) -> follows b r' -> f (a ++ r') = (a, r').

Lemma follows_nil_l r' : follows [] r' -> r' = [].
Proof. by destruct r'. Qed.

Lemma spanL_lossless p : lossless (spanL p).
Proof.
  intros s. induction s as [|c s IH]; intros a b; simpl; [by intros [= <- <-]|].
  destruct (p c); [|by intros [= <- <-]].
  destruct (spanL p s) as [a' b']. intros [= <- <-]. simpl. f_equal. by apply IH.
Qed.

Lemma spanL_stop p s a b :
  spanL p s = (a, b) ->
  Forall (fun c => p c = true) a /\ match b with [] => True | c :: _ => p c = false end.
Proof.
  revert a b; induction s as [|c s IH]; intros a b; simpl; [by intros [= <- <-]|].
  destruct (p c) eqn:Hc; [|by intros [= <- <-]].
  destruct (spanL p s) as [a' b']. intros [= <- <-].
  destruct (IH a' b' eq_refl). by split; [constructor|].
Qed.

Lemma spanL_exact p a r :
  Forall (fun c => p c = true) a -> match r with [] => True | c :: _ => p c = false end ->
  spanL p (a ++ r) = (a, r).
Proof.
  intros Ha Hr. induction Ha as [|c a Hc Ha IH]; simpl.
  - destruct r as [|c r]; simpl in *; [done|]. by rewrite Hr.
  - by rewrite Hc, IH.
Qed.

Lemma spanL_stable p : p DOLLAR = p QUESTION -> stableConsumer (spanL p).
Proof.
  intros Hp s a b r' Hs Hf. destruct (spanL_stop _ _ _ _ Hs) as [Ha Hb].
  apply spanL_exact; [done|]. destruct b as [|c b], r' as [|c' r']; simpl in *; try done.
  destruct Hf as [->|[-> ->]]; congruence.
Qed.

Lemma throughPair_cons x y c s :
  exists a, (throughPair x y (c :: s)).1 = c :: a.
Proof.
  destruct s as [|d s]; simpl; [by exists []|].
  destruct (Ascii.eqb c x && Ascii.eqb d y); [by exists [d]|].
  destruct s as [|e s]; simpl; [by exists [d]|].
  destruct (Ascii.eqb d x && Ascii.eqb e y); [by eexists|].
  destruct (match s with [] => _ | _ => _ end) as [u v]. by eexists.
Qed.

Lemma throughPair_lossless x y : lossless (throughPair x y).
Proof.
  intros s. induction s as [|c s IH]; intros a b; simpl; [by intros [= <- <-]|].
  destruct s as [|d s]; [by intros [= <- <-]|].
  destruct (Ascii.eqb c x && Ascii.eqb d y); [by intros [= <- <-]|].
  destruct (throughPair x y (d :: s)) as [a' b'] eqn:E. intros [= <- <-]. simpl. f_equal.
  by apply IH.
Qed.

Lemma throughPair_stable x y : stableConsumer (throughPair x y).
Proof.
  intros s. induction s as [|c s IH]; intros a b r'; simpl.
  - intros [= <- <-] ->%follows_nil_l. done.
  - destruct s as [|d s]; [intros [= <- <-] ->%follows_nil_l; done|].
    destruct (Ascii.eqb c x && Ascii.eqb d y) eqn:Hxy.
    + intros [= <- <-] _. simpl. by rewrite Hxy.
    + destruct (throughPair_cons x y d s) as [a0 Ha0].
      destruct (throughPair x y (d :: s)) as [a' b'] eqn:E. simpl in Ha0. subst a'.
      intros [= <- <-] Hf. specialize (IH _ _ r' eq_refl Hf).
      change ((c :: d :: a0) ++ r') with (c :: d :: (a0 ++ r')).
      change ((d :: a0) ++ r') with (d :: (a0 ++ r')) in IH.
      simpl. rewrite Hxy. simpl in IH. by rewrite IH.
Qed.

Lemma throughChar_lossless x : lossless (throughChar x).
Proof.
  intros s. induction s as [|c s IH]; intros a b; simpl; [by intros [= <- <-]|].
  destruct (Ascii.eqb c x); [by intros [= <- <-]|].
  destruct (throughChar x s) as [a' b']. intros [= <- <-]. simpl. f_equal. by apply IH.
Qed.

Lemma throughChar_stable x : stableConsumer (throughChar x).
Proof.
  intros s. induction s as [|c s IH]; intros a b r'; simpl.
  - intros [= <- <-] ->%follows_nil_l. done.
  - destruct (Ascii.eqb c x) eqn:Hx; [intros [= <- <-] _; simpl; by rewrite Hx|].
    destruct (throughChar x s) as [a' b'] eqn:E. intros [= <- <-] Hf. simpl.
    by rewrite Hx, (IH _ _ r' eq_refl Hf).
Qed.

Lemma literalRest_lossless : lossless literalRest.
Proof.
  intros s. remember (length s) as n eqn:Hn. revert s Hn.
  induction n as [n IH] using lt_wf_ind; intros [|c s] -> a b; simpl; [by intros [= <- <-]|].
  destruct (Ascii.eqb c QUOTE).
  - destruct s as [|d s]; [by intros [= <- <-]|]. destruct (Ascii.eqb d QUOTE).
    + destruct (literalRest s) as [a' b'] eqn:E. intros [= <- <-]. simpl. do 2 f_equal.
      eapply IH; [|reflexivity|exact E]. simpl. lia.
    + by intros [= <- <-].
  - destruct (literalRest s) as [a' b'] eqn:E. intros [= <- <-]. simpl. f_equal.
    eapply IH; [|reflexivity|exact E]. simpl. lia.
Qed.

Lemma literalRest_stable : stableConsumer literalRest.
Proof.
  intros s. remember (length s) as n eqn:Hn. revert s Hn.
  induction n as [n IH] using lt_wf_ind; intros [|c s] -> a b r'; simpl.
  { intros [= <- <-] ->%follows_nil_l. done. }
  destruct (Ascii.eqb c QUOTE) eqn:Hc.
  - destruct s as [|d s]; [intros [= <- <-] ->%follows_nil_l; simpl; by rewrite Hc|].
    destruct (Ascii.eqb d QUOTE) eqn:Hd.
    + destruct (literalRest s) as [a' b'] eqn:E. intros [= <- <-] Hf. simpl. rewrite Hc, Hd.
      by erewrite (IH (length s)); [|simpl; lia|reflexivity|exact E|exact Hf].
    + intros [= <- <-] Hf. destruct r' as [|d' r']; [done|]. simpl. rewrite Hc.
      destruct Hf as [->|[-> ->]]; [by rewrite Hd | done].
  - destruct (literalRest s) as [a' b'] eqn:E. intros [= <- <-] Hf. simpl. rewrite Hc.
    by erewrite (IH (length s)); [|simpl; lia|reflexivity|exact E|exact Hf].
Qed.

Lemma stripPrefixL_Some p s r : stripPrefixL p s = Some r <-> s = p ++ r.
Proof.
  revert s; induction p as [|a p IH]; intros s; simpl; [split; [by intros [= ->] | by intros ->]|].
  destruct s as [|b s]; [by split|].
  destruct (Ascii.eqb a b) eqn:Hab.
  - apply Ascii.eqb_eq in Hab as ->. rewrite IH. split; [by intros -> | by intros [= ->]].
  - split; [done|]. intros [= -> _]. by rewrite Ascii.eqb_refl in Hab.
Qed.

(** Whether a prefix fits is settled by as many characters as it has. *)
Lemma stripPrefixL_local p u v w :
  (length p <= length u)%nat ->
  stripPrefixL p (u ++ v) = None -> stripPrefixL p (u ++ w) = None.
Proof.
  revert u; induction p as [|a p IH]; intros u Hl; simpl; [done|].
  destruct u as [|b u]; simpl in *; [lia|]. destruct (Ascii.eqb a b); [|done]. apply IH. lia.
Qed.

Lemma throughTag_spec tag s a b :
  throughTag tag s = (a, b) -> s = a ++ b /\ (b <> [] -> exists u, a = u ++ tag).
Proof.
  revert a b; induction s as [|c s IH]; intros a b; simpl.
  - destruct (stripPrefixL tag []) as [r|] eqn:E.
    + apply stripPrefixL_Some in E. intros [= <- <-]. split; [done|]. by exists [].
    + by intros [= <- <-].
  - destruct (stripPrefixL tag (c :: s)) as [r|] eqn:E.
    + apply stripPrefixL_Some in E. intros [= <- <-]. split; [done|]. by exists [].
    + destruct (throughTag tag s) as [a' b'] eqn:E'. intros [= <- <-].
      destruct (IH _ _ eq_refl) as [-> Hu]. split; [done|]. intros Hb.
      destruct (Hu Hb) as [u ->]. by exists (c :: u).
Qed.

Lemma throughTag_stable tag : tag <> [] -> stableConsumer (throughTag tag).
Proof.
  intros Htag s. induction s as [|c s IH]; intros a b r' Hs Hf.
  - destruct tag as [|x tag]; [done|]. simpl in Hs. injection Hs as <- <-.
    by apply follows_nil_l in Hf as ->.
  - simpl in Hs. destruct (stripPrefixL tag (c :: s)) as [r|] eqn:E.
    + injection Hs as <- <-. destruct tag as [|x tag]; [done|].
      change ((x :: tag) ++ r') with (x :: tag ++ r'). cbn [throughTag].
      by rewrite (proj2 (stripPrefixL_Some (x :: tag) (x :: tag ++ r') r')).
    + destruct (throughTag tag s) as [a' b'] eqn:E'. injection Hs as <- <-.
      destruct (throughTag_spec _ _ _ _ E') as [Hsplit Hend].
      assert (stripPrefixL tag (c :: a' ++ r') = None) as Hno.
      { destruct b' as [|x b']; [apply follows_nil_l in Hf as ->; by rewrite <- Hsplit|].
        destruct Hend as [u Hu]; [done|].
        apply (stripPrefixL_local tag (c :: a') (x :: b')); [|by rewrite Hsplit in E].
        rewrite Hu. simpl. rewrite length_app. lia. }
      change ((c :: a') ++ r') with (c :: a' ++ r'). cbn [throughTag].
      by rewrite Hno, (IH _ _ r' eq_refl Hf).
Qed.

Lemma dollarTag_spec s tag r :
  dollarTag s = Some (tag, r) ->
  exists u, tag = DOLLAR :: u /\ s = u ++ r
            /\ forall r', dollarTag (u ++ r') = Some (tag, r').
Proof.
  unfold dollarTag. destruct s as [|c s]; [done|].
  destruct (isIdentStart c) eqn:Hc.
  - destruct (spanL isIdentChar s) as [a b] eqn:E. destruct b as [|d b]; [done|].
    destruct (Ascii.eqb d DOLLAR) eqn:Hd; [|done]. apply Ascii.eqb_eq in Hd as ->.
    intros [= <- <-]. exists (c :: a ++ [DOLLAR]). split; [done|].
    rewrite (spanL_lossless _ _ _ _ E). split; [simpl; by rewrite <- app_assoc|].
    intros r'. simpl. rewrite Hc, <- app_assoc.
    by rewrite (spanL_exact _ a ([DOLLAR] ++ r')); [|apply (spanL_stop _ _ _ _ E)|].
  - destruct (Ascii.eqb c DOLLAR) eqn:Hd; [|done]. apply Ascii.eqb_eq in Hd as ->.
    intros [= <- <-]. exists [DOLLAR]. done.
Qed.

(** A copied piece is taken again whatever follows it, a lone dollar apart. *)
Lemma nextPiece_copy c s t r r' :
  nextPiece c s = (Copy t, r) -> t <> [DOLLAR] -> follows r r' ->
  exists u, t = c :: u /\ s = u ++ r /\ nextPiece c (u ++ r') = (Copy t, r').
Proof.
  intros Hn Ht Hf. unfold nextPiece in Hn.
  destruct (Ascii.eqb c DASH && headIs DASH s) eqn:H1.
  { apply andb_true_iff in H1 as [Hc Hh]. apply Ascii.eqb_eq in Hc as ->.
    destruct s as [|d s]; [done|]. simpl in Hh. apply Ascii.eqb_eq in Hh as ->.
    set (p := fun x => negb (Ascii.eqb x NEWLINE)) in Hn.
    change (spanL p (DASH :: DASH :: s))
      with (let (a, b) := let (a, b) := spanL p s in (DASH :: a, b) in (DASH :: a, b)) in Hn.
    destruct (spanL p s) as [a b] eqn:E. injection Hn as <- <-. exists (DASH :: a).
    split; [done|]. split; [simpl; by rewrite (spanL_lossless _ _ _ _ E)|].
    unfold nextPiece. simpl. fold p. by rewrite (spanL_stable p eq_refl _ _ _ r' E). }
  destruct (Ascii.eqb c SLASH && headIs STAR s) eqn:H2.
  { destruct s as [|star s]; [by rewrite andb_false_r in H2|].
    destruct (throughPair STAR SLASH s) as [a b] eqn:E. injection Hn as <- <-.
    exists (star :: a). split; [done|].
    split; [simpl; by rewrite (throughPair_lossless _ _ _ _ _ E)|].
    unfold nextPiece. apply andb_true_iff in H2 as [Hc Hh].
    apply Ascii.eqb_eq in Hc as ->. simpl in Hh |- *. rewrite Hh.
    by rewrite (throughPair_stable _ _ _ _ _ r' E). }
  destruct (Ascii.eqb c QUOTE) eqn:H3.
  { destruct (literalRest s) as [a b] eqn:E. injection Hn as <- <-. exists a. split; [done|].
    split; [by apply literalRest_lossless|]. apply Ascii.eqb_eq in H3 as ->.
    unfold nextPiece. simpl. by rewrite (literalRest_stable _ _ _ r' E). }
  destruct (Ascii.eqb c DQUOTE) eqn:H4.
  { destruct (throughChar DQUOTE s) as [a b] eqn:E. injection Hn as <- <-. exists a.
    split; [done|]. split; [by apply (throughChar_lossless DQUOTE)|].
    apply Ascii.eqb_eq in H4 as ->.
    unfold nextPiece. simpl. by rewrite (throughChar_stable _ _ _ _ r' E). }
  destruct (Ascii.eqb c DOLLAR) eqn:H5.
  { apply Ascii.eqb_eq in H5 as ->. destruct (dollarTag s) as [[tag q]|] eqn:E.
    - destruct (dollarTag_spec _ _ _ E) as (u & -> & -> & Htag).
      destruct (throughTag (DOLLAR :: u) q) as [a b] eqn:E'. injection Hn as <- <-.
      exists (u ++ a). split; [done|].
      destruct (throughTag_spec _ _ _ _ E') as [-> _]. split; [by rewrite app_assoc|].
      unfold nextPiece. simpl. rewrite <- app_assoc, Htag.
      by rewrite (throughTag_stable (DOLLAR :: u) ltac:(done) _ _ _ r' E').
    - destruct (spanL isDigit s) as [[|d ds] b]; [|done]. by injection Hn as <- <-. }
  destruct (Ascii.eqb c QUESTION) eqn:H6.
  { destruct s as [|d s]; [done|]. by destruct (Ascii.eqb d BAR || Ascii.eqb d AMP). }
  injection Hn as <- <-. exists []. do 2 (split; [done|]).
  unfold nextPiece. simpl. rewrite H3, H4, H5, H6.
  assert (Ascii.eqb c DASH && headIs DASH r' = false) as ->.
  { destruct s as [|d s], r' as [|d' r']; try done.
    destruct Hf as [->|[-> ->]]; [done | by rewrite andb_false_r]. }
  assert (Ascii.eqb c SLASH && headIs STAR r' = false) as ->.
  { destruct s as [|d s], r' as [|d' r']; try done.
    destruct Hf as [->|[-> ->]]; [done | by rewrite andb_false_r]. }
  done.
Qed.

Lemma nextPiece_lone_dollar c s r : nextPiece c s = (Copy [DOLLAR], r) -> r = s.
Proof.
  unfold nextPiece.
  destruct (Ascii.eqb c DASH && headIs DASH s) eqn:H1.
  { apply andb_true_iff in H1 as [Hc _]. apply Ascii.eqb_eq in Hc as ->.
    simpl. destruct (spanL _ s) as [a b]. done. }
  destruct (Ascii.eqb c SLASH && headIs STAR s).
  { destruct s as [|x s]; [by intros [= _ <-]|]. destruct (throughPair STAR SLASH s). done. }
  destruct (Ascii.eqb c QUOTE) eqn:H3.
  { apply Ascii.eqb_eq in H3 as ->. by destruct (literalRest s). }
  destruct (Ascii.eqb c DQUOTE) eqn:H4.
  { apply Ascii.eqb_eq in H4 as ->. by destruct (throughChar DQUOTE s). }
  destruct (Ascii.eqb c DOLLAR).
  { destruct (dollarTag s) as [[tag q]|] eqn:E.
    - destruct (dollarTag_spec _ _ _ E) as (u & -> & -> & Htag).
      destruct (throughTag (DOLLAR :: u) q) as [a b] eqn:E'. intros [= Hu <-].
      apply app_nil in Hu as [-> ->].
      destruct (throughTag_spec _ _ _ _ E') as [-> _]. done.
    - destruct (spanL isDigit s) as [[|d ds] b]; [by intros [= _ <-] | done]. }
  destruct (Ascii.eqb c QUESTION).
  { destruct s as [|d s]; [done|]. by destruct (Ascii.eqb d BAR || Ascii.eqb d AMP). }
  by intros [= _ <-].
Qed.

Lemma nextPiece_placeholder c s r : nextPiece c s = (Placeholder, r) -> c = QUESTION /\ r = s.
Proof.
  unfold nextPiece. repeat case_match; try done; intros [= <-]; split; try done;
    by apply Ascii.eqb_eq.
Qed.

Lemma nextPiece_operator c s d r :
  nextPiece c s = (JsonbOperator d, r) -> c = QUESTION /\ headIs d s = true.
Proof.
  unfold nextPiece. repeat case_match; try done; intros [= <- <-]; subst; split;
    try (by apply Ascii.eqb_eq); simpl; by rewrite Ascii.eqb_refl.
Qed.

Lemma nextPiece_shorter c s p r : nextPiece c s = (p, r) -> (length r <= length s)%nat.
Proof.
  intros Hn. destruct p as [t|t| |d].
  - destruct (decide (t = [DOLLAR])) as [->|Ht].
    + by rewrite (nextPiece_lone_dollar _ _ _ Hn).
    + assert (follows r r) as Hf by (destruct r; simpl; auto).
      destruct (nextPiece_copy _ _ _ _ _ Hn Ht Hf) as (u & _ & -> & _).
      rewrite length_app. lia.
  - unfold nextPiece in Hn. repeat (case_match; try done). injection Hn as _ <-.
    match goal with H : spanL isDigit s = _ |- _ => rewrite (spanL_lossless _ _ _ _ H) end.
    rewrite length_app. lia.
  - by apply nextPiece_placeholder in Hn as [_ ->].
  - unfold nextPiece in Hn. repeat (case_match; try done). by injection Hn as _ <-.
Qed.

(** A numbered parameter is read back whole. *)
Lemma nextPiece_parameter ds r :
  ds <> [] -> Forall (fun c => isDigit c = true) ds ->
  match r with [] => True | c :: _ => isDigit c = false end ->
  nextPiece DOLLAR (ds ++ r) = (Positional (DOLLAR :: ds), r).
Proof.
  intros Hne Hds Hr. destruct ds as [|d ds]; [done|]. inversion Hds as [|? ? Hd Hds']; subst.
  assert (dollarTag ((d :: ds) ++ r) = None) as Htag.
  { unfold dollarTag. simpl. assert (isIdentStart d = false /\ Ascii.eqb d DOLLAR = false) as [-> ->];
      [|done]. revert Hd. clear. by destruct d as [[] [] [] [] [] [] [] []]. }
  unfold nextPiece. simpl Ascii.eqb. cbv iota. rewrite Htag, (spanL_exact _ (d :: ds) r); done.
Qed.

(** ** Reading the rewritten statement back *)

(** The scanner with every numbered parameter put back as a placeholder. *)
Fixpoint restore (fuel : nat) (s : text) : text :=
  match s, fuel with
  | [], _ | _, O => []
  | c :: s, S fuel =>
      match nextPiece c s with
      | (Copy t, r) => t ++ restore fuel r
      | (_, r) => QUESTION :: restore fuel r
      end
  end.

Definition restorePlaceholders (sql : string) : string :=
  stringOf (restore (length (textOf sql)) (textOf sql)).

(** No dollar stands alone outside literals and comments, and no placeholder
    is followed by a digit. *)
Fixpoint tidy (fuel : nat) (s : text) : bool :=
  match s, fuel with
  | [], _ | _, O => true
  | c :: s, S fuel =>
      match nextPiece c s with
      | (Copy t, r) => negb (bool_decide (t = [DOLLAR])) && tidy fuel r
      | (Placeholder, r) => negb (match r with d :: _ => isDigit d | [] => false end) && tidy fuel r
      | (_, r) => tidy fuel r
      end
  end.

Definition tidySql (sql : string) : bool := tidy (length (textOf sql)) (textOf sql).

Lemma scan_saw fuel s out p out' p' b :
  scan fuel s out p true = Ok (out', p', b) -> b = true.
Proof.
  revert s out p; induction fuel as [|fuel IH]; intros [|c s] out p; simpl;
    [by intros [= _ _ <-] | done | by intros [= _ _ <-] |].
  destruct (nextPiece c s) as [[t|t| |d] r]; eauto. done.
Qed.

Lemma scan_restore fuel s out p out' p' :
  (length s <= fuel)%nat -> 0 <= p -> tidy fuel s = true ->
  scan fuel s out p false = Ok (out', p', false) ->
  exists o, out' = out ++ o /\ follows s o
            /\ forall fuel', (length o <= fuel')%nat -> restore fuel' o = s.
Proof.
  revert s out p; induction fuel as [|fuel IH]; intros [|c s] out p Hl Hp Ht Hs; simpl in *;
    [injection Hs as <- <-| lia | injection Hs as <- <- |].
  1, 2: exists []; rewrite app_nil_r; split; [done|]; split; [done|]; intros []; done.
  destruct (nextPiece c s) as [[t|t| |d] r] eqn:Hn; [| by apply scan_saw in Hs | | done].
  - apply andb_true_iff in Ht as [Hd Ht]. apply negb_true_iff, bool_decide_eq_false in Hd.
    pose proof (nextPiece_shorter _ _ _ _ Hn).
    destruct (IH r (out ++ t) p ltac:(lia) Hp Ht Hs) as (o & -> & Hf & Hr).
    destruct (nextPiece_copy _ _ _ _ _ Hn Hd Hf) as (u & -> & -> & Hn').
    exists ((c :: u) ++ o). split; [by rewrite app_assoc|]. split; [by left|].
    intros [|fuel'] Hle; simpl in Hle; [lia|]. rewrite length_app in Hle. simpl.
    rewrite Hn'. simpl. by rewrite (Hr fuel') by lia.
  - destruct (nextPiece_placeholder _ _ _ Hn) as [-> ->].
    apply andb_true_iff in Ht as [Hd Ht]. apply negb_true_iff in Hd.
    destruct (IH s _ (p + 1) ltac:(lia) ltac:(lia) Ht Hs) as (o & -> & Hf & Hr).
    destruct (decimalOfZ_digits (p + 1) ltac:(lia)) as [Hds Hne].
    exists (DOLLAR :: textOf (decimalOfZ (p + 1)) ++ o).
    split; [by rewrite <- app_assoc|]. split; [by right|].
    intros [|fuel'] Hle; simpl in Hle; [lia|]. rewrite length_app in Hle. cbn [restore].
    rewrite nextPiece_parameter; [by rewrite (Hr fuel') by lia | | done |].
    + intros E. apply Hne. unfold textOf in E. by destruct (decimalOfZ (p + 1)).
    + destruct s as [|x s], o as [|y o]; try done. by destruct Hf as [->|[-> ->]].
Qed.

(** Rewriting only numbers the placeholders: in a statement with placeholders
    that is accepted, reading each numbered parameter outside literals,
    comments and dollar-quoted bodies as a placeholder again gives back the
    statement, character for character. *)
Theorem rewrite_roundtrip sql out n :
  tidySql sql = true -> rewriteWithCount sql = Ok (out, n) -> 0 < n ->
  restorePlaceholders out = sql.
Proof.
  unfold tidySql, rewriteWithCount, restorePlaceholders. intros Ht Hr Hn.
  apply bind_Ok in Hr as ([[o p] saw] & Hs & Hk).
  destruct saw; simpl in Hk.
  - destruct (0 <? p) eqn:E; [done|]. injection Hk as <- ->. apply Z.ltb_ge in E. lia.
  - injection Hk as <- ->.
    destruct (scan_restore _ _ _ _ _ _ ltac:(reflexivity) ltac:(reflexivity) Ht Hs)
      as (o' & -> & _ & Ho).
    unfold stringOf, textOf in *. rewrite String.list_ascii_of_string_of_list_ascii. simpl app in *.
    rewrite Ho by reflexivity. apply String.string_of_list_ascii_of_string.
Qed.

Theorem rewrite_roundtrip_witness :
  restorePlaceholders "UPDATE t SET a = $1, b = 'why?' /* ? */ WHERE c = $2"
  = "UPDATE t SET a = ?, b = 'why?' /* ? */ WHERE c = ?".
Proof. by apply (rewrite_roundtrip _ _ 2). Defined.

Lemma scan_total fuel s out p saw e :
  (length s <= fuel)%nat -> scan fuel s out p saw = Err e -> e = JSONB_ERROR.
Proof.
  revert s out p saw; induction fuel as [|fuel IH]; intros [|c s] out p saw Hl; simpl in *;
    [done | lia | done |].
  destruct (nextPiece c s) as [[t|t| |d] r] eqn:Hn; [| | | by intros [= <-]];
    apply IH; pose proof (nextPiece_shorter _ _ _ _ Hn); lia.
Qed.

(** ** Statements and sessions *)

Inductive InValue :=
| VNull | VUndefined | VString (s : string) | VNumber (x : number) | VBigint (z : Z)
| VBool (b : bool).

(** What a query or the rewriter throws: whether the thrown value is an object,
    and its [code] when that is a string. *)
Inductive DbError :=
| Thrown (isObject : bool) (code : option string)
| SqlRewriteError (message : string).

Definition isMissingTable (e : DbError) : bool :=
  match e with Thrown true (Some code) => String.eqb code "42P01" | _ => false end.

Definition normalizeArg (v : InValue) : InValue :=
  match v with VUndefined => VNull | VBigint z => VString (decimalOfZ z) | v => v end.

Definition normalizeArgs (args : list InValue) : list InValue := normalizeArg <$> args.

Record InStatement := { sql : string; args : list InValue }.

Definition ARITY_ERROR : string := "SQL expects a different number of arguments".

Definition toStatement (stmt : InStatement) : DbError + (string * list InValue) :=
  let params := normalizeArgs (args stmt) in
  match rewriteWithCount (sql stmt) with
  | inl e => inl (SqlRewriteError e)
  | inr (out, n) =>
      if negb (n =? Z.of_nat (length params)) then inl (SqlRewriteError ARITY_ERROR)
      else inr (out, params)
  end.

(** A failure that killed the connection rather than the statement. *)
Definition isConnectionLevel (e : DbError) : bool :=
  match e with
  | Thrown true (Some code) =>
      startsWith "08" code || String.eqb code "57P01" || String.eqb code "57P02"
      || String.eqb code "57P03"
  | Thrown _ _ => true
  | SqlRewriteError _ => true
  end.

(** What happens on one pooled connection. [Release] says whether the client
    is destroyed. *)
Inductive ConnEvent :=
| Query (sql : string) (params : list InValue)
| Release (poisoned : bool).

Section session.
Context {Row : Type}.

Record QueryResult := { rows : list Row; rowCount : option Z }.
Record ResultSet := { rs_rows : list Row; rowsAffected : Z }.

(** Postgres answers a query given everything that happened before on the
    connection. *)
Context (postgres : list ConnEvent -> string -> list InValue -> DbError + QueryResult).

(** A client of the pool: released or not, and poisoned or not. *)
Record Conn := { released : bool; poisoned : bool; trace : list ConnEvent }.
Definition acquired : Conn := {| released := false; poisoned := false; trace := [] |}.

Definition connQuery (q : string) (params : list InValue) (c : Conn)
  : (DbError + QueryResult) * Conn :=
  let c' := {| released := released c; poisoned := poisoned c;
               trace := trace c ++ [Query q params] |} in
  match postgres (trace c) q params with
  | inr r => (inr r, c')
  | inl e => (inl e, {| released := released c; poisoned := poisoned c || isConnectionLevel e;
                        trace := trace c' |})
  end.

Definition release (c : Conn) : Conn :=
  if released c then c
  else {| released := true; poisoned := poisoned c; trace := trace c ++ [Release (poisoned c)] |}.

Definition runOn (stmt : InStatement) (c : Conn) : (DbError + ResultSet) * Conn :=
  match toStatement stmt with
  | inl e => (inl e, c)
  | inr (q, params) =>
      match connQuery q params c with
      | (inl e, c') => (inl e, c')
      | (inr r, c') => (inr {| rs_rows := rows r; rowsAffected := default 0 (rowCount r) |}, c')
      end
  end.

Fixpoint runEach (stmts : list InStatement) (c : Conn) : (DbError + list ResultSet) * Conn :=
  match stmts with
  | [] => (inr [], c)
  | stmt :: stmts =>
      match runOn stmt c with
      | (inl e, c') => (inl e, c')
      | (inr r, c') =>
          match runEach stmts c' with
          | (inl e, c'') => (inl e, c'')
          | (inr rs, c'') => (inr (r :: rs), c'')
          end
      end
  end.

(** The [try] body of [batch]. *)
Definition batchBody (stmts : list InStatement) (c : Conn) : (DbError + list ResultSet) * Conn :=
  match connQuery "BEGIN" [] c with
  | (inl e, c1) => (inl e, c1)
  | (inr _, c1) =>
      match runEach stmts c1 with
      | (inl e, c2) => (inl e, c2)
      | (inr rs, c2) =>
          match connQuery "COMMIT" [] c2 with
          | (inl e, c3) => (inl e, c3)
          | (inr _, c3) => (inr rs, c3)
          end
      end
  end.

Definition batch (stmts : list InStatement) : (DbError + list ResultSet) * Conn :=
  match stmts with
  | [] => (inr [], {| released := true; poisoned := false; trace := [] |})
  | _ =>
      match batchBody stmts acquired with
      | (inr rs, c) => (inr rs, release c)
      | (inl e, c) => (inl e, release (connQuery "ROLLBACK" [] c).2)
      end
  end.

(** An interactive transaction: [None] once it is finished. *)
Record Tx := { conn : Conn; done : bool }.

Definition finish (c : Conn) : Tx := {| conn := release c; done := true |}.

Definition beginTx : (DbError + ()) * Tx :=
  match connQuery "BEGIN" [] acquired with
  | (inl e, c) => (inl e, finish c)
  | (inr _, c) => (inr (), {| conn := c; done := false |})
  end.

Inductive TxOp := TxExecute (stmt : InStatement) | TxCommit | TxRollback.

Definition txStep (op : TxOp) (t : Tx) : (DbError + option ResultSet) * Tx :=
  match op with
  | TxExecute stmt =>
      match runOn stmt (conn t) with
      | (inl e, c) => (inl e, {| conn := c; done := done t |})
      | (inr r, c) => (inr (Some r), {| conn := c; done := done t |})
      end
  | TxCommit =>
      if done t then (inr None, t)
      else match connQuery "COMMIT" [] (conn t) with
           | (inl e, c) => (inl e, finish c)
           | (inr _, c) => (inr None, finish c)
           end
  | TxRollback =>
      if done t then (inr None, t) else (inr None, finish (connQuery "ROLLBACK" [] (conn t)).2)
  end.

Fixpoint txRun (ops : list TxOp) (t : Tx) : Tx :=
  match ops with [] => t | op :: ops => txRun ops (txStep op t).2 end.

(** ** Properties of batches *)

Definition isRelease (e : ConnEvent) : bool := match e with Release _ => true | _ => false end.
Definition noRelease (es : list ConnEvent) : bool := forallb (fun e => negb (isRelease e)) es.

(** The queries a list of statements runs, when all of them run. *)
Definition statementsRun (stmts : list InStatement) (qs : list ConnEvent) : Prop :=
  Forall2 (fun stmt e => exists q params, toStatement stmt = inr (q, params) /\ e = Query q params)
    stmts qs.

Lemma connQuery_trace q params c r c' :
  connQuery q params c = (r, c') ->
  trace c' = trace c ++ [Query q params] /\ released c' = released c.
Proof. unfold connQuery. destruct (postgres _ _ _); by intros [= <- <-]. Qed.

Lemma runEach_trace stmts c r c' :
  runEach stmts c = (r, c') ->
  released c' = released c
  /\ exists qs, trace c' = trace c ++ qs
     /\ exists ran rest, stmts = ran ++ rest /\ statementsRun ran qs
        /\ (forall rs, r = inr rs -> rest = [] /\ length rs = length stmts).
Proof.
  revert c r c'; induction stmts as [|stmt stmts IH]; intros c r c'; simpl.
  - intros [= <- <-]. split; [done|]. exists []. rewrite app_nil_r. split; [done|].
    exists [], []. do 2 (split; [done || constructor|]). by intros rs [= <-].
  - unfold runOn. destruct (toStatement stmt) as [e|[q params]] eqn:Hst.
    { intros [= <- <-]. split; [done|]. exists []. rewrite app_nil_r. split; [done|].
      exists [], (stmt :: stmts). do 2 (split; [done || constructor|]). done. }
    destruct (connQuery q params c) as [[e|r1] c1] eqn:Hq;
      destruct (connQuery_trace _ _ _ _ _ Hq) as [Ht Hrel].
    { intros [= <- <-]. split; [done|]. exists [Query q params]. split; [done|].
      exists [stmt], stmts. split; [done|]. split; [|done].
      constructor; [by exists q, params | constructor]. }
    destruct (runEach stmts c1) as [[e|rs] c2] eqn:Hrun; intros [= <- <-];
      destruct (IH _ _ _ Hrun) as (Hrel2 & qs & Ht2 & ran & rest & -> & Hran & Hall);
      (split; [congruence|]); exists (Query q params :: qs);
      (split; [by rewrite Ht2, Ht, <- app_assoc|]); exists (stmt :: ran), rest;
      (split; [done|]); (split; [constructor; [by exists q, params | done]|]); [done|].
    intros rs' [= <-]. destruct (Hall rs eq_refl) as [-> Hlen]. split; [done|]. simpl. by rewrite Hlen.
Qed.

Lemma statementsRun_free stmts qs : statementsRun stmts qs -> noRelease qs = true.
Proof. induction 1 as [|? ? ? ? (q & ps & _ & ->) ? IH]; [done | exact IH]. Qed.

Lemma begun_free qs tail :
  noRelease qs = true -> noRelease tail = true ->
  noRelease (Query "BEGIN" [] :: qs ++ tail) = true.
Proof. intros Hq Ht. unfold noRelease in *. simpl. by rewrite forallb_app, Hq, Ht. Qed.

(** Giving up: roll back, then give the connection back. *)
Lemma rollback_releases {A} c0 (e : DbError) body (r : DbError + A) c :
  released c0 = false -> trace c0 = body ->
  (inl e, release (connQuery "ROLLBACK" [] c0).2) = (r, c) ->
  r = inl e /\ released c = true
  /\ exists p, trace c = (body ++ [Query "ROLLBACK" []]) ++ [Release p].
Proof.
  intros Hrel Htr [= <- <-]. split; [done|].
  destruct (connQuery "ROLLBACK" [] c0) as [r0 c1] eqn:Hq.
  destruct (connQuery_trace _ _ _ _ _ Hq) as [Ht1 Hrel1]. simpl. unfold release.
  rewrite Hrel1, Hrel. split; [done|]. eexists. simpl. by rewrite Ht1, Htr.
Qed.

(** A batch is one transaction on one connection that is given back exactly
    once, at the end. It reports results only if every statement ran, in order,
    between BEGIN and a COMMIT that succeeded; otherwise it reports the error,
    no statement after the failing one runs, and the last thing the connection
    is asked for is the rollback. *)
Theorem batch_is_one_transaction stmts r c :
  stmts <> [] -> batch stmts = (r, c) ->
  released c = true
  /\ exists body p, trace c = body ++ [Release p] /\ noRelease body = true
  /\ match r with
     | inr rs => exists qs, body = Query "BEGIN" [] :: qs ++ [Query "COMMIT" []]
         /\ statementsRun stmts qs /\ length rs = length stmts
     | inl _ => exists ran rest qs tail, stmts = ran ++ rest /\ statementsRun ran qs
         /\ body = Query "BEGIN" [] :: qs ++ tail ++ [Query "ROLLBACK" []]
         /\ (tail = [] \/ rest = [] /\ tail = [Query "COMMIT" []])
     end.
Proof.
  intros Hne Hb. destruct stmts as [|s0 stmts0]; [done|]. set (stmts := s0 :: stmts0) in *.
  unfold batch in Hb. change (match stmts with [] => _ | _ => _ end) with
    (match batchBody stmts acquired with
     | (inr rs, c) => (inr rs, release c)
     | (inl e, c) => (inl e, release (connQuery "ROLLBACK" [] c).2) end) in Hb.
  unfold batchBody in Hb.
  destruct (connQuery "BEGIN" [] acquired) as [[e|b] c1] eqn:Hq1;
    destruct (connQuery_trace _ _ _ _ _ Hq1) as [Ht1 Hrel1]; simpl in Ht1.
  { destruct (rollback_releases _ _ _ _ _ Hrel1 Ht1 Hb) as (-> & Hrel & p & Htr). split; [done|].
    exists (Query "BEGIN" [] :: [Query "ROLLBACK" []]), p. do 2 (split; [done|]).
    exists [], stmts, [], []. do 3 (split; [done || constructor|]). by left. }
  destruct (runEach stmts c1) as [[e|rs] c2] eqn:Hrun;
    destruct (runEach_trace _ _ _ _ Hrun) as (Hrel2 & qs & Ht2 & ran & rest & Hst & Hran & Hall);
    rewrite Hrel1 in Hrel2; rewrite Ht1 in Ht2; simpl in Ht2.
  { destruct (rollback_releases _ _ _ _ _ Hrel2 Ht2 Hb) as (-> & Hrel & p & Htr). split; [done|].
    exists (Query "BEGIN" [] :: qs ++ [Query "ROLLBACK" []]), p. split; [done|].
    split; [by apply begun_free; [apply (statementsRun_free _ _ Hran)|]|].
    exists ran, rest, qs, []. do 3 (split; [done|]). by left. }
  destruct (Hall rs eq_refl) as [-> Hlen]. rewrite app_nil_r in Hst. subst ran.
  destruct (connQuery "COMMIT" [] c2) as [[e|k] c3] eqn:Hq3;
    destruct (connQuery_trace _ _ _ _ _ Hq3) as [Ht3 Hrel3]; rewrite Hrel2 in Hrel3;
    rewrite Ht2 in Ht3; simpl in Ht3.
  { destruct (rollback_releases _ _ _ _ _ Hrel3 Ht3 Hb) as (-> & Hrel & p & Htr). split; [done|].
    exists (Query "BEGIN" [] :: qs ++ [Query "COMMIT" []] ++ [Query "ROLLBACK" []]), p.
    split; [rewrite Htr; simpl; by rewrite <- !app_assoc|].
    split; [by apply begun_free; [apply (statementsRun_free _ _ Hran)|]|].
    exists stmts, [], qs, [Query "COMMIT" []]. rewrite app_nil_r. do 3 (split; [done|]). by right. }
  injection Hb as <- <-. unfold release. rewrite Hrel3. split; [done|]. simpl. rewrite Ht3.
  eexists (Query "BEGIN" [] :: qs ++ [Query "COMMIT" []]), _. split; [done|].
  split; [by apply begun_free; [apply (statementsRun_free _ _ Hran)|]|]. by exists qs.
Qed.

(** However a transaction is used, its connection is given back exactly once
    when it finishes, and not before. *)
Lemma tx_releases_once ops t :
  (exists b t0, beginTx = (b, t0) /\ t = txRun ops t0) ->
  released (conn t) = done t
  /\ length (bfilter isRelease (trace (conn t))) = if done t then 1%nat else 0%nat.
Proof.
  set (I := fun t : Tx => released (conn t) = done t
    /\ length (bfilter isRelease (trace (conn t))) = if done t then 1%nat else 0%nat).
  assert (forall c, released c = false -> length (bfilter isRelease (trace c)) = 0%nat ->
    I (finish c)) as Hfin.
  { intros c Hr Hl. unfold I, finish, release. rewrite Hr. simpl. split; [done|].
    rewrite bfilter_app, length_app, Hl. done. }
  assert (forall q ps c r c', connQuery q ps c = (r, c') ->
    released c' = released c /\ bfilter isRelease (trace c') = bfilter isRelease (trace c)) as Hq.
  { intros q ps c r c' H. destruct (connQuery_trace _ _ _ _ _ H) as [-> ->]. split; [done|].
    rewrite bfilter_app. simpl. by rewrite app_nil_r. }
  assert (forall op t, I t -> I (txStep op t).2) as Hstep.
  { intros op t1 [Hr Hl]. destruct op as [stmt| |]; simpl.
    - unfold runOn. destruct (toStatement stmt) as [e|[q ps]]; [by split|].
      destruct (connQuery q ps (conn t1)) as [[e|r] c'] eqn:E;
        destruct (Hq _ _ _ _ _ E) as [Hr' Hl']; split; simpl; congruence.
    - destruct (done t1) eqn:Hd; [unfold I; cbn [snd]; rewrite Hd; exact (conj Hr Hl)|].
      destruct (connQuery "COMMIT" [] (conn t1)) as [[e|r] c'] eqn:E;
        destruct (Hq _ _ _ _ _ E) as [Hr' Hl']; apply Hfin; congruence.
    - destruct (done t1) eqn:Hd; [unfold I; cbn [snd]; rewrite Hd; exact (conj Hr Hl)|].
      destruct (connQuery "ROLLBACK" [] (conn t1)) as [r c'] eqn:E;
        destruct (Hq _ _ _ _ _ E) as [Hr' Hl']; apply Hfin; simpl; congruence. }
  intros (b & t0 & Hb & ->). assert (I t0) as H0.
  { unfold beginTx in Hb. destruct (connQuery "BEGIN" [] acquired) as [[e|r] c] eqn:E;
      destruct (Hq _ _ _ _ _ E) as [Hr' Hl']; injection Hb as <- <-.
    - apply Hfin; by rewrite ?Hr', ?Hl'.
    - split; simpl; by rewrite ?Hr', ?Hl'. }
  revert t0 H0 Hb. induction ops as [|op ops IH]; intros t0 H0 Hb; simpl; [exact H0|].
  clear Hb. assert (forall l t1, I t1 -> I (txRun l t1)) as Hrun.
  { intros l. induction l as [|o l IHl]; intros t1 H1; simpl; [done|]. by apply IHl, Hstep. }
  by apply Hrun, Hstep.
Qed.
End session.

(** A server that fails on the statements that mention a missing table. *)
Definition samplePostgres (_ : list ConnEvent) (q : string) (_ : list InValue)
  : DbError + @QueryResult () :=
  if includes q "missing" then inl (Thrown true (Some "42P01"))
  else inr {| rows := []; rowCount := Some 1 |}.

Theorem batch_is_one_transaction_witness :
  let stmts := [{| sql := "UPDATE t SET a = ?"; args := [VBigint 7] |};
                {| sql := "DELETE FROM missing"; args := [] |}] in
  stmts <> [] /\ (exists r c, batch samplePostgres stmts = (r, c) /\ released c = true).
Proof.
  split; [done|]. eexists _, _. split; [reflexivity|].
  by destruct (batch_is_one_transaction samplePostgres
    [{| sql := "UPDATE t SET a = ?"; args := [VBigint 7] |};
     {| sql := "DELETE FROM missing"; args := [] |}] _ _ ltac:(done) eq_refl) as [Hr _].
Defined.
