(* ===== verification/IndexerEvents.v ===== *)
(** * Contract events and their decoders

    Models indexer/src/decoders/*.ts and the event types of
    indexer/src/types/events.ts, packages/types/src/vault.ts and
    referral.ts. [Native] is the value [scValToNative] returns; the SDK's
    conversion itself is an input of the decoders. Event bodies are
    parametric in the type of their bigint fields: [Z] from the live decoder,
    decimal text once read back from the archive. *)

From S2P Require Import Prelude JsText.
Open Scope Z_scope.
Open Scope js_scope.

(** ** Native values and their coercions (decoders/scval.ts) *)

Inductive Native :=
| NBig (z : Z)
| NNum (z : Z)
| NStr (s : string)
| NBool (b : bool)
| NNull
| NUndef
| NArr (l : list Native)
| NOther.

Definition typeof (v : Native) : string :=
  match v with
  | NBig _ => "bigint" | NNum _ => "number" | NStr _ => "string"
  | NBool _ => "boolean" | NUndef => "undefined"
  | NNull | NArr _ | NOther => "object"
  end.

(** [v[i]]: undefined past the end. *)
Definition at_ (v : list Native) (i : nat) : Native := nth i v NUndef.

Definition decodeEventValue (native : Native) : list Native :=
  match native with NArr l => l | _ => [native] end.

Definition asBigInt (v : Native) (label : string) : Result Z :=
  match v with
  | NBig z | NNum z => Ok z
  | _ => Err ("Expected bigint for " +:+ label +:+ ", got " +:+ typeof v)
  end.

Definition asNumber (v : Native) (label : string) : Result Z :=
  match v with
  | NNum z => Ok z
  | NBig z => Ok (numberOfBigint z)
  | _ => Err ("Expected number for " +:+ label +:+ ", got " +:+ typeof v)
  end.

Definition asBool (v : Native) (label : string) : Result bool :=
  match v with
  | NBool b => Ok b
  | _ => Err (label +:+ ": expected bool, got " +:+ typeof v)
  end.

Definition asString (v : Native) (label : string) : Result string :=
  match v with
  | NStr s => Ok s
  | _ => Err ("Expected string for " +:+ label +:+ ", got " +:+ typeof v)
  end.

(** ** Raw events and envelopes *)

(** [raw_topics] and [raw_value] are the native topics and value, or the
    exception of [scValToNative]. [raw_closedAt] is in milliseconds. *)
Record RawEvent := {
  raw_id : string; raw_contractId : string; raw_ledger : Z;
  raw_closedAt : Z; raw_txHash : string;
  raw_topics : Result (list Native); raw_value : Result Native }.

Record Envelope := {
  ev_id : string; ev_contractId : string; ev_ledger : Z;
  ev_ledgerCloseTs : Z; ev_txHash : string }.

Definition envelope (raw : RawEvent) : Envelope := {|
  ev_id := raw_id raw; ev_contractId := raw_contractId raw; ev_ledger := raw_ledger raw;
  ev_ledgerCloseTs := raw_closedAt raw / 1000; ev_txHash := raw_txHash raw |}.

(** ** Market events *)

Inductive MarketBody (N : Type) : Type :=
| PositionOpened (positionId : Z) (trader : string) (asset : string) (direction : Z) (size : N) (entryPrice : N)
| PositionClosed (positionId : Z) (trader : string) (asset : string) (direction : Z) (size : N) (entryPrice : N) (closePrice : N) (pnl : N)
| PositionLiquidated (positionId : Z) (trader : string) (asset : string) (direction : Z) (size : N) (keeperReward : N) (closePrice : N)
| PositionPartialLiq (positionId : Z) (trader : string) (asset : string) (direction : Z) (size : N) (keeperReward : N) (closePrice : N)
| PositionReduced (positionId : Z) (trader : string) (asset : string) (closedSize : N) (remainingSize : N) (closePrice : N) (pnl : N)
| CrossLiquidated (trader : string) (totalPnl : N) (keeperReward : N)
| OrderPlaced (orderId : Z) (trader : string) (triggerPrice : N)
| OrderExecuted (orderId : Z) (keeperReward : N)
| Initialized (admin : string) (vault : string) (oracleAdapter : string)
| LiqRefund (trader : string) (positionId : Z) (refund : N) (penalty : N)
| BadDebtRecorded (trader : string) (asset : string) (amount : N) (bufferCovered : N) (lpAbsorbed : N)
| AdlExecuted (positionId : Z) (trader : string) (asset : string) (direction : Z) (size : N) (price : N) (pnl : N) (score : N)
| Paused (mode : Z) (since : Z)
| PauseDegraded (fromMode : Z) (toMode : Z)
| OrderCancelled (orderId : Z) (reason : string)
| FundingApplied (fasset : option string) (fundingRate : N) (hoursElapsed : N)
    (cumulativeIndex : option N)
| AdlFlag (cleared : bool) (asset : string) (reason : Z) (payableUpnl : N) (coverage : N)
| AssetHaltSet (asset : string) (halted : bool)
| CollateralChanged (removed : bool) (positionId : Z) (trader : string) (amount : N)
    (liquidationPrice : N).
Arguments PositionOpened {N}.
Arguments PositionClosed {N}.
Arguments PositionLiquidated {N}.
Arguments PositionPartialLiq {N}.
Arguments PositionReduced {N}.
Arguments CrossLiquidated {N}.
Arguments OrderPlaced {N}.
Arguments OrderExecuted {N}.
Arguments Initialized {N}.
Arguments LiqRefund {N}.
Arguments BadDebtRecorded {N}.
Arguments AdlExecuted {N}.
Arguments Paused {N}.
Arguments PauseDegraded {N}.
Arguments OrderCancelled {N}.
Arguments FundingApplied {N}.
Arguments AdlFlag {N}.
Arguments AssetHaltSet {N}.
Arguments CollateralChanged {N}.

Definition marketTopic {N} (b : MarketBody N) : string :=
  match b with
  | PositionOpened _ _ _ _ _ _ => "position_opened"
  | PositionClosed _ _ _ _ _ _ _ _ => "position_closed"
  | PositionLiquidated _ _ _ _ _ _ _ => "position_liquidated"
  | PositionPartialLiq _ _ _ _ _ _ _ => "position_partial_liq"
  | PositionReduced _ _ _ _ _ _ _ => "position_reduced"
  | CrossLiquidated _ _ _ => "cross_liq"
  | OrderPlaced _ _ _ => "order_placed"
  | OrderExecuted _ _ => "order_executed"
  | Initialized _ _ _ => "initialized"
  | LiqRefund _ _ _ _ => "liq_refund"
  | BadDebtRecorded _ _ _ _ _ => "bad_debt_recorded"
  | AdlExecuted _ _ _ _ _ _ _ _ => "adl_executed"
  | Paused _ _ => "paused"
  | PauseDegraded _ _ => "pause_degraded"
  | OrderCancelled _ _ => "order_cancelled"
  | FundingApplied _ _ _ _ => "funding_applied"
  | AdlFlag cleared _ _ _ _ => if cleared then "adl_cleared" else "adl_triggered"
  | AssetHaltSet _ _ => "asset_halt_set"
  | CollateralChanged removed _ _ _ _ =>
      if removed then "collateral_removed" else "collateral_added"
  end.

(** Replace the bigint fields. *)
Definition mapMarket {N M} (f : N -> M) (b : MarketBody N) : MarketBody M :=
  match b with
  | PositionOpened positionId trader asset direction size entryPrice =>
      PositionOpened positionId trader asset direction (f size) (f entryPrice)
  | PositionClosed positionId trader asset direction size entryPrice closePrice pnl =>
      PositionClosed positionId trader asset direction (f size) (f entryPrice) (f closePrice) (f pnl)
  | PositionLiquidated positionId trader asset direction size keeperReward closePrice =>
      PositionLiquidated positionId trader asset direction (f size) (f keeperReward) (f closePrice)
  | PositionPartialLiq positionId trader asset direction size keeperReward closePrice =>
      PositionPartialLiq positionId trader asset direction (f size) (f keeperReward) (f closePrice)
  | PositionReduced positionId trader asset closedSize remainingSize closePrice pnl =>
      PositionReduced positionId trader asset (f closedSize) (f remainingSize) (f closePrice) (f pnl)
  | CrossLiquidated trader totalPnl keeperReward =>
      CrossLiquidated trader (f totalPnl) (f keeperReward)
  | OrderPlaced orderId trader triggerPrice =>
      OrderPlaced orderId trader (f triggerPrice)
  | OrderExecuted orderId keeperReward =>
      OrderExecuted orderId (f keeperReward)
  | Initialized admin vault oracleAdapter =>
      Initialized admin vault oracleAdapter
  | LiqRefund trader positionId refund penalty =>
      LiqRefund trader positionId (f refund) (f penalty)
  | BadDebtRecorded trader asset amount bufferCovered lpAbsorbed =>
      BadDebtRecorded trader asset (f amount) (f bufferCovered) (f lpAbsorbed)
  | AdlExecuted positionId trader asset direction size price pnl score =>
      AdlExecuted positionId trader asset direction (f size) (f price) (f pnl) (f score)
  | Paused mode since =>
      Paused mode since
  | PauseDegraded fromMode toMode =>
      PauseDegraded fromMode toMode
  | OrderCancelled orderId reason => OrderCancelled orderId reason
  | FundingApplied fasset rate hours cum => FundingApplied fasset (f rate) (f hours) (f <$> cum)
  | AdlFlag cleared asset reason payable coverage =>
      AdlFlag cleared asset reason (f payable) (f coverage)
  | AssetHaltSet asset halted => AssetHaltSet asset halted
  | CollateralChanged removed positionId trader amount liq =>
      CollateralChanged removed positionId trader (f amount) (f liq)
  end.

Definition decodePositionOpened (v : list Native) : Result (MarketBody Z) :=
  positionId ← asNumber (at_ v 0) "position_opened.position_id";
  trader ← asString (at_ v 1) "position_opened.trader";
  asset ← asString (at_ v 2) "position_opened.asset";
  direction ← asNumber (at_ v 3) "position_opened.direction";
  size ← asBigInt (at_ v 4) "position_opened.size";
  entryPrice ← asBigInt (at_ v 5) "position_opened.entry_price";
  Ok (PositionOpened positionId trader asset direction size entryPrice).

Definition decodePositionClosed (v : list Native) : Result (MarketBody Z) :=
  positionId ← asNumber (at_ v 0) "position_closed.position_id";
  trader ← asString (at_ v 1) "position_closed.trader";
  asset ← asString (at_ v 2) "position_closed.asset";
  direction ← asNumber (at_ v 3) "position_closed.direction";
  size ← asBigInt (at_ v 4) "position_closed.size";
  entryPrice ← asBigInt (at_ v 5) "position_closed.entry_price";
  closePrice ← asBigInt (at_ v 6) "position_closed.close_price";
  pnl ← asBigInt (at_ v 7) "position_closed.pnl";
  Ok (PositionClosed positionId trader asset direction size entryPrice closePrice pnl).

Definition decodePositionLiquidated (v : list Native) : Result (MarketBody Z) :=
  positionId ← asNumber (at_ v 0) "position_liquidated.position_id";
  trader ← asString (at_ v 1) "position_liquidated.trader";
  asset ← asString (at_ v 2) "position_liquidated.asset";
  direction ← asNumber (at_ v 3) "position_liquidated.direction";
  size ← asBigInt (at_ v 4) "position_liquidated.size";
  keeperReward ← asBigInt (at_ v 5) "position_liquidated.keeper_reward";
  closePrice ← asBigInt (at_ v 6) "position_liquidated.close_price";
  Ok (PositionLiquidated positionId trader asset direction size keeperReward closePrice).

Definition decodePositionPartialLiq (v : list Native) : Result (MarketBody Z) :=
  positionId ← asNumber (at_ v 0) "position_partial_liq.position_id";
  trader ← asString (at_ v 1) "position_partial_liq.trader";
  asset ← asString (at_ v 2) "position_partial_liq.asset";
  direction ← asNumber (at_ v 3) "position_partial_liq.direction";
  size ← asBigInt (at_ v 4) "position_partial_liq.closed_size";
  keeperReward ← asBigInt (at_ v 5) "position_partial_liq.keeper_reward";
  closePrice ← asBigInt (at_ v 6) "position_partial_liq.close_price";
  Ok (PositionPartialLiq positionId trader asset direction size keeperReward closePrice).

Definition decodePositionReduced (v : list Native) : Result (MarketBody Z) :=
  positionId ← asNumber (at_ v 0) "position_reduced.position_id";
  trader ← asString (at_ v 1) "position_reduced.trader";
  asset ← asString (at_ v 2) "position_reduced.asset";
  closedSize ← asBigInt (at_ v 3) "position_reduced.closed_size";
  remainingSize ← asBigInt (at_ v 4) "position_reduced.remaining_size";
  closePrice ← asBigInt (at_ v 5) "position_reduced.close_price";
  pnl ← asBigInt (at_ v 6) "position_reduced.pnl";
  Ok (PositionReduced positionId trader asset closedSize remainingSize closePrice pnl).

Definition decodeCrossLiquidated (v : list Native) : Result (MarketBody Z) :=
  trader ← asString (at_ v 0) "cross_liq.trader";
  totalPnl ← asBigInt (at_ v 1) "cross_liq.total_pnl";
  keeperReward ← asBigInt (at_ v 2) "cross_liq.keeper_reward";
  Ok (CrossLiquidated trader totalPnl keeperReward).

Definition decodeOrderPlaced (v : list Native) : Result (MarketBody Z) :=
  orderId ← asNumber (at_ v 0) "order_placed.order_id";
  trader ← asString (at_ v 1) "order_placed.trader";
  triggerPrice ← asBigInt (at_ v 2) "order_placed.trigger_price";
  Ok (OrderPlaced orderId trader triggerPrice).

Definition decodeOrderExecuted (v : list Native) : Result (MarketBody Z) :=
  orderId ← asNumber (at_ v 0) "order_executed.order_id";
  keeperReward ← asBigInt (at_ v 1) "order_executed.keeper_reward";
  Ok (OrderExecuted orderId keeperReward).

Definition decodeInitialized (v : list Native) : Result (MarketBody Z) :=
  admin ← asString (at_ v 0) "initialized.admin";
  vault ← asString (at_ v 1) "initialized.vault";
  oracleAdapter ← asString (at_ v 2) "initialized.oracle_adapter";
  Ok (Initialized admin vault oracleAdapter).

Definition decodeLiqRefund (v : list Native) : Result (MarketBody Z) :=
  trader ← asString (at_ v 0) "liq_refund.trader";
  positionId ← asNumber (at_ v 1) "liq_refund.position_id";
  refund ← asBigInt (at_ v 2) "liq_refund.refund";
  penalty ← asBigInt (at_ v 3) "liq_refund.penalty";
  Ok (LiqRefund trader positionId refund penalty).

Definition decodeBadDebtRecorded (v : list Native) : Result (MarketBody Z) :=
  trader ← asString (at_ v 0) "bad_debt_recorded.trader";
  asset ← asString (at_ v 1) "bad_debt_recorded.asset";
  amount ← asBigInt (at_ v 2) "bad_debt_recorded.amount";
  bufferCovered ← asBigInt (at_ v 3) "bad_debt_recorded.buffer_covered";
  lpAbsorbed ← asBigInt (at_ v 4) "bad_debt_recorded.lp_absorbed";
  Ok (BadDebtRecorded trader asset amount bufferCovered lpAbsorbed).

Definition decodeAdlExecuted (v : list Native) : Result (MarketBody Z) :=
  positionId ← asNumber (at_ v 0) "adl_executed.position_id";
  trader ← asString (at_ v 1) "adl_executed.trader";
  asset ← asString (at_ v 2) "adl_executed.asset";
  direction ← asNumber (at_ v 3) "adl_executed.direction";
  size ← asBigInt (at_ v 4) "adl_executed.size";
  price ← asBigInt (at_ v 5) "adl_executed.price";
  pnl ← asBigInt (at_ v 6) "adl_executed.pnl";
  score ← asBigInt (at_ v 7) "adl_executed.score";
  Ok (AdlExecuted positionId trader asset direction size price pnl score).

Definition decodePaused (v : list Native) : Result (MarketBody Z) :=
  mode ← asNumber (at_ v 0) "paused.mode";
  since ← asNumber (at_ v 1) "paused.since";
  Ok (Paused mode since).

Definition decodePauseDegraded (v : list Native) : Result (MarketBody Z) :=
  fromMode ← asNumber (at_ v 0) "pause_degraded.from";
  toMode ← asNumber (at_ v 1) "pause_degraded.to";
  Ok (PauseDegraded fromMode toMode).

Definition decodeOrderCancelled (v : list Native) : Result (MarketBody Z) :=
  let reason := match at_ v 1 with NStr s => s | _ => "unknown" end in
  orderId ← asNumber (at_ v 0) "order_cancelled.order_id";
  Ok (OrderCancelled orderId reason).

(** The current 4-tuple, or the legacy 2-tuple, told apart by arity. *)
Definition decodeFundingApplied (v : list Native) : Result (MarketBody Z) :=
  if (4 <=? length v)%nat then
    asset ← asString (at_ v 0) "funding_applied.asset";
    rate ← asBigInt (at_ v 1) "funding_applied.funding_rate";
    hours ← asBigInt (at_ v 2) "funding_applied.hours_elapsed";
    cum ← asBigInt (at_ v 3) "funding_applied.cumulative_index";
    Ok (FundingApplied (Some asset) rate hours (Some cum))
  else
    rate ← asBigInt (at_ v 0) "funding_applied.funding_rate";
    hours ← asBigInt (at_ v 1) "funding_applied.hours_elapsed";
    Ok (FundingApplied None rate hours None).

Definition decodeAdlFlag (v : list Native) (cleared : bool) : Result (MarketBody Z) :=
  let topic := if cleared then "adl_cleared" else "adl_triggered" in
  asset ← asString (at_ v 0) (topic +:+ ".asset");
  reason ← asNumber (at_ v 1) (topic +:+ ".reason");
  payable ← asBigInt (at_ v 2) (topic +:+ ".payable_upnl");
  coverage ← asBigInt (at_ v 3) (topic +:+ ".coverage");
  Ok (AdlFlag cleared asset reason payable coverage).

Definition decodeAssetHaltSet (topics v : list Native) : Result (MarketBody Z) :=
  asset ← asString (at_ topics 1) "asset_halt_set topic[1] (asset)";
  halted ← asBool (at_ v 0) "asset_halt_set.halted";
  Ok (AssetHaltSet asset halted).

Definition decodeCollateralChanged (v : list Native) (removed : bool)
  : Result (MarketBody Z) :=
  let topic := if removed then "collateral_removed" else "collateral_added" in
  positionId ← asNumber (at_ v 0) (topic +:+ ".position_id");
  trader ← asString (at_ v 1) (topic +:+ ".trader");
  amount ← asBigInt (at_ v 2) (topic +:+ ".amount");
  liq ← asBigInt (at_ v 3) (topic +:+ ".liquidation_price");
  Ok (CollateralChanged removed positionId trader amount liq).

(** The topic switch of [decodeMarketEvent]; [None] is an unknown topic. *)
Definition decodeMarketBody (topics v : list Native) (topic : string)
  : option (Result (MarketBody Z)) :=
  if String.eqb topic "position_opened" then Some (decodePositionOpened v)
  else if String.eqb topic "position_closed" then Some (decodePositionClosed v)
  else if String.eqb topic "position_liquidated" then Some (decodePositionLiquidated v)
  else if String.eqb topic "position_partial_liq" then Some (decodePositionPartialLiq v)
  else if String.eqb topic "position_reduced" then Some (decodePositionReduced v)
  else if String.eqb topic "cross_liq" then Some (decodeCrossLiquidated v)
  else if String.eqb topic "order_placed" then Some (decodeOrderPlaced v)
  else if String.eqb topic "order_executed" then Some (decodeOrderExecuted v)
  else if String.eqb topic "initialized" then Some (decodeInitialized v)
  else if String.eqb topic "liq_refund" then Some (decodeLiqRefund v)
  else if String.eqb topic "bad_debt_recorded" then Some (decodeBadDebtRecorded v)
  else if String.eqb topic "adl_executed" then Some (decodeAdlExecuted v)
  else if String.eqb topic "paused" then Some (decodePaused v)
  else if String.eqb topic "pause_degraded" then Some (decodePauseDegraded v)
  else if String.eqb topic "order_cancelled" then Some (decodeOrderCancelled v)
  else if String.eqb topic "funding_applied" then Some (decodeFundingApplied v)
  else if String.eqb topic "adl_triggered" then Some (decodeAdlFlag v false)
  else if String.eqb topic "adl_cleared" then Some (decodeAdlFlag v true)
  else if String.eqb topic "asset_halt_set" then Some (decodeAssetHaltSet topics v)
  else if String.eqb topic "collateral_added" then Some (decodeCollateralChanged v false)
  else if String.eqb topic "collateral_removed" then Some (decodeCollateralChanged v true)
  else None.

(** ** Vault factory events *)

Inductive PauseTopic := paused | unpaused | admin_paused | admin_unpaused.
Inductive LeaderOrderTopic := leader_limit | leader_cancel | leader_stop_limit.
Inductive ProtectiveTopic := leader_sl | leader_tp | leader_trail.

Definition pauseTopicName (t : PauseTopic) : string :=
  match t with
  | paused => "paused" | unpaused => "unpaused"
  | admin_paused => "admin_paused" | admin_unpaused => "admin_unpaused"
  end.
Definition leaderOrderTopicName (t : LeaderOrderTopic) : string :=
  match t with
  | leader_limit => "leader_limit" | leader_cancel => "leader_cancel"
  | leader_stop_limit => "leader_stop_limit"
  end.
Definition protectiveTopicName (t : ProtectiveTopic) : string :=
  match t with
  | leader_sl => "leader_sl" | leader_tp => "leader_tp" | leader_trail => "leader_trail"
  end.

Inductive VaultBody (N : Type) : Type :=
| VaultCreated (leader : string) (name : string)
| VaultDeposit (depositor : string) (amount : N) (shares : N)
| VaultWithdraw (depositor : string) (shares : N) (usdcOut : N)
| FeesClaimed (leader : string) (owed : N) (newNav : N)
| LeaderOpen (leader : string) (positionId : N) (collateral : N)
| LeaderClose (leader : string) (positionId : N)
| OrderReconciled (orderId : N) (positionId : N) (credited : N)
| PositionReconciled (positionId : N) (proceeds : N)
| VaultPaused (t : PauseTopic)
| LeaderOrder (t : LeaderOrderTopic) (leader : string) (orderId : N)
| LeaderProtective (t : ProtectiveTopic) (leader : string) (orderId positionId : N).
Arguments VaultCreated {N}.
Arguments VaultDeposit {N}.
Arguments VaultWithdraw {N}.
Arguments FeesClaimed {N}.
Arguments LeaderOpen {N}.
Arguments LeaderClose {N}.
Arguments OrderReconciled {N}.
Arguments PositionReconciled {N}.
Arguments VaultPaused {N}.
Arguments LeaderOrder {N}.
Arguments LeaderProtective {N}.

Definition vaultTopic {N} (b : VaultBody N) : string :=
  match b with
  | VaultCreated _ _ => "vault_created"
  | VaultDeposit _ _ _ => "deposit"
  | VaultWithdraw _ _ _ => "withdraw"
  | FeesClaimed _ _ _ => "fees_claimed"
  | LeaderOpen _ _ _ => "leader_open"
  | LeaderClose _ _ => "leader_close"
  | OrderReconciled _ _ _ => "order_reconciled"
  | PositionReconciled _ _ => "position_reconciled"
  | VaultPaused t => pauseTopicName t
  | LeaderOrder t _ _ => leaderOrderTopicName t
  | LeaderProtective t _ _ _ => protectiveTopicName t
  end.

Definition mapVault {N M} (f : N -> M) (b : VaultBody N) : VaultBody M :=
  match b with
  | VaultCreated leader name => VaultCreated leader name
  | VaultDeposit depositor amount shares => VaultDeposit depositor (f amount) (f shares)
  | VaultWithdraw depositor shares usdcOut => VaultWithdraw depositor (f shares) (f usdcOut)
  | FeesClaimed leader owed newNav => FeesClaimed leader (f owed) (f newNav)
  | LeaderOpen leader positionId collateral => LeaderOpen leader (f positionId) (f collateral)
  | LeaderClose leader positionId => LeaderClose leader (f positionId)
  | OrderReconciled orderId positionId credited => OrderReconciled (f orderId) (f positionId) (f credited)
  | PositionReconciled positionId proceeds => PositionReconciled (f positionId) (f proceeds)
  | VaultPaused t => VaultPaused t
  | LeaderOrder t leader orderId => LeaderOrder t leader (f orderId)
  | LeaderProtective t leader orderId positionId =>
      LeaderProtective t leader (f orderId) (f positionId)
  end.

Definition decodeLeaderOrder (t : LeaderOrderTopic) (v : list Native) : Result (VaultBody Z) :=
  leader ← asString (at_ v 0) ("vault." +:+ leaderOrderTopicName t +:+ ".leader");
  orderId ← asBigInt (at_ v 1) ("vault." +:+ leaderOrderTopicName t +:+ ".order_id");
  Ok (LeaderOrder t leader orderId).

Definition decodeProtective (t : ProtectiveTopic) (v : list Native) : Result (VaultBody Z) :=
  leader ← asString (at_ v 0) ("vault." +:+ protectiveTopicName t +:+ ".leader");
  orderId ← asBigInt (at_ v 1) ("vault." +:+ protectiveTopicName t +:+ ".order_id");
  positionId ← asBigInt (at_ v 2) ("vault." +:+ protectiveTopicName t +:+ ".position_id");
  Ok (LeaderProtective t leader orderId positionId).

(** The topic switch of [decodeVaultEvent]; [None] is an unknown topic. *)
Definition decodeVaultBody (v : list Native) (topic : string) : option (Result (VaultBody Z)) :=
  if String.eqb topic "vault_created" then Some (
    leader ← asString (at_ v 0) "vault_created.leader";
    name ← asString (at_ v 1) "vault_created.name";
    Ok (VaultCreated leader name))
  else if String.eqb topic "deposit" then Some (
    depositor ← asString (at_ v 0) "vault.deposit.depositor";
    amount ← asBigInt (at_ v 1) "vault.deposit.amount";
    shares ← asBigInt (at_ v 2) "vault.deposit.shares";
    Ok (VaultDeposit depositor amount shares))
  else if String.eqb topic "withdraw" then Some (
    depositor ← asString (at_ v 0) "vault.withdraw.depositor";
    shares ← asBigInt (at_ v 1) "vault.withdraw.shares";
    usdcOut ← asBigInt (at_ v 2) "vault.withdraw.usdc_out";
    Ok (VaultWithdraw depositor shares usdcOut))
  else if String.eqb topic "fees_claimed" then Some (
    leader ← asString (at_ v 0) "vault.fees_claimed.leader";
    owed ← asBigInt (at_ v 1) "vault.fees_claimed.owed";
    newNav ← asBigInt (at_ v 2) "vault.fees_claimed.new_nav";
    Ok (FeesClaimed leader owed newNav))
  else if String.eqb topic "leader_open" then Some (
    leader ← asString (at_ v 0) "vault.leader_open.leader";
    positionId ← asBigInt (at_ v 1) "vault.leader_open.position_id";
    collateral ← asBigInt (at_ v 2) "vault.leader_open.collateral";
    Ok (LeaderOpen leader positionId collateral))
  else if String.eqb topic "leader_close" then Some (
    leader ← asString (at_ v 0) "vault.leader_close.leader";
    positionId ← asBigInt (at_ v 1) "vault.leader_close.position_id";
    Ok (LeaderClose leader positionId))
  else if String.eqb topic "order_reconciled" then Some (
    orderId ← asBigInt (at_ v 0) "vault.order_reconciled.order_id";
    positionId ← asBigInt (at_ v 1) "vault.order_reconciled.position_id";
    credited ← asBigInt (at_ v 2) "vault.order_reconciled.credited";
    Ok (OrderReconciled orderId positionId credited))
  else if String.eqb topic "position_reconciled" then Some (
    positionId ← asBigInt (at_ v 0) "vault.position_reconciled.position_id";
    proceeds ← asBigInt (at_ v 1) "vault.position_reconciled.proceeds";
    Ok (PositionReconciled positionId proceeds))
  else if String.eqb topic "paused" then Some (Ok (VaultPaused paused))
  else if String.eqb topic "unpaused" then Some (Ok (VaultPaused unpaused))
  else if String.eqb topic "admin_paused" then Some (Ok (VaultPaused admin_paused))
  else if String.eqb topic "admin_unpaused" then Some (Ok (VaultPaused admin_unpaused))
  else if String.eqb topic "leader_limit" then Some (decodeLeaderOrder leader_limit v)
  else if String.eqb topic "leader_cancel" then Some (decodeLeaderOrder leader_cancel v)
  else if String.eqb topic "leader_stop_limit" then Some (decodeLeaderOrder leader_stop_limit v)
  else if String.eqb topic "leader_sl" then Some (decodeProtective leader_sl v)
  else if String.eqb topic "leader_tp" then Some (decodeProtective leader_tp v)
  else if String.eqb topic "leader_trail" then Some (decodeProtective leader_trail v)
  else None.

(** ** Referral events *)

Inductive ReferralBody (N : Type) : Type :=
| CodeCreated (referrer code : string)
| ReferrerSet (referee referrer code : string)
| TradeRecorded (referee referrer : string) (originalFee discount payout : N)
    (volume : option N)
| Claimed (referrer : string) (amount : N).
Arguments CodeCreated {N}. Arguments ReferrerSet {N}.
Arguments TradeRecorded {N}. Arguments Claimed {N}.

Definition referralTopic {N} (b : ReferralBody N) : string :=
  match b with
  | CodeCreated _ _ => "code_created"
  | ReferrerSet _ _ _ => "referrer_set"
  | TradeRecorded _ _ _ _ _ _ => "trade_recorded"
  | Claimed _ _ => "claimed"
  end.

Definition mapReferral {N M} (f : N -> M) (b : ReferralBody N) : ReferralBody M :=
  match b with
  | CodeCreated referrer code => CodeCreated referrer code
  | ReferrerSet referee referrer code => ReferrerSet referee referrer code
  | TradeRecorded referee referrer fee discount payout volume =>
      TradeRecorded referee referrer (f fee) (f discount) (f payout) (f <$> volume)
  | Claimed referrer amount => Claimed referrer (f amount)
  end.

Definition decodeTradeRecorded (v : list Native) : Result (ReferralBody Z) :=
  referee ← asString (at_ v 0) "trade_recorded.referee";
  referrer ← asString (at_ v 1) "trade_recorded.referrer";
  fee ← asBigInt (at_ v 2) "trade_recorded.original_fee";
  discount ← asBigInt (at_ v 3) "trade_recorded.discount";
  payout ← asBigInt (at_ v 4) "trade_recorded.payout";
  volume ← (if (5 <? length v)%nat
            then (z ← asBigInt (at_ v 5) "trade_recorded.volume"; Ok (Some z))
            else Ok None);
  Ok (TradeRecorded referee referrer fee discount payout volume).

Definition decodeReferralBody (v : list Native) (topic : string)
  : option (Result (ReferralBody Z)) :=
  if String.eqb topic "code_created" then Some (
    referrer ← asString (at_ v 0) "code_created.referrer";
    code ← asString (at_ v 1) "code_created.code";
    Ok (CodeCreated referrer code))
  else if String.eqb topic "referrer_set" then Some (
    referee ← asString (at_ v 0) "referrer_set.referee";
    referrer ← asString (at_ v 1) "referrer_set.referrer";
    code ← asString (at_ v 2) "referrer_set.code";
    Ok (ReferrerSet referee referrer code))
  else if String.eqb topic "trade_recorded" then Some (decodeTradeRecorded v)
  else if String.eqb topic "claimed" then Some (
    referrer ← asString (at_ v 0) "claimed.referrer";
    amount ← asBigInt (at_ v 1) "claimed.amount";
    Ok (Claimed referrer amount))
  else None.

(** ** LP vault events

    Decoding is positional: values are bound to the known field names, and
    non-null values beyond them are kept as extra fields. The payload is the
    ordered list of the object's properties, undefined ones left out. *)

Definition LP_VAULT_TOPIC_FIELDS : list (string * list string) :=
  [ ("initialized", ["admin"; "market"; "usdcToken"; "noeToken"]);
    ("deposit", ["depositor"; "usdcAmount"; "noeMinted"; "fee"]);
    ("withdraw", ["withdrawer"; "noeBurned"; "usdcOut"; "fee"]);
    ("payout_shortfall", ["trader"; "pnl"; "paid"; "shortfall"]);
    ("pnl_settled", ["pnl"]);
    ("loss_received", ["amount"]);
    ("bounty_paid", ["keeper"; "amount"; "paid"]);
    ("protocol_fee_routed", ["amount"; "toBuffer"; "overflow"]);
    ("exposure_synced", ["assetUnrealizedPnl"; "totalUnrealizedPnl"; "release"]);
    ("market_updated", ["oldMarket"; "newMarket"]);
    ("deposit_fee_updated", ["feeBps"]);
    ("withdraw_fee_updated", ["feeBps"]);
    ("deposit_cap_set", ["cap"]);
    ("withdraw_cooldown_set", ["seconds"]);
    ("buffer_target_set", ["bps"]);
    ("buffer_seeded", ["amount"; "toReserve"]);
    ("buffer_funded", ["amount"; "toReserve"]);
    ("shortfall_repaid", ["trader"; "paid"; "remaining"]);
    ("buffer_drawn", ["amount"; "covered"]);
    ("buffer_paid", ["to"; "amount"; "paid"]);
    ("asset_cap_abs_set", ["asset"; "maxNotional"]);
    ("skew_cap_set", ["asset"; "bps"]);
    ("paused", []);
    ("unpaused", []);
    ("admin_updated", ["oldAdmin"; "newAdmin"]);
    ("recovery_init", ["recipient"]);
    ("recovery_proposed", ["amount"; "executeAfter"]);
    ("recovery_executed", ["paid"; "recipient"]);
    ("recovery_cancelled", []) ].

(** Topics are symbols the contract emits: none is the name of a member of
    JavaScript's [Object.prototype], which the record lookup would find. *)
Definition lpVaultFields (topic : string) : option (list string) :=
  match list_find (fun e => e.1 = topic) LP_VAULT_TOPIC_FIELDS with
  | Some (_, (_, names)) => Some names
  | None => None
  end.

Record LpVaultBody := {
  lp_topic : string; lp_asset : option string; lp_fields : list (string * Native) }.

Definition isNullish (v : Native) : bool :=
  match v with NNull | NUndef => true | _ => false end.

(** The [names.forEach] and the loop over the extra values. *)
Definition bindNames (names : list string) (values : list Native) : list (string * Native) :=
  imap (fun i name => (name, at_ values i)) names.
Definition bindExtras (n : nat) (values : list Native) : list (string * Native) :=
  bfilter (fun e => negb (isNullish e.2))
    (imap (fun i v => ("extra" +:+ pretty i, v)) (drop n values)).

Definition decodeLpVaultBody (names : list string) (topics values : list Native)
    (topic : string) : LpVaultBody := {|
  lp_topic := topic;
  lp_asset := if String.eqb topic "exposure_synced"
              then match at_ topics 1 with NStr s => Some s | _ => None end
              else None;
  lp_fields := bindNames names values ++ bindExtras (length names) values |}.

(** [JSON.parse(JSON.stringify(v))] with the bigint replacer. *)
Fixpoint jsonNative (v : Native) : Native :=
  match v with
  | NBig z => NStr (decimalOfZ z)
  | NArr l => NArr (map jsonNative l)
  | _ => v
  end.

Definition jsonLpVault (b : LpVaultBody) : LpVaultBody := {|
  lp_topic := lp_topic b; lp_asset := lp_asset b;
  lp_fields := bfilter (fun e => match e.2 with NUndef => false | _ => true end)
                 ((fun e => (e.1, jsonNative e.2)) <$> lp_fields b) |}.

(** ** Any decoded event *)

Inductive EventBody (N : Type) : Type :=
| MarketEvent (b : MarketBody N)
| VaultEvent (vaultId : Z) (b : VaultBody N)
| ReferralEvent (b : ReferralBody N)
| LpVaultEvent (b : LpVaultBody).
Arguments MarketEvent {N}. Arguments VaultEvent {N}.
Arguments ReferralEvent {N}. Arguments LpVaultEvent {N}.

Record Event (N : Type) := { env : Envelope; body : EventBody N }.
Arguments env {N}. Arguments body {N}. Arguments Build_Event {N}.

Definition topicOf {N} (e : Event N) : string :=
  match body e with
  | MarketEvent b => marketTopic b
  | VaultEvent _ b => vaultTopic b
  | ReferralEvent b => referralTopic b
  | LpVaultEvent b => lp_topic b
  end.

(** A decoder's outcome: skipped (unknown topic), thrown, or an event. The
    topic is read first; each decoder then reads the value when its own
    guards let it. *)
Definition decodeWith (f : list Native -> string -> Result Native -> Result (option (EventBody Z)))
    (raw : RawEvent) : Result (option (Event Z)) :=
  topics ← raw_topics raw;
  match at_ topics 0 with
  | NStr topic =>
      b ← f topics topic (raw_value raw);
      Ok ((fun b => {| env := envelope raw; body := b |}) <$> b)
  | _ => Ok None
  end.

(** The result of a topic switch: [default: return null]. *)
Definition switchResult {B} (mk : B -> EventBody Z) (r : option (Result B))
  : Result (option (EventBody Z)) :=
  match r with
  | None => Ok None
  | Some r => b ← r; Ok (Some (mk b))
  end.

Definition decodeMarketEvent : RawEvent -> Result (option (Event Z)) :=
  decodeWith (fun topics topic value =>
    value ← value;
    switchResult MarketEvent (decodeMarketBody topics (decodeEventValue value) topic)).

Definition VAULT_TOPICS : list string :=
  [ "vault_created"; "deposit"; "withdraw"; "fees_claimed"; "paused"; "unpaused";
    "admin_paused"; "admin_unpaused"; "leader_open"; "leader_close"; "leader_limit";
    "leader_cancel"; "leader_stop_limit"; "leader_sl"; "leader_tp"; "leader_trail";
    "order_reconciled"; "position_reconciled" ].

Definition decodeVaultEvent : RawEvent -> Result (option (Event Z)) :=
  decodeWith (fun topics topic value =>
    if bool_decide (topic ∈ VAULT_TOPICS) then
      vaultId ← asNumber (at_ topics 1) "vault topic[1] (vault_id)";
      value ← value;
      switchResult (VaultEvent vaultId) (decodeVaultBody (decodeEventValue value) topic)
    else Ok None).

Definition REFERRAL_TOPICS : list string :=
  [ "code_created"; "referrer_set"; "trade_recorded"; "claimed" ].

Definition decodeReferralEvent : RawEvent -> Result (option (Event Z)) :=
  decodeWith (fun topics topic value =>
    if bool_decide (topic ∈ REFERRAL_TOPICS) then
      value ← value;
      switchResult ReferralEvent (decodeReferralBody (decodeEventValue value) topic)
    else Ok None).

Definition decodeLpVaultEvent : RawEvent -> Result (option (Event Z)) :=
  decodeWith (fun topics topic value =>
    match lpVaultFields topic with
    | None => Ok None
    | Some names =>
        value ← value;
        Ok (Some (LpVaultEvent
          (decodeLpVaultBody names topics (decodeEventValue value) topic)))
    end).


(** ** Theorems *)

(** Split every topic comparison and every sequence of field reads. *)
Ltac topic_cases :=
  repeat match goal with
  | H : context [if String.eqb ?x ?y then _ else _] |- _ =>
      destruct (String.eqb_spec x y); [subst |]
  | H : context [if (?n <=? ?m)%nat then _ else _] |- _ => destruct (n <=? m)%nat
  end.

Lemma Some_inv {A} (x y : A) : Some x = Some y -> x = y.
Proof. congruence. Qed.

Lemma Ok_inv {A} (x y : A) : Ok x = Ok y -> x = y.
Proof. unfold Ok. congruence. Qed.

Lemma decodeMarketBody_topic topics v topic b :
  decodeMarketBody topics v topic = Some (Ok b) -> marketTopic b = topic.
Proof.
  unfold decodeMarketBody, decodeFundingApplied. intros H.
  topic_cases; try discriminate H; apply Some_inv in H;
    repeat match goal with
    | H : ?d = Ok _ |- _ => progress unfold d in H
    | H : ?d _ = Ok _ |- _ => progress unfold d in H
    | H : ?d _ _ = Ok _ |- _ => progress unfold d in H
    end; inv_binds; by apply Ok_inv in H as <-.
Qed.

Lemma decodeVaultBody_topic v topic b :
  decodeVaultBody v topic = Some (Ok b) -> vaultTopic b = topic.
Proof.
  unfold decodeVaultBody. intros H.
  topic_cases; try discriminate H; apply Some_inv in H;
    unfold decodeLeaderOrder, decodeProtective in H; inv_binds; by apply Ok_inv in H as <-.
Qed.

Lemma decodeReferralBody_topic v topic b :
  decodeReferralBody v topic = Some (Ok b) -> referralTopic b = topic.
Proof.
  unfold decodeReferralBody, decodeTradeRecorded. intros H.
  topic_cases; try discriminate H; apply Some_inv in H; inv_binds; by apply Ok_inv in H as <-.
Qed.

Lemma switchResult_Ok {B} (mk : B -> EventBody Z) r b :
  switchResult mk r = Ok (Some b) -> exists x, r = Some (Ok x) /\ b = mk x.
Proof.
  destruct r as [[e|x]|]; simpl; intros H; try done. injection H as <-. by exists x.
Qed.

Lemma decodeWith_inv f raw e :
  decodeWith f raw = Ok (Some e) ->
  exists topics topic, raw_topics raw = Ok topics /\ at_ topics 0 = NStr topic
    /\ env e = envelope raw /\ f topics topic (raw_value raw) = Ok (Some (body e)).
Proof.
  unfold decodeWith. intros H. inv_binds. destruct (at_ a 0) eqn:Ht; try discriminate H.
  inv_binds. apply Ok_inv in H. destruct a0 as [b|]; simplify_eq/=. eauto 8.
Qed.

Lemma decodeMarketEvent_inv raw e :
  decodeMarketEvent raw = Ok (Some e) ->
  env e = envelope raw /\ (exists b, body e = MarketEvent b)
  /\ exists topics, raw_topics raw = Ok topics /\ at_ topics 0 = NStr (topicOf e).
Proof.
  intros (ts & topic & Hr & Ht & He & H)%decodeWith_inv. inv_binds.
  apply switchResult_Ok in H as (b & Hb & Hbody). unfold topicOf. rewrite Hbody.
  apply decodeMarketBody_topic in Hb as ->. eauto 10.
Qed.

Lemma decodeVaultEvent_inv raw e :
  decodeVaultEvent raw = Ok (Some e) ->
  env e = envelope raw /\ (exists i b, body e = VaultEvent i b) /\ topicOf e ∈ VAULT_TOPICS
  /\ exists topics, raw_topics raw = Ok topics /\ at_ topics 0 = NStr (topicOf e).
Proof.
  intros (ts & topic & Hr & Ht & He & H)%decodeWith_inv. case_bool_decide as Hin; [|done].
  inv_binds. apply switchResult_Ok in H as (b & Hb & Hbody). unfold topicOf. rewrite Hbody.
  apply decodeVaultBody_topic in Hb as ->. eauto 10.
Qed.

Lemma decodeReferralEvent_inv raw e :
  decodeReferralEvent raw = Ok (Some e) ->
  env e = envelope raw /\ (exists b, body e = ReferralEvent b) /\ topicOf e ∈ REFERRAL_TOPICS
  /\ exists topics, raw_topics raw = Ok topics /\ at_ topics 0 = NStr (topicOf e).
Proof.
  intros (ts & topic & Hr & Ht & He & H)%decodeWith_inv. case_bool_decide as Hin; [|done].
  inv_binds. apply switchResult_Ok in H as (b & Hb & Hbody). unfold topicOf. rewrite Hbody.
  apply decodeReferralBody_topic in Hb as ->. eauto 10.
Qed.

Lemma decodeLpVaultEvent_inv raw e :
  decodeLpVaultEvent raw = Ok (Some e) ->
  env e = envelope raw /\ (exists b, body e = LpVaultEvent b)
  /\ is_Some (lpVaultFields (topicOf e))
  /\ exists topics, raw_topics raw = Ok topics /\ at_ topics 0 = NStr (topicOf e).
Proof.
  intros (ts & topic & Hr & Ht & He & H)%decodeWith_inv.
  destruct (lpVaultFields topic) as [names|] eqn:Hn; [|done]. inv_binds.
  apply Ok_inv in H. unfold topicOf. injection H as H. rewrite <- H. simpl. eauto 10.
Qed.

(** Every decoder keeps the event: what it returns has the raw event's
    id, contract, ledger, transaction and whole-second close time, and is of
    the kind its first topic names. A switch that returned another kind of
    event, or a topic text that differs from the routed one, would be
    archived and projected as something the chain never emitted. *)
Theorem decoded_event_faithful decode raw e :
  decode ∈ [decodeMarketEvent; decodeVaultEvent; decodeReferralEvent; decodeLpVaultEvent] ->
  decode raw = Ok (Some e) ->
  ev_id (env e) = raw_id raw /\ ev_contractId (env e) = raw_contractId raw
  /\ ev_ledger (env e) = raw_ledger raw /\ ev_txHash (env e) = raw_txHash raw
  /\ 1000 * ev_ledgerCloseTs (env e) <= raw_closedAt raw < 1000 * (ev_ledgerCloseTs (env e) + 1)
  /\ exists topics, raw_topics raw = Ok topics /\ at_ topics 0 = NStr (topicOf e).
Proof.
  intros Hd He.
  assert (env e = envelope raw /\ exists topics,
            raw_topics raw = Ok topics /\ at_ topics 0 = NStr (topicOf e)) as [-> Ht].
  { rewrite !elem_of_cons, elem_of_nil in Hd.
    destruct Hd as [-> | [-> | [-> | [-> | []]]]];
      [apply decodeMarketEvent_inv in He | apply decodeVaultEvent_inv in He
      |apply decodeReferralEvent_inv in He | apply decodeLpVaultEvent_inv in He]; tauto. }
  simpl. pose proof (Z.div_mod (raw_closedAt raw) 1000). pose proof (Z.mod_pos_bound (raw_closedAt raw) 1000).
  repeat (split; [done || lia |]). done.
Qed.

Definition raw_opened : RawEvent := {|
  raw_id := "0001"; raw_contractId := "CM"; raw_ledger := 7; raw_closedAt := 1700000000999;
  raw_txHash := "tx"; raw_topics := Ok [NStr "position_opened"; NStr "BTC"];
  raw_value := Ok (NArr [NBig 42; NStr "GT"; NStr "BTC"; NNum 0; NBig 1000; NBig 50000]) |}.

Definition ev_opened : Event Z := {|
  env := {| ev_id := "0001"; ev_contractId := "CM"; ev_ledger := 7;
            ev_ledgerCloseTs := 1700000000; ev_txHash := "tx" |};
  body := MarketEvent (PositionOpened 42 "GT" "BTC" 0 1000 50000) |}.

Theorem decoded_event_faithful_witness :
  decodeMarketEvent raw_opened = Ok (Some ev_opened)
  /\ ev_ledger (env ev_opened) = raw_ledger raw_opened.
Proof.
  split; [by vm_compute |].
  destruct (decoded_event_faithful decodeMarketEvent raw_opened ev_opened)
    as (_ & _ & H & _); [by left | by vm_compute | exact H].
Defined.

(** Converting an on-chain u64 id to a JavaScript number is exact up to
    2^53; above it the result is off by at most one part in 2^53 (half a unit
    of the 53-bit mantissa), and never changes sign. *)
Theorem asNumber_bigint_error z :
  (Z.abs z <= 2 ^ 53 -> asNumber (NBig z) "id" = Ok z)
  /\ 2 ^ 53 * Z.abs (numberOfBigint z - z) <= Z.abs z
  /\ 0 <= z * numberOfBigint z.
Proof.
  unfold asNumber, numberOfBigint. rewrite <- Z.leb_le.
  destruct (Z.leb_spec (Z.abs z) (2 ^ 53)) as [Hz|Hz]; [split; [done|]; split; nia|].
  split; [done|]. set (u := 2 ^ (Z.log2 (Z.abs z) - 52)).
  pose proof (Z.log2_spec (Z.abs z) ltac:(lia)) as [Hl _].
  assert (53 <= Z.log2 (Z.abs z)) as H53 by (apply Z.log2_le_pow2; lia).
  assert (0 < u) as Hu by (apply Z.pow_pos_nonneg; lia).
  assert (2 ^ 52 * u <= Z.abs z) as Hlo.
  { unfold u. rewrite <- Z.pow_add_r by lia. by replace (52 + _) with (Z.log2 (Z.abs z)) by lia. }
  pose proof (Z.div_mod (Z.abs z) u ltac:(lia)) as Hdm.
  pose proof (Z.mod_pos_bound (Z.abs z) u Hu) as Hr.
  pose proof (Z.div_pos (Z.abs z) u ltac:(lia) Hu) as Hq0.
  set (q := Z.abs z / u) in *. set (r := Z.abs z mod u) in *.
  match goal with |- context [Z.sgn z * (?x * u)] => set (q' := x) end.
  assert (2 * Z.abs (q' * u - Z.abs z) <= u /\ 0 <= q') as [Herr Hq'].
  { unfold q'. destruct (Z.ltb_spec (2 * r) u); [nia|].
    destruct (Z.ltb_spec u (2 * r)); [nia|]. destruct (Z.even q); nia. }
  assert (Z.abs (Z.sgn z * (q' * u) - z) = Z.abs (q' * u - Z.abs z)) as -> by nia.
  split; [lia|nia].
Qed.

Theorem asNumber_bigint_error_witness :
  asNumber (NBig 9007199254740992) "id" = Ok 9007199254740992
  /\ numberOfBigint 9007199254740993 = 9007199254740992.
Proof.
  destruct (asNumber_bigint_error 9007199254740992) as (H & _).
  split; [apply H; vm_compute; congruence | by vm_compute].
Defined.
