(* ===== verification/IndexerDb.v ===== *)
(** * The indexer's database and projections

    The tables written by the event handlers of indexer/src/handlers/*.ts and
    the statements each handler runs for one event. A table is the map of its
    unique key; surrogate identity columns and the wall-clock columns
    [updated_at] and [inserted_at], which no handler reads, are left out. TEXT
    money columns hold decimal text, NUMERIC columns the number. [None] is a
    statement or a coercion that throws, which rolls the transaction back. *)

From S2P Require Import Prelude JsText IndexerEvents.
Open Scope Z_scope.
Open Scope js_scope.

(** ** Bigint fields as the handlers see them

    A live event carries bigints, a replayed one the decimal text of
    payload_json; both print to the same text. *)
Class BigText (N : Type) := {
  toText : N -> string;        (** [x.toString()] *)
  toNumber : N -> option Z }.  (** [Number(x)] *)

#[export] Instance BigText_Z : BigText Z := {|
  toText := decimalOfZ; toNumber := fun z => Some (numberOfBigint z) |}.
#[export] Instance BigText_string : BigText string := {|
  toText := fun s => s; toNumber := fun s => numberOfBigint <$> zOfDecimal s |}.

(** ** The archive *)

Record RawRow := {
  row_contract_id : string; row_topic : string; row_ledger : Z;
  row_close_ts : Z; row_tx_hash : string; row_payload : EventBody string }.

(** [JSON.stringify] of the event's fields, bigints as strings. *)
Definition serialisePayload {N} `{BigText N} (b : EventBody N) : EventBody string :=
  match b with
  | MarketEvent b => MarketEvent (mapMarket toText b)
  | VaultEvent i b => VaultEvent i (mapVault toText b)
  | ReferralEvent b => ReferralEvent (mapReferral toText b)
  | LpVaultEvent b => LpVaultEvent (jsonLpVault b)
  end.

Definition rawRow {N} `{BigText N} (e : Event N) : RawRow := {|
  row_contract_id := ev_contractId (env e); row_topic := topicOf e;
  row_ledger := ev_ledger (env e); row_close_ts := ev_ledgerCloseTs (env e);
  row_tx_hash := ev_txHash (env e); row_payload := serialisePayload (body e) |}.

(** ** Market projection (handlers/market.ts) *)

Record PositionRow := {
  p_trader : string; p_asset : string; p_direction : Z; p_size : string;
  p_entry_price : string; p_opened_at : Z; p_opened_tx_hash : string;
  p_contract_id : string }.

Definition withSize (s : string) (r : PositionRow) : PositionRow := {|
  p_trader := p_trader r; p_asset := p_asset r; p_direction := p_direction r;
  p_size := s; p_entry_price := p_entry_price r; p_opened_at := p_opened_at r;
  p_opened_tx_hash := p_opened_tx_hash r; p_contract_id := p_contract_id r |}.

Record TradeRow := {
  t_position_id : Z; t_trader : string; t_asset : string; t_direction : Z;
  t_kind : string; t_size : string; t_entry_price : option string;
  t_close_price : string; t_pnl : option string; t_ledger : Z; t_ts : Z;
  t_tx_hash : string; t_contract_id : string }.

Record BadDebtRow := {
  b_trader : string; b_asset : string; b_amount : string; b_buffer_covered : string;
  b_lp_absorbed : string; b_ledger : Z; b_ts : Z; b_tx_hash : string;
  b_contract_id : string }.

Record MarketTables := {
  positions : gmap Z PositionRow; trades : gmap string TradeRow;
  bad_debt : gmap string BadDebtRow }.

Section market.
Context {N : Type} `{BigText N}.

Definition openedRow (ev : Envelope) (trader asset : string) (direction : Z)
    (size entryPrice : N) : PositionRow := {|
  p_trader := trader; p_asset := asset; p_direction := direction;
  p_size := toText size; p_entry_price := toText entryPrice;
  p_opened_at := ev_ledgerCloseTs ev; p_opened_tx_hash := ev_txHash ev;
  p_contract_id := ev_contractId ev |}.

(** The numeric subtraction of a partial liquidation, as text. *)
Definition shrink (closed : string) (r : PositionRow) : option PositionRow :=
  match zOfDecimal (p_size r), zOfDecimal closed with
  | Some s, Some c => Some (withSize (decimalOfZ (s - c)) r)
  | _, _ => None
  end.

Definition maintainPositionsProjection (ps : gmap Z PositionRow) (ev : Envelope)
    (b : MarketBody N) : option (gmap Z PositionRow) :=
  match b with
  | PositionOpened positionId trader asset direction size entryPrice =>
      Some (<[positionId := openedRow ev trader asset direction size entryPrice]> ps)
  | PositionClosed positionId _ _ _ _ _ _ _
  | PositionLiquidated positionId _ _ _ _ _ _
  | AdlExecuted positionId _ _ _ _ _ _ _ => Some (delete positionId ps)
  | PositionPartialLiq positionId _ _ _ size _ _ =>
      match ps !! positionId with
      | None => Some ps
      | Some r => r' ← shrink (toText size) r; Some (<[positionId := r']> ps)
      end
  | PositionReduced positionId _ _ _ remainingSize _ _ =>
      Some (alter (withSize (toText remainingSize)) positionId ps)
  | _ => Some ps
  end.

Definition tradeRow (ev : Envelope) (positionId : Z) (trader asset : string)
    (direction : Z) (kind : string) (size : N) (entry : option N) (close : N)
    (pnl : option N) : TradeRow := {|
  t_position_id := positionId; t_trader := trader; t_asset := asset;
  t_direction := direction; t_kind := kind; t_size := toText size;
  t_entry_price := toText <$> entry; t_close_price := toText close;
  t_pnl := toText <$> pnl; t_ledger := ev_ledger ev; t_ts := ev_ledgerCloseTs ev;
  t_tx_hash := ev_txHash ev; t_contract_id := ev_contractId ev |}.

Definition recordRealizedTrade (ts : gmap string TradeRow) (ev : Envelope)
    (b : MarketBody N) : gmap string TradeRow :=
  match b with
  | PositionClosed pid trader asset direction size entry close pnl =>
      insertNew (ev_id ev)
        (tradeRow ev pid trader asset direction "close" size (Some entry) close (Some pnl)) ts
  | PositionLiquidated pid trader asset direction size _ close
  | PositionPartialLiq pid trader asset direction size _ close =>
      insertNew (ev_id ev)
        (tradeRow ev pid trader asset direction "liquidation" size None close None) ts
  | AdlExecuted pid trader asset direction size price pnl _ =>
      insertNew (ev_id ev)
        (tradeRow ev pid trader asset direction "adl" size None price (Some pnl)) ts
  | _ => ts
  end.

Definition recordBadDebt (bs : gmap string BadDebtRow) (ev : Envelope)
    (b : MarketBody N) : gmap string BadDebtRow :=
  match b with
  | BadDebtRecorded trader asset amount covered absorbed =>
      insertNew (ev_id ev)
        {| b_trader := trader; b_asset := asset; b_amount := toText amount;
           b_buffer_covered := toText covered; b_lp_absorbed := toText absorbed;
           b_ledger := ev_ledger ev; b_ts := ev_ledgerCloseTs ev;
           b_tx_hash := ev_txHash ev; b_contract_id := ev_contractId ev |} bs
  | _ => bs
  end.

Definition applyMarket (t : MarketTables) (ev : Envelope) (b : MarketBody N)
  : option MarketTables :=
  ps ← maintainPositionsProjection (positions t) ev b;
  Some {| positions := ps; trades := recordRealizedTrade (trades t) ev b;
          bad_debt := recordBadDebt (bad_debt t) ev b |}.
End market.

(** ** Vault factory projection (handlers/vault.ts) *)

Record VaultRow := {
  v_leader : string; v_name : string; v_created_at : Z; total_usdc : Z;
  circulating_shares : Z; hwm_nav : Z; realized_pnl : Z; leader_shares : Z;
  profit_share_bps : Z; v_paused : bool; v_contract_id : string }.

Record VaultFlowRow := {
  f_vault_id : Z; f_who : string; f_amount : string; f_shares : string;
  f_ledger : Z; f_ts : Z; f_tx_hash : string; f_contract_id : string }.

Record VaultTradeRow := {
  vt_leader : string; vt_collateral : string; vt_pnl : option Z;
  vt_ledger : Z; vt_ts : Z; vt_contract_id : string }.

Record VaultTables := {
  vaults : gmap Z VaultRow;
  vault_deposits : gmap string VaultFlowRow;
  vault_withdraws : gmap string VaultFlowRow;
  vault_fee_claims : gmap string VaultFlowRow;
  vault_trades : gmap (Z * Z * string * string) VaultTradeRow }.

Definition addFlows (dUsdc dShares dLeader : Z) (r : VaultRow) : VaultRow := {|
  v_leader := v_leader r; v_name := v_name r; v_created_at := v_created_at r;
  total_usdc := total_usdc r + dUsdc;
  circulating_shares := circulating_shares r + dShares;
  hwm_nav := hwm_nav r; realized_pnl := realized_pnl r;
  leader_shares := leader_shares r + dLeader;
  profit_share_bps := profit_share_bps r; v_paused := v_paused r;
  v_contract_id := v_contract_id r |}.

Definition claimFees (owed newNav : Z) (r : VaultRow) : VaultRow := {|
  v_leader := v_leader r; v_name := v_name r; v_created_at := v_created_at r;
  total_usdc := total_usdc r - owed; circulating_shares := circulating_shares r;
  hwm_nav := newNav; realized_pnl := realized_pnl r + owed;
  leader_shares := leader_shares r; profit_share_bps := profit_share_bps r;
  v_paused := v_paused r; v_contract_id := v_contract_id r |}.

Definition setPaused (p : bool) (r : VaultRow) : VaultRow := {|
  v_leader := v_leader r; v_name := v_name r; v_created_at := v_created_at r;
  total_usdc := total_usdc r; circulating_shares := circulating_shares r;
  hwm_nav := hwm_nav r; realized_pnl := realized_pnl r;
  leader_shares := leader_shares r; profit_share_bps := profit_share_bps r;
  v_paused := p; v_contract_id := v_contract_id r |}.

Definition isLeader (vs : gmap Z VaultRow) (vaultId : Z) (who : string) : bool :=
  bool_decide (v_leader <$> vs !! vaultId = Some who).

Section vault.
Context {N : Type} `{BigText N}.

Definition upsertVault (vs : gmap Z VaultRow) (ev : Envelope) (vaultId : Z)
    (b : VaultBody N) : option (gmap Z VaultRow) :=
  match b with
  | VaultCreated leader name =>
      Some (<[vaultId :=
        {| v_leader := leader; v_name := name; v_created_at := ev_ledgerCloseTs ev;
           total_usdc := 0; circulating_shares := 0; hwm_nav := 10000000;
           realized_pnl := 0; leader_shares := 0; profit_share_bps := 1000;
           v_paused := false; v_contract_id := ev_contractId ev |}]> vs)
  | VaultDeposit depositor amount shares =>
      a ← zOfDecimal (toText amount); s ← zOfDecimal (toText shares);
      Some (alter (addFlows a s (if isLeader vs vaultId depositor then s else 0)) vaultId vs)
  | VaultWithdraw depositor shares usdcOut =>
      s ← zOfDecimal (toText shares); u ← zOfDecimal (toText usdcOut);
      Some (alter (addFlows (- u) (- s)
                     (if isLeader vs vaultId depositor then - s else 0)) vaultId vs)
  | FeesClaimed _ owed newNav =>
      o ← zOfDecimal (toText owed); n ← zOfDecimal (toText newNav);
      Some (alter (claimFees o n) vaultId vs)
  | VaultPaused (paused | admin_paused) => Some (alter (setPaused true) vaultId vs)
  | VaultPaused (unpaused | admin_unpaused) => Some (alter (setPaused false) vaultId vs)
  | _ => Some vs
  end.

Definition flowRow (ev : Envelope) (vaultId : Z) (who : string) (amount shares : N)
  : VaultFlowRow := {|
  f_vault_id := vaultId; f_who := who; f_amount := toText amount;
  f_shares := toText shares; f_ledger := ev_ledger ev; f_ts := ev_ledgerCloseTs ev;
  f_tx_hash := ev_txHash ev; f_contract_id := ev_contractId ev |}.

(** The settled pnl of the close in the same transaction, read from the
    archive's position_closed row. *)
Definition closeLookup (archive : gmap string RawRow) (txHash : string) (pid : Z)
  : option string :=
  match List.find (fun kv : string * RawRow =>
      match row_payload kv.2 with
      | MarketEvent (PositionClosed p _ _ _ _ _ _ _) =>
          bool_decide (row_tx_hash kv.2 = txHash) && (p =? pid)
      | _ => false
      end) (map_to_list archive) with
  | Some (_, r) =>
      match row_payload r with
      | MarketEvent (PositionClosed _ _ _ _ _ _ _ pnl) => Some pnl
      | _ => None
      end
  | None => None
  end.

Definition logActivity (archive : gmap string RawRow) (t : VaultTables) (ev : Envelope)
    (vaultId : Z) (b : VaultBody N) : option VaultTables :=
  match b with
  | VaultDeposit depositor amount shares =>
      Some {| vaults := vaults t;
        vault_deposits := insertNew (ev_id ev) (flowRow ev vaultId depositor amount shares)
                            (vault_deposits t);
        vault_withdraws := vault_withdraws t; vault_fee_claims := vault_fee_claims t;
        vault_trades := vault_trades t |}
  | VaultWithdraw depositor shares usdcOut =>
      Some {| vaults := vaults t; vault_deposits := vault_deposits t;
        vault_withdraws := insertNew (ev_id ev) (flowRow ev vaultId depositor usdcOut shares)
                             (vault_withdraws t);
        vault_fee_claims := vault_fee_claims t; vault_trades := vault_trades t |}
  | FeesClaimed leader owed newNav =>
      Some {| vaults := vaults t; vault_deposits := vault_deposits t;
        vault_withdraws := vault_withdraws t;
        vault_fee_claims := insertNew (ev_id ev) (flowRow ev vaultId leader owed newNav)
                              (vault_fee_claims t);
        vault_trades := vault_trades t |}
  | LeaderOpen leader positionId collateral =>
      pid ← zOfDecimal (toText positionId);
      Some {| vaults := vaults t; vault_deposits := vault_deposits t;
        vault_withdraws := vault_withdraws t; vault_fee_claims := vault_fee_claims t;
        vault_trades := insertNew (vaultId, pid, "open", ev_txHash ev)
          {| vt_leader := leader; vt_collateral := toText collateral; vt_pnl := None;
             vt_ledger := ev_ledger ev; vt_ts := ev_ledgerCloseTs ev;
             vt_contract_id := ev_contractId ev |} (vault_trades t) |}
  | LeaderClose leader positionId =>
      pid ← zOfDecimal (toText positionId);
      num ← toNumber positionId;
      pnl ← match closeLookup archive (ev_txHash ev) num with
            | None => Some None
            | Some text => z ← zOfDecimal text; Some (Some z)
            end;
      Some {| vaults := vaults t; vault_deposits := vault_deposits t;
        vault_withdraws := vault_withdraws t; vault_fee_claims := vault_fee_claims t;
        vault_trades := insertNew (vaultId, pid, "close", ev_txHash ev)
          {| vt_leader := leader; vt_collateral := "0"; vt_pnl := pnl;
             vt_ledger := ev_ledger ev; vt_ts := ev_ledgerCloseTs ev;
             vt_contract_id := ev_contractId ev |} (vault_trades t) |}
  | _ => Some t
  end.

Definition applyVault (archive : gmap string RawRow) (t : VaultTables) (ev : Envelope)
    (vaultId : Z) (b : VaultBody N) : option VaultTables :=
  vs ← upsertVault (vaults t) ev vaultId b;
  logActivity archive
    {| vaults := vs; vault_deposits := vault_deposits t;
       vault_withdraws := vault_withdraws t; vault_fee_claims := vault_fee_claims t;
       vault_trades := vault_trades t |} ev vaultId b.
End vault.

(** ** Referral projection (handlers/referral.ts) *)

Record ReferrerRow := {
  r_code : string; r_created_at : Z; referred_count : Z;
  total_volume_generated : Z; total_earned : Z; claimable : Z; r_contract_id : string }.

Record BindingRow := {
  bd_referrer : string; bd_code : string; bd_bound_at : Z; bd_tx_hash : string;
  bd_contract_id : string }.

Record ReferralTradeRow := {
  rt_referee : string; rt_referrer : string; rt_original_fee : string;
  rt_discount : string; rt_payout : string; rt_volume : option string;
  rt_ledger : Z; rt_ts : Z; rt_tx_hash : string; rt_contract_id : string }.

Record ReferralClaimRow := {
  rc_referrer : string; rc_amount : string; rc_ledger : Z; rc_ts : Z;
  rc_tx_hash : string; rc_contract_id : string }.

Record ReferralTables := {
  referrers : gmap string ReferrerRow;
  referral_bindings : gmap string BindingRow;
  referral_trades : gmap string ReferralTradeRow;
  referral_claims : gmap string ReferralClaimRow }.

Definition setCode (code contractId : string) (r : ReferrerRow) : ReferrerRow := {|
  r_code := code; r_created_at := r_created_at r; referred_count := referred_count r;
  total_volume_generated := total_volume_generated r; total_earned := total_earned r;
  claimable := claimable r; r_contract_id := contractId |}.

Definition bumpReferred (r : ReferrerRow) : ReferrerRow := {|
  r_code := r_code r; r_created_at := r_created_at r;
  referred_count := referred_count r + 1;
  total_volume_generated := total_volume_generated r; total_earned := total_earned r;
  claimable := claimable r; r_contract_id := r_contract_id r |}.

Definition accrue (fee payout : Z) (r : ReferrerRow) : ReferrerRow := {|
  r_code := r_code r; r_created_at := r_created_at r; referred_count := referred_count r;
  total_volume_generated := total_volume_generated r + fee;
  total_earned := total_earned r + payout; claimable := claimable r + payout;
  r_contract_id := r_contract_id r |}.

Definition zeroClaimable (r : ReferrerRow) : ReferrerRow := {|
  r_code := r_code r; r_created_at := r_created_at r; referred_count := referred_count r;
  total_volume_generated := total_volume_generated r; total_earned := total_earned r;
  claimable := 0; r_contract_id := r_contract_id r |}.

(** The UNIQUE constraint on [code]: held by another referrer. *)
Definition codeTaken (rs : gmap string ReferrerRow) (referrer code : string) : bool :=
  existsb (fun kv : string * ReferrerRow =>
    bool_decide (kv.1 ≠ referrer) && bool_decide (r_code kv.2 = code)) (map_to_list rs).

Section referral.
Context {N : Type} `{BigText N}.

Definition applyReferral (t : ReferralTables) (ev : Envelope) (b : ReferralBody N)
  : option ReferralTables :=
  match b with
  | CodeCreated referrer code =>
      if codeTaken (referrers t) referrer code then None
      else
        Some {| referrers :=
            match referrers t !! referrer with
            | Some r => <[referrer := setCode code (ev_contractId ev) r]> (referrers t)
            | None => <[referrer :=
                {| r_code := code; r_created_at := ev_ledgerCloseTs ev;
                   referred_count := 0; total_volume_generated := 0; total_earned := 0;
                   claimable := 0; r_contract_id := ev_contractId ev |}]> (referrers t)
            end;
          referral_bindings := referral_bindings t;
          referral_trades := referral_trades t; referral_claims := referral_claims t |}
  | ReferrerSet referee referrer code =>
      match referral_bindings t !! referee with
      | Some _ => Some t
      | None =>
          Some {| referrers := alter bumpReferred referrer (referrers t);
            referral_bindings := <[referee :=
              {| bd_referrer := referrer; bd_code := code; bd_bound_at := ev_ledgerCloseTs ev;
                 bd_tx_hash := ev_txHash ev; bd_contract_id := ev_contractId ev |}]>
              (referral_bindings t);
            referral_trades := referral_trades t; referral_claims := referral_claims t |}
      end
  | TradeRecorded referee referrer fee discount payout volume =>
      match referral_trades t !! ev_id ev with
      | Some _ => Some t
      | None =>
          f ← zOfDecimal (toText fee); p ← zOfDecimal (toText payout);
          Some {| referrers := alter (accrue f p) referrer (referrers t);
            referral_bindings := referral_bindings t;
            referral_trades := <[ev_id ev :=
              {| rt_referee := referee; rt_referrer := referrer;
                 rt_original_fee := toText fee; rt_discount := toText discount;
                 rt_payout := toText payout; rt_volume := toText <$> volume;
                 rt_ledger := ev_ledger ev; rt_ts := ev_ledgerCloseTs ev;
                 rt_tx_hash := ev_txHash ev; rt_contract_id := ev_contractId ev |}]>
              (referral_trades t);
            referral_claims := referral_claims t |}
      end
  | Claimed referrer amount =>
      match referral_claims t !! ev_id ev with
      | Some _ => Some t
      | None =>
          Some {| referrers := alter zeroClaimable referrer (referrers t);
            referral_bindings := referral_bindings t;
            referral_trades := referral_trades t;
            referral_claims := <[ev_id ev :=
              {| rc_referrer := referrer; rc_amount := toText amount;
                 rc_ledger := ev_ledger ev; rc_ts := ev_ledgerCloseTs ev;
                 rc_tx_hash := ev_txHash ev; rc_contract_id := ev_contractId ev |}]>
              (referral_claims t) |}
      end
  end.
End referral.

(** ** LP vault projection (handlers/lpVault.ts) *)

Record LpRow := {
  l_kind : string; l_who : option string; l_amounts : list string;
  l_ledger : Z; l_ts : Z; l_tx_hash : string; l_contract_id : string }.

Record LpTables := {
  lp_vault_deposits : gmap string LpRow; lp_vault_withdraws : gmap string LpRow;
  lp_vault_pnl_settlements : gmap string LpRow; lp_vault_buffer_flows : gmap string LpRow }.

Definition field (b : LpVaultBody) (name : string) : Native :=
  match List.find (fun e => String.eqb e.1 name) (lp_fields b) with
  | Some (_, v) => v
  | None => NUndef
  end.

Definition text (v : Native) : option string :=
  match v with
  | NBig z | NNum z => Some (decimalOfZ z)
  | NStr s => Some s
  | _ => None
  end.

Definition addr (v : Native) : option string :=
  match v with NStr s => if String.eqb s "" then None else Some s | _ => None end.

Definition lpRow (ev : Envelope) (kind : string) (who : option string) (amounts : list string)
  : LpRow := {|
  l_kind := kind; l_who := who; l_amounts := amounts; l_ledger := ev_ledger ev;
  l_ts := ev_ledgerCloseTs ev; l_tx_hash := ev_txHash ev; l_contract_id := ev_contractId ev |}.

Definition BUFFER_TOPICS : list string :=
  ["buffer_seeded"; "buffer_funded"; "buffer_drawn"; "buffer_paid"].

Definition logTyped (t : LpTables) (ev : Envelope) (b : LpVaultBody) : option LpTables :=
  let topic := lp_topic b in
  if String.eqb topic "deposit" then
    who ← addr (field b "depositor"); usdc ← text (field b "usdcAmount");
    noe ← text (field b "noeMinted"); fee ← text (field b "fee");
    Some {| lp_vault_deposits :=
              insertNew (ev_id ev) (lpRow ev topic (Some who) [usdc; noe; fee])
                (lp_vault_deposits t);
            lp_vault_withdraws := lp_vault_withdraws t;
            lp_vault_pnl_settlements := lp_vault_pnl_settlements t;
            lp_vault_buffer_flows := lp_vault_buffer_flows t |}
  else if String.eqb topic "withdraw" then
    who ← addr (field b "withdrawer"); noe ← text (field b "noeBurned");
    usdc ← text (field b "usdcOut"); fee ← text (field b "fee");
    Some {| lp_vault_deposits := lp_vault_deposits t;
            lp_vault_withdraws :=
              insertNew (ev_id ev) (lpRow ev topic (Some who) [noe; usdc; fee])
                (lp_vault_withdraws t);
            lp_vault_pnl_settlements := lp_vault_pnl_settlements t;
            lp_vault_buffer_flows := lp_vault_buffer_flows t |}
  else if String.eqb topic "pnl_settled" then
    pnl ← text (field b "pnl");
    Some {| lp_vault_deposits := lp_vault_deposits t;
            lp_vault_withdraws := lp_vault_withdraws t;
            lp_vault_pnl_settlements :=
              insertNew (ev_id ev) (lpRow ev topic None [pnl]) (lp_vault_pnl_settlements t);
            lp_vault_buffer_flows := lp_vault_buffer_flows t |}
  else if bool_decide (topic ∈ BUFFER_TOPICS) then
    secondary ← text (field b (if String.eqb topic "buffer_drawn" then "covered"
                               else if String.eqb topic "buffer_paid" then "paid"
                               else "toReserve"));
    counterparty ← (if String.eqb topic "buffer_paid"
                    then (who ← addr (field b "to"); Some (Some who))
                    else Some None);
    amount ← text (field b "amount");
    Some {| lp_vault_deposits := lp_vault_deposits t;
            lp_vault_withdraws := lp_vault_withdraws t;
            lp_vault_pnl_settlements := lp_vault_pnl_settlements t;
            lp_vault_buffer_flows :=
              insertNew (ev_id ev) (lpRow ev topic counterparty [amount; secondary])
                (lp_vault_buffer_flows t) |}
  else Some t.

(** ** All projections *)

Record Tables := {
  market_t : MarketTables; vault_t : VaultTables; referral_t : ReferralTables; lp_t : LpTables }.

Definition applyEvent {N} `{BigText N} (archive : gmap string RawRow) (t : Tables)
    (e : Event N) : option Tables :=
  match body e with
  | MarketEvent b =>
      m ← applyMarket (market_t t) (env e) b;
      Some {| market_t := m; vault_t := vault_t t; referral_t := referral_t t; lp_t := lp_t t |}
  | VaultEvent i b =>
      v ← applyVault archive (vault_t t) (env e) i b;
      Some {| market_t := market_t t; vault_t := v; referral_t := referral_t t; lp_t := lp_t t |}
  | ReferralEvent b =>
      r ← applyReferral (referral_t t) (env e) b;
      Some {| market_t := market_t t; vault_t := vault_t t; referral_t := r; lp_t := lp_t t |}
  | LpVaultEvent b =>
      l ← logTyped (lp_t t) (env e) b;
      Some {| market_t := market_t t; vault_t := vault_t t; referral_t := referral_t t; lp_t := l |}
  end.

(** ** Theorems *)

(** *** Referral aggregates *)

Definition boundTo (k : string) (b : BindingRow) : Z :=
  if bool_decide (bd_referrer b = k) then 1 else 0.
Definition feeTo (k : string) (t : ReferralTradeRow) : Z :=
  if bool_decide (rt_referrer t = k) then default 0 (zOfDecimal (rt_original_fee t)) else 0.
Definition payoutTo (k : string) (t : ReferralTradeRow) : Z :=
  if bool_decide (rt_referrer t = k) then default 0 (zOfDecimal (rt_payout t)) else 0.

(** Every log row names a registered referrer, and a referrer's totals are
    the sums of its log rows. *)
Record ReferralInv (t : ReferralTables) : Prop := {
  inv_bindings : forall k b, referral_bindings t !! k = Some b ->
    is_Some (referrers t !! bd_referrer b);
  inv_trades : forall k x, referral_trades t !! k = Some x ->
    is_Some (referrers t !! rt_referrer x);
  inv_totals : forall k r, referrers t !! k = Some r ->
    referred_count r = sumMap (boundTo k) (referral_bindings t)
    /\ total_volume_generated r = sumMap (feeTo k) (referral_trades t)
    /\ total_earned r = sumMap (payoutTo k) (referral_trades t) }.

(** The contract binds and pays only referrers that created a code. *)
Definition namesRegistered {N} (t : ReferralTables) (b : ReferralBody N) : Prop :=
  match b with
  | ReferrerSet _ referrer _ | TradeRecorded _ referrer _ _ _ _ =>
      is_Some (referrers t !! referrer)
  | _ => True
  end.

Lemma alter_is_Some {K V} `{Countable K} (f : V -> V) (m : gmap K V) i k :
  is_Some (m !! k) -> is_Some (alter f i m !! k).
Proof.
  intros Hk. destruct (decide (i = k)) as [->|Hne].
  - rewrite lookup_alter_eq. by apply fmap_is_Some.
  - by rewrite lookup_alter_ne.
Qed.

(** A binding or a trade row added for [who] while [who]'s row takes the
    matching increment keeps the totals. *)
Lemma lookup_alter_cases {K V} `{Countable K} (f : V -> V) (m : gmap K V) i k v :
  alter f i m !! k = Some v ->
  (i = k /\ exists w, m !! k = Some w /\ v = f w) \/ (i ≠ k /\ m !! k = Some v).
Proof.
  destruct (decide (i = k)) as [->|Hne]; [|rewrite lookup_alter_ne by done; auto].
  rewrite lookup_alter_eq. intros (w & Hw & ->)%fmap_Some. left. eauto.
Qed.

Lemma lookup_insert_cases {K V} `{Countable K} (m : gmap K V) i k (x v : V) :
  <[i := x]> m !! k = Some v -> (i = k /\ v = x) \/ (i ≠ k /\ m !! k = Some v).
Proof. intros [[-> ->]|[? ?]]%lookup_insert_Some; auto. Qed.

Section referral_inv.
Context {N : Type} `{BigText N}.

Lemma code_created_inv t ev referrer code t' :
  ReferralInv t -> applyReferral t ev (@CodeCreated N referrer code) = Some t' -> ReferralInv t'.
Proof.
  intros [Hb Ht Hs] Ha. simpl in Ha. destruct (codeTaken _ _ _); [done|]. simplify_eq.
  destruct (referrers t !! referrer) as [r0|] eqn:Hr0.
  - split; simpl; [intros k b Hk; specialize (Hb k b Hk)|intros k x Hk; specialize (Ht k x Hk)|].
    + rewrite lookup_insert_is_Some'. by right.
    + rewrite lookup_insert_is_Some'. by right.
    + intros k r [[-> ->]|[Hne Hk]]%lookup_insert_cases; [by apply (Hs _ r0)|by apply Hs].
  - split; simpl; [intros k b Hk; specialize (Hb k b Hk)|intros k x Hk; specialize (Ht k x Hk)|].
    + rewrite lookup_insert_is_Some'. by right.
    + rewrite lookup_insert_is_Some'. by right.
    + intros k r [[<- ->]|[Hne Hk]]%lookup_insert_cases; [simpl|by apply Hs].
      repeat split; symmetry; apply sumMap_zero; intros j x Hx;
        [unfold boundTo | unfold feeTo | unfold payoutTo]; case_bool_decide as He; try done;
        [apply Hb in Hx | apply Ht in Hx | apply Ht in Hx]; rewrite He, Hr0 in Hx; by destruct Hx.
Qed.

Lemma referrer_set_inv t ev referee referrer code t' :
  ReferralInv t -> is_Some (referrers t !! referrer) ->
  applyReferral t ev (@ReferrerSet N referee referrer code) = Some t' -> ReferralInv t'.
Proof.
  intros [Hb Ht Hs] Hreg Ha. simpl in Ha.
  destruct (referral_bindings t !! referee) as [b0|] eqn:Hb0; simplify_eq; [done|].
  split; simpl.
  - intros k b [[-> ->]|[Hne Hk]]%lookup_insert_cases; apply alter_is_Some; [done|by eapply Hb].
  - intros k x Hk. apply alter_is_Some. by eapply Ht.
  - intros k r Hk. rewrite sumMap_insert by done. unfold boundTo at 1. simpl.
    apply lookup_alter_cases in Hk as [(<- & w & Hw & ->)|[Hne Hk]].
    + destruct (Hs _ _ Hw) as (Hc & Hv & He). rewrite bool_decide_eq_true_2 by done.
      simpl. lia.
    + destruct (Hs _ _ Hk) as (Hc & Hv & He). rewrite bool_decide_eq_false_2 by done. lia.
Qed.

Lemma trade_recorded_inv t ev referee referrer fee discount payout volume t' :
  ReferralInv t -> is_Some (referrers t !! referrer) ->
  applyReferral t ev (@TradeRecorded N referee referrer fee discount payout volume) = Some t' ->
  ReferralInv t'.
Proof.
  intros [Hb Ht Hs] Hreg Ha. simpl in Ha.
  destruct (referral_trades t !! ev_id ev) as [x0|] eqn:Hx0; simplify_eq; [done|].
  destruct (zOfDecimal (toText fee)) as [f|] eqn:Hf; [|done].
  destruct (zOfDecimal (toText payout)) as [p|] eqn:Hp; [|done]. simplify_eq/=.
  split; simpl.
  - intros k b Hk. apply alter_is_Some. by eapply Hb.
  - intros k x [[_ ->]|[Hne Hk]]%lookup_insert_cases; apply alter_is_Some; [done|by eapply Ht].
  - intros k r Hk. rewrite !sumMap_insert by done. unfold feeTo at 1, payoutTo at 1. simpl.
    rewrite Hf, Hp. apply lookup_alter_cases in Hk as [(<- & w & Hw & ->)|[Hne Hk]].
    + destruct (Hs _ _ Hw) as (Hc & Hv & He). rewrite bool_decide_eq_true_2 by done.
      simpl. lia.
    + destruct (Hs _ _ Hk) as (Hc & Hv & He). rewrite bool_decide_eq_false_2 by done. lia.
Qed.

Lemma claimed_inv t ev referrer amount t' :
  ReferralInv t -> applyReferral t ev (@Claimed N referrer amount) = Some t' -> ReferralInv t'.
Proof.
  intros [Hb Ht Hs] Ha. simpl in Ha.
  destruct (referral_claims t !! ev_id ev) as [x0|] eqn:Hx0; simplify_eq; [done|].
  split; simpl.
  - intros k b Hk. apply alter_is_Some. by eapply Hb.
  - intros k x Hk. apply alter_is_Some. by eapply Ht.
  - intros k r [(<- & w & Hw & ->)|[Hne Hk]]%lookup_alter_cases; [by apply (Hs _ w)|by apply Hs].
Qed.

(** Referral totals are the sums of the referral log: applying any
    event whose referrer is registered keeps every referrer's referred
    count, volume and earnings equal to the number of its bindings and the
    sums of its logged trades, redeliveries and first-binding-wins
    included. *)
Theorem referral_totals_are_log_sums t ev (b : ReferralBody N) t' :
  ReferralInv t -> namesRegistered t b -> applyReferral t ev b = Some t' -> ReferralInv t'.
Proof.
  intros Hi Hn Ha. destruct b; simpl in Hn;
    [eapply code_created_inv | eapply referrer_set_inv | eapply trade_recorded_inv
    |eapply claimed_inv]; eauto.
Qed.
End referral_inv.

Definition emptyReferral : ReferralTables := {|
  referrers := ∅; referral_bindings := ∅; referral_trades := ∅; referral_claims := ∅ |}.

Lemma emptyReferral_inv : ReferralInv emptyReferral.
Proof. split; simpl; intros k v Hk; by rewrite lookup_empty in Hk. Qed.

Definition env_at (id : string) : Envelope := {|
  ev_id := id; ev_contractId := "C"; ev_ledger := 1; ev_ledgerCloseTs := 100; ev_txHash := "tx" |}.

Definition registeredReferral : ReferralTables :=
  default emptyReferral (applyReferral (N:=Z) emptyReferral (env_at "1") (CodeCreated "GA" "CODE")).

Theorem referral_totals_are_log_sums_witness :
  match applyReferral (N:=Z) registeredReferral (env_at "2")
          (TradeRecorded "GB" "GA" 100 10 25 None) with
  | Some t => ReferralInv t | None => False end.
Proof.
  destruct (applyReferral (N:=Z) registeredReferral (env_at "2") _) as [t|] eqn:Ht;
    [|vm_compute in Ht; discriminate Ht].
  apply (referral_totals_are_log_sums (N:=Z) registeredReferral (env_at "2")
           (TradeRecorded "GB" "GA" 100 10 25 None) t); [| eexists; vm_compute; reflexivity | exact Ht].
  apply (referral_totals_are_log_sums (N:=Z) emptyReferral (env_at "1")
           (CodeCreated "GA" "CODE")); [exact emptyReferral_inv | done | by vm_compute].
Defined.

(** *** Vault balances *)

Definition amountIn (vid : Z) (f : VaultFlowRow) : Z :=
  if bool_decide (f_vault_id f = vid) then default 0 (zOfDecimal (f_amount f)) else 0.
Definition sharesIn (vid : Z) (f : VaultFlowRow) : Z :=
  if bool_decide (f_vault_id f = vid) then default 0 (zOfDecimal (f_shares f)) else 0.
Definition sharesOf (vid : Z) (who : string) (f : VaultFlowRow) : Z :=
  if bool_decide (f_who f = who) then sharesIn vid f else 0.

(** A vault row against its deposit, withdraw and fee logs [d], [w], [c]. *)
Definition balances (d w c : gmap string VaultFlowRow) (id : Z) (v : VaultRow) : Prop :=
  circulating_shares v = sumMap (sharesIn id) d - sumMap (sharesIn id) w
  /\ leader_shares v = sumMap (sharesOf id (v_leader v)) d - sumMap (sharesOf id (v_leader v)) w
  /\ total_usdc v = sumMap (amountIn id) d - sumMap (amountIn id) w - sumMap (amountIn id) c
  /\ realized_pnl v = sumMap (amountIn id) c.

Record VaultInv (t : VaultTables) : Prop := {
  inv_flows : forall m k f,
    m ∈ [vault_deposits t; vault_withdraws t; vault_fee_claims t] ->
    m !! k = Some f -> is_Some (vaults t !! f_vault_id f);
  inv_balances : forall id v, vaults t !! id = Some v ->
    balances (vault_deposits t) (vault_withdraws t) (vault_fee_claims t) id v }.

(** What the factory contract and the archive guard promise of an event: ids
    of created vaults are new, flows are of existing vaults, and the event is
    not in the log yet. *)
Definition vaultEventOk {N} (t : VaultTables) (ev : Envelope) (id : Z) (b : VaultBody N) : Prop :=
  match b with
  | VaultCreated _ _ => vaults t !! id = None
  | VaultDeposit _ _ _ => is_Some (vaults t !! id) /\ vault_deposits t !! ev_id ev = None
  | VaultWithdraw _ _ _ => is_Some (vaults t !! id) /\ vault_withdraws t !! ev_id ev = None
  | FeesClaimed _ _ _ => is_Some (vaults t !! id) /\ vault_fee_claims t !! ev_id ev = None
  | _ => True
  end.

Lemma VaultInv_intro vs d w c tr :
  (forall k f, d !! k = Some f -> is_Some (vs !! f_vault_id f)) ->
  (forall k f, w !! k = Some f -> is_Some (vs !! f_vault_id f)) ->
  (forall k f, c !! k = Some f -> is_Some (vs !! f_vault_id f)) ->
  (forall id v, vs !! id = Some v -> balances d w c id v) ->
  VaultInv {| vaults := vs; vault_deposits := d; vault_withdraws := w;
              vault_fee_claims := c; vault_trades := tr |}.
Proof.
  intros Hd Hw Hc Hb. split; simpl; [|done]. intros m k f Hm.
  rewrite !elem_of_cons, elem_of_nil in Hm. destruct Hm as [-> | [-> | [-> | []]]]; eauto.
Qed.

Lemma VaultInv_elim t : VaultInv t ->
  (forall k f, vault_deposits t !! k = Some f -> is_Some (vaults t !! f_vault_id f))
  /\ (forall k f, vault_withdraws t !! k = Some f -> is_Some (vaults t !! f_vault_id f))
  /\ (forall k f, vault_fee_claims t !! k = Some f -> is_Some (vaults t !! f_vault_id f)).
Proof.
  intros [Hf _]. repeat split; intros k f; apply Hf; rewrite !elem_of_cons; auto.
Qed.

(** No flow of a vault that does not exist. *)
Lemma flows_none (vs : gmap Z VaultRow) (m : gmap string VaultFlowRow) id :
  (forall k f, m !! k = Some f -> is_Some (vs !! f_vault_id f)) -> vs !! id = None ->
  sumMap (sharesIn id) m = 0 /\ sumMap (amountIn id) m = 0
  /\ forall who, sumMap (sharesOf id who) m = 0.
Proof.
  intros Hm Hn.
  assert (forall k f, m !! k = Some f -> f_vault_id f ≠ id) as Hne
    by (intros k f Hk He; apply Hm in Hk as [? Hk]; congruence).
  repeat split; [| |intros who]; apply sumMap_zero; intros k f Hk; specialize (Hne k f Hk);
    unfold sharesOf, sharesIn, amountIn; rewrite ?(bool_decide_eq_false_2 (f_vault_id f = id)) by done;
    by try case_bool_decide.
Qed.

Lemma sharesIn_flow {N} `{BigText N} ev id' id who (a s : N) z :
  zOfDecimal (toText s) = Some z ->
  sharesIn id (flowRow ev id' who a s) = if bool_decide (id' = id) then z else 0.
Proof. intros Hz. unfold sharesIn. simpl. by rewrite Hz. Qed.

Lemma amountIn_flow {N} `{BigText N} ev id' id who (a s : N) z :
  zOfDecimal (toText a) = Some z ->
  amountIn id (flowRow ev id' who a s) = if bool_decide (id' = id) then z else 0.
Proof. intros Hz. unfold amountIn. simpl. by rewrite Hz. Qed.

Section vault_inv.
Context {N : Type} `{BigText N}.

(** The vaults of [alter f id vs] are those of [vs]. *)
Lemma flows_kept (vs : gmap Z VaultRow) f id (m : gmap string VaultFlowRow) :
  (forall k x, m !! k = Some x -> is_Some (vs !! f_vault_id x)) ->
  forall k x, m !! k = Some x -> is_Some (alter f id vs !! f_vault_id x).
Proof. intros Hm k x Hk. apply alter_is_Some. by eapply Hm. Qed.

Lemma flows_kept_insert (vs : gmap Z VaultRow) f id (m : gmap string VaultFlowRow) i
    (x : VaultFlowRow) :
  (forall k x, m !! k = Some x -> is_Some (vs !! f_vault_id x)) ->
  is_Some (vs !! f_vault_id x) ->
  forall k y, <[i := x]> m !! k = Some y -> is_Some (alter f id vs !! f_vault_id y).
Proof.
  intros Hm Hx k y [[_ ->]|[_ Hk]]%lookup_insert_cases; apply alter_is_Some; [done|by eapply Hm].
Qed.

Lemma isLeader_eq vs id who v :
  vs !! id = Some v -> isLeader vs id who = bool_decide (v_leader v = who).
Proof.
  intros Hv. unfold isLeader. rewrite Hv. simpl. apply bool_decide_ext. split; congruence.
Qed.

Lemma deposit_inv a t ev id depositor (amount shares : N) t' :
  VaultInv t -> vaultEventOk t ev id (VaultDeposit depositor amount shares) ->
  applyVault a t ev id (VaultDeposit depositor amount shares) = Some t' -> VaultInv t'.
Proof.
  intros Hi [Hex Hfresh] Ha. destruct (VaultInv_elim t Hi) as (Hd & Hw & Hc).
  unfold applyVault in Ha. simpl in Ha.
  destruct (zOfDecimal (toText amount)) as [za|] eqn:Hza; [|done].
  destruct (zOfDecimal (toText shares)) as [zs|] eqn:Hzs; [|done].
  simplify_eq/=. rewrite insertNew_fresh by done.
  apply VaultInv_intro; [by apply flows_kept_insert | by apply flows_kept.. |].
  intros k v Hk. unfold balances. rewrite !sumMap_insert by done.
  unfold sharesOf at 1. rewrite (sharesIn_flow _ _ _ _ _ _ _ Hzs), (amountIn_flow _ _ _ _ _ _ _ Hza).
  apply lookup_alter_cases in Hk as [(<- & w & Hv & ->)|[Hne Hk]].
  - destruct (inv_balances t Hi _ _ Hv) as (H1 & H2 & H3 & H4). simpl.
    rewrite (isLeader_eq _ _ _ _ Hv), (bool_decide_eq_true_2 (id = id)) by done.
    rewrite (bool_decide_ext (depositor = v_leader w) (v_leader w = depositor)) by (split; congruence).
    destruct (bool_decide (v_leader w = depositor)); lia.
  - destruct (inv_balances t Hi _ _ Hk) as (H1 & H2 & H3 & H4).
    rewrite (bool_decide_eq_false_2 (id = k)) by done.
    destruct (bool_decide (f_who _ = v_leader v)); lia.
Qed.

Lemma withdraw_inv a t ev id depositor (shares usdcOut : N) t' :
  VaultInv t -> vaultEventOk t ev id (VaultWithdraw depositor shares usdcOut) ->
  applyVault a t ev id (VaultWithdraw depositor shares usdcOut) = Some t' -> VaultInv t'.
Proof.
  intros Hi [Hex Hfresh] Ha. destruct (VaultInv_elim t Hi) as (Hd & Hw & Hc).
  unfold applyVault in Ha. simpl in Ha.
  destruct (zOfDecimal (toText shares)) as [zs|] eqn:Hzs; [|done].
  destruct (zOfDecimal (toText usdcOut)) as [zu|] eqn:Hzu; [|done].
  simplify_eq/=. rewrite insertNew_fresh by done.
  apply VaultInv_intro; [by apply flows_kept | by apply flows_kept_insert | by apply flows_kept |].
  intros k v Hk. unfold balances. rewrite !sumMap_insert by done.
  unfold sharesOf at 2. rewrite (sharesIn_flow _ _ _ _ _ _ _ Hzs), (amountIn_flow _ _ _ _ _ _ _ Hzu).
  apply lookup_alter_cases in Hk as [(<- & w & Hv & ->)|[Hne Hk]].
  - destruct (inv_balances t Hi _ _ Hv) as (H1 & H2 & H3 & H4). simpl.
    rewrite (isLeader_eq _ _ _ _ Hv), (bool_decide_eq_true_2 (id = id)) by done.
    rewrite (bool_decide_ext (depositor = v_leader w) (v_leader w = depositor)) by (split; congruence).
    destruct (bool_decide (v_leader w = depositor)); lia.
  - destruct (inv_balances t Hi _ _ Hk) as (H1 & H2 & H3 & H4).
    rewrite (bool_decide_eq_false_2 (id = k)) by done.
    destruct (bool_decide (f_who _ = v_leader v)); lia.
Qed.

Lemma fees_inv a t ev id leader (owed newNav : N) t' :
  VaultInv t -> vaultEventOk t ev id (FeesClaimed leader owed newNav) ->
  applyVault a t ev id (FeesClaimed leader owed newNav) = Some t' -> VaultInv t'.
Proof.
  intros Hi [Hex Hfresh] Ha. destruct (VaultInv_elim t Hi) as (Hd & Hw & Hc).
  unfold applyVault in Ha. simpl in Ha.
  destruct (zOfDecimal (toText owed)) as [zo|] eqn:Hzo; [|done].
  destruct (zOfDecimal (toText newNav)) as [zn|] eqn:Hzn; [|done].
  simplify_eq/=. rewrite insertNew_fresh by done.
  apply VaultInv_intro; [by apply flows_kept | by apply flows_kept | by apply flows_kept_insert |].
  intros k v Hk. unfold balances. rewrite !sumMap_insert by done.
  rewrite (amountIn_flow _ _ _ _ _ _ _ Hzo).
  apply lookup_alter_cases in Hk as [(<- & w & Hv & ->)|[Hne Hk]].
  - destruct (inv_balances t Hi _ _ Hv) as (H1 & H2 & H3 & H4). simpl.
    rewrite (bool_decide_eq_true_2 (id = id)) by done. lia.
  - destruct (inv_balances t Hi _ _ Hk) as (H1 & H2 & H3 & H4).
    rewrite (bool_decide_eq_false_2 (id = k)) by done. lia.
Qed.

Lemma created_inv a t ev id leader name t' :
  VaultInv t -> vaultEventOk t ev id (@VaultCreated N leader name) ->
  applyVault a t ev id (@VaultCreated N leader name) = Some t' -> VaultInv t'.
Proof.
  intros Hi Hnew Ha. destruct (VaultInv_elim t Hi) as (Hd & Hw & Hc).
  unfold applyVault in Ha. simpl in *. simplify_eq/=.
  apply VaultInv_intro;
    try (intros k f Hk; apply lookup_insert_is_Some'; right; eauto; fail).
  intros k v [[<- ->]|[Hne Hk]]%lookup_insert_cases; [|by apply (inv_balances t Hi)].
  destruct (flows_none _ _ _ Hd Hnew) as (D1 & D2 & D3).
  destruct (flows_none _ _ _ Hw Hnew) as (W1 & W2 & W3).
  destruct (flows_none _ _ _ Hc Hnew) as (C1 & C2 & C3).
  unfold balances; simpl. rewrite D1, D2, D3, W1, W2, W3, C2. lia.
Qed.

Lemma pause_inv t id p tr :
  VaultInv t ->
  VaultInv {| vaults := alter (setPaused p) id (vaults t); vault_deposits := vault_deposits t;
              vault_withdraws := vault_withdraws t; vault_fee_claims := vault_fee_claims t;
              vault_trades := tr |}.
Proof.
  intros Hi. destruct (VaultInv_elim t Hi) as (Hd & Hw & Hc).
  apply VaultInv_intro; [by apply flows_kept.. |].
  intros k v [(<- & w & Hv & ->)|[Hne Hk]]%lookup_alter_cases.
  - exact (inv_balances t Hi _ _ Hv).
  - by apply (inv_balances t Hi).
Qed.

Lemma trades_inv t tr :
  VaultInv t ->
  VaultInv {| vaults := vaults t; vault_deposits := vault_deposits t;
              vault_withdraws := vault_withdraws t; vault_fee_claims := vault_fee_claims t;
              vault_trades := tr |}.
Proof.
  intros Hi. destruct (VaultInv_elim t Hi) as (Hd & Hw & Hc).
  by apply VaultInv_intro; [..|apply (inv_balances t Hi)].
Qed.

(** The vault projection balances: between on-chain resyncs, every
    vault's shares, leader shares, cash and realised fees equal what its
    deposit, withdraw and fee-claim logs sum to, and each applied event
    keeps it so. *)
Theorem vault_rows_are_log_sums a t ev id (b : VaultBody N) t' :
  VaultInv t -> vaultEventOk t ev id b -> applyVault a t ev id b = Some t' -> VaultInv t'.
Proof.
  intros Hi Hok Ha. destruct b;
    try first [ by eapply created_inv | by eapply deposit_inv | by eapply withdraw_inv
              | by eapply fees_inv ];
    unfold applyVault in Ha; simpl in Ha.
  - destruct (zOfDecimal _); simplify_eq/=. by apply trades_inv.
  - destruct (zOfDecimal _); [simpl in Ha|done]. destruct (toNumber _); [simpl in Ha|done].
    destruct (closeLookup _ _ _) as [txt|]; [destruct (zOfDecimal txt); [|done]|]; simplify_eq/=;
      by apply trades_inv.
  - simplify_eq/=. by apply trades_inv.
  - simplify_eq/=. by apply trades_inv.
  - destruct t0; simplify_eq/=; by apply pause_inv.
  - simplify_eq/=. by apply trades_inv.
  - simplify_eq/=. by apply trades_inv.
Qed.
End vault_inv.

Definition createdVault : VaultTables :=
  {| vaults := <[7 := {| v_leader := "GL"; v_name := "v"; v_created_at := 1; total_usdc := 0;
        circulating_shares := 0; hwm_nav := 10000000; realized_pnl := 0; leader_shares := 0;
        profit_share_bps := 1000; v_paused := false; v_contract_id := "C" |}]> ∅;
     vault_deposits := ∅; vault_withdraws := ∅; vault_fee_claims := ∅; vault_trades := ∅ |}.

Theorem vault_rows_are_log_sums_witness :
  match applyVault (N:=Z) ∅ createdVault (env_at "9") 7 (VaultDeposit "GL" 500 450) with
  | Some t => VaultInv t | None => False end.
Proof.
  destruct (applyVault (N:=Z) ∅ createdVault (env_at "9") 7 _) as [t|] eqn:Ht;
    [|vm_compute in Ht; discriminate Ht].
  apply (vault_rows_are_log_sums (N:=Z) ∅ createdVault (env_at "9") 7
           (VaultDeposit "GL" 500 450) t); [| | exact Ht].
  - apply VaultInv_intro; try (intros k f Hk; by rewrite lookup_empty in Hk).
    intros id v [[<- ->]|[Hne Hk]]%lookup_insert_cases; [|by rewrite lookup_empty in Hk].
    unfold balances. simpl. rewrite !sumMap_empty. lia.
  - split; [eexists; vm_compute; reflexivity | reflexivity].
Defined.

(** *** Open positions *)

(** The numeric size of position [id] after one event; [None] is not open. *)
Definition sizeStep (id : Z) (s : option Z) (b : MarketBody Z) : option Z :=
  match b with
  | PositionOpened pid _ _ _ size _ => if pid =? id then Some size else s
  | PositionClosed pid _ _ _ _ _ _ _ | PositionLiquidated pid _ _ _ _ _ _
  | AdlExecuted pid _ _ _ _ _ _ _ => if pid =? id then None else s
  | PositionPartialLiq pid _ _ _ size _ _ => if pid =? id then (fun x => x - size) <$> s else s
  | PositionReduced pid _ _ _ remaining _ _ => if pid =? id then (fun _ => remaining) <$> s else s
  | _ => s
  end.

Definition sizeOf (r : PositionRow) : option Z := zOfDecimal (p_size r).

Definition applyPositions (ps : gmap Z PositionRow) (es : list (Envelope * MarketBody Z))
  : option (gmap Z PositionRow) :=
  foldl (fun ps e => ps ≫= fun ps => maintainPositionsProjection ps e.1 e.2) (Some ps) es.

(** The table holds exactly the open positions, with parsable sizes [s]. *)
Definition tracks (ps : gmap Z PositionRow) (s : Z -> option Z) : Prop :=
  forall id, match ps !! id, s id with
             | Some r, Some z => sizeOf r = Some z
             | None, None => True
             | _, _ => False
             end.

Lemma sizeOf_withSize z r : sizeOf (withSize (decimalOfZ z) r) = Some z.
Proof. apply zOfDecimal_decimalOfZ. Qed.

Lemma tracks_delete ps s pid :
  tracks ps s -> tracks (delete pid ps) (fun id => if pid =? id then None else s id).
Proof.
  intros Ht id. specialize (Ht id). destruct (Z.eqb_spec pid id) as [->|Hne];
    [by rewrite lookup_delete_eq | by rewrite lookup_delete_ne].
Qed.

Lemma maintain_tracks ps s ev b :
  tracks ps s ->
  exists ps', maintainPositionsProjection ps ev b = Some ps'
              /\ tracks ps' (fun id => sizeStep id (s id) b).
Proof.
  intros Ht. destruct b; simpl; try (eexists; split; [reflexivity|]); try done;
    try by apply tracks_delete.
  - intros id. specialize (Ht id). destruct (Z.eqb_spec positionId id) as [->|Hne].
    + rewrite lookup_insert_eq. apply zOfDecimal_decimalOfZ.
    + by rewrite lookup_insert_ne.
  - destruct (ps !! positionId) as [r|] eqn:Hr.
    + pose proof (Ht positionId) as Hs. rewrite Hr in Hs.
      destruct (s positionId) as [z|] eqn:Hz; [|done]. unfold sizeOf in Hs.
      unfold shrink. rewrite Hs, zOfDecimal_decimalOfZ. simpl.
      eexists; split; [reflexivity|]. intros id. specialize (Ht id).
      destruct (Z.eqb_spec positionId id) as [->|Hne].
      * rewrite lookup_insert_eq, Hz. simpl. apply sizeOf_withSize.
      * by rewrite lookup_insert_ne.
    + eexists; split; [reflexivity|]. intros id. specialize (Ht id).
      destruct (Z.eqb_spec positionId id) as [<-|Hne]; [|done].
      rewrite Hr in *. by destruct (s positionId).
  - intros id. specialize (Ht id). destruct (Z.eqb_spec positionId id) as [->|Hne].
    + rewrite lookup_alter_eq. destruct (ps !! id), (s id); simpl; try done.
      apply sizeOf_withSize.
    + by rewrite lookup_alter_ne.
Qed.

(** C32. The positions table refines the position life cycle. For any sequence
    of market events the projection never throws, and afterwards a row exists
    exactly for the positions the sequence leaves open, its size being the
    opened size less the liquidated tranches, or what the last reduction
    left. *)
Theorem positions_refine_lifecycle es :
  exists ps, applyPositions ∅ es = Some ps
    /\ tracks ps (fun id => foldl (fun s e => sizeStep id s e.2) None es).
Proof.
  induction es as [|e es IH] using rev_ind.
  - exists ∅. split; [done|]. intros id. by rewrite lookup_empty.
  - destruct IH as (ps & Hps & Ht). unfold applyPositions in *.
    rewrite foldl_app, Hps. simpl. destruct (maintain_tracks ps _ e.1 e.2 Ht) as (ps' & Hm & Ht').
    exists ps'. split; [done|]. intros id. specialize (Ht' id). by rewrite foldl_app.
Qed.
