(* ===== verification/IndexerRpc.v ===== *)
(** * RPC pool and error classification

    Models indexer/src/rpc.ts: the round-robin pool, the classification of
    getEvents failures and the retry loop. A server is a function of the
    request and the attempt number; sleeping between attempts is left out. *)

From Stdlib Require Import Ascii.
From S2P Require Import Prelude JsText IndexerEvents.
Open Scope Z_scope.
Open Scope js_scope.

(** ** Messages *)

Inductive RpcError :=
| ErrorObject (message : string)            (** [err instanceof Error] *)
| PlainObject (message : option string)     (** [{ code, message }]: [String(message ?? '')] *)
| OtherThrow (text : string).               (** [String(err)] *)

Definition errorMessage (err : RpcError) : string :=
  match err with
  | ErrorObject message => message
  | PlainObject message => default "" message
  | OtherThrow text => text
  end.

(** The suffixes [[^.]*?] can reach. *)
Fixpoint noDotSuffixes (s : string) : list string :=
  s :: match s with
       | EmptyString => []
       | String c s => if Ascii.eqb c "."%char then [] else noDotSuffixes s
       end.

(** [(startLedger|start ledger|cursor)[^.]*?(must be within|outside|before the
    oldest|ledger range)] or [outside of retention window], case-insensitive. *)
Definition outOfRange (message : string) : bool :=
  let m := lower message in
  existsb (fun s =>
    existsb (fun subject =>
      match stripPrefix subject s with
      | None => false
      | Some rest =>
          existsb (fun s => existsb (fun p => startsWith p s)
            ["must be within"; "outside"; "before the oldest"; "ledger range"])
            (noDotSuffixes rest)
      end) ["startledger"; "start ledger"; "cursor"]) (suffixes m)
  || includes m "outside of retention window".

(** [(\d{2,})\s*(?:-|to|and)\s*(\d{2,})] at the start of [s]. A digit is
    neither a space nor a separator, so the greedy runs never backtrack. *)
Definition rangeHere (s : string) : option (string * string) :=
  let (d1, s) := span isDigit s in
  if (String.length d1 <? 2)%nat then None
  else
    let s := (span isSpace s).2 in
    match foldr (fun sep r => match stripPrefix sep s with Some x => Some x | None => r end)
            None ["-"; "to"; "and"] with
    | None => None
    | Some s =>
        let d2 := (span isDigit (span isSpace s).2).1 in
        if (String.length d2 <? 2)%nat then None else Some (d1, d2)
    end.

Record RetentionErrorInfo := { ret_oldest : option Z; ret_latest : option Z }.

Definition parseRetentionError (err : RpcError) : option RetentionErrorInfo :=
  let message := errorMessage err in
  if negb (outOfRange message) then None
  else
    match firstSome rangeHere (suffixes message) with
    | Some (a, b) => Some {| ret_oldest := Some (numberOfDigits a);
                             ret_latest := Some (numberOfDigits b) |}
    | None => Some {| ret_oldest := None; ret_latest := None |}
    end.

Definition isTransient (err : RpcError) : bool :=
  let m := errorMessage err in
  includes m "TRY_AGAIN_LATER" || includes m "ECONNRESET" || includes m "ETIMEDOUT"
  || includes m "fetch failed".

(** ** Pool and retry loop *)

Record GetEventsResponse := { res_events : list RawEvent; res_cursor : option string }.

(** A paging token, when there is a non-empty one, else the start ledger. *)
Inductive Request := FromCursor (token : string) | FromLedger (startLedger : Z).

Definition Server : Type := Request -> nat -> RpcError + GetEventsResponse.

Record RpcPool := { servers : list Server; index : nat }.

Definition rotate (p : RpcPool) : RpcPool :=
  {| servers := servers p; index := (index p + 1) mod length (servers p) |}.

Definition current (p : RpcPool) : Server :=
  nth (index p) (servers p) (fun _ _ => inl (OtherThrow "no server")).

Definition requestOf (startLedger : Z) (cursor : option string) : Request :=
  match cursor with
  | Some token => if String.eqb token "" then FromLedger startLedger else FromCursor token
  | None => FromLedger startLedger
  end.

(** Attempts [attempt .. attempt + fuel]; the last one is not retried. *)
Fixpoint fetchFrom (fuel attempt : nat) (pool : RpcPool) (r : Request)
  : (RpcError + GetEventsResponse) * RpcPool :=
  match current pool r attempt with
  | inr res => (inr res, pool)
  | inl err =>
      match parseRetentionError err with
      | Some _ => (inl err, pool)
      | None =>
          match isTransient err, fuel with
          | true, S fuel =>
              fetchFrom fuel (S attempt)
                (if (1 <? length (servers pool))%nat then rotate pool else pool) r
          | _, _ => (inl err, pool)
          end
      end
  end.

Definition FETCH_RETRIES : nat := 3.

Definition fetchEvents (pool : RpcPool) (r : Request)
  : (RpcError + GetEventsResponse) * RpcPool := fetchFrom FETCH_RETRIES 0 pool r.

(** ** Theorems *)

Lemma rangeHere_digits d1 d2 :
  digits d1 -> digits d2 -> (2 <= String.length d1)%nat -> (2 <= String.length d2)%nat ->
  rangeHere (d1 +:+ " - " +:+ d2) = Some (d1, d2).
Proof.
  intros H1 H2 L1 L2. unfold rangeHere. rewrite (span_app isDigit d1 (" - " +:+ d2)) by done.
  destruct (Nat.ltb_spec (String.length d1) 2); [lia|].
  assert ((span isSpace (" - " +:+ d2)).2 = "-" +:+ " " +:+ d2) as -> by reflexivity.
  assert (foldr (fun sep r => match stripPrefix sep ("-" +:+ " " +:+ d2) with
                              | Some x => Some x | None => r end) None ["-"; "to"; "and"]
          = Some (" " +:+ d2)) as -> by reflexivity.
  assert (span isSpace (" " +:+ d2) = (" ", d2)) as ->.
  { apply (span_app isSpace " " d2); [by repeat constructor|].
    destruct d2 as [|c d2]; [done|]. simpl. inversion H2 as [|? ? Hc _]; subst.
    destruct (isSpace c) eqn:Hsp; [|done]. exfalso. revert Hc Hsp. unfold isDigit, isSpace.
    destruct (N.leb_spec 48 (N_of_ascii c)), (N.leb_spec (N_of_ascii c) 57),
      (N.eqb_spec (N_of_ascii c) 32), (N.leb_spec (N_of_ascii c) 13); simpl; rewrite ?andb_false_r;
      try done; lia. }
  simpl. rewrite (span_all isDigit d2 H2). simpl.
  by destruct (Nat.ltb_spec (String.length d2) 2); [lia|].
Qed.

Definition rangeMessage (d1 d2 : string) : string :=
  "startLedger must be within the ledger range: " +:+ d1 +:+ " - " +:+ d2.

(** The RPC's out-of-range message is recognised and its range read,
    whether the failure was thrown as an Error or as the SDK's plain
    [{ code, message }] object: the oldest retained ledger is the first
    number of the message. *)
Theorem retention_range_parsed d1 d2 err :
  digits d1 -> digits d2 -> (2 <= String.length d1)%nat -> (2 <= String.length d2)%nat ->
  errorMessage err = rangeMessage d1 d2 ->
  parseRetentionError err = Some {| ret_oldest := Some (numberOfDigits d1);
                                    ret_latest := Some (numberOfDigits d2) |}.
Proof.
  intros H1 H2 L1 L2 Hm. unfold parseRetentionError. rewrite Hm.
  assert (outOfRange (rangeMessage d1 d2) = true) as ->.
  { unfold outOfRange. apply orb_true_iff. left. reflexivity. }
  assert (firstSome rangeHere (suffixes (rangeMessage d1 d2))
          = firstSome rangeHere (suffixes (d1 +:+ " - " +:+ d2))) as -> by reflexivity.
  assert (forall s r, rangeHere s = Some r -> firstSome rangeHere (suffixes s) = Some r) as Hf
    by (intros [|c s] r Hr; cbn [suffixes firstSome]; by rewrite Hr).
  by rewrite (Hf _ _ (rangeHere_digits d1 d2 H1 H2 L1 L2)).
Qed.

Theorem retention_range_parsed_witness :
  parseRetentionError (PlainObject (Some (rangeMessage "120960" "241920")))
  = Some {| ret_oldest := Some 120960; ret_latest := Some 241920 |}.
Proof.
  apply (retention_range_parsed "120960" "241920"); [by repeat constructor.. | | | reflexivity];
    simpl; lia.
Defined.

(** The server attempt [j] talks to. *)
Definition serverAt (pool : RpcPool) (j : nat) : Server :=
  nth ((index pool + j) mod length (servers pool)) (servers pool)
    (fun _ _ => inl (OtherThrow "no server")).

Lemma fetchFrom_reaches k : forall fuel attempt pool r res,
  (k <= fuel)%nat -> (index pool < length (servers pool))%nat ->
  (forall j, (j < k)%nat -> exists err, serverAt pool j r (attempt + j)%nat = inl err
     /\ parseRetentionError err = None /\ isTransient err = true) ->
  serverAt pool k r (attempt + k)%nat = inr res ->
  fetchFrom fuel attempt pool r
  = (inr res, {| servers := servers pool; index := (index pool + k) mod length (servers pool) |}).
Proof.
  induction k as [|k IH]; intros fuel attempt pool r res Hk Hi Hfail Hok.
  - unfold serverAt in Hok. rewrite !Nat.add_0_r, Nat.mod_small in * by done.
    destruct fuel; simpl; unfold current; rewrite Hok; by destruct pool.
  - destruct fuel as [|fuel]; [lia|]. simpl.
    destruct (Hfail 0%nat ltac:(lia)) as (err & He & Hp & Ht).
    unfold serverAt in He. rewrite !Nat.add_0_r, Nat.mod_small in He by done.
    unfold current. rewrite He, Hp, Ht.
    set (pool' := if (1 <? length (servers pool))%nat then rotate pool else pool).
    assert (servers pool' = servers pool) as Hs by (unfold pool'; by destruct (1 <? _)%nat).
    assert (index pool' = ((index pool + 1) mod length (servers pool))%nat) as Hidx.
    { unfold pool'. destruct (Nat.ltb_spec 1 (length (servers pool))); [done|].
      assert (length (servers pool) = 1%nat) as -> by lia. rewrite Nat.mod_1_r. lia. }
    assert (forall j, serverAt pool' j = serverAt pool (S j)) as Hat.
    { intros j. unfold serverAt. rewrite Hs, Hidx, Nat.Div0.add_mod_idemp_l.
      do 2 f_equal. lia. }
    rewrite (IH fuel (S attempt) pool' r res).
    + rewrite Hs, Hidx, Nat.Div0.add_mod_idemp_l. do 3 f_equal. lia.
    + lia.
    + rewrite Hs, Hidx. apply Nat.mod_upper_bound. lia.
    + intros j Hj. rewrite Hat. replace (S attempt + j)%nat with (attempt + S j)%nat by lia.
      apply Hfail. lia.
    + rewrite Hat. by replace (S attempt + k)%nat with (attempt + S k)%nat by lia.
Qed.

(** Failover. When the first [k] attempts (at most three) fail
    transiently and the next answers, fetchEvents returns that answer: attempt
    j talks to the j-th server after the current one in the ring, and the pool
    stays on the server that answered. *)
Theorem fetchEvents_fails_over pool r res k :
  (k <= 3)%nat -> (index pool < length (servers pool))%nat ->
  (forall j, (j < k)%nat -> exists err, serverAt pool j r j = inl err
     /\ parseRetentionError err = None /\ isTransient err = true) ->
  serverAt pool k r k = inr res ->
  fetchEvents pool r
  = (inr res, {| servers := servers pool; index := (index pool + k) mod length (servers pool) |}).
Proof. intros Hk Hi Hf Hok. by apply (fetchFrom_reaches k FETCH_RETRIES 0 pool r res). Qed.

Definition deadServer : Server := fun _ _ => inl (ErrorObject "fetch failed").
Definition liveServer : Server := fun _ _ => inr {| res_events := []; res_cursor := Some "c" |}.

Theorem fetchEvents_fails_over_witness :
  fetchEvents {| servers := [deadServer; liveServer]; index := 0 |} (FromLedger 5)
  = (inr {| res_events := []; res_cursor := Some "c" |},
     {| servers := [deadServer; liveServer]; index := 1 |}).
Proof.
  apply (fetchEvents_fails_over {| servers := [deadServer; liveServer]; index := 0 |}
           (FromLedger 5) _ 1); [lia | simpl; lia | | reflexivity].
  intros j Hj. exists (ErrorObject "fetch failed"). assert (j = 0%nat) as -> by lia.
  by vm_compute.
Defined.
