(* ===== verification/IndexerHandlers.v ===== *)
(** * Event handlers, router and bus

    Models the handlers' transactions (handlers/*.ts), the on-chain
    enrichment that follows a commit (positionSync.ts, vaultSync.ts), the bus
    emissions and router.ts with the registrations of indexer/src/index.ts.

    Infrastructure failures are inputs: [Fault] says which statements of one
    handler run throw. On-chain views are inputs too ([Chain]). A transaction
    whose commit throws is taken as not applied. *)

From S2P Require Import Prelude JsText IndexerEvents IndexerDb.
Open Scope Z_scope.
Open Scope js_scope.

(** ** The database *)

Record PollCursor := {
  lastLedger : Z; lastPagingToken : option string; updatedAt : Z }.

Inductive Stage := decode | apply.

Record DeadLetter := {
  dl_event_id : string; dl_contract_id : string; dl_ledger : Z; dl_stage : Stage }.

Record Db := {
  events_raw : gmap string RawRow; tables : Tables; poll_cursor : option PollCursor;
  dead_letter : list DeadLetter; ledger_gaps : list (Z * Z) }.

Definition withEvents (a : gmap string RawRow) (t : Tables) (db : Db) : Db := {|
  events_raw := a; tables := t; poll_cursor := poll_cursor db;
  dead_letter := dead_letter db; ledger_gaps := ledger_gaps db |}.

Definition withPositions (ps : gmap Z PositionRow) (t : Tables) : Tables := {|
  market_t := {| positions := ps; trades := trades (market_t t);
                 bad_debt := bad_debt (market_t t) |};
  vault_t := vault_t t; referral_t := referral_t t; lp_t := lp_t t |}.

Definition withVaults (vs : gmap Z VaultRow) (t : Tables) : Tables := {|
  market_t := market_t t;
  vault_t := {| vaults := vs; vault_deposits := vault_deposits (vault_t t);
                vault_withdraws := vault_withdraws (vault_t t);
                vault_fee_claims := vault_fee_claims (vault_t t);
                vault_trades := vault_trades (vault_t t) |};
  referral_t := referral_t t; lp_t := lp_t t |}.

(** ** Failures and on-chain views *)

(** [enrich_fails]: the statement of the clean-up that throws, 0 being its
    SELECT and k+1 the DELETE of its k-th row. *)
Record Fault := {
  begin_fails : bool; insert_fails : bool; apply_fails : bool;
  fallback_fails : bool; enrich_fails : option nat }.

Definition noFault : Fault := {|
  begin_fails := false; insert_fails := false; apply_fails := false;
  fallback_fails := false; enrich_fails := None |}.

(** [fetchOnChainPosition]: not read, read as None, or still open. *)
Inductive OnChainPositionLookup := LookupFailed | LookupGone | LookupOpen.

Record OnChainVaultRow := {
  oc_totalUsdc : Z; oc_circulatingShares : Z; oc_hwmNav : Z; oc_realizedPnl : Z;
  oc_leaderShares : Z; oc_paused : bool }.

Record Chain := {
  get_position : string -> Z -> OnChainPositionLookup;
  view_vault : string -> Z -> option OnChainVaultRow }.

(** ** Enrichment after commit *)

Definition tradersPositions (ps : gmap Z PositionRow) (trader : string) : list Z :=
  (bfilter (fun kv : Z * PositionRow => String.eqb (p_trader kv.2) trader)
     (map_to_list ps)).*1.

Definition dropIfGone (chain : Chain) (market : string) (ps : gmap Z PositionRow) (id : Z)
  : gmap Z PositionRow :=
  match get_position chain market id with
  | LookupGone => delete id ps
  | LookupFailed | LookupOpen => ps
  end.

(** The rows left, and whether every statement ran. *)
Definition cleanupCrossLiquidatedPositions (chain : Chain) (fails : option nat)
    (market trader : string) (ps : gmap Z PositionRow) : gmap Z PositionRow * bool :=
  let ids := tradersPositions ps trader in
  match fails with
  | None => (foldl (dropIfGone chain market) ps ids, true)
  | Some 0%nat => (ps, false)
  | Some (S k) => (foldl (dropIfGone chain market) ps (take k ids),
                   (length ids <=? k)%nat)
  end.

Definition syncedRow (o : OnChainVaultRow) (r : VaultRow) : VaultRow := {|
  v_leader := v_leader r; v_name := v_name r; v_created_at := v_created_at r;
  total_usdc := oc_totalUsdc o; circulating_shares := oc_circulatingShares o;
  hwm_nav := oc_hwmNav o; realized_pnl := oc_realizedPnl o;
  leader_shares := oc_leaderShares o; profit_share_bps := profit_share_bps r;
  v_paused := oc_paused o; v_contract_id := v_contract_id r |}.

Definition syncVaultRow (chain : Chain) (factory : string) (vaultId : Z)
    (vs : gmap Z VaultRow) : gmap Z VaultRow :=
  match view_vault chain factory vaultId with
  | None => vs
  | Some o => alter (syncedRow o) vaultId vs
  end.

Definition reconcileAllVaults (chain : Chain) (factory : string) (vs : gmap Z VaultRow)
  : gmap Z VaultRow :=
  foldl (fun vs id => syncVaultRow chain factory id vs) vs (map_to_list vs).*1.

(** [!s.trim()], on ASCII text. *)
Definition isBlank (s : string) : bool :=
  forallb (fun c => let n := Ascii.N_of_ascii c in
      (N.eqb n 32 || (N.leb 9 n && N.leb n 13)))
    (String.list_ascii_of_string s).

Definition liveRows {K} `{Countable K} {A} (contract : A -> string) (factory : string)
  : gmap K A -> gmap K A := filter (fun kv => contract kv.2 = factory).

Definition pruneRetiredFactoryRows (currentFactory : string) (t : VaultTables) : VaultTables :=
  if isBlank currentFactory then t
  else {|
    vaults := liveRows v_contract_id currentFactory (vaults t);
    vault_deposits := liveRows f_contract_id currentFactory (vault_deposits t);
    vault_withdraws := liveRows f_contract_id currentFactory (vault_withdraws t);
    vault_fee_claims := liveRows f_contract_id currentFactory (vault_fee_claims t);
    vault_trades := liveRows vt_contract_id currentFactory (vault_trades t) |}.

(** Does the vault handler re-read the vault after this event? *)
Definition resyncs {N} (b : VaultBody N) : bool :=
  match b with
  | LeaderOpen _ _ _ | LeaderClose _ _ | OrderReconciled _ _ _ | PositionReconciled _ _ => true
  | _ => false
  end.

(** The tables after the post-commit step, and whether it completed. A
    failed vault resync is swallowed by the handler. *)
Definition enrich {N} (chain : Chain) (fault : Fault) (e : Event N) (t : Tables)
  : Tables * bool :=
  match body e with
  | MarketEvent (CrossLiquidated trader _ _) =>
      let (ps, ok) := cleanupCrossLiquidatedPositions chain (enrich_fails fault)
                        (ev_contractId (env e)) trader (positions (market_t t)) in
      (withPositions ps t, ok)
  | VaultEvent vaultId b =>
      if resyncs b && bool_decide (enrich_fails fault = None)
      then (withVaults (syncVaultRow chain (ev_contractId (env e)) vaultId
                          (vaults (vault_t t))) t, true)
      else (t, true)
  | _ => (t, true)
  end.

(** ** Bus *)

Inductive BusMsg (N : Type) : Type :=
| BusEvent (e : Event N)
| BusPosition (positionId : Z) (trader : string) (state : string)
| BusTrade (kind : string) (positionId : Z) (trader : string) (price size : N)
    (ts : Z) (asset : string)
| BusOrder (orderId : Z) (state : string)
| BusFunding (fundingRate hoursElapsed : N) (ts : Z).
Arguments BusEvent {N}. Arguments BusPosition {N}. Arguments BusTrade {N}.
Arguments BusOrder {N}. Arguments BusFunding {N}.

Definition emitMarket {N} (ts : Z) (b : MarketBody N) : list (BusMsg N) :=
  match b with
  | PositionOpened positionId trader asset _ size entryPrice =>
      [BusPosition positionId trader "opened";
       BusTrade "open" positionId trader entryPrice size ts asset]
  | PositionClosed positionId trader asset _ size _ closePrice _ =>
      [BusPosition positionId trader "closed";
       BusTrade "close" positionId trader closePrice size ts asset]
  | PositionLiquidated positionId trader asset _ size _ closePrice =>
      [BusPosition positionId trader "liquidated";
       BusTrade "liquidation" positionId trader closePrice size ts asset]
  | PositionPartialLiq positionId trader asset _ size _ closePrice =>
      [BusTrade "liquidation" positionId trader closePrice size ts asset]
  | OrderPlaced orderId _ _ => [BusOrder orderId "placed"]
  | OrderCancelled orderId _ => [BusOrder orderId "cancelled"]
  | OrderExecuted orderId _ => [BusOrder orderId "executed"]
  | FundingApplied _ fundingRate hoursElapsed _ => [BusFunding fundingRate hoursElapsed ts]
  | AdlExecuted positionId trader asset _ size price _ _ =>
      [BusPosition positionId trader "closed";
       BusTrade "adl" positionId trader price size ts asset]
  | _ => []
  end.

Definition emitBus {N} (e : Event N) : list (BusMsg N) :=
  BusEvent e :: match body e with
                | MarketEvent b => emitMarket (ev_ledgerCloseTs (env e)) b
                | _ => []
                end.

(** ** One handler run *)

Inductive Outcome := Skipped | Processed | Threw.

Section handler.
Context {N : Type} `{BigText N}.

(** [insertEvent] / [persistRaw]: the archive and whether a row was added. *)
Definition insertEvent (a : gmap string RawRow) (e : Event N) : gmap string RawRow * bool :=
  (insertNew (ev_id (env e)) (rawRow e) a, bool_decide (a !! ev_id (env e) = None)).

Definition handle (chain : Chain) (fault : Fault) (replay : bool) (e : Event N) (db : Db)
  : Outcome * Db * list (BusMsg N) :=
  if begin_fails fault then (Threw, db, [])
  else
    let (a, inserted) := insertEvent (events_raw db) e in
    let rolledBack := if fallback_fails fault then db else withEvents a (tables db) db in
    if insert_fails fault then (Threw, rolledBack, [])
    else if negb inserted && negb replay then (Skipped, db, [])
    else if apply_fails fault then (Threw, rolledBack, [])
    else
      match applyEvent a (tables db) e with
      | None => (Threw, rolledBack, [])
      | Some t =>
          let (t', ok) := enrich chain fault e t in
          if ok then (Processed, withEvents a t' db, if replay then [] else emitBus e)
          else (Threw, withEvents a t' db, [])
      end.
End handler.

(** ** Router *)

Definition Registrations : Type := list (string * string).

Definition MARKET_TOPICS : list string :=
  [ "initialized"; "position_opened"; "position_closed"; "position_liquidated";
    "position_partial_liq"; "position_reduced"; "cross_liq"; "order_placed";
    "order_cancelled"; "order_executed"; "funding_applied"; "liq_refund";
    "bad_debt_recorded"; "adl_executed"; "adl_triggered"; "adl_cleared"; "paused";
    "pause_degraded"; "asset_halt_set"; "collateral_added"; "collateral_removed" ].

Definition LP_VAULT_TOPICS : list string := LP_VAULT_TOPIC_FIELDS.*1.

Record Contracts := {
  marketContract : string; lpVaultContract : option string;
  vaultFactoryContract : option string; referralContract : option string }.

Definition registerAll (contract : option string) (topics : list string) : Registrations :=
  match contract with
  | Some c => map (fun topic => (c, topic)) topics
  | None => []
  end.

(** The registration order of the indexer's and the reindexer's [main]. *)
Definition registrations (cs : Contracts) : Registrations :=
  registerAll (Some (marketContract cs)) MARKET_TOPICS
  ++ registerAll (lpVaultContract cs) LP_VAULT_TOPICS
  ++ registerAll (vaultFactoryContract cs) VAULT_TOPICS
  ++ registerAll (referralContract cs) REFERRAL_TOPICS.

Definition matches {N} (regs : Registrations) (e : Event N) : Registrations :=
  bfilter (fun r => String.eqb r.1 (ev_contractId (env e)) && String.eqb r.2 (topicOf e)) regs.

Section dispatch.
Context {N : Type} `{BigText N}.

(** One handler run per matching registration, until one throws. *)
Fixpoint runHandlers (n : nat) (chain : Chain) (fault : Fault) (replay : bool)
    (e : Event N) (db : Db) : bool * Db * list (BusMsg N) :=
  match n with
  | 0%nat => (true, db, [])
  | S n =>
      match handle chain fault replay e db with
      | (Threw, db', bus) => (false, db', bus)
      | (_, db', bus) =>
          let '(ok, db'', bus') := runHandlers n chain fault replay e db' in
          (ok, db'', bus ++ bus')
      end
  end.

Definition dispatch (regs : Registrations) (chain : Chain) (fault : Fault) (replay : bool)
    (e : Event N) (db : Db) : bool * Db * list (BusMsg N) :=
  runHandlers (length (matches regs e)) chain fault replay e db.
End dispatch.

(** ** Decoder choice (poll.ts) *)

Definition decodeFor (cs : Contracts) (raw : RawEvent) : Result (option (Event Z)) :=
  let contractId := Some (raw_contractId raw) in
  if bool_decide (contractId = vaultFactoryContract cs) then decodeVaultEvent raw
  else if bool_decide (contractId = referralContract cs) then decodeReferralEvent raw
  else if bool_decide (contractId = lpVaultContract cs) then decodeLpVaultEvent raw
  else decodeMarketEvent raw.

(** ** Deliveries

    What the handlers see over time: any sequence of runs, with redeliveries,
    interleavings of several pollers (each run is one transaction) and
    failures. [deliver] returns the processed events, the final database and
    the bus messages. *)

Record Delivery := { d_event : Event Z; d_fault : Fault; d_chain : Chain }.

Fixpoint deliver (ds : list Delivery) (db : Db) : list (Event Z) * Db * list (BusMsg Z) :=
  match ds with
  | [] => ([], db, [])
  | d :: ds =>
      let '(o, db', bus) := handle (d_chain d) (d_fault d) false (d_event d) db in
      let '(ps, db'', bus') := deliver ds db' in
      (match o with Processed => d_event d :: ps | _ => ps end, db'', bus ++ bus')
  end.

(** No on-chain enrichment follows the event. *)
Definition plain {N} (e : Event N) : bool :=
  match body e with
  | MarketEvent (CrossLiquidated _ _ _) => false
  | VaultEvent _ b => negb (resyncs b)
  | _ => true
  end.

(** The events of [es] applied in order to the projections. *)
Definition project {N} `{BigText N} (t : Tables) (es : list (Event N)) : option Tables :=
  foldl (fun t e => t ≫= fun t => applyEvent ∅ t e) (Some t) es.

(** ** Theorems *)

Lemma plain_archive {N} `{BigText N} (a a' : gmap string RawRow) t (e : Event N) :
  plain e = true -> applyEvent a t e = applyEvent a' t e.
Proof.
  unfold plain, applyEvent. destruct (body e) as [b|i b|b|b]; try done.
  destruct b; done.
Qed.

Lemma plain_enrich {N} chain fault (e : Event N) t :
  plain e = true -> enrich chain fault e t = (t, true).
Proof.
  unfold plain, enrich. destruct (body e) as [b|i b|b|b]; try done; destruct b; done.
Qed.

Section handler_facts.
Context {N : Type} `{BigText N}.
Implicit Types (e : Event N) (db : Db).

(** One run: what the archive gains and when the tables may change. *)
Inductive HandleSpec (chain : Chain) (fault : Fault) (replay : bool) e db
  : Outcome * Db * list (BusMsg N) -> Prop :=
| spec_skipped : replay = false -> is_Some (events_raw db !! ev_id (env e)) ->
    HandleSpec chain fault replay e db (Skipped, db, [])
| spec_rolled_back db' :
    db' = db \/ db' = withEvents (insertNew (ev_id (env e)) (rawRow e) (events_raw db))
                        (tables db) db ->
    HandleSpec chain fault replay e db (Threw, db', [])
| spec_enrich_failed t t' :
    replay = true \/ events_raw db !! ev_id (env e) = None ->
    applyEvent (insertNew (ev_id (env e)) (rawRow e) (events_raw db)) (tables db) e = Some t ->
    enrich chain fault e t = (t', false) ->
    HandleSpec chain fault replay e db
      (Threw, withEvents (insertNew (ev_id (env e)) (rawRow e) (events_raw db)) t' db, [])
| spec_processed t t' :
    replay = true \/ events_raw db !! ev_id (env e) = None ->
    applyEvent (insertNew (ev_id (env e)) (rawRow e) (events_raw db)) (tables db) e = Some t ->
    enrich chain fault e t = (t', true) ->
    HandleSpec chain fault replay e db
      (Processed, withEvents (insertNew (ev_id (env e)) (rawRow e) (events_raw db)) t' db,
       if replay then [] else emitBus e).

Lemma handle_spec chain fault replay e db :
  HandleSpec chain fault replay e db (handle chain fault replay e db).
Proof.
  unfold handle, insertEvent. destruct (begin_fails fault); [by constructor; left|].
  assert (forall b : bool, (if b then db else
    withEvents (insertNew (ev_id (env e)) (rawRow e) (events_raw db)) (tables db) db) = db \/
    (if b then db else
    withEvents (insertNew (ev_id (env e)) (rawRow e) (events_raw db)) (tables db) db) =
    withEvents (insertNew (ev_id (env e)) (rawRow e) (events_raw db)) (tables db) db) as Hrb
    by (intros []; auto).
  destruct (insert_fails fault); [by constructor|].
  destruct (negb _ && negb replay) eqn:Hdup.
  - apply andb_true_iff in Hdup as [Hi Hr]. constructor; [by destruct replay|].
    apply negb_true_iff, bool_decide_eq_false in Hi. by apply not_eq_None_Some.
  - destruct (apply_fails fault); [by constructor|].
    destruct (applyEvent _ _ _) as [t|] eqn:Ht; [|by constructor].
    assert (replay = true \/ events_raw db !! ev_id (env e) = None) as Hfresh.
    { destruct replay; [by left | right]. rewrite andb_true_r in Hdup.
      by apply negb_false_iff, bool_decide_eq_true in Hdup. }
    destruct (enrich _ _ _ _) as [t' ok] eqn:Hen. destruct ok; by econstructor.
Qed.

Lemma handle_archive_grows chain fault replay e db o db' bus k r :
  handle chain fault replay e db = (o, db', bus) ->
  events_raw db !! k = Some r -> events_raw db' !! k = Some r.
Proof.
  intros Hh Hk. pose proof (handle_spec chain fault replay e db) as Hs.
  rewrite Hh in Hs. inversion Hs; subst; simpl; try done.
  - match goal with Hor : _ \/ _ |- _ => destruct Hor as [-> | ->] end;
      simpl; by rewrite ?lookup_insertNew, Hk.
  - by rewrite lookup_insertNew, Hk.
  - by rewrite lookup_insertNew, Hk.
Qed.
End handler_facts.

Lemma deliver_archive_grows ds : forall db ps db' bus k r,
  deliver ds db = (ps, db', bus) ->
  events_raw db !! k = Some r -> events_raw db' !! k = Some r.
Proof.
  induction ds as [|d ds IH]; simpl; intros db ps db' bus k r H Hk; [by simplify_eq|].
  destruct (handle _ _ _ _ _) as [[o db1] bus1] eqn:Hh.
  destruct (deliver ds db1) as [[ps1 db2] bus2] eqn:Hd. simplify_eq.
  eapply IH; [exact Hd|]. eapply (handle_archive_grows (N:=Z)); [exact Hh | exact Hk].
Qed.

Lemma project_cons {N} `{BigText N} t t' (e : Event N) es :
  applyEvent ∅ t e = Some t' -> project t (e :: es) = project t' es.
Proof. unfold project. simpl. by intros ->. Qed.

Definition eventIds {N} (es : list (Event N)) : list string :=
  map (fun e => ev_id (env e)) es.

Lemma deliver_processed ds db :
  match deliver ds db with
  | (processed, db', bus) =>
      NoDup (eventIds processed)
      /\ Forall (fun id => events_raw db !! id = None /\ is_Some (events_raw db' !! id))
           (eventIds processed)
      /\ bus = concat (map emitBus processed)
  end.
Proof.
  revert db. induction ds as [|d ds IH]; simpl; intros db; [by repeat constructor|].
  destruct (handle _ _ _ _ _) as [[o db1] bus1] eqn:Hh.
  specialize (IH db1). destruct (deliver ds db1) as [[ps db2] bus2] eqn:Hd.
  destruct IH as (Hnd & Hall & ->).
  assert (Forall (fun id => events_raw db !! id = None /\ is_Some (events_raw db2 !! id))
            (eventIds ps)) as Hall'.
  { eapply Forall_impl; [exact Hall|]. simpl. intros id [Hn Hs]. split; [|done].
    destruct (events_raw db !! id) as [r|] eqn:Hk; [|done].
    rewrite (handle_archive_grows (N:=Z) _ _ _ _ _ _ _ _ _ _ Hh Hk) in Hn. done. }
  pose proof (handle_spec (N:=Z) (d_chain d) (d_fault d) false (d_event d) db) as Hs.
  rewrite Hh in Hs. inversion Hs; subst; simpl; try done.
  match goal with Hor : false = true \/ _ |- _ => destruct Hor as [|Hfresh]; [done|] end.
  assert (events_raw (withEvents (insertNew (ev_id (env (d_event d))) (rawRow (d_event d))
            (events_raw db)) t' db) !! ev_id (env (d_event d)) = Some (rawRow (d_event d))) as Hin.
  { simpl. by rewrite insertNew_fresh, lookup_insert_eq. }
  split; [|split; [|done]].
  - constructor; [|done]. intros Hdup. rewrite Forall_forall in Hall.
    apply Hall in Hdup as [Hn _]. congruence.
  - constructor; [|done]. split; [done|].
    by rewrite (deliver_archive_grows _ _ _ _ _ _ _ Hd Hin).
Qed.

(** C1. Exactly once. Whatever the sequence of handler runs (redeliveries,
    several pollers, failures of any statement), no event is processed twice:
    the processed events have distinct ids, none of which was archived before,
    all of which are archived after, and the bus carries the messages of
    exactly those events, in order. *)
Theorem deliver_exactly_once ds db :
  match deliver ds db with
  | (processed, db', bus) =>
      NoDup (eventIds processed)
      /\ Forall (fun id => events_raw db !! id = None /\ is_Some (events_raw db' !! id))
           (eventIds processed)
      /\ bus = concat (map emitBus processed)
  end.
Proof. apply deliver_processed. Qed.

Lemma deliver_project ds db processed db' bus :
  Forall (fun d => plain (d_event d) = true) ds ->
  deliver ds db = (processed, db', bus) ->
  project (tables db) processed = Some (tables db').
Proof.
  intros Hp. revert db processed db' bus.
  induction Hp as [|d ds Hd Hds IH]; simpl; intros db processed db' bus Hr; [by simplify_eq|].
  destruct (handle _ _ _ _ _) as [[o db1] bus1] eqn:Hh.
  destruct (deliver ds db1) as [[ps db2] bus2] eqn:Hdl. simplify_eq.
  specialize (IH _ _ _ _ Hdl).
  pose proof (handle_spec (N:=Z) (d_chain d) (d_fault d) false (d_event d) db) as Hs.
  rewrite Hh in Hs. inversion Hs; subst; simpl in *; try done.
  - by match goal with Hor : _ \/ _ |- _ => destruct Hor as [-> | ->] end.
  - rewrite plain_enrich in * by done. congruence.
  - match goal with He : enrich _ _ _ _ = _ |- _ => rewrite plain_enrich in He by done end.
    simplify_eq. erewrite project_cons; [exact IH|].
    by erewrite plain_archive.
Qed.

(** The projections are the fold of the processed events. Over any
    sequence of runs of events that need no on-chain enrichment, whatever
    statements fail, the tables are what applying each processed event once,
    in processing order, to the initial tables gives; a rolled-back or skipped
    run leaves no trace in them. *)
Theorem deliver_projects_processed ds db processed db' bus :
  Forall (fun d => plain (d_event d) = true) ds ->
  deliver ds db = (processed, db', bus) ->
  project (tables db) processed = Some (tables db').
Proof. apply deliver_project. Qed.

Definition emptyTables : Tables := {|
  market_t := {| positions := ∅; trades := ∅; bad_debt := ∅ |};
  vault_t := {| vaults := ∅; vault_deposits := ∅; vault_withdraws := ∅;
                vault_fee_claims := ∅; vault_trades := ∅ |};
  referral_t := {| referrers := ∅; referral_bindings := ∅; referral_trades := ∅;
                   referral_claims := ∅ |};
  lp_t := {| lp_vault_deposits := ∅; lp_vault_withdraws := ∅;
             lp_vault_pnl_settlements := ∅; lp_vault_buffer_flows := ∅ |} |}.

Definition emptyDb : Db := {|
  events_raw := ∅; tables := emptyTables; poll_cursor := None;
  dead_letter := []; ledger_gaps := [] |}.

Definition deadChain : Chain := {|
  get_position := fun _ _ => LookupGone; view_vault := fun _ _ => None |}.

Definition delivery (e : Event Z) (f : Fault) : Delivery :=
  {| d_event := e; d_fault := f; d_chain := deadChain |}.

Definition beginFault : Fault := {|
  begin_fails := true; insert_fails := false; apply_fails := false;
  fallback_fails := false; enrich_fails := None |}.

Theorem deliver_projects_processed_witness :
  project emptyTables [ev_opened]
  = Some (tables (deliver [delivery ev_opened beginFault; delivery ev_opened noFault;
                           delivery ev_opened noFault] emptyDb).1.2).
Proof.
  eapply (deliver_projects_processed
    [delivery ev_opened beginFault; delivery ev_opened noFault; delivery ev_opened noFault]
    emptyDb).
  - rewrite !Forall_cons, Forall_nil. vm_compute. done.
  - vm_compute. reflexivity.
Defined.

(** *** Routing *)

Lemma bfilter_none {A} (p : A -> bool) l :
  (forall x, x ∈ l -> p x = false) -> bfilter p l = [].
Proof.
  induction l as [|x l IH]; simpl; intros Hp; [done|].
  rewrite (Hp x) by (left). apply IH. intros y Hy. apply Hp. by right.
Qed.

Lemma bfilter_unique {A} (p : A -> bool) l x :
  NoDup l -> x ∈ l -> (forall y, y ∈ l -> p y = true <-> y = x) -> bfilter p l = [x].
Proof.
  induction 1 as [|y l Hy Hnd IH]; [by rewrite elem_of_nil|].
  rewrite elem_of_cons. intros Hx Hp. simpl.
  destruct (p y) eqn:Hpy.
  - apply Hp in Hpy as ->; [|by left]. f_equal. apply bfilter_none.
    intros z Hz. destruct (p z) eqn:Hpz; [|done]. apply Hp in Hpz as ->; [done|by right].
  - apply IH; [|intros z Hz; apply Hp; by right]. destruct Hx as [<-|]; [|done].
    rewrite (proj2 (Hp x ltac:(left))) in Hpy by done. done.
Qed.

Lemma marketTopic_registered {N} (b : MarketBody N) : marketTopic b ∈ MARKET_TOPICS.
Proof. apply (bool_decide_unpack _). destruct b; try destruct cleared; try destruct removed; done. Qed.

Lemma lpVaultFields_registered topic : is_Some (lpVaultFields topic) -> topic ∈ LP_VAULT_TOPICS.
Proof.
  unfold lpVaultFields, LP_VAULT_TOPICS.
  destruct (list_find _ _) as [[i [t names]]|] eqn:Hf; [|by intros []].
  apply list_find_Some in Hf as (Hl & <- & _). intros _.
  apply list_elem_of_fmap. exists (t, names). split; [done|]. by eapply list_elem_of_lookup_2.
Qed.

Definition configured (cs : Contracts) : list (option string) :=
  [Some (marketContract cs); lpVaultContract cs; vaultFactoryContract cs; referralContract cs].

(** The contracts that are configured are pairwise different. *)
Definition distinctContracts (cs : Contracts) : Prop :=
  NoDup (bfilter (fun c => bool_decide (c ≠ None)) (configured cs)).

Lemma elem_of_registerAll c topics r :
  r ∈ registerAll c topics <-> c = Some r.1 /\ r.2 ∈ topics.
Proof.
  destruct c as [c|], r as [c' t]; simpl; [|rewrite elem_of_nil; by split; [|intros []]].
  rewrite list_elem_of_fmap. split; [intros (? & [=] & ?); by subst|].
  intros [[=] ?]; subst. by exists t.
Qed.

Lemma NoDup_registerAll c topics : NoDup topics -> NoDup (registerAll c topics).
Proof. destruct c; simpl; [|constructor]. intros. apply NoDup_fmap_2; [|done]. by intros ?? [=]. Qed.

Lemma block_matches cid topic c topics :
  NoDup topics ->
  bfilter (fun r : string * string => String.eqb r.1 cid && String.eqb r.2 topic)
    (registerAll c topics)
  = if bool_decide (c = Some cid) && bool_decide (topic ∈ topics) then [(cid, topic)] else [].
Proof.
  intros Hnd. case_bool_decide as Hc; [case_bool_decide as Ht|]; simpl.
  - apply bfilter_unique; [by apply NoDup_registerAll | by apply elem_of_registerAll|].
    intros [c' t'] _. simpl. rewrite andb_true_iff, !String.eqb_eq.
    split; [intros [-> ->]; done | by intros [= -> ->]].
  - apply bfilter_none. intros [c' t'] [_ Hr]%elem_of_registerAll. simpl in *.
    apply andb_false_iff. right. apply String.eqb_neq. by intros ->.
  - apply bfilter_none. intros [c' t'] [Hr _]%elem_of_registerAll. simpl in *.
    apply andb_false_iff. left. apply String.eqb_neq. by intros ->.
Qed.

Lemma matches_blocks {N} cs (e : Event N) :
  let block c topics := if bool_decide (c = Some (ev_contractId (env e)))
                          && bool_decide (topicOf e ∈ topics)
                        then [(ev_contractId (env e), topicOf e)] else [] in
  matches (registrations cs) e
  = block (Some (marketContract cs)) MARKET_TOPICS ++ block (lpVaultContract cs) LP_VAULT_TOPICS
    ++ block (vaultFactoryContract cs) VAULT_TOPICS
    ++ block (referralContract cs) REFERRAL_TOPICS.
Proof.
  intros block. unfold matches, registrations. rewrite !bfilter_app.
  rewrite !block_matches by (apply (bool_decide_unpack _); by vm_compute). done.
Qed.

(** Of the configured contracts, only [c] is the contract [cid]. *)
Lemma distinct_only cs cid :
  distinctContracts cs ->
  Some cid ∈ configured cs ->
  (Some (marketContract cs) = Some cid /\ lpVaultContract cs ≠ Some cid
     /\ vaultFactoryContract cs ≠ Some cid /\ referralContract cs ≠ Some cid)
  \/ (Some (marketContract cs) ≠ Some cid /\ lpVaultContract cs = Some cid
     /\ vaultFactoryContract cs ≠ Some cid /\ referralContract cs ≠ Some cid)
  \/ (Some (marketContract cs) ≠ Some cid /\ lpVaultContract cs ≠ Some cid
     /\ vaultFactoryContract cs = Some cid /\ referralContract cs ≠ Some cid)
  \/ (Some (marketContract cs) ≠ Some cid /\ lpVaultContract cs ≠ Some cid
     /\ vaultFactoryContract cs ≠ Some cid /\ referralContract cs = Some cid).
Proof.
  unfold distinctContracts, configured. destruct cs as [m lp vf rf]. simpl.
  rewrite !elem_of_cons, elem_of_nil.
  destruct lp, vf, rf; cbn; rewrite ?NoDup_cons, ?elem_of_cons, ?elem_of_nil;
    intros; destruct_and?; repeat match goal with H : _ \/ _ |- _ => destruct H end;
    try done; simplify_eq; naive_solver.
Qed.

Lemma decoded_matches cs raw e :
  distinctContracts cs ->
  Some (raw_contractId raw) ∈ configured cs ->
  decodeFor cs raw = Ok (Some e) ->
  matches (registrations cs) e = [(raw_contractId raw, topicOf e)].
Proof.
  intros Hd Hc He. rewrite matches_blocks. unfold decodeFor in He.
  destruct (distinct_only cs (raw_contractId raw) Hd Hc)
    as [(Hm & Hl & Hv & Hr) | [(Hm & Hl & Hv & Hr) | [(Hm & Hl & Hv & Hr) | (Hm & Hl & Hv & Hr)]]].
  - rewrite !bool_decide_eq_false_2 in He by congruence.
    apply decodeMarketEvent_inv in He as (-> & (b & Hb) & _). simpl.
    rewrite (bool_decide_eq_true_2 _ Hm), (bool_decide_eq_false_2 _ Hl),
      (bool_decide_eq_false_2 _ Hv), (bool_decide_eq_false_2 _ Hr). simpl.
    rewrite bool_decide_eq_true_2; [done|]. unfold topicOf. rewrite Hb.
    apply marketTopic_registered.
  - rewrite 2!bool_decide_eq_false_2, bool_decide_eq_true_2 in He by congruence.
    apply decodeLpVaultEvent_inv in He as (-> & _ & Ht & _). simpl.
    rewrite (bool_decide_eq_true_2 _ Hl), (bool_decide_eq_false_2 _ Hm),
      (bool_decide_eq_false_2 _ Hv), (bool_decide_eq_false_2 _ Hr). simpl.
    rewrite bool_decide_eq_true_2; [done|]. by apply lpVaultFields_registered.
  - rewrite bool_decide_eq_true_2 in He by congruence.
    apply decodeVaultEvent_inv in He as (-> & _ & Ht & _). simpl.
    rewrite (bool_decide_eq_true_2 _ Hv), (bool_decide_eq_false_2 _ Hm),
      (bool_decide_eq_false_2 _ Hl), (bool_decide_eq_false_2 _ Hr). simpl.
    by rewrite bool_decide_eq_true_2.
  - rewrite bool_decide_eq_false_2, bool_decide_eq_true_2 in He by congruence.
    apply decodeReferralEvent_inv in He as (-> & _ & Ht & _). simpl.
    rewrite (bool_decide_eq_true_2 _ Hr), (bool_decide_eq_false_2 _ Hm),
      (bool_decide_eq_false_2 _ Hl), (bool_decide_eq_false_2 _ Hv). simpl.
    by rewrite bool_decide_eq_true_2.
Qed.

(** No decoded event falls through the router: when the configured
    contracts are pairwise different, an event that its contract's decoder
    returns matches exactly one registration, its own contract and topic, so
    it is archived and applied once per dispatch. *)
Theorem decoded_event_routed_once cs raw e :
  distinctContracts cs ->
  Some (raw_contractId raw) ∈ configured cs ->
  decodeFor cs raw = Ok (Some e) ->
  matches (registrations cs) e = [(raw_contractId raw, topicOf e)].
Proof. apply decoded_matches. Qed.

Definition contracts_abc : Contracts := {|
  marketContract := "CM"; lpVaultContract := Some "CL"; vaultFactoryContract := Some "CV";
  referralContract := None |}.

Theorem decoded_event_routed_once_witness :
  matches (registrations contracts_abc) ev_opened = [("CM", "position_opened")].
Proof.
  apply (decoded_event_routed_once contracts_abc raw_opened ev_opened).
  - apply (bool_decide_unpack _). by vm_compute.
  - by left.
  - by vm_compute.
Defined.

(** *** Enrichment *)

Definition isGone (chain : Chain) (market : string) (id : Z) : bool :=
  match get_position chain market id with LookupGone => true | _ => false end.

Lemma lookup_dropIfGone chain market ids : forall ps id,
  foldl (dropIfGone chain market) ps ids !! id
  = if bool_decide (id ∈ ids) && isGone chain market id then None else ps !! id.
Proof.
  induction ids as [|i ids IH]; simpl; intros ps id; [done|].
  rewrite IH. unfold dropIfGone, isGone at 2.
  destruct (decide (id = i)) as [->|Hne].
  - rewrite (bool_decide_eq_true_2 (i ∈ i :: ids)) by left. simpl. unfold isGone.
    destruct (get_position chain market i); rewrite ?lookup_delete_eq, ?andb_false_r; try done.
    by destruct (bool_decide _).
  - rewrite (bool_decide_ext (id ∈ i :: ids) (id ∈ ids)) by (rewrite elem_of_cons; tauto).
    destruct (get_position chain market i); rewrite ?lookup_delete_ne by done; done.
Qed.

Lemma elem_of_tradersPositions ps trader id :
  id ∈ tradersPositions ps trader <-> exists r, ps !! id = Some r /\ p_trader r = trader.
Proof.
  unfold tradersPositions. rewrite list_elem_of_fmap. split.
  - intros ([i r] & -> & [Hm Ht]%elem_of_bfilter). exists r.
    apply elem_of_map_to_list in Hm. by apply String.eqb_eq in Ht.
  - intros (r & Hr & Ht). exists (id, r). split; [done|].
    apply elem_of_bfilter. split; [by apply elem_of_map_to_list|]. by apply String.eqb_eq.
Qed.

(** The cross-liquidation clean-up removes exactly the trader's rows the
    chain reports gone: rows of other traders, rows still open and rows whose
    read failed are kept. When a statement fails on the way, fewer rows are
    removed, never others. *)
Theorem cleanup_removes_dead_rows chain fails market trader ps ps' ok id :
  cleanupCrossLiquidatedPositions chain fails market trader ps = (ps', ok) ->
  let dead := exists r, ps !! id = Some r /\ p_trader r = trader /\ isGone chain market id = true in
  (ok = true -> ps' !! id = None <-> ps !! id = None \/ dead)
  /\ (ps' !! id = ps !! id \/ ps' !! id = None /\ dead).
Proof.
  intros Hc dead.
  assert (forall l, (forall i, i ∈ l -> i ∈ tradersPositions ps trader) ->
    let ps1 := foldl (dropIfGone chain market) ps l in
    ((forall i, i ∈ tradersPositions ps trader -> i ∈ l) ->
       ps1 !! id = None <-> ps !! id = None \/ dead)
    /\ (ps1 !! id = ps !! id \/ ps1 !! id = None /\ dead)) as Hl.
  { intros l Hsub. simpl. rewrite lookup_dropIfGone.
    case_bool_decide as Hin; simpl; [destruct (isGone chain market id) eqn:Hg|].
    - apply Hsub, elem_of_tradersPositions in Hin as (r & Hr & Ht).
      assert dead as Hdead by (by exists r). split; [tauto|]. by right.
    - split; [|by left]. intros _. split; [by left|]. intros [|(r & _ & _ & ?)]; [done|congruence].
    - split; [|by left]. intros Hsup. split; [by left|].
      intros [|(r & Hr & Ht & _)]; [done|]. destruct Hin. apply Hsup, elem_of_tradersPositions. eauto. }
  unfold cleanupCrossLiquidatedPositions in Hc. destruct fails as [[|k]|]; simplify_eq.
  - split; [done | by left].
  - destruct (Hl (take k (tradersPositions ps trader))) as [H1 H2].
    { intros i Hi. by apply elem_of_take in Hi as (? & ?%list_elem_of_lookup_2 & _). }
    split; [|done]. intros Hk%Nat.leb_le. apply H1. intros i Hi. by rewrite take_ge.
  - destruct (Hl (tradersPositions ps trader)) as [H1 H2]; [done|]. split; [|done].
    intros _. by apply H1.
Qed.

Definition twoPositions : gmap Z PositionRow :=
  let row trader := {| p_trader := trader; p_asset := "BTC"; p_direction := 0; p_size := "5";
    p_entry_price := "9"; p_opened_at := 1; p_opened_tx_hash := "t"; p_contract_id := "CM" |} in
  <[1 := row "GA"]> (<[2 := row "GB"]> ∅).

Theorem cleanup_removes_dead_rows_witness :
  let ps' := (cleanupCrossLiquidatedPositions deadChain None "CM" "GA" twoPositions).1 in
  ps' !! 1 = None /\ (ps' !! 2 = twoPositions !! 2 \/ ps' !! 2 = None).
Proof.
  intros ps'. split.
  - destruct (cleanup_removes_dead_rows deadChain None "CM" "GA" twoPositions ps' true 1)
      as [H _]; [reflexivity|]. apply H; [reflexivity|]. right. eexists. vm_compute. auto.
  - destruct (cleanup_removes_dead_rows deadChain None "CM" "GA" twoPositions ps' true 2)
      as [_ [H|[H _]]]; [reflexivity | by left | by right].
Defined.
