(* ===== verification/IndexerReindex.v ===== *)
(** * Rebuilding the projections from the archive

    Models indexer/src/reindex.ts: truncate the projection tables, then replay
    the archived rows in (ledger, event_id) order through the live handlers.
    The database's text collation is a parameter, a total order on event ids. *)

From S2P Require Import Prelude JsText IndexerEvents IndexerDb IndexerHandlers.
Open Scope Z_scope.
Open Scope js_scope.

(** The tables [PROJECTION_TABLES] names are emptied; bad_debt is not among
    them and keeps its rows. *)
Definition truncateProjections (t : Tables) : Tables := {|
  market_t := {| positions := ∅; trades := ∅; bad_debt := bad_debt (market_t t) |};
  vault_t := vault_t emptyTables; referral_t := referral_t emptyTables;
  lp_t := lp_t emptyTables |}.

Definition reviveEvent (row : string * RawRow) : Event string := {|
  env := {| ev_id := row.1; ev_contractId := row_contract_id row.2;
            ev_ledger := row_ledger row.2; ev_ledgerCloseTs := row_close_ts row.2;
            ev_txHash := row_tx_hash row.2 |};
  body := row_payload row.2 |}.

Section reindex.
(** [ORDER BY event_id] of the database. *)
Context (idLe : relation string) `{!RelDecision idLe}.
Context (regs : Registrations) (chain : Chain) (faults : string -> Fault).

(** ORDER BY ledger ASC, event_id ASC *)
Definition rowLe (r1 r2 : string * RawRow) : Prop :=
  row_ledger r1.2 < row_ledger r2.2
  \/ row_ledger r1.2 = row_ledger r2.2 /\ idLe r1.1 r2.1.
#[export] Instance rowLe_dec : RelDecision rowLe.
Proof. intros x y. unfold rowLe. solve_decision. Defined.

Definition orderedRows (a : gmap string RawRow) : list (string * RawRow) :=
  merge_sort rowLe (map_to_list a).

Record ReindexResult := { replayed : nat; failed : nat }.

Definition replayRow (s : ReindexResult * Db) (row : string * RawRow) : ReindexResult * Db :=
  let '(ok, db, _) := dispatch regs chain (faults row.1) true (reviveEvent row) s.2 in
  (if ok then {| replayed := S (replayed s.1); failed := failed s.1 |}
   else {| replayed := replayed s.1; failed := S (failed s.1) |}, db).

Definition reindexProjections (db : Db) : ReindexResult * Db :=
  foldl replayRow
    ({| replayed := 0; failed := 0 |},
     withEvents (events_raw db) (truncateProjections (tables db)) db)
    (orderedRows (events_raw db)).
End reindex.

(** ** Archived text and live bigints project alike *)

Definition archived (e : Event Z) : Event string :=
  {| env := env e; body := serialisePayload (body e) |}.

Lemma revive_rawRow (e : Event Z) : reviveEvent (ev_id (env e), rawRow e) = archived e.
Proof. unfold reviveEvent, archived. simpl. by destruct (env e). Qed.

Lemma maintain_archived ps ev (b : MarketBody Z) :
  maintainPositionsProjection ps ev (mapMarket decimalOfZ b) = maintainPositionsProjection ps ev b.
Proof. by destruct b. Qed.

Lemma trade_archived ts ev (b : MarketBody Z) :
  recordRealizedTrade ts ev (mapMarket decimalOfZ b) = recordRealizedTrade ts ev b.
Proof. by destruct b. Qed.

Lemma badDebt_archived bs ev (b : MarketBody Z) :
  recordBadDebt bs ev (mapMarket decimalOfZ b) = recordBadDebt bs ev b.
Proof. by destruct b. Qed.

Lemma vault_archived a t ev i (b : VaultBody Z) :
  applyVault a t ev i (mapVault decimalOfZ b) = applyVault a t ev i b.
Proof.
  destruct b; try done. unfold applyVault. simpl. by rewrite zOfDecimal_decimalOfZ.
Qed.

Lemma referral_archived t ev (b : ReferralBody Z) :
  applyReferral t ev (mapReferral decimalOfZ b) = applyReferral t ev b.
Proof. destruct b; try reflexivity. simpl. destruct volume; reflexivity. Qed.

(** A field the live handler accepts reads the same after the JSON round trip. *)
Lemma field_archived b name s :
  text (field b name) = Some s -> text (field (jsonLpVault b) name) = Some s.
Proof.
  unfold field. destruct b as [t ass fs]. simpl. induction fs as [|[k v] fs IH]; simpl; [done|].
  destruct (String.eqb k name) eqn:Hk; simpl.
  - destruct v; simpl; try done; rewrite Hk; simpl; auto.
  - intros Hs. destruct v; simpl; rewrite ?Hk; auto.
Qed.

Lemma addr_archived b name s :
  addr (field b name) = Some s -> addr (field (jsonLpVault b) name) = Some s.
Proof.
  unfold field. destruct b as [t ass fs]. simpl. induction fs as [|[k v] fs IH]; simpl; [done|].
  destruct (String.eqb k name) eqn:Hk; simpl.
  - destruct v; simpl; try done; rewrite Hk; simpl; auto.
  - intros Hs. destruct v; simpl; rewrite ?Hk; auto.
Qed.

(** Read the accepted fields one by one, live and archived. *)
Ltac read_fields :=
  repeat match goal with
  | H : (text ?f ≫= _) = Some _ |- _ =>
      let s := fresh "s" in let Hs := fresh "Hs" in
      destruct (text f) as [s|] eqn:Hs; [simpl in H; apply field_archived in Hs | done]
  | H : (addr ?f ≫= _) = Some _ |- _ =>
      let s := fresh "s" in let Hs := fresh "Hs" in
      destruct (addr f) as [s|] eqn:Hs; [simpl in H; apply addr_archived in Hs | done]
  | H : ((addr ?f ≫= _) ≫= _) = Some _ |- _ =>
      let s := fresh "s" in let Hs := fresh "Hs" in
      destruct (addr f) as [s|] eqn:Hs; [simpl in H; apply addr_archived in Hs | done]
  end;
  repeat match goal with
  | H : text _ = Some _ |- _ => rewrite H; clear H; simpl
  | H : addr _ = Some _ |- _ => rewrite H; clear H; simpl
  end.

Lemma lp_archived t ev b t' : logTyped t ev b = Some t' -> logTyped t ev (jsonLpVault b) = Some t'.
Proof.
  unfold logTyped. change (lp_topic (jsonLpVault b)) with (lp_topic b). intros H.
  repeat match type of H with (if ?c then _ else _) = _ => destruct c eqn:? end.
  - by read_fields.
  - by read_fields.
  - by read_fields.
  - destruct (lp_topic b =? "buffer_paid")%string; by read_fields.
  - done.
Qed.

Lemma apply_archived a t (e : Event Z) t' :
  applyEvent a t e = Some t' -> applyEvent a t (archived e) = Some t'.
Proof.
  unfold applyEvent, archived. destruct e as [ev [b|i b|b|b]]; simpl.
  - unfold applyMarket. by rewrite maintain_archived, trade_archived, badDebt_archived.
  - by rewrite vault_archived.
  - by rewrite referral_archived.
  - destruct (logTyped (lp_t t) ev b) as [l|] eqn:Hl; [|done]. simpl. by rewrite (lp_archived _ _ _ _ Hl).
Qed.

Lemma topicOf_archived e : topicOf (archived e) = topicOf e.
Proof. destruct e as [ev [b|i b|b|b]]; try done; by destruct b. Qed.

Lemma plain_archived e : plain (archived e) = plain e.
Proof. destruct e as [ev [b|i b|b|b]]; try done; by destruct b. Qed.

(** ** What live processing leaves in the archive *)

Definition archiveRow (e : Event Z) : string * RawRow := (ev_id (env e), rawRow e).

Lemma deliver_rows ds : forall db ps db' bus e,
  deliver ds db = (ps, db', bus) -> e ∈ ps ->
  events_raw db' !! ev_id (env e) = Some (rawRow e).
Proof.
  induction ds as [|d ds IH]; simpl; intros db ps db' bus e H He; simplify_eq;
    [by apply elem_of_nil in He|].
  destruct (handle _ _ _ _ _) as [[o db1] bus1] eqn:Hh.
  destruct (deliver ds db1) as [[ps1 db2] bus2] eqn:Hd. simplify_eq.
  pose proof (handle_spec (N:=Z) (d_chain d) (d_fault d) false (d_event d) db) as Hs.
  rewrite Hh in Hs. inversion Hs; subst; simpl in *; try by eapply IH.
  apply elem_of_cons in He as [->|He]; [|by eapply IH].
  match goal with Hor : false = true \/ _ |- _ => destruct Hor as [|Hfresh]; [done|] end.
  eapply deliver_archive_grows; [exact Hd|]. simpl. by rewrite insertNew_fresh, lookup_insert_eq.
Qed.

(** ** Bad debt survives the truncation *)

Definition withBadDebt (B : gmap string BadDebtRow) (t : Tables) : Tables := {|
  market_t := {| positions := positions (market_t t); trades := trades (market_t t);
                 bad_debt := B |};
  vault_t := vault_t t; referral_t := referral_t t; lp_t := lp_t t |}.

Lemma insertNew_union {V} (k : string) (v : V) (B m : gmap string V) : insertNew k v (B ∪ m) = B ∪ insertNew k v m.
Proof.
  apply map_eq. intros j. rewrite lookup_insertNew, !lookup_union, lookup_insertNew.
  destruct (B !! j) as [x|]; destruct (m !! j) as [y|]; cbn; try done; by destruct (decide (k = j)).
Qed.

(** Rows that were there before the replay stay in front of what it adds. *)
Lemma apply_withBadDebt a t B (e : Event Z) t' :
  applyEvent a t e = Some t' ->
  applyEvent a (withBadDebt (B ∪ bad_debt (market_t t)) t) e = Some (withBadDebt (B ∪ bad_debt (market_t t')) t').
Proof.
  unfold applyEvent. destruct e as [ev [b|i b|b|b]]; simpl; intros Ha.
  - unfold applyMarket in *. simpl.
    destruct (maintainPositionsProjection _ _ _) as [ps|]; [|done]. simplify_eq/=.
    unfold withBadDebt. simpl. do 3 f_equal. destruct b; simpl; try done. apply insertNew_union.
  - destruct (applyVault _ _ _ _ _); by simplify_eq/=.
  - destruct (applyReferral _ _ _); by simplify_eq/=.
  - destruct (logTyped _ _ _); by simplify_eq/=.
Qed.

Lemma project_inv {N} `{BigText N} t (e : Event N) es t' :
  project t (e :: es) = Some t' ->
  exists t1, applyEvent ∅ t e = Some t1 /\ project t1 es = Some t'.
Proof.
  unfold project. simpl. destruct (applyEvent ∅ t e) as [t1|]; [eauto|].
  intros Hn. exfalso. induction es as [|e' es IH]; simpl in *; [done|auto].
Qed.

Lemma deliver_plain ds : forall db ps db' bus,
  Forall (fun d => plain (d_event d) = true) ds -> deliver ds db = (ps, db', bus) ->
  Forall (fun e => plain e = true) ps.
Proof.
  induction ds as [|d ds IH]; simpl; intros db ps db' bus Hp H; simplify_eq; [constructor|].
  inversion Hp; subst. destruct (handle _ _ _ _ _) as [[o db1] bus1].
  destruct (deliver ds db1) as [[ps1 db2] bus2] eqn:Hd. simplify_eq.
  destruct o; [by eapply IH | constructor; [done|by eapply IH] | by eapply IH].
Qed.

(** ** The rebuild *)

Section rebuild.
Context (idLe : relation string) `{!RelDecision idLe} `{!Total idLe} `{!Transitive idLe}
  `{!AntiSymm (=) idLe}.
Context (regs : Registrations) (chain : Chain).

#[local] Instance rowLe_total : Total (rowLe idLe).
Proof.
  intros x y. unfold rowLe.
  destruct (Z.lt_trichotomy (row_ledger x.2) (row_ledger y.2)) as [|[|]]; [by left; left| |by right; left].
  destruct (total idLe x.1 y.1); [left | right]; right; auto.
Qed.

#[local] Instance rowLe_trans : Transitive (rowLe idLe).
Proof.
  intros x y z. unfold rowLe. intros [H1|[H1 I1]] [H2|[H2 I2]]; [left; lia..|].
  right. split; [lia|]. by etrans.
Qed.

Lemma orderedRows_log (a : gmap string RawRow) (log : list (string * RawRow)) :
  NoDup log.*1 -> StronglySorted (rowLe idLe) log ->
  (forall k r, a !! k = Some r <-> (k, r) ∈ log) ->
  orderedRows idLe a = log.
Proof.
  intros Hnd Hs Ha. unfold orderedRows.
  assert (merge_sort (rowLe idLe) (map_to_list a) ≡ₚ log) as Hp.
  { rewrite merge_sort_Permutation. apply NoDup_Permutation.
    - apply NoDup_map_to_list.
    - by apply NoDup_fmap_1 in Hnd.
    - intros [k r]. by rewrite elem_of_map_to_list, Ha. }
  apply (StronglySorted_unique_strong (rowLe idLe)); [ |by apply (StronglySorted_merge_sort _)|done|done].
  intros [k1 r1] [k2 r2] H1 H2 L1 L2. rewrite Hp in H1. apply Ha in H1. apply Ha in H2.
  assert (k1 = k2) as ->; [|congruence].
  unfold rowLe in *. simpl in *. destruct L1 as [|[E1 L1]], L2 as [|[E2 L2]]; try lia.
  by apply (anti_symm idLe).
Qed.

(** Replaying one archived event that the projections accept. *)
Lemma replay_one res db B t t1 e :
  plain e = true -> length (matches regs (archived e)) = 1%nat ->
  events_raw db !! ev_id (env e) = Some (rawRow e) -> tables db = withBadDebt (B ∪ bad_debt (market_t t)) t ->
  applyEvent ∅ t e = Some t1 ->
  replayRow regs chain (fun _ => noFault) (res, db) (archiveRow e)
  = ({| replayed := S (replayed res); failed := failed res |},
     withEvents (events_raw db) (withBadDebt (B ∪ bad_debt (market_t t1)) t1) db).
Proof.
  intros Hp Hm Hr Ht Ha. unfold replayRow, archiveRow. rewrite revive_rawRow. simpl.
  unfold dispatch. rewrite Hm. simpl. unfold handle, insertEvent. simpl.
  rewrite andb_false_r, (insertNew_present _ _ _ _ Hr), Ht.
  assert (applyEvent (events_raw db) (withBadDebt (B ∪ bad_debt (market_t t)) t) (archived e)
          = Some (withBadDebt (B ∪ bad_debt (market_t t1)) t1)) as ->.
  { rewrite (plain_archive (N:=string) _ ∅) by by rewrite plain_archived.
    apply apply_archived. by apply apply_withBadDebt. }
  rewrite plain_enrich by by rewrite plain_archived. done.
Qed.

Lemma replay_log log : forall res db B t t1,
  Forall (fun e => plain e = true /\ length (matches regs (archived e)) = 1%nat
                   /\ events_raw db !! ev_id (env e) = Some (rawRow e)) log ->
  tables db = withBadDebt (B ∪ bad_debt (market_t t)) t -> project (N:=Z) t log = Some t1 ->
  foldl (replayRow regs chain (fun _ => noFault)) (res, db) (map archiveRow log)
  = ({| replayed := replayed res + length log; failed := failed res |},
     withEvents (events_raw db) (withBadDebt (B ∪ bad_debt (market_t t1)) t1) db).
Proof.
  induction log as [|e log IH]; intros res db B t t1 Hall Ht Hp.
  - unfold project in Hp. simplify_eq/=. rewrite Nat.add_0_r, <- Ht.
    by destruct res, db.
  - apply project_inv in Hp as (t2 & Ha & Hp). inversion Hall as [|? ? (Hpl & Hm & Hr) Hall']; subst.
    simpl. rewrite (replay_one _ _ B t t2) by done. erewrite IH; [| |reflexivity|exact Hp]; [|done].
    simpl. unfold withEvents. simpl. do 2 f_equal. lia.
Qed.

(** C8. A reindex rebuilds the live projections, as far as they come from
    the events alone. Let the handlers have processed the events [log] in archive
    order, whatever failed and was delivered again on the way, with every
    archived row belonging to a processed event and matching one registration;
    and let none of them be one whose handler reads the chain (a cross
    liquidation, a leader's open or close, a reconcile). Then, when no
    statement throws, the rebuild replays every row, fails on none, and gives
    back exactly the tables live processing built, whatever has become of them
    meanwhile: bigints read back as decimal text, the truncation and the
    replay's own ordering make no difference. The one exception is bad_debt,
    which is not truncated: it has every row live processing wrote, save where
    a row with the same id was there already, and all it had before. *)
Theorem reindex_rebuilds_live ds log db bus drifted :
  deliver ds emptyDb = (log, db, bus) ->
  Forall (fun d => plain (d_event d) = true) ds ->
  (forall k r, events_raw db !! k = Some r -> k ∈ eventIds log) ->
  StronglySorted (rowLe idLe) (map archiveRow log) ->
  Forall (fun e => length (matches regs e) = 1%nat) log ->
  reindexProjections idLe regs chain (fun _ => noFault) (withEvents (events_raw db) drifted db)
  = ({| replayed := length log; failed := 0 |},
     withEvents (events_raw db)
       (withBadDebt (bad_debt (market_t drifted) ∪ bad_debt (market_t (tables db))) (tables db)) db).
Proof.
  intros Hd Hp Hrows Hs Hm.
  pose proof (deliver_processed ds emptyDb) as Honce. rewrite Hd in Honce.
  destruct Honce as (Hnd & _ & _).
  pose proof (deliver_project ds emptyDb log db bus Hp Hd) as Hproj.
  assert (Forall (fun e => plain e = true) log) as Hplain by (by eapply deliver_plain).
  assert (forall k r, events_raw db !! k = Some r <-> (k, r) ∈ map archiveRow log) as Harch.
  { intros k r. rewrite list_elem_of_fmap. split.
    - intros Hk. pose proof (Hrows _ _ Hk) as (e & -> & He)%list_elem_of_fmap.
      exists e. split; [|done]. rewrite (deliver_rows _ _ _ _ _ _ Hd He) in Hk. by simplify_eq.
    - intros (e & [= -> ->] & He). by eapply deliver_rows. }
  unfold reindexProjections. rewrite (orderedRows_log _ (map archiveRow log)); [|..].
  - simpl. erewrite (replay_log log _ _ (bad_debt (market_t drifted)) emptyTables (tables db));
      [done| | |exact Hproj].
    + rewrite Forall_forall in *. intros e He. simpl. split; [by apply Hplain|].
      split; [|by eapply deliver_rows]. unfold matches. rewrite topicOf_archived. by apply Hm.
    + simpl. unfold truncateProjections, withBadDebt. by rewrite (right_id_L ∅ (∪)).
  - rewrite <- list_fmap_compose. exact Hnd.
  - done.
  - exact Harch.
Qed.
End rebuild.

Definition ev_badDebt : Event Z := {|
  env := {| ev_id := "0002"; ev_contractId := "CM"; ev_ledger := 7;
            ev_ledgerCloseTs := 1700000000; ev_txHash := "tx" |};
  body := MarketEvent (BadDebtRecorded "GT" "BTC" 30 10 20) |}.

(** All tables lost, bad_debt too: everything is back. *)
Theorem reindex_rebuilds_live_witness :
  let ds := [delivery ev_opened noFault; delivery ev_badDebt noFault] in
  let db := (deliver ds emptyDb).1.2 in
  reindexProjections String.le (registrations contracts_abc) deadChain (fun _ => noFault)
    (withEvents (events_raw db) emptyTables db)
  = ({| replayed := 2; failed := 0 |}, db).
Proof.
  intros ds db.
  rewrite (reindex_rebuilds_live String.le (registrations contracts_abc) deadChain ds
           [ev_opened; ev_badDebt] db (deliver ds emptyDb).2).
  - vm_compute. reflexivity.
  - vm_compute. reflexivity.
  - unfold ds. rewrite !Forall_cons, Forall_nil. vm_compute. done.
  - assert (Forall (fun kv => kv.1 ∈ eventIds [ev_opened; ev_badDebt])
              (map_to_list (events_raw db))) as Hall
      by (apply (bool_decide_unpack _); vm_compute; exact I).
    intros k r Hk%elem_of_map_to_list. rewrite Forall_forall in Hall. exact (Hall _ Hk).
  - constructor; [by repeat constructor|]. constructor; [|constructor].
    right. split; [reflexivity|]. by vm_compute.
  - rewrite !Forall_cons, Forall_nil. vm_compute. done.
Defined.

(** ** Stale bad debt *)

Lemma apply_keeps_badDebt {N} `{BigText N} a t (e : Event N) t' :
  applyEvent a t e = Some t' -> bad_debt (market_t t) ⊆ bad_debt (market_t t').
Proof.
  unfold applyEvent. destruct e as [ev [b|i b|b|b]]; simpl; intros Ha.
  - unfold applyMarket in Ha.
    destruct (maintainPositionsProjection _ _ _) as [ps|]; [|done]. simplify_eq/=.
    destruct b; simpl; try done. apply map_subseteq_spec. intros k x Hx.
    by rewrite lookup_insertNew, Hx.
  - destruct (applyVault _ _ _ _ _); by simplify_eq/=.
  - destruct (applyReferral _ _ _); by simplify_eq/=.
  - destruct (logTyped _ _ _); by simplify_eq/=.
Qed.

Lemma enrich_badDebt {N} chain fault (e : Event N) t :
  bad_debt (market_t (enrich chain fault e t).1) = bad_debt (market_t t).
Proof.
  unfold enrich. destruct (body e) as [b|i b|b|b]; try done.
  - destruct b; try done. by destruct (cleanupCrossLiquidatedPositions _ _ _ _ _).
  - by destruct (_ && _).
Qed.

Lemma handle_keeps_badDebt {N} `{BigText N} chain fault replay (e : Event N) db o db' bus :
  handle chain fault replay e db = (o, db', bus) ->
  bad_debt (market_t (tables db)) ⊆ bad_debt (market_t (tables db')).
Proof.
  intros Hh. pose proof (handle_spec chain fault replay e db) as Hs. rewrite Hh in Hs.
  inversion Hs; subst; simpl; try done.
  - by match goal with Hor : _ \/ _ |- _ => destruct Hor as [-> | ->] end.
  - match goal with He : enrich _ _ _ _ = _ |- _ =>
      apply (f_equal fst) in He; simpl in He; rewrite <- He, enrich_badDebt end.
    by eapply apply_keeps_badDebt.
  - match goal with He : enrich _ _ _ _ = _ |- _ =>
      apply (f_equal fst) in He; simpl in He; rewrite <- He, enrich_badDebt end.
    by eapply apply_keeps_badDebt.
Qed.

Lemma runHandlers_keeps_badDebt {N} `{BigText N} n chain fault replay (e : Event N) : forall db,
  bad_debt (market_t (tables db))
  ⊆ bad_debt (market_t (tables (runHandlers n chain fault replay e db).1.2)).
Proof.
  induction n as [|n IH]; intros db; simpl; [done|].
  destruct (handle _ _ _ _ _) as [[o db1] bus1] eqn:Hh. apply handle_keeps_badDebt in Hh.
  specialize (IH db1). destruct (runHandlers _ _ _ _ _ db1) as [[ok db2] bus2].
  destruct o; simpl in *; by etrans.
Qed.

(** A reindex never removes a bad-debt row. bad_debt is a projection, but
    it is not among the tables the rebuild truncates, and replays only add
    rows: whatever the archive holds and whatever fails, every row that was
    there stays, also one no archived event accounts for. *)
Theorem reindex_keeps_bad_debt idLe `{!RelDecision idLe} regs chain faults db :
  bad_debt (market_t (tables db))
  ⊆ bad_debt (market_t (tables (reindexProjections idLe regs chain faults db).2)).
Proof.
  unfold reindexProjections.
  assert (forall rows s, bad_debt (market_t (tables s.2))
    ⊆ bad_debt (market_t (tables (foldl (replayRow regs chain faults) s rows).2))) as Hf.
  { induction rows as [|row rows IH]; intros s; simpl; [done|]. etrans; [|apply IH].
    unfold replayRow, dispatch.
    pose proof (runHandlers_keeps_badDebt (length (matches regs (reviveEvent row))) chain
                  (faults row.1) true (reviveEvent row) s.2) as Hr.
    by destruct (runHandlers _ _ _ _ _ _) as [[ok db'] bus]. }
  apply (Hf _ (_, withEvents (events_raw db) (truncateProjections (tables db)) db)).
Qed.
