(* ===== verification/IndexerPoller.v ===== *)
(** * Poll loop

    Models indexer/src/cursor.ts and the IndexerPoller of indexer/src/poll.ts:
    one call of [pollOnce] as a function of the database, the RPC pool and the
    failures of that call. Logging, the retention-edge warning (which only
    logs) and the error text and payload of a dead letter are left out. *)

From S2P Require Import Prelude JsText IndexerEvents IndexerRpc IndexerDb IndexerHandlers.
Open Scope Z_scope.
Open Scope js_scope.

(** ** Cursor (cursor.ts) *)

Definition withCursor (c : option PollCursor) (db : Db) : Db := {|
  events_raw := events_raw db; tables := tables db; poll_cursor := c;
  dead_letter := dead_letter db; ledger_gaps := ledger_gaps db |}.

Definition writeCursor (db : Db) (cursor : PollCursor) (expectedLastLedger : option Z)
  : bool * Db :=
  match expectedLastLedger, poll_cursor db with
  | None, None => (true, withCursor (Some cursor) db)
  | None, Some _ => (false, db)
  | Some expected, Some row =>
      if lastLedger row =? expected then (true, withCursor (Some cursor) db) else (false, db)
  | Some _, None => (false, db)
  end.

(** ** One poll *)

Definition HEARTBEAT_EVERY_MS : Z := 30000.

(** What one poll meets: the clock, the ledger probes, which statements
    throw, the handlers' faults per event id, and the cursor another process
    stores between this poll's read of it and its write, if any. *)
Record PollInput := {
  now : Z; latestLedger : option Z; oldestLedger : option Z; chain : Chain;
  read_fails : bool; write_fails : bool; gap_fails : bool;
  dead_letter_fails : string -> bool; faults : string -> Fault; rival : option PollCursor }.

Inductive PollResult := Completed (processed : nat) | PollThrew.

(** The state one poll leaves; [fatal] is the CAS miss that stops the loop.
    [committed] and [closeTs] are what it makes of the health's lastLedger and
    lastEventCloseTs, where it sets them. *)
Record PollOutcome := {
  result : PollResult; db_after : Db; pool_after : RpcPool; fatal : bool;
  emitted : list (BusMsg Z); committed : option Z; closeTs : option Z }.

Definition addDeadLetter (raw : RawEvent) (stage : Stage) (db : Db) : Db := {|
  events_raw := events_raw db; tables := tables db; poll_cursor := poll_cursor db;
  dead_letter := dead_letter db ++
    [{| dl_event_id := raw_id raw; dl_contract_id := raw_contractId raw;
        dl_ledger := raw_ledger raw; dl_stage := stage |}];
  ledger_gaps := ledger_gaps db |}.

(** The running totals of the batch loop. *)
Record Batch := {
  b_processed : nat; b_highestLedger : Z; b_highestCloseTs : option Z; b_db : Db; b_emitted : list (BusMsg Z) }.

Section poll.
Context (cs : Contracts) (inp : PollInput).

(** One iteration; the flag tells whether the loop goes on. *)
Definition processEvent (b : Batch) (raw : RawEvent) : bool * Batch :=
  match decodeFor cs raw with
  | inl _ =>
      if dead_letter_fails inp (raw_id raw) then (false, b)
      else (true, {| b_processed := b_processed b;
                     b_highestLedger := Z.max (b_highestLedger b) (raw_ledger raw);
                     b_highestCloseTs := b_highestCloseTs b;
                     b_db := addDeadLetter raw decode (b_db b); b_emitted := b_emitted b |})
  | inr None => (true, b)
  | inr (Some e) =>
      let '(ok, db, bus) :=
        dispatch (registrations cs) (chain inp) (faults inp (raw_id raw)) false e (b_db b) in
      if ok then
        (true, {| b_processed := S (b_processed b);
                  b_highestLedger := Z.max (b_highestLedger b) (ev_ledger (env e));
                  b_highestCloseTs := Some (Z.max (default 0 (b_highestCloseTs b)) (ev_ledgerCloseTs (env e)));
                  b_db := db; b_emitted := b_emitted b ++ bus |})
      else
        (false, {| b_processed := b_processed b; b_highestLedger := b_highestLedger b;
                   b_highestCloseTs := b_highestCloseTs b;
                   b_db := if dead_letter_fails inp (raw_id raw) then db
                           else addDeadLetter raw apply db;
                   b_emitted := b_emitted b ++ bus |})
  end.

Fixpoint processEvents (b : Batch) (events : list RawEvent) : bool * Batch :=
  match events with
  | [] => (true, b)
  | raw :: events =>
      match processEvent b raw with
      | (true, b) => processEvents b events
      | (false, b) => (false, b)
      end
  end.

(** The database as the write finds it. *)
Definition overtaken (db : Db) : Db := match rival inp with Some c => withCursor (Some c) db | None => db end.

(** The compare-and-swap write; [None] is a statement that throws. *)
Definition commitCursor (db : Db) (next : PollCursor) (expected : option Z)
  : option (bool * Db) :=
  if write_fails inp then None else Some (writeCursor (overtaken db) next expected).

(** The outcome after a commit attempt: a miss sets [fatal]. *)
Definition finish (db : Db) (pool : RpcPool) (processed : nat) (bus : list (BusMsg Z))
    (close : option Z) (commit : option (bool * Db)) : PollOutcome :=
  match commit with
  | None => {| result := PollThrew; db_after := db; pool_after := pool; fatal := false;
               emitted := bus; committed := None; closeTs := None |}
  | Some (ok, db') => {| result := Completed processed; db_after := db'; pool_after := pool;
                         fatal := negb ok; emitted := bus;
                         committed := if ok then lastLedger <$> poll_cursor db' else None;
                         closeTs := if ok then close else None |}
  end.

Definition clampToRetention (db : Db) (pool : RpcPool) (cursor : option PollCursor)
    (startLedger : Z) (parsedOldest : option Z) : PollOutcome :=
  match (match parsedOldest with Some o => Some o | None => oldestLedger inp end) with
  | None => {| result := Completed 0; db_after := db; pool_after := pool; fatal := false;
               emitted := []; committed := None; closeTs := None |}
  | Some oldest =>
      let from := default startLedger (lastLedger <$> cursor) in
      let to := oldest - 1 in
      if (from <=? to) && gap_fails inp then
        {| result := PollThrew; db_after := db; pool_after := pool; fatal := false;
           emitted := []; committed := None; closeTs := None |}
      else
        let db' := if from <=? to
                   then {| events_raw := events_raw db; tables := tables db;
                           poll_cursor := poll_cursor db; dead_letter := dead_letter db;
                           ledger_gaps := ledger_gaps db ++ [(from, to)] |}
                   else db in
        finish db' pool 0 [] None
          (commitCursor db'
             {| lastLedger := oldest; lastPagingToken := None; updatedAt := now inp |}
             (lastLedger <$> cursor))
  end.

Definition coldStartLedger (coldStartLedgers : Z) : option Z :=
  (fun latest => Z.max 1 (latest - coldStartLedgers)) <$> latestLedger inp.

(** After the batch: advance the cursor, or refresh it on a quiet poll. *)
Definition advance (pool : RpcPool) (cursor : option PollCursor) (startLedger : Z)
    (res : GetEventsResponse) (b : Batch) : PollOutcome :=
  let db := b_db b in
  if bool_decide (res_events res ≠ []) || bool_decide (cursor = None) then
    let token := match res_cursor res with
                 | Some c => Some c
                 | None => cursor ≫= lastPagingToken
                 end in
    finish db pool (b_processed b) (b_emitted b) (b_highestCloseTs b)
      (commitCursor db
         {| lastLedger := if b_highestLedger b =? 0 then startLedger else b_highestLedger b;
            lastPagingToken := token; updatedAt := now inp |}
         (lastLedger <$> cursor))
  else
    match cursor with
    | Some c =>
        if HEARTBEAT_EVERY_MS <=? now inp - updatedAt c then
          finish db pool (b_processed b) (b_emitted b) (b_highestCloseTs b)
            (commitCursor db
               {| lastLedger := lastLedger c; lastPagingToken := lastPagingToken c;
                  updatedAt := now inp |} (Some (lastLedger c)))
        else {| result := Completed (b_processed b); db_after := db; pool_after := pool;
                fatal := false; emitted := b_emitted b; committed := None; closeTs := b_highestCloseTs b |}
    | None => {| result := Completed (b_processed b); db_after := db; pool_after := pool;
                 fatal := false; emitted := b_emitted b; committed := None; closeTs := b_highestCloseTs b |}
    end.

Definition threw (db : Db) (pool : RpcPool) (bus : list (BusMsg Z)) : PollOutcome :=
  {| result := PollThrew; db_after := db; pool_after := pool; fatal := false; emitted := bus; committed := None; closeTs := None |}.

Definition pollOnce (coldStartLedgers : Z) (db : Db) (pool : RpcPool) : PollOutcome :=
  if read_fails inp then threw db pool []
  else
    let cursor := poll_cursor db in
    match (match cursor with
           | Some c => Some (lastLedger c) | None => coldStartLedger coldStartLedgers
           end) with
    | None => threw db pool []
    | Some startLedger =>
        let (fetched, pool) :=
          fetchEvents pool (requestOf startLedger (cursor ≫= lastPagingToken)) in
        match fetched with
        | inl err =>
            match parseRetentionError err with
            | None => threw db pool []
            | Some retention => clampToRetention db pool cursor startLedger (ret_oldest retention)
            end
        | inr res =>
            let (ok, b) := processEvents
              {| b_processed := 0; b_highestLedger := default 0 (lastLedger <$> cursor);
                 b_highestCloseTs := None; b_db := db; b_emitted := [] |} (res_events res) in
            if ok then advance pool cursor startLedger res b
            else threw (b_db b) pool (b_emitted b)
        end
    end.
End poll.

(** ** Theorems *)

Definition deadLettered (id : string) (db : Db) : Prop := id ∈ map dl_event_id (dead_letter db).

(** Unrecognised, archived or dead-lettered: nothing is left to do for it. *)
Definition accounted (cs : Contracts) (db : Db) (raw : RawEvent) : Prop :=
  decodeFor cs raw = Ok None \/ deadLettered (raw_id raw) db
  \/ is_Some (events_raw db !! raw_id raw).

(** The archive and the dead letters only grow; cursor and gaps stay. *)
Record grows (db db' : Db) : Prop := {
  g_archive : events_raw db ⊆ events_raw db';
  g_dead : forall id, deadLettered id db -> deadLettered id db';
  g_cursor : poll_cursor db' = poll_cursor db;
  g_gaps : ledger_gaps db' = ledger_gaps db }.

#[export] Instance grows_preorder : PreOrder grows.
Proof.
  split; [by intros db; split | intros a b c [A1 A2 A3 A4] [B1 B2 B3 B4]].
  split; [by etrans | auto | congruence | congruence].
Qed.

Lemma grows_accounted cs db db' raw : grows db db' -> accounted cs db raw -> accounted cs db' raw.
Proof.
  intros [Ga Gd _ _] [?|[?|[r Hr]]]; [by left | right; left; auto | right; right].
  exists r. by eapply lookup_weaken.
Qed.

Lemma handle_grows chain fault (e : Event Z) db o db' bus :
  handle chain fault false e db = (o, db', bus) ->
  grows db db' /\ (o ≠ Threw -> is_Some (events_raw db' !! ev_id (env e))).
Proof.
  intros Hh. assert (events_raw db ⊆ events_raw db') as Hsub.
  { apply map_subseteq_spec. intros k r. by eapply (handle_archive_grows (N:=Z)). }
  pose proof (handle_spec (N:=Z) chain fault false e db) as Hs. rewrite Hh in Hs.
  inversion Hs; subst; simpl in *.
  - by split.
  - split; [|done]. match goal with Hor : _ \/ _ |- _ => destruct Hor as [-> | ->] end; by split.
  - by split; [split|].
  - split; [by split|]. intros _. rewrite lookup_insertNew.
    destruct (events_raw db !! _); rewrite ?decide_True by done; eauto.
Qed.

Lemma dispatch_grows regs chain fault (e : Event Z) db ok db' bus :
  dispatch regs chain fault false e db = (ok, db', bus) ->
  grows db db' /\ (length (matches regs e) = 1%nat -> ok = true ->
                   is_Some (events_raw db' !! ev_id (env e))).
Proof.
  unfold dispatch. intros Hd. split.
  - revert db ok db' bus Hd. induction (length (matches regs e)) as [|n IH];
      intros db ok db' bus Hd; simpl in Hd; [by simplify_eq|].
    destruct (handle _ _ _ _ _) as [[o db1] bus1] eqn:Hh. apply handle_grows in Hh as [Hg _].
    destruct o; [| |by simplify_eq];
      destruct (runHandlers _ _ _ _ _ db1) as [[ok2 db2] bus2] eqn:Hr; simplify_eq;
      (etrans; [exact Hg | by eapply IH]).
  - intros Hm Hok. rewrite Hm in Hd. simpl in Hd.
    destruct (handle _ _ _ _ _) as [[o db1] bus1] eqn:Hh. apply handle_grows in Hh as [_ Hi].
    destruct o; simplify_eq/=; auto.
Qed.

Lemma addDeadLetter_grows raw stage db :
  grows db (addDeadLetter raw stage db) /\ deadLettered (raw_id raw) (addDeadLetter raw stage db).
Proof.
  split; [split; simpl; try done|].
  - intros id. unfold deadLettered. simpl. rewrite map_app, elem_of_app. auto.
  - unfold deadLettered. simpl. rewrite map_app, elem_of_app. right. by left.
Qed.

Lemma decodeFor_env cs raw e : decodeFor cs raw = Ok (Some e) -> env e = envelope raw.
Proof.
  unfold decodeFor. intros H. repeat case_bool_decide;
    [apply decodeVaultEvent_inv in H | apply decodeReferralEvent_inv in H
    |apply decodeLpVaultEvent_inv in H | apply decodeMarketEvent_inv in H]; tauto.
Qed.

(** The RPC filter returns events of the configured contracts only. *)
Definition fromContracts (cs : Contracts) (events : list RawEvent) : Prop :=
  Forall (fun raw => Some (raw_contractId raw) ∈ configured cs) events.

Section poll_facts.
Context (cs : Contracts) (Hcs : distinctContracts cs) (inp : PollInput).

Lemma processEvent_grows b raw ok b' :
  processEvent cs inp b raw = (ok, b') ->
  Some (raw_contractId raw) ∈ configured cs ->
  grows (b_db b) (b_db b') /\ b_highestLedger b <= b_highestLedger b'
  /\ (ok = true -> accounted cs (b_db b') raw).
Proof.
  unfold processEvent. intros Hp Hc. destruct (decodeFor cs raw) as [err|[e|]] eqn:Hd.
  - destruct (dead_letter_fails inp (raw_id raw)); simplify_eq; simpl; [by split; [|split; [lia|]]|].
    destruct (addDeadLetter_grows raw decode (b_db b)) as [Hg Hl].
    split; [done|]. split; [lia|]. intros _. right. by left.
  - destruct (dispatch _ _ _ _ _ _) as [[ok1 db1] bus1] eqn:Hds.
    apply dispatch_grows in Hds as [Hg Hin].
    destruct ok1; simplify_eq; simpl; (split; [|split; [lia|]]); try done.
    + intros _. right. right. pose proof (decodeFor_env _ _ _ Hd) as He.
      rewrite He in Hin. apply Hin; [|done]. by rewrite (decoded_matches cs raw e).
    + destruct (dead_letter_fails inp (raw_id raw)); [done|].
      etrans; [exact Hg|apply addDeadLetter_grows].
  - simplify_eq. split; [done|]. split; [lia|]. intros _. by left.
Qed.

Lemma processEvents_grows events : forall b ok b',
  processEvents cs inp b events = (ok, b') -> fromContracts cs events ->
  grows (b_db b) (b_db b') /\ b_highestLedger b <= b_highestLedger b'
  /\ (ok = true -> Forall (accounted cs (b_db b')) events).
Proof.
  induction events as [|raw events IH]; simpl; intros b ok b' Hp Hf.
  - simplify_eq. split; [done|]. split; [lia|]. constructor.
  - inversion Hf as [|? ? Hc Hf']; subst.
    destruct (processEvent cs inp b raw) as [ok1 b1] eqn:H1.
    apply processEvent_grows in H1 as (Hg1 & Hl1 & Ha1); [|done].
    destruct ok1; [|simplify_eq; by split; [|split]].
    apply IH in Hp as (Hg & Hl & Ha); [|done].
    split; [by etrans|]. split; [lia|]. intros Hok. constructor; [|auto].
    eapply grows_accounted; [exact Hg|auto].
Qed.

(** The RPC's event is one the decoders recognise, or fail on. *)
Definition known (raw : RawEvent) : Prop := decodeFor cs raw ≠ Ok None.

(** [top] is the highest ledger of [from] and of the known events. *)
Definition highestOf (from : Z) (events : list RawEvent) (top : Z) : Prop :=
  (forall raw, raw ∈ events -> known raw -> raw_ledger raw <= top)
  /\ (top = from \/ exists raw, raw ∈ events /\ known raw /\ top = raw_ledger raw) /\ from <= top.

Lemma processEvent_highest b raw b' :
  processEvent cs inp b raw = (true, b') -> highestOf (b_highestLedger b) [raw] (b_highestLedger b').
Proof.
  unfold processEvent, highestOf. intros Hp.
  assert (forall x, x ∈ [raw] -> x = raw) as H1 by (intros x Hx; by apply list_elem_of_singleton in Hx).
  destruct (decodeFor cs raw) as [err|[e|]] eqn:Hd.
  - destruct (dead_letter_fails inp (raw_id raw)); [done|]. simplify_eq. cbn [b_highestLedger].
    split; [intros x Hx _; rewrite (H1 x Hx); lia|]. split; [|lia].
    destruct (Z.max_spec (b_highestLedger b) (raw_ledger raw)) as [[? ->]|[? ->]]; [right|by left].
    exists raw. unfold known. rewrite Hd. split; [by left|done].
  - destruct (dispatch _ _ _ _ _ _) as [[ok1 db1] bus1]. destruct ok1; [|done]. simplify_eq. cbn [b_highestLedger].
    rewrite (decodeFor_env _ _ _ Hd). cbn [ev_ledger envelope].
    split; [intros x Hx _; rewrite (H1 x Hx); lia|]. split; [|lia].
    destruct (Z.max_spec (b_highestLedger b) (raw_ledger raw)) as [[? ->]|[? ->]]; [right|by left].
    exists raw. unfold known. rewrite Hd. split; [by left|done].
  - simplify_eq. split; [|split; [by left|lia]]. intros x Hx Hk. rewrite (H1 x Hx) in Hk. by destruct (Hk Hd).
Qed.

Lemma processEvents_highest events : forall b b',
  processEvents cs inp b events = (true, b') -> highestOf (b_highestLedger b) events (b_highestLedger b').
Proof.
  induction events as [|raw events IH]; cbn; intros b b' Hp.
  - simplify_eq. split; [|split; [by left|lia]]. intros raw Hr. by apply elem_of_nil in Hr.
  - destruct (processEvent cs inp b raw) as [[] b1] eqn:H1; [|done].
    apply processEvent_highest in H1 as (Ha1 & Ho1 & Hl1). apply IH in Hp as (Ha & Ho & Hl). split; [|split; [|lia]].
    + intros x [->|Hx]%elem_of_cons Hk; [|by apply Ha]. pose proof (Ha1 raw (list_elem_of_here _ _) Hk). lia.
    + destruct Ho as [->|(x & Hx & Hk & ->)]; [|right; exists x; split; [by right|done]].
      destruct Ho1 as [->|(x & Hx & Hk & ->)]; [by left|]. right. exists x. apply list_elem_of_singleton in Hx as ->.
      split; [by left|done].
Qed.
End poll_facts.

(** What a commit attempt leaves: only the cursor may change. *)
Lemma finish_db inp db pool n bus close next expected :
  let o := finish db pool n bus close (commitCursor inp db next expected) in
  db_after o = db \/ db_after o = withCursor (Some next) db
  \/ exists c, rival inp = Some c /\ db_after o = withCursor (Some c) db.
Proof.
  unfold finish, commitCursor, writeCursor, overtaken. destruct (write_fails inp); [by left|].
  destruct (rival inp) as [c|]; cbn [poll_cursor withCursor].
  - destruct expected as [x|]; [|right; right; by exists c]. destruct (lastLedger c =? x); right; [by left|right; by exists c].
  - destruct expected, (poll_cursor db); simpl; try (by left); try (by right; left).
    destruct (lastLedger _ =? _); [by right; left | by left].
Qed.

Lemma accounted_withCursor cs c db raw : accounted cs (withCursor c db) raw <-> accounted cs db raw.
Proof. done. Qed.

(** What a batch makes of the cursor: the next one, and whose ledger and
    paging token it carries. *)
Definition nextAfter (cursor : option PollCursor) (start : Z) (res : GetEventsResponse) (top : Z) (next : PollCursor) : Prop :=
  (res_events res ≠ [] \/ cursor = None) /\ lastLedger next = (if top =? 0 then start else top)
    /\ lastPagingToken next = match res_cursor res with Some t => Some t | None => cursor ≫= lastPagingToken end
  \/ res_events res = [] /\ exists c, cursor = Some c /\ lastLedger next = lastLedger c /\ lastPagingToken next = lastPagingToken c.

Lemma advance_db inp pool cursor start res b :
  let o := advance inp pool cursor start res b in
  db_after o = b_db b
  \/ (exists next, db_after o = withCursor (Some next) (b_db b) /\ nextAfter cursor start res (b_highestLedger b) next)
  \/ exists c, rival inp = Some c /\ db_after o = withCursor (Some c) (b_db b).
Proof.
  simpl. unfold advance, nextAfter. destruct (_ || _) eqn:Hb.
  - match goal with |- context [finish ?d ?p ?n ?bus ?cl (commitCursor _ _ ?nx ?ex)] =>
      destruct (finish_db inp d p n bus cl nx ex) as [H|[H|H]] end; [by left | right; left | by right; right].
    eexists. split; [exact H|]. left. split; [|done].
    apply orb_true_iff in Hb as [Hb|Hb]; apply bool_decide_eq_true in Hb; auto.
  - apply orb_false_iff in Hb as [Hb _]. apply bool_decide_eq_false, dec_stable in Hb.
    destruct cursor as [c|]; [|by left]. destruct (_ <=? _); [|by left].
    match goal with |- context [finish ?d ?p ?n ?bus ?cl (commitCursor _ _ ?nx ?ex)] =>
      destruct (finish_db inp d p n bus cl nx ex) as [H|[H|H]] end; [by left | right; left | by right; right].
    eexists. split; [exact H|]. right. split; [done|]. by exists c.
Qed.

Lemma clamp_db inp db pool cursor start parsed :
  let o := clampToRetention inp db pool cursor start parsed in
  poll_cursor (db_after o) = poll_cursor db
  \/ (exists next, poll_cursor (db_after o) = Some next
     /\ Some (lastLedger next) = (match parsed with Some o => Some o | None => oldestLedger inp end)
     /\ lastPagingToken next = None
     /\ (default start (lastLedger <$> cursor) < lastLedger next ->
         (default start (lastLedger <$> cursor), lastLedger next - 1) ∈ ledger_gaps (db_after o)))
  \/ exists c, rival inp = Some c /\ poll_cursor (db_after o) = Some c.
Proof.
  simpl. unfold clampToRetention. destruct (match parsed with Some o => Some o | None => _ end) as [oldest|];
    [|by left].
  set (from := default start _). destruct (Z.leb_spec from (oldest - 1)) as [Hle|Hgt]; simpl.
  - destruct (gap_fails inp); [by left|].
    match goal with |- context [finish ?d ?p ?n ?bus ?cl (commitCursor _ _ ?nx ?ex)] =>
      destruct (finish_db inp d p n bus cl nx ex) as [->|[->|(c & Hc & ->)]] end; [by left | right; left | right; right; by exists c].
    eexists. split; [reflexivity|]. do 2 (split; [done|]). simpl. intros _. apply elem_of_app. right. by left.
  - match goal with |- context [finish ?d ?p ?n ?bus ?cl (commitCursor _ _ ?nx ?ex)] =>
      destruct (finish_db inp d p n bus cl nx ex) as [->|[->|(c & Hc & ->)]] end; [by left | right; left | right; right; by exists c].
    eexists. split; [reflexivity|]. do 2 (split; [done|]). simpl. lia.
Qed.

Lemma nextAfter_reach cs cursor start res top next :
  highestOf cs (default 0 (lastLedger <$> cursor)) (res_events res) top ->
  (forall c, cursor = Some c -> lastLedger c = start) ->
  nextAfter cursor start res top next ->
  (forall raw, raw ∈ res_events res -> known cs raw -> 0 < raw_ledger raw -> raw_ledger raw <= lastLedger next)
  /\ (lastLedger next = start \/ exists raw, raw ∈ res_events res /\ lastLedger next = raw_ledger raw)
  /\ (forall c, cursor = Some c -> lastLedger c <= lastLedger next)
  /\ lastPagingToken next = (if bool_decide (res_events res = [] /\ is_Some cursor) then cursor ≫= lastPagingToken
                             else match res_cursor res with Some t => Some t | None => cursor ≫= lastPagingToken end).
Proof.
  intros (Htop & Hor & Hle) Hs [(Hnew & Hn & Ht)|(He & c & -> & Hn & Ht)].
  - rewrite Hn, Ht. split; [|split; [|split]].
    + intros raw Hr Hk H0. specialize (Htop raw Hr Hk). destruct (Z.eqb_spec top 0); lia.
    + destruct (Z.eqb_spec top 0); [by left|]. destruct Hor as [->|(raw & Hr & _ & ->)]; [|right; by exists raw].
      destruct cursor as [c|]; cbn in *; [left; auto|done].
    + intros c ->. cbn in Hle. rewrite <- (Hs c eq_refl). destruct (top =? 0); lia.
    + rewrite bool_decide_eq_false_2; [done|]. intros [H [c ->]]. by destruct Hnew.
  - rewrite He. split; [intros raw Hr; by apply elem_of_nil in Hr|]. split; [left; rewrite Hn; auto|].
    split; [intros c' [= ->]; lia|]. rewrite bool_decide_eq_true_2 by eauto. done.
Qed.

(** C2. The cursor never moves past an event that was not dealt with. Say the
    poll asks the RPC for what follows [start] or the stored paging token. When
    it changes the stored cursor (and it is not another process's write that
    stands), either it was a batch whose every event is by then archived,
    dead-lettered or of an unknown kind: then the new ledger is not beyond the
    batch (it is [start] or the ledger of one of its events), not before any of
    its recognised events, not before the old one, and the paging token is the RPC's for the
    end of that batch, while an empty batch moves neither. Or it was a clamp: then
    the new ledger is the RPC's oldest retained one, the token is dropped, and
    the ledgers skipped over are recorded as a gap. *)
Theorem cursor_never_skips cs inp cold db pool start :
  distinctContracts cs ->
  (forall r res, (fetchEvents pool r).1 = inr res -> fromContracts cs (res_events res)) ->
  let cursor := poll_cursor db in
  match cursor with Some c => Some (lastLedger c) | None => coldStartLedger inp cold end = Some start ->
  let fetched := (fetchEvents pool (requestOf start (cursor ≫= lastPagingToken))).1 in
  let db' := db_after (pollOnce cs inp cold db pool) in
  poll_cursor db' ≠ cursor -> (forall c, rival inp = Some c -> poll_cursor db' ≠ Some c) ->
  exists c', poll_cursor db' = Some c'
  /\ ((exists res, fetched = inr res
        /\ Forall (accounted cs db') (res_events res)
        /\ (forall raw, raw ∈ res_events res -> known cs raw -> 0 < raw_ledger raw -> raw_ledger raw <= lastLedger c')
        /\ (lastLedger c' = start \/ exists raw, raw ∈ res_events res /\ lastLedger c' = raw_ledger raw)
        /\ (forall c, cursor = Some c -> lastLedger c <= lastLedger c')
        /\ lastPagingToken c' = (if bool_decide (res_events res = [] /\ is_Some cursor) then cursor ≫= lastPagingToken
                                 else match res_cursor res with Some t => Some t | None => cursor ≫= lastPagingToken end))
      \/ (exists err ret, fetched = inl err /\ parseRetentionError err = Some ret
        /\ Some (lastLedger c') = (match ret_oldest ret with Some o => Some o | None => oldestLedger inp end)
        /\ lastPagingToken c' = None
        /\ (start < lastLedger c' -> (start, lastLedger c' - 1) ∈ ledger_gaps db'))).
Proof.
  intros Hcs Hfrom cursor Hstart fetched db' Hne Hrival. unfold db', fetched, pollOnce in *. clear db' fetched. revert Hstart Hne Hrival.
  assert (poll_cursor db = cursor) as Hcur by done. fold cursor. clearbody cursor. intros Hstart Hne Hrival.
  destruct (read_fails inp); [done|]. rewrite Hstart in Hne, Hrival |- *.
  assert (default start (lastLedger <$> cursor) = start) as Hd by (destruct cursor as [c|]; cbn in *; congruence).
  specialize (Hfrom (requestOf start (cursor ≫= lastPagingToken))).
  destruct (fetchEvents _ _) as [[err|res] pool'] eqn:Hf; cbn [fst] in *.
  - destruct (parseRetentionError err) as [ret|] eqn:Hret; [|done].
    destruct (clamp_db inp db pool' cursor start (ret_oldest ret)) as [|[(c' & Hc' & Ho & Ht & Hgap)|(c & Hc & Hc')]];
      [by destruct Hne; etrans; [eassumption|]| |by destruct (Hrival c Hc)].
    exists c'. split; [done|]. right. exists err, ret. rewrite Hd in Hgap. done.
  - destruct (processEvents _ _ _ _) as [ok b] eqn:Hb. pose proof Hb as Hb2.
    apply processEvents_grows in Hb as (Hg & Hl & Ha); [|done|by apply Hfrom].
    simpl in Hg, Hl. destruct ok; [|simpl in Hne; by destruct Hne; etrans; [apply Hg|]].
    apply processEvents_highest in Hb2 as (Htop & Hor & _). cbn [b_highestLedger] in Htop, Hor.
    destruct (advance_db inp pool' cursor start res b) as [H|[(next & H & Hnext)|(c & Hc & H)]];
      rewrite H in *; [by destruct Hne; etrans; [apply Hg|]| |by destruct (Hrival c Hc)].
    exists next. split; [done|]. left. exists res. split; [done|]. split; [by apply Ha|].
    apply (nextAfter_reach cs cursor start res (b_highestLedger b) next); [by split|by intros c Hc; rewrite Hc in Hstart; simplify_eq|done].
Qed.

(** *** Progress past poison events *)

(** The infrastructure works; handlers may still throw on an event itself. *)
Definition infraOk (inp : PollInput) : Prop :=
  forall id, dead_letter_fails inp id = false
  /\ begin_fails (faults inp id) = false /\ insert_fails (faults inp id) = false
  /\ fallback_fails (faults inp id) = false /\ enrich_fails (faults inp id) = None.

(** The events of a batch that are not in the archive yet. *)
Definition unarchived (db : Db) (events : list RawEvent) : nat :=
  length (bfilter (fun raw => bool_decide (events_raw db !! raw_id raw = None)) events).

Definition startBatch (db : Db) : Batch := {|
  b_processed := 0; b_highestLedger := default 0 (lastLedger <$> poll_cursor db);
  b_highestCloseTs := None; b_db := db; b_emitted := [] |}.

(** Successive polls of one batch until it goes through, at most [n] failures. *)
Fixpoint retryBatch (cs : Contracts) (inp : PollInput) (n : nat) (db : Db)
    (events : list RawEvent) : option Batch :=
  match processEvents cs inp (startBatch db) events with
  | (true, b) => Some b
  | (false, b) => match n with O => None | S n => retryBatch cs inp n (b_db b) events end
  end.

Lemma enrich_ok {N} chain fault (e : Event N) t :
  enrich_fails fault = None -> (enrich chain fault e t).2 = true.
Proof.
  intros Hf. unfold enrich. destruct (body e) as [b|i b|b|b]; try done.
  - destruct b; try done. by rewrite Hf.
  - by destruct (_ && _).
Qed.

Lemma handle_threw chain fault (e : Event Z) db db' bus :
  begin_fails fault = false -> insert_fails fault = false ->
  fallback_fails fault = false -> enrich_fails fault = None ->
  handle chain fault false e db = (Threw, db', bus) ->
  events_raw db !! ev_id (env e) = None /\ is_Some (events_raw db' !! ev_id (env e)).
Proof.
  intros Hb Hi Hf He. unfold handle, insertEvent. rewrite Hb, Hi, Hf.
  case_bool_decide as Hfresh; simpl; [|done].
  assert (is_Some (insertNew (ev_id (env e)) (rawRow e) (events_raw db) !! ev_id (env e))) as Hin
    by (rewrite insertNew_fresh, lookup_insert_eq by done; eauto).
  destruct (apply_fails fault); [by intros [= <- <-]|].
  destruct (applyEvent _ _ _) as [t|]; [|by intros [= <- <-]].
  pose proof (enrich_ok chain fault e t He) as Hok. destruct (enrich _ _ _ _) as [t' ok].
  simpl in Hok. by subst.
Qed.

Section progress.
Context (cs : Contracts) (Hcs : distinctContracts cs) (inp : PollInput) (Hinfra : infraOk inp).

Lemma processEvent_threw b raw b' :
  Some (raw_contractId raw) ∈ configured cs -> processEvent cs inp b raw = (false, b') ->
  events_raw (b_db b) !! raw_id raw = None /\ is_Some (events_raw (b_db b') !! raw_id raw).
Proof.
  intros Hc. destruct (Hinfra (raw_id raw)) as (Hdl & Hb & Hi & Hf & He).
  unfold processEvent. rewrite Hdl. destruct (decodeFor cs raw) as [err|[e|]] eqn:Hd; try done.
  pose proof (decodeFor_env _ _ _ Hd) as Henv. unfold dispatch.
  rewrite (decoded_matches cs raw e Hcs Hc Hd). simpl.
  destruct (handle _ _ _ _ _) as [[o db1] bus1] eqn:Hh. destruct o; try done.
  apply handle_threw in Hh; try done. rewrite Henv in Hh. by intros [= <-].
Qed.

Lemma processEvents_threw events : forall b b',
  fromContracts cs events -> processEvents cs inp b events = (false, b') ->
  exists raw, raw ∈ events /\ events_raw (b_db b) !! raw_id raw = None
              /\ is_Some (events_raw (b_db b') !! raw_id raw).
Proof.
  induction events as [|raw events IH]; simpl; intros b b' Hf Hp; [done|].
  inversion Hf as [|? ? Hc Hf']; subst.
  destruct (processEvent cs inp b raw) as [ok b1] eqn:H1. destruct ok.
  - destruct (IH _ _ Hf' Hp) as (x & Hx & Hn & Hs). exists x. split; [by right|]. split; [|done].
    apply (processEvent_grows cs Hcs) in H1 as (Hg & _); [|done].
    destruct (events_raw (b_db b) !! raw_id x) as [r|] eqn:Hr; [|done].
    by rewrite (lookup_weaken _ _ _ _ Hr (g_archive _ _ Hg)) in Hn.
  - simplify_eq. exists raw. split; [by left|]. by apply processEvent_threw.
Qed.

Lemma processEvents_progress events b b' :
  fromContracts cs events -> processEvents cs inp b events = (false, b') ->
  (unarchived (b_db b') events < unarchived (b_db b) events)%nat.
Proof.
  intros Hf Hp. pose proof (processEvents_grows cs Hcs inp _ _ _ _ Hp Hf) as (Hg & _).
  destruct (processEvents_threw _ _ _ Hf Hp) as (x & Hx & Hn & Hs).
  unfold unarchived. apply (length_bfilter_lt _ _ _ x); [|done|by case_bool_decide|].
  - intros y Hy. apply bool_decide_eq_true in Hy. apply bool_decide_eq_true.
    destruct (events_raw (b_db b) !! raw_id y) as [r|] eqn:Hr; [|done].
    by rewrite (lookup_weaken _ _ _ _ Hr (g_archive _ _ Hg)) in Hy.
  - case_bool_decide as Hb; [|done]. rewrite Hb in Hs. by destruct Hs.
Qed.

Lemma retryBatch_enough events : fromContracts cs events ->
  forall n db, (unarchived db events <= n)%nat -> is_Some (retryBatch cs inp n db events).
Proof.
  intros Hf n. induction n as [|n IH]; intros db Hn; simpl;
    destruct (processEvents cs inp (startBatch db) events) as [ok b] eqn:Hp;
    (destruct ok; [eauto|]); apply processEvents_progress in Hp; simpl in Hp; try done; [lia|].
  apply IH. lia.
Qed.
End progress.

(** A poison event cannot wedge the poller. While the database answers,
    polling a batch again goes through after at most as many failed polls as
    the batch has events, however many of its events make their handler throw
    every time: each failure archives its event, and the next poll skips it. *)
Theorem poison_events_pass cs inp events db :
  distinctContracts cs -> infraOk inp -> fromContracts cs events ->
  exists b, retryBatch cs inp (length events) db events = Some b
            /\ Forall (accounted cs (b_db b)) events.
Proof.
  intros Hcs Hinfra Hf.
  destruct (retryBatch_enough cs Hcs inp Hinfra events Hf (length events) db) as [b Hb];
    [apply length_bfilter_le|].
  exists b. split; [done|]. revert db Hb. induction (length events) as [|n IH]; intros db Hb;
    simpl in Hb; destruct (processEvents _ _ _ _) as [ok b1] eqn:Hp; destruct ok; simplify_eq;
    try (by apply (processEvents_grows cs Hcs) in Hp as (_ & _ & Ha); [apply Ha|]).
  by eapply IH.
Qed.

(** The handler of ev_opened throws, whatever is tried. *)
Definition poisonInput : PollInput := {|
  now := 1; latestLedger := Some 500; oldestLedger := None; chain := deadChain;
  read_fails := false; write_fails := false; gap_fails := false;
  dead_letter_fails := fun _ => false;
  faults := fun _ => {| begin_fails := false; insert_fails := false; apply_fails := true;
                        fallback_fails := false; enrich_fails := None |}; rival := None |}.

Lemma distinct_abc : distinctContracts contracts_abc.
Proof. apply (bool_decide_unpack _). by vm_compute. Qed.

Theorem poison_events_pass_witness :
  exists b, retryBatch contracts_abc poisonInput 1 emptyDb [raw_opened] = Some b
            /\ Forall (accounted contracts_abc (b_db b)) [raw_opened].
Proof.
  apply (poison_events_pass contracts_abc poisonInput [raw_opened] emptyDb distinct_abc).
  - intros id. repeat split.
  - constructor; [by left | constructor].
Defined.

Definition livePool (events : list RawEvent) : RpcPool := {|
  servers := [fun _ _ => inr {| res_events := events; res_cursor := Some "next" |}];
  index := 0 |}.

Definition cleanInput : PollInput := {|
  now := 1; latestLedger := Some 500; oldestLedger := None; chain := deadChain;
  read_fails := false; write_fails := false; gap_fails := false;
  dead_letter_fails := fun _ => false; faults := fun _ => noFault; rival := None |}.

Theorem cursor_never_skips_witness :
  exists c', poll_cursor (db_after (pollOnce contracts_abc cleanInput 100 emptyDb (livePool [raw_opened]))) = Some c'
  /\ lastPagingToken c' = Some "next"%string
  /\ (lastLedger c' = 400 \/ exists raw, raw ∈ [raw_opened] /\ lastLedger c' = raw_ledger raw).
Proof.
  destruct (cursor_never_skips contracts_abc cleanInput 100 emptyDb (livePool [raw_opened]) 400 distinct_abc)
    as (c' & Hc' & [(res & [= <-] & _ & _ & Hl & _ & Ht)|(err & ret & Hf & _)]).
  - intros r res [= <-]. constructor; [by left | constructor].
  - reflexivity.
  - vm_compute. discriminate.
  - intros c [=].
  - by exists c'.
  - discriminate Hf.
Defined.

(** *** The compare-and-swap *)

(** The cursor compare-and-swap has one winner when it moves: of two
    pollers that read the same ledger, once the first has committed a
    different ledger the second's commit misses and leaves the cursor as the
    first wrote it. *)
Theorem cas_single_winner db next1 next2 expected db1 :
  writeCursor db next1 expected = (true, db1) ->
  expected ≠ Some (lastLedger next1) ->
  writeCursor db1 next2 expected = (false, db1) /\ poll_cursor db1 = Some next1.
Proof.
  unfold writeCursor. intros H Hne.
  assert (poll_cursor db1 = Some next1) as Hc.
  { destruct expected, (poll_cursor db); try discriminate H;
      [destruct (lastLedger _ =? _)|]; by simplify_eq/=. }
  split; [|done]. rewrite Hc. destruct expected as [x|]; [|done].
  destruct (Z.eqb_spec (lastLedger next1) x); [congruence|done].
Qed.

Definition cursorAt (ledger : Z) : PollCursor :=
  {| lastLedger := ledger; lastPagingToken := None; updatedAt := 0 |}.

Theorem cas_single_winner_witness :
  let db1 := withCursor (Some (cursorAt 12)) emptyDb in
  writeCursor db1 (cursorAt 13) (Some 10) = (false, db1) /\ poll_cursor db1 = Some (cursorAt 12).
Proof.
  apply (cas_single_winner (withCursor (Some (cursorAt 10)) emptyDb)); [reflexivity | by vm_compute].
Defined.

(** The compare-and-swap only compares ledgers: when the first poller's
    batch stays within the cursor's ledger, the second one's commit goes
    through too and overwrites the first one's paging token, so both keep
    running. (Exactly-once application does not rest on the compare-and-swap
    but on the archive's duplicate guard.) *)
Theorem cas_same_ledger_both_win db c next1 next2 :
  poll_cursor db = Some c -> lastLedger next1 = lastLedger c ->
  exists db1 db2, writeCursor db next1 (Some (lastLedger c)) = (true, db1)
    /\ writeCursor db1 next2 (Some (lastLedger c)) = (true, db2)
    /\ poll_cursor db2 = Some next2.
Proof.
  intros Hc Hn. unfold writeCursor. rewrite Hc, Z.eqb_refl. do 2 eexists.
  split; [reflexivity|]. simpl. rewrite Hn, Z.eqb_refl. done.
Qed.

Theorem cas_same_ledger_both_win_witness :
  exists db1 db2,
    writeCursor (withCursor (Some (cursorAt 10)) emptyDb) (cursorAt 10) (Some 10) = (true, db1)
    /\ writeCursor db1 (cursorAt 11) (Some 10) = (true, db2)
    /\ poll_cursor db2 = Some (cursorAt 11).
Proof.
  apply (cas_same_ledger_both_win (withCursor (Some (cursorAt 10)) emptyDb) (cursorAt 10)); reflexivity.
Defined.

Definition laggingPool : RpcPool := {|
  servers := [fun _ _ => inl (PlainObject (Some
    "startLedger must be within the ledger range: 100 - 400"))]; index := 0 |}.

(** The clamp follows the range the RPC reports even when that range lies
    below the cursor: a lagging node moves the stored cursor back (here from
    500 to 100) and no gap is recorded. *)
Theorem clamp_can_move_back :
  let db := withCursor (Some (cursorAt 500)) emptyDb in
  let o := pollOnce contracts_abc cleanInput 100 db laggingPool in
  result o = Completed 0 /\ ledger_gaps (db_after o) = []
  /\ lastLedger <$> poll_cursor (db_after o) = Some 100.
Proof. by vm_compute. Qed.
