(* ===== verification/KeeperEffects.v ===== *)
(** * The keeper's effects

    A keeper phase is a program over the bot's memory that talks to the chain,
    the price service and the alert channel. [K A] is such a program: from
    the memory and the actions performed so far it gives a result or an
    exception, the new memory and the actions it performs, in order. The
    answers come from [World], one function per kind of answer, which may
    depend on the whole history, so any behaviour of the outside is covered,
    moving clocks and failing reads included. Console output is left out, and
    with it the throttling of log lines. *)

From Stdlib Require Import SpecFloat.
From S2P Require Import Prelude JsText Health.
Open Scope Z_scope.
Open Scope js_scope.

(** ** Data of scripts/keeper/src/types.ts *)

Inductive OrderType := LimitEntry | StopLoss | TakeProfit | StopLimit | TrailingStop.
Inductive OrderStatus := Pending | Executed | Cancelled | CancelledSlippage | Expired.

#[export] Instance OrderType_eq_dec : EqDecision OrderType.
Proof. solve_decision. Defined.
#[export] Instance OrderStatus_eq_dec : EqDecision OrderStatus.
Proof. solve_decision. Defined.

(** The fields of an order the phases read. *)
Record Order := {
  o_id : Z; o_asset : string; order_type : OrderType; o_collateral : Z; status : OrderStatus }.

Record CycleSnapshot := { s_positions : list Position; s_orders : list Order }.

Record ExecutionResult := {
  success : bool; indeterminate : bool; reward : option Z; error : option string }.

(** [retval] is kept as the boolean it is compared with, when it is one. *)
Inductive SimulationOutcome := SimOk (retval : option bool) | SimRejected (error : string).

(** One signed price of a round. [att_price] is the signed 7-decimal integer,
    [price_human] the service's human-readable number. *)
Record Attestation := {
  att_asset : string; att_price : Z; round_id : Z; timestamp : Z; publisher : string;
  price_human : number }.

Inductive AlertLevel := info | warn | critical.

(** ** Actions *)

Inductive Action :=
| Now
| FetchNoeracle
| GetReferencePrice (symbol : string)
| GetStorkPrice (symbol : string)
| UpdateNoeracleBatch (batch : list Attestation)
| SyncAssetPnl (symbol : string)
| GetAllPositionIds
| GetAllOrderIds
| DiscoverChain (checksum : option (list Z * list Z))
| GetPosition (id : Z)
| GetOrder (id : Z)
| GetAssetRiskMmBps (asset : string)
| GetCrossMarginBalance (trader : string)
| GetUsdcBalance
| GetVaultCoverage
| GetXlmBalance
| GetOrderVault (orderId : Z)
| IsAdlActive (asset : string)
| SimulateLiquidate (id : Z)
| SimulateExecuteOrder (id : Z)
| SimulateRouterExecute (id : Z) (asset : string)
| SimulateUpdateTrailingPeak (id : Z)
| SimulateCheckAdlTrigger (asset : string)
| Liquidate (id : Z)
| LiquidateViaRouter (id : Z) (asset : string)
| LiquidateCrossAccount (trader : string)
| LiquidateCrossViaRouter (trader : string) (assets : list string)
| ExecuteOrder (id : Z)
| ExecuteOrderViaRouter (id : Z) (asset : string)
| ReconcileOrder (vaultId orderId : Z)
| UpdateTrailingPeak (id : Z)
| CheckAdlTrigger (asset : string)
| AdlClose (id : Z)
| AdlCloseViaRouter (id : Z) (asset : string)
| ApplyFunding
| BumpContractTtl (id : string)
| SaveState (force : bool)
| SendHeartbeat (pushed : list string)
| SendAlert (level : AlertLevel) (title : string).

(** What the outside answers to an action, given what was done before it;
    [Err] is an exception with its message. *)
Class World := {
  w_now : list Action -> Z;
  w_sim : list Action -> Action -> Result SimulationOutcome;
  w_exec : list Action -> Action -> Result ExecutionResult;
  w_int : list Action -> Action -> Result Z;
  w_optInt : list Action -> Action -> Result (option Z);
  w_bool : list Action -> Action -> Result bool;
  w_number : list Action -> Action -> option number;
  w_position : list Action -> Z -> Result (option Position);
  w_order : list Action -> Z -> Result (option Order);
  w_idList : list Action -> Action -> Result (list Z);
  w_ids : list Action -> Action -> Result (list Z * list Z);
  w_rounds : list Action -> Result (list Attestation) }.

(** ** The bot's memory *)

Record PriceData := { price : number; priceScaled : Z; priceAt : Z }.

Record LiqState := {
  liqStrikes : gmap string Z;
  crossBalanceCache : gmap string (Z * Z);
  assetMmBpsCache : gmap string (Z * Z);
  riskLadderSupported : option bool }.

Record RouterState := {
  latestRounds : gmap string (Attestation * Z);
  routerFnSupported : gmap string bool }.

Record OrderState := {
  orphanedOrderIds : gset string;
  triggeredStuckCounts : gmap string Z;
  factoryReconcileSupported : option bool }.

Record AdlState := {
  adlActive : gmap string bool;
  adlLastProbeAt : gmap string Z;
  adlSupported : option bool;
  vaultCoverageCache : option (Z * Z) }.

Record OracleState := {
  currentPrices : gmap string PriceData;
  lastPushedPrices : gmap string PriceData;
  lastSyncedPnlPrice : gmap string Z;
  lastFullPnlSyncAt : Z;
  spikeAlertAt : gmap string Z }.

Record CustodyReport := {
  marketUsdcBalance : Z; isolatedCollateral : Z; crossBalances : Z; orderEscrow : Z;
  trackedCustody : Z; deficit : Z; reportPositions : Z; asOf : Z }.

Record CycleState := {
  lastOracleUpdate : Z; oracleUpdateInProgress : bool; lastFullSweepAt : Z; consecutiveReadFailures : Z;
  fundingFailureStreak : Z; nextFundingAttemptAt : Z; lastFundingSubmitTime : Z; nextTtlBumpAt : Z;
  lastCustodyCheckAt : Z; custodyDeficitStreak : Z; lastCustody : option CustodyReport }.

Record Bot := {
  liqS : LiqState; routerS : RouterState; orderS : OrderState; adlS : AdlState;
  oracleS : OracleState; cycleS : CycleState; stats : gmap string Z }.

Definition onLiq (f : LiqState -> LiqState) (b : Bot) : Bot := {|
  liqS := f (liqS b); routerS := routerS b; orderS := orderS b; adlS := adlS b;
  oracleS := oracleS b; cycleS := cycleS b; stats := stats b |}.
Definition onRouter (f : RouterState -> RouterState) (b : Bot) : Bot := {|
  liqS := liqS b; routerS := f (routerS b); orderS := orderS b; adlS := adlS b;
  oracleS := oracleS b; cycleS := cycleS b; stats := stats b |}.
Definition onOrder (f : OrderState -> OrderState) (b : Bot) : Bot := {|
  liqS := liqS b; routerS := routerS b; orderS := f (orderS b); adlS := adlS b;
  oracleS := oracleS b; cycleS := cycleS b; stats := stats b |}.
Definition onAdl (f : AdlState -> AdlState) (b : Bot) : Bot := {|
  liqS := liqS b; routerS := routerS b; orderS := orderS b; adlS := f (adlS b);
  oracleS := oracleS b; cycleS := cycleS b; stats := stats b |}.
Definition onOracle (f : OracleState -> OracleState) (b : Bot) : Bot := {|
  liqS := liqS b; routerS := routerS b; orderS := orderS b; adlS := adlS b;
  oracleS := f (oracleS b); cycleS := cycleS b; stats := stats b |}.
Definition onCycle (f : CycleState -> CycleState) (b : Bot) : Bot := {|
  liqS := liqS b; routerS := routerS b; orderS := orderS b; adlS := adlS b;
  oracleS := oracleS b; cycleS := f (cycleS b); stats := stats b |}.

(** ** Programs *)

Definition K (A : Type) : Type := Bot -> list Action -> Result A * Bot * list Action.

Definition ret {A} (a : A) : K A := fun b _ => (Ok a, b, []).
Definition throw {A} (message : string) : K A := fun b _ => (Err message, b, []).

#[export] Instance K_bind : MBind K := fun A B k m b h =>
  match m b h with
  | (inl e, b1, n1) => (inl e, b1, n1)
  | (inr a, b1, n1) =>
      match k a b1 (h ++ n1) with (r, b2, n2) => (r, b2, n1 ++ n2) end
  end.

Definition gets {A} (f : Bot -> A) : K A := fun b _ => (Ok (f b), b, []).
Definition modify (f : Bot -> Bot) : K () := fun b _ => (Ok (), f b, []).

(** Perform an action and take its answer. *)
Definition io {A} (a : Action) (answer : list Action -> Result A) : K A :=
  fun b h => (answer h, b, [a]).

(** [try { m } catch (e) { handler }] *)
Definition tryCatch {A} (m : K A) (handler : string -> K A) : K A := fun b h =>
  match m b h with
  | (inr a, b1, n1) => (Ok a, b1, n1)
  | (inl e, b1, n1) =>
      match handler e b1 (h ++ n1) with (r, b2, n2) => (r, b2, n1 ++ n2) end
  end.

Fixpoint forEach {A} (l : list A) (body : A -> K ()) : K () :=
  match l with
  | [] => ret ()
  | x :: l => _ ← body x; forEach l body
  end.

Section calls.
Context {W : World}.

Definition now : K Z := io Now (fun h => Ok (w_now h)).
Definition simulate (a : Action) : K SimulationOutcome := io a (fun h => w_sim h a).
Definition exec (a : Action) : K ExecutionResult := io a (fun h => w_exec h a).
Definition readInt (a : Action) : K Z := io a (fun h => w_int h a).
Definition readOptInt (a : Action) : K (option Z) := io a (fun h => w_optInt h a).
Definition readBool (a : Action) : K bool := io a (fun h => w_bool h a).
Definition readNumber (a : Action) : K (option number) := io a (fun h => Ok (w_number h a)).
Definition alert (level : AlertLevel) (title : string) : K () :=
  io (SendAlert level title) (fun _ => Ok ()).
End calls.

(** [this.stats.<name> += n] *)
Definition addStat (name : string) (n : Z) : K () := modify (fun b => {|
  liqS := liqS b; routerS := routerS b; orderS := orderS b; adlS := adlS b;
  oracleS := oracleS b; cycleS := cycleS b;
  stats := <[name := default 0 (stats b !! name) + n]> (stats b) |}).

(** ** Error messages (stellar.ts) *)

(** [/Error\(Contract, #(\d+)\)/] *)
Definition extractContractErrorCode (message : string) : option Z :=
  firstSome (fun s =>
    match stripPrefix "Error(Contract, #" s with
    | None => None
    | Some rest =>
        let (digits, tail) := span isDigit rest in
        if String.eqb digits "" || negb (startsWith ")" tail) then None
        else Some (numberOfDigits digits)
    end) (suffixes message).

(** [/MissingValue|unknown export|invoking unknown/i] *)
Definition isMissingContractFunction (message : string) : bool :=
  let m := lower message in
  includes m "missingvalue" || includes m "unknown export" || includes m "invoking unknown".

Definition codeIs (message : string) (codes : list Z) : bool :=
  match extractContractErrorCode message with
  | Some code => bool_decide (code ∈ codes)
  | None => false
  end.

Definition errorText (r : ExecutionResult) : string := default "" (error r).

(** ** Configuration *)

Inductive DiscoveryMode := legacy | shadow | chain.

#[export] Instance DiscoveryMode_eq_dec : EqDecision DiscoveryMode.
Proof. solve_decision. Defined.

(** [minScaled] and [maxScaled] are [Math.round(minPrice * 1e7)] and
    [Math.round(maxPrice * 1e7)], as the defenses compute them each time. *)
Record AssetConfig := { symbol : string; maxMovePct : number; minScaled : Z; maxScaled : Z }.

Record Config := {
  triggerConfirmReads : Z; hasRouter : bool; hasFactory : bool; hasUsdcToken : bool;
  triggeredStuckAlertCycles : Z; adlMaxClosesPerCycle : Z; adlCheckIntervalMs : Z;
  adlTriggerRatioBps : Z; adlClearRatioBps : Z; oracleUpdateIntervalMs : Z;
  ttlBumpIntervalMs : Z; minKeeperXlm : number; ttlContractIds : list (string * string);
  discoveryMode : DiscoveryMode;
  referenceDivergencePct : number; storkMaxDivergencePct : number; spikeAlertPct : number;
  assets : list AssetConfig }.

(** ** Reasoning about programs

    [Emits h m P]: run after the history [h], in any memory, [m] performs
    actions [new] and ends with [r] such that [P r new]. *)

Definition Emits {A} (h : list Action) (m : K A) (P : Result A -> list Action -> Prop) : Prop :=
  forall b, match m b h with (r, _, new) => P r new end.

Lemma emits_weaken {A} h (m : K A) (P Q : Result A -> list Action -> Prop) :
  Emits h m P -> (forall r new, P r new -> Q r new) -> Emits h m Q.
Proof. intros Hm HPQ b. specialize (Hm b). destruct (m b h) as [[r b'] new]. auto. Qed.

Lemma emits_ret {A} h (a : A) P : P (Ok a) [] -> Emits h (ret a) P.
Proof. intros H b. exact H. Qed.

Lemma emits_throw {A} h s (P : Result A -> list Action -> Prop) : P (Err s) [] -> Emits h (throw s) P.
Proof. intros H b. exact H. Qed.

Lemma emits_gets {A} h (f : Bot -> A) P : (forall a, P (Ok a) []) -> Emits h (gets f) P.
Proof. intros H b. exact (H _). Qed.

Lemma emits_modify h f P : P (Ok ()) [] -> Emits h (modify f) P.
Proof. intros H b. exact H. Qed.

Lemma emits_io {A} h a (f : list Action -> Result A) P : P (f h) [a] -> Emits h (io a f) P.
Proof. intros H b. exact H. Qed.

Lemma emits_bind {A B} h (m : K A) (k : A -> K B) (P : Result B -> list Action -> Prop) :
  Emits h m (fun r new => match r with
    | inl e => P (inl e) new
    | inr a => Emits (h ++ new) (k a) (fun r2 new2 => P r2 (new ++ new2))
    end) ->
  Emits h (m ≫= k) P.
Proof.
  intros Hm b. specialize (Hm b). unfold mbind, K_bind.
  destruct (m b h) as [[[e|a] b1] n1]; [done|]. specialize (Hm b1).
  by destruct (k a b1 (h ++ n1)) as [[r2 b2] n2].
Qed.

Lemma emits_try {A} h (m : K A) handler P :
  Emits h m (fun r new => match r with
    | inr a => P (inr a) new
    | inl e => Emits (h ++ new) (handler e) (fun r2 new2 => P r2 (new ++ new2))
    end) ->
  Emits h (tryCatch m handler) P.
Proof.
  intros Hm b. specialize (Hm b). unfold tryCatch.
  destruct (m b h) as [[[e|a] b1] n1]; [|done]. specialize (Hm b1).
  by destruct (handler e b1 (h ++ n1)) as [[r2 b2] n2].
Qed.

(** A property of actions that composes: it holds of nothing, and of what a
    program does followed by what the rest does after it. *)
Class Composes (P : list Action -> list Action -> Prop) := {
  composes_nil : forall h, P h [];
  composes_app : forall h n1 n2, P h n1 -> P (h ++ n1) n2 -> P h (n1 ++ n2) }.

(** A condition on the history that further actions cannot undo. *)
Class Stable (Pre : list Action -> Prop) :=
  stable : forall h n, Pre h -> Pre (h ++ n).

#[export] Instance stable_true : Stable (fun _ => True).
Proof. done. Qed.

(** Whatever the outcome, the actions of [m] after any history that satisfies
    [Pre] satisfy [P]. *)
Definition Always {A} (Pre : list Action -> Prop) (P : list Action -> list Action -> Prop)
    (m : K A) : Prop :=
  forall h, Pre h -> Emits h m (fun _ new => P h new).

Section always.
Context (Pre : list Action -> Prop) `{!Stable Pre}.
Context (P : list Action -> list Action -> Prop) `{!Composes P}.

Lemma always_ret {A} (a : A) : Always Pre P (ret a).
Proof. intros h _. apply emits_ret, composes_nil. Qed.
Lemma always_throw {A} s : Always Pre P (@throw A s).
Proof. intros h _. apply emits_throw, composes_nil. Qed.
Lemma always_gets {A} (f : Bot -> A) : Always Pre P (gets f).
Proof. intros h _. apply emits_gets. intros _. apply composes_nil. Qed.
Lemma always_modify f : Always Pre P (modify f).
Proof. intros h _. apply emits_modify, composes_nil. Qed.
Lemma always_io {A} a (f : list Action -> Result A) :
  (forall h, Pre h -> P h [a]) -> Always Pre P (io a f).
Proof. intros H h Hp. by apply emits_io, H. Qed.

Lemma always_bind {A B} (m : K A) (k : A -> K B) :
  Always Pre P m -> (forall a, Always Pre P (k a)) -> Always Pre P (m ≫= k).
Proof.
  intros Hm Hk h Hp. apply emits_bind. eapply emits_weaken; [by apply Hm|]. simpl.
  intros [e|a] n1 H1; [done|]. eapply emits_weaken; [apply Hk; by apply stable|]. simpl.
  intros r n2 H2. by apply composes_app.
Qed.

Lemma always_try {A} (m : K A) handler :
  Always Pre P m -> (forall e, Always Pre P (handler e)) -> Always Pre P (tryCatch m handler).
Proof.
  intros Hm Hk h Hp. apply emits_try. eapply emits_weaken; [by apply Hm|]. simpl.
  intros [e|a] n1 H1; [|done]. eapply emits_weaken; [apply Hk; by apply stable|]. simpl.
  intros r n2 H2. by apply composes_app.
Qed.

Lemma always_forEach {A} (l : list A) body :
  (forall x, x ∈ l -> Always Pre P (body x)) -> Always Pre P (forEach l body).
Proof.
  induction l as [|x l IH]; intros Hb; simpl; [apply always_ret|].
  apply always_bind; [apply Hb; by left|]. intros []. apply IH. intros y Hy. apply Hb. by right.
Qed.

(** A step whose answer [x] lets the rest rely on [Pre' x]. *)
Lemma always_io_bind {A B} a (f : list Action -> Result A) (k : A -> K B)
    (Pre' : A -> list Action -> Prop) :
  (forall h, Pre h -> P h [a]) ->
  (forall h x, Pre h -> f h = Ok x -> Pre' x (h ++ [a])) ->
  (forall x, Always (Pre' x) P (k x)) ->
  Always Pre P (io a f ≫= k).
Proof.
  intros Ha Hpre Hk h Hp. apply emits_bind, emits_io. destruct (f h) as [e|x] eqn:Hf; [by apply Ha|].
  eapply emits_weaken; [by apply Hk, Hpre|]. simpl. intros r new Hn.
  apply (composes_app h [a] new); [by apply Ha|done].
Qed.
End always.

Lemma always_weaken {A} (Pre Pre' : list Action -> Prop) P (m : K A) :
  (forall h, Pre' h -> Pre h) -> Always Pre P m -> Always Pre' P m.
Proof. intros HP Hm h Hh. by apply Hm, HP. Qed.

(** [Always], and a result [a] leaves a history that satisfies [Post a]. *)
Definition Ensures {A} (Pre : list Action -> Prop) (P : list Action -> list Action -> Prop)
    (m : K A) (Post : A -> list Action -> Prop) : Prop :=
  forall h, Pre h ->
    Emits h m (fun r new => P h new /\ forall a, r = Ok a -> Post a (h ++ new)).

Section ensures.
Context (Pre : list Action -> Prop) (P : list Action -> list Action -> Prop) `{!Composes P}.

Lemma ensures_ret {A} (a : A) Post : (forall h, Pre h -> Post a h) -> Ensures Pre P (ret a) Post.
Proof.
  intros Hp h Hh. apply emits_ret. split; [apply composes_nil|].
  intros x [= <-]. rewrite app_nil_r. auto.
Qed.

Lemma ensures_always {A} (m : K A) `{!Stable Pre} :
  Always Pre P m -> Ensures Pre P m (fun _ => Pre).
Proof.
  intros Hm h Hh. eapply emits_weaken; [by apply Hm|]. intros r new Hn. split; [done|].
  intros a _. by apply stable.
Qed.

Lemma ensures_bind {A B} (m : K A) (k : A -> K B) Mid Post :
  Ensures Pre P m Mid -> (forall a, Ensures (Mid a) P (k a) Post) ->
  Ensures Pre P (m ≫= k) Post.
Proof.
  intros Hm Hk h Hh. apply emits_bind. eapply emits_weaken; [by apply Hm|]. simpl.
  intros [e|a] n1 [H1 Hmid]; [by split|].
  eapply emits_weaken; [apply Hk; by apply Hmid|]. simpl. intros r n2 [H2 Hpost].
  split; [by apply composes_app|]. rewrite app_assoc. exact Hpost.
Qed.

Lemma always_ensures_bind {A B} (m : K A) (k : A -> K B) Mid :
  Ensures Pre P m Mid -> (forall a, Always (Mid a) P (k a)) -> Always Pre P (m ≫= k).
Proof.
  intros Hm Hk h Hh. apply emits_bind. eapply emits_weaken; [by apply Hm|]. simpl.
  intros [e|a] n1 [H1 Hmid]; [done|].
  eapply emits_weaken; [apply Hk; by apply Hmid|]. simpl. intros r n2 H2.
  by apply composes_app.
Qed.

Lemma ensures_io {A} a (f : list Action -> Result A) Post :
  (forall h, Pre h -> P h [a]) -> (forall h x, Pre h -> f h = Ok x -> Post x (h ++ [a])) ->
  Ensures Pre P (io a f) Post.
Proof. intros Ha Hp h Hh. apply emits_io. split; [by apply Ha|]. intros x Hx. by apply Hp. Qed.
End ensures.

Ltac abind := apply always_bind; [apply _ | apply _ | | intros ?].

(** Discharge [Always] of a program with no step of interest: every action it
    performs satisfies [solve_action]'s goal. *)
Ltac always_auto solve_action :=
  repeat first
    [ apply always_ret; apply _ | apply always_throw; apply _
    | apply always_gets; apply _ | apply always_modify; apply _
    | apply always_forEach; [apply _ | apply _ | intros ? _]
    | apply always_try; [apply _ | apply _ | | intros ?]
    | apply always_bind; [apply _ | apply _ | | intros ?]
    | apply always_io; intros; solve_action
    | match goal with |- Always _ _ (match ?x with _ => _ end) => destruct x end ].

(** *** Guarded actions

    [Guarded guard]: every action [guard] maps to a condition on the history
    is performed only when that history satisfies the condition. *)
Section guarded.
Context (guard : Action -> option (list Action -> Prop)).

Definition Guarded (h new : list Action) : Prop :=
  forall pre a post c, new = pre ++ a :: post -> guard a = Some c -> c (h ++ pre).

#[export] Instance guarded_composes : Composes Guarded.
Proof.
  split.
  - intros h pre a post c Hn _. by destruct pre.
  - intros h n1 n2 H1 H2 pre a post c Hn Hg.
    symmetry in Hn. apply app_eq_inv in Hn as [(k & -> & ->)|(k & -> & Hk)].
    + rewrite app_assoc. by apply (H2 k a post c).
    + destruct k as [|x k]; simplify_eq/=.
      * rewrite app_nil_r in *. rewrite <- (app_nil_r (h ++ pre)). by apply (H2 [] a post c).
      * by apply (H1 pre x k c).
Qed.

Lemma guarded_one h a : (forall c, guard a = Some c -> c h) -> Guarded h [a].
Proof.
  intros Hc pre a' post c Hn Hg. destruct pre as [|x [|]]; simplify_eq/=.
  rewrite app_nil_r. by apply Hc.
Qed.

Lemma guarded_free h a : guard a = None -> Guarded h [a].
Proof. intros Hn. apply guarded_one. congruence. Qed.
End guarded.

(** *** Loops that reach everyone *)

(** A loop whose bodies never throw runs all of them. *)
Lemma emits_forEach_each {A} (l : list A) (body : A -> K ()) (Q : A -> list Action -> Prop) :
  (forall x n1 n n2, Q x n -> Q x (n1 ++ n ++ n2)) ->
  (forall x h, x ∈ l -> Emits h (body x) (fun r new => r = Ok () /\ Q x new)) ->
  forall h, Emits h (forEach l body) (fun r new => r = Ok () /\ forall x, x ∈ l -> Q x new).
Proof.
  intros Hmono. induction l as [|x l IH]; intros Hb h; simpl.
  - apply emits_ret. split; [done|]. intros y Hy. by apply elem_of_nil in Hy.
  - apply emits_bind. eapply emits_weaken; [apply Hb; by left|]. simpl.
    intros [e|u] n1 [Hr Hq]; [done|].
    eapply emits_weaken; [apply IH; intros y h' Hy; apply Hb; by right|]. simpl.
    intros r n2 [-> Hall]. split; [done|]. intros y [->|Hy]%elem_of_cons.
    + by apply (Hmono x [] n1 n2).
    + specialize (Hmono y n1 n2 [] (Hall y Hy)). by rewrite app_nil_r in Hmono.
Qed.

(** What holds of every answer, whatever the program. *)
Lemma emits_any {A} h (m : K A) (P : Result A -> list Action -> Prop) :
  (forall r new, P r new) -> Emits h m P.
Proof. intros HP b. by destruct (m b h) as [[r b'] new]. Qed.

(** [try { m } catch {}] never throws and keeps what [m] did. *)
Lemma emits_try_skip h (m : K ()) (P : list Action -> Prop) :
  Emits h m (fun _ new => P new) ->
  Emits h (tryCatch m (fun _ => ret ())) (fun r new => r = Ok () /\ P new).
Proof.
  intros Hm. apply emits_try. eapply emits_weaken; [exact Hm|]. simpl.
  intros [e|[]] new Hn; [|done]. apply emits_ret. by rewrite app_nil_r.
Qed.

(** *** Runs and memory *)

Lemma run_bind_Ok {A B} (m : K A) (k : A -> K B) b h r b' n :
  (m ≫= k) b h = (Ok r, b', n) ->
  exists a b1 n1 n2, m b h = (Ok a, b1, n1) /\ k a b1 (h ++ n1) = (Ok r, b', n2) /\ n = n1 ++ n2.
Proof.
  unfold mbind, K_bind. destruct (m b h) as [[[e|a] b1] n1]; [done|].
  destruct (k a b1 (h ++ n1)) as [[r2 b2] n2] eqn:Hk. intros [= -> <- <-].
  by exists a, b1, n1, n2.
Qed.

Lemma bind_run {A B} (m : K A) (k : A -> K B) b h a b1 n1 :
  m b h = (Ok a, b1, n1) ->
  (m ≫= k) b h = (let '(r, b2, n2) := k a b1 (h ++ n1) in (r, b2, n1 ++ n2)).
Proof. intros Hm. unfold mbind, K_bind. rewrite Hm. simpl. by destruct (k a b1 (h ++ n1)) as [[r b2] n2]. Qed.

(** [m] leaves the part [f] of the memory as it is. *)
Definition Keeps {X A} (f : Bot -> X) (m : K A) : Prop :=
  forall b h, f (m b h).1.2 = f b.

Section keeps.
Context {X : Type} (f : Bot -> X).

Lemma keeps_ret {A} (a : A) : Keeps f (ret a).
Proof. done. Qed.
Lemma keeps_throw {A} s : Keeps f (@throw A s).
Proof. done. Qed.
Lemma keeps_gets {A} (g : Bot -> A) : Keeps f (gets g).
Proof. done. Qed.
Lemma keeps_io {A} a (g : list Action -> Result A) : Keeps f (io a g).
Proof. done. Qed.
Lemma keeps_modify g : (forall b, f (g b) = f b) -> Keeps f (modify g).
Proof. intros Hg b h. apply Hg. Qed.

Lemma keeps_bind {A B} (m : K A) (k : A -> K B) :
  Keeps f m -> (forall a, Keeps f (k a)) -> Keeps f (m ≫= k).
Proof.
  intros Hm Hk b h. specialize (Hm b h). unfold mbind, K_bind.
  destruct (m b h) as [[[e|a] b1] n1]; [done|]. simpl in Hm.
  specialize (Hk a b1 (h ++ n1)). destruct (k a b1 (h ++ n1)) as [[r b2] n2]. simpl in *. congruence.
Qed.

Lemma keeps_try {A} (m : K A) handler :
  Keeps f m -> (forall e, Keeps f (handler e)) -> Keeps f (tryCatch m handler).
Proof.
  intros Hm Hk b h. specialize (Hm b h). unfold tryCatch.
  destruct (m b h) as [[[e|a] b1] n1]; [|done]. simpl in Hm.
  specialize (Hk e b1 (h ++ n1)). destruct (handler e b1 (h ++ n1)) as [[r b2] n2]. simpl in *. congruence.
Qed.

Lemma keeps_forEach {A} (l : list A) body :
  (forall x, Keeps f (body x)) -> Keeps f (forEach l body).
Proof.
  intros Hb. induction l as [|x l IH]; simpl; [apply keeps_ret|]. by apply keeps_bind.
Qed.

Lemma keeps_run {A} (m : K A) b h r b' n : Keeps f m -> m b h = (r, b', n) -> f b' = f b.
Proof. intros Hm Hr. specialize (Hm b h). by rewrite Hr in Hm. Qed.
End keeps.

(** Discharge [Keeps f m] when no step of [m] writes [f]. *)
Ltac keeps_auto :=
  repeat first
    [ apply keeps_ret | apply keeps_throw | apply keeps_gets | apply keeps_io
    | apply keeps_modify; intros ?; reflexivity
    | apply keeps_forEach; intros ? | apply keeps_try; [|intros ?] | apply keeps_bind; [|intros ?]
    | match goal with |- Keeps _ (match ?x with _ => _ end) => destruct x end ].

(** [m] never throws. *)
Definition Total {A} (m : K A) : Prop := forall b h, exists a, (m b h).1.1 = Ok a.

Lemma total_ret {A} (a : A) : Total (ret a).
Proof. intros b h. by exists a. Qed.
Lemma total_gets {A} (g : Bot -> A) : Total (gets g).
Proof. intros b h. by eexists. Qed.
Lemma total_modify g : Total (modify g).
Proof. intros b h. by eexists. Qed.
Lemma total_io {A} a (g : list Action -> A) : Total (io a (fun h => Ok (g h))).
Proof. intros b h. by eexists. Qed.

Lemma total_bind {A B} (m : K A) (k : A -> K B) :
  Total m -> (forall a, Total (k a)) -> Total (m ≫= k).
Proof.
  intros Hm Hk b h. destruct (Hm b h) as [a Ha]. unfold mbind, K_bind.
  destruct (m b h) as [[r b1] n1]. simpl in Ha. subst r.
  destruct (Hk a b1 (h ++ n1)) as [x Hx]. exists x. simpl.
  by destruct (k a b1 (h ++ n1)) as [[r b2] n2].
Qed.

Lemma total_try {A} (m : K A) handler : (forall e, Total (handler e)) -> Total (tryCatch m handler).
Proof.
  intros Hk b h. unfold tryCatch. destruct (m b h) as [[[e|a] b1] n1]; [|by exists a].
  destruct (Hk e b1 (h ++ n1)) as [x Hx]. exists x. simpl.
  by destruct (handler e b1 (h ++ n1)) as [[r b2] n2].
Qed.

Lemma total_forEach {A} (l : list A) body : (forall x, Total (body x)) -> Total (forEach l body).
Proof.
  intros Hb. induction l as [|x l IH]; simpl; [apply total_ret|]. by apply total_bind.
Qed.

Lemma total_run {A} (m : K A) b h : Total m -> exists a b' n, m b h = (Ok a, b', n).
Proof.
  intros Hm. destruct (Hm b h) as [a Ha]. destruct (m b h) as [[r b'] n]. simpl in Ha. subst r. eauto.
Qed.

(** Discharge [Total m] when every step that may throw is under a [try]. *)
Ltac total_auto :=
  repeat first
    [ apply total_ret | apply total_gets | apply total_modify | apply total_io
    | apply total_forEach; intros ? | apply total_try; intros ? | apply total_bind; [|intros ?]
    | match goal with |- Total (match ?x with _ => _ end) => destruct x end ].

(** ** A concrete outside, for examples *)

Definition okResult : ExecutionResult :=
  {| success := true; indeterminate := false; reward := Some 5; error := None |}.

(** Every call succeeds and the clock ticks once per action. *)
Definition sampleWorld : World := {|
  w_now := fun h => Z.of_nat (length h);
  w_sim := fun _ _ => Ok (SimOk (Some true));
  w_exec := fun _ _ => Ok okResult;
  w_int := fun _ _ => Ok 1000000;
  w_optInt := fun _ _ => Ok None;
  w_bool := fun _ _ => Ok false;
  w_number := fun _ _ => None;
  w_position := fun _ _ => Ok None;
  w_order := fun _ _ => Ok None;
  w_idList := fun _ _ => Ok [];
  w_ids := fun _ _ => Ok ([], []);
  w_rounds := fun _ => Ok [] |}.

Definition sampleConfig : Config := {|
  triggerConfirmReads := 2; hasRouter := true; hasFactory := true; hasUsdcToken := true;
  triggeredStuckAlertCycles := 3; adlMaxClosesPerCycle := 2; adlCheckIntervalMs := 60000;
  adlTriggerRatioBps := 10000; adlClearRatioBps := 11000; oracleUpdateIntervalMs := 30000;
  ttlBumpIntervalMs := 21600000; minKeeperXlm := numberOfZ 100;
  ttlContractIds := [("market", "C1")]; discoveryMode := chain;
  referenceDivergencePct := numberOfZ 5; storkMaxDivergencePct := numberOfZ 3;
  spikeAlertPct := numberOfZ 2;
  assets := [{| symbol := "BTC"; maxMovePct := numberOfZ 10; minScaled := 1; maxScaled := 1000 |}] |}.

Definition emptyBot : Bot := {|
  liqS := {| liqStrikes := ∅; crossBalanceCache := ∅; assetMmBpsCache := ∅;
             riskLadderSupported := None |};
  routerS := {| latestRounds := ∅; routerFnSupported := ∅ |};
  orderS := {| orphanedOrderIds := ∅; triggeredStuckCounts := ∅;
               factoryReconcileSupported := None |};
  adlS := {| adlActive := ∅; adlLastProbeAt := ∅; adlSupported := None;
             vaultCoverageCache := None |};
  oracleS := {| currentPrices := ∅; lastPushedPrices := ∅; lastSyncedPnlPrice := ∅; lastFullPnlSyncAt := 0;
                spikeAlertAt := ∅ |};
  cycleS := {| lastOracleUpdate := 0; oracleUpdateInProgress := false; lastFullSweepAt := 0; consecutiveReadFailures := 0;
               fundingFailureStreak := 0; nextFundingAttemptAt := 0;
               lastFundingSubmitTime := 0; nextTtlBumpAt := 0;
               lastCustodyCheckAt := 0; custodyDeficitStreak := 0; lastCustody := None |};
  stats := ∅ |}.
