(* ===== verification/KeeperLiquidations.v ===== *)
(** * Liquidation phases of the keeper

    Models the isolated and cross-margin liquidation scans of
    scripts/keeper/src/index.ts with the caches, the two-strike confirmation
    and the router path they use. *)

From S2P Require Import Prelude JsText Health KeeperEffects.
Open Scope Z_scope.
Open Scope js_scope.

Definition CROSS_BALANCE_CACHE_MS : Z := 60000.
Definition ASSET_RISK_CACHE_MS : Z := 600000.
Definition ROUND_FRESH_FAST_PATH_MS : Z := 15000.
Definition ROUND_MAX_AGE_MS : Z := 60000.

(** ** Memory updates *)

Definition setStrikes (f : gmap string Z -> gmap string Z) : Bot -> Bot := onLiq (fun l => {|
  liqStrikes := f (liqStrikes l); crossBalanceCache := crossBalanceCache l;
  assetMmBpsCache := assetMmBpsCache l; riskLadderSupported := riskLadderSupported l |}).
Definition setCrossBalances (f : gmap string (Z * Z) -> gmap string (Z * Z)) : Bot -> Bot :=
  onLiq (fun l => {|
    liqStrikes := liqStrikes l; crossBalanceCache := f (crossBalanceCache l);
    assetMmBpsCache := assetMmBpsCache l; riskLadderSupported := riskLadderSupported l |}).
Definition setMmBps (f : gmap string (Z * Z) -> gmap string (Z * Z)) : Bot -> Bot :=
  onLiq (fun l => {|
    liqStrikes := liqStrikes l; crossBalanceCache := crossBalanceCache l;
    assetMmBpsCache := f (assetMmBpsCache l); riskLadderSupported := riskLadderSupported l |}).
Definition setLadder (s : option bool) : Bot -> Bot := onLiq (fun l => {|
  liqStrikes := liqStrikes l; crossBalanceCache := crossBalanceCache l;
  assetMmBpsCache := assetMmBpsCache l; riskLadderSupported := s |}).
Definition setRounds (f : gmap string (Attestation * Z) -> gmap string (Attestation * Z))
  : Bot -> Bot := onRouter (fun r => {|
    latestRounds := f (latestRounds r); routerFnSupported := routerFnSupported r |}).
Definition setRouterFn (fn : string) (v : bool) : Bot -> Bot := onRouter (fun r => {|
  latestRounds := latestRounds r; routerFnSupported := <[fn := v]> (routerFnSupported r) |}).

Definition isoKey (id : Z) : string := "iso:" +:+ decimalOfZ id.
Definition crossKey (trader : string) : string := "cross:" +:+ trader.

(** [asset.endsWith('/USD') ? asset.slice(0, -4) : asset] *)
Definition stripUsd (pair : string) : string :=
  let n := String.length pair in
  if String.eqb (String.substring (n - 4) 4 pair) "/USD" && (4 <=? n)%nat
  then String.substring 0 (n - 4) pair else pair.

(** [localPriceMap] *)
Definition localPriceMap (b : Bot) : gmap string Z := priceScaled <$> currentPrices (oracleS b).

(** Grouping in first-seen order, as a JavaScript [Map] of lists. *)
Fixpoint addToGroup {A} (key : string) (x : A) (groups : list (string * list A))
  : list (string * list A) :=
  match groups with
  | [] => [(key, [x])]
  | (k, l) :: groups =>
      if String.eqb k key then (k, l ++ [x]) :: groups else (k, l) :: addToGroup key x groups
  end.
Definition groupBy {A} (key : A -> string) (l : list A) : list (string * list A) :=
  foldl (fun groups x => addToGroup (key x) x groups) [] l.

Section liquidations.
Context {W : World} (config : Config).

(** ** Router and rounds *)

Definition routerAvailable (fn : string) : K bool :=
  gets (fun b => hasRouter config
                 && negb (bool_decide (routerFnSupported (routerS b) !! fn = Some false))).

Definition fetchNoeracleFresh : K (list Attestation) := io FetchNoeracle w_rounds.

Definition refreshRounds : K () :=
  tryCatch (
      attestations ← fetchNoeracleFresh;
      fetchedAt ← now;
      modify (setRounds (fun m =>
        foldl (fun m att => <[stripUsd (att_asset att) := (att, fetchedAt)]> m) m attestations)))
    (fun _ => ret ()).

Definition getExecutionRound (symbol : string) : K (option Attestation) :=
  t ← now;
  cached ← gets (fun b => latestRounds (routerS b) !! symbol);
  if match cached with Some (_, cachedAt) => t - cachedAt <=? ROUND_FRESH_FAST_PATH_MS
                     | None => false end
  then ret (fst <$> cached)
  else
    _ ← refreshRounds;
    fallback ← gets (fun b => latestRounds (routerS b) !! symbol);
    match fallback with
    | Some (att, cachedAt) =>
        t ← now;
        ret (if t - cachedAt <=? ROUND_MAX_AGE_MS then Some att else None)
    | None => ret None
    end.

(** ** Two-strike confirmation *)

(** [bankrupt] positions never wait. *)
Definition confirmStrike (key : string) (bankrupt : bool) : K bool :=
  if bankrupt || (triggerConfirmReads config <=? 1)
  then (_ ← modify (setStrikes (delete key)); ret true)
  else
    previous ← gets (fun b => default 0 (liqStrikes (liqS b) !! key));
    let strikes := previous + 1 in
    if triggerConfirmReads config <=? strikes
    then (_ ← modify (setStrikes (delete key)); ret true)
    else (_ ← modify (setStrikes <[key := strikes]>); ret false).

(** ** Cached reads *)

Definition prefilterMmBps (asset : string) : K Z :=
  supported ← gets (fun b => riskLadderSupported (liqS b));
  if bool_decide (supported = Some false) then ret DEFAULT_MAINTENANCE_MARGIN_BPS
  else
    t ← now;
    cached ← gets (fun b => assetMmBpsCache (liqS b) !! asset);
    if match cached with Some (_, fetchedAt) => t - fetchedAt <? ASSET_RISK_CACHE_MS
                       | None => false end
    then ret (match cached with Some (mmBps, _) => mmBps
                              | None => DEFAULT_MAINTENANCE_MARGIN_BPS end)
    else
      outcome ← tryCatch (
          ladder ← readOptInt (GetAssetRiskMmBps asset);
          _ ← modify (setLadder (Some true));
          ret (Some (match ladder with
                     | Some l => if 0 <? l then Z.max l DEFAULT_MAINTENANCE_MARGIN_BPS
                                 else DEFAULT_MAINTENANCE_MARGIN_BPS
                     | None => DEFAULT_MAINTENANCE_MARGIN_BPS
                     end)))
        (fun message =>
          if isMissingContractFunction message
          then (_ ← modify (setLadder (Some false)); ret (Some DEFAULT_MAINTENANCE_MARGIN_BPS))
          else ret None);
      match outcome with
      | Some mmBps => _ ← modify (setMmBps <[asset := (mmBps, t)]>); ret mmBps
      | None => ret (match cached with Some (mmBps, _) => mmBps
                                     | None => DEFAULT_MAINTENANCE_MARGIN_BPS end)
      end.

Definition getCrossBalanceCached (trader : string) : K (option Z) :=
  t ← now;
  cached ← gets (fun b => crossBalanceCache (liqS b) !! trader);
  if match cached with Some (_, fetchedAt) => t - fetchedAt <? CROSS_BALANCE_CACHE_MS
                     | None => false end
  then ret (fst <$> cached)
  else tryCatch (
      balance ← readInt (GetCrossMarginBalance trader);
      _ ← modify (setCrossBalances <[trader := (balance, t)]>);
      ret (Some balance))
    (fun _ => ret (fst <$> cached)).

(** ** Isolated positions *)

Definition recordLiquidation (router : bool) (result : ExecutionResult) : K () :=
  if success result then
    _ ← (if router then addStat "routerExecutions" 1 else ret ());
    _ ← addStat "liquidationsExecuted" 1;
    match reward result with
    | Some r => if r =? 0 then ret () else addStat "totalRewardsEarned" r
    | None => ret ()
    end
  else ret ().

(** A router result that stands, or [None] to fall back to the direct call. *)
Definition routerVerdict (fn : string) (result : ExecutionResult) (standing : list Z)
  : K (option ExecutionResult) :=
  if negb (success result) && negb (indeterminate result) then
    _ ← (if isMissingContractFunction (errorText result)
         then modify (setRouterFn fn false) else ret ());
    ret (if codeIs (errorText result) standing then Some result else None)
  else ret (Some result).

Definition executeLiquidation (p : Position) : K () :=
  available ← routerAvailable "liquidate_with_price";
  viaRouter ← (if (available : bool) then
      round ← getExecutionRound (asset p);
      match round with
      | Some _ =>
          result ← exec (LiquidateViaRouter (id p) (asset p));
          routerVerdict "liquidate_with_price" result []
      | None => ret None
      end
    else ret None);
  match viaRouter with
  | Some result => recordLiquidation true result
  | None => result ← exec (Liquidate (id p)); recordLiquidation false result
  end.

Definition QUIET_LIQ_CODES : list Z := [50; 20; 83; 90; 86].

Definition checkPosition (prices : gmap string Z) (fullSweep : bool) (p : Position) : K () :=
  candidate ← (
    if fullSweep then ret true
    else match prices !! asset p with
         | None => ret true
         | Some price =>
             mmBps ← prefilterMmBps (asset p);
             ret (isLiquidationCandidate p price mmBps CANDIDATE_BUFFER)
         end);
  if negb candidate then modify (setStrikes (delete (isoKey (id p))))
  else
    sim ← simulate (SimulateLiquidate (id p));
    match sim with
    | SimRejected message =>
        if codeIs message [50; 20] then modify (setStrikes (delete (isoKey (id p)))) else ret ()
    | SimOk _ =>
        let bankrupt := match prices !! asset p with
                        | Some price => positionMargin p price 0 <=? 0
                        | None => false
                        end in
        confirmed ← confirmStrike (isoKey (id p)) bankrupt;
        if (confirmed : bool) then executeLiquidation p else ret ()
    end.

Definition liveKeys (ps : list Position) : list string :=
  map (fun p => if margin_mode p =? 1 then crossKey (trader p) else isoKey (id p)) ps.

Definition checkLiquidations (snapshot : CycleSnapshot) (fullSweep : bool) : K () :=
  prices ← gets localPriceMap;
  _ ← modify (setStrikes (filter (fun kv => kv.1 ∈ liveKeys (s_positions snapshot))));
  forEach (s_positions snapshot) (fun p =>
    if margin_mode p =? 1 then ret ()
    else tryCatch (checkPosition prices fullSweep p) (fun _ => ret ())).

(** ** Cross-margin accounts *)

Definition QUIET_CROSS_CODES : list Z := [78; 83; 90; 86].

(** The per-asset maintenance margins, resolved once per asset. *)
Fixpoint resolveMmBps (ps : list Position) (mm : gmap string Z) : K (gmap string Z) :=
  match ps with
  | [] => ret mm
  | p :: ps =>
      match mm !! asset p with
      | Some _ => resolveMmBps ps mm
      | None => v ← prefilterMmBps (asset p); resolveMmBps ps (<[asset p := v]> mm)
      end
  end.

(** A fresh round for every asset, or none at all. *)
Fixpoint collectRounds (assets : list string) (acc : list string) : K (list string) :=
  match assets with
  | [] => ret acc
  | a :: assets =>
      round ← getExecutionRound a;
      match round with
      | None => ret []
      | Some _ => collectRounds assets (acc ++ [a])
      end
  end.

(** [new Set(xs)]: first occurrences, in order. *)
Fixpoint distinct (seen xs : list string) : list string :=
  match xs with
  | [] => []
  | x :: xs => if bool_decide (x ∈ seen) then distinct seen xs else x :: distinct (x :: seen) xs
  end.

Definition liquidateCross (trader : string) (ps : list Position) : K () :=
  available ← routerAvailable "liquidate_cross_with_prices";
  viaRouter ← (if (available : bool) then
      rounds ← collectRounds (distinct [] (map asset ps)) [];
      match rounds with
      | [] => ret None
      | _ =>
          result ← exec (LiquidateCrossViaRouter trader rounds);
          routerVerdict "liquidate_cross_with_prices" result QUIET_CROSS_CODES
      end
    else ret None);
  match viaRouter with
  | Some result => recordLiquidation true result
  | None => result ← exec (LiquidateCrossAccount trader); recordLiquidation false result
  end.

(** Whether the account passes the local filter; [None] skips it. *)
Definition crossCandidate (prices : gmap string Z) (fullSweep : bool) (trader : string)
    (ps : list Position) : K (option bool) :=
  if fullSweep then ret (Some true)
  else
    balance ← getCrossBalanceCached trader;
    match balance with
    | None => ret None
    | Some balance =>
        mmByAsset ← resolveMmBps ps ∅;
        ret (Some (isCrossLiquidationCandidate balance ps prices
          (fun p => default DEFAULT_MAINTENANCE_MARGIN_BPS (mmByAsset !! asset p))
          CANDIDATE_BUFFER))
    end.

Definition checkCrossAccount (prices : gmap string Z) (fullSweep : bool)
    (account : string * list Position) : K () :=
  let (trader, ps) := account in
  candidate ← crossCandidate prices fullSweep trader ps;
  match candidate with
  | None => ret ()
  | Some false => modify (setStrikes (delete (crossKey trader)))
  | Some true =>
      equityBalance ← getCrossBalanceCached trader;
      let equity := equityBalance ≫= fun balance => crossEquity balance ps prices in
      let bankrupt := match equity with Some e => e <=? 0 | None => false end in
      confirmed ← confirmStrike (crossKey trader) bankrupt;
      if (confirmed : bool) then liquidateCross trader ps else ret ()
  end.

Definition checkCrossMarginLiquidations (snapshot : CycleSnapshot) (fullSweep : bool) : K () :=
  let crossByTrader :=
    groupBy trader (bfilter (fun p => margin_mode p =? 1) (s_positions snapshot)) in
  match crossByTrader with
  | [] => ret ()
  | _ =>
      _ ← modify (setCrossBalances (filter (fun kv => kv.1 ∈ crossByTrader.*1)));
      prices ← gets localPriceMap;
      forEach crossByTrader (fun account =>
        tryCatch (checkCrossAccount prices fullSweep account) (fun _ => ret ()))
  end.
End liquidations.

(** ** Theorems *)

(** *** Groups *)

(** A group holds elements of the list with the group's key. *)
Lemma elem_of_addToGroup {A} key (x : A) gs k l :
  (k, l) ∈ addToGroup key x gs ->
  forall y, y ∈ l -> (k = key /\ y = x) \/ exists l', (k, l') ∈ gs /\ y ∈ l'.
Proof.
  induction gs as [|[k' l'] gs IH]; simpl.
  - intros Hin y Hy. apply list_elem_of_singleton in Hin as [= -> ->].
    apply list_elem_of_singleton in Hy as ->. by left.
  - destruct (String.eqb_spec k' key) as [->|Hne]; intros [Heq|Hin]%elem_of_cons y Hy.
    + injection Heq as -> ->. apply elem_of_app in Hy as [Hy|Hy%list_elem_of_singleton]; [|by left].
      right. exists l'. split; [by left|done].
    + right. exists l. split; [by right|done].
    + injection Heq as -> ->. right. exists l'. split; [by left|done].
    + destruct (IH Hin y Hy) as [|(l2 & ? & ?)]; [by left|]. right. exists l2. split; [by right|done].
Qed.

Lemma elem_of_groupBy {A} (key : A -> string) l k ps x :
  (k, ps) ∈ groupBy key l -> x ∈ ps -> x ∈ l /\ key x = k.
Proof.
  unfold groupBy. assert (forall gs,
    (forall k ps x, (k, ps) ∈ gs -> x ∈ ps -> x ∈ l /\ key x = k) -> forall l', l' ⊆ l ->
    forall k ps x, (k, ps) ∈ foldl (fun gs x => addToGroup (key x) x gs) gs l' -> x ∈ ps ->
    x ∈ l /\ key x = k) as Hgen.
  { intros gs Hgs l'. revert gs Hgs. induction l' as [|y l' IH]; intros gs Hgs Hl; simpl; [done|].
    apply IH; [|set_solver]. intros k' ps' x' Hin Hx.
    destruct (elem_of_addToGroup _ _ _ _ _ Hin x' Hx) as [[-> ->]|(l2 & H1 & H2)]; [|by eapply Hgs].
    split; [|done]. apply Hl. by left. }
  intros Hin Hx. refine (Hgen [] _ l _ k ps x Hin Hx); [|done].
  intros ? ? ? H%elem_of_nil. done.
Qed.

Lemma addToGroup_nonempty {A} key (x : A) gs k l :
  (forall k l, (k, l) ∈ gs -> l <> []) -> (k, l) ∈ addToGroup key x gs -> l <> [].
Proof.
  induction gs as [|[k' l'] gs IH]; simpl; intros Hgs.
  - by intros [= -> ->]%list_elem_of_singleton.
  - assert (forall k l, (k, l) ∈ gs -> l <> []) as Hgs' by (intros ? ? ?; eapply Hgs; by right).
    destruct (String.eqb k' key); intros [Heq|Hin]%elem_of_cons.
    + injection Heq as -> ->. by destruct l'.
    + by eapply Hgs'.
    + injection Heq as -> ->. eapply Hgs. by left.
    + by apply IH.
Qed.

Lemma groupBy_nonempty {A} (key : A -> string) l k g : (k, g) ∈ groupBy key l -> g <> [].
Proof.
  unfold groupBy. assert (forall gs, (forall k g, (k, g) ∈ gs -> g <> []) ->
    forall k g, (k, g) ∈ foldl (fun gs x => addToGroup (key x) x gs) gs l -> g <> []) as Hgen.
  { induction l as [|x l IH]; intros gs Hgs; simpl; [done|]. apply IH.
    intros k' g'. by apply addToGroup_nonempty. }
  apply Hgen. by intros ? ? ?%elem_of_nil.
Qed.

Lemma addToGroup_covers {A} key (x : A) gs y :
  (exists k g, (k, g) ∈ addToGroup key x gs /\ y ∈ g) <->
  y = x \/ exists k g, (k, g) ∈ gs /\ y ∈ g.
Proof.
  induction gs as [|[k' l'] gs IH]; simpl.
  - split.
    + intros (k & g & [= -> ->]%list_elem_of_singleton & Hy%list_elem_of_singleton). by left.
    + intros [->|(k & g & []%elem_of_nil & _)]. exists key, [x]. split; by left.
  - destruct (String.eqb k' key).
    + split.
      * intros (k & g & [Heq|Hin]%elem_of_cons & Hy).
        -- injection Heq as -> ->. apply elem_of_app in Hy as [Hy|Hy%list_elem_of_singleton]; [|by left].
           right. exists k', l'. split; [by left|done].
        -- right. exists k, g. split; [by right|done].
      * intros [->|(k & g & [Heq|Hin]%elem_of_cons & Hy)].
        -- exists k', (l' ++ [x]). split; [by left | set_solver].
        -- injection Heq as -> ->. exists k', (l' ++ [x]). split; [by left | set_solver].
        -- exists k, g. split; [by right|done].
    + split.
      * intros (k & g & [Heq|Hin]%elem_of_cons & Hy).
        -- injection Heq as -> ->. right. exists k', l'. split; [by left|done].
        -- destruct (proj1 IH) as [|(k2 & g2 & ? & ?)]; [by exists k, g | by left |].
           right. exists k2, g2. split; [by right|done].
      * intros [->|(k & g & [Heq|Hin]%elem_of_cons & Hy)].
        -- destruct (proj2 IH) as (k & g & ? & ?); [by left|]. exists k, g. split; [by right|done].
        -- injection Heq as -> ->. exists k', l'. split; [by left|done].
        -- destruct (proj2 IH) as (k2 & g2 & ? & ?); [by right; exists k, g|].
           exists k2, g2. split; [by right|done].
Qed.

(** *** Histories *)

(** Since the history [base], the simulation [a] was answered ok. *)
Definition okSimulated {W : World} (base : list Action) (a : Action) (h : list Action) : Prop :=
  exists l1 l2 rv, h = base ++ l1 ++ a :: l2 /\ w_sim (base ++ l1) a = Ok (SimOk rv).

#[export] Instance okSimulated_stable {W : World} base a : Stable (okSimulated base a).
Proof.
  intros h n (l1 & l2 & rv & -> & Hs). exists l1, (l2 ++ n), rv. split; [|done].
  by rewrite <- !app_assoc.
Qed.

(** The history grew from [base]. *)
Definition since (base h : list Action) : Prop := exists n, h = base ++ n.

#[export] Instance since_stable base : Stable (since base).
Proof. intros h n [m ->]. exists (m ++ n). by rewrite app_assoc. Qed.

Lemma since_okSimulated {W : World} base a h rv :
  since base h -> w_sim h a = Ok (SimOk rv) -> okSimulated base a (h ++ [a]).
Proof.
  intros [n ->] Hs. exists n, [], rv. split; [by rewrite <- app_assoc|done].
Qed.

Section liquidation_facts.
Context {W : World} (config : Config).

Section guard.
Context (base : list Action).

(** Submissions for a position need its simulation. *)
Definition liquidationGuard (a : Action) : option (list Action -> Prop) :=
  match a with
  | Liquidate id | LiquidateViaRouter id _ => Some (okSimulated base (SimulateLiquidate id))
  | _ => None
  end.

Lemma always_free {A} a (f : list Action -> Result A) Pre :
  liquidationGuard a = None -> Always Pre (Guarded liquidationGuard) (io a f).
Proof. intros Hg. apply always_io. intros h _. by apply guarded_free. Qed.

Ltac free := always_auto ltac:(apply guarded_free; reflexivity).

Lemma rounds_free Pre `{!Stable Pre} symbol :
  Always Pre (Guarded liquidationGuard) (getExecutionRound symbol).
Proof. unfold getExecutionRound, refreshRounds, fetchNoeracleFresh, now. free. Qed.

Lemma mmBps_free Pre `{!Stable Pre} a : Always Pre (Guarded liquidationGuard) (prefilterMmBps a).
Proof. unfold prefilterMmBps, now, readOptInt. free. Qed.

Lemma strike_free Pre `{!Stable Pre} key b :
  Always Pre (Guarded liquidationGuard) (confirmStrike config key b).
Proof. unfold confirmStrike. free. Qed.

Lemma record_free Pre `{!Stable Pre} r result :
  Always Pre (Guarded liquidationGuard) (recordLiquidation r result).
Proof. unfold recordLiquidation, addStat. free. Qed.

Lemma verdict_free Pre `{!Stable Pre} fn result codes :
  Always Pre (Guarded liquidationGuard) (routerVerdict fn result codes).
Proof. unfold routerVerdict. free. Qed.

Lemma executeLiquidation_guarded p :
  Always (okSimulated base (SimulateLiquidate (id p))) (Guarded liquidationGuard)
    (executeLiquidation config p).
Proof.
  assert (forall h a, (a = Liquidate (id p) \/ a = LiquidateViaRouter (id p) (asset p)) ->
    okSimulated base (SimulateLiquidate (id p)) h -> Guarded liquidationGuard h [a]) as Hone.
  { intros h a Ha Hok. apply guarded_one. intros c. by destruct Ha as [->| ->]; intros [= <-]. }
  unfold executeLiquidation, routerAvailable, exec.
  abind; [apply always_gets; apply _|]. abind.
  - destruct a; [|apply always_ret; apply _]. abind; [apply rounds_free; apply _|].
    destruct a; [|apply always_ret; apply _]. abind; [|apply verdict_free; apply _].
    apply always_io; intros h Hh. apply Hone; auto.
  - destruct a0; [apply record_free; apply _|]. abind; [|apply record_free; apply _].
    apply always_io; intros h Hh. apply Hone; auto.
Qed.

Lemma checkPosition_guarded prices sweep p :
  Always (since base) (Guarded liquidationGuard) (checkPosition config prices sweep p).
Proof.
  unfold checkPosition. abind.
  { destruct sweep; [free|]. destruct (prices !! asset p); [|free].
    abind; [apply mmBps_free; apply _ | free]. }
  destruct (negb a); [free|]. unfold simulate.
  apply (always_io_bind _ _ _ _ _ (fun x h => match x with
    | SimOk _ => okSimulated base (SimulateLiquidate (id p)) h
    | SimRejected _ => True end)).
  - intros h _. by apply guarded_free.
  - intros h [rv|m] Hh Hs; [|done]. by eapply since_okSimulated.
  - intros [rv|m].
    + abind; [apply strike_free; apply _|]. destruct a0; [|free].
      apply executeLiquidation_guarded.
    + destruct (codeIs _ _); apply always_modify || apply always_ret; apply _.
Qed.

Lemma checkLiquidations_guarded snapshot sweep :
  Always (since base) (Guarded liquidationGuard) (checkLiquidations config snapshot sweep).
Proof.
  unfold checkLiquidations. abind; [free|]. abind; [free|].
  apply always_forEach; [apply _ | apply _ | intros p _].
  destruct (margin_mode p =? 1); [free|].
  apply always_try; [apply _ | apply _ | apply checkPosition_guarded | intros e; free].
Qed.
End guard.

(** C3. The keeper never pays for a liquidation the chain did not just say
    it would accept: in the isolated scan, every submission for a position,
    direct or through the router, comes after a simulation of that same
    liquidation, made in this scan, that the chain answered ok. *)
Theorem liquidation_after_simulation snapshot sweep b h pre a post pid :
  a = Liquidate pid \/ (exists asset, a = LiquidateViaRouter pid asset) ->
  (checkLiquidations config snapshot sweep b h).2 = pre ++ a :: post ->
  exists l1 l2 rv, pre = l1 ++ SimulateLiquidate pid :: l2
    /\ w_sim (h ++ l1) (SimulateLiquidate pid) = Ok (SimOk rv).
Proof.
  intros Ha Hn. pose proof (checkLiquidations_guarded h snapshot sweep h) as Hg.
  specialize (Hg ltac:(exists []; by rewrite app_nil_r) b).
  destruct (checkLiquidations _ _ _ _ _) as [[r b'] new]. simpl in Hn.
  destruct (Hg pre a post (okSimulated h (SimulateLiquidate pid)) Hn) as (l1 & l2 & rv & He & Hs).
  - by destruct Ha as [->|[asset ->]].
  - apply app_inv_head in He. eauto.
Qed.

(** *** The router is never the end of a liquidation *)

Definition stands (result : ExecutionResult) : Prop :=
  success result = true \/ indeterminate result = true.

(** The router call [a] was made after [h] and its answer stands. *)
Definition routerStood (a : Action) (h new : list Action) : Prop :=
  exists l1 l2 result, new = l1 ++ a :: l2 /\ w_exec (h ++ l1) a = Ok result /\ stands result.

Lemma routerVerdict_stands h fn result :
  Emits h (routerVerdict fn result []) (fun r _ => forall x, r = Ok (Some x) -> stands x).
Proof.
  unfold routerVerdict. destruct (success result) eqn:Hs, (indeterminate result) eqn:Hi; simpl;
    try (apply emits_ret; intros x [= <-]; unfold stands; auto).
  apply emits_bind. eapply emits_weaken.
  - instantiate (1 := fun _ _ => True). by destruct (isMissingContractFunction _).
  - intros [e|[]] n _; [by intros x|]. apply emits_ret. unfold codeIs.
    destruct (extractContractErrorCode _); simpl; by intros x.
Qed.

Lemma routerAttempt_stands h p fn (available : bool) :
  Emits h (if available then
      round ← getExecutionRound (asset p);
      match round with
      | Some _ => result ← exec (LiquidateViaRouter (id p) (asset p)); routerVerdict fn result []
      | None => ret None
      end
    else ret None)
  (fun r new => forall x, r = Ok (Some x) ->
     routerStood (LiquidateViaRouter (id p) (asset p)) h new).
Proof.
  destruct available; [|by apply emits_ret].
  apply emits_bind. eapply emits_weaken; [instantiate (1 := fun _ _ => True); by intros b; destruct (getExecutionRound _ b h) as [[? ?] ?]|].
  intros [e|[round|]] n1 _; [by intros x | | by apply emits_ret].
  apply emits_bind, emits_io. destruct (w_exec _ _) as [e|result] eqn:Hx; [by intros x|].
  intros b. pose proof (routerVerdict_stands ((h ++ n1) ++ [LiquidateViaRouter (id p) (asset p)]) fn result b) as Hv.
  assert (forall h b, match routerVerdict fn result [] b h with (r, _, _) =>
            forall x, r = Ok (Some x) -> x = result end) as Hsame.
  { clear. intros h b. unfold routerVerdict. destruct (negb _ && negb _).
    - unfold mbind, K_bind. destruct (isMissingContractFunction _); simpl;
        destruct (codeIs _ _); simpl; by intros x [=].
    - simpl. by intros x [=]. }
  specialize (Hsame ((h ++ n1) ++ [LiquidateViaRouter (id p) (asset p)]) b).
  destruct (routerVerdict _ _ _ _ _) as [[r b'] n2]. intros x Hr.
  exists n1, n2, result. split; [done|]. split; [done|].
  rewrite <- (Hsame x Hr). by apply Hv.
Qed.

(** A liquidation is not lost to the router: a run of executeLiquidation
    that no exception cuts short either got an answer from the router that
    stands (success, or a transaction that may still land) or submitted the
    direct liquidation. *)
Theorem router_never_loses_liquidation p b h b' new :
  executeLiquidation config p b h = (Ok (), b', new) ->
  Liquidate (id p) ∈ new \/ routerStood (LiquidateViaRouter (id p) (asset p)) h new.
Proof.
  intros Hrun.
  assert (Emits h (executeLiquidation config p) (fun r new => r = Ok () ->
    Liquidate (id p) ∈ new \/ routerStood (LiquidateViaRouter (id p) (asset p)) h new)) as He;
    [|by specialize (He b); rewrite Hrun in He; apply He].
  unfold executeLiquidation, routerAvailable.
  apply emits_bind, emits_gets. intros available. simpl. rewrite app_nil_r.
  apply emits_bind. eapply emits_weaken; [apply routerAttempt_stands|]. simpl.
  intros [e|[result|]] n1 Hn1; [done| |].
  - intros b0. destruct (recordLiquidation _ _ _ _) as [[r b1] n2]. intros _. right.
    destruct (Hn1 result eq_refl) as (l1 & l2 & x & -> & Hx). exists l1, (l2 ++ n2), x.
    by rewrite <- app_assoc.
  - apply emits_bind, emits_io. destruct (w_exec _ _); [done|].
    intros b0. destruct (recordLiquidation _ _ _ _) as [[r b1] n2]. intros _. left.
    rewrite !elem_of_app. right. left. by left.
Qed.

(** *** Every position is looked at *)

(** The local filter lets the position through whatever the ladder says. *)
Definition mustSimulate (prices : gmap string Z) (sweep : bool) (p : Position) : Prop :=
  margin_mode p ≠ 1
  /\ (sweep = true \/ prices !! asset p = None
      \/ exists price, prices !! asset p = Some price
           /\ forall mmBps, isLiquidationCandidate p price mmBps CANDIDATE_BUFFER = true).

Lemma prefilterMmBps_ok h a : Emits h (prefilterMmBps a) (fun r _ => is_Some (match r with
  | inr mm => Some mm | inl _ => None end)).
Proof.
  intros b. unfold prefilterMmBps, mbind, K_bind, gets, now, io, tryCatch, readOptInt. simpl.
  destruct (bool_decide _); [simpl; eauto|]. simpl.
  destruct (assetMmBpsCache _ !! a) as [[mm at_]|]; simpl.
  - destruct (_ <? _); simpl; [eauto|].
    destruct (w_optInt _ _) as [e|o]; simpl; [destruct (isMissingContractFunction e)|]; simpl; eauto.
  - destruct (w_optInt _ _) as [e|o]; simpl; [destruct (isMissingContractFunction e)|]; simpl; eauto.
Qed.

Lemma checkPosition_simulates h prices sweep p :
  mustSimulate prices sweep p ->
  Emits h (checkPosition config prices sweep p) (fun _ new => SimulateLiquidate (id p) ∈ new).
Proof.
  intros [_ Hmust]. unfold checkPosition.
  apply emits_bind. apply emits_weaken with (P := fun r _ => r = Ok true).
  - destruct sweep; [by apply emits_ret|]. destruct (prices !! asset p) as [price|]; [|by apply emits_ret].
    destruct Hmust as [|[|(x & [= <-] & Hc)]]; [done..|].
    apply emits_bind. eapply emits_weaken; [apply prefilterMmBps_ok|]. simpl.
    intros [e|mm] n [v Hv]; [done|]. apply emits_ret. by rewrite Hc.
  - intros r n1 ->. simpl. apply emits_bind, emits_io.
    assert (SimulateLiquidate (id p) ∈ n1 ++ [SimulateLiquidate (id p)]) as Hin
      by (rewrite elem_of_app; right; by left).
    destruct (w_sim _ _) as [e|sim]; [done|].
    apply emits_any. intros r n2. rewrite app_assoc, elem_of_app. by left.
Qed.

Lemma checkLiquidations_reaches snapshot sweep b h p :
  p ∈ s_positions snapshot -> mustSimulate (localPriceMap b) sweep p ->
  SimulateLiquidate (id p) ∈ (checkLiquidations config snapshot sweep b h).2
  /\ (checkLiquidations config snapshot sweep b h).1.1 = Ok ().
Proof.
  intros Hp Hm. unfold checkLiquidations, mbind, K_bind, gets, modify. simpl.
  set (b1 := setStrikes _ b). rewrite app_nil_r.
  pose proof (emits_forEach_each (s_positions snapshot) (fun p =>
    if margin_mode p =? 1 then ret ()
    else tryCatch (checkPosition config (localPriceMap b) sweep p) (fun _ => ret ()))
    (fun p new => mustSimulate (localPriceMap b) sweep p -> SimulateLiquidate (id p) ∈ new))
    as Hloop.
  specialize (Hloop ltac:(intros x n1 n n2 Hx Hmx; rewrite !elem_of_app; auto)).
  assert (forall x h, x ∈ s_positions snapshot -> Emits h
    (if margin_mode x =? 1 then ret ()
     else tryCatch (checkPosition config (localPriceMap b) sweep x) (fun _ => ret ()))
    (fun r new => r = Ok () /\ (mustSimulate (localPriceMap b) sweep x ->
                                 SimulateLiquidate (id x) ∈ new))) as Hbody.
  { intros x h' _. destruct (Z.eqb_spec (margin_mode x) 1) as [He|He].
    - apply emits_ret. split; [done|]. by intros [? _].
    - apply emits_try_skip. intros b'.
      destruct (checkPosition _ _ _ _ _ _) as [[r b2] new] eqn:Hrun. intros Hx.
      pose proof (checkPosition_simulates h' _ _ _ Hx b') as Hs. by rewrite Hrun in Hs. }
  specialize (Hloop Hbody (h ++ []) b1). rewrite app_nil_r in Hloop.
  rewrite ?app_nil_r. destruct (forEach _ _ _ _) as [[r b2] new]. simpl in *. destruct Hloop as [-> Hall].
  split; [|done]. by apply Hall.
Qed.

(** No position starves another. In every isolated scan, each position
    the filter lets through (all of them on a full sweep) has its
    liquidation simulated, whatever reads, simulations or submissions fail
    or throw for the others. *)
Theorem scan_reaches_every_position snapshot sweep b h p :
  p ∈ s_positions snapshot -> mustSimulate (localPriceMap b) sweep p ->
  SimulateLiquidate (id p) ∈ (checkLiquidations config snapshot sweep b h).2
  /\ (checkLiquidations config snapshot sweep b h).1.1 = Ok ().
Proof. apply checkLiquidations_reaches. Qed.

(** *** Two strikes *)

(** [n] confirmations of one key, then one more, whose verdict is returned. *)
Fixpoint confirmAfter (n : nat) (key : string) : K bool :=
  match n with
  | O => confirmStrike config key false
  | S n => _ ← confirmStrike config key false; confirmAfter n key
  end.

Lemma confirmStrike_run key b h k :
  1 < triggerConfirmReads config -> 0 <= k < triggerConfirmReads config ->
  liqStrikes (liqS b) !! key = (if k =? 0 then None else Some k) ->
  exists b', confirmStrike config key false b h
              = (Ok (bool_decide (k + 1 = triggerConfirmReads config)), b', [])
    /\ let k' := if k + 1 =? triggerConfirmReads config then 0 else k + 1 in
       liqStrikes (liqS b') !! key = (if k' =? 0 then None else Some k').
Proof.
  intros HN Hk Hb. unfold confirmStrike. simpl.
  destruct (Z.leb_spec (triggerConfirmReads config) 1); [lia|].
  unfold mbind, K_bind, gets, modify, ret. simpl.
  assert (default 0 (liqStrikes (liqS b) !! key) = k) as ->.
  { rewrite Hb. destruct (Z.eqb_spec k 0) as [->|]; done. }
  destruct (Z.leb_spec (triggerConfirmReads config) (k + 1)).
  - eexists. rewrite bool_decide_eq_true_2 by lia. split; [done|].
    destruct (Z.eqb_spec (k + 1) (triggerConfirmReads config)); [|lia]. simpl.
    by rewrite lookup_delete_eq.
  - eexists. rewrite bool_decide_eq_false_2 by lia. split; [done|].
    destruct (Z.eqb_spec (k + 1) (triggerConfirmReads config)); [lia|].
    destruct (Z.eqb_spec (k + 1) 0); [lia|]. simpl. by rewrite lookup_insert_eq.
Qed.

(** Confirmation takes exactly the configured number of consecutive
    reads: from a clean count, of the successive confirmations of one
    position or account that is not bankrupt, those that fire are every
    [triggerConfirmReads]-th, and no confirmation performs any action. *)
Theorem strikes_fire_every_nth n key b h :
  1 < triggerConfirmReads config -> liqStrikes (liqS b) !! key = None ->
  exists b', confirmAfter n key b h
    = (Ok (bool_decide (Z.of_nat (S n) mod triggerConfirmReads config = 0)), b', []).
Proof.
  intros HN Hb. set (N := triggerConfirmReads config) in *.
  assert (forall n k b h, 0 <= k < N ->
    liqStrikes (liqS b) !! key = (if k =? 0 then None else Some k) ->
    exists b', confirmAfter n key b h
      = (Ok (bool_decide ((k + Z.of_nat (S n)) mod N = 0)), b', [])) as Hgen.
  { clear n b h Hb. induction n as [|n IH]; intros k b h Hk Hb; simpl.
    - destruct (confirmStrike_run key b h k HN Hk Hb) as (b' & -> & _). exists b'.
      do 3 f_equal. apply bool_decide_ext. fold N. split.
      + intros He. replace (k + Z.of_nat 1) with N by lia. by rewrite Z.mod_same by lia.
      + intros Hm. apply Z.mod_divide in Hm as [q Hq]; [|lia]. destruct (Z.lt_trichotomy q 1) as [|[->|]]; nia.
    - destruct (confirmStrike_run key b h k HN Hk Hb) as (b1 & Hrun & Hb1).
      unfold mbind, K_bind. rewrite Hrun.
      destruct (IH (if k + 1 =? N then 0 else k + 1) b1 (h ++ [])) as (b2 & ->);
        [destruct (Z.eqb_spec (k + 1) N); lia | exact Hb1 |].
      exists b2. do 3 f_equal. apply bool_decide_ext.
      destruct (Z.eqb_spec (k + 1) N) as [He|He].
      + replace (k + Z.of_nat (S (S n))) with (0 + Z.of_nat (S n) + 1 * N) by lia.
        by rewrite Z.mod_add by lia.
      + by replace (k + 1 + Z.of_nat (S n)) with (k + Z.of_nat (S (S n))) by lia. }
  destruct (Hgen n 0 b h) as (b' & ->); [lia | exact Hb |]. by exists b'.
Qed.
End liquidation_facts.

(** ** Witnesses *)

(** The second read of position 7, which is liquidated then. *)
Definition struckBot : Bot := setStrikes <[isoKey 7 := 1]> emptyBot.
Definition oneLong : CycleSnapshot := {| s_positions := [sampleLong]; s_orders := [] |}.

Theorem liquidation_after_simulation_witness :
  exists l1 l2 rv, [SimulateLiquidate 7; Now; FetchNoeracle; Now] = l1 ++ SimulateLiquidate 7 :: l2
    /\ w_sim (World := sampleWorld) ([] ++ l1) (SimulateLiquidate 7) = Ok (SimOk rv).
Proof.
  apply (liquidation_after_simulation (W := sampleWorld) sampleConfig oneLong true struckBot []
           _ (Liquidate 7) [] 7); [by left | vm_compute; reflexivity].
Defined.

Theorem router_never_loses_liquidation_witness :
  exists new, Liquidate 7 ∈ new
    \/ routerStood (W := sampleWorld) (LiquidateViaRouter 7 "BTC") [] new.
Proof.
  eexists. apply (router_never_loses_liquidation (W := sampleWorld) sampleConfig sampleLong emptyBot []
                    (executeLiquidation (W := sampleWorld) sampleConfig sampleLong emptyBot []).1.2).
  vm_compute. reflexivity.
Defined.

Theorem scan_reaches_every_position_witness :
  SimulateLiquidate 7 ∈
    (checkLiquidations (W := sampleWorld) sampleConfig oneLong true emptyBot []).2.
Proof.
  apply (scan_reaches_every_position (W := sampleWorld) sampleConfig oneLong true emptyBot []
           sampleLong); [by left | split; [done | by left]].
Defined.

Theorem strikes_fire_every_nth_witness :
  exists b', confirmAfter sampleConfig 1 "iso:7" emptyBot [] = (Ok true, b', []).
Proof.
  destruct (strikes_fire_every_nth sampleConfig 1 "iso:7" emptyBot [])
    as [b' H]; [by vm_compute | reflexivity |]. exists b'. exact H.
Defined.
