(* ===== verification/KeeperOrders.v ===== *)
(** * Order phases of the keeper

    Models order execution, the router rescue, the factory reconcile duty and
    the trailing-stop updates of scripts/keeper/src/index.ts. *)

From S2P Require Import Prelude JsText Health KeeperSupport KeeperEffects KeeperLiquidations.
Open Scope Z_scope.
Open Scope js_scope.

Definition setOrphaned (f : gset string -> gset string) : Bot -> Bot := onOrder (fun o => {|
  orphanedOrderIds := f (orphanedOrderIds o); triggeredStuckCounts := triggeredStuckCounts o;
  factoryReconcileSupported := factoryReconcileSupported o |}).
Definition setStuckCounts (m : gmap string Z) : Bot -> Bot := onOrder (fun o => {|
  orphanedOrderIds := orphanedOrderIds o; triggeredStuckCounts := m;
  factoryReconcileSupported := factoryReconcileSupported o |}).
Definition setReconcile (s : bool) : Bot -> Bot := onOrder (fun o => {|
  orphanedOrderIds := orphanedOrderIds o; triggeredStuckCounts := triggeredStuckCounts o;
  factoryReconcileSupported := Some s |}).

Definition orderKey (o : Order) : string := decimalOfZ (o_id o).

Section orders.
Context {W : World} (config : Config).

(** ** Factory reconcile duty *)

Definition maybeReconcileFactoryOrder (orderId : Z) : K () :=
  supported ← gets (fun b => factoryReconcileSupported (orderS b));
  if negb (hasFactory config) || bool_decide (supported = Some false) then ret ()
  else
    vaultId ← tryCatch (v ← readOptInt (GetOrderVault orderId); ret (Some v))
      (fun message =>
        _ ← (if isMissingContractFunction message then modify (setReconcile false) else ret ());
        ret None);
    match vaultId with
    | None => ret ()
    | Some vaultId =>
        _ ← modify (setReconcile true);
        match vaultId with
        | None => ret ()
        | Some vaultId =>
            result ← exec (ReconcileOrder vaultId orderId);
            if success result then addStat "ordersReconciled" 1 else ret ()
        end
    end.

(** ** Outcomes *)

Definition classifyOrderSimRejection (o : Order) (message : string) : K () :=
  if codeIs message [62] then ret ()
  else if codeIs message [20; 60] then
    known ← gets (fun b => bool_decide (orderKey o ∈ orphanedOrderIds (orderS b)));
    if (known : bool) then ret ()
    else (_ ← modify (setOrphaned (union {[orderKey o]})); addStat "ordersSkippedOrphaned" 1)
  else ret ().

(** A success with no reward value throws where the reward is added. *)
Definition handleOrderExecutionResult (orderId : Z) (type : OrderType)
    (result : ExecutionResult) (router : bool) : K () :=
  _ ← (if success result && router then addStat "routerExecutions" 1 else ret ());
  if success result then
    match reward result with
    | Some r =>
        if r =? 0 then
          if bool_decide (type = StopLimit) then ret ()
          else (_ ← addStat "ordersCancelledSlippage" 1; maybeReconcileFactoryOrder orderId)
        else
          _ ← addStat "ordersExecuted" 1;
          _ ← addStat "totalRewardsEarned" r;
          maybeReconcileFactoryOrder orderId
    | None => _ ← addStat "ordersExecuted" 1; throw "Cannot mix BigInt and other types"
    end
  else if indeterminate result then ret ()
  else if includes (errorText result) "PositionNotFound" || includes (errorText result) "#20"
  then addStat "ordersSkippedOrphaned" 1
  else ret ().

(** ** Execution *)

Definition tryRouterRescue (o : Order) : K bool :=
  available ← routerAvailable config "execute_with_price";
  if negb available then ret false
  else
    round ← getExecutionRound (o_asset o);
    match round with
    | None => ret false
    | Some _ =>
        sim ← simulate (SimulateRouterExecute (o_id o) (o_asset o));
        match sim with
        | SimRejected message =>
            _ ← (if isMissingContractFunction message
                 then modify (setRouterFn "execute_with_price" false)
                 else classifyOrderSimRejection o message);
            ret false
        | SimOk _ =>
            result ← exec (ExecuteOrderViaRouter (o_id o) (o_asset o));
            _ ← handleOrderExecutionResult (o_id o) (order_type o) result true;
            ret true
        end
    end.

Definition executeOrder (o : Order) : K () :=
  available ← routerAvailable config "execute_with_price";
  viaRouter ← (if (available : bool) then
      round ← getExecutionRound (o_asset o);
      match round with
      | None => ret None
      | Some _ =>
          sim ← simulate (SimulateRouterExecute (o_id o) (o_asset o));
          match sim with
          | SimOk _ => result ← exec (ExecuteOrderViaRouter (o_id o) (o_asset o)); ret (Some result)
          | SimRejected message =>
              _ ← (if isMissingContractFunction message
                   then modify (setRouterFn "execute_with_price" false) else ret ());
              ret None
          end
      end
    else ret None);
  match viaRouter with
  | Some result => handleOrderExecutionResult (o_id o) (order_type o) result true
  | None =>
      result ← exec (ExecuteOrder (o_id o));
      handleOrderExecutionResult (o_id o) (order_type o) result false
  end.

(** ** The scan

    [triggeredIds] is threaded through the loop; an order is marked before
    its execution, so an exception there keeps the mark. *)

Definition checkOrder (o : Order) (triggered : list string) : K (list string) :=
  sim ← tryCatch (s ← simulate (SimulateExecuteOrder (o_id o)); ret (Some s))
    (fun _ => ret None);
  match sim with
  | None => ret triggered
  | Some (SimRejected message) =>
      tryCatch (
          rescued ← (if codeIs message [30] then tryRouterRescue o else ret false);
          if (rescued : bool) then ret (orderKey o :: triggered)
          else (_ ← classifyOrderSimRejection o message; ret triggered))
        (fun _ => ret triggered)
  | Some (SimOk _) =>
      _ ← tryCatch (executeOrder o) (fun _ => ret ());
      ret (orderKey o :: triggered)
  end.

Fixpoint checkEach (os : list Order) (triggered : list string) : K (list string) :=
  match os with
  | [] => ret triggered
  | o :: os => triggered ← checkOrder o triggered; checkEach os triggered
  end.

Definition checkOrders (snapshot : CycleSnapshot) : K () :=
  triggered ← checkEach (filter (fun o => status o = Pending) (s_orders snapshot)) [];
  counts ← gets (fun b => triggeredStuckCounts (orderS b));
  let (counts', stuck) :=
    Deadman.trackTriggeredStuck counts (rev (remove_dups triggered)) (triggeredStuckAlertCycles config) in
  _ ← modify (setStuckCounts counts');
  match stuck with
  | [] => ret ()
  | _ => alert critical "Orders are stuck"
  end.

(** ** Trailing stops *)

Definition updateTrailing (o : Order) : K () :=
  sim ← simulate (SimulateUpdateTrailingPeak (o_id o));
  match sim with
  | SimOk (Some true) =>
      result ← exec (UpdateTrailingPeak (o_id o));
      if success result then addStat "trailingPeakUpdates" 1 else ret ()
  | _ => ret ()
  end.

Definition updateTrailingStopPeaks (snapshot : CycleSnapshot) : K () :=
  forEach (filter (fun o => order_type o = TrailingStop /\ status o = Pending)
             (s_orders snapshot))
    (fun o => tryCatch (updateTrailing o) (fun _ => ret ())).
End orders.

(** ** Theorems *)

(** Since [base], the simulation [a] was answered [outcome]. *)
Definition simulatedAs {W : World} (base : list Action) (a : Action) (outcome : SimulationOutcome)
    (h : list Action) : Prop :=
  exists l1 l2, h = base ++ l1 ++ a :: l2 /\ w_sim (base ++ l1) a = Ok outcome.

#[export] Instance simulatedAs_stable {W : World} base a outcome :
  Stable (simulatedAs base a outcome).
Proof.
  intros h n (l1 & l2 & -> & Hs). exists l1, (l2 ++ n). split; [|done]. by rewrite <- !app_assoc.
Qed.

Lemma since_simulatedAs {W : World} base a h outcome :
  since base h -> w_sim h a = Ok outcome -> simulatedAs base a outcome (h ++ [a]).
Proof. intros [n ->] Hs. exists n, []. split; [by rewrite <- app_assoc|done]. Qed.

(** Since [base], the order was submitted and the submission succeeded. *)
Definition executedOk {W : World} (base : list Action) (orderId : Z) (h : list Action) : Prop :=
  exists l1 l2 a result, h = base ++ l1 ++ a :: l2
    /\ (a = ExecuteOrder orderId \/ exists asset, a = ExecuteOrderViaRouter orderId asset)
    /\ w_exec (base ++ l1) a = Ok result /\ success result = true.

#[export] Instance executedOk_stable {W : World} base orderId : Stable (executedOk base orderId).
Proof.
  intros h n (l1 & l2 & a & r & -> & Ha & Hs). exists l1, (l2 ++ n), a, r. split; [|done].
  by rewrite <- !app_assoc.
Qed.

#[export] Instance both_stable P Q : Stable P -> Stable Q -> Stable (fun h => P h /\ Q h).
Proof. intros HP HQ h n [Hp Hq]. split; by apply stable. Qed.

#[export] Instance implied_stable (c : Prop) P : Stable P -> Stable (fun h => c -> P h).
Proof. intros HP h n Hh Hc. by apply stable, Hh. Qed.

Section order_facts.
Context {W : World} (config : Config) (base : list Action).

(** What must have happened since [base] before a submission. *)
Definition orderGuard (a : Action) : option (list Action -> Prop) :=
  match a with
  | ExecuteOrder id => Some (okSimulated base (SimulateExecuteOrder id))
  | ExecuteOrderViaRouter id asset => Some (okSimulated base (SimulateRouterExecute id asset))
  | ReconcileOrder _ id => Some (executedOk base id)
  | UpdateTrailingPeak id =>
      Some (simulatedAs base (SimulateUpdateTrailingPeak id) (SimOk (Some true)))
  | _ => None
  end.

Ltac free := always_auto ltac:(apply guarded_free; reflexivity).

Lemma order_rounds_free Pre `{!Stable Pre} s :
  Always Pre (Guarded orderGuard) (getExecutionRound s).
Proof. unfold getExecutionRound, refreshRounds, fetchNoeracleFresh, now. free. Qed.

Lemma classify_free Pre `{!Stable Pre} o m :
  Always Pre (Guarded orderGuard) (classifyOrderSimRejection o m).
Proof. unfold classifyOrderSimRejection, addStat. free. Qed.

Lemma reconcile_guarded oid :
  Always (executedOk base oid) (Guarded orderGuard) (maybeReconcileFactoryOrder config oid).
Proof.
  unfold maybeReconcileFactoryOrder, readOptInt, exec, addStat.
  abind; [free|]. destruct (_ || _); [free|]. abind; [free|].
  destruct a0 as [[v|]|]; [|free..]. abind; [free|]. abind; [|free].
  apply always_io. intros h Hh. apply guarded_one. by intros c [= <-].
Qed.

(** The outcome handler, when a success is on record. *)
Lemma outcome_guarded oid type result router :
  Always (fun h => success result = true -> executedOk base oid h) (Guarded orderGuard)
    (handleOrderExecutionResult config oid type result router).
Proof.
  unfold handleOrderExecutionResult, addStat. abind; [free|].
  destruct (success result) eqn:Hs; [|free].
  apply (always_weaken (executedOk base oid)); [auto|].
  destruct (reward result); [|free].
  destruct (_ =? 0); [destruct (bool_decide _)|].
  - free.
  - abind; [free | apply reconcile_guarded].
  - abind; [free|]. abind; [free | apply reconcile_guarded].
Qed.

(** Submit an order whose simulation is on record, then handle the outcome. *)
Lemma submit_guarded {A} (a : Action) oid c (k : ExecutionResult -> K A) :
  orderGuard a = Some c -> (forall h, c h -> since base h) ->
  (a = ExecuteOrder oid \/ exists asset, a = ExecuteOrderViaRouter oid asset) ->
  (forall result, Always (fun h => success result = true -> executedOk base oid h)
                    (Guarded orderGuard) (k result)) ->
  Always c (Guarded orderGuard) (result ← exec a; k result).
Proof.
  intros Hg Hsince Ha Hk. unfold exec.
  apply (always_io_bind _ _ _ _ _ (fun result h => success result = true -> executedOk base oid h)).
  - intros h Hh. apply guarded_one. intros c' Hc'. by simplify_eq.
  - intros h result Hh Hr Hs. apply Hsince in Hh as [n ->]. exists n, [], a, result.
    split; [by rewrite <- app_assoc | done].
  - done.
Qed.

Lemma okSimulated_since a h : okSimulated base a h -> since base h.
Proof. intros (l1 & l2 & rv & -> & _). by eexists. Qed.

(** A simulation, then what may rely on its answer. *)
Lemma simulate_guarded {A} Pre `{!Stable Pre} a (k : SimulationOutcome -> K A) :
  orderGuard a = None -> (forall h, Pre h -> since base h) ->
  (forall rv, Always (okSimulated base a) (Guarded orderGuard) (k (SimOk rv))) ->
  (forall m, Always Pre (Guarded orderGuard) (k (SimRejected m))) ->
  Always Pre (Guarded orderGuard) (s ← simulate a; k s).
Proof.
  intros Hg Hsince Hok Hrej. unfold simulate.
  apply (always_io_bind _ _ _ _ _ (fun x h =>
    match x with SimOk _ => okSimulated base a h | SimRejected _ => Pre h end)).
  - intros h _. by apply guarded_free.
  - intros h [rv|m] Hh Hs; [eapply since_okSimulated; eauto|]. by apply stable.
  - by intros [rv|m].
Qed.

Lemma rescue_guarded o : Always (since base) (Guarded orderGuard) (tryRouterRescue config o).
Proof.
  unfold tryRouterRescue, routerAvailable. abind; [free|]. destruct (negb a); [free|].
  abind; [apply order_rounds_free; apply _|]. destruct a0; [|free].
  apply simulate_guarded; [apply _ | done | done | intros rv | intros m].
  - apply (submit_guarded _ (o_id o)); [done | apply okSimulated_since | eauto |].
    intros result. abind; [apply outcome_guarded | free].
  - abind; [|free]. destruct (isMissingContractFunction m); [free|]. apply classify_free, _.
Qed.

(** The router attempt of [executeOrder]: a result it returns is accounted
    for, and without one the direct simulation is still on record. *)
Lemma router_attempt_ensures o (available : bool) :
  Ensures (okSimulated base (SimulateExecuteOrder (o_id o))) (Guarded orderGuard)
    (if available then
       round ← getExecutionRound (o_asset o);
       match round with
       | None => ret None
       | Some _ =>
           sim ← simulate (SimulateRouterExecute (o_id o) (o_asset o));
           match sim with
           | SimOk _ =>
               result ← exec (ExecuteOrderViaRouter (o_id o) (o_asset o)); ret (Some result)
           | SimRejected message =>
               _ ← (if isMissingContractFunction message
                    then modify (setRouterFn "execute_with_price" false) else ret ());
               ret None
           end
       end
     else ret None)
    (fun via h => match via with
      | Some result => success result = true -> executedOk base (o_id o) h
      | None => okSimulated base (SimulateExecuteOrder (o_id o)) h
      end).
Proof.
  set (Pre := okSimulated base (SimulateExecuteOrder (o_id o))).
  destruct available; [|by apply ensures_ret; [apply _|]].
  eapply ensures_bind; [apply _ | apply ensures_always; [apply _|]; apply order_rounds_free; apply _ |].
  simpl. intros [round|]; [|by apply ensures_ret; [apply _|]].
  unfold simulate. eapply ensures_bind; [apply _|..].
  { apply (ensures_io _ _ _ _ (fun x h => match x with
      | SimOk _ => okSimulated base (SimulateRouterExecute (o_id o) (o_asset o)) h
      | SimRejected _ => Pre h end)).
    - intros h _. by apply guarded_free.
    - intros h [rv|m] Hh Hs; [|by apply stable].
      eapply since_okSimulated; [by eapply okSimulated_since|done]. }
  intros [rv|m]; simpl.
  - unfold exec. eapply ensures_bind; [apply _|..].
    + apply (ensures_io _ _ _ _ (fun result h =>
        success result = true -> executedOk base (o_id o) h)).
      * intros h Hh. apply guarded_one. by intros c [= <-].
      * intros h result Hh Hr Hs. apply okSimulated_since in Hh as [n ->].
        exists n, [], (ExecuteOrderViaRouter (o_id o) (o_asset o)), result.
        split; [by rewrite <- app_assoc|]. eauto.
    + intros result. by apply ensures_ret; [apply _|].
  - eapply ensures_bind; [apply _|..].
    + apply ensures_always; [apply _|]. free.
    + intros []. by apply ensures_ret; [apply _|].
Qed.

Lemma executeOrder_guarded o :
  Always (okSimulated base (SimulateExecuteOrder (o_id o))) (Guarded orderGuard)
    (executeOrder config o).
Proof.
  unfold executeOrder, routerAvailable. abind; [free|].
  eapply always_ensures_bind; [apply _ | apply router_attempt_ensures|].
  simpl. intros [result|]; [apply outcome_guarded|].
  apply (submit_guarded _ (o_id o)); [done | apply okSimulated_since | auto |].
  intros result. apply outcome_guarded.
Qed.

Lemma checkOrder_guarded o triggered :
  Always (since base) (Guarded orderGuard) (checkOrder config o triggered).
Proof.
  unfold checkOrder, simulate.
  apply (always_ensures_bind _ _ _ _ (fun sim h => since base h /\ match sim with
    | Some (SimOk _) => okSimulated base (SimulateExecuteOrder (o_id o)) h
    | _ => True end)).
  - intros h Hh. apply emits_try, emits_bind, emits_io.
    assert (Guarded orderGuard h [SimulateExecuteOrder (o_id o)]) by by apply guarded_free.
    destruct (w_sim _ _) as [e|[rv|m]] eqn:Hs; apply emits_ret; rewrite ?app_nil_r;
      (split; [done|]); intros a [= <-]; (split; [by apply stable|]); try done.
    by eapply since_okSimulated.
  - intros [[rv|m]|].
    + apply (always_weaken (okSimulated base (SimulateExecuteOrder (o_id o)))); [tauto|].
      abind; [apply always_try; [apply _ | apply _ | apply executeOrder_guarded | intros e; free] | free].
    + apply (always_weaken (since base)); [tauto|].
      apply always_try; [apply _ | apply _ | | intros e; free].
      abind; [destruct (codeIs m _); [apply rescue_guarded | free]|].
      destruct a; [free|]. abind; [apply classify_free, _ | free].
    + apply (always_weaken (since base)); [tauto|]. free.
Qed.

Lemma checkOrders_guarded snapshot :
  Always (since base) (Guarded orderGuard) (checkOrders config snapshot).
Proof.
  unfold checkOrders, alert. abind.
  - generalize (@nil string). induction (filter _ _) as [|o os IH]; intros l; simpl; [free|].
    abind; [apply checkOrder_guarded | apply IH].
  - abind; [free|]. destruct (Deadman.trackTriggeredStuck _ _ _). free.
Qed.

Lemma updateTrailing_guarded snapshot :
  Always (since base) (Guarded orderGuard) (updateTrailingStopPeaks snapshot).
Proof.
  unfold updateTrailingStopPeaks. apply always_forEach; [apply _ | apply _ | intros o _].
  apply always_try; [apply _ | apply _ | | intros e; free]. unfold updateTrailing, simulate.
  apply (always_io_bind _ _ _ _ _ (fun x h =>
    x = SimOk (Some true) ->
    simulatedAs base (SimulateUpdateTrailingPeak (o_id o)) (SimOk (Some true)) h)).
  - intros h _. by apply guarded_free.
  - intros h x Hh Hx ->. by eapply since_simulatedAs.
  - intros x. destruct x as [[[]|]|]; try (apply always_ret; apply _).
    apply (always_weaken (simulatedAs base (SimulateUpdateTrailingPeak (o_id o)) (SimOk (Some true))));
      [auto|].
    unfold exec, addStat. abind; [|free]. apply always_io. intros h Hh. apply guarded_one.
    by intros c [= <-].
Qed.

(** *** Every pending order is looked at *)

Lemma checkOrder_simulates h o triggered :
  Emits h (checkOrder config o triggered) (fun r new =>
    (exists l, r = Ok l) /\ SimulateExecuteOrder (o_id o) ∈ new).
Proof.
  unfold checkOrder. apply emits_bind, emits_try, emits_bind, emits_io.
  assert (forall n, SimulateExecuteOrder (o_id o) ∈ [SimulateExecuteOrder (o_id o)] ++ n) as Hin
    by (intros n; by left).
  destruct (w_sim _ _) as [e|sim]; apply emits_ret; rewrite ?app_nil_r; [by apply emits_ret; eauto|].
  destruct sim as [rv|m].
  - apply emits_bind. eapply emits_weaken; [by apply emits_try_skip, (emits_any _ _ (fun _ _ => True))|].
    simpl. intros r n [-> _]. apply emits_ret. split; [eauto|apply Hin].
  - apply emits_try. apply emits_bind. apply emits_any. intros [e|rescued] n.
    + apply emits_ret. split; [eauto|apply Hin].
    + destruct rescued.
      * apply emits_ret. split; [eauto|apply Hin].
      * apply emits_bind, emits_any. intros [e|[]] n2; apply emits_ret; (split; [eauto|apply Hin]).
Qed.

Lemma checkEach_simulates os : forall h triggered,
  Emits h (checkEach config os triggered) (fun r new =>
    (exists l, r = Ok l) /\ forall o, o ∈ os -> SimulateExecuteOrder (o_id o) ∈ new).
Proof.
  induction os as [|o os IH]; intros h triggered; simpl.
  - apply emits_ret. split; [eauto|]. intros o Ho. by apply elem_of_nil in Ho.
  - apply emits_bind. eapply emits_weaken; [apply checkOrder_simulates|]. simpl.
    intros r n1 [[l ->] H1]. eapply emits_weaken; [apply IH|]. simpl.
    intros r2 n2 [Hr Hall]. split; [done|].
    intros o' [->|Ho]%elem_of_cons; rewrite elem_of_app; auto.
Qed.

Lemma order_action_guard snapshot b h pre a post c :
  base = h ->
  (checkOrders config snapshot b h).2 = pre ++ a :: post -> orderGuard a = Some c ->
  c (h ++ pre).
Proof.
  intros <- Hn Hc. pose proof (checkOrders_guarded snapshot base) as Hg.
  specialize (Hg ltac:(exists []; by rewrite app_nil_r) b).
  destruct (checkOrders _ _ _ _) as [[r b'] new]. by apply (Hg pre a post c).
Qed.
End order_facts.

Section order_properties.
Context {W : World} (config : Config).

(** The keeper only pays for order executions the chain just accepted:
    in the order scan every direct submission of an order comes after a
    simulation of that execution answered ok, every router submission after
    an ok simulation of the router call for that order and asset, and every
    factory reconcile after a submission of that same order that succeeded. *)
Theorem order_submitted_after_simulation snapshot b h pre a post :
  (checkOrders config snapshot b h).2 = pre ++ a :: post ->
  match a with
  | ExecuteOrder oid => exists l1 l2 rv, pre = l1 ++ SimulateExecuteOrder oid :: l2
      /\ w_sim (h ++ l1) (SimulateExecuteOrder oid) = Ok (SimOk rv)
  | ExecuteOrderViaRouter oid asset => exists l1 l2 rv,
      pre = l1 ++ SimulateRouterExecute oid asset :: l2
      /\ w_sim (h ++ l1) (SimulateRouterExecute oid asset) = Ok (SimOk rv)
  | ReconcileOrder _ oid => exists l1 l2 a' result, pre = l1 ++ a' :: l2
      /\ (a' = ExecuteOrder oid \/ exists asset, a' = ExecuteOrderViaRouter oid asset)
      /\ w_exec (h ++ l1) a' = Ok result /\ success result = true
  | _ => True
  end.
Proof.
  intros Hn. pose proof (order_action_guard config h snapshot b h pre a post) as Hg.
  destruct a as [| | | | | | | | | | | | | | | | | | | | | | | | | | |oid|oid asset|v oid| | | | | | | | |];
    try done.
  - destruct (Hg _ eq_refl Hn eq_refl) as (l1 & l2 & rv & He%app_inv_head & Hs). eauto.
  - destruct (Hg _ eq_refl Hn eq_refl) as (l1 & l2 & rv & He%app_inv_head & Hs). eauto.
  - destruct (Hg _ eq_refl Hn eq_refl) as (l1 & l2 & a' & r & He%app_inv_head & Hs).
    exists l1, l2, a', r. eauto.
Qed.

Lemma checkOrders_reaches snapshot b h :
  exists b' new, checkOrders config snapshot b h = (Ok (), b', new)
    /\ forall o, o ∈ s_orders snapshot -> status o = Pending ->
         SimulateExecuteOrder (o_id o) ∈ new.
Proof.
  pose proof (checkEach_simulates config (filter (fun o => status o = Pending) (s_orders snapshot))
                h [] b) as Hs.
  unfold checkOrders. unfold mbind, K_bind at 1.
  destruct (checkEach _ _ _ _ _) as [[r b1] n1]. destruct Hs as [[l ->] Hall].
  assert (forall (m : K ()) b h, (exists l s x, m = (if (l : list string) is [] then ret () else alert s x)) ->
    exists n, m b h = (Ok (), b, n)) as Halert.
  { intros m b2 h2 (l2 & s & x & ->). destruct l2; by eexists. }
  unfold gets, modify, mbind, K_bind. simpl.
  destruct (Deadman.trackTriggeredStuck _ _ _) as [counts stuck]. simpl.
  destruct stuck; simpl; eexists _, _; (split; [reflexivity|]); intros o Ho Hp;
    rewrite ?app_nil_r, ?elem_of_app; try left; apply Hall, list_elem_of_filter; auto.
Qed.

(** The order scan always completes, and it simulates the execution of
    every pending order of the snapshot, whatever fails or throws for the
    others: reads, simulations, the router, submissions, reconciles. *)
Theorem every_pending_order_is_tried snapshot b h :
  exists b' new, checkOrders config snapshot b h = (Ok (), b', new)
    /\ forall o, o ∈ s_orders snapshot -> status o = Pending ->
         SimulateExecuteOrder (o_id o) ∈ new.
Proof. apply checkOrders_reaches. Qed.

(** The keeper does not pay for trailing-stop updates that change
    nothing: in a pass over the trailing stops, an update is submitted only
    after the simulation of that update, in the same pass, returned true. *)
Theorem trailing_update_only_on_movement snapshot b h pre oid post :
  (updateTrailingStopPeaks snapshot b h).2 = pre ++ UpdateTrailingPeak oid :: post ->
  exists l1 l2, pre = l1 ++ SimulateUpdateTrailingPeak oid :: l2
    /\ w_sim (h ++ l1) (SimulateUpdateTrailingPeak oid) = Ok (SimOk (Some true)).
Proof.
  intros Hn. pose proof (updateTrailing_guarded h snapshot h) as Hg.
  specialize (Hg ltac:(exists []; by rewrite app_nil_r) b).
  destruct (updateTrailingStopPeaks _ _ _) as [[r b'] new]. simpl in Hn.
  destruct (Hg pre _ post _ Hn eq_refl) as (l1 & l2 & He%app_inv_head & Hs). eauto.
Qed.
End order_properties.

(** ** Witnesses *)

Definition sampleOrder : Order := {|
  o_id := 4; o_asset := "BTC"; order_type := TrailingStop; o_collateral := 10; status := Pending |}.
Definition oneOrder : CycleSnapshot := {| s_positions := []; s_orders := [sampleOrder] |}.

Theorem order_submitted_after_simulation_witness :
  exists l1 l2 rv, [SimulateExecuteOrder 4; Now; FetchNoeracle; Now] = l1 ++ SimulateExecuteOrder 4 :: l2
    /\ w_sim (World := sampleWorld) ([] ++ l1) (SimulateExecuteOrder 4) = Ok (SimOk rv).
Proof.
  exact (order_submitted_after_simulation (W := sampleWorld) sampleConfig oneOrder emptyBot []
           [SimulateExecuteOrder 4; Now; FetchNoeracle; Now] (ExecuteOrder 4)
           [GetOrderVault 4] ltac:(vm_compute; reflexivity)).
Defined.

Theorem trailing_update_only_on_movement_witness :
  exists l1 l2, [SimulateUpdateTrailingPeak 4] = l1 ++ SimulateUpdateTrailingPeak 4 :: l2
    /\ w_sim (World := sampleWorld) ([] ++ l1) (SimulateUpdateTrailingPeak 4) = Ok (SimOk (Some true)).
Proof.
  apply (trailing_update_only_on_movement (W := sampleWorld) oneOrder emptyBot [] _ 4 []).
  vm_compute. reflexivity.
Defined.
