(* ===== verification/KeeperAdl.v ===== *)
(** * Auto-deleveraging phase of the keeper

    Models manageAdl, probeAndDriveAdl and getVaultCoverageCached of
    scripts/keeper/src/index.ts: when the on-chain flag is probed and flipped,
    and the bounded walk over the ranked winners while it is active. *)

From S2P Require Import Prelude JsText Health KeeperEffects KeeperLiquidations KeeperOrders.
Open Scope Z_scope.
Open Scope js_scope.

Definition VAULT_COVERAGE_CACHE_MS : Z := 30000.

Definition setAdlActive (asset : string) (v : bool) : Bot -> Bot := onAdl (fun a => {|
  adlActive := <[asset := v]> (adlActive a); adlLastProbeAt := adlLastProbeAt a;
  adlSupported := adlSupported a; vaultCoverageCache := vaultCoverageCache a |}).
Definition setAdlProbe (asset : string) (t : Z) : Bot -> Bot := onAdl (fun a => {|
  adlActive := adlActive a; adlLastProbeAt := <[asset := t]> (adlLastProbeAt a);
  adlSupported := adlSupported a; vaultCoverageCache := vaultCoverageCache a |}).
Definition setAdlSupported (v : bool) : Bot -> Bot := onAdl (fun a => {|
  adlActive := adlActive a; adlLastProbeAt := adlLastProbeAt a;
  adlSupported := Some v; vaultCoverageCache := vaultCoverageCache a |}).
Definition setCoverage (c : Z * Z) : Bot -> Bot := onAdl (fun a => {|
  adlActive := adlActive a; adlLastProbeAt := adlLastProbeAt a;
  adlSupported := adlSupported a; vaultCoverageCache := Some c |}).

Section adl.
Context {W : World} (config : Config).

Definition adlDisabled : K bool := gets (fun b => bool_decide (adlSupported (adlS b) = Some false)).

Definition getVaultCoverageCached : K (option Z) :=
  t ← now;
  cached ← gets (fun b => vaultCoverageCache (adlS b));
  if match cached with Some (_, fetchedAt) => t - fetchedAt <? VAULT_COVERAGE_CACHE_MS
                     | None => false end
  then ret (fst <$> cached)
  else tryCatch (
      value ← readInt GetVaultCoverage;
      _ ← modify (setCoverage (value, t));
      ret (Some value))
    (fun _ => ret (fst <$> cached)).

(** ** The walk *)

(** Close one candidate, through the router when it can; the boolean tells
    whether the router's answer stands. *)
Definition attemptClose (asset : string) (c : Ranked) : K (ExecutionResult * bool) :=
  available ← routerAvailable config "adl_with_price";
  viaRouter ← (if (available : bool) then
      round ← getExecutionRound asset;
      match round with
      | Some _ =>
          result ← exec (AdlCloseViaRouter (id (position c)) asset);
          routerVerdict "adl_with_price" result [84; 85; 20]
      | None => ret None
      end
    else ret None);
  match viaRouter with
  | Some result => ret (result, true)
  | None => result ← exec (AdlClose (id (position c))); ret (result, false)
  end.

(** After a close: whether to go on, clearing the flag when the chain says
    that coverage is back. *)
Definition recheckAdl (asset : string) : K bool :=
  recheck ← simulate (SimulateCheckAdlTrigger asset);
  match recheck with
  | SimOk (Some false) =>
      clear ← exec (CheckAdlTrigger asset);
      _ ← (if success clear then
             _ ← addStat "adlFlagFlips" 1;
             _ ← modify (setAdlActive asset false);
             alert info ("Emergency deleveraging OFF for " +:+ asset)
           else ret ());
      ret false
  | _ => ret true
  end.

Fixpoint adlWalk (asset : string) (ranked : list Ranked) (closes : Z) : K () :=
  match ranked with
  | [] => ret ()
  | c :: rest =>
      if adlMaxClosesPerCycle config <=? closes then ret ()
      else
        outcome ← attemptClose asset c;
        let (result, router) := (outcome : ExecutionResult * bool) in
        if success result then
          _ ← (if router then addStat "routerExecutions" 1 else ret ());
          _ ← addStat "adlCloses" 1;
          _ ← alert critical ("Force-closed a winning position on " +:+ asset);
          more ← recheckAdl asset;
          if (more : bool) then adlWalk asset rest (closes + 1) else ret ()
        else if indeterminate result then ret ()
        else if codeIs (errorText result) [84] then modify (setAdlActive asset false)
        else adlWalk asset rest closes
  end.

(** ** Probing the flag *)

(** Bring the on-chain flag to [simFlag]; [false] when it could not. *)
Definition reconcileFlag (asset : string) (simFlag : bool) : K bool :=
  onChain ← tryCatch (v ← readBool (IsAdlActive asset); ret (Some v)) (fun _ => ret None);
  match onChain with
  | None => ret false
  | Some onChain =>
      flipped ← (if Bool.eqb simFlag onChain then ret true
        else
          result ← exec (CheckAdlTrigger asset);
          if success result then
            _ ← addStat "adlFlagFlips" 1;
            _ ← (if simFlag then alert critical ("Emergency deleveraging ON for " +:+ asset)
                 else alert info ("Emergency deleveraging OFF for " +:+ asset));
            ret true
          else ret false);
      if (flipped : bool) then (_ ← modify (setAdlActive asset simFlag); ret true)
      else ret false
  end.

(** Whether the remembered flag is [simFlag], reconciling it if needed. *)
Definition flagKnown (asset : string) (simFlag : bool) : K bool :=
  cached ← gets (fun b => adlActive (adlS b) !! asset);
  if bool_decide (cached = Some simFlag) then ret true else reconcileFlag asset simFlag.

Definition probeAndDriveAdl (asset : string) (ps : list Position) (price : Z) : K () :=
  t ← now;
  _ ← modify (setAdlProbe asset t);
  sim ← simulate (SimulateCheckAdlTrigger asset);
  match sim with
  | SimRejected message =>
      if isMissingContractFunction message then modify (setAdlSupported false) else ret ()
  | SimOk retval =>
      _ ← modify (setAdlSupported true);
      let simFlag := bool_decide (retval = Some true) in
      known ← flagKnown asset simFlag;
      if negb known then ret ()
      else
        active ← gets (fun b => default false (adlActive (adlS b) !! asset));
        if (active : bool) then adlWalk asset (rankAdlCandidates ps price) 0 else ret ()
  end.

(** ** The phase *)

(** The body of the loop of manageAdl, for one asset. *)
Definition manageAsset (prices : gmap string Z) (fullSweep : bool)
    (group : string * list Position) : K () :=
  let (asset, ps) := group in
  match prices !! asset with
  | None => ret ()
  | Some price =>
      if price <=? 0 then ret ()
      else tryCatch (
        active ← gets (fun b => default false (adlActive (adlS b) !! asset));
        probeDue ← (if fullSweep || active then ret true
          else
            t ← now;
            gets (fun b => adlCheckIntervalMs config
                           <=? t - default 0 (adlLastProbeAt (adlS b) !! asset)));
        if negb probeDue then ret ()
        else
          needed ← (if negb active && negb fullSweep then
              let payable := assetPayableUpnl ps price in
              if payable =? 0 then ret false
              else
                coverage ← getVaultCoverageCached;
                ret match coverage with
                    | None => true
                    | Some coverage =>
                        match adlFlagDecision payable coverage false
                                (adlTriggerRatioBps config) (adlClearRatioBps config) with
                        | hold => false
                        | _ => true
                        end
                    end
            else ret true);
          if (needed : bool) then probeAndDriveAdl asset ps price else ret ())
        (fun _ => ret ())
  end.

Fixpoint manageEach (prices : gmap string Z) (fullSweep : bool)
    (groups : list (string * list Position)) : K () :=
  match groups with
  | [] => ret ()
  | group :: groups =>
      disabled ← adlDisabled;
      if (disabled : bool) then ret ()
      else (_ ← manageAsset prices fullSweep group; manageEach prices fullSweep groups)
  end.

Definition manageAdl (snapshot : CycleSnapshot) (fullSweep : bool) : K () :=
  disabled ← adlDisabled;
  if (disabled : bool) then ret ()
  else
    prices ← gets localPriceMap;
    manageEach prices fullSweep (groupBy asset (s_positions snapshot)).
End adl.

(** ** Theorems *)

(** Since [base], the flag of the asset was read on chain as [v]. *)
Definition flagRead {W : World} (base : list Action) (asset : string) (v : bool)
    (h : list Action) : Prop :=
  exists l1 l2, h = base ++ l1 ++ IsAdlActive asset :: l2
    /\ w_bool (base ++ l1) (IsAdlActive asset) = Ok v.

#[export] Instance flagRead_stable {W : World} base asset v : Stable (flagRead base asset v).
Proof.
  intros h n (l1 & l2 & -> & Hs). exists l1, (l2 ++ n). split; [|done]. by rewrite <- !app_assoc.
Qed.

Lemma simulatedAs_since {W : World} base a o h : simulatedAs base a o h -> since base h.
Proof. intros (l1 & l2 & -> & _). by eexists. Qed.

(** The simulation of the trigger says the flag would be [v]. *)
Definition simFlagIs {W : World} (base : list Action) (asset : string) (v : bool)
    (h : list Action) : Prop :=
  exists rv, simulatedAs base (SimulateCheckAdlTrigger asset) (SimOk rv) h
             /\ bool_decide (rv = Some true) = v.

#[export] Instance simFlagIs_stable {W : World} base asset v : Stable (simFlagIs base asset v).
Proof. intros h n (rv & Hs & Hv). exists rv. split; [by apply stable|done]. Qed.

Lemma simFlagIs_since {W : World} base asset v h : simFlagIs base asset v h -> since base h.
Proof. intros (rv & Hs & _). by eapply simulatedAs_since. Qed.

(** Since [base] the chain confirmed that the asset's flag is on: right after
    a simulation of the trigger that answered on, the stored flag was read to
    be on, or read to be off and the transaction that turns it on succeeded. *)
Definition confirmedOn {W : World} (base : list Action) (asset : string) (h : list Action) : Prop :=
  exists l rest, w_sim (base ++ l) (SimulateCheckAdlTrigger asset) = Ok (SimOk (Some true))
  /\ let h1 := base ++ l ++ [SimulateCheckAdlTrigger asset] in
  ((h = h1 ++ IsAdlActive asset :: rest /\ w_bool h1 (IsAdlActive asset) = Ok true) \/
   (exists result, h = h1 ++ IsAdlActive asset :: CheckAdlTrigger asset :: rest
      /\ w_bool h1 (IsAdlActive asset) = Ok false
      /\ w_exec (h1 ++ [IsAdlActive asset]) (CheckAdlTrigger asset) = Ok result /\ success result = true)).

#[export] Instance confirmedOn_stable {W : World} base asset : Stable (confirmedOn base asset).
Proof.
  intros h n (l & rest & Hs & H). exists l, (rest ++ n). split; [done|]. cbn zeta in *.
  destruct H as [[-> H]|(result & -> & H)]; [left|right; exists result]; by rewrite <- app_assoc.
Qed.

Definition adlActive' (b : Bot) : gmap string bool := adlActive (adlS b).

Definition activeIn (b : Bot) (asset : string) : Prop := adlActive (adlS b) !! asset = Some true.

(** [m] remembers no flag as on that was not remembered so before. *)
Definition Calm {A} (m : K A) : Prop := forall b h a, activeIn (m b h).1.2 a -> activeIn b a.

Lemma calm_keeps {A} (m : K A) : Keeps adlActive' m -> Calm m.
Proof. intros Hm b h a. unfold activeIn. specialize (Hm b h). unfold adlActive' in Hm. by rewrite Hm. Qed.

Lemma calm_bind {A B} (m : K A) (k : A -> K B) : Calm m -> (forall a, Calm (k a)) -> Calm (m ≫= k).
Proof.
  intros Hm Hk b h a. specialize (Hm b h a). unfold mbind, K_bind.
  destruct (m b h) as [[[e|x] b1] n1]; [done|]. specialize (Hk x b1 (h ++ n1) a).
  destruct (k x b1 (h ++ n1)) as [[r b2] n2]. cbn in *. auto.
Qed.

Lemma calm_clear a : Calm (modify (setAdlActive a false)).
Proof. intros b h a'. unfold activeIn. cbn. by intros [[_ ?]|[_ ?]]%lookup_insert_Some. Qed.

Ltac calm := first [apply calm_clear | apply calm_keeps; keeps_auto; fail | apply calm_bind; [calm|intros ?; calm]
  | match goal with |- Calm (match ?x with _ => _ end) => destruct x; calm end].

Lemma calm_round s {W : World} : Calm (getExecutionRound s).
Proof. apply calm_keeps. unfold getExecutionRound, refreshRounds, fetchNoeracleFresh, now. keeps_auto. Qed.

Lemma calm_attempt {W : World} config asset c : Calm (attemptClose config asset c).
Proof.
  unfold attemptClose, routerAvailable, exec, routerVerdict. apply calm_bind; [calm|intros av].
  apply calm_bind; [destruct av; [|calm]; apply calm_bind; [apply calm_round|intros ?; calm]|intros ?; calm].
Qed.

Lemma calm_recheck {W : World} asset : Calm (recheckAdl asset).
Proof. unfold recheckAdl, simulate, exec, addStat, alert. calm. Qed.

Lemma calm_walk {W : World} config asset ranked : forall closes, Calm (adlWalk config asset ranked closes).
Proof.
  induction ranked as [|c ranked IH]; intros closes; simpl; [calm|]. destruct (_ <=? _); [calm|].
  apply calm_bind; [apply calm_attempt|]. intros [result router]. destruct (success result).
  - unfold addStat, alert. do 3 (apply calm_bind; [calm|intros _]). apply calm_bind; [apply calm_recheck|].
    intros []; [apply IH|calm].
  - destruct (indeterminate result); [calm|]. destruct (codeIs _ _); [calm|apply IH].
Qed.

Lemma calm_coverage {W : World} : Calm getVaultCoverageCached.
Proof. apply calm_keeps. unfold getVaultCoverageCached, now, readInt. keeps_auto. Qed.

Section adl_facts.
Context {W : World} (config : Config) (base : list Action) (b0 : Bot) (ps : list Position)
  (prices : gmap string Z).

(** The keeper has grounds to take the stored flag for on: it remembered so
    when the phase began, or the phase has confirmed it. *)
Definition grounds (asset' : string) (h : list Action) : Prop :=
  adlActive (adlS b0) !! asset' = Some true \/ confirmedOn base asset' h.

#[export] Instance grounds_stable asset' : Stable (grounds asset').
Proof. intros h n [H|H]; [by left|right; by apply stable]. Qed.

(** The trigger was simulated to on, with grounds for the stored flag, and
    the position wins at the keeper's price. *)
Definition deleverable (pid : Z) (asset' : string) (h : list Action) : Prop :=
  (exists p price, p ∈ ps /\ id p = pid /\ asset p = asset' /\ prices !! asset' = Some price
                   /\ 0 < calculatePnl p price)
  /\ simulatedAs base (SimulateCheckAdlTrigger asset') (SimOk (Some true)) h /\ grounds asset' h.

Definition adlGuard (a : Action) : option (list Action -> Prop) :=
  match a with
  | AdlClose pid => Some (fun h => exists asset', deleverable pid asset' h)
  | AdlCloseViaRouter pid asset' => Some (deleverable pid asset')
  | CheckAdlTrigger asset' => Some (fun h =>
      (exists v, simFlagIs base asset' v h /\ flagRead base asset' (negb v) h)
      \/ simulatedAs base (SimulateCheckAdlTrigger asset') (SimOk (Some false)) h)
  | _ => None
  end.

Ltac free := always_auto ltac:(apply guarded_free; reflexivity).

Lemma adl_rounds_free Pre `{!Stable Pre} s :
  Always Pre (Guarded adlGuard) (getExecutionRound s).
Proof. unfold getExecutionRound, refreshRounds, fetchNoeracleFresh, now. free. Qed.

Lemma coverage_free Pre `{!Stable Pre} : Always Pre (Guarded adlGuard) getVaultCoverageCached.
Proof. unfold getVaultCoverageCached, now, readInt. free. Qed.

Lemma attemptClose_guarded asset' c :
  Always (deleverable (id (position c)) asset') (Guarded adlGuard) (attemptClose config asset' c).
Proof.
  assert (Stable (deleverable (id (position c)) asset'))
    by (intros h n (Hp & Hs & Hg); split_and!; [done|by apply stable|by apply stable]).
  unfold attemptClose, routerAvailable, exec, routerVerdict. abind; [free|]. abind.
  - destruct a; [|free]. abind; [apply adl_rounds_free; apply _|].
    destruct a; [|free]. abind; [|free].
    apply always_io. intros h Hh. apply guarded_one. by intros k [= <-].
  - destruct a0; [free|]. abind; [|free].
    apply always_io. intros h Hh. apply guarded_one. intros k [= <-]. by exists asset'.
Qed.

Lemma recheck_guarded asset' :
  Always (since base) (Guarded adlGuard) (recheckAdl asset').
Proof.
  unfold recheckAdl, simulate.
  apply (always_io_bind _ _ _ _ _ (fun x h => x = SimOk (Some false) ->
    simulatedAs base (SimulateCheckAdlTrigger asset') x h)).
  - intros h _. by apply guarded_free.
  - intros h x Hh Hx ->. by apply since_simulatedAs.
  - intros [[[]|]|]; try (apply always_ret; apply _).
    apply (always_weaken (simulatedAs base (SimulateCheckAdlTrigger asset') (SimOk (Some false))));
      [auto|].
    unfold exec, addStat, alert. abind; [|free].
    apply always_io. intros h Hh. apply guarded_one. intros k [= <-]. by right.
Qed.

(** What a walk rests on. *)
Definition walkable (asset' : string) (h : list Action) : Prop :=
  simulatedAs base (SimulateCheckAdlTrigger asset') (SimOk (Some true)) h /\ grounds asset' h.

#[local] Instance walkable_stable asset' : Stable (walkable asset').
Proof. intros h n [H1 H2]. split; by apply stable. Qed.

Lemma adlWalk_guarded asset' price ranked : forall closes,
  prices !! asset' = Some price ->
  (forall c, c ∈ ranked -> position c ∈ ps /\ asset (position c) = asset'
                           /\ 0 < calculatePnl (position c) price) ->
  Always (walkable asset') (Guarded adlGuard) (adlWalk config asset' ranked closes).
Proof.
  induction ranked as [|c ranked IH]; intros closes Hp Hr; simpl; [free|].
  destruct (_ <=? _); [free|]. abind.
  - apply (always_weaken (deleverable (id (position c)) asset')); [|apply attemptClose_guarded].
    intros h Hh. destruct (Hr c ltac:(by left)) as (H1 & H2 & H3). split; [|done].
    by exists (position c), price.
  - destruct a as [result router].
    assert (forall closes, Always (walkable asset') (Guarded adlGuard) (adlWalk config asset' ranked closes)) as Hrest
      by (intros k; apply IH; [done|]; intros c' Hc'; apply Hr; by right).
    destruct (success result).
    + unfold addStat, alert. abind; [free|]. abind; [free|]. abind; [free|]. abind.
      * eapply always_weaken; [|apply recheck_guarded]. intros h [Hs _]. by eapply simulatedAs_since.
      * destruct a2; [apply Hrest | free].
    + destruct (indeterminate result); [free|]. destruct (codeIs _ _); [free | apply Hrest].
Qed.

Lemma reconcileFlag_guarded asset' v :
  Always (simFlagIs base asset' v) (Guarded adlGuard) (reconcileFlag asset' v).
Proof.
  unfold reconcileFlag, readBool.
  apply (always_ensures_bind _ _ _ _ (fun x h => simFlagIs base asset' v h /\
    match x with Some onChain => flagRead base asset' onChain h | None => True end)).
  - intros h Hh. apply emits_try, emits_bind, emits_io.
    assert (Guarded adlGuard h [IsAdlActive asset']) by by apply guarded_free.
    destruct (w_bool _ _) as [e|onChain] eqn:Hw; apply emits_ret; rewrite ?app_nil_r;
      (split; [done|]); intros x [= <-]; (split; [by apply stable|]); [done|].
    destruct (simFlagIs_since _ _ _ _ Hh) as [n ->]. exists n, []. split; [by rewrite <- app_assoc|done].
  - intros [onChain|]; [|free].
    assert (Stable (fun h => simFlagIs base asset' v h /\ flagRead base asset' onChain h))
      by (intros h n [? ?]; split; by apply stable).
    abind; [|destruct a; free].
    destruct (Bool.eqb v onChain) eqn:He; [free|].
    assert (onChain = negb v) as -> by (by destruct v, onChain).
    unfold exec, addStat, alert. abind; [|destruct v; free].
    apply always_io. intros h Hh. apply guarded_one. intros k [= <-]. left. by exists v.
Qed.

Lemma flagKnown_guarded asset' v :
  Always (simFlagIs base asset' v) (Guarded adlGuard) (flagKnown asset' v).
Proof.
  unfold flagKnown. abind; [free|]. destruct (bool_decide _); [free|].
  apply reconcileFlag_guarded.
Qed.

Lemma flagKnown_memory asset' v b h b' n :
  flagKnown asset' v b h = (Ok true, b', n) -> adlActive (adlS b') !! asset' = Some v.
Proof.
  unfold flagKnown, reconcileFlag, tryCatch, mbind, K_bind, gets, readBool, io, ret. simpl.
  destruct (bool_decide _) eqn:Hc.
  - intros [= <- _]. by apply bool_decide_eq_true in Hc.
  - destruct (w_bool _ _) as [e|onChain]; simpl; [by intros [=]|].
    destruct (Bool.eqb v onChain); simpl.
    + intros [= <- _]. simpl. by rewrite lookup_insert_eq.
    + unfold exec, io. destruct (w_exec _ _) as [e|result]; simpl; [by intros [=]|].
      destruct (success result); simpl; [|by intros [=]].
      destruct v; simpl; intros [= <- _]; simpl; by rewrite lookup_insert_eq.
Qed.

Lemma ranked_wins asset' group price c :
  (forall p, p ∈ group -> p ∈ ps /\ asset p = asset') ->
  c ∈ rankAdlCandidates group price ->
  position c ∈ ps /\ asset (position c) = asset' /\ 0 < calculatePnl (position c) price.
Proof.
  intros Hg Hc. unfold rankAdlCandidates in Hc.
  rewrite merge_sort_Permutation, elem_of_adlWinners in Hc.
  destruct Hc as (Hin & Hpos & Heq & _). destruct (Hg _ Hin). rewrite Heq in Hpos. done.
Qed.

(** Every flag remembered as on has grounds. *)
Definition memoryGrounded (b : Bot) (h : list Action) : Prop := forall a, activeIn b a -> grounds a h.

(** [m] submits what the guard allows and keeps the memory grounded. *)
Definition Holds {A} (m : K A) : Prop := forall b h, since base h -> memoryGrounded b h ->
  let '(_, b', n) := m b h in Guarded adlGuard h n /\ memoryGrounded b' (h ++ n).

Lemma grounded_later b b' h n :
  (forall a, activeIn b' a -> activeIn b a) -> memoryGrounded b h -> memoryGrounded b' (h ++ n).
Proof. intros Hc Hm a Ha. apply stable, Hm, Hc, Ha. Qed.

Lemma holds_calm {A} (m : K A) : Always (since base) (Guarded adlGuard) m -> Calm m -> Holds m.
Proof.
  intros Ha Hc b h Hs Hm. specialize (Ha h Hs b). specialize (Hc b h).
  destruct (m b h) as [[r b'] n]. split; [done|]. by apply (grounded_later b).
Qed.

Lemma holds_bind {A B} (m : K A) (k : A -> K B) : Holds m -> (forall a, Holds (k a)) -> Holds (m ≫= k).
Proof.
  intros Hm Hk b h Hs Hg. specialize (Hm b h Hs Hg). unfold mbind, K_bind.
  destruct (m b h) as [[[e|x] b1] n1]; [done|]. destruct Hm as [H1 H2].
  specialize (Hk x b1 (h ++ n1) ltac:(by apply stable) H2). destruct (k x b1 (h ++ n1)) as [[r b2] n2].
  destruct Hk as [H3 H4]. split; [by apply composes_app|by rewrite app_assoc].
Qed.

Lemma holds_try {A} (m : K A) k : Holds m -> (forall e, Holds (k e)) -> Holds (tryCatch m k).
Proof.
  intros Hm Hk b h Hs Hg. specialize (Hm b h Hs Hg). unfold tryCatch.
  destruct (m b h) as [[[e|x] b1] n1]; [|done]. destruct Hm as [H1 H2].
  specialize (Hk e b1 (h ++ n1) ltac:(by apply stable) H2). destruct (k e b1 (h ++ n1)) as [[r b2] n2].
  destruct Hk as [H3 H4]. split; [by apply composes_app|by rewrite app_assoc].
Qed.

Lemma holds_after {A} (k : K A) b h0 x :
  Guarded adlGuard h0 [x] ->
  (let '(_, b', n) := k b (h0 ++ [x]) in Guarded adlGuard (h0 ++ [x]) n /\ memoryGrounded b' ((h0 ++ [x]) ++ n)) ->
  let '(_, b', n) := match k b (h0 ++ [x]) with (r, b2, n2) => (r, b2, [x] ++ n2) end in
  Guarded adlGuard h0 n /\ memoryGrounded b' (h0 ++ n).
Proof.
  intros Hx Hk. destruct (k b (h0 ++ [x])) as [[r b2] n2]. destruct Hk as [H1 H2].
  split; [by apply composes_app|by rewrite app_assoc].
Qed.

Ltac hold := apply holds_calm; [free|calm].

(** What the phase remembers of a flag is what it has just confirmed. *)
Lemma flagKnown_grounded asset' rv l b :
  w_sim (base ++ l) (SimulateCheckAdlTrigger asset') = Ok (SimOk rv) ->
  let h := base ++ l ++ [SimulateCheckAdlTrigger asset'] in
  memoryGrounded b h ->
  let '(_, b', n) := flagKnown asset' (bool_decide (rv = Some true)) b h in memoryGrounded b' (h ++ n).
Proof.
  intros Hs h Hm. assert (forall b' n, adlActive (adlS b') = <[asset' := bool_decide (rv = Some true)]> (adlActive (adlS b)) ->
    (bool_decide (rv = Some true) = true -> confirmedOn base asset' (h ++ n)) -> memoryGrounded b' (h ++ n)) as Hset.
  { intros b' n Hb Hc a Ha. unfold activeIn in Ha. rewrite Hb in Ha.
    apply lookup_insert_Some in Ha as [[<- Hv]|[_ Ha]]; [right; by apply Hc|]. by apply stable, Hm. }
  assert (forall n, memoryGrounded b (h ++ n)) as Hsame by (intros n; by apply (grounded_later b)).
  unfold flagKnown, reconcileFlag, tryCatch, mbind, K_bind, gets, readBool, io, ret. simpl.
  destruct (bool_decide (_ = Some (bool_decide _))); [apply Hsame|].
  rewrite app_nil_r. destruct (w_bool h (IsAdlActive asset')) as [e|onChain] eqn:Hread; [apply Hsame|]. cbn.
  destruct (Bool.eqb _ onChain) eqn:Heq; cbn.
  { apply Hset; [done|]. intros Hv. rewrite Hv in Heq. destruct onChain; [|done]. apply bool_decide_eq_true in Hv as ->.
    exists l, []. split; [done|]. left. by split. }
  unfold exec, io. destruct (w_exec _ _) as [e|result] eqn:Hexec; cbn; [apply Hsame|].
  destruct (success result) eqn:Hsucc; cbn; [|apply Hsame].
  destruct (bool_decide (rv = Some true)) eqn:Hv; cbn; (apply Hset; [by rewrite ?Hv|]); [|done].
  intros _. destruct onChain; [done|]. apply bool_decide_eq_true in Hv as ->.
  eexists l, _. split; [done|]. right. exists result. split_and!; [reflexivity|done|done|done].
Qed.

Lemma probe_holds asset' group price :
  prices !! asset' = Some price ->
  (forall p, p ∈ group -> p ∈ ps /\ asset p = asset') ->
  Holds (probeAndDriveAdl config asset' group price).
Proof.
  intros Hp Hg. unfold probeAndDriveAdl, now. apply holds_bind; [hold|intros t]. apply holds_bind; [hold|intros _].
  intros b h [l ->] Hm. unfold simulate, io, mbind at 1, K_bind at 1.
  set (h := (base ++ l) ++ [SimulateCheckAdlTrigger asset']).
  assert (since base h) as Hh by (exists (l ++ [SimulateCheckAdlTrigger asset']); unfold h; by rewrite app_assoc).
  assert (Guarded adlGuard (base ++ l) [SimulateCheckAdlTrigger asset']) as Hfree by by apply guarded_free.
  assert (memoryGrounded b h) as Hmh by (by apply (grounded_later b)).
  destruct (w_sim (base ++ l) _) as [e|[rv|m]] eqn:Hsim; [done| |].
  all: apply (holds_after _ b (base ++ l)); [done|]; fold h.
  2: { assert (Holds (if isMissingContractFunction m then modify (setAdlSupported false) else ret ())) as Hr by hold.
       by apply Hr. }
  unfold mbind at 1, K_bind at 1, modify at 1. rewrite app_nil_r. set (b1 := setAdlSupported true b).
  assert (memoryGrounded b1 h) as Hm1 by exact Hmh. set (v := bool_decide (rv = Some true)).
  assert (simFlagIs base asset' v h) as Hflag.
  { exists rv. split; [|done]. exists l, []. by split; [unfold h; rewrite <- app_assoc|]. }
  pose proof (flagKnown_guarded asset' v h Hflag b1) as Hk.
  pose proof (flagKnown_grounded asset' rv l b1 Hsim) as Hgr. rewrite (app_assoc base l) in Hgr. fold h v in Hgr. specialize (Hgr Hm1).
  unfold mbind at 1, K_bind at 1.
  destruct (flagKnown asset' v b1 h) as [[[e|known] b2] n1] eqn:Hrun; [done|].
  destruct known; simpl; [|by rewrite app_nil_r].
  apply flagKnown_memory in Hrun. unfold mbind, K_bind, gets. simpl. rewrite Hrun, app_nil_r. simpl.
  destruct v eqn:Hv; [|by simpl; rewrite app_nil_r].
  pose proof (adlWalk_guarded asset' price (rankAdlCandidates group price) 0 Hp ltac:(intros c; apply ranked_wins, Hg) (h ++ n1)) as Hw.
  pose proof (calm_walk config asset' (rankAdlCandidates group price) 0 b2 (h ++ n1)) as Hc.
  assert (walkable asset' (h ++ n1)) as Hwalk.
  { split; [|by apply Hgr]. apply stable. destruct Hflag as (rv' & Hs' & Hv'). by apply bool_decide_eq_true in Hv' as ->. }
  specialize (Hw Hwalk b2). destruct (adlWalk _ _ _ _ _ _) as [[r b3] n2].
  split; [by apply composes_app|]. rewrite app_assoc. by apply (grounded_later b2).
Qed.

Lemma manageEach_holds sweep groups :
  (forall a l p, (a, l) ∈ groups -> p ∈ l -> p ∈ ps /\ asset p = a) ->
  Holds (manageEach config prices sweep groups).
Proof.
  induction groups as [|[a l] groups IH]; intros Hg; simpl; [hold|].
  unfold adlDisabled. apply holds_bind; [hold|intros []; [hold|]]. apply holds_bind.
  - destruct (prices !! a) as [price|] eqn:Hp; [|hold]. destruct (price <=? 0); [hold|].
    unfold now. apply holds_try; [|intros e; hold].
    apply holds_bind; [hold|intros active]. apply holds_bind; [hold|intros due]. destruct (negb due); [hold|].
    apply holds_bind.
    + destruct (_ && _); [|hold]. destruct (_ =? 0); [hold|].
      apply holds_bind; [apply holds_calm; [apply coverage_free; apply _|apply calm_coverage]|]. intros; hold.
    + intros []; [|hold]. apply probe_holds; [done|]. intros p Hin. by apply (Hg a l); [left|].
  - intros _. apply IH. intros a' l' p Hin. apply Hg. by right.
Qed.
End adl_facts.

(** *** The walk is bounded *)

Definition isClose (a : Action) : bool :=
  match a with AdlClose _ | AdlCloseViaRouter _ _ => true | _ => false end.

Section walk_facts.
Context {W : World} (config : Config).

(** A close that went through, and one that may have. *)
Definition landed (h : list Action) (a : Action) : bool :=
  isClose a && match w_exec h a with inr r => success r | inl _ => false end.
Definition inDoubt (h : list Action) (a : Action) : bool :=
  isClose a && match w_exec h a with inr r => negb (success r) && indeterminate r
                                   | inl _ => true end.

(** The closes that went through among [new]. *)
Fixpoint closesIn (h new : list Action) : Z :=
  match new with
  | [] => 0
  | a :: new => (if landed h a then 1 else 0) + closesIn (h ++ [a]) new
  end.

(** No close follows one in doubt. *)
Fixpoint neverStacked (h new : list Action) : Prop :=
  match new with
  | [] => True
  | a :: new =>
      (inDoubt h a = true -> forall x, x ∈ new -> isClose x = false)
      /\ neverStacked (h ++ [a]) new
  end.

(** No close in doubt. *)
Fixpoint allClear (h new : list Action) : Prop :=
  match new with
  | [] => True
  | a :: new => inDoubt h a = false /\ allClear (h ++ [a]) new
  end.

Lemma closesIn_app h n1 n2 : closesIn h (n1 ++ n2) = closesIn h n1 + closesIn (h ++ n1) n2.
Proof.
  revert h. induction n1 as [|a n1 IH]; intros h; simpl; [by rewrite app_nil_r|].
  rewrite IH, <- app_assoc. simpl. lia.
Qed.

Lemma allClear_app h n1 n2 : allClear h n1 -> allClear (h ++ n1) n2 -> allClear h (n1 ++ n2).
Proof.
  revert h. induction n1 as [|a n1 IH]; intros h; simpl; [by rewrite app_nil_r|].
  intros [Ha H1] H2. split; [done|]. apply IH; [done|]. by rewrite <- app_assoc.
Qed.

Lemma neverStacked_app h n1 n2 :
  allClear h n1 -> neverStacked (h ++ n1) n2 -> neverStacked h (n1 ++ n2).
Proof.
  revert h. induction n1 as [|a n1 IH]; intros h; simpl; [by rewrite app_nil_r|].
  intros [Ha H1] H2. split; [congruence|]. apply IH; [done|]. by rewrite <- app_assoc.
Qed.

(** Actions that close nothing. *)
Definition noClose (_ new : list Action) : Prop := forall x, x ∈ new -> isClose x = false.

#[export] Instance noClose_composes : Composes noClose.
Proof.
  split; [by intros h x Hx%elem_of_nil|].
  intros h n1 n2 H1 H2 x [Hx|Hx]%elem_of_app; [by apply H1 | by apply H2].
Qed.

Lemma noClose_facts h new :
  noClose h new -> closesIn h new = 0 /\ allClear h new /\ neverStacked h new.
Proof.
  revert h. induction new as [|a new IH]; intros h Hn; simpl; [done|].
  assert (isClose a = false) as Ha by (apply Hn; by left).
  destruct (IH (h ++ [a])) as (-> & H2 & H3); [intros x Hx; apply Hn; by right|].
  unfold landed, inDoubt. rewrite Ha. done.
Qed.

Lemma noClose_one a h : isClose a = false -> noClose h [a].
Proof. intros Ha x Hx%list_elem_of_singleton. by subst. Qed.

Ltac quiet := always_auto ltac:(by apply noClose_one).

Lemma round_quiet s : Always (fun _ => True) noClose (getExecutionRound s).
Proof. unfold getExecutionRound, refreshRounds, fetchNoeracleFresh, now. quiet. Qed.

Lemma recheck_quiet a : Always (fun _ => True) noClose (recheckAdl a).
Proof. unfold recheckAdl, simulate, exec, addStat, alert. quiet. Qed.

(** What an attempt may do, by how it ends: a success is one close, a
    definite failure none, and only what ends the walk may be in doubt. *)
Definition attemptSound (h : list Action) (r : Result (ExecutionResult * bool))
    (new : list Action) : Prop :=
  closesIn h new = (match r with inr (x, _) => if success x then 1 else 0 | inl _ => 0 end)
  /\ neverStacked h new
  /\ (forall x router, r = Ok (x, router) -> success x = true \/ indeterminate x = false ->
      allClear h new).

(** One close submitted after actions none of which is a close that stands. *)
Lemma one_close_sound h n0 a router :
  isClose a = true -> closesIn h n0 = 0 -> allClear h n0 ->
  attemptSound h (match w_exec (h ++ n0) a with inr x => Ok (x, router) | inl e => Err e end)
    (n0 ++ [a]).
Proof.
  intros Ha H1 H2. split; [|split].
  - rewrite closesIn_app, H1. simpl. unfold landed. rewrite Ha.
    destruct (w_exec _ _) as [e|x]; simpl; [done|]. destruct (success x); lia.
  - apply neverStacked_app; [done|]. simpl. split; [by intros _ y Hy%elem_of_nil|done].
  - intros y r Heq Hor. apply allClear_app; [done|]. simpl. split; [|done].
    unfold inDoubt. rewrite Ha. destruct (w_exec _ _) as [e|x]; [done|]. injection Heq as -> ->.
    simpl. destruct Hor as [-> | ->]; [done | apply andb_false_r].
Qed.

Lemma routerVerdict_cases fn result codes b h :
  (exists b' o, routerVerdict fn result codes b h = (Ok o, b', []))
  /\ forall b' o n, routerVerdict fn result codes b h = (Ok o, b', n) ->
      o = Some result \/ (o = None /\ success result = false /\ indeterminate result = false).
Proof.
  unfold routerVerdict. destruct (success result), (indeterminate result); simpl;
    try (split; [by eexists _, _ | intros b' o n [= <- <- <-]; by left]).
  unfold mbind, K_bind, ret, modify.
  destruct (isMissingContractFunction _), (codeIs _ _); simpl;
    (split; [by eexists _, _ | intros b' o n [= <- <- <-]; auto]).
Qed.

Lemma attemptClose_sound asset' c h :
  Emits h (attemptClose config asset' c) (attemptSound h).
Proof.
  assert (forall n0, closesIn h n0 = 0 -> allClear h n0 ->
    Emits (h ++ n0) (result ← exec (AdlClose (id (position c))); ret (result, false))
      (fun r new => attemptSound h r (n0 ++ new))) as Hdirect.
  { intros n0 H1 H2. apply emits_bind, emits_io.
    pose proof (one_close_sound h n0 (AdlClose (id (position c))) false eq_refl H1 H2) as Hs.
    destruct (w_exec _ _) as [e|x]; [exact Hs | by apply emits_ret]. }
  unfold attemptClose, routerAvailable. apply emits_bind, emits_gets. intros available. simpl.
  rewrite app_nil_r. destruct available; cycle 1.
  { apply emits_bind, emits_ret. simpl. rewrite app_nil_r.
    specialize (Hdirect [] eq_refl I). by rewrite app_nil_r in Hdirect. }
  apply emits_bind, emits_bind. eapply emits_weaken; [by apply round_quiet|]. simpl.
  intros [e|[round|]] n1 Hq; destruct (noClose_facts h n1 Hq) as (H1 & H2 & H3).
  - by split.
  - apply emits_bind, emits_io.
    pose proof (one_close_sound h n1 (AdlCloseViaRouter (id (position c)) asset') true
                  eq_refl H1 H2) as Hs.
    destruct (w_exec _ _) as [e|result] eqn:Hx; [exact Hs|]. intros b.
    destruct (routerVerdict_cases "adl_with_price" result [84; 85; 20] b
                ((h ++ n1) ++ [AdlCloseViaRouter (id (position c)) asset'])) as [(b' & o & Hv) Hcase].
    rewrite Hv. specialize (Hcase _ _ _ Hv). simpl.
    destruct Hcase as [-> | (-> & Hf & Hi)]; [apply emits_ret; by rewrite app_nil_r|].
    destruct Hs as (Hs1 & Hs2 & Hs3). simpl in Hs1. rewrite Hf in Hs1.
    exact (Hdirect _ Hs1 (Hs3 result true eq_refl ltac:(by right))).
  - apply emits_ret. rewrite app_nil_r. by apply Hdirect.
Qed.

(** At most [k] closes, none stacked on one in doubt. *)
Definition walkOk (h : list Action) (k : Z) (new : list Action) : Prop :=
  closesIn h new <= Z.max 0 k /\ neverStacked h new.

Lemma walkOk_quiet h k new : noClose h new -> walkOk h k new.
Proof. intros (H1 & _ & H3)%noClose_facts. split; [lia|done]. Qed.

Lemma walkOk_app h k j n1 new :
  j = 0 \/ 0 <= k -> closesIn h n1 = j -> allClear h n1 -> walkOk (h ++ n1) k new ->
  walkOk h (j + k) (n1 ++ new).
Proof.
  intros Hk H1 H2 [H3 H4]. split; [rewrite closesIn_app; lia | by apply neverStacked_app].
Qed.

Lemma walkOk_bind {A B} h k (m : K A) (f : A -> K B) :
  Always (fun _ => True) noClose m ->
  (forall a h, Emits h (f a) (fun _ new => walkOk h k new)) ->
  Emits h (m ≫= f) (fun _ new => walkOk h k new).
Proof.
  intros Hm Hf. apply emits_bind. eapply emits_weaken; [by apply Hm|]. simpl.
  intros [e|a] n1 Hq; [by apply walkOk_quiet|].
  eapply emits_weaken; [apply Hf|]. simpl. intros r new Hw.
  destruct (noClose_facts _ _ Hq) as (H1 & H2 & _).
  replace k with (0 + k) by lia. apply walkOk_app; auto.
Qed.

Lemma adlWalk_sound asset' ranked : forall closes h,
  Emits h (adlWalk config asset' ranked closes)
    (fun _ new => walkOk h (adlMaxClosesPerCycle config - closes) new).
Proof.
  induction ranked as [|c ranked IH]; intros closes h; simpl.
  { apply emits_ret, walkOk_quiet. by intros x Hx%elem_of_nil. }
  destruct (Z.leb_spec (adlMaxClosesPerCycle config) closes) as [Hmax|Hmax].
  { apply emits_ret, walkOk_quiet. by intros x Hx%elem_of_nil. }
  apply emits_bind. eapply emits_weaken; [apply attemptClose_sound|]. simpl.
  intros [e|[result router]] n1 (H1 & H2 & H3); [split; [lia|done]|].
  destruct (success result) eqn:Hs.
  - eapply emits_weaken with (P := fun _ new =>
      walkOk (h ++ n1) (adlMaxClosesPerCycle config - (closes + 1)) new).
    + unfold addStat, alert.
      apply walkOk_bind; [destruct router; quiet | intros _ h1].
      apply walkOk_bind; [quiet | intros _ h2].
      apply walkOk_bind; [quiet | intros _ h3].
      apply walkOk_bind; [apply recheck_quiet | intros [] h4]; [apply IH|].
      apply emits_ret, walkOk_quiet. by intros x Hx%elem_of_nil.
    + intros _ new Hw.
      replace (adlMaxClosesPerCycle config - closes)
        with (1 + (adlMaxClosesPerCycle config - (closes + 1))) by lia.
      apply walkOk_app; [lia | exact H1 | by eapply H3; eauto | exact Hw].
  - assert (Emits (h ++ n1) (if codeIs (errorText result) [84]
        then modify (setAdlActive asset' false) else adlWalk config asset' ranked closes)
      (fun _ new => walkOk (h ++ n1) (adlMaxClosesPerCycle config - closes) new)) as Hrest.
    { destruct (codeIs _ _); [|apply IH]. apply emits_modify, walkOk_quiet. by intros x Hx%elem_of_nil. }
    destruct (indeterminate result) eqn:Hi.
    + apply emits_ret. rewrite app_nil_r. split; [lia|done].
    + eapply emits_weaken; [apply Hrest|]. simpl. intros _ new Hw.
      replace (adlMaxClosesPerCycle config - closes)
        with (0 + (adlMaxClosesPerCycle config - closes)) by lia.
      apply walkOk_app; [lia | exact H1 | by eapply H3; eauto | exact Hw].
Qed.

Lemma probe_sound asset' ps price h :
  Emits h (probeAndDriveAdl config asset' ps price)
    (fun _ new => walkOk h (adlMaxClosesPerCycle config) new).
Proof.
  unfold probeAndDriveAdl, now, simulate.
  apply walkOk_bind; [quiet | intros t h1]. apply walkOk_bind; [quiet | intros _ h2].
  apply walkOk_bind; [quiet | intros [rv|m] h3].
  - apply walkOk_bind; [quiet | intros _ h4].
    apply walkOk_bind; [unfold flagKnown, reconcileFlag, readBool, exec, addStat, alert; quiet | intros known h5].
    destruct (negb known); [apply emits_ret, walkOk_quiet; by intros x Hx%elem_of_nil|].
    apply walkOk_bind; [quiet | intros active h6].
    destruct active; [|apply emits_ret, walkOk_quiet; by intros x Hx%elem_of_nil].
    pose proof (adlWalk_sound asset' (rankAdlCandidates ps price) 0 h6) as Hw.
    by rewrite Z.sub_0_r in Hw.
  - eapply emits_weaken; [|intros r new; apply walkOk_quiet].
    destruct (isMissingContractFunction m); [apply emits_modify | apply emits_ret];
      by intros x Hx%elem_of_nil.
Qed.

(** Forced closes are bounded and never stacked. For one asset, in one
    pass of the deleveraging phase, at most the configured number of forced
    closes go through, and once a close is in doubt (its transaction may
    still land, or its submission threw) no further close is submitted. *)
Theorem adl_closes_bounded asset' ps price b h :
  let new := (probeAndDriveAdl config asset' ps price b h).2 in
  closesIn h new <= Z.max 0 (adlMaxClosesPerCycle config) /\ neverStacked h new.
Proof.
  pose proof (probe_sound asset' ps price h b) as Hs.
  by destruct (probeAndDriveAdl _ _ _ _ _ _) as [[r b'] new].
Qed.

Lemma manageAdl_holds snapshot sweep b h :
  let '(_, b', n) := manageAdl config snapshot sweep b h in
  Guarded (adlGuard h b (s_positions snapshot) (localPriceMap b)) h n /\ memoryGrounded h b b' (h ++ n).
Proof.
  unfold manageAdl, adlDisabled, mbind, K_bind, gets. simpl. rewrite !app_nil_r.
  assert (memoryGrounded h b b h) as Hm by (intros a Ha; by left).
  destruct (bool_decide _); simpl; [split; [apply composes_nil|by rewrite app_nil_r]|]. rewrite !app_nil_r.
  pose proof (manageEach_holds config h b (s_positions snapshot) (localPriceMap b) sweep
    (groupBy asset (s_positions snapshot)) ltac:(intros a l p; apply elem_of_groupBy) b h
    ltac:(exists []; by rewrite app_nil_r) Hm) as Hg.
  by destruct (manageEach _ _ _ _ _ _) as [[r b'] new].
Qed.

Lemma manageAdl_guarded snapshot sweep b h :
  Guarded (adlGuard h b (s_positions snapshot) (localPriceMap b)) h
    (manageAdl config snapshot sweep b h).2.
Proof.
  pose proof (manageAdl_holds snapshot sweep b h) as Hg. by destruct (manageAdl _ _ _ _ _) as [[r b'] new], Hg.
Qed.

(** C34. A forced close rests on the chain and on a profit. Each close of the
    phase, direct or through the router, is for a position of the snapshot
    that wins at the keeper's price for its asset, after a simulation of that
    asset's trigger made in this phase answered that deleveraging is on. The
    stored flag was on too as far as the keeper knows: right after such a
    simulation it was read to be on, or read to be off and turned on by a
    transaction that succeeded, in this phase, or the keeper remembered it as
    on when the phase began. And nothing else makes it remember that: a flag
    it holds for on afterwards was so before, or was confirmed like that. *)
Theorem adl_close_needs_chain_and_profit snapshot sweep b h :
  let '(_, b', new) := manageAdl config snapshot sweep b h in
  (forall pre a post pid,
    a = AdlClose pid \/ (exists asset', a = AdlCloseViaRouter pid asset') -> new = pre ++ a :: post ->
    exists p price, p ∈ s_positions snapshot /\ id p = pid
      /\ localPriceMap b !! asset p = Some price /\ 0 < calculatePnl p price
      /\ (exists l1 l2, pre = l1 ++ SimulateCheckAdlTrigger (asset p) :: l2
         /\ w_sim (h ++ l1) (SimulateCheckAdlTrigger (asset p)) = Ok (SimOk (Some true)))
      /\ (adlActive (adlS b) !! asset p = Some true \/ confirmedOn h (asset p) (h ++ pre)))
  /\ (forall a, adlActive (adlS b') !! a = Some true ->
      adlActive (adlS b) !! a = Some true \/ confirmedOn h a (h ++ new)).
Proof.
  pose proof (manageAdl_holds snapshot sweep b h) as Hg.
  destruct (manageAdl config snapshot sweep b h) as [[r b'] new]. destruct Hg as [Hg Hm]. split; [|exact Hm].
  intros pre a post pid Ha Hn.
  assert (exists asset', deleverable h b (s_positions snapshot) (localPriceMap b) pid asset' (h ++ pre))
    as (asset' & (p & price & Hin & Hid & <- & Hp & Hw) & (l1 & l2 & He%app_inv_head & Hs) & Hgr).
  { destruct Ha as [->|[asset' ->]]; [by apply (Hg pre _ post _ Hn eq_refl)|].
    exists asset'. by apply (Hg pre _ post _ Hn eq_refl). }
  exists p, price. do 4 (split; [done|]). split; [by eauto|exact Hgr].
Qed.

(** The keeper pays for a flag flip only when it changes something: in
    the phase, check_adl_trigger is submitted for an asset only after a
    simulation of it gave a flag and the stored flag was read to be the
    other one, or after a simulation made it certain that the flag clears. *)
Theorem adl_flag_submitted_only_to_change snapshot sweep b h pre asset' post :
  (manageAdl config snapshot sweep b h).2 = pre ++ CheckAdlTrigger asset' :: post ->
  (exists v, simFlagIs h asset' v (h ++ pre) /\ flagRead h asset' (negb v) (h ++ pre))
  \/ simulatedAs h (SimulateCheckAdlTrigger asset') (SimOk (Some false)) (h ++ pre).
Proof.
  intros Hn. pose proof (manageAdl_guarded snapshot sweep b h) as Hg. rewrite Hn in Hg.
  by apply (Hg pre _ post _ eq_refl eq_refl).
Qed.
End walk_facts.

(** ** Witnesses *)

(** The isolated long again, with a price at which it wins. *)
Definition pricedBot : Bot := onOracle (fun o => {|
  currentPrices := {[ "BTC" := {| price := numberOfZ 900; priceScaled := 900; priceAt := 0 |} ]};
  lastPushedPrices := lastPushedPrices o; lastSyncedPnlPrice := lastSyncedPnlPrice o; lastFullPnlSyncAt := lastFullPnlSyncAt o;
  spikeAlertAt := spikeAlertAt o |}) emptyBot.

Definition flagSetActions : list Action :=
  [Now; SimulateCheckAdlTrigger "BTC"; IsAdlActive "BTC"; CheckAdlTrigger "BTC";
   SendAlert critical "Emergency deleveraging ON for BTC"; Now; FetchNoeracle; Now].

Lemma adl_close_needs_chain_and_profit_witness :
  (exists r b', manageAdl (W := sampleWorld) sampleConfig oneLong true pricedBot [] = (r, b', flagSetActions ++ [AdlClose 7;
     SendAlert critical "Force-closed a winning position on BTC"; SimulateCheckAdlTrigger "BTC"]))
  /\ exists p price, p ∈ [sampleLong] /\ id p = 7
    /\ localPriceMap pricedBot !! asset p = Some price /\ 0 < calculatePnl p price
    /\ confirmedOn (W := sampleWorld) [] (asset p) flagSetActions.
Proof.
  split; [eexists _, _; vm_compute; reflexivity|].
  pose proof (adl_close_needs_chain_and_profit (W := sampleWorld) sampleConfig oneLong true pricedBot []) as H.
  destruct (manageAdl (W := sampleWorld) sampleConfig oneLong true pricedBot []) as [[r b'] new] eqn:Hrun.
  destruct H as [H _].
  destruct (H flagSetActions (AdlClose 7)
           [SendAlert critical "Force-closed a winning position on BTC"; SimulateCheckAdlTrigger "BTC"] 7 ltac:(by left))
    as (p & price & H1 & H2 & H3 & H4 & _ & H5).
  { apply (f_equal snd) in Hrun. cbn [snd] in Hrun. subst new. vm_compute. reflexivity. }
  exists p, price. split; [exact H1|]. split; [exact H2|]. split; [exact H3|]. split; [exact H4|].
  destruct H5 as [H5|H5]; [discriminate H5|exact H5].
Defined.

Theorem adl_flag_submitted_only_to_change_witness :
  (exists v, simFlagIs (W := sampleWorld) [] "BTC" v (take 3 flagSetActions)
     /\ flagRead (W := sampleWorld) [] "BTC" (negb v) (take 3 flagSetActions))
  \/ simulatedAs (W := sampleWorld) [] (SimulateCheckAdlTrigger "BTC") (SimOk (Some false))
       (take 3 flagSetActions).
Proof.
  apply (adl_flag_submitted_only_to_change (W := sampleWorld) sampleConfig oneLong true pricedBot []
           (take 3 flagSetActions) "BTC"
           (drop 4 flagSetActions ++ [AdlClose 7;
              SendAlert critical "Force-closed a winning position on BTC";
              SimulateCheckAdlTrigger "BTC"])).
  vm_compute. reflexivity.
Defined.

(** A flag remembered as on is not read again: the walk starts on the
    simulation alone, and it is the contract that refuses the close (84) when
    the stored flag is off by then, after which the keeper forgets it. *)
Example remembered_flag_is_not_read_again :
  let new := (manageAdl (W := sampleWorld) sampleConfig oneLong true (setAdlActive "BTC" true pricedBot) []).2 in
  existsb isClose new = true
  /\ existsb (fun a => match a with IsAdlActive _ | CheckAdlTrigger _ => true | _ => false end) new = false.
Proof. split; vm_compute; reflexivity. Qed.
