(* ===== verification/KeeperSubmit.v ===== *)
(** * Submitting transactions

    Models withRpc, invokeContractWrite and invokeContractWriteWithRetry of
    scripts/keeper/src/stellar.ts: endpoint failover, one submission with its
    confirmation polling, and the retry policy with fee escalation and the
    re-check after an indeterminate outcome. Delays are left out. *)

From S2P Require Import Prelude JsText KeeperEffects.
Open Scope Z_scope.
Open Scope js_scope.

Definition MAX_RETRIES : nat := 3.
Definition CONFIRM_POLL_ATTEMPTS : nat := 30.
Definition SEND_ATTEMPTS : nat := 3.
Definition BASE_INCLUSION_FEE : Z := 10000000.
Definition MAX_INCLUSION_FEE : Z := 50000000.

Definition NON_RETRYABLE_CODES : list Z :=
  [20; 50; 55; 60; 61; 62; 63; 78; 80; 81; 82; 83; 84; 85; 86; 87; 89; 90; 91; 92].

Definition NON_RETRYABLE_NAMES : list string :=
  ["SlippageExceeded"; "OrderNotTriggered"; "OrderNotFound"; "OrderNotPending"; "NotLiquidatable";
   "CrossMarginNotLiquidatable"; "CrossMarginOrderNotSupported"; "PriceDeviationTooHigh";
   "OpenInterestCapExceeded"; "PositionNotFound"; "FundingIntervalNotElapsed"].

Definition isNonRetryableContractError (message : string) : bool :=
  codeIs message NON_RETRYABLE_CODES || existsb (includes message) NON_RETRYABLE_NAMES.

(** The message is the error's with its cause's, as the code joins them. *)
Definition isTransientRpcError (message : string) : bool :=
  existsb (includes (lower message))
    ["fetch failed"; "econnreset"; "econnrefused"; "etimedout"; "eai_again"; "enotfound"; "epipe";
     "socket hang up"; "aborted"; "timeout"; "timedout"; "time out"; "timed out"; "network";
     "429"; "502"; "503"; "504"].

(** ** The network *)

Inductive Op :=
| GetAccount
| SimulateTx (fee : Z)
| SendTx (fee : Z)
| GetTransaction (hash : string)
| GetLedgerEntries (count : nat).

(** A request to one endpoint, or the caller's re-check of the chain. *)
Inductive Call := Request (server : nat) (op : Op) | Recheck.

Inductive SendStatus := PENDING (hash : string) | TRY_AGAIN_LATER | ERROR (detail : string)
  | OtherStatus (name : string).
Inductive GetStatus := SUCCESS (reward : option Z) | NOT_FOUND | FAILED.

(** The answers, given the calls made before; [Err] is a thrown message. A
    simulation answers [Some error] when the contract rejects. *)
Class Rpc := {
  rpc_account : list Call -> nat -> Result ();
  rpc_simulate : list Call -> nat -> Z -> Result (option string);
  rpc_send : list Call -> nat -> Z -> Result SendStatus;
  rpc_get : list Call -> nat -> string -> Result GetStatus;
  rpc_recheck : list Call -> Result bool }.

(** ** Programs: the endpoint in use, the calls made, a result or exception *)

Inductive Exn := Indeterminate (hash : string) | Thrown (message : string).

Definition Sub (A : Type) : Type := nat -> list Call -> (Exn + A) * nat * list Call.

Definition pure {A} (a : A) : Sub A := fun s _ => (inr a, s, []).
Definition raise {A} (e : Exn) : Sub A := fun s _ => (inl e, s, []).

#[export] Instance Sub_bind : MBind Sub := fun A B k m s h =>
  match m s h with
  | (inl e, s1, n1) => (inl e, s1, n1)
  | (inr a, s1, n1) =>
      match k a s1 (h ++ n1) with (r, s2, n2) => (r, s2, n1 ++ n2) end
  end.

(** The outcome of [m], its exception included. *)
Definition attempt {A} (m : Sub A) : Sub (Exn + A) := fun s h =>
  match m s h with (r, s1, n1) => (inr r, s1, n1) end.

Record WriteOptions := { escalateFees : bool; maxRetries : nat; hasRecheck : bool }.

Section submit.
Context {R : Rpc} (servers : nat).

(** ** Failover *)

(** [budget] endpoints may still be tried. *)
Fixpoint withRpcLoop {A} (budget : nat) (op : Op) (answer : list Call -> nat -> Result A)
    (lastError : string) : Sub A := fun s h =>
  match budget with
  | O => (inl (Thrown lastError), s, [])
  | S budget =>
      match answer h s with
      | inr a => (inr a, s, [Request s op])
      | inl e =>
          if negb (isTransientRpcError e) || (servers =? 1)%nat
          then (inl (Thrown e), s, [Request s op])
          else
            match withRpcLoop budget op answer e (S s mod servers)%nat (h ++ [Request s op]) with
            | (r, s', n) => (r, s', Request s op :: n)
            end
      end
  end.

Definition withRpc {A} (op : Op) (answer : list Call -> nat -> Result A) : Sub A :=
  withRpcLoop servers op answer "undefined".

Definition getAccount : Sub () := withRpc GetAccount rpc_account.
Definition simulateTx (fee : Z) : Sub (option string) :=
  withRpc (SimulateTx fee) (fun h s => rpc_simulate h s fee).
Definition sendTx (fee : Z) : Sub SendStatus := withRpc (SendTx fee) (fun h s => rpc_send h s fee).
Definition getTx (hash : string) : Sub GetStatus :=
  withRpc (GetTransaction hash) (fun h s => rpc_get h s hash).

(** ** One submission *)

(** The sending loop; it ends without a hash only after answers to try
    again later. *)
Fixpoint sendLoop (budget : nat) (fee : Z) : Sub string :=
  match budget with
  | O => raise (Thrown "Transaction not accepted after retries: TRY_AGAIN_LATER")
  | S budget =>
      sent ← sendTx fee;
      match sent with
      | PENDING hash => pure hash
      | TRY_AGAIN_LATER =>
          _ ← getAccount;
          fresh ← simulateTx fee;
          match fresh with
          | Some e => raise (Thrown ("Simulation failed on retry: " +:+ e))
          | None => sendLoop budget fee
          end
      | ERROR detail => raise (Thrown ("Transaction send failed: " +:+ detail))
      | OtherStatus name => raise (Thrown ("Unexpected send status: " +:+ name))
      end
  end.

(** Poll until the transaction is found, or the window is over. *)
Fixpoint pollLoop (budget : nat) (hash : string) (status : GetStatus) : Sub GetStatus :=
  match status, budget with
  | NOT_FOUND, S budget => again ← getTx hash; pollLoop budget hash again
  | _, _ => pure status
  end.

Definition confirm (hash : string) : Sub ExecutionResult :=
  first ← getTx hash;
  status ← pollLoop CONFIRM_POLL_ATTEMPTS hash first;
  match status with
  | SUCCESS reward =>
      pure {| success := true; indeterminate := false; reward := reward; error := None |}
  | NOT_FOUND => raise (Indeterminate hash)
  | FAILED => raise (Thrown "Transaction failed: FAILED")
  end.

Definition invokeContractWrite (inclusionFee : Z) : Sub ExecutionResult :=
  _ ← getAccount;
  sim ← simulateTx inclusionFee;
  match sim with
  | Some e => raise (Thrown ("Simulation failed: " +:+ e))
  | None => hash ← sendLoop SEND_ATTEMPTS inclusionFee; confirm hash
  end.

(** ** Retries *)

Definition inclusionFeeOf (options : WriteOptions) (attempt : Z) : Z :=
  if escalateFees options
  then Z.min (BASE_INCLUSION_FEE * 2 ^ (attempt - 1)) MAX_INCLUSION_FEE
  else BASE_INCLUSION_FEE.

Definition stillNeeded (options : WriteOptions) : Sub bool := fun s h =>
  if hasRecheck options
  then (inr (match rpc_recheck h with inr b => b | inl _ => false end), s, [Recheck])
  else (inr false, s, []).

Definition failure (doubt : bool) (message : option string) : ExecutionResult :=
  {| success := false; indeterminate := doubt; reward := None; error := message |}.

Definition indeterminateMessage (hash : string) : string :=
  "Transaction " +:+ hash
    +:+ " not confirmed within the polling window - outcome indeterminate".

Fixpoint retryLoop (budget : nat) (n : Z) (options : WriteOptions) (lastError : option string)
  : Sub ExecutionResult :=
  match budget with
  | O => pure (failure false lastError)
  | S budget =>
      outcome ← attempt (invokeContractWrite (inclusionFeeOf options n));
      match outcome with
      | inr result => pure result
      | inl (Indeterminate hash) =>
          needed ← stillNeeded options;
          if negb needed || (budget =? 0)%nat
          then pure (failure true (Some (indeterminateMessage hash)))
          else retryLoop budget (n + 1) options (Some (indeterminateMessage hash))
      | inl (Thrown message) =>
          if isNonRetryableContractError message then pure (failure false (Some message))
          else retryLoop budget (n + 1) options (Some message)
      end
  end.

Definition invokeContractWriteWithRetry (options : WriteOptions) : Sub ExecutionResult :=
  retryLoop (maxRetries options) 1 options None.
End submit.

(** ** Theorems *)

Section submit_facts.
Context {R : Rpc} (servers : nat).

(** *** Doubt

    An accepted transaction is open until its status is read: as found, which
    settles it, or as not found, which does not; or until the caller's re-check
    says that the operation is still needed. A read of the status that fails
    leaves it unread. *)
Inductive Doubt := Settled | Open_ | Unread.

Definition doubtStep (h : list Call) (d : Doubt) (c : Call) : Doubt :=
  match c with
  | Request s (SendTx fee) => match rpc_send h s fee with inr (PENDING _) => Open_ | _ => d end
  | Request s (GetTransaction hash) =>
      match rpc_get h s hash with inr NOT_FOUND => Open_ | inr _ => Settled | inl _ => Unread end
  | Recheck => match rpc_recheck h with inr true => Settled | _ => d end
  | _ => d
  end.

Fixpoint doubtFrom (h : list Call) (d : Doubt) (new : list Call) : Doubt :=
  match new with
  | [] => d
  | c :: new => doubtFrom (h ++ [c]) (doubtStep h d c) new
  end.

Definition isSend (c : Call) : bool :=
  match c with Request _ (SendTx _) => true | _ => false end.

(** No transaction is sent while one is open. *)
Fixpoint sendsSafe (h : list Call) (d : Doubt) (new : list Call) : Prop :=
  match new with
  | [] => True
  | c :: new => (isSend c = true -> d <> Open_) /\ sendsSafe (h ++ [c]) (doubtStep h d c) new
  end.

Lemma doubtFrom_app h d n1 n2 :
  doubtFrom h d (n1 ++ n2) = doubtFrom (h ++ n1) (doubtFrom h d n1) n2.
Proof.
  revert h d. induction n1 as [|c n1 IH]; intros h d; simpl; [by rewrite app_nil_r|].
  by rewrite IH, <- app_assoc.
Qed.

Lemma sendsSafe_app h d n1 n2 :
  sendsSafe h d n1 -> sendsSafe (h ++ n1) (doubtFrom h d n1) n2 -> sendsSafe h d (n1 ++ n2).
Proof.
  revert h d. induction n1 as [|c n1 IH]; intros h d; simpl; [by rewrite app_nil_r|].
  intros [Hc H1] H2. split; [done|]. apply IH; [done|]. by rewrite <- app_assoc.
Qed.

(** Run in doubt [d0], [m] sends safely, and ends with [r] in a doubt that
    [post] allows. *)
Definition Safe {A} (d0 : Doubt) (m : Sub A) (post : Exn + A -> Doubt -> Prop) : Prop :=
  forall s h,
  match m s h with (r, _, new) => sendsSafe h d0 new /\ post r (doubtFrom h d0 new) end.

Lemma safe_pure {A} d0 (a : A) (post : Exn + A -> Doubt -> Prop) :
  post (inr a) d0 -> Safe d0 (pure a) post.
Proof. intros Hp s h. by split. Qed.
Lemma safe_raise {A} d0 e (post : Exn + A -> Doubt -> Prop) :
  post (inl e) d0 -> Safe d0 (raise e) post.
Proof. intros Hp s h. by split. Qed.

Lemma safe_bind {A B} d0 (m : Sub A) (k : A -> Sub B) (mid : Exn + A -> Doubt -> Prop) post :
  Safe d0 m mid -> (forall e d, mid (inl e) d -> post (inl e) d) ->
  (forall a d, mid (inr a) d -> Safe d (k a) post) ->
  Safe d0 (m ≫= k) post.
Proof.
  intros Hm He Hk s h. specialize (Hm s h). unfold mbind, Sub_bind.
  destruct (m s h) as [[[e|a] s1] n1]; destruct Hm as [H1 H2]; [split; [done|by apply He]|].
  specialize (Hk a _ H2 s1 (h ++ n1)).
  destruct (k a s1 (h ++ n1)) as [[r s2] n2]. destruct Hk as [H3 H4].
  split; [by apply sendsSafe_app | by rewrite doubtFrom_app].
Qed.

Lemma safe_weaken {A} d0 (m : Sub A) (post post' : Exn + A -> Doubt -> Prop) :
  Safe d0 m post -> (forall r d, post r d -> post' r d) -> Safe d0 m post'.
Proof. intros Hm Hp s h. specialize (Hm s h). destruct (m s h) as [[r s'] n]. destruct Hm; auto. Qed.

(** A request that neither sends nor reads a status changes nothing. *)
Lemma withRpc_keeps {A} d0 op (answer : list Call -> nat -> Result A) :
  (forall s h, doubtStep h d0 (Request s op) = d0) -> isSend (Request 0 op) = false ->
  Safe d0 (withRpc servers op answer) (fun _ d => d = d0).
Proof.
  intros Hop Hs. unfold withRpc. generalize "undefined". generalize servers at 2.
  intros budget. induction budget as [|budget IH]; intros e s h; cbn [withRpcLoop]; [done|].
  assert (forall s, isSend (Request s op) = true -> d0 <> Open_) as Hno by (intros s0 Ht; by destruct op).
  destruct (answer h s) as [e'|a]; [|split; [split; [apply Hno|done] | apply Hop]].
  destruct (_ || _); [split; [split; [apply Hno|done] | apply Hop]|].
  specialize (IH e' (S s mod servers)%nat (h ++ [Request s op])).
  destruct (withRpcLoop _ _ _ _ _ _ _) as [[r s'] n]. cbn [sendsSafe doubtFrom].
  rewrite Hop. destruct IH. split; [split; [apply Hno|done]|done].
Qed.

(** A transaction that is accepted is open. *)
Lemma sendTx_doubt d0 fee : d0 <> Open_ ->
  Safe d0 (sendTx servers fee) (fun r d => d = match r with inr (PENDING _) => Open_ | _ => d0 end).
Proof.
  intros Hd. unfold sendTx, withRpc. generalize "undefined". generalize servers at 2.
  intros budget. induction budget as [|budget IH]; intros e s h; cbn [withRpcLoop]; [done|].
  destruct (rpc_send h s fee) as [e'|a] eqn:Ha; [|cbn; rewrite Ha; by destruct a].
  destruct (_ || _); [cbn; by rewrite Ha|].
  specialize (IH e' (S s mod servers)%nat (h ++ [Request s (SendTx fee)])).
  destruct (withRpcLoop _ _ _ _ _ _ _) as [[r s'] n]. cbn [sendsSafe doubtFrom doubtStep]. rewrite Ha.
  destruct IH. split; [split|]; done.
Qed.

(** What the last read of a status leaves. *)
Definition readDoubt (r : Exn + GetStatus) (d : Doubt) : Prop :=
  d = match r with inr NOT_FOUND => Open_ | inr _ => Settled | inl _ => Unread end.

Lemma getTx_doubt d0 hash : (0 < servers)%nat -> Safe d0 (getTx servers hash) readDoubt.
Proof.
  unfold getTx, withRpc. generalize "undefined". generalize servers at 1 3.
  intros budget. revert d0. induction budget as [|budget IH]; intros d0 e Hb s h; [lia|]. cbn [withRpcLoop].
  destruct (rpc_get h s hash) as [e'|a] eqn:Hg; [|cbn; rewrite Hg; by destruct a].
  destruct (_ || _); [cbn; by rewrite Hg|].
  destruct budget as [|budget]; [cbn; by rewrite Hg|].
  specialize (IH Unread e' ltac:(lia) (S s mod servers)%nat (h ++ [Request s (GetTransaction hash)])).
  destruct (withRpcLoop _ (S budget) _ _ _ _ _) as [[r s'] n]. cbn [sendsSafe doubtFrom doubtStep].
  rewrite Hg. destruct IH. split; [split|]; done.
Qed.

Lemma pollLoop_doubt hash : (0 < servers)%nat -> forall budget status d0,
  readDoubt (inr status) d0 -> Safe d0 (pollLoop servers budget hash status) readDoubt.
Proof.
  intros Hs budget. induction budget as [|budget IH]; intros status d0 Hd.
  - destruct status; by apply safe_pure.
  - destruct status; simpl; try by apply safe_pure.
    eapply safe_bind; [by apply getTx_doubt | done | intros a d Ha; by apply IH].
Qed.

Lemma sendLoop_doubt fee budget : forall d0, d0 <> Open_ ->
  Safe d0 (sendLoop servers budget fee) (fun r d => d = match r with inr _ => Open_ | inl _ => d0 end).
Proof.
  induction budget as [|budget IH]; intros d0 Hd; simpl; [by apply safe_raise|].
  eapply safe_bind; [by apply sendTx_doubt | by intros e d -> | ].
  intros [hash| |detail|name] d ->; [by apply safe_pure | | by apply safe_raise..].
  eapply safe_bind; [by apply withRpc_keeps | by intros e d -> | intros u d ->].
  eapply safe_bind; [by apply withRpc_keeps | by intros e d -> | intros [e|] d ->]; [by apply safe_raise|by apply IH].
Qed.

(** What an attempt leaves: after a thrown error nothing is open. *)
Definition attemptDoubt {A} (r : Exn + A) (d : Doubt) : Prop :=
  match r with inl (Thrown _) => d <> Open_ | _ => True end.

Lemma invokeContractWrite_safe d0 fee :
  (0 < servers)%nat -> d0 <> Open_ -> Safe d0 (invokeContractWrite servers fee) attemptDoubt.
Proof.
  intros Hs Hd. unfold invokeContractWrite.
  eapply safe_bind; [by apply withRpc_keeps | by intros [] d -> | intros u d ->].
  eapply safe_bind; [by apply withRpc_keeps | by intros [] d -> | intros [e|] d ->]; [by apply safe_raise|].
  eapply safe_bind; [by apply sendLoop_doubt | by intros [] d -> | intros hash d _]. unfold confirm.
  eapply safe_bind; [by apply getTx_doubt | by intros [] d' -> | intros first d' Hd'].
  eapply safe_bind; [by apply pollLoop_doubt | by intros [] d2 -> | intros [| |] d2 ->].
  - by apply safe_pure.
  - by apply safe_raise.
  - by apply safe_raise.
Qed.

Lemma retryLoop_safe options budget : (0 < servers)%nat -> forall n lastError d0, d0 <> Open_ ->
  Safe d0 (retryLoop servers budget n options lastError) (fun _ _ => True).
Proof.
  intros Hs. induction budget as [|budget IH]; intros n lastError d0 Hd0; simpl; [by apply safe_pure|].
  eapply (safe_bind _ _ _ (fun r d => match r with inr (inl (Thrown _)) => d <> Open_ | _ => True end)).
  - intros s h. pose proof (invokeContractWrite_safe d0 (inclusionFeeOf options n) Hs Hd0 s h) as Hi.
    unfold attempt. destruct (invokeContractWrite _ _ _ _) as [[r s'] new].
    destruct Hi as [H1 H2]. split; [done|]. by destruct r as [[]|].
  - done.
  - intros [[hash|message]|result] d Hd; [| |by apply safe_pure].
    + eapply (safe_bind _ _ _ (fun r d => match r with inr true => d = Settled | _ => True end)).
      * intros s h. unfold stillNeeded. destruct (hasRecheck options); [|done].
        simpl. destruct (rpc_recheck h) as [e|[]]; (split; [split|]; done).
      * done.
      * intros [] d' Hd'; simpl; [|by apply safe_pure]. subst d'.
        destruct (budget =? 0)%nat; [by apply safe_pure | by apply IH].
    + destruct (isNonRetryableContractError message); [by apply safe_pure | by apply IH].
Qed.

Lemma sendsSafe_at h d pre c post :
  sendsSafe h d (pre ++ c :: post) -> isSend c = true -> doubtFrom h d pre <> Open_.
Proof.
  revert h d. induction pre as [|x pre IH]; intros h d; cbn; [by intros [Hc _]|]. intros [_ Hs]. by apply IH.
Qed.

Lemma doubtFrom_read h d new :
  (forall h s hash, exists status, rpc_get h s hash = Ok status) -> d <> Unread -> doubtFrom h d new <> Unread.
Proof.
  intros Hget. revert h d. induction new as [|c new IH]; intros h d Hd; cbn; [done|]. apply IH.
  destruct c as [s [| |fee|hash|]|]; cbn; try done.
  - by destruct (rpc_send h s fee) as [|[]].
  - destruct (Hget h s hash) as [st ->]. by destruct st.
  - by destruct (rpc_recheck h) as [|[]].
Qed.


(** *** Bounds *)

Definition sends (new : list Call) : nat := length (bfilter isSend new).

Definition feeOk (c : Call) : Prop :=
  match c with Request _ (SendTx fee) => BASE_INCLUSION_FEE <= fee <= MAX_INCLUSION_FEE | _ => True end.

(** [m] sends at most [k] transactions, all with a fee in bounds. *)
Definition Costs {A} (k : nat) (m : Sub A) : Prop := forall s h,
  (sends (m s h).2 <= k)%nat /\ Forall feeOk (m s h).2.

Lemma costs_pure {A} (a : A) : Costs 0 (pure a).
Proof. split; [done | constructor]. Qed.
Lemma costs_raise {A} e : Costs 0 (raise (A := A) e).
Proof. split; [done | constructor]. Qed.

Lemma costs_weaken {A} k k' (m : Sub A) : Costs k m -> (k <= k')%nat -> Costs k' m.
Proof. intros Hm Hk s h. destruct (Hm s h). split; [lia | done]. Qed.

Lemma costs_bind {A B} k1 k2 (m : Sub A) (f : A -> Sub B) :
  Costs k1 m -> (forall a, Costs k2 (f a)) -> Costs (k1 + k2) (m ≫= f).
Proof.
  intros Hm Hf s h. specialize (Hm s h). unfold mbind, Sub_bind.
  destruct (m s h) as [[[e|a] s1] n1]; simpl in Hm; [simpl; split; [lia | tauto]|].
  specialize (Hf a s1 (h ++ n1)). destruct (f a s1 (h ++ n1)) as [[r s2] n2].
  unfold sends in *. simpl in *. rewrite bfilter_app, length_app.
  split; [lia | apply Forall_app; tauto].
Qed.

Lemma costs_withRpc {A} op (answer : list Call -> nat -> Result A) :
  feeOk (Request 0 op) ->
  Costs (if isSend (Request 0 op) then servers else 0) (withRpc servers op answer).
Proof.
  intros Hop. unfold withRpc.
  assert (forall budget e, Costs (if isSend (Request 0 op) then budget else 0)
    (withRpcLoop servers budget op answer e)) as Hgen; [|apply Hgen].
  induction budget as [|budget IH]; intros e s h; simpl.
  { split; [apply Nat.le_0_l | constructor]. }
  assert ((sends [Request s op] <= if isSend (Request 0 op) then 1 else 0)%nat
          /\ Forall feeOk [Request s op]) as [H1 H2].
  { split; [by destruct op|]. constructor; [by destruct op | constructor]. }
  destruct (answer h s) as [e'|a]; [destruct (_ || _)|].
  1, 3: split; [etrans; [exact H1|]; destruct op; simpl; lia | exact H2].
  specialize (IH e' (S s mod servers)%nat (h ++ [Request s op])).
  destruct (withRpcLoop _ _ _ _ _ _ _) as [[r s'] n]. simpl in IH. destruct IH as [IH1 IH2].
  split; [|constructor; [by inversion H2 | done]].
  unfold sends in *. simpl. destruct op; simpl in *; lia.
Qed.

Lemma costs_request {A} op (answer : list Call -> nat -> Result A) :
  isSend (Request 0 op) = false -> Costs 0 (withRpc servers op answer).
Proof.
  intros Hop. pose proof (costs_withRpc op answer) as Hc. rewrite Hop in Hc. apply Hc. by destruct op.
Qed.

Lemma costs_poll hash budget : forall status, Costs 0 (pollLoop servers budget hash status).
Proof.
  induction budget as [|budget IH]; intros []; simpl; try apply costs_pure.
  apply (costs_bind 0 0); [by apply costs_request | done].
Qed.

Lemma costs_sendLoop fee budget : BASE_INCLUSION_FEE <= fee <= MAX_INCLUSION_FEE ->
  Costs (budget * servers) (sendLoop servers budget fee).
Proof.
  intros Hfee. induction budget as [|budget IH]; simpl; [apply costs_raise|].
  apply costs_bind; [by apply (costs_withRpc (SendTx fee))|].
  intros [hash| |detail|name];
    [eapply costs_weaken; [apply costs_pure | lia] | | eapply costs_weaken; [apply costs_raise | lia]..].
  apply (costs_bind 0); [by apply costs_request | intros _].
  apply (costs_bind 0); [by apply costs_request | intros [e|]]; [|exact IH].
  eapply costs_weaken; [apply costs_raise | lia].
Qed.

Lemma costs_write fee : BASE_INCLUSION_FEE <= fee <= MAX_INCLUSION_FEE ->
  Costs (SEND_ATTEMPTS * servers) (invokeContractWrite servers fee).
Proof.
  intros Hfee. unfold invokeContractWrite.
  apply (costs_bind 0 (SEND_ATTEMPTS * servers)); [by apply costs_request | intros _].
  apply (costs_bind 0 (SEND_ATTEMPTS * servers)); [by apply costs_request | intros [e|]];
    [eapply costs_weaken; [apply costs_raise | lia]|].
  apply (costs_weaken (SEND_ATTEMPTS * servers + 0)); [|lia].
  apply costs_bind; [by apply costs_sendLoop|]. intros hash. unfold confirm.
  apply (costs_bind 0 0); [by apply costs_request | intros first].
  apply (costs_bind 0 0); [apply costs_poll | intros [| |]]; [apply costs_pure | apply costs_raise..].
Qed.

Lemma inclusionFeeOf_bounds options n :
  1 <= n -> BASE_INCLUSION_FEE <= inclusionFeeOf options n <= MAX_INCLUSION_FEE.
Proof.
  intros Hn. unfold inclusionFeeOf, BASE_INCLUSION_FEE, MAX_INCLUSION_FEE.
  destruct (escalateFees options); [|lia].
  assert (0 < 2 ^ (n - 1)) by (apply Z.pow_pos_nonneg; lia). lia.
Qed.

Lemma costs_retry options budget : forall n lastError, 1 <= n ->
  Costs (budget * (SEND_ATTEMPTS * servers)) (retryLoop servers budget n options lastError).
Proof.
  induction budget as [|budget IH]; intros n lastError Hn; [apply costs_pure|].
  cbn [retryLoop Nat.mul]. apply costs_bind.
  - intros s h. pose proof (costs_write _ (inclusionFeeOf_bounds options n Hn) s h) as Hw.
    unfold attempt. by destruct (invokeContractWrite _ _ _ _) as [[r s'] new].
  - assert (forall r, Costs (budget * (SEND_ATTEMPTS * servers)) (pure r : Sub ExecutionResult))
      as Hpure by (intros r; eapply costs_weaken; [apply costs_pure | lia]).
    intros [[hash|message]|result]; [| |apply Hpure].
    + apply (costs_bind 0).
      * intros s h. unfold stillNeeded. destruct (hasRecheck options); simpl;
          (split; [done | repeat constructor]).
      * intros needed. destruct (_ || _); [apply Hpure | apply IH; lia].
    + destruct (isNonRetryableContractError message); [apply Hpure | apply IH; lia].
Qed.

(** Submitting is bounded in number and in price. Whatever the network
    answers, one call of the retry policy sends at most three transactions
    per attempt and endpoint, and none with an inclusion fee below the base
    fee or above the cap. *)
Theorem submission_is_bounded options s h :
  let new := (invokeContractWriteWithRetry servers options s h).2 in
  (sends new <= maxRetries options * (SEND_ATTEMPTS * servers))%nat /\ Forall feeOk new.
Proof. apply (costs_retry options (maxRetries options) 1 None). lia. Qed.
End submit_facts.

(** ** An unread confirmation *)

(** Submissions are accepted, but the status can never be read. *)
Definition deafRpc : Rpc := {|
  rpc_account := fun _ _ => Ok ();
  rpc_simulate := fun _ _ _ => Ok None;
  rpc_send := fun _ _ _ => Ok (PENDING "tx");
  rpc_get := fun _ _ _ => Err "fetch failed";
  rpc_recheck := fun _ => Ok false |}.

Definition liquidateOptions : WriteOptions :=
  {| escalateFees := true; maxRetries := MAX_RETRIES; hasRecheck := true |}.

(** The policy covers only what the polling window saw. When the read of
      the status itself fails, the accepted transaction is taken for a failed
      attempt: the liquidation is sent again, three times in all, without the
      re-check its caller provides being consulted, though that re-check would
      have said that nothing is left to do. *)
Theorem unread_confirmation_resubmits :
  let new := (invokeContractWriteWithRetry (R := deafRpc) 1 liquidateOptions 0%nat []).2 in
  sends new = 3%nat /\ (Recheck ∉ new) /\ forall h, rpc_recheck (Rpc := deafRpc) h = Ok false.
Proof.
  split; [reflexivity|]. split; [|done].
  intros Hin. vm_compute in Hin. repeat (apply elem_of_cons in Hin as [Hin|Hin]; [done|]).
  by apply elem_of_nil in Hin.
Qed.

(** ** Witness *)

(** Nothing is ever found, and the re-check says to go on. *)
Definition doubtfulRpc : Rpc := {|
  rpc_account := fun _ _ => Ok ();
  rpc_simulate := fun _ _ _ => Ok None;
  rpc_send := fun _ _ _ => Ok (PENDING "tx");
  rpc_get := fun _ _ _ => Ok NOT_FOUND;
  rpc_recheck := fun _ => Ok true |}.

