(* ===== verification/KeeperOracle.v ===== *)
(** * Price publishing of the keeper

    Models updateOraclePrices, passesPublishDefenses, alertSpike and
    syncAssetPnl of scripts/keeper/src/index.ts: which signed prices are
    relayed on chain, as one batch of one round, and how the keeper's own
    price memory follows. Prices for humans are IEEE binary64. *)

From S2P Require Import Prelude JsText KeeperEffects KeeperLiquidations.
Open Scope Z_scope.
Open Scope js_scope.

Definition FULL_PNL_SYNC_INTERVAL_MS : Z := 300000.
Definition PNL_SYNC_MOVE_BPS : Z := 10.
Definition SPIKE_ALERT_MS : Z := 3600000.

Definition setPrices (f : gmap string PriceData -> gmap string PriceData) : Bot -> Bot :=
  onOracle (fun o => {|
    currentPrices := f (currentPrices o); lastPushedPrices := lastPushedPrices o;
    lastSyncedPnlPrice := lastSyncedPnlPrice o; lastFullPnlSyncAt := lastFullPnlSyncAt o;
    spikeAlertAt := spikeAlertAt o |}).
Definition setPersisted (f : gmap string PriceData -> gmap string PriceData) : Bot -> Bot :=
  onOracle (fun o => {|
    currentPrices := currentPrices o; lastPushedPrices := f (lastPushedPrices o);
    lastSyncedPnlPrice := lastSyncedPnlPrice o; lastFullPnlSyncAt := lastFullPnlSyncAt o;
    spikeAlertAt := spikeAlertAt o |}).
Definition setSynced (symbol : string) (price : Z) : Bot -> Bot := onOracle (fun o => {|
    currentPrices := currentPrices o; lastPushedPrices := lastPushedPrices o;
    lastSyncedPnlPrice := <[symbol := price]> (lastSyncedPnlPrice o);
    lastFullPnlSyncAt := lastFullPnlSyncAt o; spikeAlertAt := spikeAlertAt o |}).
Definition setFullSync (t : Z) : Bot -> Bot := onOracle (fun o => {|
    currentPrices := currentPrices o; lastPushedPrices := lastPushedPrices o;
    lastSyncedPnlPrice := lastSyncedPnlPrice o; lastFullPnlSyncAt := t;
    spikeAlertAt := spikeAlertAt o |}).
Definition setSpikeAt (symbol : string) (t : Z) : Bot -> Bot := onOracle (fun o => {|
    currentPrices := currentPrices o; lastPushedPrices := lastPushedPrices o;
    lastSyncedPnlPrice := lastSyncedPnlPrice o; lastFullPnlSyncAt := lastFullPnlSyncAt o;
    spikeAlertAt := <[symbol := t]> (spikeAlertAt o) |}).

(** [(Math.abs(x - y) / y) * 100] *)
Definition pctOff (x y : number) : number := mulN (divN (absN (subN x y)) y) (numberOfZ 100).

Definition pairOf (symbol : string) : string := symbol +:+ "/USD".

(** One call verifies one round: the attestations are grouped by this key. *)
Definition roundKey (att : Attestation) : string :=
  decimalOfZ (round_id att) +:+ ":" +:+ decimalOfZ (timestamp att) +:+ ":" +:+ publisher att.

Definition headRound (g : list Attestation) : Z :=
  match g with att :: _ => round_id att | [] => 0 end.

(** The comparator puts [g] strictly before [best]. *)
Definition better (g best : list Attestation) : bool :=
  (length best <? length g)%nat
  || ((length best =? length g)%nat && (headRound best <? headRound g)).

(** [groups.sort(...)[0]]: the first of the best ones, the sort being stable. *)
Definition pickBatch (eligible : list Attestation) : list Attestation :=
  foldl (fun best g => if better g best then g else best) [] (groupBy roundKey eligible).*2.

Section oracle.
Context {W : World} (config : Config).

Definition jumpBoundWindowMs : Z := Z.max 600000 (5 * oracleUpdateIntervalMs config).

(** ** Publish defenses *)

Definition refuse (level : AlertLevel) (title : string) : K bool :=
  _ ← addStat "priceSkips" 1;
  _ ← alert level title;
  ret false.

(** The second defense: whether the jump from the last pushed price is
    small enough, or that push old enough. *)
Definition jumpAllowed (a : AssetConfig) (priceHuman : number) : K bool :=
  lastPrice ← gets (fun b => currentPrices (oracleS b) !! symbol a);
  match lastPrice with
  | None => ret true
  | Some last =>
      if ltN (numberOfZ 0) (price last)
         && ltN (maxMovePct a) (pctOff priceHuman (price last))
      then t ← now; ret (negb (t - priceAt last <=? jumpBoundWindowMs))
      else ret true
  end.

Definition passesPublishDefenses (symb : string) (att : Attestation) : K bool :=
  match List.find (fun a => String.eqb (symbol a) symb) (assets config) with
  | None => throw "undefined asset"
  | Some a =>
      if (att_price att <? minScaled a) || (maxScaled a <? att_price att)
      then refuse warn ("Refused a crazy " +:+ symb +:+ " price")
      else
        jumpOk ← jumpAllowed a (price_human att);
        if negb jumpOk then refuse warn ("Refused a huge " +:+ symb +:+ " jump")
        else
          reference ← readNumber (GetReferencePrice symb);
          if match reference with
             | Some r => ltN (referenceDivergencePct config) (pctOff (price_human att) r)
             | None => false
             end
          then refuse warn ("Refused " +:+ symb +:+ ": two price sources disagree")
          else
            stork ← readNumber (GetStorkPrice symb);
            if match stork with
               | Some s => ltN (storkMaxDivergencePct config) (pctOff (price_human att) s)
               | None => false
               end
            then refuse critical (symb +:+ " price sources seriously disagree")
            else ret true
  end.

(** ** Collecting the prices worth pushing *)

Definition eligibleOne (attestations : list Attestation) (a : AssetConfig)
  : K (option Attestation) :=
  match List.find (fun att => String.eqb (att_asset att) (pairOf (symbol a))) attestations with
  | None => ret None
  | Some att =>
      if negb (isFinite (price_human att)) || leN (price_human att) (numberOfZ 0) then ret None
      else
        ok ← passesPublishDefenses (symbol a) att;
        if (ok : bool) then
          t ← now;
          _ ← modify (setRounds <[symbol a := (att, t)]>);
          ret (Some att)
        else ret None
  end.

Fixpoint collectEligible (attestations : list Attestation) (todo : list AssetConfig)
    (eligible : list (string * Attestation)) : K (list (string * Attestation)) :=
  match todo with
  | [] => ret eligible
  | a :: todo =>
      found ← eligibleOne attestations a;
      collectEligible attestations todo
        (match found with Some att => eligible ++ [(symbol a, att)] | None => eligible end)
  end.

(** ** After a push *)

Definition alertSpike (symb : string) : K () :=
  last ← gets (fun b => default 0 (spikeAlertAt (oracleS b) !! symb));
  t ← now;
  if t - last <? SPIKE_ALERT_MS then ret ()
  else
    t ← now;
    _ ← modify (setSpikeAt symb t);
    alert info (symb +:+ " price moved fast").

Definition checkSpike (symb : string) (att : Attestation) : K () :=
  previous ← gets (fun b => currentPrices (oracleS b) !! symb);
  match previous with
  | None => ret ()
  | Some p =>
      if (0 <? priceScaled p) && ltN (numberOfZ 0) (spikeAlertPct config)
         && ltN (spikeAlertPct config)
              (mulN (divN (absN (numberOfZ (att_price att - priceScaled p)))
                          (numberOfZ (priceScaled p))) (numberOfZ 100))
      then alertSpike symb else ret ()
  end.

Definition recordPush (symb : string) (att : Attestation) : K () :=
  _ ← checkSpike symb att;
  t ← now;
  _ ← modify (setPrices <[symb := {| price := price_human att; priceScaled := att_price att;
                                     priceAt := t |}]>);
  t ← now;
  modify (setPersisted <[symb := {| price := price_human att; priceScaled := att_price att;
                                    priceAt := t |}]>).

(** The loop over the batch; returns the symbols pushed. *)
Fixpoint recordBatch (symbolByPair : gmap string string) (batch : list Attestation)
  : K (list string) :=
  match batch with
  | [] => ret []
  | att :: batch =>
      match symbolByPair !! att_asset att with
      | None => recordBatch symbolByPair batch
      | Some symb =>
          _ ← recordPush symb att;
          rest ← recordBatch symbolByPair batch;
          ret (symb :: rest)
      end
  end.

Definition syncAssetPnl (symb : string) : K () :=
  tryCatch (
      result ← exec (SyncAssetPnl symb);
      if success result then addStat "syncPnlPushes" 1 else ret ())
    (fun _ => ret ()).

Definition syncMoved (fullSync : bool) (symb : string) : K () :=
  current ← gets (fun b => default 0 (priceScaled <$> currentPrices (oracleS b) !! symb));
  last ← gets (fun b => lastSyncedPnlPrice (oracleS b) !! symb);
  let moved := match last with
    | None => true
    | Some last =>
        if last =? 0 then true
        else PNL_SYNC_MOVE_BPS
             <=? ((if last <? current then current - last else last - current) * 10000) ÷ last
    end in
  if negb fullSync && negb moved then ret ()
  else (_ ← syncAssetPnl symb; modify (setSynced symb current)).

Definition syncPushed (pushed : list string) : K () :=
  t ← now;
  lastFull ← gets (fun b => lastFullPnlSyncAt (oracleS b));
  let fullSync := FULL_PNL_SYNC_INTERVAL_MS <? t - lastFull in
  _ ← (if fullSync then t ← now; modify (setFullSync t) else ret ());
  forEach pushed (syncMoved fullSync).

(** Push one batch. Nothing after a successful push throws, so an exception
    leaves nothing pushed. *)
Definition publishBatch (symbolByPair : gmap string string) (batch : list Attestation)
  : K (list string) :=
  tryCatch (
      result ← exec (UpdateNoeracleBatch batch);
      if success result then
        pushed ← recordBatch symbolByPair batch;
        _ ← io (SaveState false) (fun _ => Ok ());
        _ ← addStat "oracleUpdates" 1;
        _ ← syncPushed pushed;
        ret pushed
      else ret [])
    (fun _ => ret []).

Definition symbolMap (eligible : list (string * Attestation)) : gmap string string :=
  foldl (fun m e => <[att_asset e.2 := e.1]> m) ∅ eligible.

Definition publishEligible (eligible : list (string * Attestation)) : K (list string) :=
  match eligible with
  | [] => ret []
  | _ => publishBatch (symbolMap eligible) (pickBatch eligible.*2)
  end.

Definition updateOraclePrices : K (list string) :=
  fetched ← tryCatch (l ← fetchNoeracleFresh; ret (Some l)) (fun _ => ret None);
  match fetched with
  | None | Some [] => _ ← addStat "errors" 1; ret []
  | Some attestations =>
      eligible ← collectEligible attestations (assets config) [];
      publishEligible eligible
  end.
End oracle.

(** ** Theorems *)

(** Since [base], the number read [a] was answered by something in [P]. *)
Definition answered {W : World} (base : list Action) (a : Action) (P : option number -> Prop)
    (h : list Action) : Prop :=
  exists l1 l2, h = base ++ l1 ++ a :: l2 /\ P (w_number (base ++ l1) a).

(** Since [base], a clock read satisfied [P]. *)
Definition clockRead {W : World} (base : list Action) (P : Z -> Prop) (h : list Action) : Prop :=
  exists l1 l2, h = base ++ l1 ++ Now :: l2 /\ P (w_now (base ++ l1)).

#[export] Instance answered_stable {W : World} base a P : Stable (answered base a P).
Proof.
  intros h n (l1 & l2 & -> & Hs). exists l1, (l2 ++ n). split; [|done]. by rewrite <- !app_assoc.
Qed.
#[export] Instance clockRead_stable {W : World} base P : Stable (clockRead base P).
Proof.
  intros h n (l1 & l2 & -> & Hs). exists l1, (l2 ++ n). split; [|done]. by rewrite <- !app_assoc.
Qed.

Lemma answered_now {W : World} base a (P : option number -> Prop) h :
  since base h -> P (w_number h a) -> answered base a P (h ++ [a]).
Proof. intros [n ->] HP. exists n, []. split; [by rewrite <- app_assoc | done]. Qed.

Lemma clockRead_now {W : World} base (P : Z -> Prop) h :
  since base h -> P (w_now h) -> clockRead base P (h ++ [Now]).
Proof. intros [n ->] HP. exists n, []. split; [by rewrite <- app_assoc | done]. Qed.

Section oracle_facts.
Context {W : World} (config : Config).

(** What the four defenses establish about a price, given the prices pushed
    before and the answers since [base]. *)
Definition withinJump (prices : gmap string PriceData) (base : list Action) (a : AssetConfig)
    (att : Attestation) (h : list Action) : Prop :=
  match prices !! symbol a with
  | None => True
  | Some last =>
      (ltN (numberOfZ 0) (price last) && ltN (maxMovePct a) (pctOff (price_human att) (price last)))
        = false
      \/ clockRead base (fun t => jumpBoundWindowMs config < t - priceAt last) h
  end.

Definition agreesWith (tolerance : number) (att : Attestation) (source : option number) : Prop :=
  match source with
  | Some x => ltN tolerance (pctOff (price_human att) x) = false
  | None => True
  end.

Definition defended (prices : gmap string PriceData) (base : list Action) (a : AssetConfig)
    (att : Attestation) (h : list Action) : Prop :=
  minScaled a <= att_price att <= maxScaled a
  /\ withinJump prices base a att h
  /\ answered base (GetReferencePrice (symbol a))
       (agreesWith (referenceDivergencePct config) att) h
  /\ answered base (GetStorkPrice (symbol a))
       (agreesWith (storkMaxDivergencePct config) att) h.

#[export] Instance defended_stable prices base a att : Stable (defended prices base a att).
Proof.
  intros h n (Hb & Hj & Hr & Hs). split; [done|]. split; [|split; by apply stable].
  unfold withinJump in *. destruct (prices !! symbol a); [|done].
  destruct Hj as [Hj|Hj]; [by left | right; by apply stable].
Qed.

Lemma jumpAllowed_true a att b h b' n base :
  since base h -> jumpAllowed config a (price_human att) b h = (Ok true, b', n) ->
  withinJump (currentPrices (oracleS b)) base a att (h ++ n) /\ since base (h ++ n).
Proof.
  intros Hh Hrun. split; [|by apply stable]. unfold withinJump, jumpAllowed in *.
  apply run_bind_Ok in Hrun as (last & b1 & n1 & n2 & [= <- <- <-] & Hk & ->).
  destruct (currentPrices (oracleS b) !! symbol a) as [last|]; [|done].
  destruct (ltN (numberOfZ 0) (price last) && _) eqn:Hjump; [|by left].
  right. apply run_bind_Ok in Hk as (t & b2 & n3 & n4 & [= <- <- <-] & [= Hle _ <-] & ->).
  simpl. apply clockRead_now; [by rewrite app_nil_r in *|].
  apply negb_true_iff, Z.leb_gt in Hle. rewrite app_nil_r in Hle. lia.
Qed.

Lemma passes_defended a att b h b' n base :
  List.find (fun x => String.eqb (symbol x) (symbol a)) (assets config) = Some a ->
  since base h -> passesPublishDefenses config (symbol a) att b h = (Ok true, b', n) ->
  defended (currentPrices (oracleS b)) base a att (h ++ n).
Proof.
  intros Hf Hh Hrun. unfold passesPublishDefenses in Hrun. rewrite Hf in Hrun.
  assert (forall level title b1 h1 b2 n1, refuse level title b1 h1 = (Ok true, b2, n1) -> False)
    as Hrefuse by done.
  destruct ((att_price att <? minScaled a) || (maxScaled a <? att_price att)) eqn:Hband;
    [by apply Hrefuse in Hrun|].
  apply orb_false_iff in Hband as [Hmin%Z.ltb_ge Hmax%Z.ltb_ge].
  apply run_bind_Ok in Hrun as (ok & b1 & n1 & n2 & Hj & Hrun & ->).
  destruct ok; simpl in Hrun; [|by apply Hrefuse in Hrun].
  apply jumpAllowed_true with (base := base) in Hj as [Hj Hs1]; [|done].
  apply run_bind_Ok in Hrun as (r & b2 & n3 & n4 & [= <- <- <-] & Hrun & ->).
  destruct (match w_number _ _ with Some r => _ | None => _ end) eqn:Hr;
    [by apply Hrefuse in Hrun|].
  apply run_bind_Ok in Hrun as (s & b3 & n5 & n6 & [= <- <- <-] & Hrun & ->).
  destruct (match w_number ((h ++ n1) ++ _) _ with Some r => _ | None => _ end) eqn:Hst;
    [by apply Hrefuse in Hrun|].
  injection Hrun as <- <-. rewrite app_nil_r. split; [lia|].
  rewrite app_assoc. split.
  { unfold withinJump in *. destruct (currentPrices _ !! _); [|done].
    destruct Hj; [by left | right; by apply stable]. }
  change [GetReferencePrice (symbol a); GetStorkPrice (symbol a)]
    with ([GetReferencePrice (symbol a)] ++ [GetStorkPrice (symbol a)]).
  rewrite app_assoc. split.
  - apply stable, answered_now; [done|]. unfold agreesWith. by destruct (w_number _ _).
  - apply answered_now; [by apply stable|]. unfold agreesWith. revert Hst.
    by destruct (w_number ((h ++ n1) ++ [GetReferencePrice (symbol a)]) (GetStorkPrice (symbol a))).
Qed.

(** *** The collected prices *)

Lemma passes_keeps a att : Keeps oracleS (passesPublishDefenses config a att).
Proof. unfold passesPublishDefenses, refuse, jumpAllowed, now, addStat, alert, readNumber. keeps_auto. Qed.

Lemma eligibleOne_keeps l a : Keeps oracleS (eligibleOne config l a).
Proof.
  unfold eligibleOne, now. destruct (List.find _ _); [|apply keeps_ret].
  destruct (_ || _); [apply keeps_ret|].
  apply keeps_bind; [apply passes_keeps | intros ok; keeps_auto].
Qed.

(** An attestation of the round fetched for a configured asset, that passed. *)
Definition publishable (prices : gmap string PriceData) (base : list Action)
    (attestations : list Attestation) (symb : string) (att : Attestation) (h : list Action) : Prop :=
  att ∈ attestations /\ att_asset att = pairOf symb
  /\ isFinite (price_human att) = true /\ leN (price_human att) (numberOfZ 0) = false
  /\ exists a, a ∈ assets config /\ symbol a = symb /\ defended prices base a att h.

#[export] Instance publishable_stable prices base l symb att :
  Stable (publishable prices base l symb att).
Proof.
  intros h n (H1 & H2 & H3 & H4 & a & H5 & H6 & H7). do 4 (split; [done|]).
  exists a. do 2 (split; [done|]). by apply stable.
Qed.

Lemma find_Some_In {A} (f : A -> bool) l x : List.find f l = Some x -> x ∈ l /\ f x = true.
Proof. intros [H1 H2]%find_some. by rewrite list_elem_of_In. Qed.

(** Finding the configuration of an asset again by its symbol. *)
Lemma find_symbol a : a ∈ assets config ->
  exists a', List.find (fun x => String.eqb (symbol x) (symbol a)) (assets config) = Some a'
             /\ a' ∈ assets config /\ symbol a' = symbol a.
Proof.
  intros Hin. destruct (List.find _ _) as [a'|] eqn:Hf.
  - destruct (find_Some_In _ _ _ Hf) as [H1 H2%String.eqb_eq]. by exists a'.
  - apply list_elem_of_In in Hin. by pose proof (find_none _ _ Hf _ Hin) as H%String.eqb_neq.
Qed.

Lemma eligibleOne_publishable l a att b h b' n base :
  a ∈ assets config -> since base h -> eligibleOne config l a b h = (Ok (Some att), b', n) ->
  publishable (currentPrices (oracleS b)) base l (symbol a) att (h ++ n).
Proof.
  intros Ha Hh Hrun. unfold eligibleOne in Hrun.
  destruct (List.find _ l) as [x|] eqn:Hf; [|done].
  destruct (find_Some_In _ _ _ Hf) as [Hin Hpair%String.eqb_eq].
  destruct (negb _ || _) eqn:Hv; [done|].
  apply orb_false_iff in Hv as [Hfin%negb_false_iff Hpos].
  apply run_bind_Ok in Hrun as (ok & b1 & n1 & n2 & Hpass & Hrun & ->).
  destruct ok; [|done].
  assert (x = att) as -> by (apply run_bind_Ok in Hrun as (? & ? & ? & ? & [= <- <- <-] & Hrun & _);
    apply run_bind_Ok in Hrun as (? & ? & ? & ? & [= <- <- <-] & [= -> _ _] & _); done).
  destruct (find_symbol a Ha) as (a' & Hf' & Ha' & Hsym).
  rewrite <- Hsym in Hf', Hpass.
  pose proof (passes_defended a' att b h b1 n1 base Hf' Hh Hpass) as Hd.
  do 4 (split; [done|]). exists a'. do 2 (split; [done|]).
  rewrite app_assoc. by apply stable.
Qed.

Lemma collect_publishable l todo base prices : forall acc b h res b' n,
  todo ⊆ assets config -> since base h -> currentPrices (oracleS b) = prices ->
  Forall (fun e => publishable prices base l e.1 e.2 h) acc ->
  collectEligible config l todo acc b h = (Ok res, b', n) ->
  Forall (fun e => publishable prices base l e.1 e.2 (h ++ n)) res /\ oracleS b' = oracleS b.
Proof.
  induction todo as [|a todo IH]; intros acc b h res b' n Ht Hh Hp Hacc Hrun; simpl in Hrun.
  - injection Hrun as <- <- <-. by rewrite app_nil_r.
  - apply run_bind_Ok in Hrun as (found & b1 & n1 & n2 & Hone & Hrun & ->).
    pose proof (keeps_run _ _ _ _ _ _ _ (eligibleOne_keeps l a) Hone) as Hk.
    apply IH in Hrun.
    + rewrite app_assoc, <- Hk. exact Hrun.
    + intros x Hx. apply Ht. by right.
    + by apply stable.
    + by rewrite Hk.
    + assert (Forall (fun e => publishable prices base l e.1 e.2 (h ++ n1)) acc)
        by (eapply Forall_impl; [exact Hacc|]; intros e He; by apply publishable_stable).
      destruct found as [att|]; [|done]. apply Forall_app. split; [done|].
      apply Forall_singleton. simpl. rewrite <- Hp.
      eapply eligibleOne_publishable; [|done..]. apply Ht. by left.
Qed.

(** *** The batch *)

Lemma pickBatch_in groups : forall best,
  foldl (fun best g => if better g best then g else best) best groups = best
  \/ foldl (fun best g => if better g best then g else best) best groups ∈ groups.
Proof.
  induction groups as [|g gs IH]; intros best; simpl; [by left|].
  destruct (IH (if better g best then g else best)) as [->|Hin]; [|right; by right].
  destruct (better g best); [right; by left | by left].
Qed.

Lemma better_longer groups : forall best,
  (length best <= length (foldl (fun best g => if better g best then g else best) best groups))%nat
  /\ forall g, g ∈ groups ->
      (length g <= length (foldl (fun best g => if better g best then g else best) best groups))%nat.
Proof.
  induction groups as [|g gs IH]; intros best; simpl; [split; [done|]; by intros g ?%elem_of_nil|].
  destruct (IH (if better g best then g else best)) as [H1 H2]. unfold better in *.
  destruct (Nat.ltb_spec (length best) (length g)); simpl in *.
  - split; [lia|]. intros g' [->|Hg]%elem_of_cons; [lia | by apply H2].
  - destruct (Nat.eqb_spec (length best) (length g)) as [He|He]; simpl in *.
    + destruct (_ <? _); (split; [lia|]); intros g' [->|Hg]%elem_of_cons; (lia || by apply H2).
    + split; [lia|]. intros g' [->|Hg]%elem_of_cons; (lia || by apply H2).
Qed.

(** The batch is the members of one round, and no round has more. *)
Lemma pickBatch_one_round eligible :
  eligible <> [] ->
  pickBatch eligible <> []
  /\ (exists k, forall att, att ∈ pickBatch eligible -> att ∈ eligible /\ roundKey att = k)
  /\ forall k g, (k, g) ∈ groupBy roundKey eligible -> (length g <= length (pickBatch eligible))%nat.
Proof.
  intros Hne. unfold pickBatch.
  set (groups := groupBy roundKey eligible).
  destruct (better_longer groups.*2 []) as [_ Hmax].
  assert (exists k g, (k, g) ∈ groups) as (k0 & g0 & Hg0).
  { destruct eligible as [|x l]; [done|]. subst groups.
    assert (forall gs l, (exists k g, (k, g) ∈ gs /\ x ∈ g) ->
      exists k g, (k, g) ∈ foldl (fun gs y => addToGroup (roundKey y) y gs) gs l /\ x ∈ g) as Hgen.
    { intros gs l'. revert gs. induction l' as [|y l' IH]; intros gs Hgs; simpl; [done|].
      apply IH. apply addToGroup_covers. by right. }
    destruct (Hgen [(roundKey x, [x])] l) as (k & g & Hin & _);
      [exists (roundKey x), [x]; split; by left|]. by exists k, g. }
  assert (g0 ∈ groups.*2) as Hg0' by (apply list_elem_of_fmap; by exists (k0, g0)).
  destruct (pickBatch_in groups.*2 []) as [He|Hin].
  - specialize (Hmax g0 Hg0'). rewrite He in Hmax. pose proof (groupBy_nonempty _ _ _ _ Hg0).
    destruct g0; simpl in Hmax; [done|lia].
  - apply list_elem_of_fmap in Hin as ([k g] & He & Hin). simpl in He. rewrite He. split; [|split].
    + by eapply groupBy_nonempty.
    + exists k. intros att Hatt. by eapply elem_of_groupBy.
    + intros k' g' Hg'. rewrite <- He. apply Hmax, list_elem_of_fmap. by exists (k', g').
Qed.

(** *** Publishing *)

(** Every batch submitted satisfies [Q], given the history. *)
Definition batchGuard (Q : list Attestation -> list Action -> Prop) (a : Action)
  : option (list Action -> Prop) :=
  match a with UpdateNoeracleBatch batch => Some (Q batch) | _ => None end.

Ltac free := always_auto ltac:(apply guarded_free; reflexivity).

Lemma recordBatch_free Q Pre `{!Stable Pre} m batch :
  Always Pre (Guarded (batchGuard Q)) (recordBatch config m batch).
Proof.
  induction batch as [|att batch IH]; simpl; [free|]. destruct (m !! att_asset att); [|done].
  abind; [unfold recordPush, checkSpike, alertSpike, now, alert; free|]. abind; [done|free].
Qed.

Lemma publishBatch_guarded Q Pre `{!Stable Pre} m batch :
  (forall h, Pre h -> Q batch h) ->
  Always Pre (Guarded (batchGuard Q)) (publishBatch config m batch).
Proof.
  intros HQ. unfold publishBatch. apply always_try; [apply _ | apply _ | | intros e; free].
  abind.
  - apply always_io. intros h Hh. apply guarded_one. intros c [= <-]. auto.
  - destruct (success a); [|free]. abind; [apply recordBatch_free; apply _|].
    unfold addStat. abind; [free|]. abind; [free|].
    unfold syncPushed, syncMoved, syncAssetPnl, exec, addStat, now. free.
Qed.

Lemma collect_free Q Pre `{!Stable Pre} l todo : forall acc,
  Always Pre (Guarded (batchGuard Q)) (collectEligible config l todo acc).
Proof.
  induction todo as [|a todo IH]; intros acc; simpl; [free|]. abind; [|apply IH].
  unfold eligibleOne, passesPublishDefenses, jumpAllowed, refuse, readNumber, now, addStat, alert.
  free.
Qed.

(** What is said of a batch published by an update that began with the
    prices [prices] after the history [h]. *)
Definition goodBatch (prices : gmap string PriceData) (h : list Action) (batch : list Attestation) (h' : list Action) : Prop :=
  exists attestations, w_rounds h = Ok attestations /\ batch <> []
    /\ (exists k, forall att, att ∈ batch -> roundKey att = k)
    /\ forall att, att ∈ batch -> exists symb, publishable prices h attestations symb att h'.

Lemma update_guarded b h :
  Guarded (batchGuard (goodBatch (currentPrices (oracleS b)) h)) h (updateOraclePrices config b h).2.
Proof.
  set (prices := currentPrices (oracleS b)). set (Q := goodBatch prices h).
  unfold updateOraclePrices, fetchNoeracleFresh, addStat.
  unfold mbind at 1, K_bind at 1, tryCatch, mbind at 1, K_bind at 1, io at 1, ret at 1.
  destruct (w_rounds h) as [e|[|x l]] eqn:Hr; simpl; [by apply guarded_free.. |].
  assert (since h (h ++ [FetchNoeracle])) as Hsince by by eexists.
  pose proof (collect_free Q (since h) (x :: l) (assets config) [] _ Hsince b) as Hfree.
  pose proof (fun res b' n => collect_publishable (x :: l) (assets config) h prices [] b
    (h ++ [FetchNoeracle]) res b' n ltac:(done) Hsince eq_refl (Forall_nil_2 _)) as Hgood.
  unfold mbind, K_bind.
  destruct (collectEligible _ _ _ _ _ _) as [[[e|eligible] b1] n1]; simpl.
  { change (FetchNoeracle :: n1) with ([FetchNoeracle] ++ n1).
    apply composes_app; [by apply guarded_free|done]. }
  destruct (Hgood eligible b1 n1 eq_refl) as [Hall _]. clear Hgood.
  assert (Always (fun h' => Forall (fun e => publishable prices h (x :: l) e.1 e.2 h') eligible)
    (Guarded (batchGuard Q)) (publishEligible config eligible)) as Hrest.
  { assert (Stable (fun h' => Forall (fun e => publishable prices h (x :: l) e.1 e.2 h') eligible)).
    { intros h' n H'. eapply Forall_impl; [exact H'|]. intros e He. by apply publishable_stable. }
    unfold publishEligible. destruct eligible as [|e eligible]; [free|].
    apply publishBatch_guarded; [apply _|]. intros h' Hh'. exists (x :: l). split; [done|].
    destruct (pickBatch_one_round (e :: eligible).*2) as (H1 & (k & H2) & _); [done|].
    split; [done|]. split; [exists k; intros att Hatt; by apply H2|].
    intros att Hatt. destruct (H2 att Hatt) as [Hin _].
    apply list_elem_of_fmap in Hin as (y & -> & Hy). exists y.1.
    by rewrite Forall_forall in Hh'; apply Hh'. }
  specialize (Hrest _ Hall b1).
  destruct (publishEligible _ _ _ _) as [[r b2] n2].
  change (FetchNoeracle :: n1 ++ n2) with ([FetchNoeracle] ++ n1 ++ n2).
  apply composes_app; [by apply guarded_free|]. by apply composes_app.
Qed.

(** C10. Only defended prices reach the chain, one round at a time. Every
    batch the keeper submits is non-empty, has one (round, timestamp,
    publisher), and consists of attestations of the round it just fetched,
    each for a configured asset, with a finite positive price, inside the
    asset's sanity band, within the jump bound of the last pushed price (or
    that push is older than the window), and not diverging from the
    reference ticker or from Stork, whenever these answered. *)
Theorem only_defended_prices_published b h pre batch post :
  (updateOraclePrices config b h).2 = pre ++ UpdateNoeracleBatch batch :: post ->
  exists attestations, w_rounds h = Ok attestations /\ batch <> []
    /\ (exists k, forall att, att ∈ batch -> roundKey att = k)
    /\ forall att, att ∈ batch -> exists symb,
         publishable (currentPrices (oracleS b)) h attestations symb att (h ++ pre).
Proof.
  intros Hn. pose proof (update_guarded b h) as Hg. rewrite Hn in Hg. exact (Hg pre _ post _ eq_refl eq_refl).
Qed.

(** *** The price memory *)

Lemma checkSpike_total symb att : Total (checkSpike config symb att).
Proof. unfold checkSpike, alertSpike, now, alert. total_auto. Qed.

Lemma checkSpike_keeps symb att : Keeps (fun b => currentPrices (oracleS b)) (checkSpike config symb att).
Proof. unfold checkSpike, alertSpike, now, alert. keeps_auto. Qed.

Definition pushedFrom (att : Attestation) (entry : option PriceData) : Prop :=
  exists t, entry = Some {| price := price_human att; priceScaled := att_price att; priceAt := t |}.

Lemma recordPush_run symb att b h :
  exists b' n, recordPush config symb att b h = (Ok (), b', n)
    /\ pushedFrom att (currentPrices (oracleS b') !! symb)
    /\ forall s, s <> symb -> currentPrices (oracleS b') !! s = currentPrices (oracleS b) !! s.
Proof.
  unfold recordPush.
  destruct (total_run _ b h (checkSpike_total symb att)) as ([] & b1 & n1 & Hrun).
  pose proof (keeps_run _ _ _ _ _ _ _ (checkSpike_keeps symb att) Hrun) as Hk. simpl in Hk.
  unfold mbind, K_bind. rewrite Hrun. eexists _, _. split; [reflexivity|]. simpl. split.
  - rewrite lookup_insert_eq. by eexists.
  - intros s Hs. by rewrite lookup_insert_ne, Hk by done.
Qed.

(** The symbols pushed have the batch's prices, the others their old ones. *)
Definition memoryFollows (batch : list Attestation) (pushed : list string)
    (before after : gmap string PriceData) : Prop :=
  forall s,
    (s ∈ pushed -> exists att, att ∈ batch /\ att_asset att = pairOf s /\ pushedFrom att (after !! s))
    /\ (s ∉ pushed -> after !! s = before !! s).

Lemma recordBatch_run m batch : forall b h,
  (forall att s, m !! att_asset att = Some s -> att_asset att = pairOf s) ->
  exists pushed b' n, recordBatch config m batch b h = (Ok pushed, b', n)
    /\ memoryFollows batch pushed (currentPrices (oracleS b)) (currentPrices (oracleS b'))
    /\ forall att s, att ∈ batch -> m !! att_asset att = Some s -> s ∈ pushed.
Proof.
  induction batch as [|att batch IH]; intros b h Hm; simpl.
  - exists [], b, []. split; [done|]. split; [|by intros ? ? ?%elem_of_nil].
    intros s. split; [by intros ?%elem_of_nil | done].
  - destruct (m !! att_asset att) as [symb|] eqn:Hs.
    + destruct (recordPush_run symb att b h) as (b1 & n1 & Hrun & Hnew & Hold).
      unfold mbind, K_bind. rewrite Hrun.
      destruct (IH b1 (h ++ n1) Hm) as (pushed & b2 & n2 & Hrun2 & Hf & Hin). rewrite Hrun2. simpl.
      eexists _, _, _. split; [reflexivity|]. split.
      * intros s. destruct (Hf s) as [H1 H2]. destruct (decide (s ∈ pushed)) as [Hd|Hd].
        -- split; [|set_solver]. intros _. destruct (H1 Hd) as (x & ? & ?). exists x. split; [by right|done].
        -- split.
           ++ intros [->|]%elem_of_cons; [|done]. exists att. split; [by left|].
              split; [by apply Hm|]. by rewrite H2.
           ++ intros Hn. rewrite H2 by done. apply Hold. set_solver.
      * intros x s [->|Hx]%elem_of_cons Hms; [rewrite Hs in Hms; injection Hms as ->; by left|].
        right. by eapply Hin.
    + destruct (IH b h Hm) as (pushed & b2 & n2 & Hrun2 & Hf & Hin). rewrite Hrun2.
      eexists _, _, _. split; [reflexivity|]. split.
      * intros s. destruct (Hf s) as [H1 H2]. split; [|done]. intros Hd.
        destruct (H1 Hd) as (x & ? & ?). exists x. split; [by right|done].
      * intros x s [->|Hx]%elem_of_cons Hms; [congruence|]. by eapply Hin.
Qed.

Lemma syncPushed_total pushed : Total (syncPushed pushed).
Proof. unfold syncPushed, syncMoved, syncAssetPnl, exec, addStat, now. total_auto. Qed.

Lemma syncPushed_keeps pushed : Keeps (fun b => currentPrices (oracleS b)) (syncPushed pushed).
Proof. unfold syncPushed, syncMoved, syncAssetPnl, exec, addStat, now. keeps_auto. Qed.

(** A push that landed, and what the memory became. *)
Definition pushLanded (h new : list Action) (pushed : list string)
    (before after : gmap string PriceData) : Prop :=
  exists l1 l2 batch result, new = l1 ++ UpdateNoeracleBatch batch :: l2
    /\ w_exec (h ++ l1) (UpdateNoeracleBatch batch) = Ok result /\ success result = true
    /\ memoryFollows batch pushed before after
    /\ forall att, att ∈ batch -> exists s, s ∈ pushed /\ att_asset att = pairOf s.

Lemma publishBatch_run m batch b h :
  (forall att s, m !! att_asset att = Some s -> att_asset att = pairOf s) ->
  (forall att, att ∈ batch -> is_Some (m !! att_asset att)) ->
  exists pushed b' n, publishBatch config m batch b h = (Ok pushed, b', n)
    /\ ((pushed = [] /\ currentPrices (oracleS b') = currentPrices (oracleS b))
        \/ pushLanded h n pushed (currentPrices (oracleS b)) (currentPrices (oracleS b'))).
Proof.
  intros Hm Hall. unfold publishBatch, tryCatch, exec, addStat.
  unfold mbind at 1, K_bind at 1, io at 1.
  destruct (w_exec h _) as [e|result] eqn:Hx; simpl.
  { eexists _, _, _. split; [reflexivity|]. by left. }
  destruct (success result) eqn:Hs; simpl; [|eexists _, _, _; split; [reflexivity|]; by left].
  destruct (recordBatch_run m batch b (h ++ [UpdateNoeracleBatch batch]) Hm)
    as (pushed & b1 & n1 & Hrun & Hf & Hin).
  unfold mbind, K_bind. rewrite Hrun. simpl.
  match goal with |- context [syncPushed pushed ?b ?h] =>
    destruct (total_run _ b h (syncPushed_total pushed)) as ([] & b2 & n2 & Hrun2) end.
  rewrite Hrun2. pose proof (keeps_run _ _ _ _ _ _ _ (syncPushed_keeps pushed) Hrun2) as Hk.
  simpl in Hk. eexists _, _, _. split; [reflexivity|]. right. rewrite Hk. simpl.
  eexists [], _, batch, result. split; [reflexivity|]. rewrite app_nil_r.
  do 2 (split; [done|]). split; [done|]. intros att Hatt. destruct (Hall att Hatt) as [s Hms].
  exists s. split; [by eapply Hin | by eapply Hm].
Qed.

Lemma symbolMap_facts eligible :
  (forall e, e ∈ eligible -> att_asset e.2 = pairOf e.1) ->
  (forall att s, symbolMap eligible !! att_asset att = Some s -> att_asset att = pairOf s)
  /\ forall e, e ∈ eligible -> is_Some (symbolMap eligible !! att_asset e.2).
Proof.
  unfold symbolMap. assert (forall m : gmap string string,
    (forall p s, m !! p = Some s -> p = pairOf s) -> forall l,
    (forall e, e ∈ l -> att_asset e.2 = pairOf e.1) ->
    let m' := foldl (fun m e => <[att_asset e.2 := e.1]> m) m l in
    (forall p s, m' !! p = Some s -> p = pairOf s)
    /\ (forall p, is_Some (m !! p) -> is_Some (m' !! p))
    /\ forall e : string * Attestation, e ∈ l -> is_Some (m' !! att_asset e.2)) as Hgen.
  { intros m Hm l. revert m Hm. induction l as [|e l IH]; intros m Hm Hl; simpl.
    - split; [done|]. split; [done|]. by intros ? ?%elem_of_nil.
    - destruct (IH (<[att_asset e.2 := e.1]> m)) as (H1 & H2 & H3).
      + intros p s Hp. destruct (decide (p = att_asset e.2)) as [->|Hne].
        * rewrite lookup_insert_eq in Hp. injection Hp as <-. apply Hl. by left.
        * rewrite lookup_insert_ne in Hp by done. by apply Hm.
      + intros e' He'. apply Hl. by right.
      + split; [done|]. split.
        * intros p Hp. apply H2. destruct (decide (p = att_asset e.2)) as [->|Hne].
          -- rewrite lookup_insert_eq. by eexists.
          -- by rewrite lookup_insert_ne by done.
        * intros e' [->|He']%elem_of_cons; [|by apply H3]. apply H2.
          rewrite lookup_insert_eq. by eexists. }
  intros Hl. destruct (Hgen ∅ ltac:(intros p s Hp; by rewrite lookup_empty in Hp) eligible Hl) as (H1 & _ & H3). split; [|done].
  intros att s. apply H1.
Qed.

Lemma pushLanded_after h n1 n2 pushed before after :
  pushLanded (h ++ n1) n2 pushed before after -> pushLanded h (n1 ++ n2) pushed before after.
Proof.
  intros (l1 & l2 & batch & result & -> & Hw & Hrest). exists (n1 ++ l1), l2, batch, result.
  split; [by rewrite <- app_assoc|]. split; [|done]. by rewrite app_assoc.
Qed.

Lemma eligibleOne_total l a : a ∈ assets config -> Total (eligibleOne config l a).
Proof.
  intros Ha. destruct (find_symbol a Ha) as (a' & Hf & _). unfold eligibleOne.
  destruct (List.find _ l); [|apply total_ret]. destruct (_ || _); [apply total_ret|].
  apply total_bind; [|unfold now; intros ok; total_auto].
  unfold passesPublishDefenses. rewrite Hf.
  unfold refuse, jumpAllowed, addStat, alert, now, readNumber. total_auto.
Qed.

Lemma collect_total l todo : forall acc,
  todo ⊆ assets config -> Total (collectEligible config l todo acc).
Proof.
  induction todo as [|a todo IH]; intros acc Ht; simpl; [apply total_ret|].
  apply total_bind; [apply eligibleOne_total, Ht; by left|]. intros found. apply IH. set_solver.
Qed.

(** The keeper's memory of prices mirrors what landed on chain. The
    oracle phase always completes; either it reports nothing pushed and the
    memory is untouched, or exactly the symbols it reports now hold the
    price of their attestation in a batch whose submission succeeded, every
    attestation of that batch being among them. *)
Theorem prices_follow_the_chain b h :
  exists pushed b' new, updateOraclePrices config b h = (Ok pushed, b', new)
    /\ ((pushed = [] /\ currentPrices (oracleS b') = currentPrices (oracleS b))
        \/ pushLanded h new pushed (currentPrices (oracleS b)) (currentPrices (oracleS b'))).
Proof.
  unfold updateOraclePrices, fetchNoeracleFresh, addStat.
  unfold mbind at 1, K_bind at 1, tryCatch, mbind at 1, K_bind at 1, io at 1, ret at 1.
  destruct (w_rounds h) as [e|[|x l]] eqn:Hr; simpl;
    [eexists _, _, _; (split; [reflexivity|]); by left.. |].
  destruct (total_run _ b (h ++ [FetchNoeracle])
    (collect_total (x :: l) (assets config) [] ltac:(done))) as (eligible & b1 & n1 & Hrun).
  assert (since h (h ++ [FetchNoeracle])) as Hsince by by eexists.
  destruct (collect_publishable (x :: l) (assets config) h (currentPrices (oracleS b)) [] b
    (h ++ [FetchNoeracle]) eligible b1 n1 ltac:(done) Hsince eq_refl (Forall_nil_2 _) Hrun)
    as [Hall Hk]. rewrite Forall_forall in Hall.
  unfold mbind at 1, K_bind at 1. rewrite Hrun, <- Hk. unfold publishEligible.
  destruct eligible as [|e eligible].
  { simpl. eexists _, _, _. split; [reflexivity|]. by left. }
  destruct (symbolMap_facts (e :: eligible)) as [H1 H2].
  { intros y Hy. by destruct (Hall y Hy) as (_ & Hp & _). }
  destruct (publishBatch_run (symbolMap (e :: eligible)) (pickBatch (e :: eligible).*2) b1
    ((h ++ [FetchNoeracle]) ++ n1) H1) as (pushed & b2 & n2 & Hrun2 & Hres).
  { intros att Hatt. destruct (pickBatch_one_round (e :: eligible).*2) as (_ & (k & Hin) & _); [done|].
    destruct (Hin att Hatt) as [(y & -> & Hy)%list_elem_of_fmap _]. by apply H2. }
  cbv beta iota delta [Ok]. rewrite Hrun2. eexists _, _, _. split; [reflexivity|].
  destruct Hres as [[-> Hsame]|Hland]; [by left|]. right.
  apply (pushLanded_after h [FetchNoeracle]), (pushLanded_after _ n1). exact Hland.
Qed.
End oracle_facts.

(** ** Witness *)

(** A round with one price of 500 for an asset last pushed at 490. *)
Definition sampleAttestation : Attestation := {|
  att_asset := "BTC/USD"; att_price := 500; round_id := 9; timestamp := 1; publisher := "P";
  price_human := numberOfZ 500 |}.
Definition oracleWorld : World := {|
  w_now := fun h => Z.of_nat (length h); w_sim := @w_sim sampleWorld;
  w_exec := @w_exec sampleWorld; w_int := @w_int sampleWorld; w_optInt := @w_optInt sampleWorld;
  w_bool := @w_bool sampleWorld; w_number := fun _ _ => Some (numberOfZ 505);
  w_position := @w_position sampleWorld; w_order := @w_order sampleWorld;
  w_idList := @w_idList sampleWorld; w_ids := @w_ids sampleWorld;
  w_rounds := fun _ => Ok [sampleAttestation] |}.

Definition collectedActions : list Action :=
  [FetchNoeracle; GetReferencePrice "BTC"; GetStorkPrice "BTC"; Now].

Theorem only_defended_prices_published_witness :
  exists attestations, w_rounds (World := oracleWorld) [] = Ok attestations
    /\ [sampleAttestation] <> []
    /\ (exists k, forall att, att ∈ [sampleAttestation] -> roundKey att = k)
    /\ forall att, att ∈ [sampleAttestation] -> exists symb,
         publishable (W := oracleWorld) sampleConfig ∅ [] attestations symb att ([] ++ collectedActions).
Proof.
  eapply (only_defended_prices_published (W := oracleWorld) sampleConfig emptyBot []
            collectedActions [sampleAttestation]).
  vm_compute. reflexivity.
Defined.
