(* ===== verification/KeeperCycle.v ===== *)
(** * The keeper cycle

    Models runKeeperCycle of scripts/keeper/src/index.ts with the duties
    around the scans: id discovery per mode, the market snapshot, the custody
    invariant, the funding schedule and the TTL bumps. *)

From S2P Require Import Prelude JsText Health Discovery KeeperEffects KeeperLiquidations KeeperOrders KeeperAdl KeeperOracle.
Open Scope Z_scope.
Open Scope js_scope.

Definition READ_FAILURE_ALERT_THRESHOLD : Z := 3.
Definition FULL_SWEEP_INTERVAL_MS : Z := 600000.
Definition FUNDING_INTERVAL_MS : Z := 3630000.
Definition FUNDING_NOT_DUE_RETRY_MS : Z := 300000.
Definition FUNDING_FAILED_RETRY_MS : Z := 60000.
Definition FUNDING_FAILURE_ALERT_THRESHOLD : Z := 3.
Definition CUSTODY_CHECK_INTERVAL_MS : Z := 60000.
Definition CUSTODY_ALERT_STREAK : Z := 2.

(** ** Memory updates *)

Definition setOracleSlot (t : Z) (busy : bool) : Bot -> Bot := onCycle (fun c => {|
  lastOracleUpdate := t; oracleUpdateInProgress := busy; lastFullSweepAt := lastFullSweepAt c;
  consecutiveReadFailures := consecutiveReadFailures c; fundingFailureStreak := fundingFailureStreak c;
  nextFundingAttemptAt := nextFundingAttemptAt c; lastFundingSubmitTime := lastFundingSubmitTime c;
  nextTtlBumpAt := nextTtlBumpAt c; lastCustodyCheckAt := lastCustodyCheckAt c;
  custodyDeficitStreak := custodyDeficitStreak c; lastCustody := lastCustody c |}).
Definition setSweep (t : Z) : Bot -> Bot := onCycle (fun c => {|
  lastOracleUpdate := lastOracleUpdate c; oracleUpdateInProgress := oracleUpdateInProgress c;
  lastFullSweepAt := t;
  consecutiveReadFailures := consecutiveReadFailures c; fundingFailureStreak := fundingFailureStreak c;
  nextFundingAttemptAt := nextFundingAttemptAt c; lastFundingSubmitTime := lastFundingSubmitTime c;
  nextTtlBumpAt := nextTtlBumpAt c; lastCustodyCheckAt := lastCustodyCheckAt c;
  custodyDeficitStreak := custodyDeficitStreak c; lastCustody := lastCustody c |}).
Definition setReadFailures (n : Z) : Bot -> Bot := onCycle (fun c => {|
  lastOracleUpdate := lastOracleUpdate c; oracleUpdateInProgress := oracleUpdateInProgress c;
  lastFullSweepAt := lastFullSweepAt c;
  consecutiveReadFailures := n; fundingFailureStreak := fundingFailureStreak c;
  nextFundingAttemptAt := nextFundingAttemptAt c; lastFundingSubmitTime := lastFundingSubmitTime c;
  nextTtlBumpAt := nextTtlBumpAt c; lastCustodyCheckAt := lastCustodyCheckAt c;
  custodyDeficitStreak := custodyDeficitStreak c; lastCustody := lastCustody c |}).
Definition setFunding (streak next submitted : Z) : Bot -> Bot := onCycle (fun c => {|
  lastOracleUpdate := lastOracleUpdate c; oracleUpdateInProgress := oracleUpdateInProgress c;
  lastFullSweepAt := lastFullSweepAt c;
  consecutiveReadFailures := consecutiveReadFailures c; fundingFailureStreak := streak;
  nextFundingAttemptAt := next; lastFundingSubmitTime := submitted;
  nextTtlBumpAt := nextTtlBumpAt c; lastCustodyCheckAt := lastCustodyCheckAt c;
  custodyDeficitStreak := custodyDeficitStreak c; lastCustody := lastCustody c |}).
Definition setNextTtl (t : Z) : Bot -> Bot := onCycle (fun c => {|
  lastOracleUpdate := lastOracleUpdate c; oracleUpdateInProgress := oracleUpdateInProgress c;
  lastFullSweepAt := lastFullSweepAt c;
  consecutiveReadFailures := consecutiveReadFailures c; fundingFailureStreak := fundingFailureStreak c;
  nextFundingAttemptAt := nextFundingAttemptAt c; lastFundingSubmitTime := lastFundingSubmitTime c;
  nextTtlBumpAt := t; lastCustodyCheckAt := lastCustodyCheckAt c;
  custodyDeficitStreak := custodyDeficitStreak c; lastCustody := lastCustody c |}).
Definition setCustody (checkedAt streak : Z) (report : option CustodyReport) : Bot -> Bot :=
  onCycle (fun c => {|
  lastOracleUpdate := lastOracleUpdate c; oracleUpdateInProgress := oracleUpdateInProgress c;
  lastFullSweepAt := lastFullSweepAt c;
  consecutiveReadFailures := consecutiveReadFailures c; fundingFailureStreak := fundingFailureStreak c;
  nextFundingAttemptAt := nextFundingAttemptAt c; lastFundingSubmitTime := lastFundingSubmitTime c;
  nextTtlBumpAt := nextTtlBumpAt c; lastCustodyCheckAt := checkedAt;
  custodyDeficitStreak := streak; lastCustody := report |}).

(** ** Custody figures *)

Definition isolatedCollateralOf (ps : list Position) : Z :=
  foldl (fun sum p => if margin_mode p =? 1 then sum else sum + collateral p) 0 ps.
Definition crossTraders (ps : list Position) : list string :=
  distinct [] (map trader (bfilter (fun p => margin_mode p =? 1) ps)).
Definition isEscrowed (o : Order) : bool :=
  bool_decide (status o = Pending)
  && (bool_decide (order_type o = LimitEntry) || bool_decide (order_type o = StopLimit)).
Definition orderEscrowOf (os : list Order) : Z :=
  foldl (fun sum o => if isEscrowed o then sum + o_collateral o else sum) 0 os.

Definition CUSTODY_BELOW : string := "Market custody below tracked collateral".
Definition CUSTODY_RESTORED : string := "Market custody restored".
Definition BLIND : string := "Keeper is BLIND - it cannot read the market".

Inductive FundingOutcome := applied | not_due | failed.

(** The tri-state of an apply_funding submission. *)
Definition fundingOutcome (result : ExecutionResult) : FundingOutcome :=
  if success result then applied
  else if codeIs (errorText result) [55; 90]
          || includes (errorText result) "FundingIntervalNotElapsed"
       then not_due else failed.

Section cycle.
Context {W : World} (config : Config).

(** ** Discovery *)

Definition save (force : bool) : K () := io (SaveState force) (fun _ => Ok ()).

Definition walkChain (checksum : option (list Z * list Z)) : K (list Z * list Z) :=
  ids ← io (DiscoverChain checksum) (fun h => w_ids h (DiscoverChain checksum));
  _ ← save false;
  ret ids.

Definition shadowCheck (positionIds orderIds : list Z) : K () :=
  tryCatch (
      walked ← walkChain (Some (positionIds, orderIds));
      if bool_decide (setDiff positionIds walked.1 = ([], []))
         && bool_decide (setDiff orderIds walked.2 = ([], []))
      then ret () else alert warn "Position scanners disagree (debug check)")
    (fun _ => alert warn "Backup position scanner test failed (debug check)").

Definition discoverIds : K (list Z * list Z) :=
  if bool_decide (discoveryMode config = chain) then walkChain None
  else
    listed ← tryCatch (
        positionIds ← io GetAllPositionIds (fun h => w_idList h GetAllPositionIds);
        orderIds ← io GetAllOrderIds (fun h => w_idList h GetAllOrderIds);
        ret (Some (positionIds, orderIds)))
      (fun _ =>
        _ ← alert critical "Keeper switched to its backup position scanner";
        ret None);
    match listed with
    | None => walkChain None
    | Some (positionIds, orderIds) =>
        _ ← (if bool_decide (discoveryMode config = shadow)
             then shadowCheck positionIds orderIds else ret ());
        ret (positionIds, orderIds)
    end.

(** ** The snapshot *)

(** Read the entities, counting the reads that threw. *)
Fixpoint readEntities {A} (get : Z -> K (option A)) (ids : list Z) : K (list A * Z) :=
  match ids with
  | [] => ret ([], 0)
  | i :: ids =>
      r ← tryCatch (e ← get i; ret (Some e)) (fun _ => ret None);
      rest ← readEntities get ids;
      let (es, errors) := (rest : list A * Z) in
      ret match r with
          | Some (Some e) => (e :: es, errors)
          | Some None => (es, errors)
          | None => (es, errors + 1)
          end
  end.

Definition getPosition (i : Z) : K (option Position) := io (GetPosition i) (fun h => w_position h i).
Definition getOrder (i : Z) : K (option Order) := io (GetOrder i) (fun h => w_order h i).

Definition pruneEntityCaches (orders : list Order) : K () :=
  modify (setOrphaned (filter (fun key => key ∈ map orderKey orders))).

Definition buildSnapshot : K (option CycleSnapshot) :=
  tryCatch (
      ids ← discoverIds;
      let (positionIds, orderIds) := (ids : list Z * list Z) in
      ps ← readEntities getPosition positionIds;
      os ← readEntities getOrder orderIds;
      let attempted := Z.of_nat (length positionIds) + Z.of_nat (length orderIds) in
      if (0 <? attempted) && (attempted <=? ps.2 + os.2) then throw "all entity reads failed"
      else
        _ ← modify (setReadFailures 0);
        _ ← pruneEntityCaches os.1;
        ret (Some {| s_positions := ps.1; s_orders := os.1 |}))
    (fun _ =>
      failures ← gets (fun b => consecutiveReadFailures (cycleS b) + 1);
      _ ← modify (setReadFailures failures);
      _ ← addStat "readFailures" 1;
      _ ← (if failures =? READ_FAILURE_ALERT_THRESHOLD then alert critical BLIND else ret ());
      ret None).

(** ** Custody *)

Fixpoint sumCross (traders : list string) (total : Z) : K Z :=
  match traders with
  | [] => ret total
  | t :: traders =>
      balance ← getCrossBalanceCached t;
      match balance with
      | None => throw "cross pool unreadable"
      | Some balance => sumCross traders (total + balance)
      end
  end.

Definition checkCustody (snapshot : CycleSnapshot) (now : Z) : K () :=
  if negb (hasUsdcToken config) then ret ()
  else
    c ← gets cycleS;
    if now - lastCustodyCheckAt c <? CUSTODY_CHECK_INTERVAL_MS then ret ()
    else
      _ ← modify (setCustody now (custodyDeficitStreak c) (lastCustody c));
      tryCatch (
          let isolated := isolatedCollateralOf (s_positions snapshot) in
          cross ← sumCross (crossTraders (s_positions snapshot)) 0;
          let escrow := orderEscrowOf (s_orders snapshot) in
          balance ← readInt GetUsdcBalance;
          let tracked := isolated + cross + escrow in
          let deficit := if balance <? tracked then tracked - balance else 0 in
          let report := {|
            marketUsdcBalance := balance; isolatedCollateral := isolated; crossBalances := cross;
            orderEscrow := escrow; trackedCustody := tracked; deficit := deficit;
            reportPositions := Z.of_nat (length (s_positions snapshot)); asOf := now |} in
          let streak := custodyDeficitStreak c in
          if 0 <? deficit then
            _ ← modify (setCustody now (streak + 1) (Some report));
            if CUSTODY_ALERT_STREAK <=? streak + 1 then alert critical CUSTODY_BELOW else ret ()
          else
            _ ← (if CUSTODY_ALERT_STREAK <=? streak then alert info CUSTODY_RESTORED else ret ());
            modify (setCustody now 0 (Some report)))
        (fun _ => ret ()).

(** ** Funding *)

Definition maybeApplyFunding (now : Z) : K () :=
  c ← gets cycleS;
  if now <? nextFundingAttemptAt c then ret ()
  else
    result ← tryCatch (exec ApplyFunding) (fun message =>
      ret {| success := false; indeterminate := false; reward := None; error := Some message |});
    match fundingOutcome result with
    | applied =>
        _ ← addStat "fundingApplications" 1;
        _ ← save true;
        modify (setFunding 0 (now + FUNDING_INTERVAL_MS) now)
    | not_due =>
        modify (setFunding 0 (now + FUNDING_NOT_DUE_RETRY_MS) (lastFundingSubmitTime c))
    | failed =>
        let streak := fundingFailureStreak c + 1 in
        _ ← modify (setFunding streak (now + FUNDING_FAILED_RETRY_MS) (lastFundingSubmitTime c));
        if FUNDING_FAILURE_ALERT_THRESHOLD <=? streak
        then alert warn "Hourly funding update keeps failing" else ret ()
    end.

(** ** TTL bumps *)

(** [bumpContractTtl] answers [false] instead of throwing. *)
Definition bumpContractTtl (contract : string) : K bool :=
  io (BumpContractTtl contract) (fun h =>
    Ok (match w_bool h (BumpContractTtl contract) with inr ok => ok | inl _ => false end)).

Fixpoint bumpEach (contracts : list (string * string)) : K (list string) :=
  match contracts with
  | [] => ret []
  | (name, contract) :: contracts =>
      if String.eqb contract "" then bumpEach contracts
      else
        ok ← bumpContractTtl contract;
        failed ← bumpEach contracts;
        ret (if (ok : bool) then failed else name :: failed)
  end.

Definition maybeBumpTtls (now : Z) : K () :=
  next ← gets (fun b => nextTtlBumpAt (cycleS b));
  if now <? next then ret ()
  else
    _ ← modify (setNextTtl (now + ttlBumpIntervalMs config));
    xlm ← readNumber GetXlmBalance;
    _ ← (if match xlm with Some x => ltN x (minKeeperXlm config) | None => false end
         then alert critical "Keeper wallet is almost out of gas" else ret ());
    failed ← bumpEach (ttlContractIds config);
    match failed with
    | [] => ret ()
    | _ => alert warn "Contract rent renewal partly failing"
    end.

(** ** The cycle *)

(** Step 1, with its heartbeat. *)
Definition oraclePhase (now : Z) : K (list string) :=
  c ← gets cycleS;
  if (oracleUpdateIntervalMs config <=? now - lastOracleUpdate c)
     && negb (oracleUpdateInProgress c)
  then
    _ ← modify (setOracleSlot now true);
    pushed ← tryCatch (updateOraclePrices config) (fun _ => _ ← addStat "errors" 1; ret []);
    _ ← modify (setOracleSlot now false);
    _ ← io (SendHeartbeat pushed) (fun _ => Ok ());
    ret pushed
  else ret [].

(** Steps 3 to 5.6, over one snapshot. *)
Definition scanPhases (snapshot : CycleSnapshot) (pushed : list string) (now : Z) : K () :=
  lastSweep ← gets (fun b => lastFullSweepAt (cycleS b));
  let fullSweep := FULL_SWEEP_INTERVAL_MS <=? now - lastSweep in
  _ ← (if fullSweep then modify (setSweep now) else ret ());
  _ ← checkLiquidations config snapshot fullSweep;
  _ ← checkCrossMarginLiquidations config snapshot fullSweep;
  _ ← (match pushed with [] => ret () | _ => updateTrailingStopPeaks snapshot end);
  _ ← checkOrders config snapshot;
  _ ← manageAdl config snapshot fullSweep;
  checkCustody snapshot now.

Definition runKeeperCycle : K () :=
  t ← now;
  pushed ← oraclePhase t;
  snapshot ← buildSnapshot;
  _ ← (match snapshot with Some s => scanPhases s pushed t | None => ret () end);
  t ← now;
  _ ← maybeApplyFunding t;
  t ← now;
  maybeBumpTtls t.
End cycle.

(** ** Theorems *)

(** *** Funding *)

Definition fundingDelay (o : FundingOutcome) : Z :=
  match o with
  | applied => FUNDING_INTERVAL_MS
  | not_due => FUNDING_NOT_DUE_RETRY_MS
  | failed => FUNDING_FAILED_RETRY_MS
  end.

Section funding_facts.
Context {W : World}.

Definition submitsFunding (new : list Action) : bool :=
  existsb (fun a => match a with ApplyFunding => true | _ => false end) new.

(** The outcome of a submission made after [h]. *)
Definition outcomeAt (h : list Action) : FundingOutcome :=
  fundingOutcome match w_exec h ApplyFunding with
  | inr result => result
  | inl e => {| success := false; indeterminate := false; reward := None; error := Some e |}
  end.

(** Runs of the funding duty with anything else in between that leaves the
    schedule alone, and the submissions they make. *)
Inductive FundingTrace : Bot -> list (Z * FundingOutcome) -> Prop :=
| funding_end b : FundingTrace b []
| funding_run t b h r b1 new b2 trace :
    maybeApplyFunding t b h = (r, b1, new) ->
    nextFundingAttemptAt (cycleS b2) = nextFundingAttemptAt (cycleS b1) ->
    FundingTrace b2 trace ->
    FundingTrace b (if submitsFunding new then (t, outcomeAt h) :: trace else trace).

Lemma maybeApplyFunding_next t b h r b1 new :
  maybeApplyFunding t b h = (r, b1, new) ->
  if submitsFunding new
  then nextFundingAttemptAt (cycleS b) <= t
       /\ nextFundingAttemptAt (cycleS b1) = t + fundingDelay (outcomeAt h)
  else nextFundingAttemptAt (cycleS b1) = nextFundingAttemptAt (cycleS b).
Proof.
  unfold maybeApplyFunding, save, addStat, alert, exec, tryCatch, outcomeAt.
  unfold mbind, K_bind, gets, io, ret, modify. simpl.
  destruct (Z.ltb_spec t (nextFundingAttemptAt (cycleS b))).
  { by intros [= <- <- <-]. }
  rewrite app_nil_r. destruct (w_exec h ApplyFunding) as [e|result]; simpl;
    destruct (fundingOutcome _); simpl; try destruct (_ <=? _); by intros [= <- <- <-].
Qed.

Lemma funding_trace_after b trace :
  FundingTrace b trace ->
  forall t o, (t, o) ∈ trace -> nextFundingAttemptAt (cycleS b) <= t.
Proof.
  induction 1 as [b|t b h r b1 new b2 trace Hrun Hb2 _ IH]; intros t' o' Hin;
    [by apply elem_of_nil in Hin|].
  apply maybeApplyFunding_next in Hrun. rewrite Hb2 in IH.
  destruct (submitsFunding _); [|rewrite <- Hrun; by eapply IH].
  destruct Hrun as [Hle Hnext]. apply elem_of_cons in Hin as [[= -> ->]|Hin]; [done|].
  apply IH in Hin. rewrite Hnext in Hin.
  assert (0 <= fundingDelay (outcomeAt h)) by (by destruct (outcomeAt h)). lia.
Qed.

(** Funding is never submitted early. However the duty's runs are
    interleaved with the rest, after a submission that applied the funding
    the next one comes at least an hour and thirty seconds later, after a
    not-due (or frozen) answer at least five minutes, and after a failure at
    least one minute. *)
Theorem funding_attempts_spaced b trace pre t o post t' o' :
  FundingTrace b trace -> trace = pre ++ (t, o) :: post -> (t', o') ∈ post ->
  t + fundingDelay o <= t'.
Proof.
  intros Ht. revert pre. induction Ht as [b|s b h r b1 new b2 trace Hrun Hb2 Ht IH]; intros pre He Hin.
  { by destruct pre. }
  apply maybeApplyFunding_next in Hrun. pose proof (funding_trace_after _ _ Ht) as Hafter.
  rewrite Hb2 in Hafter. destruct (submitsFunding _); [|by eapply IH].
  destruct Hrun as [_ Hnext]. destruct pre as [|x pre]; injection He.
  - intros -> <- <-. rewrite <- Hnext. by eapply Hafter.
  - intros He' _. by eapply IH.
Qed.
End funding_facts.

(** *** The snapshot *)

Section snapshot_facts.
Context {W : World} (config : Config).

(** Each id was read once in [new], after [h], with the answer listed. *)
Definition readsAs {A} (act : Z -> Action) (answer : list Action -> Z -> Result (option A))
    (h new : list Action) (ids : list Z) (answers : list (Result (option A))) : Prop :=
  Forall2 (fun i ans => exists l1 l2, new = l1 ++ act i :: l2 /\ answer (h ++ l1) i = ans) ids answers.

Definition entitiesOf {A} (answers : list (Result (option A))) : list A :=
  omap (fun a => match a with inr e => e | inl _ => None end) answers.
Definition allFailed {A} (answers : list (Result (option A))) : bool :=
  forallb (fun a => match a with inr _ => false | inl _ => true end) answers.
Definition errorsOf {A} (answers : list (Result (option A))) : Z :=
  foldr (fun a n => match a with inr _ => n | inl _ => n + 1 end) 0 answers.

Lemma readsAs_weaken {A} act (answer : list Action -> Z -> Result (option A)) h n1 n n2 ids answers :
  readsAs act answer (h ++ n1) n ids answers -> readsAs act answer h (n1 ++ n ++ n2) ids answers.
Proof.
  intros Hr. eapply Forall2_impl; [exact Hr|]. simpl. intros i a (l1 & l2 & -> & Hw).
  exists (n1 ++ l1), (l2 ++ n2). split; [by rewrite <- !app_assoc | by rewrite app_assoc].
Qed.

Lemma errorsOf_bound {A} (answers : list (Result (option A))) :
  0 <= errorsOf answers <= Z.of_nat (length answers)
  /\ (errorsOf answers = Z.of_nat (length answers) <-> allFailed answers = true).
Proof.
  induction answers as [|[e|x] l [IH1 IH2]]; simpl; [done|..]; (split; [lia|]).
  - rewrite <- IH2. lia.
  - split; [lia | done].
Qed.

Lemma readEntities_run {A} act (answer : list Action -> Z -> Result (option A)) ids : forall b h,
  exists answers new,
    readEntities (fun i => io (act i) (fun h => answer h i)) ids b h
      = (Ok (entitiesOf answers, errorsOf answers), b, new)
    /\ new = map act ids /\ readsAs act answer h new ids answers.
Proof.
  induction ids as [|i ids IH]; intros b h; simpl.
  { exists [], []. split; [done|]. split; [done | constructor]. }
  destruct (IH b (h ++ [act i])) as (answers & new & Hrun & -> & Hreads).
  exists (answer h i :: answers), (act i :: map act ids).
  unfold mbind, K_bind, tryCatch, io, ret. split.
  - destruct (answer h i) as [e|[x|]]; simpl; rewrite ?app_nil_r;
      unfold mbind, K_bind, tryCatch, io, ret in Hrun; rewrite Hrun; simpl; by rewrite app_nil_r.
  - split; [done|]. constructor.
    + exists [], (map act ids). by rewrite app_nil_r.
    + pose proof (readsAs_weaken act answer h [act i] _ [] ids answers Hreads) as Hw.
      by rewrite app_nil_r in Hw.
Qed.

Definition failures (b : Bot) : Z := consecutiveReadFailures (cycleS b).

(** What becomes of the entity reads of one snapshot. *)
Definition snapshotOf (pas : list (Result (option Position))) (oas : list (Result (option Order)))
  : option CycleSnapshot :=
  if (0 <? Z.of_nat (length pas) + Z.of_nat (length oas)) && allFailed pas && allFailed oas
  then None
  else Some {| s_positions := entitiesOf pas; s_orders := entitiesOf oas |}.

Lemma snapshotOf_errors (pas : list (Result (option Position))) (oas : list (Result (option Order))) :
  (0 <? Z.of_nat (length pas) + Z.of_nat (length oas))
    && (Z.of_nat (length pas) + Z.of_nat (length oas) <=? errorsOf pas + errorsOf oas)
  = (0 <? Z.of_nat (length pas) + Z.of_nat (length oas)) && allFailed pas && allFailed oas.
Proof.
  destruct (errorsOf_bound pas) as [H1 H2], (errorsOf_bound oas) as [H3 H4].
  rewrite <- andb_assoc. f_equal. destruct (allFailed pas) eqn:Hp, (allFailed oas) eqn:Ho; simpl.
  - apply Z.leb_le. destruct H2 as [_ H2], H4 as [_ H4]. rewrite H2, H4; done.
  - apply Z.leb_gt. assert (errorsOf oas <> Z.of_nat (length oas)) by (intros ?%H4; done). lia.
  - apply Z.leb_gt. assert (errorsOf pas <> Z.of_nat (length pas)) by (intros ?%H2; done). lia.
  - apply Z.leb_gt. assert (errorsOf oas <> Z.of_nat (length oas)) by (intros ?%H4; done). lia.
Qed.

Lemma discoverIds_keeps : Keeps cycleS (discoverIds config).
Proof. unfold discoverIds, walkChain, shadowCheck, save, alert. keeps_auto. Qed.

(** Giving up on a snapshot. *)
Lemma snapshot_failed (b : Bot) (h : list Action) :
  exists b' n,
    (n0 ← gets (fun b => consecutiveReadFailures (cycleS b) + 1);
     _ ← modify (setReadFailures n0);
     _ ← addStat "readFailures" 1;
     _ ← (if n0 =? READ_FAILURE_ALERT_THRESHOLD then alert critical BLIND else ret ());
     ret (@None CycleSnapshot)) b h = (Ok None, b', n)
    /\ failures b' = failures b + 1
    /\ (SendAlert critical BLIND ∈ n <-> failures b + 1 = READ_FAILURE_ALERT_THRESHOLD).
Proof.
  unfold mbind, K_bind, gets, modify, addStat, alert, ret, io, failures. simpl.
  destruct (Z.eqb_spec (consecutiveReadFailures (cycleS b) + 1) READ_FAILURE_ALERT_THRESHOLD) as [He|He];
    eexists _, _; (split; [reflexivity|]); (split; [reflexivity|]).
  - split; [done | by left].
  - split; [by intros ?%elem_of_nil | done].
Qed.

(** The keeper never takes a failed read for an empty market. When the
    ids cannot be discovered, or every entity read throws, there is no
    snapshot, the failure streak grows by one and the blind alert goes out
    exactly when it reaches three. Otherwise the snapshot has precisely the
    positions and orders that were read for the discovered ids, in order,
    and the streak is reset. *)
Theorem snapshot_is_what_was_read b h :
  match discoverIds config b h with
  | (inl _, _, n1) => exists b' n,
      buildSnapshot config b h = (Ok None, b', n1 ++ n)
      /\ failures b' = failures b + 1
      /\ (SendAlert critical BLIND ∈ n <-> failures b + 1 = READ_FAILURE_ALERT_THRESHOLD)
  | (inr (positionIds, orderIds), _, n1) => exists pas oas b' n,
      buildSnapshot config b h = (Ok (snapshotOf pas oas), b', n1 ++ n)
      /\ readsAs GetPosition w_position (h ++ n1) n positionIds pas
      /\ readsAs GetOrder w_order (h ++ n1) n orderIds oas
      /\ failures b' = match snapshotOf pas oas with Some _ => 0 | None => failures b + 1 end
      /\ (SendAlert critical BLIND ∈ n <->
            snapshotOf pas oas = None /\ failures b + 1 = READ_FAILURE_ALERT_THRESHOLD)
  end.
Proof.
  unfold buildSnapshot, tryCatch.
  destruct (discoverIds config b h) as [[[e|[pids oids]] b1] n1] eqn:Hd;
    pose proof (keeps_run _ _ _ _ _ _ _ discoverIds_keeps Hd) as Hk.
  - unfold mbind at 1, K_bind at 1. rewrite Hd.
    destruct (snapshot_failed b1 (h ++ n1)) as (b' & n & Hrun & Hf & Ha).
    rewrite Hrun. unfold failures in *. rewrite Hk in *. by exists b', n.
  - rewrite (bind_run _ _ _ _ _ _ _ Hd).
    destruct (readEntities_run GetPosition w_position pids b1 (h ++ n1)) as (pas & ? & Hp & -> & Hpas).
    destruct (readEntities_run GetOrder w_order oids b1 ((h ++ n1) ++ map GetPosition pids))
      as (oas & ? & Ho & -> & Hoas).
    rewrite (bind_run _ _ _ _ _ _ _ Hp), (bind_run _ _ _ _ _ _ _ Ho). simpl.
    assert (length pids = length pas) as -> by (by eapply Forall2_length).
    assert (length oids = length oas) as -> by (by eapply Forall2_length).
    rewrite snapshotOf_errors. unfold snapshotOf.
    assert (forall n : list Action,
      readsAs GetPosition w_position (h ++ n1) (map GetPosition pids ++ map GetOrder oids ++ n) pids pas
      /\ readsAs GetOrder w_order (h ++ n1) (map GetPosition pids ++ map GetOrder oids ++ n) oids oas)
      as Hreads.
    { intros n. split.
      - apply (readsAs_weaken GetPosition w_position (h ++ n1) [] _ (map GetOrder oids ++ n)).
        by rewrite app_nil_r.
      - by apply (readsAs_weaken GetOrder w_order (h ++ n1) (map GetPosition pids) _ n). }
    assert (forall l, SendAlert critical BLIND ∈ map GetPosition pids ++ map GetOrder oids ++ l
                      <-> SendAlert critical BLIND ∈ l) as Halert.
    { intros l. rewrite !elem_of_app, !list_elem_of_fmap. naive_solver. }
    destruct (_ && allFailed oas) eqn:Hfail.
    + cbv beta iota delta [throw]. rewrite app_nil_r.
      destruct (snapshot_failed b1 (h ++ n1 ++ map GetPosition pids ++ map GetOrder oids))
        as (b' & n & Hrun & Hf & Ha).
      rewrite Hrun. exists pas, oas, b', (map GetPosition pids ++ map GetOrder oids ++ n).
      rewrite Hfail. unfold failures in *. rewrite Hk in *.
      split; [by rewrite <- !app_assoc|]. destruct (Hreads n). rewrite Halert. naive_solver.
    + eexists pas, oas, _, (map GetPosition pids ++ map GetOrder oids ++ []).
      rewrite Hfail. split; [reflexivity|]. destruct (Hreads []). rewrite Halert. do 3 (split; [done|]).
      split; [by intros ?%elem_of_nil | by intros [? _]].
Qed.
End snapshot_facts.

(** *** Custody *)

Section custody_facts.
Context {W : World} (config : Config).

(** Reading the cross pools does nothing else. *)
Definition poolReads (_ new : list Action) : Prop :=
  forall a, a ∈ new -> a = Now \/ exists t, a = GetCrossMarginBalance t.

#[export] Instance poolReads_composes : Composes poolReads.
Proof.
  split; [by intros h a Ha%elem_of_nil|].
  intros h n1 n2 H1 H2 a [Ha|Ha]%elem_of_app; [by apply H1 | by apply H2].
Qed.

Lemma sumCross_reads traders : forall total,
  Always (fun _ => True) poolReads (sumCross traders total).
Proof.
  induction traders as [|t traders IH]; intros total; simpl; [apply always_ret; apply _|].
  abind.
  - unfold getCrossBalanceCached, now, readInt.
    always_auto ltac:(intros ? ->%list_elem_of_singleton; eauto).
  - destruct a; [apply IH | apply always_throw; apply _].
Qed.

Lemma sumCross_keeps traders : forall total, Keeps cycleS (sumCross traders total).
Proof.
  induction traders as [|t traders IH]; intros total; simpl; [apply keeps_ret|].
  apply keeps_bind; [unfold getCrossBalanceCached, now, readInt; keeps_auto|].
  intros [balance|]; [apply IH | apply keeps_throw].
Qed.

(** The check got as far as the market's balance. *)
Definition checked (h new : list Action) (balance : Z) : Prop :=
  exists l1 l2, new = l1 ++ GetUsdcBalance :: l2 /\ w_int (h ++ l1) GetUsdcBalance = Ok balance.

Definition reportExact (snapshot : CycleSnapshot) (balance : Z) (r : CustodyReport) : Prop :=
  marketUsdcBalance r = balance
  /\ isolatedCollateral r = isolatedCollateralOf (s_positions snapshot)
  /\ orderEscrow r = orderEscrowOf (s_orders snapshot)
  /\ trackedCustody r = isolatedCollateral r + crossBalances r + orderEscrow r
  /\ deficit r = Z.max 0 (trackedCustody r - marketUsdcBalance r).

Definition streakOf (b : Bot) : Z := custodyDeficitStreak (cycleS b).

Lemma pivot_unique {A} (x : A) (n1 l0 l1 l2 : list A) :
  x ∉ n1 -> (n1 ++ x :: l0) = (l1 ++ x :: l2) -> x ∉ l0 -> l1 = n1.
Proof.
  revert l1. induction n1 as [|y n1 IH]; intros l1 Hn He Hl0; destruct l1 as [|z l1]; simpl in *.
  - done.
  - injection He as -> ->. exfalso. apply Hl0. rewrite elem_of_app. right. by left.
  - injection He as -> _. exfalso. apply Hn. by left.
  - injection He as -> He. f_equal. apply IH; [|done..]. intros Hx. apply Hn. by right.
Qed.

Lemma pool_silent h new :
  poolReads h new -> (SendAlert critical CUSTODY_BELOW ∉ new) /\ (GetUsdcBalance ∉ new).
Proof. intros Hn. split; intros Hin; by destruct (Hn _ Hin) as [|[? ?]]. Qed.

Lemma unchecked h new balance : GetUsdcBalance ∉ new -> ~ checked h new balance.
Proof. intros Hn (l1 & l2 & -> & _). apply Hn. rewrite elem_of_app. right. by left. Qed.

(** A check that stops before its first read. *)
Lemma unchecked_nil h b b' :
  streakOf b' = streakOf b -> lastCustody (cycleS b') = lastCustody (cycleS b) ->
  (forall balance, ~ checked h [] balance) /\ streakOf b' = streakOf b
  /\ lastCustody (cycleS b') = lastCustody (cycleS b)
  /\ SendAlert critical CUSTODY_BELOW ∉ ([] : list Action).
Proof.
  intros Hs Hl. split; [intros balance; apply unchecked, not_elem_of_nil|].
  do 2 (split; [done|]). apply not_elem_of_nil.
Qed.

(** One check: either it completes with an exact report, or it changes
    neither report nor streak and says nothing. *)
Lemma checkCustody_run snapshot t b h :
  exists b' new, checkCustody config snapshot t b h = (Ok (), b', new)
    /\ ((exists balance r, checked h new balance /\ lastCustody (cycleS b') = Some r
           /\ reportExact snapshot balance r
           /\ streakOf b' = (if 0 <? deficit r then streakOf b + 1 else 0)
           /\ (SendAlert critical CUSTODY_BELOW ∈ new <-> 0 < deficit r /\ 1 <= streakOf b))
        \/ ((forall balance, ~ checked h new balance)
            /\ streakOf b' = streakOf b /\ lastCustody (cycleS b') = lastCustody (cycleS b)
            /\ SendAlert critical CUSTODY_BELOW ∉ new)).
Proof.
  unfold checkCustody. destruct (negb (hasUsdcToken config)).
  { eexists _, _. split; [reflexivity|]. right. by apply unchecked_nil. }
  rewrite (bind_run _ _ b h (cycleS b) b [] eq_refl), app_nil_r. cbv beta.
  destruct (_ <? CUSTODY_CHECK_INTERVAL_MS).
  { eexists _, _. split; [reflexivity|]. right. by apply unchecked_nil. }
  set (b0 := setCustody t (custodyDeficitStreak (cycleS b)) (lastCustody (cycleS b)) b).
  rewrite (bind_run (modify (setCustody t (custodyDeficitStreak (cycleS b)) (lastCustody (cycleS b))))
    _ b h () b0 [] eq_refl), app_nil_r.
  unfold tryCatch. unfold mbind at 1, K_bind at 1.
  pose proof (sumCross_reads (crossTraders (s_positions snapshot)) 0 h I b0) as Hreads.
  pose proof (sumCross_keeps (crossTraders (s_positions snapshot)) 0 b0 h) as Hkeep.
  destruct (sumCross _ _ b0 h) as [[[e|cross] b1] n1]; simpl in Hkeep;
    destruct (pool_silent _ _ Hreads) as [Hp1 Hp2].
  { simpl. eexists _, _. split; [reflexivity|]. rewrite app_nil_r. right.
    split; [intros balance; by apply unchecked|]. unfold streakOf. by rewrite Hkeep. }
  unfold mbind at 1, K_bind at 1, readInt, io at 1.
  destruct (w_int (h ++ n1) GetUsdcBalance) as [e|balance] eqn:Hw.
  { simpl. eexists _, _. split; [reflexivity|]. right. rewrite app_nil_r.
    split; [|unfold streakOf; rewrite Hkeep; do 2 (split; [done|])].
    - intros balance (l1 & l2 & He & Hc).
      apply pivot_unique in He as ->; [by rewrite Hw in Hc | done | apply not_elem_of_nil].
    - intros [|Hx%list_elem_of_singleton]%elem_of_app; done. }
  assert (forall l, checked h (n1 ++ GetUsdcBalance :: l) balance) as Hchecked
    by (intros l; by exists n1, l).
  set (tracked := _ + cross + _).
  set (d := if balance <? tracked then tracked - balance else 0).
  assert (d = Z.max 0 (tracked - balance)) as Hd by (subst d; destruct (Z.ltb_spec balance tracked); lia).
  unfold alert, CUSTODY_ALERT_STREAK, streakOf.
  assert (custodyDeficitStreak (cycleS b0) = custodyDeficitStreak (cycleS b)) as _ by done.
  destruct (0 <? d) eqn:Hpos; [destruct (Z.leb_spec 2 (custodyDeficitStreak (cycleS b) + 1))
                              |destruct (2 <=? custodyDeficitStreak (cycleS b))];
    simpl; eexists _, _; (split; [reflexivity|]); left; eexists balance, _;
    (split; [apply Hchecked|]); (split; [reflexivity|]);
    (split; [by repeat split|]); simpl; fold tracked d; rewrite Hpos; (split; [done|]);
    rewrite elem_of_app, elem_of_cons.
  - split; [lia|]. intros _. right. right. by left.
  - split; [|lia]. intros [?|[?|?%elem_of_nil]]; done.
  - split; [|lia]. intros [?|[?|?%list_elem_of_singleton]]; done.
  - split; [|lia]. intros [?|[?|?%elem_of_nil]]; done.
Qed.

Definition paged (new : list Action) : bool :=
  existsb (fun a => match a with
    | SendAlert critical title => String.eqb title CUSTODY_BELOW | _ => false end) new.

Lemma paged_spec new : paged new = true <-> SendAlert critical CUSTODY_BELOW ∈ new.
Proof.
  unfold paged. rewrite existsb_exists. setoid_rewrite <- list_elem_of_In. split.
  - intros (a & Hin & Ha). destruct a; try done. destruct level; try done.
    apply String.eqb_eq in Ha as ->. done.
  - intros Hin. eexists. split; [exact Hin|]. apply String.eqb_refl.
Qed.

(** Custody checks with anything else in between that leaves the streak
    alone: the deficit of every completed check, and whether it paged. *)
Inductive CustodyTrace : Bot -> list (Z * bool) -> Prop :=
| custody_end b : CustodyTrace b []
| custody_completed snapshot t b h res b1 new balance report b2 trace :
    checkCustody config snapshot t b h = (res, b1, new) -> checked h new balance ->
    lastCustody (cycleS b1) = Some report -> streakOf b2 = streakOf b1 ->
    CustodyTrace b2 trace -> CustodyTrace b ((deficit report, paged new) :: trace)
| custody_skipped snapshot t b h res b1 new b2 trace :
    checkCustody config snapshot t b h = (res, b1, new) ->
    (forall balance, ~ checked h new balance) -> streakOf b2 = streakOf b1 ->
    CustodyTrace b2 trace -> CustodyTrace b trace.

Lemma custody_trace_pages b trace :
  CustodyTrace b trace -> 0 <= streakOf b -> forall pre d page post,
  trace = pre ++ (d, page) :: post ->
  page = true <-> 0 < d /\ match last pre with Some (d', _) => 0 < d' | None => 1 <= streakOf b end.
Proof.
  induction 1 as [b|snapshot t b h res b1 new balance report b2 trace Hrun Hck Hrep Hb2 _ IH
                 |snapshot t b h res b1 new b2 trace Hrun Hck Hb2 _ IH]; intros Hs pre d page post He.
  - by destruct pre.
  - destruct (checkCustody_run snapshot t b h) as (b1' & new' & Hrun' & Hcase).
    rewrite Hrun in Hrun'. injection Hrun' as -> <- <-.
    destruct Hcase as [(bal & r & _ & Hr & _ & Hst & Halert)|(Hno & _)]; [|by destruct (Hno balance)].
    rewrite Hr in Hrep. injection Hrep as ->.
    destruct pre as [|x pre]; injection He.
    + intros _ <- <-. rewrite paged_spec. exact Halert.
    + intros He' <-. rewrite (IH ltac:(rewrite Hb2, Hst; destruct (0 <? _); lia) pre d page post He').
      destruct pre as [|y pre]; [simpl | rewrite !last_cons; by destruct (last pre)].
      rewrite Hb2, Hst. destruct (Z.ltb_spec 0 (deficit report)); lia.
  - destruct (checkCustody_run snapshot t b h) as (b1' & new' & Hrun' & Hcase).
    rewrite Hrun in Hrun'. injection Hrun' as -> <- <-.
    destruct Hcase as [(bal & r & Hc & _)|(_ & Hst & _)]; [by destruct (Hck bal)|].
    rewrite (IH ltac:(by rewrite Hb2, Hst) pre d page post He). by rewrite Hb2, Hst.
Qed.

(** A custody deficit pages exactly when it is seen twice in a row. Over
    any sequence of checks from a clean streak, whatever happens in between,
    a completed check pages if and only if it found a deficit and the
    completed check before it did too. *)
Theorem custody_pages_on_second_deficit b trace pre d page post :
  CustodyTrace b trace -> streakOf b = 0 -> trace = pre ++ (d, page) :: post ->
  page = true <-> 0 < d /\ exists d' page', last pre = Some (d', page') /\ 0 < d'.
Proof.
  intros Ht Hs He. rewrite (custody_trace_pages b trace Ht ltac:(lia) pre d page post He).
  destruct (last pre) as [[d' page']|].
  - split; intros [H1 H2]; (split; [done|]); [by exists d', page' |].
    by destruct H2 as (? & ? & [= <- <-] & ?).
  - rewrite Hs. split; [lia|]. by intros [_ (? & ? & ? & _)].
Qed.

(** The custody report is exact. The check always completes, and when
    it got the market's balance it leaves a report whose tracked custody is
    the live isolated collateral, the cross pools and the pending entry
    escrow of the snapshot, and whose deficit is what the balance lacks of
    it; otherwise the report and the streak stay as they were. *)
Theorem custody_report_exact snapshot t b h :
  exists b' new, checkCustody config snapshot t b h = (Ok (), b', new)
    /\ ((exists balance r, checked h new balance /\ lastCustody (cycleS b') = Some r
           /\ reportExact snapshot balance r)
        \/ ((forall balance, ~ checked h new balance) /\ streakOf b' = streakOf b
            /\ lastCustody (cycleS b') = lastCustody (cycleS b))).
Proof.
  destruct (checkCustody_run snapshot t b h) as (b' & new & Hrun & Hcase).
  exists b', new. split; [done|]. destruct Hcase as [(bal & r & ? & ? & ? & _)|(? & ? & ? & _)]; [left|by right].
  by exists bal, r.
Qed.
End custody_facts.

(** *** The cycle *)

Section cycle_facts.
Context {W : World} (config : Config).

Lemma checkCustody_total snapshot t : Total (checkCustody config snapshot t).
Proof.
  intros b h. destruct (checkCustody_run config snapshot t b h) as (b' & new & -> & _). by exists ().
Qed.

Lemma checkOrders_total snapshot : Total (checkOrders config snapshot).
Proof.
  intros b h. destruct (checkOrders_reaches config snapshot b h) as (b' & new & -> & _). by exists ().
Qed.

Lemma checkLiquidations_total snapshot sweep : Total (checkLiquidations config snapshot sweep).
Proof. unfold checkLiquidations. total_auto. Qed.

Lemma cross_total snapshot sweep : Total (checkCrossMarginLiquidations config snapshot sweep).
Proof. unfold checkCrossMarginLiquidations. total_auto. Qed.

Lemma trailing_total snapshot : Total (updateTrailingStopPeaks snapshot).
Proof. unfold updateTrailingStopPeaks. total_auto. Qed.

Lemma manageAdl_total snapshot sweep : Total (manageAdl config snapshot sweep).
Proof.
  unfold manageAdl, adlDisabled. apply total_bind; [apply total_gets|]. intros [|]; [apply total_ret|].
  apply total_bind; [apply total_gets|]. intros prices. generalize (groupBy asset (s_positions snapshot)).
  intros groups. induction groups as [|[a l] groups IH]; simpl; [apply total_ret|].
  apply total_bind; [apply total_gets|]. intros [|]; [apply total_ret|].
  apply total_bind; [|done]. destruct (prices !! a); [|apply total_ret].
  destruct (_ <=? 0); [apply total_ret|]. apply total_try. intros e. apply total_ret.
Qed.

Lemma buildSnapshot_total : Total (buildSnapshot config).
Proof. unfold buildSnapshot, alert, addStat. total_auto. Qed.

Lemma oraclePhase_total t : Total (oraclePhase config t).
Proof. unfold oraclePhase, addStat. total_auto. Qed.

Lemma funding_total t : Total (maybeApplyFunding t).
Proof. unfold maybeApplyFunding, save, addStat, alert. total_auto. Qed.

Lemma bumpEach_total l : Total (bumpEach l).
Proof.
  induction l as [|[name c] l IH]; simpl; [apply total_ret|].
  destruct (String.eqb c ""); [done|]. unfold bumpContractTtl.
  apply total_bind; [apply total_io|]. intros ok. apply total_bind; [done|]. intros f. apply total_ret.
Qed.

Lemma ttl_total t : Total (maybeBumpTtls config t).
Proof.
  unfold maybeBumpTtls, alert, readNumber. apply total_bind; [apply total_gets|]. intros next.
  destruct (_ <? _); [apply total_ret|]. apply total_bind; [apply total_modify|]. intros _.
  apply total_bind; [apply total_io|]. intros xlm. apply total_bind; [total_auto|]. intros _.
  apply total_bind; [apply bumpEach_total|]. intros f. total_auto.
Qed.

Lemma scanPhases_total snapshot pushed t : Total (scanPhases config snapshot pushed t).
Proof.
  unfold scanPhases. apply total_bind; [apply total_gets|]. intros last.
  apply total_bind; [destruct (_ <=? _); [apply total_modify | apply total_ret]|]. intros _.
  apply total_bind; [apply checkLiquidations_total|]. intros _.
  apply total_bind; [apply cross_total|]. intros _.
  apply total_bind; [destruct pushed; [apply total_ret | apply trailing_total]|]. intros _.
  apply total_bind; [apply checkOrders_total|]. intros _.
  apply total_bind; [apply manageAdl_total|]. intros _. apply checkCustody_total.
Qed.

Lemma cycle_total : Total (runKeeperCycle config).
Proof.
  unfold runKeeperCycle, now. apply total_bind; [apply total_io|]. intros t.
  apply total_bind; [apply oraclePhase_total|]. intros pushed.
  apply total_bind; [apply buildSnapshot_total|]. intros snapshot.
  apply total_bind; [destruct snapshot; [apply scanPhases_total | apply total_ret]|]. intros _.
  apply total_bind; [apply total_io|]. intros t2.
  apply total_bind; [apply funding_total|]. intros _.
  apply total_bind; [apply total_io|]. intros t3. apply ttl_total.
Qed.

(** Nothing the outside answers takes a cycle down: whatever fetch,
    read, simulation or submission fails or throws, at whatever point, and
    whatever the keeper remembers, the whole cycle completes. *)
Theorem no_answer_stops_the_cycle b h :
  exists b' new, runKeeperCycle config b h = (Ok (), b', new).
Proof. destruct (total_run _ b h cycle_total) as ([] & b' & new & Hrun). by exists b', new. Qed.

(** Submissions that act on positions and orders. *)
Definition isTrade (a : Action) : bool :=
  match a with
  | Liquidate _ | LiquidateViaRouter _ _ | LiquidateCrossAccount _ | LiquidateCrossViaRouter _ _
  | ExecuteOrder _ | ExecuteOrderViaRouter _ _ | ReconcileOrder _ _ | UpdateTrailingPeak _
  | CheckAdlTrigger _ | AdlClose _ | AdlCloseViaRouter _ _ => true
  | _ => false
  end.

Definition noTrade (_ new : list Action) : Prop := forall a, a ∈ new -> isTrade a = false.

#[export] Instance noTrade_composes : Composes noTrade.
Proof.
  split; [by intros h a Ha%elem_of_nil|].
  intros h n1 n2 H1 H2 a [Ha|Ha]%elem_of_app; [by apply H1 | by apply H2].
Qed.

Ltac tame := always_auto ltac:(intros ? ->%list_elem_of_singleton; reflexivity).

Lemma oraclePhase_tame t : Always (fun _ => True) noTrade (oraclePhase config t).
Proof.
  unfold oraclePhase, updateOraclePrices, fetchNoeracleFresh, addStat.
  assert (forall l todo acc, Always (fun _ => True) noTrade (collectEligible config l todo acc)) as Hc.
  { intros l todo. induction todo as [|a todo IH]; intros acc; simpl; [tame|]. abind; [|apply IH].
    unfold eligibleOne, passesPublishDefenses, jumpAllowed, refuse, readNumber, now, addStat, alert.
    tame. }
  assert (forall m l, Always (fun _ => True) noTrade (recordBatch config m l)) as Hr.
  { intros m l. induction l as [|att l IH]; simpl; [tame|]. destruct (m !! att_asset att); [|done].
    abind; [unfold recordPush, checkSpike, alertSpike, now, alert; tame|]. abind; [done|tame]. }
  abind; [tame|]. destruct (_ && _); [|tame]. abind; [tame|]. abind; [|tame].
  apply always_try; [apply _ | apply _ | | intros e; tame].
  abind; [tame|]. destruct a1 as [[|x l]|]; [tame| |tame]. abind; [apply Hc|].
  unfold publishEligible, publishBatch. destruct a1; [tame|].
  apply always_try; [apply _ | apply _ | | intros e; tame].
  unfold exec, addStat, syncPushed, syncMoved, syncAssetPnl, now, addStat.
  abind; [tame|]. destruct (success _); [|tame]. abind; [apply Hr|].
  unfold exec, addStat. tame.
Qed.

Lemma buildSnapshot_tame : Always (fun _ => True) noTrade (buildSnapshot config).
Proof.
  assert (forall A (get : Z -> K (option A)) ids,
    (forall i, Always (fun _ => True) noTrade (get i)) ->
    Always (fun _ => True) noTrade (readEntities get ids)) as Hr.
  { intros A get ids Hg. induction ids as [|i ids IH]; simpl; [tame|].
    abind; [apply always_try; [apply _ | apply _ | abind; [apply Hg|tame] | intros e; tame]|].
    abind; [done|]. destruct a0; tame. }
  unfold buildSnapshot, discoverIds, walkChain, shadowCheck, walkChain, save, alert, addStat.
  apply always_try; [apply _ | apply _ | | intros e; tame].
  abind; [tame|]. destruct a as [pids oids].
  abind; [apply Hr; intros i; unfold getPosition; tame|].
  abind; [apply Hr; intros i; unfold getOrder; tame|]. unfold pruneEntityCaches. tame.
Qed.

Lemma funding_tame t : Always (fun _ => True) noTrade (maybeApplyFunding t).
Proof. unfold maybeApplyFunding, save, addStat, alert, exec. tame. Qed.

Lemma ttl_tame t : Always (fun _ => True) noTrade (maybeBumpTtls config t).
Proof.
  unfold maybeBumpTtls, alert, readNumber. abind; [tame|]. destruct (_ <? _); [tame|].
  abind; [tame|]. abind; [tame|]. abind; [tame|]. abind; [|tame].
  induction (ttlContractIds config) as [|[name c] l IH]; simpl; [tame|].
  destruct (String.eqb c ""); [done|]. unfold bumpContractTtl. abind; [tame|]. abind; [done|tame].
Qed.

(** A blind cycle does not trade. When the market snapshot of a cycle
    could not be read, the cycle submits no liquidation, no order execution,
    reconcile or trailing update, and no deleveraging. *)
Theorem blind_cycle_never_trades b h pushed b1 n1 b2 n2 :
  oraclePhase config (w_now h) b (h ++ [Now]) = (Ok pushed, b1, n1) ->
  buildSnapshot config b1 ((h ++ [Now]) ++ n1) = (Ok None, b2, n2) ->
  forall a, a ∈ (runKeeperCycle config b h).2 -> isTrade a = false.
Proof.
  intros Ho Hb. pose proof (oraclePhase_tame (w_now h) (h ++ [Now]) I b) as T1. rewrite Ho in T1.
  pose proof (buildSnapshot_tame ((h ++ [Now]) ++ n1) I b1) as T2. rewrite Hb in T2.
  unfold runKeeperCycle. rewrite (bind_run now _ b h (w_now h) b [Now] eq_refl).
  rewrite (bind_run _ _ _ _ _ _ _ Ho), (bind_run _ _ _ _ _ _ _ Hb).
  assert (Always (fun _ => True) noTrade
    (_ ← (ret () : K ()); t ← now; _ ← maybeApplyFunding t; t ← now; maybeBumpTtls config t)) as T3.
  { unfold now. abind; [tame|]. abind; [tame|]. abind; [apply funding_tame|]. abind; [tame|].
    apply ttl_tame. }
  specialize (T3 (((h ++ [Now]) ++ n1) ++ n2) I b2).
  destruct ((_ ← (ret () : K ()); t ← now; _ ← maybeApplyFunding t; t ← now; maybeBumpTtls config t)
    b2 (((h ++ [Now]) ++ n1) ++ n2)) as [[r b3] n3].
  simpl. intros a Ha. apply elem_of_cons in Ha as [->|Ha]; [done|].
  apply elem_of_app in Ha as [Ha|Ha]; [by apply T1|].
  apply elem_of_app in Ha as [Ha|Ha]; [by apply T2 | by apply T3].
Qed.

Lemma simulated_somewhere {A} (m : K A) (k : A -> K ()) h (a : Action) :
  Total m -> (forall x h, Emits h (k x) (fun _ new => a ∈ new)) ->
  Emits h (m ≫= k) (fun _ new => a ∈ new).
Proof.
  intros Hm Hk. apply emits_bind. intros b. destruct (Hm b h) as [x Hx].
  destruct (m b h) as [[r b1] n1]. simpl in Hx. subst r. simpl.
  eapply emits_weaken; [apply Hk|]. simpl. intros _ n2 Hin. rewrite elem_of_app. by right.
Qed.

Lemma emits_first {A} (m : K A) (k : A -> K ()) h (a : Action) :
  Emits h m (fun _ new => a ∈ new) -> Emits h (m ≫= k) (fun _ new => a ∈ new).
Proof.
  intros Hm. apply emits_bind. eapply emits_weaken; [exact Hm|]. simpl.
  intros [e|x] n1 Hin; [done|]. apply emits_any. intros r n2. rewrite elem_of_app. by left.
Qed.

Lemma scanPhases_orders snapshot pushed t h o :
  o ∈ s_orders snapshot -> status o = Pending ->
  Emits h (scanPhases config snapshot pushed t) (fun _ new => SimulateExecuteOrder (o_id o) ∈ new).
Proof.
  intros Ho Hp. unfold scanPhases.
  apply simulated_somewhere; [apply total_gets|]. intros sweep h1.
  apply simulated_somewhere; [destruct (_ <=? _); [apply total_modify | apply total_ret]|]. intros _ h2.
  apply simulated_somewhere; [apply checkLiquidations_total|]. intros _ h3.
  apply simulated_somewhere; [apply cross_total|]. intros _ h4.
  apply simulated_somewhere; [destruct pushed; [apply total_ret | apply trailing_total]|]. intros _ h5.
  apply emits_first. intros b.
  destruct (checkOrders_reaches config snapshot b h5) as (b' & new & -> & Hall). by apply Hall.
Qed.

Lemma scanPhases_positions snapshot pushed t b h p :
  FULL_SWEEP_INTERVAL_MS <= t - lastFullSweepAt (cycleS b) ->
  p ∈ s_positions snapshot -> margin_mode p <> 1 ->
  SimulateLiquidate (id p) ∈ (scanPhases config snapshot pushed t b h).2.
Proof.
  intros Hs Hp Hm. unfold scanPhases.
  rewrite (bind_run _ _ b h (lastFullSweepAt (cycleS b)) b [] eq_refl).
  apply Z.leb_le in Hs. rewrite Hs, app_nil_r.
  rewrite (bind_run (modify (setSweep t)) _ b h () (setSweep t b) [] eq_refl), app_nil_r.
  pose proof (checkLiquidations_reaches config snapshot true (setSweep t b) h p Hp
    (conj Hm (or_introl eq_refl))) as [Hin Hok].
  destruct (checkLiquidations config snapshot true (setSweep t b) h) as [[r b1] n1] eqn:Hrun.
  simpl in Hok. subst r. rewrite (bind_run _ _ _ _ _ _ _ Hrun).
  match goal with |- context [(?m ≫= ?k) b1 ?h'] =>
    destruct ((m ≫= k) b1 h') as [[r b2] n2] end.
  simpl in *. rewrite elem_of_app. by left.
Qed.

(** C11. Nobody is forgotten. In every cycle that got a snapshot, the
    execution of each of its pending orders is simulated, and on the full
    sweep, due every ten minutes, the liquidation of each of its isolated
    positions is simulated whatever the local filter thinks. *)
Theorem snapshot_is_fully_scanned b h pushed b1 n1 s b2 n2 :
  oraclePhase config (w_now h) b (h ++ [Now]) = (Ok pushed, b1, n1) ->
  buildSnapshot config b1 ((h ++ [Now]) ++ n1) = (Ok (Some s), b2, n2) ->
  (forall o, o ∈ s_orders s -> status o = Pending ->
     SimulateExecuteOrder (o_id o) ∈ (runKeeperCycle config b h).2)
  /\ (FULL_SWEEP_INTERVAL_MS <= w_now h - lastFullSweepAt (cycleS b2) ->
     forall p, p ∈ s_positions s -> margin_mode p <> 1 ->
     SimulateLiquidate (id p) ∈ (runKeeperCycle config b h).2).
Proof.
  intros Ho Hb.
  assert (forall a, a ∈ (scanPhases config s pushed (w_now h) b2 (((h ++ [Now]) ++ n1) ++ n2)).2 ->
    a ∈ (runKeeperCycle config b h).2) as Hin.
  { intros a Ha. unfold runKeeperCycle. rewrite (bind_run now _ b h (w_now h) b [Now] eq_refl).
    rewrite (bind_run _ _ _ _ _ _ _ Ho), (bind_run _ _ _ _ _ _ _ Hb).
    destruct (scanPhases_total s pushed (w_now h) b2 (((h ++ [Now]) ++ n1) ++ n2)) as [x Hx].
    destruct (scanPhases config s pushed (w_now h) b2 _) as [[r b3] n3] eqn:Hs.
    simpl in Hx, Ha. subst r. rewrite (bind_run _ _ _ _ _ _ _ Hs).
    match goal with |- context [(?m ≫= ?k) b3 ?h'] =>
      destruct ((m ≫= k) b3 h') as [[r b4] n4] end.
    simpl. rewrite elem_of_cons, !elem_of_app. auto. }
  split.
  - intros o Hos Hp. apply Hin.
    pose proof (scanPhases_orders s pushed (w_now h) (((h ++ [Now]) ++ n1) ++ n2) o Hos Hp b2) as He.
    by destruct (scanPhases _ _ _ _ _ _) as [[r b3] n3].
  - intros Hsweep p Hp Hm. apply Hin. by apply scanPhases_positions.
Qed.
End cycle_facts.

(** ** Witnesses *)

Definition fundedOnce : Bot := (maybeApplyFunding (W := sampleWorld) 0 emptyBot []).1.2.
Definition fundedTwice : Bot := (maybeApplyFunding (W := sampleWorld) 3630000 fundedOnce []).1.2.

Theorem funding_attempts_spaced_witness :
  0 + fundingDelay applied <= 3630000.
Proof.
  apply (funding_attempts_spaced (W := sampleWorld) emptyBot [(0, applied); (3630000, applied)]
           [] 0 applied [(3630000, applied)] 3630000 applied); [|reflexivity | by left].
  exact (funding_run (W := sampleWorld) 0 emptyBot [] _ _ _ fundedOnce _ eq_refl eq_refl
    (funding_run (W := sampleWorld) 3630000 fundedOnce [] _ _ _ fundedTwice _ eq_refl eq_refl
      (funding_end fundedTwice))).
Defined.

(** The market holds nothing. *)
Definition poorWorld : World := {|
  w_now := @w_now sampleWorld; w_sim := @w_sim sampleWorld; w_exec := @w_exec sampleWorld;
  w_int := fun _ _ => Ok 0; w_optInt := @w_optInt sampleWorld; w_bool := @w_bool sampleWorld;
  w_number := @w_number sampleWorld; w_position := @w_position sampleWorld;
  w_order := @w_order sampleWorld; w_idList := @w_idList sampleWorld;
  w_ids := fun _ _ => Err "no ledger"; w_rounds := @w_rounds sampleWorld |}.

Definition checkedOnce : Bot :=
  (checkCustody (W := poorWorld) sampleConfig oneLong 60000 emptyBot []).1.2.
Definition checkedTwice : Bot :=
  (checkCustody (W := poorWorld) sampleConfig oneLong 120000 checkedOnce []).1.2.

Theorem custody_pages_on_second_deficit_witness :
  true = true <-> 0 < 1000 /\ exists d' page', last [(1000, false)] = Some (d', page') /\ 0 < d'.
Proof.
  apply (custody_pages_on_second_deficit (W := poorWorld) sampleConfig emptyBot
           [(1000, false); (1000, true)] [(1000, false)] 1000 true []); [|reflexivity..].
  assert (checked (W := poorWorld) [] [GetUsdcBalance] 0) as Hc by (exists [], []; split; reflexivity).
  exact (custody_completed (W := poorWorld) sampleConfig oneLong 60000 emptyBot [] _ _ _ 0 _ checkedOnce _
    eq_refl Hc eq_refl eq_refl
    (custody_completed (W := poorWorld) sampleConfig oneLong 120000 checkedOnce [] _ _
      [GetUsdcBalance; SendAlert critical CUSTODY_BELOW] 0 _ checkedTwice _
      eq_refl (ex_intro _ [] (ex_intro _ [SendAlert critical CUSTODY_BELOW] (conj eq_refl eq_refl)))
      eq_refl eq_refl (custody_end sampleConfig checkedTwice))).
Defined.

Theorem blind_cycle_never_trades_witness :
  Forall (fun a => isTrade a = false) (runKeeperCycle (W := poorWorld) sampleConfig emptyBot []).2.
Proof.
  apply Forall_forall.
  exact (blind_cycle_never_trades (W := poorWorld) sampleConfig emptyBot [] _ _ _ _ _ eq_refl eq_refl).
Defined.

(** One resting order and one isolated position to read. *)
Definition busyWorld : World := {|
  w_now := fun h => 600000 + Z.of_nat (length h); w_sim := @w_sim sampleWorld;
  w_exec := @w_exec sampleWorld; w_int := @w_int sampleWorld; w_optInt := @w_optInt sampleWorld;
  w_bool := @w_bool sampleWorld; w_number := @w_number sampleWorld;
  w_position := fun _ _ => Ok (Some sampleLong); w_order := fun _ _ => Ok (Some sampleOrder);
  w_idList := @w_idList sampleWorld; w_ids := fun _ _ => Ok ([7], [4]);
  w_rounds := @w_rounds sampleWorld |}.

Theorem snapshot_is_fully_scanned_witness :
  SimulateExecuteOrder 4 ∈ (runKeeperCycle (W := busyWorld) sampleConfig emptyBot []).2
  /\ SimulateLiquidate 7 ∈ (runKeeperCycle (W := busyWorld) sampleConfig emptyBot []).2.
Proof.
  destruct (snapshot_is_fully_scanned (W := busyWorld) sampleConfig emptyBot [] _ _ _
    {| s_positions := [sampleLong]; s_orders := [sampleOrder] |} _ _ eq_refl eq_refl) as [Ho Hp].
  split.
  - apply (Ho sampleOrder); [by left | reflexivity].
  - apply (Hp ltac:(vm_compute; discriminate) sampleLong); [by left | done].
Defined.
