(* ===== verification/KeeperStork.v ===== *)
(** * Second price sources of the keeper

    Models scripts/keeper/src/storkFast.ts (the signed-payload parser and the
    feed client's state), stork.ts and reference.ts (the two price caches) and
    storkRelayTick of index.ts. Payload bytes are integers from 0 to 255. The
    socket's events, the HTTP ticker and the relay transaction are arguments. *)

From S2P Require Import Prelude JsText KeeperEffects.
Open Scope Z_scope.
Open Scope js_scope.

(** ** Bytes *)

Definition text : Type := list ascii.

Definition hexValue (c : ascii) : option Z :=
  let n := Z.of_N (Ascii.N_of_ascii c) in
  if (48 <=? n) && (n <=? 57) then Some (n - 48)
  else if (65 <=? n) && (n <=? 70) then Some (n - 55)
  else if (97 <=? n) && (n <=? 102) then Some (n - 87)
  else None.

(** [Buffer.from(text, 'hex')]: decodes pairs up to the first that is not hex. *)
Fixpoint bufferFromHex (s : text) : list Z :=
  match s with
  | a :: b :: s =>
      match hexValue a, hexValue b with
      | Some x, Some y => 16 * x + y :: bufferFromHex s
      | _, _ => []
      end
  | _ => []
  end.

Definition hexDigit (n : Z) : ascii :=
  Ascii.ascii_of_N (Z.to_N (if n <? 10 then 48 + n else 87 + n)).

(** [buffer.toString('hex')] *)
Definition bufferToHex (l : list Z) : text :=
  l ≫= (fun b => [hexDigit (b ÷ 16); hexDigit (Z.rem b 16)]).

(** Big-endian unsigned value. *)
Definition beValue (l : list Z) : Z := foldl (fun n b => 256 * n + b) 0 l.

Definition subarray (start len : nat) (buf : list Z) : list Z := take len (drop start buf).

(** ** The payload parser *)

Definition HEADER_LEN : nat := 65 + 2 + 8.
Definition ENTRY_LEN : nat := 18.

Definition TWO_18 : number := numberOfZ (10 ^ 18).

(** 16 big-endian bytes, two's complement, scaled by 1e18. *)
Definition i128beValue (bytes : list Z) : Z :=
  let v := beValue bytes in
  match bytes with
  | b :: _ => if Z.testbit b 7 then v - 2 ^ 128 else v
  | [] => v
  end.
Definition i128beToHuman (bytes : list Z) : number := divN (numberOfZ (i128beValue bytes)) TWO_18.

Record FastFrame := {
  payloadHex : text; taxonomy : Z; timestampNs : Z; entries : gmap Z number; receivedAt : Z }.

(** The loop over the entries; [n] of them fit. *)
Fixpoint readEntries (n off : nat) (buf : list Z) (m : gmap Z number) : gmap Z number :=
  match n with
  | O => m
  | S n =>
      readEntries n (off + ENTRY_LEN) buf
        (<[beValue (subarray off 2 buf) := i128beToHuman (subarray (off + 2) 16 buf)]> m)
  end.

Definition parseFastPayload (hex : text) (receivedAt : Z) : Result FastFrame :=
  let clean := match hex with
               | a :: b :: s =>
                   if Ascii.eqb a (Ascii.ascii_of_nat 48)
                      && (Ascii.eqb b (Ascii.ascii_of_nat 120) || Ascii.eqb b (Ascii.ascii_of_nat 88))
                   then s else hex
               | _ => hex
               end in
  let buf := bufferFromHex clean in
  if negb (length buf * 2 =? length clean)%nat then Err "payload is not valid hex"
  else if (length buf <? HEADER_LEN + ENTRY_LEN)%nat
          || negb ((length buf - HEADER_LEN) mod ENTRY_LEN =? 0)%nat
  then Err "malformed payload length"
  else Ok {| payloadHex := bufferToHex buf;
             taxonomy := beValue (subarray 65 2 buf);
             timestampNs := beValue (subarray 67 8 buf);
             entries := readEntries ((length buf - HEADER_LEN) / ENTRY_LEN) HEADER_LEN buf ∅;
             receivedAt := receivedAt |}.

(** ** The feed client *)

Definition RECONNECT_MIN_MS : Z := 1000.
Definition RECONNECT_MAX_MS : Z := 30000.

Record FastClient := {
  latestFrame : option FastFrame; lastFrameAt : option Z; reconnects : Z; reconnectDelay : Z;
  lastError : option string; stopped : bool; connected : bool }.

Definition freshClient : FastClient := {|
  latestFrame := None; lastFrameAt := None; reconnects := 0; reconnectDelay := RECONNECT_MIN_MS;
  lastError := None; stopped := false; connected := false |}.

Inductive FeedEvent :=
| FeedStart (failure : option string)
| FeedOpen
(** A message: its parsed [type] and [p] fields, or the parse error. *)
| FeedMessage (message : Result (option string * option text)) (at_ : Z)
| FeedError (message : string)
| FeedClose
(** The reconnect timer fires; the connection attempt may throw. *)
| FeedReconnect (failure : option string)
| FeedStop.

Definition setFrame (f : FastFrame) (c : FastClient) : FastClient := {|
  latestFrame := Some f; lastFrameAt := Some (receivedAt f); reconnects := reconnects c;
  reconnectDelay := reconnectDelay c; lastError := None; stopped := stopped c;
  connected := connected c |}.
Definition setLastError (e : string) (c : FastClient) : FastClient := {|
  latestFrame := latestFrame c; lastFrameAt := lastFrameAt c; reconnects := reconnects c;
  reconnectDelay := reconnectDelay c; lastError := Some e; stopped := stopped c;
  connected := connected c |}.
Definition setConnection (isUp halted : bool) (delay : Z) (n : Z) (c : FastClient) : FastClient := {|
  latestFrame := latestFrame c; lastFrameAt := lastFrameAt c; reconnects := n;
  reconnectDelay := delay; lastError := lastError c; stopped := halted; connected := isUp |}.

(** Returns the delay of the timer it sets. *)
Definition scheduleReconnect (c : FastClient) : FastClient * option Z :=
  if stopped c then (c, None)
  else (setConnection (connected c) (stopped c) (Z.min (reconnectDelay c * 2) RECONNECT_MAX_MS)
          (reconnects c + 1) c, Some (reconnectDelay c)).

Definition connect (failure : option string) (c : FastClient) : FastClient * option Z :=
  if stopped c then (c, None)
  else match failure with
       | None => (setConnection false (stopped c) (reconnectDelay c) (reconnects c) c, None)
       | Some e => scheduleReconnect (setLastError e c)
       end.

Definition onMessage (message : Result (option string * option text)) (t : Z) (c : FastClient)
  : FastClient :=
  match message with
  | inl e => setLastError e c
  | inr (Some type, Some p) =>
      if String.eqb type "signed_ecdsa" then
        match parseFastPayload p t with
        | inl e => setLastError e c
        | inr frame => setFrame frame c
        end
      else c
  | inr _ => c
  end.

Definition feedStep (e : FeedEvent) (c : FastClient) : FastClient * option Z :=
  match e with
  | FeedStart failure =>
      connect failure (setConnection (connected c) false (reconnectDelay c) (reconnects c) c)
  | FeedOpen => (setConnection true (stopped c) RECONNECT_MIN_MS (reconnects c) c, None)
  | FeedMessage message t => (onMessage message t c, None)
  | FeedError message => (setLastError message c, None)
  | FeedClose =>
      scheduleReconnect (setConnection false (stopped c) (reconnectDelay c) (reconnects c) c)
  | FeedReconnect failure => connect failure c
  | FeedStop => (setConnection false true (reconnectDelay c) (reconnects c) c, None)
  end.

(** ** The price caches *)

Record StorkCache := {
  stork_entries : gmap string (number * Z); consecutiveFailures : Z; lastSuccessAt : Z;
  lastErrorMessage : string }.

Definition ingestStorkPrice (symbol : string) (price : number) (at_ : Z) (c : StorkCache)
  : StorkCache :=
  if negb (isFinite price) || leN price (numberOfZ 0) then c
  else {| stork_entries := <[symbol := (price, at_)]> (stork_entries c);
          consecutiveFailures := 0; lastSuccessAt := at_; lastErrorMessage := "" |}.

Definition getStorkPrice (symbol : string) (maxAgeMs now : Z) (c : StorkCache) : option number :=
  match stork_entries c !! symbol with
  | None => None
  | Some (price, fetchedAt) => if maxAgeMs <? now - fetchedAt then None else Some price
  end.

Definition STORK_DEFAULT_ID_SYMBOLS : list (Z * string) :=
  [(3, "BTC"); (4, "ETH"); (6, "ADA"); (11, "BCH"); (12, "BNB"); (14, "DOGE"); (19, "HYPE");
   (21, "LINK"); (22, "LTC"); (32, "TRX"); (38, "XRP"); (39, "ZEC"); (40, "SOL")].

(** The [onFrame] callback: every priced asset with a symbol goes to the cache. *)
Definition onFrame (frame : FastFrame) (c : StorkCache) : StorkCache :=
  let idToSymbol : gmap Z string := list_to_map STORK_DEFAULT_ID_SYMBOLS in
  map_fold (fun id price c =>
    match idToSymbol !! id with
    | Some symbol => ingestStorkPrice symbol price (receivedAt frame) c
    | None => c
    end) c (entries frame).

Definition SUCCESS_CACHE_TTL_MS : Z := 30000.
Definition FAILURE_CACHE_TTL_MS : Z := 10000.

(** [response]: the number read from the ticker's body, or why there is none. *)
Definition getReferencePrice (symbol : string) (now : Z) (response : Result number)
    (cache : gmap string (option number * Z)) : option number * gmap string (option number * Z) :=
  let fetch :=
    let price := match response with
                 | inr parsed => if isFinite parsed && ltN (numberOfZ 0) parsed
                                 then Some parsed else None
                 | inl _ => None
                 end in
    (price, <[symbol := (price, now)]> cache) in
  match cache !! symbol with
  | Some (price, fetchedAt) =>
      let ttl := match price with None => FAILURE_CACHE_TTL_MS | Some _ => SUCCESS_CACHE_TTL_MS end in
      if now - fetchedAt <? ttl then (price, cache) else fetch
  | None => fetch
  end.

(** ** The relay tick *)

Definition STORK_FEED_DARK_MS : Z := 120000.
Definition STORK_FEED_ALERT_THROTTLE_MS : Z := 600000.
Definition STRICT_PROBE_MS : Z := 3600000.
Definition RELAY_MAX_AGE_MS : Z := 55000.

Record Relay := {
  storkRelays : Z; relayFailStreak : Z; feedAlertAt : Z; strictAssets : list string;
  strictProbeAt : Z }.

Definition freshRelay : Relay := {|
  storkRelays := 0; relayFailStreak := 0; feedAlertAt := 0; strictAssets := [];
  strictProbeAt := 0 |}.

Inductive RelayAction :=
| ProbeStrict
| RelayAlert (level : AlertLevel) (title : string)
| RelayStork (payload : list Z).

Definition setProbe (t : Z) (l : list string) (r : Relay) : Relay := {|
  storkRelays := storkRelays r; relayFailStreak := relayFailStreak r;
  feedAlertAt := feedAlertAt r; strictAssets := l; strictProbeAt := t |}.
Definition setFeedAlert (t : Z) (r : Relay) : Relay := {|
  storkRelays := storkRelays r; relayFailStreak := relayFailStreak r; feedAlertAt := t;
  strictAssets := strictAssets r; strictProbeAt := strictProbeAt r |}.
Definition setRelayed (n streak : Z) (r : Relay) : Relay := {|
  storkRelays := n; relayFailStreak := streak; feedAlertAt := feedAlertAt r;
  strictAssets := strictAssets r; strictProbeAt := strictProbeAt r |}.

(** Which failures in a row alert. *)
Definition streakAlerts (streak : Z) : bool :=
  (streak =? 5) || (streak =? 25) || (streak =? 100)
  || ((100 <? streak) && (Z.rem streak 120 =? 0)).

Definition darkFeed (now : Z) (r : Relay) : Relay * list RelayAction :=
  if STORK_FEED_ALERT_THROTTLE_MS <? now - feedAlertAt r then
    let strict := bool_decide (strictAssets r <> []) in
    (setFeedAlert now r,
     [if strict then RelayAlert critical "Backup price feed is DOWN"
      else RelayAlert warn "Backup price feed (Stork) is quiet"])
  else (r, []).

(** [relayStork]: the outcome of the relay transaction. It does not throw. *)
Definition storkRelayTick (now : Z) (strictRead : list string) (client : FastClient)
    (relayStork : list Z -> ExecutionResult) (r : Relay) : Relay * list RelayAction :=
  let probe := STRICT_PROBE_MS <? now - strictProbeAt r in
  let r := if probe then setProbe now strictRead r else r in
  let probed := if probe then [ProbeStrict] else [] in
  if STORK_FEED_DARK_MS <? now - default 0 (lastFrameAt client) then
    let (r, alerts) := darkFeed now r in (r, probed ++ alerts)
  else
    match latestFrame client with
    | None => (r, probed)
    | Some frame =>
        if RELAY_MAX_AGE_MS <? now - receivedAt frame then (r, probed)
        else
          let payload := bufferFromHex (payloadHex frame) in
          let result := relayStork payload in
          let sent := probed ++ [RelayStork payload] in
          if success result then (setRelayed (storkRelays r + 1) 0 r, sent)
          else if indeterminate result then (r, sent)
          else
            let streak := relayFailStreak r + 1 in
            (setRelayed (storkRelays r) streak r,
             sent ++ (if streakAlerts streak
                      then [RelayAlert (if 100 <=? streak then critical else warn)
                              "Stork price relay keeps failing"]
                      else []))
    end.

(** ** Bytes and text *)

Definition isByte (b : Z) : Prop := 0 <= b < 256.

Lemma hexValue_hexDigit n : 0 <= n < 16 -> hexValue (hexDigit n) = Some n.
Proof.
  intros Hn. assert (n ∈ seqZ 0 16) as Hin by (apply elem_of_seqZ; lia).
  assert (forallb (fun n => bool_decide (hexValue (hexDigit n) = Some n)) (seqZ 0 16) = true) as Hall
    by (vm_compute; reflexivity).
  rewrite forallb_forall in Hall. by apply (bool_decide_eq_true_1 _), Hall, list_elem_of_In.
Qed.

Lemma bufferToHex_cons b l :
  bufferToHex (b :: l) = hexDigit (b ÷ 16) :: hexDigit (Z.rem b 16) :: bufferToHex l.
Proof. done. Qed.

Lemma bufferFromHex_toHex l : Forall isByte l -> bufferFromHex (bufferToHex l) = l.
Proof.
  induction 1 as [|b l Hb _ IH]; [done|]. unfold isByte in Hb.
  rewrite bufferToHex_cons. cbn [bufferFromHex].
  rewrite Z.quot_div_nonneg, Z.rem_mod_nonneg by lia.
  pose proof (Z.div_mod b 16). rewrite !hexValue_hexDigit.
  - f_equal; [lia | exact IH].
  - apply Z.mod_pos_bound. lia.
  - split; [apply Z.div_pos; lia | apply Z.div_lt_upper_bound; lia].
Qed.

Lemma hexValue_bound c v : hexValue c = Some v -> 0 <= v < 16.
Proof.
  unfold hexValue. repeat case_match; intros [= <-]; reflect_bools; lia.
Qed.

Lemma bufferFromHex_bytes n s : (length s <= n)%nat -> Forall isByte (bufferFromHex s).
Proof.
  revert s; induction n as [|n IH]; intros [|a [|b s]] Hl; simpl in *; try constructor; try lia.
  destruct (hexValue a) as [x|] eqn:Ha; [|constructor].
  destruct (hexValue b) as [y|] eqn:Hb; [|constructor].
  apply hexValue_bound in Ha, Hb. constructor; [unfold isByte; lia | apply IH; lia].
Qed.

(** ** The wire layout, as the header of storkFast.ts states it *)

Fixpoint beBytes (n : nat) (v : Z) : list Z :=
  match n with
  | O => []
  | S n => (v / 256 ^ Z.of_nat n) mod 256 :: beBytes n v
  end.

Definition encodeEntry (e : Z * Z) : list Z := beBytes 2 e.1 ++ beBytes 16 (e.2 mod 2 ^ 128).

Definition encodePayload (sig : list Z) (tax ts : Z) (es : list (Z * Z)) : list Z :=
  sig ++ beBytes 2 tax ++ beBytes 8 ts ++ (es ≫= encodeEntry).

Lemma length_beBytes n v : length (beBytes n v) = n.
Proof. induction n; simpl; congruence. Qed.

Lemma beBytes_bytes n v : Forall isByte (beBytes n v).
Proof. induction n; constructor; [apply Z.mod_pos_bound; lia | done]. Qed.

Lemma beBytes_value n v acc :
  foldl (fun n b => 256 * n + b) acc (beBytes n v)
  = 256 ^ Z.of_nat n * acc + v mod 256 ^ Z.of_nat n.
Proof.
  revert acc; induction n as [|n IH]; intros acc; [simpl; rewrite Z.mod_1_r; lia|].
  cbn [beBytes foldl]. rewrite IH, Nat2Z.inj_succ, Z.pow_succ_r by lia.
  set (m := 256 ^ Z.of_nat n). assert (0 < m) by (apply Z.pow_pos_nonneg; lia).
  rewrite (Z.mul_comm 256 m), Z.rem_mul_r by lia. lia.
Qed.

Lemma beValue_beBytes n v : 0 <= v < 256 ^ Z.of_nat n -> beValue (beBytes n v) = v.
Proof. intros Hv. unfold beValue. rewrite beBytes_value, Z.mod_small by lia. lia. Qed.

Lemma testbit_7 b : 0 <= b < 256 -> Z.testbit b 7 = (128 <=? b).
Proof.
  intros Hb.
  assert (forallb (fun b => Bool.eqb (Z.testbit b 7) (128 <=? b)) (seqZ 0 256) = true) as Hall
    by (vm_compute; reflexivity).
  rewrite forallb_forall in Hall. apply eqb_prop, Hall, list_elem_of_In, elem_of_seqZ. lia.
Qed.

Lemma i128beValue_encode v :
  - 2 ^ 127 <= v < 2 ^ 127 -> i128beValue (beBytes 16 (v mod 2 ^ 128)) = v.
Proof.
  intros Hv. unfold i128beValue. set (w := v mod 2 ^ 128).
  assert (0 <= w < 2 ^ 128) as Hw by (apply Z.mod_pos_bound; lia).
  rewrite beValue_beBytes by (change (256 ^ Z.of_nat 16) with (2 ^ 128); lia).
  cbn [beBytes]. change (256 ^ Z.of_nat 15) with (2 ^ 120).
  assert (0 <= w / 2 ^ 120 < 256) as Hb.
  { split; [apply Z.div_pos; lia | apply Z.div_lt_upper_bound; lia]. }
  rewrite (Z.mod_small (w / 2 ^ 120)) by lia. rewrite testbit_7 by lia.
  assert (w = if v <? 0 then v + 2 ^ 128 else v) as Hwv.
  { subst w. destruct (Z.ltb_spec v 0); [|apply Z.mod_small; lia].
    rewrite <- (Z.mod_add v 1) by lia. apply Z.mod_small. lia. }
  destruct (Z.leb_spec 128 (w / 2 ^ 120)) as [Hle|Hlt].
  - assert (128 * 2 ^ 120 <= w).
    { transitivity (2 ^ 120 * (w / 2 ^ 120)); [nia | apply Z.mul_div_le; lia]. }
    destruct (Z.ltb_spec v 0); lia.
  - assert (w < 128 * 2 ^ 120) by (pose proof (Z.mod_pos_bound w (2 ^ 120) ltac:(lia));
      pose proof (Z.div_mod w (2 ^ 120) ltac:(lia)); lia).
    destruct (Z.ltb_spec v 0); lia.
Qed.

Lemma bufferToHex_length l : length (bufferToHex l) = (length l * 2)%nat.
Proof.
  induction l as [|b l IH]; [done|]. rewrite bufferToHex_cons. simpl. by rewrite IH.
Qed.

(** A prefixed hex text parses as its bytes. *)
Lemma parse_bytes l t :
  Forall isByte l ->
  parseFastPayload (String.list_ascii_of_string "0x" ++ bufferToHex l) t
  = (if (length l <? HEADER_LEN + ENTRY_LEN)%nat
        || negb ((length l - HEADER_LEN) mod ENTRY_LEN =? 0)%nat
     then Err "malformed payload length"
     else Ok {| payloadHex := bufferToHex l; taxonomy := beValue (subarray 65 2 l);
                timestampNs := beValue (subarray 67 8 l);
                entries := readEntries ((length l - HEADER_LEN) / ENTRY_LEN) HEADER_LEN l ∅;
                receivedAt := t |}).
Proof.
  intros Hl. unfold parseFastPayload. cbn [app String.list_ascii_of_string].
  change (Ascii.eqb _ (Ascii.ascii_of_nat 48) && _) with true. cbv iota.
  by rewrite (bufferFromHex_toHex l Hl), bufferToHex_length, Nat.eqb_refl.
Qed.

Lemma subarray_app pre mid post :
  subarray (length pre) (length mid) (pre ++ mid ++ post) = mid.
Proof. unfold subarray. by rewrite drop_app_length, take_app_length. Qed.

Lemma readEntries_encode es pre m :
  Forall (fun e => 0 <= e.1 < 2 ^ 16 /\ - 2 ^ 127 <= e.2 < 2 ^ 127) es ->
  readEntries (length es) (length pre) (pre ++ (es ≫= encodeEntry)) m
  = foldl (fun m e => <[e.1 := divN (numberOfZ e.2) TWO_18]> m) m es.
Proof.
  revert pre m; induction es as [|[id v] es IH]; intros pre m Hes; [done|].
  inversion Hes as [|? ? [Hid Hv] Hes']; subst. simpl in Hid, Hv. cbn [length readEntries foldl].
  set (ib := beBytes 2 id). set (vb := beBytes 16 (v mod 2 ^ 128)).
  change (((id, v) :: es) ≫= encodeEntry) with ((ib ++ vb) ++ (es ≫= encodeEntry)).
  assert (length ib = 2%nat) as Li by apply length_beBytes.
  assert (length vb = 16%nat) as Lv by apply length_beBytes.
  assert (subarray (length pre) 2 (pre ++ (ib ++ vb) ++ (es ≫= encodeEntry)) = ib) as ->.
  { rewrite <- Li, <- (app_assoc ib). apply subarray_app. }
  assert (subarray (length pre + 2) 16 (pre ++ (ib ++ vb) ++ (es ≫= encodeEntry)) = vb) as ->.
  { rewrite <- Lv, <- Li, <- (app_assoc ib), (app_assoc pre), <- length_app. apply subarray_app. }
  change (i128beToHuman vb)
    with (divN (numberOfZ (i128beValue (beBytes 16 (v mod 2 ^ 128)))) TWO_18).
  change (beValue ib) with (beValue (beBytes 2 id)). rewrite i128beValue_encode by lia.
  rewrite beValue_beBytes by (change (256 ^ Z.of_nat 2) with (2 ^ 16); lia).
  rewrite (app_assoc pre), <- (IH (pre ++ ib ++ vb)); [|done].
  f_equal. rewrite !length_app, Li, Lv. reflexivity.
Qed.

(** A signed payload laid out as the feed lays it out, and sent as prefixed
    hex, is parsed into exactly the taxonomy, the timestamp and the last value
    of each asset it was made from, with the payload kept byte for byte. *)
Theorem fast_payload_roundtrip sig tax ts es t :
  length sig = 65%nat -> Forall isByte sig -> 0 <= tax < 2 ^ 16 -> 0 <= ts < 2 ^ 64 ->
  es <> [] -> Forall (fun e => 0 <= e.1 < 2 ^ 16 /\ - 2 ^ 127 <= e.2 < 2 ^ 127) es ->
  let wire := encodePayload sig tax ts es in
  exists frame,
    parseFastPayload (String.list_ascii_of_string "0x" ++ bufferToHex wire) t = Ok frame
    /\ bufferFromHex (payloadHex frame) = wire /\ taxonomy frame = tax /\ timestampNs frame = ts
    /\ entries frame = foldl (fun m e => <[e.1 := divN (numberOfZ e.2) TWO_18]> m) ∅ es
    /\ receivedAt frame = t.
Proof.
  intros Hsig Hbytes Htax Hts Hne Hes wire.
  set (tb := beBytes 2 tax). set (sb := beBytes 8 ts). set (body := es ≫= encodeEntry).
  assert (length tb = 2%nat) as Lt by apply length_beBytes.
  assert (length sb = 8%nat) as Ls by apply length_beBytes.
  assert (length body = (ENTRY_LEN * length es)%nat) as Lb.
  { subst body. clear. induction es as [|e es IH]; [done|].
    change ((e :: es) ≫= encodeEntry) with (encodeEntry e ++ (es ≫= encodeEntry)).
    rewrite length_app, IH. unfold encodeEntry. rewrite length_app, !length_beBytes.
    unfold ENTRY_LEN. simpl. lia. }
  assert (Forall isByte wire) as Hwire.
  { unfold wire, encodePayload. rewrite !Forall_app. repeat split; [done|apply beBytes_bytes..|].
    apply Forall_bind, Forall_forall. intros e _. apply Forall_app; split; apply beBytes_bytes. }
  assert (length wire = (HEADER_LEN + ENTRY_LEN * length es)%nat) as Lw.
  { unfold wire, encodePayload. fold tb sb body. rewrite !length_app, Hsig, Lt, Ls, Lb.
    unfold HEADER_LEN. lia. }
  rewrite (parse_bytes _ t Hwire), Lw.
  replace (HEADER_LEN + ENTRY_LEN * length es - HEADER_LEN)%nat with (length es * ENTRY_LEN)%nat by lia.
  rewrite Nat.Div0.mod_mul, Nat.div_mul by done.
  destruct (Nat.ltb_spec (HEADER_LEN + ENTRY_LEN * length es) (HEADER_LEN + ENTRY_LEN)) as [Hlt|_].
  { destruct es; [done|]. unfold HEADER_LEN, ENTRY_LEN in Hlt. cbn [length] in Hlt. lia. }
  eexists. split; [reflexivity|]. cbn [payloadHex taxonomy timestampNs entries receivedAt].
  split; [by apply bufferFromHex_toHex|]. unfold wire, encodePayload. fold tb sb body.
  split; [|split; [|split; [|done]]].
  - rewrite <- Hsig, <- Lt, subarray_app. apply beValue_beBytes. done.
  - replace 67%nat with (length (sig ++ tb)) by (by rewrite length_app, Hsig, Lt).
    rewrite <- Ls, (app_assoc sig), subarray_app. apply beValue_beBytes. done.
  - replace HEADER_LEN with (length (sig ++ tb ++ sb)) by (rewrite !length_app, Hsig, Lt, Ls; done).
    replace (sig ++ tb ++ sb ++ body) with ((sig ++ tb ++ sb) ++ body) by (by rewrite <- !app_assoc).
    by apply readEntries_encode.
Qed.

Theorem fast_payload_roundtrip_witness :
  exists frame,
    parseFastPayload (String.list_ascii_of_string "0x"
      ++ bufferToHex (encodePayload (replicate 65 171) 1 1750000000000000000
                        [(3, 65000 * 10 ^ 18); (4, - 1)])) 9 = Ok frame
    /\ taxonomy frame = 1 /\ timestampNs frame = 1750000000000000000
    /\ entries frame !! 3 = Some (divN (numberOfZ (65000 * 10 ^ 18)) TWO_18).
Proof.
  destruct (fast_payload_roundtrip (replicate 65 171) 1 1750000000000000000
    [(3, 65000 * 10 ^ 18); (4, - 1)] 9) as (frame & Hp & _ & Htax & Hts & He & _);
    [done | by apply Forall_replicate | done | done | done | repeat constructor; done |].
  exists frame. do 3 (split; [done|]). rewrite He. reflexivity.
Defined.

(** ** The feed and the relay *)

Definition clientAfter (events : list FeedEvent) : FastClient :=
  foldl (fun c e => (feedStep e c).1) freshClient events.

(** The frame a feed event delivers. *)
Definition delivered (e : FeedEvent) : option FastFrame :=
  match e with
  | FeedMessage (inr (Some type, Some p)) t =>
      if String.eqb type "signed_ecdsa"
      then match parseFastPayload p t with inr f => Some f | inl _ => None end else None
  | _ => None
  end.

Lemma scheduleReconnect_frame c :
  latestFrame (scheduleReconnect c).1 = latestFrame c
  /\ lastFrameAt (scheduleReconnect c).1 = lastFrameAt c.
Proof. unfold scheduleReconnect. by destruct (stopped c). Qed.

Lemma connect_frame failure c :
  latestFrame (connect failure c).1 = latestFrame c
  /\ lastFrameAt (connect failure c).1 = lastFrameAt c.
Proof.
  unfold connect. destruct (stopped c); [done|]. destruct failure as [e|]; [|done].
  apply (scheduleReconnect_frame (setLastError e c)).
Qed.

(** The client holds the newest delivered frame, with its time. *)
Lemma feedStep_frame e c :
  latestFrame (feedStep e c).1 = match delivered e with Some f => Some f | None => latestFrame c end
  /\ lastFrameAt (feedStep e c).1
     = match delivered e with Some f => Some (receivedAt f) | None => lastFrameAt c end.
Proof.
  destruct e as [failure| |message t|m| |failure| ]; try done; cbn [delivered feedStep].
  - apply (connect_frame failure (setConnection _ _ _ _ c)).
  - destruct message as [e|[[type|] [p|]]]; try done. simpl.
    destruct (String.eqb type "signed_ecdsa"); [|done]. by destruct (parseFastPayload p t).
  - apply (scheduleReconnect_frame (setConnection _ _ _ _ c)).
  - apply connect_frame.
Qed.

Lemma newest_frame events :
  match latestFrame (clientAfter events) with
  | None => forall e, e ∈ events -> delivered e = None
  | Some f => lastFrameAt (clientAfter events) = Some (receivedAt f)
      /\ exists pre e post, events = pre ++ e :: post /\ delivered e = Some f
         /\ forall e', e' ∈ post -> delivered e' = None
  end.
Proof.
  induction events as [|e events IH] using rev_ind; [by intros e He%elem_of_nil|].
  unfold clientAfter in *. rewrite foldl_snoc. set (c := foldl _ freshClient events) in *.
  destruct (feedStep_frame e c) as [Hf Ha]. rewrite Hf, Ha.
  destruct (delivered e) as [f|] eqn:He.
  - split; [done|]. exists events, e, []. do 2 (split; [done|]). by intros e' ?%elem_of_nil.
  - destruct (latestFrame c) as [f|].
    + destruct IH as (Hat & pre & e0 & post & -> & Hd & Hpost). split; [done|].
      exists pre, e0, (post ++ [e]). split; [by rewrite <- app_assoc|]. split; [done|].
      intros e' [Hin|Hin%list_elem_of_singleton]%elem_of_app; [by apply Hpost | by subst].
    + intros e' [Hin|Hin%list_elem_of_singleton]%elem_of_app; [by apply IH | by subst].
Qed.

Lemma parse_payload p t f :
  parseFastPayload p t = Ok f -> Forall isByte (bufferFromHex (payloadHex f)) /\ receivedAt f = t.
Proof.
  unfold parseFastPayload. set (clean := match p with _ :: _ => _ | _ => _ end).
  destruct (negb _); [done|]. destruct (_ || _); [done|]. intros [= <-]. simpl.
  split; [|done]. by apply (bufferFromHex_bytes (length (bufferToHex (bufferFromHex clean)))).
Qed.

(** Whatever the feed did before, the relay transaction of a tick carries the
    payload of the newest frame delivered, unaltered, and only while that frame
    is at most 55 s old. *)
Theorem relay_is_newest_and_fresh events now strictRead relayStork r payload :
  RelayStork payload ∈ (storkRelayTick now strictRead (clientAfter events) relayStork r).2 ->
  exists pre p t f post,
    events = pre ++ FeedMessage (inr (Some "signed_ecdsa", Some p)) t :: post
    /\ (forall e, e ∈ post -> delivered e = None)
    /\ parseFastPayload p t = Ok f /\ payload = bufferFromHex (payloadHex f)
    /\ now - t <= RELAY_MAX_AGE_MS.
Proof.
  pose proof (newest_frame events) as Hnew. intros Hin.
  assert (exists f, latestFrame (clientAfter events) = Some f
    /\ payload = bufferFromHex (payloadHex f) /\ now - receivedAt f <= RELAY_MAX_AGE_MS) as
    (f & Hf & -> & Hage).
  { revert Hin. unfold storkRelayTick, darkFeed. clear Hnew.
    set (r' := if _ <? _ then setProbe _ _ _ else r). clearbody r'.
    set (probed := if _ <? _ then [ProbeStrict] else []).
    assert (RelayStork payload ∉ probed) as Hp.
    { subst probed. destruct (_ <? _); [|apply not_elem_of_nil].
      by intros ?%list_elem_of_singleton. }
    destruct (STORK_FEED_DARK_MS <? _).
    { destruct (STORK_FEED_ALERT_THROTTLE_MS <? _); simpl;
        intros [?|Hx]%elem_of_app; try done; [|by apply elem_of_nil in Hx].
      apply list_elem_of_singleton in Hx. by destruct (bool_decide _). }
    destruct (latestFrame (clientAfter events)) as [f|]; [|done].
    destruct (RELAY_MAX_AGE_MS <? now - receivedAt f) eqn:Hage; [done|]. reflect_bools.
    intros Hin. exists f. split; [done|]. split; [|done].
    assert (RelayStork payload ∈ probed ++ [RelayStork (bufferFromHex (payloadHex f))]) as Hin'.
    { destruct (success _); [done|]. destruct (indeterminate _); [done|].
      simpl in Hin. apply elem_of_app in Hin as [Hin|Hin]; [done|].
      destruct (streakAlerts _); [by apply list_elem_of_singleton in Hin | by apply elem_of_nil in Hin]. }
    apply elem_of_app in Hin' as [?|Hx%list_elem_of_singleton]; [done|]. by injection Hx. }
  rewrite Hf in Hnew. destruct Hnew as (_ & pre & e & post & -> & Hd & Hpost).
  destruct e as [ | |[e|[[type|] [p|]]] t| | | | ]; try done. simpl in Hd.
  destruct (String.eqb type "signed_ecdsa") eqn:Ht; [|done]. apply String.eqb_eq in Ht as ->.
  destruct (parseFastPayload p t) as [e|f'] eqn:Hp; [done|]. injection Hd as ->.
  destruct (parse_payload _ _ _ Hp) as [_ Hat]. exists pre, p, t, f, post.
  do 4 (split; [done|]). by rewrite <- Hat.
Qed.

Definition sampleWire : list Z := encodePayload (replicate 65 171) 1 5 [(3, 10 ^ 18)].
Definition sampleMessage : FeedEvent :=
  FeedMessage (inr (Some "signed_ecdsa",
    Some (String.list_ascii_of_string "0x" ++ bufferToHex sampleWire))) 1000.
Definition relayOk : ExecutionResult :=
  {| success := true; indeterminate := false; reward := None; error := None |}.

Theorem relay_is_newest_and_fresh_witness :
  exists pre p t f post,
    [FeedOpen; sampleMessage; FeedClose]
      = pre ++ FeedMessage (inr (Some "signed_ecdsa", Some p)) t :: post
    /\ (forall e, e ∈ post -> delivered e = None)
    /\ parseFastPayload p t = Ok f /\ sampleWire = bufferFromHex (payloadHex f)
    /\ 31000 - t <= RELAY_MAX_AGE_MS.
Proof.
  apply (relay_is_newest_and_fresh _ 31000 [] (fun _ => relayOk) freshRelay).
  vm_compute. constructor.
Defined.

(** A price the cache gives was ingested, is positive and finite, and is at most
    as old as asked. *)
Lemma stork_price_recent ingests symbol maxAgeMs now p c :
  stork_entries c = ∅ ->
  getStorkPrice symbol maxAgeMs now
    (foldl (fun c '(s, x, t) => ingestStorkPrice s x t c) c ingests) = Some p ->
  exists t, (symbol, p, t) ∈ ingests /\ now - t <= maxAgeMs
    /\ isFinite p = true /\ leN p (numberOfZ 0) = false.
Proof.
  intros Hc. revert now. induction ingests as [|[[s x] t] ingests IH] using rev_ind; intros now.
  { simpl. unfold getStorkPrice. by rewrite Hc. }
  rewrite foldl_snoc. set (c' := foldl _ c ingests) in *.
  assert (getStorkPrice symbol maxAgeMs now c' = Some p -> exists t0,
    (symbol, p, t0) ∈ ingests ++ [(s, x, t)] /\ now - t0 <= maxAgeMs
    /\ isFinite p = true /\ leN p (numberOfZ 0) = false) as Hold.
  { intros (t0 & Hin & Hrest)%IH. exists t0. split; [|done]. apply elem_of_app. by left. }
  unfold ingestStorkPrice. destruct (negb (isFinite x) || leN x (numberOfZ 0)) eqn:Hx; [exact Hold|].
  unfold getStorkPrice in *. simpl. destruct (decide (s = symbol)) as [->|Hne].
  - rewrite lookup_insert_eq. destruct (maxAgeMs <? now - t) eqn:Hage; [done|]. intros [= ->].
    reflect_bools. exists t. split; [apply elem_of_app; right; by left|]. by split_and!.
  - rewrite lookup_insert_ne by done. exact Hold.
Qed.
