(* ===== verification/TxFootprint.v ===== *)
(** * The footprint guard of prepared transactions

    Models packages/tx-builders/src/footprintGuard.ts (the web application
    ships the same file) and the preparation half of client.ts: the keys an
    operation may write, the padding of an assembled transaction's footprint
    with them, the resource margin, and the order the two are applied in. What
    the contracts do write is modelled from their sources in [Settlement].

    A ledger key is its contract, variant, payload and durability; [keyId], its
    XDR text, is one to one with these. Building a transaction from another
    one is the SDK's: it keeps the operations, takes the new Soroban data, and
    computes the fee, for which [buildFee] stands. *)

From S2P Require Import Prelude.
Open Scope Z_scope.

(** ** Ledger keys *)

Inductive TradeOp :=
| open_ | open_cross | close_ | close_partial | close_cross | place_order | cancel_order
| execute_order | liquidate | liquidate_cross | adl | other.

Record KeyCtx := {
  vault : string; market : string; trader : string; asset : option string;
  assets : option (list string); positionId : option Z }.

Inductive ScKey := KSymbol (s : string) | KAddress (a : string) | KU64 (n : Z).

Record LedgerKey := {
  contract : string; variant : string; payload : list ScKey; temporary : bool }.

#[export] Instance TradeOp_eq_dec : EqDecision TradeOp.
Proof. solve_decision. Defined.
#[export] Instance ScKey_eq_dec : EqDecision ScKey.
Proof. solve_decision. Defined.
#[export] Instance LedgerKey_eq_dec : EqDecision LedgerKey.
Proof. solve_decision. Defined.

Definition contractDataKey (c v : string) (p : list ScKey) : LedgerKey :=
  {| contract := c; variant := v; payload := p; temporary := false |}.

Definition temporaryKey (c v : string) (p : list ScKey) : LedgerKey :=
  {| contract := c; variant := v; payload := p; temporary := true |}.

Definition vaultSettlementKeys (vault trader : string) : list LedgerKey :=
  [ contractDataKey vault "BufferBalance" []; contractDataKey vault "TotalUsdc" [];
    contractDataKey vault "TotalFees" []; contractDataKey vault "ShortfallReserve" [];
    contractDataKey vault "Shortfall" []; contractDataKey vault "CumShortfall" [];
    contractDataKey vault "ShortfallOwed" [KAddress trader];
    contractDataKey vault "CumBadDebtCovered" []; contractDataKey vault "CumBadDebtLpAbsorbed" [] ].

(** [!asset]: an absent or empty symbol. *)
Definition named (asset : option string) : option string :=
  match asset with Some a => if String.eqb a EmptyString then None else Some a | None => None end.

Definition marketSettlementKeys (market : string) (asset : option string) : list LedgerKey :=
  match named asset with
  | None => []
  | Some a => [ contractDataKey market "AdlActive" [KSymbol a]; contractDataKey market "LastGoodPrice" [KSymbol a] ]
  end.

Definition openKeys (ctx : KeyCtx) : list LedgerKey :=
  [ contractDataKey (vault ctx) "BufferBalance" []; contractDataKey (vault ctx) "TotalUsdc" [];
    contractDataKey (vault ctx) "TotalFees" []; contractDataKey (vault ctx) "ShortfallReserve" [] ]
  ++ take 1 (drop 1 (marketSettlementKeys (market ctx) (asset ctx))).

Definition closeKeys (ctx : KeyCtx) : list LedgerKey :=
  vaultSettlementKeys (vault ctx) (trader ctx) ++ marketSettlementKeys (market ctx) (asset ctx).

(** [dedupe]: the first occurrence of every key, in order. *)
Fixpoint dedupeFrom (seen keys : list LedgerKey) : list LedgerKey :=
  match keys with
  | [] => []
  | k :: keys =>
      if bool_decide (k ∈ seen) then dedupeFrom seen keys else k :: dedupeFrom (k :: seen) keys
  end.

Definition dedupe (keys : list LedgerKey) : list LedgerKey := dedupeFrom [] keys.

Definition conditionalWriteKeys (op : TradeOp) (ctx : KeyCtx) : list LedgerKey :=
  match op with
  | open_ | open_cross => openKeys ctx
  | close_ | close_partial | close_cross | adl => closeKeys ctx
  | execute_order =>
      dedupe (openKeys ctx ++ closeKeys ctx
        ++ match named (asset ctx) with
           | Some a => [ contractDataKey (market ctx) "AssetExposure" [KSymbol a];
                         contractDataKey (vault ctx) "AssetUnrealizedPnl" [KSymbol a] ]
           | None => []
           end
        ++ [ contractDataKey (vault ctx) "UnrealizedPnl" []; contractDataKey (vault ctx) "ReservedPayout" [] ]
        ++ match positionId ctx with
           | Some p => [ temporaryKey (market ctx) "ClosedProceeds" [KU64 p] ]
           | None => []
           end)
  | liquidate =>
      dedupe (closeKeys ctx ++ [ contractDataKey (vault ctx) "ShortfallReserve" [] ]
        ++ match positionId ctx with
           | Some p => [ contractDataKey (market ctx) "PartialLiqTs" [KU64 p];
                         temporaryKey (market ctx) "ClosedProceeds" [KU64 p] ]
           | None => []
           end)
  | liquidate_cross =>
      let legs := match assets ctx with
                  | Some l => l
                  | None => match named (asset ctx) with Some a => [a] | None => [] end
                  end in
      dedupe (vaultSettlementKeys (vault ctx) (trader ctx)
        ++ [ contractDataKey (vault ctx) "ShortfallReserve" [] ]
        ++ flat_map (fun a => marketSettlementKeys (market ctx) (Some a)) legs
        ++ [ contractDataKey (market ctx) "CrossPartialLiqTs" [KAddress (trader ctx)] ])
  | place_order | cancel_order | other => []
  end.

(** ** Transactions *)

Record SorobanData := {
  readOnly : list LedgerKey; readWrite : list LedgerKey;
  instructions : Z; diskReadBytes : Z; writeBytes : Z; resourceFee : Z }.

Record Transaction := { operations : nat; fee : Z; sorobanData : option SorobanData }.

Record PadOptions := { bytesPerKey : option Z; feePerKeyStroops : option Z }.

Definition DEFAULT_BYTES_PER_KEY : Z := 256.
Definition DEFAULT_FEE_PER_KEY : Z := 30000.
(** The SDK's minimum inclusion fee. *)
Definition BASE_FEE : Z := 100.

(** The SDK's builder: the fee of a transaction with this inclusion fee per
    operation, number of operations and resource fee. *)
Class FeeBuilder := {
  buildFee : Z -> nat -> Z -> Z;
  buildFee_adds : forall perOp ops resource, buildFee perOp ops resource = perOp * Z.of_nat ops + resource }.

Section builder.
Context `{FeeBuilder}.

(** [TransactionBuilder.cloneFrom(tx, { fee }).setSorobanData(data).build()] *)
Definition rebuild (tx : Transaction) (perOp : Z) (data : SorobanData) : Transaction :=
  {| operations := operations tx; fee := buildFee perOp (operations tx) (resourceFee data);
     sorobanData := Some data |}.

(** The inclusion fee per operation of a transaction with this resource fee. *)
Definition perOpBase (tx : Transaction) (originalResourceFee : Z) : Z :=
  let numOps := match operations tx with O => 1 | n => Z.of_nat n end in
  let basePortion := fee tx - originalResourceFee in
  if 0 <? basePortion then basePortion ÷ numOps else BASE_FEE.

(** The keys of [wanted] the read-write set lacks. *)
Definition missing (wanted rw : list LedgerKey) : list LedgerKey :=
  bfilter (fun k => negb (bool_decide (k ∈ rw))) wanted.

Definition padded (data : SorobanData) (wanted : list LedgerKey) (o : PadOptions) : SorobanData :=
  let added := missing wanted (readWrite data) in
  let extraBytes := Z.of_nat (length added) * default DEFAULT_BYTES_PER_KEY (bytesPerKey o) in
  {| readOnly := bfilter (fun k => negb (bool_decide (k ∈ wanted))) (readOnly data);
     readWrite := readWrite data ++ added;
     instructions := instructions data;
     diskReadBytes := diskReadBytes data + extraBytes;
     writeBytes := writeBytes data + extraBytes;
     resourceFee := resourceFee data
                    + Z.of_nat (length added) * default DEFAULT_FEE_PER_KEY (feePerKeyStroops o) |}.

Definition padFootprint (tx : Transaction) (keys : list LedgerKey) (o : PadOptions) : Transaction :=
  match sorobanData tx, keys with
  | None, _ | _, [] => tx
  | Some data, _ =>
      let wanted := dedupe keys in
      let data' := padded data wanted o in
      if (length (missing wanted (readWrite data)) =? 0)%nat
         && (length (readOnly data) - length (readOnly data') =? 0)%nat
      then tx
      else rebuild tx (perOpBase tx (resourceFee data)) data'
  end.

(** ** client.ts *)

(** [Math.ceil(x * RESOURCE_MARGIN)]: exact, since a quarter of [5 x] is a
    double for every [x] below [2 ^ 50]. *)
Definition ceilMargin (x : Z) : Z := (5 * x + 3) / 4.

Definition withResourceHeadroom (assembled : Transaction) : Transaction :=
  match sorobanData assembled with
  | None => assembled
  | Some d =>
      rebuild assembled (perOpBase assembled (resourceFee d))
        {| readOnly := readOnly d; readWrite := readWrite d;
           instructions := ceilMargin (instructions d); diskReadBytes := ceilMargin (diskReadBytes d);
           writeBytes := ceilMargin (writeBytes d); resourceFee := ceilMargin (resourceFee d) |}
  end.

Record TxBuildContext := { ctx_market : option string; ctx_vault : option string }.

(** The hints of a call: the operation and the context less the ids. *)
Record TxBuildOptions := {
  op : option TradeOp; o_trader : option string; o_asset : option string;
  o_assets : option (list string); o_positionId : option Z }.

(** The trader of the keys is the source account [who], whatever the hints
    say: guardKeys spreads them first. *)
Definition guardKeys (ctx : TxBuildContext) (who : string) (opts : TxBuildOptions) : list LedgerKey :=
  match op opts, named (ctx_market ctx), named (ctx_vault ctx) with
  | Some o, Some m, Some v =>
      conditionalWriteKeys o {| vault := v; market := m; trader := who; asset := o_asset opts;
                                assets := o_assets opts; positionId := o_positionId opts |}
  | _, _, _ => []
  end.

Definition noOptions : PadOptions := {| bytesPerKey := None; feePerKeyStroops := None |}.

(** [buildContractTx] from the simulation on: [sim] is its error or the
    transaction the SDK assembles from its answer. *)
Definition buildContractTx (ctx : TxBuildContext) (source : string) (sim : Result Transaction)
    (opts : TxBuildOptions) : Result Transaction :=
  assembled ← sim;
  Ok (withResourceHeadroom (padFootprint assembled (guardKeys ctx source opts) noOptions)).

End builder.

(** ** What the contracts write

    The settlement of contracts/vault/src/lib.rs and
    contracts/market/src/lib.rs, as the keys each call writes in the state it
    finds: the calls the market makes of the vault, the mark it keeps for an
    asset, its deleveraging flag, and the stamps of liquidations. What every
    run of an operation writes alike (positions, open interest) is in the
    simulated footprint and not repeated here; so is the exposure, but for an
    order, whose execution may trade or not. *)

Module Settlement.

(** What a payout depends on: [cash] is the vault's USDC balance. *)
Record Pool := { total_usdc : Z; buffer : Z; reserve : Z; cash : Z }.

Inductive VaultCall :=
| settle_pnl (trader : string) (pnl : Z)
| receive_loss (amount : Z)
| draw_buffer (amount : Z)
| pay_from_buffer (amount : Z)
| pay_bounty (amount : Z)
| route_protocol_fee (amount : Z)
| fund_buffer (amount : Z).

(** What settle_pnl pays of a profit. *)
Definition paid (p : Pool) (pnl : Z) : Z :=
  Z.max 0 (Z.min (Z.min pnl (buffer p + total_usdc p)) (cash p - reserve p)).

Definition vaultWrites (vault : string) (p : Pool) (c : VaultCall) : list LedgerKey :=
  let bucket name := contractDataKey vault name [] in
  let paying amount keys := if amount <=? 0 then [] else keys in
  match c with
  | settle_pnl trader pnl =>
      [ bucket "TotalFees"; bucket "ShortfallReserve" ] ++
      if 0 <? pnl then
        [ bucket "BufferBalance"; bucket "TotalUsdc" ] ++
        if paid p pnl <? pnl
        then [ contractDataKey vault "ShortfallOwed" [KAddress trader]; bucket "Shortfall"; bucket "CumShortfall" ] else []
      else []
  | receive_loss a =>
      paying a [ bucket "TotalUsdc"; bucket "BufferBalance"; bucket "TotalFees"; bucket "ShortfallReserve" ]
  | draw_buffer a =>
      paying a [ bucket "BufferBalance"; bucket "TotalUsdc"; bucket "CumBadDebtCovered"; bucket "CumBadDebtLpAbsorbed" ]
  | pay_from_buffer a | pay_bounty a | route_protocol_fee a => paying a [ bucket "BufferBalance" ]
  | fund_buffer a => paying a [ bucket "ShortfallReserve"; bucket "BufferBalance" ]
  end.

(** A step of a settlement: a call of the vault; get_oracle_price with the
    freshness of the price and whether a last good one exists;
    flag_adl_on_shortfall; the stamps; the exposure of adjust_oi with
    sync_exposure, and reserve_for_position. *)
Inductive Step :=
| Vault (c : VaultCall)
| Mark (asset : string) (fresh hasLast : bool)
| Flag (asset : string) (pnl paid : Z) (active : option bool)
| PartialStamp (position : Z)
| CrossStamp (trader : string)
| Proceeds (position : Z)
| Exposure (asset : string) (release : Z)
| Reserve.

Definition writes (market vault : string) (p : Pool) (s : Step) : list LedgerKey :=
  match s with
  | Vault c => vaultWrites vault p c
  | Mark a fresh hasLast => if fresh || hasLast then [ contractDataKey market "LastGoodPrice" [KSymbol a] ] else []
  | Flag a pnl paid active =>
      if ((0 <? pnl) && (paid <? pnl) && negb (default false active)) || bool_decide (is_Some active)
      then [ contractDataKey market "AdlActive" [KSymbol a] ] else []
  | PartialStamp position => [ contractDataKey market "PartialLiqTs" [KU64 position] ]
  | CrossStamp trader => [ contractDataKey market "CrossPartialLiqTs" [KAddress trader] ]
  | Proceeds position => [ temporaryKey market "ClosedProceeds" [KU64 position] ]
  | Exposure a release =>
      [ contractDataKey market "AssetExposure" [KSymbol a]; contractDataKey vault "AssetUnrealizedPnl" [KSymbol a];
        contractDataKey vault "UnrealizedPnl" [] ] ++ (if 0 <? release then [ contractDataKey vault "ReservedPayout" [] ] else [])
  | Reserve => [ contractDataKey vault "ReservedPayout" [] ]
  end.

(** Opening pays its fees into the vault. *)
Definition opens (legs : list string) (s : Step) : Prop :=
  match s with
  | Vault (receive_loss _) | Vault (route_protocol_fee _) => True
  | Mark a _ _ => a ∈ legs
  | _ => False
  end.

(** Closing settles a profit, a loss or a debt. *)
Definition closes (legs : list string) (s : Step) : Prop :=
  match s with
  | Vault (settle_pnl _ _) | Vault (receive_loss _) | Vault (draw_buffer _) => True
  | Mark a _ _ | Flag a _ _ _ => a ∈ legs
  | _ => False
  end.

(** The steps an operation may take, on the assets and the position its hints
    name. Opening is without a position on the other side to net first. *)
Definition maySettle (o : TradeOp) (legs : list string) (position : option Z) (s : Step) : Prop :=
  match o with
  | open_ | open_cross => opens legs s
  | close_ | close_partial | close_cross => closes legs s
  | adl => closes legs s \/ (exists x, s = Vault (pay_from_buffer x))
  | execute_order =>
      match s with
      | Proceeds p => position = Some p
      | Exposure a _ => a ∈ legs
      | Reserve => True
      | _ => opens legs s \/ closes legs s
      end
  | liquidate =>
      match s with
      | Vault (receive_loss _) | Vault (draw_buffer _) | Vault (fund_buffer _) | Vault (pay_bounty _) => True
      | Mark a _ _ => a ∈ legs
      | PartialStamp p | Proceeds p => position = Some p
      | _ => False
      end
  | liquidate_cross =>
      match s with
      | Vault (fund_buffer _) | Vault (pay_bounty _) | CrossStamp _ => True
      | _ => closes legs s
      end
  | place_order | cancel_order | other => False
  end.

End Settlement.

(** The assets named by the hints; a cross liquidation's list goes first. *)
Definition hintedAssets (o : TradeOp) (opts : TxBuildOptions) : list string :=
  let one := match o_asset opts with Some a => [a] | None => [] end in
  bfilter (fun a => negb (String.eqb a EmptyString))
    (match o with liquidate_cross => default one (o_assets opts) | _ => one end).

(** ** Lemmas *)

Ltac pick := first [reflexivity | left; reflexivity | right; pick].

Definition ofSource (source : string) (k : LedgerKey) : Prop := forall t, KAddress t ∈ payload k -> t = source.

(** The vault's buckets of a settlement, whatever the call and the state. *)
Lemma vault_writes_declared v source p c k :
  k ∈ Settlement.vaultWrites v p c -> ofSource source k -> k ∈ vaultSettlementKeys v source.
Proof.
  intros Hk Hs.
  assert (k = contractDataKey v "ShortfallOwed" [KAddress source] \/ payload k = []) as [-> | Hp].
  { destruct c; cbn in Hk; repeat (case_match; cbn in Hk); rewrite ?elem_of_cons, ?elem_of_nil in Hk;
      destruct_or? Hk; subst; try done; auto.
    left. by rewrite (Hs trader0) by (by left). }
  { unfold vaultSettlementKeys. do 6 right. by left. }
  unfold vaultSettlementKeys. destruct c; cbn in Hk; repeat (case_match; cbn in Hk);
    rewrite ?elem_of_cons, ?elem_of_nil in Hk; rewrite !elem_of_cons; destruct_or? Hk; subst; try done; pick.
Qed.

(** The market's keys of an asset. *)
Lemma market_writes_declared m v p a s k :
  a <> EmptyString -> match s with Settlement.Mark a' _ _ | Settlement.Flag a' _ _ _ => a' = a | _ => False end ->
  k ∈ Settlement.writes m v p s -> k ∈ marketSettlementKeys m (Some a).
Proof.
  intros Hne Hs Hk. unfold marketSettlementKeys, named. rewrite (proj2 (String.eqb_neq a _) Hne).
  destruct s; try done; subst; cbn in Hk; case_match; rewrite ?elem_of_cons, ?elem_of_nil in Hk; rewrite !elem_of_cons;
    destruct_or? Hk; subst; try done; pick.
Qed.

Lemma open_writes_declared ctx legs s p k :
  (forall a, a ∈ legs -> a <> EmptyString /\ asset ctx = Some a) -> Settlement.opens legs s ->
  k ∈ Settlement.writes (market ctx) (vault ctx) p s -> k ∈ openKeys ctx.
Proof.
  intros Hl Hs Hk. unfold openKeys. rewrite elem_of_app.
  destruct s as [[]|a fr hl| | | | | |]; try done; cbn in Hs; [left|left|right].
  1, 2: cbn in Hk; case_match; rewrite ?elem_of_cons, ?elem_of_nil in Hk; rewrite !elem_of_cons; destruct_or? Hk; subst; try done; pick.
  destruct (Hl a Hs) as [Hne ->]. unfold marketSettlementKeys, named. rewrite (proj2 (String.eqb_neq a _) Hne).
  cbn in Hk |- *. case_match; [exact Hk|by apply elem_of_nil in Hk].
Qed.

Lemma close_writes_declared ctx legs s p k :
  (forall a, a ∈ legs -> a <> EmptyString /\ asset ctx = Some a) -> Settlement.closes legs s -> ofSource (trader ctx) k ->
  k ∈ Settlement.writes (market ctx) (vault ctx) p s -> k ∈ closeKeys ctx.
Proof.
  intros Hl Hs Hsrc Hk. unfold closeKeys. rewrite elem_of_app.
  destruct s as [c|a fr hl|a x y z| | | | |]; try done; [left; by apply (vault_writes_declared _ _ p c)|..]; right;
    destruct (Hl a Hs) as [Hne ->]; [apply (market_writes_declared _ (vault ctx) p a (Settlement.Mark a fr hl))
    |apply (market_writes_declared _ (vault ctx) p a (Settlement.Flag a x y z))]; done.
Qed.

Lemma elem_of_hinted o opts a :
  a ∈ hintedAssets o opts -> a <> EmptyString /\
  match o with
  | liquidate_cross => a ∈ default (match o_asset opts with Some a => [a] | None => [] end) (o_assets opts)
  | _ => o_asset opts = Some a
  end.
Proof.
  unfold hintedAssets. rewrite elem_of_bfilter, negb_true_iff, String.eqb_neq. intros [H1 H2]. split; [done|].
  destruct o; try done; destruct (o_asset opts); by rewrite ?list_elem_of_singleton, ?elem_of_nil in H1; subst.
Qed.

Lemma elem_of_dedupeFrom seen keys k :
  k ∈ dedupeFrom seen keys <-> k ∈ keys /\ k ∉ seen.
Proof.
  revert seen. induction keys as [|x keys IH]; intros seen; simpl; [set_solver|].
  case_bool_decide as Hx; rewrite ?elem_of_cons, IH.
  - set_solver.
  - destruct (decide (k = x)) as [->|]; set_solver.
Qed.

Lemma NoDup_dedupeFrom seen keys : NoDup (dedupeFrom seen keys).
Proof.
  revert seen. induction keys as [|x keys IH]; intros seen; simpl; [constructor|].
  case_bool_decide; [done|]. constructor; [|done]. rewrite elem_of_dedupeFrom. set_solver.
Qed.

Lemma elem_of_dedupe keys k : k ∈ dedupe keys <-> k ∈ keys.
Proof. unfold dedupe. rewrite elem_of_dedupeFrom. set_solver. Qed.

Lemma NoDup_dedupe keys : NoDup (dedupe keys).
Proof. apply NoDup_dedupeFrom. Qed.

Lemma elem_of_missing wanted rw k : k ∈ missing wanted rw <-> k ∈ wanted /\ k ∉ rw.
Proof.
  unfold missing. rewrite elem_of_bfilter, negb_true_iff, bool_decide_eq_false. done.
Qed.

Lemma elem_of_withoutKeys (wanted ro : list LedgerKey) k :
  k ∈ bfilter (fun k => negb (bool_decide (k ∈ wanted))) ro <-> k ∈ ro /\ k ∉ wanted.
Proof. apply (elem_of_missing ro wanted k). Qed.

Lemma bfilter_all {A} (p : A -> bool) l : (forall x, x ∈ l -> p x = true) -> bfilter p l = l.
Proof.
  induction l as [|x l IH]; simpl; [done|]. intros Hp. rewrite (Hp x) by left.
  f_equal. apply IH. intros y Hy. apply Hp. by right.
Qed.

Lemma length_bfilter_all {A} (p : A -> bool) l :
  (length l - length (bfilter p l) = 0)%nat -> bfilter p l = l.
Proof.
  induction l as [|x l IH]; simpl; [done|]. pose proof (length_bfilter_le p l).
  destruct (p x); simpl; intros; [f_equal; apply IH; lia | lia].
Qed.

(** A footprint the host takes: no key twice, none in both sets. *)
Record WellFormed (d : SorobanData) : Prop := {
  rw_nodup : NoDup (readWrite d);
  ro_nodup : NoDup (readOnly d);
  disjoint : forall k, k ∈ readOnly d -> k ∉ readWrite d }.

Lemma padded_wf d wanted o : NoDup wanted -> WellFormed d -> WellFormed (padded d wanted o).
Proof.
  intros Hw [Hrw Hro Hd]. split; simpl.
  - apply NoDup_app. split_and!; [done | | by apply NoDup_bfilter].
    intros k Hk. rewrite elem_of_missing. tauto.
  - by apply NoDup_bfilter.
  - intros k. rewrite elem_of_withoutKeys, elem_of_app, elem_of_missing. naive_solver.
Qed.

Section results.
Context `{FeeBuilder}.

(** Every key is already writable, and only that. *)
Definition covered (d : SorobanData) (keys : list LedgerKey) : Prop :=
  forall k, k ∈ keys -> k ∈ readWrite d /\ k ∉ readOnly d.

Lemma padFootprint_covered tx keys o d :
  sorobanData tx = Some d -> covered d keys -> padFootprint tx keys o = tx.
Proof.
  intros Hd Hcov. unfold padFootprint. rewrite Hd. destruct keys as [|k0 keys]; [done|].
  set (ks := k0 :: keys) in *.
  assert (missing (dedupe ks) (readWrite d) = []) as ->.
  { apply elem_of_nil_inv. intros k. rewrite elem_of_missing, elem_of_dedupe.
    intros [Hk Hnot]. by destruct (Hcov k Hk). }
  assert (readOnly (padded d (dedupe ks) o) = readOnly d) as ->; [|by rewrite Nat.sub_diag].
  apply bfilter_all. intros k Hk. apply negb_true_iff, bool_decide_eq_false.
  rewrite elem_of_dedupe. intros Hin. by destruct (Hcov k Hin).
Qed.

(** The data a transaction is padded to; itself when nothing was missing. *)
Lemma padFootprint_cases tx keys o d :
  sorobanData tx = Some d ->
  (padFootprint tx keys o = tx /\ covered d keys) \/
  padFootprint tx keys o = rebuild tx (perOpBase tx (resourceFee d)) (padded d (dedupe keys) o).
Proof.
  intros Hd. unfold padFootprint. rewrite Hd. destruct keys as [|k0 keys].
  { left. split; [done|]. intros k Hk. by apply not_elem_of_nil in Hk. }
  set (ks := k0 :: keys). destruct (_ && _) eqn:Hsame; [|by right]. left. split; [done|].
  apply andb_true_iff in Hsame as [Hm Hr]. apply Nat.eqb_eq, length_zero_iff_nil in Hm.
  apply Nat.eqb_eq, length_bfilter_all in Hr.
  intros k Hk. rewrite <- (elem_of_dedupe ks) in Hk. split.
  - destruct (decide (k ∈ readWrite d)) as [|Hnot]; [done|]. exfalso.
    assert (k ∈ missing (dedupe ks) (readWrite d)) as Hin by (by apply elem_of_missing).
    rewrite Hm in Hin. by apply not_elem_of_nil in Hin.
  - rewrite <- Hr, elem_of_withoutKeys. tauto.
Qed.

Lemma padded_covers d keys o : covered (padded d (dedupe keys) o) keys.
Proof.
  intros k Hk. rewrite <- elem_of_dedupe in Hk. simpl.
  rewrite elem_of_app, elem_of_missing, elem_of_withoutKeys.
  destruct (decide (k ∈ readWrite d)); tauto.
Qed.

(** What preparing a transaction does to its declared data. *)
Record Extends (keys : list LedgerKey) (d d' : SorobanData) : Prop := {
  ext_covers : covered d' keys;
  ext_rw : forall k, k ∈ readWrite d -> k ∈ readWrite d';
  ext_ro : forall k, k ∈ readOnly d -> k ∈ readOnly d' \/ k ∈ keys;
  ext_only : forall k, k ∈ readWrite d' \/ k ∈ readOnly d' ->
    k ∈ readWrite d \/ k ∈ readOnly d \/ k ∈ keys;
  ext_wf : WellFormed d -> WellFormed d' }.

Lemma padded_extends d keys o : Extends keys d (padded d (dedupe keys) o).
Proof.
  split.
  - apply padded_covers.
  - intros k. simpl. rewrite elem_of_app. tauto.
  - intros k. simpl. rewrite elem_of_withoutKeys, elem_of_dedupe.
    destruct (decide (k ∈ keys)); tauto.
  - intros k. simpl. rewrite elem_of_app, elem_of_missing, elem_of_withoutKeys, elem_of_dedupe. tauto.
  - apply padded_wf, NoDup_dedupe.
Qed.

(** The inclusion fee survives a rebuild of a transaction that pays one. *)
Lemma rebuild_inclusion tx d d' :
  operations tx = 1%nat -> resourceFee d < fee tx ->
  fee (rebuild tx (perOpBase tx (resourceFee d)) d') - resourceFee d' = fee tx - resourceFee d.
Proof.
  intros Hone Hfee. unfold rebuild, perOpBase; simpl. rewrite Hone, buildFee_adds.
  destruct (Z.ltb_spec 0 (fee tx - resourceFee d)); [|lia].
  change (Z.of_nat 1) with 1. rewrite Z.quot_1_r. lia.
Qed.

Lemma ceilMargin_bound x : 0 <= x -> 5 * x <= 4 * ceilMargin x < 5 * x + 4.
Proof.
  intros Hx. unfold ceilMargin. pose proof (Z.div_mod (5 * x + 3) 4).
  pose proof (Z.mod_pos_bound (5 * x + 3) 4). lia.
Qed.

Lemma padFootprint_extends tx keys o d :
  sorobanData tx = Some d ->
  exists d', sorobanData (padFootprint tx keys o) = Some d' /\ Extends keys d d' /\
    instructions d' = instructions d /\
    (0 <= default DEFAULT_BYTES_PER_KEY (bytesPerKey o) ->
     diskReadBytes d <= diskReadBytes d' /\ writeBytes d <= writeBytes d') /\
    (0 <= default DEFAULT_FEE_PER_KEY (feePerKeyStroops o) -> resourceFee d <= resourceFee d') /\
    operations (padFootprint tx keys o) = operations tx /\
    (operations tx = 1%nat -> resourceFee d < fee tx ->
     fee (padFootprint tx keys o) - resourceFee d' = fee tx - resourceFee d).
Proof.
  intros Hd. destruct (padFootprint_cases tx keys o d Hd) as [[-> Hcov]| ->].
  - exists d. split_and!; try done. split; try done; [by left | tauto].
  - exists (padded d (dedupe keys) o). split_and!; try done.
    + apply padded_extends.
    + intros Hb. simpl. nia.
    + intros Hf. simpl. nia.
    + by apply rebuild_inclusion.
Qed.

(** ** Properties *)

(** Padding a footprint twice is padding it once: the transaction that was
    padded for some keys is left as it is when it is padded for them again,
    with whatever options. *)
Theorem padFootprint_idempotent tx keys o o' :
  padFootprint (padFootprint tx keys o) keys o' = padFootprint tx keys o.
Proof.
  destruct (sorobanData tx) as [d|] eqn:Hd.
  - destruct (padFootprint_extends tx keys o d Hd) as (d' & Hd' & Hext & _).
    apply (padFootprint_covered _ _ _ d' Hd'), (ext_covers _ _ _ Hext).
  - assert (padFootprint tx keys o = tx) as ->; unfold padFootprint; by rewrite Hd.
Qed.

(** Every key a settlement may write is in the operation's list. *)
Lemma settlement_declared o opts m v source p s k :
  Settlement.maySettle o (hintedAssets o opts) (o_positionId opts) s ->
  k ∈ Settlement.writes m v p s -> ofSource source k ->
  k ∈ conditionalWriteKeys o {| vault := v; market := m; trader := source; asset := o_asset opts;
                                assets := o_assets opts; positionId := o_positionId opts |}.
Proof.
  intros Hs Hk Hsrc. set (ctx := Build_KeyCtx _ _ _ _ _ _). set (legs := hintedAssets o opts) in *.
  assert (o <> liquidate_cross -> forall a, a ∈ legs -> a <> EmptyString /\ asset ctx = Some a) as Hl
    by (intros Ho a [Hne Ha]%elem_of_hinted; by destruct o).
  assert (forall c, s = Settlement.Vault c -> k ∈ vaultSettlementKeys v source) as Hvault
    by (intros c ->; by eapply vault_writes_declared).
  assert (o <> liquidate_cross -> Settlement.closes legs s -> k ∈ closeKeys ctx) as Hclose
    by (intros Ho Hc; by apply (close_writes_declared ctx legs s p k (Hl Ho))).
  assert (o <> liquidate_cross -> Settlement.opens legs s -> k ∈ openKeys ctx) as Hopen
    by (intros Ho Hc; by apply (open_writes_declared ctx legs s p k (Hl Ho))).
  destruct o; cbn [Settlement.maySettle conditionalWriteKeys] in *; try done; try (by apply Hopen); try (by apply Hclose).
  - rewrite elem_of_dedupe, !elem_of_app.
    assert (Settlement.opens legs s \/ Settlement.closes legs s -> k ∈ openKeys ctx \/ k ∈ closeKeys ctx \/
      k ∈ match named (asset ctx) with Some a => [contractDataKey m "AssetExposure" [KSymbol a];
            contractDataKey v "AssetUnrealizedPnl" [KSymbol a]] | None => [] end \/
      k ∈ [contractDataKey v "UnrealizedPnl" []; contractDataKey v "ReservedPayout" []] \/
      k ∈ match positionId ctx with Some p => [temporaryKey m "ClosedProceeds" [KU64 p]] | None => [] end) as Htrade
      by (intros [Ht|Ht]; [left; by apply Hopen|right; left; by apply Hclose]).
    destruct s as [c|a fr hl|a x y z|q|t|q|a rel|]; try (by apply Htrade); cbn in Hk.
    + apply list_elem_of_singleton in Hk as ->. cbn [positionId ctx]. rewrite Hs, list_elem_of_singleton. tauto.
    + destruct (Hl ltac:(done) a Hs) as [Hne ->]. unfold named. rewrite (proj2 (String.eqb_neq a _) Hne).
      destruct (0 <? rel); rewrite ?elem_of_cons, ?elem_of_nil in Hk; rewrite !elem_of_cons; tauto.
    + rewrite !elem_of_cons. rewrite elem_of_cons in Hk. tauto.
  - rewrite elem_of_dedupe, !elem_of_app, list_elem_of_singleton.
    destruct s as [c|a fr hl| |q| |q| |]; try done; [|by left; apply Hclose|..].
    + left. unfold closeKeys. rewrite elem_of_app. left. by eapply Hvault.
    + cbn in Hk. apply list_elem_of_singleton in Hk as ->. cbn [positionId ctx]. rewrite Hs. right. right. by left.
    + cbn in Hk. apply list_elem_of_singleton in Hk as ->. cbn [positionId ctx]. rewrite Hs. right. right. right. by left.
  - rewrite elem_of_dedupe, !elem_of_app, !list_elem_of_singleton.
    assert (forall a, a ∈ legs -> k ∈ marketSettlementKeys m (Some a) ->
      k ∈ flat_map (fun a => marketSettlementKeys m (Some a)) (match o_assets opts with Some l => l
        | None => match named (o_asset opts) with Some a => [a] | None => [] end end)) as Hmarket.
    { intros a [Hne Hin]%elem_of_hinted Ha. apply list_elem_of_In, in_flat_map. exists a. split; [|by apply list_elem_of_In].
      apply list_elem_of_In. destruct (o_assets opts); [exact Hin|]. cbn in Hin. destruct (o_asset opts) as [a'|]; [|by apply elem_of_nil in Hin].
      apply list_elem_of_singleton in Hin as <-. unfold named. by rewrite (proj2 (String.eqb_neq a _) Hne), list_elem_of_singleton. }
    destruct s as [c|a fr hl|a x y z|q|t|q| |]; try done.
    + left. by eapply Hvault.
    + right. right. left. apply (Hmarket a Hs). apply (market_writes_declared m v p a (Settlement.Mark a fr hl)); [|done|done].
      by apply elem_of_hinted in Hs as [? _].
    + right. right. left. apply (Hmarket a Hs). apply (market_writes_declared m v p a (Settlement.Flag a x y z)); [|done|done].
      by apply elem_of_hinted in Hs as [? _].
    + cbn in Hk. apply list_elem_of_singleton in Hk as ->. rewrite (Hsrc t) by (by left). do 3 right. done.
  - destruct Hs as [Hs|(x & ->)]; [by apply Hclose|]. unfold closeKeys. rewrite elem_of_app. left. by eapply Hvault.
Qed.


End results.

(** The SDK's arithmetic. *)
Definition sdkFees : FeeBuilder := {|
  buildFee := fun perOp ops resource => perOp * Z.of_nat ops + resource;
  buildFee_adds := fun perOp ops resource => eq_refl |}.

Definition btcKey : LedgerKey := contractDataKey "CMKT" "LastGoodPrice" [KSymbol "BTC"].

Definition simulatedOpen : Transaction := {|
  operations := 1; fee := 50100;
  sorobanData := Some {| readOnly := [btcKey]; readWrite := [contractDataKey "CV" "TotalUsdc" []];
    instructions := 4000000; diskReadBytes := 1000; writeBytes := 800; resourceFee := 50000 |} |}.

Definition marketAndVault : TxBuildContext := {| ctx_market := Some "CMKT"%string; ctx_vault := Some "CV"%string |}.

Definition openBtc : TxBuildOptions := {|
  op := Some open_; o_trader := None; o_asset := Some "BTC"%string; o_assets := None; o_positionId := None |}.


(** An open that first nets a position on the other side settles it as a
    close does, and a payout short by then writes keys the list of opens
    leaves out. *)
Example netting_open_is_not_covered :
  let k := contractDataKey "CV" "CumShortfall" [] in
  let poor := {| Settlement.total_usdc := 0; Settlement.buffer := 0; Settlement.reserve := 0; Settlement.cash := 0 |} in
  bool_decide (k ∈ Settlement.writes "CMKT" "CV" poor (Settlement.Vault (Settlement.settle_pnl "GA" 5))) = true
  /\ bool_decide (k ∈ conditionalWriteKeys open_ {| vault := "CV"; market := "CMKT"; trader := "GA"; asset := Some "BTC"%string;
       assets := None; positionId := None |}) = false.
Proof. split; vm_compute; reflexivity. Qed.

Lemma padFootprint_idempotent_witness :
  let keys := [btcKey; btcKey; contractDataKey "CV" "BufferBalance" []] in
  let once := @padFootprint sdkFees simulatedOpen keys noOptions in
  once <> simulatedOpen /\ @padFootprint sdkFees once keys noOptions = once.
Proof.
  split; [vm_compute; discriminate|].
  apply (@padFootprint_idempotent sdkFees simulatedOpen).
Defined.
