(* ===== verification/TxSubmission.v ===== *)
(** * Submitting a signed transaction

    Models the three clients of one submission: the gateway (txSubmit.ts,
    contractErrors.ts and the reply of routes/tx.ts), the TypeScript SDK on top
    of it (the error classes of errors.ts, retry.ts and executeTrade of
    client.ts) and the web application, which talks to the RPC itself
    (submitTransaction of web/lib/stellar/client.ts, txErrors.ts, txFlow.ts),
    with the failure classes they share (footprintGuard.ts). The RPC, the
    builder and the wallet are what they answer, call by call. *)

From S2P Require Import Prelude JsText TxFootprint.
Open Scope Z_scope.
Open Scope js_scope.

(** ** Diagnostic events (contractErrors.ts) *)

(** An error value: a contract's number, or a host error with the names of its
    type and code. *)
Inductive ScError := ContractCode (code : Z) | HostError (typeName codeName : string).

(** The topics and data of an event, each an error or something else; [None]
    when reading the event throws. *)
Definition DiagnosticEvent : Type := option (list (option ScError)).
Definition Events : Type := option (list DiagnosticEvent).

Record ContractErrorInfo := { ce_code : Z; ce_name : string }.
Record HostErrorInfo := { he_type : string; he_code : string }.

Definition NOETHER_ERROR_NAMES : list (Z * string) :=
  [ (1, "NotInitialized"); (2, "AlreadyInitialized"); (3, "Unauthorized"); (4, "Paused");
    (5, "InvalidParameter"); (6, "Overflow"); (7, "DivisionByZero"); (20, "PositionNotFound");
    (21, "InvalidLeverage"); (22, "InsufficientCollateral"); (23, "PositionTooLarge");
    (24, "NotPositionOwner"); (25, "InsufficientMargin"); (30, "PriceStale");
    (31, "InvalidPrice"); (32, "OracleUnavailable"); (40, "InsufficientLiquidity");
    (41, "InvalidAmount"); (42, "InsufficientBalance"); (43, "DepositCapExceeded");
    (50, "NotLiquidatable"); (51, "LiquidationFailed"); (55, "FundingIntervalNotElapsed");
    (60, "OrderNotFound"); (61, "OrderNotPending"); (62, "OrderNotTriggered");
    (63, "SlippageExceeded"); (64, "NotOrderOwner"); (65, "InvalidTriggerPrice");
    (66, "InvalidSlippageTolerance"); (67, "OrderAlreadyExists"); (68, "InvalidLimitPrice");
    (69, "InvalidTrailingPercent"); (70, "PostOnlyViolation");
    (76, "CrossMarginInsufficientBalance"); (77, "CrossMarginInsufficientFreeMargin");
    (78, "CrossMarginNotLiquidatable"); (79, "CrossMarginNoPositions");
    (80, "CrossMarginOrderNotSupported"); (81, "PriceDeviationTooHigh");
    (82, "OpenInterestCapExceeded"); (83, "LiquidationCooldown"); (84, "AdlNotActive");
    (85, "AdlNotEligible"); (87, "AcceptablePriceExceeded"); (88, "AssetRiskNotConfigured");
    (89, "SkewCapExceeded"); (90, "Frozen"); (91, "NetsToZero"); (92, "AssetHalted");
    (93, "WithdrawCooldownActive") ].

Definition contractErrorFromCode (code : Z) : ContractErrorInfo :=
  {| ce_code := code;
     ce_name := default "UnknownContractError"%string
                  (firstSome (fun e : Z * string => if e.1 =? code then Some e.2 else None) NOETHER_ERROR_NAMES) |}.

(** The values of the events in the order they are scanned. *)
Definition scanned (events : Events) : list (option ScError) :=
  concat (default [] <$> default [] events).

Definition scErrorContractCode (v : option ScError) : option Z :=
  match v with Some (ContractCode c) => Some c | _ => None end.

Definition contractCodeFromDiagnostics (events : Events) : option Z :=
  firstSome scErrorContractCode (scanned events).

Definition findContractError (events : Events) : option ContractErrorInfo :=
  contractErrorFromCode <$> contractCodeFromDiagnostics events.

Definition isLower (c : ascii) : bool :=
  let n := Ascii.N_of_ascii c in N.leb 97 n && N.leb n 122.
Definition isUpper (c : ascii) : bool :=
  let n := Ascii.N_of_ascii c in N.leb 65 n && N.leb n 90.

(** [replace(/(<p>)([A-Z])/g, '$1_$2').toLowerCase()]: an underscore before
    every capital that follows a character of the class; [after] says whether
    the previous one was. *)
Fixpoint snake (p : ascii -> bool) (after : bool) (s : string) : string :=
  match s with
  | EmptyString => EmptyString
  | String c s =>
      let rest := String (lowerAscii c) (snake p (p c) s) in
      if after && isUpper c then String "_"%char rest else rest
  end.

(** The class of the gateway's expression, and of the web's. *)
Definition lowerOrDigit (c : ascii) : bool := isLower c || isDigit c.

Definition withoutPrefix (p s : string) : string := default s (stripPrefix p s).

Definition hostErrorNamed (p : ascii -> bool) (v : option ScError) : option HostErrorInfo :=
  match v with
  | Some (HostError t c) =>
      Some {| he_type := snake p false (withoutPrefix "sce" t);
              he_code := snake p false (withoutPrefix "scec" c) |}
  | _ => None
  end.

Definition findHostError (events : Events) : option HostErrorInfo :=
  firstSome (hostErrorNamed lowerOrDigit) (scanned events).

Definition hostErrorFromDiagnostics (events : Events) : option HostErrorInfo :=
  firstSome (hostErrorNamed isLower) (scanned events).

(** ** The failure classes (footprintGuard.ts) *)

Inductive FailureClass := stale_footprint | try_again_later | none_.

Record TxFailureFacts := {
  sendStatus : option string; txResultCode : option string; hostError : option HostErrorInfo;
  contractCode : option Z }.

Definition exceededLimit (he : option HostErrorInfo) : bool :=
  match he with
  | Some h => String.eqb (he_code h) "exceeded_limit"
              && (String.eqb (he_type h) "storage" || String.eqb (he_type h) "budget")
  | None => false
  end.

Definition classifyTxFailure (f : TxFailureFacts) : FailureClass :=
  match contractCode f with
  | Some _ => none_
  | None =>
      if match sendStatus f with Some s => String.eqb s "TRY_AGAIN_LATER" | None => false end
      then try_again_later
      else
        let code := lower (default EmptyString (txResultCode f)) in
        if String.eqb code "txsorobaninvalid" || String.eqb code "txinsufficientrefundablefee"
        then stale_footprint
        else if exceededLimit (hostError f) then stale_footprint else none_
  end.

(** ** What the RPC answers *)

Inductive SendStatus := SPending | SDuplicate | STryAgainLater | SError.

(** The outer result of a transaction, as far as it can be read. *)
Record TxResult := { tr_code : option string; tr_fee : option Z; tr_xdr : option string }.

Record SendAnswer := {
  s_status : SendStatus; s_hash : string; s_events : Events; s_result : option TxResult }.

Inductive GetAnswer :=
| GetSuccess (ledger : Z)
| GetFailed (events : Events) (result : option TxResult)
| GetNotFound.

(** One submission: [sendTransaction], then the [getTransaction] calls in
    order, with the clock before and after each. Any of them may throw. *)
Record Rpc := { send : Result SendAnswer; get : nat -> Result GetAnswer; clock : nat -> Z }.

(** ** The gateway (txSubmit.ts, routes/tx.ts) *)

Inductive TxSubmitOutcome :=
| OSuccess (hash : string) (ledger : Z)
| OPending (hash : string)
| OFailed (hash : string) (ce : option ContractErrorInfo) (he : option HostErrorInfo) (xdr : option string)
| OTryAgainLater (hash : string)
| ORejected (hash : string) (ce : option ContractErrorInfo) (he : option HostErrorInfo).

(** [poll]'s loop from its [i]-th read; [None] when [fuel] runs out. *)
Fixpoint pollFrom (fuel i : nat) (hash : string) (deadline : Z) (w : Rpc) : option (Result TxSubmitOutcome) :=
  match fuel with
  | O => None
  | S fuel =>
      match get w i with
      | inl e => Some (inl e)
      | inr (GetSuccess ledger) => Some (Ok (OSuccess hash ledger))
      | inr (GetFailed events result) =>
          Some (Ok (OFailed hash (findContractError events) (findHostError events) (result ≫= tr_xdr)))
      | inr GetNotFound =>
          if deadline <=? clock w (S i) then Some (Ok (OPending hash))
          else pollFrom fuel (S i) hash deadline w
      end
  end.

Definition submitOnGateway (fuel : nat) (pollTimeoutMs : option Z) (w : Rpc)
  : option (Result TxSubmitOutcome) :=
  match send w with
  | inl e => Some (inl e)
  | inr a =>
      match s_status a with
      | SError => Some (Ok (ORejected (s_hash a) (findContractError (s_events a)) (findHostError (s_events a))))
      | STryAgainLater => Some (Ok (OTryAgainLater (s_hash a)))
      | SPending | SDuplicate => pollFrom fuel 0 (s_hash a) (clock w 0 + default 30000 pollTimeoutMs) w
      end
  end.

Inductive SubmittedStatus := SUCCESS | FAILED | PENDING.

Record SubmittedTx := {
  hash : string; status : SubmittedStatus; ledger : option Z;
  sub_contractError : option ContractErrorInfo; sub_hostError : option HostErrorInfo;
  resultXdr : option string }.

(** A reply: the body of a 200, or the status and error code of a failure with
    its Retry-After header. *)
Inductive Reply := Replied (body : SubmittedTx) | Refused (httpStatus : Z) (error : string) (retryAfter : option Z).

Definition RETRY_AFTER_SEC : Z := 2.

Definition mapOutcome (o : TxSubmitOutcome) : Reply :=
  match o with
  | OSuccess h l => Replied {| hash := h; status := SUCCESS; ledger := Some l; sub_contractError := None;
                               sub_hostError := None; resultXdr := None |}
  | OPending h => Replied {| hash := h; status := PENDING; ledger := None; sub_contractError := None;
                             sub_hostError := None; resultXdr := None |}
  | OFailed h ce he x => Replied {| hash := h; status := FAILED; ledger := None; sub_contractError := ce;
                                    sub_hostError := he; resultXdr := x |}
  | OTryAgainLater _ => Refused 503 "try_again_later" (Some RETRY_AFTER_SEC)
  | ORejected _ _ _ => Refused 400 "submission_rejected" None
  end.

(** The handler of POST /v1/tx/submit: whatever throws is a 502. *)
Definition submitRoute (outcome : Result TxSubmitOutcome) : Reply :=
  match outcome with inr o => mapOutcome o | inl _ => Refused 502 "rpc_error" None end.

(** ** The SDK (errors.ts, retry.ts, client.ts) *)

Inductive ErrorClass :=
| AuthError | ForbiddenError | BadRequestError | NotFoundError | ConflictError | RegionRestrictedError
| RateLimitError | ServerError | ServiceUnavailableError.

Definition classifyError (httpStatus : Z) : ErrorClass :=
  if httpStatus =? 401 then AuthError
  else if httpStatus =? 403 then ForbiddenError
  else if httpStatus =? 404 then NotFoundError
  else if httpStatus =? 409 then ConflictError
  else if httpStatus =? 429 then RateLimitError
  else if httpStatus =? 451 then RegionRestrictedError
  else if httpStatus =? 503 then ServiceUnavailableError
  else if 500 <=? httpStatus then ServerError
  else BadRequestError.

Record SubmitFailureShape := {
  f_status : option SubmittedStatus; f_contractError : option Z; f_hostError : option HostErrorInfo;
  f_httpStatus : option Z }.

Definition classifySubmitFailure (f : SubmitFailureShape) : FailureClass :=
  match f_contractError f with
  | Some _ => none_
  | None =>
      if match f_httpStatus f with Some s => s =? 503 | None => false end then try_again_later
      else if match f_status f with Some FAILED => true | _ => false end && exceededLimit (f_hostError f)
      then stale_footprint else none_
  end.

(** What a call of the SDK throws: the gateway's error with its status, or
    anything else (the network, the signer). *)
Inductive SdkError := ApiFailure (cls : ErrorClass) (httpStatus : Z) (error : string) | OtherFailure (message : string).

Definition SdkResult (A : Type) : Type := (SdkError + A)%type.

(** [Transport.request] over a reply; [inl] when fetch fails. *)
Definition request (reply : Result Reply) : SdkResult SubmittedTx :=
  match reply with
  | inl e => inl (OtherFailure e)
  | inr (Replied b) => inr b
  | inr (Refused s e _) => inl (ApiFailure (classifyError s) s e)
  end.

Inductive TradeEvent := Prepared (attempt : nat) | Signed (xdr : string) | Sent (signed : string) | Slept (ms : Z).

Section sdk.
(** What the gateway's prepare, the caller's signer and the gateway's submit
    answer on the [i]-th attempt. *)
Context (prepare : nat -> SdkResult string) (signer : nat -> string -> SdkResult string)
        (submit : nat -> string -> SdkResult SubmittedTx).

(** The class of the answer of a submission. *)
Definition sdkClass (r : SdkResult SubmittedTx) : FailureClass :=
  match r with
  | inl (ApiFailure _ s _) =>
      classifySubmitFailure {| f_status := None; f_contractError := None; f_hostError := None; f_httpStatus := Some s |}
  | inl (OtherFailure _) =>
      classifySubmitFailure {| f_status := None; f_contractError := None; f_hostError := None; f_httpStatus := None |}
  | inr b =>
      classifySubmitFailure {| f_status := Some (status b); f_contractError := ce_code <$> sub_contractError b;
                               f_hostError := sub_hostError b; f_httpStatus := None |}
  end.

(** [executeTrade]'s loop: [retries] is 1 before the rebuild and 0 after it,
    or when rebuilds are turned off. *)
Fixpoint executeTrade (retries attempt : nat) : SdkResult (string * SubmittedTx) * list TradeEvent :=
  match prepare attempt with
  | inl e => (inl e, [Prepared attempt])
  | inr xdr =>
      match signer attempt xdr with
      | inl e => (inl e, [Prepared attempt; Signed xdr])
      | inr signed =>
          let done_ := [Prepared attempt; Signed xdr; Sent signed] in
          let answer := submit attempt signed in
          match retries, sdkClass answer, answer with
          | S retries, try_again_later, inl _ =>
              let (r, es) := executeTrade retries (S attempt) in (r, done_ ++ Slept 2000 :: es)
          | S retries, stale_footprint, inr _ =>
              let (r, es) := executeTrade retries (S attempt) in (r, done_ ++ es)
          | _, _, inl e => (inl e, done_)
          | _, _, inr b => (inr (xdr, b), done_)
          end
      end
  end.
End sdk.

(** ** The web application (client.ts, txErrors.ts, txFlow.ts) *)

Inductive Stage := atSend | atApply.

Record TxFailureDetails := {
  d_op : option TradeOp; stage : Stage; d_hash : string; facts : TxFailureFacts;
  feeChargedStroops : option Z }.

(** A thrown [TxFailedError], [TxStillPendingError] or any other error; the
    texts shown to the user are left out. *)
Inductive TradeError := TxFailed (d : TxFailureDetails) | TxStillPending (hash : string) | Thrown (message : string).

Definition maxAttempts : nat := 30.

(** The reads of submitTransaction, from the [i]-th: at most [remaining] more after
    it while the transaction is not found. *)
Fixpoint pollWeb (remaining i : nat) (w : Rpc) : Result GetAnswer :=
  a ← get w i;
  match remaining, a with
  | S remaining, GetNotFound => pollWeb remaining (S i) w
  | _, _ => Ok a
  end.

Definition submitTransaction (o : option TradeOp) (w : Rpc) : TradeError + Z :=
  match send w with
  | inl e => inl (Thrown e)
  | inr a =>
      match s_status a with
      | STryAgainLater =>
          inl (TxFailed {| d_op := o; stage := atSend; d_hash := s_hash a; feeChargedStroops := None;
            facts := {| sendStatus := Some "TRY_AGAIN_LATER"%string; txResultCode := None;
                        hostError := None; contractCode := None |} |})
      | SError =>
          inl (TxFailed {| d_op := o; stage := atSend; d_hash := s_hash a; feeChargedStroops := None;
            facts := {| sendStatus := Some "ERROR"%string; txResultCode := s_result a ≫= tr_code;
                        hostError := hostErrorFromDiagnostics (s_events a);
                        contractCode := contractCodeFromDiagnostics (s_events a) |} |})
      | SPending | SDuplicate =>
          match pollWeb maxAttempts 0 w with
          | inl e => inl (Thrown e)
          | inr (GetSuccess l) => inr l
          | inr (GetFailed events result) =>
              inl (TxFailed {| d_op := o; stage := atApply; d_hash := s_hash a;
                feeChargedStroops := result ≫= tr_fee;
                facts := {| sendStatus := None; txResultCode := result ≫= tr_code;
                            hostError := hostErrorFromDiagnostics events;
                            contractCode := contractCodeFromDiagnostics events |} |})
          | inr GetNotFound => inl (TxStillPending (s_hash a))
          end
      end
  end.

Definition tradeClass (e : TradeError) : FailureClass :=
  match e with TxFailed d => classifyTxFailure (facts d) | _ => none_ end.

Definition isRetryableTradeFailure (e : TradeError) : bool :=
  match tradeClass e with none_ => false | _ => true end.

Inductive TradeProgress := building | signing | submitting | retrying.

Inductive FlowEvent := Progress (p : TradeProgress) | Built (attempt : nat) | AskedWallet (xdr : string)
                     | Submitted_ (signed : string) | Paused (ms : Z).

Section flow.
Context {T : Type} (build : nat -> TradeError + string) (sign : nat -> string -> TradeError + string)
        (submit : nat -> string -> TradeError + T) (retryDelayMs : Z).

(** One pass of the loop of runTradeTx, up to the answer of the submission. *)
Definition tradeAttempt (attempt : nat) : (TradeError + (TradeError + T)) * list FlowEvent :=
  let start := [Progress (match attempt with O => building | _ => retrying end); Built attempt] in
  match build attempt with
  | inl e => (inl e, start)
  | inr xdr =>
      let asked := start ++ [Progress signing; AskedWallet xdr] in
      match sign attempt xdr with
      | inl e => (inl e, asked)
      | inr signed => (inr (submit attempt signed), asked ++ [Progress submitting; Submitted_ signed])
      end
  end.

(** [runTradeTx] with [remaining] rebuilds remaining. *)
Fixpoint runTradeTx (remaining attempt : nat) : (TradeError + T) * list FlowEvent :=
  match tradeAttempt attempt with
  | (inl e, es) => (inl e, es)
  | (inr (inr r), es) => (inr r, es)
  | (inr (inl e), es) =>
      match remaining, tradeClass e with
      | O, _ | _, none_ => (inl e, es)
      | S remaining, cls =>
          let (r, es') := runTradeTx remaining (S attempt) in
          (r, es ++ match cls with try_again_later => [Paused retryDelayMs] | _ => [] end ++ es')
      end
  end.
End flow.

(** ** Lemmas: the two snake cases agree on the classes *)

Lemma firstSome_Some {A B} (f : A -> option B) l y :
  firstSome f l = Some y -> exists x, x ∈ l /\ f x = Some y.
Proof.
  induction l as [|x l IH]; simpl; [done|]. destruct (f x) eqn:Hf.
  - intros [= ->]. exists x. split; [left | done].
  - intros H. destruct (IH H) as (z & ? & ?). exists z. split; [by right | done].
Qed.

Definition hasDigit (s : string) : bool := existsb isDigit (String.list_ascii_of_string s).

(** A digit stays in the text. *)
Lemma snake_digit p after s : hasDigit s = true -> hasDigit (snake p after s) = true.
Proof.
  unfold hasDigit. revert after. induction s as [|c s IH]; intros after; simpl; [done|].
  intros H. apply orb_true_iff in H as [H|H].
  - destruct (after && isUpper c); simpl; rewrite (lowerAscii_digit c H), H; done.
  - specialize (IH (p c) H). destruct (after && isUpper c); simpl; rewrite IH, ?orb_true_r; done.
Qed.

Lemma snake_same after s :
  hasDigit s = false -> snake lowerOrDigit after s = snake isLower after s.
Proof.
  unfold hasDigit. revert after. induction s as [|c s IH]; intros after; simpl; [done|].
  intros H. apply orb_false_iff in H as [Hc Hs].
  assert (lowerOrDigit c = isLower c) as -> by (unfold lowerOrDigit; by rewrite Hc, orb_false_r).
  by rewrite IH.
Qed.

Lemma snake_iff s t :
  hasDigit t = false -> String.eqb (snake lowerOrDigit false s) t = String.eqb (snake isLower false s) t.
Proof.
  intros Ht. destruct (hasDigit s) eqn:Hs; [|by rewrite snake_same].
  transitivity false; [|symmetry]; apply String.eqb_neq; intros Heq;
    pose proof (snake_digit lowerOrDigit false s Hs) as H1;
    pose proof (snake_digit isLower false s Hs) as H2; rewrite Heq in *; congruence.
Qed.

Lemma exceededLimit_named l :
  exceededLimit (firstSome (hostErrorNamed lowerOrDigit) l)
  = exceededLimit (firstSome (hostErrorNamed isLower) l).
Proof.
  induction l as [|[[c|t c]|] l IH]; simpl; try done. unfold exceededLimit; simpl.
  by rewrite !(snake_iff _ "exceeded_limit"), !(snake_iff _ "storage"), !(snake_iff _ "budget").
Qed.

(** ** Lemmas: polling *)

(** The first [n] reads found nothing. *)
Definition notFoundBefore (w : Rpc) (i n : nat) : Prop :=
  forall j, (i <= j < i + n)%nat -> get w j = Ok GetNotFound.

Lemma notFoundBefore_S w i n :
  get w i = Ok GetNotFound -> notFoundBefore w (S i) n -> notFoundBefore w i (S n).
Proof.
  intros H0 H j Hj. destruct (decide (j = i)) as [->|]; [done|]. apply H. lia.
Qed.

Lemma pollWeb_read remaining i w :
  exists n, (n <= remaining)%nat /\ notFoundBefore w i n /\ pollWeb remaining i w = get w (i + n).
Proof.
  revert i. induction remaining as [|remaining IH]; intros i; simpl;
    destruct (get w i) as [e|[l|ev r|]] eqn:Hg; simpl;
    try (exists 0%nat; rewrite Nat.add_0_r; split_and!; [lia | intros j Hj; lia | by rewrite Hg]).
  destruct (IH (S i)) as (n & Hn & Hnf & ->). exists (S n). split_and!; [lia | | f_equal; lia].
  by apply notFoundBefore_S.
Qed.

(** What the gateway makes of a read. *)
Definition readOutcome (hash : string) (a : Result GetAnswer) : Result TxSubmitOutcome :=
  match a with
  | inl e => inl e
  | inr (GetSuccess l) => Ok (OSuccess hash l)
  | inr (GetFailed ev r) => Ok (OFailed hash (findContractError ev) (findHostError ev) (r ≫= tr_xdr))
  | inr GetNotFound => Ok (OPending hash)
  end.

(** The poll ends with its [n]-th read, the first that found something or the
    one after which the deadline had passed. *)
Definition settledBy (w : Rpc) (hash : string) (deadline : Z) (n : nat) (o : Result TxSubmitOutcome) : Prop :=
  o = readOutcome hash (get w n) /\ (get w n = Ok GetNotFound -> deadline <= clock w (S n)).

(** The clock moves a second at least between two reads. *)
Definition steady (w : Rpc) : Prop :=
  clock w 0 <= clock w 1 /\ forall i, clock w (S i) + 1000 <= clock w (S (S i)).

Lemma pollFrom_settles w h deadline fuel i :
  (forall j, clock w (S j) + 1000 <= clock w (S (S j))) ->
  deadline < clock w (S i) + 1000 * Z.of_nat fuel ->
  exists n o, pollFrom (S fuel) i h deadline w = Some o /\ (n <= fuel)%nat /\
    notFoundBefore w i n /\ settledBy w h deadline (i + n) o.
Proof.
  intros Hclock. revert i. induction fuel as [|fuel IH]; intros i Hd.
  - exists 0%nat. unfold settledBy. rewrite Nat.add_0_r. simpl.
    destruct (get w i) as [e|[l|ev r|]]; [eexists; split_and!; try done; intros j Hj; lia..|].
    destruct (Z.leb_spec deadline (clock w (S i))); [|lia].
    eexists; split_and!; try done. intros j Hj; lia.
  - remember (S fuel) as f eqn:Hf. simpl.
    destruct (get w i) as [e|[l|ev r|]] eqn:Hg;
      try (exists 0%nat; unfold settledBy; rewrite Nat.add_0_r, Hg; eexists;
           split_and!; [done | lia | intros j Hj; lia | done | done]).
    destruct (Z.leb_spec deadline (clock w (S i))).
    { exists 0%nat. unfold settledBy. rewrite Nat.add_0_r, Hg. eexists.
      split_and!; [done | lia | intros j Hj; lia | done | done]. }
    subst f. destruct (IH (S i)) as (n & o & Ho & Hn & Hnf & Hs); [specialize (Hclock i); lia|].
    exists (S n), o. split_and!; [exact Ho | lia | by apply notFoundBefore_S |].
    by rewrite <- Nat.add_succ_comm.
Qed.

(** ** Lemmas: what a rebuild followed *)

(** The RPC said of a submission that it will not be applied: it was not taken,
    it was refused, or it was found failed. *)
Definition refuted (w : Rpc) : Prop :=
  exists a, send w = Ok a /\
    (s_status a = STryAgainLater \/ s_status a = SError \/
     exists n ev r, notFoundBefore w 0 n /\ get w n = Ok (GetFailed ev r)
       /\ contractCodeFromDiagnostics ev = None).

Lemma submitTransaction_success o w l :
  submitTransaction o w = inr l ->
  exists n, notFoundBefore w 0 n /\ get w n = Ok (GetSuccess l).
Proof.
  unfold submitTransaction. destruct (send w) as [|a]; [done|].
  destruct (pollWeb_read maxAttempts 0 w) as (n & _ & Hnf & Heq).
  destruct (s_status a); try done; rewrite Heq; simpl; destruct (get w n) as [|[]] eqn:Hg;
    intros ?; simplify_eq; eauto.
Qed.

Lemma submitTransaction_retryable o w e :
  submitTransaction o w = inl e -> isRetryableTradeFailure e = true -> refuted w.
Proof.
  unfold submitTransaction. destruct (send w) as [m|a] eqn:Hs; [intros; by simplify_eq/=|].
  destruct (pollWeb_read maxAttempts 0 w) as (n & _ & Hnf & Heq).
  intros H Hr. exists a. split; [done|].
  destruct (s_status a) eqn:Ha; [ | | by left | by right; left]; right; right;
    rewrite Heq in H; simpl in H; destruct (get w n) as [|[|ev r|]] eqn:Hg; simplify_eq/=;
    try done; exists n, ev, r; split_and!; try done;
    unfold isRetryableTradeFailure, tradeClass, classifyTxFailure in Hr; simpl in Hr;
    destruct (contractCodeFromDiagnostics ev); done.
Qed.

(** The submissions of a run of the flow. *)
Definition submissions (es : list FlowEvent) : nat :=
  length (bfilter (fun e => match e with Submitted_ _ => true | _ => false end) es).

Lemma submissions_app es es' : submissions (es ++ es') = (submissions es + submissions es')%nat.
Proof. unfold submissions. by rewrite bfilter_app, length_app. Qed.

Section flow_lemmas.
Context {T : Type} (build : nat -> TradeError + string) (sign : nat -> string -> TradeError + string)
        (submit : nat -> string -> TradeError + T) (retryDelayMs : Z).

Lemma tradeAttempt_submissions i r es :
  tradeAttempt build sign submit i = (r, es) ->
  submissions es = match r with inl _ => 0%nat | inr _ => 1%nat end.
Proof.
  unfold tradeAttempt. destruct (build i); [intros; by simplify_eq|].
  destruct (sign i _); intros; simplify_eq; done.
Qed.

(** The passes of a run: each but the last submitted and failed retryably. *)
Lemma runTradeTx_passes remaining a :
  exists n, (n <= remaining)%nat /\
    (forall i, (a <= i < a + n)%nat -> exists e,
       (tradeAttempt build sign submit i).1 = inr (inl e) /\ isRetryableTradeFailure e = true) /\
    (runTradeTx build sign submit retryDelayMs remaining a).1
      = match (tradeAttempt build sign submit (a + n)).1 with inl e => inl e | inr r => r end /\
    (forall e, (tradeAttempt build sign submit (a + n)).1 = inr (inl e) ->
       n = remaining \/ isRetryableTradeFailure e = false) /\
    (submissions (runTradeTx build sign submit retryDelayMs remaining a).2 <= S n)%nat.
Proof.
  revert a. induction remaining as [|remaining IH]; intros a; simpl;
    destruct (tradeAttempt build sign submit a) as [r es] eqn:Ha;
    pose proof (tradeAttempt_submissions _ _ _ Ha) as Hc.
  - exists 0%nat. rewrite Nat.add_0_r, Ha. split_and!; [done | intros; lia | | by left |].
    + by destruct r as [|[e|]].
    + destruct r as [|[e|]]; simpl; lia.
  - destruct r as [e|[e|t]].
    + exists 0%nat. rewrite Nat.add_0_r, Ha. split_and!; [lia | intros; lia | done | done | simpl; lia].
    + destruct (tradeClass e) eqn:Hcls.
      3: { exists 0%nat. rewrite Nat.add_0_r, Ha. split_and!; [lia | intros; lia | done | | simpl; lia].
           intros e' He'. simplify_eq/=. right. unfold isRetryableTradeFailure. by rewrite Hcls. }
      all: destruct (IH (S a)) as (n & Hn & Hpre & Hres & Hlast & Hsub); exists (S n);
        destruct (runTradeTx build sign submit retryDelayMs remaining (S a)) as [r' es'];
        rewrite <- Nat.add_succ_comm; split_and!; [lia | | done | | ].
      all: try (intros i Hi; destruct (decide (i = a)) as [->|];
                [rewrite Ha; exists e; split; [done|]; unfold isRetryableTradeFailure; by rewrite Hcls
                | apply Hpre; lia]).
      all: try (intros e' He'; destruct (Hlast e' He'); [left; lia | by right]).
      all: simpl in *; rewrite ?submissions_app; unfold submissions in *; simpl in *; lia.
    + exists 0%nat. rewrite Nat.add_0_r, Ha. split_and!; [lia | intros; lia | done | done | simpl; lia].
Qed.

End flow_lemmas.

Lemma hasPrefix_poll w h deadline fuel i o :
  pollFrom fuel i h deadline w = Some o ->
  exists n, notFoundBefore w i n /\ settledBy w h deadline (i + n) o.
Proof.
  revert i. induction fuel as [|fuel IH]; intros i; simpl; [done|].
  destruct (get w i) as [e|[l|ev r|]] eqn:Hg;
    try (intros [= <-]; exists 0%nat; unfold settledBy; rewrite Nat.add_0_r, Hg;
         split; [intros j Hj; lia | done]).
  destruct (Z.leb_spec deadline (clock w (S i))).
  - intros [= <-]. exists 0%nat. unfold settledBy. rewrite Nat.add_0_r, Hg.
    split; [intros j Hj; lia | done].
  - intros Ho. destruct (IH (S i) Ho) as (n & Hnf & Hs). exists (S n).
    split; [by apply notFoundBefore_S | by rewrite <- Nat.add_succ_comm].
Qed.

(** What the gateway's replies to the SDK stand for. *)
Lemma gateway_retryable fuel t w o :
  submitOnGateway fuel t w = Some o ->
  (match request (Ok (submitRoute o)) with
   | inl e => sdkClass (inl e) = try_again_later
   | inr b => sdkClass (inr b) = stale_footprint
   end) -> refuted w.
Proof.
  unfold submitOnGateway. destruct (send w) as [m|a] eqn:Hs; [intros; by simplify_eq/=|].
  intros Ho Hr. exists a. split; [done|].
  destruct (s_status a) eqn:Ha; simplify_eq/=; [ | | by left]; right; right;
    apply hasPrefix_poll in Ho as (n & Hnf & -> & _); simpl in Hr;
    destruct (get w n) as [m|[l|ev r|]] eqn:Hg; simpl in Hr; try done;
    exists n, ev, r; split_and!; try done; unfold findContractError in Hr;
    destruct (contractCodeFromDiagnostics ev); done.
Qed.

Section sdk_lemmas.
Context (prepare : nat -> SdkResult string) (signer : nat -> string -> SdkResult string)
        (submit : nat -> string -> SdkResult SubmittedTx).

Definition sends (es : list TradeEvent) : nat :=
  length (bfilter (fun e => match e with Sent _ => true | _ => false end) es).

(** A submission the SDK rebuilds after. *)
Definition rebuilt (r : SdkResult SubmittedTx) : Prop :=
  match r with inl _ => sdkClass r = try_again_later | inr _ => sdkClass r = stale_footprint end.

Lemma executeTrade_passes retries a :
  exists n, (n <= retries)%nat /\
    (forall i, (a <= i < a + n)%nat -> exists s, rebuilt (submit i s)) /\
    (forall xdr b, (executeTrade prepare signer submit retries a).1 = inr (xdr, b) ->
       exists s, submit (a + n)%nat s = inr b) /\
    (sends (executeTrade prepare signer submit retries a).2 <= S n)%nat.
Proof.
  revert a. induction retries as [|retries IH]; intros a; simpl;
    (destruct (prepare a) as [e|xdr]; [exists 0%nat; split_and!; [lia | intros; lia | done | unfold sends; simpl; lia]|]);
    (destruct (signer a xdr) as [e|s]; [exists 0%nat; split_and!; [lia | intros; lia | done | unfold sends; simpl; lia]|]);
    destruct (submit a s) as [e|b] eqn:Hsub.
  1, 2: exists 0%nat; rewrite Nat.add_0_r; split_and!; [done | intros; lia | | unfold sends; simpl; lia];
    simpl; intros; simplify_eq; by exists s.
  all: match goal with |- context [sdkClass ?r] => destruct (sdkClass r) eqn:Hcls end.
  2, 4: destruct (IH (S a)) as (n & Hn & Hpre & Hres & Hsent); exists (S n);
    destruct (executeTrade prepare signer submit retries (S a)) as [r' es'];
    rewrite <- Nat.add_succ_comm; split_and!; [lia | | done | unfold sends in *; simpl in *; lia];
    intros i Hi; destruct (decide (i = a)) as [->|]; [exists s; by rewrite Hsub | apply Hpre; lia].
  all: exists 0%nat; rewrite Nat.add_0_r; split_and!; [lia | intros; lia | | unfold sends; simpl; lia];
    simpl; intros; simplify_eq; by exists s.
Qed.
End sdk_lemmas.

(** ** Properties *)

(** C9. The web application never rebuilds a trade in doubt: whatever the
    builder, the wallet and the RPC answer, each submission but the last of a
    trade was not taken by the RPC, refused, or found failed on chain without a
    contract error. There are at most one more than the allowed rebuilds, and
    a trade reported successful was found applied by its last submission. *)
Theorem web_never_rebuilds_in_doubt o rpc build sign delay maxRetries :
  let run := runTradeTx build sign (fun i _ => submitTransaction o (rpc i)) delay maxRetries 0 in
  exists n, (n <= maxRetries)%nat /\ (submissions run.2 <= S n)%nat /\
    (forall i, (i < n)%nat -> refuted (rpc i)) /\
    (forall l, run.1 = inr l ->
       exists k, notFoundBefore (rpc n) 0 k /\ get (rpc n) k = Ok (GetSuccess l)).
Proof.
  destruct (runTradeTx_passes build sign (fun i _ => submitTransaction o (rpc i)) delay maxRetries 0)
    as (n & Hn & Hpre & Hres & _ & Hsub).
  exists n. split_and!; [done | done | |].
  - intros i Hi. destruct (Hpre i ltac:(lia)) as (e & He & Hr).
    unfold tradeAttempt in He. destruct (build i); [done|]. destruct (sign i _); [done|].
    simplify_eq/=. by eapply submitTransaction_retryable.
  - intros l Hl. rewrite Hres in Hl. simpl in Hl. unfold tradeAttempt in Hl.
    destruct (build n); [done|]. destruct (sign n _); [done|]. eapply submitTransaction_success; exact Hl.
Qed.

(** The same of the SDK behind the gateway: a one-shot trade is rebuilt at
    most once, and only after a submission the RPC did not take or found failed;
    a trade reported SUCCESS was found applied by the last submission. *)
Theorem sdk_never_rebuilds_in_doubt rpc outcome fuel t prepare signer (retry : bool) :
  (forall i, submitOnGateway fuel t (rpc i) = Some (outcome i)) ->
  let run := executeTrade prepare signer (fun i _ => request (Ok (submitRoute (outcome i))))
               (if retry then 1 else 0) 0 in
  exists n, (n <= 1)%nat /\ (sends run.2 <= S n)%nat /\
    (forall i, (i < n)%nat -> refuted (rpc i)) /\
    (forall xdr b, run.1 = inr (xdr, b) -> status b = SUCCESS ->
       exists k l, notFoundBefore (rpc n) 0 k /\ get (rpc n) k = Ok (GetSuccess l)).
Proof.
  intros Hgw run.
  destruct (executeTrade_passes prepare signer (fun i _ => request (Ok (submitRoute (outcome i))))
    (if retry then 1 else 0) 0) as (n & Hn & Hpre & Hres & Hsent).
  exists n. split_and!; [destruct retry; lia | done | |].
  - intros i Hi. destruct (Hpre i ltac:(lia)) as [_ Hr]. apply (gateway_retryable fuel t _ _ (Hgw i)).
    unfold rebuilt in Hr. cbn beta in Hr. destruct (request (Ok (submitRoute (outcome i)))); exact Hr.
  - intros xdr b Hb Hok. destruct (Hres xdr b Hb) as [_ Hr]. simpl in Hr. clear -Hgw Hr Hok.
    specialize (Hgw n). unfold submitOnGateway in Hgw.
    remember (outcome n) as out eqn:Hout. clear Hout.
    destruct (send (rpc n)) as [m|a]; [by simplify_eq/=|].
    destruct (s_status a); simplify_eq/=; [| |done..];
      apply hasPrefix_poll in Hgw as (k & Hnf & -> & _); simpl in Hr;
      destruct (get (rpc n) k) as [m|[l|ev r|]] eqn:Hg; simplify_eq/=; eauto.
Qed.

(** A submission through the gateway always settles, within a read per
    second of the timeout and two more, and as the chain says: the outcome is
    that of the first read that found the transaction, [pending] only when the
    deadline passed with every read finding nothing, and a duplicate is
    answered as a first submission is. *)
Theorem gateway_submission_settles w t :
  steady w -> 0 <= default 30000 t ->
  exists o, submitOnGateway (S (Z.to_nat (default 30000 t / 1000 + 1))) t w = Some o /\
    match send w with
    | inl e => o = inl e
    | inr a =>
        match s_status a with
        | STryAgainLater => o = Ok (OTryAgainLater (s_hash a))
        | SError => exists ce he, o = Ok (ORejected (s_hash a) ce he)
        | _ => exists n, Z.of_nat n <= default 30000 t / 1000 + 1 /\ notFoundBefore w 0 n /\
                 settledBy w (s_hash a) (clock w 0 + default 30000 t) n o
        end
    end.
Proof.
  intros [H0 Hclock] Ht. unfold submitOnGateway. destruct (send w) as [m|a]; [by eexists|].
  pose proof (Z.div_mod (default 30000 t) 1000). pose proof (Z.mod_pos_bound (default 30000 t) 1000).
  pose proof (Z.div_pos (default 30000 t) 1000 Ht).
  destruct (pollFrom_settles w (s_hash a) (clock w 0 + default 30000 t)
    (Z.to_nat (default 30000 t / 1000 + 1)) 0 Hclock ltac:(lia)) as (n & o & Ho & Hn & Hnf & Hs).
  destruct (s_status a); [exists o | exists o | eexists | eexists]; (split; [done|]); eauto.
  - exists n. split_and!; [lia | done | done].
  - exists n. split_and!; [lia | done | done].
Qed.

(** The SDK classifies what the gateway reports as the web application
    classifies what the RPC told it: the same class for a transaction found
    failed, unless its outer result is one of the two the gateway's reply has
    no field for, and for a full queue; a refused submission is never worth a
    rebuild to the SDK. *)
Theorem sdk_class_mirrors_web o w e fuel t out :
  submitTransaction o w = inl (TxFailed e) -> submitOnGateway fuel t w = Some out ->
  (forall k, notFoundBefore w 0 (S k) -> clock w (S k) < clock w 0 + default 30000 t) ->
  sendStatus (facts e) <> Some "ERROR"%string ->
  (forall c, txResultCode (facts e) = Some c ->
     lower c <> "txsorobaninvalid"%string /\ lower c <> "txinsufficientrefundablefee"%string) ->
  sdkClass (request (Ok (submitRoute out))) = tradeClass (TxFailed e).
Proof.
  intros Hweb Hgw Hdl Hne Hcode. unfold submitTransaction in Hweb. unfold submitOnGateway in Hgw.
  destruct (send w) as [m|a]; [done|].
  destruct (pollWeb_read maxAttempts 0 w) as (n & Hn & Hnf & Heq).
  destruct (s_status a); simplify_eq/=; try done; rewrite Heq in Hweb; simpl in Hweb;
    destruct (get w n) as [m|[l|ev r|]] eqn:Hg; simplify_eq/=;
    apply hasPrefix_poll in Hgw as (k & Hnf' & -> & Hlate); simpl in Hlate |- *.
  all: assert (k = n) as ->.
  1, 3: destruct (Nat.lt_trichotomy k n) as [Hlt|[->|Hlt]]; [|done|];
    [specialize (Hlate (Hnf k ltac:(lia)));
     specialize (Hdl k ltac:(intros j Hj; apply Hnf; lia)); lia
    | specialize (Hnf' n ltac:(lia)); unfold Ok in Hnf'; congruence].
  all: rewrite Hg; unfold tradeClass, classifyTxFailure; simpl;
    unfold findContractError, findHostError, hostErrorFromDiagnostics, sdkClass, classifySubmitFailure; simpl;
    destruct (contractCodeFromDiagnostics ev); simpl; [done|];
    rewrite exceededLimit_named; destruct (r ≫= tr_code) as [c|] eqn:Hc; simpl; [|done];
    destruct (Hcode c eq_refl) as [H1 H2]; simpl;
    apply String.eqb_neq in H1, H2; by rewrite H1, H2.
Qed.

(** A contract trap of a frozen footprint, found at the second read. *)
Definition storageTrap : Events :=
  Some [Some [None; Some (HostError "sceStorage" "scecExceededLimit")]].

Definition trappedRpc : Rpc := {|
  send := Ok {| s_status := SPending; s_hash := "aa"; s_events := None; s_result := None |};
  get := fun i => Ok (match i with O => GetNotFound
    | _ => GetFailed storageTrap (Some {| tr_code := Some "txFailed"%string; tr_fee := Some 9000; tr_xdr := None |}) end);
  clock := fun i => 1000 * Z.of_nat i |}.

Definition appliedRpc : Rpc := {|
  send := Ok {| s_status := SPending; s_hash := "bb"; s_events := None; s_result := None |};
  get := fun _ => Ok (GetSuccess 77); clock := fun i => 1000 * Z.of_nat i |}.

(** The first build is trapped, the second applied. *)
Definition secondTime (i : nat) : Rpc := match i with O => trappedRpc | _ => appliedRpc end.

Definition outcomeOf (w : Rpc) : Result TxSubmitOutcome :=
  default (Err "unsettled") (submitOnGateway 40 None w).

Lemma sdk_never_rebuilds_in_doubt_witness :
  let run := executeTrade (fun _ => inr "xdr"%string) (fun _ x => inr x)
    (fun i _ => request (Ok (submitRoute (outcomeOf (secondTime i))))) 1 0 in
  sends run.2 = 2%nat /\
  exists n, (n <= 1)%nat /\ (sends run.2 <= S n)%nat /\
    (forall i, (i < n)%nat -> refuted (secondTime i)) /\
    (forall xdr b, run.1 = inr (xdr, b) -> status b = SUCCESS ->
       exists k l, notFoundBefore (secondTime n) 0 k /\ get (secondTime n) k = Ok (GetSuccess l)).
Proof.
  split; [vm_compute; reflexivity|].
  apply (sdk_never_rebuilds_in_doubt secondTime (fun i => outcomeOf (secondTime i)) 40 None
    (fun _ => inr "xdr"%string) (fun _ x => inr x) true).
  intros [|i]; vm_compute; reflexivity.
Defined.

Lemma gateway_submission_settles_witness :
  exists o, submitOnGateway 32 None trappedRpc = Some o /\
    exists n, Z.of_nat n <= 31 /\ notFoundBefore trappedRpc 0 n /\ settledBy trappedRpc "aa" 30000 n o.
Proof.
  destruct (gateway_submission_settles trappedRpc None) as (o & Ho & Hs).
  - split; [simpl; lia | intros i; simpl; lia].
  - simpl. lia.
  - exists o. split; [exact Ho | exact Hs].
Defined.

Lemma sdk_class_mirrors_web_witness :
  exists e out, submitTransaction None trappedRpc = inl (TxFailed e)
    /\ submitOnGateway 40 None trappedRpc = Some out
    /\ tradeClass (TxFailed e) = stale_footprint
    /\ sdkClass (request (Ok (submitRoute out))) = tradeClass (TxFailed e).
Proof.
  eexists. eexists. split; [vm_compute; reflexivity|]. split; [vm_compute; reflexivity|].
  split; [vm_compute; reflexivity|].
  apply (sdk_class_mirrors_web None trappedRpc _ 40 None _); [vm_compute; reflexivity | vm_compute; reflexivity | | |].
  - intros [|k] Hk; [reflexivity|]. specialize (Hk 1%nat ltac:(lia)). discriminate Hk.
  - discriminate.
  - intros c Hc. injection Hc as <-. split; vm_compute; discriminate.
Defined.

(** A stale footprint caught when the transaction is sent: the web application
    rebuilds, the SDK is told the submission was rejected and gives up. *)
Example rejected_not_rebuilt_by_sdk :
  let w := {| send := Ok {| s_status := SError; s_hash := "cc"; s_events := None;
                s_result := Some {| tr_code := Some "txSorobanInvalid"%string; tr_fee := None; tr_xdr := None |} |};
              get := fun _ => Ok GetNotFound; clock := fun i => 1000 * Z.of_nat i |} in
  (exists e, submitTransaction None w = inl e /\ tradeClass e = stale_footprint)
  /\ sdkClass (request (Ok (submitRoute (outcomeOf w)))) = none_.
Proof. split; [eexists; split; vm_compute; reflexivity | vm_compute; reflexivity]. Qed.
