(* ===== verification/ApiSockets.v ===== *)
(** * The gateway's WebSocket surface

    Models api/src/services/wsManager.ts and the socket handlers of
    api/src/plugins/ws.ts. Connection objects live in a store, because the
    handlers keep them after the manager has let them go. A login waits for a
    database lookup, so its end is an event of its own and others may come in
    between. Socket writes are outputs; the manager's timers and logs are left
    out. *)

From S2P Require Import Prelude JsText.
Open Scope Z_scope.
Open Scope js_scope.

(** ** packages/shared/src/assets.ts *)

Definition SUPPORTED_ASSET_SYMBOLS : list string :=
  ["BTC"; "ETH"; "XLM"; "SOL"; "XRP"; "ADA"; "BNB"; "TRX"; "HYPE"; "DOGE"; "ZEC"; "LINK"; "BCH";
   "LTC"].

Definition isSupportedAsset (symbol : string) : bool :=
  existsb (String.eqb symbol) SUPPORTED_ASSET_SYMBOLS.

(** ** Connections *)

Inductive KeyTier := standard | market_maker.

Record User := { keyId : string; owner : string; tier : KeyTier }.

Record WsConnection := {
  ip : string; isAlive : bool; subscriptions : gset string; user : option User }.

Record WsManagerOptions := {
  maxConnections : Z; maxPerIp : Z; msgRate : Z; maxBufferedBytes : Z; maxFailedLogins : Z }.

Definition DEFAULTS : WsManagerOptions := {|
  maxConnections := 1000; maxPerIp := 20; msgRate := 20; maxBufferedBytes := 1048576;
  maxFailedLogins := 5 |}.

Record RateState := { tokens : number; last : Z }.

(** [objs] holds every connection object made; [connections] is the manager's
    map in insertion order; [pendingLogins] the lookups still running. *)
Record Gateway := {
  objs : gmap string WsConnection; connections : list string; perIp : gmap string Z;
  rate : gmap string RateState; failedLogins : gmap string Z; pendingLogins : list string }.

Definition freshGateway : Gateway := {|
  objs := ∅; connections := []; perIp := ∅; rate := ∅; failedLogins := ∅; pendingLogins := [] |}.

Inductive ServerMsg :=
| Hello | Pong | Subscribed (channels : list string) | Unsubscribed (channels : list string)
| Rejected (channels : list string) | LoginOk (owner : string) (tier : KeyTier)
| LoginFailed (error : string) | ErrorMsg (error : string).

Inductive Out :=
| Send (id : string) (m : ServerMsg)
| SendRaw (id channel payload : string)
| Ping (id : string)
| Close (id : string) (code : Z)
| Terminate (id : string)
| UnhandledRejection (reason : string).

Definition setObjs (f : gmap string WsConnection -> gmap string WsConnection) (g : Gateway)
  : Gateway := {|
  objs := f (objs g); connections := connections g; perIp := perIp g; rate := rate g;
  failedLogins := failedLogins g; pendingLogins := pendingLogins g |}.
Definition setFailed (f : gmap string Z -> gmap string Z) (g : Gateway) : Gateway := {|
  objs := objs g; connections := connections g; perIp := perIp g; rate := rate g;
  failedLogins := f (failedLogins g); pendingLogins := pendingLogins g |}.
Definition setPending (l : list string) (g : Gateway) : Gateway := {|
  objs := objs g; connections := connections g; perIp := perIp g; rate := rate g;
  failedLogins := failedLogins g; pendingLogins := l |}.
Definition setRate (f : gmap string RateState -> gmap string RateState) (g : Gateway) : Gateway := {|
  objs := objs g; connections := connections g; perIp := perIp g; rate := f (rate g);
  failedLogins := failedLogins g; pendingLogins := pendingLogins g |}.

Definition setAlive (b : bool) (c : WsConnection) : WsConnection := {|
  ip := ip c; isAlive := b; subscriptions := subscriptions c; user := user c |}.
Definition setSubscriptions (f : gset string -> gset string) (c : WsConnection) : WsConnection := {|
  ip := ip c; isAlive := isAlive c; subscriptions := f (subscriptions c); user := user c |}.
Definition setUserOf (u : User) (c : WsConnection) : WsConnection := {|
  ip := ip c; isAlive := isAlive c; subscriptions := subscriptions c; user := Some u |}.

(** [this.connections.get(id)] *)
Definition connection (g : Gateway) (id : string) : option WsConnection :=
  if bool_decide (id ∈ connections g) then objs g !! id else None.

Section gateway.
Context (opts : WsManagerOptions).

(** ** The manager *)

Inductive RegisterResult := Registered | Refused (code : Z) (reason : string).

Definition register (id : string) (addr : string) (now : Z) (g : Gateway)
  : RegisterResult * Gateway :=
  if maxConnections opts <=? Z.of_nat (length (connections g)) then (Refused 1013 "server_full", g)
  else
    let ipCount := default 0 (perIp g !! addr) in
    if maxPerIp opts <=? ipCount then (Refused 1013 "too_many_connections", g)
    else (Registered, {|
      objs := objs g;
      connections := connections g ++ [id]; perIp := <[addr := ipCount + 1]> (perIp g);
      rate := <[id := {| tokens := numberOfZ (msgRate opts); last := now |}]> (rate g);
      failedLogins := failedLogins g; pendingLogins := pendingLogins g |}).

Definition unregister (id : string) (g : Gateway) : Gateway :=
  match connection g id with
  | None => g
  | Some conn =>
      let ipCount := default 0 (perIp g !! ip conn) in
      {| objs := objs g;
         connections := bfilter (fun j => negb (String.eqb j id)) (connections g);
         perIp := if ipCount <=? 1 then delete (ip conn) (perIp g)
                  else <[ip conn := ipCount - 1]> (perIp g);
         rate := delete id (rate g);
         failedLogins := failedLogins g; pendingLogins := pendingLogins g |}
  end.

Definition allowMessage (id : string) (now : Z) (g : Gateway) : bool * Gateway * list Out :=
  match connection g id, rate g !! id with
  | Some _, Some state =>
      let r := numberOfZ (msgRate opts) in
      let refilled :=
        minN r (addN (tokens state) (mulN (divN (numberOfZ (now - last state)) (numberOfZ 1000)) r)) in
      if ltN refilled (numberOfZ 1) then
        (false, unregister id (setRate <[id := {| tokens := refilled; last := now |}]> g),
         [Send id (ErrorMsg "rate_limited"); Close id 1013])
      else (true, setRate <[id := {| tokens := subN refilled (numberOfZ 1); last := now |}]> g, [])
  | _, _ => (false, g, [])
  end.

Definition ACCOUNT_PREFIX : string := "account.events.".

Definition canSubscribe (conn : WsConnection) (channel : string) : bool :=
  if String.eqb channel "events" then true
  else match stripPrefix "ticker." channel with
  | Some asset => isSupportedAsset asset
  | None =>
      match stripPrefix "trades." channel with
      | Some asset => isSupportedAsset asset
      | None =>
          match stripPrefix ACCOUNT_PREFIX channel, user conn with
          | Some ownerInChannel, Some u => String.eqb ownerInChannel (owner u)
          | _, _ => false
          end
      end
  end.

(** Returns the rejected channels; [None] for a connection that is gone. *)
Definition subscribe (id : string) (channels : list string) (g : Gateway)
  : option (list string) * Gateway :=
  match connection g id with
  | None => (None, g)
  | Some conn =>
      let accepted := bfilter (canSubscribe conn) channels in
      (Some (bfilter (fun ch => negb (canSubscribe conn ch)) channels),
       setObjs <[id := setSubscriptions (fun s => s ∪ list_to_set accepted) conn]> g)
  end.

Definition unsubscribe (id : string) (channels : list string) (g : Gateway) : Gateway :=
  match connection g id with
  | None => g
  | Some conn =>
      setObjs <[id := setSubscriptions (fun s => s ∖ list_to_set channels) conn]> g
  end.

Definition setUser (id : string) (u : User) (g : Gateway) : Gateway :=
  match connection g id with
  | None => g
  | Some conn => setObjs <[id := setUserOf u conn]> g
  end.

Fixpoint pingEach (ids : list string) (g : Gateway) : Gateway * list Out :=
  match ids with
  | [] => (g, [])
  | id :: ids =>
      match objs g !! id with
      | None => pingEach ids g
      | Some conn =>
          if isAlive conn then
            let (g', out) := pingEach ids (setObjs <[id := setAlive false conn]> g) in
            (g', Ping id :: out)
          else let (g', out) := pingEach ids (unregister id g) in (g', Terminate id :: out)
      end
  end.

(** One heartbeat sweep over a copy of the connections. *)
Definition pingSweep (g : Gateway) : Gateway * list Out := pingEach (connections g) g.

(** Whether connection [id] is to get a message of [channel]. *)
Definition subscribedTo (g : Gateway) (channel : string) (id : string) : bool :=
  match objs g !! id with
  | Some conn => bool_decide (channel ∈ subscriptions conn)
  | None => false
  end.

(** [buffered] is each socket's buffered amount; [sendFails] where the write
    throws. *)
Definition broadcast (channel payload : string) (buffered : string -> Z) (sendFails : string -> bool)
    (g : Gateway) : Gateway * list Out :=
  let targets := bfilter (subscribedTo g channel) (connections g) in
  let slow := bfilter (fun id => maxBufferedBytes opts <? buffered id) targets in
  let fast := bfilter (fun id => negb (maxBufferedBytes opts <? buffered id)) targets in
  (foldl (fun g id => unregister id g) g slow,
   ((fun id => SendRaw id channel payload) <$> bfilter (fun id => negb (sendFails id)) fast)
   ++ ((fun id => Close id 1013) <$> slow)).

(** ** The socket handlers *)

(** A text frame: not JSON, the JSON value [null], or a value with the fields
    the handler reads; a field of another type is [None], and so is an array
    element that is not a string. *)
Inductive Frame :=
| BadJson
| JsonNull
| Json (op : option string) (channels : option (list (option string)))
    (msgKeyId msgSecret : option string).

Fixpoint pickStrings (l : list (option string)) : option (list string) :=
  match l with
  | [] => Some []
  | Some s :: l =>
      if (String.length s =? 0)%nat || (200 <? String.length s)%nat then None
      else match pickStrings l with Some out => Some (s :: out) | None => None end
  | None :: _ => None
  end.

Definition pickChannels (value : option (list (option string))) : option (list string) :=
  match value with None => None | Some l => pickStrings l end.

Definition countFailure (id : string) (g : Gateway) : Gateway :=
  setFailed (fun m => <[id := default 0 (m !! id) + 1]> m) g.

(** [!s] of an optional string *)
Definition falsy (s : option string) : bool :=
  match s with None => true | Some s => (String.length s =? 0)%nat end.

Definition handleLogin (id : string) (msgKeyId msgSecret : option string) (g : Gateway)
  : Gateway * list Out :=
  if maxFailedLogins opts <=? default 0 (failedLogins g !! id) then
    (g, [Send id (LoginFailed "too_many_attempts"); Close id 1008])
  else if falsy msgKeyId || falsy msgSecret then
    (countFailure id g, [Send id (LoginFailed "missing_credentials")])
  else (setPending (pendingLogins g ++ [id]) g, []).

Definition handleMessage (id : string) (msg : Frame) (g : Gateway) : Gateway * list Out :=
  match msg with
  | BadJson => (g, [Send id (ErrorMsg "invalid_json")])
  | JsonNull => (g, [UnhandledRejection "Cannot read properties of null"])
  | Json op channels msgKeyId msgSecret =>
      let op := default EmptyString op in
      if String.eqb op "ping" then (g, [Send id Pong])
      else if String.eqb op "subscribe" then
        match pickChannels channels with
        | None => (g, [Send id (ErrorMsg "invalid_channels")])
        | Some channels =>
            let (result, g') := subscribe id channels g in
            let rejected := default [] result in
            let accepted := bfilter (fun c => negb (existsb (String.eqb c) rejected)) channels in
            (g', (match accepted with [] => [] | _ => [Send id (Subscribed accepted)] end)
                 ++ (match rejected with [] => [] | _ => [Send id (Rejected rejected)] end))
        end
      else if String.eqb op "unsubscribe" then
        match pickChannels channels with
        | None => (g, [Send id (ErrorMsg "invalid_channels")])
        | Some channels => (unsubscribe id channels g, [Send id (Unsubscribed channels)])
        end
      else if String.eqb op "login" then handleLogin id msgKeyId msgSecret g
      else (g, [Send id (ErrorMsg "unknown_op")])
  end.

(** The lookup a login waited for has ended. *)
Definition finishLogin (id : string) (lookup : Result (option User)) (g : Gateway)
  : Gateway * list Out :=
  match lookup with
  | inl e => (g, [UnhandledRejection e])
  | inr None => (countFailure id g, [Send id (LoginFailed "invalid_credentials")])
  | inr (Some u) =>
      (setUser id u (setFailed (delete id) g), [Send id (LoginOk (owner u) (tier u))])
  end.

(** ** Events *)

Inductive WsEvent :=
| SocketOpened (id addr : string) (now : Z)
| SocketMessage (id : string) (msg : Frame) (now : Z)
| SocketPong (id : string)
| SocketClosed (id : string)
| LookupDone (id : string) (lookup : Result (option User))
| Heartbeat
| BusEmit (channel payload : string) (buffered : string -> Z) (sendFails : string -> bool).

Fixpoint removeOne (x : string) (l : list string) : list string :=
  match l with [] => [] | y :: l => if String.eqb x y then l else y :: removeOne x l end.

Definition wsStep (e : WsEvent) (g : Gateway) : Gateway * list Out :=
  match e with
  | SocketOpened id addr now =>
      let g := setObjs <[id := {| ip := addr; isAlive := true; subscriptions := ∅;
                                  user := None |}]> g in
      match register id addr now g with
      | (Refused code _, g) => (g, [Close id code])
      | (Registered, g) => (g, [Send id Hello])
      end
  | SocketMessage id msg now =>
      match allowMessage id now g with
      | (false, g, out) => (g, out)
      | (true, g, _) => handleMessage id msg g
      end
  | SocketPong id =>
      (match objs g !! id with Some c => setObjs <[id := setAlive true c]> g | None => g end, [])
  | SocketClosed id => (setFailed (delete id) (unregister id g), [])
  | LookupDone id lookup =>
      finishLogin id lookup (setPending (removeOne id (pendingLogins g)) g)
  | Heartbeat => pingSweep g
  | BusEmit channel payload buffered sendFails =>
      match connections g with [] => (g, []) | _ => broadcast channel payload buffered sendFails g end
  end.

(** Connection ids are fresh (randomUUID), and a lookup ends that was begun. *)
Definition possible (e : WsEvent) (g : Gateway) : Prop :=
  match e with
  | SocketOpened id _ _ => objs g !! id = None
  | LookupDone id _ => id ∈ pendingLogins g
  | _ => True
  end.

(** The states reached by a history, oldest event first. *)
Inductive Reached : list WsEvent -> Gateway -> Prop :=
| reached_start : Reached [] freshGateway
| reached_step events e g : Reached events g -> possible e g -> Reached (events ++ [e]) (wsStep e g).1.

(** ** What the manager's maps count *)

Definition fromIp (g : Gateway) (addr id : string) : bool :=
  match objs g !! id with Some c => String.eqb (ip c) addr | None => false end.

Definition ipCount (g : Gateway) (addr : string) : nat :=
  length (bfilter (fromIp g addr) (connections g)).

Record Counted (g : Gateway) : Prop := {
  counted_nodup : NoDup (connections g);
  counted_objs : forall id, id ∈ connections g -> is_Some (objs g !! id);
  counted_rate : forall id, is_Some (rate g !! id) <-> id ∈ connections g;
  counted_ip : forall addr,
    perIp g !! addr
    = if (ipCount g addr =? 0)%nat then None else Some (Z.of_nat (ipCount g addr));
  counted_max : Z.of_nat (length (connections g)) <= maxConnections opts;
  counted_max_ip : forall addr, Z.of_nat (ipCount g addr) <= maxPerIp opts }.

(** The connection objects may lose subscriptions and liveness, nothing else. *)
Definition quieter (o o' : gmap string WsConnection) : Prop :=
  forall id, match o !! id, o' !! id with
             | Some c, Some c' => ip c' = ip c /\ user c' = user c
                                  /\ subscriptions c' ⊆ subscriptions c
             | None, None => True
             | _, _ => False
             end.

Lemma quieter_refl o : quieter o o.
Proof. intros id. by destruct (o !! id). Qed.

Lemma quieter_trans o1 o2 o3 : quieter o1 o2 -> quieter o2 o3 -> quieter o1 o3.
Proof.
  intros H1 H2 id. specialize (H1 id). specialize (H2 id).
  destruct (o1 !! id), (o2 !! id), (o3 !! id); try done.
  destruct H1 as (? & ? & ?), H2 as (? & ? & ?). split_and!; [congruence..|set_solver].
Qed.

Lemma quieter_insert o id c c' :
  o !! id = Some c -> ip c' = ip c -> user c' = user c -> subscriptions c' ⊆ subscriptions c ->
  quieter o (<[id := c']> o).
Proof.
  intros Ho Hi Hu Hs j. destruct (decide (id = j)) as [->|Hne].
  - by rewrite Ho, lookup_insert_eq.
  - rewrite lookup_insert_ne by done. apply quieter_refl.
Qed.

(** Changing objects without moving them to another address keeps the counts. *)
Lemma counted_same g g' :
  Counted g -> connections g' = connections g -> perIp g' = perIp g ->
  (forall id, is_Some (rate g' !! id) <-> is_Some (rate g !! id)) ->
  (forall id, id ∈ connections g -> ip <$> objs g' !! id = ip <$> objs g !! id) -> Counted g'.
Proof.
  intros [Hn Ho Hr Hi Hm Hmi] Hc Hp Hrt Hip.
  assert (forall addr, ipCount g' addr = ipCount g addr) as Hcount.
  { intros addr. unfold ipCount. rewrite Hc. f_equal. apply bfilter_ext. intros id Hid.
    specialize (Hip id Hid). unfold fromIp. destruct (objs g' !! id), (objs g !! id); try done.
    simpl in Hip. congruence. }
  split; rewrite ?Hc, ?Hp; try done.
  - intros id Hid. specialize (Hip id Hid). destruct (Ho id Hid) as [c Hc']. rewrite Hc' in Hip.
    destruct (objs g' !! id); [done|]. done.
  - intros id. by rewrite Hrt.
  - intros addr. by rewrite Hcount.
  - intros addr. by rewrite Hcount.
Qed.

Lemma counted_quieter g o' : Counted g -> quieter (objs g) o' -> Counted (setObjs (fun _ => o') g).
Proof.
  intros HC Hq. eapply counted_same; [exact HC|done..|]. intros id _. simpl. specialize (Hq id).
  destruct (objs g !! id), (o' !! id); try done. simpl. by destruct Hq as [-> _].
Qed.

Lemma bfilter_remove (p : string -> bool) id l :
  NoDup l -> id ∈ l ->
  length (bfilter p l)
  = (length (bfilter p (bfilter (fun j => negb (String.eqb j id)) l)) + if p id then 1 else 0)%nat.
Proof.
  induction 1 as [|x l Hx Hl IH]; intros Hin; [by apply elem_of_nil in Hin|]. simpl.
  apply elem_of_cons in Hin as [->|Hin].
  - rewrite String.eqb_refl. simpl. rewrite (bfilter_ext (fun j => negb (String.eqb j x)) (fun _ => true) l).
    + assert (bfilter (fun _ => true) l = l) as -> by (clear; induction l; simpl; congruence).
      destruct (p x); simpl; lia.
    + intros y Hy. apply negb_true_iff, String.eqb_neq. by intros ->.
  - assert (String.eqb x id = false) as Hne by (apply String.eqb_neq; intros ->; by apply Hx).
    rewrite Hne. simpl.
    specialize (IH Hin). destruct (p x); simpl; lia.
Qed.

Lemma connection_Some g id c :
  connection g id = Some c <-> id ∈ connections g /\ objs g !! id = Some c.
Proof. unfold connection. case_bool_decide; naive_solver. Qed.

Lemma unregister_connections g id :
  Counted g ->
  connections (unregister id g) = bfilter (fun j => negb (String.eqb j id)) (connections g)
  /\ objs (unregister id g) = objs g.
Proof.
  intros HC. unfold unregister. destruct (connection g id) as [c|] eqn:E; [done|]. split; [|done].
  assert (id ∉ connections g) as Hid.
  { intros Hin. destruct (counted_objs g HC id Hin) as [c Hc]. unfold connection in E.
    rewrite bool_decide_eq_true_2 in E by done. congruence. }
  rewrite (bfilter_ext _ (fun _ => true)).
  - clear. induction (connections g); simpl; congruence.
  - intros y Hy. apply negb_true_iff, String.eqb_neq. by intros ->.
Qed.

Lemma counted_unregister g id : Counted g -> Counted (unregister id g).
Proof.
  intros HC. unfold unregister. destruct (connection g id) as [c|] eqn:E; [|done].
  apply connection_Some in E as [Hin Hc]. pose proof HC as [Hn Ho Hr Hi Hm Hmi].
  match goal with |- Counted ?x => set (g' := x) end.
  set (rest := bfilter (fun j => negb (String.eqb j id)) (connections g)) in *.
  assert (forall addr, ipCount g addr
    = (ipCount g' addr + if String.eqb (ip c) addr then 1 else 0)%nat) as Hcount.
  { intros addr. unfold ipCount. rewrite (bfilter_remove _ id) by done.
    assert (fromIp g addr id = String.eqb (ip c) addr) as -> by (unfold fromIp; by rewrite Hc). done. }
  assert (default 0 (perIp g !! ip c) = Z.of_nat (ipCount g' (ip c)) + 1) as Hcnt.
  { rewrite Hi, Hcount, String.eqb_refl.
    destruct (Nat.eqb_spec (ipCount g' (ip c) + 1) 0); simpl; lia. }
  split.
  - by apply NoDup_bfilter.
  - intros j [Hj _]%elem_of_bfilter. by apply Ho.
  - intros j. simpl. unfold rest. rewrite elem_of_bfilter, negb_true_iff, String.eqb_neq.
    destruct (decide (id = j)) as [->|Hne].
    + rewrite lookup_delete_eq. split; [by intros []|]. by intros [_ ?].
    + rewrite lookup_delete_ne by done. rewrite Hr. split; [by split | by intros []].
  - intros addr. change (perIp g') with
      (if default 0 (perIp g !! ip c) <=? 1 then delete (ip c) (perIp g)
       else <[ip c := default 0 (perIp g !! ip c) - 1]> (perIp g)).
    rewrite Hcnt. destruct (decide (ip c = addr)) as [Heq|Hne].
    + rewrite <- Heq. destruct (Z.leb_spec (Z.of_nat (ipCount g' (ip c)) + 1) 1).
      * rewrite lookup_delete_eq. destruct (Nat.eqb_spec (ipCount g' (ip c)) 0); [done|lia].
      * rewrite lookup_insert_eq. destruct (Nat.eqb_spec (ipCount g' (ip c)) 0); [lia|f_equal; lia].
    + specialize (Hcount addr). rewrite (proj2 (String.eqb_neq _ _) Hne), Nat.add_0_r in Hcount.
      rewrite <- Hcount, <- Hi.
      destruct (Z.of_nat (ipCount g' (ip c)) + 1 <=? 1);
        [by rewrite lookup_delete_ne | by rewrite lookup_insert_ne].
  - simpl. unfold rest.
    pose proof (length_bfilter_le (fun j => negb (String.eqb j id)) (connections g)). lia.
  - intros addr. specialize (Hcount addr). specialize (Hmi addr). lia.
Qed.

Lemma counted_register id addr now g :
  Counted g -> id ∉ connections g -> (exists c, objs g !! id = Some c /\ ip c = addr) ->
  Counted (register id addr now g).2.
Proof.
  intros HC Hid (c & Hc & Hip). pose proof HC as [Hn Ho Hr Hi Hm Hmi]. unfold register.
  destruct (Z.leb_spec (maxConnections opts) (Z.of_nat (length (connections g)))) as [|Hlt]; [done|].
  assert (default 0 (perIp g !! addr) = Z.of_nat (ipCount g addr)) as Hcnt.
  { rewrite Hi. by destruct (Nat.eqb_spec (ipCount g addr) 0) as [->|]. }
  rewrite Hcnt. destruct (Z.leb_spec (maxPerIp opts) (Z.of_nat (ipCount g addr))) as [|Hlt']; [done|].
  cbn [snd]. match goal with |- Counted ?x => set (g' := x) end.
  assert (forall a, ipCount g' a = (ipCount g a + if String.eqb addr a then 1 else 0)%nat) as Hcount.
  { intros a. unfold ipCount. simpl. rewrite bfilter_app, length_app. simpl. unfold fromIp at 2. simpl.
    rewrite Hc, Hip. by destruct (String.eqb addr a). }
  split.
  - apply NoDup_app. split; [done|]. split; [|apply NoDup_singleton].
    intros x Hx ->%list_elem_of_singleton. done.
  - intros j [Hj| ->%list_elem_of_singleton]%elem_of_app; [by apply Ho | by exists c].
  - intros j. simpl. rewrite elem_of_app, list_elem_of_singleton.
    destruct (decide (id = j)) as [->|Hne].
    + rewrite lookup_insert_eq. split; [by right | by eexists].
    + rewrite lookup_insert_ne by done. rewrite Hr. split; [by left | by intros [|]].
  - intros a. rewrite Hcount. change (perIp g') with (<[addr := Z.of_nat (ipCount g addr) + 1]> (perIp g)).
    destruct (String.eqb_spec addr a) as [<-|Hne].
    + rewrite lookup_insert_eq. destruct (Nat.eqb_spec (ipCount g addr + 1) 0); [lia|f_equal; lia].
    + by rewrite lookup_insert_ne, Nat.add_0_r.
  - simpl. rewrite length_app. simpl. lia.
  - intros a. rewrite Hcount. specialize (Hmi a). destruct (String.eqb_spec addr a) as [<-|]; lia.
Qed.

Lemma counted_pingEach ids g :
  Counted g -> Counted (pingEach ids g).1 /\ quieter (objs g) (objs (pingEach ids g).1).
Proof.
  revert g; induction ids as [|id ids IH]; intros g HC; simpl; [split; [done|apply quieter_refl]|].
  destruct (objs g !! id) as [c|] eqn:Hc; [|by apply IH]. destruct (isAlive c).
  - assert (quieter (objs g) (<[id := setAlive false c]> (objs g))) as Hq
      by (by eapply quieter_insert).
    destruct (IH (setObjs (fun _ => <[id := setAlive false c]> (objs g)) g)) as [H1 H2].
    { by apply counted_quieter. }
    unfold setObjs in *. simpl in *. destruct (pingEach ids _) as [g' out]. simpl in *.
    split; [done|]. by eapply quieter_trans.
  - destruct (IH _ (counted_unregister g id HC)) as [H1 H2].
    rewrite (proj2 (unregister_connections g id HC)) in H2.
    by destruct (pingEach ids (unregister id g)).
Qed.

Lemma counted_evict ids g :
  Counted g -> Counted (foldl (fun g id => unregister id g) g ids)
  /\ objs (foldl (fun g id => unregister id g) g ids) = objs g.
Proof.
  revert g; induction ids as [|id ids IH]; intros g HC; simpl; [done|].
  destruct (IH _ (counted_unregister g id HC)) as [H1 H2]. split; [done|].
  rewrite H2. by apply unregister_connections.
Qed.

Lemma allowMessage_counted id now g :
  Counted g -> Counted (allowMessage id now g).1.2
  /\ objs (allowMessage id now g).1.2 = objs g.
Proof.
  intros HC. unfold allowMessage. destruct (connection g id) as [c|] eqn:Ec; [|done].
  destruct (rate g !! id) as [st|] eqn:Er; [|done].
  assert (forall st', Counted (setRate <[id := st']> g)) as Hset.
  { intros st'. eapply counted_same; [exact HC|done|done| |done]. intros j. simpl.
    destruct (decide (id = j)) as [->|Hne]; [by rewrite lookup_insert_eq, Er|].
    by rewrite lookup_insert_ne. }
  cbv zeta. destruct (ltN _ _); simpl; [|by split].
  split; [by apply counted_unregister|]. by rewrite (proj2 (unregister_connections _ _ (Hset _))).
Qed.

(** ** Account channels *)

Lemma stripPrefix_app p s : stripPrefix p (p +:+ s) = Some s.
Proof. induction p as [|c p IH]; simpl; [done|]. by rewrite Ascii.eqb_refl. Qed.

(** Only the logged-in owner's account channel is open to a connection. *)
Lemma canSubscribe_account conn a :
  canSubscribe conn (ACCOUNT_PREFIX +:+ a) = true -> exists u, user conn = Some u /\ owner u = a.
Proof.
  unfold canSubscribe. change (String.eqb (ACCOUNT_PREFIX +:+ a) "events") with false. cbv iota.
  change (stripPrefix "ticker." (ACCOUNT_PREFIX +:+ a)) with (None (A := string)). cbv iota.
  change (stripPrefix "trades." (ACCOUNT_PREFIX +:+ a)) with (None (A := string)). cbv iota.
  rewrite stripPrefix_app. destruct (user conn) as [u|]; [|done].
  intros ->%String.eqb_eq. by exists u.
Qed.

Definition loggedIn (events : list WsEvent) (id : string) (u : User) : Prop :=
  LookupDone id (inr (Some u)) ∈ events.

(** Users and account subscriptions come from logins of that connection. *)
Definition Granted (events : list WsEvent) (g : Gateway) : Prop :=
  forall id c, objs g !! id = Some c ->
    (forall u, user c = Some u -> loggedIn events id u)
    /\ (forall a, ACCOUNT_PREFIX +:+ a ∈ subscriptions c ->
          exists u, owner u = a /\ loggedIn events id u).

Lemma granted_quieter events g o' :
  Granted events g -> quieter (objs g) o' -> Granted events (setObjs (fun _ => o') g).
Proof.
  intros HG Hq id c Hc. simpl in Hc. specialize (Hq id). rewrite Hc in Hq.
  destruct (objs g !! id) as [c0|] eqn:E; [|done]. destruct Hq as (_ & Hu & Hs).
  destruct (HG id c0 E) as [H1 H2]. rewrite Hu. split; [done|]. intros a Ha. apply H2. set_solver.
Qed.

Lemma granted_objs events g g' : Granted events g -> objs g' = objs g -> Granted events g'.
Proof. intros HG Ho id c. rewrite Ho. apply HG. Qed.

Lemma granted_more events e g : Granted events g -> Granted (events ++ [e]) g.
Proof.
  intros HG id c Hc. destruct (HG id c Hc) as [H1 H2]. split.
  - intros u Hu. apply elem_of_app. left. by apply H1.
  - intros a Ha. destruct (H2 a Ha) as (u & Hu & Hin). exists u. split; [done|].
    apply elem_of_app. by left.
Qed.

Lemma granted_insert events g id c c' :
  Granted events g -> objs g !! id = Some c -> ip c' = ip c ->
  (forall u, user c' = Some u -> loggedIn events id u) ->
  (forall a, ACCOUNT_PREFIX +:+ a ∈ subscriptions c' ->
     exists u, owner u = a /\ loggedIn events id u) ->
  Granted events (setObjs <[id := c']> g).
Proof.
  intros HG _ _ Hu Hs j d. simpl. destruct (decide (id = j)) as [<-|Hne].
  - rewrite lookup_insert_eq. by intros [= <-].
  - rewrite lookup_insert_ne by done. apply HG.
Qed.

Lemma counted_insert g id c c' :
  Counted g -> objs g !! id = Some c -> ip c' = ip c -> Counted (setObjs <[id := c']> g).
Proof.
  intros HC Hc Hip. eapply counted_same; [exact HC|done..|]. intros j _. simpl.
  destruct (decide (id = j)) as [<-|Hne]; [|by rewrite lookup_insert_ne].
  by rewrite lookup_insert_eq, Hc; simpl; rewrite Hip.
Qed.

Definition Good (events : list WsEvent) (g : Gateway) : Prop := Counted g /\ Granted events g.

Lemma good_quieter events g o' :
  Good events g -> quieter (objs g) o' -> Good events (setObjs (fun _ => o') g).
Proof. intros [HC HG] Hq. split; [by apply counted_quieter | by apply granted_quieter]. Qed.

Lemma good_fields events g g' :
  Good events g -> connections g' = connections g -> perIp g' = perIp g -> rate g' = rate g ->
  objs g' = objs g -> Good events g'.
Proof.
  intros [HC HG] Hc Hp Hr Ho. split; [|by eapply granted_objs].
  eapply counted_same; [exact HC|done|done|by rewrite Hr|by rewrite Ho].
Qed.

Lemma good_unregister events g id : Good events g -> Good events (unregister id g).
Proof.
  intros [HC HG]. split; [by apply counted_unregister|]. eapply granted_objs; [exact HG|].
  by apply unregister_connections.
Qed.

Lemma good_subscribe events g id channels :
  Good events g -> Good events (subscribe id channels g).2.
Proof.
  intros [HC HG]. unfold subscribe. destruct (connection g id) as [c|] eqn:E; [|done].
  apply connection_Some in E as [_ Hc]. simpl. destruct (HG id c Hc) as [Hu Hs].
  split; [by eapply counted_insert|]. eapply granted_insert; [done|exact Hc|done|done|].
  intros a. simpl. rewrite elem_of_union, elem_of_list_to_set, elem_of_bfilter.
  intros [Ha|[_ Ha]]; [by apply Hs|]. apply canSubscribe_account in Ha as (u & Hcu & <-).
  exists u. split; [done|]. by apply Hu.
Qed.

Lemma good_unsubscribe events g id channels :
  Good events g -> Good events (unsubscribe id channels g).
Proof.
  intros HG. unfold unsubscribe. destruct (connection g id) as [c|] eqn:E; [|done].
  apply connection_Some in E as [_ Hc]. apply (good_quieter events g (<[id := _]> (objs g)) HG).
  eapply quieter_insert; [exact Hc|done|done|]. simpl. set_solver.
Qed.

Lemma good_handleMessage events g id msg :
  Good events g -> Good events (handleMessage id msg g).1.
Proof.
  intros HG. destruct msg as [| |op channels k s]; [done..|]. simpl.
  destruct (String.eqb _ "ping"); [done|]. destruct (String.eqb _ "subscribe").
  { destruct (pickChannels channels) as [l|]; [|done].
    pose proof (good_subscribe events g id l HG). by destruct (subscribe id l g). }
  destruct (String.eqb _ "unsubscribe").
  { destruct (pickChannels channels) as [l|]; [|done]. by apply good_unsubscribe. }
  destruct (String.eqb _ "login"); [|done]. unfold handleLogin.
  destruct (_ <=? _); [done|]. by destruct (falsy k || falsy s); apply (good_fields events g).
Qed.

Lemma good_finishLogin events g id lookup :
  Good events g -> LookupDone id lookup ∈ events -> Good events (finishLogin id lookup g).1.
Proof.
  intros HG Hin. destruct lookup as [e|[u|]]; [done| |by apply (good_fields events g)].
  assert (Good events (setFailed (delete id) g)) as [HC HG'] by by apply (good_fields events g).
  simpl. unfold setUser. destruct (connection _ id) as [c|] eqn:E; [|done].
  apply connection_Some in E as [_ Hc]. destruct (HG' id c Hc) as [_ Hs].
  split; [by eapply counted_insert|]. eapply granted_insert; [done|exact Hc|done| |done].
  by intros u' [= <-].
Qed.

Lemma good_step events e g :
  Good events g -> possible e g -> Good (events ++ [e]) (wsStep e g).1.
Proof.
  intros [HC HG] Hpos. assert (Good (events ++ [e]) g) as HG' by (split; [done|by apply granted_more]).
  destruct e as [id addr now|id msg now|id|id|id lookup| |ch payload buffered fails];
    cbn [wsStep possible] in *.
  - set (c0 := {| ip := addr; isAlive := true; subscriptions := ∅; user := None |}).
    set (g1 := setObjs <[id := c0]> g).
    assert (id ∉ connections g) as Hid.
    { intros Hin. destruct (counted_objs g HC id Hin). congruence. }
    assert (Counted g1) as HC1.
    { eapply counted_same; [exact HC|done..|]. intros j Hj. simpl.
      unfold g1, setObjs. simpl. rewrite lookup_insert_ne; [done|]. by intros ->. }
    assert (Counted (register id addr now g1).2) as HC2.
    { apply counted_register; [done..|]. exists c0. unfold g1, setObjs. simpl.
      by rewrite lookup_insert_eq. }
    assert (objs (register id addr now g1).2 = objs g1) as Ho.
    { unfold register. destruct (_ <=? _); [done|]. by destruct (_ <=? _). }
    assert (Granted (events ++ [SocketOpened id addr now]) g1) as HG1.
    { intros j c. simpl. destruct (decide (id = j)) as [<-|Hne].
      - rewrite lookup_insert_eq. intros [= <-]. split; [done|]. by intros a ?%not_elem_of_empty.
      - rewrite lookup_insert_ne by done. apply HG'. }
    destruct (register id addr now g1) as [[|code reason] g2]; simpl in *;
      (split; [done|]); by eapply granted_objs.
  - pose proof (allowMessage_counted id now g HC) as [HC1 Ho].
    destruct (allowMessage id now g) as [[ok g1] out]. simpl in *.
    assert (Good (events ++ [SocketMessage id msg now]) g1) as HG1.
    { split; [done|]. eapply granted_objs; [apply HG'|done]. }
    destruct ok; [by apply good_handleMessage | done].
  - simpl. destruct (objs g !! id) as [c|] eqn:Hc; [|done].
    apply (good_quieter _ g (<[id := _]> (objs g)) HG'). by eapply quieter_insert.
  - simpl. apply (good_fields _ (unregister id g)); [by apply good_unregister|done..].
  - apply good_finishLogin; [by apply (good_fields _ g)|]. apply elem_of_app. right. by left.
  - simpl. destruct (counted_pingEach (connections g) g HC) as [H1 H2]. split; [done|].
    eapply granted_objs; [by apply (granted_quieter _ g); [apply HG'|exact H2]|done].
  - assert (Good (events ++ [BusEmit ch payload buffered fails])
      (broadcast ch payload buffered fails g).1) as Hb.
    { simpl. destruct (counted_evict (bfilter (fun id => maxBufferedBytes opts <? buffered id)
        (bfilter (subscribedTo g ch) (connections g))) g HC) as [H1 H2].
      split; [done|]. by eapply granted_objs; [apply HG'|]. }
    by destruct (connections g).
Qed.

Lemma reached_good events g :
  0 <= maxConnections opts -> 0 <= maxPerIp opts -> Reached events g -> Good events g.
Proof.
  intros Hm Hi. induction 1 as [|events e g _ IH Hpos]; [|by apply good_step].
  split.
  - split; simpl; [by apply NoDup_nil | by intros id ?%elem_of_nil | | done | lia | done].
    intros id. split; [|by intros ?%elem_of_nil]. intros [x Hx]. by rewrite lookup_empty in Hx.
  - intros id c Hc. simpl in Hc. by rewrite lookup_empty in Hc.
Qed.

(** C22. In every state the gateway can reach, whatever messages, logins, pongs,
    closings, heartbeats and broadcasts came in whatever order: the caps on
    connections and on connections per address hold, an address has a counter
    exactly when it has connections and the counter is their number, and rate
    budgets exist for exactly the open connections. *)
Theorem socket_counters_exact events g :
  0 <= maxConnections opts -> 0 <= maxPerIp opts -> Reached events g ->
  Z.of_nat (length (connections g)) <= maxConnections opts /\ NoDup (connections g)
  /\ (forall addr, let n := length (bfilter (fromIp g addr) (connections g)) in
        Z.of_nat n <= maxPerIp opts
        /\ perIp g !! addr = if (n =? 0)%nat then None else Some (Z.of_nat n))
  /\ (forall id, is_Some (rate g !! id) <-> id ∈ connections g).
Proof.
  intros Hm Hi HR. destruct (reached_good events g Hm Hi HR) as [[Hn Ho Hr Hip Hmax Hmaxip] _].
  do 2 (split; [done|]). split; [|done]. intros addr. split; [apply Hmaxip | apply Hip].
Qed.

(** An account event reaches only connections that logged in as that account:
    when a broadcast on an owner's account channel is written to a connection,
    a lookup of that connection's credentials had returned a key of that owner. *)
Theorem account_events_need_login events g a payload buffered sendFails id channel text :
  0 <= maxConnections opts -> 0 <= maxPerIp opts -> Reached events g ->
  SendRaw id channel text ∈ (wsStep (BusEmit (ACCOUNT_PREFIX +:+ a) payload buffered sendFails) g).2 ->
  exists u, owner u = a /\ LookupDone id (inr (Some u)) ∈ events.
Proof.
  intros Hm Hi HR Hin. destruct (reached_good events g Hm Hi HR) as [_ HG].
  remember (ACCOUNT_PREFIX +:+ a) as ch eqn:Hch. cbn [wsStep] in Hin.
  assert (SendRaw id channel text ∈ (broadcast ch payload buffered sendFails g).2)
    as Hb by (destruct (connections g); [by apply elem_of_nil in Hin | done]).
  unfold broadcast in Hb. cbv zeta in Hb. cbn [snd] in Hb. apply elem_of_app in Hb as [Hb|Hb].
  - apply list_elem_of_fmap in Hb as (j & Hj & Hb). injection Hj as <- <- <-.
    apply elem_of_bfilter in Hb as [Hb _]. apply elem_of_bfilter in Hb as [Hb _].
    apply elem_of_bfilter in Hb as [_ Hsub]. unfold subscribedTo in Hsub.
    destruct (objs g !! id) as [c|] eqn:Hc; [|done]. apply bool_decide_eq_true in Hsub.
    destruct (HG id c Hc) as [_ Ha]. apply (Ha a). by rewrite <- Hch.
  - apply list_elem_of_fmap in Hb as (j & Hj & _). done.
Qed.
End gateway.

(** ** Runs *)

Definition wsRun (opts : WsManagerOptions) (events : list WsEvent) : Gateway * list Out :=
  foldl (fun acc e => let r := wsStep opts e acc.1 in (r.1, acc.2 ++ r.2)) (freshGateway, []) events.

Definition possibleb (e : WsEvent) (g : Gateway) : bool :=
  match e with
  | SocketOpened id _ _ => match objs g !! id with Some _ => false | None => true end
  | LookupDone id _ => existsb (String.eqb id) (pendingLogins g)
  | _ => true
  end.

Lemma possibleb_ok e g : possibleb e g = true -> possible e g.
Proof.
  destruct e; simpl; try done.
  - by destruct (objs g !! _).
  - intros H. apply existsb_exists in H as (x & Hx & ->%String.eqb_eq). by apply list_elem_of_In.
Qed.

Fixpoint allPossible (opts : WsManagerOptions) (events : list WsEvent) (g : Gateway) : bool :=
  match events with
  | [] => true
  | e :: events => possibleb e g && allPossible opts events (wsStep opts e g).1
  end.

Lemma wsRun_reached opts more events g :
  Reached opts events g -> allPossible opts more g = true ->
  Reached opts (events ++ more) (foldl (fun g e => (wsStep opts e g).1) g more).
Proof.
  revert events g; induction more as [|e more IH]; intros events g HR H; simpl in *.
  - by rewrite app_nil_r.
  - apply andb_true_iff in H as [He H]. rewrite cons_middle, app_assoc. apply IH; [|done].
    constructor; [done | by apply possibleb_ok].
Qed.

(** A market maker logs in, subscribes to its account, and a second socket of
    the same address tries to; then the bus carries an event of the account. *)
Definition alice : User := {| keyId := "nk_1"; owner := "GALICE"; tier := market_maker |}.

Definition aliceHistory : list WsEvent :=
  [SocketOpened "a" "10.0.0.1" 0; SocketOpened "b" "10.0.0.1" 5;
   SocketMessage "a" (Json (Some "login") None (Some "nk_1") (Some "s")) 10;
   SocketMessage "b" (Json (Some "subscribe") (Some [Some "account.events.GALICE"; Some "events"]) None None) 11;
   LookupDone "a" (inr (Some alice));
   SocketMessage "a" (Json (Some "subscribe") (Some [Some "account.events.GALICE"]) None None) 12].

Definition aliceState : Gateway :=
  foldl (fun g e => (wsStep DEFAULTS e g).1) freshGateway aliceHistory.

Definition aliceEvent : WsEvent := BusEmit "account.events.GALICE" "e" (fun _ => 0) (fun _ => false).

Lemma alice_reached : Reached DEFAULTS aliceHistory aliceState.
Proof.
  assert (allPossible DEFAULTS aliceHistory freshGateway = true) as H by (vm_compute; reflexivity).
  exact (wsRun_reached DEFAULTS aliceHistory [] freshGateway (reached_start DEFAULTS) H).
Qed.

Example alice_run :
  (wsRun DEFAULTS (aliceHistory ++ [aliceEvent])).2
  = [Send "a" Hello; Send "b" Hello; Send "b" (Subscribed ["events"]);
     Send "b" (Rejected ["account.events.GALICE"]); Send "a" (LoginOk "GALICE" market_maker);
     Send "a" (Subscribed ["account.events.GALICE"]);
     SendRaw "a" "account.events.GALICE" "e"].
Proof. vm_compute. reflexivity. Qed.

Lemma socket_counters_exact_witness :
  perIp aliceState !! "10.0.0.1" = Some 2
  /\ Z.of_nat (length (connections aliceState)) <= 1000 /\ NoDup (connections aliceState)
  /\ (forall addr, let n := length (bfilter (fromIp aliceState addr) (connections aliceState)) in
        Z.of_nat n <= 20
        /\ perIp aliceState !! addr = if (n =? 0)%nat then None else Some (Z.of_nat n))
  /\ (forall id, is_Some (rate aliceState !! id) <-> id ∈ connections aliceState).
Proof.
  split; [vm_compute; reflexivity|].
  apply (socket_counters_exact DEFAULTS aliceHistory aliceState);
    [vm_compute; discriminate | vm_compute; discriminate | exact alice_reached].
Defined.

Lemma account_events_need_login_witness :
  SendRaw "a" "account.events.GALICE" "e" ∈ (wsStep DEFAULTS aliceEvent aliceState).2
  /\ exists u, owner u = "GALICE" /\ LookupDone "a" (inr (Some u)) ∈ aliceHistory.
Proof.
  assert (SendRaw "a" "account.events.GALICE" "e" ∈ (wsStep DEFAULTS aliceEvent aliceState).2) as H.
  { replace (wsStep DEFAULTS aliceEvent aliceState).2
      with [SendRaw "a" "account.events.GALICE" "e"] by (vm_compute; reflexivity). by left. }
  split; [exact H|].
  apply (account_events_need_login DEFAULTS aliceHistory aliceState "GALICE" "e"
    (fun _ => 0) (fun _ => false) "a" "account.events.GALICE" "e");
    [vm_compute; discriminate | vm_compute; discriminate | exact alice_reached | exact H].
Defined.

(** A text frame holding the JSON value [null] is parsed, so the rejection of
    malformed input does not see it, and the handler's promise is rejected with
    nothing to catch it. *)
Lemma null_frame_unhandled opts id now g conn st :
  connection g id = Some conn -> rate g !! id = Some st ->
  (allowMessage opts id now g).1.1 = true ->
  (wsStep opts (SocketMessage id JsonNull now) g).2
  = [UnhandledRejection "Cannot read properties of null"].
Proof.
  intros _ _ H. cbn [wsStep]. destruct (allowMessage opts id now g) as [[ok g'] out].
  simpl in H. by subst.
Qed.

(** Failed logins are counted when their lookups end, so logins sent together
    all reach the database, whatever the limit. *)
Example login_limit_overrun :
  let login := SocketMessage "a" (Json (Some "login") None (Some "k") (Some "s")) 10 in
  let s := wsRun DEFAULTS (SocketOpened "a" "10.0.0.1" 0 :: repeat login 9) in
  length (pendingLogins s.1) = 9%nat.
Proof. vm_compute. reflexivity. Qed.

(** A lookup that ends after its socket has closed leaves a counter behind. *)
Example counter_outlives_socket :
  failedLogins (wsRun DEFAULTS
    [SocketOpened "a" "10.0.0.1" 0;
     SocketMessage "a" (Json (Some "login") None (Some "k") (Some "s")) 10;
     SocketClosed "a"; LookupDone "a" (inr None)]).1 !! "a" = Some 1.
Proof. vm_compute. reflexivity. Qed.
