(* ===== verification/ApiEvents.v ===== *)
(** * The archive as the gateway reads it

    The rows of events_raw that the queries of api/src/services select from:
    the payload columns they read ([payload_json ->> 'name']), the position
    join, the newest-first order and the conversions of NUMERIC and TEXT
    columns to bigint. A table is the list of its rows in any order, or
    missing. Rows written by the indexer ([archiveOf]) have readable numbers. *)

From S2P Require Import Prelude JsText IndexerEvents IndexerDb.
Open Scope Z_scope.
Open Scope js_scope.

(** ** Sums over lists *)

Fixpoint sumBy {A} (f : A -> Z) (l : list A) : Z :=
  match l with [] => 0 | x :: l => f x + sumBy f l end.

Lemma sumBy_app {A} (f : A -> Z) l k : sumBy f (l ++ k) = sumBy f l + sumBy f k.
Proof. induction l as [|x l IH]; simpl; [done|]. rewrite IH. lia. Qed.

Lemma sumBy_ext {A} (f g : A -> Z) l : (forall x, x ∈ l -> f x = g x) -> sumBy f l = sumBy g l.
Proof.
  induction l as [|x l IH]; intros H; simpl; [done|]. rewrite (H x) by left.
  rewrite IH; [done|]. intros y Hy. apply H. by right.
Qed.

Lemma sumBy_plus {A} (f g : A -> Z) l : sumBy (fun x => f x + g x) l = sumBy f l + sumBy g l.
Proof. induction l as [|x l IH]; simpl; [done|]. rewrite IH. lia. Qed.

Lemma sumBy_zero {A} (l : list A) : sumBy (fun _ => 0) l = 0.
Proof. by induction l. Qed.

Lemma sumBy_bfilter {A} (f : A -> Z) p l :
  sumBy f (bfilter p l) = sumBy (fun x => if p x then f x else 0) l.
Proof. induction l as [|x l IH]; simpl; [done|]. destruct (p x); simpl; by rewrite IH. Qed.

Lemma sumBy_fmap {A B} (f : B -> Z) (g : A -> B) l : sumBy f (g <$> l) = sumBy (fun x => f (g x)) l.
Proof. induction l as [|x l IH]; [done|]. rewrite fmap_cons. cbn [sumBy]. by rewrite IH. Qed.

Lemma sumBy_flat_map {A B} (f : B -> Z) (g : A -> list B) l :
  sumBy f (flat_map g l) = sumBy (fun x => sumBy f (g x)) l.
Proof. induction l as [|x l IH]; simpl; [done|]. by rewrite sumBy_app, IH. Qed.

#[export] Instance sumBy_Permutation {A} (f : A -> Z) : Proper ((≡ₚ) ==> (=)) (sumBy f).
Proof. induction 1; simpl; lia. Qed.

Lemma sumBy_length {A} (l : list A) : sumBy (fun _ => 1) l = Z.of_nat (length l).
Proof. induction l as [|x l IH]; [done|]. cbn [sumBy length]. rewrite IH. lia. Qed.

(** ** Boolean filters and maps *)

Lemma bfilter_fmap {A B} (p : B -> bool) (g : A -> B) l :
  bfilter p (g <$> l) = g <$> bfilter (fun x => p (g x)) l.
Proof.
  induction l as [|x l IH]; [done|]. rewrite fmap_cons. cbn [bfilter]. rewrite IH.
  by destruct (p (g x)).
Qed.

#[export] Instance bfilter_Permutation {A} (p : A -> bool) : Proper ((≡ₚ) ==> (≡ₚ)) (bfilter p).
Proof.
  induction 1 as [|x l k H IH|x y l|l k m H1 IH1 H2 IH2]; simpl; [done| | |by etrans].
  - by destruct (p x); rewrite IH.
  - destruct (p x), (p y); try done. apply perm_swap.
Qed.

(** ** Results over lists *)

#[export] Instance Result_fmap : FMap Result :=
  fun A B f r => match r with inl e => inl e | inr a => inr (f a) end.

Fixpoint mapR {A B} (f : A -> Result B) (l : list A) : Result (list B) :=
  match l with
  | [] => Ok []
  | x :: l => y ← f x; ys ← mapR f l; Ok (y :: ys)
  end.

Lemma mapR_Ok {A B} (f : A -> Result B) (g : A -> B) l :
  (forall x, x ∈ l -> f x = Ok (g x)) -> mapR f l = Ok (g <$> l).
Proof.
  induction l as [|x l IH]; intros H; [done|]. cbn [mapR]. rewrite (H x) by left. simpl.
  rewrite IH; [done|]. intros y Hy. apply H. by right.
Qed.

(** ** Rows and their columns *)

(** A row of events_raw with its event id. *)
Definition EventRow : Type := string * RawRow.

Definition archiveOf (events : list (Event Z)) : list EventRow :=
  (fun e => (ev_id (env e), rawRow e)) <$> events.

Definition topic (r : EventRow) : string := row_topic r.2.
Definition contractOf (r : EventRow) : string := row_contract_id r.2.
Definition closeTs (r : EventRow) : Z := row_close_ts r.2.
Definition ledgerOf (r : EventRow) : Z := row_ledger r.2.
Definition payload (r : EventRow) : EventBody string := row_payload r.2.

Section columns.
Context {N : Type}.

Definition market (b : EventBody N) : option (MarketBody N) :=
  match b with MarketEvent m => Some m | _ => None end.

(** [payload_json ->> 'trader'] on the topics the queries select. *)
Definition traderCol (b : EventBody N) : option string :=
  match market b with
  | Some (PositionOpened _ t _ _ _ _) | Some (PositionClosed _ t _ _ _ _ _ _)
  | Some (PositionLiquidated _ t _ _ _ _ _) | Some (PositionPartialLiq _ t _ _ _ _ _)
  | Some (PositionReduced _ t _ _ _ _ _) | Some (CrossLiquidated t _ _)
  | Some (OrderPlaced _ t _) | Some (LiqRefund t _ _ _) | Some (BadDebtRecorded t _ _ _ _)
  | Some (AdlExecuted _ t _ _ _ _ _ _) | Some (CollateralChanged _ _ t _ _) => Some t
  | _ => None
  end.

(** [payload_json ->> 'positionId'] *)
Definition positionIdCol (b : EventBody N) : option Z :=
  match market b with
  | Some (PositionOpened p _ _ _ _ _) | Some (PositionClosed p _ _ _ _ _ _ _)
  | Some (PositionLiquidated p _ _ _ _ _ _) | Some (PositionPartialLiq p _ _ _ _ _ _)
  | Some (PositionReduced p _ _ _ _ _ _) | Some (LiqRefund _ p _ _)
  | Some (AdlExecuted p _ _ _ _ _ _ _) | Some (CollateralChanged _ p _ _ _) => Some p
  | _ => None
  end.

(** [payload_json ->> 'orderId'] *)
Definition orderIdCol (b : EventBody N) : option Z :=
  match market b with
  | Some (OrderPlaced o _ _) | Some (OrderExecuted o _) | Some (OrderCancelled o _) => Some o
  | _ => None
  end.

(** [payload_json ->> 'asset'] *)
Definition assetCol (b : EventBody N) : option string :=
  match market b with
  | Some (PositionOpened _ _ a _ _ _) | Some (PositionClosed _ _ a _ _ _ _ _)
  | Some (PositionLiquidated _ _ a _ _ _ _) | Some (PositionPartialLiq _ _ a _ _ _ _)
  | Some (PositionReduced _ _ a _ _ _ _) | Some (AdlExecuted _ _ a _ _ _ _ _) => Some a
  | _ => None
  end.

Definition directionCol (b : EventBody N) : option Z :=
  match market b with
  | Some (PositionOpened _ _ _ d _ _) | Some (PositionClosed _ _ _ d _ _ _ _)
  | Some (PositionLiquidated _ _ _ d _ _ _) | Some (PositionPartialLiq _ _ _ d _ _ _)
  | Some (AdlExecuted _ _ _ d _ _ _ _) => Some d
  | _ => None
  end.

(** [payload_json ->> 'size'] *)
Definition sizeCol (b : EventBody N) : option N :=
  match market b with
  | Some (PositionOpened _ _ _ _ s _) | Some (PositionClosed _ _ _ _ s _ _ _)
  | Some (PositionLiquidated _ _ _ _ s _ _) | Some (PositionPartialLiq _ _ _ _ s _ _)
  | Some (AdlExecuted _ _ _ _ s _ _ _) => Some s
  | _ => None
  end.

Definition entryPriceCol (b : EventBody N) : option N :=
  match market b with
  | Some (PositionOpened _ _ _ _ _ e) | Some (PositionClosed _ _ _ _ _ e _ _) => Some e
  | _ => None
  end.

Definition closePriceCol (b : EventBody N) : option N :=
  match market b with
  | Some (PositionClosed _ _ _ _ _ _ c _) | Some (PositionLiquidated _ _ _ _ _ _ c)
  | Some (PositionPartialLiq _ _ _ _ _ _ c) | Some (PositionReduced _ _ _ _ _ c _) => Some c
  | _ => None
  end.

Definition priceCol (b : EventBody N) : option N :=
  match market b with Some (AdlExecuted _ _ _ _ _ p _ _) => Some p | _ => None end.

(** [payload_json ->> 'pnl'] *)
Definition pnlCol (b : EventBody N) : option N :=
  match market b with
  | Some (PositionClosed _ _ _ _ _ _ _ p) | Some (PositionReduced _ _ _ _ _ _ p)
  | Some (AdlExecuted _ _ _ _ _ _ p _) => Some p
  | _ => None
  end.

Definition totalPnlCol (b : EventBody N) : option N :=
  match market b with Some (CrossLiquidated _ p _) => Some p | _ => None end.

Definition triggerPriceCol (b : EventBody N) : option N :=
  match market b with Some (OrderPlaced _ _ p) => Some p | _ => None end.
End columns.

(** The columns of a row the indexer wrote are those of its event. *)
Lemma columns_serialised (b : EventBody Z) :
  traderCol (serialisePayload b) = traderCol b
  /\ positionIdCol (serialisePayload b) = positionIdCol b
  /\ assetCol (serialisePayload b) = assetCol b
  /\ sizeCol (serialisePayload b) = decimalOfZ <$> sizeCol b
  /\ pnlCol (serialisePayload b) = decimalOfZ <$> pnlCol b.
Proof. by destruct b as [[]| | |]. Qed.

(** ** Numbers *)

(** [BigInt(text)], and the [::numeric] cast, of the decimal texts stored. *)
Definition bigintOf (s : string) : Result Z :=
  match zOfDecimal s with Some z => Ok z | None => Err ("Cannot convert " +:+ s +:+ " to a BigInt") end.

Lemma bigintOf_decimalOfZ z : bigintOf (decimalOfZ z) = Ok z.
Proof. unfold bigintOf. by rewrite zOfDecimal_decimalOfZ. Qed.

(** A numeric column that may be NULL. *)
Definition numericOf (s : option string) : Result (option Z) :=
  match s with None => Ok None | Some s => z ← bigintOf s; Ok (Some z) end.

Lemma numericOf_decimal (z : option Z) : numericOf (decimalOfZ <$> z) = Ok z.
Proof. destruct z as [z|]; [|done]. simpl. by rewrite bigintOf_decimalOfZ. Qed.

(** ** The position join *)

Definition eqOpt {A} (eqb : A -> A -> bool) (x y : option A) : bool :=
  match x, y with Some x, Some y => eqb x y | _, _ => false end.

(** [o.topic = 'position_opened' AND o.contract_id = c.contract_id AND
    o.positionId = c.positionId], where NULL equals nothing. *)
Definition opensOf (c o : EventRow) : bool :=
  String.eqb (topic o) "position_opened" && String.eqb (contractOf o) (contractOf c)
  && eqOpt Z.eqb (positionIdCol (payload o)) (positionIdCol (payload c)).

Definition matchingOpens (rows : list EventRow) (c : EventRow) : list EventRow :=
  bfilter (opensOf c) rows.

Definition innerJoin (rows cs : list EventRow) : list (EventRow * EventRow) :=
  flat_map (fun c => pair c <$> matchingOpens rows c) cs.

Definition leftMatches (rows : list EventRow) (c : EventRow) : list (option EventRow) :=
  match matchingOpens rows c with [] => [None] | os => Some <$> os end.

Definition leftJoin (rows cs : list EventRow) : list (EventRow * option EventRow) :=
  flat_map (fun c => pair c <$> leftMatches rows c) cs.

#[export] Instance matchingOpens_Permutation :
  Proper ((≡ₚ) ==> (=) ==> (≡ₚ)) matchingOpens.
Proof. intros l k Hlk c ? <-. unfold matchingOpens. by rewrite Hlk. Qed.

Lemma leftMatches_Permutation rows rows' c :
  rows ≡ₚ rows' -> leftMatches rows c ≡ₚ leftMatches rows' c.
Proof.
  intros H. unfold leftMatches. pose proof (matchingOpens_Permutation _ _ H c c eq_refl) as Hp.
  destruct (matchingOpens rows c) as [|x l], (matchingOpens rows' c) as [|y k]; try done.
  - by apply Permutation_nil_l in Hp.
  - by apply Permutation_nil_r in Hp.
  - by rewrite Hp.
Qed.

Lemma flat_map_Permutation {A B} (f g : A -> list B) l k :
  (forall x, f x ≡ₚ g x) -> l ≡ₚ k -> flat_map f l ≡ₚ flat_map g k.
Proof.
  intros Hfg. induction 1 as [|x l k H IH|x y l|l k m H1 IH1 H2 IH2]; simpl.
  - done.
  - by rewrite Hfg, IH.
  - rewrite !(assoc (++)), (comm (++) (f y) (f x)), !Hfg. f_equiv.
    clear -Hfg. induction l as [|z l IH]; simpl; [done|]. by rewrite Hfg, IH.
  - etrans; [exact IH1|]. clear -Hfg IH2 H2. etrans; [|exact IH2].
    clear IH2. induction k as [|z k IH] in m, H2 |- *; simpl; [done|].
    rewrite <- Hfg. f_equiv. clear -Hfg. induction k as [|w k IH]; simpl; [done|]. by rewrite Hfg, IH.
Qed.

(** ** Newest first *)

(** [ORDER BY ledger DESC, event_id DESC]; ids are digits and dashes of one
    width, so the collation is byte order. *)
Definition newer (a b : EventRow) : Prop :=
  ledgerOf b < ledgerOf a \/ (ledgerOf a = ledgerOf b /\ (b.1 ≤ a.1)%string).

#[export] Instance newer_dec : RelDecision newer.
Proof. intros a b. unfold newer. apply _. Defined.
#[export] Instance newer_total : Total newer.
Proof.
  intros a b. unfold newer. destruct (Z.lt_trichotomy (ledgerOf a) (ledgerOf b)) as [|[|]]; [tauto| |tauto].
  destruct (total String.le a.1 b.1); [right|left]; right; split; auto.
Qed.
#[export] Instance newer_trans : Transitive newer.
Proof.
  intros a b c [Hab|[Hab Hab']] [Hbc|[Hbc Hbc']]; unfold newer; try (left; lia).
  right. split; [lia|]. by etrans.
Qed.

(** [LIMIT Math.min(max, Math.max(1, limit ?? default))] *)
Definition clampLimit (max dflt : Z) (limit : option Z) : nat :=
  Z.to_nat (Z.min max (Z.max 1 (default dflt limit))).

Lemma clampLimit_bounds max dflt limit :
  1 <= max -> (1 <= clampLimit max dflt limit <= Z.to_nat max)%nat.
Proof. unfold clampLimit. lia. Qed.

(** A missing table is answered by an empty value. *)
Definition orMissing {A B} (dflt : B) (table : option A) (f : A -> Result B) : Result B :=
  match table with None => Ok dflt | Some rows => f rows end.
