(* ===== verification/ApiStats.v ===== *)
(** * The gateway's statistics reads

    Models the reads of api/src/services/stats.ts over the archive and the
    projections (the leaderboard is in ApiBoard): a trader's 14-day volume,
    open interest, bad-debt totals, the trade feed, the order feed and native
    candles, with the candle route's fallback (routes/candles.ts,
    services/binanceCandles.ts). The queries are functions of the tables, which
    may be missing; other database failures, which every read rethrows, are not
    modelled, nor are the caches in front (ApiBoard has the cache class). *)

From S2P Require Import Prelude JsText Candles IndexerEvents IndexerDb ApiEvents.
Open Scope Z_scope.
Open Scope js_scope.

Definition DAY_SEC : Z := 86400.
Definition VOLUME_WINDOW_SEC : Z := 14 * DAY_SEC.
Definition DEFAULT_TRADES_LIMIT : Z := 50.
Definition MAX_TRADES_LIMIT : Z := 200.
Definition DEFAULT_ORDERS_LIMIT : Z := 50.
Definition MAX_ORDERS_LIMIT : Z := 200.
Definition DEFAULT_CANDLES_LIMIT : Z := 500.
Definition MAX_CANDLES_LIMIT : Z := 1000.
Definition PRICE_SCALE : Z := 10000000.

(** [AND contract_id = ?], absent when no market is configured. *)
Definition scoped (marketContractId contract : string) : bool :=
  String.eqb marketContractId EmptyString || String.eqb contract marketContractId.

Definition topicIn (topics : list string) (r : EventRow) : bool :=
  existsb (String.eqb (topic r)) topics.

(** [BigInt(String(row.size ?? 0))], summed *)
Fixpoint sumSizes (sizes : list (option string)) : Result Z :=
  match sizes with
  | [] => Ok 0
  | s :: sizes =>
      z ← bigintOf (default (decimalOfZ 0) s);
      total ← sumSizes sizes; Ok (z + total)
  end.

Lemma sumSizes_decimal (l : list (option Z)) :
  sumSizes ((fun z : option Z => decimalOfZ <$> z) <$> l) = Ok (sumBy (default 0) l).
Proof.
  induction l as [|z l IH]; [done|]. rewrite fmap_cons. cbn [sumSizes sumBy].
  assert (bigintOf (default (decimalOfZ 0) (decimalOfZ <$> z)) = Ok (default 0 z)) as ->
    by (destruct z; apply bigintOf_decimalOfZ).
  by rewrite IH.
Qed.

Section reads.
Context (marketContractId : string).

(** ** A trader's 14-day volume *)

Definition byTrader (address : string) (r : EventRow) : bool :=
  eqOpt String.eqb (traderCol (payload r)) (Some address).

Definition volumeOpens (rows : list EventRow) (address : string) (since : Z) : list EventRow :=
  bfilter (fun r => topicIn ["position_opened"] r && byTrader address r && (since <=? closeTs r)
                    && scoped marketContractId (contractOf r)) rows.

Definition volumeCloses (rows : list EventRow) (address : string) (since : Z) : list EventRow :=
  bfilter (fun r => topicIn ["position_closed"] r && byTrader address r && (since <=? closeTs r)
                    && scoped marketContractId (contractOf r)) rows.

Definition traderVolume14d (table : option (list EventRow)) (address : string) (now : Z) : Result Z :=
  orMissing 0 table (fun rows =>
    let since := now - VOLUME_WINDOW_SEC in
    opens ← sumSizes ((fun r => sizeCol (payload r)) <$> volumeOpens rows address since);
    closes ← sumSizes ((fun co : EventRow * EventRow => sizeCol (payload co.2))
                         <$> innerJoin rows (volumeCloses rows address since));
    Ok (opens + closes)).

(** ** Bad debt *)

Record SolvencyStats := {
  cumulativeBadDebtCovered : string; cumulativeBadDebtLpAbsorbed : string; badDebtEvents : Z }.

Definition computeSolvencyStats (table : option (list BadDebtRow)) : Result SolvencyStats :=
  orMissing {| cumulativeBadDebtCovered := "0"; cumulativeBadDebtLpAbsorbed := "0";
               badDebtEvents := 0 |} table (fun rows =>
    let mine := bfilter (fun r => String.eqb (b_contract_id r) marketContractId) rows in
    covered ← mapR (fun r => bigintOf (b_buffer_covered r)) mine;
    absorbed ← mapR (fun r => bigintOf (b_lp_absorbed r)) mine;
    Ok {| cumulativeBadDebtCovered := decimalOfZ (sumBy id covered);
          cumulativeBadDebtLpAbsorbed := decimalOfZ (sumBy id absorbed);
          badDebtEvents := Z.of_nat (length mine) |}).

(** ** Open interest and 24h volume *)

Record Bucket := { long : Z; short : Z; count : Z; volume : Z }.
Definition emptyBucket : Bucket := {| long := 0; short := 0; count := 0; volume := 0 |}.

(** The map of buckets in insertion order; [bucket] creates the missing one. *)
Fixpoint bucket (asset : string) (f : Bucket -> Bucket) (acc : list (string * Bucket))
  : list (string * Bucket) :=
  match acc with
  | [] => [(asset, f emptyBucket)]
  | (a, b) :: acc => if String.eqb a asset then (a, f b) :: acc else (a, b) :: bucket asset f acc
  end.

Definition addPosition (direction size : Z) (b : Bucket) : Bucket :=
  if direction =? 0
  then {| long := long b + size; short := short b; count := count b + 1; volume := volume b |}
  else {| long := long b; short := short b + size; count := count b + 1; volume := volume b |}.

Definition addVolume (size : Z) (b : Bucket) : Bucket :=
  {| long := long b; short := short b; count := count b; volume := volume b + size |}.

Fixpoint countPositions (rows : list PositionRow) (acc : list (string * Bucket))
  : Result (list (string * Bucket)) :=
  match rows with
  | [] => Ok acc
  | r :: rows =>
      size ← bigintOf (p_size r);
      countPositions rows (bucket (p_asset r) (addPosition (p_direction r) size) acc)
  end.

(** [String(row.asset)] and [BigInt(String(row.size))] of a joined or own row. *)
Fixpoint countVolume (rows : list EventRow) (acc : list (string * Bucket))
  : Result (list (string * Bucket)) :=
  match rows with
  | [] => Ok acc
  | r :: rows =>
      size ← bigintOf (default "null" (sizeCol (payload r)));
      countVolume rows (bucket (default "null" (assetCol (payload r))) (addVolume size) acc)
  end.

Record AssetStats := {
  asset : string; openInterestLong : Z; openInterestShort : Z; openInterestNet : Z;
  openPositions : Z; volume24h : Z }.

Definition assetStats (ab : string * Bucket) : AssetStats := {|
  asset := ab.1; openInterestLong := long ab.2; openInterestShort := short ab.2;
  openInterestNet := long ab.2 - short ab.2; openPositions := count ab.2;
  volume24h := volume ab.2 |}.

Definition computeMarketStats (supported : list string) (positionsTable : option (list PositionRow))
    (eventsTable : option (list EventRow)) (now : Z) : Result (list AssetStats) :=
  let acc := foldl (fun acc a => bucket a (fun b => b) acc) [] supported in
  acc ← orMissing acc positionsTable (fun rows =>
    countPositions (bfilter (fun r => scoped marketContractId (p_contract_id r)) rows) acc);
  acc ← orMissing acc eventsTable (fun rows =>
    let since := now - DAY_SEC in
    let inWindow topics r := topicIn topics r && (since <=? closeTs r)
                             && scoped marketContractId (contractOf r) in
    acc ← countVolume (bfilter (inWindow ["position_opened"]) rows) acc;
    countVolume (snd <$> innerJoin rows
      (bfilter (inWindow ["position_closed"; "position_liquidated"]) rows)) acc);
  Ok (assetStats <$> acc).

(** ** The trade feed *)

Inductive TradeKind := kOpen | kClose | kLiquidation | kCrossLiquidation | kAdl.

Record RealizedTradeRow := {
  rt_positionId : option Z; rt_trader : string; rt_kind : TradeKind; rt_asset : option string;
  rt_direction : option Z; rt_size : option string; rt_entryPrice : option string;
  rt_closePrice : option string; rt_pnl : option string; rt_ledger : Z; rt_ts : Z;
  rt_txHash : string }.

Definition tradeKind (t : string) : TradeKind :=
  if String.eqb t "position_opened" then kOpen
  else if String.eqb t "cross_liq" then kCrossLiquidation
  else if String.eqb t "position_liquidated" then kLiquidation
  else if String.eqb t "adl_executed" then kAdl else kClose.

(** [a ?? b] *)
Definition orElse {A} (a b : option A) : option A := match a with Some _ => a | None => b end.

Definition mapRealizedRow (row : EventRow * option (EventBody string)) : RealizedTradeRow :=
  let p := payload row.1 in
  let kind := tradeKind (topic row.1) in
  {| rt_positionId := match kind with
                      | kCrossLiquidation => None
                      | _ => Some (default 0 (positionIdCol p))
                      end;
     rt_trader := default EmptyString (traderCol p); rt_kind := kind;
     rt_asset := orElse (row.2 ≫= assetCol) (assetCol p);
     rt_direction := orElse (row.2 ≫= directionCol) (directionCol p);
     rt_size := orElse (row.2 ≫= sizeCol) (sizeCol p);
     rt_entryPrice := row.2 ≫= entryPriceCol;
     rt_closePrice := match kind with kOpen => None | _ => orElse (closePriceCol p) (priceCol p) end;
     rt_pnl := match kind with
               | kClose | kAdl => pnlCol p
               | kCrossLiquidation => totalPnlCol p
               | _ => None
               end;
     rt_ledger := ledgerOf row.1; rt_ts := closeTs row.1; rt_txHash := row_tx_hash row.1.2 |}.

(** An empty text filter is no filter. *)
Record TradeQuery := {
  q_trader : option string; q_asset : option string; q_beforeTs : option Z;
  q_limit : option Z; q_includeOpens : bool }.

Definition given (s : option string) : option string :=
  match s with Some s' => if String.eqb s' EmptyString then None else s | None => None end.

Definition sharedConditions (q : TradeQuery) (c : EventRow) : bool :=
  scoped marketContractId (contractOf c)
  && match given (q_trader q) with Some t => byTrader t c | None => true end
  && match q_beforeTs q with Some ts => closeTs c <? ts | None => true end.

Definition assetIs (q : TradeQuery) (b : option (EventBody string)) : bool :=
  match given (q_asset q) with
  | Some a => eqOpt String.eqb (b ≫= assetCol) (Some a)
  | None => true
  end.

Definition TradeBranch : Type := list (EventRow * option (EventBody string)).

Definition realizedBranch (rows : list EventRow) (q : TradeQuery) : TradeBranch :=
  bfilter (fun co => assetIs q co.2)
    ((fun co : EventRow * option EventRow => (co.1, payload <$> co.2)) <$>
      leftJoin rows (bfilter (fun c =>
        topicIn ["position_closed"; "position_liquidated"; "adl_executed"] c
        && sharedConditions q c) rows)).

Definition crossBranch (rows : list EventRow) (q : TradeQuery) : TradeBranch :=
  match given (q_asset q) with
  | Some _ => []
  | None => (fun c => (c, None)) <$> bfilter (fun c => topicIn ["cross_liq"] c && sharedConditions q c) rows
  end.

Definition opensBranch (rows : list EventRow) (q : TradeQuery) : TradeBranch :=
  if q_includeOpens q then
    bfilter (fun co => assetIs q co.2)
      ((fun c => (c, Some (payload c))) <$>
         bfilter (fun c => topicIn ["position_opened"] c && sharedConditions q c) rows)
  else [].

Definition merged (rows : list EventRow) (q : TradeQuery) : TradeBranch :=
  realizedBranch rows q ++ crossBranch rows q ++ opensBranch rows q.

Definition newerTrade (a b : EventRow * option (EventBody string)) : Prop := newer a.1 b.1.

#[export] Instance newerTrade_dec : RelDecision newerTrade.
Proof. intros a b. unfold newerTrade. apply _. Defined.

Definition recentTrades (table : option (list EventRow)) (q : TradeQuery)
  : Result (list RealizedTradeRow) :=
  orMissing [] table (fun rows =>
    Ok (mapRealizedRow <$>
      take (clampLimit MAX_TRADES_LIMIT DEFAULT_TRADES_LIMIT (q_limit q))
        (merge_sort newerTrade (merged rows q)))).

(** ** The order feed *)

Inductive OrderEventStatus := open_ | executed | cancelled.

Record OrderEventRow := {
  o_orderId : Z; o_trader : string; o_triggerPrice : string; o_status : OrderEventStatus;
  o_ledger : Z; o_ts : Z; o_txHash : string }.

(** [EXISTS] a terminal event of the same order and contract. *)
Definition terminal (rows : list EventRow) (name : string) (p : EventRow) : bool :=
  existsb (fun t => String.eqb (topic t) name && String.eqb (contractOf t) (contractOf p)
                    && eqOpt Z.eqb (orderIdCol (payload t)) (orderIdCol (payload p))) rows.

Definition orderStatus (rows : list EventRow) (p : EventRow) : OrderEventStatus :=
  if terminal rows "order_executed" p then executed
  else if terminal rows "order_cancelled" p then cancelled else open_.

Definition mapOrderEventRow (rows : list EventRow) (p : EventRow) : OrderEventRow := {|
  o_orderId := default 0 (orderIdCol (payload p));
  o_trader := default EmptyString (traderCol (payload p));
  o_triggerPrice := default "0" (triggerPriceCol (payload p));
  o_status := orderStatus rows p;
  o_ledger := ledgerOf p; o_ts := closeTs p; o_txHash := row_tx_hash p.2 |}.

Definition placedOrders (rows : list EventRow) (trader : option string) (openOnly : bool)
  : list EventRow :=
  bfilter (fun p =>
    topicIn ["order_placed"] p && scoped marketContractId (contractOf p)
    && match given trader with Some t => byTrader t p | None => true end
    && (if openOnly then negb (terminal rows "order_executed" p)
                         && negb (terminal rows "order_cancelled" p) else true)) rows.

Definition listOrders (table : option (list EventRow)) (trader : option string) (openOnly : bool)
    (limit : option Z) : Result (list OrderEventRow) :=
  orMissing [] table (fun rows =>
    Ok (mapOrderEventRow rows <$>
      take (clampLimit MAX_ORDERS_LIMIT DEFAULT_ORDERS_LIMIT limit)
        (merge_sort newer (placedOrders rows trader openOnly)))).
End reads.

(** ** Candles *)

Import Candles.Bucketing (CandleRow, bucketTs, c_open, c_high, c_low, c_close).

Definition CandleTable : Type := gmap (string * string * Z) CandleRow.

Record CandlePoint := { time : Z; open : number; high : number; low : number; close : number }.

Definition candlePointFromRow (r : CandleRow) : CandlePoint :=
  let price z := divN (numberOfZ z) (numberOfZ PRICE_SCALE) in
  {| time := bucketTs r; open := price (c_open r); high := price (c_high r);
     low := price (c_low r); close := price (c_close r) |}.

Definition candleRows (t : CandleTable) (asset interval : string) : list CandleRow :=
  snd <$> bfilter (fun kv => bool_decide (kv.1.1 = (asset, interval))) (map_to_list t).

Definition laterBucket (a b : CandleRow) : Prop := bucketTs b <= bucketTs a.

#[export] Instance laterBucket_dec : RelDecision laterBucket.
Proof. intros a b. unfold laterBucket. apply _. Defined.

(** The rows of the query, reversed to oldest first. *)
Definition latestCandles (t : CandleTable) (asset interval : string) (limit : nat) : list CandleRow :=
  reverse (take limit (merge_sort laterBucket (candleRows t asset interval))).

Definition queryCandles (table : option CandleTable) (asset interval : string) (limit : nat)
  : Result (list CandlePoint) :=
  orMissing [] table (fun t => Ok (candlePointFromRow <$> latestCandles t asset interval limit)).

Definition candles (table : option CandleTable) (asset interval : string) (limit : option Z)
  : Result (list CandlePoint) :=
  queryCandles table asset interval (clampLimit MAX_CANDLES_LIMIT DEFAULT_CANDLES_LIMIT limit).

(** One endpoint's answer: a status outside 200-299, a failure of the fetch or
    of the body, or the parsed klines. *)
Inductive BinanceAnswer := BadStatus (code : Z) | FetchFailed | Klines (points : list CandlePoint).

Definition BINANCE_BASES : list string :=
  ["https://api.binance.us/api/v3"; "https://api4.binance.com/api/v3";
   "https://api1.binance.com/api/v3"; "https://api.binance.com/api/v3"].

Definition BINANCE_PAIRS : list (string * string) :=
  (fun a => (a, a +:+ "USDT")) <$>
    ["BTC"; "ETH"; "XLM"; "SOL"; "XRP"; "ADA"; "BNB"; "TRX"; "DOGE"; "ZEC"; "LINK"; "BCH"; "LTC"].

Fixpoint firstKlines (answers : string -> BinanceAnswer) (bases : list string) : list CandlePoint :=
  match bases with
  | [] => []
  | base :: bases =>
      match answers base with Klines points => points | _ => firstKlines answers bases end
  end.

Definition fetchBinanceCandles (answers : string -> BinanceAnswer) (asset interval : string)
    (limit : Z) : list CandlePoint :=
  match List.find (fun kv : string * string => String.eqb kv.1 asset) BINANCE_PAIRS with
  | None => []
  | Some (_, quoted) =>
      let path := "/klines?symbol=" +:+ quoted +:+ "&interval=" +:+ interval +:+ "&limit="
                  +:+ decimalOfZ limit in
      firstKlines (fun base => answers (base +:+ path)) BINANCE_BASES
  end.

Inductive CandleSource := noeracle | binance.

(** The handler of GET /v1/candles after the schema's checks. *)
Definition candlesRoute (table : option CandleTable) (answers : string -> BinanceAnswer)
    (asset interval : string) (limit : Z) : Result (list CandlePoint * CandleSource) :=
  native ← candles table asset interval (Some limit);
  match native with
  | [] => Ok (fetchBinanceCandles answers asset interval limit, binance)
  | _ => Ok (native, noeracle)
  end.

(** ** The volume is what the contract recorded *)

Definition rowOfEvent (e : Event Z) : EventRow := (ev_id (env e), rawRow e).

Lemma size_rowOfEvent e : sizeCol (payload (rowOfEvent e)) = decimalOfZ <$> sizeCol (body e).
Proof. apply columns_serialised. Qed.

Lemma sumSizes_rows (events : list (Event Z)) :
  sumSizes ((fun r => sizeCol (payload r)) <$> (rowOfEvent <$> events))
  = Ok (sumBy (fun e => default 0 (sizeCol (body e))) events).
Proof.
  rewrite <- (sumBy_fmap (default 0) (fun e => sizeCol (body e))), <- sumSizes_decimal.
  f_equal. rewrite <- !list_fmap_compose. apply list_fmap_ext. intros i e _. simpl.
  apply size_rowOfEvent.
Qed.

(** Joined rows come from events too. *)
Lemma innerJoin_events (events cs : list (Event Z)) :
  innerJoin (archiveOf events) (rowOfEvent <$> cs)
  = (fun ce : Event Z * Event Z => (rowOfEvent ce.1, rowOfEvent ce.2)) <$>
      flat_map (fun c => pair c <$> bfilter (fun o => opensOf (rowOfEvent c) (rowOfEvent o)) events) cs.
Proof.
  unfold innerJoin. induction cs as [|c cs IH]; [done|]. rewrite fmap_cons. cbn [flat_map].
  rewrite IH, fmap_app. f_equal. unfold matchingOpens, archiveOf. fold rowOfEvent.
  rewrite bfilter_fmap, <- !list_fmap_compose. done.
Qed.

Section volume.
Context (marketContractId address : string) (now : Z).

Definition counted (e : Event Z) (trader : string) : bool :=
  String.eqb trader address && (now - VOLUME_WINDOW_SEC <=? ev_ledgerCloseTs (env e))
  && scoped marketContractId (ev_contractId (env e)).

(** What the market contract adds to the trader's volume record when it emits
    the event: opens, closes and partial closes record the traded size,
    liquidations and deleveraging nothing. *)
Definition recorded (e : Event Z) : Z :=
  match market (body e) with
  | Some (PositionOpened _ t _ _ size _) | Some (PositionClosed _ t _ _ size _ _ _)
  | Some (PositionReduced _ t _ size _ _ _) => if counted e t then size else 0
  | _ => 0
  end.

Definition closeMatched (events : list (Event Z)) (c : Event Z) : Prop :=
  exists o, bfilter (fun o => opensOf (rowOfEvent c) (rowOfEvent o)) events = [o]
            /\ sizeCol (body o) = sizeCol (body c).

Definition countedClose (e : Event Z) : bool :=
  match market (body e) with Some (PositionClosed _ t _ _ _ _ _ _) => counted e t | _ => false end.
Definition countedOpen (e : Event Z) : bool :=
  match market (body e) with Some (PositionOpened _ t _ _ _ _) => counted e t | _ => false end.
Definition countedReduction (e : Event Z) : bool :=
  match market (body e) with Some (PositionReduced _ t _ _ _ _ _) => counted e t | _ => false end.

Lemma byTrader_row e : byTrader address (rowOfEvent e) = eqOpt String.eqb (traderCol (body e)) (Some address).
Proof. unfold byTrader. f_equal. apply columns_serialised. Qed.

Lemma topicIn_market e m t :
  market (body e) = Some m -> topicIn [t] (rowOfEvent e) = String.eqb (marketTopic m) t.
Proof.
  unfold topicIn, topic. simpl. rewrite orb_false_r. unfold topicOf.
  destruct (body e); simpl; intros [= ->]. done.
Qed.

Lemma volumeOpens_events events :
  volumeOpens marketContractId (archiveOf events) address (now - VOLUME_WINDOW_SEC)
  = rowOfEvent <$> bfilter countedOpen events.
Proof.
  unfold volumeOpens, archiveOf. fold rowOfEvent. rewrite bfilter_fmap. f_equal.
  apply bfilter_ext. intros e _. rewrite byTrader_row. unfold countedOpen, counted.
  destruct (market (body e)) as [m|] eqn:Em.
  - rewrite (topicIn_market e m) by done. unfold traderCol. rewrite Em.
    destruct m as [| | | | | | | | | | | | | | | |[]| |[]]; simpl; rewrite ?andb_false_r; done.
  - unfold traderCol. rewrite Em. simpl. by rewrite andb_false_r.
Qed.

Lemma volumeCloses_events events :
  volumeCloses marketContractId (archiveOf events) address (now - VOLUME_WINDOW_SEC)
  = rowOfEvent <$> bfilter countedClose events.
Proof.
  unfold volumeCloses, archiveOf. fold rowOfEvent. rewrite bfilter_fmap. f_equal.
  apply bfilter_ext. intros e _. rewrite byTrader_row. unfold countedClose, counted.
  destruct (market (body e)) as [m|] eqn:Em.
  - rewrite (topicIn_market e m) by done. unfold traderCol. rewrite Em.
    destruct m as [| | | | | | | | | | | | | | | |[]| |[]]; simpl; rewrite ?andb_false_r; done.
  - unfold traderCol. rewrite Em. simpl. by rewrite andb_false_r.
Qed.

(** The value the gateway serves, before any assumption on the archive: the
    sizes of the counted opens, and for each counted close the sizes of all the
    opens it matches. *)
Lemma volume_value events :
  traderVolume14d marketContractId (Some (archiveOf events)) address now
  = Ok (sumBy (fun e => default 0 (sizeCol (body e))) (bfilter countedOpen events)
        + sumBy (fun c => sumBy (fun o => default 0 (sizeCol (body o)))
                            (bfilter (fun o => opensOf (rowOfEvent c) (rowOfEvent o)) events))
            (bfilter countedClose events)).
Proof.
  unfold traderVolume14d, orMissing. rewrite volumeOpens_events, volumeCloses_events, sumSizes_rows.
  rewrite innerJoin_events.
  match goal with |- context [sumSizes (?f <$> (?g <$> ?l))] =>
    assert (f <$> (g <$> l) = (fun r => sizeCol (payload r)) <$> (rowOfEvent <$> (snd <$> l))) as ->
    by (rewrite <- !list_fmap_compose; done) end.
  rewrite sumSizes_rows. simpl. do 2 f_equal.
  rewrite sumBy_fmap, sumBy_flat_map. apply sumBy_ext. intros c _. by rewrite sumBy_fmap.
Qed.

(** When every counted close has its one open in the archive, with the size the
    close settled, and no partial close is in the window, the 14-day volume
    served is exactly what the contract recorded for the trader. *)
Theorem volume14d_mirrors_contract events :
  (forall c, c ∈ events -> countedClose c = true -> closeMatched events c) ->
  (forall e, e ∈ events -> countedReduction e = false) ->
  traderVolume14d marketContractId (Some (archiveOf events)) address now
  = Ok (sumBy recorded events).
Proof.
  intros Hclose Hred. rewrite volume_value, !sumBy_bfilter, <- sumBy_plus. f_equal.
  apply sumBy_ext. intros e He. specialize (Hclose e He). specialize (Hred e He).
  unfold recorded, countedReduction, countedOpen, countedClose in *.
  destruct (market (body e)) as [m|] eqn:Em; [|done].
  destruct m; try done; try (by rewrite Hred); destruct (counted e trader); try done.
  - unfold sizeCol. rewrite Em. simpl. lia.
  - destruct (Hclose eq_refl) as (o & -> & Ho). simpl. rewrite Ho. unfold sizeCol. rewrite Em. simpl. lia.
Qed.
End volume.

(** A position opened with 300 and closed with 300, and one opened by another
    deployment under the same id. *)
Definition ev_of (id contract : string) (ledger ts : Z) (b : MarketBody Z) : Event Z :=
  {| env := {| ev_id := id; ev_contractId := contract; ev_ledger := ledger;
               ev_ledgerCloseTs := ts; ev_txHash := "tx" |}; body := MarketEvent b |}.

Definition tradedArchive : list (Event Z) :=
  [ev_of "1" "COLD" 5 100 (PositionOpened 1 "GA" "BTC" 0 9000 1);
   ev_of "2" "CMKT" 10 1000000 (PositionOpened 1 "GA" "BTC" 0 300 1);
   ev_of "3" "CMKT" 20 1000100 (PositionClosed 1 "GA" "BTC" 0 300 1 2 300)].

Lemma volume14d_mirrors_contract_witness :
  traderVolume14d "CMKT" (Some (archiveOf tradedArchive)) "GA" 1500000
  = Ok (sumBy (recorded "CMKT" "GA" 1500000) tradedArchive)
  /\ sumBy (recorded "CMKT" "GA" 1500000) tradedArchive = 600.
Proof.
  split; [|vm_compute; reflexivity].
  apply (volume14d_mirrors_contract "CMKT" "GA" 1500000 tradedArchive).
  - intros c Hc Hcl. assert (c = ev_of "3" "CMKT" 20 1000100 (PositionClosed 1 "GA" "BTC" 0 300 1 2 300)) as ->.
    { unfold tradedArchive in Hc. rewrite !elem_of_cons in Hc.
      destruct Hc as [->|[->|[->|Hc]]]; [discriminate Hcl|discriminate Hcl|done|by apply elem_of_nil in Hc]. }
    eexists. split; vm_compute; reflexivity.
  - intros e He. unfold tradedArchive in He. rewrite !elem_of_cons in He.
    destruct He as [->|[->|[->|He]]]; [reflexivity..|by apply elem_of_nil in He].
Defined.

(** A partial close is not counted: the contract has recorded 400 of volume,
    the gateway serves 300 until the rest is closed, and after a partial
    liquidation, which records nothing, it serves too much. *)
Example reduction_not_counted :
  let archive := [ev_of "1" "CMKT" 10 1000000 (PositionOpened 1 "GA" "BTC" 0 300 1);
                  ev_of "2" "CMKT" 20 1000100 (PositionReduced 1 "GA" "BTC" 100 200 2 50)] in
  traderVolume14d "CMKT" (Some (archiveOf archive)) "GA" 1500000 = Ok 300
  /\ sumBy (recorded "CMKT" "GA" 1500000) archive = 400.
Proof. split; vm_compute; reflexivity. Qed.

Example partial_liquidation_overcounted :
  let archive := [ev_of "1" "CMKT" 10 1000000 (PositionOpened 1 "GA" "BTC" 0 300 1);
                  ev_of "2" "CMKT" 20 1000100 (PositionPartialLiq 1 "GA" "BTC" 0 100 1 2);
                  ev_of "3" "CMKT" 30 1000200 (PositionClosed 1 "GA" "BTC" 0 200 1 2 0)] in
  traderVolume14d "CMKT" (Some (archiveOf archive)) "GA" 1500000 = Ok 600
  /\ sumBy (recorded "CMKT" "GA" 1500000) archive = 500.
Proof. split; vm_compute; reflexivity. Qed.

(** ** The trade feed lists each event once *)

Lemma leftJoin_fst rows cs :
  (forall c, c ∈ cs -> (length (matchingOpens rows c) <= 1)%nat) -> fst <$> leftJoin rows cs = cs.
Proof.
  unfold leftJoin. induction cs as [|c cs IH]; intros H; [done|]. cbn [flat_map].
  rewrite fmap_app, IH by (intros d Hd; apply H; by right).
  specialize (H c). unfold leftMatches.
  destruct (matchingOpens rows c) as [|o [|o' os]] eqn:E; [done..|].
  simpl in H. specialize (H ltac:(by left)). lia.
Qed.

Lemma NoDup_fmap_bfilter {A B} (f : A -> B) p l : NoDup (f <$> l) -> NoDup (f <$> bfilter p l).
Proof.
  induction l as [|x l IH]; intros H; [done|]. rewrite fmap_cons in H.
  apply NoDup_cons in H as [Hx H]. cbn [bfilter]. destruct (p x); [|by apply IH].
  rewrite fmap_cons. apply NoDup_cons. split; [|by apply IH].
  intros (y & Hfy & Hy)%list_elem_of_fmap. apply Hx, list_elem_of_fmap. exists y.
  split; [done|]. by apply elem_of_bfilter in Hy as [Hy _].
Qed.

Lemma bfilter_true {A} (p : A -> bool) l : (forall x, p x = true) -> bfilter p l = l.
Proof. intros H. induction l as [|x l IH]; simpl; [done|]. by rewrite H, IH. Qed.

#[export] Instance newerTrade_total : Total newerTrade.
Proof. intros a b. unfold newerTrade. apply (newer_total a.1 b.1). Qed.
#[export] Instance newerTrade_trans : Transitive newerTrade.
Proof. intros a b c. unfold newerTrade. apply newer_trans. Qed.

Lemma fst_pairs {A B} (f : A -> B) (l : list A) : fst <$> ((fun x => (x, f x)) <$> l) = l.
Proof.
  rewrite <- list_fmap_compose. trans (id <$> l); [by apply list_fmap_ext | apply list_fmap_id].
Qed.

Section feed.
Context (marketContractId : string).

(** The events a query without an asset filter asks for. *)
Definition inFeed (q : TradeQuery) (r : EventRow) : bool :=
  sharedConditions marketContractId q r
  && (topicIn ["position_closed"; "position_liquidated"; "adl_executed"; "cross_liq"] r
      || q_includeOpens q && topicIn ["position_opened"] r).

Definition realizedSelected (q : TradeQuery) (c : EventRow) : bool :=
  topicIn ["position_closed"; "position_liquidated"; "adl_executed"] c
  && sharedConditions marketContractId q c.

Lemma realized_fst rows q :
  (forall c, c ∈ rows -> (length (matchingOpens rows c) <= 1)%nat) ->
  fst <$> ((fun co : EventRow * option EventRow => (co.1, payload <$> co.2)) <$>
      leftJoin rows (bfilter (realizedSelected q) rows))
  = bfilter (realizedSelected q) rows.
Proof.
  intros Hone. rewrite <- list_fmap_compose.
  trans (fst <$> leftJoin rows (bfilter (realizedSelected q) rows)); [by apply list_fmap_ext|].
  apply leftJoin_fst. intros c [Hc _]%elem_of_bfilter.
  by apply Hone.
Qed.

Lemma topicIn_spec ts r : topicIn ts r = true <-> topic r ∈ ts.
Proof.
  unfold topicIn. rewrite existsb_exists. split.
  - intros (x & Hx & ->%String.eqb_eq). by apply list_elem_of_In.
  - intros H. exists (topic r). rewrite String.eqb_refl. split; [by apply list_elem_of_In | done].
Qed.

Definition selected (q : TradeQuery) (rows : list EventRow) (ts : list string) (x : EventRow) : Prop :=
  x ∈ rows /\ topic x ∈ ts /\ sharedConditions marketContractId q x = true.

Lemma selected_bfilter rows q ts x :
  x ∈ bfilter (fun c => topicIn ts c && sharedConditions marketContractId q c) rows
  <-> selected q rows ts x.
Proof. unfold selected. by rewrite elem_of_bfilter, andb_true_iff, topicIn_spec. Qed.

Lemma realized_sound rows q x :
  (forall c, c ∈ rows -> (length (matchingOpens rows c) <= 1)%nat) ->
  x ∈ (fst <$> realizedBranch marketContractId rows q) ->
  selected q rows ["position_closed"; "position_liquidated"; "adl_executed"] x.
Proof.
  intros Hone (co & -> & [Hco _]%elem_of_bfilter)%list_elem_of_fmap.
  apply selected_bfilter. fold (realizedSelected q). rewrite <- (realized_fst rows q Hone).
  apply list_elem_of_fmap. by exists co.
Qed.

Lemma cross_sound rows q x :
  x ∈ (fst <$> crossBranch marketContractId rows q) -> selected q rows ["cross_liq"] x.
Proof.
  unfold crossBranch. destruct (given (q_asset q)); [by intros ?%elem_of_nil|].
  rewrite fst_pairs. apply selected_bfilter.
Qed.

Lemma opens_sound rows q x :
  x ∈ (fst <$> opensBranch marketContractId rows q) ->
  q_includeOpens q = true /\ selected q rows ["position_opened"] x.
Proof.
  unfold opensBranch. destruct (q_includeOpens q); [|by intros ?%elem_of_nil].
  intros (co & -> & [Hco _]%elem_of_bfilter)%list_elem_of_fmap.
  apply list_elem_of_fmap in Hco as (c & -> & Hc). split; [done|]. by apply selected_bfilter in Hc.
Qed.

Lemma merged_sound rows q x :
  (forall c, c ∈ rows -> (length (matchingOpens rows c) <= 1)%nat) ->
  x ∈ (fst <$> merged marketContractId rows q) -> x ∈ rows /\ inFeed q x = true.
Proof.
  intros Hone. unfold merged, inFeed. rewrite !fmap_app, !elem_of_app.
  intros [H%realized_sound|[H%cross_sound|[-> H]%opens_sound]]; [|done|..];
    destruct H as (Hx & Ht & ->); (split; [done|]); apply orb_true_iff;
    [left|left|right]; apply topicIn_spec; set_solver.
Qed.

Lemma merged_complete rows q r :
  (forall c, c ∈ rows -> (length (matchingOpens rows c) <= 1)%nat) ->
  given (q_asset q) = None -> r ∈ rows -> inFeed q r = true ->
  r ∈ (fst <$> merged marketContractId rows q).
Proof.
  intros Hone Ha Hr Hin. unfold merged, inFeed in *. rewrite !fmap_app, !elem_of_app.
  apply andb_true_iff in Hin as [Hs Hin].
  assert (forall b, assetIs q b = true) as Hasset by (intros b; unfold assetIs; by rewrite Ha).
  apply orb_true_iff in Hin as [Hin%topicIn_spec|[Ho Ht%topicIn_spec]%andb_true_iff].
  - destruct (decide (topic r = "cross_liq")) as [Ht|Ht].
    + right; left. unfold crossBranch. rewrite Ha, fst_pairs. apply selected_bfilter.
      split_and!; [done|rewrite Ht; by left|done].
    + left. unfold realizedBranch. rewrite bfilter_true by (intros; apply Hasset).
      fold (realizedSelected q). rewrite realized_fst by done. apply selected_bfilter.
      split_and!; [done|set_solver|done].
  - right; right. unfold opensBranch. rewrite Ho, bfilter_true by (intros; apply Hasset).
    rewrite fst_pairs. by apply selected_bfilter.
Qed.

Lemma topics_apart ts us (x : string) :
  forallb (fun t => negb (existsb (String.eqb t) us)) ts = true -> x ∈ ts -> x ∈ us -> False.
Proof.
  rewrite forallb_forall. intros H Ht Hu. apply list_elem_of_In in Ht, Hu.
  specialize (H x Ht). apply negb_true_iff, not_true_iff_false in H. apply H, existsb_exists.
  exists x. split; [done|apply String.eqb_refl].
Qed.

Lemma merged_NoDup rows q :
  NoDup rows -> (forall c, c ∈ rows -> (length (matchingOpens rows c) <= 1)%nat) ->
  NoDup (fst <$> merged marketContractId rows q).
Proof.
  intros Hnd Hone. unfold merged. rewrite !fmap_app. apply NoDup_app. split_and!.
  - unfold realizedBranch. apply NoDup_fmap_bfilter. fold (realizedSelected q).
    rewrite realized_fst by done. by apply NoDup_bfilter.
  - intros x (_ & Hx & _)%realized_sound; [|done]. rewrite elem_of_app.
    intros [(_ & H & _)%cross_sound|[_ (_ & H & _)]%opens_sound];
      by eapply topics_apart; [| exact Hx | exact H].
  - apply NoDup_app. split_and!.
    + unfold crossBranch. destruct (given (q_asset q)); [by apply NoDup_nil|].
      rewrite fst_pairs. by apply NoDup_bfilter.
    + intros x (_ & Hx & _)%cross_sound [_ (_ & H & _)]%opens_sound.
      by eapply topics_apart; [| exact Hx | exact H].
    + unfold opensBranch. destruct (q_includeOpens q); [|by apply NoDup_nil].
      apply NoDup_fmap_bfilter. rewrite fst_pairs. by apply NoDup_bfilter.
Qed.

(** When no two opens share a contract and a position id, the feed shows no
    event twice and is newest first up to its limit; with no asset filter its
    events are exactly those the query asks for. *)
Theorem trade_feed_lists_each_event_once rows q :
  NoDup rows -> (forall c, c ∈ rows -> (length (matchingOpens rows c) <= 1)%nat) ->
  exists feed,
    recentTrades marketContractId (Some rows) q
    = Ok (mapRealizedRow <$> take (clampLimit MAX_TRADES_LIMIT DEFAULT_TRADES_LIMIT (q_limit q)) feed)
    /\ NoDup (fst <$> feed) /\ StronglySorted newerTrade feed
    /\ (forall r, r ∈ (fst <$> feed) -> r ∈ rows /\ inFeed q r = true)
    /\ (given (q_asset q) = None -> forall r, r ∈ rows -> inFeed q r = true -> r ∈ (fst <$> feed)).
Proof.
  intros Hnd Hone. exists (merge_sort newerTrade (merged marketContractId rows q)).
  assert (fst <$> merge_sort newerTrade (merged marketContractId rows q)
          ≡ₚ fst <$> merged marketContractId rows q) as Hp by (by rewrite merge_sort_Permutation).
  split; [done|]. rewrite Hp. split_and!.
  - by apply merged_NoDup.
  - apply StronglySorted_merge_sort; apply _.
  - intros r Hr. rewrite Hp in Hr. by apply merged_sound.
  - intros Ha r Hr Hin. rewrite Hp. by apply merged_complete.
Qed.
End feed.

(** A close, an account liquidation and an open; two events share a ledger. *)
Definition feedArchive : list (Event Z) :=
  [ev_of "1" "CMKT" 10 1000 (PositionOpened 1 "GA" "BTC" 0 300 7);
   ev_of "2" "CMKT" 20 1100 (PositionClosed 1 "GA" "BTC" 0 300 7 8 5);
   ev_of "3" "CMKT" 20 1100 (CrossLiquidated "GB" (-9) 1)].

Definition everything : TradeQuery := {|
  q_trader := None; q_asset := None; q_beforeTs := None; q_limit := None; q_includeOpens := true |}.

Example feed_rows :
  (fun l => (fun t => (rt_kind t, rt_asset t, rt_pnl t)) <$> l) <$>
    recentTrades "CMKT" (Some (archiveOf feedArchive)) everything
  = Ok [(kCrossLiquidation, None, Some "-9"); (kClose, Some "BTC", Some "5");
        (kOpen, Some "BTC", None)].
Proof. vm_compute. reflexivity. Qed.

Lemma trade_feed_lists_each_event_once_witness :
  exists feed,
    recentTrades "CMKT" (Some (archiveOf feedArchive)) everything
    = Ok (mapRealizedRow <$> take (clampLimit MAX_TRADES_LIMIT DEFAULT_TRADES_LIMIT (q_limit everything)) feed)
    /\ NoDup (fst <$> feed) /\ StronglySorted newerTrade feed
    /\ (forall r, r ∈ (fst <$> feed) -> r ∈ archiveOf feedArchive /\ inFeed "CMKT" everything r = true)
    /\ (given (q_asset everything) = None -> forall r, r ∈ archiveOf feedArchive ->
          inFeed "CMKT" everything r = true -> r ∈ (fst <$> feed)).
Proof.
  apply (trade_feed_lists_each_event_once "CMKT" (archiveOf feedArchive) everything).
  - repeat (apply NoDup_cons; split; [vm_compute; set_solver|]). apply NoDup_nil_2.
  - assert (forallb (fun c => Nat.leb (length (matchingOpens (archiveOf feedArchive) c)) 1)
      (archiveOf feedArchive) = true) as H by (vm_compute; reflexivity).
    intros c Hc. rewrite forallb_forall in H. apply Nat.leb_le, H. by apply list_elem_of_In.
Defined.

(** Paging with [before_ts] drops events: the page of one row ends inside a
    group of equal timestamps and the next page starts below it. *)
Example before_ts_skips :
  let page ts := (fun l => (fun t => rt_kind t) <$> l) <$>
    recentTrades "CMKT" (Some (archiveOf feedArchive))
      {| q_trader := None; q_asset := None; q_beforeTs := ts; q_limit := Some 1;
         q_includeOpens := true |} in
  page None = Ok [kCrossLiquidation] /\ page (Some 1100) = Ok [kOpen].
Proof. split; vm_compute; reflexivity. Qed.

(** ** The order feed follows the order's life *)

Definition isOrder (id : Z) (contract : string) (e : Event Z) : bool :=
  eqOpt Z.eqb (orderIdCol (body e)) (Some id) && String.eqb (ev_contractId (env e)) contract.

(** The state of an order after a run of events: placed, then executed or
    cancelled. *)
Definition lifeStep (id : Z) (contract : string) (st : option OrderEventStatus) (e : Event Z)
  : option OrderEventStatus :=
  if isOrder id contract e then
    match market (body e) with
    | Some (OrderPlaced _ _ _) => Some open_
    | Some (OrderExecuted _ _) => Some executed
    | Some (OrderCancelled _ _) => Some cancelled
    | _ => st
    end
  else st.

Definition lifeOf (id : Z) (contract : string) (events : list (Event Z)) : option OrderEventStatus :=
  foldl (lifeStep id contract) None events.

(** The event is [name] of the order. *)
Definition orderEvent (name : string) (id : Z) (contract : string) (e : Event Z) : bool :=
  isOrder id contract e && String.eqb (topicOf e) name.

Lemma orderIdCol_serialised (b : EventBody Z) : orderIdCol (serialisePayload b) = orderIdCol b.
Proof. by destruct b as [[]| | |]. Qed.

Lemma terminal_events events name p id trader price :
  body p = MarketEvent (OrderPlaced id trader price) ->
  terminal (archiveOf events) name (rowOfEvent p)
  = existsb (orderEvent name id (ev_contractId (env p))) events.
Proof.
  intros Hp. unfold terminal, archiveOf. fold rowOfEvent. induction events as [|e events IH]; [done|].
  rewrite fmap_cons. cbn [existsb]. rewrite IH. f_equal. unfold orderEvent, isOrder.
  change (payload (rowOfEvent e)) with (serialisePayload (body e)).
  change (payload (rowOfEvent p)) with (serialisePayload (body p)).
  rewrite !orderIdCol_serialised, Hp. change (topic (rowOfEvent e)) with (topicOf e).
  change (contractOf (rowOfEvent e)) with (ev_contractId (env e)).
  change (contractOf (rowOfEvent p)) with (ev_contractId (env p)). cbn [orderIdCol market].
  destruct (String.eqb (topicOf e) name), (String.eqb _ _), (eqOpt _ _ _); done.
Qed.

Lemma lifeStep_cases id contract st e :
  lifeStep id contract st e
  = if orderEvent "order_placed" id contract e then Some open_
    else if orderEvent "order_executed" id contract e then Some executed
    else if orderEvent "order_cancelled" id contract e then Some cancelled else st.
Proof.
  unfold lifeStep, orderEvent, topicOf. destruct (isOrder id contract e) eqn:E; [|done].
  unfold isOrder, orderIdCol in E. destruct (body e) as [m| | |]; try done.
  by destruct m as [| | | | | | | | | | | | | | | |[]| |[]].
Qed.

(** After the placement no other placement follows, and at most one of the two
    terminal events does. *)
Lemma life_after id contract events st :
  (forall e, e ∈ events -> orderEvent "order_placed" id contract e = false) ->
  existsb (orderEvent "order_executed" id contract) events
    && existsb (orderEvent "order_cancelled" id contract) events = false ->
  foldl (lifeStep id contract) st events
  = if existsb (orderEvent "order_executed" id contract) events then Some executed
    else if existsb (orderEvent "order_cancelled" id contract) events then Some cancelled else st.
Proof.
  revert st; induction events as [|e events IH]; intros st Hpl Hex; [done|].
  cbn [foldl existsb] in *. rewrite lifeStep_cases, (Hpl e) by left.
  assert (forall e, e ∈ events -> orderEvent "order_placed" id contract e = false) as Hpl'
    by (intros x Hx; apply Hpl; by right).
  destruct (orderEvent "order_executed" id contract e) eqn:Ee,
    (orderEvent "order_cancelled" id contract e) eqn:Ec; cbn [orb andb] in *; try done.
  - rewrite IH; [|done|by rewrite Hex, andb_false_r]. rewrite Hex.
    by destruct (existsb (orderEvent "order_executed" id contract) events).
  - rewrite andb_true_r in Hex. rewrite IH; [|done|by rewrite Hex]. rewrite Hex.
    by destruct (existsb (orderEvent "order_cancelled" id contract) events).
  - by apply IH.
Qed.

(** An order placed once and not terminated before its placement, nor both
    executed and cancelled, is listed in the state its events leave it in. *)
Theorem order_feed_follows_lifecycle before p after id trader price :
  body p = MarketEvent (OrderPlaced id trader price) ->
  let contract := ev_contractId (env p) in
  let events := before ++ p :: after in
  (forall e, e ∈ after -> orderEvent "order_placed" id contract e = false) ->
  (forall e, e ∈ before -> isOrder id contract e = false) ->
  existsb (orderEvent "order_executed" id contract) after
    && existsb (orderEvent "order_cancelled" id contract) after = false ->
  Some (o_status (mapOrderEventRow (archiveOf events) (rowOfEvent p)))
  = lifeOf id contract events.
Proof.
  intros Hp contract events Hafter Hbefore Hex. cbn [mapOrderEventRow o_status].
  unfold orderStatus. rewrite !(terminal_events events _ p id trader price Hp). fold contract.
  assert (forall name, existsb (orderEvent name id contract) before = false) as Hno.
  { intros name. apply not_true_iff_false. intros (e & He & H)%existsb_exists.
    unfold orderEvent in H. rewrite Hbefore in H by by apply list_elem_of_In. done. }
  assert (orderEvent "order_executed" id contract p = false
          /\ orderEvent "order_cancelled" id contract p = false) as [Hpe Hpc].
  { unfold orderEvent, topicOf. rewrite Hp. simpl. by rewrite !andb_false_r. }
  unfold events, lifeOf. rewrite !existsb_app, !Hno. cbn [existsb orb]. rewrite Hpe, Hpc. cbn [orb].
  rewrite foldl_app.
  assert (foldl (lifeStep id contract) None before = None) as ->.
  { clear -Hbefore. induction before as [|e l IH]; [done|]. cbn [foldl]. unfold lifeStep at 2.
    rewrite Hbefore by left. apply IH. intros x Hx. apply Hbefore. by right. }
  cbn [foldl]. rewrite life_after by done.
  assert (lifeStep id contract None p = Some open_) as ->.
  { unfold lifeStep, isOrder. rewrite Hp. simpl. fold contract.
    by rewrite Z.eqb_refl, String.eqb_refl. }
  destruct (existsb (orderEvent "order_executed" id contract) after); [done|].
  by destruct (existsb (orderEvent "order_cancelled" id contract) after).
Qed.

Definition placedEvent : Event Z := ev_of "2" "CMKT" 20 1100 (OrderPlaced 4 "GA" 50).

Lemma order_feed_follows_lifecycle_witness :
  Some (o_status (mapOrderEventRow
    (archiveOf ([ev_of "1" "COLD" 10 1000 (OrderExecuted 4 1)] ++ placedEvent
                :: [ev_of "3" "CMKT" 30 1200 (OrderCancelled 4 "expired")])) (rowOfEvent placedEvent)))
  = lifeOf 4 "CMKT" ([ev_of "1" "COLD" 10 1000 (OrderExecuted 4 1)] ++ placedEvent
                :: [ev_of "3" "CMKT" 30 1200 (OrderCancelled 4 "expired")])
  /\ lifeOf 4 "CMKT" ([ev_of "1" "COLD" 10 1000 (OrderExecuted 4 1)] ++ placedEvent
                :: [ev_of "3" "CMKT" 30 1200 (OrderCancelled 4 "expired")]) = Some cancelled.
Proof.
  split; [|vm_compute; reflexivity].
  apply (order_feed_follows_lifecycle [ev_of "1" "COLD" 10 1000 (OrderExecuted 4 1)] placedEvent
    [ev_of "3" "CMKT" 30 1200 (OrderCancelled 4 "expired")] 4 "GA" 50);
    [reflexivity | intros e ->%list_elem_of_singleton; reflexivity
    | intros e ->%list_elem_of_singleton; reflexivity | reflexivity].
Defined.

(** ** Market statistics are exact *)

Definition bucketOf (acc : list (string * Bucket)) (a : string) : Bucket :=
  match List.find (fun ab : string * Bucket => String.eqb ab.1 a) acc with
  | Some ab => ab.2
  | None => emptyBucket
  end.

Lemma bucketOf_bucket a f acc a' :
  bucketOf (bucket a f acc) a' = if String.eqb a a' then f (bucketOf acc a) else bucketOf acc a'.
Proof.
  unfold bucketOf. induction acc as [|[x b] acc IH]; simpl.
  - by destruct (String.eqb a a').
  - destruct (String.eqb_spec x a) as [->|Hxa]; simpl.
    + by destruct (String.eqb a a').
    + destruct (String.eqb_spec x a') as [->|Hxa']; simpl; [|done].
      by rewrite (proj2 (String.eqb_neq a a')) by done.
Qed.

Lemma keys_bucket a f acc a' :
  a' ∈ (fst <$> bucket a f acc) <-> a' = a \/ a' ∈ (fst <$> acc).
Proof.
  induction acc as [|[x b] acc IH]; cbn [bucket].
  - rewrite fmap_cons, !fmap_nil, list_elem_of_singleton, elem_of_nil. tauto.
  - destruct (String.eqb_spec x a) as [->|Hxa]; rewrite !fmap_cons, !elem_of_cons; cbn [fst];
      [tauto|]. rewrite IH. tauto.
Qed.

Lemma NoDup_bucket a f acc : NoDup (fst <$> acc) -> NoDup (fst <$> bucket a f acc).
Proof.
  induction acc as [|[x b] acc IH]; cbn [bucket]; intros H; [apply NoDup_singleton|].
  rewrite fmap_cons in H. cbn [fst] in H. apply NoDup_cons in H as [Hx H].
  destruct (String.eqb_spec x a) as [->|Hxa]; rewrite fmap_cons; cbn [fst]; apply NoDup_cons;
    (split; [|by auto]); [done|].
  intros [->|?]%keys_bucket; done.
Qed.

Lemma bucketOf_elem acc ab : NoDup (fst <$> acc) -> ab ∈ acc -> bucketOf acc ab.1 = ab.2.
Proof.
  unfold bucketOf. induction acc as [|[x b] acc IH]; intros Hnd Hin; [by apply elem_of_nil in Hin|].
  rewrite fmap_cons in Hnd. apply NoDup_cons in Hnd as [Hx Hnd].
  apply elem_of_cons in Hin as [->|Hin]; simpl; [by rewrite String.eqb_refl|].
  destruct (String.eqb_spec x ab.1) as [->|]; [|by apply IH].
  exfalso. apply Hx, list_elem_of_fmap. by exists ab.
Qed.

Definition sizeZ (s : string) : Z := default 0 (zOfDecimal s).

Lemma bigintOf_sizeZ s z : bigintOf s = Ok z -> sizeZ s = z.
Proof. unfold bigintOf, sizeZ. destruct (zOfDecimal s); [by intros [= ->] | done]. Qed.

Definition longOf (a : string) (r : PositionRow) : Z :=
  if String.eqb (p_asset r) a && (p_direction r =? 0) then sizeZ (p_size r) else 0.
Definition shortOf (a : string) (r : PositionRow) : Z :=
  if String.eqb (p_asset r) a && negb (p_direction r =? 0) then sizeZ (p_size r) else 0.
Definition oneOf (a : string) (r : PositionRow) : Z := if String.eqb (p_asset r) a then 1 else 0.

Lemma countPositions_exact rows acc acc' :
  countPositions rows acc = Ok acc' -> NoDup (fst <$> acc) ->
  NoDup (fst <$> acc') /\ (forall a, a ∈ (fst <$> acc) -> a ∈ (fst <$> acc'))
  /\ forall a, bucketOf acc' a = {| long := long (bucketOf acc a) + sumBy (longOf a) rows;
       short := short (bucketOf acc a) + sumBy (shortOf a) rows;
       count := count (bucketOf acc a) + sumBy (oneOf a) rows; volume := volume (bucketOf acc a) |}.
Proof.
  revert acc; induction rows as [|r rows IH]; intros acc H Hnd.
  - injection H as <-. split_and!; [done|done|]. intros a. simpl. rewrite !Z.add_0_r. by destruct (bucketOf acc a).
  - cbn [countPositions] in H. apply bind_Ok in H as (size & Hs & H). apply bigintOf_sizeZ in Hs.
    destruct (IH _ H) as (Hnd' & Hk & Hb); [by apply NoDup_bucket|]. split_and!; [done| |].
    { intros a Ha. apply Hk, keys_bucket. by right. }
    intros a. rewrite Hb, bucketOf_bucket. cbn [sumBy]. unfold longOf at 2, shortOf at 2, oneOf at 2.
    destruct (String.eqb_spec (p_asset r) a) as [->|Hne]; cbn [andb].
    + unfold addPosition. rewrite Hs. destruct (p_direction r =? 0); cbn; f_equal; lia.
    + f_equal; lia.
Qed.

Definition volumeOf (a : string) (r : EventRow) : Z :=
  if String.eqb (default "null" (assetCol (payload r))) a
  then sizeZ (default "null" (sizeCol (payload r))) else 0.

Lemma countVolume_exact rows acc acc' :
  countVolume rows acc = Ok acc' -> NoDup (fst <$> acc) ->
  NoDup (fst <$> acc') /\ (forall a, a ∈ (fst <$> acc) -> a ∈ (fst <$> acc'))
  /\ forall a, bucketOf acc' a = {| long := long (bucketOf acc a); short := short (bucketOf acc a);
       count := count (bucketOf acc a); volume := volume (bucketOf acc a) + sumBy (volumeOf a) rows |}.
Proof.
  revert acc; induction rows as [|r rows IH]; intros acc H Hnd.
  - injection H as <-. split_and!; [done|done|]. intros a. simpl. rewrite !Z.add_0_r. by destruct (bucketOf acc a).
  - cbn [countVolume] in H. apply bind_Ok in H as (size & Hs & H). apply bigintOf_sizeZ in Hs.
    destruct (IH _ H) as (Hnd' & Hk & Hb); [by apply NoDup_bucket|]. split_and!; [done| |].
    { intros a Ha. apply Hk, keys_bucket. by right. }
    intros a. rewrite Hb, bucketOf_bucket. cbn [sumBy]. unfold volumeOf at 2. rewrite Hs.
    destruct (String.eqb_spec (default "null" (assetCol (payload r))) a) as [->|Hne].
    + unfold addVolume. cbn. f_equal; lia.
    + f_equal; lia.
Qed.

Lemma startBuckets l acc :
  (forall a, bucketOf acc a = emptyBucket) -> NoDup (fst <$> acc) ->
  let acc' := foldl (fun acc a => bucket a (fun b => b) acc) acc l in
  NoDup (fst <$> acc') /\ (forall a, bucketOf acc' a = emptyBucket)
  /\ forall a, a ∈ l \/ a ∈ (fst <$> acc) -> a ∈ (fst <$> acc').
Proof.
  revert acc; induction l as [|x l IH]; intros acc Hb Hnd; simpl.
  - split_and!; [done..|]. intros a [?%elem_of_nil|?]; done.
  - destruct (IH (bucket x (fun b => b) acc)) as (H1 & H2 & H3).
    + intros a. rewrite bucketOf_bucket, !Hb. by destruct (String.eqb x a).
    + by apply NoDup_bucket.
    + split_and!; [done..|]. intros a Ha. apply H3. rewrite keys_bucket, elem_of_cons in *. tauto.
Qed.

Section market_stats.
Context (marketContractId : string).

Definition inDay (topics : list string) (now : Z) (r : EventRow) : bool :=
  topicIn topics r && (now - DAY_SEC <=? closeTs r) && scoped marketContractId (contractOf r).

(** Every supported asset has one entry; an entry's open interest and position
    count are those of the asset's open positions on this market, and its 24h
    volume is the size of the opens of the day plus that of the opens that the
    day's closes and liquidations match. *)
Theorem market_stats_exact supported ps rows now stats :
  computeMarketStats marketContractId supported (Some ps) (Some rows) now = Ok stats ->
  NoDup (asset <$> stats) /\ (forall a, a ∈ supported -> a ∈ (asset <$> stats))
  /\ forall s, s ∈ stats ->
       let mine := bfilter (fun r => scoped marketContractId (p_contract_id r)) ps in
       let a := asset s in
       openInterestLong s = sumBy (longOf a) mine
       /\ openInterestShort s = sumBy (shortOf a) mine
       /\ openInterestNet s = openInterestLong s - openInterestShort s
       /\ openPositions s = sumBy (oneOf a) mine
       /\ volume24h s
          = sumBy (volumeOf a) (bfilter (inDay ["position_opened"] now) rows)
            + sumBy (fun co => volumeOf a co.2) (innerJoin rows
                (bfilter (inDay ["position_closed"; "position_liquidated"] now) rows)).
Proof.
  intros H. unfold computeMarketStats in H. cbv zeta in H. cbn [orMissing] in H.
  apply bind_Ok in H as (acc1 & H1 & H). apply bind_Ok in H as (acc3 & H3 & H). injection H as <-.
  apply bind_Ok in H3 as (acc2 & H2 & H3).
  destruct (startBuckets supported []) as (N0 & B0 & K0); [done|by apply NoDup_nil|].
  apply countPositions_exact in H1 as (N1 & K1 & B1); [|done].
  apply countVolume_exact in H2 as (N2 & K2 & B2); [|done].
  apply countVolume_exact in H3 as (N3 & K3 & B3); [|done].
  assert (asset <$> (assetStats <$> acc3) = fst <$> acc3) as Hk
    by (rewrite <- list_fmap_compose; by apply list_fmap_ext).
  rewrite Hk. split_and!; [done | intros a Ha; apply K3, K2, K1, K0; by left |].
  intros s Hs. apply list_elem_of_fmap in Hs as (ab & -> & Hab). cbn zeta.
  pose proof (bucketOf_elem acc3 ab N3 Hab) as Hb. cbn [assetStats asset openInterestLong
    openInterestShort openInterestNet openPositions volume24h].
  rewrite <- Hb, B3, B2, B1, B0. cbn. rewrite sumBy_fmap. split_and!; done.
Qed.
End market_stats.

Definition btcLong : PositionRow := {|
  p_trader := "GA"; p_asset := "BTC"; p_direction := 0; p_size := "300"; p_entry_price := "7";
  p_opened_at := 1000; p_opened_tx_hash := "tx"; p_contract_id := "CMKT" |}.

Lemma market_stats_exact_witness :
  let stats := (fun a => {| asset := a; openInterestLong := (if String.eqb a "BTC" then 300 else 0);
    openInterestShort := 0; openInterestNet := (if String.eqb a "BTC" then 300 else 0);
    openPositions := (if String.eqb a "BTC" then 1 else 0);
    volume24h := (if String.eqb a "BTC" then 600 else 0) |}) <$> ["BTC"; "ETH"] in
  computeMarketStats "CMKT" ["BTC"; "ETH"] (Some [btcLong]) (Some (archiveOf feedArchive)) 2000 = Ok stats
  /\ NoDup (asset <$> stats).
Proof.
  intros stats. assert (computeMarketStats "CMKT" ["BTC"; "ETH"] (Some [btcLong])
    (Some (archiveOf feedArchive)) 2000 = Ok stats) as H by (vm_compute; reflexivity).
  split; [exact H|].
  exact (proj1 (market_stats_exact "CMKT" ["BTC"; "ETH"] [btcLong] (archiveOf feedArchive) 2000 stats H)).
Defined.

(** ** Candles are the latest, oldest first *)

#[export] Instance laterBucket_total : Total laterBucket.
Proof. intros a b. unfold laterBucket. lia. Qed.
#[export] Instance laterBucket_trans : Transitive laterBucket.
Proof. intros a b c. unfold laterBucket. lia. Qed.

Lemma elem_of_candleRows (t : CandleTable) asset interval c :
  (forall k r, t !! k = Some r -> bucketTs r = k.2) ->
  c ∈ candleRows t asset interval <-> t !! (asset, interval, bucketTs c) = Some c.
Proof.
  intros Hk. unfold candleRows. rewrite list_elem_of_fmap. split.
  - intros ([k r] & -> & [Hin Hb]%elem_of_bfilter). apply elem_of_map_to_list in Hin.
    apply bool_decide_eq_true in Hb. simpl in *. rewrite (Hk k r) by done.
    by rewrite <- Hb; destruct k.
  - intros H. exists ((asset, interval, bucketTs c), c). split; [done|]. apply elem_of_bfilter.
    split; [by apply elem_of_map_to_list|]. by rewrite bool_decide_eq_true.
Qed.

Lemma NoDup_candleBuckets (t : CandleTable) asset interval :
  (forall k r, t !! k = Some r -> bucketTs r = k.2) ->
  NoDup (bucketTs <$> candleRows t asset interval).
Proof.
  intros Hk. unfold candleRows. rewrite <- list_fmap_compose.
  assert (forall kv, kv ∈ bfilter (fun kv => bool_decide (kv.1.1 = (asset, interval))) (map_to_list t) ->
    kv.1 = (asset, interval, bucketTs kv.2)) as Hkey.
  { intros [k r] [Hin Hb]%elem_of_bfilter. apply elem_of_map_to_list in Hin.
    apply bool_decide_eq_true in Hb. simpl in *. rewrite (Hk k r) by done. by rewrite <- Hb; destruct k. }
  pose proof (NoDup_fmap_bfilter fst (fun kv => bool_decide (kv.1.1 = (asset, interval)))
    (map_to_list t) (NoDup_fst_map_to_list t)) as Hnd.
  revert Hkey Hnd. generalize (bfilter (fun kv : string * string * Z * CandleRow =>
    bool_decide (kv.1.1 = (asset, interval))) (map_to_list t)).
  induction l as [|kv l IH]; intros Hkey Hnd; [by apply NoDup_nil|]. rewrite fmap_cons in *.
  apply NoDup_cons in Hnd as [Hx Hnd]. apply NoDup_cons. split.
  - intros (kv' & Heq & Hin)%list_elem_of_fmap. apply Hx, list_elem_of_fmap. exists kv'.
    split; [|done]. rewrite (Hkey kv), (Hkey kv') by (by left || by right). simpl in Heq. by rewrite Heq.
  - apply IH; [|done]. intros y Hy. apply Hkey. by right.
Qed.

Lemma StronglySorted_app_inv {A} (R : A -> A -> Prop) l k :
  StronglySorted R (l ++ k) ->
  StronglySorted R l /\ StronglySorted R k /\ forall x y, x ∈ l -> y ∈ k -> R x y.
Proof.
  induction l as [|a l IH]; simpl; intros H.
  - split_and!; [constructor|done|]. by intros x y ?%elem_of_nil.
  - apply StronglySorted_inv in H as [H Ha]. destruct (IH H) as (H1 & H2 & H3).
    rewrite List.Forall_app in Ha. destruct Ha as [Hal Hak].
    split_and!; [by constructor|done|]. intros x y [->|Hx]%elem_of_cons Hy; [|by apply H3].
    rewrite List.Forall_forall in Hak. apply Hak. by apply list_elem_of_In.
Qed.

Lemma StronglySorted_snoc {A} (R : A -> A -> Prop) l a :
  StronglySorted R l -> (forall x, x ∈ l -> R x a) -> StronglySorted R (l ++ [a]).
Proof.
  induction 1 as [|x l Hl IH Hx]; intros H; simpl; [repeat constructor|]. constructor.
  - apply IH. intros y Hy. apply H. by right.
  - apply List.Forall_app. split; [done|]. repeat constructor. apply H. by left.
Qed.

Lemma StronglySorted_reverse {A} (R : A -> A -> Prop) l :
  StronglySorted (fun a b => R b a) l -> StronglySorted R (reverse l).
Proof.
  induction 1 as [|a l Hl IH Ha]; [constructor|]. rewrite reverse_cons. apply StronglySorted_snoc; [done|].
  intros x Hx. rewrite elem_of_reverse in Hx. rewrite List.Forall_forall in Ha. apply list_elem_of_In in Hx.
  by apply Ha.
Qed.

(** The candles served are rows of the pair's table in strictly ascending
    bucket order, as many as the limit allows, and every row left out is older
    than all of them. *)
Theorem served_candles_are_latest (t : CandleTable) asset interval limit :
  (forall k r, t !! k = Some r -> bucketTs r = k.2) ->
  exists l, queryCandles (Some t) asset interval limit = Ok (candlePointFromRow <$> l)
    /\ StronglySorted (fun a b => bucketTs a < bucketTs b) l
    /\ (forall c, c ∈ l -> t !! (asset, interval, bucketTs c) = Some c)
    /\ length l = Nat.min limit (length (candleRows t asset interval))
    /\ forall c, t !! (asset, interval, bucketTs c) = Some c -> c ∉ l ->
         forall d, d ∈ l -> bucketTs c < bucketTs d.
Proof.
  intros Hk. exists (latestCandles t asset interval limit). split; [done|]. unfold latestCandles.
  set (sorted := merge_sort laterBucket (candleRows t asset interval)).
  assert (sorted ≡ₚ candleRows t asset interval) as Hp by apply merge_sort_Permutation.
  assert (StronglySorted laterBucket sorted) as Hs by (apply StronglySorted_merge_sort; apply _).
  assert (NoDup (bucketTs <$> sorted)) as Hnd by (rewrite Hp; by apply NoDup_candleBuckets).
  assert (StronglySorted (fun a b => bucketTs b < bucketTs a) sorted) as Hss.
  { clear -Hs Hnd. induction Hs as [|a l Hl IH Ha]; [constructor|]. rewrite fmap_cons in Hnd.
    apply NoDup_cons in Hnd as [Hx Hnd]. constructor; [by apply IH|].
    rewrite List.Forall_forall in Ha |- *. intros y Hy. specialize (Ha y Hy). unfold laterBucket in Ha.
    destruct (decide (bucketTs y = bucketTs a)) as [He|]; [|lia]. exfalso. apply Hx. rewrite <- He.
    apply list_elem_of_fmap. exists y. split; [done|]. by apply list_elem_of_In. }
  clear Hs Hnd. rewrite <- (take_drop limit sorted) in Hss, Hp.
  apply StronglySorted_app_inv in Hss as (Htake & _ & Hlater). split_and!.
  - by apply StronglySorted_reverse.
  - intros c Hc. rewrite elem_of_reverse in Hc. apply elem_of_candleRows; [done|]. rewrite <- Hp.
    apply elem_of_app. by left.
  - by rewrite length_reverse, length_take, <- Hp, take_drop.
  - intros c Hc Hnot d Hd. rewrite elem_of_reverse in Hnot, Hd.
    apply elem_of_candleRows in Hc; [|done]. rewrite <- Hp in Hc.
    apply elem_of_app in Hc as [Hc|Hc]; [done|]. by apply Hlater.
Qed.

Definition twoCandles : CandleTable :=
  let row ts := {| bucketTs := ts; c_open := 10000000; c_high := 20000000; c_low := 10000000;
                   c_close := 10000000 |} in
  <[("BTC", "1h", 3600) := row 3600]> (<[("BTC", "1h", 7200) := row 7200]> ∅).

Lemma served_candles_are_latest_witness :
  (fun l => time <$> l) <$> queryCandles (Some twoCandles) "BTC" "1h" 1 = Ok [7200]
  /\ exists l, queryCandles (Some twoCandles) "BTC" "1h" 1 = Ok (candlePointFromRow <$> l)
    /\ StronglySorted (fun a b => bucketTs a < bucketTs b) l
    /\ (forall c, c ∈ l -> twoCandles !! ("BTC", "1h", bucketTs c) = Some c)
    /\ length l = Nat.min 1 (length (candleRows twoCandles "BTC" "1h"))
    /\ forall c, twoCandles !! ("BTC", "1h", bucketTs c) = Some c -> c ∉ l ->
         forall d, d ∈ l -> bucketTs c < bucketTs d.
Proof.
  split; [vm_compute; reflexivity|].
  apply (served_candles_are_latest twoCandles "BTC" "1h" 1).
  intros k r. unfold twoCandles, CandleTable. cbv zeta. rewrite !lookup_insert, lookup_empty.
  repeat case_decide; subst; [by intros [= <-]..|done].
Defined.
