(* ===== verification/ApiBoard.v ===== *)
(** * Deployment scopes and the leaderboard

    Models packages/shared/src/scopes.ts, api/src/services/cache.ts and the
    leaderboard of api/src/services/stats.ts: the ranking statement as a
    function of the tables, the retry without the legacy table, the snapshot
    cache with its history, pages, ranks and market-wide totals. Sums of NUMERIC
    columns are integers here, as everything the indexer writes is. *)

From S2P Require Import Prelude JsText IndexerEvents IndexerDb ApiEvents ApiStats.
Open Scope Z_scope.
Open Scope js_scope.

(** ** packages/shared/src/scopes.ts *)

Record DeploymentScope := {
  scopeId : string; scopeNetwork : string; label : string; marketIds : list string;
  legacyScopeKey : option string }.

(** The process environment and contracts.json as the registry reads them. *)
Record ScopeEnv := {
  SCOPE_TESTNET_MARKET_IDS : option string; SCOPE_MAINNET_MARKET_IDS : option string;
  LEADERBOARD_SCOPE : option string; manifestMarket : option string }.

(** [s.split(c)] *)
Fixpoint splitOn (c : ascii) (s : string) : list string :=
  match s with
  | EmptyString => [EmptyString]
  | String x s =>
      match splitOn c s with
      | [] => []
      | w :: ws => if Ascii.eqb x c then EmptyString :: w :: ws else String x w :: ws
      end
  end.

Fixpoint trimStart (s : string) : string :=
  match s with String c s' => if isSpace c then trimStart s' else s | EmptyString => s end.

Fixpoint trimEnd (s : string) : string :=
  match s with
  | EmptyString => EmptyString
  | String c s' =>
      match trimEnd s' with
      | EmptyString => if isSpace c then EmptyString else String c EmptyString
      | t => String c t
      end
  end.

Definition trim (s : string) : string := trimEnd (trimStart s).

Definition truthy (s : string) : bool := negb (String.eqb s EmptyString).

Definition parseIdList (raw : option string) : option (list string) :=
  match given raw with
  | None => None
  | Some raw =>
      match bfilter truthy (trim <$> splitOn "," raw) with [] => None | ids => Some ids end
  end.

Definition testnetMarketIds (e : ScopeEnv) (currentMarketId : option string) : list string :=
  match parseIdList (SCOPE_TESTNET_MARKET_IDS e) with
  | Some ids => ids
  | None =>
      match given currentMarketId with
      | Some id => [id]
      | None => match manifestMarket e with Some id => [id] | None => [] end
      end
  end.

Definition mainnetMarketIds (e : ScopeEnv) : list string :=
  default [] (parseIdList (SCOPE_MAINNET_MARKET_IDS e)).

Definition resolveScope (e : ScopeEnv) (id currentMarketId : option string) : option DeploymentScope :=
  let scopeId := match given id with None => "testnet" | Some id => id end in
  if String.eqb scopeId "testnet" then
    Some {| scopeId := "testnet"; scopeNetwork := "testnet"; label := "Stellar Testnet";
            marketIds := testnetMarketIds e currentMarketId; legacyScopeKey := Some "testnet" |}
  else if String.eqb scopeId "mainnet" then
    Some {| scopeId := "mainnet"; scopeNetwork := "public"; label := "Stellar Mainnet";
            marketIds := mainnetMarketIds e; legacyScopeKey := None |}
  else None.

Definition scopeFromEnv (e : ScopeEnv) (currentMarketId : option string) : Result DeploymentScope :=
  match resolveScope e (given (trim <$> LEADERBOARD_SCOPE e)) currentMarketId with
  | Some s => Ok s
  | None => Err "LEADERBOARD_SCOPE is set to an unknown scope"
  end.

Definition scopeServedByNetwork (s : DeploymentScope) (network : string) : bool :=
  String.eqb (scopeNetwork s) (if String.eqb network "mainnet" then "public" else network).

(** ** api/src/services/cache.ts *)

Notation TtlCache V := (gmap string (V * Z)).

Definition cacheGet {V} (key : string) (now : Z) (c : TtlCache V) : option V * TtlCache V :=
  match c !! key with
  | None => (None, c)
  | Some (value, expires) => if expires <=? now then (None, delete key c) else (Some value, c)
  end.

Definition cacheSet {V} (ttl : Z) (key : string) (value : V) (now : Z) (c : TtlCache V) : TtlCache V :=
  <[key := (value, now + ttl)]> c.

(** [getOrLoad] when nothing else runs while [load] is awaited, which ends at
    [loaded]; a load that throws leaves the cache without the key. *)
Definition getOrLoad {V} (ttl : Z) (key : string) (now loaded : Z) (load : Result V) (c : TtlCache V)
  : Result V * TtlCache V :=
  match cacheGet key now c with
  | (Some v, c) => (Ok v, c)
  | (None, c) => match load with inl e => (Err e, c) | inr v => (Ok v, cacheSet ttl key v loaded c) end
  end.

(** ** The ranking statement *)

Record LegacyRow := {
  l_address : string; l_trade_count : Z; l_total_volume : Z; l_total_pnl : Z; l_liq_count : Z;
  l_scope_key : string }.

(** The tables read; [cursorTable] holds the row (last_ledger, updated_at). *)
Record BoardDb := {
  eventsTable : option (list EventRow); legacyTable : option (list LegacyRow);
  cursorTable : option (option (Z * Z)) }.

Inductive LeaderboardSort := byPnl | byVolume.
Definition sortName (s : LeaderboardSort) : string :=
  match s with byPnl => "pnl" | byVolume => "volume" end.

Record Leg := { g_trader : option string; g_pnl : Z; g_volume : Z; g_trades : Z; g_liq : Z }.

Definition inScope (s : DeploymentScope) (r : EventRow) : bool :=
  existsb (String.eqb (contractOf r)) (marketIds s).

Definition scopedRows (s : DeploymentScope) (rows : list EventRow) : list EventRow :=
  bfilter (inScope s) rows.

Definition pnlLeg (r : EventRow) : Result Leg :=
  z ← numericOf (pnlCol (payload r));
  Ok {| g_trader := traderCol (payload r); g_pnl := default 0 z; g_volume := 0; g_trades := 0; g_liq := 0 |}.

Definition openLeg (r : EventRow) : Result Leg :=
  z ← numericOf (sizeCol (payload r));
  Ok {| g_trader := traderCol (payload r); g_pnl := 0; g_volume := default 0 z; g_trades := 1; g_liq := 0 |}.

(** [COALESCE(c.size, o.size, 0)] of a close and its left-joined open. *)
Definition closeSize (co : EventRow * option EventRow) : Result Z :=
  z ← numericOf (orElse (sizeCol (payload co.1)) (co.2 ≫= (fun o => sizeCol (payload o))));
  Ok (default 0 z).

Definition closeLeg (co : EventRow * option EventRow) : Result Leg :=
  z ← closeSize co;
  Ok {| g_trader := traderCol (payload co.1); g_pnl := 0; g_volume := z; g_trades := 0; g_liq := 0 |}.

Definition liqLeg (r : EventRow) : Leg :=
  {| g_trader := traderCol (payload r); g_pnl := 0; g_volume := 0; g_trades := 0; g_liq := 1 |}.

Definition legacyLeg (l : LegacyRow) : Leg :=
  {| g_trader := Some (l_address l); g_pnl := l_total_pnl l; g_volume := l_total_volume l;
     g_trades := l_trade_count l; g_liq := l_liq_count l |}.

Definition LIQ_TOPICS : list string := ["position_liquidated"; "position_partial_liq"; "cross_liq"].

Definition withTopics (ts : list string) (rows : list EventRow) : list EventRow :=
  bfilter (topicIn ts) rows.

Definition eventLegs (rows : list EventRow) : Result (list Leg) :=
  pnls ← mapR pnlLeg (withTopics ["position_closed"] rows);
  opens ← mapR openLeg (withTopics ["position_opened"] rows);
  closes ← mapR closeLeg (leftJoin rows (withTopics ["position_closed"] rows));
  Ok (pnls ++ opens ++ closes ++ (liqLeg <$> withTopics LIQ_TOPICS rows)).

Definition legacySlice (key : string) (l : list LegacyRow) : list LegacyRow :=
  bfilter (fun r => String.eqb (l_scope_key r) key) l.

(** [WHERE trader IS NOT NULL AND trader <> ''] *)
Definition named (l : Leg) : bool := match g_trader l with Some t => truthy t | None => false end.

Definition legOf (t : string) (l : Leg) : bool := eqOpt String.eqb (g_trader l) (Some t).

(** One folded row: a trader and the sums over its legs. *)
Record Folded := { trader : string; f_pnl : Z; f_volume : Z; f_trades : Z; f_liq : Z }.

Definition foldTrader (legs : list Leg) (t : string) : Folded :=
  let mine := bfilter (legOf t) legs in
  {| trader := t; f_pnl := sumBy g_pnl mine; f_volume := sumBy g_volume mine;
     f_trades := sumBy g_trades mine; f_liq := sumBy g_liq mine |}.

Definition traders (legs : list Leg) : list string :=
  remove_dups (omap g_trader (bfilter named legs)).

Definition folded (legs : list Leg) : list Folded := foldTrader legs <$> traders legs.

(** [metric DESC, secondary DESC, trader ASC] *)
Definition metricOf (s : LeaderboardSort) (f : Folded) : Z :=
  match s with byPnl => f_pnl f | byVolume => f_volume f end.
Definition secondaryOf (s : LeaderboardSort) (f : Folded) : Z :=
  match s with byPnl => f_volume f | byVolume => f_pnl f end.

Definition rankedAbove (s : LeaderboardSort) (a b : Folded) : Prop :=
  metricOf s b < metricOf s a
  \/ (metricOf s a = metricOf s b
      /\ (secondaryOf s b < secondaryOf s a
          \/ (secondaryOf s a = secondaryOf s b /\ (trader a ≤ trader b)%string))).

#[export] Instance rankedAbove_dec s : RelDecision (rankedAbove s).
Proof. intros a b. unfold rankedAbove. apply _. Defined.

Record LeaderboardEntry := {
  rank : Z; e_trader : string; e_pnl : string; e_volume : string; e_trades : Z; e_liqCount : Z }.

Definition entryOf (i : nat) (f : Folded) : LeaderboardEntry := {|
  rank := Z.of_nat i + 1; e_trader := trader f; e_pnl := decimalOfZ (f_pnl f);
  e_volume := decimalOfZ (f_volume f); e_trades := f_trades f; e_liqCount := f_liq f |}.

(** A missing table, or an answer. *)
Inductive DbAnswer (A : Type) := MissingTable | Answer (r : Result A).
Arguments MissingTable {A}.
Arguments Answer {A}.

Definition rankBoard (s : LeaderboardSort) (legs : list Leg) : list LeaderboardEntry :=
  imap entryOf (merge_sort (rankedAbove s) (folded legs)).

Definition execRankedBoard (db : BoardDb) (scope : DeploymentScope) (sort : LeaderboardSort)
    (withLegacy : bool) : DbAnswer (list LeaderboardEntry) :=
  match eventsTable db with
  | None => MissingTable
  | Some rows =>
      match (if withLegacy then legacyTable db else Some []) with
      | None => MissingTable
      | Some legacy => Answer (
          legs ← eventLegs (scopedRows scope rows);
          Ok (rankBoard sort
                (legs ++ (legacyLeg <$> legacySlice (default "null" (legacyScopeKey scope)) legacy))))
      end
  end.

Definition queryRankedBoard (db : BoardDb) (scope : DeploymentScope) (sort : LeaderboardSort)
  : Result (list LeaderboardEntry) :=
  let withLegacy := match legacyScopeKey scope with Some _ => true | None => false end in
  match execRankedBoard db scope sort withLegacy with
  | Answer r => r
  | MissingTable =>
      if negb withLegacy then Ok []
      else match execRankedBoard db scope sort false with Answer r => r | MissingTable => Ok [] end
  end.

(** ** Snapshots *)

Record BoardSnapshot := {
  s_id : string; computedAt : Z; cursorLedger : Z; s_updatedAt : option Z; s_total : Z;
  s_rows : list LeaderboardEntry }.

Definition pollCursor (db : BoardDb) : Z * option Z :=
  match cursorTable db with
  | Some (Some (ledger, ms)) =>
      (if 0 <? ledger then ledger else 0, if 0 <? ms then Some (ms / 1000) else None)
  | _ => (0, None)
  end.

Definition snapshotId (scope : DeploymentScope) (sort : LeaderboardSort) (ledger : Z) (n : nat) : string :=
  scopeId scope +:+ "." +:+ sortName sort +:+ "." +:+ decimalOfZ ledger +:+ "."
  +:+ decimalOfZ (Z.of_nat n).

Definition computeSnapshot (db : BoardDb) (scope : DeploymentScope) (sort : LeaderboardSort) (now : Z)
  : Result BoardSnapshot :=
  let cursor := pollCursor db in
  rows ← match marketIds scope, legacyScopeKey scope with
         | [], None => Ok []
         | _, _ => queryRankedBoard db scope sort
         end;
  Ok {| s_id := snapshotId scope sort cursor.1 (length rows); computedAt := now;
        cursorLedger := cursor.1; s_updatedAt := cursor.2; s_total := Z.of_nat (length rows);
        s_rows := rows |}.

Definition LEADERBOARD_TTL_MS : Z := 20000.
Definition DEFAULT_LEADERBOARD_LIMIT : Z := 20.
Definition MAX_LEADERBOARD_LIMIT : Z := 200.
Definition SNAPSHOT_HISTORY_DEPTH : nat := 2.

Inductive LeaderboardState := ok | empty_ | not_indexed_here.

Record LeaderboardTotals := {
  t_scope : string; t_network : string; t_state : LeaderboardState; t_updatedAt : option Z;
  t_traders : Z; t_volume : Z; t_trades : Z }.

Record BoardService := {
  snapCache : TtlCache BoardSnapshot; snapHistory : gmap string (list BoardSnapshot);
  totalsCache : TtlCache LeaderboardTotals }.

Definition freshService : BoardService := {| snapCache := ∅; snapHistory := ∅; totalsCache := ∅ |}.

Definition pushHistory (snap : BoardSnapshot) (history : list BoardSnapshot) : list BoardSnapshot :=
  match history with
  | h :: older => if String.eqb (s_id h) (s_id snap) then snap :: older
                  else take SNAPSHOT_HISTORY_DEPTH (snap :: history)
  | [] => take SNAPSHOT_HISTORY_DEPTH [snap]
  end.

Definition boardKey (scope : DeploymentScope) (sort : LeaderboardSort) : string :=
  scopeId scope +:+ "." +:+ sortName sort.

(** A load that has computed [snap]: the history ring, then the cache. *)
Definition keepSnapshot (key : string) (snap : BoardSnapshot) (now : Z) (st : BoardService) : BoardService := {|
  snapCache := cacheSet LEADERBOARD_TTL_MS key snap now (snapCache st);
  snapHistory := <[key := pushHistory snap (default [] (snapHistory st !! key))]> (snapHistory st);
  totalsCache := totalsCache st |}.

Definition currentSnapshot (db : BoardDb) (scope : DeploymentScope) (sort : LeaderboardSort) (now : Z)
    (st : BoardService) : Result BoardSnapshot * BoardService :=
  let key := boardKey scope sort in
  match cacheGet key now (snapCache st) with
  | (Some snap, c) => (Ok snap, {| snapCache := c; snapHistory := snapHistory st; totalsCache := totalsCache st |})
  | (None, c) =>
      let st := {| snapCache := c; snapHistory := snapHistory st; totalsCache := totalsCache st |} in
      match computeSnapshot db scope sort now with
      | inl e => (Err e, st)
      | inr snap => (Ok snap, keepSnapshot key snap now st)
      end
  end.

Definition snapshotFor (db : BoardDb) (scope : DeploymentScope) (sort : LeaderboardSort) (now : Z)
    (requested : option string) (st : BoardService) : Result (BoardSnapshot * bool) * BoardService :=
  match currentSnapshot db scope sort now st with
  | (inl e, st) => (Err e, st)
  | (inr current, st) =>
      match given requested with
      | None => (Ok (current, false), st)
      | Some r =>
          if String.eqb r (s_id current) then (Ok (current, false), st)
          else match List.find (fun s => String.eqb (s_id s) r)
                       (default [] (snapHistory st !! boardKey scope sort)) with
               | Some held => (Ok (held, false), st)
               | None => (Ok (current, true), st)
               end
      end
  end.

(** ** Requests *)

Record LeaderboardPage := {
  pg_scope : string; pg_network : string; pg_state : LeaderboardState; pg_sort : LeaderboardSort;
  pg_updatedAt : option Z; pg_total : Z; pg_limit : Z; pg_offset : Z; pg_snapshot : string;
  pg_snapshotChanged : bool; leaders : list LeaderboardEntry }.

(** [rows.slice(offset, offset + limit)] *)
Definition slice {A} (offset limit : Z) (l : list A) : list A :=
  take (Z.to_nat limit) (drop (Z.to_nat offset) l).

(** The gateway's configuration: its market (empty when unset) and network. *)
Record Gateway := { g_env : ScopeEnv; g_market : string; g_network : string }.

Definition requestScope (g : Gateway) (id : option string) : Result DeploymentScope :=
  let opts := given (Some (g_market g)) in
  match id with
  | None => scopeFromEnv (g_env g) opts
  | Some i => match resolveScope (g_env g) (Some i) opts with
              | Some s => Ok s
              | None => Err ("Unknown leaderboard scope: " +:+ i)
              end
  end.

Definition stateOf (total : Z) : LeaderboardState := if total =? 0 then empty_ else ok.

Definition leaderboardPage (g : Gateway) (db : BoardDb) (id : option string) (sort : LeaderboardSort)
    (limitOpt offsetOpt : option Z) (snapshot : option string) (now : Z) (st : BoardService)
  : Result LeaderboardPage * BoardService :=
  let limit := Z.min MAX_LEADERBOARD_LIMIT (Z.max 1 (default DEFAULT_LEADERBOARD_LIMIT limitOpt)) in
  let offset := Z.max 0 (default 0 offsetOpt) in
  match requestScope g id with
  | inl e => (Err e, st)
  | inr scope =>
      if negb (scopeServedByNetwork scope (g_network g)) then
        (Ok {| pg_scope := scopeId scope; pg_network := scopeNetwork scope;
               pg_state := not_indexed_here; pg_sort := sort; pg_updatedAt := None; pg_total := 0;
               pg_limit := limit; pg_offset := offset; pg_snapshot := EmptyString;
               pg_snapshotChanged := false; leaders := [] |}, st)
      else
        match snapshotFor db scope sort now snapshot st with
        | (inl e, st) => (Err e, st)
        | (inr (snap, changed), st) =>
            (Ok {| pg_scope := scopeId scope; pg_network := scopeNetwork scope;
                   pg_state := stateOf (s_total snap); pg_sort := sort;
                   pg_updatedAt := s_updatedAt snap; pg_total := s_total snap; pg_limit := limit;
                   pg_offset := offset; pg_snapshot := s_id snap; pg_snapshotChanged := changed;
                   leaders := slice offset limit (s_rows snap) |}, st)
        end
  end.

Record LeaderboardRank := {
  r_scope : string; r_network : string; r_state : LeaderboardState; r_rank : option Z;
  r_total : Z; r_snapshot : string; r_updatedAt : option Z; r_entry : option LeaderboardEntry }.

Definition leaderboardRank (g : Gateway) (db : BoardDb) (who : string) (id : option string)
    (sort : LeaderboardSort) (now : Z) (st : BoardService) : Result LeaderboardRank * BoardService :=
  match requestScope g id with
  | inl e => (Err e, st)
  | inr scope =>
      if negb (scopeServedByNetwork scope (g_network g)) then
        (Ok {| r_scope := scopeId scope; r_network := scopeNetwork scope; r_state := not_indexed_here;
               r_rank := None; r_total := 0; r_snapshot := EmptyString; r_updatedAt := None;
               r_entry := None |}, st)
      else
        match currentSnapshot db scope sort now st with
        | (inl e, st) => (Err e, st)
        | (inr snap, st) =>
            let entry := List.find (fun e => String.eqb (e_trader e) who) (s_rows snap) in
            (Ok {| r_scope := scopeId scope; r_network := scopeNetwork scope;
                   r_state := stateOf (s_total snap); r_rank := rank <$> entry;
                   r_total := s_total snap; r_snapshot := s_id snap; r_updatedAt := s_updatedAt snap;
                   r_entry := entry |}, st)
        end
  end.

(** ** Market-wide totals *)

Definition totalsOf (scope : DeploymentScope) (updatedAt : option Z) (who : list string)
    (volume trades : Z) : LeaderboardTotals := {|
  t_scope := scopeId scope; t_network := scopeNetwork scope;
  t_state := stateOf (Z.of_nat (length who)); t_updatedAt := updatedAt;
  t_traders := Z.of_nat (length who); t_volume := volume; t_trades := trades |}.

Definition BOARD_TOPICS : list string := ["position_opened"; "position_closed"] ++ LIQ_TOPICS.

(** The distinct traders, the volume and the trades of the scoped events. *)
Definition eventTotals (scope : DeploymentScope) (rows : list EventRow)
  : Result (list string * Z * Z) :=
  let opens := bfilter (fun r => topicIn ["position_opened"] r && inScope scope r) rows in
  sizes ← mapR (fun r => numericOf (sizeCol (payload r))) opens;
  closes ← mapR closeSize (leftJoin rows
             (bfilter (fun r => topicIn ["position_closed"] r && inScope scope r) rows));
  let names := bfilter truthy (omap (fun r => traderCol (payload r))
                 (bfilter (fun r => inScope scope r && topicIn BOARD_TOPICS r) rows)) in
  Ok (remove_dups names, sumBy (default 0) sizes + sumBy id closes, Z.of_nat (length opens)).

Definition computeLeaderboardTotals (db : BoardDb) (scope : DeploymentScope) : Result LeaderboardTotals :=
  match eventsTable db with
  | None => Ok (totalsOf scope None [] 0 0)
  | Some rows =>
      vt ← eventTotals scope rows;
      let '(who, volume, trades) := vt in
      let legacy := match legacyScopeKey scope, legacyTable db with
                    | Some key, Some l => bfilter (fun r => truthy (l_address r)) (legacySlice key l)
                    | _, _ => []
                    end in
      Ok (totalsOf scope (pollCursor db).2 (remove_dups (who ++ (l_address <$> legacy)))
            (volume + sumBy l_total_volume legacy) (trades + sumBy l_trade_count legacy))
  end.

Definition leaderboardTotals (g : Gateway) (db : BoardDb) (id : option string) (now : Z)
    (st : BoardService) : Result LeaderboardTotals * BoardService :=
  match requestScope g id with
  | inl e => (Err e, st)
  | inr scope =>
      if negb (scopeServedByNetwork scope (g_network g)) then
        (Ok {| t_scope := scopeId scope; t_network := scopeNetwork scope; t_state := not_indexed_here;
               t_updatedAt := None; t_traders := 0; t_volume := 0; t_trades := 0 |}, st)
      else
        let (r, c) := getOrLoad LEADERBOARD_TTL_MS ("totals:" +:+ scopeId scope) now now
                        (computeLeaderboardTotals db scope) (totalsCache st) in
        (r, {| snapCache := snapCache st; snapHistory := snapHistory st; totalsCache := c |})
  end.

(** ** The market ids as one SQL parameter *)

Definition BACKSLASH : ascii := Ascii.ascii_of_nat 92.
Definition DQUOTE : ascii := Ascii.ascii_of_nat 34.

(** [s.replace(/c/g, by)] for one character *)
Fixpoint replaceChar (c : ascii) (by_ : string) (s : string) : string :=
  match s with
  | EmptyString => EmptyString
  | String x s => if Ascii.eqb x c then by_ +:+ replaceChar c by_ s else String x (replaceChar c by_ s)
  end.

Definition quoteId (id : string) : string :=
  String DQUOTE EmptyString
  +:+ replaceChar DQUOTE (String BACKSLASH (String DQUOTE EmptyString))
        (replaceChar BACKSLASH (String BACKSLASH (String BACKSLASH EmptyString)) id)
  +:+ String DQUOTE EmptyString.

Definition toPgTextArrayLiteral (ids : list string) : string :=
  "{" +:+ String.concat "," (quoteId <$> ids) +:+ "}".

(** ** Folding and ranking *)

Lemma elem_of_traders legs t :
  t ∈ traders legs <-> truthy t = true /\ exists l, l ∈ legs /\ g_trader l = Some t.
Proof.
  unfold traders. rewrite elem_of_remove_dups, list_elem_of_omap. split.
  - intros (l & [Hl Hn]%elem_of_bfilter & Ht). unfold named in Hn. rewrite Ht in Hn. eauto.
  - intros (Hn & l & Hl & Ht). exists l. split; [|done]. apply elem_of_bfilter.
    split; [done|]. unfold named. by rewrite Ht.
Qed.

Lemma NoDup_traders legs : NoDup (traders legs).
Proof. apply NoDup_remove_dups. Qed.

Lemma traders_Permutation legs legs' : legs ≡ₚ legs' -> traders legs ≡ₚ traders legs'.
Proof.
  intros Hp. apply NoDup_Permutation; [apply NoDup_traders..|]. intros t. rewrite !elem_of_traders.
  by setoid_rewrite Hp.
Qed.

Lemma folded_Permutation legs legs' : legs ≡ₚ legs' -> folded legs ≡ₚ folded legs'.
Proof.
  intros Hp. unfold folded. rewrite (traders_Permutation _ _ Hp). apply Permutation_refl'.
  apply list_fmap_ext. intros i t _. unfold foldTrader. f_equal; by rewrite Hp.
Qed.

Lemma trader_folded legs : trader <$> folded legs = traders legs.
Proof.
  unfold folded. rewrite <- list_fmap_compose. trans (id <$> traders legs);
    [by apply list_fmap_ext | apply list_fmap_id].
Qed.

Lemma folded_inj legs a b : a ∈ folded legs -> b ∈ folded legs -> trader a = trader b -> a = b.
Proof.
  intros (t & -> & _)%list_elem_of_fmap (u & -> & _)%list_elem_of_fmap Heq. simpl in Heq. by subst.
Qed.

#[export] Instance rankedAbove_total s : Total (rankedAbove s).
Proof.
  intros a b. unfold rankedAbove.
  destruct (Z.lt_trichotomy (metricOf s a) (metricOf s b)) as [|[Hm|]]; [tauto| |tauto].
  destruct (Z.lt_trichotomy (secondaryOf s a) (secondaryOf s b)) as [|[Hs|]];
    [right; right; split; [done|by left]| |left; right; split; [done|by left]].
  destruct (total String.le (trader a) (trader b)); [left|right]; right; split; auto.
Qed.
#[export] Instance rankedAbove_trans s : Transitive (rankedAbove s).
Proof.
  intros a b c. unfold rankedAbove.
  intros [Hab|[Hab [Hab'|[Hab' Hle]]]] [Hbc|[Hbc [Hbc'|[Hbc' Hle']]]]; try (left; lia);
    right; (split; [lia|]); try (left; lia). right. split; [lia|]. by etrans.
Qed.

Lemma rankedAbove_antisymm s a b : rankedAbove s a b -> rankedAbove s b a -> trader a = trader b.
Proof.
  unfold rankedAbove. intros [|[? [|[? H1]]]] [|[? [|[? H2]]]]; try lia.
  by apply (anti_symm String.le).
Qed.

(** The board of a permuted list of legs is the same board. *)
Lemma rankBoard_Permutation s legs legs' : legs ≡ₚ legs' -> rankBoard s legs = rankBoard s legs'.
Proof.
  intros Hp. unfold rankBoard. f_equal. apply (StronglySorted_unique_strong (rankedAbove s)).
  - intros a b Ha Hb Hab Hba. rewrite merge_sort_Permutation in Ha, Hb.
    rewrite <- (folded_Permutation _ _ Hp) in Hb. apply (folded_inj legs); [done..|].
    by apply (rankedAbove_antisymm s).
  - apply StronglySorted_merge_sort; apply _.
  - apply StronglySorted_merge_sort; apply _.
  - rewrite !merge_sort_Permutation. by apply folded_Permutation.
Qed.

Lemma entries_fmap {A} (f : Folded -> A) (g : LeaderboardEntry -> A) (l : list Folded) :
  (forall i x, g (entryOf i x) = f x) -> g <$> imap entryOf l = f <$> l.
Proof.
  intros H. rewrite fmap_imap. rewrite <- (imap_const f l). apply imap_ext.
  intros i x _. apply H.
Qed.

Lemma ranks_imap (l : list Folded) : rank <$> imap entryOf l = seqZ 1 (Z.of_nat (length l)).
Proof.
  apply list_eq. intros i. rewrite list_lookup_fmap, list_lookup_imap.
  destruct (l !! i) as [x|] eqn:E; simpl.
  - apply lookup_lt_Some in E. symmetry. apply lookup_seqZ. unfold rank, entryOf. lia.
  - apply lookup_ge_None in E. symmetry. apply lookup_seqZ_ge. lia.
Qed.

(** What a board is: the ranks count from 1, no trader twice, the traders are
    those the legs name, each with the sums of its legs, in the rank order. *)
Record BoardOf (s : LeaderboardSort) (legs : list Leg) (board : list LeaderboardEntry) : Prop := {
  board_ranks : rank <$> board = seqZ 1 (Z.of_nat (length board));
  board_nodup : NoDup (e_trader <$> board);
  board_traders : forall t, t ∈ (e_trader <$> board)
    <-> truthy t = true /\ exists l, l ∈ legs /\ g_trader l = Some t;
  board_entries : forall e, e ∈ board ->
    let mine := bfilter (legOf (e_trader e)) legs in
    e_pnl e = decimalOfZ (sumBy g_pnl mine) /\ e_volume e = decimalOfZ (sumBy g_volume mine)
    /\ e_trades e = sumBy g_trades mine /\ e_liqCount e = sumBy g_liq mine;
  board_sorted : exists rows, board = imap entryOf rows /\ StronglySorted (rankedAbove s) rows }.

Lemma rankBoard_board s legs : BoardOf s legs (rankBoard s legs).
Proof.
  unfold rankBoard. set (rows := merge_sort (rankedAbove s) (folded legs)).
  assert (rows ≡ₚ folded legs) as Hp by apply merge_sort_Permutation.
  assert (e_trader <$> imap entryOf rows ≡ₚ traders legs) as Hn.
  { rewrite (entries_fmap trader) by done. by rewrite Hp, trader_folded. }
  split.
  - rewrite ranks_imap. by rewrite length_imap.
  - rewrite Hn. apply NoDup_traders.
  - intros t. by rewrite Hn, elem_of_traders.
  - intros e (i & x & -> & Hx)%elem_of_lookup_imap. apply list_elem_of_lookup_2 in Hx.
    rewrite Hp in Hx. by apply list_elem_of_fmap in Hx as (t & -> & _).
  - exists rows. split; [done|]. apply StronglySorted_merge_sort; apply _.
Qed.

(** ** The statement's answer does not depend on the order of the rows *)

Lemma mapR_Forall2 {A B} (f : A -> Result B) l ys :
  mapR f l = Ok ys <-> Forall2 (fun x y => f x = Ok y) l ys.
Proof.
  split.
  - revert ys; induction l as [|x l IH]; intros ys H; simpl in H; [by injection H as <-|].
    apply bind_Ok in H as (y & Hy & H). apply bind_Ok in H as (zs & Hz & H). injection H as <-.
    constructor; auto.
  - induction 1 as [|x y l ys Hx _ IH]; [done|]. simpl. by rewrite Hx; simpl; rewrite IH.
Qed.

Lemma mapR_Permutation {A B} (f : A -> Result B) l k ys :
  l ≡ₚ k -> mapR f l = Ok ys -> exists zs, mapR f k = Ok zs /\ ys ≡ₚ zs.
Proof.
  intros Hp H%mapR_Forall2.
  destruct (Permutation_Forall2 (P := fun x y => f x = Ok y) Hp H) as (zs & Hz & H').
  exists zs. by rewrite mapR_Forall2.
Qed.

Lemma leftJoin_Permutation rows rows' cs cs' :
  rows ≡ₚ rows' -> cs ≡ₚ cs' -> leftJoin rows cs ≡ₚ leftJoin rows' cs'.
Proof.
  intros Hr Hc. apply flat_map_Permutation; [|done]. intros c. by rewrite (leftMatches_Permutation _ _ c Hr).
Qed.

Lemma eventLegs_Permutation rows rows' legs :
  rows ≡ₚ rows' -> eventLegs rows = Ok legs -> exists legs', eventLegs rows' = Ok legs' /\ legs ≡ₚ legs'.
Proof.
  intros Hp H. unfold eventLegs in *. inv_binds. injection H as <-.
  assert (forall ts, withTopics ts rows ≡ₚ withTopics ts rows') as Ht
    by (intros ts; unfold withTopics; by rewrite Hp).
  destruct (mapR_Permutation pnlLeg _ _ _ (Ht ["position_closed"]) Ha) as (l1 & -> & H1).
  destruct (mapR_Permutation openLeg _ _ _ (Ht ["position_opened"]) Ha0) as (l2 & -> & H2).
  destruct (mapR_Permutation closeLeg _ _ _ (leftJoin_Permutation _ _ _ _ Hp (Ht ["position_closed"])) Ha1)
    as (l3 & -> & H3).
  eexists. split; [reflexivity|]. by rewrite H1, H2, H3, (Ht LIQ_TOPICS).
Qed.

(** The ranking statement: a leaderboard has ranks 1, 2, 3, ... without gap or
    repetition, one row per trader named by an event in scope or inherited,
    with the sums over that trader's legs, ordered by the metric, then the
    other metric, then the name; and no reordering of the tables' rows changes
    anything in it. *)
Theorem leaderboard_is_deterministic_ranking rows legacy cursor scope sort withLegacy board :
  execRankedBoard {| eventsTable := Some rows; legacyTable := Some legacy; cursorTable := cursor |}
    scope sort withLegacy = Answer (Ok board) ->
  (exists legs, eventLegs (scopedRows scope rows) = Ok legs
     /\ BoardOf sort (legs ++ if withLegacy
          then legacyLeg <$> legacySlice (default "null" (legacyScopeKey scope)) legacy else []) board)
  /\ (forall rows' legacy', rows ≡ₚ rows' -> legacy ≡ₚ legacy' ->
        execRankedBoard {| eventsTable := Some rows'; legacyTable := Some legacy'; cursorTable := cursor |}
          scope sort withLegacy = Answer (Ok board)).
Proof.
  unfold execRankedBoard. cbn [eventsTable legacyTable]. intros H.
  set (slice l := if withLegacy then legacyLeg <$> legacySlice (default "null" (legacyScopeKey scope)) l
                  else []).
  assert (forall rows l, match (if withLegacy then Some l else Some []) with
    | Some legacy => Answer (
          legs ← eventLegs (scopedRows scope rows);
          Ok (rankBoard sort
                (legs ++ (legacyLeg <$> legacySlice (default "null" (legacyScopeKey scope)) legacy))))
    | None => MissingTable end
    = Answer (legs ← eventLegs (scopedRows scope rows); Ok (rankBoard sort (legs ++ slice l)))) as Heq
    by (intros; unfold slice; by destruct withLegacy).
  rewrite Heq in H. injection H as H. apply bind_Ok in H as (legs & Hl & H). injection H as <-. split.
  { exists legs. split; [done|]. apply rankBoard_board. }
  intros rows' legacy' Hp Hpl. rewrite Heq.
  destruct (eventLegs_Permutation _ (scopedRows scope rows') legs (bfilter_Permutation _ _ _ Hp) Hl)
    as (legs' & -> & Hpe).
  simpl. do 2 f_equal. apply rankBoard_Permutation.
  assert (slice legacy ≡ₚ slice legacy') as Hs
    by (unfold slice, legacySlice; destruct withLegacy; by rewrite ?Hpl).
  by rewrite Hpe, Hs.
Qed.

Definition testnetScope : DeploymentScope := {|
  scopeId := "testnet"; scopeNetwork := "testnet"; label := "Stellar Testnet"; marketIds := ["CMKT"];
  legacyScopeKey := Some "testnet" |}.

Definition boardArchive : list (Event Z) :=
  [ev_of "1" "COLD" 5 100 (PositionOpened 1 "GC" "BTC" 0 9000 1);
   ev_of "2" "CMKT" 10 1000 (PositionOpened 1 "GA" "BTC" 0 300 1);
   ev_of "3" "CMKT" 20 1100 (PositionClosed 1 "GA" "BTC" 0 300 1 2 50);
   ev_of "4" "CMKT" 20 1100 (PositionOpened 2 "GB" "ETH" 0 100 1);
   ev_of "5" "CMKT" 30 1200 (PositionLiquidated 2 "GB" "ETH" 0 100 1 2)].

Definition inherited : list LegacyRow :=
  [{| l_address := "GB"; l_trade_count := 5; l_total_volume := 900; l_total_pnl := 42;
      l_liq_count := 1; l_scope_key := "testnet" |};
   {| l_address := "GZ"; l_trade_count := 1; l_total_volume := 1; l_total_pnl := 1;
      l_liq_count := 0; l_scope_key := "other" |}].

Definition boardDb : BoardDb := {|
  eventsTable := Some (archiveOf boardArchive); legacyTable := Some inherited;
  cursorTable := Some (Some (30, 1200000)) |}.

Definition expectedBoard : list LeaderboardEntry :=
  [{| rank := 1; e_trader := "GA"; e_pnl := "50"; e_volume := "600"; e_trades := 1; e_liqCount := 0 |};
   {| rank := 2; e_trader := "GB"; e_pnl := "42"; e_volume := "1000"; e_trades := 6; e_liqCount := 2 |}].

Lemma leaderboard_is_deterministic_ranking_witness :
  execRankedBoard boardDb testnetScope byPnl true = Answer (Ok expectedBoard)
  /\ execRankedBoard {| eventsTable := Some (reverse (archiveOf boardArchive));
       legacyTable := Some inherited; cursorTable := Some (Some (30, 1200000)) |} testnetScope byPnl true
     = Answer (Ok expectedBoard).
Proof.
  assert (execRankedBoard boardDb testnetScope byPnl true = Answer (Ok expectedBoard)) as H
    by (vm_compute; reflexivity).
  split; [exact H|].
  apply (proj2 (leaderboard_is_deterministic_ranking (archiveOf boardArchive) inherited
    (Some (Some (30, 1200000))) testnetScope byPnl true expectedBoard H)); [|done].
  symmetry. apply reverse_Permutation.
Defined.

(** A partial close pays out pnl that the board, which ranks by realized pnl,
    never shows. *)
Example board_omits_partial_closes :
  (fun l => (fun e => (e_trader e, e_pnl e)) <$> l) <$>
    match execRankedBoard {| eventsTable := Some (archiveOf
        [ev_of "1" "CMKT" 10 1000 (PositionOpened 1 "GA" "BTC" 0 300 1);
         ev_of "2" "CMKT" 20 1100 (PositionReduced 1 "GA" "BTC" 100 200 2 70)]);
      legacyTable := None; cursorTable := None |} testnetScope byPnl false with
    | Answer r => r | MissingTable => Err "missing" end
  = Ok [("GA", "0")].
Proof. vm_compute. reflexivity. Qed.

(** ** Totals agree with the board *)

Lemma sumBy_swap {A B} (f : A -> B -> Z) l k :
  sumBy (fun x => sumBy (f x) k) l = sumBy (fun y => sumBy (fun x => f x y) l) k.
Proof.
  induction l as [|x l IH]; simpl; [by rewrite sumBy_zero|]. rewrite IH. by rewrite <- sumBy_plus.
Qed.

Lemma sumBy_single {A} (p : A -> bool) (z : Z) l x :
  NoDup l -> x ∈ l -> p x = true -> (forall y, y ∈ l -> p y = true -> y = x) ->
  sumBy (fun y => if p y then z else 0) l = z.
Proof.
  induction 1 as [|y l Hy Hl IH]; intros Hx Hp Hu; [by apply elem_of_nil in Hx|]. simpl.
  apply elem_of_cons in Hx as [->|Hx].
  - rewrite Hp, (sumBy_ext _ (fun _ => 0)), sumBy_zero; [lia|]. intros w Hw.
    destruct (p w) eqn:E; [|done]. rewrite (Hu w) in Hw by (by right || done). done.
  - destruct (p y) eqn:E; [rewrite (Hu y) in Hy by (by left || done); done|].
    rewrite IH; [lia|done|done|]. intros w Hw. apply Hu. by right.
Qed.

(** Every leg of a named trader is counted in exactly one row. *)
Lemma sum_folded (g : Leg -> Z) (f : Folded -> Z) legs :
  (forall t, f (foldTrader legs t) = sumBy g (bfilter (legOf t) legs)) ->
  (forall l, l ∈ legs -> named l = true) -> sumBy f (folded legs) = sumBy g legs.
Proof.
  intros Hf Hn. unfold folded. rewrite sumBy_fmap.
  rewrite (sumBy_ext _ (fun t => sumBy (fun l => if legOf t l then g l else 0) legs)).
  2: { intros t _. by rewrite Hf, sumBy_bfilter. }
  rewrite sumBy_swap. apply sumBy_ext. intros l Hl.
  specialize (Hn l Hl). unfold named in Hn. destruct (g_trader l) as [t|] eqn:Et; [|done].
  apply (sumBy_single (fun t => legOf t l) (g l) _ t).
  - apply NoDup_traders.
  - apply elem_of_traders. eauto.
  - unfold legOf. rewrite Et. simpl. apply String.eqb_refl.
  - intros u _. unfold legOf. rewrite Et. simpl. intros ->%String.eqb_eq. done.
Qed.

Lemma bfilter_bfilter {A} (p q : A -> bool) l : bfilter p (bfilter q l) = bfilter (fun x => p x && q x) l.
Proof.
  induction l as [|x l IH]; simpl; [done|]. destruct (q x); simpl; [|by rewrite andb_false_r].
  rewrite andb_true_r. by destruct (p x); rewrite IH.
Qed.

Lemma matchingOpens_scoped scope rows c :
  inScope scope c = true -> matchingOpens (scopedRows scope rows) c = matchingOpens rows c.
Proof.
  intros Hc. unfold matchingOpens, scopedRows. rewrite bfilter_bfilter. apply bfilter_ext. intros o _.
  destruct (opensOf c o) eqn:E; [|done]. unfold opensOf in E. apply andb_true_iff in E as [E _].
  apply andb_true_iff in E as [_ E]. apply String.eqb_eq in E. unfold inScope. by rewrite E.
Qed.

Lemma leftJoin_scoped scope rows cs :
  (forall c, c ∈ cs -> inScope scope c = true) -> leftJoin (scopedRows scope rows) cs = leftJoin rows cs.
Proof.
  intros H. unfold leftJoin. induction cs as [|c cs IH]; [done|]. cbn [flat_map].
  rewrite IH by (intros d Hd; apply H; by right). f_equal. unfold leftMatches.
  by rewrite matchingOpens_scoped by (apply H; by left).
Qed.

Lemma mapR_fields {A B C} (f : A -> Result B) (h : A -> Result C) (k : B -> C) l ys :
  (forall x y, x ∈ l -> f x = Ok y -> h x = Ok (k y)) -> mapR f l = Ok ys -> mapR h l = Ok (k <$> ys).
Proof.
  intros H. rewrite !mapR_Forall2. intros HF. revert H. induction HF as [|x y l ys Hx HF IH]; intros H;
    [constructor|]. constructor; [apply H; [by left|done]|]. apply IH. intros z w Hz. apply H. by right.
Qed.

Lemma mapR_elem {A B} (f : A -> Result B) l ys :
  mapR f l = Ok ys ->
  (forall y, y ∈ ys -> exists x, x ∈ l /\ f x = Ok y) /\ (forall x, x ∈ l -> exists y, y ∈ ys /\ f x = Ok y).
Proof.
  rewrite mapR_Forall2. induction 1 as [|x y l ys Hx _ [IH1 IH2]].
  - split; by intros ? ?%elem_of_nil.
  - split.
    + intros z [->|Hz]%elem_of_cons; [exists x; split; [by left|done]|].
      destruct (IH1 z Hz) as (w & ? & ?). exists w. split; [by right|done].
    + intros z [->|Hz]%elem_of_cons; [exists y; split; [by left|done]|].
      destruct (IH2 z Hz) as (w & ? & ?). exists w. split; [by right|done].
Qed.

Lemma mapR_sum {A B} (f : A -> Result B) (k : B -> Z) (h : A -> Z) l ys :
  (forall x y, f x = Ok y -> k y = h x) -> mapR f l = Ok ys -> sumBy k ys = sumBy h l.
Proof.
  intros H. rewrite mapR_Forall2. induction 1 as [|x y l ys Hx _ IH]; simpl; [done|].
  by rewrite IH, (H x y).
Qed.

Lemma mapR_sum_rel {A B C} (f : A -> Result B) (h : A -> Result C) (k : B -> Z) (k' : C -> Z) l ys :
  (forall x y, f x = Ok y -> exists z, h x = Ok z /\ k' z = k y) -> mapR f l = Ok ys ->
  exists zs, mapR h l = Ok zs /\ sumBy k' zs = sumBy k ys.
Proof.
  intros H. rewrite mapR_Forall2. induction 1 as [|x y l ys Hx _ (zs & Hz & IH)]; [by exists []|].
  destruct (H x y Hx) as (z & Hhx & Hk). exists (z :: zs). simpl. rewrite Hhx. simpl. rewrite Hz. simpl.
  split; [done|lia].
Qed.

Lemma leftJoin_elem rows cs co : co ∈ leftJoin rows cs -> co.1 ∈ cs.
Proof.
  unfold leftJoin. induction cs as [|c cs IH]; cbn [flat_map]; [by intros ?%elem_of_nil|].
  rewrite elem_of_app. intros [(o & -> & _)%list_elem_of_fmap|H]; [by left|]. right. by apply IH.
Qed.

Section totals.
Context (scope : DeploymentScope) (rows : list EventRow).

Lemma withTopics_scoped ts :
  withTopics ts (scopedRows scope rows) = bfilter (fun r => topicIn ts r && inScope scope r) rows.
Proof. unfold withTopics, scopedRows. apply bfilter_bfilter. Qed.

Lemma closes_scoped :
  leftJoin (scopedRows scope rows) (withTopics ["position_closed"] (scopedRows scope rows))
  = leftJoin rows (bfilter (fun r => topicIn ["position_closed"] r && inScope scope r) rows).
Proof.
  rewrite withTopics_scoped. apply leftJoin_scoped. intros c [_ H]%elem_of_bfilter.
  by apply andb_true_iff in H as [_ H].
Qed.

(** The traders of the legs are those of the scoped rows of the board's topics. *)
Lemma legs_traders legs ot :
  eventLegs (scopedRows scope rows) = Ok legs ->
  (exists l, l ∈ legs /\ g_trader l = ot)
  <-> exists r, r ∈ rows /\ inScope scope r = true /\ topicIn BOARD_TOPICS r = true
                /\ traderCol (payload r) = ot.
Proof.
  unfold eventLegs. intros H. inv_binds. injection H as <-. rewrite withTopics_scoped in *.
  assert (forall r ts, r ∈ bfilter (fun r => topicIn ts r && inScope scope r) rows -> ts ⊆ BOARD_TOPICS ->
    traderCol (payload r) = ot ->
    exists r, r ∈ rows /\ inScope scope r = true /\ topicIn BOARD_TOPICS r = true
              /\ traderCol (payload r) = ot) as Hrow.
  { intros r ts [Hr Hb]%elem_of_bfilter Hsub Ht. apply andb_true_iff in Hb as [Htp Hin].
    exists r. split_and!; [done|done| |done]. apply topicIn_spec, Hsub. by apply topicIn_spec. }
  assert (["position_closed"] ⊆ BOARD_TOPICS /\ ["position_opened"] ⊆ BOARD_TOPICS
          /\ LIQ_TOPICS ⊆ BOARD_TOPICS) as (S1 & S2 & S3)
    by (unfold BOARD_TOPICS, LIQ_TOPICS; set_solver).
  split.
  - intros (l & Hl & Ht). rewrite !elem_of_app in Hl. destruct Hl as [Hl|[Hl|[Hl|Hl]]].
    + apply (mapR_elem _ _ _ Ha) in Hl as (r & Hr & Hf). unfold pnlLeg in Hf. inv_binds. injection Hf as <-.
      by apply (Hrow r ["position_closed"]).
    + apply (mapR_elem _ _ _ Ha0) in Hl as (r & Hr & Hf). unfold openLeg in Hf. inv_binds. injection Hf as <-.
      by apply (Hrow r ["position_opened"]).
    + apply (mapR_elem _ _ _ Ha1) in Hl as (co & Hr & Hf). unfold closeLeg in Hf. inv_binds. injection Hf as <-.
      apply leftJoin_elem in Hr. by apply (Hrow co.1 ["position_closed"]).
    + apply list_elem_of_fmap in Hl as (r & -> & Hr). by apply (Hrow r LIQ_TOPICS).
  - intros (r & Hr & Hin & Htp & Ht). apply topicIn_spec in Htp.
    assert (forall ts, topic r ∈ ts -> r ∈ bfilter (fun r => topicIn ts r && inScope scope r) rows) as Hmem.
    { intros ts Hts. apply elem_of_bfilter. split; [done|]. rewrite Hin, andb_true_r. by apply topicIn_spec. }
    unfold BOARD_TOPICS in Htp. rewrite elem_of_app, !elem_of_cons in Htp.
    destruct Htp as [[Htp|[Htp|Htp]]|Htp].
    + destruct (proj2 (mapR_elem _ _ _ Ha0) r (Hmem ["position_opened"] ltac:(rewrite Htp; by left)))
        as (l & Hl & Hf). unfold openLeg in Hf. inv_binds. injection Hf as <-.
      eexists. rewrite !elem_of_app. split; [right; left; exact Hl|done].
    + destruct (proj2 (mapR_elem _ _ _ Ha) r (Hmem ["position_closed"] ltac:(rewrite Htp; by left)))
        as (l & Hl & Hf). unfold pnlLeg in Hf. inv_binds. injection Hf as <-.
      eexists. rewrite !elem_of_app. split; [left; exact Hl|done].
    + by apply elem_of_nil in Htp.
    + exists (liqLeg r). rewrite !elem_of_app. split; [|done]. do 3 right.
      apply list_elem_of_fmap. exists r. split; [done|]. by apply Hmem.
Qed.

(** The totals read the same opens and closes as the legs. *)
Lemma eventTotals_legs legs :
  eventLegs (scopedRows scope rows) = Ok legs ->
  exists who, eventTotals scope rows = Ok (who, sumBy g_volume legs, sumBy g_trades legs)
    /\ who = remove_dups (bfilter truthy (omap (fun r => traderCol (payload r))
         (bfilter (fun r => inScope scope r && topicIn BOARD_TOPICS r) rows))).
Proof.
  unfold eventLegs, eventTotals. intros H. inv_binds. injection H as <-.
  rewrite closes_scoped in Ha1. rewrite withTopics_scoped in *.
  destruct (mapR_sum_rel openLeg (fun r => numericOf (sizeCol (payload r))) g_volume (default 0) _ _
    ltac:(intros x y Hxy; unfold openLeg in Hxy; inv_binds; injection Hxy as <-; eauto) Ha0)
    as (sizes & -> & Hsz).
  destruct (mapR_sum_rel closeLeg closeSize g_volume id _ _
    ltac:(intros x y Hxy; unfold closeLeg in Hxy; inv_binds; injection Hxy as <-; eauto) Ha1)
    as (closes & -> & Hcl).
  unfold mbind, Result_bind, Ok. cbv beta iota zeta. eexists. split; [|reflexivity].
  assert (sumBy (default 0) sizes + sumBy id closes
    = sumBy g_volume (a ++ a0 ++ a1 ++ (liqLeg <$> bfilter (fun r => topicIn LIQ_TOPICS r && inScope scope r) rows)))
    as ->; [|assert (Z.of_nat (length (bfilter (fun r => topicIn ["position_opened"] r && inScope scope r) rows))
    = sumBy g_trades (a ++ a0 ++ a1 ++ (liqLeg <$> bfilter (fun r => topicIn LIQ_TOPICS r && inScope scope r) rows)))
    as ->; [|done]].
  - rewrite !sumBy_app, Hsz, Hcl, sumBy_fmap, sumBy_zero.
    rewrite (mapR_sum pnlLeg g_volume (fun _ => 0) _ _
      ltac:(intros x y Hxy; unfold pnlLeg in Hxy; inv_binds; injection Hxy as <-; done) Ha), sumBy_zero. lia.
  - rewrite !sumBy_app, sumBy_fmap, sumBy_zero.
    rewrite (mapR_sum pnlLeg g_trades (fun _ => 0) _ _
      ltac:(intros x y Hxy; unfold pnlLeg in Hxy; inv_binds; injection Hxy as <-; done) Ha), sumBy_zero.
    rewrite (mapR_sum closeLeg g_trades (fun _ => 0) _ _
      ltac:(intros x y Hxy; unfold closeLeg in Hxy; inv_binds; injection Hxy as <-; done) Ha1), sumBy_zero.
    rewrite (mapR_sum openLeg g_trades (fun _ => 1) _ _
      ltac:(intros x y Hxy; unfold openLeg in Hxy; inv_binds; injection Hxy as <-; done) Ha0), sumBy_length. lia.
Qed.
End totals.

(** The legacy rows folded in: none when the scope inherits nothing or the
    table is missing. *)
Definition inheritedRows (db : BoardDb) (scope : DeploymentScope) : list LegacyRow :=
  match legacyScopeKey scope, legacyTable db with Some key, Some l => legacySlice key l | _, _ => [] end.

Lemma legacySlice_nil key : legacySlice key [] = [].
Proof. done. Qed.

Lemma queryRankedBoard_rows db scope sort rows :
  eventsTable db = Some rows ->
  queryRankedBoard db scope sort
  = (legs ← eventLegs (scopedRows scope rows);
     Ok (rankBoard sort (legs ++ (legacyLeg <$> inheritedRows db scope)))).
Proof.
  intros Hr. unfold queryRankedBoard, execRankedBoard, inheritedRows. rewrite Hr.
  destruct (legacyScopeKey scope) as [key|], (legacyTable db) as [l|]; done.
Qed.

Lemma sizeZ_decimalOfZ z : sizeZ (decimalOfZ z) = z.
Proof. unfold sizeZ. by rewrite zOfDecimal_decimalOfZ. Qed.

(** When every event in scope and every inherited row names its trader, the
    headline tiles agree with the full board: as many traders as it has rows,
    and its volumes and trades summed, whatever tables are missing. *)
Theorem totals_match_board db scope sort board :
  (forall rows r, eventsTable db = Some rows -> r ∈ rows -> inScope scope r = true ->
     topicIn BOARD_TOPICS r = true -> exists t, traderCol (payload r) = Some t /\ truthy t = true) ->
  (forall legacy l, legacyTable db = Some legacy -> l ∈ legacy -> truthy (l_address l) = true) ->
  queryRankedBoard db scope sort = Ok board ->
  exists totals, computeLeaderboardTotals db scope = Ok totals
    /\ t_traders totals = Z.of_nat (length board)
    /\ t_volume totals = sumBy (fun e => sizeZ (e_volume e)) board
    /\ t_trades totals = sumBy e_trades board.
Proof.
  intros Hnamed Hlegacy Hq. unfold computeLeaderboardTotals.
  destruct (eventsTable db) as [rows|] eqn:Er.
  2: { eexists. split; [reflexivity|]. unfold queryRankedBoard, execRankedBoard in Hq. rewrite Er in Hq.
       destruct (legacyScopeKey scope); injection Hq as <-; done. }
  rewrite (queryRankedBoard_rows db scope sort rows Er) in Hq.
  apply bind_Ok in Hq as (legs & Hl & Hq). injection Hq as <-.
  destruct (eventTotals_legs scope rows legs Hl) as (who & -> & Hwho). simpl.
  eexists. split; [reflexivity|]. cbn [totalsOf t_traders t_volume t_trades].
  set (legacy := match legacyScopeKey scope, legacyTable db with
                 | Some key, Some l => bfilter (fun r => truthy (l_address r)) (legacySlice key l)
                 | _, _ => [] end).
  assert (legacy = inheritedRows db scope) as Hleg.
  { unfold legacy, inheritedRows. destruct (legacyScopeKey scope), (legacyTable db) as [l|] eqn:E; try done.
    rewrite (bfilter_ext _ (fun _ => true)); [by apply bfilter_true|].
    intros x [Hx _]%elem_of_bfilter. by apply (Hlegacy l). }
  clearbody legacy. subst legacy. set (inh := inheritedRows db scope) in *.
  set (all := legs ++ (legacyLeg <$> inh)).
  assert (forall l, l ∈ legs -> exists t, g_trader l = Some t /\ truthy t = true) as Hlegs.
  { intros l Hin.
    destruct (proj1 (legs_traders scope rows legs (g_trader l) Hl)) as (r & Hr & H1 & H2 & H3); [by exists l|].
    destruct (Hnamed rows r eq_refl Hr H1 H2) as (t & Ht & Htr). exists t. split; congruence. }
  assert (forall l, l ∈ inh -> truthy (l_address l) = true) as Hinh.
  { intros l Hin. unfold inh, inheritedRows in Hin.
    destruct (legacyScopeKey scope), (legacyTable db) as [lt|] eqn:E; try by apply elem_of_nil in Hin.
    apply elem_of_bfilter in Hin as [Hin _]. by apply (Hlegacy lt). }
  assert (forall l, l ∈ all -> named l = true) as Hall.
  { intros l. unfold all, named. rewrite elem_of_app. intros [Hin|Hin].
    - by destruct (Hlegs l Hin) as (t & -> & Ht).
    - apply list_elem_of_fmap in Hin as (x & -> & Hx). by apply Hinh. }
  unfold rankBoard. set (ranked := merge_sort (rankedAbove sort) (folded all)).
  assert (ranked ≡ₚ folded all) as Hp by apply merge_sort_Permutation.
  assert (forall (f : Folded -> Z) g, (forall i x, g (entryOf i x) = f x) ->
    sumBy g (imap entryOf ranked) = sumBy f (folded all)) as Hsum.
  { intros f g Hfg. rewrite <- (sumBy_fmap id g), (entries_fmap f g ranked Hfg), sumBy_fmap.
    unfold id. by rewrite Hp. }
  split_and!.
  - rewrite length_imap, Hp, <- (length_fmap trader (folded all)), trader_folded. f_equal.
    apply Permutation_length, NoDup_Permutation; [apply NoDup_remove_dups|apply NoDup_traders|].
    intros t. rewrite elem_of_remove_dups, elem_of_app, elem_of_traders, Hwho, elem_of_remove_dups,
      elem_of_bfilter. unfold all. split.
    + intros [[Ht Htr]|Ht].
      * split; [done|]. apply list_elem_of_omap in Ht as (r & [Hr Hb]%elem_of_bfilter & Ht).
        apply andb_true_iff in Hb as [H1 H2].
        destruct (proj2 (legs_traders scope rows legs (Some t) Hl)) as (l & Hin & Hlt); [by exists r|].
        exists l. split; [|done]. apply elem_of_app. by left.
      * apply list_elem_of_fmap in Ht as (x & -> & Hx). split; [by apply Hinh|].
        exists (legacyLeg x). split; [|done]. apply elem_of_app. right. apply list_elem_of_fmap. by exists x.
    + intros (Htr & l & Hin & Ht). apply elem_of_app in Hin as [Hin|Hin].
      * left. split; [|done].
        destruct (proj1 (legs_traders scope rows legs (Some t) Hl)) as (r & Hr & H1 & H2 & H3); [by exists l|].
        apply list_elem_of_omap. exists r. split; [|done]. apply elem_of_bfilter. by rewrite H1, H2.
      * right. apply list_elem_of_fmap in Hin as (x & -> & Hx). injection Ht as <-.
        apply list_elem_of_fmap. by exists x.
  - rewrite (Hsum f_volume) by (intros; apply sizeZ_decimalOfZ).
    rewrite (sum_folded g_volume f_volume) by done. unfold all. by rewrite sumBy_app, sumBy_fmap.
  - rewrite (Hsum f_trades) by done.
    rewrite (sum_folded g_trades f_trades) by done. unfold all. by rewrite sumBy_app, sumBy_fmap.
Qed.

Lemma totals_match_board_witness :
  queryRankedBoard boardDb testnetScope byVolume
  = Ok [{| rank := 1; e_trader := "GB"; e_pnl := "42"; e_volume := "1000"; e_trades := 6; e_liqCount := 2 |};
        {| rank := 2; e_trader := "GA"; e_pnl := "50"; e_volume := "600"; e_trades := 1; e_liqCount := 0 |}]
  /\ exists totals, computeLeaderboardTotals boardDb testnetScope = Ok totals
    /\ t_traders totals = 2 /\ t_volume totals = 1600 /\ t_trades totals = 7.
Proof.
  assert (queryRankedBoard boardDb testnetScope byVolume
    = Ok [{| rank := 1; e_trader := "GB"; e_pnl := "42"; e_volume := "1000"; e_trades := 6; e_liqCount := 2 |};
        {| rank := 2; e_trader := "GA"; e_pnl := "50"; e_volume := "600"; e_trades := 1; e_liqCount := 0 |}])
    as H by (vm_compute; reflexivity).
  split; [exact H|].
  refine (match totals_match_board boardDb testnetScope byVolume _ _ _ H with
    ex_intro _ totals (conj Ht (conj H1 (conj H2 H3))) => _ end).
  - intros rows r [= <-] Hr _ _.
    assert (forallb (fun r => match traderCol (payload r) with Some t => truthy t | None => false end)
      (archiveOf boardArchive) = true) as Hf by (vm_compute; reflexivity).
    rewrite forallb_forall in Hf. apply list_elem_of_In in Hr. specialize (Hf r Hr).
    destruct (traderCol (payload r)) as [t|]; [by exists t|done].
  - intros legacy l [= <-] Hin. unfold inherited in Hin. rewrite !elem_of_cons in Hin.
    destruct Hin as [->|[->|Hin]]; [reflexivity..|by apply elem_of_nil in Hin].
  - exists totals. split; [exact Ht|]. split; [exact H1|]. split; [exact H2|exact H3].
Defined.

(** ** The mainnet board holds mainnet's rows *)

Definition mainnetRows (e : ScopeEnv) (rows : list EventRow) : list EventRow :=
  bfilter (fun r => existsb (String.eqb (contractOf r)) (mainnetMarketIds e)) rows.

(** A mainnet page depends on nothing but the events of the market ids that
    SCOPE_MAINNET_MARKET_IDS names and the poll cursor: other deployments'
    events and the legacy baseline, present or missing, change no answer. A
    gateway on another network answers not_indexed_here without rows, whatever
    its database holds. *)
Theorem mainnet_board_isolated g db db' sort limit offset snapshot now st :
  (forall rows, eventsTable db = Some rows ->
     exists rows', eventsTable db' = Some rows' /\ mainnetRows (g_env g) rows' = mainnetRows (g_env g) rows) ->
  (eventsTable db = None -> eventsTable db' = None) -> cursorTable db' = cursorTable db ->
  let page d := leaderboardPage g d (Some "mainnet") sort limit offset snapshot now st in
  page db' = page db
  /\ (g_network g <> "mainnet" -> g_network g <> "public" ->
      exists p, page db = (Ok p, st) /\ pg_state p = not_indexed_here /\ leaders p = []).
Proof.
  intros Hrows Hnone Hcur page. split.
  - unfold page, leaderboardPage.
    change (requestScope g (Some "mainnet")) with (Ok {| scopeId := "mainnet"; scopeNetwork := "public";
      label := "Stellar Mainnet"; marketIds := mainnetMarketIds (g_env g); legacyScopeKey := None |}).
    unfold Ok at 1. cbv beta iota.
    set (scope := {| scopeId := "mainnet"; scopeNetwork := "public"; label := "Stellar Mainnet";
                     marketIds := mainnetMarketIds (g_env g); legacyScopeKey := None |}).
    assert (computeSnapshot db' scope sort now = computeSnapshot db scope sort now) as Hsnap.
    { unfold computeSnapshot, pollCursor. rewrite Hcur.
      assert (queryRankedBoard db' scope sort = queryRankedBoard db scope sort) as ->; [|done].
      unfold queryRankedBoard, execRankedBoard. cbn [legacyScopeKey scope].
      destruct (eventsTable db) as [rows|] eqn:E; [|by rewrite Hnone].
      destruct (Hrows rows eq_refl) as (rows' & -> & Heq).
      assert (scopedRows scope rows' = scopedRows scope rows) as -> by exact Heq. done. }
    unfold snapshotFor, currentSnapshot. by rewrite Hsnap.
  - intros H1 H2. unfold page, leaderboardPage.
    change (requestScope g (Some "mainnet")) with (Ok {| scopeId := "mainnet"; scopeNetwork := "public";
      label := "Stellar Mainnet"; marketIds := mainnetMarketIds (g_env g); legacyScopeKey := None |}).
    unfold scopeServedByNetwork. cbn [scopeNetwork Ok].
    rewrite (proj2 (String.eqb_neq _ _) H1).
    assert (String.eqb "public" (g_network g) = false) as -> by (apply String.eqb_neq; congruence).
    cbn. eexists. by split_and!.
Qed.

Definition testnetEnv : ScopeEnv := {|
  SCOPE_TESTNET_MARKET_IDS := None; SCOPE_MAINNET_MARKET_IDS := Some " CMAIN , "; LEADERBOARD_SCOPE := None;
  manifestMarket := None |}.

Definition mainnetGateway : Gateway := {| g_env := testnetEnv; g_market := "CMAIN"; g_network := "mainnet" |}.

Definition mainnetEvents (legacyToo : bool) : BoardDb := {|
  eventsTable := Some (archiveOf ((if legacyToo then boardArchive else [])
    ++ [ev_of "9" "CMAIN" 40 2000 (PositionOpened 1 "GM" "BTC" 0 70 1)]));
  legacyTable := (if legacyToo then Some inherited else None); cursorTable := Some (Some (40, 1200000)) |}.

Lemma mainnet_board_isolated_witness :
  let page d := leaderboardPage mainnetGateway d (Some "mainnet") byVolume None None None 7 freshService in
  page (mainnetEvents true) = page (mainnetEvents false)
  /\ (fun p => (fun e => (e_trader e, e_volume e)) <$> leaders p) <$> (page (mainnetEvents true)).1
     = Ok [("GM", "70")].
Proof.
  split; [|vm_compute; reflexivity].
  apply (mainnet_board_isolated mainnetGateway (mainnetEvents false) (mainnetEvents true) byVolume
    None None None 7 freshService).
  - intros rows [= <-]. eexists. split; [reflexivity | vm_compute; reflexivity].
  - discriminate.
  - reflexivity.
Defined.

(** ** Walking pages *)

(** A service's life: the databases its requests saw, latest first, and the
    leaderboard pages it served. *)
Inductive Served (g : Gateway) : list (BoardDb * Z) -> BoardService -> list LeaderboardPage -> Prop :=
| served_start : Served g [] freshService []
| served_page log st ps db id sort limit offset snapshot now :
    Served g log st ps ->
    let r := leaderboardPage g db id sort limit offset snapshot now st in
    Served g ((db, now) :: log) r.2 (match r.1 with inr p => p :: ps | inl _ => ps end)
| served_rank log st ps db who id sort now :
    Served g log st ps ->
    Served g ((db, now) :: log) (leaderboardRank g db who id sort now st).2 ps
| served_totals log st ps db id now :
    Served g log st ps -> Served g ((db, now) :: log) (leaderboardTotals g db id now st).2 ps.

(** [snap] is a computation of (scope, sort) over a database of the log. *)
Definition computedIn (log : list (BoardDb * Z)) (scope : DeploymentScope) (sort : LeaderboardSort)
    (snap : BoardSnapshot) : Prop :=
  exists db now, (db, now) ∈ log /\ computeSnapshot db scope sort now = Ok snap.

Lemma computedIn_cons x log scope sort snap :
  computedIn log scope sort snap -> computedIn (x :: log) scope sort snap.
Proof. intros (db & now & Hin & H). exists db, now. split; [by right|done]. Qed.

(** The two registry entries of a gateway. *)
Definition homeScopes (g : Gateway) : list DeploymentScope :=
  omap (fun id => resolveScope (g_env g) (Some id) (given (Some (g_market g)))) ["testnet"; "mainnet"].

Lemma requestScope_home g id scope : requestScope g id = Ok scope -> scope ∈ homeScopes g.
Proof.
  intros H.
  assert (forall i, resolveScope (g_env g) i (given (Some (g_market g))) = Some scope -> scope ∈ homeScopes g)
    as Hr.
  { intros i. unfold homeScopes, resolveScope. simpl.
    destruct (String.eqb _ "testnet"); [intros [= <-]; by left|].
    destruct (String.eqb _ "mainnet"); [intros [= <-]; right; by left|done]. }
  unfold requestScope, scopeFromEnv in H. destruct id as [i|].
  - destruct (resolveScope _ (Some i) _) eqn:E; [|done]. injection H as ->. by eapply Hr.
  - destruct (resolveScope _ _ _) eqn:E; [|done]. injection H as ->. by eapply Hr.
Qed.

(** A cache key names its scope and sort. *)
Lemma boardKey_inj g s s' o o' :
  s ∈ homeScopes g -> s' ∈ homeScopes g -> boardKey s o = boardKey s' o' -> s = s' /\ o = o'.
Proof.
  unfold homeScopes, resolveScope. simpl. rewrite !elem_of_cons.
  intros [->|[->|?%elem_of_nil]] [->|[->|?%elem_of_nil]]; try done;
    destruct o, o'; unfold boardKey; simpl; intros [=]; done.
Qed.

Record Honest (g : Gateway) (log : list (BoardDb * Z)) (st : BoardService) : Prop := {
  honest_cache : forall scope sort snap t, scope ∈ homeScopes g ->
    snapCache st !! boardKey scope sort = Some (snap, t) -> computedIn log scope sort snap;
  honest_history : forall scope sort l snap, scope ∈ homeScopes g ->
    snapHistory st !! boardKey scope sort = Some l -> snap ∈ l -> computedIn log scope sort snap }.

Lemma honest_cons g x log st : Honest g log st -> Honest g (x :: log) st.
Proof. intros [H1 H2]. split; intros; apply computedIn_cons; eauto. Qed.

Lemma elem_of_pushHistory snap h x : x ∈ pushHistory snap h -> x = snap \/ x ∈ h.
Proof.
  unfold pushHistory. destruct h as [|y h].
  - intros H. apply elem_of_take in H as (i & H & _). apply list_elem_of_lookup_2 in H.
    apply list_elem_of_singleton in H. tauto.
  - destruct (String.eqb _ _).
    + rewrite !elem_of_cons. tauto.
    + intros H. apply elem_of_take in H as (i & H & _). apply list_elem_of_lookup_2 in H.
      rewrite !elem_of_cons in *. tauto.
Qed.

Lemma cacheGet_subset {V} key now (c : TtlCache V) k v :
  (cacheGet key now c).2 !! k = Some v -> c !! k = Some v.
Proof.
  unfold cacheGet. destruct (c !! key) as [[x e]|]; [|done]. destruct (e <=? now); [|done]. simpl.
  rewrite lookup_delete_Some. by intros [_ ?].
Qed.

Lemma currentSnapshot_honest g log st db now scope sort :
  Honest g log st -> scope ∈ homeScopes g ->
  let r := currentSnapshot db scope sort now st in
  Honest g ((db, now) :: log) r.2
  /\ forall snap, r.1 = Ok snap -> computedIn ((db, now) :: log) scope sort snap.
Proof.
  intros HH Hs. apply (honest_cons g (db, now)) in HH. unfold currentSnapshot.
  pose proof (cacheGet_subset (boardKey scope sort) now (snapCache st)) as Hsub.
  destruct (cacheGet (boardKey scope sort) now (snapCache st)) as [[snap|] c] eqn:Ec; cbn [snd] in Hsub.
  - assert (snapCache st !! boardKey scope sort = Some (snap, default 0 (snd <$> snapCache st !! boardKey scope sort)))
      as Hhit.
    { unfold cacheGet in Ec. destruct (snapCache st !! boardKey scope sort) as [[x e]|] eqn:E; [|done].
      destruct (e <=? now); [done|]. injection Ec as -> _. done. }
    cbn [fst snd]. split; [|intros x [= <-]; by eapply (honest_cache _ _ _ HH)].
    destruct HH as [H1 H2]. split; [|exact H2]. intros s o x t Hin Hl. eapply H1; [done|].
    apply Hsub. exact Hl.
  - destruct (computeSnapshot db scope sort now) as [e|snap] eqn:Ecs; cbn [fst snd].
    + split; [|done]. destruct HH as [H1 H2]. split; [|exact H2]. intros s o x t Hin Hl.
      eapply H1; [done|]. apply Hsub. exact Hl.
    + assert (computedIn ((db, now) :: log) scope sort snap) as Hnew
        by (exists db, now; split; [by left|exact Ecs]).
      split; [|by intros x [= <-]]. destruct HH as [H1 H2]. unfold keepSnapshot, cacheSet.
      split; cbn [snapCache snapHistory].
      * intros s o x t Hin. destruct (decide (boardKey scope sort = boardKey s o)) as [Heq|Hne].
        -- rewrite <- Heq, lookup_insert_eq. intros [= <- _].
           by destruct (boardKey_inj g _ _ _ _ Hs Hin Heq) as [<- <-].
        -- rewrite lookup_insert_ne by done. intros Hl. eapply H1; [done|]. by apply Hsub.
      * intros s o l x Hin. destruct (decide (boardKey scope sort = boardKey s o)) as [Heq|Hne].
        -- rewrite <- Heq, lookup_insert_eq. destruct (boardKey_inj g _ _ _ _ Hs Hin Heq) as [<- <-].
           intros [= <-] Hx. apply elem_of_pushHistory in Hx as [->|Hx]; [done|].
           destruct (snapHistory st !! boardKey scope sort) eqn:E; [|by apply elem_of_nil in Hx].
           by eapply H2.
        -- rewrite lookup_insert_ne by done. by apply H2.
Qed.

Lemma snapshotFor_honest g log st db now scope sort requested :
  Honest g log st -> scope ∈ homeScopes g ->
  let r := snapshotFor db scope sort now requested st in
  Honest g ((db, now) :: log) r.2
  /\ forall snap b, r.1 = Ok (snap, b) -> computedIn ((db, now) :: log) scope sort snap.
Proof.
  intros HH Hs. unfold snapshotFor.
  pose proof (currentSnapshot_honest g log st db now scope sort HH Hs) as [H1 H2].
  destruct (currentSnapshot db scope sort now st) as [[e|snap] st']; cbn [fst snd] in *; [by split|].
  specialize (H2 snap eq_refl).
  destruct (given requested) as [r|]; [|split; [done|by intros ? ? [= <- _]]].
  destruct (String.eqb r (s_id snap)); [split; [done|by intros ? ? [= <- _]]|].
  destruct (List.find _ _) as [held|] eqn:Ef; cbn [fst snd]; (split; [done|]);
    intros x b [= <- _]; [|done].
  apply find_some in Ef as [Hin _].
  destruct (snapHistory st' !! boardKey scope sort) as [l|] eqn:E; [|done].
  eapply (honest_history _ _ _ H1); [done|exact E|]. by apply list_elem_of_In.
Qed.

(** What a served page shows: a slice of one computation for its scope. *)
Definition showsSlice (g : Gateway) (log : list (BoardDb * Z)) (p : LeaderboardPage) : Prop :=
  (pg_state p = not_indexed_here /\ leaders p = [] /\ pg_snapshot p = EmptyString)
  \/ exists scope snap, scope ∈ homeScopes g /\ computedIn log scope (pg_sort p) snap
       /\ pg_scope p = scopeId scope /\ pg_snapshot p = s_id snap /\ pg_total p = s_total snap
       /\ leaders p = slice (pg_offset p) (pg_limit p) (s_rows snap).

Lemma showsSlice_cons g x log p : showsSlice g log p -> showsSlice g (x :: log) p.
Proof.
  intros [H|(scope & snap & H1 & H2 & H)]; [by left|]. right. exists scope, snap.
  split; [done|]. split; [by apply computedIn_cons|done].
Qed.

Lemma page_honest g log st db id sort limit offset snapshot now :
  Honest g log st ->
  let r := leaderboardPage g db id sort limit offset snapshot now st in
  Honest g ((db, now) :: log) r.2 /\ forall p, r.1 = Ok p -> showsSlice g ((db, now) :: log) p.
Proof.
  intros HH. unfold leaderboardPage.
  destruct (requestScope g id) as [e|scope] eqn:Er; [by split; [apply honest_cons|]|].
  apply requestScope_home in Er. destruct (negb _).
  { split; [by apply honest_cons|]. intros p [= <-]. by left. }
  pose proof (snapshotFor_honest g log st db now scope sort snapshot HH Er) as [H1 H2].
  destruct (snapshotFor db scope sort now snapshot st) as [[e|[snap b]] st']; cbn [fst snd] in *; [by split|].
  split; [done|]. intros p [= <-]. right. exists scope, snap. split; [done|]. split; [by apply (H2 snap b)|done].
Qed.

Lemma served_honest g log st ps :
  Served g log st ps -> Honest g log st /\ forall p, p ∈ ps -> showsSlice g log p.
Proof.
  induction 1 as [|log st ps db id sort limit offset snapshot now H [IH1 IH2]
                 |log st ps db who id sort now H [IH1 IH2]|log st ps db id now H [IH1 IH2]].
  - split; [split; intros *; simpl; by rewrite lookup_empty|]. by intros p ?%elem_of_nil.
  - pose proof (page_honest g log st db id sort limit offset snapshot now IH1) as [H1 H2]. subst r.
    destruct (leaderboardPage g db id sort limit offset snapshot now st) as [[e|p] st']; cbn [fst snd] in *;
      (split; [done|]); intros q Hq.
    + by apply showsSlice_cons, IH2.
    + apply elem_of_cons in Hq as [->|Hq]; [by apply H2|]. by apply showsSlice_cons, IH2.
  - split; [|intros p Hp; by apply showsSlice_cons, IH2]. unfold leaderboardRank.
    destruct (requestScope g id) as [e|scope] eqn:Er; [by apply honest_cons|].
    apply requestScope_home in Er. destruct (negb _); [by apply honest_cons|].
    pose proof (currentSnapshot_honest g log st db now scope sort IH1 Er) as [H1 _].
    by destruct (currentSnapshot db scope sort now st) as [[e|snap] st'].
  - split; [|intros p Hp; by apply showsSlice_cons, IH2]. apply (honest_cons g (db, now)) in IH1.
    unfold leaderboardTotals. destruct (requestScope g id); [done|]. destruct (negb _); [done|].
    destruct (getOrLoad _ _ _ _ _ _). destruct IH1 as [H1 H2]. by split.
Qed.

Lemma queryRankedBoard_shape db scope sort board :
  queryRankedBoard db scope sort = Ok board ->
  rank <$> board = seqZ 1 (Z.of_nat (length board)) /\ NoDup (e_trader <$> board).
Proof.
  assert (forall l, BoardOf sort l (rankBoard sort l)) as Hb by apply rankBoard_board.
  unfold queryRankedBoard, execRankedBoard. destruct (eventsTable db) as [rows|].
  2: { destruct (legacyScopeKey scope); intros [= <-]; (split; [done|by apply NoDup_nil]). }
  destruct (legacyScopeKey scope), (legacyTable db); cbn [negb];
    intros H; apply bind_Ok in H as (legs & _ & H); injection H as <-;
    (split; [apply (board_ranks _ _ _ (Hb _)) | apply (board_nodup _ _ _ (Hb _))]).
Qed.

Lemma computeSnapshot_shape db scope sort now snap :
  computeSnapshot db scope sort now = Ok snap ->
  rank <$> s_rows snap = seqZ 1 (s_total snap) /\ NoDup (e_trader <$> s_rows snap)
  /\ s_total snap = Z.of_nat (length (s_rows snap)).
Proof.
  intros H. unfold computeSnapshot in H. apply bind_Ok in H as (rows & Hr & H). injection H as <-.
  cbn [s_rows s_total].
  assert (rows = [] \/ queryRankedBoard db scope sort = Ok rows) as [->|Hq].
  { destruct (marketIds scope), (legacyScopeKey scope); [by right|left; by injection Hr|by right..]. }
  - split_and!; [done|by apply NoDup_nil|done].
  - apply queryRankedBoard_shape in Hq as [H1 H2]. by split_and!.
Qed.

Lemma slices_concat {A B} (L : Z) (rows : list A) (walk : list B) (o : nat) :
  0 <= L ->
  concat (imap (fun k _ => slice (Z.of_nat (o + k) * L) L rows) walk)
  = take (length walk * Z.to_nat L) (drop (o * Z.to_nat L) rows).
Proof.
  intros HL. revert o; induction walk as [|p walk IH]; intros o; [done|].
  rewrite imap_cons. cbn [concat length].
  rewrite (imap_ext _ (fun k _ => slice (Z.of_nat (S o + k) * L) L rows))
    by (intros k x _; simpl; do 2 f_equal; lia).
  rewrite IH. unfold slice.
  replace (Z.to_nat (Z.of_nat (o + 0) * L)) with (o * Z.to_nat L)%nat by lia.
  replace (S (length walk) * Z.to_nat L)%nat with (Z.to_nat L + length walk * Z.to_nat L)%nat by lia.
  replace (S o * Z.to_nat L)%nat with (o * Z.to_nat L + Z.to_nat L)%nat by lia.
  rewrite <- drop_drop. generalize (drop (o * Z.to_nat L) rows), (Z.to_nat L), (length walk * Z.to_nat L)%nat.
  clear. intros l a b. apply take_take_drop.
Qed.

Lemma homeScopes_id g s s' :
  s ∈ homeScopes g -> s' ∈ homeScopes g -> scopeId s = scopeId s' -> s = s'.
Proof.
  intros H1 H2 H. apply (boardKey_inj g s s' byPnl byPnl H1 H2). unfold boardKey. by rewrite H.
Qed.

(** Snapshots of one board that share an id share their rows. *)
Definition idsIdentify (g : Gateway) (log : list (BoardDb * Z)) : Prop :=
  forall scope sort a b, scope ∈ homeScopes g -> computedIn log scope sort a ->
    computedIn log scope sort b -> s_id a = s_id b -> s_rows a = s_rows b.

(** Pages of one snapshot id, served at whatever moments of a service's life
    with whatever other requests between them, put end to end from the first
    offset until the total is covered, show the ranks 1 to the total in order
    and no trader twice, provided snapshot ids identify the rows. *)
Theorem walked_pages_cover_board g log st ps sc sort sid L p0 walk :
  Served g log st ps -> idsIdentify g log -> 0 <= L ->
  (forall k p, (p0 :: walk) !! k = Some p ->
     p ∈ ps /\ pg_state p <> not_indexed_here /\ pg_scope p = sc /\ pg_sort p = sort
     /\ pg_snapshot p = sid /\ pg_limit p = L /\ pg_offset p = Z.of_nat k * L) ->
  pg_total p0 <= Z.of_nat (length (p0 :: walk)) * L ->
  rank <$> concat (leaders <$> (p0 :: walk)) = seqZ 1 (pg_total p0)
  /\ NoDup (e_trader <$> concat (leaders <$> (p0 :: walk))).
Proof.
  intros HS Hids HL Hw Htot. apply served_honest in HS as [_ HS].
  destruct (Hw 0%nat p0 eq_refl) as (Hp0 & Hs0 & Hsc0 & Hso0 & Hid0 & _).
  destruct (HS p0 Hp0) as [[? _]|(scope & snap & Hhome & Hcomp & Hsc & Hid & Htt & _)]; [done|].
  rewrite Hso0 in Hcomp. pose proof Hcomp as (db & now & _ & Hcs).
  apply computeSnapshot_shape in Hcs as (Hranks & Hnd & Hlen).
  assert (leaders <$> (p0 :: walk)
    = imap (fun k _ => slice (Z.of_nat (0 + k) * L) L (s_rows snap)) (p0 :: walk)) as ->.
  { apply list_eq. intros k. rewrite list_lookup_fmap, list_lookup_imap.
    destruct ((p0 :: walk) !! k) as [p|] eqn:E; [|done]. cbn [fmap option_fmap option_map]. f_equal.
    destruct (Hw k p E) as (Hp & Hs & Hsc' & Hso & Hid' & Hlim & Hoff).
    destruct (HS p Hp) as [[? _]|(scope' & snap' & Hhome' & Hcomp' & Hscp & Hidp & _ & Hl)]; [done|].
    assert (scope' = scope) as -> by (apply (homeScopes_id g); [done..|congruence]).
    rewrite Hso in Hcomp'. rewrite Hl, Hlim, Hoff. unfold slice. simpl.
    by rewrite (Hids scope sort snap' snap) by (done || congruence). }
  rewrite slices_concat by done. simpl drop.
  assert (length (s_rows snap) <= length (p0 :: walk) * Z.to_nat L)%nat as Hge.
  { rewrite Htt, Hlen in Htot. nia. }
  rewrite take_ge by exact Hge. rewrite Htt. by split.
Qed.

(** Two pages of one trader each, from two databases a poll apart. *)
Definition testnetGateway : Gateway := {| g_env := testnetEnv; g_market := "CMKT"; g_network := "testnet" |}.

Definition askPage (db : BoardDb) (offset : Z) (snapshot : option string) (now : Z)
    (st : BoardService) : Result LeaderboardPage * BoardService :=
  leaderboardPage testnetGateway db None byPnl (Some 1) (Some offset) snapshot now st.

Definition pageOr (r : Result LeaderboardPage * BoardService) : LeaderboardPage :=
  match r.1 with
  | inr p => p
  | inl _ => {| pg_scope := EmptyString; pg_network := EmptyString; pg_state := empty_; pg_sort := byPnl; pg_updatedAt := None;
                pg_total := 0; pg_limit := 0; pg_offset := 0; pg_snapshot := EmptyString; pg_snapshotChanged := true;
                leaders := [] |}
  end.

Definition firstAsk := askPage boardDb 0 None 0 freshService.
Definition secondAsk := askPage boardDb 1 (Some "testnet.pnl.30.2") 30000 firstAsk.2.

Lemma walked_pages_cover_board_witness :
  let walk := [pageOr firstAsk; pageOr secondAsk] in
  pg_snapshotChanged (pageOr secondAsk) = false
  /\ rank <$> concat (leaders <$> walk) = seqZ 1 2 /\ NoDup (e_trader <$> concat (leaders <$> walk)).
Proof.
  split; [vm_compute; reflexivity|].
  assert (Served testnetGateway [(boardDb, 30000); (boardDb, 0)] secondAsk.2
    [pageOr secondAsk; pageOr firstAsk]) as HS.
  { refine (served_page testnetGateway [(boardDb, 0)] firstAsk.2 [pageOr firstAsk] boardDb None byPnl
      (Some 1) (Some 1) (Some "testnet.pnl.30.2") 30000 _).
    exact (served_page testnetGateway [] freshService [] boardDb None byPnl (Some 1) (Some 0) None 0
      (served_start testnetGateway)). }
  apply (walked_pages_cover_board testnetGateway [(boardDb, 30000); (boardDb, 0)] secondAsk.2
    [pageOr secondAsk; pageOr firstAsk] "testnet" byPnl "testnet.pnl.30.2" 1
    (pageOr firstAsk) [pageOr secondAsk] HS).
  - intros scope sort a b _ (d1 & t1 & H1 & C1) (d2 & t2 & H2 & C2) _.
    rewrite !elem_of_cons in H1, H2.
    assert (d1 = boardDb) as -> by (destruct H1 as [[= -> ->]|[[= -> ->]|?%elem_of_nil]]; done).
    assert (d2 = boardDb) as -> by (destruct H2 as [[= -> ->]|[[= -> ->]|?%elem_of_nil]]; done).
    unfold computeSnapshot in C1, C2. apply bind_Ok in C1 as (r1 & E1 & C1), C2 as (r2 & E2 & C2).
    injection C1 as <-. injection C2 as <-. rewrite E1 in E2. by injection E2 as <-.
  - lia.
  - intros [|[|k]] p Hp; [injection Hp as <-|injection Hp as <-|done];
      (split_and!; [|vm_compute; (discriminate || reflexivity)..]); [right; left|left].
  - vm_compute. discriminate.
Defined.

(** Ids do not always identify the rows: the poll cursor keeps its ledger while
    the indexer works through that ledger, and the id has only the ledger and
    the number of traders. Here GB overtakes GA between the two requests, the
    second page is of a newer computation under the id that was asked for,
    [snapshotChanged] is false, and the walk shows GA twice and never GB. *)
Definition laterDb : BoardDb := {|
  eventsTable := Some (archiveOf (boardArchive
    ++ [ev_of "6" "CMKT" 30 1200 (PositionClosed 2 "GB" "ETH" 0 100 1 2 500)]));
  legacyTable := Some inherited; cursorTable := Some (Some (30, 1200000)) |}.

Example equal_ids_different_rows :
  let second := askPage laterDb 1 (Some (pg_snapshot (pageOr firstAsk))) 30000 firstAsk.2 in
  pg_snapshot (pageOr second) = pg_snapshot (pageOr firstAsk)
  /\ pg_snapshotChanged (pageOr second) = false
  /\ e_trader <$> concat (leaders <$> [pageOr firstAsk; pageOr second]) = ["GA"; "GA"].
Proof. vm_compute. auto. Qed.

(** ** The array literal keeps its elements

    A reader of Postgres array literals whose elements are all quoted: inside
    the quotes a backslash makes the next character plain. *)

Fixpoint readQuoted (s : string) : option (string * string) :=
  match s with
  | EmptyString => None
  | String c s =>
      if Ascii.eqb c DQUOTE then Some (EmptyString, s)
      else if Ascii.eqb c BACKSLASH then
        match s with
        | String d s => match readQuoted s with Some (w, r) => Some (String d w, r) | None => None end
        | EmptyString => None
        end
      else match readQuoted s with Some (w, r) => Some (String c w, r) | None => None end
  end.

Fixpoint readElements (fuel : nat) (s : string) : option (list string) :=
  match fuel, s with
  | S fuel, String q s =>
      if negb (Ascii.eqb q DQUOTE) then None
      else match readQuoted s with
           | Some (w, String d s) =>
               if Ascii.eqb d "," then cons w <$> readElements fuel s
               else if Ascii.eqb d "}" && String.eqb s EmptyString then Some [w] else None
           | _ => None
           end
  | _, _ => None
  end.

Definition readPgTextArray (s : string) : option (list string) :=
  match s with
  | String b s =>
      if negb (Ascii.eqb b "{") then None
      else if String.eqb s "}" then Some [] else readElements (String.length s) s
  | EmptyString => None
  end.

(** The two replacements in one pass. *)
Fixpoint escaped (s : string) : string :=
  match s with
  | EmptyString => EmptyString
  | String c s =>
      if Ascii.eqb c BACKSLASH || Ascii.eqb c DQUOTE then String BACKSLASH (String c (escaped s))
      else String c (escaped s)
  end.

Lemma replaceChar_cons c t x s :
  replaceChar c t (String x s)
  = if Ascii.eqb x c then t +:+ replaceChar c t s else String x (replaceChar c t s).
Proof. done. Qed.

Lemma replacements_escaped id :
  replaceChar DQUOTE (String BACKSLASH (String DQUOTE EmptyString))
    (replaceChar BACKSLASH (String BACKSLASH (String BACKSLASH EmptyString)) id) = escaped id.
Proof.
  induction id as [|c id IH]; [done|]. rewrite replaceChar_cons.
  change (escaped (String c id)) with
    (if Ascii.eqb c BACKSLASH || Ascii.eqb c DQUOTE then String BACKSLASH (String c (escaped id))
     else String c (escaped id)).
  rewrite <- IH. destruct (Ascii.eqb_spec c BACKSLASH) as [->|Hb]; [done|].
  rewrite replaceChar_cons. by destruct (Ascii.eqb_spec c DQUOTE) as [->|Hq].
Qed.

Lemma quoteId_escaped id :
  quoteId id = String DQUOTE (escaped id +:+ String DQUOTE EmptyString).
Proof. unfold quoteId. by rewrite replacements_escaped. Qed.

Lemma readQuoted_escaped id rest :
  readQuoted (escaped id +:+ String DQUOTE rest) = Some (id, rest).
Proof.
  induction id as [|c id IH]; [done|]. simpl.
  destruct (Ascii.eqb_spec c BACKSLASH) as [->|Hb]; simpl; [by rewrite IH|].
  destruct (Ascii.eqb_spec c DQUOTE) as [->|Hq]; simpl; [by rewrite IH|].
  rewrite (proj2 (Ascii.eqb_neq _ _) Hq), (proj2 (Ascii.eqb_neq _ _) Hb). by rewrite IH.
Qed.

Lemma append_assoc (a b c : string) : (a +:+ b) +:+ c = a +:+ (b +:+ c).
Proof. induction a as [|x a IH]; [done|]. exact (f_equal (String x) IH). Qed.

Lemma append_cons c (s t : string) : String c s +:+ t = String c (s +:+ t).
Proof. done. Qed.

Lemma length_append (a b : string) : String.length (a +:+ b) = (String.length a + String.length b)%nat.
Proof. induction a as [|x a IH]; [done|]. rewrite append_cons. simpl. by rewrite IH. Qed.

(** One quoted element and what follows it. *)
Lemma readElements_quoted fuel id d rest :
  readElements (S fuel) (quoteId id +:+ String d rest)
  = if Ascii.eqb d "," then cons id <$> readElements fuel rest
    else if Ascii.eqb d "}" && String.eqb rest EmptyString then Some [id] else None.
Proof.
  rewrite quoteId_escaped, append_cons, append_assoc, append_cons.
  cbn [readElements]. change (negb (Ascii.eqb DQUOTE DQUOTE)) with false. cbv iota.
  change (EmptyString +:+ String d rest) with (String d rest). by rewrite readQuoted_escaped.
Qed.

Lemma readElements_literal x ids fuel :
  (length ids < fuel)%nat ->
  readElements fuel (String.concat "," (quoteId <$> x :: ids) +:+ "}") = Some (x :: ids).
Proof.
  revert x fuel; induction ids as [|y ids IH]; intros x [|fuel] Hf; cbn [length] in Hf; [lia| |lia|].
  - exact (readElements_quoted fuel x "}" EmptyString).
  - specialize (IH y fuel ltac:(lia)). rewrite !fmap_cons in *. cbn [String.concat] in *.
    rewrite !append_assoc. change ("," +:+ ?s) with (String "," s).
    rewrite readElements_quoted. change (Ascii.eqb "," ",") with true. cbv iota.
    by rewrite IH.
Qed.

Lemma length_concat_quoted x ids :
  (length ids < String.length (String.concat "," (quoteId <$> x :: ids) +:+ "}"))%nat.
Proof.
  revert x; induction ids as [|y ids IH]; intros x.
  - rewrite length_append. simpl. lia.
  - specialize (IH y). rewrite !fmap_cons in *. cbn [String.concat] in *.
    rewrite !length_append in *. simpl in *. lia.
Qed.

(** Whatever characters the market ids hold, the literal bound to the query is
    the array of exactly those ids. *)
Theorem array_literal_roundtrip ids : readPgTextArray (toPgTextArrayLiteral ids) = Some ids.
Proof.
  unfold toPgTextArrayLiteral. destruct ids as [|x ids]; [done|].
  change ("{" +:+ String.concat "," (quoteId <$> x :: ids) +:+ "}")
    with (String "{" (String.concat "," (quoteId <$> x :: ids) +:+ "}")).
  unfold readPgTextArray. cbn [negb Ascii.eqb Bool.eqb].
  pose proof (length_concat_quoted x ids) as Hlen.
  pose proof (readElements_literal x ids (String.length (String.concat "," (quoteId <$> x :: ids) +:+ "}")) Hlen)
    as Hread.
  destruct (String.eqb_spec (String.concat "," (quoteId <$> x :: ids) +:+ "}") "}") as [He|]; [|done].
  rewrite He in Hread. discriminate Hread.
Qed.
