(* ===== verification/WebErrors.v ===== *)
(** * What the web application says went wrong

    Models web/lib/utils/contractErrors.ts (the error tables of the contracts,
    the decoder and the wallet-rejection words), txCopy.ts, userError.ts, the
    texts submitTransaction of web/lib/stellar/client.ts throws with, and what
    the pages show for a thrown value: the trade page's close and margin toasts
    and the vault modal. The error enums of the contracts are those of
    noether_common, vault_factory and referral. *)

From S2P Require Import Prelude JsText TxFootprint TxSubmission KeeperEffects ApiBoard.
Open Scope Z_scope.
Open Scope js_scope.

(** ** The tables (contractErrors.ts) *)

Inductive ErrorContext := atMarket | atVault | atFactory | atReferral.

(** NoetherError (market and vault) *)
Definition NOETHER_ERROR_MESSAGES : list (Z * string) :=
  [ (1, "Contract not initialized"%string);
    (2, "Contract already initialized"%string);
    (3, "Not authorized for this operation"%string);
    (4, "Trading is currently paused"%string);
    (5, "Invalid input parameter"%string);
    (6, "Amount too large — arithmetic overflow"%string);
    (7, "Division by zero"%string);
    (20, "Position not found — it may already be closed"%string);
    (21, "Invalid leverage — must be between 1x and 10x"%string);
    (22, "Insufficient collateral — minimum is 10 USDC"%string);
    (23, "Position size exceeds the maximum allowed"%string);
    (24, "You do not own this position"%string);
    (25, "Insufficient margin for this operation"%string);
    (30, "Price feed stale — please retry"%string);
    (31, "Invalid oracle price — please retry"%string);
    (32, "Oracle unavailable — please retry"%string);
    (40, "Insufficient liquidity in the vault"%string);
    (41, "Amount must be positive"%string);
    (42, "Insufficient balance"%string);
    (43, "Deposit would exceed the per-account cap"%string);
    (50, "Position is healthy and cannot be liquidated"%string);
    (51, "Liquidation failed"%string);
    (55, "Funding interval has not elapsed yet"%string);
    (60, "Order not found — it may already be executed or cancelled"%string);
    (61, "Order is no longer pending"%string);
    (62, "Order trigger condition not met"%string);
    (63, "Price moved beyond your slippage tolerance"%string);
    (64, "You do not own this order"%string);
    (65, "Invalid trigger price for this position"%string);
    (66, "Invalid slippage tolerance"%string);
    (67, "Position already has this type of order attached"%string);
    (68, "Invalid limit price"%string);
    (69, "Invalid trailing percentage — must be 0.01% to 50%"%string);
    (70, "Post-only order would execute immediately"%string);
    (76, "Cross-margin pool balance too low"%string);
    (77, "Withdrawal would leave insufficient free margin"%string);
    (78, "Cross-margin account is not liquidatable"%string);
    (79, "No cross-margin positions found"%string);
    (80, "Stop-loss/take-profit orders are not supported on cross-margin positions"%string);
    (81, "Price moved too fast — please retry in a moment"%string);
    (82, "Open interest cap reached for this market — try a smaller size"%string);
    (27, "Remaining position would be below the $10 minimum — close the full position instead"%string);
    (83, "This position was just partially liquidated — try again in a moment"%string);
    (84, "Auto-deleveraging is not active for this market right now"%string);
    (85, "Only winning positions can be auto-deleveraged"%string);
    (86, "Liquidation needs a confirmed price first — retry in a moment"%string);
    (87, "Filled worse than your acceptable price — resubmit or widen the limit"%string);
    (88, "This market has no risk parameters configured yet"%string);
    (89, "This order would push the market past its long/short skew cap — try a smaller size or the other side"%string);
    (90, "The market is fully frozen right now — only order cancellation is available; it auto-resumes within 72h"%string);
    (91, "This order only reduces your opposite position — use Close or reduce-only instead"%string);
    (92, "Trading in this market is temporarily halted — closing positions still works"%string);
    (93, "Withdrawals unlock a short cooldown after your latest deposit — try again shortly"%string);
    (94, "This agent key is not authorized for that action"%string);
    (95, "This order has not expired yet"%string);
    (96, "NOE supply exhausted — deposits are temporarily unavailable"%string) ].

(** FactoryError (vault_factory) *)
Definition FACTORY_ERROR_MESSAGES : list (Z * string) :=
  [ (1, "Vault factory already initialized"%string);
    (2, "Vault factory not initialized"%string);
    (3, "Invalid parameter"%string);
    (4, "Invalid vault name"%string);
    (5, "Vault not found"%string);
    (6, "Only the vault leader can do this"%string);
    (7, "Not authorized (admin only)"%string);
    (8, "Amount must be positive"%string);
    (9, "You are trying to withdraw more shares than you own"%string);
    (10, "The vault does not have enough free USDC for this withdrawal"%string);
    (11, "Leaders must keep at least 5% of the vault — this withdrawal would drop below the minimum"%string);
    (12, "This vault is paused"%string);
    (13, "Amount too large — arithmetic overflow"%string);
    (14, "Could not compute the vault share price — please retry"%string);
    (15, "No performance fees to claim yet"%string);
    (16, "That position or order does not belong to this vault"%string);
    (17, "Capital is deployed in open positions — wait for the leader to free liquidity before withdrawing this much"%string);
    (18, "Could not value the vault right now (price feed unavailable) — please retry"%string);
    (19, "This vault has too many open positions and orders — close some first"%string);
    (20, "Vault creation is currently restricted (allowlist or max-vaults cap)"%string) ].

(** ReferralError *)
Definition REFERRAL_ERROR_MESSAGES : list (Z * string) :=
  [ (1, "Referral contract already initialized"%string);
    (2, "Referral contract not initialized"%string);
    (3, "Not authorized (admin only)"%string);
    (4, "Only the market contract can record trades"%string);
    (5, "Invalid parameter"%string);
    (6, "Referral code too short — use at least 3 characters"%string);
    (7, "Referral code too long — use at most 16 characters"%string);
    (8, "That referral code is already taken"%string);
    (9, "This wallet already has a referral code"%string);
    (10, "Unknown referral code"%string);
    (11, "This wallet is already linked to a referrer"%string);
    (12, "You cannot refer yourself"%string);
    (13, "Not enough trading volume yet to create a referral code"%string);
    (14, "Nothing to claim yet"%string);
    (15, "Amount too large — arithmetic overflow"%string);
    (16, "Claim pool is refilling — your balance is safe, try again shortly"%string);
    (17, "Referral registry is paused — existing balances stay claimable"%string);
    (18, "This referral code has been revoked"%string) ].

Definition TABLES (ctx : ErrorContext) : list (Z * string) :=
  match ctx with
  | atMarket | atVault => NOETHER_ERROR_MESSAGES
  | atFactory => FACTORY_ERROR_MESSAGES
  | atReferral => REFERRAL_ERROR_MESSAGES
  end.

Definition entry {K} `{EqDecision K} (k : K) (t : list (K * string)) : option string :=
  firstSome (fun e : K * string => if decide (e.1 = k) then Some e.2 else None) t.

Definition messageForCode (code : Z) (ctx : ErrorContext) : option string :=
  match entry code (TABLES ctx) with
  | Some s => Some s
  | None =>
      match ctx with
      | atFactory => if 21 <=? code then entry code NOETHER_ERROR_MESSAGES else None
      | _ => None
      end
  end.

(** A thrown value, as far as its message goes: a text, an object whose
    [message] is a text, anything else with what [String] shows, or nothing. *)
Inductive ThrownValue := ThrownText (s : string) | ThrownMessage (s : string) | ThrownOther (shown : string) | ThrownNothing.

Definition toMessageString (e : ThrownValue) : string :=
  match e with ThrownText s | ThrownMessage s | ThrownOther s => s | ThrownNothing => EmptyString end.

(** The code is the one [extractContractErrorCode] finds: the two expressions
    are the same. *)
Definition decodeContractError (e : ThrownValue) (ctx : ErrorContext) : string :=
  let message := toMessageString e in
  match extractContractErrorCode message ≫= (fun c => messageForCode c ctx) with
  | Some mapped => if truthy mapped then mapped else message
  | None => message
  end.

Definition REJECTION_WORDS : list string := ["reject"; "declin"; "denied"; "cancel"]%string.

(** [/reject|declin|denied|cancel/i] *)
Definition rejectionWords (s : string) : bool := existsb (includes (lower s)) REJECTION_WORDS.

Definition isWalletRejection (e : ThrownValue) : bool := rejectionWords (toMessageString e).

Definition WALLET_REJECTION_MESSAGE : string := "Transaction rejected in wallet".

(** What signWithWallet throws for what the wallet threw. *)
Definition signingError (e : ThrownValue) : ThrownValue :=
  if isWalletRejection e then ThrownMessage WALLET_REJECTION_MESSAGE else e.

Definition TX_RESULT_MESSAGES : list (string * string) :=
  [ ("txBadSeq"%string, "Wallet transaction was out of sync — please try again"%string);
    ("txInsufficientBalance"%string, "Not enough XLM to cover the network fee — add a little XLM and retry"%string);
    ("txInsufficientFee"%string, "Network fee was too low — please try again"%string);
    ("txBadAuth"%string, "Wallet signature didn't match — reconnect your wallet and try again"%string);
    ("txBadAuthExtra"%string, "Wallet signature didn't match — reconnect your wallet and try again"%string);
    ("txNoAccount"%string, "Your wallet account is not active on the network yet"%string);
    ("txTooLate"%string, "The transaction expired before it reached the network — please try again"%string);
    ("txTooEarly"%string, "The transaction was submitted too early — please try again"%string);
    ("txMalformed"%string, "The transaction was malformed — please refresh and try again"%string);
    ("txSorobanInvalid"%string, "The network could not process this transaction — please refresh and try again"%string);
    ("txInternalError"%string, "The network had an internal error — please try again"%string) ].
Definition txResultCodeMessage (name : string) : option string := entry name TX_RESULT_MESSAGES.

(** ** Outcomes that are not reverts (txCopy.ts) *)

Record Nouns := { action : string; untouched : string }.

Definition nouns (o : option TradeOp) : Nouns :=
  match o with
  | Some (close_ | close_partial | close_cross) =>
      {| action := "your close"; untouched := "Your position is untouched and still open." |}
  | Some (open_ | open_cross) =>
      {| action := "your trade"; untouched := "No position was opened and your collateral did not move." |}
  | Some (place_order | execute_order) =>
      {| action := "your order"; untouched := "Your order was not placed or changed." |}
  | Some cancel_order => {| action := "your order update"; untouched := "Your order was not changed." |}
  | Some (liquidate | liquidate_cross | adl) =>
      {| action := "the liquidation"; untouched := "The position is unchanged." |}
  | Some other | None => {| action := "your transaction"; untouched := "Nothing else moved." |}
  end.

(** [padStart(n, '0')] *)
Fixpoint zeros (n : nat) : string := match n with O => EmptyString | S n => String "0"%char (zeros n) end.
Definition padStart0 (n : nat) (s : string) : string := zeros (n - String.length s) +:+ s.

(** [replace(/0+$/, '')] *)
Fixpoint trimZeros (s : string) : string :=
  match s with
  | EmptyString => EmptyString
  | String c s =>
      let t := trimZeros s in
      if Ascii.eqb c "0"%char && negb (truthy t) then EmptyString else String c t
  end.

Definition feeChargedXlm (stroops : option Z) : option string :=
  match stroops with
  | None => None
  | Some f =>
      if f <=? 0 then None
      else
        let whole := decimalOfZ (f ÷ 10000000) in
        let frac := trimZeros (padStart0 7 (decimalOfZ (Z.rem f 10000000))) in
        Some (if truthy frac then whole +:+ "." +:+ frac else whole)
  end.

Definition staleFootprintMessage (o : option TradeOp) (feeXlm : option string) : string :=
  let n := nouns o in
  let fee := match feeXlm with
    | Some f => "A small network fee (" +:+ f +:+ " XLM) was charged for the attempt"
    | None => "A small network fee was charged for the attempt"
    end in
  "The vault's state changed while " +:+ action n +:+ " was in flight, so the network could not apply it. "
  +:+ untouched n +:+ " " +:+ fee +:+ " — nothing else moved. Please try again.".

Definition retryProgressMessage (o : option TradeOp) : string :=
  "Network state changed mid-flight — re-checking " +:+ action (nouns o)
  +:+ " and asking your wallet to sign once more.".

Definition tryAgainLaterMessage (o : option TradeOp) : string :=
  "The network is busy — " +:+ action (nouns o) +:+ " was not submitted. Retrying in a moment.".

Definition genericFailureMessage (o : option TradeOp) (feeXlm : option string) : string :=
  let n := nouns o in
  let fee := match feeXlm with
    | Some f => " A small network fee (" +:+ f +:+ " XLM) was charged for the attempt."
    | None => ""
    end in
  "The network could not apply " +:+ action n +:+ ". " +:+ untouched n +:+ fee +:+ " Please try again.".

(** ** The texts of a submission (client.ts) *)

Definition orText (a b : option string) : option string := match a with Some s => Some s | None => b end.

(** contractErrorFromDiagnostics: the code it stops at is the first one, in
    the market's table whatever contract was called. *)
Definition contractErrorFromDiagnostics (code : option Z) : option string :=
  (fun c => default ("Contract error #" +:+ decimalOfZ c) (messageForCode c atMarket)) <$> code.

Definition stillPendingText (hash : string) : string :=
  "Transaction is still confirming (" +:+ String.substring 0 8 hash +:+ "…) — it was submitted, "
  +:+ "not rejected. Check its status on the explorer or your history before retrying.".

Definition failedText (d : TxFailureDetails) : string :=
  let f := facts d in
  let decoded := contractErrorFromDiagnostics (contractCode f) in
  let byCode := txResultCode f ≫= txResultCodeMessage in
  match stage d with
  | atSend =>
      if bool_decide (sendStatus f = Some "TRY_AGAIN_LATER"%string) then tryAgainLaterMessage (d_op d)
      else default "Transaction could not be submitted — please try again"%string (orText decoded byCode)
  | atApply =>
      let feeXlm := feeChargedXlm (feeChargedStroops d) in
      let stale := match hostError f with
        | Some h => if String.eqb (he_code h) "exceeded_limit" then Some (staleFootprintMessage (d_op d) feeXlm) else None
        | None => None
        end in
      default (genericFailureMessage (d_op d) feeXlm) (orText decoded (orText stale byCode))
  end.

(** The message of the error a trade ends with. *)
Definition errorMessage (e : TradeError) : string :=
  match e with
  | TxFailed d => failedText d
  | TxStillPending hash => stillPendingText hash
  | Thrown message => message
  end.

(** What a simulation the host refuses is thrown as. *)
Definition simulationErrorText (ctx : ErrorContext) (hostText : string) : string :=
  decodeContractError (ThrownText ("Simulation failed: " +:+ hostText)) ctx.

(** ** What the pages show *)

(** The toast of a failed close or margin change of the trade page. *)
Definition closeErrorText (e : ThrownValue) (fallback : string) : string :=
  if rejectionWords (toMessageString e) then WALLET_REJECTION_MESSAGE
  else let t := decodeContractError e atMarket in if truthy t then t else fallback.

(** How many UTF-16 units the character a byte starts has. *)
Definition unitsOf (c : ascii) : nat :=
  let n := Ascii.N_of_ascii c in
  if N.leb 128 n && N.ltb n 192 then 0%nat else if N.leb 240 n then 2%nat else 1%nat.

Fixpoint units (s : string) : nat :=
  match s with EmptyString => 0%nat | String c s => (unitsOf c + units s)%nat end.

(** [slice(0, n)] up to a whole character. *)
Fixpoint sliceUnits (n : nat) (s : string) : string :=
  match s with
  | EmptyString => EmptyString
  | String c s => if (unitsOf c <=? n)%nat && ((0 <? n)%nat || (unitsOf c =? 0)%nat)
                  then String c (sliceUnits (n - unitsOf c) s) else EmptyString
  end.

Definition GENERIC_FALLBACK : string := "Something went wrong — please try again".
Definition MAX_LEN : nat := 200.

Definition truncate (msg : string) : string :=
  let t := trim msg in if (MAX_LEN <? units t)%nat then sliceUnits MAX_LEN t +:+ "…" else t.

Record ApiError := { httpStatus : Z; apiMessage : string; apiCode : option string }.

Definition badSession (c : string) : bool :=
  existsb (String.eqb c) ["invalid_credentials"; "missing_bearer"; "malformed_bearer"; "stale_timestamp"].

Definition apiErrorMessage (e : ApiError) : string :=
  let codeIs c := bool_decide (apiCode e = Some c) in
  if codeIs "not_in_beta"%string then "This wallet is not on the early-access list yet."
  else if codeIs "invalid_signature"%string then "Wallet signature could not be verified."
  else if match apiCode e with Some c => badSession c | None => false end
  then "Your API session is invalid — reconnect your wallet and try again."
  else if codeIs "region_restricted"%string
  then if truthy (apiMessage e) then apiMessage e else "Trading is not available in your region."
  else if (httpStatus e =? 429) || (500 <=? httpStatus e) then apiMessage e
  else if (httpStatus e =? 401) || (httpStatus e =? 403) then "You don't have access to this yet."
  else if httpStatus e =? 404 then "Not found."
  else truncate (apiMessage e).

(** A thrown value is the gateway's error or any other. *)
Definition toUserMessage (e : ApiError + ThrownValue) (ctx : option ErrorContext) (fallback : option string) : string :=
  match e with
  | inl a => apiErrorMessage a
  | inr e =>
      let t := truncate (decodeContractError e (default atMarket ctx)) in
      if truthy t then t
      else match fallback with Some f => if truthy f then f else GENERIC_FALLBACK | None => GENERIC_FALLBACK end
  end.

Inductive VaultMode := depositMode | withdrawMode.

(** humanizeError of DepositWithdrawModal.tsx; [/Error\(Contract, #10\)/] *)
Definition humanizeError (e : ThrownValue) (mode : VaultMode) : string :=
  let raw := toMessageString e in
  match mode with
  | depositMode =>
      if includes raw "Error(Contract, #10)" || includes raw "does not have enough free USDC"
      then "USDC transfer failed — insufficient USDC balance for this deposit."
      else toUserMessage (inr e) (Some atFactory) None
  | withdrawMode => toUserMessage (inr e) (Some atFactory) None
  end.

(** ** The contracts' enums *)

(** NoetherError, FactoryError and ReferralError: the discriminant and name of
    each error, and words, in lower case, an explanation of it has to have and
    one of another error of the same contract must not. *)
Definition NoetherError : list (Z * string * string) :=
  [ (1, "NotInitialized", "not initialized"); (2, "AlreadyInitialized", "already initialized");
    (3, "Unauthorized", "not authorized"); (4, "Paused", "paused"); (5, "InvalidParameter", "input parameter");
    (6, "Overflow", "overflow"); (7, "DivisionByZero", "division by zero");
    (20, "PositionNotFound", "position not found"); (21, "InvalidLeverage", "invalid leverage");
    (22, "InsufficientCollateral", "insufficient collateral"); (23, "PositionTooLarge", "exceeds the maximum");
    (24, "NotPositionOwner", "own this position"); (25, "InsufficientMargin", "insufficient margin");
    (27, "PositionTooSmall", "below the $10 minimum"); (30, "PriceStale", "feed stale");
    (31, "InvalidPrice", "invalid oracle price"); (32, "OracleUnavailable", "oracle unavailable");
    (40, "InsufficientLiquidity", "insufficient liquidity"); (41, "InvalidAmount", "amount must be positive");
    (42, "InsufficientBalance", "insufficient balance"); (43, "DepositCapExceeded", "per-account cap");
    (50, "NotLiquidatable", "cannot be liquidated"); (55, "FundingIntervalNotElapsed", "funding interval");
    (60, "OrderNotFound", "order not found"); (61, "OrderNotPending", "no longer pending");
    (62, "OrderNotTriggered", "not met"); (64, "NotOrderOwner", "own this order");
    (65, "InvalidTriggerPrice", "invalid trigger price");
    (66, "InvalidSlippageTolerance", "slippage tolerance");
    (67, "OrderAlreadyExists", "already has this type of order");
    (69, "InvalidTrailingPercent", "trailing percentage"); (70, "PostOnlyViolation", "post-only");
    (76, "CrossMarginInsufficientBalance", "pool balance too low");
    (77, "CrossMarginInsufficientFreeMargin", "insufficient free margin");
    (78, "CrossMarginNotLiquidatable", "not liquidatable");
    (79, "CrossMarginNoPositions", "no cross-margin positions");
    (80, "CrossMarginOrderNotSupported", "not supported on cross-margin");
    (81, "PriceDeviationTooHigh", "moved too fast"); (82, "OpenInterestCapExceeded", "open interest cap");
    (83, "LiquidationCooldown", "just partially liquidated");
    (84, "AdlNotActive", "auto-deleveraging is not active"); (85, "AdlNotEligible", "only winning positions");
    (86, "LiquidationNotConfirmed", "confirmed price"); (87, "AcceptablePriceExceeded", "acceptable price");
    (88, "AssetRiskNotConfigured", "no risk parameters"); (89, "SkewCapExceeded", "skew cap");
    (90, "Frozen", "fully frozen"); (91, "NetsToZero", "reduces your opposite position");
    (92, "AssetHalted", "halted"); (93, "WithdrawCooldownActive", "cooldown") ].

Definition FactoryError : list (Z * string * string) :=
  [ (1, "AlreadyInitialized", "already initialized"); (2, "NotInitialized", "not initialized");
    (3, "InvalidParameter", "invalid parameter"); (4, "InvalidName", "invalid vault name");
    (5, "VaultNotFound", "vault not found"); (6, "NotLeader", "only the vault leader");
    (7, "NotAdmin", "admin only"); (8, "AmountMustBePositive", "must be positive");
    (9, "InsufficientShares", "more shares than you own");
    (10, "InsufficientBalance", "not have enough free usdc");
    (11, "LeaderMinimumViolated", "leaders must keep at least 5%"); (12, "Paused", "is paused");
    (13, "Overflow", "overflow"); (14, "NavCalculationFailed", "could not compute the vault share price");
    (15, "NoFeesToClaim", "no performance fees"); (16, "NotVaultPosition", "does not belong to this vault");
    (17, "LiquidityDeployed", "capital is deployed");
    (18, "ValuationUnavailable", "could not value the vault"); (19, "TooManyOpenSlots", "too many open");
    (20, "CreationRestricted", "creation is currently restricted");
    (21, "MinOutputNotMet", "less than you asked for") ].

Definition ReferralError : list (Z * string * string) :=
  [ (1, "AlreadyInitialized", "already initialized"); (2, "NotInitialized", "not initialized");
    (3, "NotAdmin", "admin only"); (4, "NotMarket", "only the market contract");
    (5, "InvalidParameter", "invalid parameter"); (6, "CodeTooShort", "too short");
    (7, "CodeTooLong", "too long"); (8, "CodeAlreadyTaken", "already taken");
    (9, "AlreadyHasCode", "already has a referral code"); (10, "UnknownCode", "unknown referral code");
    (11, "AlreadyHasReferrer", "already linked to a referrer"); (12, "SelfReferral", "refer yourself");
    (13, "InsufficientVolume", "not enough trading volume"); (14, "NothingToClaim", "nothing to claim");
    (15, "Overflow", "overflow"); (16, "ClaimUnfunded", "refilling");
    (17, "RegistryPaused", "registry is paused"); (18, "RevokedCode", "has been revoked") ].

(** The errors a contract itself can revert with. *)
Definition errorsOf (ctx : ErrorContext) : list (Z * string * string) :=
  match ctx with
  | atMarket | atVault => NoetherError
  | atFactory => FactoryError
  | atReferral => ReferralError
  end.

(** ** Lemmas: searching *)

Definition notIn (c : ascii) (s : string) : Prop := c ∉ String.list_ascii_of_string s.

Ltac str_simpl := rewrite ?str_app_nil, ?str_app_cons, ?str_app_nil in *.

(** A text without the character [c] that is found before a [c] is found in
    what precedes it. *)
Lemma stripPrefix_before c p a s rest :
  notIn c p -> stripPrefix p (a +:+ String c s) = Some rest ->
  exists a', stripPrefix p a = Some a' /\ rest = a' +:+ String c s.
Proof.
  revert a. induction p as [|x p IH]; intros a Hp Hs; [injection Hs as <-; by exists a|].
  unfold notIn in Hp. cbn [String.list_ascii_of_string] in Hp. apply not_elem_of_cons in Hp as [Hx Hp].
  destruct a as [|y a]; str_simpl; cbn [stripPrefix] in *.
  - destruct (Ascii.eqb_spec x c); [by subst|done].
  - destruct (Ascii.eqb x y); [|done]. by apply IH.
Qed.

Lemma stripPrefix_extends p a s rest : stripPrefix p a = Some rest -> stripPrefix p (a +:+ s) = Some (rest +:+ s).
Proof.
  revert a. induction p as [|x p IH]; intros a; [by intros [= ->]|]. destruct a as [|y a]; [done|]. str_simpl. cbn [stripPrefix].
  destruct (Ascii.eqb x y); [apply IH|done].
Qed.

Lemma startsWith_before c p a s : notIn c p -> startsWith p (a +:+ String c s) = startsWith p a.
Proof.
  intros Hp. unfold startsWith. destruct (stripPrefix p a) as [r|] eqn:Ha.
  - by rewrite (stripPrefix_extends _ _ _ _ Ha).
  - destruct (stripPrefix p (a +:+ String c s)) eqn:Hs; [|done].
    apply stripPrefix_before in Hs as (a' & Ha' & _); [congruence|done].
Qed.

(** A word without [c] is found around a [c] on one side of it. *)
Lemma includes_around c a b w :
  notIn c w -> w <> EmptyString -> includes (a +:+ String c b) w = includes a w || includes b w.
Proof.
  intros Hw Hne. unfold includes.
  assert (startsWith w EmptyString = false) as He by (by destruct w).
  induction a as [|x a IH].
  - pose proof (startsWith_before c w EmptyString b Hw) as H0. str_simpl. cbn [suffixes existsb].
    by rewrite H0, He.
  - pose proof (startsWith_before c w (String x a) b Hw) as H0. str_simpl. cbn [suffixes existsb].
    by rewrite H0, IH, orb_assoc.
Qed.

Lemma includes_app_r a b w : includes b w = true -> includes (a +:+ b) w = true.
Proof.
  intros Hb. unfold includes in *. induction a as [|x a IH]; [done|].
  str_simpl. cbn [suffixes existsb]. by rewrite IH, orb_true_r.
Qed.

Lemma lower_app a b : lower (a +:+ b) = lower a +:+ lower b.
Proof. induction a as [|c a IH]; [done|]. str_simpl. cbn [lower]. str_simpl. by rewrite IH. Qed.

(** ** Lemmas: numbers are not words *)

(** A character of a printed number. *)
Definition numeric (c : ascii) : bool := isDigit c || Ascii.eqb c "."%char || Ascii.eqb c "-"%char.
Definition printed (s : string) : Prop := Forall (fun c => numeric c = true) (String.list_ascii_of_string s).

Lemma printed_app a b : printed a -> printed b -> printed (a +:+ b).
Proof.
  unfold printed. induction a as [|c a IH]; [done|]. intros Ha Hb. str_simpl. cbn [String.list_ascii_of_string] in *.
  inversion Ha; subst. constructor; auto.
Qed.

Lemma printed_zeros n : printed (zeros n).
Proof. induction n; unfold printed in *; cbn; by constructor. Qed.

Lemma printed_decimal z : printed (decimalOfZ z).
Proof.
  assert (forall d, printed (DecimalString.NilEmpty.string_of_uint d)) as Hd
    by (unfold printed; induction d; simpl; by constructor).
  assert (forall d, printed (DecimalString.NilZero.string_of_uint d)) as Hz
    by (intros d; unfold DecimalString.NilZero.string_of_uint; destruct d; try apply (Hd (_ _)); repeat constructor).
  unfold decimalOfZ, DecimalString.NilZero.string_of_int. destruct (Z.to_int z); [apply Hz|].
  unfold printed. cbn. constructor; [done | apply Hz].
Qed.

Lemma printed_trimZeros s : printed s -> printed (trimZeros s).
Proof.
  unfold printed. induction s as [|c s IH]; [done|]. intros Hs. inversion Hs; subst. cbn [trimZeros].
  destruct (_ && _); [constructor|]. cbn. constructor; auto.
Qed.

Lemma fee_printed stroops f : feeChargedXlm stroops = Some f -> printed f.
Proof.
  unfold feeChargedXlm. destruct stroops as [z|]; [|done]. destruct (z <=? 0); [done|].
  intros [= <-]. assert (forall n s, printed s -> printed (trimZeros (padStart0 n s))) as Hpad
    by (intros n s Hs; apply printed_trimZeros, printed_app; [apply printed_zeros | done]).
  destruct (truthy _); [|apply printed_decimal].
  apply printed_app; [apply printed_decimal|]. apply (printed_app "."); [by repeat constructor|].
  apply Hpad, printed_decimal.
Qed.

Definition rejecting (s : string) : bool := existsb (includes s) REJECTION_WORDS.

Lemma numeric_plain c : numeric c = true -> lowerAscii c = c /\ Forall (notIn c) REJECTION_WORDS.
Proof.
  intros Hc. assert (c ∈ String.list_ascii_of_string "0123456789.-") as Hin.
  { destruct c as [b0 b1 b2 b3 b4 b5 b6 b7].
    destruct b0, b1, b2, b3, b4, b5, b6, b7; try discriminate Hc;
      apply (bool_decide_unpack _); vm_compute; exact I. }
  assert (forall d, d ∈ String.list_ascii_of_string "0123456789.-" ->
    lowerAscii d = d /\ Forall (notIn d) REJECTION_WORDS) as Hall; [|by apply Hall].
  apply Forall_forall. unfold notIn. repeat (constructor; [split; [reflexivity|]; repeat (constructor;
    [apply (bool_decide_unpack _); vm_compute; exact I|]); constructor|]). constructor.
Qed.

(** A printed number between two texts makes no rejection word. *)
Lemma rejecting_around a f b :
  printed f -> f <> EmptyString -> rejectionWords (a +:+ f +:+ b) = rejectionWords a || rejectionWords b.
Proof.
  intros Hf Hne. unfold rejectionWords. rewrite !lower_app. fold (rejecting (lower a +:+ lower f +:+ lower b)).
  assert (lower f = f) as ->.
  { clear Hne. induction f as [|c f IH]; [done|]. inversion Hf; subst. cbn [lower].
    rewrite IH by done. by rewrite (proj1 (numeric_plain c ltac:(done))). }
  assert (forall w, w ∈ REJECTION_WORDS -> includes (lower a +:+ f +:+ lower b) w = includes (lower a) w || includes (lower b) w) as Hw.
  { intros w Hin. revert Hne. generalize (lower a). induction f as [|c f IH]; [done|]; intros x _.
    inversion Hf as [|? ? Hc Hf']; subst. destruct (numeric_plain c Hc) as [_ Hwords].
    rewrite Forall_forall in Hwords. str_simpl.
    assert (w <> EmptyString) by (intros ->; clear -Hin; by repeat (apply elem_of_cons in Hin as [|Hin]; [done|]); apply elem_of_nil in Hin).
    rewrite includes_around by auto. f_equal. destruct f as [|d f]; [done|].
    specialize (IH Hf' EmptyString ltac:(done)). str_simpl. rewrite IH. by destruct w. }
  unfold rejecting, REJECTION_WORDS in *. cbn [existsb].
  rewrite !Hw by (repeat first [apply elem_of_cons; by left | apply elem_of_cons; right]).
  by repeat match goal with |- context [includes ?s ?w] => destruct (includes s w) end.
Qed.

(** ** Lemmas: the code in a message *)

Definition addDigit (n : Z) (c : ascii) : Z := 10 * n + (Z.of_N (Ascii.N_of_ascii c) - 48).

Lemma fold_digits_acc d p :
  foldl addDigit (Zpos p) (String.list_ascii_of_string (DecimalString.NilEmpty.string_of_uint d))
  = Zpos (Pos.of_uint_acc d p).
Proof.
  revert p. induction d as [|d IH|d IH|d IH|d IH|d IH|d IH|d IH|d IH|d IH|d IH]; intros p; [done|..];
    cbn [DecimalString.NilEmpty.string_of_uint String.list_ascii_of_string foldl Pos.of_uint_acc];
    rewrite <- IH; f_equal; unfold addDigit; cbn; lia.
Qed.

Lemma fold_digits d :
  foldl addDigit 0 (String.list_ascii_of_string (DecimalString.NilEmpty.string_of_uint d)) = Z.of_N (Pos.of_uint d).
Proof.
  induction d as [|d IH|d IH|d IH|d IH|d IH|d IH|d IH|d IH|d IH|d IH]; [done|exact IH|..];
    cbn [DecimalString.NilEmpty.string_of_uint String.list_ascii_of_string foldl Pos.of_uint];
    apply (fold_digits_acc d).
Qed.

(** The digits of a printed number are worth it. *)
Lemma decimal_value z : 0 <= z -> foldl addDigit 0 (String.list_ascii_of_string (decimalOfZ z)) = z.
Proof.
  intros Hz. unfold decimalOfZ. destruct z as [|p|p]; [done| |lia]. cbn [Z.to_int DecimalString.NilZero.string_of_int].
  unfold DecimalString.NilZero.string_of_uint. pose proof (fold_digits (Pos.to_uint p)) as Hf.
  rewrite DecimalPos.Unsigned.of_to in Hf. by destruct (Pos.to_uint p).
Qed.

Lemma numberOfDigits_decimal z : 0 <= z <= 2 ^ 53 -> numberOfDigits (decimalOfZ z) = z.
Proof.
  intros Hz. unfold numberOfDigits. fold addDigit. rewrite decimal_value by lia.
  unfold numberOfBigint. rewrite Z.abs_eq by lia. by rewrite (proj2 (Z.leb_le _ _)) by lia.
Qed.

Definition MARK : string := "rror(Contract, #".

Definition codeAt (s : string) : option Z :=
  match stripPrefix "Error(Contract, #" s with
  | None => None
  | Some rest =>
      let (digits, tail) := span isDigit rest in
      if String.eqb digits "" || negb (startsWith ")" tail) then None else Some (numberOfDigits digits)
  end.

Lemma extract_at s : extractContractErrorCode s = firstSome codeAt (suffixes s).
Proof. done. Qed.

Lemma span_before c a s :
  isDigit c = false -> span isDigit (a +:+ String c s) = ((span isDigit a).1, (span isDigit a).2 +:+ String c s).
Proof.
  intros Hc. induction a as [|x a IH]; str_simpl; cbn [span]; [by rewrite Hc|].
  destruct (isDigit x); [|done]. rewrite IH. by destruct (span isDigit a).
Qed.

Lemma strip_mark x s :
  stripPrefix "Error(Contract, #" (String x s) = if Ascii.eqb "E"%char x then stripPrefix MARK s else None.
Proof. done. Qed.

(** An "E" ends the search of what precedes it. *)
Lemma codeAt_before a s : a <> EmptyString -> codeAt a = None -> codeAt (a +:+ String "E"%char s) = None.
Proof.
  destruct a as [|x a]; [done|]. intros _. unfold codeAt. str_simpl. rewrite !strip_mark.
  destruct (Ascii.eqb _ x); [|done]. intros Ha.
  destruct (stripPrefix MARK (a +:+ String "E" s)) as [rest|] eqn:Hs; [|done].
  apply stripPrefix_before in Hs as (a' & Ha' & ->);
    [|unfold notIn; apply (bool_decide_unpack _); vm_compute; exact I].
  rewrite Ha' in Ha. rewrite span_before by done. destruct (span isDigit a') as [ds tail]. cbn [fst snd].
  rewrite (startsWith_before "E" ")" tail s); [exact Ha|].
  unfold notIn. apply (bool_decide_unpack _). vm_compute. exact I.
Qed.

Lemma extract_skip a s :
  extractContractErrorCode a = None ->
  extractContractErrorCode (a +:+ String "E"%char s) = extractContractErrorCode (String "E"%char s).
Proof.
  rewrite !extract_at. induction a as [|x a IH]; [done|]. intros Ha. str_simpl.
  cbn [suffixes firstSome] in Ha |- *. destruct (codeAt (String x a)) eqn:Hx; [done|].
  pose proof (codeAt_before (String x a) s ltac:(done) Hx) as Hn. str_simpl. rewrite Hn. exact (IH Ha).
Qed.

(** The code of a host error is found wherever it stands first. *)
Lemma find_code pre code post :
  extractContractErrorCode pre = None -> 0 <= code <= 2 ^ 53 ->
  extractContractErrorCode (pre +:+ "Error(Contract, #" +:+ decimalOfZ code +:+ ")" +:+ post) = Some code.
Proof.
  intros Hpre Hc. pose proof (extract_skip pre (MARK +:+ decimalOfZ code +:+ ")" +:+ post) Hpre) as He.
  change ("Error(Contract, #" +:+ ?x) with (String "E"%char (MARK +:+ x)). rewrite He. clear He Hpre pre.
  rewrite extract_at. cbn [suffixes firstSome].
  change (String "E"%char (MARK +:+ ?x)) with ("Error(Contract, #" +:+ x).
  enough (codeAt ("Error(Contract, #" +:+ decimalOfZ code +:+ ")" +:+ post) = Some code) as -> by done.
  unfold codeAt. rewrite (stripPrefix_extends "Error(Contract, #" "Error(Contract, #" _ EmptyString eq_refl).
  str_simpl. destruct (decimalOfZ_digits code) as [Hd Hne]; [lia|].
  rewrite (span_app _ _ _ Hd) by done. rewrite (proj2 (String.eqb_neq _ _) Hne). cbn.
  f_equal. apply numberOfDigits_decimal; lia.
Qed.

(** ** What a revert shows *)

(** [shown] explains the error [code] of the contract and no other of it. *)
Definition explains (ctx : ErrorContext) (code : Z) (words shown : string) : Prop :=
  includes (lower shown) words = true /\
  forall code' name' words', (code', name', words') ∈ errorsOf ctx -> code' <> code -> includes (lower shown) words' = false.

(** The same, checked code by code. *)
Definition explained (ctx : ErrorContext) (e : Z * string * string) : bool :=
  let '(code, _, words) := e in
  (0 <=? code) && (code <=? 96) &&
  match messageForCode code ctx with
  | Some t =>
      truthy t && bool_decide (extractContractErrorCode t = None)
      && ((includes (lower t) words
           && forallb (fun e' : Z * string * string => (e'.1.1 =? code) || negb (includes (lower t) e'.2)) (errorsOf ctx))
          || match ctx with atFactory => (code =? 21) | _ => false end
             && String.eqb t "Invalid leverage — must be between 1x and 10x")
      && match ctx with
         | atMarket | atVault => bool_decide (messageForCode code atMarket = Some t)
         | _ => true
         end
  | None => false
  end.

Lemma all_explained ctx : forallb (explained ctx) (errorsOf ctx) = true.
Proof. destruct ctx; vm_compute; reflexivity. Qed.


(** ** What a failed submission shows *)

Lemma entry_In {K} `{EqDecision K} (k : K) t s : entry k t = Some s -> (k, s) ∈ t.
Proof.
  intros He. apply firstSome_Some in He as ([k' s'] & Hin & Hk). cbn in Hk.
  destruct (decide (k' = k)); [|done]. injection Hk as <-. by subst.
Qed.

(** The texts of the market that read as the wallet's refusal. *)
Lemma market_rejection_texts code s :
  entry code NOETHER_ERROR_MESSAGES = Some s -> rejectionWords s = true <-> code = 60 \/ code = 90.
Proof.
  intros He. apply entry_In in He.
  assert (forallb (fun e : Z * string => Bool.eqb (rejectionWords e.2) ((e.1 =? 60) || (e.1 =? 90)))
            NOETHER_ERROR_MESSAGES = true) as Hall by (vm_compute; reflexivity).
  rewrite forallb_forall in Hall. specialize (Hall (code, s) (proj1 (list_elem_of_In _ _) He)).
  apply Bool.eqb_prop in Hall. cbn [fst snd] in Hall. rewrite Hall, orb_true_iff, !Z.eqb_eq. done.
Qed.

Lemma unknown_code_text code : rejectionWords ("Contract error #" +:+ decimalOfZ code) = false.
Proof.
  destruct (decide (decimalOfZ code = EmptyString)) as [->|Hne]; [by vm_compute|].
  pose proof (rejecting_around "Contract error #" (decimalOfZ code) "" (printed_decimal code) Hne) as H.
  assert (forall s, s +:+ "" = s) as Hnil by (intros s; induction s as [|c s IH]; [done|by rewrite str_app_cons, IH]).
  rewrite Hnil in H. rewrite H. by vm_compute.
Qed.

Lemma code_text_rejects code s :
  contractErrorFromDiagnostics code = Some s ->
  rejectionWords s = true <-> code = Some 60 \/ code = Some 90.
Proof.
  unfold contractErrorFromDiagnostics. destruct code as [c|]; [|done]. cbn. intros [= <-].
  unfold messageForCode; cbn [TABLES]. destruct (entry c NOETHER_ERROR_MESSAGES) as [t|] eqn:He; cbn [default].
  - rewrite (market_rejection_texts _ _ He). split; (intros [?|?]; [left|right]); congruence.
  - pose proof (unknown_code_text c) as Hu. split; [intros Hs; exact (False_ind _ (eq_true_false_abs _ Hs Hu))|]. intros [[= ->]|[= ->]]; vm_compute in He; discriminate.
Qed.

Lemma result_text_plain n s : txResultCodeMessage n = Some s -> rejectionWords s = false.
Proof.
  intros He. apply entry_In in He.
  assert (forallb (fun e : string * string => negb (rejectionWords e.2)) TX_RESULT_MESSAGES = true) as Hall
    by (vm_compute; reflexivity).
  rewrite forallb_forall in Hall. apply negb_true_iff. exact (Hall (n, s) (proj1 (list_elem_of_In _ _) He)).
Qed.

(** Bring the printed number [f] of a text between two others. *)
Ltac split_at f :=
  repeat lazymatch goal with
  | |- rejectionWords (?a +:+ ?b +:+ ?c) = _ =>
      lazymatch b with f => fail | context [f] => fail | _ => rewrite (str_app_assoc a b c) end
  end;
  repeat lazymatch goal with
  | |- rejectionWords (?a +:+ (?b +:+ ?c) +:+ ?d) = _ => rewrite <- (str_app_assoc b c d)
  end.

Ltac plain_with_fee Hf :=
  match type of Hf with
  | feeChargedXlm _ = Some ?f =>
      apply fee_printed in Hf; destruct (decide (f = EmptyString)) as [->|?];
      [vm_compute; reflexivity|]; repeat progress split_at f; rewrite (rejecting_around _ f) by done;
      vm_compute; reflexivity
  end.

Lemma generic_text_plain o fee : rejectionWords (genericFailureMessage o (feeChargedXlm fee)) = false.
Proof.
  unfold genericFailureMessage. destruct (feeChargedXlm fee) as [f|] eqn:Hf;
    destruct o as [[]|]; cbn [nouns action untouched]; try (vm_compute; reflexivity); plain_with_fee Hf.
Qed.

Lemma stale_text_plain o fee : rejectionWords (staleFootprintMessage o (feeChargedXlm fee)) = false.
Proof.
  unfold staleFootprintMessage. destruct (feeChargedXlm fee) as [f|] eqn:Hf;
    destruct o as [[]|]; cbn [nouns action untouched]; try (vm_compute; reflexivity); plain_with_fee Hf.
Qed.

(** The texts of a failed submission, by what it carries. *)
Lemma failed_text_rejects d :
  ~ (stage d = atSend /\ sendStatus (facts d) = Some "TRY_AGAIN_LATER"%string) ->
  rejectionWords (failedText d) = true <-> contractCode (facts d) = Some 60 \/ contractCode (facts d) = Some 90.
Proof.
  intros Hd. unfold failedText.
  destruct (contractErrorFromDiagnostics (contractCode (facts d))) as [t|] eqn:Hc.
  - rewrite <- (code_text_rejects _ _ Hc). destruct (stage d); [|done].
    rewrite bool_decide_eq_false_2 by naive_solver. done.
  - assert (contractCode (facts d) = None) as -> by (by destruct (contractCode (facts d))).
    split; [|intros [?|?]; discriminate]. intros Hs. exfalso. revert Hs. apply not_true_iff_false.
    assert (forall x, txResultCode (facts d) ≫= txResultCodeMessage = Some x -> rejectionWords x = false) as Hr.
    { intros x. destruct (txResultCode (facts d)) as [n|]; [|done]. apply result_text_plain. }
    destruct (stage d).
    + rewrite bool_decide_eq_false_2 by naive_solver. cbn [orText].
      destruct (_ ≫= _) as [x|]; [by apply Hr | vm_compute; reflexivity].
    + cbn [orText]. destruct (hostError (facts d)) as [h|]; [destruct (String.eqb (he_code h) _)|]; cbn [orText];
        [apply stale_text_plain|..]; (destruct (_ ≫= _) as [x|]; [by apply Hr | apply generic_text_plain]).
Qed.

Lemma pending_text_rejects h : rejectionWords (stillPendingText h) = true.
Proof.
  unfold stillPendingText, rejectionWords. rewrite existsb_exists. exists "reject"%string.
  split; [by left|]. rewrite !lower_app. do 3 apply includes_app_r. vm_compute. reflexivity.
Qed.

(** What is not a rejection in words does not read as one after decoding. *)
Lemma decoded_is_no_refusal m ctx : rejectionWords m = false -> decodeContractError (ThrownMessage m) ctx <> WALLET_REJECTION_MESSAGE.
Proof.
  intros Hm. unfold decodeContractError. cbn [toMessageString].
  destruct (extractContractErrorCode m ≫= _) as [t|] eqn:Ht; [destruct (truthy t)|];
    try (intros ->; vm_compute in Hm; discriminate).
  destruct (extractContractErrorCode m) as [c|]; [|done]. cbn in Ht. unfold messageForCode in Ht.
  assert (forall k (tab : list (Z * string)) s, entry k tab = Some s ->
    forallb (fun e : Z * string => negb (String.eqb e.2 WALLET_REJECTION_MESSAGE)) tab = true ->
    s <> WALLET_REJECTION_MESSAGE) as Htab.
  { intros k tab s Hk%entry_In Hall ->. rewrite forallb_forall in Hall.
    specialize (Hall _ (proj1 (list_elem_of_In _ _) Hk)). cbn [snd] in Hall. by rewrite String.eqb_refl in Hall. }
  destruct (entry c (TABLES ctx)) as [s|] eqn:He.
  - injection Ht as <-. apply (Htab _ _ _ He). destruct ctx; vm_compute; reflexivity.
  - destruct ctx; try done. destruct (21 <=? c); [|done]. apply (Htab _ _ _ Ht). vm_compute. reflexivity.
Qed.

(** The toast of a close or a margin change says that the wallet rejected
    the transaction, when the submission failed with what the network told,
    exactly if the transaction is still confirming, or the market reverted
    with a missing order (60) or because it is frozen (90): every other
    failure is told as what it is, whatever operation and fee its text names. *)
Theorem toast_blames_wallet o w e fallback :
  submitTransaction o w = inl e -> (forall m, e <> Thrown m) -> fallback <> WALLET_REJECTION_MESSAGE ->
  closeErrorText (ThrownMessage (errorMessage e)) fallback = WALLET_REJECTION_MESSAGE <->
  (exists h, e = TxStillPending h) \/
  (exists d, e = TxFailed d /\ (contractCode (facts d) = Some 60 \/ contractCode (facts d) = Some 90)).
Proof.
  intros Hs Hthrown Hfb. unfold closeErrorText. cbn [toMessageString].
  assert ((if rejectionWords (errorMessage e) then WALLET_REJECTION_MESSAGE
           else let t := decodeContractError (ThrownMessage (errorMessage e)) atMarket in
                if truthy t then t else fallback) = WALLET_REJECTION_MESSAGE
          <-> rejectionWords (errorMessage e) = true) as ->.
  { destruct (rejectionWords (errorMessage e)) eqn:Hw; [done|]. split; [|done]. cbn zeta.
    pose proof (decoded_is_no_refusal _ atMarket Hw). by destruct (truthy _). }
  destruct e as [d|h|m]; [| |by destruct (Hthrown m)]; cbn [errorMessage].
  - assert (~ (stage d = atSend /\ sendStatus (facts d) = Some "TRY_AGAIN_LATER"%string)
            \/ contractCode (facts d) = None /\ rejectionWords (failedText d) = false) as [Hd|[Hc Hf]].
    { unfold submitTransaction in Hs. destruct (send w) as [|a]; [done|].
      destruct (s_status a).
      3: { injection Hs as <-. right. split; [done|]. destruct o as [[]|]; vm_compute; reflexivity. }
      3: { injection Hs as <-. left. by intros [_ ?]. }
      all: left; destruct (pollWeb maxAttempts 0 w) as [|[]]; try done; injection Hs as <-; by intros [? _]. }
    + rewrite (failed_text_rejects d Hd). split; [intros Hx; right; by exists d|].
      intros [[h Hh]|(d' & [= <-] & Hx)]; [done|exact Hx].
    + rewrite Hf. split; [done|]. intros [[h Hh]|(d' & [= <-] & Hx)]; [done|]. rewrite Hc in Hx. by destruct Hx.
  - rewrite pending_text_rejects. split; [intros _; left; by exists h | done].
Qed.

(** ** Concrete errors *)


(** A submission that stays unknown for the whole wait. *)
Definition silentRpc : Rpc := {|
  send := Ok {| s_status := SPending; s_hash := "deadbeef01"; s_events := None; s_result := None |};
  get := fun _ => Ok GetNotFound; clock := fun n => 1000 * Z.of_nat n |}.

(** A close that is still confirming is shown as rejected in the wallet. *)
Lemma toast_blames_wallet_witness :
  closeErrorText (ThrownMessage (errorMessage (TxStillPending "deadbeef01"))) "Failed to close position"
  = WALLET_REJECTION_MESSAGE.
Proof.
  assert (submitTransaction (Some close_) silentRpc = inl (TxStillPending "deadbeef01")) as Hs
    by (vm_compute; reflexivity).
  apply (toast_blames_wallet (Some close_) silentRpc _ "Failed to close position" Hs);
    [discriminate | discriminate | left; by eexists].
Defined.

(** A close refused in simulation because the market is frozen is too. *)
Example frozen_close_reads_rejected :
  let e := ThrownMessage (simulationErrorText atMarket "HostError: Error(Contract, #90)") in
  closeErrorText e "Failed to close position" = WALLET_REJECTION_MESSAGE /\
  decodeContractError e atMarket
  = "The market is fully frozen right now — only order cancellation is available; it auto-resumes within 72h"%string.
Proof. vm_compute. split; reflexivity. Qed.

(** A vault deposit that missed its minimum is explained by leverage. *)
Example missed_minimum_reads_leverage :
  humanizeError (ThrownMessage (simulationErrorText atFactory "HostError: Error(Contract, #21)")) depositMode
  = "Invalid leverage — must be between 1x and 10x"%string /\ (21, "MinOutputNotMet"%string, "less than you asked for"%string) ∈ FactoryError.
Proof. split; [vm_compute; reflexivity | apply (bool_decide_unpack _); vm_compute; exact I]. Qed.

(** A factory call that reverts after its simulation is explained by the
    market's table. *)
Example applied_factory_error_uses_market_table :
  contractErrorFromDiagnostics (Some 6) = Some "Amount too large — arithmetic overflow"%string /\
  messageForCode 6 atFactory = Some "Only the vault leader can do this"%string.
Proof. vm_compute. split; reflexivity. Qed.

(** The fee a failed attempt was charged, as the copy tells it. *)
Example fees_in_xlm :
  feeChargedXlm <$> [Some 92339; Some 10000000; Some 12500000; Some 0; None]
  = [Some "0.0092339"; Some "1"; Some "1.25"; None; None]%string.
Proof. vm_compute. reflexivity. Qed.
