(* ===== verification/JsNumber.v ===== *)
(** * Amounts and prices typed by the user

    JavaScript's [parseFloat], [Math.floor], [Math.round] and [toFixed] on IEEE
    binary64, and the amount and price functions of web/lib/utils/format.ts over
    them. The rounding of the standard (to nearest, ties to even) is proved to
    stay within half a unit in the last place, which is what the theorems on
    amounts rest on. *)

From Stdlib Require Import QArith Qpower Qround Lqa.
From S2P Require Import Prelude JsText ApiBoard WebErrors.
Open Scope Z_scope.
Open Scope js_scope.

(** ** Numbers from text *)

(** The number nearest to [t * 10^x]. *)
Definition nearestDecimal (neg : bool) (t x : Z) : number :=
  match t with
  | Zpos p =>
      if 0 <=? x then binary_round 53 1024 neg (Z.to_pos (Zpos p * 10 ^ x)) 0
      else
        let '(q, e, l) := SFdiv_core_binary 53 1024 (Zpos p) 0 (10 ^ (- x)) 0 in
        binary_round_aux 53 1024 neg q e l
  | _ => S754_zero neg
  end.

Definition digitsValue (s : string) : Z := foldl addDigit 0 (String.list_ascii_of_string s).

Fixpoint skipSpace (s : string) : string :=
  match s with String c s' => if isSpace c then skipSpace s' else s | EmptyString => EmptyString end.

(** A sign in front, and the rest. *)
Definition signOf (s : string) : bool * string :=
  match s with
  | String "-" s' => (true, s')
  | String "+" s' => (false, s')
  | _ => (false, s)
  end.

(** An exponent, where one is written out. *)
Definition exponentOf (s : string) : Z :=
  match s with
  | String ("e" | "E") s' =>
      let (neg, s) := signOf s' in
      let d := (span isDigit s).1 in
      if truthy d then if neg then - digitsValue d else digitsValue d else 0
  | _ => 0
  end.

(** [parseFloat(s)]: the longest prefix that is a decimal literal. *)
Definition parseFloat (s : string) : number :=
  let (neg, s) := signOf (skipSpace s) in
  if startsWith "Infinity" s then S754_infinity neg
  else
    let (w, r) := span isDigit s in
    let (f, r') := match r with String "." r' => span isDigit r' | _ => (EmptyString, r) end in
    if truthy w || truthy f then
      nearestDecimal neg (digitsValue (w +:+ f)) (exponentOf r' - Z.of_nat (String.length f))
    else S754_nan.

(** [x || 0]: zero in place of NaN. *)
Definition orZero (x : number) : number :=
  match x with S754_nan | S754_zero _ => S754_zero false | _ => x end.

Definition isPositive (x : number) : bool := ltN (S754_zero false) x.

(** ** Integers from numbers *)

(** The integer below, where the number is finite. *)
Definition floorZ (x : number) : option Z :=
  match x with
  | S754_zero _ => Some 0
  | S754_finite s m e =>
      let n := if s then Zneg m else Zpos m in
      Some (if 0 <=? e then n * 2 ^ e else n / 2 ^ (- e))
  | _ => None
  end.

(** [Math.round]: halves upwards. *)
Definition roundZ (x : number) : option Z :=
  match x with
  | S754_zero _ => Some 0
  | S754_finite s m e =>
      let n := if s then Zneg m else Zpos m in
      Some (if 0 <=? e then n * 2 ^ e else (2 * n + 2 ^ (- e)) / 2 ^ (1 - e))
  | _ => None
  end.

(** [BigInt(x)] of an integer number. *)
Definition bigInt (x : option Z) : Result Z :=
  match x with Some z => Ok z | None => Err "The number cannot be converted to a BigInt because it is not an integer"%string end.

(** [x.toFixed(d)] below 10^21: the nearest multiple, the larger of two. *)
Definition toFixed (d : nat) (x : number) : string :=
  match x with
  | S754_nan => "NaN"
  | S754_infinity s => if s then "-Infinity" else "Infinity"
  | S754_zero _ => decimalOfZ 0 +:+ (if (d =? 0)%nat then EmptyString else "." +:+ zeros d)
  | S754_finite s m e =>
      let p := 10 ^ Z.of_nat d in
      let n := if 0 <=? e then Zpos m * 2 ^ e * p else (2 * (Zpos m * p) + 2 ^ (- e)) / 2 ^ (1 - e) in
      (if s then "-" else EmptyString) +:+
      decimalOfZ (n / p) +:+ (if (d =? 0)%nat then EmptyString else "." +:+ padStart0 d (decimalOfZ (n mod p)))
  end.

(** ** format.ts *)

Definition PRECISION : Z := 10000000.

Definition fromPrecision (value : Z) : number := divN (numberOfZ value) (numberOfZ PRECISION).

Definition toPrecision (value : number) : Result Z := bigInt (floorZ (mulN value (numberOfZ PRECISION))).

(** [BigInt(Math.round(x * 10_000_000))], as the margin form scales. *)
Definition roundUnits (value : number) : Result Z := bigInt (roundZ (mulN value (numberOfZ PRECISION))).

Definition SUB_DOLLAR_ASSETS : list string := ["XLM"; "XRP"; "ADA"; "TRX"; "DOGE"]%string.
Definition priceDecimals (asset : string) : nat := if bool_decide (asset ∈ SUB_DOLLAR_ASSETS) then 4 else 2.

Definition oneN : number := numberOfZ 1.

Definition calculateLiquidationPrice (entryPrice leverage : number) (isLong : bool) (maintenanceMarginBps : number) : number :=
  let maintenanceMargin := divN maintenanceMarginBps (numberOfZ 10000) in
  let moveToLiquidation := subN (divN oneN leverage) maintenanceMargin in
  if isLong then mulN entryPrice (subN oneN moveToLiquidation) else mulN entryPrice (addN oneN moveToLiquidation).

(** closeAcceptableBound of market.ts. *)
Definition DEFAULT_CLOSE_BOUND_BPS : Z := 100.
Definition closeAcceptableBound (isLong : bool) (markUsd : number) (bps : Z) : Result Z :=
  if negb (isPositive markUsd) || (bps <=? 0) then Ok 0
  else
    let step := divN (numberOfZ bps) (numberOfZ 10000) in
    let factor := if isLong then subN oneN step else addN oneN step in
    bigInt (roundZ (mulN (mulN markUsd factor) (numberOfZ PRECISION))).

(** ** Lemmas: rounding *)

(** What the last two bits of a shift say of the part [rho] cut off, in units
    of which the last place has [d]. *)
Definition encodes (r s : bool) (rho d : Z) : Prop :=
  match r, s with
  | false, false => rho = 0
  | false, true => 0 < 2 * rho < d
  | true, false => 2 * rho = d
  | true, true => d < 2 * rho < 2 * d
  end.

Definition encodedBy (l : location) (rho d : Z) : Prop :=
  match l with
  | loc_Exact => encodes false false rho d
  | loc_Inexact Lt => encodes false true rho d
  | loc_Inexact Eq => encodes true false rho d
  | loc_Inexact Gt => encodes true true rho d
  end.

Definition cutOff (x : shr_record) (v d : Z) : Prop :=
  0 <= shr_m x /\ exists rho, v = shr_m x * d + rho /\ encodes (shr_r x) (shr_s x) rho d.

Lemma cutOff_step x v d : 0 < d -> cutOff x v d -> cutOff (shr_1 x) v (2 * d) /\ shr_m (shr_1 x) = shr_m x / 2.
Proof.
  intros Hd (Hm & rho & -> & He). destruct x as [m r s]; cbn [shr_m shr_r shr_s] in *.
  assert (0 <= rho < d) as Hrho by (destruct r, s; cbn in He; lia).
  destruct m as [|[p|p|]|p]; [| | | |lia]; cbn [shr_1 shr_m shr_r shr_s].
  - split; [|done]. split; cbn; [lia|]. exists rho. split; [lia|]. destruct r, s; cbn in *; lia.
  - split.
    + split; cbn [shr_m]; [lia|]. exists (d + rho). split; [cbn [shr_m]; lia|].
      destruct r, s; cbn in *; lia.
    + by rewrite <- Z.div2_div.
  - split.
    + split; cbn [shr_m]; [lia|]. exists rho. split; [cbn [shr_m]; lia|].
      destruct r, s; cbn in *; lia.
    + by rewrite <- Z.div2_div.
  - split; [|done]. split; cbn; [lia|]. exists (d + rho). split; [lia|]. destruct r, s; cbn in *; lia.
Qed.

Lemma cutOff_iter n : forall x v d,
  0 < d -> cutOff x v d ->
  cutOff (iter_pos shr_1 n x) v (2 ^ Zpos n * d) /\ shr_m (iter_pos shr_1 n x) = shr_m x / 2 ^ Zpos n.
Proof.
  induction n as [n IH|n IH|]; intros x v d Hd Hx; cbn [iter_pos].
  - apply (cutOff_step _ _ _ Hd) in Hx as [Hx Hm]. apply IH in Hx as [Hx Hm1]; [|lia].
    apply IH in Hx as [Hx Hm2]; [|lia]. rewrite Hm2, Hm1, Hm, !Zdiv.Zdiv_Zdiv by lia.
    assert (2 ^ Zpos n~1 = 2 * 2 ^ Zpos n * 2 ^ Zpos n) as Hp
      by (replace (Zpos n~1) with (1 + Zpos n + Zpos n) by lia; by rewrite !Z.pow_add_r by lia).
    split; [|rewrite Hp; f_equal; ring]. rewrite Hp. by replace (2 * 2 ^ Zpos n * 2 ^ Zpos n * d) with (2 ^ Zpos n * (2 ^ Zpos n * (2 * d))) by ring.
  - apply IH in Hx as [Hx Hm1]; [|lia]. apply IH in Hx as [Hx Hm2]; [|lia].
    rewrite Hm2, Hm1, Zdiv.Zdiv_Zdiv by lia.
    assert (2 ^ Zpos n~0 = 2 ^ Zpos n * 2 ^ Zpos n) as Hp
      by (replace (Zpos n~0) with (Zpos n + Zpos n) by lia; by rewrite Z.pow_add_r by lia).
    split; [|rewrite Hp; f_equal; ring]. rewrite Hp. by replace (2 ^ Zpos n * 2 ^ Zpos n * d) with (2 ^ Zpos n * (2 ^ Zpos n * d)) by ring.
  - apply (cutOff_step _ _ _ Hd) in Hx as [Hx Hm]. split; [|done]. exact Hx.
Qed.

Lemma cutOff_shr x v d e n :
  0 < d -> cutOff x v d ->
  exists x', shr x e n = (x', e + Z.max 0 n) /\ cutOff x' v (2 ^ Z.max 0 n * d) /\ shr_m x' = shr_m x / 2 ^ Z.max 0 n.
Proof.
  intros Hd Hx. destruct n as [|n|n]; cbn [shr].
  - exists x. rewrite Z.add_0_r, Z.mul_1_l, Z.div_1_r. done.
  - rewrite Z.max_r by lia. destruct (cutOff_iter n x v d Hd Hx). by eexists.
  - exists x. rewrite Z.max_l, Z.add_0_r, Z.mul_1_l, Z.div_1_r by lia. done.
Qed.

(** Rounding a record lands within half a unit, and on the value itself if
    nothing was cut off. *)
Lemma rounded x v d :
  0 < d -> cutOff x v d ->
  let q := round_nearest_even (shr_m x) (loc_of_shr_record x) in
  2 * Z.abs (q * d - v) <= d /\ shr_m x <= q <= shr_m x + 1.
Proof.
  intros Hd (Hm & rho & -> & He). destruct x as [m r s]; cbn [shr_m shr_r shr_s loc_of_shr_record] in *.
  destruct r, s; cbn [encodes round_nearest_even] in *; try (destruct (Z.even m)); lia.
Qed.

Lemma digits2_bounds p : 2 ^ (Zpos (digits2_pos p) - 1) <= Zpos p < 2 ^ Zpos (digits2_pos p).
Proof.
  induction p as [p IH|p IH|]; cbn [digits2_pos]; [| |by cbn];
    rewrite Pos2Z.inj_succ, <- Z.add_1_r, Z.pow_add_r by lia;
    replace (Zpos (digits2_pos p) + 1 - 1) with ((Zpos (digits2_pos p) - 1) + 1) by lia;
    rewrite Z.pow_add_r by lia; lia.
Qed.

Lemma digits2_unique p n : 2 ^ (n - 1) <= Zpos p < 2 ^ n -> Zpos (digits2_pos p) = n.
Proof.
  intros [Hl Hu]. pose proof (digits2_bounds p) as [Hl' Hu']. 
  assert (0 < n) by (destruct (Z.lt_ge_cases 0 n); [done|]; rewrite (Z.pow_neg_r 2 (n - 1)) in Hl by lia;
    destruct (Z.eq_dec n 0) as [->|]; [cbn in Hu; lia|rewrite Z.pow_neg_r in Hu by lia; lia]).
  assert (n - 1 < Zpos (digits2_pos p)) by (apply (Z.pow_lt_mono_r_iff 2); lia).
  assert (Zpos (digits2_pos p) - 1 < n) by (apply (Z.pow_lt_mono_r_iff 2); lia). lia.
Qed.

Lemma record_of_loc m l v d rho :
  0 <= m -> v = m * d + rho -> encodedBy l rho d -> cutOff (shr_record_of_loc m l) v d.
Proof. intros Hm Hv Hl. destruct l as [|[]]; (split; [exact Hm|]); by exists rho. Qed.

Lemma fexp_normal m e : 2 ^ 52 <= Zpos m -> -1074 <= e -> fexp 53 1024 (Zpos (digits2_pos m) + e) = Zpos (digits2_pos m) + e - 53.
Proof.
  intros Hm He. assert (53 <= Zpos (digits2_pos m)).
  { pose proof (digits2_bounds m). assert (52 < Zpos (digits2_pos m)) by (apply (Z.pow_lt_mono_r_iff 2); lia). lia. }
  unfold fexp, emin. lia.
Qed.

(** The second shift of the rounding, after a carry. *)
Lemma carry q e :
  2 ^ 52 <= q <= 2 ^ 53 -> -1074 <= e ->
  exists m j, shr_fexp 53 1024 q e loc_Exact = ({| shr_m := Zpos m; shr_r := false; shr_s := false |}, e + j) /\
    0 <= j /\ 2 ^ 52 <= Zpos m < 2 ^ 53 /\ Zpos m * 2 ^ j = q.
Proof.
  intros Hq He. destruct q as [|p|p]; [lia| |lia]. unfold shr_fexp. cbn [Zdigits2]. rewrite (fexp_normal p e) by lia.
  destruct (Z.eq_dec (Zpos p) (2 ^ 53)) as [Hp|Hp].
  - assert (p = 9007199254740992%positive) as -> by lia. 
    replace (Zpos (digits2_pos 9007199254740992) + e - 53 - e) with 1 by (cbn; lia).
    exists 4503599627370496%positive, 1. cbn. split_and!; lia || done.
  - rewrite (digits2_unique p 53) by lia. replace (53 + e - 53 - e) with 0 by lia.
    exists p, 0. cbn [shr shr_record_of_loc]. rewrite Z.add_0_r. split_and!; lia || done.
Qed.

(** Rounding what is given to at least 53 bits is exact to half a unit in the
    last place, and so to one part in 2^53. *)
Lemma round_aux_spec s mx ex l v d rho :
  2 ^ 52 <= mx -> 0 < d -> v = mx * d + rho -> encodedBy l rho d -> -1074 <= ex -> Zdigits2 mx + ex <= 1000 ->
  exists m e, binary_round_aux 53 1024 s mx ex l = S754_finite s m e /\ 2 ^ 52 <= Zpos m < 2 ^ 53 /\ ex <= e /\
    2 * Z.abs (Zpos m * 2 ^ (e - ex) * d - v) <= 2 ^ (e - ex) * d /\ 2 ^ 53 * Z.abs (Zpos m * 2 ^ (e - ex) * d - v) <= v.
Proof.
  intros Hmx Hd Hv Hl Hex Hover. destruct mx as [|p|p]; [lia| |lia]. cbn [Zdigits2] in Hover.
  unfold binary_round_aux. unfold shr_fexp at 1. cbn [Zdigits2]. rewrite (fexp_normal p ex) by lia.
  pose proof (digits2_bounds p) as Hdig. set (n := Zpos (digits2_pos p) - 53) in *.
  assert (0 <= n) as Hn.
  { assert (52 < Zpos (digits2_pos p)) by (apply (Z.pow_lt_mono_r_iff 2); lia). lia. }
  replace (Zpos (digits2_pos p) + ex - 53 - ex) with n by lia.
  destruct (cutOff_shr (shr_record_of_loc (Zpos p) l) v d ex n Hd) as (x & -> & Hx & Hxm).
  { by eapply record_of_loc; [lia| |]. }
  rewrite Z.max_r in Hx, Hxm |- * by lia.
  assert (shr_m (shr_record_of_loc (Zpos p) l) = Zpos p) as Hm0 by (by destruct l as [|[]]). rewrite Hm0 in Hxm.
  assert (2 ^ (52 + n) <= Zpos p < 2 ^ (53 + n)) as Hp
    by (unfold n; replace (52 + (Zpos (digits2_pos p) - 53)) with (Zpos (digits2_pos p) - 1) by lia;
        replace (53 + (Zpos (digits2_pos p) - 53)) with (Zpos (digits2_pos p)) by lia; exact Hdig).
  rewrite !Z.pow_add_r in Hp by lia. pose proof (Z.pow_pos_nonneg 2 n ltac:(lia) Hn) as Hpn.
  assert (2 ^ 52 <= shr_m x < 2 ^ 53) as Hxb
    by (rewrite Hxm; split; [apply Z.div_le_lower_bound; lia | apply Z.div_lt_upper_bound; lia]).
  assert (0 < 2 ^ n * d) as Hnd by lia.
  destruct (rounded x v (2 ^ n * d) Hnd Hx) as [Herr Hq]. cbn zeta in Herr, Hq.
  set (q := round_nearest_even _ _) in *.
  destruct (carry q (ex + n)) as (m & j & -> & Hj & Hm & Hmq); [lia|lia|]. cbn [shr_m].
  assert (Zpos m * 2 ^ (ex + n + j - ex) * d = q * (2 ^ n * d)) as Hval.
  { replace (ex + n + j - ex) with (j + n) by lia. rewrite Z.pow_add_r by lia. rewrite <- Hmq. ring. }
  assert (j <= 1) as Hj1.
  { destruct (Z.le_gt_cases j 1) as [|Hj2]; [done|].
    assert (2 ^ 2 <= 2 ^ j) by (apply Z.pow_le_mono_r; lia). lia. }
  assert (ex + n + j <=? 1024 - 53 = true) as -> by (apply Z.leb_le; lia).
  exists m, (ex + n + j). split; [done|]. split; [done|]. split; [lia|]. rewrite Hval.
  assert (2 ^ n <= 2 ^ (ex + n + j - ex)) by (apply Z.pow_le_mono_r; lia).
  split; [nia|].
  assert (2 ^ 52 * (2 ^ n * d) <= v); [|lia]. destruct Hx as (_ & rho' & -> & Henc).
  assert (0 <= rho') by (destruct (shr_r x), (shr_s x); cbn in Henc; lia). nia.
Qed.

(** ** Lemmas: values *)

Definition pow2 (e : Z) : Q := (2 ^ e)%Q.

Lemma pow2_pos e : (0 < pow2 e)%Q.
Proof. by apply Qpower_0_lt. Qed.

Lemma pow2_add a b : (pow2 (a + b) == pow2 a * pow2 b)%Q.
Proof. unfold pow2. by apply Qpower_plus. Qed.

Lemma pow2_Z e : 0 <= e -> (pow2 e == inject_Z (2 ^ e))%Q.
Proof. intros He. unfold pow2. symmetry. by apply Zpower_Qpower. Qed.

Definition signed (s : bool) (m : positive) : Z := if s then Zneg m else Zpos m.

(** The rational a finite number is. *)
Definition val (x : number) : Q :=
  match x with S754_finite s m e => inject_Z (signed s m) * pow2 e | _ => 0 end.

(** The roundoff: one part in 2^53. *)
Definition u : Q := 1 # 9007199254740992.

(** [x] is a normal positive number nearest to [X]. *)
Definition nearest (x : number) (X : Q) : Prop :=
  exists m e, x = S754_finite false m e /\ 2 ^ 52 <= Zpos m < 2 ^ 53 /\ -1074 <= e /\
    (X * (1 - u) <= val x <= X * (1 + u))%Q /\ (X - pow2 e * (1 # 2) <= val x <= X + pow2 e * (1 # 2))%Q.

Lemma nearest_ext x X Y : (X == Y)%Q -> nearest x X -> nearest x Y.
Proof.
  intros HXY. unfold nearest, u.
  intros (m & e & Hx & Hm & He & [H1 H2] & [H3 H4]); exists m, e; split_and!; try done; lia || lra.
Qed.

#[export] Instance nearest_proper x : Proper (Qeq ==> iff) (nearest x).
Proof. intros X Y HXY. split; apply nearest_ext; by rewrite HXY. Qed.

Lemma Q_mul_cancel_r a b d : (0 < d)%Q -> (a * d <= b * d)%Q -> (a <= b)%Q.
Proof. intros Hd H. by apply (Qmult_lt_0_le_reg_r _ _ _ Hd). Qed.

Ltac push_inject H := repeat first [rewrite inject_Z_mult in H | rewrite inject_Z_plus in H | rewrite inject_Z_opp in H].

Ltac push_goal := rewrite ?inject_Z_plus, ?inject_Z_opp; change (inject_Z 1) with 1%Q; change (inject_Z (- (1))) with (- (1))%Q;
  change (inject_Z (- (2))) with (- (2))%Q; change (inject_Z 2) with 2%Q.

Lemma round_aux_nearest mx ex l v d rho X :
  2 ^ 52 <= mx -> 0 < d -> v = mx * d + rho -> encodedBy l rho d -> -1074 <= ex -> Zdigits2 mx + ex <= 1000 ->
  (X * inject_Z d == inject_Z v * pow2 ex)%Q ->
  nearest (binary_round_aux 53 1024 false mx ex l) X.
Proof.
  intros Hmx Hd Hv Hl Hex Hover HX.
  destruct (round_aux_spec false mx ex l v d rho Hmx Hd Hv Hl Hex Hover) as (m & e & -> & Hm & He & Habs & Hrel).
  exists m, e. cbn [val signed]. set (A := Zpos m * 2 ^ (e - ex)) in *.
  assert (inject_Z (Zpos m) * pow2 e == inject_Z A * pow2 ex)%Q as Hval.
  { unfold A. rewrite inject_Z_mult, <- pow2_Z by lia. rewrite <- Qmult_assoc, <- pow2_add.
    by replace (e - ex + ex) with e by lia. }
  assert (pow2 e == inject_Z (2 ^ (e - ex)) * pow2 ex)%Q as Hulp.
  { rewrite <- pow2_Z by lia. rewrite <- pow2_add. by replace (e - ex + ex) with e by lia. }
  rewrite Hval, Hulp. pose proof (pow2_pos ex) as HP. set (P := pow2 ex) in *.
  assert (0 < inject_Z d)%Q as HD by (change 0%Q with (inject_Z 0); by rewrite <- Zlt_Qlt).
  set (U := 2 ^ (e - ex)) in *. clearbody A U P.
  assert (A * d * 2 ^ 53 <= v * (2 ^ 53 + 1) /\ v * (2 ^ 53 - 1) <= A * d * 2 ^ 53) as [Hr1 Hr2] by lia.
  assert (2 * (A * d) <= 2 * v + U * d /\ 2 * v - U * d <= 2 * (A * d)) as [Ha1 Ha2] by lia.
  rewrite Zle_Qle in Hr1, Hr2, Ha1, Ha2. unfold Z.sub in Hr2, Ha2.
  push_inject Hr1; push_inject Hr2; push_inject Ha1; push_inject Ha2.
  set (a := inject_Z A) in *. set (D := inject_Z d) in *. set (V := inject_Z v) in *. set (W := inject_Z U) in *.
  change (inject_Z (2 ^ 53)) with (9007199254740992 # 1)%Q in *. change (inject_Z 1) with 1%Q in *. change (inject_Z 2) with 2%Q in *.
  assert (forall x y, (x <= y -> x * P <= y * P)%Q) as Hmul by (intros x y Hxy; apply Qmult_le_compat_r; [exact Hxy | by apply Qlt_le_weak]).
  apply Hmul in Hr1, Hr2, Ha1, Ha2. split; [done|]. split; [done|]. split; [lia|].
  unfold u. split; split; apply (Q_mul_cancel_r _ _ D HD); lra.
Qed.

Lemma nearest_range x X :
  nearest x X -> (1 # 1073741824 <= X)%Q -> (X <= 1152921504606846976 # 1)%Q ->
  exists m e, x = S754_finite false m e /\ 2 ^ 52 <= Zpos m < 2 ^ 53 /\ -84 <= e <= 9.
Proof.
  intros (m & e & -> & Hm & He & [Hl Hu] & _) H0 H1. exists m, e. split; [done|]. split; [done|].
  cbn [val signed] in Hl, Hu. unfold u in Hl, Hu. pose proof (pow2_pos e) as HP.
  assert ((4503599627370496 # 1) <= inject_Z (Zpos m) /\ inject_Z (Zpos m) <= 9007199254740992 # 1)%Q as [Hm1 Hm2]
    by (split; [change (4503599627370496 # 1) with (inject_Z 4503599627370496) | change (9007199254740992 # 1) with (inject_Z 9007199254740992)];
        rewrite <- Zle_Qle; lia).
  assert ((4503599627370496 # 1) * pow2 e <= inject_Z (Zpos m) * pow2 e /\ inject_Z (Zpos m) * pow2 e <= (9007199254740992 # 1) * pow2 e)%Q
    as [Hp1 Hp2] by (split; apply Qmult_le_compat_r; try done; by apply Qlt_le_weak).
  split; apply Z.nlt_ge; intros Hlt.
  - assert (pow2 e <= pow2 (-85))%Q as Hle by (apply Qpower_le_compat_l; [lia|done]).
    change (pow2 (-85)) with (1 # 38685626227668133590597632) in Hle. lra.
  - assert (pow2 10 <= pow2 e)%Q as Hle by (apply Qpower_le_compat_l; [lia|done]).
    change (pow2 10) with (1024 # 1) in Hle. lra.
Qed.

Lemma digits2_le p n : Zpos p < 2 ^ n -> Zpos (digits2_pos p) <= n.
Proof.
  intros Hp. pose proof (digits2_bounds p) as [Hl _]. destruct (Z.lt_ge_cases n 0); [rewrite Z.pow_neg_r in Hp by lia; lia|].
  assert (Zpos (digits2_pos p) - 1 < n); [|lia]. apply (Z.pow_lt_mono_r_iff 2); lia.
Qed.

(** A product of normal numbers of a middling size. *)
Lemma mul_nearest m1 e1 m2 e2 :
  2 ^ 52 <= Zpos m1 < 2 ^ 53 -> 2 ^ 52 <= Zpos m2 < 2 ^ 53 -> -500 <= e1 <= 400 -> -500 <= e2 <= 400 ->
  nearest (mulN (S754_finite false m1 e1) (S754_finite false m2 e2)) (val (S754_finite false m1 e1) * val (S754_finite false m2 e2)).
Proof.
  intros Hm1 Hm2 He1 He2. unfold mulN. cbn [SFmul xorb].
  apply (round_aux_nearest _ _ _ (Zpos (m1 * m2)) 1 0); try lia; [done| |].
  - cbn [Zdigits2]. assert (Zpos (digits2_pos (m1 * m2)) <= 106); [|lia]. apply digits2_le.
    rewrite Pos2Z.inj_mul. change (2 ^ 106) with (2 ^ 53 * 2 ^ 53). nia.
  - cbn [val signed]. rewrite Pos2Z.inj_mul, inject_Z_mult, pow2_add. change (inject_Z 1) with 1%Q. ring.
Qed.

Lemma iter_xO m n : Zpos (Pos.iter xO m n) = Zpos m * 2 ^ Zpos n.
Proof.
  induction n as [|n IH] using Pos.peano_ind; [cbn; lia|]. rewrite Pos.iter_succ, Pos2Z.inj_succ, Z.pow_succ_r by lia.
  rewrite Pos2Z.inj_xO, IH. ring.
Qed.

(** Rounding any positive [p * 2^e] of a middling exponent. *)
Lemma round_nearest p e :
  Zpos p < 2 ^ 500 -> -400 <= e <= 400 -> nearest (binary_round 53 1024 false p e) (inject_Z (Zpos p) * pow2 e).
Proof.
  intros Hp He. unfold binary_round. pose proof (digits2_bounds p) as [Hl Hu]. pose proof (digits2_le _ _ Hp) as Hd.
  assert (fexp 53 1024 (Zpos (digits2_pos p) + e) = Zpos (digits2_pos p) + e - 53) as -> by (unfold fexp, emin; lia).
  unfold shl_align. replace (Zpos (digits2_pos p) + e - 53 - e) with (Zpos (digits2_pos p) - 53) by lia.
  destruct (Zpos (digits2_pos p) - 53) as [|n|n] eqn:Hn.
  - apply (round_aux_nearest _ _ _ (Zpos p) 1 0); cbn [Zdigits2]; try lia; [|done|].
    + replace (Zpos (digits2_pos p) - 1) with 52 in Hl by lia. lia.
    + change (inject_Z 1) with 1%Q. ring.
  - apply (round_aux_nearest _ _ _ (Zpos p) 1 0); cbn [Zdigits2]; try lia; [|done|].
    + assert (2 ^ 52 <= 2 ^ (Zpos (digits2_pos p) - 1)) by (apply Z.pow_le_mono_r; lia). lia.
    + change (inject_Z 1) with 1%Q. ring.
  - assert (Zpos (Pos.iter xO p n) = Zpos p * 2 ^ Zpos n) as Hit by apply iter_xO.
    assert (2 ^ 52 <= Zpos p * 2 ^ Zpos n < 2 ^ 53) as Hb.
    { replace 52 with (Zpos (digits2_pos p) - 1 + Zpos n) by lia. replace 53 with (Zpos (digits2_pos p) + Zpos n) by lia.
      rewrite !Z.pow_add_r by lia. pose proof (Z.pow_pos_nonneg 2 (Zpos n)). nia. }
    apply (round_aux_nearest _ _ _ (Zpos p * 2 ^ Zpos n) 1 0); rewrite ?Hit; try lia; [done| |].
    + rewrite <- Hit. cbn [Zdigits2]. pose proof (digits2_le (Pos.iter xO p n) 53). lia.
    + rewrite inject_Z_mult, <- (pow2_Z (Zpos n)) by lia.
      assert (pow2 e == pow2 (Zpos n) * pow2 (Zpos (digits2_pos p) + e - 53))%Q as -> by
        (rewrite <- pow2_add; by replace (Zpos n + (Zpos (digits2_pos p) + e - 53)) with e by lia).
      change (inject_Z 1) with 1%Q. ring.
Qed.

Lemma integer_nearest p : Zpos p < 2 ^ 500 -> nearest (binary_round 53 1024 false p 0) (inject_Z (Zpos p)).
Proof.
  intros Hp. eapply nearest_ext; [|apply round_nearest; lia]. change (pow2 0) with 1%Q. ring.
Qed.

Lemma new_location_encodes d r : 0 <= r < d -> encodedBy (new_location d r) r d.
Proof.
  intros Hr. unfold new_location, new_location_even, new_location_odd. destruct (Z.even d) eqn:He.
  - destruct (Z.eqb_spec r 0) as [->|]; [done|]. cbn [encodedBy].
    destruct (Z.compare_spec (2 * r) d); cbn; lia.
  - apply (f_equal negb) in He. rewrite Z.negb_even in He. apply Z.odd_spec in He as [h Hh].
    destruct (Z.eqb_spec r 0) as [->|]; [done|]. cbn [encodedBy].
    destruct (Z.compare_spec (2 * r + 1) d); cbn; lia.
Qed.

(** A decimal with [k] places is read as the number nearest to it. *)
Lemma decimal_nearest p k :
  0 <= k <= 100 -> Zpos p < 2 ^ 400 -> nearest (nearestDecimal false (Zpos p) (- k)) (inject_Z (Zpos p) / inject_Z (10 ^ k)).
Proof.
  intros Hk Hp. unfold nearestDecimal. destruct (Z.leb_spec 0 (- k)) as [H0|Hneg].
  - assert (k = 0) as -> by lia. replace (Z.to_pos (Zpos p * 10 ^ - 0)) with p by (cbn; lia).
    replace (inject_Z (Zpos p) / inject_Z (10 ^ 0))%Q with (inject_Z (Zpos p) / 1)%Q by done.
    destruct (integer_nearest p) as (m & e & Hx & Hm & He & H1 & H2);
      [assert (2 ^ 400 <= 2 ^ 500) by (by apply Z.pow_le_mono_r); lia|].
    exists m, e. assert (inject_Z (Zpos p) / 1 == inject_Z (Zpos p))%Q as -> by field. done.
  - rewrite Z.opp_involutive. pose proof (Z.pow_pos_nonneg 10 k ltac:(lia) ltac:(lia)) as Hten.
    assert (10 ^ k < 2 ^ 400) as Hten2.
    { eapply Z.le_lt_trans; [apply (Z.pow_le_mono_r 10 k 100); lia|]. vm_compute. reflexivity. }
    destruct (10 ^ k) as [|t|t] eqn:Htk; try lia. unfold SFdiv_core_binary. cbn [Zdigits2].
    pose proof (digits2_bounds p) as [Hl Hu]. pose proof (digits2_bounds t) as [Hl' Hu'].
    pose proof (digits2_le _ _ Hp) as Hd. pose proof (digits2_le _ _ Hten2) as Hd'.
    rewrite !Z.add_0_r. change (0 - 0) with 0.
    assert (fexp 53 1024 (Zpos (digits2_pos p) - Zpos (digits2_pos t)) = Zpos (digits2_pos p) - Zpos (digits2_pos t) - 53) as ->
      by (unfold fexp, emin; lia).
    set (e := Z.min _ 0). set (s := 0 - e). assert (0 <= s) as Hs by lia.
    replace (match s with Z0 => Zpos p | Zpos _ => Z.shiftl (Zpos p) s | Zneg _ => 0 end) with (Zpos p * 2 ^ s)
      by (destruct s; [lia | by rewrite Z.shiftl_mul_pow2 by lia | lia]).
    pose proof (Z.div_eucl_eq (Zpos p * 2 ^ s) (Zpos t) ltac:(lia)) as Hq.
    pose proof (Z.mod_pos_bound (Zpos p * 2 ^ s) (Zpos t) ltac:(lia)) as Hr. unfold Z.modulo in Hr.
    destruct (Z.div_eucl _ _) as [q r]. pose proof (Z.pow_pos_nonneg 2 s ltac:(lia) Hs) as Hps.
    assert (2 ^ 52 * Zpos t <= Zpos p * 2 ^ s) as Hbig.
    { assert (2 ^ (52 + Zpos (digits2_pos t)) <= 2 ^ (Zpos (digits2_pos p) - 1 + s)) as Hle by (apply Z.pow_le_mono_r; lia).
      rewrite !Z.pow_add_r in Hle by lia. nia. }
    assert (2 ^ 52 <= q) as Hq52 by nia.
    apply (round_aux_nearest _ _ _ (Zpos p * 2 ^ s) (Zpos t) r); [done|lia|lia|by apply new_location_encodes|lia| |].
    + destruct q as [|q|q]; try lia. cbn [Zdigits2]. assert (Zpos (digits2_pos q) <= Zpos (digits2_pos p) + s); [|lia].
      apply digits2_le. rewrite Z.pow_add_r by lia. nia.
    + rewrite inject_Z_mult, <- (pow2_Z s) by lia. rewrite <- (Qmult_assoc (inject_Z (Zpos p))), <- pow2_add.
      replace (s + e) with 0 by lia. change (pow2 0) with 1%Q. field. change (inject_Z (Zpos t)) with (Zpos t # 1)%Q. done.
Qed.

Lemma floor_val x z : floorZ x = Some z -> (inject_Z z <= val x < inject_Z (z + 1))%Q.
Proof.
  destruct x as [s|s| |s m e]; cbn [floorZ val]; intros Hz; try done; injection Hz as <-; [by split|].
  fold (signed s m). set (n := signed s m). destruct (Z.leb_spec 0 e) as [He|He].
  - rewrite pow2_Z by lia. rewrite <- inject_Z_mult. split; [apply Qle_refl|]. rewrite <- Zlt_Qlt. lia.
  - pose proof (Z.pow_pos_nonneg 2 (- e) ltac:(lia) ltac:(lia)) as Hp.
    pose proof (Z.div_mod n (2 ^ - e) ltac:(lia)) as Hdm. pose proof (Z.mod_pos_bound n (2 ^ - e) ltac:(lia)) as Hb.
    assert (0 < inject_Z (2 ^ - e))%Q as HP by (change 0%Q with (inject_Z 0); by rewrite <- Zlt_Qlt).
    assert (inject_Z n * pow2 e * inject_Z (2 ^ - e) == inject_Z n)%Q as Hval.
    { rewrite <- pow2_Z by lia. rewrite <- Qmult_assoc, <- pow2_add. replace (e + - e) with 0 by lia. change (pow2 0) with 1%Q. ring. }
    split.
    + apply (Q_mul_cancel_r _ _ _ HP). rewrite Hval, <- inject_Z_mult, <- Zle_Qle. nia.
    + apply (Qmult_lt_r _ _ _ HP). rewrite Hval, <- inject_Z_mult, <- Zlt_Qlt. nia.
Qed.

Lemma round_val x z : roundZ x = Some z -> (inject_Z (2 * z - 1) <= 2 * val x < inject_Z (2 * z + 1))%Q.
Proof.
  destruct x as [s|s| |s m e]; cbn [roundZ val]; intros Hz; try done; injection Hz as <-; [by split|].
  fold (signed s m). set (n := signed s m). destruct (Z.leb_spec 0 e) as [He|He].
  - rewrite pow2_Z by lia. change 2%Q with (inject_Z 2). rewrite <- !inject_Z_mult. rewrite <- Zle_Qle, <- Zlt_Qlt. lia.
  - pose proof (Z.pow_pos_nonneg 2 (- e) ltac:(lia) ltac:(lia)) as Hp.
    replace (1 - e) with (1 + - e) by lia. rewrite Z.pow_add_r by lia. set (d := 2 ^ - e) in *. change (2 ^ 1) with 2.
    pose proof (Z.div_mod (2 * n + d) (2 * d) ltac:(lia)) as Hdm. pose proof (Z.mod_pos_bound (2 * n + d) (2 * d) ltac:(lia)) as Hb.
    set (z := (2 * n + d) / (2 * d)) in *.
    assert (0 < inject_Z d)%Q as HP by (change 0%Q with (inject_Z 0); by rewrite <- Zlt_Qlt).
    assert (2 * (inject_Z n * pow2 e) * inject_Z d == inject_Z (2 * n))%Q as Hval.
    { unfold d. rewrite <- pow2_Z by lia. rewrite inject_Z_mult, <- !Qmult_assoc, <- pow2_add.
      replace (e + - e) with 0 by lia. change (pow2 0) with 1%Q. change (inject_Z 2) with 2%Q. ring. }
    split.
    + apply (Q_mul_cancel_r _ _ _ HP). rewrite Hval, <- inject_Z_mult, <- Zle_Qle. nia.
    + apply (Qmult_lt_r _ _ _ HP). rewrite Hval, <- inject_Z_mult, <- Zlt_Qlt. nia.
Qed.

Lemma Qeq_Z_between a n : (inject_Z (n - 1) < inject_Z a)%Q -> (inject_Z a < inject_Z (n + 1))%Q -> a = n.
Proof. rewrite <- !Zlt_Qlt. lia. Qed.

(** Integers below 2^53 are numbers. *)
Lemma nearest_integer x n : nearest x (inject_Z n) -> 0 < n < 2 ^ 53 -> (val x == inject_Z n)%Q.
Proof.
  intros (m & e & -> & Hm & He & [Hl Hu] & [Hl2 Hu2]) Hn. cbn [val signed] in *. unfold u in *.
  assert (inject_Z n < 9007199254740992 # 1)%Q as HN
    by (change (9007199254740992 # 1) with (inject_Z (2 ^ 53)); rewrite <- Zlt_Qlt; lia).
  assert (0 < inject_Z n)%Q as HN0 by (change 0%Q with (inject_Z 0); rewrite <- Zlt_Qlt; lia).
  destruct (Z.le_gt_cases 0 e) as [He0|He0].
  - rewrite (pow2_Z e He0) in Hl, Hu |- *. rewrite <- inject_Z_mult in Hl, Hu |- *.
    assert (Zpos m * 2 ^ e = n) as ->; [|done].
    assert (inject_Z (n - 1) == inject_Z n - 1 /\ inject_Z (n + 1) == inject_Z n + 1)%Q as [Hn1 Hn2]
      by (unfold Z.sub; rewrite !inject_Z_plus; split; [change (inject_Z (- (1))) with (- (1))%Q; ring | change (inject_Z 1) with 1%Q; ring]).
    apply Qeq_Z_between; rewrite ?Hn1, ?Hn2; lra.
  - assert (inject_Z n == inject_Z (n * 2 ^ (- e)) * pow2 e)%Q as Heq.
    { rewrite inject_Z_mult, <- (pow2_Z (- e)) by lia. rewrite <- Qmult_assoc, <- pow2_add.
      replace (- e + e) with 0 by lia. change (pow2 0) with 1%Q. ring. }
    set (k := n * 2 ^ (- e)) in *. rewrite Heq in Hl2, Hu2 |- *. pose proof (pow2_pos e) as HP. set (P := pow2 e) in *.
    assert (Zpos m = k) as ->; [|done].
    assert (inject_Z (k - 1) == inject_Z k - 1 /\ inject_Z (k + 1) == inject_Z k + 1)%Q as [Hn1 Hn2]
      by (unfold Z.sub; rewrite !inject_Z_plus; split; [change (inject_Z (- (1))) with (- (1))%Q; ring | change (inject_Z 1) with 1%Q; ring]).
    apply Qeq_Z_between; rewrite ?Hn1, ?Hn2; apply (Qmult_lt_r _ _ P HP); lra.
Qed.

(** Positive normal numbers compare as their values. *)
Lemma ltN_val m1 e1 m2 e2 :
  2 ^ 52 <= Zpos m1 < 2 ^ 53 -> 2 ^ 52 <= Zpos m2 < 2 ^ 53 ->
  ltN (S754_finite false m1 e1) (S754_finite false m2 e2) = true <->
  (val (S754_finite false m1 e1) < val (S754_finite false m2 e2))%Q.
Proof.
  assert (forall m1 e1 m2 e2, 2 ^ 52 <= Zpos m1 < 2 ^ 53 -> 2 ^ 52 <= Zpos m2 < 2 ^ 53 -> e1 < e2 ->
          (inject_Z (Zpos m1) * pow2 e1 < inject_Z (Zpos m2) * pow2 e2)%Q) as Hexp.
  { clear. intros m1 e1 m2 e2 H1 H2 He. replace e2 with (e2 - e1 + e1) by lia. rewrite pow2_add, (pow2_Z (e2 - e1)) by lia.
    rewrite Qmult_assoc, <- inject_Z_mult. apply (Qmult_lt_r _ _ _ (pow2_pos e1)). rewrite <- Zlt_Qlt.
    assert (2 ^ 1 <= 2 ^ (e2 - e1)) by (apply Z.pow_le_mono_r; lia). nia. }
  intros H1 H2. unfold ltN, SFltb, SFcompare. cbn [val signed].
  destruct (Z.compare_spec e1 e2) as [->|He|He].
  - rewrite (Qmult_lt_r _ _ _ (pow2_pos e2)), <- Zlt_Qlt. fold (Pos.compare m1 m2).
    destruct (Pos.compare_spec m1 m2); split; intros; done || lia.
  - split; [intros _|done]. by apply Hexp.
  - split; [done|]. intros Hlt. specialize (Hexp m2 e2 m1 e1 H2 H1 He). exfalso. revert Hlt.
    apply Qle_not_lt. by apply Qlt_le_weak.
Qed.

(** A quotient of normal numbers of a middling size. *)
Lemma div_nearest m1 e1 m2 e2 :
  2 ^ 52 <= Zpos m1 < 2 ^ 53 -> 2 ^ 52 <= Zpos m2 < 2 ^ 53 -> -400 <= e1 <= 400 -> -400 <= e2 <= 400 ->
  nearest (divN (S754_finite false m1 e1) (S754_finite false m2 e2)) (val (S754_finite false m1 e1) / val (S754_finite false m2 e2)).
Proof.
  intros Hm1 Hm2 He1 He2. unfold divN. cbn [SFdiv xorb]. unfold SFdiv_core_binary. cbn [Zdigits2].
  rewrite (digits2_unique m1 53), (digits2_unique m2 53) by lia.
  assert (fexp 53 1024 (53 + e1 - (53 + e2)) = e1 - e2 - 53) as -> by (unfold fexp, emin; lia).
  rewrite (Z.min_l (e1 - e2 - 53)) by lia. replace (e1 - e2 - (e1 - e2 - 53)) with 53 by lia.
  rewrite Z.shiftl_mul_pow2 by lia.
  pose proof (Z.div_eucl_eq (Zpos m1 * 2 ^ 53) (Zpos m2) ltac:(lia)) as Hq.
  pose proof (Z.mod_pos_bound (Zpos m1 * 2 ^ 53) (Zpos m2) ltac:(lia)) as Hr. unfold Z.modulo in Hr.
  destruct (Z.div_eucl _ _) as [q r]. assert (2 ^ 52 <= q < 2 ^ 54) as Hq52 by nia.
  apply (round_aux_nearest _ _ _ (Zpos m1 * 2 ^ 53) (Zpos m2) r); [lia|lia|lia|by apply new_location_encodes|lia| |].
  - destruct q as [|q|q]; try lia. cbn [Zdigits2]. assert (Zpos (digits2_pos q) <= 54) by (apply digits2_le; lia). lia.
  - cbn [val signed]. rewrite inject_Z_mult, <- (pow2_Z 53) by lia.
    replace (e1 - e2 - 53) with (e1 + (- e2 + - 53)) by lia. rewrite !pow2_add.
    assert (pow2 53 * pow2 (- 53) == 1)%Q as H53 by (rewrite <- pow2_add; done).
    assert (pow2 e2 * pow2 (- e2) == 1)%Q as He by (rewrite <- pow2_add; by replace (e2 + - e2) with 0 by lia).
    assert (~ pow2 e2 == 0)%Q as Hne by (intros H0; pose proof (pow2_pos e2); rewrite H0 in *; lra).
    assert (~ inject_Z (Zpos m2) == 0)%Q as Hm by done.
    assert (pow2 (- e2) == / pow2 e2)%Q as Hinv.
    { apply (Qmult_inj_l _ _ _ Hne). rewrite He. by rewrite Qmult_inv_r. }
    rewrite Hinv. transitivity (inject_Z (Zpos m1) * pow2 e1 / pow2 e2 * (pow2 53 * pow2 (- 53)))%Q; [rewrite H53|]; field; done || by split.
Qed.

Lemma align m e e' : e' <= e -> Zpos (fst (shl_align m e e')) = Zpos m * 2 ^ (e - e').
Proof.
  intros He. unfold shl_align. destruct (e' - e) as [|d|d] eqn:Hd; [|lia|].
  - replace (e - e') with 0 by lia. cbn. lia.
  - cbn [fst]. rewrite iter_xO. f_equal. f_equal. lia.
Qed.

(** The sign does not enter the rounding. *)
Lemma round_aux_sign mx ex l m e :
  binary_round_aux 53 1024 false mx ex l = S754_finite false m e -> binary_round_aux 53 1024 true mx ex l = S754_finite true m e.
Proof.
  unfold binary_round_aux. destruct (shr_fexp _ _ _ _ _) as [r1 z1]. destruct (shr_fexp _ _ _ _ _) as [r2 z2].
  destruct (shr_m r2); [done| |done]. destruct (_ <=? _); [|done]. by intros [= -> ->].
Qed.

(** A difference of normal numbers of a middling size: nearest to the exact
    one where that is positive, and a number that is not positive where it is not. *)
Lemma sub_nearest m1 e1 m2 e2 :
  2 ^ 52 <= Zpos m1 < 2 ^ 53 -> 2 ^ 52 <= Zpos m2 < 2 ^ 53 -> -200 <= e1 <= 200 -> -200 <= e2 <= 200 ->
  let d := subN (S754_finite false m1 e1) (S754_finite false m2 e2) in
  let X := (val (S754_finite false m1 e1) - val (S754_finite false m2 e2))%Q in
  (0 < X -> nearest d X)%Q /\ (X <= 0 -> isPositive d = false /\ d <> S754_nan)%Q.
Proof.
  intros Hm1 Hm2 He1 He2. unfold subN. cbn [SFsub cond_Zopp]. set (e := Z.min e1 e2).
  rewrite (align m1 e1 e), (align m2 e2 e) by lia. set (n := Zpos m1 * 2 ^ (e1 - e) - Zpos m2 * 2 ^ (e2 - e)).
  assert (val (S754_finite false m1 e1) - val (S754_finite false m2 e2) == inject_Z n * pow2 e)%Q as HX.
  { assert (forall a : Z, (e <= a)%Z -> (pow2 a == inject_Z (2 ^ (a - e)) * pow2 e)%Q) as Hsplit.
    { intros a Ha. rewrite <- pow2_Z by lia. rewrite <- pow2_add. by replace (a - e + e) with a by lia. }
    cbn [val signed]. rewrite (Hsplit e1), (Hsplit e2) by lia. unfold n, Z.sub. rewrite inject_Z_plus, inject_Z_opp, !inject_Z_mult. ring. }
  pose proof (pow2_pos e) as HP.
  assert (Z.abs n < 2 ^ 500) as Hn.
  { assert (2 ^ (e2 - e) <= 2 ^ 400) by (apply Z.pow_le_mono_r; lia). assert (0 < 2 ^ (e1 - e)) by (apply Z.pow_pos_nonneg; lia).
    assert (2 ^ (e1 - e) <= 2 ^ 400) by (apply Z.pow_le_mono_r; lia). assert (0 < 2 ^ (e2 - e)) by (apply Z.pow_pos_nonneg; lia).
    assert (2 ^ 53 * 2 ^ 400 < 2 ^ 500) by (vm_compute; reflexivity). unfold n. nia. }
  cbn zeta. split; intros Hpos; rewrite HX in Hpos.
  - eapply nearest_ext; [symmetry; exact HX|]. unfold binary_normalize. destruct n as [|p|p].
    + change (inject_Z 0) with 0%Q in Hpos. lra.
    + apply round_nearest; lia.
    + exfalso. assert (inject_Z (Zneg p) * pow2 e <= 0 * pow2 e)%Q; [|lra]. apply Qmult_le_compat_r; [|by apply Qlt_le_weak].
      change 0%Q with (inject_Z 0). rewrite <- Zle_Qle. lia.
  - unfold binary_normalize. destruct n as [|p|p]; [done| |].
    + exfalso. assert (0 * pow2 e < inject_Z (Zpos p) * pow2 e)%Q; [|lra]. apply Qmult_lt_r; [done|].
      change 0%Q with (inject_Z 0). rewrite <- Zlt_Qlt. lia.
    + destruct (round_nearest p e ltac:(lia) ltac:(lia)) as (m & e' & Hr & _). unfold binary_round in *.
      destruct (shl_align _ _ _) as [mz ez]. by rewrite (round_aux_sign _ _ _ _ _ Hr).
Qed.

(** The other way round a difference only changes its sign. *)
Lemma sub_swap m1 e1 m2 e2 m e :
  subN (S754_finite false m1 e1) (S754_finite false m2 e2) = S754_finite false m e ->
  subN (S754_finite false m2 e2) (S754_finite false m1 e1) = S754_finite true m e.
Proof.
  unfold subN. cbn [SFsub cond_Zopp]. rewrite (Z.min_comm e2 e1). generalize (Z.min e1 e2). intros ez.
  set (x := Zpos (fst (shl_align m1 e1 ez))). set (y := Zpos (fst (shl_align m2 e2 ez))).
  replace (y - x) with (- (x - y)) by lia. clearbody x y. destruct (x - y) as [|p|p]; unfold binary_normalize; cbn [Z.opp]; [done| |].
  - change (- Z.pos p) with (Z.neg p). cbv iota beta. unfold binary_round. destruct (shl_align _ _ _) as [mz e']. apply round_aux_sign.
  - change (- Z.neg p) with (Z.pos p). cbv iota beta. unfold binary_round, binary_round_aux. destruct (shl_align _ _ _) as [mz e']. destruct (shr_fexp _ _ _ _ _) as [r1 z1].
    destruct (shr_fexp _ _ _ _ _) as [r2 z2]. destruct (shr_m r2); [done| |done]. by destruct (_ <=? _).
Qed.

(** Integers below 2^53 are stored, and subtracted, exactly. *)
Lemma integer_stored a : 0 < a < 2 ^ 53 -> exists m e,
  numberOfZ a = S754_finite false m e /\ 2 ^ 52 <= Zpos m < 2 ^ 53 /\ -84 <= e <= 9 /\ (val (numberOfZ a) == inject_Z a)%Q.
Proof.
  intros Ha. assert (nearest (numberOfZ a) (inject_Z a)) as Hn.
  { unfold numberOfZ, binary_normalize. destruct a as [|p|p]; [lia| |lia]. apply integer_nearest.
    assert (2 ^ 53 < 2 ^ 500) by (apply Z.pow_lt_mono_r; lia). lia. }
  destruct (nearest_range _ _ Hn) as (m & e & Hx & Hm & He).
  - apply Qle_trans with (inject_Z 1); [by vm_compute|]. rewrite <- Zle_Qle. lia.
  - apply Qle_trans with (inject_Z (2 ^ 53)); [rewrite <- Zle_Qle; lia|]. by vm_compute.
  - exists m, e. split_and!; try lia; [done|]. by apply nearest_integer.
Qed.

Lemma ltN_integer a x n : 0 < a < 2 ^ 53 -> 0 < n < 2 ^ 53 -> nearest x (inject_Z n) -> ltN (numberOfZ a) x = (a <? n).
Proof.
  intros Ha Hn Hx. pose proof (nearest_integer _ _ Hx Hn) as Hv. destruct (integer_stored a Ha) as (m & e & Hs & Hm & _ & Hva).
  destruct Hx as (m' & e' & -> & Hm' & _). rewrite Hs in *. pose proof (ltN_val m e m' e' Hm Hm') as Hlt.
  rewrite Hva, Hv, <- Zlt_Qlt in Hlt. apply eq_true_iff_eq. by rewrite Hlt, Z.ltb_lt.
Qed.

(** [Math.abs(a - b) > c] between such integers. *)
Lemma apart_integers a b c : 0 < a < 2 ^ 53 -> 0 < b < 2 ^ 53 -> 0 < c < 2 ^ 53 ->
  ltN (numberOfZ c) (absN (subN (numberOfZ a) (numberOfZ b))) = (c <? Z.abs (a - b)).
Proof.
  intros Ha Hb Hc. destruct (integer_stored a Ha) as (m1 & e1 & H1 & Hm1 & He1 & Hv1), (integer_stored b Hb) as (m2 & e2 & H2 & Hm2 & He2 & Hv2).
  rewrite H1, H2 in *. destruct (Z.lt_trichotomy a b) as [Hab|[->|Hab]].
  - destruct (sub_nearest m2 e2 m1 e1 Hm2 Hm1 ltac:(lia) ltac:(lia)) as [Hpos _].
    assert (nearest (subN (S754_finite false m2 e2) (S754_finite false m1 e1)) (inject_Z (b - a))) as Hn.
    { eapply nearest_ext; [|apply Hpos]; rewrite Hv1, Hv2; unfold Z.sub; [rewrite inject_Z_plus, inject_Z_opp; ring|].
      apply -> Qlt_minus_iff. rewrite <- Zlt_Qlt. lia. }
    pose proof Hn as (m & e & Hx & _). rewrite (sub_swap _ _ _ _ _ _ Hx). rewrite Hx in Hn.
    change (absN (S754_finite true m e)) with (S754_finite false m e). replace (Z.abs (a - b)) with (b - a) by lia.
    apply ltN_integer; [done|lia|done].
  - rewrite H1 in H2. injection H2 as <- <-. replace (c <? Z.abs (b - b)) with false by (symmetry; apply Z.ltb_ge; lia).
    destruct (integer_stored c Hc) as (m & e & -> & _). unfold subN. cbn [SFsub cond_Zopp]. by rewrite Z.sub_diag.
  - destruct (sub_nearest m1 e1 m2 e2 Hm1 Hm2 ltac:(lia) ltac:(lia)) as [Hpos _].
    assert (nearest (subN (S754_finite false m1 e1) (S754_finite false m2 e2)) (inject_Z (a - b))) as Hn.
    { eapply nearest_ext; [|apply Hpos]; rewrite Hv1, Hv2; unfold Z.sub; [rewrite inject_Z_plus, inject_Z_opp; ring|].
      apply -> Qlt_minus_iff. rewrite <- Zlt_Qlt. lia. }
    pose proof Hn as (m & e & Hx & _). rewrite Hx in *. change (absN (S754_finite false m e)) with (S754_finite false m e).
    replace (Z.abs (a - b)) with (a - b) by lia. apply ltN_integer; [done|lia|done].
Qed.
