(* ===== verification/ApiAccess.v ===== *)
(** * Who may call the gateway, and how often

    Models api/src/services/rateLimit.ts and apiKeys.ts, and the hooks of
    plugins/auth.ts, plugins/rateLimit.ts and plugins/geoBlock.ts. The digest
    of a secret is a parameter (node:crypto with the deployment's pepper);
    statements run at once, as each hook awaits them one by one. Times are the
    values of the clock, [now] in milliseconds where the source divides it. *)

From S2P Require Import Prelude JsText JsNumber ApiSockets ApiEvents ApiStats ApiBoard.
Open Scope Z_scope.
Open Scope js_scope.

(** ** services/rateLimit.ts *)

Inductive RateLimitTier := public | keyTier (t : KeyTier).

Definition perMinute (t : RateLimitTier) : Z :=
  match t with public => 60 | keyTier standard => 600 | keyTier market_maker => 6000 end.

Record RateLimitDecision := {
  allowed : bool; remaining : Z; retryAfterSec : Z; windowStart : Z }.

Definition WINDOW_SEC : Z := 60.

(** rate_limit_buckets, keyed by (key_id, window_start). *)
Notation RateTable := (gmap (string * Z) Z).

Definition windowOf (nowSec : Z) : Z := nowSec - Z.rem nowSec WINDOW_SEC.

Definition checkAndConsume (bucket : string) (limit nowSec : Z) (t : RateTable)
  : RateLimitDecision * RateTable :=
  let w := windowOf nowSec in
  let count := default 0 (t !! (bucket, w)) + 1 in
  (if limit <? count then
     {| allowed := false; remaining := 0; retryAfterSec := Z.max 1 (w + WINDOW_SEC - nowSec);
        windowStart := w |}
   else
     {| allowed := true; remaining := Z.max 0 (limit - count); retryAfterSec := 0; windowStart := w |},
   <[(bucket, w) := count]> t).

(** [DELETE ... WHERE window_start < ?] *)
Definition sweepExpired (nowSec : Z) (t : RateTable) : RateTable :=
  filter (fun kv => windowOf nowSec <= kv.1.2) t.

(** ** services/apiKeys.ts *)

Record ApiKeyRow := {
  secret_hash : string; k_owner : string; k_tier : KeyTier; k_label : option string;
  created_at : Z; last_used_at : option Z; revoked_at : option Z }.

Notation KeyTable := (gmap string ApiKeyRow).

Definition setLastUsed (now : Z) (r : ApiKeyRow) : ApiKeyRow := {|
  secret_hash := secret_hash r; k_owner := k_owner r; k_tier := k_tier r; k_label := k_label r;
  created_at := created_at r; last_used_at := Some now; revoked_at := revoked_at r |}.

Definition setRevoked (now : Z) (r : ApiKeyRow) : ApiKeyRow := {|
  secret_hash := secret_hash r; k_owner := k_owner r; k_tier := k_tier r; k_label := k_label r;
  created_at := created_at r; last_used_at := last_used_at r; revoked_at := Some now |}.

Definition isActive (r : ApiKeyRow) : bool := match revoked_at r with None => true | Some _ => false end.

(** [mismatch |= a.charCodeAt(i) ^ b.charCodeAt(i)], over both texts. *)
Fixpoint mismatchOf (a b : string) : Z :=
  match a, b with
  | String x a, String y b =>
      Z.lor (mismatchOf a b) (Z.lxor (Z.of_N (N_of_ascii x)) (Z.of_N (N_of_ascii y)))
  | _, _ => 0
  end.

Definition timingSafeEqualHex (a b : string) : bool :=
  if negb (Nat.eqb (String.length a) (String.length b)) then false else mismatchOf a b =? 0.

Section keys.
Context (hashSecret : string -> string).

(** The key found, and the table with its use recorded; a failure of that
    second statement is ignored. *)
Definition lookupForAuth (keyId secret : string) (now : Z) (touched : bool) (t : KeyTable)
  : option User * KeyTable :=
  match t !! keyId with
  | None => (None, t)
  | Some row =>
      if negb (isActive row) then (None, t)
      else if negb (timingSafeEqualHex (hashSecret secret) (secret_hash row)) then (None, t)
      else (Some {| keyId := keyId; owner := k_owner row; tier := k_tier row |},
            if touched then <[keyId := setLastUsed now row]> t else t)
  end.

(** [issue]: the two random texts are the caller's; [None] is the primary-key
    violation of a repeated id. *)
Definition issue (id secret own : string) (label : option string) (t : KeyTier) (now : Z)
    (tab : KeyTable) : option KeyTable :=
  match tab !! id with
  | Some _ => None
  | None => Some (<[id := {| secret_hash := hashSecret secret; k_owner := own; k_tier := t;
                             k_label := label; created_at := now; last_used_at := None;
                             revoked_at := None |}]> tab)
  end.
End keys.

Definition activeOf (own : string) (row : ApiKeyRow) : bool := isActive row && String.eqb (k_owner row) own.

Definition countActiveForOwner (own : string) (t : KeyTable) : Z :=
  Z.of_nat (size (filter (fun kv : string * ApiKeyRow => activeOf own kv.2 = true) t)).

Definition labelled (own label : string) (row : ApiKeyRow) : bool :=
  activeOf own row && eqOpt String.eqb (k_label row) (Some label).

Definition revokeAllWithLabel (own label : string) (now : Z) (t : KeyTable) : KeyTable :=
  (fun row => if labelled own label row then setRevoked now row else row) <$> t.

Definition revoke (id own : string) (now : Z) (t : KeyTable) : bool * KeyTable :=
  match t !! id with
  | Some row => if activeOf own row then (true, <[id := setRevoked now row]> t) else (false, t)
  | None => (false, t)
  end.

(** ** plugins/auth.ts *)

Inductive AuthFailure :=
| missing_bearer | malformed_bearer | missing_timestamp | stale_timestamp | invalid_credentials.

Definition TIMESTAMP_TOLERANCE_SEC : Z := 30.

(** [xTimestamp] is [Number] of the (first) x-timestamp header. *)
Record Request := {
  url : string; method : string; ip_ : string; authorization : option string;
  xTimestamp : option number; user_ : option User }.

Definition withUser (u : User) (r : Request) : Request := {|
  url := url r; method := method r; ip_ := ip_ r; authorization := authorization r;
  xTimestamp := xTimestamp r; user_ := Some u |}.

(** [bearer.slice(0, bearer.indexOf(':'))] and what follows the colon. *)
Fixpoint splitColon (s : string) : option (string * string) :=
  match s with
  | EmptyString => None
  | String c s =>
      if Ascii.eqb c ":" then Some (EmptyString, s)
      else match splitColon s with Some (a, b) => Some (String c a, b) | None => None end
  end.

(** [!Number.isFinite(ts) || Math.abs(now - ts) > TIMESTAMP_TOLERANCE_SEC] *)
Definition staleTimestamp (nowSec : Z) (ts : number) : bool :=
  negb (isFinite ts)
  || ltN (numberOfZ TIMESTAMP_TOLERANCE_SEC) (absN (subN (numberOfZ nowSec) ts)).

Section hooks.
Context (hashSecret : string -> string).

Definition resolveRequestUser (r : Request) (nowMs : Z) (touched : bool) (t : KeyTable)
  : (AuthFailure + Request) * KeyTable :=
  match stripPrefix "Bearer " (default EmptyString (authorization r)) with
  | None => (inl missing_bearer, t)
  | Some rest =>
      match splitColon (trim rest) with
      | None => (inl malformed_bearer, t)
      | Some (id, secret) =>
          match xTimestamp r with
          | None => (inl missing_timestamp, t)
          | Some ts =>
              if staleTimestamp (nowMs / 1000) ts then (inl stale_timestamp, t)
              else match lookupForAuth hashSecret id secret nowMs touched t with
                   | (None, t) => (inl invalid_credentials, t)
                   | (Some u, t) => (inr (withUser u r), t)
                   end
          end
      end
  end.

Inductive HookResult := Continue (r : Request) | Reply (code : Z) (error : string).

Definition authFailureText (f : AuthFailure) : string :=
  match f with
  | missing_bearer => "missing_bearer" | malformed_bearer => "malformed_bearer"
  | missing_timestamp => "missing_timestamp" | stale_timestamp => "stale_timestamp"
  | invalid_credentials => "invalid_credentials"
  end.

Definition requireAuth (r : Request) (nowMs : Z) (touched : bool) (t : KeyTable) : HookResult * KeyTable :=
  match user_ r with
  | Some _ => (Continue r, t)
  | None =>
      match resolveRequestUser r nowMs touched t with
      | (inl f, t) => (Reply 401 (authFailureText f), t)
      | (inr r, t) => (Continue r, t)
      end
  end.

(** ** plugins/rateLimit.ts *)

Definition WAITLIST_JOIN_PER_MINUTE : Z := 5.

Definition tierOf (u : option User) : RateLimitTier :=
  match u with Some u => keyTier (tier u) | None => public end.

Definition bucketFor (r : Request) : string :=
  match user_ r with Some u => "owner:" +:+ owner u | None => "ip:" +:+ ip_ r end.

Definition isJoin (r : Request) : bool :=
  String.eqb (method r) "POST" && startsWith "/v1/waitlist" (url r)
  && match user_ r with None => true | Some _ => false end.

(** The onRequest hook, over the two tables. *)
Definition rateLimitHook (r : Request) (nowMs : Z) (touched : bool) (kt : KeyTable) (rt : RateTable)
  : HookResult * KeyTable * RateTable :=
  if String.eqb (url r) "/v1/health" || startsWith "/docs" (url r) then (Continue r, kt, rt)
  else
    let (r, kt) := match user_ r with
                   | Some _ => (r, kt)
                   | None => match resolveRequestUser r nowMs touched kt with
                             | (inl _, kt) => (r, kt)
                             | (inr r, kt) => (r, kt)
                             end
                   end in
    let (decision, rt) := checkAndConsume (bucketFor r) (perMinute (tierOf (user_ r))) (nowMs / 1000) rt in
    if negb (allowed decision) then (Reply 429 "rate_limited", kt, rt)
    else if isJoin r then
      let (join, rt) := checkAndConsume ("join:ip:" +:+ ip_ r) WAITLIST_JOIN_PER_MINUTE (nowMs / 1000) rt in
      if negb (allowed join) then (Reply 429 "rate_limited", kt, rt) else (Continue r, kt, rt)
    else (Continue r, kt, rt).
End hooks.

(** ** plugins/geoBlock.ts *)

Definition BLOCKED_COUNTRIES : list string := ["US"; "CU"; "IR"; "KP"; "SY"; "RU"; "BY"].
Definition BLOCKED_REGIONS : list string := ["CA-ON"].
Definition GUARDED_PREFIXES : list string := ["/v1/orders"; "/v1/tx"].

Definition isBlocked (country region : string) : bool :=
  if negb (truthy country) then false
  else if existsb (String.eqb country) BLOCKED_COUNTRIES then true
  else existsb (String.eqb (if truthy region then country +:+ "-" +:+ region else EmptyString)) BLOCKED_REGIONS.

Definition upperAscii (c : ascii) : ascii :=
  let n := N_of_ascii c in if N.leb 97 n && N.leb n 122 then ascii_of_N (n - 32) else c.
Fixpoint upper (s : string) : string :=
  match s with EmptyString => EmptyString | String c s => String (upperAscii c) (upper s) end.

(** [country] and [region] are the request's two headers, if any. *)
Definition geoBlockHook (enabled : bool) (country region : option string) (r : Request) : HookResult :=
  if negb enabled then Continue r
  else if negb (existsb (fun p => String.eqb (url r) p || startsWith (p +:+ "/") (url r)) GUARDED_PREFIXES)
  then Continue r
  else if isBlocked (upper (default EmptyString country)) (upper (default EmptyString region))
  then Reply 451 "region_restricted" else Continue r.

(** ** The constant-time comparison is equality *)

Lemma mismatchOf_nonneg a b : 0 <= mismatchOf a b.
Proof.
  revert b; induction a as [|x a IH]; intros [|y b]; simpl; try lia.
  apply Z.lor_nonneg. split; [apply IH|]. apply Z.lxor_nonneg. lia.
Qed.

(** The accumulated difference of two digests is zero exactly when they are
    the same text. *)
Theorem timingSafeEqualHex_eq a b : timingSafeEqualHex a b = String.eqb a b.
Proof.
  unfold timingSafeEqualHex. apply eq_true_iff_eq. rewrite String.eqb_eq.
  destruct (Nat.eqb_spec (String.length a) (String.length b)) as [Hlen|Hne]; cbn [negb].
  2: { split; [done|]. by intros ->. }
  rewrite Z.eqb_eq. revert b Hlen; induction a as [|x a IH]; intros [|y b] Hlen; simpl in *; try done.
  rewrite Z.lor_eq_0_iff, Z.lxor_eq_0_iff, IH by lia. split.
  - intros [-> H]. f_equal. apply N2Z.inj in H. rewrite <- (ascii_N_embedding x), <- (ascii_N_embedding y).
    by rewrite H.
  - by intros [= -> ->].
Qed.

(** ** Authentication *)

Lemma stripPrefix_Some p s rest : stripPrefix p s = Some rest -> s = p +:+ rest.
Proof.
  revert s; induction p as [|c p IH]; intros s; simpl; [by intros [= ->]|].
  destruct s as [|d s]; [done|]. destruct (Ascii.eqb_spec c d) as [->|]; [|done].
  intros H. exact (f_equal (String d) (IH s H)).
Qed.

Lemma stale_in_seconds nowSec z : 0 < nowSec < 2 ^ 53 -> 0 < z < 2 ^ 53 ->
  staleTimestamp nowSec (numberOfZ z) = (TIMESTAMP_TOLERANCE_SEC <? Z.abs (nowSec - z)).
Proof.
  intros Hn Hz. unfold staleTimestamp. rewrite apart_integers by (done || (unfold TIMESTAMP_TOLERANCE_SEC; lia)).
  destruct (integer_stored z Hz) as (m & e & -> & _). done.
Qed.

(** C33. A request is given a user only for credentials whose key exists, is not
    revoked and stores the digest of the secret sent; the user is the key's
    owner and tier. The timestamp is a finite number, and a positive one in
    whole seconds, as the clients send, is at most thirty seconds from the
    gateway's clock, before or after. *)
Theorem authenticated_means_valid_key hashSecret r nowMs touched t r' t' :
  resolveRequestUser hashSecret r nowMs touched t = (inr r', t') ->
  exists rest id secret row ts,
    authorization r = Some ("Bearer " +:+ rest) /\ splitColon (trim rest) = Some (id, secret)
    /\ t !! id = Some row /\ revoked_at row = None /\ secret_hash row = hashSecret secret
    /\ xTimestamp r = Some ts /\ isFinite ts = true
    /\ (forall z, ts = numberOfZ z -> 0 < z < 2 ^ 53 -> 0 < nowMs / 1000 < 2 ^ 53 -> Z.abs (nowMs / 1000 - z) <= 30)
    /\ r' = withUser {| keyId := id; owner := k_owner row; tier := k_tier row |} r.
Proof.
  unfold resolveRequestUser. intros H.
  destruct (stripPrefix "Bearer " (default EmptyString (authorization r))) as [rest|] eqn:Eb; [|done].
  destruct (splitColon (trim rest)) as [[id secret]|] eqn:Es; [|done].
  destruct (xTimestamp r) as [ts|] eqn:Et; [|done].
  destruct (staleTimestamp (nowMs / 1000) ts) eqn:Est; [done|].
  unfold lookupForAuth in H. destruct (t !! id) as [row|] eqn:Er; [|done].
  destruct (isActive row) eqn:Ea; [|done].
  destruct (timingSafeEqualHex (hashSecret secret) (secret_hash row)) eqn:Eq; [|done].
  injection H as <- _. rewrite timingSafeEqualHex_eq in Eq. apply String.eqb_eq in Eq.
  exists rest, id, secret, row, ts. split_and!; try done.
  - destruct (authorization r) as [a|]; [|done]. f_equal. by apply stripPrefix_Some.
  - unfold isActive in Ea. by destruct (revoked_at row).
  - unfold staleTimestamp in Est. apply orb_false_iff in Est as [Hf _]. by apply negb_false_iff in Hf.
  - intros z -> Hz Hn. rewrite stale_in_seconds in Est by done. by apply Z.ltb_ge in Est.
Qed.

Definition aliceKeys : KeyTable := {[ "nk_1" := {|
  secret_hash := "h:s3"; k_owner := "GALICE"; k_tier := standard; k_label := None; created_at := 0;
  last_used_at := None; revoked_at := None |} ]}.

Definition digest (s : string) : string := "h:" +:+ s.

Definition aliceRequest (ts : Z) : Request := {|
  url := "/v1/keys"; method := "GET"; ip_ := "10.0.0.1"; authorization := Some "Bearer nk_1:s3";
  xTimestamp := Some (numberOfZ ts); user_ := None |}.

Lemma authenticated_means_valid_key_witness :
  exists r' t', resolveRequestUser digest (aliceRequest 1000) 1020000 true aliceKeys = (inr r', t')
  /\ exists rest id secret row,
    authorization (aliceRequest 1000) = Some ("Bearer " +:+ rest) /\ splitColon (trim rest) = Some (id, secret)
    /\ aliceKeys !! id = Some row /\ secret_hash row = digest secret /\ Z.abs (1020000 / 1000 - 1000) <= 30.
Proof.
  eexists. eexists. split; [vm_compute; reflexivity|].
  edestruct (authenticated_means_valid_key digest (aliceRequest 1000) 1020000 true aliceKeys)
    as (rest & id & secret & row & ts & H1 & H2 & H3 & _ & H4 & H5 & _ & H6 & _); [vm_compute; reflexivity|].
  exists rest, id, secret, row. repeat (split; [done|]). apply H6; [by injection H5 as <-| |]; split; vm_compute; reflexivity.
Defined.

(** The timestamp is not bound to the credentials: whoever has captured a
    bearer header is let in at any later moment by sending that moment as the
    timestamp, as long as the key is active. *)
Lemma captured_bearer_replays hashSecret r nowMs touched t r' t' later ts :
  resolveRequestUser hashSecret r nowMs touched t = (inr r', t') ->
  staleTimestamp (later / 1000) ts = false ->
  exists t'', (resolveRequestUser hashSecret
    {| url := url r; method := method r; ip_ := ip_ r; authorization := authorization r;
       xTimestamp := Some ts; user_ := None |} later touched t) =
    (inr {| url := url r; method := method r; ip_ := ip_ r; authorization := authorization r;
            xTimestamp := Some ts; user_ := user_ r' |}, t'').
Proof.
  unfold resolveRequestUser. cbn [authorization xTimestamp]. intros H Hts.
  destruct (stripPrefix "Bearer " _) as [rest|]; [|done].
  destruct (splitColon (trim rest)) as [[id secret]|]; [|done].
  destruct (xTimestamp r); [|done]. destruct (staleTimestamp (nowMs / 1000) _); [done|].
  rewrite Hts. unfold lookupForAuth in *. destruct (t !! id) as [row|]; [|done].
  destruct (negb (isActive row)); [done|]. destruct (negb _); [done|].
  injection H as <- _. by eexists.
Qed.

(** ** The limiter admits exactly its limit *)

Inductive LimiterOp := Consume (bucket : string) (limit nowSec : Z) | Sweep (nowSec : Z).

Definition opTime (o : LimiterOp) : Z := match o with Consume _ _ n => n | Sweep n => n end.

Definition limiterStep (acc : RateTable * list bool) (o : LimiterOp) : RateTable * list bool :=
  match o with
  | Consume b l n => let (d, t) := checkAndConsume b l n acc.1 in (t, acc.2 ++ [allowed d])
  | Sweep n => (sweepExpired n acc.1, acc.2 ++ [true])
  end.

Definition limiterRun (ops : list LimiterOp) : RateTable * list bool := foldl limiterStep (∅, []) ops.

(** The operation is a request of bucket [b] in the window that starts at [w]. *)
Definition inWindow (b : string) (w : Z) (o : LimiterOp) : bool :=
  match o with Consume b' _ n => String.eqb b' b && (windowOf n =? w) | Sweep _ => false end.

Definition requestsIn (b : string) (w : Z) (ops : list LimiterOp) : Z :=
  Z.of_nat (length (bfilter (inWindow b w) ops)).

(** The times do not run backwards. *)
Fixpoint forward (from : Z) (ops : list LimiterOp) : Prop :=
  match ops with [] => True | o :: ops => from <= opTime o /\ forward (opTime o) ops end.

Lemma forward_snoc from ops o :
  forward from (ops ++ [o]) <-> forward from ops /\ from <= opTime o
    /\ Forall (fun o' => opTime o' <= opTime o) ops.
Proof.
  revert from; induction ops as [|x ops IH]; intros from; simpl.
  - split; [intros [? _]; by split_and!|]. by intros (_ & ? & _).
  - rewrite IH, Forall_cons. split.
    + intros (H1 & H2 & H3 & H4). split_and!; [done..|lia|done|done].
    + intros ([H1 H2] & H3 & H4 & H5). by split_and!.
Qed.

Lemma windowOf_mono a b : 0 <= a <= b -> windowOf a <= windowOf b.
Proof.
  intros H. unfold windowOf, WINDOW_SEC. rewrite !Z.rem_mod_nonneg by lia.
  rewrite (Z.mod_eq a 60), (Z.mod_eq b 60) by lia.
  pose proof (Z.div_le_mono a b 60). lia.
Qed.

(** Counters of the current and later windows hold what was requested. *)
Lemma limiter_counts ops from :
  0 <= from -> forward from ops ->
  forall b w, Forall (fun o => windowOf (opTime o) <= w) ops ->
    default 0 ((limiterRun ops).1 !! (b, w)) = requestsIn b w ops.
Proof.
  intros Hfrom. induction ops as [|o ops IH] using rev_ind; intros Hf b w Hw; [done|].
  apply forward_snoc in Hf as (Hf & Hge & Hle). apply Forall_app in Hw as [Hw Ho].
  rewrite Forall_singleton in Ho. unfold limiterRun, requestsIn in *. rewrite foldl_app, bfilter_app, length_app.
  destruct (foldl limiterStep (∅, []) ops) as [t out] eqn:Et. cbn [foldl fst] in *.
  specialize (IH Hf b w Hw). destruct o as [b' l n|n]; cbn [limiterStep fst opTime] in *.
  - unfold checkAndConsume. cbn [fst]. simpl. destruct (String.eqb_spec b' b) as [->|Hb]; simpl.
    + destruct (Z.eqb_spec (windowOf n) w) as [<-|Hne].
      * rewrite lookup_insert_eq. simpl. rewrite IH. lia.
      * rewrite lookup_insert_ne by congruence. rewrite IH. simpl. lia.
    + rewrite lookup_insert_ne by congruence. rewrite IH. simpl. lia.
  - unfold sweepExpired. simpl. rewrite Nat.add_0_r, <- IH. f_equal.
    destruct (t !! (b, w)) as [c|] eqn:E.
    + apply map_lookup_filter_Some. split; [done|exact Ho].
    + apply map_lookup_filter_None. by left.
Qed.

(** Over any run whose clock does not go back, sweeps included, a request is
    admitted exactly when its place among its bucket's requests of the window
    is within its limit: the first [limit] pass and every further one fails. *)
Theorem rate_limit_exact before b limit nowSec :
  forward 0 (before ++ [Consume b limit nowSec]) ->
  let d := (checkAndConsume b limit nowSec (limiterRun before).1).1 in
  allowed d = (requestsIn b (windowOf nowSec) before + 1 <=? limit)
  /\ (allowed d = true ->
      remaining d = limit - (requestsIn b (windowOf nowSec) before + 1) /\ retryAfterSec d = 0)
  /\ (allowed d = false -> remaining d = 0 /\ 1 <= retryAfterSec d <= WINDOW_SEC
      /\ nowSec < nowSec + retryAfterSec d /\ windowOf (nowSec + retryAfterSec d) = windowOf nowSec + WINDOW_SEC).
Proof.
  intros Hf d. apply forward_snoc in Hf as (Hf & Hge & Hle). cbn [opTime] in *.
  assert (default 0 ((limiterRun before).1 !! (b, windowOf nowSec)) = requestsIn b (windowOf nowSec) before) as Hc.
  { apply (limiter_counts before 0); [lia|done|]. rewrite Forall_forall in Hle |- *. intros o Ho.
    apply windowOf_mono. split; [|by apply Hle]. clear -Hf Ho.
    assert (forall from, 0 <= from -> forward from before -> 0 <= opTime o) as H; [|by apply (H 0)].
    clear Hf. induction before as [|x l IH]; [by apply elem_of_nil in Ho|]. intros from H0 [H1 H2].
    apply elem_of_cons in Ho as [->|Ho]; [lia|]. apply (IH Ho (opTime x)); [lia|done]. }
  subst d. unfold checkAndConsume. rewrite Hc. cbn [fst].
  pose proof (Z.rem_bound_pos nowSec WINDOW_SEC ltac:(lia) ltac:(unfold WINDOW_SEC; lia)) as Hr.
  destruct (Z.ltb_spec limit (requestsIn b (windowOf nowSec) before + 1)) as [Hlt|Hge'];
    cbn [allowed remaining retryAfterSec].
  - split; [symmetry; apply Z.leb_gt; lia|]. split; [done|]. intros _.
    assert (Z.max 1 (windowOf nowSec + WINDOW_SEC - nowSec) = windowOf nowSec + WINDOW_SEC - nowSec)
      as -> by (unfold windowOf in *; lia).
    split; [done|]. split; [unfold windowOf in *; lia|]. split; [unfold windowOf in *; lia|].
    replace (nowSec + (windowOf nowSec + WINDOW_SEC - nowSec)) with (windowOf nowSec + WINDOW_SEC) by lia.
    unfold windowOf at 1. assert (Z.rem (windowOf nowSec + WINDOW_SEC) WINDOW_SEC = 0) as ->; [|lia].
    unfold windowOf. rewrite (Z.quot_rem' nowSec WINDOW_SEC) at 1.
    replace (WINDOW_SEC * (nowSec ÷ WINDOW_SEC) + Z.rem nowSec WINDOW_SEC - Z.rem nowSec WINDOW_SEC + WINDOW_SEC)
      with ((nowSec ÷ WINDOW_SEC + 1) * WINDOW_SEC) by lia.
    by apply Z.rem_mul.
  - split; [symmetry; apply Z.leb_le; lia|]. split; [|done]. intros _. lia.
Qed.

Lemma rate_limit_exact_witness :
  let before := [Consume "a" 2 100; Sweep 110; Consume "b" 2 112; Consume "a" 2 119] in
  let d := (checkAndConsume "a" 2 119 (limiterRun before).1).1 in
  allowed d = false /\ retryAfterSec d = 1
  /\ allowed d = (requestsIn "a" (windowOf 119) before + 1 <=? 2).
Proof.
  intros before d. split; [vm_compute; reflexivity|]. split; [vm_compute; reflexivity|].
  apply (rate_limit_exact before "a" 2 119). vm_compute. repeat split; discriminate.
Defined.
