(* ===== verification/ApiKeys.v ===== *)
(** * Wallet challenges, API keys and access grants

    Models api/src/services/walletAuth.ts and accessGrants.ts, and the key
    routes of api/src/routes/keys.ts. The route that creates a key awaits
    several statements, so a request is a process that other requests may
    overtake between two of them. Decoding and checking a signed transaction is
    stellar-sdk's ([decode]); random bytes and ids are inputs. *)

From S2P Require Import Prelude JsText ApiSockets ApiEvents ApiStats ApiBoard ApiAccess.
Open Scope Z_scope.
Open Scope js_scope.

(** ** services/walletAuth.ts *)

Definition CHALLENGE_TTL_MS : Z := 5 * 60000.

(** [challenge] is the hex of the 32 random bytes. *)
Record PendingChallenge := { challenge : string; expiresAt : Z }.

Notation Pending := (gmap string PendingChallenge).

(** What [fromXDR] gives: a fee-bump envelope, or a transaction with the hex of
    its first operation's manageData value ([None] when the first operation is
    another or carries none) and, for each signature in turn, whether it
    verifies for an address, [None] where the check throws. [validKey] is
    whether the address parses as a public key. *)
Record SignedTx := {
  innerTransaction : bool; manageDataHex : option string; validKey : string -> bool;
  signatures : string -> list (option bool) }.

(** Entries past their expiry are dropped. *)
Definition gc (now : Z) (p : Pending) : Pending := filter (fun kv => now <= expiresAt kv.2) p.

Definition issueChallenge (address bytes : string) (now : Z) (p : Pending) : Pending :=
  <[address := {| challenge := bytes; expiresAt := now + CHALLENGE_TTL_MS |}]> (gc now p).

Definition signedBy (address : string) (tx : SignedTx) : bool :=
  validKey tx address
  && existsb (fun s => match s with Some b => b | None => false end) (signatures tx address).

Section wallet.
Context (decode : string -> option SignedTx).

Definition proves (address expected proof : string) : bool :=
  match decode proof with
  | None => false
  | Some tx =>
      negb (innerTransaction tx)
      && match manageDataHex tx with Some v => String.eqb v expected | None => false end
      && signedBy address tx
  end.

(** Consumes the challenge whatever the outcome. *)
Definition verify (address challengeHex proof : string) (now : Z) (p : Pending) : bool * Pending :=
  let p := gc now p in
  match p !! address with
  | None => (false, p)
  | Some pending =>
      let p := delete address p in
      if expiresAt pending <? now then (false, p)
      else if negb (String.eqb (challenge pending) challengeHex) then (false, p)
      else (proves address (challenge pending) proof, p)
  end.

(** ** services/accessGrants.ts *)

Inductive GrantStatus := pending_ | approved | rejected | revoked.
Inductive GrantAction := approve | reject | revokeGrant.

Record Grant := {
  email : option string; status : GrantStatus; source : string; wave : option string;
  segment : option string; notes : option string; decidedBy : option string;
  emailSent : bool }.

(** An audit row: actor, action, wallet. *)
Record AuditRow := { actor : string; action : string; au_wallet : option string }.

(** access_grants and access_audit_log, newest audit row first. *)
Record AccessDb := { grants : gmap string Grant; auditLog : list AuditRow }.

Definition emptyAccess : AccessDb := {| grants := ∅; auditLog := [] |}.

Definition setGrants (gs : gmap string Grant) (d : AccessDb) : AccessDb :=
  {| grants := gs; auditLog := auditLog d |}.

Definition addAudit (who act : string) (w : option string) (d : AccessDb) : AccessDb :=
  {| grants := grants d; auditLog := {| actor := who; action := act; au_wallet := w |} :: auditLog d |}.

Definition join (wallet : string) (mail seg : option string) (d : AccessDb) : GrantStatus * AccessDb :=
  match grants d !! wallet with
  | Some g => (status g, d)
  | None =>
      (pending_, setGrants (<[wallet := {| email := mail; status := pending_; source := "waitlist";
         wave := None; segment := seg; notes := None; decidedBy := None; emailSent := false |}]> (grants d)) d)
  end.

Inductive PublicStatus := sApproved | sPending | sNone.

(** [None] is a missing table. *)
Definition statusOf (table : option (gmap string Grant)) (wallet : string) : PublicStatus :=
  match table ≫= (fun gs => gs !! wallet) with
  | None => sNone
  | Some g => match status g with approved => sApproved | _ => sPending end
  end.

Definition isApproved (table : option (gmap string Grant)) (wallet : string) : bool :=
  match table ≫= (fun gs => gs !! wallet) with
  | Some g => match status g with approved => true | _ => false end
  | None => false
  end.

Definition statusAfter (a : GrantAction) : GrantStatus :=
  match a with approve => approved | reject => rejected | revokeGrant => revoked end.

Definition actionName (a : GrantAction) : string :=
  match a with approve => "approve" | reject => "reject" | revokeGrant => "revoke" end.

(** The upsert of an approval. *)
Definition approveRow (who : string) (w n : option string) (old : option Grant) : Grant :=
  match old with
  | None => {| email := None; status := approved; source := "admin"; wave := w; segment := None;
               notes := n; decidedBy := Some who; emailSent := false |}
  | Some g => {| email := email g; status := approved; source := source g; wave := orElse w (wave g);
                 segment := segment g; notes := orElse n (notes g); decidedBy := Some who;
                 emailSent := emailSent g |}
  end.

Definition decideRow (a : GrantAction) (who : string) (n : option string) (g : Grant) : Grant := {|
  email := email g; status := statusAfter a; source := source g; wave := wave g; segment := segment g;
  notes := orElse n (notes g); decidedBy := Some who; emailSent := emailSent g |}.

(** One wallet of the batch: whether its row changed, and the tables. *)
Definition decideOne (a : GrantAction) (who : string) (w n : option string) (wallet : string) (d : AccessDb)
  : bool * AccessDb :=
  match a, grants d !! wallet with
  | approve, old =>
      (true, addAudit who (actionName a) (Some wallet)
               (setGrants (<[wallet := approveRow who w n old]> (grants d)) d))
  | _, Some g =>
      (true, addAudit who (actionName a) (Some wallet)
               (setGrants (<[wallet := decideRow a who n g]> (grants d)) d))
  | _, None => (false, d)
  end.

Fixpoint decideEach (a : GrantAction) (who : string) (w n : option string) (wallets : list string)
    (d : AccessDb) : list string * AccessDb :=
  match wallets with
  | [] => ([], d)
  | x :: wallets =>
      let (changed, d) := decideOne a who w n x d in
      let (updated, d) := decideEach a who w n wallets d in
      (if changed then x :: updated else updated, d)
  end.

(** One transaction: [committed] is whether every statement and the commit
    succeed; otherwise all is rolled back and the error rethrown. *)
Definition decide_ (a : GrantAction) (who : string) (w n : option string) (wallets : list string)
    (committed : bool) (d : AccessDb) : Result (list string) * AccessDb :=
  let (updated, d') := decideEach a who w n wallets d in
  if committed then (Ok updated, d') else (Err "transaction failed", d).

Definition forgetRow (g : Grant) : Grant := {|
  email := None; status := status g; source := source g; wave := wave g; segment := segment g;
  notes := notes g; decidedBy := decidedBy g; emailSent := false |}.

Definition forget (wallet who : string) (committed : bool) (d : AccessDb) : Result bool * AccessDb :=
  if negb committed then (Err "transaction failed", d)
  else match grants d !! wallet with
       | None => (Ok false, d)
       | Some g => (Ok true, addAudit who "forget_email" (Some wallet)
                              (setGrants (<[wallet := forgetRow g]> (grants d)) d))
       end.

Definition sentRow (g : Grant) : Grant := {|
  email := email g; status := status g; source := source g; wave := wave g; segment := segment g;
  notes := notes g; decidedBy := decidedBy g; emailSent := true |}.

Definition markEmailSent (wallet : string) (d : AccessDb) : AccessDb :=
  setGrants (alter sentRow wallet (grants d)) d.

(** Rows per status. *)
Definition countOf (p : GrantStatus -> bool) (d : AccessDb) : Z :=
  Z.of_nat (size (filter (fun kv : string * Grant => p (status kv.2) = true) (grants d))).

(** ** routes/keys.ts *)

(** API_KEY_ALLOWLIST and ADMIN_WALLETS; [None] is an open gate. *)
Record KeyConfig := { allowlist : option (list string); adminWallets : list string; maxKeys : Z }.

Definition MAX_KEYS_PER_OWNER : Z := 5.
Definition SESSION_KEY_LABELS : list string := ["admin-panel"].

Definition loadAllowlist (raw : option string) : option (list string) :=
  match given (trim <$> raw) with
  | None => None
  | Some raw =>
      Some (bfilter (fun s => Nat.eqb (String.length s) 56 && startsWith "G" s) (trim <$> splitOn "," raw))
  end.

Definition member (x : string) (l : list string) : bool := existsb (String.eqb x) l.

Definition inBeta (cfg : KeyConfig) (table : option (gmap string Grant)) (address : string) : bool :=
  match allowlist cfg with
  | None => true
  | Some l => member address l || member address (adminWallets cfg) || isApproved table address
  end.

(** GET /v1/keys/beta-status *)
Definition betaStatus (cfg : KeyConfig) (table : option (gmap string Grant)) (address : option string)
  : bool * bool :=
  let gated := match allowlist cfg with None => false | Some _ => true end in
  (gated, negb gated || match given address with Some a => inBeta cfg table a | None => false end).

(** What a POST /v1/keys request does next. *)
Inductive Pc := AtGate | AtRetire | AtCount | AtIssue.

Record CreateKey := {
  c_address : string; c_challenge : string; c_signature : string; c_label : option string; pc : Pc }.

Definition goto (p : Pc) (c : CreateKey) : CreateKey := {|
  c_address := c_address c; c_challenge := c_challenge c; c_signature := c_signature c;
  c_label := c_label c; pc := p |}.

Record KeyServer := {
  pending : Pending; keys : KeyTable; access : AccessDb; inflight : list CreateKey }.

Definition freshServer : KeyServer := {|
  pending := ∅; keys := ∅; access := emptyAccess; inflight := [] |}.

Inductive KeyReply := Issued (keyId secret owner : string) | Failed (code : Z) (error : string).

Definition isSession (label : option string) : bool :=
  match label with Some l => member l SESSION_KEY_LABELS | None => false end.

Context (hashSecret : string -> string) (cfg : KeyConfig).

(** The request runs to its next statement, or ends with a reply: the gate's
    lookup and the verification, retiring session keys, the count, the insert.
    [id] and [secret] are the random texts of an insert. *)
Definition advance (c : CreateKey) (now : Z) (id secret : string) (s : KeyServer)
  : (CreateKey + KeyReply) * KeyServer :=
  match pc c with
  | AtGate =>
      if negb (inBeta cfg (Some (grants (access s))) (c_address c)) then (inr (Failed 403 "not_in_beta"), s)
      else
        let (good, p) := verify (c_address c) (c_challenge c) (c_signature c) now (pending s) in
        let s := {| pending := p; keys := keys s; access := access s; inflight := inflight s |} in
        if negb good then (inr (Failed 401 "invalid_signature"), s)
        else (inl (goto (if isSession (c_label c) then AtRetire else AtCount) c), s)
  | AtRetire =>
      (inl (goto AtCount c),
       {| pending := pending s;
          keys := revokeAllWithLabel (c_address c) (default EmptyString (c_label c)) now (keys s);
          access := access s; inflight := inflight s |})
  | AtCount =>
      if maxKeys cfg <=? countActiveForOwner (c_address c) (keys s)
      then (inr (Failed 409 "key_limit_reached"), s) else (inl (goto AtIssue c), s)
  | AtIssue =>
      match issue hashSecret id secret (c_address c) (c_label c) standard now (keys s) with
      | None => (inr (Failed 500 "duplicate key id"), s)
      | Some t =>
          (inr (Issued id secret (c_address c)),
           {| pending := pending s; keys := t; access := access s; inflight := inflight s |})
      end
  end.

(** What happens to the server: a challenge is asked for, a request arrives,
    the [i]-th running request goes on, a key is revoked by its owner, an admin
    decides. *)
Inductive KeyEvent :=
| AskChallenge (address bytes : string) (now : Z)
| Arrive (address challengeHex signature : string) (label : option string)
| Go (i : nat) (now : Z) (id secret : string)
| RevokeKey (id own : string) (now : Z)
| Decide (a : GrantAction) (who : string) (w n : option string) (wallets : list string).

Definition keyStep (e : KeyEvent) (s : KeyServer) : KeyServer * option KeyReply :=
  match e with
  | AskChallenge address bytes now =>
      ({| pending := issueChallenge address bytes now (pending s); keys := keys s; access := access s;
          inflight := inflight s |}, None)
  | Arrive address ch sig label =>
      ({| pending := pending s; keys := keys s; access := access s;
          inflight := inflight s ++ [{| c_address := address; c_challenge := ch; c_signature := sig;
                                        c_label := label; pc := AtGate |}] |}, None)
  | Go i now id secret =>
      match inflight s !! i with
      | None => (s, None)
      | Some c =>
          match advance c now id secret s with
          | (inl c', s') =>
              ({| pending := pending s'; keys := keys s'; access := access s';
                  inflight := <[i := c']> (inflight s') |}, None)
          | (inr reply, s') =>
              ({| pending := pending s'; keys := keys s'; access := access s';
                  inflight := take i (inflight s') ++ drop (S i) (inflight s') |}, Some reply)
          end
      end
  | RevokeKey id own now =>
      ({| pending := pending s; keys := (revoke id own now (keys s)).2; access := access s;
          inflight := inflight s |}, None)
  | Decide a who w n wallets =>
      ({| pending := pending s; keys := keys s; access := (decide_ a who w n wallets true (access s)).2;
          inflight := inflight s |}, None)
  end.

Definition keyRun (events : list KeyEvent) (s : KeyServer) : KeyServer :=
  foldl (fun s e => (keyStep e s).1) s events.
End wallet.

(** ** Approval follows the audit log *)

Inductive AccessOp :=
| OpJoin (wallet : string) (mail seg : option string)
| OpDecide (a : GrantAction) (who : string) (w n : option string) (wallets : list string) (committed : bool)
| OpForget (wallet who : string) (committed : bool)
| OpEmailSent (wallet : string)
| OpAudit (who act : string) (w : option string).

Definition accessStep (d : AccessDb) (o : AccessOp) : AccessDb :=
  match o with
  | OpJoin w m s => (join w m s d).2
  | OpDecide a who w n l good => (decide_ a who w n l good d).2
  | OpForget w who good => (forget w who good d).2
  | OpEmailSent w => markEmailSent w d
  | OpAudit who act w => addAudit who act w d
  end.

Definition isDecision (act : string) : bool := member act ["approve"; "reject"; "revoke"].

(** The last decision the log holds about a wallet. *)
Definition lastDecision (w : string) (log : list AuditRow) : option string :=
  action <$> List.find (fun r => isDecision (action r) && eqOpt String.eqb (au_wallet r) (Some w)) log.

(** Standalone audit rows record other actions (exports, emails). *)
Definition notDecision (o : AccessOp) : Prop :=
  match o with OpAudit _ act _ => isDecision act = false | _ => True end.

(** A grant's status is what the log last decided, or pending. *)
Definition Follows (d : AccessDb) : Prop :=
  forall w, match grants d !! w with
            | Some g => lastDecision w (auditLog d)
                        = match status g with
                          | pending_ => None | approved => Some "approve"
                          | rejected => Some "reject" | revoked => Some "revoke"
                          end
            | None => lastDecision w (auditLog d) = None
            end.

Lemma lastDecision_other who act w log x :
  isDecision act = false \/ w <> Some x ->
  lastDecision x ({| actor := who; action := act; au_wallet := w |} :: log) = lastDecision x log.
Proof.
  intros H. unfold lastDecision. simpl.
  assert (isDecision act && eqOpt String.eqb w (Some x) = false) as ->; [|done].
  destruct H as [->|H]; [done|]. apply andb_false_iff. right. destruct w as [w|]; [|done]. simpl.
  apply String.eqb_neq. congruence.
Qed.

Lemma lastDecision_here who a w log :
  lastDecision w ({| actor := who; action := actionName a; au_wallet := Some w |} :: log) = Some (actionName a).
Proof. unfold lastDecision. simpl. rewrite String.eqb_refl. by destruct a. Qed.

(** Replacing a grant by one of the same status changes nothing. *)
Lemma follows_status w g g' d :
  Follows d -> grants d !! w = Some g -> status g' = status g -> Follows (setGrants (<[w := g']> (grants d)) d).
Proof.
  intros H Hg Hs x. simpl. destruct (decide (w = x)) as [<-|Hne].
  - rewrite lookup_insert_eq, Hs. specialize (H w). by rewrite Hg in H.
  - rewrite lookup_insert_ne by done. apply H.
Qed.

Lemma follows_decision a who w g d :
  Follows d -> status g = statusAfter a ->
  Follows (addAudit who (actionName a) (Some w) (setGrants (<[w := g]> (grants d)) d)).
Proof.
  intros H Hs x. simpl. destruct (decide (w = x)) as [<-|Hne].
  - rewrite lookup_insert_eq, lastDecision_here, Hs. by destruct a.
  - rewrite lookup_insert_ne, lastDecision_other by (done || right; congruence). apply H.
Qed.

Lemma follows_decideOne a who w n x d : Follows d -> Follows (decideOne a who w n x d).2.
Proof.
  intros H. unfold decideOne. destruct a, (grants d !! x) as [g|] eqn:E; try done;
    cbn [snd]; apply (follows_decision _ _ _ _ _ H); done.
Qed.

Lemma follows_decideEach a who w n l d : Follows d -> Follows (decideEach a who w n l d).2.
Proof.
  revert d; induction l as [|x l IH]; intros d H; [done|]. cbn [decideEach].
  pose proof (follows_decideOne a who w n x d H) as H1.
  destruct (decideOne a who w n x d) as [changed d1]. specialize (IH d1 H1).
  by destruct (decideEach a who w n l d1).
Qed.

Lemma follows_step d o : Follows d -> notDecision o -> Follows (accessStep d o).
Proof.
  intros H Hn. destruct o as [w m s|a who w n l good|w who good|w|who act w]; cbn [accessStep].
  - unfold join. destruct (grants d !! w) as [g|] eqn:E; [done|]. intros x. simpl.
    destruct (decide (w = x)) as [<-|Hne].
    + rewrite lookup_insert_eq. simpl. specialize (H w). by rewrite E in H.
    + rewrite lookup_insert_ne by done. apply H.
  - unfold decide_. pose proof (follows_decideEach a who w n l d H) as H1.
    destruct (decideEach a who w n l d) as [updated d']. by destruct good.
  - unfold forget. destruct good; [|done]. simpl. destruct (grants d !! w) as [g|] eqn:E; [|done]. simpl.
    pose proof (follows_status w g (forgetRow g) d H E eq_refl) as H1. intros x. specialize (H1 x).
    simpl in *. by rewrite lastDecision_other by by left.
  - unfold markEmailSent. intros x. simpl. destruct (decide (w = x)) as [<-|Hne].
    + specialize (H w). rewrite lookup_alter_eq. by destruct (grants d !! w).
    + rewrite lookup_alter_ne by done. apply H.
  - intros x. simpl in *. rewrite lastDecision_other by by left. apply H.
Qed.

(** Whatever joins, batches of decisions (failed ones included), erasures,
    emails and audits come, a wallet passes the gate exactly when the last
    decision the audit log holds about it is an approval. *)
Theorem approval_follows_audit ops w :
  Forall notDecision ops ->
  let d := foldl accessStep emptyAccess ops in
  isApproved (Some (grants d)) w = true <-> lastDecision w (auditLog d) = Some "approve".
Proof.
  intros Hops d. assert (Follows d) as H.
  { unfold d. assert (Follows emptyAccess) as H0 by (intros x; simpl; by rewrite lookup_empty).
    revert H0. generalize emptyAccess. clear d. induction Hops as [|o ops Ho _ IH]; intros d0 H0; [done|].
    apply IH. by apply follows_step. }
  specialize (H w). unfold isApproved. cbn [mbind option_bind].
  destruct (grants d !! w) as [g|]; [|by rewrite H]. rewrite H. destruct (status g); done.
Qed.

Lemma approval_follows_audit_witness :
  let ops := [OpJoin "GA" (Some "a@x.io") None; OpDecide approve "admin" (Some "w1") None ["GA"; "GB"] true;
              OpAudit "admin" "export" None; OpDecide revokeGrant "admin" None None ["GB"; "GC"] true;
              OpDecide revokeGrant "admin" None None ["GA"] false; OpForget "GA" "admin" true] in
  let d := foldl accessStep emptyAccess ops in
  (isApproved (Some (grants d)) "GA", isApproved (Some (grants d)) "GB") = (true, false)
  /\ (isApproved (Some (grants d)) "GA" = true <-> lastDecision "GA" (auditLog d) = Some "approve").
Proof.
  intros ops d. split; [vm_compute; reflexivity|].
  apply (approval_follows_audit ops "GA"). repeat (constructor; [vm_compute; done|]). constructor.
Defined.

(** ** Keys are issued to signers *)

Definition ownedBy (a : string) (t : KeyTable) : nat :=
  size (filter (fun kv : string * ApiKeyRow => k_owner kv.2 = a) t).

(** Requests of [a] whose challenge has been consumed. *)
Definition pastGate (a : string) (c : CreateKey) : bool :=
  String.eqb (c_address c) a && match pc c with AtGate => false | _ => true end.

Definition heldChallenge (a : string) (p : Pending) : nat :=
  match p !! a with Some _ => 1%nat | None => 0%nat end.

Definition asksFor (a : string) (e : KeyEvent) : bool :=
  match e with AskChallenge address _ _ => String.eqb address a | _ => false end.

Lemma ownedBy_insert_fresh a id row t :
  t !! id = None -> ownedBy a (<[id := row]> t) = (ownedBy a t + if String.eqb (k_owner row) a then 1 else 0)%nat.
Proof.
  intros H. unfold ownedBy. destruct (String.eqb_spec (k_owner row) a) as [Ha|Ha].
  - rewrite map_filter_insert_True, map_size_insert_None; [lia| |done].
    apply map_lookup_filter_None. by left.
  - rewrite map_filter_insert_False, delete_id by done. lia.
Qed.

Lemma ownedBy_same a (t t' : KeyTable) :
  (forall id, k_owner <$> t' !! id = k_owner <$> t !! id) -> ownedBy a t' = ownedBy a t.
Proof.
  intros H. unfold ownedBy. rewrite <- !size_dom. f_equal. apply set_eq. intros id.
  rewrite !elem_of_dom. specialize (H id).
  split; intros [row Hr]; apply map_lookup_filter_Some in Hr as [Hr Ho]; rewrite Hr in H.
  - destruct (t !! id) as [r|] eqn:E; [|done]. exists r. apply map_lookup_filter_Some.
    split; [done|]. simpl in *. congruence.
  - destruct (t' !! id) as [r|] eqn:E; [|done]. exists r. apply map_lookup_filter_Some.
    split; [done|]. simpl in *. congruence.
Qed.

Lemma owners_revokeAll own label now t id :
  k_owner <$> revokeAllWithLabel own label now t !! id = k_owner <$> t !! id.
Proof.
  unfold revokeAllWithLabel. rewrite lookup_fmap. destruct (t !! id) as [r|]; [|done]. simpl.
  by destruct (labelled own label r).
Qed.

Lemma owners_revoke key own now t id : k_owner <$> (revoke key own now t).2 !! id = k_owner <$> t !! id.
Proof.
  unfold revoke. destruct (t !! key) as [r|] eqn:E; [|done]. destruct (activeOf own r); [|done]. simpl.
  destruct (decide (key = id)) as [<-|Hne]; [by rewrite lookup_insert_eq, E|by rewrite lookup_insert_ne].
Qed.

Lemma held_gc a now p : (heldChallenge a (gc now p) <= heldChallenge a p)%nat.
Proof.
  unfold heldChallenge, gc. destruct (filter _ p !! a) as [x|] eqn:E; [|destruct (p !! a); lia].
  apply map_lookup_filter_Some in E as [-> _]. lia.
Qed.

(** Splitting a list around one position. *)
Lemma length_bfilter_at {A} (f : A -> bool) (l : list A) i x :
  l !! i = Some x ->
  length (bfilter f l) = (length (bfilter f (take i l)) + (if f x then 1 else 0)
                          + length (bfilter f (drop (S i) l)))%nat.
Proof.
  intros H. rewrite <- (take_drop_middle l i x H) at 1. rewrite bfilter_app, length_app. simpl.
  destruct (f x); simpl; lia.
Qed.

Lemma elem_of_replaced {A} (l : list A) i y x : x ∈ <[i := y]> l -> x = y \/ x ∈ l.
Proof.
  intros [j Hj]%list_elem_of_lookup. apply list_lookup_insert_Some in Hj as [(_ & -> & _)|[_ Hj]];
    [by left|]. right. by eapply list_elem_of_lookup_2.
Qed.

Lemma elem_of_without {A} (l : list A) i x : x ∈ take i l ++ drop (S i) l -> x ∈ l.
Proof.
  rewrite elem_of_app. intros [H|H]; [rewrite <- (take_drop i l)|rewrite <- (take_drop (S i) l)];
    apply elem_of_app; auto.
Qed.

Section issuance.
Context (decode : string -> option SignedTx) (hashSecret : string -> string) (cfg : KeyConfig).

(** The proof is a plain transaction whose first operation carries the
    challenge, and one of its signatures is the address's. *)
Definition signsChallenge (address ch proof : string) : Prop :=
  exists tx, decode proof = Some tx /\ innerTransaction tx = false /\ manageDataHex tx = Some ch
             /\ validKey tx address = true /\ Some true ∈ signatures tx address.

Lemma proves_signs address ch proof : proves decode address ch proof = true <-> signsChallenge address ch proof.
Proof.
  unfold proves, signsChallenge, signedBy. split.
  - destruct (decode proof) as [tx|]; [|done]. intros [[Hi%negb_true_iff Hm]%andb_true_iff [Hv Hs]%andb_true_iff]%andb_true_iff.
    exists tx. destruct (manageDataHex tx) as [v|]; [|done]. apply String.eqb_eq in Hm as ->.
    apply existsb_exists in Hs as ([[]|] & Hin & Hb); [|done..]. by apply list_elem_of_In in Hin.
  - intros (tx & -> & -> & -> & -> & Hs). rewrite String.eqb_refl. cbn. apply existsb_exists. exists (Some true).
    split; [by apply list_elem_of_In|done].
Qed.

(** The bound on what an owner holds, and where the requests past the gate
    come from. *)
Record KeyInv (events : list KeyEvent) (s : KeyServer) : Prop := {
  ki_count : forall a, (ownedBy a (keys s) + length (bfilter (pastGate a) (inflight s))
    + heldChallenge a (pending s) <= length (bfilter (asksFor a) events))%nat;
  ki_pending : forall a c, pending s !! a = Some c ->
    exists now, AskChallenge a (challenge c) now ∈ events;
  ki_past : forall c, c ∈ inflight s -> pc c <> AtGate ->
    proves decode (c_address c) (c_challenge c) (c_signature c) = true
    /\ exists now, AskChallenge (c_address c) (c_challenge c) now ∈ events }.

Lemma ki_past_more events e s c :
  KeyInv events s -> c ∈ inflight s -> pc c <> AtGate ->
  proves decode (c_address c) (c_challenge c) (c_signature c) = true
  /\ exists now, AskChallenge (c_address c) (c_challenge c) now ∈ events ++ [e].
Proof.
  intros HI Hc Hp. destruct (ki_past events s HI c Hc Hp) as [H1 [t H2]]. split; [done|].
  exists t. apply elem_of_app. by left.
Qed.

Lemma ki_pending_more events e s a c :
  KeyInv events s -> pending s !! a = Some c -> exists now, AskChallenge a (challenge c) now ∈ events ++ [e].
Proof.
  intros HI H. destruct (ki_pending events s HI a c H) as [t Ht]. exists t. apply elem_of_app. by left.
Qed.

Lemma asks_more a events e :
  length (bfilter (asksFor a) (events ++ [e]))
  = (length (bfilter (asksFor a) events) + if asksFor a e then 1 else 0)%nat.
Proof. rewrite bfilter_app, length_app. simpl. by destruct (asksFor a e). Qed.

(** A successful verification consumes the challenge that was asked for. *)
Lemma verify_consumes address ch proof now p good p' :
  verify decode address ch proof now p = (good, p') ->
  (forall a, (heldChallenge a p' + (if good && String.eqb address a then 1 else 0) <= heldChallenge a p)%nat)
  /\ (forall a c, p' !! a = Some c -> p !! a = Some c)
  /\ (good = true -> proves decode address ch proof = true
      /\ exists c, p !! address = Some c /\ challenge c = ch).
Proof.
  unfold verify. intros H.
  assert (forall a c, gc now p !! a = Some c -> p !! a = Some c) as Hsub
    by (intros a c Hc; by apply map_lookup_filter_Some in Hc as [Hc _]).
  destruct (gc now p !! address) as [c|] eqn:E.
  2: { injection H as <- <-. split; [intros a; simpl; pose proof (held_gc a now p); lia|]. by split. }
  assert (forall a, (heldChallenge a (delete address (gc now p))
    + (if String.eqb address a then 1 else 0) <= heldChallenge a p)%nat) as Hheld.
  { intros a. unfold heldChallenge at 1. destruct (String.eqb_spec address a) as [<-|Hne].
    - rewrite lookup_delete_eq. unfold heldChallenge. rewrite (Hsub address c E). lia.
    - rewrite lookup_delete_ne by done. pose proof (held_gc a now p) as Hg. unfold heldChallenge in Hg at 1. lia. }
  assert (forall a c', delete address (gc now p) !! a = Some c' -> p !! a = Some c') as Hsub'.
  { intros a c'. rewrite lookup_delete_Some. intros [_ ?]. by apply Hsub. }
  destruct (expiresAt c <? now); [injection H as <- <-|destruct (String.eqb_spec (challenge c) ch) as [<-|];
    cbn [negb] in H; injection H as <- <-].
  - split; [intros a; specialize (Hheld a); simpl; lia|]. by split.
  - split; [intros a; specialize (Hheld a); destruct (proves _ _ _ _); simpl; lia|].
    split; [done|]. intros Hp. split; [done|]. exists c. split; [by apply Hsub|done].
  - split; [intros a; specialize (Hheld a); simpl; lia|]. by split.
Qed.

(** What one step of a request does to the invariant's terms. *)
Lemma advance_inv events s c now id secret r s' :
  KeyInv events s -> c ∈ inflight s -> advance decode hashSecret cfg c now id secret s = (r, s') ->
  inflight s' = inflight s
  /\ (forall a, (ownedBy a (keys s') + heldChallenge a (pending s')
       + match r with inl c' => if pastGate a c' then 1 else 0 | inr _ => 0 end
       <= ownedBy a (keys s) + heldChallenge a (pending s) + if pastGate a c then 1 else 0)%nat)
  /\ (forall a x, pending s' !! a = Some x -> pending s !! a = Some x)
  /\ match r with
     | inl c' => pc c' <> AtGate -> proves decode (c_address c') (c_challenge c') (c_signature c') = true
                 /\ exists t, AskChallenge (c_address c') (c_challenge c') t ∈ events
     | inr (Issued _ _ own) => exists ch proof t, AskChallenge own ch t ∈ events
                                 /\ proves decode own ch proof = true
     | inr (Failed _ _) => True
     end.
Proof.
  intros HI Hc H. unfold advance in H. destruct (pc c) eqn:Epc.
  - destruct (negb (inBeta _ _ _)).
    { injection H as <- <-. split; [done|]. split; [intros a; lia|]. by split. }
    destruct (verify decode (c_address c) (c_challenge c) (c_signature c) now (pending s)) as [good p] eqn:Ev.
    destruct (verify_consumes _ _ _ _ _ _ _ Ev) as (Hheld & Hsub & Hgood).
    destruct good; cbn [negb] in H; injection H as <- <-; cbn [pending keys inflight].
    + split; [done|]. split; [|split; [done|]].
      * intros a. specialize (Hheld a). simpl in Hheld. unfold pastGate. rewrite Epc. simpl.
        rewrite andb_false_r. destruct (isSession (c_label c)); simpl; rewrite andb_true_r;
          destruct (String.eqb (c_address c) a); lia.
      * intros _. destruct (Hgood eq_refl) as (Hp & x & Hx & Hch). cbn [goto c_address c_challenge c_signature].
        split; [done|]. rewrite <- Hch. destruct (ki_pending events s HI _ _ Hx) as [t Ht]. by exists t.
    + split; [done|]. split; [|by split]. intros a. specialize (Hheld a). simpl in Hheld. lia.
  - injection H as <- <-. cbn [pending keys inflight]. split; [done|]. split; [|split; [done|]].
    + intros a. rewrite (ownedBy_same a (keys s)) by (intros; apply owners_revokeAll).
      unfold pastGate. rewrite Epc. simpl. lia.
    + intros _. apply (ki_past events s HI c Hc). by rewrite Epc.
  - destruct (maxKeys cfg <=? _); injection H as <- <-; cbn [pending keys inflight].
    + split; [done|]. split; [intros a; lia|]. by split.
    + split; [done|]. split; [intros a; unfold pastGate; rewrite Epc; simpl; lia|]. split; [done|].
      intros _. apply (ki_past events s HI c Hc). by rewrite Epc.
  - unfold issue in H. destruct (keys s !! id) as [row|] eqn:Ek; injection H as <- <-; cbn [pending keys inflight].
    + split; [done|]. split; [intros a; lia|]. by split.
    + split; [done|]. split; [|split; [done|]].
      * intros a. rewrite ownedBy_insert_fresh by done. cbn [k_owner]. unfold pastGate. rewrite Epc, andb_true_r.
        destruct (String.eqb (c_address c) a); lia.
      * destruct (ki_past events s HI c Hc ltac:(by rewrite Epc)) as [Hp [t Ht]].
        exists (c_challenge c), (c_signature c), t. by split.
Qed.

Lemma inv_step events e s :
  KeyInv events s -> KeyInv (events ++ [e]) (keyStep decode hashSecret cfg e s).1.
Proof.
  intros HI. destruct e as [address bytes now|address ch sig label|i now id secret|id own now|a who w n l];
    cbn [keyStep].
  - split; cbn [fst pending keys inflight].
    + intros a. rewrite asks_more. pose proof (ki_count events s HI a) as Hc. simpl.
      pose proof (held_gc a now (pending s)) as Hg. unfold issueChallenge, heldChallenge at 1.
      destruct (String.eqb_spec address a) as [<-|Hne].
      * rewrite lookup_insert_eq. lia.
      * rewrite lookup_insert_ne by done. unfold heldChallenge in Hg at 1. lia.
    + intros a c. unfold issueChallenge. destruct (decide (address = a)) as [<-|Hne].
      * rewrite lookup_insert_eq. intros [= <-]. exists now. apply elem_of_app. right. by left.
      * rewrite lookup_insert_ne by done. intros Hc. apply map_lookup_filter_Some in Hc as [Hc _].
        by eapply ki_pending_more.
    + intros c Hc Hp. by eapply ki_past_more.
  - split; cbn [fst pending keys inflight].
    + intros a. rewrite asks_more, bfilter_app, length_app. simpl. unfold pastGate at 2. simpl.
      rewrite andb_false_r. simpl. pose proof (ki_count events s HI a). lia.
    + intros a c Hp. by eapply ki_pending_more.
    + intros c [Hc|Hc]%elem_of_app; [by apply (ki_past_more events _ s)|].
      apply list_elem_of_singleton in Hc as ->. done.
  - destruct (inflight s !! i) as [c|] eqn:Ei.
    2: { split; [intros a; rewrite asks_more; simpl; pose proof (ki_count events s HI a); lia
               |intros a c Hp; by eapply ki_pending_more|intros c Hc Hp; by eapply ki_past_more]. }
    pose proof (list_elem_of_lookup_2 _ _ _ Ei) as Hc.
    destruct (advance decode hashSecret cfg c now id secret s) as [r s'] eqn:Ea.
    destruct (advance_inv events s c now id secret r s' HI Hc Ea) as (Hin & Hcnt & Hsub & Hr).
    assert (forall a, (ownedBy a (keys s) + (length (bfilter (pastGate a) (take i (inflight s)))
      + (if pastGate a c then 1 else 0) + length (bfilter (pastGate a) (drop (S i) (inflight s))))
      + heldChallenge a (pending s) <= length (bfilter (asksFor a) events))%nat) as Htot.
    { intros a. rewrite <- (length_bfilter_at (pastGate a) _ _ _ Ei). apply (ki_count events s HI). }
    destruct r as [c'|reply]; split; cbn [fst pending keys inflight]; rewrite ?Hin.
    + intros a. rewrite asks_more. simpl. specialize (Hcnt a). specialize (Htot a). simpl in Hcnt.
      rewrite (length_bfilter_at (pastGate a) (<[i := c']> (inflight s)) i c')
        by (apply list_lookup_insert_eq; by eapply lookup_lt_Some).
      rewrite take_insert_ge, drop_insert_lt by lia. lia.
    + intros a x Hx. apply Hsub in Hx. by eapply ki_pending_more.
    + intros x Hx Hp. apply elem_of_replaced in Hx as [->|Hx]; [|by eapply ki_past_more].
      destruct (Hr Hp) as [H1 [t H2]]. split; [done|]. exists t. apply elem_of_app. by left.
    + intros a. rewrite asks_more. simpl. specialize (Hcnt a). specialize (Htot a).
      rewrite bfilter_app, length_app. simpl in Hcnt. lia.
    + intros a x Hx. apply Hsub in Hx. by eapply ki_pending_more.
    + intros x Hx. apply (ki_past_more events _ s); [done|]. by eapply elem_of_without.
  - split; cbn [fst pending keys inflight].
    + intros a. rewrite asks_more, (ownedBy_same a (keys s)) by (intros; apply owners_revoke). simpl.
      pose proof (ki_count events s HI a). lia.
    + intros a c Hp. by eapply ki_pending_more.
    + intros c Hc Hp. by eapply ki_past_more.
  - split; cbn [fst pending keys inflight].
    + intros x. rewrite asks_more. simpl. pose proof (ki_count events s HI x). lia.
    + intros x c. by apply ki_pending_more.
    + intros c Hc Hp. by eapply ki_past_more.
Qed.

Lemma run_inv events : KeyInv events (keyRun decode hashSecret cfg events freshServer).
Proof.
  induction events as [|e events IH] using rev_ind.
  - split; simpl; [|intros a c H; by rewrite lookup_empty in H|by intros c ?%elem_of_nil].
    intros a. unfold ownedBy, heldChallenge. by rewrite map_filter_empty, map_size_empty, lookup_empty.
  - unfold keyRun in *. rewrite foldl_app. by apply inv_step.
Qed.

(** C19. Whatever challenges are asked for and however the requests interleave, a
    key is issued only to an address for which a challenge was asked and a
    proof was presented that decodes to a plain transaction, no fee bump, whose
    first operation carries that very challenge and one of whose signatures
    verifies for the address; and an address never holds more keys than it asked challenges:
    no signed challenge yields two. *)
Theorem keys_need_signed_challenges events i now id secret s' kid ksecret own :
  let s := keyRun decode hashSecret cfg events freshServer in
  keyStep decode hashSecret cfg (Go i now id secret) s = (s', Some (Issued kid ksecret own)) ->
  (exists ch proof t, AskChallenge own ch t ∈ events /\ signsChallenge own ch proof)
  /\ forall a, (ownedBy a (keys s') <= length (bfilter (asksFor a) events))%nat.
Proof.
  intros s H. pose proof (run_inv events) as HI. fold s in HI. split.
  - cbn [keyStep] in H. destruct (inflight s !! i) as [c|] eqn:Ei; [|done].
    destruct (advance decode hashSecret cfg c now id secret s) as [r s1] eqn:Ea.
    destruct (advance_inv events s c now id secret r s1 HI (list_elem_of_lookup_2 _ _ _ Ei) Ea)
      as (_ & _ & _ & Hr).
    destruct r as [c'|reply]; [done|]. injection H as _ ->. by setoid_rewrite <- proves_signs.
  - intros a. pose proof (inv_step events (Go i now id secret) s HI) as HI'. rewrite H in HI'.
    pose proof (ki_count _ _ HI' a) as Hc. rewrite asks_more in Hc. simpl in Hc. lia.
Qed.
End issuance.

(** ** The cap on keys *)

(** A wallet whose proofs are the text of their challenge. *)
Definition plainDecode (proof : string) : option SignedTx :=
  Some {| innerTransaction := false; manageDataHex := Some proof; validKey := fun _ => true;
          signatures := fun a => [None; Some (String.eqb a "GA")] |}.

Definition oneKey : KeyConfig := {| allowlist := None; adminWallets := []; maxKeys := 1 |}.

Definition firstKey : list KeyEvent :=
  [AskChallenge "GA" "c1" 0; Arrive "GA" "c1" "c1" None; Go 0 5 "-" "-"; Go 0 6 "-" "-"].

Lemma keys_need_signed_challenges_witness :
  (keyStep plainDecode digest oneKey (Go 0 7 "nk_1" "s")
     (keyRun plainDecode digest oneKey firstKey freshServer)).2 = Some (Issued "nk_1" "s" "GA")
  /\ exists ch proof t, AskChallenge "GA" ch t ∈ firstKey /\ signsChallenge plainDecode "GA" ch proof.
Proof.
  split; [vm_compute; reflexivity|].
  eapply (keys_need_signed_challenges plainDecode digest oneKey firstKey 0 7 "nk_1" "s").
  vm_compute. reflexivity.
Defined.

(** The count and the insert are two statements: two requests of one wallet,
    each with its own challenge, both pass the count of a wallet that may hold
    one key, and both are issued. *)
Example cap_overrun :
  let s := keyRun plainDecode digest oneKey
    [AskChallenge "GA" "c1" 0; Arrive "GA" "c1" "c1" None; Go 0 5 "-" "-";
     AskChallenge "GA" "c2" 6; Arrive "GA" "c2" "c2" None; Go 1 7 "-" "-";
     Go 0 8 "-" "-"; Go 1 9 "-" "-"; Go 0 10 "nk_1" "s1"; Go 0 11 "nk_2" "s2"] freshServer in
  countActiveForOwner "GA" (keys s) = 2.
Proof. vm_compute. reflexivity. Qed.
