(* ===== verification/ApiLive.v ===== *)
(** * Live data to the socket bus

    Models api/src/services/liveTailer.ts, wsBus.ts and oracleTicker.ts. A tick
    of the tailer is a query and, when its answer arrives, the loop over the
    rows; the timer may start the next tick in between, so the two are steps of
    their own. Timers and logs are left out. *)

From S2P Require Import Prelude JsText IndexerEvents IndexerDb ApiSockets ApiEvents ApiStats.
Open Scope Z_scope.
Open Scope js_scope.

(** ** services/wsBus.ts: the payloads *)

Inductive TradePayloadKind := tOpen | tClose | tLiquidation.

(** [raw] is the parsed payload. *)
Record EventPayload := {
  ep_topic : string; ep_ledger : Z; ep_ledgerCloseTs : Z; ep_txHash : string;
  ep_trader : option string; ep_raw : EventBody string }.

Record TradePayload := {
  tp_kind : TradePayloadKind; tp_asset : string; tp_positionId : Z; tp_trader : string;
  tp_price : string; tp_pnl : option string; tp_ledger : Z; tp_ts : Z; tp_txHash : string }.

Record TickerPayload := {
  tk_asset : string; tk_price : string; tk_priceFloat : number; tk_timestamp : Z; tk_ts : Z }.

Inductive Payload :=
| PEvent (e : EventPayload) | PTrade (t : TradePayload) | PTicker (t : TickerPayload)
| PAccount (e : EventPayload) (owner : string).

(** One [bus.emit]: channel and payload. *)
Definition Emission : Type := string * Payload.

(** [EventEmitter] listeners: those of a channel, then those of every channel. *)
Inductive Delivery := ToChannel (handler : nat) (p : Payload) | ToAny (handler : nat) (channel : string) (p : Payload).

Record WsBus := { handlers : list (string * nat); anyHandlers : list nat }.

Definition emit (b : WsBus) (e : Emission) : list Delivery :=
  ((fun ch => ToChannel ch.2 e.2) <$> bfilter (fun ch : string * nat => String.eqb ch.1 e.1) (handlers b))
  ++ ((fun h => ToAny h e.1 e.2) <$> anyHandlers b).

(** ** services/liveTailer.ts *)

Definition POSITION_TOPICS : list string := ["position_opened"; "position_closed"; "position_liquidated"].

Definition KIND_FOR_TOPIC (t : string) : TradePayloadKind :=
  if String.eqb t "position_opened" then tOpen
  else if String.eqb t "position_closed" then tClose else tLiquidation.

(** A row with its inserted_at; [parses] is whether payload_json is JSON. *)
Record LiveRow := { insertedAt : Z; parses : bool; liveRow : EventRow }.

(** [raw.trader] where it is a string: market events and the vault's
    payout_shortfall and shortfall_repaid have the field. *)
Definition rawTrader (b : EventBody string) : option string :=
  match b with
  | LpVaultEvent l =>
      match List.find (fun kv : string * Native => String.eqb kv.1 "trader") (lp_fields l) with
      | Some (_, NStr s) => Some s
      | _ => None
      end
  | _ => traderCol b
  end.

(** What one row puts on the bus. *)
Definition emissionsOf (r : LiveRow) : list Emission :=
  if negb (parses r) then []
  else
    let b := payload (liveRow r) in
    let t := topic (liveRow r) in
    let e := {| ep_topic := t; ep_ledger := ledgerOf (liveRow r); ep_ledgerCloseTs := closeTs (liveRow r);
                ep_txHash := row_tx_hash (liveRow r).2; ep_trader := rawTrader b; ep_raw := b |} in
    [("events", PEvent e)]
    ++ match rawTrader b with
       | None => []
       | Some trader =>
           if String.eqb trader EmptyString then [] else
           (if existsb (String.eqb t) POSITION_TOPICS then
              let asset := default "UNKNOWN" (assetCol b) in
              [("trades." +:+ asset,
                PTrade {| tp_kind := KIND_FOR_TOPIC t; tp_asset := asset;
                          tp_positionId := default 0 (positionIdCol b); tp_trader := trader;
                          tp_price := default "0" (orElse (closePriceCol b) (entryPriceCol b));
                          tp_pnl := pnlCol b; tp_ledger := ledgerOf (liveRow r);
                          tp_ts := closeTs (liveRow r) * 1000; tp_txHash := row_tx_hash (liveRow r).2 |})]
            else [])
           ++ [("account.events." +:+ trader, PAccount e trader)]
       end.

(** [tables] are the visible rows; [queried] the answers not yet processed. *)
Record Tailer := { cursorInsertedAt : Z; stopped : bool; queried : list (list LiveRow) }.

Definition TAIL_LIMIT : nat := 200.

Definition earlier (a b : LiveRow) : Prop := insertedAt a <= insertedAt b.

#[export] Instance earlier_dec : RelDecision earlier.
Proof. intros a b. unfold earlier. apply _. Defined.

(** [WHERE inserted_at > ? ORDER BY inserted_at ASC LIMIT 200] *)
Definition newRows (cursor : Z) (visible : list LiveRow) : list LiveRow :=
  take TAIL_LIMIT (merge_sort earlier (bfilter (fun r => cursor <? insertedAt r) visible)).

(** A tick begins: [None] is a query that fails or finds no table. *)
Definition tickQuery (visible : option (list LiveRow)) (s : Tailer) : Tailer :=
  if stopped s then s
  else match visible with
       | None => s
       | Some rows => {| cursorInsertedAt := cursorInsertedAt s; stopped := false;
                         queried := queried s ++ [newRows (cursorInsertedAt s) rows] |}
       end.

Definition advanceCursor (cursor : Z) (rows : list LiveRow) : Z :=
  foldl (fun c r => if c <? insertedAt r then insertedAt r else c) cursor rows.

(** The oldest answer arrives and its rows are processed in one go. *)
Definition tickRows (s : Tailer) : Tailer * list LiveRow :=
  match queried s with
  | [] => (s, [])
  | rows :: rest =>
      ({| cursorInsertedAt := advanceCursor (cursorInsertedAt s) rows; stopped := stopped s;
          queried := rest |}, rows)
  end.

Definition emissions (rows : list LiveRow) : list Emission := flat_map emissionsOf rows.

(** ** services/oracleTicker.ts *)

Record OracleSnapshot := { price : Z; priceFloat : number; timestamp : Z }.

Record Ticker := { lastPrice : gmap string string }.

(** One tick: [getPrice] answers or fails for each asset; [ts] is the clock
    when it does. *)
Fixpoint tickerTick (assets : list string) (getPrice : string -> option OracleSnapshot)
    (ts : string -> Z) (s : Ticker) : Ticker * list Emission :=
  match assets with
  | [] => (s, [])
  | a :: assets =>
      match getPrice a with
      | None => tickerTick assets getPrice ts s
      | Some snap =>
          let (s', out) := tickerTick assets getPrice ts
                             {| lastPrice := <[a := decimalOfZ (price snap)]> (lastPrice s) |} in
          (s', ("ticker." +:+ a,
                PTicker {| tk_asset := a; tk_price := decimalOfZ (price snap);
                           tk_priceFloat := priceFloat snap; tk_timestamp := timestamp snap;
                           tk_ts := ts a |}) :: out)
      end
  end.

(** ** The tailer delivers every row once *)

(** Rows become visible, a tick runs from query to end before the next starts,
    or a tick's query fails. *)
Inductive LiveEvent := Visible (r : LiveRow) | Tick | FailedTick.

Record Live := { visible : list LiveRow; tailer : Tailer; processed : list LiveRow }.

Definition liveStep (s : Live) (e : LiveEvent) : Live :=
  match e with
  | Visible r => {| visible := visible s ++ [r]; tailer := tailer s; processed := processed s |}
  | Tick =>
      let (t, rows) := tickRows (tickQuery (Some (visible s)) (tailer s)) in
      {| visible := visible s; tailer := t; processed := processed s ++ rows |}
  | FailedTick =>
      let (t, rows) := tickRows (tickQuery None (tailer s)) in
      {| visible := visible s; tailer := t; processed := processed s ++ rows |}
  end.

Definition freshLive (cursor : Z) : Live := {|
  visible := []; tailer := {| cursorInsertedAt := cursor; stopped := false; queried := [] |};
  processed := [] |}.

Definition liveRun (cursor : Z) (events : list LiveEvent) : Live := foldl liveStep (freshLive cursor) events.

Definition rowsOf (events : list LiveEvent) : list LiveRow :=
  omap (fun e => match e with Visible r => Some r | _ => None end) events.
Definition ticksOf (events : list LiveEvent) : nat :=
  length (bfilter (fun e => match e with Tick => true | _ => false end) events).

(** Each row is stamped later than the cursor's start and all rows before. *)
Definition stamped (cursor : Z) (rows : list LiveRow) : Prop :=
  StronglySorted (fun a b => insertedAt a < insertedAt b) rows
  /\ Forall (fun r => cursor < insertedAt r) rows.

Lemma newRows_filter cursor visible :
  stamped cursor visible -> newRows cursor visible = take TAIL_LIMIT visible.
Proof.
  intros [Hs Hc]. unfold newRows.
  assert (bfilter (fun r => cursor <? insertedAt r) visible = visible) as ->.
  { rewrite (bfilter_ext _ (fun _ => true)); [by apply bfilter_true|]. intros r Hr.
    apply Z.ltb_lt. rewrite Forall_forall in Hc. by apply Hc. }
  f_equal. apply (StronglySorted_unique_strong earlier).
  - intros a b Ha Hb Hab Hba. rewrite merge_sort_Permutation in Ha. unfold earlier in *.
    assert (insertedAt a = insertedAt b) as Heq by lia. clear -Hs Ha Hb Heq.
    induction Hs as [|x l Hl IH Hx]; [by apply elem_of_nil in Ha|].
    rewrite List.Forall_forall in Hx. apply elem_of_cons in Ha as [->|Ha], Hb as [->|Hb]; try done.
    + apply list_elem_of_In in Hb. specialize (Hx b Hb). simpl in Hx. lia.
    + apply list_elem_of_In in Ha. specialize (Hx a Ha). simpl in Hx. lia.
    + by apply IH.
  - apply StronglySorted_merge_sort; [intros a b c; unfold earlier; lia|intros a b; unfold earlier; lia].
  - clear -Hs. induction Hs as [|x l Hl IH Hx]; [constructor|]. constructor; [done|].
    apply List.Forall_forall. rewrite List.Forall_forall in Hx. intros y Hy. specialize (Hx y Hy).
    unfold earlier. simpl in Hx. lia.
  - apply merge_sort_Permutation.
Qed.

Lemma stamped_app c a b :
  stamped c (a ++ b) ->
  stamped (advanceCursor c a) b /\ Forall (fun r => insertedAt r <= advanceCursor c a) a
  /\ c <= advanceCursor c a.
Proof.
  revert c; induction a as [|x a IH]; intros c [Hs Hc]; simpl in *; [split_and!; [done|constructor|lia]|].
  apply Forall_cons in Hc as [Hx Hc]. apply StronglySorted_inv in Hs as [Hs Hall].
  assert ((c <? insertedAt x) = true) as Hlt by lia. unfold advanceCursor in *. cbn [foldl]. rewrite Hlt.
  destruct (IH (insertedAt x)) as (H1 & H2 & H3).
  { split; [done|]. rewrite Forall_forall. rewrite List.Forall_forall in Hall. intros r Hr.
    apply Hall. by apply list_elem_of_In. }
  split_and!; [done| |lia]. constructor; [lia|done].
Qed.

Lemma newRows_split c done_ rest :
  Forall (fun r => insertedAt r <= c) done_ -> stamped c rest ->
  newRows c (done_ ++ rest) = take TAIL_LIMIT rest.
Proof.
  intros Hd Hr. rewrite <- (newRows_filter c rest Hr). unfold newRows. do 2 f_equal.
  rewrite bfilter_app. assert (bfilter (fun r => c <? insertedAt r) done_ = []) as ->; [|done].
  clear -Hd. induction Hd as [|r l Hr _ IH]; [done|]. simpl.
  by assert ((c <? insertedAt r) = false) as -> by lia.
Qed.

(** A service between two ticks that has processed the visible rows [done_]. *)
Definition between (done_ rest : list LiveRow) (c : Z) : Live := {|
  visible := done_ ++ rest; tailer := {| cursorInsertedAt := c; stopped := false; queried := [] |};
  processed := done_ |}.

Lemma tick_between done_ rest c :
  Forall (fun r => insertedAt r <= c) done_ -> stamped c rest ->
  let out := take TAIL_LIMIT rest in
  liveStep (between done_ rest c) Tick
  = between (done_ ++ out) (drop TAIL_LIMIT rest) (advanceCursor c out).
Proof.
  intros Hd Hr out. unfold liveStep, between, tickQuery, tickRows.
  cbn [tailer visible processed stopped queried cursorInsertedAt app]. rewrite newRows_split by done.
  f_equal. unfold out. by rewrite <- (assoc (++)), take_drop.
Qed.

Lemma Forall_le_mono c c' (l : list LiveRow) :
  c <= c' -> Forall (fun r => insertedAt r <= c) l -> Forall (fun r => insertedAt r <= c') l.
Proof. intros Hc H. eapply Forall_impl; [exact H|]. intros r Hr. simpl in *. lia. Qed.

Lemma between_run events done_ rest c :
  Forall (fun r => insertedAt r <= c) done_ -> stamped c (rest ++ rowsOf events) ->
  exists done' rest' c', foldl liveStep (between done_ rest c) events = between done' rest' c'
    /\ done' ++ rest' = done_ ++ rest ++ rowsOf events
    /\ Forall (fun r => insertedAt r <= c') done' /\ stamped c' rest'.
Proof.
  revert done_ rest c; induction events as [|e events IH]; intros done_ rest c Hd Hs.
  - exists done_, rest, c. simpl in *. rewrite app_nil_r in *. by split_and!.
  - destruct e as [r| |]; cbn [foldl].
    + change (rowsOf (Visible r :: events)) with (r :: rowsOf events) in *.
      replace (liveStep (between done_ rest c) (Visible r)) with (between done_ (rest ++ [r]) c).
      2: { unfold liveStep, between. cbn [tailer visible processed]. by rewrite (assoc (++)). }
      destruct (IH done_ (rest ++ [r]) c Hd) as (d' & r' & c' & H1 & H2 & H3 & H4).
      { by rewrite <- (assoc (++)). }
      exists d', r', c'. split_and!; [done| |done|done]. rewrite H2. by rewrite <- !(assoc (++)).
    + change (rowsOf (Tick :: events)) with (rowsOf events) in *.
      assert (stamped c rest) as Hsr.
      { destruct Hs as [H1 H2]. apply StronglySorted_app_inv in H1 as (H1 & _ & _).
        apply Forall_app in H2 as [H2 _]. by split. }
      rewrite tick_between by done.
      rewrite <- (take_drop TAIL_LIMIT rest), <- (assoc (++)) in Hs.
      apply stamped_app in Hs as (Hs & Ho & Hc).
      destruct (IH (done_ ++ take TAIL_LIMIT rest) (drop TAIL_LIMIT rest)
        (advanceCursor c (take TAIL_LIMIT rest))) as (d' & r' & c' & H1 & H2 & H3 & H4).
      { apply Forall_app. split; [by eapply Forall_le_mono|done]. }
      { done. }
      exists d', r', c'. split_and!; [done| |done|done]. rewrite H2.
      by rewrite <- (assoc (++)), (assoc (++) (take TAIL_LIMIT rest)), take_drop.
    + change (rowsOf (FailedTick :: events)) with (rowsOf events) in *.
      replace (liveStep (between done_ rest c) FailedTick) with (between done_ rest c) by
        (unfold liveStep, between; cbn; by rewrite app_nil_r).
      by apply IH.
Qed.

Lemma ticks_drain n done_ rest c :
  Forall (fun r => insertedAt r <= c) done_ -> stamped c rest -> (length rest <= n * TAIL_LIMIT)%nat ->
  processed (foldl liveStep (between done_ rest c) (repeat Tick n)) = done_ ++ rest.
Proof.
  revert done_ rest c; induction n as [|n IH]; intros done_ rest c Hd Hs Hn.
  - destruct rest as [|x rest]; [|simpl in Hn; lia]. simpl. by rewrite app_nil_r.
  - cbn [repeat foldl]. rewrite tick_between by done.
    rewrite <- (take_drop TAIL_LIMIT rest) in Hs. pose proof (stamped_app _ _ _ Hs) as (Hs' & Ho & Hc).
    rewrite IH.
    + by rewrite <- (assoc (++)), take_drop.
    + apply Forall_app. split; [by eapply Forall_le_mono|done].
    + done.
    + rewrite length_drop. lia.
Qed.

(** When every row is stamped later than the rows visible before it and ticks
    do not overlap, then whatever the moments at which rows appear and ticks
    run or fail, the rows put on the bus are at every moment the oldest ones in
    order, each once; and the next ticks, 200 rows each, deliver the rest. *)
Theorem tailer_delivers_once cursor events :
  stamped cursor (rowsOf events) ->
  (exists k, processed (liveRun cursor events) = take k (rowsOf events))
  /\ forall n, (length (rowsOf events) <= n * TAIL_LIMIT)%nat ->
       processed (liveRun cursor (events ++ repeat Tick n)) = rowsOf events.
Proof.
  intros Hs. destruct (between_run events [] [] cursor) as (d & r & c & H1 & H2 & H3 & H4); [constructor|done|].
  change (foldl liveStep (between [] [] cursor) events) with (liveRun cursor events) in H1. simpl in H2.
  split.
  - exists (length d). rewrite H1, <- H2. simpl. by rewrite take_app_length.
  - intros n Hn. unfold liveRun in *. rewrite foldl_app, H1. rewrite ticks_drain; [done|done|done|].
    rewrite <- H2, length_app in Hn. lia.
Qed.

Definition liveRowAt (id : string) (ts : Z) : LiveRow := {|
  insertedAt := ts; parses := true;
  liveRow := rowOfEvent (ev_of id "CMKT" 10 1000 (PositionOpened 1 "GA" "BTC" 0 300 7)) |}.

Lemma tailer_delivers_once_witness :
  processed (liveRun 0 ([Visible (liveRowAt "1" 5); Tick; Visible (liveRowAt "2" 6); FailedTick] ++ repeat Tick 1))
  = [liveRowAt "1" 5; liveRowAt "2" 6].
Proof.
  apply (tailer_delivers_once 0 [Visible (liveRowAt "1" 5); Tick; Visible (liveRowAt "2" 6); FailedTick]).
  - split; [|by repeat constructor]. cbn. repeat constructor.
  - cbn. unfold TAIL_LIMIT. lia.
Defined.

(** A row stamped in the same millisecond as the last one processed is never
    delivered: the cursor is already at its stamp. *)
Example same_stamp_lost n :
  processed (liveRun 0 ([Visible (liveRowAt "1" 5); Tick; Visible (liveRowAt "2" 5)] ++ repeat Tick n))
  = [liveRowAt "1" 5].
Proof.
  unfold liveRun. rewrite foldl_app. cbn [foldl].
  change (liveStep _ (Visible (liveRowAt "2" 5)))
    with (between [liveRowAt "1" 5] [liveRowAt "2" 5] 5).
  induction n as [|n IH]; [done|]. cbn [repeat foldl].
  change (liveStep (between [liveRowAt "1" 5] [liveRowAt "2" 5] 5) Tick)
    with (between [liveRowAt "1" 5] [liveRowAt "2" 5] 5). exact IH.
Qed.

(** A tick that starts before the previous one's answer arrived reads from the
    same cursor: its rows are delivered twice. *)
Example overlapping_ticks_deliver_twice :
  let s0 := {| cursorInsertedAt := 0; stopped := false; queried := [] |} in
  let rows := Some [liveRowAt "1" 5] in
  let s2 := tickQuery rows (tickQuery rows s0) in
  let (s3, out1) := tickRows s2 in
  out1 ++ (tickRows s3).2 = [liveRowAt "1" 5; liveRowAt "1" 5].
Proof. vm_compute. reflexivity. Qed.

(** A partial liquidation, a partial close and a deleveraging are position
    events that no trades channel hears of. *)
Example trades_channel_omits :
  forallb (fun b => let r := {| insertedAt := 5; parses := true;
                                liveRow := rowOfEvent (ev_of "1" "CMKT" 10 1000 b) |} in
                    negb (existsb (fun e : Emission => startsWith "trades." e.1) (emissionsOf r)))
    [PositionPartialLiq 1 "GA" "BTC" 0 100 1 2; PositionReduced 1 "GA" "BTC" 100 200 2 50;
     AdlExecuted 1 "GA" "BTC" 0 300 2 5 9] = true.
Proof. vm_compute. reflexivity. Qed.

(** The ticker sends an unchanged price again. *)
Example ticker_repeats :
  let getPrice := fun _ : string => Some {| price := 5; priceFloat := numberOfZ 5; timestamp := 1 |} in
  let t1 := tickerTick ["BTC"] getPrice (fun _ => 0) {| lastPrice := ∅ |} in
  let t2 := tickerTick ["BTC"] getPrice (fun _ => 0) t1.1 in
  t2.2 = t1.2 /\ length t2.2 = 1%nat.
Proof. split; vm_compute; reflexivity. Qed.
