(* ===== verification/ApiCapacity.v ===== *)
(** * Capacity snapshots and the deleveraging queue

    Models api/src/services/capacity.ts (the cached snapshot of every market's
    headroom, its refresh, the admin parameters behind it and the stale grace)
    and the ranking of adlQueue.ts. Chain reads, with their timeouts, are
    answers that may fail. *)

From S2P Require Import Prelude JsText Capacity Health ApiEvents.
Open Scope Z_scope.
Open Scope js_scope.

(** ** services/capacity.ts *)

Record AssetParams := {
  p_assetCapBps : Z; p_capAbs : Z; p_skewCapBps : Z; p_maxPositionSize : option Z }.

(** [perAsset] in the order of the symbols. *)
Record VaultParams := { p_reserveCapBps : Z; perAsset : gmap string AssetParams }.

(** One round of the hot reads. *)
Record HotReads := {
  exposure : gmap string (Z * Z); latestLedger : option Z; h_aum : Z; h_reservedPayout : Z;
  h_usdcBalance : Z; h_shortfallReserve : Z }.

Record AssetCapacity := {
  headroomLong : string; headroomShort : string; bindingLong : CapacityBinding;
  bindingShort : CapacityBinding; oiLong : string; oiShort : string; netSkew : string;
  sideCap : string; skewCap : string; ac_assetCapBps : Z; ac_capAbs : string; ac_skewCapBps : Z;
  ac_maxPositionSize : option string }.

Record PoolCapacity := {
  pc_aum : string; pc_reservedPayout : string; pc_usdcBalance : string; pc_shortfallReserve : string;
  pc_reserveCapBps : Z; pc_reserveCap : string; pc_aggregateHeadroom : string;
  pc_aggregateBinding : CapacityBinding; asOfLedger : option Z; ts : Z; stale : bool }.

Record CapacitySnapshot := { pool : PoolCapacity; assets : list (string * AssetCapacity) }.

Definition HOT_TTL_MS : Z := 5000.
Definition PARAMS_TTL_MS : Z := 300000.
Definition STALE_GRACE_MS : Z := 30000.

Record CapacityService := {
  last : option (CapacitySnapshot * Z); params : option (VaultParams * Z) }.

Definition freshCapacity : CapacityService := {| last := None; params := None |}.

Definition inputsOf (p : VaultParams) (a : AssetParams) (h : HotReads) (symbol : string) : CapacityInputs :=
  let oi := default (0, 0) (exposure h !! symbol) in
  {| aum := h_aum h; reservedPayout := h_reservedPayout h; reserveCapBps := p_reserveCapBps p;
     usdcBalance := h_usdcBalance h; shortfallReserve := h_shortfallReserve h;
     assetCapBps := p_assetCapBps a; capAbs := p_capAbs a; skewCapBps := p_skewCapBps a;
     longOi := oi.1; shortOi := oi.2; maxPositionSize := p_maxPositionSize a |}.

Definition assetCapacity (a : AssetParams) (i : CapacityInputs) : AssetCapacity :=
  let h := computeHeadroom i in
  {| headroomLong := decimalOfZ (headroom (hr_long h)); headroomShort := decimalOfZ (headroom (hr_short h));
     bindingLong := binding (hr_long h); bindingShort := binding (hr_short h);
     oiLong := decimalOfZ (longOi i); oiShort := decimalOfZ (shortOi i);
     netSkew := decimalOfZ (hr_net h); sideCap := decimalOfZ (hr_sideCap h);
     skewCap := decimalOfZ (hr_skewCap h); ac_assetCapBps := p_assetCapBps a;
     ac_capAbs := decimalOfZ (p_capAbs a); ac_skewCapBps := p_skewCapBps a;
     ac_maxPositionSize := decimalOfZ <$> p_maxPositionSize a |}.

Definition poolCapacity (p : VaultParams) (h : HotReads) (i : CapacityInputs) (now : Z) : PoolCapacity :=
  let c := computeHeadroom i in
  {| pc_aum := decimalOfZ (aum i); pc_reservedPayout := decimalOfZ (reservedPayout i);
     pc_usdcBalance := decimalOfZ (usdcBalance i); pc_shortfallReserve := decimalOfZ (shortfallReserve i);
     pc_reserveCapBps := p_reserveCapBps p; pc_reserveCap := decimalOfZ (hr_reserveCap c);
     pc_aggregateHeadroom := decimalOfZ (aggregateHeadroom c); pc_aggregateBinding := aggregateBinding c;
     asOfLedger := latestLedger h; ts := now; stale := false |}.

(** The loop over the symbols: entries in order, and the pool of the first. *)
Definition entriesOf (symbols : list string) (p : VaultParams) (h : HotReads)
  : list (string * AssetParams * CapacityInputs) :=
  omap (fun symbol => match perAsset p !! symbol with
                      | Some a => Some (symbol, a, inputsOf p a h symbol)
                      | None => None
                      end) symbols.

Definition assemble (symbols : list string) (p : VaultParams) (h : HotReads) (now : Z)
  : option CapacitySnapshot :=
  match entriesOf symbols p h with
  | [] => None
  | (s, a, i) :: rest =>
      Some {| pool := poolCapacity p h i now;
              assets := (fun e : string * AssetParams * CapacityInputs => (e.1.1, assetCapacity e.1.2 e.2))
                          <$> (s, a, i) :: rest |}
  end.

(** [refresh] runs in stages, since other callers run while it waits: it is
    idle, waits for the parameters it asked for at [started], or has its
    parameters and waits for the hot reads. *)
Inductive RefreshPhase :=
| Idle
| FetchingParams (started : Z)
| ReadingHot (p : VaultParams).

(** [loadParams] up to its first wait: a cached set still in its time is used
    without asking. *)
Definition loadParams (now : Z) (s : CapacityService) : RefreshPhase :=
  match params s with
  | Some (v, at_) => if now - at_ <? PARAMS_TTL_MS then ReadingHot v else FetchingParams now
  | None => FetchingParams now
  end.

(** [loadParams] after the parameter reads: their answer is cached under the
    time they were asked for, and a failure falls back to the cached set. *)
Definition paramsLoaded (started : Z) (fetched : option VaultParams) (s : CapacityService)
  : option VaultParams * CapacityService :=
  match fetched with
  | Some v => (Some v, {| last := last s; params := Some (v, started) |})
  | None => (fst <$> params s, s)
  end.

(** The end of [refresh]. *)
Definition hotReadsDone (symbols : list string) (p : VaultParams) (ended : Z)
    (reads : option HotReads) (s : CapacityService) : option CapacitySnapshot * CapacityService :=
  match reads ≫= (fun h => assemble symbols p h ended) with
  | None => (None, s)
  | Some snap => (Some snap, {| last := Some (snap, ended); params := params s |})
  end.

(** [snapshot] before it waits: a value still in its time. *)
Definition hot (now : Z) (s : CapacityService) : option CapacitySnapshot :=
  match last s with
  | Some (v, at_) => if now - at_ <? HOT_TTL_MS then Some v else None
  | None => None
  end.

Definition markStale (v : CapacitySnapshot) : CapacitySnapshot := {|
  pool := {| pc_aum := pc_aum (pool v); pc_reservedPayout := pc_reservedPayout (pool v);
             pc_usdcBalance := pc_usdcBalance (pool v); pc_shortfallReserve := pc_shortfallReserve (pool v);
             pc_reserveCapBps := pc_reserveCapBps (pool v); pc_reserveCap := pc_reserveCap (pool v);
             pc_aggregateHeadroom := pc_aggregateHeadroom (pool v);
             pc_aggregateBinding := pc_aggregateBinding (pool v); asOfLedger := asOfLedger (pool v);
             ts := ts (pool v); stale := true |};
  assets := assets v |}.

(** What a caller that asked at [now] gets once the refresh it waited for has
    given [fresh]. *)
Definition afterRefresh (now : Z) (fresh : option CapacitySnapshot) (s : CapacityService)
  : option CapacitySnapshot :=
  match fresh with
  | Some v => Some v
  | None =>
      match last s with
      | Some (v, at_) => if now - at_ <? HOT_TTL_MS + STALE_GRACE_MS then Some (markStale v) else None
      | None => None
      end
  end.

Definition invalidate (s : CapacityService) : CapacityService := freshCapacity.

(** ** The service's life: callers share the refresh in flight *)

Inductive CapEvent :=
| AskCapacity (now : Z)
| ParamsEnd (fetched : option VaultParams)
| ReadsEnd (ended : Z) (reads : option HotReads)
| Invalidate.

(** [waiting] are the times at which the callers of the running refresh asked;
    [answers] what callers got, with the time they asked. *)
Record CapRun := {
  service : CapacityService; phase : RefreshPhase; waiting : list Z;
  answers : list (Z * option CapacitySnapshot) }.

(** The refresh ends with [fresh]: every caller that waited is answered. *)
Definition settle (fresh : option CapacitySnapshot) (s : CapacityService) (r : CapRun) : CapRun :=
  {| service := s; phase := Idle; waiting := [];
     answers := ((fun now => (now, afterRefresh now fresh s)) <$> waiting r) ++ answers r |}.

(** [snapshot]: without the two contract ids the refresh gives nothing. *)
Definition ask (configured : bool) (now : Z) (r : CapRun) : CapRun :=
  match hot now (service r) with
  | Some v => {| service := service r; phase := phase r; waiting := waiting r;
                 answers := (now, Some v) :: answers r |}
  | None =>
      if negb configured then
        {| service := service r; phase := phase r; waiting := waiting r;
           answers := (now, afterRefresh now None (service r)) :: answers r |}
      else
        {| service := service r;
           phase := match phase r with Idle => loadParams now (service r) | ph => ph end;
           waiting := waiting r ++ [now]; answers := answers r |}
  end.

Definition capStep (configured : bool) (symbols : list string) (r : CapRun) (e : CapEvent) : CapRun :=
  match e, phase r with
  | AskCapacity now, _ => ask configured now r
  | ParamsEnd fetched, FetchingParams started =>
      match paramsLoaded started fetched (service r) with
      | (None, s) => settle None s r
      | (Some p, s) => {| service := s; phase := ReadingHot p; waiting := waiting r; answers := answers r |}
      end
  | ReadsEnd ended reads, ReadingHot p =>
      let (fresh, s) := hotReadsDone symbols p ended reads (service r) in settle fresh s r
  | Invalidate, _ => {| service := invalidate (service r); phase := phase r; waiting := waiting r;
                        answers := answers r |}
  | _, _ => r
  end.

Definition capStart : CapRun :=
  {| service := freshCapacity; phase := Idle; waiting := []; answers := [] |}.

Definition capRun (configured : bool) (symbols : list string) (events : list CapEvent) : CapRun :=
  foldl (capStep configured symbols) capStart events.

(** ** services/adlQueue.ts *)

Record AdlPositionState := {
  positionId : Z; ap_trader : string; ap_direction : Z; ap_collateral : Z; ap_size : Z;
  entryPrice : Z; ap_leverage : Z }.

Record AdlQueueRow := {
  q_positionId : Z; q_trader : string; q_asset : string; q_direction : Z; q_size : string;
  q_pnl : string; q_score : string; q_rank : Z; quintile : Z }.

Definition PRECISION_BPS : Z := 10000.

Record Winner := { w_state : AdlPositionState; w_pnl : Z; w_score : Z }.

Definition queuePnl (p : AdlPositionState) (mark : Z) : Z :=
  (ap_size p * (if ap_direction p =? 0 then mark - entryPrice p else entryPrice p - mark)) ÷ entryPrice p.

Fixpoint queueWinners (positions : list AdlPositionState) (mark : Z) : list Winner :=
  match positions with
  | [] => []
  | p :: positions =>
      if (entryPrice p <=? 0) || (ap_collateral p <=? 0) then queueWinners positions mark
      else
        let pnl := queuePnl p mark in
        if pnl <=? 0 then queueWinners positions mark
        else {| w_state := p; w_pnl := pnl;
                w_score := ((pnl * PRECISION_BPS) ÷ ap_collateral p) * ap_leverage p |}
             :: queueWinners positions mark
  end.

Definition queuedBefore (a b : Winner) : Prop :=
  w_score b < w_score a \/ (w_score a = w_score b /\ positionId (w_state a) <= positionId (w_state b)).

#[export] Instance queuedBefore_dec : RelDecision queuedBefore.
Proof. intros a b. unfold queuedBefore. apply _. Defined.

(** [Math.min(5, Math.floor((index * 5) / count) + 1)] *)
Definition quintileOf (index count : nat) : Z :=
  Z.min 5 (Z.of_nat (index * 5) / Z.of_nat count + 1).

Definition queueRow (asset : string) (count index : nat) (w : Winner) : AdlQueueRow := {|
  q_positionId := positionId (w_state w); q_trader := ap_trader (w_state w); q_asset := asset;
  q_direction := ap_direction (w_state w); q_size := decimalOfZ (ap_size (w_state w));
  q_pnl := decimalOfZ (w_pnl w); q_score := decimalOfZ (w_score w); q_rank := Z.of_nat index + 1;
  quintile := quintileOf index count |}.

Definition rankAdlQueue (positions : list AdlPositionState) (mark : Z) (asset : string) : list AdlQueueRow :=
  let winners := merge_sort queuedBefore (queueWinners positions mark) in
  imap (queueRow asset (length winners)) winners.

(** [compute]: the ids of the asset's open positions, the mark and the
    hydrated positions may each fail. *)
Record AdlQueueResult := { aq_asset : string; updatedAt : Z; degraded : bool; aq_rows : list AdlQueueRow }.

Definition computeQueue (asset : string) (ids : option (list Z)) (mark : option Z)
    (hydrate : list Z -> option (list AdlPositionState)) (now : Z) : AdlQueueResult :=
  let failed := {| aq_asset := asset; updatedAt := now; degraded := true; aq_rows := [] |} in
  match ids with
  | None => failed
  | Some [] => {| aq_asset := asset; updatedAt := now; degraded := false; aq_rows := [] |}
  | Some ids =>
      match mark, hydrate ids with
      | Some m, Some ps =>
          {| aq_asset := asset; updatedAt := now; degraded := false; aq_rows := rankAdlQueue ps m asset |}
      | _, _ => failed
      end
  end.

(** ** Lemmas: what an answered snapshot was read from *)

(** Both sides quote, in full precision, the largest order the vault's gates
    and the market's limit let through. *)
Definition quotes (i : CapacityInputs) (c : AssetCapacity) : Prop :=
  exists onLong onShort,
    headroomLong c = decimalOfZ onLong /\ headroomShort c = decimalOfZ onShort /\
    (forall size, (vaultAccepts i long size = Accept /\ forall m, maxPos i = Some m -> size <= m)
                  <-> 0 < size /\ size <= onLong) /\
    (forall size, (vaultAccepts i short size = Accept /\ forall m, maxPos i = Some m -> size <= m)
                  <-> 0 < size /\ size <= onShort).

Lemma assetCapacity_quotes a i : quotes i (assetCapacity a i).
Proof.
  exists (headroom (forSide i long)), (headroom (forSide i short)).
  split_and!; [done | done | intros size; apply forSide_iff..].
Qed.

Lemma elem_of_entriesOf symbols p h s a i :
  (s, a, i) ∈ entriesOf symbols p h -> perAsset p !! s = Some a /\ i = inputsOf p a h s.
Proof.
  unfold entriesOf. rewrite list_elem_of_omap. intros (s' & _ & Hs).
  destruct (perAsset p !! s') eqn:Hp; simplify_eq; done.
Qed.

(** [v] was assembled at [at_] from these answers; [stale] is not compared. *)
Definition readFrom (symbols : list string) (p : VaultParams) (h : HotReads) (at_ : Z)
    (v : CapacitySnapshot) : Prop :=
  exists v', assemble symbols p h at_ = Some v' /\ (v = v' \/ v = markStale v').

Lemma assemble_fresh symbols p h at_ v :
  assemble symbols p h at_ = Some v -> stale (pool v) = false /\ ts (pool v) = at_.
Proof. unfold assemble. destruct (entriesOf _ _ _) as [|[[??]?]?]; intros ?; simplify_eq; done. Qed.

Lemma readFrom_quotes symbols p h at_ v s c :
  readFrom symbols p h at_ v -> (s, c) ∈ assets v ->
  exists a, perAsset p !! s = Some a /\ quotes (inputsOf p a h s) c.
Proof.
  intros (v' & Hv & Heq) Hin. assert ((s, c) ∈ assets v') as Hin' by (by destruct Heq as [->| ->]).
  clear Hin Heq v. revert Hv Hin'. unfold assemble.
  destruct (entriesOf symbols p h) as [|[[s0 a0] i0] rest] eqn:He; [done|].
  intros ?; simplify_eq/=. rewrite elem_of_cons, list_elem_of_fmap.
  intros Hin. assert (exists a i, (s, a, i) ∈ entriesOf symbols p h /\ c = assetCapacity a i)
    as (a & i & Hi & ->).
  { rewrite He. destruct Hin as [?|([[? a] i] & ? & ?)]; simplify_eq/=; do 2 eexists;
      (split; [|reflexivity]); [left | by right]. }
  apply elem_of_entriesOf in Hi as [Hp ->]. eauto using assetCapacity_quotes.
Qed.

(** ** The invariant of a run *)

(** When an event reads the clock. *)
Definition timeOf (e : CapEvent) (t : Z) : Z :=
  match e with AskCapacity now => now | ReadsEnd ended _ => ended | _ => t end.

(** The clock never goes back. *)
Fixpoint ticking (t : Z) (events : list CapEvent) : Prop :=
  match events with
  | [] => True
  | e :: events => t <= timeOf e t /\ ticking (timeOf e t) events
  end.

(** The snapshot was read from two answers of the log. *)
Definition logged (symbols : list string) (log : list CapEvent) (at_ : Z) (v : CapacitySnapshot) : Prop :=
  exists p h, ParamsEnd (Some p) ∈ log /\ ReadsEnd at_ (Some h) ∈ log /\ readFrom symbols p h at_ v.

Definition answeredWell (symbols : list string) (log : list CapEvent)
    (x : Z * option CapacitySnapshot) : Prop :=
  match x.2 with
  | None => True
  | Some v => logged symbols log (ts (pool v)) v /\
              x.1 - ts (pool v) < HOT_TTL_MS + (if stale (pool v) then STALE_GRACE_MS else 0)
  end.

Record CapInv (symbols : list string) (log : list CapEvent) (t : Z) (r : CapRun) : Prop := {
  inv_last : forall v at_, last (service r) = Some (v, at_) ->
    logged symbols log at_ v /\ ts (pool v) = at_ /\ stale (pool v) = false;
  inv_params : forall p at_, params (service r) = Some (p, at_) -> ParamsEnd (Some p) ∈ log;
  inv_phase : forall p, phase r = ReadingHot p -> ParamsEnd (Some p) ∈ log;
  inv_waiting : Forall (fun now => now <= t) (waiting r);
  inv_answers : Forall (answeredWell symbols log) (answers r) }.

Lemma logged_mono symbols log e at_ v : logged symbols log at_ v -> logged symbols (e :: log) at_ v.
Proof. intros (p & h & ? & ? & ?). exists p, h. split_and!; [by right..|done]. Qed.

Lemma answeredWell_mono symbols log e x :
  answeredWell symbols log x -> answeredWell symbols (e :: log) x.
Proof. unfold answeredWell. destruct x.2; naive_solver eauto using logged_mono. Qed.

Lemma CapInv_mono symbols log e t t' r :
  t <= t' -> CapInv symbols log t r -> CapInv symbols (e :: log) t' r.
Proof.
  intros Ht [Hl Hp Hph Hw Ha]. split.
  - intros v at_ Hv. destruct (Hl v at_ Hv) as (? & ? & ?). eauto using logged_mono.
  - intros p at_ ?. right. eauto.
  - intros p ?. right. eauto.
  - eapply Forall_impl; [exact Hw | simpl; lia].
  - eapply Forall_impl; [exact Ha | intros x; apply answeredWell_mono].
Qed.

(** A copy within the grace is read from what the original was. *)
Lemma afterRefresh_well symbols log t r now :
  CapInv symbols log t r -> answeredWell symbols log (now, afterRefresh now None (service r)).
Proof.
  intros Hr. unfold answeredWell, afterRefresh; simpl.
  destruct (last (service r)) as [[v at_]|] eqn:Hlast; [|done].
  destruct (inv_last _ _ _ _ Hr _ _ Hlast) as ((p & h & Hp & Hh & v' & Hv & Hv') & Hts & Hstale).
  destruct (Z.ltb_spec (now - at_) (HOT_TTL_MS + STALE_GRACE_MS)); [|done]. simpl.
  rewrite Hts. split; [|done].
  exists p, h. split_and!; [done..|]. exists v'. split; [done|]. right. by destruct Hv' as [->| ->].
Qed.

(** Every waiting caller is answered well when the refresh settles so. *)
Lemma settle_inv symbols log t r fresh s :
  CapInv symbols log t {| service := s; phase := Idle; waiting := []; answers := answers r |} ->
  (forall now, now ∈ waiting r -> answeredWell symbols log (now, afterRefresh now fresh s)) ->
  CapInv symbols log t (settle fresh s r).
Proof.
  intros [Hl Hp Hph Hw Ha] Hnew. split; try done.
  simpl. rewrite Forall_app. split; [|done].
  rewrite Forall_forall. intros x (now & -> & Hin)%list_elem_of_fmap. by apply Hnew.
Qed.

Lemma ask_inv configured symbols log t now r :
  t <= now -> CapInv symbols log t r -> CapInv symbols log now (ask configured now r).
Proof.
  intros Ht Hr. pose proof (afterRefresh_well _ _ _ _ now Hr) as Hstale.
  destruct Hr as [Hl Hp Hph Hw Ha]. unfold ask, hot.
  assert (Forall (fun u => u <= now) (waiting r)) as Hw'
    by (eapply Forall_impl; [exact Hw | simpl; lia]).
  assert (CapInv symbols log now {| service := service r; waiting := waiting r ++ [now]; answers := answers r;
    phase := match phase r with Idle => loadParams now (service r) | ph => ph end |}) as Hwait.
  { split; simpl; [done | done | | | done].
    - intros p. destruct (phase r) eqn:Hphase; [|done|by apply Hph].
      unfold loadParams. destruct (params (service r)) as [[p' at_]|] eqn:Hpar; [|done].
      destruct (_ <? _); [|done]. intros ?; simplify_eq. eauto.
    - rewrite Forall_app. split; [done | by constructor]. }
  destruct (last (service r)) as [[v at_]|] eqn:Hlast.
  - destruct (Z.ltb_spec (now - at_) HOT_TTL_MS).
    + split; simpl; rewrite ?Hlast; try done. constructor; [|done].
      destruct (Hl _ _ eq_refl) as (? & Hts & Hst). unfold answeredWell; simpl. rewrite Hst, Hts.
      split; [done | lia].
    + destruct configured; simpl; [exact Hwait|]. split; simpl; [by rewrite Hlast | done | done | done |]. by constructor.
  - destruct configured; simpl; [exact Hwait|]. split; simpl; [by rewrite Hlast | done | done | done |]. by constructor.
Qed.

Lemma hotReadsDone_inv symbols log t ended p reads r :
  t <= ended -> CapInv symbols log t r -> phase r = ReadingHot p ->
  CapInv symbols (ReadsEnd ended reads :: log) ended
    (let (fresh, s) := hotReadsDone symbols p ended reads (service r) in settle fresh s r).
Proof.
  intros Ht Hr Hp. pose proof (CapInv_mono _ _ (ReadsEnd ended reads) _ _ _ Ht Hr) as Hr'.
  pose proof (inv_phase _ _ _ _ Hr' _ Hp) as Hlog. unfold hotReadsDone.
  destruct (reads ≫= _) as [v|] eqn:Hv; apply settle_inv.
  - assert (logged symbols (ReadsEnd ended reads :: log) ended v /\ ts (pool v) = ended /\
            stale (pool v) = false) as Hnew.
    { destruct reads as [h|]; simpl in Hv; [|done].
      destruct (assemble_fresh _ _ _ _ _ Hv). split_and!; [|done..].
      exists p, h. split_and!; [done | left | exists v; auto]. }
    destruct Hr' as [Hl Hpar Hph Hw Ha].
    split; simpl; [intros ? ? ?; by simplify_eq | done | done | constructor | done].
  - intros now Hnow. destruct reads as [h|]; simpl in Hv; [|done].
    destruct (assemble_fresh _ _ _ _ _ Hv) as [Hst Hts]. unfold answeredWell; simpl. rewrite Hst, Hts.
    pose proof (inv_waiting _ _ _ _ Hr') as Hw. rewrite Forall_forall in Hw. specialize (Hw _ Hnow).
    split; [|unfold HOT_TTL_MS; simpl in Hw; lia].
    exists p, h. split_and!; [done | left | exists v; auto].
  - destruct Hr' as [Hl Hpar Hph Hw Ha]. split; [done | done | done | constructor | done].
  - intros now _. by apply (afterRefresh_well symbols _ ended).
Qed.

Lemma capStep_inv configured symbols log t r e :
  t <= timeOf e t -> CapInv symbols log t r ->
  CapInv symbols (e :: log) (timeOf e t) (capStep configured symbols r e).
Proof.
  intros Ht Hr. pose proof (CapInv_mono _ _ e _ _ _ Ht Hr) as Hr'.
  destruct e as [now|fetched|ended reads|]; simpl in *.
  - apply (CapInv_mono _ _ _ now); [done|]. by apply (ask_inv _ _ _ t).
  - destruct (phase r) as [|started|] eqn:Hp; [done| |done].
    assert (forall p s, paramsLoaded started fetched (service r) = (Some p, s) ->
      CapInv symbols (ParamsEnd fetched :: log) t
        {| service := s; phase := ReadingHot p; waiting := waiting r; answers := answers r |}) as Hread.
    { intros p s. destruct Hr' as [Hl Hpar Hph Hw Ha]. unfold paramsLoaded.
      destruct fetched as [v|]; intros Heq; simplify_eq/=.
      - split; simpl; [done | | | done | done]; intros; simplify_eq; left.
      - destruct (params (service r)) as [[p' at_]|] eqn:Hq; simplify_eq/=.
        split; simpl; [done | by rewrite Hq | | done | done].
        intros; simplify_eq. by eapply Hpar. }
    destruct (paramsLoaded started fetched (service r)) as [[p|] s] eqn:Hload; [by apply Hread|].
    assert (s = service r) as ->
      by (unfold paramsLoaded in Hload; destruct fetched; simplify_eq; done).
    apply settle_inv.
    { destruct Hr' as [Hl Hpar Hph Hw Ha]. split; [done | done | done | constructor | done]. }
    intros now _. by apply (afterRefresh_well symbols _ t).
  - destruct (phase r) eqn:Hp; [done|done|]. by apply (hotReadsDone_inv symbols log t).
  - destruct Hr'. by split.
Qed.

Lemma capRun_inv configured symbols events log t r :
  ticking t events -> CapInv symbols log t r ->
  exists t', CapInv symbols (rev events ++ log) t' (foldl (capStep configured symbols) r events).
Proof.
  revert log t r. induction events as [|e events IH]; intros log t r; simpl; [eauto|].
  intros [Ht Hk] Hr. destruct (IH (e :: log) _ (capStep configured symbols r e) Hk) as [t' H].
  { by apply capStep_inv. }
  exists t'. by rewrite <- app_assoc.
Qed.

(** ** Properties of the snapshot *)

(** Every capacity snapshot a caller is given, over any run of the service
    (callers that share a refresh, failed reads, invalidations), was assembled
    from a parameter set and a round of reads the chain really answered; it is
    younger than five seconds, or thirty-five when it is marked stale; and each
    market in it quotes, on both sides, exactly the largest order that these
    readings let pass the vault's four gates and the market's limit. *)
Theorem served_capacity_exact configured symbols events asked v :
  ticking 0 events -> (asked, Some v) ∈ answers (capRun configured symbols events) ->
  exists p h,
    ParamsEnd (Some p) ∈ events /\ ReadsEnd (ts (pool v)) (Some h) ∈ events /\
    asked - ts (pool v) < (if stale (pool v) then 35000 else 5000) /\
    forall s c, (s, c) ∈ assets v -> exists a, perAsset p !! s = Some a /\ quotes (inputsOf p a h s) c.
Proof.
  intros Hk Hin. destruct (capRun_inv configured symbols events [] 0 capStart Hk) as [t Hinv].
  { by split; simpl; [..|constructor|constructor]. }
  pose proof (inv_answers _ _ _ _ Hinv) as Ha. rewrite Forall_forall in Ha.
  destruct (Ha _ Hin) as [(p & h & Hp & Hh & Hread) Hage]. simpl in *.
  rewrite app_nil_r in Hp, Hh. exists p, h. split_and!.
  - by rewrite list_elem_of_In, <- in_rev, <- list_elem_of_In in Hp.
  - by rewrite list_elem_of_In, <- in_rev, <- list_elem_of_In in Hh.
  - unfold HOT_TTL_MS, STALE_GRACE_MS in Hage. destruct (stale (pool v)); lia.
  - intros s c. by apply readFrom_quotes with (symbols := symbols) (at_ := ts (pool v)).
Qed.

Definition btcParams : VaultParams :=
  {| p_reserveCapBps := 7000;
     perAsset := {[ "BTC"%string := {| p_assetCapBps := 4000; p_capAbs := 0; p_skewCapBps := 2000;
                                       p_maxPositionSize := Some 300000 |} ]} |}.

Definition btcReads : HotReads :=
  {| exposure := {[ "BTC"%string := (100000, 50000) ]}; latestLedger := Some 77; h_aum := 1000000;
     h_reservedPayout := 200000; h_usdcBalance := 900000; h_shortfallReserve := 10000 |}.

(** Two callers share a refresh; the third is given the cached value, the
    fourth a stale copy after a failed refresh. *)
Definition capacityDay : list CapEvent :=
  [ AskCapacity 1000; AskCapacity 1100; ParamsEnd (Some btcParams); ReadsEnd 1500 (Some btcReads);
    AskCapacity 6000; AskCapacity 20000; ReadsEnd 22500 None ].

Lemma served_capacity_exact_witness :
  exists v, answers (capRun true ["BTC"%string] capacityDay) !! 0%nat = Some (20000, Some v) /\
    stale (pool v) = true /\ ts (pool v) = 1500 /\
    exists p h, ParamsEnd (Some p) ∈ capacityDay /\ ReadsEnd (ts (pool v)) (Some h) ∈ capacityDay /\
      20000 - ts (pool v) < (if stale (pool v) then 35000 else 5000) /\
      forall s c, (s, c) ∈ assets v -> exists a, perAsset p !! s = Some a /\ quotes (inputsOf p a h s) c.
Proof.
  eexists. split; [vm_compute; reflexivity|]. split; [reflexivity|]. split; [reflexivity|].
  apply (served_capacity_exact true ["BTC"%string] capacityDay); [vm_compute; repeat split; discriminate|].
  apply (list_elem_of_lookup_2 _ 0%nat). vm_compute. reflexivity.
Defined.

(** [invalidate] while a refresh is in flight does not last: the reads that
    end afterwards put the snapshot and, asked before the change, the
    parameters back. *)
Example invalidate_undone :
  let r := capRun true ["BTC"%string]
    [AskCapacity 1000; Invalidate; ParamsEnd (Some btcParams); ReadsEnd 1500 (Some btcReads)] in
  params (service r) = Some (btcParams, 1000) /\ last (service r) <> None.
Proof. vm_compute. split; [reflexivity | discriminate]. Qed.

(** ** Lemmas on the queue *)

(** A contract position as the hydrated ledger entry decodes it. *)
Definition stateOfPosition (p : Position) : AdlPositionState := {|
  positionId := id p; ap_trader := trader p;
  ap_direction := match direction p with Long => 0 | Short => 1 end;
  ap_collateral := collateral p; ap_size := size p; entryPrice := entry_price p;
  ap_leverage := leverage p |}.

Definition winnerOf (r : Ranked) : Winner :=
  {| w_state := stateOfPosition (position r); w_pnl := pnl r; w_score := score r |}.

Lemma queueWinners_keeper ps mark :
  Forall (fun p => 0 < entry_price p /\ 0 < collateral p) ps ->
  queueWinners (stateOfPosition <$> ps) mark = winnerOf <$> adlWinners ps mark.
Proof.
  induction 1 as [|p ps [He Hc] _ IH]; [done|].
  rewrite fmap_cons. cbn [queueWinners adlWinners].
  assert (calculatePnl p mark = queuePnl (stateOfPosition p) mark) as Hpnl.
  { unfold calculatePnl, queuePnl; simpl. destruct (Z.eqb_spec (entry_price p) 0); [lia|].
    by destruct (direction p). }
  destruct (Z.leb_spec (entryPrice (stateOfPosition p)) 0) as [Hle|_]; [simpl in Hle; lia|].
  destruct (Z.leb_spec (ap_collateral (stateOfPosition p)) 0) as [Hle|_]; [simpl in Hle; lia|].
  rewrite Hpnl, IH. cbn [orb].
  destruct (Z.leb_spec (queuePnl (stateOfPosition p) mark) 0) as [|Hpos]; [done|].
  rewrite fmap_cons. f_equal. unfold winnerOf; cbn [position pnl score]. f_equal.
  unfold adlRank. destruct (Z.leb_spec (queuePnl (stateOfPosition p) mark) 0); [lia|].
  destruct (Z.leb_spec (collateral p) 0); [lia | done].
Qed.

#[export] Instance queuedBefore_trans : Transitive queuedBefore.
Proof. intros a b c. unfold queuedBefore. lia. Qed.
#[export] Instance queuedBefore_total : Total queuedBefore.
Proof. intros a b. unfold queuedBefore. lia. Qed.

Lemma Sorted_winnerOf rs : Sorted rankedBefore rs -> Sorted queuedBefore (winnerOf <$> rs).
Proof.
  induction 1 as [|r rs _ IH Hhd]; simpl; constructor; [done|].
  destruct Hhd; simpl; constructor. done.
Qed.

(** The sorts agree when ids tell the winners apart. *)
Lemma merge_sort_winnerOf rs :
  NoDup (id ∘ position <$> rs) ->
  merge_sort queuedBefore (winnerOf <$> rs) = winnerOf <$> merge_sort rankedBefore rs.
Proof.
  intros Hnd. apply (Sorted_unique_strong queuedBefore).
  - intros a b Ha Hb Hab Hba.
    rewrite merge_sort_Permutation, list_elem_of_fmap in Ha. destruct Ha as (r & -> & Hr).
    rewrite list_elem_of_fmap in Hb. destruct Hb as (r' & -> & Hr').
    rewrite merge_sort_Permutation in Hr'.
    assert (id (position r) = id (position r')) as Hid
      by (unfold queuedBefore in Hab, Hba; simpl in Hab, Hba; lia).
    apply list_elem_of_lookup in Hr as [i Hi], Hr' as [j Hj].
    assert (i = j) as ->; [|congruence].
    eapply NoDup_lookup; [exact Hnd | rewrite list_lookup_fmap, Hi; reflexivity |].
    rewrite list_lookup_fmap, Hj. simpl. by rewrite Hid.
  - apply Sorted_merge_sort; apply _.
  - apply Sorted_winnerOf, Sorted_merge_sort; apply _.
  - rewrite merge_sort_Permutation. apply fmap_Permutation. by rewrite merge_sort_Permutation.
Qed.

Lemma adlWinners_NoDup ps mark : NoDup (id <$> ps) -> NoDup (id ∘ position <$> adlWinners ps mark).
Proof.
  induction ps as [|p ps IH]; simpl; [intros; constructor|].
  rewrite NoDup_cons. intros [Hp Hnd]. destruct (_ <=? _); [auto|]. simpl.
  rewrite NoDup_cons. split; [|auto]. rewrite list_elem_of_fmap. intros (r & Hid & Hr).
  apply elem_of_adlWinners in Hr as [Hr _]. apply Hp, list_elem_of_fmap. eauto.
Qed.

Lemma quintileOf_range i n : (i < n)%nat -> 1 <= quintileOf i n <= 5.
Proof.
  intros H. unfold quintileOf.
  assert (0 <= Z.of_nat (i * 5) / Z.of_nat n) by (apply Z.div_pos; lia). lia.
Qed.

Lemma quintileOf_mono i j n : (i <= j)%nat -> quintileOf i n <= quintileOf j n.
Proof.
  intros H. unfold quintileOf. destruct n as [|n]; [rewrite !Zdiv_0_r; lia|].
  apply Z.min_le_compat_l, Z.add_le_mono_r, Z.div_le_mono; lia.
Qed.

(** The quintile of a row in terms of its rank: at most a fifth of the queue
    shares a quintile, up to rounding. *)
Lemma quintileOf_spec i n q :
  (i < n)%nat -> quintileOf i n = q <-> (q - 1) * Z.of_nat n <= 5 * Z.of_nat i < q * Z.of_nat n.
Proof.
  intros H. unfold quintileOf. rewrite Z.min_r.
  - split; intros Hq.
    + subst q. pose proof (Z.div_mod (Z.of_nat (i * 5)) (Z.of_nat n)).
      pose proof (Z.mod_pos_bound (Z.of_nat (i * 5)) (Z.of_nat n)). nia.
    + symmetry. assert (Z.of_nat (i * 5) / Z.of_nat n = q - 1); [|lia].
      symmetry. apply (Z.div_unique _ _ _ (5 * Z.of_nat i - (q - 1) * Z.of_nat n)); lia.
  - assert (Z.of_nat (i * 5) / Z.of_nat n < 5); [|lia]. apply Z.div_lt_upper_bound; lia.
Qed.

(** ** Properties of the queue *)

(** The queue the API shows is the order in which the keeper deleverages:
    over the same positions (distinct ids, positive entry prices and
    collateral) row [k] is the keeper's candidate [k], with its profit and
    score and rank [k + 1], and its quintile [q], between 1 and 5, is the fifth
    of the queue the row falls in. *)
Theorem queue_is_keeper_order ps mark asset :
  NoDup (id <$> ps) -> Forall (fun p => 0 < entry_price p /\ 0 < collateral p) ps ->
  let rows := rankAdlQueue (stateOfPosition <$> ps) mark asset in
  let candidates := rankAdlCandidates ps mark in
  length rows = length candidates /\
  forall k row, rows !! k = Some row -> exists r,
    candidates !! k = Some r /\ q_positionId row = id (position r) /\
    q_trader row = trader (position r) /\ q_pnl row = decimalOfZ (pnl r) /\
    q_score row = decimalOfZ (score r) /\ q_rank row = Z.of_nat k + 1 /\ 1 <= quintile row <= 5 /\
    (quintile row - 1) * Z.of_nat (length rows) <= 5 * Z.of_nat k
      < quintile row * Z.of_nat (length rows).
Proof.
  intros Hnd Hwf rows candidates.
  assert (rows = imap (queueRow asset (length (winnerOf <$> candidates))) (winnerOf <$> candidates))
    as -> by (subst rows; unfold rankAdlQueue; simpl; rewrite queueWinners_keeper by done;
              by rewrite merge_sort_winnerOf by (by apply adlWinners_NoDup)).
  rewrite length_imap, length_fmap. split; [done|].
  intros k row Hrow. rewrite list_lookup_imap, list_lookup_fmap in Hrow.
  destruct (candidates !! k) as [r|] eqn:Hr; simplify_eq/=.
  exists r. pose proof (lookup_lt_Some _ _ _ Hr) as Hk.
  split_and!; try done; try by apply quintileOf_range.
  - by apply (quintileOf_spec _ _ _ Hk).
  - by apply (quintileOf_spec _ _ _ Hk).
Qed.

Lemma queue_is_keeper_order_witness :
  quintile <$> rankAdlQueue (stateOfPosition <$> [sampleLong; sampleShort]) 550 "BTC"%string !! 0%nat
    = Some 1 /\
  length (rankAdlQueue (stateOfPosition <$> [sampleLong; sampleShort]) 550 "BTC"%string)
    = length (rankAdlCandidates [sampleLong; sampleShort] 550).
Proof.
  split; [vm_compute; reflexivity|].
  apply (queue_is_keeper_order [sampleLong; sampleShort] 550 "BTC"%string).
  - by apply (bool_decide_unpack _); vm_compute.
  - by apply (bool_decide_unpack _); vm_compute.
Defined.
