(* ===== verification/ApiOrders.v ===== *)
(** * Preparing orders

    Models the way of a trade from the SDK's request to the contract call:
    serialiseRequest of sdk-ts/src/sub/orders.ts, the body schema, dispatch and
    replies of POST /v1/orders/prepare (api/src/routes/orders.ts), the argument
    builders of packages/tx-builders/src/market with the footprint hints they
    give, and the decoding of the packed time-in-force in the web application
    (toDisplayOrder of web/lib/stellar/market.ts). [nativeToScVal] is the SDK's:
    it encodes an integer that fits its type and throws otherwise. *)

From Stdlib Require Import DecimalString.
From S2P Require Import Prelude JsText ApiBoard ApiSockets TxFootprint.
Open Scope Z_scope.
Open Scope js_scope.

(** ** The SDK's requests (sub/orders.ts) *)

Inductive Side := Long | Short.
Inductive TriggerCondition := Above | Below.

(** [bigint | number | string] *)
Inductive BigLike := Big (z : Z) | Text (s : string).

Definition stringifyBig (v : BigLike) : string :=
  match v with Text s => s | Big z => decimalOfZ z end.

Record Margin := { asset : string; side : Side; collateral : BigLike; leverage : Z }.

Inductive PrepareRequest :=
| ROpen (cross : bool) (m : Margin)
| RClose (cross : bool) (positionId : BigLike)
| RLimit (m : Margin) (triggerPrice : BigLike) (cond : TriggerCondition) (slippageBps : Z)
    (timeInForce : option Z) (reduceOnly : option bool)
| RStopLimit (m : Margin) (triggerPrice limitPrice : BigLike) (cond : TriggerCondition) (slippageBps : Z)
    (timeInForce : option Z) (reduceOnly : option bool)
| RTrailing (positionId : BigLike) (trailingBps slippageBps : Z)
| RStopLoss (positionId triggerPrice : BigLike) (slippageBps : Z)
| RTakeProfit (positionId triggerPrice : BigLike) (slippageBps : Z) (limitPrice : option BigLike)
| RCancel (orderId : BigLike).

(** The body on the wire: amounts and ids are text; an id may also be a
    number, which the SDK never sends. *)
Inductive IdJson := IdText (s : string) | IdNumber (n : Z).

Record MarginBody := { b_asset : string; b_side : Side; b_collateral : string; b_leverage : Z }.

Inductive PrepareBody :=
| BOpen (cross : bool) (m : MarginBody)
| BClose (cross : bool) (positionId : IdJson)
| BLimit (m : MarginBody) (triggerPrice : string) (cond : TriggerCondition) (slippageBps : Z)
    (timeInForce : option Z) (reduceOnly : option bool)
| BStopLimit (m : MarginBody) (triggerPrice limitPrice : string) (cond : TriggerCondition) (slippageBps : Z)
    (timeInForce : option Z) (reduceOnly : option bool)
| BTrailing (positionId : IdJson) (trailingBps slippageBps : Z)
| BStopLoss (positionId : IdJson) (triggerPrice : string) (slippageBps : Z)
| BTakeProfit (positionId : IdJson) (triggerPrice : string) (slippageBps : Z) (limitPrice : option string)
| BCancel (orderId : IdJson).

Definition serialiseMargin (m : Margin) : MarginBody :=
  {| b_asset := asset m; b_side := side m; b_collateral := stringifyBig (collateral m);
     b_leverage := leverage m |}.

Definition serialiseRequest (r : PrepareRequest) : PrepareBody :=
  let id v := IdText (stringifyBig v) in
  match r with
  | ROpen c m => BOpen c (serialiseMargin m)
  | RClose c p => BClose c (id p)
  | RLimit m t c s f ro => BLimit (serialiseMargin m) (stringifyBig t) c s f ro
  | RStopLimit m t l c s f ro => BStopLimit (serialiseMargin m) (stringifyBig t) (stringifyBig l) c s f ro
  | RTrailing p t s => BTrailing (id p) t s
  | RStopLoss p t s => BStopLoss (id p) (stringifyBig t) s
  | RTakeProfit p t s l => BTakeProfit (id p) (stringifyBig t) s (stringifyBig <$> l)
  | RCancel o => BCancel (id o)
  end.

(** ** The schema of the body (routes/orders.ts) *)

(** [^[0-9]+$] *)
Definition isAmount (s : string) : bool :=
  truthy s && forallb isDigit (String.list_ascii_of_string s).

Definition inRange (lo hi z : Z) : bool := (lo <=? z) && (z <=? hi).

Definition validMargin (m : MarginBody) : bool :=
  (inRange 1 12 (Z.of_nat (String.length (b_asset m)))) && isAmount (b_collateral m)
  && inRange 1 10 (b_leverage m).

Definition validTif (f : option Z) : bool := match f with Some z => inRange 0 2 z | None => true end.
Definition validBps : Z -> bool := inRange 0 10000.

Definition validBody (b : PrepareBody) : bool :=
  match b with
  | BOpen _ m => validMargin m
  | BClose _ _ | BCancel _ => true
  | BLimit m t _ s f _ => validMargin m && isAmount t && validBps s && validTif f
  | BStopLimit m t l _ s f _ => validMargin m && isAmount t && isAmount l && validBps s && validTif f
  | BTrailing _ t s => inRange 1 10000 t && validBps s
  | BStopLoss _ t s => isAmount t && validBps s
  | BTakeProfit _ t s l => isAmount t && validBps s && match l with Some l => isAmount l | None => true end
  end.

(** [BigInt(text)]: blanks around it, an empty text, a base prefix, or decimal
    digits with a sign. *)
Definition digitIn (base : Z) (c : ascii) : option Z :=
  let n := Z.of_N (Ascii.N_of_ascii (lowerAscii c)) in
  let d := if inRange 48 57 n then n - 48 else if inRange 97 102 n then n - 87 else base in
  if d <? base then Some d else None.

Fixpoint digitsIn (base acc : Z) (s : string) : option Z :=
  match s with
  | EmptyString => Some acc
  | String c s => d ← digitIn base c; digitsIn base (base * acc + d) s
  end.

Definition basePrefix (s : string) : option (Z * string) :=
  firstSome (fun e : string * Z => (fun rest => (e.2, rest)) <$> stripPrefix e.1 (lower s))
    [("0x"%string, 16); ("0o"%string, 8); ("0b"%string, 2)].

Definition bigIntOf (s : string) : Result Z :=
  let t := trim s in
  match
    match basePrefix t with
    | Some (base, digits) => if truthy digits then digitsIn base 0 digits else None
    | None =>
        if negb (truthy t) then Some 0
        else match stripPrefix "+" t with
             | Some u => if isAmount u then zOfDecimal u else None
             | None => zOfDecimal t
             end
    end
  with
  | Some z => Ok z
  | None => Err "Cannot convert to a BigInt"
  end.

Definition parseId (v : IdJson) : Result Z :=
  match v with IdText s => bigIntOf s | IdNumber n => Ok n end.

(** Bits 0 to 7 are the mode, bit 8 is reduce-only. *)
Definition encodeTimeInForce (timeInForce : option Z) (reduceOnly : option bool) : Z :=
  Z.lor (default 0 timeInForce) (if default false reduceOnly then 256 else 0).

(** ** The contract call (tx-builders/src/market) *)

Inductive ScVal :=
| ScAddress (a : string) | ScSymbol (s : string) | ScI128 (z : Z) | ScU32 (z : Z) | ScU64 (z : Z)
| ScBool (b : bool) | ScString (s : string) | ScBytes (bs : list Z) | ScVec (vs : list ScVal)
| ScMap (es : list (string * ScVal)).

Record ContractCall := {
  source : string; contractId : string; method : string; args : list ScVal; hints : TxBuildOptions }.

(** [nativeToScVal] on an integer, for the three types the builders use. *)
Class IntCodec := {
  encI128 : Z -> Result ScVal; encU32 : Z -> Result ScVal; encU64 : Z -> Result ScVal;
  encI128_spec : forall z v, encI128 z = Ok v <-> - 2 ^ 127 <= z < 2 ^ 127 /\ v = ScI128 z;
  encU32_spec : forall z v, encU32 z = Ok v <-> 0 <= z < 2 ^ 32 /\ v = ScU32 z;
  encU64_spec : forall z v, encU64 z = Ok v <-> 0 <= z < 2 ^ 64 /\ v = ScU64 z }.

Definition encDirection (d : Side) : ScVal := ScU32 (match d with Long => 0 | Short => 1 end).
Definition encTrigger (c : TriggerCondition) : ScVal :=
  ScBool (match c with Above => true | Below => false end).

Definition hinted (o : TradeOp) (a : option string) (p : option Z) : TxBuildOptions :=
  {| op := Some o; o_trader := None; o_asset := a; o_assets := None; o_positionId := p |}.
Definition unhinted : TxBuildOptions := {| op := None; o_trader := None; o_asset := None; o_assets := None; o_positionId := None |}.

Section builders.
Context `{IntCodec}.

Definition callTo (market who m : string) (o : TxBuildOptions) (rest : Result (list ScVal))
  : Result ContractCall :=
  vs ← rest;
  Ok {| source := who; contractId := market; method := m; args := ScAddress who :: vs; hints := o |}.

Definition openArgs (a : string) (c l : Z) (d : Side) (acceptable : Z) : Result (list ScVal) :=
  c ← encI128 c; l ← encU32 l; p ← encI128 acceptable; Ok [ScSymbol a; c; l; encDirection d; p].

Definition closeArgs (p acceptable : Z) : Result (list ScVal) :=
  p ← encU64 p; q ← encI128 acceptable; Ok [p; q].

Definition limitArgs (a : string) (d : Side) (c l t : Z) (cond : TriggerCondition) (s f : Z)
  : Result (list ScVal) :=
  c ← encI128 c; l ← encU32 l; t ← encI128 t; s ← encU32 s; f ← encU32 f;
  Ok [ScSymbol a; encDirection d; c; l; t; encTrigger cond; s; f].

Definition stopLimitArgs (a : string) (d : Side) (c l t lim : Z) (cond : TriggerCondition) (s f : Z)
  : Result (list ScVal) :=
  c ← encI128 c; l ← encU32 l; t ← encI128 t; lim ← encI128 lim; s ← encU32 s; f ← encU32 f;
  Ok [ScSymbol a; encDirection d; c; l; t; lim; encTrigger cond; s; f].

Definition trailingArgs (p t s : Z) : Result (list ScVal) :=
  p ← encU64 p; t ← encU32 t; s ← encU32 s; Ok [p; t; s].

Definition stopLossArgs (p t s : Z) : Result (list ScVal) :=
  p ← encU64 p; t ← encI128 t; s ← encU32 s; Ok [p; t; s].

Definition takeProfitArgs (p t s l : Z) : Result (list ScVal) :=
  p ← encU64 p; t ← encI128 t; s ← encU32 s; l ← encI128 l; Ok [p; t; s; l].

(** ** dispatch *)

(** [BadRequest] apart from what else is thrown. *)
Inductive PrepareError := UnsupportedAsset (a : string) | PrepareThrew (message : string).

Definition lift {A} (r : Result A) : PrepareError + A :=
  match r with inl e => inl (PrepareThrew e) | inr a => inr a end.

Definition withMargin (m : MarginBody) (k : Z -> Result ContractCall) : PrepareError + ContractCall :=
  if isSupportedAsset (b_asset m) then lift (c ← bigIntOf (b_collateral m); k c)
  else inl (UnsupportedAsset (b_asset m)).

Definition dispatch (market trader : string) (b : PrepareBody) : PrepareError + ContractCall :=
  match b with
  | BOpen cross m =>
      withMargin m (fun c =>
        callTo market trader (if cross then "open_position_cross" else "open_position")
          (hinted (if cross then open_cross else open_) (Some (b_asset m)) None)
          (openArgs (b_asset m) c (b_leverage m) (b_side m) 0))
  | BClose cross p =>
      lift (p ← parseId p;
            callTo market trader (if cross then "close_position_cross" else "close_position")
              (hinted (if cross then close_cross else close_) None (Some p)) (closeArgs p 0))
  | BLimit m t cond s f ro =>
      withMargin m (fun c => t ← bigIntOf t;
        callTo market trader "place_limit_order" unhinted
          (limitArgs (b_asset m) (b_side m) c (b_leverage m) t cond s (encodeTimeInForce f ro)))
  | BStopLimit m t l cond s f ro =>
      withMargin m (fun c => t ← bigIntOf t; l ← bigIntOf l;
        callTo market trader "place_stop_limit_order" unhinted
          (stopLimitArgs (b_asset m) (b_side m) c (b_leverage m) t l cond s (encodeTimeInForce f ro)))
  | BTrailing p t s =>
      lift (p ← parseId p; callTo market trader "place_trailing_stop" unhinted (trailingArgs p t s))
  | BStopLoss p t s =>
      lift (p ← parseId p; t ← bigIntOf t;
            callTo market trader "set_stop_loss" unhinted (stopLossArgs p t s))
  | BTakeProfit p t s l =>
      lift (p ← parseId p; t ← bigIntOf t; l ← bigIntOf (default "0"%string l);
            callTo market trader "set_take_profit" unhinted (takeProfitArgs p t s l))
  | BCancel o =>
      lift (o ← parseId o; callTo market trader "cancel_order" unhinted (o ← encU64 o; Ok [o]))
  end.

(** ** POST /v1/orders/prepare *)

(** The simulation's answer to a call: thrown by the RPC, refused, or the
    transaction the SDK assembles. *)
Inductive Simulation := RpcThrew (e : string) | SimulationFailed (e : string) | Assembled (tx : Transaction).

Inductive PrepareReply :=
| Prepared_ (trader : string) (call : ContractCall) (tx : Transaction)
| PrepareRefused (httpStatus : Z) (error : string).

Definition prepareRoute `{FeeBuilder} (ctx : TxBuildContext) (market : string) (owner : string)
    (b : PrepareBody) (simulate : ContractCall -> Simulation) : PrepareReply :=
  if negb (validBody b) then PrepareRefused 400 "Bad Request"
  else
    match dispatch market owner b with
    | inl (UnsupportedAsset _) => PrepareRefused 400 "unsupported_asset"
    | inl (PrepareThrew _) => PrepareRefused 502 "rpc_error"
    | inr call =>
        match simulate call with
        | RpcThrew _ => PrepareRefused 502 "rpc_error"
        | SimulationFailed _ => PrepareRefused 400 "simulation_failed"
        | Assembled assembled =>
            match buildContractTx ctx (source call) (Ok assembled) (hints call) with
            | inr tx => Prepared_ owner call tx
            | inl _ => PrepareRefused 502 "rpc_error"
            end
        end
    end.

End builders.

(** ** Reading a call back *)

Inductive TifName := GTC | IOC | PostOnly.

(** toDisplayOrder: an unknown mode shows as GTC. *)
Definition decodeTimeInForce (f : Z) : TifName * bool :=
  let mode := Z.land f 255 in
  (if mode =? 0 then GTC else if mode =? 1 then IOC else if mode =? 2 then PostOnly else GTC,
   negb (Z.land f 256 =? 0)).

(** What a request asks for, in numbers, with its defaults filled in. *)
Inductive Asked :=
| AOpen (cross : bool) (asset : string) (side : Side) (collateral leverage : Z)
| AClose (cross : bool) (positionId : Z)
| ALimit (asset : string) (side : Side) (collateral leverage trigger : Z) (cond : TriggerCondition)
    (slippage : Z) (tif : TifName) (reduceOnly : bool)
| AStopLimit (asset : string) (side : Side) (collateral leverage trigger limit : Z) (cond : TriggerCondition)
    (slippage : Z) (tif : TifName) (reduceOnly : bool)
| ATrailing (positionId trailing slippage : Z)
| AStopLoss (positionId trigger slippage : Z)
| ATakeProfit (positionId trigger slippage limit : Z)
| ACancel (orderId : Z).

Definition readSide (z : Z) : Side := if z =? 0 then Long else Short.
Definition readTrigger (b : bool) : TriggerCondition := if b then Above else Below.

(** The order a call places for its first argument. *)
Definition readCall (c : ContractCall) : option (string * Asked) :=
  let calls m := String.eqb (method c) m in
  match args c with
  | [ScAddress w; ScSymbol a; ScI128 x; ScU32 l; ScU32 d; ScI128 _] =>
      if calls "open_position"%string then Some (w, AOpen false a (readSide d) x l)
      else if calls "open_position_cross"%string then Some (w, AOpen true a (readSide d) x l)
      else None
  | [ScAddress w; ScSymbol a; ScU32 d; ScI128 x; ScU32 l; ScI128 t; ScBool b; ScU32 s; ScU32 f] =>
      if calls "place_limit_order"%string
      then let (tif, ro) := decodeTimeInForce f in
           Some (w, ALimit a (readSide d) x l t (readTrigger b) s tif ro) else None
  | [ScAddress w; ScSymbol a; ScU32 d; ScI128 x; ScU32 l; ScI128 t; ScI128 lim; ScBool b; ScU32 s; ScU32 f] =>
      if calls "place_stop_limit_order"%string
      then let (tif, ro) := decodeTimeInForce f in
           Some (w, AStopLimit a (readSide d) x l t lim (readTrigger b) s tif ro) else None
  | [ScAddress w; ScU64 p; ScU32 t; ScU32 s] =>
      if calls "place_trailing_stop"%string then Some (w, ATrailing p t s) else None
  | [ScAddress w; ScU64 p; ScI128 t; ScU32 s] =>
      if calls "set_stop_loss"%string then Some (w, AStopLoss p t s) else None
  | [ScAddress w; ScU64 p; ScI128 t; ScU32 s; ScI128 l] =>
      if calls "set_take_profit"%string then Some (w, ATakeProfit p t s l) else None
  | [ScAddress w; ScU64 p; ScI128 _] =>
      if calls "close_position"%string then Some (w, AClose false p)
      else if calls "close_position_cross"%string then Some (w, AClose true p) else None
  | [ScAddress w; ScU64 o] => if calls "cancel_order"%string then Some (w, ACancel o) else None
  | _ => None
  end.

(** A number a request gives as a bigint or in digits. *)
Definition amount (v : BigLike) : option Z :=
  match v with
  | Big z => if 0 <=? z then Some z else None
  | Text s => if isAmount s then zOfDecimal s else None
  end.

Definition tifName (f : option Z) : option TifName :=
  match f with
  | None => Some GTC
  | Some z => if z =? 0 then Some GTC else if z =? 1 then Some IOC else if z =? 2 then Some PostOnly else None
  end.

Definition askedOf (r : PrepareRequest) : option Asked :=
  match r with
  | ROpen c m => x ← amount (collateral m); Some (AOpen c (asset m) (side m) x (leverage m))
  | RClose c p => p ← amount p; Some (AClose c p)
  | RLimit m t cond s f ro =>
      x ← amount (collateral m); t ← amount t; f ← tifName f;
      Some (ALimit (asset m) (side m) x (leverage m) t cond s f (default false ro))
  | RStopLimit m t l cond s f ro =>
      x ← amount (collateral m); t ← amount t; l ← amount l; f ← tifName f;
      Some (AStopLimit (asset m) (side m) x (leverage m) t l cond s f (default false ro))
  | RTrailing p t s => p ← amount p; Some (ATrailing p t s)
  | RStopLoss p t s => p ← amount p; t ← amount t; Some (AStopLoss p t s)
  | RTakeProfit p t s l =>
      p ← amount p; t ← amount t; l ← match l with Some l => amount l | None => Some 0 end;
      Some (ATakeProfit p t s l)
  | RCancel o => o ← amount o; Some (ACancel o)
  end.

(** Within the limits of the schema and of the contract's types. *)
Definition legalMargin (a : string) (x l : Z) : Prop :=
  isSupportedAsset a = true /\ x < 2 ^ 127 /\ 1 <= l <= 10.

Definition legal (q : Asked) : Prop :=
  match q with
  | AOpen _ a _ x l => legalMargin a x l
  | AClose _ p | ACancel p => p < 2 ^ 64
  | ALimit a _ x l t _ s _ _ => legalMargin a x l /\ t < 2 ^ 127 /\ 0 <= s <= 10000
  | AStopLimit a _ x l t lim _ s _ _ =>
      legalMargin a x l /\ t < 2 ^ 127 /\ lim < 2 ^ 127 /\ 0 <= s <= 10000
  | ATrailing p t s => p < 2 ^ 64 /\ 1 <= t <= 10000 /\ 0 <= s <= 10000
  | AStopLoss p t s => p < 2 ^ 64 /\ t < 2 ^ 127 /\ 0 <= s <= 10000
  | ATakeProfit p t s l => p < 2 ^ 64 /\ t < 2 ^ 127 /\ 0 <= s <= 10000 /\ l < 2 ^ 127
  end.

(** ** Lemmas on numbers in text *)

Lemma isAmount_iff s : isAmount s = true <-> digits s /\ s <> EmptyString.
Proof.
  unfold isAmount, truthy, digits. rewrite andb_true_iff, negb_true_iff, String.eqb_neq, forallb_forall.
  rewrite Forall_forall. setoid_rewrite list_elem_of_In. tauto.
Qed.

Lemma isDigit_space c : isDigit c = true -> isSpace c = false.
Proof.
  unfold isDigit, isSpace. intros H. apply andb_true_iff in H as [H1 H2]. apply N.leb_le in H1, H2.
  apply orb_false_iff. split; [apply N.eqb_neq; lia|]. apply andb_false_iff. right. apply N.leb_gt. lia.
Qed.

Lemma trimEnd_digits s : digits s -> trimEnd s = s.
Proof.
  unfold digits. induction s as [|c s IH]; simpl; [done|]. intros H. apply Forall_cons in H as [Hc Hs].
  rewrite (IH Hs). destruct s; [|done]. by rewrite (isDigit_space c Hc).
Qed.

Lemma trim_digits s : digits s -> trim s = s.
Proof.
  intros H. unfold trim. destruct s as [|c s]; [done|]. simpl.
  pose proof H as H'. unfold digits in H'. simpl in H'. apply Forall_cons in H' as [Hc _].
  rewrite (isDigit_space c Hc). by apply trimEnd_digits.
Qed.

Lemma lower_digits s : digits s -> lower s = s.
Proof.
  unfold digits. induction s as [|c s IH]; simpl; [done|]. intros H. apply Forall_cons in H as [Hc Hs].
  by rewrite (lowerAscii_digit c Hc), IH.
Qed.

(** A prefix with a character that is no digit is not found in digits. *)
Lemma stripPrefix_digits p s :
  digits s -> existsb (fun c => negb (isDigit c)) (String.list_ascii_of_string p) = true ->
  stripPrefix p s = None.
Proof.
  unfold digits. revert s. induction p as [|a p IH]; intros [|c s]; simpl; try done.
  intros H Hp. apply Forall_cons in H as [Hc Hs].
  destruct (Ascii.eqb_spec a c) as [->|]; [|done]. rewrite Hc in Hp. by apply IH.
Qed.

Lemma basePrefix_digits s : digits s -> basePrefix s = None.
Proof.
  intros H. unfold basePrefix. rewrite (lower_digits s H). cbn [firstSome fst snd].
  by rewrite !(stripPrefix_digits _ s H) by reflexivity.
Qed.

Lemma bigIntOf_amount s :
  isAmount s = true -> bigIntOf s = match zOfDecimal s with Some z => Ok z | None => Err "Cannot convert to a BigInt" end.
Proof.
  intros H. apply isAmount_iff in H as [Hd Hne]. unfold bigIntOf.
  rewrite (trim_digits s Hd), (basePrefix_digits s Hd).
  rewrite (stripPrefix_digits "+" s Hd) by reflexivity.
  unfold truthy. apply String.eqb_neq in Hne. by rewrite Hne.
Qed.

Lemma zOfDecimal_amount s z : isAmount s = true -> zOfDecimal s = Some z -> 0 <= z.
Proof.
  intros H. apply isAmount_iff in H as [Hd _]. unfold zOfDecimal, NilZero.int_of_string.
  destruct s as [|c s]; [done|]. unfold digits in Hd. simpl in Hd. apply Forall_cons in Hd as [Hc _].
  destruct (Ascii.eqb c _) eqn:Hm; [apply Ascii.eqb_eq in Hm as ->; done|].
  destruct (NilZero.uint_of_string _) as [u|]; simpl; [|done]. intros [= <-].
  unfold Z.of_uint. apply N2Z.is_nonneg.
Qed.

(** A number a request gives reaches the gateway as it was meant. *)
Lemma amount_sent v z :
  amount v = Some z -> isAmount (stringifyBig v) = true /\ bigIntOf (stringifyBig v) = Ok z /\ 0 <= z.
Proof.
  destruct v as [x|s]; simpl.
  - destruct (Z.leb_spec 0 x) as [Hx|]; [|done]. intros [= <-].
    assert (isAmount (decimalOfZ x) = true) as Ha by (by apply isAmount_iff, decimalOfZ_digits).
    split_and!; [done | | done]. by rewrite bigIntOf_amount, zOfDecimal_decimalOfZ.
  - destruct (isAmount s) eqn:Ha; [|done]. intros Hz. split_and!; [done | |].
    + by rewrite bigIntOf_amount, Hz.
    + by eapply zOfDecimal_amount.
Qed.

Lemma parseId_amount v z : amount v = Some z -> parseId (IdText (stringifyBig v)) = Ok z /\ 0 <= z.
Proof. intros H. by apply amount_sent in H as (_ & ? & ?). Qed.

Lemma supported_length a : isSupportedAsset a = true -> inRange 1 12 (Z.of_nat (String.length a)) = true.
Proof.
  unfold isSupportedAsset. rewrite existsb_exists. intros (x & Hx & Heq). apply String.eqb_eq in Heq as ->.
  revert x Hx. apply List.Forall_forall. repeat constructor.
Qed.

(** The packed mode and flag come apart again. *)
Lemma decode_encode_tif f ro n :
  tifName f = Some n -> decodeTimeInForce (encodeTimeInForce f ro) = (n, default false ro)
  /\ 0 <= encodeTimeInForce f ro < 2 ^ 32 /\ validTif f = true.
Proof.
  unfold tifName, encodeTimeInForce. destruct f as [z|]; simpl.
  - destruct (Z.eqb_spec z 0) as [->|]; [|destruct (Z.eqb_spec z 1) as [->|]; [|destruct (Z.eqb_spec z 2) as [->|]; [|done]]];
      intros [= <-]; destruct ro as [[]|]; vm_compute; split_and!; (reflexivity || discriminate || done).
  - intros [= <-]; destruct ro as [[]|]; vm_compute; split_and!; (reflexivity || discriminate || done).
Qed.

(** ** Lemmas on the calls *)

Section calls.
Context `{IntCodec}.

Lemma encI128_ok z : 0 <= z < 2 ^ 127 -> encI128 z = Ok (ScI128 z).
Proof. intros Hz. apply encI128_spec. split; [lia | done]. Qed.

Lemma encU32_ok z : 0 <= z < 2 ^ 32 -> encU32 z = Ok (ScU32 z).
Proof. intros Hz. by apply encU32_spec. Qed.

Lemma encU64_ok z : 0 <= z < 2 ^ 64 -> encU64 z = Ok (ScU64 z).
Proof. intros Hz. by apply encU64_spec. Qed.

Lemma lift_inr {A} (r : Result A) a : lift r = inr a -> r = Ok a.
Proof. destruct r; simpl; intros; by simplify_eq. Qed.

Lemma withMargin_inr m k c : withMargin m k = inr c -> exists x, k x = Ok c.
Proof.
  unfold withMargin. destruct (isSupportedAsset _); [|done]. intros Hc%lift_inr. inv_binds. eauto.
Qed.

(** Every call is built for the trader, on the market. *)
Lemma callTo_Ok market who m o rest c :
  callTo market who m o rest = Ok c ->
  source c = who /\ contractId c = market /\ head (args c) = Some (ScAddress who) /\ hints c = o.
Proof. unfold callTo. intros Hc. inv_binds. injection Hc as <-. done. Qed.

Lemma dispatch_binds market trader b c :
  dispatch market trader b = inr c ->
  source c = trader /\ contractId c = market /\ head (args c) = Some (ScAddress trader).
Proof.
  intros Hd.
  assert (exists m o rest, callTo market trader m o rest = Ok c) as (m & o & rest & Hc).
  { destruct b; simpl in Hd; first [apply withMargin_inr in Hd as [x Hd] | apply lift_inr in Hd];
      inv_binds; eauto. }
  apply callTo_Ok in Hc as (? & ? & ? & _). done.
Qed.

Lemma legalMargin_valid m x :
  legalMargin (asset m) x (leverage m) -> isAmount (stringifyBig (collateral m)) = true ->
  validMargin (serialiseMargin m) = true.
Proof.
  intros (Ha & _ & Hl) Hc. unfold validMargin; simpl. rewrite Hc, (supported_length _ Ha).
  unfold inRange. destruct (Z.leb_spec 1 (leverage m)), (Z.leb_spec (leverage m) 10); lia || done.
Qed.

Lemma inRange_true lo hi z : lo <= z <= hi -> inRange lo hi z = true.
Proof. intros. unfold inRange. destruct (Z.leb_spec lo z), (Z.leb_spec z hi); lia || done. Qed.

Lemma withMargin_sent m x k :
  legalMargin (asset m) x (leverage m) -> bigIntOf (stringifyBig (collateral m)) = Ok x ->
  withMargin (serialiseMargin m) k = lift (k x).
Proof. intros (Ha & _) Hx. unfold withMargin; simpl. rewrite Ha, Hx. done. Qed.

(** ** Properties *)

(** C4. The gateway builds the order the client asked for: a request within the
    limits of the schema and of the contract's integers passes validation, and
    the contract call it is turned into, read back argument by argument, is
    that order, with every default filled in, for the owner of the key. *)
Theorem prepared_call_is_the_request market owner r q :
  askedOf r = Some q -> legal q ->
  validBody (serialiseRequest r) = true /\
  exists call, dispatch market owner (serialiseRequest r) = inr call /\
    contractId call = market /\ readCall call = Some (owner, q).
Proof.
  intros Hq Hl. destruct r as [cross m|cross p|m t c s f ro|m t l c s f ro|p t s|p t s|p t s l|o];
    simpl in Hq.
  - destruct (amount (collateral m)) as [x|] eqn:Hx; simplify_eq/=. apply amount_sent in Hx as (Ha & Hx & ?).
    split; [by eapply legalMargin_valid|]. rewrite (withMargin_sent _ _ _ Hl Hx).
    destruct Hl as (_ & ? & ?). unfold openArgs, callTo. rewrite encI128_ok, encU32_ok, encI128_ok by lia.
    eexists. split; [reflexivity|]. split; [done|]. by destruct cross, (side m).
  - destruct (amount p) as [x|] eqn:Hx; simplify_eq/=. apply parseId_amount in Hx as [Hx ?].
    split; [done|]. simpl in Hx. rewrite Hx. unfold closeArgs, callTo; simpl.
    rewrite encU64_ok, encI128_ok by lia. eexists. split; [reflexivity|]. by destruct cross.
  - destruct (amount (collateral m)) as [x|] eqn:Hx; simplify_eq/=.
    destruct (amount t) as [u|] eqn:Hu; simplify_eq/=. destruct (tifName f) as [n|] eqn:Hn; simplify_eq/=.
    apply amount_sent in Hx as (Ha & Hx & ?), Hu as (Hb & Hu & ?). destruct Hl as (Hm & ? & ?).
    destruct (decode_encode_tif f ro n Hn) as (Hdec & ? & Hv).
    split.
    { rewrite (legalMargin_valid _ _ Hm Ha), Hb, Hv. unfold validBps. by rewrite inRange_true. }
    rewrite (withMargin_sent _ _ _ Hm Hx), Hu; simpl. destruct Hm as (_ & ? & ?).
    unfold limitArgs, callTo. rewrite !encI128_ok, !encU32_ok by lia.
    eexists. split; [reflexivity|]. split; [done|]. cbn -[decodeTimeInForce encodeTimeInForce].
    rewrite Hdec. by destruct (side m), c.
  - destruct (amount (collateral m)) as [x|] eqn:Hx; simplify_eq/=.
    destruct (amount t) as [u|] eqn:Hu; simplify_eq/=. destruct (amount l) as [w|] eqn:Hw; simplify_eq/=.
    destruct (tifName f) as [n|] eqn:Hn; simplify_eq/=.
    apply amount_sent in Hx as (Ha & Hx & ?), Hu as (Hb & Hu & ?), Hw as (Hc & Hw & ?).
    destruct Hl as (Hm & ? & ? & ?). destruct (decode_encode_tif f ro n Hn) as (Hdec & ? & Hv).
    split.
    { rewrite (legalMargin_valid _ _ Hm Ha), Hb, Hc, Hv. unfold validBps. by rewrite inRange_true. }
    rewrite (withMargin_sent _ _ _ Hm Hx), Hu, Hw; simpl. destruct Hm as (_ & ? & ?).
    unfold stopLimitArgs, callTo. rewrite !encI128_ok, !encU32_ok by lia.
    eexists. split; [reflexivity|]. split; [done|]. cbn -[decodeTimeInForce encodeTimeInForce].
    rewrite Hdec. by destruct (side m), c.
  - destruct (amount p) as [x|] eqn:Hx; simplify_eq/=. apply parseId_amount in Hx as [Hx ?].
    destruct Hl as (? & ? & ?). split; [unfold validBps; by rewrite !inRange_true|].
    simpl in Hx. rewrite Hx. unfold trailingArgs, callTo; simpl. rewrite encU64_ok, !encU32_ok by lia.
    by eexists.
  - destruct (amount p) as [x|] eqn:Hx; simplify_eq/=. destruct (amount t) as [u|] eqn:Hu; simplify_eq/=.
    apply parseId_amount in Hx as [Hx ?]. apply amount_sent in Hu as (Hb & Hu & ?).
    destruct Hl as (? & ? & ?). split; [rewrite Hb; unfold validBps; by rewrite inRange_true|].
    simpl in Hx. rewrite Hx, Hu. unfold stopLossArgs, callTo; simpl.
    rewrite encU64_ok, encI128_ok, encU32_ok by lia. by eexists.
  - destruct (amount p) as [x|] eqn:Hx; simplify_eq/=. destruct (amount t) as [u|] eqn:Hu; simplify_eq/=.
    assert (exists w, match l with Some l => amount l | None => Some 0 end = Some w) as [w Hw]
      by (destruct (match l with Some l => amount l | None => Some 0 end); [eauto | done]).
    rewrite Hw in Hq. simplify_eq/=.
    assert (match stringifyBig <$> l with Some l => isAmount l | None => true end = true
            /\ bigIntOf (default "0"%string (stringifyBig <$> l)) = Ok w /\ 0 <= w) as (Hc & Hw' & ?).
    { destruct l as [l|]; simpl; [by apply amount_sent|]. simplify_eq. done. }
    apply parseId_amount in Hx as [Hx ?]. apply amount_sent in Hu as (Hb & Hu & ?).
    destruct Hl as (? & ? & ? & ?).
    split; [rewrite Hb, Hc; unfold validBps; by rewrite inRange_true|].
    simpl in Hx. rewrite Hx, Hu, Hw'. unfold takeProfitArgs, callTo; simpl.
    rewrite encU64_ok, !encI128_ok, encU32_ok by lia. by eexists.
  - destruct (amount o) as [x|] eqn:Hx; simplify_eq/=. apply parseId_amount in Hx as [Hx ?].
    split; [done|]. simpl in Hx. rewrite Hx. unfold callTo; simpl. rewrite encU64_ok by lia. by eexists.
Qed.

(** A key can only prepare transactions of its owner: whatever the body,
    a prepared call goes to the market, is sent from the owner's account and
    names the owner as trader, and is what was simulated and padded. *)
Theorem prepare_binds_trader `{FeeBuilder} ctx market owner b simulate trader call tx :
  prepareRoute ctx market owner b simulate = Prepared_ trader call tx ->
  trader = owner /\ source call = owner /\ contractId call = market /\
  head (args call) = Some (ScAddress owner) /\
  exists assembled, simulate call = Assembled assembled /\
    buildContractTx ctx owner (Ok assembled) (hints call) = Ok tx.
Proof.
  unfold prepareRoute. destruct (validBody b); simpl; [|done].
  destruct (dispatch market owner b) as [[]|c] eqn:Hd; try done.
  destruct (simulate c) as [| |assembled] eqn:Hs; try done.
  destruct (buildContractTx ctx (source c) (Ok assembled) (hints c)) as [|tx'] eqn:Ht; [done|].
  intros Heq. injection Heq as <- <- <-.
  destruct (dispatch_binds _ _ _ _ Hd) as (Hsrc & Hm & Hh).
  split_and!; [done|exact Hsrc|exact Hm|exact Hh|].
  exists assembled. split; [exact Hs|]. rewrite <- Hsrc at 1. reflexivity.
Qed.

End calls.

(** The SDK's encoding. *)
Definition guarded (lo hi : Z) (c : Z -> ScVal) (z : Z) : Result ScVal :=
  if (lo <=? z) && (z <? hi) then Ok (c z) else Err "value out of range".

Lemma guarded_spec lo hi c z v : guarded lo hi c z = Ok v <-> lo <= z < hi /\ v = c z.
Proof.
  unfold guarded, Ok, Err. destruct (Z.leb_spec lo z), (Z.ltb_spec z hi); simpl; split.
  all: first [intros [= <-]; done | intros [? ->]; first [done | lia] | done].
Qed.

Definition sdkCodec : IntCodec := {|
  encI128 := guarded (- 2 ^ 127) (2 ^ 127) ScI128; encU32 := guarded 0 (2 ^ 32) ScU32;
  encU64 := guarded 0 (2 ^ 64) ScU64;
  encI128_spec := guarded_spec _ _ _; encU32_spec := guarded_spec _ _ _;
  encU64_spec := guarded_spec _ _ _ |}.

Definition iocLimit : PrepareRequest :=
  RLimit {| asset := "BTC"; side := Short; collateral := Big 250000000; leverage := 5 |}
    (Text "0600000000000") Below 50 (Some 1) (Some true).

Lemma prepared_call_is_the_request_witness :
  validBody (serialiseRequest iocLimit) = true /\
  exists call, @dispatch sdkCodec "CMKT" "GA" (serialiseRequest iocLimit) = inr call /\
    contractId call = "CMKT"%string /\
    readCall call = Some ("GA"%string, ALimit "BTC" Short 250000000 5 600000000000 Below 50 IOC true).
Proof.
  apply (@prepared_call_is_the_request sdkCodec "CMKT" "GA" iocLimit); [vm_compute; reflexivity|].
  split; [split; [reflexivity | lia] | lia].
Defined.

Lemma prepare_binds_trader_witness :
  exists call tx,
    @prepareRoute sdkCodec sdkFees marketAndVault "CMKT" "GA" (BCancel (IdNumber 7))
      (fun _ => Assembled simulatedOpen) = Prepared_ "GA" call tx /\
    head (args call) = Some (ScAddress "GA").
Proof.
  eexists. eexists. split; [vm_compute; reflexivity|].
  apply (@prepare_binds_trader sdkCodec sdkFees marketAndVault "CMKT" "GA" (BCancel (IdNumber 7))
    (fun _ => Assembled simulatedOpen) "GA" _ _ eq_refl).
Defined.

(** A close the gateway prepares declares none of the market's own keys: its
    hints name no asset. *)
Example gateway_close_lacks_market_keys :
  forall k call, @dispatch sdkCodec "CMKT" "GA" (BClose false (IdNumber 7)) = inr call ->
    k ∈ guardKeys marketAndVault "GA" (hints call) -> contract k = "CV"%string.
Proof.
  intros k call Hd. injection Hd as <-. rewrite list_elem_of_In. vm_compute.
  intros Hk. repeat destruct Hk as [<-|Hk]; done.
Qed.

(** An id that is no number is answered as a failure of the RPC. *)
Example bad_id_is_rpc_error :
  @prepareRoute sdkCodec sdkFees marketAndVault "CMKT" "GA" (BCancel (IdText "abc"))
    (fun _ => Assembled simulatedOpen) = PrepareRefused 502 "rpc_error".
Proof. reflexivity. Qed.
