(* ===== verification/ContractCalls.v ===== *)
(** * The calls of the router and of the keeper

    Models the argument builders of packages/tx-builders/src/router and of
    scripts/keeper/src/stellar.ts: a signed price round as the router's struct,
    the calls of both generations of the router, the probe that tells them
    apart, and every write the keeper submits with its retry options. The
    builders of the market's calls are in [ApiOrders]. *)

From S2P Require Import Prelude JsText KeeperEffects KeeperSubmit KeeperStork TxFootprint ApiOrders.
Open Scope Z_scope.
Open Scope js_scope.

(** ** Values *)

(** [BytesLike]: hex text, or the bytes themselves. *)
Inductive BytesLike := Hex (s : string) | Raw (bs : list Z).

Definition toBytes (b : BytesLike) : list Z :=
  match b with Hex s => bufferFromHex (String.list_ascii_of_string s) | Raw bs => bs end.

(** [BigInt(v)] of a number, bigint or text. *)
Definition bigOf (v : BigLike) : Result Z :=
  match v with Big z => Ok z | Text s => bigIntOf s end.

#[export] Instance BigLike_eq_dec : EqDecision BigLike.
Proof. solve_decision. Defined.

Fixpoint encAll {A} (enc : A -> Result ScVal) (l : list A) : Result (list ScVal) :=
  match l with
  | [] => Ok []
  | a :: l => v ← enc a; vs ← encAll enc l; Ok (v :: vs)
  end.

Definition bytesVec (l : list BytesLike) : ScVal := ScVec ((fun b => ScBytes (toBytes b)) <$> l).

Section calls.
Context `{IntCodec}.

(** ** The router builders (tx-builders/src/router) *)

Record PriceAttestation := {
  pa_asset : string; prices : list Z; pa_timestamp : Z; roundId : Z;
  pubkeys : list BytesLike; sigs : list BytesLike }.

Definition attestationStructArg (att : PriceAttestation) : Result ScVal :=
  ps ← encAll encI128 (prices att); r ← encU64 (roundId att); t ← encU64 (pa_timestamp att);
  Ok (ScMap [ ("asset"%string, ScSymbol (pa_asset att)); ("prices"%string, ScVec ps);
              ("pubkeys"%string, bytesVec (pubkeys att)); ("round_id"%string, r);
              ("sigs"%string, bytesVec (sigs att)); ("timestamp"%string, t) ]).

Definition openWithPrice (router trader : string) (c l : Z) (d : Side) (acceptable : Z)
    (att : PriceAttestation) : Result ContractCall :=
  callTo router trader "open_with_price" (hinted open_ (Some (pa_asset att)) None)
    (c ← encI128 c; l ← encU32 l; p ← encI128 acceptable; s ← attestationStructArg att;
     Ok [c; l; encDirection d; p; s]).

Definition closeWithPrice (router trader : string) (p acceptable : Z) (att : PriceAttestation)
  : Result ContractCall :=
  callTo router trader "close_with_price" (hinted close_ (Some (pa_asset att)) (Some p))
    (p ← encU64 p; q ← encI128 acceptable; s ← attestationStructArg att; Ok [p; q; s]).

Definition closePartialWithPrice (router trader : string) (p size : Z) (att : PriceAttestation)
  : Result ContractCall :=
  callTo router trader "close_partial_with_price" (hinted close_partial (Some (pa_asset att)) (Some p))
    (p ← encU64 p; q ← encI128 size; s ← attestationStructArg att; Ok [p; q; s]).

(** [(actor, id, attestation)]: execute, liquidate and adl. *)
Definition idWithPrice (id : Z) (att : PriceAttestation) : Result (list ScVal) :=
  i ← encU64 id; s ← attestationStructArg att; Ok [i; s].

Definition executeWithPrice (router keeper : string) (o : Z) (att : PriceAttestation) : Result ContractCall :=
  callTo router keeper "execute_with_price" (hinted execute_order (Some (pa_asset att)) None)
    (idWithPrice o att).

Definition liquidateWithPrice (router keeper : string) (p : Z) (att : PriceAttestation) : Result ContractCall :=
  callTo router keeper "liquidate_with_price" (hinted liquidate (Some (pa_asset att)) (Some p))
    (idWithPrice p att).

Definition adlWithPrice (router caller : string) (p : Z) (att : PriceAttestation) : Result ContractCall :=
  callTo router caller "adl_with_price" (hinted adl (Some (pa_asset att)) (Some p)) (idWithPrice p att).

Definition liquidateCrossWithPrices (router keeper trader : string) (atts : list PriceAttestation)
  : Result ContractCall :=
  callTo router keeper "liquidate_cross_with_prices"
    {| op := Some liquidate_cross; o_trader := Some trader; o_asset := None;
       o_assets := Some (pa_asset <$> atts); o_positionId := None |}
    (ss ← encAll attestationStructArg atts; Ok [ScAddress trader; ScVec ss]).

(** referral.claim(referrer) *)
Definition referralClaim (referral referrer : string) : Result ContractCall :=
  callTo referral referrer "claim" unhinted (Ok []).

(** ** The keeper's builders (stellar.ts) *)

(** One signed round of one asset; its numbers may be text. *)
Record RouterRound := {
  rr_price : BigLike; rr_timestamp : BigLike; rr_round_id : BigLike;
  publisher : string; signature : string }.

Definition hexVec (s : string) : ScVal := ScVec [ScBytes (toBytes (Hex s))].

(** The tail of the first router, after actor and id. *)
Definition legacyTail (a : string) (r : RouterRound) : Result (list ScVal) :=
  p ← (p ← bigOf (rr_price r); encI128 p);
  t ← (t ← bigOf (rr_timestamp r); encU64 t);
  n ← (n ← bigOf (rr_round_id r); encU64 n);
  Ok [ScSymbol a; p; t; n; hexVec (publisher r); hexVec (signature r)].

Definition buildRouterCallArgs (id : Z) (a : string) (r : RouterRound) : Result (list ScVal) :=
  i ← encU64 id; tail ← legacyTail a r; Ok (i :: tail).

(** The struct of a round: [key] is [price], or [prices] of one price. *)
Definition roundStruct (v2 : bool) (a : string) (r : RouterRound) : Result ScVal :=
  p ← (p ← bigOf (rr_price r); encI128 p);
  n ← (n ← bigOf (rr_round_id r); encU64 n);
  t ← (t ← bigOf (rr_timestamp r); encU64 t);
  Ok (ScMap [ ("asset"%string, ScSymbol a);
              (if v2 then ("prices"%string, ScVec [p]) else ("price"%string, p));
              ("pubkeys"%string, hexVec (publisher r)); ("round_id"%string, n);
              ("sigs"%string, hexVec (signature r)); ("timestamp"%string, t) ]).

Definition buildPriceAttestationScVal : string -> RouterRound -> Result ScVal := roundStruct false.
Definition buildPriceAttestationScValV2 : string -> RouterRound -> Result ScVal := roundStruct true.

Definition buildRouterCallArgsV2 (id : Z) (a : string) (r : RouterRound) : Result (list ScVal) :=
  i ← encU64 id; s ← buildPriceAttestationScValV2 a r; Ok [i; s].

Definition routerCallArgs (v2 : bool) (id : Z) (a : string) (r : RouterRound) : Result (list ScVal) :=
  if v2 then buildRouterCallArgsV2 id a r else buildRouterCallArgs id a r.

(** ** Which router is deployed (routerAbiV2) *)

(** The probe of get_reflector_config: it answers, or throws its message. *)
Definition routerAbiV2 (router : option string) (probe : Result ()) (memo : option bool)
  : bool * option bool :=
  match memo with
  | Some v2 => (v2, memo)
  | None =>
      match router with
      | None => (false, None)
      | Some _ =>
          match probe with
          | inr _ => (true, Some true)
          | inl e => if isMissingContractFunction e then (false, Some false) else (false, None)
          end
      end
  end.

(** ** Every write of the keeper *)

(** The contracts as configured, and the wallet. *)
Record Keeper := {
  publicKey : string; k_market : string; k_noeracle : string;
  k_factory : option string; k_router : option string }.

(** A price of a published batch: the SDK's attestation. *)
Record SignedPrice := {
  sp_message : string; sp_price : BigLike; sp_timestamp : BigLike; sp_round_id : BigLike;
  sp_publisher : string; sp_signature : string }.

Inductive KeeperWrite :=
| WUpdateBatch (atts : list SignedPrice)
| WSyncAssetPnl (a : string)
| WLiquidate (id : Z)
| WExecuteOrder (id : Z)
| WLiquidateCross (trader : string)
| WCheckAdlTrigger (a : string)
| WAdlClose (id : Z)
| WExecuteViaRouter (id : Z) (a : string) (r : RouterRound)
| WLiquidateViaRouter (id : Z) (a : string) (r : RouterRound)
| WAdlCloseViaRouter (id : Z) (a : string) (r : RouterRound)
| WLiquidateCrossViaRouter (trader : string) (rounds : list (string * RouterRound))
| WRelayStork (payload : list Z)
| WReconcileOrder (vaultId orderId : Z)
| WUpdateTrailingPeak (id : Z)
| WApplyFunding.

(** A call of the keeper: its wallet is the source, and it pads nothing. *)
Definition keeperCall (k : Keeper) (contract m : string) (rest : Result (list ScVal)) : Result ContractCall :=
  vs ← rest;
  Ok {| source := publicKey k; contractId := contract; method := m; args := vs; hints := unhinted |}.

Definition actorAndId (k : Keeper) (id : Z) : Result (list ScVal) :=
  i ← encU64 id; Ok [ScAddress (publicKey k); i].

(** The price asked of each attestation and the signature, in order. *)
Definition batchArgs (first : SignedPrice) (atts : list SignedPrice) : Result (list ScVal) :=
  ps ← encAll (fun a => p ← bigOf (sp_price a); encI128 p) atts;
  t ← (t ← bigOf (sp_timestamp first); encU64 t);
  n ← (n ← bigOf (sp_round_id first); encU64 n);
  Ok [ ScVec ((fun a => ScBytes (take 8 (toBytes (Hex (sp_message a))))) <$> atts); ScVec ps; t; n;
       ScBytes (toBytes (Hex (sp_publisher first)));
       ScVec ((fun a => ScBytes (toBytes (Hex (sp_signature a)))) <$> atts) ].

(** A batch that mixes rounds or publishers. *)
Definition mixed (first : SignedPrice) (atts : list SignedPrice) : bool :=
  existsb (fun a =>
    negb (bool_decide (sp_timestamp a = sp_timestamp first))
    || negb (bool_decide (sp_round_id a = sp_round_id first))
    || negb (String.eqb (sp_publisher a) (sp_publisher first))) atts.

Definition noRouter : string := "router contract id not configured".

(** [{ success: false, error }] without a call, or the call: [Err] when
    building an argument throws. *)
Definition viaRouter (k : Keeper) (m : string) (rest : Result (list ScVal)) : string + Result ContractCall :=
  match k_router k with None => inl noRouter | Some router => inr (keeperCall k router m rest) end.

Definition actorRound (k : Keeper) (v2 : bool) (id : Z) (a : string) (r : RouterRound) : Result (list ScVal) :=
  vs ← routerCallArgs v2 id a r; Ok (ScAddress (publicKey k) :: vs).

Definition keeperWrite (k : Keeper) (v2 : bool) (w : KeeperWrite) : string + Result ContractCall :=
  let market m rest := inr (keeperCall k (k_market k) m rest) in
  match w with
  | WUpdateBatch [] => inl "empty attestation batch"%string
  | WUpdateBatch ((first :: _) as atts) =>
      if mixed first atts then inl "attestation batch mixes rounds or publishers"%string
      else inr (keeperCall k (k_noeracle k) "update_batch_ed25519_persistent" (batchArgs first atts))
  | WSyncAssetPnl a => market "sync_asset_pnl"%string (Ok [ScSymbol a])
  | WLiquidate id => market "liquidate"%string (actorAndId k id)
  | WExecuteOrder id => market "execute_order"%string (actorAndId k id)
  | WLiquidateCross t => market "liquidate_cross_account"%string (Ok [ScAddress (publicKey k); ScAddress t])
  | WCheckAdlTrigger a => market "check_adl_trigger"%string (Ok [ScSymbol a])
  | WAdlClose id => market "adl_close"%string (actorAndId k id)
  | WExecuteViaRouter id a r => viaRouter k "execute_with_price" (actorRound k v2 id a r)
  | WLiquidateViaRouter id a r => viaRouter k "liquidate_with_price" (actorRound k v2 id a r)
  | WAdlCloseViaRouter id a r => viaRouter k "adl_with_price" (actorRound k v2 id a r)
  | WLiquidateCrossViaRouter t rounds =>
      viaRouter k "liquidate_cross_with_prices"
        (ss ← encAll (fun ar : string * RouterRound => roundStruct v2 ar.1 ar.2) rounds;
         Ok [ScAddress (publicKey k); ScAddress t; ScVec ss])
  | WRelayStork payload => viaRouter k "relay_stork" (Ok [ScBytes payload])
  | WReconcileOrder v o =>
      match k_factory k with
      | None => inl "vault factory contract id not configured"%string
      | Some factory =>
          inr (keeperCall k factory "reconcile_order" (v ← encU32 v; o ← encU64 o; Ok [v; o]))
      end
  | WUpdateTrailingPeak id => market "update_trailing_peak"%string (i ← encU64 id; Ok [i])
  | WApplyFunding => market "apply_funding"%string (Ok [])
  end.

(** What a write asks of the chain before it is sent again in doubt. *)
Inductive Recheck := PositionThere (id : Z) | OrderStillPending (id : Z) | CrossLeft (trader : string).

Definition recheckOf (w : KeeperWrite) : option Recheck :=
  match w with
  | WLiquidate id | WAdlClose id | WLiquidateViaRouter id _ _ | WAdlCloseViaRouter id _ _ => Some (PositionThere id)
  | WExecuteOrder id | WExecuteViaRouter id _ _ => Some (OrderStillPending id)
  | WLiquidateCross t | WLiquidateCrossViaRouter t _ => Some (CrossLeft t)
  | _ => None
  end.

Definition writeOptions (w : KeeperWrite) : WriteOptions := {|
  escalateFees := match w with
    | WLiquidate _ | WAdlClose _ | WLiquidateViaRouter _ _ _ | WAdlCloseViaRouter _ _ _
    | WLiquidateCross _ | WLiquidateCrossViaRouter _ _ => true
    | _ => false
    end;
  maxRetries := match w with WSyncAssetPnl _ => 1%nat | _ => MAX_RETRIES end;
  hasRecheck := bool_decide (is_Some (recheckOf w)) |}.

End calls.

(** ** Reading calls back *)

(** A price bundle as the router sees it. *)
Record Bundle := {
  b_asset : string; b_prices : list Z; b_time : Z; b_round : Z;
  b_keys : list (list Z); b_sigs : list (list Z) }.

Definition readI128 (v : ScVal) : option Z := match v with ScI128 z => Some z | _ => None end.
Definition readBytes (v : ScVal) : option (list Z) := match v with ScBytes b => Some b | _ => None end.

(** The price field of either generation of the struct. *)
Definition readPrices (k : string) (v : ScVal) : option (list Z) :=
  if String.eqb k "prices" then match v with ScVec vs => mapM readI128 vs | _ => None end
  else if String.eqb k "price" then (fun z => [z]) <$> readI128 v else None.

Definition readStruct (v : ScVal) : option Bundle :=
  match v with
  | ScMap [(ka, ScSymbol a); (kp, p); (kk, ScVec ks); (kr, ScU64 n); (ks', ScVec ss); (kt, ScU64 t)] =>
      if String.eqb ka "asset" && String.eqb kk "pubkeys" && String.eqb kr "round_id"
         && String.eqb ks' "sigs" && String.eqb kt "timestamp"
      then match readPrices kp p, mapM readBytes ks, mapM readBytes ss with
           | Some ps, Some keys, Some sg =>
               Some {| b_asset := a; b_prices := ps; b_time := t; b_round := n; b_keys := keys; b_sigs := sg |}
           | _, _, _ => None
           end
      else None
  | _ => None
  end.

(** The round of a router call: the struct, or the tail of the first router. *)
Definition readRound (vs : list ScVal) : option Bundle :=
  match vs with
  | [v] => readStruct v
  | v :: tail =>
      match v, tail with
      | ScSymbol a, [ScI128 p; ScU64 t; ScU64 n; ScVec [ScBytes key]; ScVec [ScBytes sg]] =>
          Some {| b_asset := a; b_prices := [p]; b_time := t; b_round := n; b_keys := [key]; b_sigs := [sg] |}
      | _, _ => None
      end
  | [] => None
  end.

(** What a call of the keeper does, in numbers and bytes. A published price
    is its tag, value and signature with the timestamp, round and key it was
    signed under. *)
Inductive Said :=
| SBatch (prices : list (list Z * Z * list Z * Z * Z * list Z))
| SSyncAssetPnl (a : string)
| SLiquidate (id : Z) | SExecuteOrder (id : Z) | SAdlClose (id : Z) | STrailingPeak (id : Z)
| SLiquidateCross (trader : string)
| SCheckAdlTrigger (a : string)
| SOnRouter (fn : string) (id : Z) (b : Bundle)
| SCrossOnRouter (trader : string) (bs : list Bundle)
| SRelayStork (payload : list Z)
| SReconcile (vaultId orderId : Z)
| SApplyFunding.

(** The writes with an actor are read only when the actor is the source. *)
Definition readWrite (c : ContractCall) : option Said :=
  let calls m := String.eqb (method c) m in
  match args c with
  | [] => if calls "apply_funding"%string then Some SApplyFunding else None
  | [ScSymbol a] =>
      if calls "sync_asset_pnl"%string then Some (SSyncAssetPnl a)
      else if calls "check_adl_trigger"%string then Some (SCheckAdlTrigger a) else None
  | [ScU64 id] => if calls "update_trailing_peak"%string then Some (STrailingPeak id) else None
  | [ScBytes p] => if calls "relay_stork"%string then Some (SRelayStork p) else None
  | [ScU32 v; ScU64 o] => if calls "reconcile_order"%string then Some (SReconcile v o) else None
  | [ScVec tags; ScVec ps; ScU64 t; ScU64 n; ScBytes key; ScVec ss] =>
      if calls "update_batch_ed25519_persistent"%string then
        match mapM readBytes tags, mapM readI128 ps, mapM readBytes ss with
        | Some tags, Some ps, Some ss => Some (SBatch ((fun x => (x, t, n, key)) <$> zip (zip tags ps) ss))
        | _, _, _ => None
        end
      else None
  | [ScAddress w; ScAddress t] =>
      if String.eqb w (source c) && calls "liquidate_cross_account"%string then Some (SLiquidateCross t) else None
  | [ScAddress w; ScAddress t; ScVec ss] =>
      if String.eqb w (source c) && calls "liquidate_cross_with_prices"%string
      then SCrossOnRouter t <$> mapM readStruct ss else None
  | [ScAddress w; ScU64 id] =>
      if negb (String.eqb w (source c)) then None
      else if calls "liquidate"%string then Some (SLiquidate id)
      else if calls "execute_order"%string then Some (SExecuteOrder id)
      else if calls "adl_close"%string then Some (SAdlClose id) else None
  | ScAddress w :: ScU64 id :: round =>
      if String.eqb w (source c) then SOnRouter (method c) id <$> readRound round else None
  | _ => None
  end.

(** ** What is meant *)

Definition okOr {A} (r : Result A) : option A := match r with inr a => Some a | inl _ => None end.

Definition bundleOf (att : PriceAttestation) : Bundle := {|
  b_asset := pa_asset att; b_prices := prices att; b_time := pa_timestamp att; b_round := roundId att;
  b_keys := toBytes <$> pubkeys att; b_sigs := toBytes <$> sigs att |}.

(** The keeper's round as the attestation of one publisher. *)
Definition attOf (a : string) (r : RouterRound) : Result PriceAttestation :=
  p ← bigOf (rr_price r); n ← bigOf (rr_round_id r); t ← bigOf (rr_timestamp r);
  Ok {| pa_asset := a; prices := [p]; pa_timestamp := t; roundId := n;
        pubkeys := [Hex (publisher r)]; sigs := [Hex (signature r)] |}.

Definition roundBundle (a : string) (r : RouterRound) : option Bundle := bundleOf <$> okOr (attOf a r).

Definition pricedTag (a : SignedPrice) : option (list Z * Z * list Z) :=
  (fun p => (take 8 (toBytes (Hex (sp_message a))), p, toBytes (Hex (sp_signature a))))
    <$> okOr (bigOf (sp_price a)).

Definition signedUnder (a : SignedPrice) : option (list Z * Z * list Z * Z * Z * list Z) :=
  x ← pricedTag a; t ← okOr (bigOf (sp_timestamp a)); n ← okOr (bigOf (sp_round_id a));
  Some (x, t, n, toBytes (Hex (sp_publisher a))).

Definition saidOf (w : KeeperWrite) : option Said :=
  match w with
  | WUpdateBatch atts => SBatch <$> mapM signedUnder atts
  | WSyncAssetPnl a => Some (SSyncAssetPnl a)
  | WLiquidate id => Some (SLiquidate id)
  | WExecuteOrder id => Some (SExecuteOrder id)
  | WLiquidateCross t => Some (SLiquidateCross t)
  | WCheckAdlTrigger a => Some (SCheckAdlTrigger a)
  | WAdlClose id => Some (SAdlClose id)
  | WExecuteViaRouter id a r => SOnRouter "execute_with_price" id <$> roundBundle a r
  | WLiquidateViaRouter id a r => SOnRouter "liquidate_with_price" id <$> roundBundle a r
  | WAdlCloseViaRouter id a r => SOnRouter "adl_with_price" id <$> roundBundle a r
  | WLiquidateCrossViaRouter t rounds =>
      SCrossOnRouter t <$> mapM (fun ar : string * RouterRound => roundBundle ar.1 ar.2) rounds
  | WRelayStork payload => Some (SRelayStork payload)
  | WReconcileOrder v o => Some (SReconcile v o)
  | WUpdateTrailingPeak id => Some (STrailingPeak id)
  | WApplyFunding => Some SApplyFunding
  end.

(** The contract a write goes to. *)
Definition contractFor (k : Keeper) (w : KeeperWrite) : option string :=
  match w with
  | WUpdateBatch _ => Some (k_noeracle k)
  | WReconcileOrder _ _ => k_factory k
  | WExecuteViaRouter _ _ _ | WLiquidateViaRouter _ _ _ | WAdlCloseViaRouter _ _ _
  | WLiquidateCrossViaRouter _ _ | WRelayStork _ => k_router k
  | _ => Some (k_market k)
  end.

(** The keys of a struct, strictly ascending as the host decodes them. *)
Definition keysAscend (v : ScVal) : bool :=
  match v with
  | ScMap es => (fix up (l : list string) := match l with
      | a :: (b :: _) as l => String.ltb a b && up l | _ => true end) (fst <$> es)
  | _ => false
  end.

(** ** Lemmas *)

Lemma bytes_read l : mapM readBytes ((fun b => ScBytes (toBytes b)) <$> l) = Some (toBytes <$> l).
Proof. apply mapM_Some, Forall2_fmap, Forall_Forall2_diag, Forall_true. done. Qed.

Section codec.
Context `{IntCodec}.

Lemma encI128_inv z v : encI128 z = Ok v -> v = ScI128 z.
Proof. by intros [_ ->]%encI128_spec. Qed.

Lemma encU64_inv z v : encU64 z = Ok v -> v = ScU64 z.
Proof. by intros [_ ->]%encU64_spec. Qed.

Lemma encU32_inv z v : encU32 z = Ok v -> v = ScU32 z.
Proof. by intros [_ ->]%encU32_spec. Qed.

End codec.

(** Read the encoded integers and parsed numbers off the hypotheses. *)
Ltac inv_enc :=
  repeat match goal with
  | H : encI128 _ = Ok _ |- _ => apply encI128_inv in H as ->
  | H : encU64 _ = Ok _ |- _ => apply encU64_inv in H as ->
  | H : encU32 _ = Ok _ |- _ => apply encU32_inv in H as ->
  | H : bigOf _ = Ok _ |- _ => rewrite ?H; clear H
  end.

Section lemmas.
Context `{IntCodec}.

(** What is encoded entry by entry is read entry by entry. *)
Lemma encAll_read {A B} (enc : A -> Result ScVal) (f : ScVal -> option B) (g : A -> option B) l vs :
  (forall a v, enc a = Ok v -> f v = g a) -> encAll enc l = Ok vs -> mapM f vs = mapM g l.
Proof.
  intros Hf. revert vs. induction l as [|a l IH]; simpl; intros vs Hv; inv_binds; injection Hv as <-.
  - done.
  - cbn [mapM]. by rewrite (Hf _ _ Ha), (IH _ Ha0).
Qed.

Lemma encAll_reads {A B} (enc : A -> Result ScVal) (f : ScVal -> option B) l vs :
  (forall a v, enc a = Ok v -> is_Some (f v)) -> encAll enc l = Ok vs -> is_Some (mapM f vs).
Proof.
  intros Hf Hv. apply mapM_is_Some. revert vs Hv.
  induction l as [|a l IH]; simpl; intros vs Hv; inv_binds; injection Hv as <-; constructor; eauto.
Qed.

Lemma mapM_pure {A} (l : list A) : mapM Some l = Some l.
Proof. apply mapM_Some, Forall_Forall2_diag, Forall_true. done. Qed.

Lemma struct_read att v :
  attestationStructArg att = Ok v -> keysAscend v = true /\ readStruct v = Some (bundleOf att).
Proof.
  unfold attestationStructArg. intros Hv. inv_binds. injection Hv as <-.
  apply encU64_inv in Ha0 as ->, Ha1 as ->. split; [done|].
  unfold readStruct, readPrices; simpl. unfold bytesVec. rewrite !bytes_read.
  rewrite (encAll_read _ readI128 Some _ _ (fun z w Hz => f_equal readI128 (encI128_inv z w Hz)) Ha).
  by rewrite mapM_pure.
Qed.

Lemma roundStruct_read v2 a r v :
  roundStruct v2 a r = Ok v ->
  exists att, attOf a r = Ok att /\ keysAscend v = true /\ readStruct v = Some (bundleOf att).
Proof.
  unfold roundStruct, attOf. intros Hv. inv_binds. injection Hv as <-. inv_enc.
  unfold Ok. simpl. eexists. split; [reflexivity|].
  by destruct v2.
Qed.

(** The round of a router call of either generation, behind its id. *)
Lemma routerCallArgs_read v2 id a r vs :
  routerCallArgs v2 id a r = Ok vs ->
  exists att round, attOf a r = Ok att /\ vs = ScU64 id :: round /\ readRound round = Some (bundleOf att).
Proof.
  destruct v2; simpl; [unfold buildRouterCallArgsV2 | unfold buildRouterCallArgs, legacyTail];
    intros Hv; inv_binds; injection Hv as <-.
  - apply roundStruct_read in Ha0 as (att & ? & _ & ?). inv_enc. exists att. eexists. split; [done|]. split; [reflexivity|done].
  - injection Ha0 as <-. unfold attOf. inv_enc. eexists. eexists. split; [reflexivity|]. split; reflexivity.
Qed.

Lemma mapM_ext_l {A B} (f g : A -> option B) l : (forall a, f a = g a) -> mapM f l = mapM g l.
Proof. intros Hf. induction l as [|a l IH]; [done|]. cbn [mapM]. by rewrite Hf, IH. Qed.

Lemma roundStruct_is_Some v2 (ar : string * RouterRound) v :
  roundStruct v2 ar.1 ar.2 = Ok v -> is_Some (readStruct v).
Proof. intros Hv. apply roundStruct_read in Hv as (att & _ & _ & ->). by eexists. Qed.

Lemma rounds_read v2 (rounds : list (string * RouterRound)) vs :
  encAll (fun ar => roundStruct v2 ar.1 ar.2) rounds = Ok vs ->
  mapM readStruct vs = mapM (fun ar => roundBundle ar.1 ar.2) rounds.
Proof.
  apply (encAll_read _ readStruct (fun ar => roundBundle ar.1 ar.2)). intros [a r] v Hv. simpl in Hv |- *.
  apply roundStruct_read in Hv as (att & Ha & _ & Hr). unfold roundBundle. by rewrite Ha.
Qed.

(** The three aligned columns of a batch are its priced tags. *)
Lemma batch_columns (atts : list SignedPrice) ps :
  mapM (fun a => okOr (bigOf (sp_price a))) atts = Some ps ->
  mapM pricedTag atts
  = Some (zip (zip ((fun a => take 8 (toBytes (Hex (sp_message a)))) <$> atts) ps)
              ((fun a => toBytes (Hex (sp_signature a))) <$> atts)).
Proof.
  revert ps. induction atts as [|a atts IH]; cbn [mapM]; intros ps Hp.
  - by injection Hp as <-.
  - apply bind_Some in Hp as (p & Hp & Hps). apply bind_Some in Hps as (ps' & Hps & [= <-]).
    rewrite (IH _ Hps). unfold pricedTag. by rewrite Hp.
Qed.

Lemma bytes_read_of {A} (g : A -> list Z) (l : list A) :
  mapM readBytes ((fun a => ScBytes (g a)) <$> l) = Some (g <$> l).
Proof. apply mapM_Some, Forall2_fmap, Forall_Forall2_diag, Forall_true. done. Qed.

Lemma priceOf_read (x : SignedPrice) v :
  (p ← bigOf (sp_price x); encI128 p) = Ok v ->
  readI128 v = okOr (bigOf (sp_price x)) /\ is_Some (readI128 v).
Proof. intros Hv. inv_binds. inv_enc. split; [done | by eexists]. Qed.

(** A batch that is not mixed was signed under one round by one publisher. *)
Lemma mixed_false first l a :
  mixed first l = false -> a ∈ l ->
  sp_timestamp a = sp_timestamp first /\ sp_round_id a = sp_round_id first /\ sp_publisher a = sp_publisher first.
Proof.
  unfold mixed. intros Hm Ha.
  match type of Hm with existsb ?f _ = _ => assert (f a = false) as Hf end.
  { match goal with |- ?b = _ => destruct b eqn:Hb; [|done] end.
    rewrite <- Hm. symmetry. apply existsb_exists. exists a. by rewrite <- list_elem_of_In. }
  apply orb_false_iff in Hf as [[Ht%negb_false_iff Hn%negb_false_iff]%orb_false_iff Hp%negb_false_iff].
  by apply bool_decide_eq_true in Ht, Hn; apply String.eqb_eq in Hp.
Qed.

Lemma signedUnder_shared first t n l (ps : list (list Z * Z * list Z)) :
  (forall a, a ∈ l -> sp_timestamp a = sp_timestamp first /\ sp_round_id a = sp_round_id first
                      /\ sp_publisher a = sp_publisher first) ->
  bigOf (sp_timestamp first) = Ok t -> bigOf (sp_round_id first) = Ok n -> mapM pricedTag l = Some ps ->
  mapM (M := option) signedUnder l = Some ((fun x => (x, t, n, toBytes (Hex (sp_publisher first)))) <$> ps).
Proof.
  intros Hl Ht Hn. revert ps. induction l as [|a l IH]; intros ps Hp; [by injection Hp as <-|].
  apply bind_Some in Hp as (p & Hp & Hps). apply bind_Some in Hps as (ps' & Hps & [= <-]).
  cbn [mapM]. rewrite (IH (fun b Hb => Hl b (list_elem_of_further _ _ _ Hb)) _ Hps).
  destruct (Hl a ltac:(left)) as (Ea & Eb & Ec). unfold signedUnder. by rewrite Hp, Ea, Eb, Ec, Ht, Hn.
Qed.

Lemma batchArgs_read first l vs c :
  batchArgs first l = Ok vs -> mixed first l = false ->
  args c = vs -> method c = "update_batch_ed25519_persistent"%string ->
  exists ps, mapM signedUnder l = Some ps /\ readWrite c = Some (SBatch ps).
Proof.
  unfold batchArgs. intros Hv Hmix Ha Hm. inv_binds. injection Hv as <-.
  rename select (encAll _ _ = _) into He.
  pose proof (encAll_read _ _ _ _ _ (fun x v Hx => proj1 (priceOf_read x v Hx)) He) as Hr.
  destruct (encAll_reads _ _ _ _ (fun x v Hx => proj2 (priceOf_read x v Hx)) He) as [ps Hps].
  pose proof (batch_columns l ps) as Hcol. rewrite Hps in Hr. specialize (Hcol (eq_sym Hr)).
  rename select (bigOf (sp_timestamp _) = _) into Ht. rename select (bigOf (sp_round_id _) = _) into Hn.
  eexists. split.
  - eapply (signedUnder_shared first); [exact (fun a => mixed_false first l a Hmix) | exact Ht | exact Hn | exact Hcol].
  - clear Ht Hn. inv_enc. unfold readWrite. rewrite Ha, Hm. cbn [String.eqb Ascii.eqb Bool.eqb].
    by rewrite !bytes_read_of, Hps.
Qed.

Lemma keeperCall_inv k contract m rest c :
  keeperCall k contract m rest = Ok c ->
  exists vs, rest = Ok vs /\ c = {| source := publicKey k; contractId := contract; method := m;
                                   args := vs; hints := unhinted |}.
Proof. unfold keeperCall. intros Hc. inv_binds. injection Hc as <-. by eexists. Qed.

(** A call of the router for an actor, an id and a round. *)
Lemma actorRound_read k v2 id a r vs contract m :
  actorRound k v2 id a r = Ok vs ->
  is_Some (roundBundle a r) /\
  readWrite {| source := publicKey k; contractId := contract; method := m; args := vs; hints := unhinted |}
  = SOnRouter m id <$> roundBundle a r.
Proof.
  unfold actorRound. intros Hv. inv_binds. injection Hv as <-.
  apply routerCallArgs_read in Ha as (att & round & Hatt & -> & Hr).
  unfold roundBundle. rewrite Hatt. split; [by eexists|].
  unfold readWrite; cbn [args source method]. rewrite String.eqb_refl.
  destruct round as [|v round]; [done|]. rewrite Hr. by destruct v, round.
Qed.
(** C7. Every transaction the keeper submits does what the write asks for,
    under either generation of the router: it is sent from the keeper's
    wallet to the contract configured for it, and the ids, prices, rounds, keys
    and signatures read back from its arguments are those of the write. *)
Theorem keeper_calls_say_what_is_done k v2 w c :
  keeperWrite k v2 w = inr (Ok c) ->
  source c = publicKey k /\ contractFor k w = Some (contractId c) /\
  readWrite c = saidOf w /\ is_Some (saidOf w).
Proof.
  intros Hw. destruct w as [[|x l]| | | | | | | | | | | | | |]; cbn [keeperWrite contractFor] in Hw |- *;
    unfold viaRouter in Hw; repeat case_match; try discriminate Hw; apply (inj inr) in Hw;
    apply keeperCall_inv in Hw as (vs & Hvs & ->).
  all: split; [done|]; split; [done|].
  all: try (by (unfold actorAndId in Hvs; inv_binds; injection Hvs as <-; inv_enc; unfold readWrite; simpl;
                rewrite ?String.eqb_refl; eauto)).
  all: try (eapply actorRound_read in Hvs as [Hs Hr]; split; [exact Hr | by apply fmap_is_Some]).
  - rename select (mixed _ _ = false) into Hmix.
    match goal with |- readWrite ?c = _ /\ _ =>
      destruct (batchArgs_read x (x :: l) vs c Hvs Hmix eq_refl eq_refl) as (ps & Hps & Hr) end.
    rewrite Hr. cbn [saidOf]. rewrite Hps. split; [done | by eexists].
  - inv_binds. injection Hvs as <-. unfold readWrite; cbn [args source method].
    rewrite String.eqb_refl. cbn [saidOf andb String.eqb Ascii.eqb Bool.eqb].
    rewrite (rounds_read v2 rounds a Ha).
    split; [done|]. apply fmap_is_Some. rewrite <- (rounds_read v2 rounds a Ha).
    apply (encAll_reads _ readStruct _ _ (fun ar v Hv => roundStruct_is_Some v2 ar v Hv) Ha).
Qed.

(** ** The keeper against the builders *)

(** A call without its footprint hints. *)
Definition wire (c : ContractCall) : string * string * string * list ScVal :=
  (source c, contractId c, method c, args c).

Definition onOk {A B} (f : A -> B) (r : Result A) : Result B := a ← r; Ok (f a).

Definition sameCall (x : string + Result ContractCall) (y : Result ContractCall) : Prop :=
  exists x', x = inr x' /\ onOk wire x' = onOk wire y.

Lemma roundStruct_builder a r att :
  attOf a r = Ok att -> roundStruct true a r = attestationStructArg att /\ pa_asset att = a.
Proof.
  unfold attOf. intros Ha. inv_binds. injection Ha as <-. split; [|done].
  unfold roundStruct, attestationStructArg.
  repeat match goal with H : bigOf _ = Ok _ |- _ => rewrite H; clear H end.
  cbn. by destruct (encI128 _).
Qed.

Lemma encAll_ext {A B} (f : A -> Result ScVal) (g : B -> Result ScVal) l l' :
  Forall2 (fun a b => f a = g b) l l' -> encAll f l = encAll g l'.
Proof. induction 1 as [|a b l l' Hab _ IH]; [done|]. simpl. by rewrite Hab, IH. Qed.

Lemma actorRound_builder k id a r att :
  attOf a r = Ok att ->
  actorRound k true id a r = (vs ← idWithPrice id att; Ok (ScAddress (publicKey k) :: vs)).
Proof.
  intros Ha. destruct (roundStruct_builder a r att Ha) as [Hs _].
  unfold actorRound, routerCallArgs, buildRouterCallArgsV2, buildPriceAttestationScValV2, idWithPrice.
  by rewrite Hs.
Qed.

Lemma keeperCall_callTo k contract m o rest :
  onOk wire (keeperCall k contract m (vs ← rest; Ok (ScAddress (publicKey k) :: vs)))
  = onOk wire (callTo contract (publicKey k) m o rest).
Proof. unfold keeperCall, callTo. by destruct rest. Qed.

(** On the current router the keeper builds the calls the shared builders
    build: for the same round, the executions, liquidations, forced closes and
    cross liquidations of both are the same transaction operation, or both
    refuse. *)
Theorem keeper_router_calls_match_builders k router id a r att trader rounds atts :
  k_router k = Some router -> attOf a r = Ok att ->
  Forall2 (fun ar b => attOf ar.1 ar.2 = Ok b) rounds atts ->
  let keeper := publicKey k in
  sameCall (keeperWrite k true (WExecuteViaRouter id a r)) (executeWithPrice router keeper id att) /\
  sameCall (keeperWrite k true (WLiquidateViaRouter id a r)) (liquidateWithPrice router keeper id att) /\
  sameCall (keeperWrite k true (WAdlCloseViaRouter id a r)) (adlWithPrice router keeper id att) /\
  sameCall (keeperWrite k true (WLiquidateCrossViaRouter trader rounds))
           (liquidateCrossWithPrices router keeper trader atts).
Proof.
  intros Hk Ha Hrs keeper. subst keeper. unfold keeperWrite, viaRouter. rewrite Hk, (actorRound_builder k id a r att Ha).
  split_and!; (eexists; split; [reflexivity|]); try apply keeperCall_callTo.
  erewrite (encAll_ext _ attestationStructArg rounds atts).
  - unfold liquidateCrossWithPrices. erewrite <- keeperCall_callTo. f_equal. f_equal. by destruct (encAll _ _).
  - eapply Forall2_impl; [exact Hrs|]. intros [b r'] att' Hb. apply (roundStruct_builder b r' att' Hb).
Qed.

(** ** The probe *)

(** Once an answer is known it is the answer of every later call. *)
Lemma abi_memo_stable router probe v2 : routerAbiV2 router probe (Some v2) = (v2, Some v2).
Proof. done. Qed.

(** The struct form is used only of a router that answered the probe. *)
Lemma abi_v2_answered router probe memo' :
  routerAbiV2 router probe None = (true, memo') -> exists u, probe = inr u.
Proof. unfold routerAbiV2. destruct router; [|done]. destruct probe as [e|u]; [by destruct (isMissingContractFunction e)|eauto]. Qed.
End lemmas.

(** ** Concrete calls *)

Definition oneKeeper : Keeper := {|
  publicKey := "GK"; k_market := "CM"; k_noeracle := "CN"; k_factory := None; k_router := Some "CR"%string |}.

Definition btcRound : RouterRound := {|
  rr_price := Text "600000000000"; rr_timestamp := Big 1700000000; rr_round_id := Big 42;
  publisher := "0a0b"; signature := "ff01" |}.

Definition signedBtc : SignedPrice := {|
  sp_message := "4254430000000000aabb"; sp_price := Text "600000000000"; sp_timestamp := Big 1700000000;
  sp_round_id := Big 42; sp_publisher := "0a0b"; sp_signature := "ff01" |}.

Definition signedEth : SignedPrice := {|
  sp_message := "4554480000000000aabb"; sp_price := Text "30000000000"; sp_timestamp := Big 1700000000;
  sp_round_id := Big 42; sp_publisher := "0a0b"; sp_signature := "ff02" |}.

Lemma keeper_calls_say_what_is_done_witness :
  exists c,
    @keeperWrite sdkCodec oneKeeper true (WUpdateBatch [signedBtc; signedEth]) = inr (Ok c) /\
    source c = "GK"%string /\
    readWrite c = Some (SBatch
      [ ([66; 84; 67; 0; 0; 0; 0; 0], 600000000000, [255; 1], 1700000000, 42, [10; 11]);
        ([69; 84; 72; 0; 0; 0; 0; 0], 30000000000, [255; 2], 1700000000, 42, [10; 11]) ]).
Proof.
  eexists. split; [vm_compute; reflexivity|].
  edestruct (@keeper_calls_say_what_is_done sdkCodec oneKeeper true (WUpdateBatch [signedBtc; signedEth]))
    as (Hs & _ & Hr & _); [vm_compute; reflexivity|].
  split; [exact Hs|]. rewrite Hr. vm_compute. reflexivity.
Defined.

Lemma keeper_router_calls_match_builders_witness :
  exists att, attOf "BTC" btcRound = Ok att /\
    sameCall (@keeperWrite sdkCodec oneKeeper true (WLiquidateViaRouter 7 "BTC" btcRound))
             (@liquidateWithPrice sdkCodec "CR" "GK" 7 att).
Proof.
  eexists. split; [vm_compute; reflexivity|].
  apply (@keeper_router_calls_match_builders sdkCodec oneKeeper "CR" 7 "BTC" btcRound _ "GT" [] []);
    [reflexivity | vm_compute; reflexivity | constructor].
Defined.

(** A cross liquidation built for a trader declares the settlement entries of
    the keeper that sends it, not of the trader it names in its hints. *)
Example cross_liquidation_pads_keeper :
  forall call, @liquidateCrossWithPrices sdkCodec "CR" "GK" "GT" [] = Ok call ->
    contractDataKey "CV" "ShortfallOwed" [KAddress "GK"] ∈ guardKeys marketAndVault "GK" (hints call) /\
    contractDataKey "CV" "ShortfallOwed" [KAddress "GT"] ∉ guardKeys marketAndVault "GK" (hints call).
Proof.
  intros call Hc. injection Hc as <-.
  split; [apply (bool_decide_unpack _) | apply (bool_decide_unpack _)]; vm_compute; exact I.
Qed.
