(* ===== verification/KeeperReads.v ===== *)
(** * What the keeper reads

    The read side of scripts/keeper/src/stellar.ts: views by simulation, the
    previews of its writes, ledger entries by key, the parsers of positions
    and orders, and the re-checks behind a write in doubt, all through the
    failover of [KeeperSubmit.withRpc]; with the reads of discovery.ts on top.
    What the RPC endpoints answer is the class [ViewRpc], and a value is what
    scValToNative makes of it. *)

From S2P Require Import Prelude JsText Discovery Health IndexerEvents KeeperEffects KeeperStork KeeperSubmit ApiOrders ContractCalls.
Open Scope Z_scope.
Open Scope js_scope.

(** ** Values *)

(** Structs of the contract; [None] is a field older structs do not have. *)
Record RawPosition := {
  rp_id : Z; rp_trader : string; rp_asset : string; rp_collateral : Z; rp_size : Z; rp_entry_price : Z; rp_direction : Z;
  rp_leverage : Z; rp_liquidation_price : Z; rp_timestamp : Z; rp_entry_cumulative_funding : option Z; rp_margin_mode : option Z }.

Record RawOrder := {
  ro_id : Z; ro_trader : string; ro_asset : string; ro_order_type : Z; ro_direction : Z; ro_collateral : Z; ro_leverage : Z;
  ro_trigger_price : Z; ro_trigger_condition : Z; ro_slippage_tolerance_bps : Z; ro_position_id : Z; ro_has_position : bool;
  ro_created_at : Z; ro_status : Z; ro_limit_price : option Z; ro_trailing_percent_bps : option Z; ro_time_in_force : option Z;
  ro_stop_limit_phase : option Z }.

Inductive Retval :=
| Plain (v : Native)
| PositionRow (r : RawPosition)
| OrderRow (r : RawOrder)
| RiskRow (mm_bps : option Z).

Inductive SimResponse := SimError (e : string) | SimNoResult | SimReturns (v : Retval).

(** [v ? .. : ..] *)
Definition truthyNative (v : Native) : bool :=
  match v with
  | NBig z | NNum z => negb (z =? 0)
  | NStr s => negb (String.eqb s "")
  | NBool b => b
  | NNull | NUndef => false
  | NArr _ | NOther => true
  end.

Definition notBigInt : string := "Cannot convert value to a BigInt".

(** [BigInt(v)]; objects, which convert through their text, are refused. *)
Definition bigOfNative (v : Native) : Result Z :=
  match v with
  | NBig z | NNum z => Ok z
  | NStr s => bigIntOf s
  | NBool b => Ok (if b then 1 else 0)
  | NNull | NUndef | NArr _ | NOther => Err notBigInt
  end.

(** [BigInt(v ?? 0)] *)
Definition bigOrZero (v : Retval) : Result Z :=
  match v with
  | Plain NNull | Plain NUndef => Ok 0
  | Plain v => bigOfNative v
  | _ => Err notBigInt
  end.

Fixpoint bigs (l : list Native) : Result (list Z) :=
  match l with
  | [] => Ok []
  | v :: l =>
      z ← match v with NBig z => Ok z | NNum _ | NStr _ => bigOfNative v | _ => Ok 0 end;
      zs ← bigs l; Ok (z :: zs)
  end.

Definition toBigIntArray (v : Retval) : Result (list Z) :=
  match v with Plain (NArr l) => bigs l | _ => Ok [] end.

(** ** Parsers *)

Record ParsedPosition := {
  pp_id : Z; pp_trader : string; pp_asset : string; pp_collateral : Z; pp_size : Z; pp_entry_price : Z; pp_direction : Direction;
  pp_leverage : Z; pp_liquidation_price : Z; pp_timestamp : Z; pp_entry_cumulative_funding : Z; pp_margin_mode : Z }.

Record ParsedOrder := {
  po_id : Z; po_trader : string; po_asset : string; po_order_type : OrderType; po_direction : Direction; po_collateral : Z;
  po_leverage : Z; po_trigger_price : Z; po_trigger_condition : TriggerCondition; po_slippage_tolerance_bps : Z; po_position_id : Z;
  po_has_position : bool; po_created_at : Z; po_status : OrderStatus; po_limit_price : Z; po_trailing_percent_bps : Z;
  po_time_in_force : Z; po_stop_limit_phase : Z }.

Definition directionOf (d : Z) : Direction := if d =? 0 then Health.Long else Health.Short.

Definition parsePosition (r : RawPosition) : ParsedPosition := {|
  pp_id := rp_id r; pp_trader := rp_trader r; pp_asset := rp_asset r; pp_collateral := rp_collateral r; pp_size := rp_size r;
  pp_entry_price := rp_entry_price r; pp_direction := directionOf (rp_direction r); pp_leverage := rp_leverage r;
  pp_liquidation_price := rp_liquidation_price r; pp_timestamp := rp_timestamp r;
  pp_entry_cumulative_funding := default 0 (rp_entry_cumulative_funding r); pp_margin_mode := default 0 (rp_margin_mode r) |}.

(** [orderTypeMap[n] || 'LimitEntry'] *)
Definition orderTypeMap (n : Z) : OrderType :=
  match n with 1 => StopLoss | 2 => TakeProfit | 3 => StopLimit | 4 => TrailingStop | _ => LimitEntry end.

(** [statusMap[n] || 'Pending'] *)
Definition statusMap (n : Z) : OrderStatus :=
  match n with 1 => Executed | 2 => Cancelled | 3 => CancelledSlippage | 4 => Expired | _ => Pending end.

Definition parseOrder (r : RawOrder) : ParsedOrder := {|
  po_id := ro_id r; po_trader := ro_trader r; po_asset := ro_asset r; po_order_type := orderTypeMap (ro_order_type r);
  po_direction := directionOf (ro_direction r); po_collateral := ro_collateral r; po_leverage := ro_leverage r;
  po_trigger_price := ro_trigger_price r; po_trigger_condition := if ro_trigger_condition r =? 0 then Above else Below;
  po_slippage_tolerance_bps := ro_slippage_tolerance_bps r; po_position_id := ro_position_id r; po_has_position := ro_has_position r;
  po_created_at := ro_created_at r; po_status := statusMap (ro_status r); po_limit_price := default 0 (ro_limit_price r);
  po_trailing_percent_bps := default 0 (ro_trailing_percent_bps r); po_time_in_force := default 0 (ro_time_in_force r);
  po_stop_limit_phase := default 0 (ro_stop_limit_phase r) |}.

(** The fields the phases look at. *)
Definition seenPosition (p : ParsedPosition) : Health.Position := {|
  Health.id := pp_id p; Health.trader := pp_trader p; Health.asset := pp_asset p; Health.collateral := pp_collateral p;
  Health.size := pp_size p; Health.entry_price := pp_entry_price p; Health.direction := pp_direction p;
  Health.leverage := pp_leverage p; Health.liquidation_price := pp_liquidation_price p; Health.margin_mode := pp_margin_mode p |}.

Definition seenOrder (o : ParsedOrder) : KeeperEffects.Order := {|
  KeeperEffects.o_id := po_id o; KeeperEffects.o_asset := po_asset o; KeeperEffects.order_type := po_order_type o;
  KeeperEffects.o_collateral := po_collateral o; KeeperEffects.status := po_status o |}.

(** ** The endpoints *)

(** Answers by the requests made before and the endpoint; [Err] is a thrown
    message. An entry comes with its key. *)
Class ViewRpc := {
  rpc_view : list Call -> nat -> ContractCall -> Result SimResponse;
  rpc_entries : list Call -> nat -> list ScVal -> Result (list (ScVal * Retval)) }.

Definition READ_FEE : Z := 100.
Definition ENTRIES_PER_REQUEST : nat := 200.

(** The vault and token contracts, where configured. *)
Record ReadConfig := { k_vault : option string; k_usdc : option string }.

Section reads.
Context `{IntCodec} {V : ViewRpc} (servers : nat) (k : Keeper) (cfg : ReadConfig).

Definition lift {A} (r : Result A) : Sub A := match r with inl e => raise (Thrown e) | inr a => pure a end.

Definition simulateTransaction (c : ContractCall) : Sub SimResponse :=
  withRpc servers (SimulateTx READ_FEE) (fun h s => rpc_view h s c).

Definition invokeContractRead (call : Result ContractCall) : Sub Retval :=
  c ← lift call;
  response ← simulateTransaction c;
  match response with
  | SimError e => raise (Thrown ("Simulation failed: " +:+ e))
  | SimNoResult => raise (Thrown "No result from simulation")
  | SimReturns v => pure v
  end.

(** [retval] as the boolean the phases compare it with. *)
Definition boolOf (v : Retval) : option bool := match v with Plain (NBool b) => Some b | _ => None end.

Definition simulateCall (call : Result ContractCall) : Sub SimulationOutcome :=
  c ← lift call;
  response ← simulateTransaction c;
  pure (match response with SimError e => SimRejected e | SimNoResult => SimOk None | SimReturns v => SimOk (boolOf v) end).

Definition viewOn (contract m : string) (rest : Result (list ScVal)) : Sub Retval := invokeContractRead (keeperCall k contract m rest).
Definition marketView (m : string) (rest : Result (list ScVal)) : Sub Retval := viewOn (k_market k) m rest.

Definition idArg (id : Z) : Result (list ScVal) := i ← encU64 id; Ok [i].

Definition getAllPositionIds : Sub (list Z) := r ← marketView "get_all_position_ids" (Ok []); lift (toBigIntArray r).
Definition getAllOrderIds : Sub (list Z) := r ← marketView "get_all_order_ids" (Ok []); lift (toBigIntArray r).

(** [result ? this.parsePosition(result) : null]; of another value a field
    is undefined, and its BigInt throws. *)
Definition getPosition (id : Z) : Sub (option ParsedPosition) :=
  r ← marketView "get_position" (idArg id);
  match r with
  | PositionRow p => pure (Some (parsePosition p))
  | Plain v => if truthyNative v then raise (Thrown notBigInt) else pure None
  | OrderRow _ | RiskRow _ => raise (Thrown notBigInt)
  end.

Definition getOrder (id : Z) : Sub (option ParsedOrder) :=
  r ← marketView "get_order" (idArg id);
  match r with
  | OrderRow o => pure (Some (parseOrder o))
  | Plain v => if truthyNative v then raise (Thrown notBigInt) else pure None
  | PositionRow _ | RiskRow _ => raise (Thrown notBigInt)
  end.

Definition getCrossMarginPositions (trader : string) : Sub (list Z) :=
  r ← marketView "get_cross_margin_positions" (Ok [ScAddress trader]); lift (toBigIntArray r).

Definition getCrossMarginBalance (trader : string) : Sub Z :=
  r ← marketView "get_cross_margin_balance" (Ok [ScAddress trader]); lift (bigOrZero r).

Definition getUsdcBalance (owner : string) : Sub Z :=
  match k_usdc cfg with
  | None => raise (Thrown "usdcTokenContractId not configured")
  | Some token => r ← viewOn token "balance" (Ok [ScAddress owner]); lift (bigOrZero r)
  end.

Definition isAdlActive (asset : string) : Sub bool :=
  r ← marketView "is_adl_active" (Ok [ScSymbol asset]); pure (bool_decide (boolOf r = Some true)).

(** The two views of [Promise.all], one after the other. *)
Definition getVaultCoverage : Sub Z :=
  match k_vault cfg with
  | None => raise (Thrown "vault contract id not configured")
  | Some vault =>
      buffer ← viewOn vault "get_buffer_balance" (Ok []);
      totalUsdc ← viewOn vault "get_total_usdc" (Ok []);
      lift (b ← bigOrZero buffer; t ← bigOrZero totalUsdc; Ok (b + t))
  end.

(** [null] without params; a number otherwise. *)
Definition getAssetRiskMmBps (asset : string) : Sub (option Z) :=
  r ← marketView "get_asset_risk" (Ok [ScSymbol asset]);
  pure (match r with RiskRow mm => mm | _ => None end).

Definition getOrderVault (id : Z) : Sub (option Z) :=
  match k_factory k with
  | None => pure None
  | Some factory =>
      r ← viewOn factory "get_order_vault" (idArg id);
      match r with
      | Plain NNull | Plain NUndef => pure None
      | Plain (NNum z) => pure (Some z)
      | Plain (NBig z) => pure (Some (numberOfBigint z))
      | _ => raise (Thrown "not a vault id")
      end
  end.

(** [String(s)] of the symbols of a list. *)
Definition namesOf (v : Retval) : list string :=
  match v with Plain (NArr l) => omap (fun x => match x with NStr s => Some s | _ => None end) l | _ => [] end.

Definition getStorkStrictAssets : Sub (list string) :=
  match k_router k with
  | None => pure []
  | Some router =>
      r ← attempt (viewOn router "get_stork_strict_assets" (Ok []));
      pure (match r with inl _ => [] | inr v => namesOf v end)
  end.

(** ** Previews *)

Definition simulateLiquidate (id : Z) : Sub SimulationOutcome :=
  simulateCall (keeperCall k (k_market k) "liquidate" (i ← encU64 id; Ok [ScAddress (publicKey k); i])).

Definition simulateExecuteOrder (id : Z) : Sub SimulationOutcome :=
  simulateCall (keeperCall k (k_market k) "execute_order" (i ← encU64 id; Ok [ScAddress (publicKey k); i])).

Definition simulateCheckAdlTrigger (asset : string) : Sub SimulationOutcome :=
  simulateCall (keeperCall k (k_market k) "check_adl_trigger" (Ok [ScSymbol asset])).

Definition simulateUpdateTrailingPeak (id : Z) : Sub SimulationOutcome :=
  simulateCall (keeperCall k (k_market k) "update_trailing_peak" (idArg id)).

Definition simulateRelayStork (payload : list Z) : Sub SimulationOutcome :=
  match k_router k with
  | None => pure (SimRejected noRouter)
  | Some router => simulateCall (keeperCall k router "relay_stork" (Ok [ScBytes payload]))
  end.

(** [fn] is one of the router's *_with_price entry points, [v2] the outcome
    of the router's probe. *)
Definition simulateRouterCall (v2 : bool) (fn : string) (id : Z) (asset : string) (round : RouterRound) : Sub SimulationOutcome :=
  match k_router k with
  | None => pure (SimRejected noRouter)
  | Some router => simulateCall (keeperCall k router fn (vs ← routerCallArgs v2 id asset round; Ok (ScAddress (publicKey k) :: vs)))
  end.

(** ** Re-checks of a write in doubt *)

Definition recheck (r : ContractCalls.Recheck) : Sub bool :=
  match r with
  | PositionThere id => p ← getPosition id; pure (bool_decide (is_Some p))
  | OrderStillPending id => o ← getOrder id; pure (match o with Some o => bool_decide (po_status o = Pending) | None => false end)
  | CrossLeft trader => l ← getCrossMarginPositions trader; pure (0 <? Z.of_nat (length l))
  end.

(** ** Ledger entries *)

Section entries.
Context (toXDR : ScVal -> string).

Fixpoint entriesLoop (fuel : nat) (scKeys : list ScVal) (found : gmap string Retval) : Sub (gmap string Retval) :=
  match fuel, scKeys with
  | S fuel, _ :: _ =>
      let chunk := take ENTRIES_PER_REQUEST scKeys in
      entries ← withRpc servers (GetLedgerEntries (length chunk)) (fun h s => rpc_entries h s chunk);
      entriesLoop fuel (drop ENTRIES_PER_REQUEST scKeys) (foldl (fun m (e : ScVal * Retval) => <[toXDR e.1 := e.2]> m) found entries)
  | _, _ => pure found
  end.

(** A request per 200 keys: as many rounds as there are keys are enough. *)
Definition getMarketDataEntries (scKeys : list ScVal) : Sub (gmap string Retval) := entriesLoop (length scKeys) scKeys ∅.

(** ** The reads of a discovery *)

Definition unitKey (name : string) : ScVal := ScVec [ScSymbol name].
Definition idKey (name : string) (id : Z) : ScVal := ScVec [ScSymbol name; ScU64 id].

Definition CONTROL_KEYS : list ScVal := unitKey <$> ["PositionCounter"; "OrderCounter"; "OpenPositionCount"; "OpenOrderCount"]%string.

(** readU64, readU32: a number or bigint. *)
Definition readNumber (entries : gmap string Retval) (key : ScVal) : option Z :=
  match entries !! toXDR key with Some (Plain (NBig z)) | Some (Plain (NNum z)) => Some z | _ => None end.

Definition controlOf (entries : gmap string Retval) : Control := {|
  positionCounter := readNumber entries (unitKey "PositionCounter"); orderCounter := readNumber entries (unitKey "OrderCounter");
  openPositions := readNumber entries (unitKey "OpenPositionCount"); openOrders := readNumber entries (unitKey "OpenOrderCount") |}.

(** [Number(order?.status ?? -1)] *)
Definition orderStatusOf (v : Retval) : Z := match v with OrderRow o => ro_status o | _ => -1 end.

(** The node's part of a walk: which ids have an entry. *)
Definition readIds (name : string) (ids : list Z) : Sub (Z -> option Retval) :=
  match ids with
  | [] => pure (fun _ => None)
  | _ => found ← getMarketDataEntries (idKey name <$> ids); pure (fun id => found !! toXDR (idKey name id))
  end.

Definition isSome {A} (x : option A) : bool := match x with Some _ => true | None => false end.

(** discover over this client. *)
Definition discoverOnChain (expected : option DiscoverySnapshot) (d : ChainDiscovery)
  : Sub ((DiscoverySnapshot * list (Entity * Discovery.AlertLevel)) * ChainDiscovery) :=
  control ← getMarketDataEntries CONTROL_KEYS;
  let c := controlOf control in
  ps ← readIds "Position" (candidates (positions (state d)) (default 0 (positionCounter c)));
  os ← readIds "Order" (candidates (orders (state d)) (default 0 (orderCounter c)));
  match discover {| r_control := Some c; r_positions := Some (fun i => isSome (ps i)); r_orders := Some (fun i => orderStatusOf <$> os i) |}
          expected d with
  | (Some out, d) => pure (out, d)
  | (None, _) => raise (Thrown "unreachable")
  end.
End entries.
End reads.

(** ** The wallet's balance and the TTL of contracts *)

Inductive Executable := Wasm (hash : string) | StellarAsset.

(** An extension of the entries' lifetime: the read-only footprint is the
    contract's instance and, where its hash is known, its code. *)
Record TtlBump := { b_instance : string; b_code : option string; b_extendTo : Z; b_fee : Z }.

(** The account's stroops and the instance's executable, [None] without an
    entry; preparing and sending a bump. *)
Class WalletRpc := {
  rpc_balance : list Call -> nat -> Result (option Z);
  rpc_instance : list Call -> nat -> string -> Result (option Executable);
  rpc_prepareBump : list Call -> nat -> TtlBump -> Result ();
  rpc_sendBump : list Call -> nat -> TtlBump -> Result SendStatus }.

Section wallet.
Context {R : Rpc} {W : WalletRpc} (servers : nat).

(** [null] when it could not be read. *)
Definition getXlmBalance : Sub (option number) :=
  r ← attempt (withRpc servers (GetLedgerEntries 1) rpc_balance);
  pure (match r with inr (Some stroops) => Some (divN (numberOfZ stroops) (numberOfZ 10000000)) | _ => None end).

Definition contractWasmHash (contract : string) : Sub (option string) :=
  r ← attempt (withRpc servers (GetLedgerEntries 1) (fun h s => rpc_instance h s contract));
  pure (match r with inr (Some (Wasm hash)) => Some hash | _ => None end).

Definition submitBump (contract : string) (extendTo : Z) : Sub bool :=
  _ ← getAccount servers;
  hash ← contractWasmHash contract;
  let tx := {| b_instance := contract; b_code := hash; b_extendTo := extendTo; b_fee := BASE_INCLUSION_FEE |} in
  _ ← withRpc servers (SimulateTx BASE_INCLUSION_FEE) (fun h s => rpc_prepareBump h s tx);
  sent ← withRpc servers (SendTx BASE_INCLUSION_FEE) (fun h s => rpc_sendBump h s tx);
  pure (match sent with ERROR _ => false | _ => true end).

Definition bumpContractTtl (contract : string) (extendTo : Z) : Sub bool :=
  if String.eqb contract "" then pure false
  else r ← attempt (submitBump contract extendTo); pure (match r with inr b => b | inl _ => false end).
End wallet.

(** ** What the chain holds *)

(** The enums of the contracts (noether_common/src/types.rs) as their numbers. *)
Definition directionCode (d : Direction) : Z := match d with Health.Long => 0 | Health.Short => 1 end.

Definition orderTypeCode (t : OrderType) : Z :=
  match t with LimitEntry => 0 | StopLoss => 1 | TakeProfit => 2 | StopLimit => 3 | TrailingStop => 4 end.

Definition conditionCode (c : TriggerCondition) : Z := match c with Above => 0 | Below => 1 end.

Definition orderStatusCode (s : OrderStatus) : Z :=
  match s with Pending => 0 | Executed => 1 | Cancelled => 2 | CancelledSlippage => 3 | Expired => 4 end.

(** A field later contracts added: an entry an older one wrote lacks it, and it
    would be zero. *)
Definition addedField (newer : bool) (z : Z) : option Z := if newer || negb (z =? 0) then Some z else None.

(** The entries a position and an order of the contracts are stored as. *)
Definition positionStruct (newer : bool) (p : ParsedPosition) : RawPosition := {|
  rp_id := pp_id p; rp_trader := pp_trader p; rp_asset := pp_asset p; rp_collateral := pp_collateral p; rp_size := pp_size p;
  rp_entry_price := pp_entry_price p; rp_direction := directionCode (pp_direction p); rp_leverage := pp_leverage p;
  rp_liquidation_price := pp_liquidation_price p; rp_timestamp := pp_timestamp p;
  rp_entry_cumulative_funding := addedField newer (pp_entry_cumulative_funding p);
  rp_margin_mode := addedField newer (pp_margin_mode p) |}.

Definition orderStruct (newer : bool) (o : ParsedOrder) : RawOrder := {|
  ro_id := po_id o; ro_trader := po_trader o; ro_asset := po_asset o; ro_order_type := orderTypeCode (po_order_type o);
  ro_direction := directionCode (po_direction o); ro_collateral := po_collateral o; ro_leverage := po_leverage o;
  ro_trigger_price := po_trigger_price o; ro_trigger_condition := conditionCode (po_trigger_condition o);
  ro_slippage_tolerance_bps := po_slippage_tolerance_bps o; ro_position_id := po_position_id o; ro_has_position := po_has_position o;
  ro_created_at := po_created_at o; ro_status := orderStatusCode (po_status o); ro_limit_price := addedField newer (po_limit_price o);
  ro_trailing_percent_bps := addedField newer (po_trailing_percent_bps o); ro_time_in_force := addedField newer (po_time_in_force o);
  ro_stop_limit_phase := addedField newer (po_stop_limit_phase o) |}.

Lemma addedField_read newer z : default 0 (addedField newer z) = z.
Proof. unfold addedField. destruct newer, (Z.eqb_spec z 0); by subst. Qed.

Lemma parsePosition_struct newer p : parsePosition (positionStruct newer p) = p.
Proof.
  destruct p as [? ? ? ? ? ? d]. unfold parsePosition, positionStruct. cbn. rewrite !addedField_read. by destruct d.
Qed.

Lemma parseOrder_struct newer o : parseOrder (orderStruct newer o) = o.
Proof.
  destruct o as [? ? ? ty d ? ? ? c ? ? ? ? st]. unfold parseOrder, orderStruct. cbn. rewrite !addedField_read.
  by destruct ty, d, c, st.
Qed.

Record ContractState := {
  c_positions : gmap Z RawPosition; c_orders : gmap Z RawOrder; c_positionCounter : Z; c_orderCounter : Z;
  c_openPositions : option Z; c_openOrders : option Z; c_legacyIds : option (list Z * list Z); c_crossIds : string -> list Z;
  c_crossBalance : string -> Z; c_adl : string -> bool; c_mmBps : string -> option Z; c_orderVault : Z -> option Z; c_usdc : string -> Z;
  c_buffer : Z; c_totalUsdc : Z }.

Definition ids (l : list Z) : SimResponse := SimReturns (Plain (NArr (NBig <$> l))).
Definition big (z : Z) : SimResponse := SimReturns (Plain (NBig z)).
Definition missingExport : SimResponse := SimError "HostError: Error(WasmVm, MissingValue)".

Section chain.
Context `{IntCodec} {V : ViewRpc} (servers : nat) (k : Keeper) (cfg : ReadConfig) (st : ContractState).

Definition isCall (c : ContractCall) (contract : option string) (m : string) : bool :=
  match contract with Some x => String.eqb (contractId c) x && String.eqb (method c) m | None => false end.

(** The contracts' views; [None] is not a view. *)
Definition viewOf (c : ContractCall) : option SimResponse :=
  match args c with
  | [] =>
      if isCall c (Some (k_market k)) "get_all_position_ids" then Some (match c_legacyIds st with Some (l, _) => ids l | None => missingExport end)
      else if isCall c (Some (k_market k)) "get_all_order_ids" then Some (match c_legacyIds st with Some (_, l) => ids l | None => missingExport end)
      else if isCall c (k_vault cfg) "get_buffer_balance" then Some (big (c_buffer st))
      else if isCall c (k_vault cfg) "get_total_usdc" then Some (big (c_totalUsdc st))
      else None
  | [ScU64 id] =>
      if isCall c (Some (k_market k)) "get_position" then Some (SimReturns (from_option PositionRow (Plain NNull) (c_positions st !! id)))
      else if isCall c (Some (k_market k)) "get_order" then Some (SimReturns (from_option OrderRow (Plain NNull) (c_orders st !! id)))
      else if isCall c (k_factory k) "get_order_vault" then Some (SimReturns (Plain (from_option NNum NNull (c_orderVault st id))))
      else None
  | [ScAddress who] =>
      if isCall c (Some (k_market k)) "get_cross_margin_positions" then Some (ids (c_crossIds st who))
      else if isCall c (Some (k_market k)) "get_cross_margin_balance" then Some (big (c_crossBalance st who))
      else if isCall c (k_usdc cfg) "balance" then Some (big (c_usdc st who))
      else None
  | [ScSymbol a] =>
      if isCall c (Some (k_market k)) "is_adl_active" then Some (SimReturns (Plain (NBool (c_adl st a))))
      else if isCall c (Some (k_market k)) "get_asset_risk"
      then Some (SimReturns (from_option (fun mm => RiskRow (Some mm)) (Plain NNull) (c_mmBps st a)))
      else None
  | _ => None
  end.

Definition ledgerOf (key : ScVal) : option Retval :=
  match key with
  | ScVec [ScSymbol name; ScU64 id] =>
      if String.eqb name "Position" then PositionRow <$> c_positions st !! id
      else if String.eqb name "Order" then OrderRow <$> c_orders st !! id else None
  | ScVec [ScSymbol name] =>
      if String.eqb name "PositionCounter" then Some (Plain (NBig (c_positionCounter st)))
      else if String.eqb name "OrderCounter" then Some (Plain (NBig (c_orderCounter st)))
      else if String.eqb name "OpenPositionCount" then (fun n => Plain (NNum n)) <$> c_openPositions st
      else if String.eqb name "OpenOrderCount" then (fun n => Plain (NNum n)) <$> c_openOrders st else None
  | _ => None
  end.

Definition fails {A} (r : Result A) : Prop := exists e, r = Err e.

(** Every endpoint fails or tells the truth. *)
Record Faithful : Prop := {
  faithful_view : forall h s c r, viewOf c = Some r -> fails (rpc_view h s c) \/ rpc_view h s c = Ok r;
  faithful_entries : forall h s keys, fails (rpc_entries h s keys) \/
    exists l, rpc_entries h s keys = Ok l /\ forall key v, (key, v) ∈ l <-> key ∈ keys /\ ledgerOf key = Some v }.

(** Some endpoint answers, and the others fail in passing. *)
Definition Up : Prop :=
  (exists s0, (s0 < servers)%nat /\ forall h, (forall c, ~ fails (rpc_view h s0 c)) /\ (forall keys, ~ fails (rpc_entries h s0 keys))) /\
  (forall h s c e, rpc_view h s c = Err e -> isTransientRpcError e = true) /\
  (forall h s keys e, rpc_entries h s keys = Err e -> isTransientRpcError e = true).

(** A read that returns returns the truth; one that throws found no endpoint. *)
Definition Tells {A} (m : Sub A) (P : A -> Prop) : Prop := forall s h, (s < servers)%nat ->
  match m s h with (r, s', _) => (s' < servers)%nat /\ match r with inr a => P a | inl _ => ~ Up end end.

Lemma tells_pure {A} (a : A) (P : A -> Prop) : P a -> Tells (pure a) P.
Proof. intros Ha s h Hs. by split. Qed.

Lemma tells_bind {A B} (m : Sub A) (f : A -> Sub B) P Q :
  Tells m P -> (forall a, P a -> Tells (f a) Q) -> Tells (m ≫= f) Q.
Proof.
  intros Hm Hf s h Hs. specialize (Hm s h Hs). unfold mbind, Sub_bind. destruct (m s h) as [[[e|a] s1] n1]; [exact Hm|].
  destruct Hm as [Hs1 Ha]. specialize (Hf a Ha s1 (h ++ n1) Hs1). by destruct (f a s1 (h ++ n1)) as [[r s2] n2].
Qed.

Lemma tells_weaken {A} (m : Sub A) (P Q : A -> Prop) : Tells m P -> (forall a, P a -> Q a) -> Tells m Q.
Proof. intros Hm HPQ s h Hs. specialize (Hm s h Hs). destruct (m s h) as [[[e|a] s'] n]; naive_solver. Qed.

(** The loop reaches the endpoint that answers. *)
Lemma loop_reaches {A} op (answer : list Call -> nat -> Result A) s0 : (s0 < servers)%nat ->
  (forall h, ~ fails (answer h s0)) -> (forall h s e, answer h s = Err e -> isTransientRpcError e = true) ->
  forall budget d e s h, (s < servers)%nat -> (d < budget)%nat -> ((s + d) mod servers = s0)%nat ->
  exists a, (withRpcLoop servers budget op answer e s h).1.1 = inr a.
Proof.
  intros Hs0 Hok Htr budget. induction budget as [|budget IH]; intros d e s h Hs Hd Hsd; [lia|]. cbn [withRpcLoop].
  destruct (answer h s) as [e'|a] eqn:Ha; [|by eexists]. rewrite (Htr _ _ _ Ha). cbn [negb orb].
  destruct d as [|d].
  { rewrite Nat.add_0_r, Nat.mod_small in Hsd by lia. subst. destruct (Hok h). by exists e'. }
  destruct (Nat.eqb_spec servers 1) as [H1|H1].
  { rewrite H1 in Hs, Hs0. replace s with s0 in Ha by lia. destruct (Hok h). by exists e'. }
  specialize (IH d e' (S s mod servers)%nat (h ++ [Request s op])).
  destruct IH as [a Hr]; [apply Nat.mod_upper_bound; lia|lia| |].
  { rewrite Nat.Div0.add_mod_idemp_l. rewrite <- Hsd. f_equal. lia. }
  exists a. by destruct (withRpcLoop _ _ _ _ _ _ _) as [[r s'] n].
Qed.

Lemma loop_answers {A} op (answer : list Call -> nat -> Result A) (P : A -> Prop) :
  (forall h s a, answer h s = Ok a -> P a) -> forall budget e s h, (s < servers)%nat ->
  match withRpcLoop servers budget op answer e s h with (r, s', _) => (s' < servers)%nat /\ match r with inr a => P a | inl _ => True end end.
Proof.
  intros HP budget. induction budget as [|budget IH]; intros e s h Hs; [done|]. cbn [withRpcLoop].
  destruct (answer h s) as [e'|a] eqn:Ha; [|split; [done|by eapply HP]].
  destruct (_ || _); [done|]. specialize (IH e' (S s mod servers)%nat (h ++ [Request s op]) ltac:(apply Nat.mod_upper_bound; lia)).
  by destruct (withRpcLoop _ _ _ _ _ _ _) as [[r s'] n].
Qed.

Lemma tells_request {A} op (answer : list Call -> nat -> Result A) (P : A -> Prop) :
  (forall h s a, answer h s = Ok a -> P a) ->
  (Up -> exists s0, (s0 < servers)%nat /\ (forall h, ~ fails (answer h s0)) /\ forall h s e, answer h s = Err e -> isTransientRpcError e = true) ->
  Tells (withRpc servers op answer) P.
Proof.
  intros HP Hup s h Hs. pose proof (loop_answers op answer P HP servers "undefined" s h Hs) as Hl. unfold withRpc.
  assert (Up -> exists a, (withRpcLoop servers servers op answer "undefined" s h).1.1 = inr a) as Hr.
  { intros (s0 & Hs0 & Hok & Htr)%Hup.
    apply (loop_reaches op answer s0 Hs0 Hok Htr _ ((s0 + (servers - s)) mod servers)%nat); [done|apply Nat.mod_upper_bound; lia|].
    rewrite Nat.Div0.add_mod_idemp_r. replace (s + (s0 + (servers - s)))%nat with (s0 + 1 * servers)%nat by lia.
    by rewrite Nat.Div0.mod_add, Nat.mod_small. }
  destruct (withRpcLoop _ _ _ _ _ _ _) as [[[e|a] s'] n]; [|done]. split; [by destruct Hl|]. intros Hu. by destruct (Hr Hu).
Qed.

Hypothesis HF : Faithful.

Lemma tells_simulate c r : viewOf c = Some r -> Tells (simulateTransaction servers c) (fun x => x = r).
Proof.
  intros Hc. apply tells_request.
  - intros h s a Ha. destruct (faithful_view HF h s c r Hc) as [[e He]|Ho]; rewrite Ha in *; [done|]. by injection Ho.
  - intros ((s0 & Hs0 & Hok) & Htr & _). exists s0. split; [done|]. split; [intros h; apply Hok|]. intros h s e. apply Htr.
Qed.

Lemma tells_view contract m rest vs v : rest = Ok vs ->
  viewOf {| source := publicKey k; contractId := contract; method := m; args := vs; hints := unhinted |} = Some (SimReturns v) ->
  Tells (viewOn servers k contract m rest) (fun x => x = v).
Proof.
  intros -> Hv. unfold viewOn, invokeContractRead, keeperCall. cbn [mbind Result_bind Ok].
  set (c := {| source := _ |}) in *. eapply (tells_bind _ _ (fun x => x = c)); [by apply tells_pure|].
  intros c' ->. eapply tells_bind; [by apply tells_simulate|]. intros r ->. by apply tells_pure.
Qed.

Lemma isCall_self c contract m : contractId c = contract -> method c = m -> isCall c (Some contract) m = true.
Proof. intros <- <-. unfold isCall. by rewrite !String.eqb_refl. Qed.

Lemma isCall_other c o m : method c <> m -> isCall c o m = false.
Proof. intros Hm. destruct o; [|done]. cbn. rewrite (proj2 (String.eqb_neq _ _) Hm). apply andb_false_r. Qed.

Lemma bigs_ids l : bigs (NBig <$> l) = Ok l.
Proof. induction l as [|z l IH]; [done|]. cbn in *. by rewrite IH. Qed.

Lemma encU64_id id : 0 <= id < 2 ^ 64 -> encU64 id = Ok (ScU64 id).
Proof. intros Hid. by apply encU64_spec. Qed.

Lemma idArg_ok id : 0 <= id < 2 ^ 64 -> idArg id = Ok [ScU64 id].
Proof. intros Hid. unfold idArg. by rewrite encU64_id. Qed.

(** Reads a view on the truth: [v] is what it returns. *)
Ltac view v :=
  eapply (tells_bind _ _ (fun x => x = v));
  [eapply tells_view; [by (done || apply idArg_ok)|];
   unfold viewOf; cbn [args];
   repeat match goal with
   | H : c_legacyIds _ = _ |- _ => rewrite H; clear H
   | H : k_usdc _ = _ |- _ => rewrite H; clear H
   | H : k_vault _ = _ |- _ => rewrite H; clear H
   | H : k_factory _ = _ |- _ => rewrite H; clear H
   end;
   repeat first [rewrite isCall_self by done | rewrite isCall_other by (cbn; discriminate)]; reflexivity
  |intros ? ->].

Lemma tells_getPosition id : 0 <= id < 2 ^ 64 -> Tells (getPosition servers k id) (fun v => v = parsePosition <$> c_positions st !! id).
Proof.
  intros Hid. unfold getPosition, marketView. view (from_option PositionRow (Plain NNull) (c_positions st !! id)).
  destruct (c_positions st !! id); by apply tells_pure.
Qed.

Lemma tells_getOrder id : 0 <= id < 2 ^ 64 -> Tells (getOrder servers k id) (fun v => v = parseOrder <$> c_orders st !! id).
Proof.
  intros Hid. unfold getOrder, marketView. view (from_option OrderRow (Plain NNull) (c_orders st !! id)).
  destruct (c_orders st !! id); by apply tells_pure.
Qed.

Lemma tells_crossPositions t : Tells (getCrossMarginPositions servers k t) (fun v => v = c_crossIds st t).
Proof.
  unfold getCrossMarginPositions, marketView. view (Plain (NArr (NBig <$> c_crossIds st t))).
  unfold toBigIntArray. rewrite bigs_ids. by apply tells_pure.
Qed.

Lemma tells_crossBalance t : Tells (getCrossMarginBalance servers k t) (fun z => z = c_crossBalance st t).
Proof. unfold getCrossMarginBalance, marketView. view (Plain (NBig (c_crossBalance st t))). by apply tells_pure. Qed.

Lemma tells_adlActive a : Tells (isAdlActive servers k a) (fun b => b = c_adl st a).
Proof. unfold isAdlActive, marketView. view (Plain (NBool (c_adl st a))). apply tells_pure. by destruct (c_adl st a). Qed.

Lemma tells_mmBps a : Tells (getAssetRiskMmBps servers k a) (fun mm => mm = c_mmBps st a).
Proof.
  unfold getAssetRiskMmBps, marketView. view (from_option (fun mm => RiskRow (Some mm)) (Plain NNull) (c_mmBps st a)).
  apply tells_pure. by destruct (c_mmBps st a).
Qed.

Lemma tells_usdc token owner : k_usdc cfg = Some token -> Tells (getUsdcBalance servers k cfg owner) (fun z => z = c_usdc st owner).
Proof. intros Ht. unfold getUsdcBalance. rewrite Ht. view (Plain (NBig (c_usdc st owner))). by apply tells_pure. Qed.

Lemma tells_coverage vault : k_vault cfg = Some vault -> Tells (getVaultCoverage servers k cfg) (fun z => z = c_buffer st + c_totalUsdc st).
Proof.
  intros Hv. unfold getVaultCoverage. rewrite Hv. view (Plain (NBig (c_buffer st))). view (Plain (NBig (c_totalUsdc st))).
  by apply tells_pure.
Qed.

Lemma tells_orderVault factory id : k_factory k = Some factory -> 0 <= id < 2 ^ 64 ->
  Tells (getOrderVault servers k id) (fun v => v = c_orderVault st id).
Proof.
  intros Hf Hid. unfold getOrderVault. rewrite Hf. view (Plain (from_option NNum NNull (c_orderVault st id))).
  destruct (c_orderVault st id); by apply tells_pure.
Qed.

(** What a re-check is for: the position or a pending order still there, or
    anything left of the account. *)
Definition stillNeeded (r : ContractCalls.Recheck) (b : bool) : Prop :=
  match r with
  | PositionThere id => b = isSome (c_positions st !! id)
  | OrderStillPending id =>
      (c_orders st !! id = None -> b = false) /\
      (forall newer o, c_orders st !! id = Some (orderStruct newer o) -> b = bool_decide (po_status o = Pending))
  | CrossLeft trader => b = negb (bool_decide (c_crossIds st trader = []))
  end.

Definition u64Recheck (r : ContractCalls.Recheck) : Prop :=
  match r with PositionThere id | OrderStillPending id => 0 <= id < 2 ^ 64 | CrossLeft _ => True end.

Lemma tells_recheck r : u64Recheck r -> Tells (recheck servers k r) (stillNeeded r).
Proof.
  destruct r as [id|id|t]; cbn [u64Recheck recheck]; intros Hid.
  - eapply tells_bind; [by apply tells_getPosition|]. intros v ->. apply tells_pure. cbn. by destruct (c_positions st !! id).
  - eapply tells_bind; [by apply tells_getOrder|]. intros v ->. apply tells_pure. unfold stillNeeded.
    split; [by intros ->|]. intros newer o ->. cbn [fmap option_fmap option_map]. by rewrite parseOrder_struct.
  - eapply tells_bind; [by apply tells_crossPositions|]. intros v ->. apply tells_pure. cbn. by destruct (c_crossIds st t).
Qed.

Lemma tells_storedPosition id newer p : 0 <= id < 2 ^ 64 -> c_positions st !! id = Some (positionStruct newer p) ->
  Tells (getPosition servers k id) (fun v => v = Some p).
Proof. intros Hid Hp. eapply tells_weaken; [by apply tells_getPosition|]. intros v ->. rewrite Hp. cbn. by rewrite parsePosition_struct. Qed.

Lemma tells_storedOrder id newer o : 0 <= id < 2 ^ 64 -> c_orders st !! id = Some (orderStruct newer o) ->
  Tells (getOrder servers k id) (fun v => v = Some o).
Proof. intros Hid Ho. eapply tells_weaken; [by apply tells_getOrder|]. intros v ->. rewrite Ho. cbn. by rewrite parseOrder_struct. Qed.

Lemma tells_absent id : 0 <= id < 2 ^ 64 ->
  (c_positions st !! id = None -> Tells (getPosition servers k id) (fun v => v = None)) /\
  (c_orders st !! id = None -> Tells (getOrder servers k id) (fun v => v = None)).
Proof.
  intros Hid. split; intros Hn; (eapply tells_weaken; [first [by apply tells_getPosition|by apply tells_getOrder]|]);
    intros v ->; by rewrite Hn.
Qed.

Lemma tells_legacyIds lp lo : c_legacyIds st = Some (lp, lo) ->
  Tells (getAllPositionIds servers k) (fun v => v = lp) /\ Tells (getAllOrderIds servers k) (fun v => v = lo).
Proof.
  intros Hl. split; [unfold getAllPositionIds, marketView; view (Plain (NArr (NBig <$> lp)))|
    unfold getAllOrderIds, marketView; view (Plain (NArr (NBig <$> lo)))]; unfold toBigIntArray; rewrite bigs_ids; by apply tells_pure.
Qed.

(** *** Ledger entries *)

Section entries.
Context (toXDR : ScVal -> string) `{Hinj : !Inj (=) (=) toXDR}.

(** The map holds what the ledger has of these keys. *)
Definition holds (keys : list ScVal) (found : gmap string Retval) : Prop :=
  forall key v, found !! toXDR key = Some v <-> key ∈ keys /\ ledgerOf key = Some v.

Lemma holds_nil : holds [] ∅.
Proof. intros key v. rewrite lookup_empty, elem_of_nil. naive_solver. Qed.

Lemma fold_lookup (l : list (ScVal * Retval)) (found : gmap string Retval) key v :
  (forall key v, (key, v) ∈ l -> ledgerOf key = Some v) ->
  (forall key v, found !! toXDR key = Some v -> ledgerOf key = Some v) ->
  foldl (fun m (e : ScVal * Retval) => <[toXDR e.1 := e.2]> m) found l !! toXDR key = Some v <->
  (key, v) ∈ l \/ found !! toXDR key = Some v.
Proof.
  revert found. induction l as [|[k0 v0] l IH]; intros found Hl Hf; cbn [foldl fst snd].
  { rewrite elem_of_nil. tauto. }
  rewrite IH.
  - rewrite elem_of_cons. destruct (decide (toXDR k0 = toXDR key)) as [He|Hne].
    + rewrite He, lookup_insert_eq. apply (inj toXDR) in He as ->. pose proof (Hl key v0 ltac:(rewrite elem_of_cons; by left)) as H0.
      split; [intros [?|[= ->]]; auto|]. intros [[[= ->]|?]|Hk]; [auto|auto|]. apply Hf in Hk. right. congruence.
    + rewrite lookup_insert_ne by done. naive_solver.
  - intros key' v' Hin. apply Hl. rewrite elem_of_cons. by right.
  - intros key' v'. destruct (decide (toXDR k0 = toXDR key')) as [He|Hne].
    + rewrite He, lookup_insert_eq. apply (inj toXDR) in He as ->. intros [= ->]. apply Hl. rewrite elem_of_cons. by left.
    + rewrite lookup_insert_ne by done. apply Hf.
Qed.

Lemma tells_entries fuel : forall keys done found, (length keys <= fuel)%nat -> holds done found ->
  Tells (entriesLoop servers toXDR fuel keys found) (holds (done ++ keys)).
Proof.
  induction fuel as [|fuel IH]; intros keys done' found Hlen Hd.
  { destruct keys; [|cbn in Hlen; lia]. apply tells_pure. by rewrite app_nil_r. }
  cbn [entriesLoop]. destruct keys as [|key0 keys]; [apply tells_pure; by rewrite app_nil_r|].
  set (all := key0 :: keys). set (chunk := take ENTRIES_PER_REQUEST all).
  eapply (tells_bind _ _ (fun l => forall key v, (key, v) ∈ l <-> key ∈ chunk /\ ledgerOf key = Some v)).
  - apply tells_request.
    + intros h s l Hl. destruct (faithful_entries HF h s chunk) as [[e He]|(l' & Hl' & Hs)]; rewrite Hl in *; [done|]. by injection Hl' as <-.
    + intros ((s0 & Hs0 & Hok) & _ & Htr). exists s0. split; [done|]. split; [intros h; apply Hok|]. intros h s e. apply Htr.
  - intros l Hl. eapply tells_weaken.
    + apply (IH (drop ENTRIES_PER_REQUEST all) (done' ++ chunk)).
      * rewrite length_drop. unfold all, ENTRIES_PER_REQUEST in *. cbn [length] in *. lia.
      * intros key v. rewrite fold_lookup; [|intros ? ? [_ H0]%Hl; exact H0|intros ? ? [_ H0]%Hd; exact H0].
        rewrite elem_of_app. rewrite (Hl key v), (Hd key v). tauto.
    + intros f Hf. unfold chunk in Hf. by rewrite <- app_assoc, (take_drop ENTRIES_PER_REQUEST all) in Hf.
Qed.

Lemma tells_marketEntries keys : Tells (getMarketDataEntries servers toXDR keys) (holds keys).
Proof. by apply (tells_entries (length keys) keys [] ∅ (Nat.le_refl _)), holds_nil. Qed.

Lemma tells_readIds name l :
  Tells (readIds servers toXDR name l) (fun f => forall id v, f id = Some v <-> id ∈ l /\ ledgerOf (idKey name id) = Some v).
Proof.
  unfold readIds. destruct l as [|id0 l].
  - apply tells_pure. intros id v. rewrite elem_of_nil. naive_solver.
  - eapply tells_bind; [apply tells_marketEntries|]. intros found Hf. apply tells_pure. intros id v. rewrite (Hf (idKey name id) v).
    assert (idKey name id ∈ idKey name <$> (id0 :: l) <-> id ∈ id0 :: l) as ->; [|done].
    rewrite list_elem_of_fmap. split; [by intros (y & [= ->] & ?)|]. eauto.
Qed.
End entries.
End chain.

(** ** Properties *)

Definition openPositionIds (st : ContractState) : gset Z := dom (c_positions st).
Definition pendingOrderIds (st : ContractState) : gset Z := dom (filter (fun p => ro_status p.2 = ORDER_STATUS_PENDING) (c_orders st)).

Lemma elem_of_openIds st id : id ∈ openPositionIds st <-> exists p, c_positions st !! id = Some p.
Proof. unfold openPositionIds. by rewrite elem_of_dom. Qed.

Lemma elem_of_pendingIds st id : id ∈ pendingOrderIds st <-> exists o, c_orders st !! id = Some o /\ ro_status o = ORDER_STATUS_PENDING.
Proof.
  unfold pendingOrderIds. rewrite elem_of_dom. unfold is_Some. split; intros (o & Ho).
  - exists o. by apply map_lookup_filter_Some in Ho.
  - exists o. by apply map_lookup_filter_Some.
Qed.

(** The state a discovery starts from: it has seen the chain. *)
Definition followed (L : gset Z) (counter : Z) (w : EntityWalkState) : Prop :=
  wfWalk w /\ tracks L w /\ forall x, x ∈ L -> x <= counter.

Lemma followed_walk L counter w f n :
  followed L counter w -> n = Some (Z.of_nat (base.size L)) -> (forall x, f x = true <-> x ∈ L) ->
  let r := walk w counter n f in
  (forall x, x ∈ liveIds r <-> x ∈ L) /\ checksumOk r None = true /\ followed L counter (nextState r).
Proof.
  intros (Hw & Ht & Hc) -> Hf r. pose proof (complete_walk L w counter (Some (Z.of_nat (base.size L))) f Ht Hc Hf) as Hl. fold r in Hl.
  split; [done|]. split.
  - apply Z.eqb_eq. f_equal. rewrite <- (size_list_to_set (C:=gset Z) (liveIds r)) by (by apply NoDup_walk).
    f_equal. apply set_eq. intros x. by rewrite elem_of_list_to_set.
  - split; [by apply walk_wf|]. split; [|done]. by eapply tracks_next.
Qed.

Lemma readEntries_same {A} keys (f : Z -> A) absent g x :
  Discovery.readEntries keys (Some f) absent = Some g -> (keys = [] -> f x = absent) -> g x = f x.
Proof. destruct keys; intros [= <-]; [|done]. intros H. by rewrite H. Qed.

(** C12. A read of the keeper tells the truth or throws. A position or order
    that a contract stores is returned with every field as the contract has it,
    its enums by name, entries of older contracts included, and an id that is not
    stored as none; the accounts, balances, flags and parameters are what the
    views return. So an error is never an empty market, and a write in doubt is
    sent again only for something that is still there. Endpoints that fail in
    passing are passed over: a read throws only if none of them answered, or if
    one failed in a way that is not transient, which ends the read at once. *)
Theorem keeper_reads_are_the_chain `{IntCodec} {V : ViewRpc} servers k cfg st :
  Faithful k cfg st ->
  (forall id, 0 <= id < 2 ^ 64 ->
     (forall newer p, c_positions st !! id = Some (positionStruct newer p) -> Tells servers (getPosition servers k id) (fun v => v = Some p)) /\
     (forall newer o, c_orders st !! id = Some (orderStruct newer o) -> Tells servers (getOrder servers k id) (fun v => v = Some o)) /\
     (c_positions st !! id = None -> Tells servers (getPosition servers k id) (fun v => v = None)) /\
     (c_orders st !! id = None -> Tells servers (getOrder servers k id) (fun v => v = None))) /\
  (forall r, u64Recheck r -> Tells servers (recheck servers k r) (stillNeeded st r)) /\
  (forall t, Tells servers (getCrossMarginPositions servers k t) (fun l => l = c_crossIds st t) /\
             Tells servers (getCrossMarginBalance servers k t) (fun z => z = c_crossBalance st t)) /\
  (forall a, Tells servers (isAdlActive servers k a) (fun b => b = c_adl st a) /\
             Tells servers (getAssetRiskMmBps servers k a) (fun mm => mm = c_mmBps st a)) /\
  (forall token owner, k_usdc cfg = Some token -> Tells servers (getUsdcBalance servers k cfg owner) (fun z => z = c_usdc st owner)) /\
  (forall vault, k_vault cfg = Some vault -> Tells servers (getVaultCoverage servers k cfg) (fun z => z = c_buffer st + c_totalUsdc st)) /\
  (forall factory id, k_factory k = Some factory -> 0 <= id < 2 ^ 64 ->
     Tells servers (getOrderVault servers k id) (fun v => v = c_orderVault st id)).
Proof.
  intros HF. split_and!; intros.
  - split_and!; intros; [by eapply tells_storedPosition|by eapply tells_storedOrder|by eapply tells_absent..].
  - by eapply tells_recheck.
  - split; [by eapply tells_crossPositions|by eapply tells_crossBalance].
  - split; [by eapply tells_adlActive|by eapply tells_mmBps].
  - by eapply tells_usdc.
  - by eapply tells_coverage.
  - by eapply tells_orderVault.
Qed.

(** What a discovery that was told the truth leaves. *)
Definition exactOutcome (Lp Lo : gset Z) (pc oc : Z) (out : (DiscoverySnapshot * list (Entity * Discovery.AlertLevel)) * ChainDiscovery) : Prop :=
  let '((snapshot, alerts), d) := out in
  (forall id, id ∈ positionIds snapshot <-> id ∈ Lp) /\ (forall id, id ∈ orderIds snapshot <-> id ∈ Lo) /\
  Sorted Z.le (positionIds snapshot) /\ Sorted Z.le (orderIds snapshot) /\ alerts = [] /\
  followed Lp pc (positions (state d)) /\ followed Lo oc (orders (state d)).

Lemma discover_exact (Lp Lo : gset Z) pc oc present status d :
  followed Lp pc (positions (state d)) -> followed Lo oc (orders (state d)) ->
  (forall x, present x = true <-> x ∈ candidates (positions (state d)) pc /\ x ∈ Lp) ->
  (forall x, isPending (status x) = true <-> x ∈ candidates (orders (state d)) oc /\ x ∈ Lo) ->
  exists out d', discover
    {| r_control := Some {| positionCounter := Some pc; orderCounter := Some oc;
         openPositions := Some (Z.of_nat (base.size Lp)); openOrders := Some (Z.of_nat (base.size Lo)) |};
       r_positions := Some present; r_orders := Some status |} None d = (Some out, d') /\ exactOutcome Lp Lo pc oc (out, d').
Proof.
  intros Hp Ho Hpr Hst. unfold discover. cbn [r_control r_positions r_orders positionCounter orderCounter openPositions openOrders default].
  unfold Datatypes.id.
  assert (forall L c w, followed L c w -> forall x, x ∈ L -> x ∈ candidates w c) as Hcand.
  { intros L c w (_ & Ht & Hc) x Hx. apply elem_of_candidates. specialize (Hc x Hx).
    destruct (Z.le_gt_cases x (watermark w)); [left; by apply Ht|right; lia]. }
  destruct (Discovery.readEntries _ _ false) as [f|] eqn:Hf; [|by destruct (candidates _ pc)].
  destruct (Discovery.readEntries _ _ None) as [g|] eqn:Hg; [|by destruct (candidates _ oc)].
  destruct (followed_walk Lp pc (positions (state d)) f (Some (Z.of_nat (base.size Lp))) Hp eq_refl) as (Hl & Hck & Hn).
  { intros x. rewrite (readEntries_same _ _ _ _ x Hf).
    - rewrite Hpr. split; [tauto|]. intros Hx. split; [by apply (Hcand Lp)|done].
    - intros Hnil. apply not_true_is_false. rewrite Hpr, Hnil, elem_of_nil. tauto. }
  destruct (followed_walk Lo oc (orders (state d)) (fun i => isPending (g i)) (Some (Z.of_nat (base.size Lo))) Ho eq_refl) as (Hl2 & Hck2 & Hn2).
  { intros x. destruct (decide (candidates (orders (state d)) oc = [])) as [Hnil|Hne].
    - rewrite Hnil in Hg. injection Hg as <-. split; [done|]. intros Hx%(Hcand Lo oc _ Ho). by rewrite Hnil, elem_of_nil in Hx.
    - rewrite (readEntries_same _ _ _ _ x Hg) by done. rewrite Hst. split; [tauto|]. intros Hx. split; [by apply (Hcand Lo)|done]. }
  change (positionIds <$> None) with (@None (list Z)). change (orderIds <$> None) with (@None (list Z)). rewrite Hck, Hck2. do 2 eexists. split; [reflexivity|].
  split_and!; [exact Hl|exact Hl2|apply walk_sorted|apply walk_sorted|done|exact Hn|exact Hn2].
Qed.

(** C13. A discovery over the ledger finds exactly the open positions and the
    pending orders, in order, raises no alert and is ready for the next: from
    a state that has followed the chain, whatever endpoints fail on the way,
    with the counters of the contract right and its entries live. *)
Theorem chain_discovery_is_exact `{IntCodec} {V : ViewRpc} servers k cfg st (toXDR : ScVal -> string) `{!Inj (=) (=) toXDR} d :
  Faithful k cfg st ->
  c_openPositions st = Some (Z.of_nat (base.size (openPositionIds st))) -> c_openOrders st = Some (Z.of_nat (base.size (pendingOrderIds st))) ->
  followed (openPositionIds st) (c_positionCounter st) (positions (state d)) ->
  followed (pendingOrderIds st) (c_orderCounter st) (orders (state d)) ->
  Tells servers (discoverOnChain servers toXDR None d) 
    (exactOutcome (openPositionIds st) (pendingOrderIds st) (c_positionCounter st) (c_orderCounter st)).
Proof.
  intros HF Hnp Hno Hp Ho. unfold discoverOnChain.
  eapply tells_bind; [by eapply tells_marketEntries|]. intros control Hc.
  assert (controlOf toXDR control = {| positionCounter := Some (c_positionCounter st); orderCounter := Some (c_orderCounter st);
    openPositions := c_openPositions st; openOrders := c_openOrders st |}) as ->.
  { unfold controlOf, readNumber.
    assert (forall name v, unitKey name ∈ CONTROL_KEYS -> ledgerOf st (unitKey name) = Some v -> control !! toXDR (unitKey name) = Some v) as Hk
      by (intros name v Hin Hv; by apply (Hc (unitKey name) v)).
    rewrite (Hk "PositionCounter" (Plain (NBig (c_positionCounter st)))), (Hk "OrderCounter" (Plain (NBig (c_orderCounter st)))),
      (Hk "OpenPositionCount" (Plain (NNum (Z.of_nat (base.size (openPositionIds st)))))),
      (Hk "OpenOrderCount" (Plain (NNum (Z.of_nat (base.size (pendingOrderIds st)))))).
    1: by rewrite Hnp, Hno.
    all: try (unfold CONTROL_KEYS; cbn; set_solver). all: try reflexivity.
    - cbn. by rewrite Hno.
    - cbn. by rewrite Hnp. }
  cbn [positionCounter orderCounter default]. 
  eapply tells_bind; [by eapply tells_readIds|]. intros ps Hps.
  eapply tells_bind; [by eapply tells_readIds|]. intros os Hos.
  destruct (discover_exact _ _ _ _ (fun i => isSome (ps i)) (fun i => orderStatusOf <$> os i) d Hp Ho) as (out & d' & Hd & Hout).
  - intros x. rewrite elem_of_openIds. destruct (ps x) as [v|] eqn:Hx.
    + apply Hps in Hx as [Hin Hx]. cbn in Hx. destruct (c_positions st !! x) eqn:Hp1; [|done]. split; eauto.
    + split; [done|]. intros [Hin [p Hp1]]. assert (ps x = Some (PositionRow p)); [|congruence]. apply Hps. cbn. by rewrite Hp1.
  - intros x. rewrite elem_of_pendingIds. destruct (os x) as [v|] eqn:Hx.
    + apply Hos in Hx as [Hin Hx]. cbn in Hx. destruct (c_orders st !! x) as [o|] eqn:Ho1; [|done]. injection Hx as <-.
      cbn. rewrite Z.eqb_eq. split; [eauto|]. intros (_ & o' & [= <-] & Hs). done.
    + split; [done|]. intros [Hin (o & Ho1 & _)]. assert (os x = Some (OrderRow o)); [|congruence]. apply Hos. cbn. by rewrite Ho1.
  - rewrite Hnp, Hno. unfold isSome, Datatypes.id in *. rewrite Hd. by apply tells_pure.
Qed.

(** The preview the keeper runs before a write, where it has one. *)
Definition previewOf `{IntCodec} {V : ViewRpc} (servers : nat) (k : Keeper) (v2 : bool) (w : KeeperWrite) : option (Sub SimulationOutcome) :=
  match w with
  | WLiquidate id => Some (simulateLiquidate servers k id)
  | WExecuteOrder id => Some (simulateExecuteOrder servers k id)
  | WCheckAdlTrigger a => Some (simulateCheckAdlTrigger servers k a)
  | WUpdateTrailingPeak id => Some (simulateUpdateTrailingPeak servers k id)
  | WRelayStork payload => Some (simulateRelayStork servers k payload)
  | WExecuteViaRouter id a r => Some (simulateRouterCall servers k v2 "execute_with_price" id a r)
  | WLiquidateViaRouter id a r => Some (simulateRouterCall servers k v2 "liquidate_with_price" id a r)
  | WAdlCloseViaRouter id a r => Some (simulateRouterCall servers k v2 "adl_with_price" id a r)
  | _ => None
  end.

(** Simulate before submit: a preview simulates the very call, argument
    for argument, that the write submits, and is refused without a request
    where the write is; and what it reports is the endpoint's answer, a
    rejection never read as success. *)
Theorem previews_are_the_writes `{IntCodec} {V : ViewRpc} servers k v2 w preview s h :
  previewOf servers k v2 w = Some preview ->
  match keeperWrite k v2 w with
  | inl e => preview s h = (inr (SimRejected e), s, [])
  | inr (inl e) => preview s h = (inl (Thrown e), s, [])
  | inr (inr c) =>
      (preview s h).1.1 = match (simulateTransaction servers c s h).1.1 with
        | inl e => inl e
        | inr (SimError e) => inr (SimRejected e)
        | inr SimNoResult => inr (SimOk None)
        | inr (SimReturns v) => inr (SimOk (boolOf v))
        end /\ (preview s h).2 = (simulateTransaction servers c s h).2
  end.
Proof.
  intros Hw.
  assert (match keeperWrite k v2 w with inl e => preview = pure (SimRejected e) | inr call => preview = simulateCall servers call end) as Hp.
  { destruct w; cbn [previewOf] in Hw; try discriminate Hw; injection Hw as <-; try reflexivity;
      unfold keeperWrite, viaRouter, simulateRouterCall, simulateRelayStork; by destruct (k_router k). }
  destruct (keeperWrite k v2 w) as [e|[e|c]]; [by subst..|]. subst. unfold simulateCall, lift, mbind, Sub_bind, pure. cbn [app].
  rewrite app_nil_r. destruct (simulateTransaction servers c s h) as [[[e|[e| |v]] s1] n1]; cbn; by rewrite ?app_nil_r.
Qed.

(** *** Bumps *)

Lemma bind_inr {A B} (m : Sub A) (f : A -> Sub B) s h b :
  ((m ≫= f) s h).1.1 = inr b -> exists a, (m s h).1.1 = inr a /\ (f a (m s h).1.2 (h ++ (m s h).2)).1.1 = inr b.
Proof.
  unfold mbind, Sub_bind. destruct (m s h) as [[[e|a] s1] n1]; [done|]. destruct (f a s1 (h ++ n1)) as [[r s2] n2] eqn:Hf.
  intros Hr. exists a. cbn in *. by rewrite Hf.
Qed.

Lemma withRpc_inr {A} servers op (answer : list Call -> nat -> Result A) s h a :
  (withRpc servers op answer s h).1.1 = inr a -> exists h' s', answer h' s' = Ok a.
Proof.
  unfold withRpc. generalize servers at 2. intros budget. generalize "undefined". revert s h.
  induction budget as [|budget IH]; intros s h e; cbn [withRpcLoop]; [done|].
  destruct (answer h s) as [e'|a'] eqn:Ha; [|intros [= <-]; by eexists _, _]. destruct (_ || _); [done|].
  specialize (IH (S s mod servers)%nat (h ++ [Request s op]) e').
  destruct (withRpcLoop _ _ _ _ _ _ _) as [[r s'] n]. exact IH.
Qed.

(** A TTL extension that reports success was taken by an endpoint that
    did not reject it, for the contract and the ledgers asked; the code it
    extends with the instance is the one an endpoint named, and it is left out
    only where the endpoints did not name it. *)
Theorem bump_extends_instance_and_code `{R : Rpc} `{W : WalletRpc} servers contract extendTo s h :
  (bumpContractTtl servers contract extendTo s h).1.1 = inr true ->
  exists tx h' s' sent,
    rpc_sendBump h' s' tx = Ok sent /\ (forall detail, sent <> ERROR detail) /\
    b_instance tx = contract /\ contract <> ""%string /\ b_extendTo tx = extendTo /\
    (forall hash, b_code tx = Some hash -> exists h s, rpc_instance h s contract = Ok (Some (Wasm hash))) /\
    (forall hash, (0 < servers)%nat -> (forall h s, rpc_instance h s contract = Ok (Some (Wasm hash))) -> b_code tx = Some hash).
Proof.
  unfold bumpContractTtl. destruct (String.eqb_spec contract ""); [done|]. intros (r & Hr & Hout)%bind_inr.
  destruct r as [e|b]; injection Hout as Hout; [done|]. subst b.
  assert ((submitBump servers contract extendTo s h).1.1 = inr true) as Hsub.
  { unfold attempt in Hr. destruct (submitBump servers contract extendTo s h) as [[r s1] n1]. by injection Hr. }
  unfold submitBump in Hsub. apply bind_inr in Hsub as (u & Hu & Hsub). apply bind_inr in Hsub as (hash & Hhash & Hsub).
  apply bind_inr in Hsub as (u2 & Hu2 & Hsub). apply bind_inr in Hsub as (sent & Hsent & Hsub). injection Hsub as Hsub.
  apply withRpc_inr in Hsent as (h' & s' & Hsent). do 4 eexists. split; [exact Hsent|]. split; [by intros detail ->|].
  cbn [b_instance b_code b_extendTo]. split_and!; [done..| |].
  - intros x ->. unfold contractWasmHash in Hhash. apply bind_inr in Hhash as (r & Hr2 & Hx).
    destruct r as [e|[[y|]|]]; try discriminate Hx. injection Hx as ->. unfold attempt in Hr2.
    eapply (withRpc_inr servers (GetLedgerEntries 1) (fun h s => rpc_instance h s contract)).
    destruct (withRpc servers _ _ _ _) as [[r s2] n2] eqn:Hw. injection Hr2 as ->. by rewrite Hw.
  - intros x Hpos Hall. unfold contractWasmHash in Hhash. apply bind_inr in Hhash as (r & Hr2 & Hx).
    unfold attempt, withRpc in Hr2. destruct servers as [|n']; [lia|]. cbn [withRpcLoop] in Hr2. rewrite Hall in Hr2.
    injection Hr2 as <-. by injection Hx as <-.
Qed.

(** ** Concrete reads *)

(** Two endpoints, the first of which is down. *)
Definition secondAnswers `{IntCodec} (k : Keeper) (cfg : ReadConfig) (st : ContractState) : ViewRpc := {|
  rpc_view _ s c := if (s =? 0)%nat then Err "fetch failed" else from_option Ok (Err "unknown call"%string) (viewOf k cfg st c);
  rpc_entries _ s keys := if (s =? 0)%nat then Err "fetch failed" else Ok (omap (fun key => pair key <$> ledgerOf st key) keys) |}.

Lemma secondAnswers_faithful `{IntCodec} k cfg st : @Faithful (secondAnswers k cfg st) k cfg st.
Proof.
  split.
  - intros h s c r Hr. cbn. destruct (s =? 0)%nat; [left; by eexists|]. rewrite Hr. by right.
  - intros h s keys. cbn. destruct (s =? 0)%nat; [left; by eexists|]. right. eexists. split; [done|]. intros key v.
    rewrite list_elem_of_omap. split.
    + intros (key' & Hin & Hv). destruct (ledgerOf st key') eqn:Hl; [|done]. by injection Hv as -> ->.
    + intros [Hin Hl]. exists key. by rewrite Hl.
Qed.

Definition longBtc : ParsedPosition := {|
  pp_id := 7; pp_trader := "GT"; pp_asset := "BTC"; pp_collateral := 100; pp_size := 1000; pp_entry_price := 600000000000;
  pp_direction := Health.Long; pp_leverage := 10; pp_liquidation_price := 550000000000; pp_timestamp := 1700000000;
  pp_entry_cumulative_funding := 5; pp_margin_mode := 0 |}.

(** An order of a contract without limit prices or time in force. *)
Definition executedOrder : ParsedOrder := {|
  po_id := 3; po_trader := "GT"; po_asset := "BTC"; po_order_type := TrailingStop; po_direction := Health.Short; po_collateral := 0; po_leverage := 0;
  po_trigger_price := 600000000000; po_trigger_condition := Below; po_slippage_tolerance_bps := 100; po_position_id := 7;
  po_has_position := true; po_created_at := 1700000000; po_status := Executed; po_limit_price := 0; po_trailing_percent_bps := 200;
  po_time_in_force := 0; po_stop_limit_phase := 0 |}.

Definition smallChain : ContractState := {|
  c_positions := {[ 7 := positionStruct true longBtc ]}; c_orders := {[ 3 := orderStruct false executedOrder ]}; c_positionCounter := 8; c_orderCounter := 3;
  c_openPositions := Some 1; c_openOrders := Some 0; c_legacyIds := None; c_crossIds := fun _ => []; c_crossBalance := fun _ => 0;
  c_adl := String.eqb "BTC"; c_mmBps := fun _ => None; c_orderVault := fun id => if id =? 3 then Some 2 else None; c_usdc := fun _ => 900;
  c_buffer := 10; c_totalUsdc := 500 |}.

Definition smallConfig : ReadConfig := {| k_vault := Some "CV"%string; k_usdc := None |}.
Definition smallRpc : ViewRpc := @secondAnswers sdkCodec oneKeeper smallConfig smallChain.

Lemma keeper_reads_are_the_chain_witness :
  @Tells smallRpc 2 _ (@getPosition sdkCodec smallRpc 2 oneKeeper 7) (fun v => v = Some longBtc) /\
  @Tells smallRpc 2 _ (@getOrder sdkCodec smallRpc 2 oneKeeper 3) (fun v => v = Some executedOrder) /\
  (@getPosition sdkCodec smallRpc 2 oneKeeper 7 0%nat []).1.1 = inr (Some longBtc).
Proof.
  split; [|split; [|vm_compute; reflexivity]].
  - refine (proj1 (proj1 (@keeper_reads_are_the_chain sdkCodec smallRpc 2 oneKeeper smallConfig smallChain _) 7 _) true longBtc _);
      [apply secondAnswers_faithful|lia|reflexivity].
  - refine (proj1 (proj2 (proj1 (@keeper_reads_are_the_chain sdkCodec smallRpc 2 oneKeeper smallConfig smallChain _) 3 _)) false executedOrder _);
      [apply secondAnswers_faithful|lia|reflexivity].
Defined.

(** A text that tells values apart, as the base64 of their XDR does. *)
Fixpoint treeOf (v : ScVal) : gen_tree (string + Z) :=
  match v with
  | ScAddress a => GenNode 0 [GenLeaf (inl a)]
  | ScSymbol s => GenNode 1 [GenLeaf (inl s)]
  | ScI128 z => GenNode 2 [GenLeaf (inr z)]
  | ScU32 z => GenNode 3 [GenLeaf (inr z)]
  | ScU64 z => GenNode 4 [GenLeaf (inr z)]
  | ScBool b => GenNode 5 [GenLeaf (inr (if b then 1 else 0))]
  | ScString s => GenNode 6 [GenLeaf (inl s)]
  | ScBytes bs => GenNode 7 ((fun z => GenLeaf (inr z)) <$> bs)
  | ScVec vs => GenNode 8 (treeOf <$> vs)
  | ScMap es => GenNode 9 ((fun e => GenNode 10 [GenLeaf (inl e.1); treeOf e.2]) <$> es)
  end.

#[export] Instance treeOf_inj : Inj (=) (=) treeOf.
Proof.
  unfold Inj. fix IH 1. intros v w. destruct v as [a|a|a|a|a|b|a|l|l|l], w as [a'|a'|a'|a'|a'|b'|a'|l'|l'|l']; cbn; intros [=]; subst; try done.
  - by destruct b, b'.
  - f_equal. revert l' H0. induction l as [|z l IHl]; intros [|z' l'] Hl; try done. cbn in Hl. injection Hl as -> Hl. f_equal. by apply IHl.
  - f_equal. revert l' H0. induction l as [|z l IHl]; intros [|z' l'] Hl; try done. cbn in Hl. injection Hl as Hz Hl.
    f_equal; [by apply IH|by apply IHl].
  - f_equal. revert l' H0. induction l as [|[s z] l IHl]; intros [|[s' z'] l'] Hl; try done. cbn in Hl. injection Hl as -> Hz Hl.
    f_equal; [f_equal; by apply IH|by apply IHl].
Qed.

Definition xdrText (v : ScVal) : string := pretty (encode (treeOf v)).

#[export] Instance xdrText_inj : Inj (=) (=) xdrText.
Proof. intros v w Hvw. unfold xdrText in Hvw. by apply (inj pretty), (inj encode), (inj treeOf) in Hvw. Qed.

(** The key's text: enough of one to tell keys apart. *)
Definition keyText (v : ScVal) : string :=
  match v with
  | ScVec [ScSymbol name; ScU64 id] => name +:+ ":" +:+ decimalOfZ id
  | ScVec [ScSymbol name] => name
  | _ => ""
  end.

Definition bootState : ChainDiscovery := {|
  lastGoodPositions := None; lastGoodOrders := None; positionMismatchStreak := 0; orderMismatchStreak := 0; state := emptyDiscoveryState |}.

(** A first walk, through the second endpoint. *)
Example boot_walk_finds_the_position :
  match (@discoverOnChain smallRpc 2 keyText None bootState 0%nat []).1.1 with
  | inr (snapshot, alerts, _) => positionIds snapshot = [7] /\ orderIds snapshot = [] /\ alerts = []
  | inl _ => False
  end.
Proof. vm_compute. by split_and!. Qed.

Lemma chain_discovery_is_exact_witness :
  @Tells smallRpc 2 _ (@discoverOnChain smallRpc 2 xdrText None bootState) (exactOutcome {[ 7 ]} ∅ 8 3).
Proof.
  refine (@chain_discovery_is_exact sdkCodec smallRpc 2 oneKeeper smallConfig smallChain xdrText _ bootState _ _ _ _ _).
  - apply secondAnswers_faithful.
  - reflexivity.
  - reflexivity.
  - split; [split; [constructor|constructor]|]. split; intros x [p Hx]%elem_of_openIds;
      cbn [smallChain c_positions] in Hx; apply lookup_singleton_Some in Hx as [<- _]; cbn; lia.
  - split; [split; [constructor|constructor]|].
    split; intros x (o & Hx & Hs)%elem_of_pendingIds; cbn [smallChain c_orders] in Hx;
      apply lookup_singleton_Some in Hx as [_ <-]; discriminate Hs.
Defined.

Lemma previews_are_the_writes_witness :
  exists c, @keeperWrite sdkCodec oneKeeper true (WLiquidate 7) = inr (Ok c) /\
    (@simulateLiquidate sdkCodec smallRpc 2 oneKeeper 7 0%nat []).2 = (@simulateTransaction smallRpc 2 c 0%nat []).2.
Proof.
  eexists. split; [vm_compute; reflexivity|].
  exact (proj2 (@previews_are_the_writes sdkCodec smallRpc 2 oneKeeper true (WLiquidate 7) _ 0%nat [] eq_refl)).
Defined.

(** A view that does not return a list reads as an empty one, and a market
    whose id views are gone throws. *)
Example missing_view_throws :
  (@getAllPositionIds smallRpc 2 oneKeeper 1%nat []).1.1
  = inl (Thrown "Simulation failed: HostError: Error(WasmVm, MissingValue)").
Proof. vm_compute. reflexivity. Qed.

Definition voidRpc : ViewRpc := {| rpc_view _ _ _ := Ok (SimReturns (Plain NNull)); rpc_entries _ _ _ := Ok [] |}.

Example void_view_is_an_empty_market : (@getAllPositionIds voidRpc 1 oneKeeper 0%nat []).1.1 = inr [].
Proof. vm_compute. reflexivity. Qed.

(** A bump on one endpoint that knows the contract's code. *)
Definition oneRpc : Rpc := {|
  rpc_account _ _ := Ok (); rpc_simulate _ _ _ := Ok None; rpc_send _ _ _ := Ok (PENDING "tx"); rpc_get _ _ _ := Ok NOT_FOUND;
  rpc_recheck _ := Ok false |}.

Definition oneWallet : WalletRpc := {|
  rpc_balance _ _ := Ok (Some 6000000000); rpc_instance _ _ _ := Ok (Some (Wasm "c0de")); rpc_prepareBump _ _ _ := Ok ();
  rpc_sendBump _ _ _ := Ok (PENDING "tx") |}.

Lemma bump_extends_instance_and_code_witness :
  exists tx, b_instance tx = "CM"%string /\ b_code tx = Some "c0de"%string.
Proof.
  destruct (@bump_extends_instance_and_code oneRpc oneWallet 1 "CM" 518400 0%nat []) as (tx & h' & s' & sent & _ & _ & Hi & _ & _ & _ & Hc).
  - vm_compute. reflexivity.
  - exists tx. split; [exact Hi|]. apply Hc; [lia|reflexivity].
Defined.
