(* ===== verification/WebTrades.v ===== *)
(** * Trading from the web application

    Models the write path of web/lib/stellar/market.ts: each trade function from
    its parameters to the transaction the wallet is asked to sign and its
    submission. What depends on the ledger (which contract generation is
    deployed, the signed price round, the simulation) is read again by every
    rebuild of [TxSubmission.runTradeTx]. The price round is fetched as in
    noeracle.ts, the generation probed as in capabilities.ts. *)

From S2P Require Import Prelude JsText TxFootprint TxSubmission WebErrors ApiOrders ContractCalls.
Open Scope Z_scope.
Open Scope js_scope.

(** ** The signed price (noeracle.ts) *)

Record Attestation := {
  att_price : Z; att_timestamp : Z; att_roundId : Z; publisherHex : string; signatureHex : string }.

(** An entry of the service's answer. *)
Record LatestEntry := {
  le_price : string; le_timestamp : Z; le_round_id : Z; le_publisher : string; le_signature : string }.

(** What /v1/latest answers: fetch or the body's JSON fails, a status that is
    not ok, or the body with its assets, if any. *)
Inductive LatestAnswer := LatestFailed | LatestNotOk | LatestBody (assets : option (gmap string LatestEntry)).

Definition fetchAttestation (asset : string) (answer : LatestAnswer) : option Attestation :=
  match answer with
  | LatestFailed | LatestNotOk => None
  | LatestBody assets =>
      match assets ≫= (fun m => m !! (asset +:+ "/USD")) with
      | None => None
      | Some e =>
          match bigIntOf (le_price e) with
          | inl _ => None
          | inr p => Some {| att_price := p; att_timestamp := le_timestamp e; att_roundId := le_round_id e;
                             publisherHex := le_publisher e; signatureHex := le_signature e |}
          end
      end
  end.

(** ** Which market is deployed (capabilities.ts) *)

(** The memo of the probe: set once the pause state was read. *)
Definition marketHasBatch1Features (probe : option (Z * Z)) (memo : bool) : bool * bool :=
  if memo then (true, true) else let found := bool_decide (is_Some probe) in (found, found).

(** ** The parameters of the trades *)

Inductive WebRequest :=
| WOpen (asset : string) (collateral leverage : Z) (direction : Side) (acceptablePrice : option Z)
| WClose (positionId : Z) (asset : string) (acceptablePrice : Z)
| WClosePartial (positionId closeSize : Z) (asset : string)
| WAddCollateral (positionId amount : Z)
| WRemoveCollateral (positionId amount : Z)
| WLimit (asset : string) (direction : Side) (collateral leverage triggerPrice : Z)
    (cond : TriggerCondition) (slippageBps : Z) (timeInForce : option Z)
| WStopLoss (positionId triggerPrice slippageBps : Z)
| WTakeProfit (positionId triggerPrice slippageBps : Z) (limitPrice : option Z)
| WCancel (orderId : Z)
| WDeposit (amount : Z)
| WWithdraw (amount : Z)
| WOpenCross (asset : string) (collateral leverage : Z) (direction : Side) (acceptablePrice : option Z)
| WCloseCross (positionId acceptablePrice : Z)
| WStopLimit (asset : string) (direction : Side) (collateral leverage triggerPrice limitPrice : Z)
    (triggerAbove : bool) (slippageBps : Z) (timeInForce : option Z)
| WTrailing (positionId trailingPercentBps slippageBps : Z).

(** The contracts the build is configured with (CONTRACTS). *)
Record Contracts := {
  MARKET : string; VAULT : string; NOETHER_ROUTER : option string; NOE_TOKEN : option string;
  VAULT_FACTORY : option string; REFERRAL : option string }.

Definition contextOf (cfg : Contracts) : TxBuildContext :=
  {| ctx_market := Some (MARKET cfg); ctx_vault := Some (VAULT cfg) |}.

Definition opOnly (o : TradeOp) : TxBuildOptions := hinted o None None.

Section trades.
Context `{IntCodec}.

Definition priceTailArgs (att : Attestation) : Result (list ScVal) :=
  p ← encI128 (att_price att); t ← encU64 (att_timestamp att); n ← encU64 (att_roundId att);
  Ok [p; t; n; hexVec (publisherHex att); hexVec (signatureHex att)].

(** attestationStructArg of noeracle.ts: one price, one key, one signature. *)
Definition webStructArg (asset : string) (att : Attestation) : Result ScVal :=
  p ← encI128 (att_price att); n ← encU64 (att_roundId att); t ← encU64 (att_timestamp att);
  Ok (ScMap [ ("asset"%string, ScSymbol asset); ("prices"%string, ScVec [p]);
              ("pubkeys"%string, hexVec (publisherHex att)); ("round_id"%string, n);
              ("sigs"%string, hexVec (signatureHex att)); ("timestamp"%string, t) ]).

(** ** The calls *)

(** The trade arguments openPosition computes before anything is read. *)
Definition openTradeArgs (a : string) (c l : Z) (d : Side) : Result (list ScVal) :=
  c ← encI128 c; l ← encU32 l; Ok [ScSymbol a; c; l; encDirection d].

(** openPosition, given the generation and the round. *)
Definition openPosition (cfg : Contracts) (who a : string) (c l : Z) (d : Side) (bound : option Z)
    (batch1 : bool) (att : option Attestation) : Result ContractCall :=
  tradeArgs ← openTradeArgs a c l d;
  let guard := hinted open_ (Some a) None in
  match NOETHER_ROUTER cfg, att with
  | Some router, Some att =>
      callTo router who "open_with_price" guard
        (if batch1 then
           c ← encI128 c; l ← encU32 l; b ← encI128 (default 0 bound); s ← webStructArg a att;
           Ok [c; l; encDirection d; b; s]
         else tail ← priceTailArgs att; Ok (tradeArgs ++ tail))
  | Some _, None => Err "Noeracle price unavailable"
  | None, _ =>
      callTo (MARKET cfg) who "open_position" guard
        (if batch1 then b ← encI128 (default 0 bound); Ok (tradeArgs ++ [b]) else Ok tradeArgs)
  end.

Definition closePosition (cfg : Contracts) (who : string) (p : Z) (a : string) (bound : Z)
    (batch1 : bool) (att : option Attestation) : Result ContractCall :=
  let guard := hinted close_ (Some a) (Some p) in
  match NOETHER_ROUTER cfg, att with
  | Some router, Some att =>
      callTo router who "close_with_price" guard
        (if batch1 then p ← encU64 p; b ← encI128 bound; s ← webStructArg a att; Ok [p; b; s]
         else p ← encU64 p; tail ← priceTailArgs att; Ok (p :: ScSymbol a :: tail))
  | Some _, None => Err "Noeracle price unavailable"
  | None, _ =>
      callTo (MARKET cfg) who "close_position" guard
        (p ← encU64 p; if batch1 then b ← encI128 bound; Ok [p; b] else Ok [p])
  end.

Definition closePositionPartial (cfg : Contracts) (who : string) (p size : Z) (a : string)
    (batch1 : bool) (att : option Attestation) : Result ContractCall :=
  let guard := hinted close_partial (Some a) (Some p) in
  match NOETHER_ROUTER cfg, att with
  | Some router, Some att =>
      callTo router who "close_partial_with_price" guard
        (p ← encU64 p; q ← encI128 size;
         if batch1 then s ← webStructArg a att; Ok [p; q; s]
         else tail ← priceTailArgs att; Ok (p :: q :: ScSymbol a :: tail))
  | Some _, None => Err "Noeracle price unavailable"
  | None, _ =>
      callTo (MARKET cfg) who "close_position_partial" guard (p ← encU64 p; q ← encI128 size; Ok [p; q])
  end.

(** addCollateral, removeCollateral *)
Definition moveCollateral (cfg : Contracts) (who m : string) (p amount : Z) : Result ContractCall :=
  callTo (MARKET cfg) who m (opOnly other) (p ← encU64 p; q ← encI128 amount; Ok [p; q]).

(** depositCrossMargin, withdrawCrossMargin *)
Definition moveCross (cfg : Contracts) (who m : string) (amount : Z) : Result ContractCall :=
  callTo (MARKET cfg) who m (opOnly other) (q ← encI128 amount; Ok [q]).

Definition openPositionCross (cfg : Contracts) (who a : string) (c l : Z) (d : Side) (bound : option Z)
    (batch1 : bool) : Result ContractCall :=
  callTo (MARKET cfg) who "open_position_cross" (hinted TxFootprint.open_cross (Some a) None)
    (args ← openTradeArgs a c l d;
     if batch1 then b ← encI128 (default 0 bound); Ok (args ++ [b]) else Ok args).

Definition closePositionCross (cfg : Contracts) (who : string) (p bound : Z) (batch1 : bool)
  : Result ContractCall :=
  callTo (MARKET cfg) who "close_position_cross" (hinted TxFootprint.close_cross None (Some p))
    (p ← encU64 p; if batch1 then b ← encI128 bound; Ok [p; b] else Ok [p]).

Definition placeLimitOrder (cfg : Contracts) (who a : string) (d : Side) (c l t : Z) (cond : TriggerCondition)
    (s : Z) (f : option Z) : Result ContractCall :=
  callTo (MARKET cfg) who "place_limit_order" (opOnly place_order) (limitArgs a d c l t cond s (default 0 f)).

Definition placeStopLimitOrder (cfg : Contracts) (who a : string) (d : Side) (c l t lim : Z) (above : bool)
    (s : Z) (f : option Z) : Result ContractCall :=
  callTo (MARKET cfg) who "place_stop_limit_order" (opOnly place_order)
    (c ← encI128 c; l ← encU32 l; t ← encI128 t; lim ← encI128 lim; s ← encU32 s; f ← encU32 (default 0 f);
     Ok [ScSymbol a; encDirection d; c; l; t; lim; ScBool above; s; f]).

Definition placeTrailingStop (cfg : Contracts) (who : string) (p t s : Z) : Result ContractCall :=
  callTo (MARKET cfg) who "place_trailing_stop" (opOnly place_order) (trailingArgs p t s).

Definition setStopLoss (cfg : Contracts) (who : string) (p t s : Z) : Result ContractCall :=
  callTo (MARKET cfg) who "set_stop_loss" (opOnly place_order) (stopLossArgs p t s).

Definition setTakeProfit (cfg : Contracts) (who : string) (p t s : Z) (l : option Z) : Result ContractCall :=
  callTo (MARKET cfg) who "set_take_profit" (opOnly place_order) (takeProfitArgs p t s (default 0 l)).

Definition cancelOrder (cfg : Contracts) (who : string) (o : Z) : Result ContractCall :=
  callTo (MARKET cfg) who "cancel_order" (opOnly cancel_order) (o ← encU64 o; Ok [o]).

Definition requestCall (cfg : Contracts) (who : string) (r : WebRequest) (batch1 : bool)
    (att : option Attestation) : Result ContractCall :=
  match r with
  | WOpen a c l d b => openPosition cfg who a c l d b batch1 att
  | WClose p a b => closePosition cfg who p a b batch1 att
  | WClosePartial p s a => closePositionPartial cfg who p s a batch1 att
  | WAddCollateral p q => moveCollateral cfg who "add_collateral" p q
  | WRemoveCollateral p q => moveCollateral cfg who "remove_collateral" p q
  | WLimit a d c l t cond s f => placeLimitOrder cfg who a d c l t cond s f
  | WStopLoss p t s => setStopLoss cfg who p t s
  | WTakeProfit p t s l => setTakeProfit cfg who p t s l
  | WCancel o => cancelOrder cfg who o
  | WDeposit q => moveCross cfg who "deposit_cross_margin" q
  | WWithdraw q => moveCross cfg who "withdraw_cross_margin" q
  | WOpenCross a c l d b => openPositionCross cfg who a c l d b batch1
  | WCloseCross p b => closePositionCross cfg who p b batch1
  | WStopLimit a d c l t lim above s f => placeStopLimitOrder cfg who a d c l t lim above s f
  | WTrailing p t s => placeTrailingStop cfg who p t s
  end.

(** ** The flow of one trade *)

(** What an attempt reads: the pause state (the probe), the price service, and
    the simulation of the call it builds. *)
Record Reads := { probe : option (Z * Z); latest : LatestAnswer; simulate : ContractCall -> Simulation }.

Definition tradeOpOf (r : WebRequest) : TradeOp :=
  match r with
  | WOpen _ _ _ _ _ => open_
  | WClose _ _ _ => close_
  | WClosePartial _ _ _ => close_partial
  | WOpenCross _ _ _ _ _ => TxFootprint.open_cross
  | WCloseCross _ _ => TxFootprint.close_cross
  | WCancel _ => cancel_order
  | WLimit _ _ _ _ _ _ _ _ | WStopLimit _ _ _ _ _ _ _ _ _ | WStopLoss _ _ _ | WTakeProfit _ _ _ _
  | WTrailing _ _ _ => place_order
  | WAddCollateral _ _ | WRemoveCollateral _ _ | WDeposit _ | WWithdraw _ => other
  end.

(** The symbol whose round a trade through the router relays. *)
Definition relays (r : WebRequest) : option string :=
  match r with WOpen a _ _ _ _ => Some a | WClose _ a _ => Some a | WClosePartial _ _ a => Some a | _ => None end.

(** The trades whose arguments depend on the generation. *)
Definition probes (r : WebRequest) : bool :=
  match r with
  | WOpen _ _ _ _ _ | WClose _ _ _ | WClosePartial _ _ _ | WOpenCross _ _ _ _ _ | WCloseCross _ _ => true
  | _ => false
  end.

(** What is computed before the flow starts, and throws outside it. *)
Definition early (cfg : Contracts) (who : string) (r : WebRequest) : Result () :=
  match r with
  | WOpen a c l d _ => _ ← openTradeArgs a c l d; Ok tt
  | WClose _ _ _ | WClosePartial _ _ _ | WOpenCross _ _ _ _ _ | WCloseCross _ _ => Ok tt
  | _ => _ ← requestCall cfg who r false None; Ok tt
  end.

Context `{FeeBuilder} (toXDR : ContractCall -> Transaction -> string).

(** The table a contract's failures decode through (contractErrorContext). *)
Definition contractErrorContext (cfg : Contracts) (id : string) : ErrorContext :=
  let isIt c := bool_decide (c = Some id) in
  if isIt (VAULT_FACTORY cfg) then atFactory
  else if isIt (REFERRAL cfg) then atReferral
  else if String.eqb (VAULT cfg) id then atVault else atMarket.

(** buildTransaction of client.ts from the simulation on. *)
Definition buildTransaction (cfg : Contracts) (sim : ContractCall -> Simulation) (call : ContractCall)
  : Result string :=
  match sim call with
  | RpcThrew e => Err e
  | SimulationFailed e => Err (simulationErrorText (contractErrorContext cfg (contractId call)) e)
  | Assembled tx => tx ← buildContractTx (contextOf cfg) (source call) (Ok tx) (hints call); Ok (toXDR call tx)
  end.

Section flow.
Context (cfg : Contracts) (who : string) (r : WebRequest) (memo : bool) (env : nat -> Reads).

Fixpoint memoBefore (i : nat) : bool :=
  match i with O => memo | S i => (marketHasBatch1Features (probe (env i)) (memoBefore i)).2 end.

Definition batch1At (i : nat) : bool :=
  if probes r then (marketHasBatch1Features (probe (env i)) (memoBefore i)).1 else false.

Definition roundAt (i : nat) : option Attestation :=
  match NOETHER_ROUTER cfg, relays r with
  | Some _, Some a => fetchAttestation a (latest (env i))
  | _, _ => None
  end.

(** The build closure of the trade. *)
Definition buildAttempt (i : nat) : TradeError + string :=
  match (call ← requestCall cfg who r (batch1At i) (roundAt i); buildTransaction cfg (simulate (env i)) call) with
  | inl e => inl (Thrown e)
  | inr xdr => inr xdr
  end.

Definition runWebTrade (sign : nat -> string -> TradeError + string) (rpc : nat -> Rpc)
    (retryDelayMs : Z) (maxRetries : nat) : (TradeError + Z) * list FlowEvent :=
  match early cfg who r with
  | inl e => (inl (Thrown e), [])
  | inr _ =>
      runTradeTx buildAttempt sign (fun i _ => submitTransaction (Some (tradeOpOf r)) (rpc i)) retryDelayMs
        maxRetries 0
  end.
End flow.
End trades.

(** ** Reading a call back *)

(** The trade a call makes, as a request without its price bound; the bound
    and the round it carries, if any. *)
Record WebRead := { w_trader : string; w_asked : WebRequest; w_bound : option Z; w_round : option Bundle }.

Definition said (w : string) (r : WebRequest) (b : option Z) (round : option Bundle) : WebRead :=
  {| w_trader := w; w_asked := r; w_bound := b; w_round := round |}.

(** The round of a legacy call: the tail behind the symbol [a]. *)
Definition tailRound (a : string) (tail : list ScVal) : option Bundle := readRound (ScSymbol a :: tail).

(** The bound at the end of a call of the current generation. *)
Definition readBound (tail : list ScVal) : option (option Z) :=
  match tail with [] => Some None | [ScI128 b] => Some (Some b) | _ => None end.

Definition readMethod (m w : string) (vs : list ScVal) : option WebRead :=
  let called n := String.eqb m n in
  match vs with
  | [ScI128 x; ScU32 l; ScU32 d; ScI128 b; v] =>
      if called "open_with_price"%string then
        round ← readStruct v;
        Some (said w (WOpen (b_asset round) x l (readSide d) None) (Some b) (Some round)) else None
  | ScSymbol a :: ScI128 x :: ScU32 l :: ScU32 d :: tail =>
      let o := WOpen a x l (readSide d) None in
      if called "open_with_price"%string then round ← tailRound a tail; Some (said w o None (Some round))
      else if called "open_position"%string then b ← readBound tail; Some (said w o b None)
      else if called "open_position_cross"%string then
        b ← readBound tail; Some (said w (WOpenCross a x l (readSide d) None) b None)
      else None
  | [ScSymbol a; ScU32 d; ScI128 x; ScU32 l; ScI128 t; ScBool b; ScU32 s; ScU32 f] =>
      if called "place_limit_order"%string
      then Some (said w (WLimit a (readSide d) x l t (readTrigger b) s (Some f)) None None) else None
  | [ScSymbol a; ScU32 d; ScI128 x; ScU32 l; ScI128 t; ScI128 lim; ScBool b; ScU32 s; ScU32 f] =>
      if called "place_stop_limit_order"%string
      then Some (said w (WStopLimit a (readSide d) x l t lim b s (Some f)) None None) else None
  | [ScU64 p; ScU32 t; ScU32 s] =>
      if called "place_trailing_stop"%string then Some (said w (WTrailing p t s) None None) else None
  | [ScU64 p; ScI128 t; ScU32 s] =>
      if called "set_stop_loss"%string then Some (said w (WStopLoss p t s) None None) else None
  | [ScU64 p; ScI128 t; ScU32 s; ScI128 l] =>
      if called "set_take_profit"%string then Some (said w (WTakeProfit p t s (Some l)) None None) else None
  | [ScI128 q] =>
      if called "deposit_cross_margin"%string then Some (said w (WDeposit q) None None)
      else if called "withdraw_cross_margin"%string then Some (said w (WWithdraw q) None None) else None
  | [ScU64 p] =>
      if called "cancel_order"%string then Some (said w (WCancel p) None None)
      else if called "close_position_cross"%string then Some (said w (WCloseCross p 0) None None)
      else if called "close_position"%string then Some (said w (WClose p "" 0) None None) else None
  | [ScU64 p; ScI128 q] =>
      if called "add_collateral"%string then Some (said w (WAddCollateral p q) None None)
      else if called "remove_collateral"%string then Some (said w (WRemoveCollateral p q) None None)
      else if called "close_position_partial"%string then Some (said w (WClosePartial p q "") None None)
      else if called "close_position_cross"%string then Some (said w (WCloseCross p 0) (Some q) None)
      else if called "close_position"%string then Some (said w (WClose p "" 0) (Some q) None) else None
  | [ScU64 p; ScI128 q; v] =>
      round ← readStruct v;
      if called "close_with_price"%string then Some (said w (WClose p (b_asset round) 0) (Some q) (Some round))
      else if called "close_partial_with_price"%string
      then Some (said w (WClosePartial p q (b_asset round)) None (Some round)) else None
  | ScU64 p :: ScSymbol a :: tail =>
      if called "close_with_price"%string
      then round ← tailRound a tail; Some (said w (WClose p a 0) None (Some round)) else None
  | ScU64 p :: ScI128 q :: ScSymbol a :: tail =>
      if called "close_partial_with_price"%string
      then round ← tailRound a tail; Some (said w (WClosePartial p q a) None (Some round)) else None
  | _ => None
  end.

Definition readWeb (c : ContractCall) : option WebRead :=
  match args c with ScAddress w :: vs => readMethod (method c) w vs | _ => None end.

Definition webBundle (a : string) (att : Attestation) : Bundle := {|
  b_asset := a; b_prices := [att_price att]; b_time := att_timestamp att; b_round := att_roundId att;
  b_keys := [toBytes (Hex (publisherHex att))]; b_sigs := [toBytes (Hex (signatureHex att))] |}.

(** What a request means: its defaults filled in, its bound apart, and the
    symbol of a close only where the call carries one. *)
Definition meaning (cfg : Contracts) (who : string) (r : WebRequest) (batch1 : bool)
    (att : option Attestation) : WebRead :=
  let symbol a := match NOETHER_ROUTER cfg with Some _ => a | None => EmptyString end in
  let bounded b := if batch1 then Some b else None in
  let round a := match NOETHER_ROUTER cfg with Some _ => webBundle a <$> att | None => None end in
  match r with
  | WOpen a c l d b => said who (WOpen a c l d None) (bounded (default 0 b)) (round a)
  | WClose p a b => said who (WClose p (symbol a) 0) (bounded b) (round a)
  | WClosePartial p s a => said who (WClosePartial p s (symbol a)) None (round a)
  | WOpenCross a c l d b => said who (WOpenCross a c l d None) (bounded (default 0 b)) None
  | WCloseCross p b => said who (WCloseCross p 0) (bounded b) None
  | WLimit a d c l t cond s f => said who (WLimit a d c l t cond s (Some (default 0 f))) None None
  | WStopLimit a d c l t lim up s f => said who (WStopLimit a d c l t lim up s (Some (default 0 f))) None None
  | WTakeProfit p t s l => said who (WTakeProfit p t s (Some (default 0 l))) None None
  | r => said who r None None
  end.

Definition contractOf (cfg : Contracts) (r : WebRequest) : string :=
  match relays r, NOETHER_ROUTER cfg with Some _, Some router => router | _, _ => MARKET cfg end.

(** ** Lemmas *)

Lemma side_read d : readSide (match d with Long => 0 | Short => 1 end) = d.
Proof. by destruct d. Qed.

Lemma trigger_read c : readTrigger (match c with Above => true | Below => false end) = c.
Proof. by destruct c. Qed.

(** Undo a computation that ended well down to its encoded integers. *)
Ltac crunch :=
  repeat (inv_binds; match goal with H : Ok _ = Ok _ |- _ => injection H as <- end); inv_enc.

Section lemmas.
Context `{IntCodec}.

(** Every call of the web application reads as the trade it was built for. *)
Lemma requestCall_read cfg who r batch1 att c :
  requestCall cfg who r batch1 att = Ok c ->
  source c = who /\ contractId c = contractOf cfg r /\ readWeb c = Some (meaning cfg who r batch1 att).
Proof.
  unfold contractOf.
  destruct r; cbn [requestCall meaning relays]; unfold openPosition, closePosition, closePositionPartial,
    moveCollateral, moveCross, openPositionCross, closePositionCross, placeLimitOrder, placeStopLimitOrder,
    placeTrailingStop, setStopLoss, setTakeProfit, cancelOrder, limitArgs, trailingArgs, stopLossArgs,
    takeProfitArgs, openTradeArgs, callTo, encDirection, encTrigger, webStructArg, priceTailArgs; intros Hc.
  all: try (destruct (NOETHER_ROUTER cfg) as [router|]; [destruct att as [att|]|]); inv_binds; try done.
  all: try destruct batch1; crunch.
  all: try (split; [reflexivity|]; split; [reflexivity|]).
  all: try (by (first [destruct direction | idtac]; first [destruct cond | idtac]; reflexivity)).
Qed.

(** The footprint guard is told the operation of the flow. *)
Lemma requestCall_op cfg who r batch1 att c :
  requestCall cfg who r batch1 att = Ok c -> op (hints c) = Some (tradeOpOf r).
Proof.
  destruct r; cbn [requestCall tradeOpOf]; unfold openPosition, closePosition, closePositionPartial,
    moveCollateral, moveCross, openPositionCross, closePositionCross, placeLimitOrder, placeStopLimitOrder,
    placeTrailingStop, setStopLoss, setTakeProfit, cancelOrder, opOnly; intros Hc.
  all: try (destruct (NOETHER_ROUTER cfg) as [router|]; [destruct att as [att|]|]); inv_binds; try done.
  all: by apply callTo_Ok in Hc as (_ & _ & _ & ->).
Qed.

(** A call that needs a round has one. *)
Lemma requestCall_round cfg who r batch1 att c router a :
  requestCall cfg who r batch1 att = Ok c -> NOETHER_ROUTER cfg = Some router -> relays r = Some a ->
  is_Some att.
Proof.
  intros Hc Hr Ha. destruct att as [att|]; [by eexists|].
  destruct r; try discriminate Ha; cbn [requestCall] in Hc;
    unfold openPosition, closePosition, closePositionPartial in Hc; rewrite Hr in Hc; inv_binds; done.
Qed.
End lemmas.

(** What the wallet is asked to sign, in order. *)
Definition walletAsks (es : list FlowEvent) : list string :=
  omap (fun e => match e with AskedWallet xdr => Some xdr | _ => None end) es.

Lemma walletAsks_app es es' : walletAsks (es ++ es') = walletAsks es ++ walletAsks es'.
Proof. apply omap_app. Qed.

(** An attempt that submits has asked for what its own build returned; one that
    does not has asked for nothing else. *)
Lemma tradeAttempt_asks {T} build sign (submit : nat -> string -> TradeError + T) i r es :
  tradeAttempt build sign submit i = (r, es) ->
  (exists xdr, build i = inr xdr /\ walletAsks es = [xdr]) \/ (exists e, r = inl e) /\ walletAsks es = [].
Proof.
  unfold tradeAttempt. destruct (build i) as [e|x]; [intros [= <- <-]; right; by split; [exists e|]|].
  destruct (sign i x); intros [= <- <-]; left; by exists x.
Qed.

(** The wallet's [i]-th question is what the build of the [i]-th attempt
    returned. *)
Lemma asked_was_built {T} build sign (submit : nat -> string -> TradeError + T) delay n k i xdr :
  walletAsks (runTradeTx build sign submit delay n k).2 !! i = Some xdr -> build (k + i)%nat = inr xdr.
Proof.
  revert k i. induction n as [|n IH]; intros k i; simpl;
    destruct (tradeAttempt build sign submit k) as [r es] eqn:Ha;
    destruct (tradeAttempt_asks _ _ _ _ _ _ Ha) as [(x & Hb & Hes)|[[e ->] Hes]]; cbn [snd]; rewrite ?Hes; try done.
  1: assert ([x] !! i = Some xdr -> build (k + i)%nat = inr xdr) as Hself
    by (destruct i; [|done]; intros [= <-]; by rewrite Nat.add_0_r); by destruct r as [|[]]; cbn [snd]; rewrite Hes.
  assert ([x] !! i = Some xdr -> build (k + i)%nat = inr xdr) as Hself
    by (destruct i; [|done]; intros [= <-]; by rewrite Nat.add_0_r).
  destruct r as [e|[e|t]]; cbn [snd]; rewrite ?Hes; [done| |done].
  destruct (tradeClass e); cbn [snd]; rewrite ?Hes; [| |done].
  all: destruct (runTradeTx build sign submit delay n (S k)) as [r' es'] eqn:Hrun; specialize (IH (S k)); rewrite Hrun in IH;
    cbn [snd] in *; rewrite !walletAsks_app, Hes; cbn; destruct i as [|i]; cbn; [by intros [= <-]; rewrite Nat.add_0_r|];
    intros Hi; rewrite <- Nat.add_succ_comm; by apply IH.
Qed.

(** ** The shared builders' calls *)

(** The web application's round as the builders' attestation. *)
Definition attestationOf (a : string) (att : Attestation) : PriceAttestation := {|
  pa_asset := a; prices := [att_price att]; pa_timestamp := att_timestamp att; roundId := att_roundId att;
  pubkeys := [Hex (publisherHex att)]; sigs := [Hex (signatureHex att)] |}.

(** The call tx-builders makes for a trade, where it has a builder for it. *)
Definition builderCall `{IntCodec} (cfg : Contracts) (who : string) (r : WebRequest) (att : Attestation)
  : option (Result ContractCall) :=
  let market := MARKET cfg in
  match r, NOETHER_ROUTER cfg with
  | WOpen a c l d b, Some router => Some (openWithPrice router who c l d (default 0 b) (attestationOf a att))
  | WOpen a c l d b, None =>
      Some (callTo market who "open_position" (hinted open_ (Some a) None) (openArgs a c l d (default 0 b)))
  | WClose p a b, Some router => Some (closeWithPrice router who p b (attestationOf a att))
  | WClose p a b, None => Some (callTo market who "close_position" (hinted close_ None (Some p)) (closeArgs p b))
  | WClosePartial p q a, Some router => Some (closePartialWithPrice router who p q (attestationOf a att))
  | WOpenCross a c l d b, _ =>
      Some (callTo market who "open_position_cross" (hinted TxFootprint.open_cross (Some a) None)
              (openArgs a c l d (default 0 b)))
  | WCloseCross p b, _ =>
      Some (callTo market who "close_position_cross" (hinted TxFootprint.close_cross None (Some p)) (closeArgs p b))
  | WLimit a d c l t cond s f, _ =>
      Some (callTo market who "place_limit_order" unhinted (limitArgs a d c l t cond s (default 0 f)))
  | WStopLimit a d c l t lim up s f, _ =>
      Some (callTo market who "place_stop_limit_order" unhinted
              (stopLimitArgs a d c l t lim (if up then Above else Below) s (default 0 f)))
  | WTrailing p t s, _ => Some (callTo market who "place_trailing_stop" unhinted (trailingArgs p t s))
  | WStopLoss p t s, _ => Some (callTo market who "set_stop_loss" unhinted (stopLossArgs p t s))
  | WTakeProfit p t s l, _ => Some (callTo market who "set_take_profit" unhinted (takeProfitArgs p t s (default 0 l)))
  | WCancel o, _ => Some (callTo market who "cancel_order" unhinted (o ← encU64 o; Ok [o]))
  | _, _ => None
  end.

(** The one trade the builders give fewer hints for: a close on the market. *)
Definition closesOnMarket (cfg : Contracts) (r : WebRequest) : bool :=
  match r, NOETHER_ROUTER cfg with WClose _ _ _, None => true | _, _ => false end.

Lemma wire_callTo `{IntCodec} ct who m o o' rest :
  onOk wire (callTo ct who m o rest) = onOk wire (callTo ct who m o' rest).
Proof. unfold callTo. by destruct rest. Qed.

Section theorems.
Context `{IntCodec} `{FeeBuilder} (toXDR : ContractCall -> Transaction -> string).

(** C5. Whatever the wallet is asked to sign in a trade of the web
    application, rebuilds included, is the trade the user asked for. The [i]-th
    time it is asked, the transaction was built from what the [i]-th attempt
    read: it is a call from the user's account to the market or the router
    whose arguments read back as the request, under the contract generation
    the probes found up to that attempt, with its price bound if that
    generation takes one (the old contracts take none); through the router it
    carries the round fetched in that attempt; and it is what that attempt's
    simulation returned, padded for the operation of the trade. *)
Theorem web_trade_signs_what_was_asked cfg who r memo env sign rpc delay retries i xdr :
  walletAsks (runWebTrade toXDR cfg who r memo env sign rpc delay retries).2 !! i = Some xdr ->
  exists call tx assembled,
    xdr = toXDR call tx /\ source call = who /\ contractId call = contractOf cfg r /\
    readWeb call = Some (meaning cfg who r (batch1At r memo env i) (roundAt cfg r env i)) /\
    (forall router a, NOETHER_ROUTER cfg = Some router -> relays r = Some a ->
       exists att, fetchAttestation a (latest (env i)) = Some att /\ roundAt cfg r env i = Some att) /\
    simulate (env i) call = Assembled assembled /\ op (hints call) = Some (tradeOpOf r) /\
    buildContractTx (contextOf cfg) who (Ok assembled) (hints call) = Ok tx.
Proof.
  unfold runWebTrade. destruct (early cfg who r); [done|].
  intros Hb%asked_was_built. rewrite Nat.add_0_l in Hb. unfold buildAttempt in Hb.
  destruct (requestCall _ _ _ _ _) as [|call] eqn:Hc; [done|]. simpl in Hb.
  unfold buildTransaction in Hb. destruct (simulate (env i) call) as [| |assembled] eqn:Hs; try done.
  destruct (requestCall_read _ _ _ _ _ _ Hc) as (Hsrc & Hct & Hread).
  rewrite Hsrc in Hb. destruct (buildContractTx _ _ _ _) as [|tx] eqn:Ht; [done|]. simpl in Hb.
  exists call, tx, assembled. split_and!; try done.
  - by injection Hb.
  - intros router a Hrouter Ha. pose proof (requestCall_round _ _ _ _ _ _ _ _ Hc Hrouter Ha) as [att Hatt].
    exists att. split; [|done]. revert Hatt. unfold roundAt. by rewrite Hrouter, Ha.
  - by apply (requestCall_op _ _ _ _ _ _ Hc).
Qed.

(** A transaction the web application builds for the current contracts
    is the one the shared builders build: the same operation, argument by
    argument, or a refusal of the same argument; and it pads the same footprint
    keys, except that the builders know no asset for a close on the market. *)
Theorem web_calls_match_builders cfg who r att built :
  builderCall cfg who r att = Some built ->
  onOk wire (requestCall cfg who r true (Some att)) = onOk wire built /\
  (closesOnMarket cfg r = false ->
   onOk (fun c => guardKeys (contextOf cfg) who (hints c)) (requestCall cfg who r true (Some att))
   = onOk (fun c => guardKeys (contextOf cfg) who (hints c)) built).
Proof.
  destruct r; unfold builderCall, closesOnMarket, contextOf; cbn [requestCall]; intros Hb.
  all: try (destruct (NOETHER_ROUTER cfg) as [router|] eqn:Hr); try discriminate Hb; injection Hb as <-.
  all: unfold openPosition, closePosition, closePositionPartial, openPositionCross, closePositionCross,
    placeLimitOrder, placeStopLimitOrder, placeTrailingStop, setStopLoss, setTakeProfit, cancelOrder, openWithPrice,
    closeWithPrice, closePartialWithPrice, openArgs, closeArgs, openTradeArgs, stopLimitArgs, callTo,
    webStructArg, attestationStructArg, attestationOf, encAll, opOnly; rewrite ?Hr.
  all: cbn [prices pa_asset roundId pa_timestamp pubkeys sigs].
  all: try destruct triggerAbove.
  all: split; [|intros Hm; try discriminate Hm].
  all: repeat first [ reflexivity
    | match goal with
      | |- context [encI128 ?z] => destruct (encI128 z)
      | |- context [encU32 ?z] => destruct (encU32 z)
      | |- context [encU64 ?z] => destruct (encU64 z)
      | |- context [limitArgs ?a ?d ?c ?l ?t ?k ?s ?f] => destruct (limitArgs a d c l t k s f)
      | |- context [trailingArgs ?p ?t ?s] => destruct (trailingArgs p t s)
      | |- context [stopLossArgs ?p ?t ?s] => destruct (stopLossArgs p t s)
      | |- context [takeProfitArgs ?p ?t ?s ?l] => destruct (takeProfitArgs p t s l)
      end; cbn -[guardKeys]
    | unfold guardKeys; cbn; repeat case_match; reflexivity ].
Qed.
End theorems.

(** ** A trade *)

Definition testnet : Contracts := {|
  MARKET := "CMKT"; VAULT := "CV"; NOETHER_ROUTER := Some "CR"%string; NOE_TOKEN := Some "CNOE"%string;
  VAULT_FACTORY := Some "CF"%string; REFERRAL := Some "CREF"%string |}.

Definition btcLatest : LatestAnswer :=
  LatestBody (Some {[ "BTC/USD"%string := {| le_price := "600000000000"; le_timestamp := 1700000000;
    le_round_id := 42; le_publisher := "0a0b"; le_signature := "ff01" |} ]}).

(** The first attempt finds the old generation, the rebuild the current one. *)
Definition reads (i : nat) : Reads := {|
  probe := match i with O => None | _ => Some (0, 0) end; latest := btcLatest;
  simulate := fun _ => Assembled simulatedOpen |}.

Definition openShort : WebRequest := WOpen "BTC" 250000000 5 Short (Some 590000000000).

Definition showCall (c : ContractCall) (_ : Transaction) : string := method c.

(** The second question, after the rebuild: the current generation's call. *)
Lemma web_trade_signs_what_was_asked_witness :
  let run := @runWebTrade sdkCodec sdkFees showCall testnet "GA" openShort false reads
               (fun _ x => inr x) secondTime 2000 1 in
  walletAsks run.2 !! 1%nat = Some "open_with_price"%string /\
  exists call, source call = "GA"%string /\
    readWeb call = Some (meaning testnet "GA" openShort true (Some {| att_price := 600000000000;
      att_timestamp := 1700000000; att_roundId := 42; publisherHex := "0a0b"; signatureHex := "ff01" |})).
Proof.
  assert (walletAsks (@runWebTrade sdkCodec sdkFees showCall testnet "GA" openShort false reads
               (fun _ x => inr x) secondTime 2000 1).2 !! 1%nat = Some "open_with_price"%string) as Hin
    by (vm_compute; reflexivity).
  split; [exact Hin|].
  destruct (@web_trade_signs_what_was_asked sdkCodec sdkFees showCall testnet "GA" openShort false reads
    (fun _ x => inr x) secondTime 2000 1 1 "open_with_price" Hin) as (call & tx & assembled & _ & Hs & _ & Hr & _).
  by exists call.
Defined.

Definition someRound : Attestation := {|
  att_price := 600000000000; att_timestamp := 1700000000; att_roundId := 42; publisherHex := "0a0b";
  signatureHex := "ff01" |}.

Lemma web_calls_match_builders_witness :
  exists built, @builderCall sdkCodec testnet "GA" openShort someRound = Some built /\
    onOk wire (@requestCall sdkCodec testnet "GA" openShort true (Some someRound)) = onOk wire built.
Proof.
  eexists. split; [reflexivity|].
  apply (@web_calls_match_builders sdkCodec testnet "GA" openShort someRound); reflexivity.
Defined.

(** On the old contracts the bound the user set is not sent. *)
Example legacy_trade_has_no_bound :
  w_bound (meaning testnet "GA" openShort false (Some someRound)) = None.
Proof. reflexivity. Qed.
