(* ===== verification/WebReads.v ===== *)
(** * The web application's reads of positions and orders

    Models the read path of web/lib/stellar/market.ts: the parsers of the
    contract's rows, hydration by id, the views with their fallbacks, the walk
    of the ledger that replaces the deleted order index, and the rows the
    screens show. The trust in the gateway's hints is that of
    lib/api/gateway.ts. What the chain answers is the record [Chain]. *)

From S2P Require Import Prelude JsText ApiOrders.
Open Scope Z_scope.
Open Scope js_scope.

(** ** The contract's rows and their parsers *)

(** RawPosition; [None] is a field the deployed struct does not have. *)
Record RawPosition := {
  rp_id : Z; rp_trader : string; rp_asset : string; rp_direction : Z;
  rp_collateral : Z; rp_size : Z; rp_entry_price : Z; rp_liquidation_price : Z;
  rp_timestamp : option Z; rp_entry_cumulative_funding : option Z;
  rp_opened_at : option Z; rp_accumulated_funding : option Z; rp_margin_mode : option Z }.

Inductive MarginMode := Isolated | Cross.

#[export] Instance MarginMode_eq_dec : EqDecision MarginMode.
Proof. solve_decision. Defined.

Record Position := {
  p_id : Z; p_trader : string; p_asset : string; p_direction : Side; p_collateral : Z; p_size : Z;
  entryPrice : Z; liquidationPrice : Z; openedAt : Z; entryCumulativeFunding : Z; marginMode : MarginMode }.

(** [a ?? b] *)
Definition orElse {A} (a b : option A) : option A := match a with Some _ => a | None => b end.

Definition directionOf (d : Z) : Side := if numberOfBigint d =? 0 then Long else Short.

Definition parsePosition (raw : RawPosition) : Position := {|
  p_id := numberOfBigint (rp_id raw);
  p_trader := rp_trader raw;
  p_asset := rp_asset raw;
  p_direction := directionOf (rp_direction raw);
  p_collateral := rp_collateral raw;
  p_size := rp_size raw;
  entryPrice := rp_entry_price raw;
  liquidationPrice := rp_liquidation_price raw;
  openedAt := numberOfBigint (default 0 (orElse (rp_timestamp raw) (rp_opened_at raw)));
  entryCumulativeFunding := default 0 (orElse (rp_entry_cumulative_funding raw) (rp_accumulated_funding raw));
  marginMode := if numberOfBigint (default 0 (rp_margin_mode raw)) =? 1 then Cross else Isolated |}.

Inductive OrderType := LimitEntry | StopLoss | TakeProfit | StopLimit | TrailingStop.
Inductive OrderStatus := Pending | Executed | Cancelled | CancelledSlippage | Expired.

#[export] Instance OrderType_eq_dec : EqDecision OrderType.
Proof. solve_decision. Defined.
#[export] Instance OrderStatus_eq_dec : EqDecision OrderStatus.
Proof. solve_decision. Defined.

Record RawOrder := {
  ro_id : Z; ro_trader : string; ro_asset : string; ro_order_type : Z; ro_direction : Z;
  ro_collateral : Z; ro_leverage : Z; ro_trigger_price : Z; ro_trigger_condition : Z;
  ro_slippage_tolerance_bps : Z; ro_position_id : Z; ro_has_position : bool; ro_created_at : Z;
  ro_status : Z; ro_limit_price : option Z; ro_trailing_percent_bps : option Z;
  ro_time_in_force : option Z; ro_stop_limit_phase : option Z }.

Record Order := {
  o_id : Z; o_trader : string; o_asset : string; orderType : OrderType; o_direction : Side;
  o_collateral : Z; o_leverage : Z; triggerPrice : Z; triggerCondition : TriggerCondition;
  slippageToleranceBps : Z; positionId : Z; hasPosition : bool; createdAt : Z; status : OrderStatus;
  limitPrice : Z; trailingPercentBps : Z; timeInForce : Z; stopLimitPhase : Z }.

#[export] Instance Side_eq_dec : EqDecision Side.
Proof. solve_decision. Defined.
#[export] Instance TriggerCondition_eq_dec : EqDecision TriggerCondition.
Proof. solve_decision. Defined.
#[export] Instance Position_eq_dec : EqDecision Position.
Proof. solve_decision. Defined.
#[export] Instance Order_eq_dec : EqDecision Order.
Proof. solve_decision. Defined.

(** [orderTypeMap[n] || 'LimitEntry'] *)
Definition orderTypeOf (n : Z) : OrderType :=
  match n with 1 => StopLoss | 2 => TakeProfit | 3 => StopLimit | 4 => TrailingStop | _ => LimitEntry end.

(** [statusMap[n] || 'Pending'] *)
Definition statusOf (n : Z) : OrderStatus :=
  match n with 1 => Executed | 2 => Cancelled | 3 => CancelledSlippage | 4 => Expired | _ => Pending end.

Definition parseOrder (raw : RawOrder) : Order := {|
  o_id := numberOfBigint (ro_id raw);
  o_trader := ro_trader raw;
  o_asset := ro_asset raw;
  orderType := orderTypeOf (numberOfBigint (ro_order_type raw));
  o_direction := directionOf (ro_direction raw);
  o_collateral := ro_collateral raw;
  o_leverage := numberOfBigint (ro_leverage raw);
  triggerPrice := ro_trigger_price raw;
  triggerCondition := if numberOfBigint (ro_trigger_condition raw) =? 0 then Above else Below;
  slippageToleranceBps := numberOfBigint (ro_slippage_tolerance_bps raw);
  positionId := numberOfBigint (ro_position_id raw);
  hasPosition := ro_has_position raw;
  createdAt := numberOfBigint (ro_created_at raw);
  status := statusOf (numberOfBigint (ro_status raw));
  limitPrice := default 0 (ro_limit_price raw);
  trailingPercentBps := numberOfBigint (default 0 (ro_trailing_percent_bps raw));
  timeInForce := numberOfBigint (default 0 (ro_time_in_force raw));
  stopLimitPhase := numberOfBigint (default 0 (ro_stop_limit_phase raw)) |}.

(** ** What the chain answers *)

(** A simulated view: it throws, fails or returns no value, or returns. *)
Inductive SimRead (A : Type) := SimThrew (e : string) | SimNothing | SimValue (a : A).
Arguments SimThrew {A}.
Arguments SimNothing {A}.
Arguments SimValue {A}.

(** The entry of OrderCounter: the read throws, there is none, or its value as
    a number, [None] when it is not finite. *)
Inductive CounterRead := CounterThrew (e : string) | CounterAbsent | CounterValue (n : option Z).

Record Chain := {
  get_trader_position_ids : string -> SimRead (list Z);
  get_all_position_ids : SimRead (list Z);
  get_all_order_ids : SimRead (list Z);
  get_position : Z -> SimRead (option RawPosition);
  get_order : Z -> SimRead (option RawOrder);
  orderCounter : CounterRead;
  orderEntries : list Z -> Result (list (option RawOrder));
  settled : list Z -> list Z  (* concurrent reads, in the order they end *) }.

Section reads.
Context (c : Chain).

(** ** Positions *)

Definition hydratePosition (id : Z) : option Position :=
  match get_position c id with SimValue (Some raw) => Some (parsePosition raw) | _ => None end.

(** Each read that ends pushes its row. *)
Definition getPositionsByIds (positionIds : list Z) : list Position :=
  match positionIds with [] => [] | _ => omap hydratePosition (settled c positionIds) end.

Definition getPositions (traderPublicKey : string) : Result (list Position) :=
  ids ← match get_trader_position_ids c traderPublicKey with
        | SimThrew e => Err e
        | SimValue ids => Ok (numberOfBigint <$> ids)
        | SimNothing =>
            match get_all_position_ids c with
            | SimThrew e => Err e
            | SimNothing => Err "position id read failed on both trader and legacy views"
            | SimValue ids => Ok (numberOfBigint <$> ids)
            end
        end;
  Ok (bfilter (fun p => String.eqb (p_trader p) traderPublicKey) (getPositionsByIds ids)).

(** ** Orders *)

Definition ORDER_WALK_BOUND : Z := 600.

(** [keys.slice(start, start + 200)] for start = 0, 200, ... *)
Fixpoint batches {A} (n : nat) (keys : list A) : list (list A) :=
  match n, keys with
  | S n, _ :: _ => take 200 keys :: batches n (drop 200 keys)
  | _, _ => []
  end.

(** The pending rows of one batch. *)
Definition pendingRow (raw : option RawOrder) : option Order :=
  match raw with
  | Some r => if numberOfBigint (ro_status r) =? 0 then Some (parseOrder r) else None
  | None => None
  end.

Fixpoint readBatches (bs : list (list Z)) : Result (list Order) :=
  match bs with
  | [] => Ok []
  | b :: bs => es ← orderEntries c b; rest ← readBatches bs; Ok (omap pendingRow es ++ rest)
  end.

Definition walkPendingOrders : Result (list Order) :=
  match orderCounter c with
  | CounterThrew e => Err e
  | CounterAbsent | CounterValue None => Ok []
  | CounterValue (Some counter) =>
      if counter <? 1 then Ok []
      else
        let lowest := Z.max 1 (counter - ORDER_WALK_BOUND + 1) in
        let keys := seqZ lowest (counter - lowest + 1) in
        readBatches (batches (length keys) keys)
  end.

Definition getAllOrderIds (strict : bool) : Result (list Z) :=
  match get_all_order_ids c with
  | SimValue ids => Ok (numberOfBigint <$> ids)
  | SimNothing => if strict then Err "get_all_order_ids simulation failed" else Ok []
  | SimThrew e => if strict then Err e else Ok []
  end.

Definition getOrderById (orderId : Z) : option Order :=
  match get_order c orderId with SimValue (Some raw) => Some (parseOrder raw) | _ => None end.

(** Promise.all keeps the order of the ids. *)
Definition getOrdersByIds (orderIds : list Z) : list Order := omap getOrderById orderIds.

Definition ofTrader (who : string) (o : Order) : bool := String.eqb (o_trader o) who.

Definition getOrders (traderPublicKey : string) : Result (list Order) :=
  match getAllOrderIds true with
  | inl _ => os ← walkPendingOrders; Ok (bfilter (ofTrader traderPublicKey) os)
  | inr allIds => Ok (bfilter (ofTrader traderPublicKey) (omap getOrderById allIds))
  end.

Definition isPending (o : Order) : bool := bool_decide (status o = Pending).

Definition getAllPendingOrders : list Order :=
  match getAllOrderIds true with
  | inl _ => match walkPendingOrders with inl _ => [] | inr os => os end
  | inr ids => bfilter isPending (omap getOrderById ids)
  end.

(** getPositionStopLoss and getPositionTakeProfit: the first of the trader's
    orders of the type on the position that is pending. *)
Definition attachedOrder (kind : OrderType) (who : string) (position : Z) : option Order :=
  match getOrders who with
  | inl _ => None
  | inr os =>
      head (bfilter (fun o => bool_decide (orderType o = kind) && (positionId o =? position) && isPending o) os)
  end.

Definition getPositionStopLoss : string -> Z -> option Order := attachedOrder StopLoss.
Definition getPositionTakeProfit : string -> Z -> option Order := attachedOrder TakeProfit.
End reads.

(** ** Trust in the gateway's hints (lib/api/gateway.ts) *)

Definition TRUST_TTL_MS : Z := 60000.
Definition MAX_INDEXER_LAG_SECONDS : Z := 120.

(** The health answer: unreachable, not ok or without a JSON body; or the
    market's address, if any, and the age of the cursor, if a number. *)
Inductive HealthAnswer := HealthFailed | HealthBody (market : option string) (ledgerAgeSeconds : option Z).

(** The verdict and the cache, [(at, value)]. *)
Definition gatewayServesThisMarket (MARKET : string) (now : Z) (health : HealthAnswer)
    (cached : option (Z * bool)) : bool * option (Z * bool) :=
  let fetch :=
    let value := match health with
      | HealthFailed => false
      | HealthBody market lag =>
          negb (String.eqb MARKET "") && String.eqb (default EmptyString market) MARKET
          && match lag with Some l => l <=? MAX_INDEXER_LAG_SECONDS | None => false end
      end in
    (value, Some (now, value)) in
  match cached with
  | Some (at_, value) => if now - at_ <? TRUST_TTL_MS then (value, cached) else fetch
  | None => fetch
  end.

(** ** The rows of the trade page (app/trade/page.tsx) *)

(** A trade of a vault, as the gateway lists them. *)
Record VaultTrade := { vt_opens : bool; vt_positionId : Z }.

(** The ids opened by the vault and not closed. *)
Definition thisVaultIds (trades : list VaultTrade) : gset Z :=
  list_to_set (vt_positionId <$> bfilter vt_opens trades)
  ∖ list_to_set (vt_positionId <$> bfilter (fun t => negb (vt_opens t)) trades).

(** What fetchPositions reads from the gateway: the open rows of the trader,
    or in leader mode those of the factory and the vault's trades. *)
Inductive PositionHints :=
| LeaderHints (open : Result (list Z)) (vaultTrades : Result (list VaultTrade))
| PersonalHints (open : Result (list Z)) (serves : bool).

Definition contractPositions (c : Chain) (publicKey : string) (h : PositionHints) : Result (list Position) :=
  match h with
  | LeaderHints open trades =>
      open ← open; trades ← trades;
      Ok (getPositionsByIds c (bfilter (fun i => bool_decide (i ∈ thisVaultIds trades)) open))
  | PersonalHints open serves =>
      let apiPositions :=
        match open with
        | inl _ => None
        | inr [] => if serves then Some [] else None
        | inr ids => match getPositionsByIds c ids with [] => None | hydrated => Some hydrated end
        end in
      match apiPositions with Some ps => Ok ps | None => getPositions c publicKey end
  end.

(** What fetchOrders reads: the verdict on the gateway, and the trader's order
    hints with the status the gateway gives them. *)
Definition contractOrders (c : Chain) (publicKey : string) (serves : bool)
    (hints : Result (list (Z * bool))) : Result (list Order) :=
  let fast :=
    if serves then
      match hints with
      | inl _ => None
      | inr [] => Some []
      | inr hs =>
          let hydrated := getOrdersByIds c hs.*1 in
          if negb (bool_decide (hydrated = [])) || negb (existsb snd hs) then Some hydrated else None
      end
    else None in
  match fast with Some os => Ok os | None => getOrders c publicKey end.

(** ** Display (toDisplayPosition, calculatePnL of lib/utils/format.ts) *)

(** bigIntToNumber of a bigint: never missing, never NaN. *)
Definition bigIntToNumber (value : Z) : number := divN (numberOfZ value) (numberOfZ 10000000).

Definition nan : number := S754_nan.
Definition zeroN : number := numberOfZ 0.

(** [!Number.isFinite(x) || x <= 0] *)
Definition unusable (x : number) : bool := negb (isFinite x) || leN x zeroN.

Definition calculatePnL (entry current size : number) (isLong : bool) : option (number * number) :=
  if unusable current then None
  else if unusable entry then None
  else if unusable size then None
  else
    let priceChange := subN current entry in
    let pnl := if isLong then mulN (divN priceChange entry) size
               else mulN (divN (SFopp priceChange) entry) size in
    Some (pnl, mulN (divN pnl size) (numberOfZ 100)).

Record DisplayPosition := {
  d_id : Z; d_trader : string; d_asset : string; d_direction : Side; d_collateral : number; d_size : number;
  d_entryPrice : number; d_liquidationPrice : number; d_currentPrice : number; d_pnl : number;
  d_pnlPercent : number; d_leverage : number; d_openedAt : Z; d_marginMode : MarginMode;
  pendingFunding : option number }.

Definition isNaN (x : number) : bool := match x with S754_nan => true | _ => false end.

(** [raw]: the settlement's funding of a position, in the 7-decimal unit. *)
Definition fundingRaw (position : Position) (cumulativeFunding : Z) : Z :=
  (p_size position * (cumulativeFunding - entryCumulativeFunding position)) ÷ 10000000.

Definition toDisplayPosition (position : Position) (currentPrice : number) (cumulativeFunding : option Z)
  : DisplayPosition :=
  let entry := bigIntToNumber (entryPrice position) in
  let coll := bigIntToNumber (p_collateral position) in
  let sz := bigIntToNumber (p_size position) in
  let leverage := if ltN zeroN coll then divN sz coll else zeroN in
  let isLong := match p_direction position with Long => true | Short => false end in
  let pnlResult := calculatePnL entry currentPrice sz isLong in
  {| d_id := p_id position; d_trader := p_trader position; d_asset := p_asset position;
     d_direction := p_direction position; d_collateral := coll; d_size := sz; d_entryPrice := entry;
     d_liquidationPrice := bigIntToNumber (liquidationPrice position); d_currentPrice := currentPrice;
     d_pnl := match pnlResult with Some r => r.1 | None => nan end;
     d_pnlPercent := match pnlResult with Some r => r.2 | None => nan end;
     d_leverage := if isNaN leverage then zeroN else leverage;
     d_openedAt := openedAt position * 1000; d_marginMode := marginMode position;
     pendingFunding := match cumulativeFunding with
       | None => None
       | Some index =>
           let usd := divN (numberOfZ (fundingRaw position index)) (numberOfZ 10000000) in
           Some (if isLong then usd else SFopp usd)
       end |}.

(** ** Lemmas *)

Lemma numberOfBigint_small z : Z.abs z <= 2 ^ 53 -> numberOfBigint z = z.
Proof. intros Hz. unfold numberOfBigint. by rewrite (proj2 (Z.leb_le _ _) Hz). Qed.

Lemma numbers_small ids : Forall (fun i => 0 <= i <= 2 ^ 53) ids -> numberOfBigint <$> ids = ids.
Proof.
  induction 1 as [|i ids Hi _ IH]; [done|]. rewrite fmap_cons, IH, numberOfBigint_small by lia. done.
Qed.

Lemma concat_batches {A} n (keys : list A) : (length keys <= n)%nat -> concat (batches n keys) = keys.
Proof.
  revert keys. induction n as [|n IH]; intros keys Hn.
  - by destruct keys; [|simpl in Hn; lia].
  - destruct keys as [|k keys]; [done|]. change (concat (batches (S n) (k :: keys)))
      with (take 200 (k :: keys) ++ concat (batches n (drop 200 (k :: keys)))).
    rewrite IH; [apply take_drop|]. rewrite length_drop. simpl in *. lia.
Qed.

(** A whole walk is as good as one read of all its keys. *)
Lemma readBatches_concat c bs os (row : Z -> option RawOrder) :
  (forall ids es, NoDup ids -> orderEntries c ids = Ok es -> es ≡ₚ Some <$> omap row ids) ->
  NoDup (concat bs) -> readBatches c bs = Ok os -> os ≡ₚ omap pendingRow (Some <$> omap row (concat bs)).
Proof.
  intros Hes. revert os. induction bs as [|b bs IH]; intros os Hnd Hr; simpl in Hr.
  - by injection Hr as <-.
  - simpl in Hnd. apply NoDup_app in Hnd as (Hb & _ & Hbs).
    destruct (orderEntries c b) as [|es] eqn:Hb'; [done|]. simpl in Hr.
    destruct (readBatches c bs) as [|rest]; [done|]. injection Hr as <-.
    simpl. rewrite omap_app, fmap_app, omap_app. rewrite <- (IH rest Hbs eq_refl).
    by rewrite (Hes b es Hb Hb').
Qed.

(** ** What the contract stores *)

(** The struct of noether_common/src/types.rs with its enums as their numbers,
    and the first one, before cross margin, with the names it had. *)
Inductive Layout := CurrentLayout | FirstLayout.

Definition entryOf (l : Layout) (p : Position) : RawPosition := {|
  rp_id := p_id p; rp_trader := p_trader p; rp_asset := p_asset p;
  rp_direction := match p_direction p with Long => 0 | Short => 1 end;
  rp_collateral := p_collateral p; rp_size := p_size p; rp_entry_price := entryPrice p;
  rp_liquidation_price := liquidationPrice p;
  rp_timestamp := match l with CurrentLayout => Some (openedAt p) | FirstLayout => None end;
  rp_entry_cumulative_funding := match l with CurrentLayout => Some (entryCumulativeFunding p) | FirstLayout => None end;
  rp_opened_at := match l with CurrentLayout => None | FirstLayout => Some (openedAt p) end;
  rp_accumulated_funding := match l with CurrentLayout => None | FirstLayout => Some (entryCumulativeFunding p) end;
  rp_margin_mode := match l with
    | CurrentLayout => Some (match marginMode p with Isolated => 0 | Cross => 1 end) | FirstLayout => None end |}.

(** The entry [r] stores the position [p]: the first struct knew isolated
    margin only, and ids and times are far below 2^53. *)
Definition stores (r : RawPosition) (p : Position) : Prop :=
  exists l, r = entryOf l p /\ (l = FirstLayout -> marginMode p = Isolated) /\ 0 <= p_id p < 2 ^ 53 /\ 0 <= openedAt p < 2 ^ 53.

Lemma parsePosition_stores r p : stores r p -> parsePosition r = p.
Proof.
  intros (l & -> & Hm & Hi & Ho). destruct p as [i w a d co sz e lq o f m]. unfold parsePosition, entryOf, directionOf. cbn in *.
  rewrite (numberOfBigint_small i), (numberOfBigint_small (match d with Long => 0 | Short => 1 end)) by (destruct d; lia).
  destruct l; cbn; rewrite (numberOfBigint_small o) by lia; [by destruct d, m|]. rewrite Hm by done. by destruct d.
Qed.

(** ** A chain that answers from its ledger *)

Section faithful.
Context (c : Chain) (positions : gmap Z RawPosition) (orders : gmap Z RawOrder).

Definition listed {A} (m : gmap Z A) (P : A -> Prop) (ids : list Z) : Prop :=
  NoDup ids /\ forall i, i ∈ ids <-> exists r, m !! i = Some r /\ P r.

(** What a view that answers says is what the ledger stores; any read may
    fail. Ids and statuses are those the contract gives. *)
Record Faithful : Prop := {
  f_position_row : forall i r, positions !! i = Some r -> 0 <= i < 2 ^ 53 /\ rp_id r = i;
  f_order_row : forall i r, orders !! i = Some r -> 1 <= i < 2 ^ 53 /\ ro_id r = i /\ 0 <= ro_status r <= 4;
  f_trader_ids : forall who ids, get_trader_position_ids c who = SimValue ids ->
    listed positions (fun r => rp_trader r = who) ids;
  f_position_ids : forall ids, get_all_position_ids c = SimValue ids -> listed positions (fun _ => True) ids;
  f_order_ids : forall ids, get_all_order_ids c = SimValue ids -> listed orders (fun _ => True) ids;
  f_position : forall i r, get_position c i = SimValue r -> r = positions !! i;
  f_order : forall i r, get_order c i = SimValue r -> r = orders !! i;
  f_counter : forall i n, is_Some (orders !! i) -> orderCounter c = CounterValue (Some n) -> i <= n;
  f_entries : forall ids es, NoDup ids -> orderEntries c ids = Ok es ->
    es ≡ₚ Some <$> omap (fun i => orders !! i) ids;
  f_settled : forall ids, settled c ids ≡ₚ ids }.

Context (F : Faithful).

Definition positionRead (i : Z) : Prop := exists r, get_position c i = SimValue r.
Definition orderRead (i : Z) : Prop := exists r, get_order c i = SimValue r.

(** The position [p] is row [i] of the ledger, and its read answered. *)
Definition positionShown (who : string) (i : Z) (p : Position) : Prop :=
  exists r, positions !! i = Some r /\ rp_trader r = who /\ positionRead i /\ p = parsePosition r.

Lemma listed_small {A} (m : gmap Z A) P ids :
  (forall i r, m !! i = Some r -> 0 <= i < 2 ^ 53) -> listed m P ids -> numberOfBigint <$> ids = ids.
Proof.
  intros Hm [_ Hids]. apply numbers_small, Forall_forall. intros i Hi.
  apply Hids in Hi as (r & Hr & _). specialize (Hm i r Hr). lia.
Qed.

Lemma position_small i r : positions !! i = Some r -> 0 <= i < 2 ^ 53.
Proof. intros Hr. by apply (f_position_row F i r). Qed.

Lemma order_small i r : orders !! i = Some r -> 0 <= i < 2 ^ 53.
Proof. intros Hr. pose proof (f_order_row F i r Hr) as ([? ?] & _ & _). lia. Qed.

Lemma hydratePosition_Some i p :
  hydratePosition c i = Some p <-> exists r, positions !! i = Some r /\ positionRead i /\ p = parsePosition r.
Proof.
  unfold hydratePosition, positionRead. split.
  - destruct (get_position c i) as [| |[r|]] eqn:Hg; intros [= <-]. exists r.
    rewrite <- (f_position F i _ Hg). eauto.
  - intros (r & Hr & [r' Hg] & ->). rewrite Hg, (f_position F i _ Hg), Hr. done.
Qed.

Lemma elem_of_getPositionsByIds ids p :
  p ∈ getPositionsByIds c ids <->
  exists i r, i ∈ ids /\ positions !! i = Some r /\ positionRead i /\ p = parsePosition r.
Proof.
  assert (p ∈ omap (hydratePosition c) (settled c ids) <->
    exists i r, i ∈ ids /\ positions !! i = Some r /\ positionRead i /\ p = parsePosition r) as Ho.
  { rewrite list_elem_of_omap. setoid_rewrite hydratePosition_Some. setoid_rewrite (f_settled F ids).
    naive_solver. }
  unfold getPositionsByIds. destruct ids; [|done].
  rewrite elem_of_nil. split; [done|]. intros (i & r & Hi & _). by apply elem_of_nil in Hi.
Qed.

Lemma omap_NoDup {A B} (f : A -> option B) (l : list A) :
  (forall x y b, x ∈ l -> y ∈ l -> f x = Some b -> f y = Some b -> x = y) -> NoDup l -> NoDup (omap f l).
Proof.
  induction l as [|x l IH]; intros Hf Hl; [constructor|]. apply NoDup_cons in Hl as [Hx Hl].
  assert (NoDup (omap f l)) as IH' by (apply IH; [|done]; intros y z b Hy Hz; apply Hf; by right).
  simpl. destruct (f x) as [b|] eqn:Hb; [|done]. constructor; [|done].
  rewrite list_elem_of_omap. intros (y & Hy & Hyb). apply Hx.
  by rewrite (Hf x y b ltac:(by left) ltac:(by right) Hb Hyb).
Qed.

(** Ids of hydrated rows are those asked for, once each. *)
Lemma NoDup_getPositionsByIds ids : NoDup ids -> NoDup (getPositionsByIds c ids).
Proof.
  intros Hids. unfold getPositionsByIds. destruct ids as [|i0 ids0]; [constructor|].
  apply omap_NoDup; [|by rewrite (f_settled F)].
  intros i j p _ _ (r & Hr & _ & ->)%hydratePosition_Some (r' & Hr' & _ & Hp)%hydratePosition_Some.
  apply (f_equal p_id) in Hp. simpl in Hp.
  destruct (f_position_row F i r Hr) as [Hi Ei], (f_position_row F j r' Hr') as [Hj Ej].
  rewrite Ei, Ej, !numberOfBigint_small in Hp by lia. done.
Qed.

Lemma NoDup_filter_read who ids :
  NoDup ids -> NoDup (bfilter (fun p => String.eqb (p_trader p) who) (getPositionsByIds c ids)).
Proof. intros. by apply NoDup_bfilter, NoDup_getPositionsByIds. Qed.

(** The rows of a trader among hydrated ids that cover the trader's. *)
Lemma filter_read who ids p :
  (forall i r, positions !! i = Some r -> rp_trader r = who -> i ∈ ids) ->
  p ∈ bfilter (fun p => String.eqb (p_trader p) who) (getPositionsByIds c ids) <-> exists i, positionShown who i p.
Proof.
  intros Hids. rewrite elem_of_bfilter, elem_of_getPositionsByIds, String.eqb_eq. unfold positionShown. split.
  - intros ((i & r & _ & Hr & Hread & ->) & Hw). by exists i, r.
  - intros (i & r & Hr & Hw & Hread & ->). split; [|done]. exists i, r. eauto.
Qed.

(** No view of the ids answered. *)
Definition noView (who : string) : Prop :=
  match get_trader_position_ids c who with
  | SimThrew _ => True
  | SimValue _ => False
  | SimNothing => forall ids, get_all_position_ids c <> SimValue ids
  end.

(** Reading a trader's positions gives exactly the trader's rows of the
    ledger, once each, of those whose read answered, whichever of the two id
    views the deployed market has; it throws exactly when neither view
    answers, never returning an empty account instead. *)
Theorem positions_are_the_traders who :
  (noView who -> exists e, getPositions c who = Err e) /\
  (~ noView who -> exists ps, getPositions c who = Ok ps /\ NoDup ps /\
     forall p, p ∈ ps <-> exists i, positionShown who i p).
Proof.
  unfold noView, getPositions.
  assert (forall ids P, listed positions P ids -> (forall r, rp_trader r = who -> P r) ->
    exists ps, Ok (bfilter (fun p => String.eqb (p_trader p) who) (getPositionsByIds c (numberOfBigint <$> ids)))
               = Ok ps /\ NoDup ps /\ forall p, p ∈ ps <-> exists i, positionShown who i p) as Hok.
  { intros ids P Hl HP. rewrite (listed_small _ _ _ position_small Hl). destruct Hl as [Hnd Hl].
    eexists. split; [reflexivity|]. split; [by apply NoDup_filter_read|].
    intros p. apply filter_read. intros i r Hr Hw. apply Hl. eauto. }
  destruct (get_trader_position_ids c who) as [e| |ids] eqn:Ht; simpl.
  - split; [eauto | by intros []].
  - destruct (get_all_position_ids c) as [e| |ids] eqn:Ha; simpl.
    + split; [eauto|]. intros Hn. destruct Hn. done.
    + split; [eauto|]. intros Hn. destruct Hn. done.
    + split; [intros Hn; by destruct (Hn ids)|]. intros _. by eapply Hok; [apply (f_position_ids F)|].
  - split; [done|]. intros _. eapply Hok; [by apply (f_trader_ids F)|done].
Qed.

(** ** Orders *)

(** The ids the walk covers. *)
Definition inWindow (i : Z) : Prop :=
  match orderCounter c with CounterValue (Some n) => n - ORDER_WALK_BOUND < i | _ => False end.

(** Read through the view of the ids, or through the walk. *)
Definition orderReachable (i : Z) : Prop :=
  match get_all_order_ids c with SimValue _ => orderRead i | _ => inWindow i end.

Lemma parsed_pending r :
  0 <= ro_status r <= 4 -> status (parseOrder r) = Pending <-> ro_status r = 0.
Proof.
  intros Hr. unfold parseOrder. cbn [status]. rewrite numberOfBigint_small by lia.
  assert (ro_status r = 0 \/ ro_status r = 1 \/ ro_status r = 2 \/ ro_status r = 3 \/ ro_status r = 4)
    as [->|[->|[->|[-> | ->]]]] by lia; simpl; split; congruence.
Qed.

Lemma pendingRow_Some r o :
  0 <= ro_status r <= 4 -> pendingRow (Some r) = Some o <-> ro_status r = 0 /\ o = parseOrder r.
Proof.
  intros Hr. simpl. rewrite numberOfBigint_small by lia.
  destruct (ro_status r =? 0) eqn:E; [apply Z.eqb_eq in E|apply Z.eqb_neq in E].
  - split; [by intros [= <-] | by intros [_ ->]].
  - split; [done | by intros [? _]].
Qed.

Lemma elem_of_pendingWalk os o :
  walkPendingOrders c = Ok os ->
  o ∈ os <-> exists i r, orders !! i = Some r /\ ro_status r = 0 /\ inWindow i /\ o = parseOrder r.
Proof.
  unfold walkPendingOrders, inWindow. pose proof (f_counter F) as Hc.
  destruct (orderCounter c) as [e| |[n|]]; try done.
  1, 3: intros [= <-]; rewrite elem_of_nil; naive_solver.
  destruct (n <? 1) eqn:Hn; [apply Z.ltb_lt in Hn|apply Z.ltb_ge in Hn]; intros Hw.
  - injection Hw as <-. rewrite elem_of_nil. split; [done|]. intros (i & r & Hr & _).
    pose proof (f_order_row F i r Hr). specialize (Hc i n (mk_is_Some _ _ Hr) eq_refl). lia.
  - eapply (readBatches_concat _ _ _ (fun i => orders !! i) (f_entries F)) in Hw;
      rewrite concat_batches in * by done; [|apply NoDup_seqZ].
    rewrite Hw, list_elem_of_omap. split.
    + intros (raw & Hraw & Ho). apply list_elem_of_fmap in Hraw as (r & -> & Hr).
      apply list_elem_of_omap in Hr as (i & Hi & Hr). apply elem_of_seqZ in Hi.
      apply pendingRow_Some in Ho as [Hs ->]; [|by apply (f_order_row F i r)].
      exists i, r. split_and!; try done. unfold ORDER_WALK_BOUND in *. lia.
    + intros (i & r & Hr & Hs & Hwin & ->). exists (Some r).
      destruct (f_order_row F i r Hr) as (Hi & _ & Hst). split; [|by apply pendingRow_Some].
      apply list_elem_of_fmap. exists r. split; [done|]. apply list_elem_of_omap. exists i. split; [|done].
      apply elem_of_seqZ. specialize (Hc i n (mk_is_Some _ _ Hr) eq_refl). unfold ORDER_WALK_BOUND in *. lia.
Qed.

Lemma getOrderById_Some i o :
  getOrderById c i = Some o <-> exists r, orders !! i = Some r /\ orderRead i /\ o = parseOrder r.
Proof.
  unfold getOrderById, orderRead. split.
  - destruct (get_order c i) as [| |[r|]] eqn:Hg; intros [= <-]. exists r.
    rewrite <- (f_order F i _ Hg). eauto.
  - intros (r & Hr & [r' Hg] & ->). rewrite Hg, (f_order F i _ Hg), Hr. done.
Qed.

(** The rows of the stored orders whose reads answered. *)
Lemma elem_of_stored ids o :
  get_all_order_ids c = SimValue ids ->
  o ∈ omap (getOrderById c) (numberOfBigint <$> ids) <->
  exists i r, orders !! i = Some r /\ orderRead i /\ o = parseOrder r.
Proof.
  intros Hi. pose proof (f_order_ids F ids Hi) as Hl.
  rewrite (listed_small orders (fun _ => True) ids order_small Hl). destruct Hl as [_ Hl].
  rewrite list_elem_of_omap. setoid_rewrite getOrderById_Some. setoid_rewrite Hl. naive_solver.
Qed.

(** A pending order of the ledger that the reads reach. *)
Definition pendingShown (who : option string) (o : Order) : Prop :=
  exists i r, orders !! i = Some r /\ (forall w, who = Some w -> ro_trader r = w) /\ ro_status r = 0
              /\ orderReachable i /\ o = parseOrder r.

Lemma row_status i r : orders !! i = Some r -> 0 <= ro_status r <= 4.
Proof. intros Hr. by apply (f_order_row F i r). Qed.

(** The pending orders a trader is shown, and those of the order list,
    are exactly the ledger's, on either generation of the market: all of them
    (whose reads answer) through the view of the order ids, those among the
    newest 600 ids through the walk of the ledger that replaces it. *)
Theorem pending_orders_either_generation who os :
  getOrders c who = Ok os ->
  (forall o, o ∈ os /\ status o = Pending <-> pendingShown (Some who) o) /\
  (forall o, o ∈ getAllPendingOrders c <-> pendingShown None o).
Proof.
  unfold getOrders, getAllPendingOrders, getAllOrderIds, pendingShown, orderReachable.
  destruct (get_all_order_ids c) as [e| |ids] eqn:Hids; intros Hos.
  1, 2: destruct (walkPendingOrders c) as [|w] eqn:Hw; [done|]; injection Hos as <-;
    split; intros o; [rewrite elem_of_bfilter; unfold ofTrader; rewrite String.eqb_eq|];
    rewrite (elem_of_pendingWalk w o Hw); split.
  1, 5: intros [[(i & r & Hr & Hs & Hwin & ->) Ht] _]; exists i, r; split_and!; try done; by intros ? [= <-].
  1, 4: intros (i & r & Hr & Hwho & Hs & Hwin & ->); split; [split; [by exists i, r | by apply Hwho]|];
    by apply parsed_pending; [apply (row_status i r)|].
  1, 3: intros (i & r & Hr & Hs & Hwin & ->); by exists i, r.
  1, 2: intros (i & r & Hr & _ & Hs & Hwin & ->); by exists i, r.
  injection Hos as <-. split; intros o; unfold Ok; rewrite elem_of_bfilter, (elem_of_stored ids o Hids).
  - unfold ofTrader. rewrite String.eqb_eq. split.
    + intros [[(i & r & Hr & Hread & ->) Ht] Hs]. apply parsed_pending in Hs; [|by apply (row_status i r)].
      exists i, r. split_and!; try done. by intros ? [= <-].
    + intros (i & r & Hr & Hwho & Hs & Hread & ->). split; [split; [by exists i, r | by apply Hwho]|].
      by apply parsed_pending; [apply (row_status i r)|].
  - unfold isPending. rewrite bool_decide_eq_true. split.
    + intros [(i & r & Hr & Hread & ->) Hs]. apply parsed_pending in Hs; [|by apply (row_status i r)].
      by exists i, r.
    + intros (i & r & Hr & _ & Hs & Hread & ->). split; [by exists i, r|].
      by apply parsed_pending; [apply (row_status i r)|].
Qed.

Lemma head_bfilter {A} (q : A -> bool) l x : head (bfilter q l) = Some x -> x ∈ l /\ q x = true.
Proof.
  intros Hh. apply elem_of_bfilter. destruct (bfilter q l); [done|]. injection Hh as ->. by left.
Qed.

(** The stop-loss (or take-profit) the screens attach to a position is a
    pending order of that type, on that position, by that trader, in the
    ledger; and one is found whenever the reads reach such an order. *)
Theorem attached_order_is_the_positions kind who position :
  (forall o, attachedOrder c kind who position = Some o ->
     pendingShown (Some who) o /\ orderType o = kind /\ positionId o = position) /\
  (forall os o, getOrders c who = Ok os -> pendingShown (Some who) o -> orderType o = kind ->
     positionId o = position -> is_Some (attachedOrder c kind who position)).
Proof.
  unfold attachedOrder. split.
  - intros o. destruct (getOrders c who) as [|os] eqn:Hos; [done|].
    intros [Ho [[Hk%bool_decide_eq_true Hp%Z.eqb_eq]%andb_true_iff Hs%bool_decide_eq_true]%andb_true_iff]%head_bfilter.
    split; [|done]. by apply (pending_orders_either_generation who os Hos).
  - intros os o Hos Ho Hk Hp. rewrite Hos. unfold Ok.
    apply (pending_orders_either_generation who os Hos) in Ho as [Ho Hs].
    match goal with |- is_Some (head (bfilter ?q os)) =>
      assert (o ∈ bfilter q os) as Hin end.
    { apply elem_of_bfilter. split; [done|]. unfold isPending.
      by rewrite !bool_decide_true, (proj2 (Z.eqb_eq _ _) Hp). }
    destruct (bfilter _ os); [by apply elem_of_nil in Hin | by eexists].
Qed.

(** ** What the trade page shows *)

(** The trader's position [p] is stored, and its read answered. *)
Definition traderHolds (who : string) (p : Position) : Prop :=
  p_trader p = who /\ exists i r, positions !! i = Some r /\ stores r p /\ positionRead i.

Lemma shown_is_open who p :
  (forall i r, positions !! i = Some r -> exists p, stores r p) ->
  (exists i, positionShown who i p) <-> traderHolds who p.
Proof.
  intros Hst. unfold positionShown, traderHolds. split.
  - intros (i & r & Hr & Hw & Hread & ->). destruct (Hst i r Hr) as [q Hq]. rewrite (parsePosition_stores r q Hq).
    split; [|by exists i, r]. destruct Hq as (l & -> & _). exact Hw.
  - intros (Hw & i & r & Hr & Hq & Hread). exists i, r. rewrite (parsePosition_stores r p Hq).
    destruct Hq as (l & -> & _). by split_and!.
Qed.

(** C24. When the open rows the gateway gave are the trader's on this market,
    the positions the trade page shows are exactly the trader's positions that
    the contract stores (those whose reads answered), each once and with the
    side, collateral, size, prices, time, funding and margin mode the contract
    stored, whichever struct it stored them in: from the hints, or from the chain
    when the gateway failed, is not trusted to be empty, or none of its hints
    resolved. *)
Theorem page_positions_are_the_ledgers who open serves ps :
  (forall i r, positions !! i = Some r -> exists p, stores r p) ->
  (forall ids, open = Ok ids -> ids <> [] \/ serves = true ->
     listed positions (fun r => rp_trader r = who) ids) ->
  contractPositions c who (PersonalHints open serves) = Ok ps ->
  NoDup ps /\ forall p, p ∈ ps <-> traderHolds who p.
Proof.
  intros Hst Hopen Hps. setoid_rewrite <- (shown_is_open who _ Hst). revert Hps.
  assert (forall ps, getPositions c who = Ok ps -> NoDup ps /\ forall p, p ∈ ps <-> exists i, positionShown who i p)
    as Hchain.
  { intros qs Hq. destruct (positions_are_the_traders who) as [Hno Hyes].
    destruct Hyes as (qs' & Hq' & Hqs); [|rewrite Hq in Hq'; injection Hq' as ->; done].
    intros Hn. destruct (Hno Hn) as [e He]. by rewrite Hq in He. }
  simpl. destruct open as [e|ids]; [apply Hchain|].
  destruct ids as [|i ids].
  - destruct serves; [|apply Hchain]. intros [= <-]. split; [constructor|].
    destruct (Hopen [] eq_refl ltac:(by right)) as [_ Hl].
    intros p. rewrite elem_of_nil. split; [done|]. intros (j & r & Hr & Hw & _).
    assert (j ∈ []) as Hj by (apply Hl; eauto). by apply elem_of_nil in Hj.
  - destruct (Hopen _ eq_refl ltac:(by left)) as [Hnd Hl].
    assert (forall p, p ∈ getPositionsByIds c (i :: ids) <-> exists j, positionShown who j p) as Hel.
    { intros p. rewrite elem_of_getPositionsByIds. unfold positionShown. split.
      - intros (j & r & Hj & Hr & Hread & ->). apply Hl in Hj as (r' & Hr' & Hw).
        exists j, r. rewrite Hr in Hr'. injection Hr' as ->. done.
      - intros (j & r & Hr & Hw & Hread & ->). exists j, r. split; [|done]. apply Hl. eauto. }
    pose proof (NoDup_getPositionsByIds _ Hnd) as Hnd'.
    destruct (getPositionsByIds c (i :: ids)) eqn:Hg; [apply Hchain|]. by intros [= <-].
Qed.

(** In leader mode: rows of positions this vault opened and has not closed. *)
Lemma leader_rows_are_the_vaults who open trades ps :
  contractPositions c who (LeaderHints (Ok open) (Ok trades)) = Ok ps ->
  forall p, p ∈ ps <-> exists i r, i ∈ open /\ i ∈ thisVaultIds trades /\ positions !! i = Some r
                                 /\ positionRead i /\ p = parsePosition r.
Proof.
  simpl. intros [= <-] p. rewrite elem_of_getPositionsByIds. setoid_rewrite elem_of_bfilter.
  setoid_rewrite bool_decide_eq_true. naive_solver.
Qed.
End faithful.

(** ** Trust over time *)

(** The verdicts of calls one after another. *)
Fixpoint trustRun (MARKET : string) (cached : option (Z * bool)) (calls : list (Z * HealthAnswer)) : list bool :=
  match calls with
  | [] => []
  | (now, health) :: calls =>
      let '(v, cached) := gatewayServesThisMarket MARKET now health cached in
      v :: trustRun MARKET cached calls
  end.

(** A health answer that makes the gateway an authority for this market. *)
Definition speaksFor (MARKET : string) (h : HealthAnswer) : Prop :=
  MARKET <> EmptyString /\
  exists lag, h = HealthBody (Some MARKET) (Some lag) /\ lag <= MAX_INDEXER_LAG_SECONDS.

Lemma fresh_verdict MARKET now health cached :
  (exists t v, cached = Some (t, v) /\ now - t < TRUST_TTL_MS /\
     gatewayServesThisMarket MARKET now health cached = (v, cached)) \/
  (exists v, gatewayServesThisMarket MARKET now health cached = (v, Some (now, v)) /\
     (v = true -> speaksFor MARKET health)).
Proof.
  unfold gatewayServesThisMarket.
  set (v := match health with HealthFailed => false | HealthBody _ _ => _ end).
  assert (v = true -> speaksFor MARKET health) as Hv.
  { subst v. intros Hv. destruct health as [|market [lag|]]; [done| |by rewrite andb_false_r in Hv].
    apply andb_true_iff in Hv as [[Hm%negb_true_iff Hq]%andb_true_iff Hlag%Z.leb_le].
    apply String.eqb_eq in Hq. apply String.eqb_neq in Hm. split; [done|].
    destruct market as [m|]; simpl in Hq; [|by subst]. subst. by exists lag. }
  destruct cached as [[t b]|]; [|eauto].
  destruct (now - t <? TRUST_TTL_MS) eqn:Ht; [left|eauto]. apply Z.ltb_lt in Ht. eauto.
Qed.

(** A cached trust was earned by one of the calls so far. *)
Definition Backed (MARKET : string) (pre : list (Z * HealthAnswer)) (cached : option (Z * bool)) : Prop :=
  forall t, cached = Some (t, true) -> exists j h, pre !! j = Some (t, h) /\ speaksFor MARKET h.

(** Call [j] of [calls] earns the trust shown at [now], call [k]. *)
Definition EarnedBy (MARKET : string) (calls : list (Z * HealthAnswer)) (now : Z) (k j : nat) : Prop :=
  exists t h, (j <= k)%nat /\ calls !! j = Some (t, h) /\ speaksFor MARKET h /\ (j = k \/ now - t < TRUST_TTL_MS).

Lemma trust_step MARKET pre now health cached v cached' :
  Backed MARKET pre cached -> gatewayServesThisMarket MARKET now health cached = (v, cached') ->
  Backed MARKET (pre ++ [(now, health)]) cached' /\
  (v = true -> exists j, EarnedBy MARKET (pre ++ [(now, health)]) now (length pre) j).
Proof.
  intros Hc Hg. assert ((pre ++ [(now, health)]) !! length pre = Some (now, health)) as Hlast
    by (by rewrite list_lookup_middle).
  destruct (fresh_verdict MARKET now health cached) as [(t & w & -> & Ht & E)|(w & E & Hs)];
    rewrite E in Hg; injection Hg as -> <-; split.
  - intros t' Ht'. destruct (Hc t' Ht') as (j & h & Hj & Hsp). exists j, h.
    split; [by apply lookup_app_l_Some | done].
  - intros ->. destruct (Hc t eq_refl) as (j & h & Hj & Hsp). exists j, t, h.
    pose proof (lookup_lt_Some _ _ _ Hj). split_and!; [lia | by apply lookup_app_l_Some | done | by right].
  - intros t' [= <- ->]. exists (length pre), health. split; [done | by apply Hs].
  - intros ->. exists (length pre), now, health. split_and!; [done | done | by apply Hs | by left].
Qed.

Lemma trust_run MARKET calls pre cached k :
  Backed MARKET pre cached -> trustRun MARKET cached calls !! k = Some true ->
  exists now j, calls.*1 !! k = Some now /\ EarnedBy MARKET (pre ++ calls) now (length pre + k) j.
Proof.
  revert pre cached k. induction calls as [|[now health] calls IH]; intros pre cached k Hc Hk; [done|].
  simpl in Hk. destruct (gatewayServesThisMarket MARKET now health cached) as [v cached'] eqn:Hg.
  destruct (trust_step MARKET pre now health cached v cached' Hc Hg) as [Hc' Hv].
  destruct k as [|k]; simpl in Hk.
  - injection Hk as ->. destruct (Hv eq_refl) as (j & t & h & Hj & Hl & Hs). exists now, j. split; [done|].
    exists t, h. rewrite Nat.add_0_r. split; [done|]. split; [|done].
    rewrite (cons_middle _ pre calls), app_assoc. by apply lookup_app_l_Some.
  - destruct (IH _ _ k Hc' Hk) as (now' & j & Hn & He). exists now', j. split; [done|].
    rewrite length_app, <- app_assoc in He. simpl in He.
    by replace (length pre + S k)%nat with (length pre + 1 + k)%nat by lia.
Qed.

(** Whenever the page trusts the gateway, even of an empty list, the
    gateway itself said less than a minute before that it serves this market
    and that its indexer lags by at most two minutes. *)
Theorem trust_is_recent MARKET calls k :
  trustRun MARKET None calls !! k = Some true ->
  exists now j, calls.*1 !! k = Some now /\ EarnedBy MARKET calls now k j.
Proof. intros Hk. by apply (trust_run MARKET calls [] None k). Qed.

(** ** A chain whose every read answers *)

Definition rowsOk (positions : gmap Z RawPosition) (orders : gmap Z RawOrder) (counter : Z) : Prop :=
  map_Forall (fun i r => 0 <= i < 2 ^ 53 /\ rp_id r = i) positions /\
  map_Forall (fun i r => 1 <= i < 2 ^ 53 /\ ro_id r = i /\ 0 <= ro_status r <= 4 /\ i <= counter) orders.

(** [upgraded]: the per-trader view of positions, and no view of order ids. *)
Definition ledgerChain (upgraded : bool) (positions : gmap Z RawPosition) (orders : gmap Z RawOrder) (counter : Z)
  : Chain := {|
  get_trader_position_ids who :=
    if upgraded then SimValue (bfilter (fun i => match positions !! i with
                                        | Some r => String.eqb (rp_trader r) who | None => false end)
                                       (map_to_list positions).*1)
    else SimNothing;
  get_all_position_ids := if upgraded then SimNothing else SimValue (map_to_list positions).*1;
  get_all_order_ids := if upgraded then SimNothing else SimValue (map_to_list orders).*1;
  get_position i := SimValue (positions !! i);
  get_order i := SimValue (orders !! i);
  orderCounter := CounterValue (Some counter);
  orderEntries ids := Ok (Some <$> omap (fun i => orders !! i) ids);
  settled ids := ids |}.

Lemma elem_of_keys {A} (m : gmap Z A) i : i ∈ (map_to_list m).*1 <-> exists r, m !! i = Some r.
Proof.
  rewrite list_elem_of_fmap. split.
  - intros ([j r] & -> & Hjr). apply elem_of_map_to_list in Hjr. eauto.
  - intros (r & Hr). exists (i, r). by rewrite elem_of_map_to_list.
Qed.

Lemma ledgerChain_faithful upgraded positions orders counter :
  rowsOk positions orders counter -> Faithful (ledgerChain upgraded positions orders counter) positions orders.
Proof.
  intros [Hp Ho]. split; simpl; try (by intros; simplify_eq); try (by intros i r [= <-]).
  - exact Hp.
  - intros i r Hr. destruct (Ho i r Hr) as (? & ? & ? & ?). done.
  - intros who ids. destruct upgraded; intros [= <-]. split; [apply NoDup_bfilter, NoDup_fst_map_to_list|].
    intros i. rewrite elem_of_bfilter, elem_of_keys. split.
    + intros [[r Hr] Hw]. rewrite Hr in Hw. exists r. by apply String.eqb_eq in Hw.
    + intros (r & Hr & Hw). rewrite Hr. split; [eauto|]. by apply String.eqb_eq.
  - intros ids. destruct upgraded; intros [= <-]. split; [apply NoDup_fst_map_to_list|].
    intros i. rewrite elem_of_keys. naive_solver.
  - intros ids. destruct upgraded; intros [= <-]. split; [apply NoDup_fst_map_to_list|].
    intros i. rewrite elem_of_keys. naive_solver.
  - intros i n [r Hr] [= <-]. destruct (Ho i r Hr) as (? & ? & ? & ?). done.
Qed.

Definition shortBtcOf (id : Z) (who : string) : Position := {|
  p_id := id; p_trader := who; p_asset := "BTC"; p_direction := Short; p_collateral := 250000000;
  p_size := 1000000000; entryPrice := 600000000000; liquidationPrice := 700000000000;
  openedAt := 1700000000; entryCumulativeFunding := 0; marginMode := Isolated |}.

Definition somePosition (id : Z) (who : string) : RawPosition := entryOf CurrentLayout (shortBtcOf id who).

Definition someOrder (id : Z) (who : string) (kind st : Z) : RawOrder := {|
  ro_id := id; ro_trader := who; ro_asset := "BTC"; ro_order_type := kind; ro_direction := 0;
  ro_collateral := 0; ro_leverage := 0; ro_trigger_price := 590000000000; ro_trigger_condition := 1;
  ro_slippage_tolerance_bps := 100; ro_position_id := 7; ro_has_position := true; ro_created_at := 1700000000;
  ro_status := st; ro_limit_price := None; ro_trailing_percent_bps := None; ro_time_in_force := None;
  ro_stop_limit_phase := None |}.

Definition somePositions : gmap Z RawPosition :=
  {[ 7 := entryOf FirstLayout (shortBtcOf 7 "GA"); 8 := somePosition 8 "GB"; 9 := somePosition 9 "GA" ]}.

(** Two executed orders of GA, far apart, and two pending. *)
Definition someOrders : gmap Z RawOrder :=
  {[ 1 := someOrder 1 "GA" 0 1; 5 := someOrder 5 "GA" 2 0; 1000 := someOrder 1000 "GA" 1 0; 1001 := someOrder 1001 "GB" 1 0;
     1002 := someOrder 1002 "GA" 0 2 ]}.

Lemma someRows_ok : rowsOk somePositions someOrders 1002.
Proof. split; apply (bool_decide_unpack _); vm_compute; exact I. Qed.

Definition legacyMarket : Chain := ledgerChain false somePositions someOrders 1002.
Definition upgradedMarket : Chain := ledgerChain true somePositions someOrders 1002.

Lemma positions_are_the_traders_witness :
  exists ps, getPositions legacyMarket "GA" = Ok ps /\ NoDup ps /\
    parsePosition (somePosition 9 "GA") ∈ ps.
Proof.
  destruct (positions_are_the_traders legacyMarket somePositions someOrders
    (ledgerChain_faithful false _ _ _ someRows_ok) "GA") as [_ Hyes].
  destruct Hyes as (ps & Hps & Hnd & Hel); [intros Hn; by eapply Hn|].
  exists ps. split; [done|]. split; [done|]. apply Hel. exists 9, (somePosition 9 "GA").
  split; [reflexivity|]. split; [reflexivity|]. split; [by eexists | reflexivity].
Defined.

Lemma pending_orders_either_generation_witness :
  exists os, getOrders upgradedMarket "GA" = Ok os /\
    forall o, o ∈ getAllPendingOrders upgradedMarket <-> pendingShown upgradedMarket someOrders None o.
Proof.
  eexists. split; [vm_compute; reflexivity|].
  eapply (pending_orders_either_generation upgradedMarket somePositions someOrders
    (ledgerChain_faithful true _ _ _ someRows_ok) "GA"). vm_compute; reflexivity.
Defined.

Lemma attached_order_is_the_positions_witness :
  is_Some (getPositionStopLoss upgradedMarket "GA" 7).
Proof.
  destruct (attached_order_is_the_positions upgradedMarket somePositions someOrders
    (ledgerChain_faithful true _ _ _ someRows_ok) StopLoss "GA" 7) as [_ Hsome].
  eapply (Hsome _ (parseOrder (someOrder 1000 "GA" 1 0))); [vm_compute; reflexivity | | reflexivity | reflexivity].
  exists 1000, (someOrder 1000 "GA" 1 0). split; [reflexivity|]. split; [by intros ? [= <-]|].
  split; [reflexivity|]. split; [vm_compute; reflexivity | reflexivity].
Defined.

Lemma somePositions_stored i r : somePositions !! i = Some r -> exists p, stores r p.
Proof.
  assert (map_Forall (fun _ r => exists p, stores r p) somePositions) as H; [|apply H].
  unfold somePositions. apply map_Forall_insert_2; [|apply map_Forall_insert_2; [|apply map_Forall_singleton]].
  - exists (shortBtcOf 7 "GA"), FirstLayout. split; [reflexivity|]. split; [done|]. cbn. lia.
  - exists (shortBtcOf 8 "GB"), CurrentLayout. split; [reflexivity|]. split; [done|]. cbn. lia.
  - exists (shortBtcOf 9 "GA"), CurrentLayout. split; [reflexivity|]. split; [done|]. cbn. lia.
Qed.

(** Two positions of GA, one in the first struct, listed by the gateway. *)
Lemma page_positions_are_the_ledgers_witness :
  exists ps, contractPositions upgradedMarket "GA" (PersonalHints (Ok [9; 7]) false) = Ok ps /\ NoDup ps /\
    shortBtcOf 7 "GA" ∈ ps /\ (forall p, p ∈ ps <-> traderHolds upgradedMarket somePositions "GA" p).
Proof.
  eexists. split; [vm_compute; reflexivity|].
  match goal with |- NoDup ?ps /\ _ => assert (NoDup ps /\ forall p, p ∈ ps <-> traderHolds upgradedMarket somePositions "GA" p) as [Hnd Hel] end.
  { apply (page_positions_are_the_ledgers upgradedMarket somePositions someOrders
      (ledgerChain_faithful true _ _ _ someRows_ok) "GA" (Ok [9; 7]) false); [exact somePositions_stored| |vm_compute; reflexivity].
    intros ids [= <-] _. split; [apply (bool_decide_unpack _); vm_compute; exact I|].
    intros i. rewrite !elem_of_cons, elem_of_nil. split.
    - intros [->|[->|[]]]; eexists; split; reflexivity.
    - intros (r & Hr & Hw). unfold somePositions in Hr.
      repeat (apply lookup_insert_Some in Hr as [[<- <-]|[_ Hr]]; [tauto || discriminate Hw|]).
      apply lookup_singleton_Some in Hr as [<- <-]. tauto. }
  split; [exact Hnd|]. split; [|exact Hel]. apply Hel. split; [reflexivity|].
  exists 7, (entryOf FirstLayout (shortBtcOf 7 "GA")). split; [reflexivity|]. split; [|by eexists].
  exists FirstLayout. split; [reflexivity|]. split; [done|]. cbn. lia.
Defined.

Lemma trust_is_recent_witness :
  let calls := [(1000, HealthBody (Some "CM"%string) (Some 5)); (50000, HealthFailed)] in
  trustRun "CM" None calls !! 1%nat = Some true /\ exists now j, calls.*1 !! 1%nat = Some now /\ EarnedBy "CM" calls now 1 j.
Proof. split; [reflexivity|]. apply trust_is_recent. reflexivity. Defined.

(** ** Divergences *)

(** Non-empty hints are used whether or not the gateway serves this market,
    and nothing filters them by trader: on a market whose gateway indexes
    another one, the page shows a stranger's position as the trader's. *)
Example foreign_hints_show_strangers :
  contractPositions upgradedMarket "GA" (PersonalHints (Ok [8]) false)
  = Ok [parsePosition (somePosition 8 "GB")].
Proof. reflexivity. Qed.

(** When the ids are read and every row's read fails, the account is empty
    without an error. *)
Example failed_rows_are_an_empty_account :
  getPositions {| get_trader_position_ids := get_trader_position_ids upgradedMarket;
    get_all_position_ids := SimNothing; get_all_order_ids := SimNothing;
    get_position := fun _ => SimThrew "fetch failed"; get_order := fun _ => SimNothing; orderCounter := CounterAbsent;
    orderEntries := fun _ => Ok []; settled := fun l => l |} "GA" = Ok [].
Proof. reflexivity. Qed.

(** A pending order more than 600 ids old is not reached on an upgraded
    market, and the filled orders of a trader are listed on the old one only. *)
Example order_history_by_generation :
  (o_id <$> default [] (match getOrders legacyMarket "GA" with inr os => Some os | inl _ => None end))
    ≡ₚ [1; 5; 1000; 1002] /\
  (o_id <$> default [] (match getOrders upgradedMarket "GA" with inr os => Some os | inl _ => None end)) = [1000].
Proof. split; [apply (bool_decide_unpack _); vm_compute; exact I | vm_compute; reflexivity]. Qed.
