(* ===== verification/WebHistory.v ===== *)
(** * Trade history from the chain

    Models the history readers of web/lib/stellar/market.ts: rows from the
    events of the trader's transactions (Horizon), the fall-back on the RPC's
    events, and the scan for recent liquidations. Values are those of
    scValToNative ([Native]); looking up a property of an object that is not
    an array is a parameter. *)

From S2P Require Import Prelude JsText IndexerEvents ApiOrders WebReads.
Open Scope Z_scope.
Open Scope js_scope.

(** ** Coercions of native values *)

(** [String(v)]; holes of an array print as nothing. *)
Fixpoint jsText (v : Native) : string :=
  match v with
  | NBig z | NNum z => decimalOfZ z
  | NStr s => s
  | NBool b => if b then "true" else "false"
  | NNull => "null"
  | NUndef => "undefined"
  | NOther => "[object Object]"
  | NArr l =>
      (fix join (l : list Native) : string :=
         match l with
         | [] => EmptyString
         | [v] => match v with NNull | NUndef => EmptyString | _ => jsText v end
         | v :: l => (match v with NNull | NUndef => EmptyString | _ => jsText v end) +:+ "," +:+ join l
         end) l
  end.

(** [BigInt(v)] *)
Definition jsBigInt (v : Native) : Result Z :=
  match v with
  | NBig z | NNum z => Ok z
  | NBool b => Ok (if b then 1 else 0)
  | NNull | NUndef => Err "Cannot convert to a BigInt"
  | NStr _ | NArr _ | NOther => bigIntOf (jsText v)
  end.

(** [Number(v)], [None] for NaN; a text that is not an integer counts as NaN,
    which no id and no amount of an event is. *)
Definition jsNumber (v : Native) : option Z :=
  match v with
  | NBig z => Some (numberOfBigint z)
  | NNum z => Some z
  | NBool b => Some (if b then 1 else 0)
  | NNull => Some 0
  | NUndef => None
  | NStr _ | NArr _ | NOther => match bigIntOf (jsText v) with inr z => Some (numberOfBigint z) | inl _ => None end
  end.

Definition truthyN (v : Native) : bool :=
  match v with
  | NBig z | NNum z => negb (z =? 0)
  | NStr s => negb (String.eqb s "")
  | NBool b => b
  | NNull | NUndef => false
  | NArr _ | NOther => true
  end.

(** [a || b] and [a ?? b] *)
Definition orN (a b : Native) : Native := if truthyN a then a else b.
Definition ifMissing (a b : Native) : Native := match a with NNull | NUndef => b | _ => a end.

(** [typeof v === 'object' && v !== null] *)
Definition isObject (v : Native) : bool := match v with NArr _ | NOther => true | _ => false end.

(** bigIntToNumber of a value cast to a bigint. *)
Definition amountOf (v : Native) : number :=
  match v with
  | NUndef | NNull => zeroN
  | NBig z => bigIntToNumber z
  | _ => match jsNumber v with Some z => divN (numberOfZ z) (numberOfZ 10000000) | None => zeroN end
  end.

(** ** Events and transactions as the readers get them *)

(** An event of getEvents: its first topic, if it has one, and its value;
    reading either may throw. *)
Record WebEvent := {
  we_id : string; we_txHash : string; we_topic : option (Result Native);
  we_value : option (Result Native); ledgerClosedAt : option Z }.

(** An event of a transaction's metadata. *)
Record TxEvent := { te_topic : option (Result Native); te_data : Result Native }.

(** A Horizon transaction; no events when its metadata is missing, of another
    version, without Soroban metadata, or cannot be parsed. *)
Record HorizonTx := {
  tx_id : string; tx_hash : string; successful : bool; tx_created_at : Z; tx_events : option (list TxEvent) }.

Inductive TradeType := close_ | liquidation.

Record Trade := {
  t_id : string; t_txHash : string; t_trader : Native; t_asset : Native; t_direction : Side; t_type : TradeType;
  t_size : number; t_price : number; t_entryPrice : option number; t_pnl : option number; t_timestamp : Z }.

Record RecentLiquidation := { l_positionId : option (option Z); l_price : number; l_totalPnl : option number }.

Section history.
(** [v[key]] and [key in v] of an object that is not an array. *)
Context (prop : Native -> string -> Native) (has : Native -> string -> bool).

(** [key in v]; an array has no such key. *)
Definition hasKey (v : Native) (key : string) : bool := match v with NArr _ => false | _ => has v key end.

(** A close: an object with Long is long, another object short. *)
Definition closeDirection (dirVal : Native) : Side :=
  match dirVal with
  | NNum z => if z =? 0 then Long else Short
  | _ => if isObject dirVal then (if hasKey dirVal "Long" then Long else Short) else Long
  end.

(** A liquidation: only an object with Short is short. *)
Definition liqDirection (dirVal : Native) : Side :=
  match dirVal with
  | NNum z => if z =? 0 then Long else Short
  | _ => if isObject dirVal && hasKey dirVal "Short" then Short else Long
  end.

Definition isStr (v : Native) (s : string) : bool := match v with NStr t => String.eqb t s | _ => false end.

(** ** Rows from RPC events (parseEventsToTrades) *)

(** The fields of a close: an array by position, an object by either name. *)
Record CloseFields := {
  c_trader : Native; c_asset : Native; c_dir : Native; c_size : Native; c_entry : Native; c_exit : Native; c_pnl : Native }.

Definition closeFields (data : Native) : option CloseFields :=
  match data with
  | NArr l =>
      Some {| c_trader := at_ l 1; c_asset := NStr (jsText (orN (at_ l 2) (NStr "Unknown"))); c_dir := at_ l 3;
              c_size := ifMissing (at_ l 4) (NNum 0); c_entry := ifMissing (at_ l 5) (NNum 0);
              c_exit := ifMissing (at_ l 6) (NNum 0); c_pnl := ifMissing (at_ l 7) (NNum 0) |}
  | NOther =>
      let f i name := orN (prop data i) (prop data name) in
      let amount i name := orN (f i name) (NNum 0) in
      Some {| c_trader := orN (f "1" "trader") (NStr ""); c_asset := NStr (jsText (orN (f "2" "asset") (NStr "Unknown")));
              c_dir := f "3" "direction"; c_size := amount "4" "size"; c_entry := amount "5" "entry_price";
              c_exit := amount "6" "exit_price"; c_pnl := amount "7" "pnl" |}
  | _ => None
  end%string.

Definition closedAt (now : Z) (e : WebEvent) : Z :=
  match ledgerClosedAt e with Some t => t | None => now end.

(** One event: a row, no row, or an exception (which skips it). *)
Definition eventToTrade (now : Z) (who : string) (e : WebEvent) : Result (option Trade) :=
  match we_value e with
  | None => Ok None
  | Some value =>
      data ← value;
      let topicName := match we_topic e with Some (inr t) => jsText t | _ => EmptyString end in
      let row trader asset dir kind size price entry pnl := Ok (Some {|
        t_id := we_id e; t_txHash := we_txHash e; t_trader := trader; t_asset := asset; t_direction := dir;
        t_type := kind; t_size := size; t_price := price; t_entryPrice := entry; t_pnl := pnl;
        t_timestamp := closedAt now e |}) in
      if String.eqb topicName "position_liquidated" then
        match data with
        | NArr l =>
            if negb (isStr (at_ l 1) who) then Ok None
            else size ← jsBigInt (ifMissing (at_ l 4) (NNum 0));
                 price ← jsBigInt (ifMissing (at_ l 6) (NNum 0));
                 row (at_ l 1) (NStr (jsText (ifMissing (at_ l 2) (NStr "Unknown")))) (liqDirection (at_ l 3))
                   liquidation (bigIntToNumber size) (bigIntToNumber price) None None
        | _ => Ok None
        end
      else if String.eqb topicName "cross_liq" then
        match data with
        | NArr l =>
            if negb (isStr (at_ l 0) who) then Ok None
            else pnl ← jsBigInt (ifMissing (at_ l 1) (NNum 0));
                 row (at_ l 0) (NStr "CROSS") Long liquidation zeroN zeroN None (Some (bigIntToNumber pnl))
        | _ => Ok None
        end
      else
        match closeFields data with
        | None => Ok None
        | Some f =>
            size ← jsBigInt (c_size f); entry ← jsBigInt (c_entry f); exit_ ← jsBigInt (c_exit f);
            pnl ← jsBigInt (c_pnl f);
            if truthyN (c_trader f) && negb (isStr (c_trader f) who) then Ok None
            else row (orN (c_trader f) (NStr who)) (orN (c_asset f) (NStr "Unknown")) (closeDirection (c_dir f)) close_
                   (bigIntToNumber size) (bigIntToNumber exit_) (Some (bigIntToNumber entry)) (Some (bigIntToNumber pnl))
        end
  end.

Definition parseEventsToTrades (now : Z) (events : list WebEvent) (who : string) : list Trade :=
  omap (fun e => match eventToTrade now who e with inr (Some t) => Some t | _ => None end) events.

(** ** Rows from the trader's transactions (parseClosePositionFromTransaction) *)

(** One event of a transaction: the row it gives, or go on with the next. *)
Definition txEventTrade (tx : HorizonTx) (who : string) (e : TxEvent) : option Trade :=
  let row trader asset dir kind size price entry pnl := Some {|
    t_id := tx_id tx; t_txHash := tx_hash tx; t_trader := trader; t_asset := asset; t_direction := dir;
    t_type := kind; t_size := size; t_price := price; t_entryPrice := entry; t_pnl := pnl;
    t_timestamp := tx_created_at tx |} in
  match te_topic e with
  | Some (inr (NStr topic)) =>
      match te_data e with
      | inl _ => None
      | inr data =>
          if String.eqb topic "position_closed" then
            let close trader asset dirVal size entry exit_ pnl :=
              row (orN trader (NStr who)) (orN asset (NStr "Unknown")) (closeDirection dirVal) close_
                (amountOf size) (amountOf exit_) (Some (amountOf entry)) (Some (amountOf pnl)) in
            match data with
            | NArr l => close (at_ l 1) (at_ l 2) (at_ l 3) (at_ l 4) (at_ l 5) (at_ l 6) (at_ l 7)
            | NOther =>
                let f i name := orN (prop data i) (prop data name) in
                let amount i name := orN (f i name) (NBig 0) in
                close (orN (f "1" "trader") (NStr who)) (orN (f "2" "asset") (NStr "Unknown")) (f "3" "direction")
                  (amount "4" "size") (amount "5" "entry_price") (amount "6" "exit_price") (amount "7" "pnl")
            | _ => None
            end
          else if String.eqb topic "position_liquidated" then
            match data with
            | NArr l =>
                if negb (isStr (at_ l 1) who) then None
                else match jsBigInt (ifMissing (at_ l 4) (NNum 0)), jsBigInt (ifMissing (at_ l 6) (NNum 0)) with
                     | inr size, inr price =>
                         row (at_ l 1) (NStr (jsText (ifMissing (at_ l 2) (NStr "Unknown")))) (liqDirection (at_ l 3))
                           liquidation (bigIntToNumber size) (bigIntToNumber price) None None
                     | _, _ => None
                     end
            | _ => None
            end
          else if String.eqb topic "cross_liq" then
            match data with
            | NArr l =>
                if negb (isStr (at_ l 0) who) then None
                else match jsBigInt (ifMissing (at_ l 1) (NNum 0)) with
                     | inr pnl => row (at_ l 0) (NStr "CROSS") Long liquidation zeroN zeroN None (Some (bigIntToNumber pnl))
                     | _ => None
                     end
            | _ => None
            end
          else None
      end
  | _ => None
  end%string.

(** The first event of the transaction that gives a row. *)
Definition parseClosePositionFromTransaction (tx : HorizonTx) (who : string) : option Trade :=
  match tx_events tx with None => None | Some es => firstSome (txEventTrade tx who) es end.

(** ** The history *)

(** getTradeHistoryFromEvents: the ledger or the events could not be read, or
    the events. *)
Definition getTradeHistoryFromEvents (now : Z) (answer : Result (list WebEvent)) (who : string) : list Trade :=
  match answer with inl _ => [] | inr events => parseEventsToTrades now events who end.

(** sort((a, b) => b.timestamp - a.timestamp), which is stable. *)
Fixpoint insertTrade (t : Trade) (l : list Trade) : list Trade :=
  match l with
  | [] => [t]
  | u :: l' => if t_timestamp u <=? t_timestamp t then t :: l else u :: insertTrade t l'
  end.

Definition newestFirst (l : list Trade) : list Trade := foldr insertTrade [] l.

Definition getTradeHistory (now : Z) (horizon : Result (list HorizonTx)) (events : Result (list WebEvent)) (who : string)
  : list Trade :=
  match horizon with
  | inl _ => getTradeHistoryFromEvents now events who
  | inr txs =>
      let trades := omap (fun tx => if successful tx then parseClosePositionFromTransaction tx who else None) txs in
      newestFirst (match trades with [] => getTradeHistoryFromEvents now events who | _ => trades end)
  end.

(** ** Recent liquidations (getRecentLiquidations) *)

Definition recentOf (who : string) (e : WebEvent) : option RecentLiquidation :=
  match we_topic e with
  | Some (inl _) => None
  | topic =>
      let name := match topic with Some (inr t) => jsText t | _ => EmptyString end in
      match we_value e with
      | Some (inr (NArr l)) =>
          if String.eqb name "position_liquidated" then
            if negb (isStr (at_ l 1) who) then None
            else match jsBigInt (ifMissing (at_ l 6) (NNum 0)) with
                 | inr price => Some {| l_positionId := Some (jsNumber (at_ l 0)); l_price := bigIntToNumber price;
                                        l_totalPnl := None |}
                 | inl _ => None
                 end
          else if String.eqb name "cross_liq" then
            if negb (isStr (at_ l 0) who) then None
            else match jsBigInt (ifMissing (at_ l 1) (NNum 0)) with
                 | inr pnl => Some {| l_positionId := None; l_price := zeroN; l_totalPnl := Some (bigIntToNumber pnl) |}
                 | inl _ => None
                 end
          else None
      | _ => None
      end
  end.

Definition getRecentLiquidations (who : string) (answer : Result (list WebEvent)) : list RecentLiquidation :=
  match answer with inl _ => [] | inr events => omap (recentOf who) events end.
End history.

(** ** Against the indexer *)

(** The event [e] is the contract's [body], as the indexer decodes it, with
    its direction a number (the contract's is a u32). *)
Definition Emits (topic : option (Result Native)) (data : Native) (body : MarketBody Z) : Prop :=
  topic = Some (Ok (NStr (marketTopic body))) /\
  decodeMarketBody [] (decodeEventValue data) (marketTopic body) = Some (Ok body) /\
  match at_ (decodeEventValue data) 3 with NBig _ => False | _ => True end.

Definition sideOf (d : Z) : Side := if d =? 0 then Long else Short.

(** The row of a decoded event: closes and liquidations of [who]. [others]
    also lists closes of other traders, under their name. *)
Definition rowOf (id hash : string) (at_ : Z) (others : bool) (who : string) (body : MarketBody Z) : option Trade :=
  let row trader asset dir kind size price entry pnl := Some {|
    t_id := id; t_txHash := hash; t_trader := trader; t_asset := asset; t_direction := dir; t_type := kind;
    t_size := size; t_price := price; t_entryPrice := entry; t_pnl := pnl; t_timestamp := at_ |} in
  match body with
  | PositionClosed _ t a d size entry price pnl =>
      if others || String.eqb t "" || String.eqb t who then
        row (NStr (if String.eqb t "" then who else t)) (NStr (if String.eqb a "" then "Unknown" else a)%string) (sideOf d)
          close_ (bigIntToNumber size) (bigIntToNumber price) (Some (bigIntToNumber entry)) (Some (bigIntToNumber pnl))
      else None
  | PositionLiquidated _ t a d size _ price =>
      if String.eqb t who then
        row (NStr t) (NStr a) (sideOf d) liquidation (bigIntToNumber size) (bigIntToNumber price) None None
      else None
  | CrossLiquidated t pnl _ =>
      if String.eqb t who then
        row (NStr t) (NStr "CROSS"%string) Long liquidation zeroN zeroN None (Some (bigIntToNumber pnl))
      else None
  | _ => None
  end.

(** The topics the reader asks the RPC for. *)
Definition inHistory (body : MarketBody Z) : bool :=
  match body with
  | PositionClosed _ _ _ _ _ _ _ _ | PositionLiquidated _ _ _ _ _ _ _ | CrossLiquidated _ _ _ => true
  | _ => false
  end.

Lemma asString_inv v l t : asString v l = Ok t -> v = NStr t.
Proof. by destruct v; simpl; intros [= ->]. Qed.

Lemma asBigInt_js v l z : asBigInt v l = Ok z -> jsBigInt (ifMissing v (NNum 0)) = Ok z /\ amountOf v = bigIntToNumber z.
Proof. by destruct v; simpl; intros [= ->]. Qed.

Lemma direction_js v l d :
  match v with NBig _ => False | _ => True end -> asNumber v l = Ok d ->
  (forall has, closeDirection has v = sideOf d) /\ (forall has, liqDirection has v = sideOf d).
Proof. by destruct v; simpl; intros Hn Hd; try done; injection Hd as ->. Qed.

(** Read an event's fields off its decoder. *)
Ltac inv_decoded :=
  inv_binds;
  repeat match goal with
  | H : asString _ _ = Ok _ |- _ => apply asString_inv in H
  | H : asBigInt _ _ = Ok _ |- _ => apply asBigInt_js in H as [? ?]
  end.

Lemma emits_array topic v body : inHistory body = true -> Emits topic v body -> exists l, v = NArr l.
Proof.
  intros Hin (_ & Hdec & _).
  destruct v as [| | | | | |l|]; [| | | | | |by exists l|]; destruct body; try done; cbn in Hdec; discriminate Hdec.
Qed.

(** Replace every field read by its decoded value. *)
Ltac rewrite_fields :=
  repeat match goal with
  | H : jsBigInt _ = Ok _ |- _ => rewrite H; clear H
  | H : amountOf _ = bigIntToNumber _ |- _ => rewrite H; clear H
  | H : at_ _ _ = NStr _ |- _ => rewrite H; clear H
  | H : forall has, closeDirection has _ = _ |- _ => rewrite H; clear H
  | H : forall has, liqDirection has _ = _ |- _ => rewrite H; clear H
  | H : _ = Ok _ |- _ => clear H
  | H : amountOf _ = _ |- _ => clear H
  | H : forall has, _ = sideOf _ |- _ => clear H
  end.

Lemma orN_str a b : orN (NStr a) (NStr b) = NStr (if String.eqb a "" then b else a).
Proof. unfold orN, truthyN. by destruct (String.eqb a ""). Qed.

Ltac eqb_cases :=
  repeat match goal with
  | |- context [String.eqb ?a ?b] => destruct (String.eqb_spec a b); subst; cbn -[bigIntToNumber]
  end.

(** The fields of an event of the history, by its decoder. *)
Ltac decode_history v Hin Hemits :=
  destruct (emits_array _ v _ Hin Hemits) as [l ->]; destruct Hemits as (Ht & Hdec & Hdir);
  match type of Hin with inHistory ?body = true => destruct body end; try done; cbn in Hdec; injection Hdec as Hdec;
  unfold decodePositionClosed, decodePositionLiquidated, decodeCrossLiquidated in Hdec; inv_decoded;
  injection Hdec; intros; subst; cbn [decodeEventValue] in *;
  repeat match goal with H : asNumber (at_ _ 3) _ = Ok _ |- _ => apply (direction_js _ _ _ Hdir) in H as [? ?] end;
  clear Hdir.

(** An RPC event of the history gives the row of its body. *)
Lemma eventToTrade_decoded prop has now who e v body :
  inHistory body = true -> we_value e = Some (Ok v) -> Emits (we_topic e) v body ->
  eventToTrade prop has now who e = Ok (rowOf (we_id e) (we_txHash e) (closedAt now e) false who body).
Proof.
  intros Hin Hv He. unfold eventToTrade. rewrite Hv. decode_history v Hin He; rewrite Ht; cbn -[jsBigInt bigIntToNumber];
    rewrite_fields; rewrite ?orN_str; cbn -[bigIntToNumber]; rewrite ?orN_str;
    eqb_cases; done.
Qed.

(** An event of a transaction gives the row of its body. *)
Lemma txEventTrade_decoded prop has tx who e v body :
  te_data e = Ok v -> Emits (te_topic e) v body ->
  txEventTrade prop has tx who e = rowOf (tx_id tx) (tx_hash tx) (tx_created_at tx) true who body.
Proof.
  intros Hv He. unfold txEventTrade. rewrite Hv. destruct (inHistory body) eqn:Hin.
  - decode_history v Hin He; rewrite Ht; cbn -[jsBigInt bigIntToNumber];
      rewrite_fields; rewrite ?orN_str; cbn -[bigIntToNumber]; rewrite ?orN_str; eqb_cases; done.
  - destruct He as [Ht _]. rewrite Ht. destruct body; try done; try (by destruct cleared); by destruct removed.
Qed.

(** A recent liquidation is a liquidation of the trader: of one position, or
    of the cross account. *)
Definition recentRow (who : string) (body : MarketBody Z) : option RecentLiquidation :=
  match body with
  | PositionLiquidated i t _ _ _ _ price =>
      if String.eqb t who then
        Some {| l_positionId := Some (Some i); l_price := bigIntToNumber price; l_totalPnl := None |} else None
  | CrossLiquidated t pnl _ =>
      if String.eqb t who then
        Some {| l_positionId := None; l_price := zeroN; l_totalPnl := Some (bigIntToNumber pnl) |} else None
  | _ => None
  end.

Lemma asNumber_js v l d : asNumber v l = Ok d -> jsNumber v = Some d.
Proof. by destruct v; simpl; intros [= <-]. Qed.

Lemma recentOf_decoded who e v body :
  inHistory body = true -> we_value e = Some (Ok v) -> Emits (we_topic e) v body -> recentOf who e = recentRow who body.
Proof.
  intros Hin Hv He. unfold recentOf. rewrite Hv.
  assert (forall l i, asNumber (at_ l 0) "position_liquidated.position_id" = Ok i -> jsNumber (at_ l 0) = Some i)
    as Hid by (intros l i; apply asNumber_js).
  destruct (emits_array _ v _ Hin He) as [l ->]. destruct He as (Ht & Hdec & _). rewrite Ht.
  destruct body; try done; cbn in Hdec; injection Hdec as Hdec; 
    unfold decodePositionLiquidated, decodeCrossLiquidated in Hdec; inv_binds;
    repeat match goal with H : asNumber (at_ _ 0) _ = Ok _ |- _ => apply Hid in H end; inv_decoded;
    injection Hdec; intros; subst; cbn -[jsBigInt bigIntToNumber]; cbn [decodeEventValue] in *; rewrite_fields;
    rewrite ?Ha; cbn -[bigIntToNumber]; eqb_cases; done.
Qed.

(** The history shows what the indexer would have recorded: the events
    the reader fetches, whatever their order, give the rows of the closes and
    liquidations of the trader and nothing else; and the rows read from a
    transaction's metadata are the same, except that a close counts whoever's
    position it closed. *)
Theorem history_is_the_decoded_events prop has now who :
  (forall events bodies,
     Forall2 (fun e b => inHistory b = true /\ exists v, we_value e = Some (Ok v) /\ Emits (we_topic e) v b) events bodies ->
     parseEventsToTrades prop has now events who
     = omap (fun eb => rowOf (we_id eb.1) (we_txHash eb.1) (closedAt now eb.1) false who eb.2) (zip events bodies)) /\
  (forall tx e body v, te_data e = Ok v -> Emits (te_topic e) v body ->
     txEventTrade prop has tx who e = rowOf (tx_id tx) (tx_hash tx) (tx_created_at tx) true who body).
Proof.
  split; [|intros tx e body v Hv He; by eapply txEventTrade_decoded].
  intros events bodies. unfold parseEventsToTrades.
  induction 1 as [|e b events bodies (Hin & v & Hv & He) _ IH]; [done|].
  simpl. rewrite (eventToTrade_decoded prop has now who e v b Hin Hv He). unfold Ok.
  destruct (rowOf _ _ _ _ _ _); [f_equal|]; exact IH.
Qed.

(** ** Witness and divergence *)

Definition closedData (who : string) : Native :=
  NArr [NBig 7; NStr who; NStr "BTC"; NNum 1; NBig 1000000000; NBig 600000000000; NBig 590000000000; NBig 16666666].

Definition closedBody (who : string) : MarketBody Z :=
  PositionClosed 7 who "BTC" 1 1000000000 600000000000 590000000000 16666666.

Definition closedEvent (who : string) : WebEvent := {|
  we_id := "1"; we_txHash := "h"; we_topic := Some (Ok (NStr "position_closed")); we_value := Some (Ok (closedData who));
  ledgerClosedAt := Some 1700000000000 |}.

Lemma history_is_the_decoded_events_witness :
  parseEventsToTrades (fun _ _ => NUndef) (fun _ _ => false) 0 [closedEvent "GA"; closedEvent "GB"] "GA"
  = omap (fun eb => rowOf (we_id eb.1) (we_txHash eb.1) (closedAt 0 eb.1) false "GA" eb.2)
      (zip [closedEvent "GA"; closedEvent "GB"] [closedBody "GA"; closedBody "GB"]).
Proof.
  apply (history_is_the_decoded_events (fun _ _ => NUndef) (fun _ _ => false) 0 "GA").
  repeat constructor; eexists; (split; [reflexivity|]); (split; [reflexivity|]); (split; [reflexivity|exact I]).
Defined.

(** A close in a transaction of the reader's account is listed as its trade
    whoever's position it closed: a keeper that executes a stop-loss sees it in
    its own history. *)
Example keeper_sees_others_closes :
  t_trader <$> getTradeHistory (fun _ _ => NUndef) (fun _ _ => false) 0
    (Ok [ {| tx_id := "1"; tx_hash := "h"; successful := true; tx_created_at := 0;
             tx_events := Some [ {| te_topic := Some (Ok (NStr "position_closed")); te_data := Ok (closedData "GB") |} ] |} ])
    (Ok []) "GK" = [NStr "GB"].
Proof. reflexivity. Qed.
