(* ===== verification/WebPage.v ===== *)
(** * The trade page's account view

    Models the state behind the positions and orders tables of
    web/app/trade/page.tsx: overlapping refreshes with their sequence numbers,
    the detection of liquidated positions and of orders that changed, and the
    inbox of lib/notifications/core.ts and lib/store/notificationStore.ts that
    decides what is announced. The page is a machine: a refresh starts in one
    step and ends in another, with what it read ([WebReads]) as its input.
    [formatUSD], an Intl formatter, is a parameter. *)

From S2P Require Import Prelude JsText IndexerEvents ApiOrders WebReads WebHistory.
Open Scope Z_scope.
Open Scope js_scope.

(** ** The inbox (lib/notifications/core.ts) *)

Inductive NotificationType := fill | cancel | slippage_cancel | liquidation | cross_liquidation.

Record Notification := {
  dedupeKey : string; n_type : NotificationType; n_title : string; n_ts : Z; n_read : bool }.

Definition NOTIFICATION_CAP : nat := 100.

(** The same array (no update) for a duplicate. *)
Definition applyNotification (entries : list Notification) (entry : Notification) : option (list Notification) :=
  if existsb (fun e => String.eqb (dedupeKey e) (dedupeKey entry)) entries then None
  else Some (take NOTIFICATION_CAP (entry :: entries)).

(** push of the store: whether the entry was fresh, and the entries. *)
Definition push (entries : list Notification) (key : string) (type : NotificationType) (title : string) (now : Z)
  : bool * list Notification :=
  match applyNotification entries
    {| dedupeKey := key; n_type := type; n_title := title; n_ts := now; n_read := false |} with
  | None => (false, entries)
  | Some entries => (true, entries)
  end.

(** ** JavaScript maps, in insertion order *)

Fixpoint mapSet {A} (k : Z) (v : A) (m : list (Z * A)) : list (Z * A) :=
  match m with
  | [] => [(k, v)]
  | (k', v') :: m => if k' =? k then (k', v) :: m else (k', v') :: mapSet k v m
  end.

Definition mapOf {A} (l : list (Z * A)) : list (Z * A) := foldl (fun m kv => mapSet kv.1 kv.2 m) [] l.

Fixpoint mapGet {A} (k : Z) (m : list (Z * A)) : option A :=
  match m with [] => None | (k', v) :: m => if k' =? k then Some v else mapGet k m end.

Definition mapHas {A} (k : Z) (m : list (Z * A)) : bool := match mapGet k m with Some _ => true | None => false end.

(** ** The page *)

Record Page := {
  positionsFetchSeq : Z; ordersFetchSeq : Z;
  rawPositions : list Position; positionsFetchFailed : bool;
  orders : list Order; ordersFetchFailed : bool;
  prevPositionIds : option (list (Z * bool)); expectedCloseIds : gset Z;
  prevOrders : list (Z * OrderStatus); entries : list Notification }.

(** A refresh under way, with the account and mode it started with, and a
    vanish check that waits for the recent liquidations. *)
Record Fetch := { f_seq : Z; f_who : string; f_leader : bool }.
Record Vanish := { v_who : string; v_prev : list (Z * bool); v_ids : list Z }.

Record Machine := {
  page : Page; wallet : option string; leaderVault : option Z;
  positionFetches : list Fetch; orderFetches : list Fetch; vanishes : list Vanish }.

(** What an observer sees: rows applied or cleared, and messages shown. *)
Inductive Output :=
| Applied (seq : Z) (who : string) (rows : list Position)
| Cleared
| Toast (key : string).

Definition setPositions (rows : list Position) (failed : bool) (p : Page) : Page := {|
  positionsFetchSeq := positionsFetchSeq p; ordersFetchSeq := ordersFetchSeq p; rawPositions := rows;
  positionsFetchFailed := failed; orders := orders p; ordersFetchFailed := ordersFetchFailed p;
  prevPositionIds := prevPositionIds p; expectedCloseIds := expectedCloseIds p; prevOrders := prevOrders p;
  entries := entries p |}.

Definition setVanish (prev : option (list (Z * bool))) (expected : gset Z) (p : Page) : Page := {|
  positionsFetchSeq := positionsFetchSeq p; ordersFetchSeq := ordersFetchSeq p; rawPositions := rawPositions p;
  positionsFetchFailed := positionsFetchFailed p; orders := orders p; ordersFetchFailed := ordersFetchFailed p;
  prevPositionIds := prev; expectedCloseIds := expected; prevOrders := prevOrders p; entries := entries p |}.

Definition setOrders (rows : list Order) (failed : bool) (prev : list (Z * OrderStatus)) (p : Page) : Page := {|
  positionsFetchSeq := positionsFetchSeq p; ordersFetchSeq := ordersFetchSeq p; rawPositions := rawPositions p;
  positionsFetchFailed := positionsFetchFailed p; orders := rows; ordersFetchFailed := failed;
  prevPositionIds := prevPositionIds p; expectedCloseIds := expectedCloseIds p; prevOrders := prev;
  entries := entries p |}.

Definition setEntries (es : list Notification) (p : Page) : Page := {|
  positionsFetchSeq := positionsFetchSeq p; ordersFetchSeq := ordersFetchSeq p; rawPositions := rawPositions p;
  positionsFetchFailed := positionsFetchFailed p; orders := orders p; ordersFetchFailed := ordersFetchFailed p;
  prevPositionIds := prevPositionIds p; expectedCloseIds := expectedCloseIds p; prevOrders := prevOrders p;
  entries := es |}.

Definition setSeqs (ps os : Z) (p : Page) : Page := {|
  positionsFetchSeq := ps; ordersFetchSeq := os; rawPositions := rawPositions p;
  positionsFetchFailed := positionsFetchFailed p; orders := orders p; ordersFetchFailed := ordersFetchFailed p;
  prevPositionIds := prevPositionIds p; expectedCloseIds := expectedCloseIds p; prevOrders := prevOrders p;
  entries := entries p |}.

Definition withPage (p : Page) (m : Machine) : Machine := {|
  page := p; wallet := wallet m; leaderVault := leaderVault m; positionFetches := positionFetches m;
  orderFetches := orderFetches m; vanishes := vanishes m |}.

(** Pushes and toasts thread the entries and the messages shown. *)
Definition pushAll : Type := list Notification * list Output.

Definition announce (key : string) (type : NotificationType) (title : string) (now : Z) (s : pushAll) : pushAll :=
  let '(fresh, es) := push s.1 key type title now in (es, if fresh then s.2 ++ [Toast key] else s.2).

Section machine.
Context (formatUSD : number -> string).

(** ** Refreshing positions (fetchPositions) *)

(** A refresh starts: it takes the next number. *)
Definition startPositions (who : string) (m : Machine) : Machine :=
  let p := page m in
  let seq := positionsFetchSeq p + 1 in
  {| page := setSeqs seq (ordersFetchSeq p) p; wallet := wallet m; leaderVault := leaderVault m;
     positionFetches := positionFetches m ++
       [ {| f_seq := seq; f_who := who; f_leader := bool_decide (is_Some (leaderVault m)) |} ];
     orderFetches := orderFetches m; vanishes := vanishes m |}.

Definition startOrders (who : string) (m : Machine) : Machine :=
  let p := page m in
  let seq := ordersFetchSeq p + 1 in
  {| page := setSeqs (positionsFetchSeq p) seq p; wallet := wallet m; leaderVault := leaderVault m;
     positionFetches := positionFetches m;
     orderFetches := orderFetches m ++
       [ {| f_seq := seq; f_who := who; f_leader := bool_decide (is_Some (leaderVault m)) |} ];
     vanishes := vanishes m |}.

(** detectLiquidatedVanish up to its wait: the ids that vanished without a
    close by the user, and the closes that have landed. *)
Definition detectVanish (who : string) (current : list (Z * bool)) (p : Page) : Page * list Vanish :=
  match prevPositionIds p with
  | None => (setVanish (Some current) (expectedCloseIds p) p, [])
  | Some prev =>
      let vanished := bfilter (fun i => negb (mapHas i current) && negb (bool_decide (i ∈ expectedCloseIds p))) prev.*1 in
      let expected := filter (fun i => mapHas i current = true) (expectedCloseIds p) in
      (setVanish (Some current) expected p,
       match vanished with [] => [] | _ => [ {| v_who := who; v_prev := prev; v_ids := vanished |} ] end)
  end.

(** A refresh ends with the positions read, or the error thrown. A failure
    keeps the rows; a response that is not the newest refresh's is dropped. *)
Definition endPositions (f : Fetch) (result : Result (list Position)) (m : Machine) : Machine * list Output :=
  let p := page m in
  if negb (f_seq f =? positionsFetchSeq p) then (m, [])
  else
    match result with
    | inl _ => (withPage (setPositions (rawPositions p) true p) m, [])
    | inr rows =>
        let p := setPositions rows false p in
        let current := mapOf ((fun q => (p_id q, bool_decide (marginMode q = Cross))) <$> rows) in
        let '(p, vs) := if f_leader f then (setVanish None (expectedCloseIds p) p, [])
                        else detectVanish (f_who f) current p in
        ({| page := p; wallet := wallet m; leaderVault := leaderVault m; positionFetches := positionFetches m;
            orderFetches := orderFetches m; vanishes := vanishes m ++ vs |},
         [Applied (f_seq f) (f_who f) rows])
    end.

(** ** Liquidations of vanished positions *)

Definition liqKey (i : Z) : string := "liq-" +:+ decimalOfZ i.
Definition crossLiqKey (i : Z) : string := "cross-liq-" +:+ decimalOfZ i.

(** The last isolated liquidation of an id; the first of the cross account. *)
Definition isolatedHit (liqs : list RecentLiquidation) (i : Z) : option RecentLiquidation :=
  last (bfilter (fun l => bool_decide (l_positionId l = Some (Some i))) liqs).

Definition crossHit (liqs : list RecentLiquidation) : option RecentLiquidation :=
  head (bfilter (fun l => bool_decide (l_positionId l = None)) liqs).

Fixpoint announceVanished (prev : list (Z * bool)) (liqs : list RecentLiquidation) (now : Z) (ids : list Z)
    (crossToasted : bool) (s : pushAll) : pushAll :=
  match ids with
  | [] => s
  | i :: ids =>
      match isolatedHit liqs i with
      | Some hit =>
          announceVanished prev liqs now ids crossToasted
            (announce (liqKey i) liquidation
               ("Position #" +:+ decimalOfZ i +:+ " liquidated at " +:+ formatUSD (l_price hit)) now s)
      | None =>
          match crossHit liqs with
          | Some l =>
              if bool_decide (mapGet i prev = Some true) && negb crossToasted then
                let pnlText := match l_totalPnl l with Some x => " — total PnL " +:+ formatUSD x | None => "" end in
                announceVanished prev liqs now ids true
                  (announce (crossLiqKey i) cross_liquidation ("Cross-margin account liquidated" +:+ pnlText) now s)
              else announceVanished prev liqs now ids crossToasted s
          | None => announceVanished prev liqs now ids crossToasted s
          end
      end
  end%string.

(** The wait of a vanish check ends with the liquidations read. *)
Definition endVanish (v : Vanish) (liqs : list RecentLiquidation) (now : Z) (m : Machine) : Machine * list Output :=
  match liqs with
  | [] => (m, [])
  | _ =>
      let '(es, out) := announceVanished (v_prev v) liqs now (v_ids v) false (entries (page m), []) in
      (withPage (setEntries es (page m)) m, out)
  end.

(** ** Refreshing orders (fetchOrders) *)

Definition sideText (d : Side) : string := match d with Long => "Long" | Short => "Short" end.

(** A status change of one order: the announcement, and whether the positions
    are refreshed. *)
Definition announceChange (prev : list (Z * OrderStatus)) (now : Z) (o : Order) (s : pushAll * nat) : pushAll * nat :=
  let label := (o_asset o +:+ " " +:+ sideText (o_direction o))%string in
  let key suffix := ("order-" +:+ decimalOfZ (o_id o) +:+ suffix)%string in
  if bool_decide (mapGet (o_id o) prev = Some Pending) then
    match status o with
    | Executed => (announce (key "-executed"%string) fill (label +:+ " order filled") now s.1, S s.2)
    | CancelledSlippage =>
        (announce (key "-slippage"%string) slippage_cancel (label +:+ " order cancelled — slippage exceeded") now s.1, s.2)
    | Cancelled => (announce (key "-cancelled"%string) cancel (label +:+ " order cancelled") now s.1, s.2)
    | Pending | Expired => s
    end
  else s.

(** The first order that was pending and is not listed any more. *)
Definition goneOrder (prev : list (Z * OrderStatus)) (rows : list Order) : option Z :=
  fst <$> head (bfilter (fun kv : Z * OrderStatus =>
    bool_decide (kv.2 = Pending) && negb (existsb (fun o => o_id o =? kv.1) rows)) prev).

(** The announcements of a refresh and the positions refreshes it asks for. *)
Definition detectOrders (prev : list (Z * OrderStatus)) (rows : list Order) (now : Z) (es : list Notification)
  : pushAll * nat :=
  match prev with
  | [] => ((es, []), O)
  | _ =>
      let s := foldl (fun s o => announceChange prev now o s) ((es, []), O) rows in
      match goneOrder prev rows with
      | None => s
      | Some i =>
          (announce ("order-" +:+ decimalOfZ i +:+ "-gone") fill
             ("Order #" +:+ decimalOfZ i +:+ " executed or removed") now s.1, S s.2)%string
      end
  end.

Definition endOrders (f : Fetch) (result : Result (list Order)) (now : Z) (m : Machine) : Machine * list Output :=
  let p := page m in
  if negb (f_seq f =? ordersFetchSeq p) then (m, [])
  else
    match result with
    | inl _ => (withPage (setOrders (orders p) true (prevOrders p) p) m, [])
    | inr rows =>
        let '(es, out, refreshes) := detectOrders (prevOrders p) rows now (entries p) in
        let m := withPage (setEntries es p) m in
        let m := Nat.iter refreshes (startPositions (f_who f)) m in
        (withPage (setOrders rows false (mapOf ((fun o => (o_id o, status o)) <$> rows)) (page m)) m, out)
    end.

(** ** The page's events *)

Inductive Event :=
| EConnect (who : string)                 (* the wallet connects or switches *)
| EDisconnect
| ESelectVault (vault : option Z)         (* leader mode *)
| ERefreshPositions | ERefreshOrders      (* timer or button *)
| EAfterTrade (who : string)              (* a timer set by a trade of [who] *)
| EPositionsEnd (i : nat) (result : Result (list Position))
| EOrdersEnd (i : nat) (result : Result (list Order)) (now : Z)
| EVanishEnd (i : nat) (liqs : list RecentLiquidation) (now : Z)
| EClosedByUser (id : Z).

(** Take the job [i] out of a list of jobs. *)
Definition takeAt {A} (i : nat) (l : list A) : option (A * list A) :=
  x ← l !! i; Some (x, take i l ++ drop (S i) l).

Definition withFetches (ps os : list Fetch) (vs : list Vanish) (m : Machine) : Machine := {|
  page := page m; wallet := wallet m; leaderVault := leaderVault m; positionFetches := ps; orderFetches := os;
  vanishes := vs |}.

(** The effect on the connection and the selected vault. *)
Definition connectionEffect (m : Machine) : Machine * list Output :=
  match wallet m with
  | None => (withPage (setVanish None ∅ (setOrders [] false (prevOrders (page m)) (setPositions [] false (page m)))) m,
             [Cleared])
  | Some who => (startOrders who (startPositions who m), [])
  end.

Definition step (m : Machine) (e : Event) : Machine * list Output :=
  match e with
  | EConnect who => connectionEffect {| page := page m; wallet := Some who; leaderVault := leaderVault m;
      positionFetches := positionFetches m; orderFetches := orderFetches m; vanishes := vanishes m |}
  | EDisconnect => connectionEffect {| page := page m; wallet := None; leaderVault := leaderVault m;
      positionFetches := positionFetches m; orderFetches := orderFetches m; vanishes := vanishes m |}
  | ESelectVault v => connectionEffect {| page := page m; wallet := wallet m; leaderVault := v;
      positionFetches := positionFetches m; orderFetches := orderFetches m; vanishes := vanishes m |}
  | ERefreshPositions => match wallet m with None => (m, []) | Some who => (startPositions who m, []) end
  | EAfterTrade who => (startPositions who m, [])
  | ERefreshOrders => match wallet m with None => (m, []) | Some who => (startOrders who m, []) end
  | EPositionsEnd i r =>
      match takeAt i (positionFetches m) with
      | None => (m, [])
      | Some (f, rest) => endPositions f r (withFetches rest (orderFetches m) (vanishes m) m)
      end
  | EOrdersEnd i r now =>
      match takeAt i (orderFetches m) with
      | None => (m, [])
      | Some (f, rest) => endOrders f r now (withFetches (positionFetches m) rest (vanishes m) m)
      end
  | EVanishEnd i liqs now =>
      match takeAt i (vanishes m) with
      | None => (m, [])
      | Some (v, rest) => endVanish v liqs now (withFetches (positionFetches m) (orderFetches m) rest m)
      end
  | EClosedByUser id =>
      (withPage (setVanish (prevPositionIds (page m)) ({[ id ]} ∪ expectedCloseIds (page m)) (page m)) m, [])
  end.

Fixpoint run (m : Machine) (es : list Event) : Machine * list Output :=
  match es with
  | [] => (m, [])
  | e :: es => let '(m, o) := step m e in let '(m, os) := run m es in (m, o ++ os)
  end.
End machine.

Definition freshPage : Page := {|
  positionsFetchSeq := 0; ordersFetchSeq := 0; rawPositions := []; positionsFetchFailed := false; orders := [];
  ordersFetchFailed := false; prevPositionIds := None; expectedCloseIds := ∅; prevOrders := []; entries := [] |}.

Definition opened : Machine := {|
  page := freshPage; wallet := None; leaderVault := None; positionFetches := []; orderFetches := []; vanishes := [] |}.

(** ** Announcements *)

Definition toastOf (o : Output) : option string := match o with Toast k => Some k | _ => None end.
Definition toasts (os : list Output) : list string := omap toastOf os.

(** [s'] is [s] after announcing keys that satisfy [P]. *)
Inductive Announces (P : string -> Prop) (s : pushAll) : pushAll -> Prop :=
| announces_none : Announces P s s
| announces_one key type title now s' :
    P key -> Announces P s s' -> Announces P s (announce key type title now s').

Lemma announces_trans P s s' s'' : Announces P s s' -> Announces P s' s'' -> Announces P s s''.
Proof. intros H. induction 1; [done|]. by constructor. Qed.

Lemma announceVanished_announces fmt prev liqs now ids crossed s :
  Announces (fun k => exists i, i ∈ ids /\
    ((k = liqKey i /\ exists l, l ∈ liqs /\ l_positionId l = Some (Some i)) \/ k = crossLiqKey i))
    s (announceVanished fmt prev liqs now ids crossed s).
Proof.
  assert (forall (P Q : string -> Prop) a b, (forall k, P k -> Q k) -> Announces P a b -> Announces Q a b) as Hmono.
  { intros P Q a b HPQ. induction 1; constructor; auto. }
  assert (forall i (P : Z -> Prop), P i -> forall l, exists j, j ∈ i :: l /\ P j) as Hhd
    by (intros i P Hi l; exists i; split; [left|]; done).
  revert crossed s. induction ids as [|i ids IH]; intros crossed s; simpl; [constructor|].
  assert (forall crossed s, Announces (fun k => exists j, j ∈ i :: ids /\
    ((k = liqKey j /\ exists l, l ∈ liqs /\ l_positionId l = Some (Some j)) \/ k = crossLiqKey j))
    s (announceVanished fmt prev liqs now ids crossed s)) as IH'.
  { intros. eapply Hmono; [|apply IH]. intros k (j & Hj & Hk). exists j. split; [by right|done]. }
  destruct (isolatedHit liqs i) as [hit|] eqn:Hhit.
  - eapply announces_trans; [|apply IH']. constructor; [|constructor].
    exists i. split; [by left|]. left. split; [done|]. exists hit.
    unfold isolatedHit in Hhit. apply last_Some_elem_of, elem_of_bfilter in Hhit as [? ?%bool_decide_eq_true]. done.
  - destruct (crossHit liqs) as [l|]; [|apply IH'].
    destruct (bool_decide _ && negb crossed); [|apply IH'].
    eapply announces_trans; [|apply IH']. constructor; [|constructor]. exists i. split; [by left | by right].
Qed.

Lemma detectOrders_announces prev rows now es :
  Announces (fun k => exists i suffix, k = ("order-" +:+ decimalOfZ i +:+ suffix)%string)
    (es, []) (detectOrders prev rows now es).1.
Proof.
  assert (forall s : pushAll * nat, Announces (fun k => exists i suffix, k = ("order-" +:+ decimalOfZ i +:+ suffix)%string) s.1
    (foldl (fun s o => announceChange prev now o s) s rows).1) as Hfold.
  { induction rows as [|o rows IH]; intros s; simpl; [constructor|].
    eapply announces_trans; [|apply IH]. unfold announceChange.
    destruct (bool_decide _); [|constructor].
    destruct (status o); simpl; try constructor; try constructor; by eexists _, _. }
  unfold detectOrders. destruct prev as [|kv prev]; [constructor|].
  destruct (goneOrder _ rows); [|apply (Hfold (es, [], O))].
  simpl. constructor; [by eexists _, _ | apply (Hfold (es, [], O))].
Qed.

(** The inbox after some announcements is the last hundred keys announced, on
    top of what it held; a key announced was not in it. *)
Definition keys (es : list Notification) : list string := dedupeKey <$> es.

Lemma announce_spec key type title now s :
  (key ∈ keys s.1 /\ announce key type title now s = s) \/
  (key ∉ keys s.1 /\ toasts (announce key type title now s).2 = toasts s.2 ++ [key] /\
   keys (announce key type title now s).1 = take NOTIFICATION_CAP (key :: keys s.1)).
Proof.
  unfold announce, push, applyNotification. cbn [dedupeKey].
  destruct (existsb _ s.1) eqn:Hex.
  - left. apply existsb_exists in Hex as (e & He & Hk%String.eqb_eq). split; [|by destruct s].
    apply list_elem_of_fmap. exists e. by rewrite list_elem_of_In.
  - right. split; [|split].
    + intros (e & -> & He)%list_elem_of_fmap. apply not_true_iff_false in Hex. apply Hex, existsb_exists.
      exists e. rewrite <- list_elem_of_In. by rewrite String.eqb_refl.
    + simpl. unfold toasts. by rewrite omap_app.
    + cbn [fst]. unfold keys. by rewrite fmap_take.
Qed.

Definition InboxOf (ts : list string) (es : list Notification) : Prop :=
  keys es = take NOTIFICATION_CAP (reverse ts).

(** Two equal messages have a hundred others between them. *)
Definition Spaced (ts : list string) : Prop :=
  forall i j k, ts !! i = Some k -> ts !! j = Some k -> (i < j)%nat -> (NOTIFICATION_CAP < j - i)%nat.

Lemma Spaced_snoc ts k : k ∉ take NOTIFICATION_CAP (reverse ts) -> Spaced ts -> Spaced (ts ++ [k]).
Proof.
  intros Hk Hts i j x Hi Hj Hij. pose proof (lookup_lt_Some _ _ _ Hj) as Hlt. rewrite length_app in Hlt. simpl in Hlt.
  destruct (decide (j < length ts)%nat) as [Hjl|Hjl].
  - rewrite lookup_app_l in Hi, Hj by lia. by apply (Hts i j x).
  - assert (j = length ts) as -> by lia. rewrite lookup_app_l in Hi by lia.
    rewrite list_lookup_middle in Hj by done. injection Hj as ->.
    destruct (decide (NOTIFICATION_CAP < length ts - i)%nat) as [|Hn]; [done|]. destruct Hk.
    apply (list_elem_of_lookup_2 _ (length ts - S i)).
    rewrite lookup_take_lt by (unfold NOTIFICATION_CAP in *; lia).
    rewrite reverse_lookup by lia. by replace (length ts - S (length ts - S i))%nat with i by lia.
Qed.

Lemma announces_inbox P s s' ts :
  Announces P s s' -> InboxOf (ts ++ toasts s.2) s.1 -> Spaced (ts ++ toasts s.2) ->
  InboxOf (ts ++ toasts s'.2) s'.1 /\ Spaced (ts ++ toasts s'.2) /\
  (forall k, k ∈ toasts s'.2 -> k ∈ toasts s.2 \/ P k).
Proof.
  intros Ha Hi Hs. induction Ha as [|key type title now s' Hkey _ (IHi & IHs & IHk)]; [tauto|].
  destruct (announce_spec key type title now s') as [[_ ->]|(Hnew & Ht & Hk)]; [done|].
  rewrite Ht, app_assoc. split; [|split].
  - unfold InboxOf in *. rewrite Hk, IHi, reverse_snoc. unfold NOTIFICATION_CAP. simpl. f_equal.
    by rewrite take_take.
  - apply Spaced_snoc; [|done]. by rewrite <- IHi.
  - intros k [Hk'|Hk'%list_elem_of_singleton]%elem_of_app; [by apply IHk | subst; by right].
Qed.

Lemma start_keeps who m n :
  entries (page (Nat.iter n (startPositions who) m)) = entries (page m) /\
  vanishes (Nat.iter n (startPositions who) m) = vanishes m /\
  prevPositionIds (page (Nat.iter n (startPositions who) m)) = prevPositionIds (page m).
Proof. induction n as [|n IH]; simpl; [done|]. done. Qed.

Lemma detectVanish_entries who current p : entries (detectVanish who current p).1 = entries p.
Proof. unfold detectVanish. by destruct (prevPositionIds p). Qed.

Lemma takeAt_Some {A} i (l : list A) x rest :
  takeAt i l = Some (x, rest) -> l !! i = Some x /\ rest = take i l ++ drop (S i) l.
Proof. unfold takeAt. intros (y & Hy & [= -> <-])%bind_Some. done. Qed.

(** A key an event may announce: of an order, or of a position of the vanish
    check that ends, a liquidation only when the liquidations read have it. *)
Definition announced (m : Machine) (e : Event) (k : string) : Prop :=
  (exists i suffix, k = ("order-" +:+ decimalOfZ i +:+ suffix)%string) \/
  (exists idx v liqs now i, e = EVanishEnd idx liqs now /\ vanishes m !! idx = Some v /\ i ∈ v_ids v /\
     ((k = liqKey i /\ exists l, l ∈ liqs /\ l_positionId l = Some (Some i)) \/ k = crossLiqKey i)).

Lemma announces_mono (P Q : string -> Prop) s s' : (forall k, P k -> Q k) -> Announces P s s' -> Announces Q s s'.
Proof. intros HPQ. induction 1; constructor; auto. Qed.

Lemma step_announces fmt m e m' out :
  step fmt m e = (m', out) ->
  exists s, Announces (announced m e) (entries (page m), []) s /\ entries (page m') = s.1 /\ toasts out = toasts s.2.
Proof.
  assert (forall m1, connectionEffect m1 = (m', out) -> page m1 = page m ->
    exists s, Announces (announced m e) (entries (page m), []) s /\ entries (page m') = s.1 /\ toasts out = toasts s.2) as Hc.
  { unfold connectionEffect. intros m1 Hm1 Hp. exists (entries (page m), []). split; [constructor|].
    destruct (wallet m1); injection Hm1 as <- <-; simpl; by rewrite Hp. }
  assert (forall o, toasts o = [] -> entries (page m') = entries (page m) -> toasts out = toasts o ->
    exists s, Announces (announced m e) (entries (page m), []) s /\ entries (page m') = s.1 /\ toasts out = toasts s.2) as Hq.
  { intros o Ho He Hout. exists (entries (page m), []). split; [constructor|]. by rewrite Hout, Ho. }
  destruct e as [who| |v| | |who|i r|i r now|i liqs now|id]; simpl; intros Hstep.
  1-3: by apply (Hc _ Hstep).
  1-3: try (destruct (wallet m) as [w|]); injection Hstep as <- <-; by apply (Hq []).
  - destruct (takeAt i (positionFetches m)) as [[f rest]|]; [|injection Hstep as <- <-; by apply (Hq [])].
    unfold endPositions in Hstep. cbn [page withFetches] in Hstep.
    destruct (negb _); [injection Hstep as <- <-; by apply (Hq [])|].
    destruct r as [err|rows]; [injection Hstep as <- <-; by apply (Hq [])|].
    destruct (if f_leader f then _ else _) as [p vs] eqn:Hp. injection Hstep as <- <-.
    apply (Hq []); [done| |done]. cbn [page].
    destruct (f_leader f); [by injection Hp as <- _|].
    by rewrite <- (f_equal fst Hp : _ = p), detectVanish_entries.
  - destruct (takeAt i (orderFetches m)) as [[f rest]|]; [|injection Hstep as <- <-; by apply (Hq [])].
    unfold endOrders in Hstep. cbn [page withFetches] in Hstep.
    destruct (negb _); [injection Hstep as <- <-; by apply (Hq [])|].
    destruct r as [err|rows]; [injection Hstep as <- <-; by apply (Hq [])|].
    pose proof (detectOrders_announces (prevOrders (page m)) rows now (entries (page m))) as Ha.
    destruct (detectOrders _ _ _ _) as [[es o] n]. injection Hstep as <- <-.
    exists (es, o). split; [|split; [apply start_keeps | done]].
    eapply announces_mono; [|exact Ha]. intros k Hk. by left.
  - destruct (takeAt i (vanishes m)) as [[v rest]|] eqn:Ht; [|injection Hstep as <- <-; by apply (Hq [])].
    apply takeAt_Some in Ht as [Hv _]. unfold endVanish in Hstep. cbn [page withFetches] in Hstep.
    destruct liqs as [|l liqs]; [injection Hstep as <- <-; by apply (Hq [])|].
    pose proof (announceVanished_announces fmt (v_prev v) (l :: liqs) now (v_ids v) false (entries (page m), [])) as Ha.
    destruct (announceVanished _ _ _ _ _ _ _) as [es o]. injection Hstep as <- <-. exists (es, o).
    split; [|done]. eapply announces_mono; [|exact Ha]. intros k (j & Hj & Hk). right. by exists i, v, (l :: liqs), now, j.
  - injection Hstep as <- <-. by apply (Hq []).
Qed.

Lemma toasts_app a b : toasts (a ++ b) = toasts a ++ toasts b.
Proof. apply omap_app. Qed.

(** A message is not repeated: while fewer than a hundred others have
    been shown since, the event it reports does not show it again, however
    often refreshes observe it. *)
Theorem messages_are_not_repeated fmt events m out :
  run fmt opened events = (m, out) -> Spaced (toasts out) /\ InboxOf (toasts out) (entries (page m)).
Proof.
  assert (forall events m0 ts, InboxOf ts (entries (page m0)) -> Spaced ts -> run fmt m0 events = (m, out) ->
    Spaced (ts ++ toasts out) /\ InboxOf (ts ++ toasts out) (entries (page m))) as Hgen.
  { clear events. intros events. revert out. induction events as [|e events IH]; intros out m0 ts Hi Hs Hrun; simpl in Hrun.
    - injection Hrun as <- <-. by rewrite app_nil_r.
    - destruct (step fmt m0 e) as [m1 o1] eqn:He. destruct (run fmt m1 events) as [m2 o2] eqn:Hr.
      injection Hrun as -> <-. destruct (step_announces fmt m0 e m1 o1 He) as (s & Ha & Hes & Ho).
      destruct (announces_inbox _ _ _ ts Ha) as (Hi' & Hs' & _); [by rewrite app_nil_r..|].
      rewrite toasts_app, app_assoc, Ho. eapply IH; [|done|exact Hr]. by rewrite Hes. }
  intros Hrun. by apply (Hgen events opened []).
Qed.

(** ** Overlapping refreshes *)

Definition appliedSeq (o : Output) : option Z := match o with Applied seq _ _ => Some seq | _ => None end.

(** The rows an observer of the outputs has last seen. *)
Definition shown (rows : list Position) (out : list Output) : list Position :=
  foldl (fun rows o => match o with Applied _ _ rows => rows | Cleared => [] | Toast _ => rows end) rows out.

(** Refreshes have distinct numbers up to the page's; those still under way
    that could be applied are newer than [b]. *)
Record Numbered (b : Z) (m : Machine) : Prop := {
  n_distinct : NoDup (f_seq <$> positionFetches m);
  n_started : Forall (fun f => f_seq f <= positionsFetchSeq (page m)) (positionFetches m);
  n_bound : b <= positionsFetchSeq (page m);
  n_above : Forall (fun f => f_seq f = positionsFetchSeq (page m) -> b < f_seq f) (positionFetches m) }.

Lemma Numbered_start b who m : Numbered b m -> Numbered b (startPositions who m).
Proof.
  intros [Hd Hs Hb Ha]. split; simpl.
  - rewrite fmap_app. apply NoDup_app. split; [done|]. split; [|apply NoDup_singleton].
    intros x (f & -> & Hf)%list_elem_of_fmap Hx%list_elem_of_singleton. rewrite Forall_forall in Hs.
    specialize (Hs f Hf). simpl in *. lia.
  - apply Forall_app. split; [|by repeat constructor]. eapply Forall_impl; [exact Hs|]. simpl. intros. lia.
  - lia.
  - apply Forall_app. split; [|repeat constructor; simpl; lia].
    rewrite Forall_forall in Hs |- *. intros f Hf Heq. specialize (Hs f Hf). lia.
Qed.

Lemma Numbered_starts b who n m : Numbered b m -> Numbered b (Nat.iter n (startPositions who) m).
Proof. intros Hm. induction n; simpl; [done|]. by apply Numbered_start. Qed.

(** What numbering sees of a machine. *)
Lemma Numbered_same b m m' :
  positionFetches m' = positionFetches m -> positionsFetchSeq (page m') = positionsFetchSeq (page m) ->
  Numbered b m -> Numbered b m'.
Proof. intros Hf Hs [? ? ? ?]. split; by rewrite ?Hf, ?Hs. Qed.

Lemma takeAt_perm {A} i (l : list A) x rest : takeAt i l = Some (x, rest) -> l ≡ₚ x :: rest.
Proof.
  intros [Hx ->]%takeAt_Some. rewrite <- (take_drop_middle l i x Hx) at 1. symmetry. apply Permutation_middle.
Qed.

Lemma Numbered_take b m f rest i :
  Numbered b m -> takeAt i (positionFetches m) = Some (f, rest) ->
  Numbered b (withFetches rest (orderFetches m) (vanishes m) m) /\
  (f_seq f = positionsFetchSeq (page m) -> b < f_seq f /\
     Forall (fun g => f_seq g = positionsFetchSeq (page m) -> f_seq f < f_seq g) rest).
Proof.
  intros [Hd Hs Hb Ha] Hp%takeAt_perm. rewrite Hp in Hd, Hs, Ha. simpl in Hd.
  apply NoDup_cons in Hd as [Hf Hd]. apply Forall_cons in Hs as [Hsf Hs], Ha as [Haf Ha].
  split; [by split|]. intros Heq. split; [by apply Haf|].
  apply Forall_forall. intros g Hg Hgeq. destruct Hf. apply list_elem_of_fmap. exists g. split; [congruence|done].
Qed.

Lemma detectVanish_keeps who current p :
  positionsFetchSeq (detectVanish who current p).1 = positionsFetchSeq p /\
  rawPositions (detectVanish who current p).1 = rawPositions p.
Proof. unfold detectVanish. by destruct (prevPositionIds p). Qed.

Lemma connection_numbered b m m' out :
  Numbered b m -> connectionEffect m = (m', out) ->
  rawPositions (page m') = shown (rawPositions (page m)) out /\ omap appliedSeq out = [] /\ Numbered b m'.
Proof.
  unfold connectionEffect. intros Hm. destruct (wallet m) as [w|]; intros [= <- <-]; (split; [done|]); (split; [done|]).
  - eapply Numbered_same; [..|apply (Numbered_start b w m Hm)]; done.
  - by eapply Numbered_same; [..|exact Hm].
Qed.

Lemma start_shows who n m :
  rawPositions (page (Nat.iter n (startPositions who) m)) = rawPositions (page m).
Proof. induction n as [|n IH]; simpl; [done|]. done. Qed.

(** Announcements only show messages. *)
Definition quiet (out : list Output) : Prop := Forall (fun o => exists k, o = Toast k) out.

Lemma announces_quiet P es s : Announces P (es, []) s -> quiet s.2.
Proof.
  induction 1 as [|key type title now s' _ _ IH]; [constructor|].
  unfold announce. destruct (push _ _ _ _ _) as [[|] es']; [|done]. apply Forall_app. split; [done|].
  constructor; [by eexists | constructor].
Qed.

Lemma quiet_shown rows out : quiet out -> shown rows out = rows /\ omap appliedSeq out = [].
Proof. revert rows. induction 1 as [|o out [k ->] _ IH]; [done|]. exact IH. Qed.

Lemma endPositions_numbered b m f rest i r m' out :
  Numbered b m -> takeAt i (positionFetches m) = Some (f, rest) ->
  endPositions f r (withFetches rest (orderFetches m) (vanishes m) m) = (m', out) ->
  rawPositions (page m') = shown (rawPositions (page m)) out /\
  ((omap appliedSeq out = [] /\ Numbered b m') \/ exists s, omap appliedSeq out = [s] /\ b < s /\ Numbered s m').
Proof.
  intros Hm Ht Hend. destruct (Numbered_take b m f rest i Hm Ht) as [Hn Hf].
  unfold endPositions in Hend. cbn [page withFetches] in Hend.
  destruct (f_seq f =? positionsFetchSeq (page m)) eqn:Heq; simpl in Hend; [|injection Hend as <- <-; auto].
  apply Z.eqb_eq in Heq. destruct (Hf Heq) as [Hb Habove]. destruct r as [err|rows].
  - injection Hend as <- <-. split; [done|]. left. split; [done|]. by eapply Numbered_same; [..|exact Hn].
  - destruct (if f_leader f then _ else _) as [p vs] eqn:Hp. injection Hend as <- <-.
    assert (positionsFetchSeq p = positionsFetchSeq (page m) /\ rawPositions p = rows) as [Hs Hr].
    { destruct (f_leader f); [by injection Hp as <- _|]. 
      match type of Hp with detectVanish ?w ?c ?q = _ => pose proof (detectVanish_keeps w c q) as Hk end.
      by rewrite Hp in Hk. }
    split; [exact Hr|]. right. exists (f_seq f). split; [done|]. split; [done|].
    destruct Hn as [Hd Hst _ _]. split; cbn [page positionFetches withFetches] in *; rewrite ?Hs; try done. lia.
Qed.

Lemma detectOrders_numbered b m f rest now rows m' out :
  Numbered b m ->
  (let '(es, out, refreshes) := detectOrders (prevOrders (page m)) rows now (entries (page m)) in
   let m := withPage (setEntries es (page m)) (withFetches (positionFetches m) rest (vanishes m) m) in
   let m := Nat.iter refreshes (startPositions (f_who f)) m in
   (withPage (setOrders rows false (mapOf ((fun o => (o_id o, status o)) <$> rows)) (page m)) m, out)) = (m', out) ->
  rawPositions (page m') = shown (rawPositions (page m)) out /\
  ((omap appliedSeq out = [] /\ Numbered b m') \/ exists s, omap appliedSeq out = [s] /\ b < s /\ Numbered s m').
Proof.
  intros Hm. pose proof (announces_quiet _ _ _ (detectOrders_announces (prevOrders (page m)) rows now (entries (page m)))) as Hq.
  destruct (detectOrders _ _ _ _) as [[es o] n]. intros [= <- ->]. destruct (quiet_shown (rawPositions (page m)) out Hq) as [-> Ho].
  cbn [page withPage setOrders rawPositions]. rewrite start_shows. split; [done|]. left. split; [done|].
  eapply Numbered_same; [..|apply (Numbered_starts b (f_who f) n)]; [reflexivity..|].
  by eapply Numbered_same; [..|exact Hm].
Qed.

Lemma endVanish_numbered fmt b m v rest liqs now m' out :
  Numbered b m -> endVanish fmt v liqs now (withFetches (positionFetches m) (orderFetches m) rest m) = (m', out) ->
  rawPositions (page m') = shown (rawPositions (page m)) out /\
  ((omap appliedSeq out = [] /\ Numbered b m') \/ exists s, omap appliedSeq out = [s] /\ b < s /\ Numbered s m').
Proof.
  intros Hm. unfold endVanish. cbn [page withFetches].
  pose proof (announces_quiet _ _ _ (announceVanished_announces fmt (v_prev v) liqs now (v_ids v) false (entries (page m), []))) as Hq.
  destruct liqs as [|l liqs]; [intros [= <- <-]; split; [done|]; left; split; [done|]; by eapply Numbered_same; [..|exact Hm]|].
  destruct (announceVanished _ _ _ _ _ _ _) as [es o]. intros [= <- ->].
  destruct (quiet_shown (rawPositions (page m)) out Hq) as [-> Ho].
  split; [done|]. left. split; [done|]. by eapply Numbered_same; [..|exact Hm].
Qed.

(** One step: what is applied is newer than [b], and a new bound. *)
Lemma step_numbered fmt b m e m' out :
  Numbered b m -> step fmt m e = (m', out) ->
  rawPositions (page m') = shown (rawPositions (page m)) out /\
  ((omap appliedSeq out = [] /\ Numbered b m') \/
   exists s, omap appliedSeq out = [s] /\ b < s /\ Numbered s m').
Proof.
  intros Hm. assert (forall m1, connectionEffect m1 = (m', out) -> page m1 = page m -> positionFetches m1 = positionFetches m ->
    rawPositions (page m') = shown (rawPositions (page m)) out /\
    ((omap appliedSeq out = [] /\ Numbered b m') \/ exists s, omap appliedSeq out = [s] /\ b < s /\ Numbered s m')) as Hc.
  { intros m1 Hm1 Hp Hf. rewrite <- Hp.
    destruct (connection_numbered b m1 m' out) as (Hr & Ho & Hn); [|done|by auto].
    eapply Numbered_same; [exact Hf | by rewrite Hp | exact Hm]. }
  assert (forall m1 o, (m1, o) = (m', out) -> o = [] -> rawPositions (page m1) = rawPositions (page m) -> Numbered b m1 ->
    rawPositions (page m') = shown (rawPositions (page m)) out /\
    ((omap appliedSeq out = [] /\ Numbered b m') \/ exists s, omap appliedSeq out = [s] /\ b < s /\ Numbered s m')) as Hq.
  { intros m1 o [= -> ->] -> Hr Hn. auto. }
  destruct e as [who| |v| | |who|i r|i r now|i liqs now|id]; simpl; intros Hstep.
  1-3: by apply (Hc _ Hstep).
  - destruct (wallet m) as [w|]; eapply Hq; try exact Hstep; try done. by apply Numbered_start.
  - destruct (wallet m) as [w|]; eapply Hq; try exact Hstep; try done; by eapply Numbered_same; [..|exact Hm].
  - eapply Hq; [exact Hstep|done..|by apply Numbered_start].
  - destruct (takeAt i (positionFetches m)) as [[f rest]|] eqn:Ht; [|by eapply Hq; [exact Hstep|..]].
    by apply (endPositions_numbered b m f rest i r m' out Hm Ht).
  - destruct (takeAt i (orderFetches m)) as [[f rest]|]; [|by eapply Hq; [exact Hstep|..]].
    unfold endOrders in Hstep. cbn [page withFetches] in Hstep.
    destruct (negb _); [by eapply Hq; [exact Hstep|..]; [| |by eapply Numbered_same; [..|exact Hm]]|].
    destruct r as [err|rows]; [by eapply Hq; [exact Hstep|..]; [| |by eapply Numbered_same; [..|exact Hm]]|].
    apply (detectOrders_numbered b m f rest now rows m' out Hm Hstep).
  - destruct (takeAt i (vanishes m)) as [[v rest]|]; [|by eapply Hq; [exact Hstep|..]].
    apply (endVanish_numbered fmt b m v rest liqs now m' out Hm Hstep).
  - by eapply Hq; [exact Hstep|done|done|]; eapply Numbered_same; [..|exact Hm].
Qed.

(** C23. A slow response never replaces a newer one: the refreshes whose rows
    the page applies have increasing numbers, however their reads interleave
    with others, with wallet switches and with order refreshes; and the rows
    on screen are those last applied. *)
Theorem stale_reads_never_overwrite fmt events m out :
  run fmt opened events = (m, out) ->
  StronglySorted Z.lt (omap appliedSeq out) /\ rawPositions (page m) = shown [] out.
Proof.
  assert (forall events m0 b out, Numbered b m0 -> run fmt m0 events = (m, out) ->
    StronglySorted Z.lt (omap appliedSeq out) /\ Forall (Z.lt b) (omap appliedSeq out) /\
    rawPositions (page m) = shown (rawPositions (page m0)) out) as Hgen.
  { clear events out. intros events. induction events as [|e events IH]; intros m0 b out Hm Hrun; simpl in Hrun.
    - injection Hrun as <- <-. split_and!; [constructor|constructor|done].
    - destruct (step fmt m0 e) as [m1 o1] eqn:He. destruct (run fmt m1 events) as [m2 o2] eqn:Hr.
      injection Hrun as -> <-. rewrite omap_app. unfold shown at 1. rewrite foldl_app.
      destruct (step_numbered fmt b m0 e m1 o1 Hm He) as [Hrows [[-> Hn]|(s & -> & Hs & Hn)]];
        destruct (IH m1 _ o2 Hn Hr) as (Hsort & Hab & Hsh); rewrite Hrows in Hsh; simpl.
      + done.
      + split; [by constructor|]. split; [|done]. constructor; [done|].
        eapply Forall_impl; [exact Hab|]. intros x Hx. simpl in Hx. lia. }
  intros Hrun. destruct (Hgen events opened 0 out) as (Hs & _ & Hr); [|done|done].
  split; simpl; [constructor|constructor|lia|constructor].
Qed.

(** ** Liquidation messages *)

Lemma elem_of_mapSet {A} k (v : A) m i : i ∈ (mapSet k v m).*1 <-> i = k \/ i ∈ m.*1.
Proof.
  induction m as [|[k' v'] m IH]; simpl; [by rewrite elem_of_cons|].
  destruct (k' =? k) eqn:E; simpl; rewrite !elem_of_cons; [|rewrite IH; tauto].
  apply Z.eqb_eq in E as ->. tauto.
Qed.

Lemma elem_of_mapOf {A} (l : list (Z * A)) i : i ∈ (mapOf l).*1 <-> i ∈ l.*1.
Proof.
  unfold mapOf. assert (forall m, i ∈ (foldl (fun m kv => mapSet kv.1 kv.2 m) m l).*1 <-> i ∈ m.*1 \/ i ∈ l.*1) as Hg.
  { induction l as [|kv l IH]; intros m; simpl; [rewrite elem_of_nil; tauto|].
    rewrite IH, elem_of_mapSet, elem_of_cons. tauto. }
  rewrite Hg. simpl. rewrite elem_of_nil. tauto.
Qed.

Lemma mapHas_keys {A} k (m : list (Z * A)) : mapHas k m = true <-> k ∈ m.*1.
Proof.
  unfold mapHas. induction m as [|[k' v] m IH]; simpl; [by rewrite elem_of_nil|].
  rewrite elem_of_cons. destruct (k' =? k) eqn:E; [apply Z.eqb_eq in E as ->; tauto|].
  apply Z.eqb_neq in E. rewrite IH. split; [tauto|]. by intros [->|].
Qed.

(** Rows with the position were applied, and later rows without it. *)
Definition Vanished (out : list Output) (i : Z) : Prop :=
  exists o1 s1 w1 r1 o2 s2 w2 r2 o3,
    out = o1 ++ Applied s1 w1 r1 :: o2 ++ Applied s2 w2 r2 :: o3 /\ i ∈ p_id <$> r1 /\ i ∉ p_id <$> r2.

Lemma Vanished_app out o i : Vanished out i -> Vanished (out ++ o) i.
Proof.
  intros (o1 & s1 & w1 & r1 & o2 & s2 & w2 & r2 & o3 & -> & H). exists o1, s1, w1, r1, o2, s2, w2, r2, (o3 ++ o).
  split; [|done]. by rewrite <- app_assoc, <- app_comm_cons, <- app_assoc, <- app_comm_cons.
Qed.

(** The page remembers ids it applied, and checks positions that vanished. *)
Record Remembers (m : Machine) (out : list Output) : Prop := {
  r_prev : forall prev, prevPositionIds (page m) = Some prev -> exists o1 s w rows o2,
    out = o1 ++ Applied s w rows :: o2 /\ forall i, i ∈ prev.*1 <-> i ∈ p_id <$> rows;
  r_vanish : forall v i, v ∈ vanishes m -> i ∈ v_ids v -> Vanished out i }.

Lemma Remembers_later m m' out o :
  (forall prev, prevPositionIds (page m') = Some prev -> prevPositionIds (page m) = Some prev) ->
  (forall v, v ∈ vanishes m' -> v ∈ vanishes m) -> Remembers m out -> Remembers m' (out ++ o).
Proof.
  intros Hp Hv [Rp Rv]. split.
  - intros prev Hprev. destruct (Rp prev (Hp prev Hprev)) as (o1 & s & w & rows & o2 & -> & H).
    exists o1, s, w, rows, (o2 ++ o). split; [|done]. by rewrite <- app_assoc, <- app_comm_cons.
  - intros v i Hin Hi. by apply Vanished_app, (Rv v i (Hv v Hin)).
Qed.

Lemma elem_of_takeAt {A} i (l : list A) x rest y : takeAt i l = Some (x, rest) -> y ∈ rest -> y ∈ l.
Proof. intros ->%takeAt_perm Hy. by right. Qed.

Lemma crossIds_keys rows i :
  i ∈ (mapOf ((fun q => (p_id q, bool_decide (marginMode q = Cross))) <$> rows)).*1 <-> i ∈ p_id <$> rows.
Proof. rewrite elem_of_mapOf, <- list_fmap_compose. done. Qed.

Lemma endPositions_remembers f r m m' out o :
  Remembers m out -> endPositions f r m = (m', o) -> Remembers m' (out ++ o).
Proof.
  intros HR. unfold endPositions.
  destruct (negb _); [intros [= <- <-]; by eapply (Remembers_later m); [..|exact HR]|].
  destruct r as [err|rows]; [intros [= <- <-]; by eapply (Remembers_later m); [..|exact HR]|].
  destruct (f_leader f); [intros [= <- <-]; eapply (Remembers_later m); [done| |exact HR]; simpl; by rewrite app_nil_r|].
  unfold detectVanish. cbn [prevPositionIds setPositions expectedCloseIds].
  set (current := mapOf _). assert (forall i, i ∈ current.*1 <-> i ∈ p_id <$> rows) as Hcur by (intros; apply crossIds_keys).
  assert (forall p vs, page m' = p -> vanishes m' = vanishes m ++ vs -> prevPositionIds p = Some current ->
    o = [Applied (f_seq f) (f_who f) rows] ->
    (forall v i, v ∈ vs -> i ∈ v_ids v -> Vanished (out ++ o) i) -> Remembers m' (out ++ o)) as Hmk.
  { intros p vs Hpage Hv Hp -> Hvs. split.
    - rewrite Hpage, Hp. intros prev [= <-]. by exists out, (f_seq f), (f_who f), rows, [].
    - rewrite Hv. intros v i [Hin|Hin]%elem_of_app Hi; [|by eapply Hvs].
      apply Vanished_app. by eapply (r_vanish _ _ HR). }
  destruct (prevPositionIds (page m)) as [prev|] eqn:Hprev; intros [= <- <-];
    (eapply Hmk; [reflexivity | reflexivity | reflexivity | reflexivity |]); intros v i Hv Hi; [|by apply elem_of_nil in Hv].
  destruct (r_prev _ _ HR prev Hprev) as (o1 & s & w & rows1 & o2 & -> & Hids).
  assert (i ∈ prev.*1 /\ i ∉ current.*1) as [Hin Hnot].
  { destruct (bfilter _ prev.*1) as [|j js] eqn:Hb; [by apply elem_of_nil in Hv|].
    apply list_elem_of_singleton in Hv as ->. cbn [v_ids] in Hi. rewrite <- Hb in Hi.
    apply elem_of_bfilter in Hi as [Hin [Hn _]%andb_true_iff]. split; [done|].
    rewrite <- mapHas_keys. by destruct (mapHas i current). }
  exists o1, s, w, rows1, o2, (f_seq f), (f_who f), rows, [].
  split; [by rewrite <- app_assoc|]. split; [by apply Hids | by rewrite <- Hcur].
Qed.

Lemma endOrders_keeps f r now m m' o :
  endOrders f r now m = (m', o) ->
  prevPositionIds (page m') = prevPositionIds (page m) /\ vanishes m' = vanishes m.
Proof.
  unfold endOrders. destruct (negb _); [by intros [= <- _]|].
  destruct r as [err|rows]; [by intros [= <- _]|].
  destruct (detectOrders _ _ _ _) as [[es o'] n]. intros [= <- _]. cbn [page vanishes withPage].
  match goal with |- context [Nat.iter n (startPositions ?w) ?m0] => destruct (start_keeps w m0 n) as (_ & Hv & Hp) end.
  by rewrite Hv.
Qed.

Lemma connection_remembers m m0 m' out o :
  prevPositionIds (page m0) = prevPositionIds (page m) -> vanishes m0 = vanishes m ->
  Remembers m out -> connectionEffect m0 = (m', o) -> Remembers m' (out ++ o).
Proof.
  unfold connectionEffect. intros Hp Hv HR Hm.
  destruct (wallet m0); injection Hm as <- <-; (eapply (Remembers_later m); [..|exact HR]); simpl; try done;
    rewrite ?Hp, ?Hv; done.
Qed.

Lemma step_remembers fmt m e m' out o :
  Remembers m out -> step fmt m e = (m', o) -> Remembers m' (out ++ o).
Proof.
  intros HR. assert (forall m1 o', prevPositionIds (page m1) = prevPositionIds (page m) ->
    (forall v, v ∈ vanishes m1 -> v ∈ vanishes m) -> Remembers m1 (out ++ o')) as Hq.
  { intros m1 o' Hp Hv. eapply (Remembers_later m); [|done|done]. by rewrite Hp. }
  destruct e as [who| |v| | |who|i r|i r now|i liqs now|id]; simpl; intros Hs.
  1-3: by eapply (connection_remembers m); [..|exact Hs].
  1-3: try destruct (wallet m); injection Hs as <- <-; by apply Hq.
  - destruct (takeAt i (positionFetches m)) as [[f rest]|]; [|injection Hs as <- <-; by apply Hq].
    eapply endPositions_remembers; [|exact Hs]. specialize (Hq (withFetches rest (orderFetches m) (vanishes m) m) []).
    rewrite app_nil_r in Hq. by apply Hq.
  - destruct (takeAt i (orderFetches m)) as [[f rest]|]; [|injection Hs as <- <-; by apply Hq].
    apply endOrders_keeps in Hs as [Hp Hv]. apply Hq; [by rewrite Hp|]. by rewrite Hv.
  - destruct (takeAt i (vanishes m)) as [[v rest]|] eqn:Ht; [|injection Hs as <- <-; by apply Hq].
    assert (forall u, u ∈ rest -> u ∈ vanishes m) as Hsub by (intros u; by eapply elem_of_takeAt).
    unfold endVanish in Hs. destruct liqs; [injection Hs as <- <-; by apply Hq|].
    destruct (announceVanished _ _ _ _ _ _ _) as [es o']. injection Hs as <- <-. by apply Hq.
  - injection Hs as <- <-. by apply Hq.
Qed.

Lemma announces_keys P s0 s k : Announces P s0 s -> k ∈ toasts s.2 -> k ∈ toasts s0.2 \/ P k.
Proof.
  induction 1 as [|key type title now s' Hkey _ IH]; [tauto|].
  unfold announce. destruct (push _ _ _ _ _) as [[|] es]; [|done]. simpl.
  rewrite toasts_app, elem_of_app. intros [?|Hk%list_elem_of_singleton]; [by apply IH | subst; by right].
Qed.

Lemma liqKey_inj i j : liqKey i = liqKey j -> i = j.
Proof. unfold liqKey. intros H. apply (inj decimalOfZ). by injection H. Qed.

(** The page only announces a liquidation that happened: rows with the
    position were on screen, later rows were without it, and the liquidation
    events then read from the chain have that position. *)
Theorem liquidation_messages_are_real fmt events m out i :
  run fmt opened events = (m, out) -> Toast (liqKey i) ∈ out ->
  Vanished out i /\
  exists k liqs now l, EVanishEnd k liqs now ∈ events /\ l ∈ liqs /\ l_positionId l = Some (Some i).
Proof.
  assert (forall events m0 pre out, Remembers m0 pre -> run fmt m0 events = (m, out) -> Toast (liqKey i) ∈ out ->
    Vanished (pre ++ out) i /\
    exists k liqs now l, EVanishEnd k liqs now ∈ events /\ l ∈ liqs /\ l_positionId l = Some (Some i)) as Hgen.
  { clear events out. intros events. induction events as [|e events IH]; intros m0 pre out HR Hrun Hin; simpl in Hrun.
    { injection Hrun as _ <-. by apply elem_of_nil in Hin. }
    destruct (step fmt m0 e) as [m1 o1] eqn:He. destruct (run fmt m1 events) as [m2 o2] eqn:Hr. injection Hrun as -> <-.
    rewrite app_assoc. apply elem_of_app in Hin as [Hin|Hin].
    - destruct (step_announces fmt m0 e m1 o1 He) as (s & Ha & _ & Ho).
      assert (liqKey i ∈ toasts o1) as Hk by (apply list_elem_of_omap; by exists (Toast (liqKey i))).
      rewrite Ho in Hk. apply (announces_keys _ _ _ _ Ha) in Hk as [Hk|Hk]; [by apply elem_of_nil in Hk|].
      destruct Hk as [(j & suffix & Hk)|(idx & v & liqs & now & j & -> & Hv & Hj & [[Hk (l & Hl & Hli)]|Hk])]; try discriminate Hk.
      apply liqKey_inj in Hk as <-. split.
      + do 2 apply Vanished_app. apply (r_vanish _ _ HR v i); [|done]. by eapply list_elem_of_lookup_2.
      + exists idx, liqs, now, l. split; [by left|done].
    - destruct (IH m1 (pre ++ o1) o2 (step_remembers _ _ _ _ _ _ HR He) Hr Hin) as (Hvan & k & liqs & now & l & Hk & Hl).
      split; [done|]. exists k, liqs, now, l. split; [by right|done]. }
  intros Hrun Hin. apply (Hgen events opened [] out); [|done|done].
  split; [done|]. intros v j Hv. by apply elem_of_nil in Hv.
Qed.

(** ** Runs *)

Definition shownPosition (id : Z) (who : string) : Position := parsePosition (somePosition id who).
Definition pendingOrder : Order := parseOrder (someOrder 1000 "GA" 1 0).
Definition plain : number -> string := fun _ => EmptyString.

(** Two refreshes overlap; the older answers last. *)
Definition overlapping : list Event :=
  [EConnect "GA"; ERefreshPositions; EPositionsEnd 1 (Ok [shownPosition 9 "GA"]);
   EPositionsEnd 0 (Ok [shownPosition 7 "GA"; shownPosition 9 "GA"])].

Lemma stale_reads_never_overwrite_witness :
  exists m out, run plain opened overlapping = (m, out) /\ omap appliedSeq out = [2] /\
    rawPositions (page m) = shown [] out.
Proof.
  eexists _, _. split; [vm_compute; reflexivity|]. split; [reflexivity|].
  eapply (stale_reads_never_overwrite plain overlapping). vm_compute; reflexivity.
Defined.

(** A position vanishes, and the chain has its liquidation; a second check of
    the same loss says nothing more. *)
Definition liquidated : list Event :=
  let liq := {| l_positionId := Some (Some 7); l_price := zeroN; l_totalPnl := None |} in
  [EConnect "GA"; EPositionsEnd 0 (Ok [shownPosition 7 "GA"]); ERefreshPositions; EPositionsEnd 0 (Ok []);
   EVanishEnd 0 [liq] 1; ERefreshPositions; EPositionsEnd 0 (Ok [shownPosition 7 "GA"]); ERefreshPositions;
   EPositionsEnd 0 (Ok []); EVanishEnd 0 [liq] 2].

Lemma messages_are_not_repeated_witness :
  exists m out, run plain opened liquidated = (m, out) /\ toasts out = ["liq-7"%string] /\ Spaced (toasts out).
Proof.
  eexists _, _. split; [vm_compute; reflexivity|]. split; [reflexivity|].
  eapply (messages_are_not_repeated plain liquidated). vm_compute; reflexivity.
Defined.

Lemma liquidation_messages_are_real_witness :
  exists m out, run plain opened liquidated = (m, out) /\ Vanished out 7.
Proof.
  eexists _, _. split; [vm_compute; reflexivity|].
  eapply (liquidation_messages_are_real plain liquidated); [vm_compute; reflexivity|].
  eapply (list_elem_of_lookup_2 _ 2). vm_compute. reflexivity.
Defined.

(** ** Divergences *)

(** Switching the wallet does not forget the previous one's orders: its
    pending orders are announced as executed or removed. *)
Example switched_wallet_reports_fills :
  toasts (run plain opened [EConnect "GA"; EOrdersEnd 0 (Ok [pendingOrder]) 1; EDisconnect; EConnect "GB";
                            EOrdersEnd 0 (Ok []) 2]).2 = ["order-1000-gone"%string].
Proof. vm_compute. reflexivity. Qed.

(** A refresh set by a trade reads for the account that traded, and takes the
    newest number: after a switch the page shows the other account's rows. *)
Example late_refresh_shows_previous_account :
  let m := (run plain opened [EConnect "GA"; EPositionsEnd 0 (Ok []); EConnect "GB"; EPositionsEnd 0 (Ok []);
                              EAfterTrade "GA"; EPositionsEnd 0 (Ok [shownPosition 7 "GA"])]).1 in
  wallet m = Some "GB"%string /\ p_trader <$> rawPositions (page m) = ["GA"%string].
Proof. split; vm_compute; reflexivity. Qed.

(** Disconnecting clears the rows but not the refresh under way, which puts
    them back. *)
Example disconnected_page_shows_rows :
  let m := (run plain opened [EConnect "GA"; EDisconnect; EPositionsEnd 0 (Ok [shownPosition 7 "GA"])]).1 in
  wallet m = None /\ p_id <$> rawPositions (page m) = [7].
Proof. split; vm_compute; reflexivity. Qed.
