(* ===== verification/WebVaults.v ===== *)
(** * Vaults, the pool and referrals from the web application

    Models web/lib/stellar/vaultFactory.ts, vault.ts and referral.ts (every
    call they build, quote, have signed and submit, and the views they read),
    signWithWallet of walletKit.ts and simulateCallResult of client.ts. A
    flow is a computation with the trace of what it asked of the outside: its
    quotes, what the wallet was shown and what was sent. The types of what
    they show are those of web/types/vault.ts. *)

From S2P Require Import Prelude JsText IndexerEvents TxFootprint TxSubmission KeeperEffects ApiBoard WebErrors ApiOrders.
From S2P Require Import ContractCalls WebTrades WebReads WebHistory.
Open Scope Z_scope.
Open Scope js_scope.

(** ** Flows *)

Inductive VaultEvent :=
| Quoted (c : ContractCall)
| WalletAsked (c : ContractCall) (xdr : string)
| SentSigned (signed : string)
| PhaseShown (phase : nat).

Definition Flow (A : Type) : Type := ((TradeError + A) * list VaultEvent)%type.

#[export] Instance Flow_ret : MRet Flow := fun A a => (inr a, []).

#[export] Instance Flow_bind : MBind Flow := fun A B k m =>
  match m with
  | (inl e, es) => (inl e, es)
  | (inr a, es) => let (r, es') := k a in (r, es ++ es')
  end.

Definition emit (e : VaultEvent) : Flow () := (inr tt, [e]).
Definition throws {A} (message : string) : Flow A := (inl (Thrown message), []).
Definition orThrow {A} (r : Result A) : Flow A :=
  match r with inl e => throws e | inr a => (inr a, []) end.
Definition orFail {A} (r : TradeError + A) : Flow A := (r, []).

(** ** The wallet (walletKit.ts) *)

(** What the kit answers: the active module's address, if there is a module
    that tells it, and the signed transaction with its signer. *)
Record WalletKit := {
  getAddress : option (ThrownValue + option string);
  signTransaction : string -> ThrownValue + (string * option string) }.

Definition last4 (s : string) : string := String.substring (String.length s - 4) 4 s.
Definition first8 (s : string) : string := String.substring 0 8 s.

Definition accountChangedText (who active : string) : string :=
  "Wallet account changed. The app expected " +:+ first8 who +:+ "…" +:+ last4 who +:+ " "
  +:+ "but the wallet is now signing with " +:+ first8 active +:+ "…" +:+ last4 active +:+ ". "
  +:+ "Reconnect the wallet from the navbar to refresh the session.".

Definition otherSignerText (who signer : string) : string :=
  "Wallet signed with a different account than the transaction source. "
  +:+ "Source: " +:+ first8 who +:+ "…, signer: " +:+ first8 signer +:+ "…. "
  +:+ "This would fail on-chain with txBadAuth — reconnect the wallet to align accounts.".

(** An address that is given and not [who]. *)
Definition differs (who : string) (a : option string) : option string :=
  match a with Some a => if truthy a && negb (String.eqb a who) then Some a else None | None => None end.

(** The check before signing: only its own error is thrown on. *)
Definition addressCheck (who : string) (k : WalletKit) : ThrownValue + () :=
  match getAddress k with
  | None => inr tt
  | Some (inl (ThrownMessage m)) => if startsWith "Wallet account changed" m then inl (ThrownMessage m) else inr tt
  | Some (inl _) => inr tt
  | Some (inr a) =>
      match differs who a with Some active => inl (ThrownMessage (accountChangedText who active)) | None => inr tt end
  end.

Definition signWithWallet (who : string) (k : WalletKit) (xdr : string) : ThrownValue + string :=
  match addressCheck who k with
  | inl e => inl e
  | inr _ =>
      match signTransaction k xdr with
      | inl e => inl (signingError e)
      | inr (signed, signer) =>
          match differs who signer with
          | Some s => inl (signingError (ThrownMessage (otherSignerText who s)))
          | None => inr signed
          end
      end
  end.

(** ** One transaction *)

(** simulateCallResult's answers: it throws before one, the host refuses, no
    value comes back, or the value. *)
Inductive QuoteAnswer := QuoteThrew (e : string) | QuoteRefused (hostText : string) | QuoteEmpty | QuoteValue (z : Z).

(** What the outside answers during one transaction: the quote, the
    simulation of the built call, the signer of the flow, the network, the
    value the applied call returned, and the current ledger. *)
Record TxWorld := {
  quoteAnswer : ContractCall -> QuoteAnswer;
  t_simulate : ContractCall -> Simulation;
  t_sign : string -> ThrownValue + string;
  t_rpc : string -> Rpc;
  returnValue : option (Result Native);
  latestLedger : Result Z }.

Definition simulateCallResult (cfg : Contracts) (w : TxWorld) (c : ContractCall) : Flow Z :=
  _ ← emit (Quoted c);
  match quoteAnswer w c with
  | QuoteThrew e => throws e
  | QuoteRefused e => throws (simulationErrorText (contractErrorContext cfg (contractId c)) e)
  | QuoteEmpty => throws "Simulation returned no value"
  | QuoteValue z => mret z
  end.

(** minOut of both files *)
Definition LP_SLIPPAGE_BPS : Z := 50.
Definition BPS : Z := 10000.
Definition minOut (quoted : Z) : Z := (quoted * (BPS - LP_SLIPPAGE_BPS)) ÷ BPS.

Section flows.
Context `{IntCodec} `{FeeBuilder} (toXDR : ContractCall -> Transaction -> string) (cfg : Contracts).

(** Build, have signed and submit: buildTransaction, the signer, and
    submitTransaction without an operation. *)
Definition signAndSubmit (w : TxWorld) (c : ContractCall) : Flow Z :=
  xdr ← orThrow (buildTransaction toXDR cfg (t_simulate w) c);
  _ ← emit (WalletAsked c xdr);
  signed ← orFail (match t_sign w xdr with inl e => inl (Thrown (toMessageString e)) | inr s => inr s end);
  _ ← emit (SentSigned signed);
  orFail (submitTransaction None (t_rpc w signed)).

(** ** vaultFactory.ts *)

Definition factoryMissing : string :=
  "vault_factory contract not configured — set NEXT_PUBLIC_VAULT_FACTORY_ID once the contract is deployed.".

Definition getVaultFactoryAddress : Flow string :=
  match VAULT_FACTORY cfg with Some a => if truthy a then mret a else throws factoryMissing | None => throws factoryMissing end.

(** deposit and withdraw of the factory, with a minimum. *)
Definition vaultMove (factory who m : string) (vaultId amount minimum : Z) : Result ContractCall :=
  callTo factory who m unhinted (v ← encU32 vaultId; a ← encI128 amount; o ← encI128 minimum; Ok [v; a; o]).

Definition quotedMove (m who : string) (w : TxWorld) (vaultId amount : Z) : Flow () :=
  factory ← getVaultFactoryAddress;
  probe ← orThrow (vaultMove factory who m vaultId amount 0);
  quoted ← simulateCallResult cfg w probe;
  call ← orThrow (vaultMove factory who m vaultId amount (minOut quoted));
  _ ← signAndSubmit w call;
  mret tt.

Definition depositToVault : string -> TxWorld -> Z -> Z -> Flow () := quotedMove "deposit".
Definition withdrawFromVault : string -> TxWorld -> Z -> Z -> Flow () := quotedMove "withdraw".

(** The id of the new vault: [None] for null, [Some None] for NaN. *)
Definition newVaultId (v : option (Result Native)) : option (option Z) :=
  match v with Some (inr n) => Some (jsNumber n) | _ => None end.

(** A call of the factory whose source is not its first argument. *)
Definition plainCall (contract who m : string) (rest : Result (list ScVal)) : Result ContractCall :=
  vs ← rest; Ok {| source := who; contractId := contract; method := m; args := vs; hints := unhinted |}.

Definition createVault (who : string) (w : TxWorld) (name : string) : Flow (option (option Z)) :=
  factory ← getVaultFactoryAddress;
  call ← orThrow (callTo factory who "create_vault" unhinted (Ok [ScString name]));
  _ ← signAndSubmit w call;
  mret (newVaultId (returnValue w)).

Definition factoryWrite (mk : string -> Result ContractCall) (w : TxWorld) : Flow () :=
  factory ← getVaultFactoryAddress; call ← orThrow (mk factory); _ ← signAndSubmit w call; mret tt.

Definition setVaultPaused (who : string) (w : TxWorld) (vaultId : Z) (paused : bool) : Flow () :=
  factoryWrite (fun f => plainCall f who "set_paused" (v ← encU32 vaultId; Ok [v; ScBool paused])) w.

Definition claimLeaderFees (who : string) (w : TxWorld) (vaultId : Z) : Flow () :=
  factoryWrite (fun f => plainCall f who "claim_leader_fees" (v ← encU32 vaultId; Ok [v])) w.

Definition leaderOpenPosition (who : string) (w : TxWorld) (vaultId : Z) (a : string) (c l : Z) (d : Side) : Flow () :=
  factoryWrite (fun f => callTo f who "leader_open_position" unhinted
    (v ← encU32 vaultId; c ← encI128 c; l ← encU32 l; d ← encU32 (match d with Long => 0 | Short => 1 end);
     Ok [v; ScSymbol a; c; l; d])) w.

Definition leaderClosePosition (who : string) (w : TxWorld) (vaultId positionId : Z) : Flow () :=
  factoryWrite (fun f => callTo f who "leader_close_position" unhinted
    (v ← encU32 vaultId; p ← encU64 positionId; Ok [v; p])) w.

(** ** vault.ts *)

(** The value an applied call returned, for the calls that need one. *)
Definition returned (w : TxWorld) (otherwise : string) : Flow Native :=
  match returnValue w with Some (inr n) => mret n | Some (inl e) => throws e | None => throws otherwise end.

Definition poolMove (who m : string) (amount minimum : Z) : Result ContractCall :=
  callTo (VAULT cfg) who m unhinted (a ← encI128 amount; o ← encI128 minimum; Ok [a; o]).

Definition quotedPool (m failure who : string) (w : TxWorld) (amount : Z) : Flow Native :=
  probe ← orThrow (poolMove who m amount 0);
  quoted ← simulateCallResult cfg w probe;
  call ← orThrow (poolMove who m amount (minOut quoted));
  _ ← signAndSubmit w call;
  returned w failure.

Definition deposit : string -> TxWorld -> Z -> Flow Native := quotedPool "deposit" "Failed to deposit".
Definition withdraw : string -> TxWorld -> Z -> Flow Native := quotedPool "withdraw" "Failed to withdraw".

Definition approveCall (who token : string) (noeAmount expirationLedger : Z) : Result ContractCall :=
  callTo token who "approve" unhinted
    (a ← encI128 noeAmount; e ← encU32 expirationLedger; Ok [ScAddress (VAULT cfg); a; e]).

Definition approveNoeForWithdraw (who : string) (w : TxWorld) (noeAmount : Z) : Flow () :=
  match NOE_TOKEN cfg with
  | None => throws "NOE token contract not configured"
  | Some token =>
      sequence ← orThrow (latestLedger w);
      call ← orThrow (approveCall who token noeAmount (sequence + 500000));
      _ ← signAndSubmit w call;
      mret tt
  end.

Definition approveAndWithdraw (who : string) (w1 w2 : TxWorld) (noeAmount : Z) : Flow Native :=
  _ ← emit (PhaseShown 1);
  _ ← approveNoeForWithdraw who w1 noeAmount;
  _ ← emit (PhaseShown 2);
  withdraw who w2 noeAmount.

(** ** referral.ts *)

Definition referralMissing : string :=
  "referral contract not configured — set NEXT_PUBLIC_REFERRAL_ID once the contract is deployed.".

Definition getReferralAddress : Flow string :=
  match REFERRAL cfg with Some a => if truthy a then mret a else throws referralMissing | None => throws referralMissing end.

Definition referralWrite (who m : string) (w : TxWorld) (code : string) : Flow () :=
  referral ← getReferralAddress;
  call ← orThrow (callTo referral who m unhinted (Ok [ScString code]));
  _ ← signAndSubmit w call;
  mret tt.

Definition createReferralCode (who : string) : TxWorld -> string -> Flow () := referralWrite who "create_code".
Definition setReferrer (who : string) : TxWorld -> string -> Flow () := referralWrite who "set_referrer".

Definition claimReferralFees (who : string) (w : TxWorld) : Flow Native :=
  referral ← getReferralAddress;
  call ← orThrow (callTo referral who "claim" unhinted (Ok []));
  _ ← signAndSubmit w call;
  returned w "Failed to claim referral fees".
End flows.

(** ** The views *)

(** simulateView: a throw before the answer, the host's refusal, no value, or
    the value. *)
Inductive ViewAnswer (A : Type) := ViewThrew (e : string) | ViewRefused (hostText : string) | ViewNothing | ViewValue (a : A).
Arguments ViewThrew {A}.
Arguments ViewRefused {A}.
Arguments ViewNothing {A}.
Arguments ViewValue {A}.

(** The simulation's error is thrown as it is. *)
Definition simulateView {A} (v : ViewAnswer A) : Result (option A) :=
  match v with ViewThrew e | ViewRefused e => Err e | ViewNothing => Ok None | ViewValue a => Ok (Some a) end.

(** A vault as the contract's struct is decoded; [profit_share_bps] may be
    missing from it. *)
Record RawVault := {
  r_id : option Z; r_leader : string; r_name : string; r_created_at : option Z; r_total_usdc : option Z;
  r_circulating_shares : option Z; r_hwm_nav : option Z; r_realized_pnl : option Z; r_leader_shares : option Z;
  r_profit_share_bps : option Z; r_paused : bool }.

Record OnChainVaultInfo := {
  v_id : Z; v_leader : string; v_name : string; v_createdAt : Z; v_totalUsdc : Z; v_circulatingShares : Z;
  v_hwmNav : Z; v_realizedPnl : Z; v_leaderShares : Z; v_profitShareBps : Z; v_paused : bool }.

Definition decodeVaultInfo (r : RawVault) : Result OnChainVaultInfo :=
  match r_profit_share_bps r with
  | None => Err ("view_vault decode: profit_share_bps missing (vault "
                 +:+ match r_id r with Some i => decimalOfZ i | None => "undefined" end +:+ ")")
  | Some bps =>
      Ok {| v_id := numberOfBigint (default 0 (r_id r)); v_leader := r_leader r; v_name := r_name r;
            v_createdAt := numberOfBigint (default 0 (r_created_at r)); v_totalUsdc := default 0 (r_total_usdc r);
            v_circulatingShares := default 0 (r_circulating_shares r); v_hwmNav := default 0 (r_hwm_nav r);
            v_realizedPnl := default 0 (r_realized_pnl r); v_leaderShares := default 0 (r_leader_shares r);
            v_profitShareBps := numberOfBigint bps; v_paused := r_paused r |}
  end.

(** The factory as its views answer. *)
Record FactoryViews := {
  vault_count : ViewAnswer Z;
  view_vault : Z -> ViewAnswer RawVault;
  get_full_nav : Z -> ViewAnswer Z;
  shares_of : Z -> string -> ViewAnswer Z }.

Definition getVaultCount (f : FactoryViews) : Result Z :=
  v ← simulateView (vault_count f); Ok (numberOfBigint (default 0 v)).

(** A missing value throws when it is decoded. *)
Definition getVaultInfo (f : FactoryViews) (vaultId : Z) : option OnChainVaultInfo :=
  match (raw ← simulateView (view_vault f vaultId);
         match raw with Some r => decodeVaultInfo r | None => Err "Cannot read properties of null" end) with
  | inr v => Some v
  | inl _ => None
  end.

Inductive FullNav := NavIs (z : Z) | NavUnavailable | NavUnknown.

Definition getFullNav (f : FactoryViews) (vaultId : Z) : FullNav :=
  match simulateView (get_full_nav f vaultId) with
  | inr (Some z) => NavIs z
  | inr None => NavUnknown
  | inl msg => if includes msg "Error(Contract, #18)" then NavUnavailable else NavUnknown
  end.

Definition getUserVaultShares (f : FactoryViews) (vaultId : Z) (depositor : string) : Result Z :=
  v ← simulateView (shares_of f vaultId depositor);
  match v with Some z => Ok z | None => Err "Cannot convert null to a BigInt" end.

Definition listAllVaultsOnChain (f : FactoryViews) : Result (list OnChainVaultInfo) :=
  count ← getVaultCount f;
  if count =? 0 then Ok []
  else Ok (omap (fun i => getVaultInfo f (Z.of_nat i)) (seq 0 (Z.to_nat count))).

(** ** The vault page's rows (types/vault.ts, app/vaults/page.tsx) *)

Record Aggregates := {
  apyBps : option Z; annualized : option bool; drawdownBps : option Z; depositorCount : option Z;
  openPositions : option Z; tradeCount : option Z; closedTradePnl : option string }.

Definition noAggregates : Aggregates :=
  {| apyBps := None; annualized := None; drawdownBps := None; depositorCount := None; openPositions := None;
     tradeCount := None; closedTradePnl := None |}.

Record VaultRow := {
  row_id : Z; row_leader : string; row_name : string; row_createdAt : Z; row_totalUsdc : string;
  row_circulatingShares : string; row_hwmNav : string; row_realizedPnl : string; row_leaderShares : string;
  row_profitShareBps : Z; row_paused : bool; row_updatedAt : Z; row_aggregates : Aggregates }.

Definition vaultRowFromOnChain (now : Z) (v : OnChainVaultInfo) : VaultRow := {|
  row_id := v_id v; row_leader := v_leader v; row_name := v_name v; row_createdAt := v_createdAt v;
  row_totalUsdc := decimalOfZ (v_totalUsdc v); row_circulatingShares := decimalOfZ (v_circulatingShares v);
  row_hwmNav := decimalOfZ (v_hwmNav v); row_realizedPnl := decimalOfZ (v_realizedPnl v);
  row_leaderShares := decimalOfZ (v_leaderShares v); row_profitShareBps := v_profitShareBps v;
  row_paused := v_paused v; row_updatedAt := now; row_aggregates := noAggregates |}.

Definition withAggregates (r : VaultRow) (a : Aggregates) : VaultRow := {|
  row_id := row_id r; row_leader := row_leader r; row_name := row_name r; row_createdAt := row_createdAt r;
  row_totalUsdc := row_totalUsdc r; row_circulatingShares := row_circulatingShares r; row_hwmNav := row_hwmNav r;
  row_realizedPnl := row_realizedPnl r; row_leaderShares := row_leaderShares r;
  row_profitShareBps := row_profitShareBps r; row_paused := row_paused r; row_updatedAt := row_updatedAt r;
  row_aggregates := a |}.

(** The last row of an id wins in the map of the gateway's rows. *)
Definition apiById (rows : list VaultRow) (id : Z) : option VaultRow :=
  foldl (fun found r => if row_id r =? id then Some r else found) None rows.

(** The marketplace's rows: the chain's, with the gateway's aggregates. A
    gateway that fails gives no rows. *)
Definition marketplaceRows (now : Z) (f : FactoryViews) (api : Result (list VaultRow)) : Result (list VaultRow) :=
  onchain ← listAllVaultsOnChain f;
  let rows := match api with inr rows => rows | inl _ => [] end in
  Ok ((fun v =>
        let base := vaultRowFromOnChain now v in
        match apiById rows (row_id base) with
        | Some enrich => withAggregates base (row_aggregates enrich)
        | None => base
        end) <$> onchain).

(** The detail page: the gateway's row, or the chain's marked degraded. *)
Definition vaultDetail (now : Z) (f : FactoryViews) (id : Z) (api : Result (option VaultRow)) : option (VaultRow * bool) :=
  match api with
  | inr (Some row) => Some (row, false)
  | _ => (fun v => (vaultRowFromOnChain now v, true)) <$> getVaultInfo f id
  end.

(** ** NAV and the leader's share (types/vault.ts, VaultActions.tsx) *)

Definition VAULT_PRECISION : Z := 10000000.

(** The texts of a row are decimal; [BigInt] of any other throws. *)
Definition vaultNav (totalUsdc circulatingShares : Z) : Z :=
  if circulatingShares =? 0 then VAULT_PRECISION else (totalUsdc * VAULT_PRECISION) ÷ circulatingShares.

Definition leaderProfitOwed (totalUsdc shares hwm profitShareBps : Z) : Z :=
  if shares <=? 0 then 0
  else
    let nav := vaultNav totalUsdc shares in
    if nav <=? hwm then 0
    else (((nav - hwm) * shares) ÷ VAULT_PRECISION * profitShareBps) ÷ 10000.

(** The contract's own (math.rs), on 128-bit integers: [None] when a product
    overflows or the NAV cannot be computed. *)
Definition fits128 (z : Z) : option Z := if (- 2 ^ 127 <=? z) && (z <? 2 ^ 127) then Some z else None.

Definition nav_per_share (total_usdc circulating_shares : Z) : option Z :=
  if circulating_shares <=? 0 then Some VAULT_PRECISION
  else if total_usdc <? 0 then None
  else (fun scaled => scaled ÷ circulating_shares) <$> fits128 (total_usdc * VAULT_PRECISION).

Definition leader_profit_owed (total_usdc circulating_shares hwm_nav profit_share_bps : Z) : option Z :=
  if circulating_shares <=? 0 then Some 0
  else
    current ← nav_per_share total_usdc circulating_shares;
    if current <=? hwm_nav then Some 0
    else
      scaled ← fits128 ((current - hwm_nav) * circulating_shares);
      shared ← fits128 (scaled ÷ VAULT_PRECISION * profit_share_bps);
      Some (shared ÷ 10000).

(** ** Lemmas *)

Lemma flow_bind_fst {A B} (m : Flow A) (k : A -> Flow B) b :
  (m ≫= k).1 = inr b -> exists a, m.1 = inr a /\ (k a).1 = inr b.
Proof. destruct m as [[e|a] es]; [done|]. cbn. destruct (k a) as [r es'] eqn:Hk. cbn. intros ->. exists a. by rewrite Hk. Qed.

(** An event of a sequence belongs to its first part, or to the second after
    the first ended well. *)
Lemma elem_of_flow_bind {A B} (m : Flow A) (k : A -> Flow B) e :
  e ∈ (m ≫= k).2 <-> e ∈ m.2 \/ exists a, m.1 = inr a /\ e ∈ (k a).2.
Proof.
  destruct m as [[x|a] es]; cbn.
  - split; [by left | intros [?|(a & ? & _)]; done].
  - destruct (k a) as [r es'] eqn:Hk. cbn. rewrite elem_of_app. split.
    + intros [?|?]; [by left|]. right. exists a. by rewrite Hk.
    + intros [?|(a' & [= <-] & ?)]; [by left|]. right. by rewrite Hk in *.
Qed.

Lemma elem_of_throws {A} e m : e ∈ (throws (A := A) m).2 <-> False.
Proof. split; [by intros ?%elem_of_nil | done]. Qed.

Lemma elem_of_mret {A} (a : A) (e : VaultEvent) : e ∈ (mret (M := Flow) a).2 <-> False.
Proof. split; [by intros ?%elem_of_nil | done]. Qed.

Lemma elem_of_orThrow {A} (r : Result A) e : e ∈ (orThrow r).2 <-> False.
Proof. split; [|done]. destruct r; by intros ?%elem_of_nil. Qed.

Lemma elem_of_orFail {A} (r : TradeError + A) e : e ∈ (orFail r).2 <-> False.
Proof. split; [by intros ?%elem_of_nil | done]. Qed.

Lemma elem_of_emit e e' : e ∈ (emit e').2 <-> e = e'.
Proof. apply list_elem_of_singleton. Qed.

Lemma orThrow_inr {A} (r : Result A) a : (orThrow r).1 = inr a -> r = Ok a.
Proof. by destruct r; cbn; [|intros [= ->]]. Qed.

(** Take the trace of a flow apart where an event of it is known. *)
Ltac in_flow :=
  repeat match goal with
  | H : _ ∈ (mbind _ _).2 |- _ => apply elem_of_flow_bind in H as [H|(? & ? & H)]
  | H : (mbind _ _).1 = inr _ |- _ => apply flow_bind_fst in H as (? & ? & H)
  | H : _ ∈ (throws _).2 |- _ => by apply elem_of_throws in H
  | H : _ ∈ (mret _).2 |- _ => by apply elem_of_mret in H
  | H : _ ∈ (orThrow _).2 |- _ => by apply elem_of_orThrow in H
  | H : _ ∈ (orFail _).2 |- _ => by apply elem_of_orFail in H
  | H : _ ∈ (emit _).2 |- _ => apply elem_of_emit in H
  | H : (orThrow _).1 = inr _ |- _ => apply orThrow_inr in H
  end.

Lemma minOut_bounds q : 0 <= q -> 0 <= minOut q <= q /\ 10000 * minOut q <= 9950 * q < 10000 * (minOut q + 1).
Proof.
  intros Hq. unfold minOut, BPS, LP_SLIPPAGE_BPS. rewrite Z.quot_div_nonneg by lia.
  pose proof (Z.mul_div_le (q * (10000 - 50)) 10000 ltac:(lia)).
  pose proof (Z.mul_succ_div_gt (q * (10000 - 50)) 10000 ltac:(lia)). lia.
Qed.

Section lemmas.
Context `{IntCodec} `{FeeBuilder} (toXDR : ContractCall -> Transaction -> string) (cfg : Contracts).

(** The wallet is shown the call that was given, and what it signed is sent. *)
Lemma asked_in_submit w c c' xdr :
  WalletAsked c' xdr ∈ (signAndSubmit toXDR cfg w c).2 ->
  c' = c /\ buildTransaction toXDR cfg (t_simulate w) c = Ok xdr.
Proof.
  unfold signAndSubmit. intros Hin. in_flow; try discriminate.
  by match goal with Hw : WalletAsked _ _ = _ |- _ => injection Hw as -> -> end.
Qed.

Lemma submitted_ok w c ledger :
  (signAndSubmit toXDR cfg w c).1 = inr ledger ->
  exists xdr signed, buildTransaction toXDR cfg (t_simulate w) c = Ok xdr /\ t_sign w xdr = inr signed /\
    submitTransaction None (t_rpc w signed) = inr ledger /\ WalletAsked c xdr ∈ (signAndSubmit toXDR cfg w c).2.
Proof.
  unfold signAndSubmit. intros Hok. in_flow. rename select (buildTransaction _ _ _ _ = _) into Hb.
  rename x into xdr. destruct (t_sign w xdr) as [e|s] eqn:Hs; [done|].
  match goal with Hx : (orFail (inr s)).1 = inr ?y |- _ => injection Hx as <- end.
  exists xdr, s. split_and!; [done|done|exact Hok|].
  apply elem_of_flow_bind. right. exists xdr. split; [by rewrite Hb|].
  apply elem_of_flow_bind. left. by apply elem_of_emit.
Qed.

Lemma not_quoted_asked c' xdr w probe : WalletAsked c' xdr ∈ (simulateCallResult cfg w probe).2 -> False.
Proof. unfold simulateCallResult. intros Hin. in_flow; [done|]. destruct (quoteAnswer w probe); in_flow. Qed.

Lemma quoted_value w probe q : (simulateCallResult cfg w probe).1 = inr q -> quoteAnswer w probe = QuoteValue q.
Proof.
  unfold simulateCallResult. intros Hq. in_flow. destruct (quoteAnswer w probe); try done. by injection Hq as ->.
Qed.
End lemmas.

(** ** What a depositor signs *)

(** The four moves of a depositor, in and out of a leader's vault or the pool. *)
Inductive LpMove := ToVault (vaultId amount : Z) | FromVault (vaultId shares : Z) | ToPool (amount : Z) | FromPool (noe : Z).

Section lp.
Context `{IntCodec} `{FeeBuilder} (toXDR : ContractCall -> Transaction -> string) (cfg : Contracts).

Definition discard {A} (m : Flow A) : Flow () := _ ← m; mret tt.

Definition runMove (who : string) (w : TxWorld) (m : LpMove) : Flow () :=
  match m with
  | ToVault v a => depositToVault toXDR cfg who w v a
  | FromVault v s => withdrawFromVault toXDR cfg who w v s
  | ToPool a => discard (deposit toXDR cfg who w a)
  | FromPool n => discard (withdraw toXDR cfg who w n)
  end.

(** The call a move makes with a minimum, as contract, method and arguments. *)
Definition moveCall (who : string) (m : LpMove) (minimum : Z) : option (string * string * list ScVal) :=
  match m with
  | ToVault v a => (fun f => (f, "deposit"%string, [ScAddress who; ScU32 v; ScI128 a; ScI128 minimum])) <$> VAULT_FACTORY cfg
  | FromVault v s => (fun f => (f, "withdraw"%string, [ScAddress who; ScU32 v; ScI128 s; ScI128 minimum])) <$> VAULT_FACTORY cfg
  | ToPool a => Some (VAULT cfg, "deposit"%string, [ScAddress who; ScI128 a; ScI128 minimum])
  | FromPool n => Some (VAULT cfg, "withdraw"%string, [ScAddress who; ScI128 n; ScI128 minimum])
  end.

Definition callOf (c : ContractCall) : string * string * list ScVal := (contractId c, method c, args c).

Lemma vaultMove_args factory who m v a o c :
  vaultMove factory who m v a o = Ok c ->
  source c = who /\ callOf c = (factory, m, [ScAddress who; ScU32 v; ScI128 a; ScI128 o]).
Proof. unfold vaultMove, callTo, callOf. intros Hc. crunch. done. Qed.

Lemma poolMove_args who m a o c :
  poolMove cfg who m a o = Ok c ->
  source c = who /\ callOf c = (VAULT cfg, m, [ScAddress who; ScI128 a; ScI128 o]).
Proof. unfold poolMove, callTo, callOf. intros Hc. crunch. done. Qed.

Lemma factoryAddress_inr f : (getVaultFactoryAddress cfg).1 = inr f -> VAULT_FACTORY cfg = Some f.
Proof.
  unfold getVaultFactoryAddress. destruct (VAULT_FACTORY cfg) as [a|]; [|done]. destruct (truthy a); [|done].
  by intros [= ->].
Qed.

Lemma factoryAddress_silent e : e ∈ (getVaultFactoryAddress cfg).2 -> False.
Proof.
  unfold getVaultFactoryAddress. destruct (VAULT_FACTORY cfg) as [a|]; [destruct (truthy a)|]; intros ?; in_flow.
Qed.

Lemma returned_silent w m e : e ∈ (returned w m).2 -> False.
Proof. unfold returned. destruct (returnValue w) as [[|]|]; intros ?; in_flow. Qed.

(** What a quoted call is asked for, whatever the call. *)
Lemma quoted_asked {A} (mk : Z -> Result ContractCall) (rest : Flow A) w c xdr :
  (forall e, e ∈ rest.2 -> False) ->
  WalletAsked c xdr ∈ (probe ← orThrow (mk 0); q ← simulateCallResult cfg w probe;
                       call ← orThrow (mk (minOut q)); _ ← signAndSubmit toXDR cfg w call; rest).2 ->
  exists probe q, mk 0 = Ok probe /\ quoteAnswer w probe = QuoteValue q /\ mk (minOut q) = Ok c /\
    buildTransaction toXDR cfg (t_simulate w) c = Ok xdr.
Proof.
  intros Hrest Hin. in_flow.
  - by apply not_quoted_asked in Hin.
  - apply asked_in_submit in Hin as [-> ?]. match goal with Hq : (simulateCallResult _ _ _).1 = inr _ |- _ =>
      apply quoted_value in Hq end. by eexists _, _.
  - by destruct (Hrest _ Hin).
Qed.

(** C25. Whatever a depositor is asked to sign, in or out of a vault or the
    pool, moves exactly the amount asked for and carries a minimum that was
    quoted: the same call with no minimum was simulated in that very flow and
    answered, and the minimum is that answer less half a percent, rounded
    down. So the chain refuses a fill below it, and never one the quote
    promised. *)
Theorem depositor_minimum_is_quoted who w m c xdr :
  WalletAsked c xdr ∈ (runMove who w m).2 ->
  source c = who /\
  exists probe q, source probe = who /\ moveCall who m 0 = Some (callOf probe) /\ quoteAnswer w probe = QuoteValue q /\
    moveCall who m (minOut q) = Some (callOf c) /\
    (0 <= q -> 0 <= minOut q <= q /\ 10000 * minOut q <= 9950 * q < 10000 * (minOut q + 1)).
Proof.
  assert (forall mk, (exists probe q, mk 0 = Ok probe /\ quoteAnswer w probe = QuoteValue q /\ mk (minOut q) = Ok c /\
            buildTransaction toXDR cfg (t_simulate w) c = Ok xdr) ->
          (forall o x, mk o = Ok x -> source x = who /\ moveCall who m o = Some (callOf x)) ->
          source c = who /\ exists probe q, source probe = who /\ moveCall who m 0 = Some (callOf probe) /\
            quoteAnswer w probe = QuoteValue q /\ moveCall who m (minOut q) = Some (callOf c) /\
            (0 <= q -> 0 <= minOut q <= q /\ 10000 * minOut q <= 9950 * q < 10000 * (minOut q + 1))) as Hmk.
  { intros mk (probe & q & Hp & Hq & Hc & _) Hargs. destruct (Hargs _ _ Hp), (Hargs _ _ Hc).
    split; [done|]. exists probe, q. split_and!; try done; by apply minOut_bounds. }
  destruct m as [v a|v a|a|a]; cbn [runMove]; unfold depositToVault, withdrawFromVault, quotedMove, deposit, withdraw,
    quotedPool, discard; intros Hin.
  3,4: apply elem_of_flow_bind in Hin as [Hin|(? & _ & Hin)]; [|in_flow].
  1,2: apply elem_of_flow_bind in Hin as [Hin|(f & Hf & Hin)]; [by apply factoryAddress_silent in Hin|];
    apply factoryAddress_inr in Hf.
  all: eapply Hmk; [eapply (quoted_asked _ _ w c xdr) in Hin;
    [exact Hin | intros e He; first [by apply returned_silent in He | by in_flow]] |].
  all: intros o x Hx; cbn [moveCall]; rewrite ?Hf; first [apply vaultMove_args in Hx as [? ->] | apply poolMove_args in Hx as [? ->]]; done.
Qed.

(** The approval of exactly [n] NOE for the pool. *)
Definition approvesExactly (who : string) (n : Z) (c : ContractCall) : Prop :=
  exists token expiry, NOE_TOKEN cfg = Some token /\ source c = who /\
    callOf c = (token, "approve"%string, [ScAddress who; ScAddress (VAULT cfg); ScI128 n; ScU32 expiry]).

Lemma approve_asked who w n c xdr :
  WalletAsked c xdr ∈ (approveNoeForWithdraw toXDR cfg who w n).2 -> approvesExactly who n c.
Proof.
  unfold approveNoeForWithdraw. destruct (NOE_TOKEN cfg) as [token|] eqn:Ht; intros Hin; in_flow.
  apply asked_in_submit in Hin as [-> _]. rename select (approveCall _ _ _ _ _ = _) into Hc.
  unfold approveCall, callTo in Hc. crunch. eexists token, _. by split_and!.
Qed.

(** An approval that went through was signed and applied. *)
Lemma approve_applied who w n u :
  (approveNoeForWithdraw toXDR cfg who w n).1 = inr u ->
  exists c xdr signed ledger, approvesExactly who n c /\ t_sign w xdr = inr signed /\
    submitTransaction None (t_rpc w signed) = inr ledger /\
    WalletAsked c xdr ∈ (approveNoeForWithdraw toXDR cfg who w n).2.
Proof.
  intros Hok. pose proof Hok as Hok'. unfold approveNoeForWithdraw in Hok'.
  destruct (NOE_TOKEN cfg) as [token|] eqn:Ht; [|done]. in_flow.
  rename select (latestLedger w = _) into Hl. rename select (approveCall _ _ _ _ _ = _) into Hc.
  match goal with Hx : (signAndSubmit _ _ _ _).1 = inr _ |- _ =>
    apply submitted_ok in Hx as (xdr & signed & _ & Hsg & Hr & Hask) end.
  eexists _, xdr, signed, _. assert (WalletAsked x0 xdr ∈ (approveNoeForWithdraw toXDR cfg who w n).2) as Hin.
  { unfold approveNoeForWithdraw. rewrite Ht. apply elem_of_flow_bind. right. exists x. split; [by rewrite Hl|].
    apply elem_of_flow_bind. right. exists x0. split; [by rewrite Hc|]. apply elem_of_flow_bind. left. exact Hask. }
  split_and!; [exact (approve_asked _ _ _ _ _ Hin) | exact Hsg | exact Hr | exact Hin].
Qed.

(** Leaving the pool takes two signatures in that order: the wallet is
    asked for nothing but the approval of exactly the amount for the pool, and
    the withdrawal of exactly that amount; and for the withdrawal only after
    the approval was signed, submitted and applied, the second phase shown in
    between. *)
Theorem withdrawal_follows_approval who w1 w2 n c xdr :
  WalletAsked c xdr ∈ (approveAndWithdraw toXDR cfg who w1 w2 n).2 ->
  approvesExactly who n c \/
  (source c = who /\
   exists minimum es1 es2 approved xdr1 signed ledger,
     callOf c = (VAULT cfg, "withdraw"%string, [ScAddress who; ScI128 n; ScI128 minimum]) /\
     (approveAndWithdraw toXDR cfg who w1 w2 n).2 = es1 ++ PhaseShown 2 :: es2 /\
     WalletAsked approved xdr1 ∈ es1 /\ WalletAsked c xdr ∈ es2 /\
     approvesExactly who n approved /\ t_sign w1 xdr1 = inr signed /\
     submitTransaction None (t_rpc w1 signed) = inr ledger).
Proof.
  unfold approveAndWithdraw. cbn [mbind Flow_bind emit].
  destruct (approveNoeForWithdraw toXDR cfg who w1 n) as [[e|u] es1] eqn:Happ; cbn.
  - intros [?|Hin]%elem_of_cons; [done|]. left. apply (approve_asked who w1 n c xdr). by rewrite Happ.
  - destruct (withdraw toXDR cfg who w2 n) as [r es2] eqn:Hw; cbn.
    intros [?|[Hin|[?|Hin]%elem_of_cons]%elem_of_app]%elem_of_cons; try done.
    { left. apply (approve_asked who w1 n c xdr). by rewrite Happ. }
    right. destruct (approve_applied who w1 n u) as (a & xdr1 & signed & ledger & Ha & Hs & Hr & Hask); [by rewrite Happ|].
    rewrite Happ in Hask. cbn in Hask.
    assert (WalletAsked c xdr ∈ (withdraw toXDR cfg who w2 n).2) as Hin' by (by rewrite Hw).
    unfold withdraw, quotedPool in Hin'.
    apply (quoted_asked _ _ w2 c xdr (fun e => returned_silent w2 "Failed to withdraw" e)) in Hin' as (probe & q & _ & _ & Hc & _).
    apply poolMove_args in Hc as [Hsrc Hc]. split; [done|].
    exists (minOut q), (PhaseShown 1 :: es1), es2, a, xdr1, signed, ledger. split_and!; try done; by right.
Qed.

End lp.

(** ** The signer *)

(** What is returned as signed was signed by the source, as far as the wallet
    tells, and no other account was active before. *)
Lemma signed_by_source who k xdr signed :
  signWithWallet who k xdr = inr signed ->
  exists signer, signTransaction k xdr = inr (signed, signer) /\ differs who signer = None /\
    (forall a, getAddress k = Some (inr a) -> differs who a = None).
Proof.
  unfold signWithWallet, addressCheck. intros Hs.
  assert (match signTransaction k xdr with
          | inl e => inl (signingError e)
          | inr (signed, signer) =>
              match differs who signer with
              | Some s => inl (signingError (ThrownMessage (otherSignerText who s)))
              | None => inr signed
              end
          end = inr signed /\ (forall a, getAddress k = Some (inr a) -> differs who a = None)) as [Hs' Ha].
  { destruct (getAddress k) as [[e|a]|]; [| |by split].
    - destruct e as [|m| |]; try (by split). destruct (startsWith _ m); [done | by split].
    - destruct (differs who a) eqn:Hd; [done|]. split; [done|]. by intros ? [= <-]. }
  destruct (signTransaction k xdr) as [e|[s signer]]; [done|]. destruct (differs who signer) eqn:Hd; [done|].
  injection Hs' as ->. by exists signer.
Qed.

(** ** The marketplace *)

(** The marketplace shows every vault of the chain that can be read, in
    the order of their ids, with the chain's own numbers: whatever the gateway
    answers, or that it fails, only adds aggregates to a row, and neither adds
    nor hides nor changes one. *)
Theorem marketplace_is_the_chain now f api rows :
  marketplaceRows now f api = Ok rows ->
  exists count, getVaultCount f = Ok count /\
    (fun r => withAggregates r noAggregates) <$> rows
    = vaultRowFromOnChain now <$> omap (getVaultInfo f) (Z.of_nat <$> seq 0 (Z.to_nat count)).
Proof.
  unfold marketplaceRows, listAllVaultsOnChain. intros Hr. destruct (getVaultCount f) as [|count]; [done|].
  exists count. split; [done|]. cbn in Hr.
  assert (omap (fun i => getVaultInfo f (Z.of_nat i)) (seq 0 (Z.to_nat count))
          = omap (getVaultInfo f) (Z.of_nat <$> seq 0 (Z.to_nat count))) as Hl.
  { clear Hr. induction (seq 0 (Z.to_nat count)) as [|i l IH]; [done|]. cbn. rewrite IH. done. }
  rewrite <- Hl. destruct (count =? 0) eqn:Hc; unfold Ok in Hr; cbn [mbind Result_bind] in Hr; injection Hr as <-.
  { apply Z.eqb_eq in Hc as ->. done. }
  rewrite <- list_fmap_compose. apply list_fmap_ext. intros i v _. cbn.
  by destruct (apiById _ _).
Qed.

(** ** The leader's share *)

Lemma fits128_Some z v : fits128 z = Some v -> v = z.
Proof. unfold fits128. destruct (_ && _); by intros [= ->]. Qed.

(** The profit share the vault page shows is the contract's computation,
    to the last unit and whatever the numbers, on the vault's liquid USDC:
    where the contract pays on that NAV without overflow it pays what was
    shown. *)
Theorem shown_share_is_computed_alike total shares hwm bps owed :
  leader_profit_owed total shares hwm bps = Some owed -> leaderProfitOwed total shares hwm bps = owed.
Proof.
  unfold leader_profit_owed, leaderProfitOwed, nav_per_share, vaultNav.
  destruct (Z.leb_spec shares 0); [by intros [= <-]|].
  rewrite (proj2 (Z.eqb_neq shares 0)) by lia.
  destruct (total <? 0); [done|]. destruct (fits128 (total * _)) as [x|] eqn:Hx; [|done].
  apply fits128_Some in Hx as ->. cbn.
  destruct (_ <=? hwm); [by intros [= <-]|].
  destruct (fits128 _) as [y|] eqn:Hy; [|done]. apply fits128_Some in Hy as ->. cbn.
  destruct (fits128 _) as [z|] eqn:Hz; [|done]. apply fits128_Some in Hz as ->. cbn. by intros [= <-].
Qed.

(** ** Concrete flows *)

Definition quoteThousand : TxWorld := {|
  quoteAnswer := fun _ => QuoteValue 1000; t_simulate := fun _ => Assembled simulatedOpen;
  t_sign := fun x => inr x; t_rpc := fun _ => secondTime 1; returnValue := Some (inr (NBig 995));
  latestLedger := Ok 100 |}.

Lemma depositor_minimum_is_quoted_witness :
  exists c xdr, WalletAsked c xdr ∈ (@runMove sdkCodec sdkFees showCall testnet "GA" quoteThousand (FromVault 3 70)).2 /\
    args c = [ScAddress "GA"; ScU32 3; ScI128 70; ScI128 995] /\ source c = "GA"%string.
Proof.
  eexists _, "withdraw"%string.
  assert (WalletAsked {| source := "GA"; contractId := "CF"; method := "withdraw";
      args := [ScAddress "GA"; ScU32 3; ScI128 70; ScI128 995]; hints := unhinted |} "withdraw"
    ∈ (@runMove sdkCodec sdkFees showCall testnet "GA" quoteThousand (FromVault 3 70)).2) as Hin
    by (apply (list_elem_of_lookup_2 _ 1); vm_compute; reflexivity).
  split; [exact Hin|]. split; [reflexivity|].
  apply (@depositor_minimum_is_quoted sdkCodec sdkFees showCall testnet "GA" quoteThousand (FromVault 3 70) _ _ Hin).
Defined.

Lemma withdrawal_follows_approval_witness :
  let es := (@approveAndWithdraw sdkCodec sdkFees showCall testnet "GA" quoteThousand quoteThousand 70).2 in
  exists c, WalletAsked c "withdraw" ∈ es /\
    exists approved xdr1, WalletAsked approved xdr1 ∈ es /\ approvesExactly testnet "GA" 70 approved.
Proof.
  intros es. exists {| source := "GA"; contractId := "CV"; method := "withdraw";
    args := [ScAddress "GA"; ScI128 70; ScI128 995]; hints := unhinted |}.
  assert (WalletAsked {| source := "GA"; contractId := "CV"; method := "withdraw";
    args := [ScAddress "GA"; ScI128 70; ScI128 995]; hints := unhinted |} "withdraw" ∈ es) as Hin
    by (apply (list_elem_of_lookup_2 _ 5); vm_compute; reflexivity).
  split; [exact Hin|].
  destruct (@withdrawal_follows_approval sdkCodec sdkFees showCall testnet "GA" quoteThousand quoteThousand 70 _ _ Hin)
    as [(token & expiry & _ & _ & Hc) | (_ & m & es1 & es2 & approved & xdr1 & sg & l & _ & Hes & Ha & _ & Hx & _)].
  - discriminate Hc.
  - exists approved, xdr1. split; [|exact Hx]. unfold es. rewrite Hes. apply elem_of_app. by left.
Defined.

Definition oneVault : FactoryViews := {|
  vault_count := ViewValue 2;
  view_vault := fun i => if i =? 0 then ViewRefused "Error(Contract, #5)" else ViewValue
    {| r_id := Some 1; r_leader := "GL"; r_name := "alpha"; r_created_at := Some 1700000000;
       r_total_usdc := Some 15000000000; r_circulating_shares := Some 10000000000; r_hwm_nav := Some 10000000;
       r_realized_pnl := Some 0; r_leader_shares := Some 5000000000; r_profit_share_bps := Some 1000; r_paused := false |};
  get_full_nav := fun _ => ViewRefused "HostError: Error(Contract, #18)"; shares_of := fun _ _ => ViewNothing |}.

Lemma marketplace_is_the_chain_witness :
  exists rows, marketplaceRows 7 oneVault (Err "gateway down") = Ok rows /\
    (row_totalUsdc <$> rows) = ["15000000000"]%string /\
    exists count, getVaultCount oneVault = Ok count /\ count = 2.
Proof.
  eexists. split; [vm_compute; reflexivity|]. split; [reflexivity|].
  destruct (marketplace_is_the_chain 7 oneVault (Err "gateway down") _ ltac:(vm_compute; reflexivity)) as (count & Hc & _).
  exists count. split; [exact Hc|]. vm_compute in Hc. by injection Hc as <-.
Defined.

Lemma shown_share_is_computed_alike_witness :
  leaderProfitOwed 15000000000 10000000000 10000000 1000 = 500000000.
Proof. apply (shown_share_is_computed_alike 15000000000 10000000000 10000000 1000). vm_compute. reflexivity. Defined.

(** The contract measures profit on the full NAV: with gains still in open
    positions it owes what the page does not show. *)
Example shown_share_misses_open_gains :
  let liquid := 9000000000 in let full := 15000000000 in
  leaderProfitOwed liquid 10000000000 10000000 1000 = 0 /\
  leader_profit_owed full 10000000000 10000000 1000 = Some 500000000.
Proof. vm_compute. split; reflexivity. Qed.

(** ** What a failed withdrawal shows (app/vault/page.tsx) *)

Definition withdrawErrorText (phase : nat) (e : TradeError) : string :=
  let detail := decodeContractError (ThrownMessage (errorMessage e)) atVault in
  if (phase =? 2)%nat
  then trim ("Withdraw failed after the NOE approval — no USDC left the pool. " +:+ detail)
  else if truthy detail then detail else "NOE approval failed — nothing was withdrawn".

(** A withdrawal that is still confirming when the wait ends, and is applied
    after it. *)
Definition lateWorld : TxWorld := {|
  quoteAnswer := fun _ => QuoteValue 1000; t_simulate := fun _ => Assembled simulatedOpen;
  t_sign := fun x => inr x;
  t_rpc := fun _ => {| send := Ok {| s_status := SPending; s_hash := "deadbeef01"; s_events := None; s_result := None |};
                       get := fun i => Ok (if (i <? 31)%nat then GetNotFound else GetSuccess 9); clock := fun _ => 0 |};
  returnValue := None; latestLedger := Ok 100 |}.

Example pending_withdrawal_reads_failed :
  let run := @approveAndWithdraw sdkCodec sdkFees showCall testnet "GA" quoteThousand lateWorld 70 in
  run.1 = inl (TxStillPending "deadbeef01") /\ SentSigned "withdraw" ∈ run.2 /\
  get (t_rpc lateWorld "withdraw") 31 = Ok (GetSuccess 9) /\
  startsWith "Withdraw failed after the NOE approval — no USDC left the pool."
    (withdrawErrorText 2 (TxStillPending "deadbeef01")) = true.
Proof.
  split; [vm_compute; reflexivity|]. split; [apply (list_elem_of_lookup_2 _ 6); vm_compute; reflexivity|].
  split; vm_compute; reflexivity.
Qed.
