(* ===== verification/WebVaultPages.v ===== *)
(** * The vault and referral screens

    Models web/components/vault/DepositWithdrawModal.tsx (amounts as text, the
    gates of a deposit or withdrawal, the capital a leader has deployed), the
    claim gate of web/lib/stellar/referral.ts with ClaimFeesCard.tsx as a
    machine over overlapping mounts, probes and clicks, and the code forms of
    CreateCodeCard.tsx and BindCodeCard.tsx. What they send is [WebVaults]. *)

From Stdlib Require Import DecimalPos DecimalFacts.
From S2P Require Import Prelude JsText IndexerEvents TxSubmission KeeperEffects ApiBoard WebErrors ApiOrders ContractCalls WebTrades.
From S2P Require Import WebHistory WebVaults.
Open Scope Z_scope.
Open Scope js_scope.

(** ** Amounts as text (DepositWithdrawModal.tsx) *)

(** [BigInt] of a run of digits. *)
Definition valueOf (s : string) : Z := foldl addDigit 0 (String.list_ascii_of_string s).

Definition padEnd0 (n : nat) (s : string) : string := s +:+ zeros (n - String.length s).

(** [/^(\d+)(?:\.(\d+))?$/], and the seven decimals that count. *)
Definition parseAmount (input : string) : option Z :=
  let (whole, rest) := span isDigit input in
  if negb (truthy whole) then None
  else
    match rest with
    | EmptyString => Some (valueOf whole * VAULT_PRECISION + valueOf (padEnd0 7 EmptyString))
    | String c after =>
        if Ascii.eqb c "."%char then
          let (frac, tail) := span isDigit after in
          if truthy frac && negb (truthy tail)
          then Some (valueOf whole * VAULT_PRECISION + valueOf (padEnd0 7 (String.substring 0 7 frac)))
          else None
        else None
    end.

Definition isZero (c : ascii) : bool := Ascii.eqb c "0"%char.

(** One or more zeros and the end. *)
Definition onlyZeros (s : string) : bool := truthy s && forallb isZero (String.list_ascii_of_string s).

Definition zerosTail (s : string) : bool :=
  match s with String c s' => onlyZeros s || (Ascii.eqb c "."%char && onlyZeros s') | EmptyString => false end.

(** [replace(/\.?0+$/, '')]: from the first place the tail matches. *)
Fixpoint cutZeros (s : string) : string :=
  match s with
  | EmptyString => EmptyString
  | String c s' => if zerosTail s then EmptyString else String c (cutZeros s')
  end.

Definition fmtInputAmount (raw : Z) : string :=
  cutZeros (decimalOfZ (raw ÷ VAULT_PRECISION) +:+ "." +:+ padStart0 7 (decimalOfZ (Z.rem raw VAULT_PRECISION))).

(** ** The modal *)

Record VaultModal := {
  mode : VaultMode; amount : string; usdcBalance : option Z; userShares : option Z;
  address : option string; walletId : option string; vaultId : Z }.

Inductive ModalRefusal := EnterAmount | ConnectWallet | ExceedsBalance.

Definition maxRaw (m : VaultModal) : option Z :=
  match mode m with depositMode => usdcBalance m | withdrawMode => userShares m end.

Definition given_ (o : option string) : option string := match o with Some s => if truthy s then Some s else None | None => None end.

(** submit, up to the flow it starts: who asks for which move. *)
Definition submit (m : VaultModal) : ModalRefusal + (string * LpMove) :=
  match parseAmount (amount m) with
  | None => inl EnterAmount
  | Some parsed =>
      if parsed <=? 0 then inl EnterAmount
      else
        match given_ (address m), given_ (walletId m) with
        | Some who, Some _ =>
            if match maxRaw m with Some b => b <? parsed | None => false end then inl ExceedsBalance
            else inr (who, match mode m with
                           | depositMode => ToVault (vaultId m) parsed
                           | withdrawMode => FromVault (vaultId m) parsed
                           end)
        | _, _ => inl ConnectWallet
        end
  end.

(** setMax: nothing for an unknown or empty balance. *)
Definition setMax (m : VaultModal) : VaultModal :=
  match maxRaw m with
  | None | Some 0 => m
  | Some b => {| mode := mode m; amount := fmtInputAmount b; usdcBalance := usdcBalance m; userShares := userShares m;
                 address := address m; walletId := walletId m; vaultId := vaultId m |}
  end.

(** The preview of a move, on the liquid numbers of the row. *)
Definition previewOut (m : VaultMode) (totalUsdc circulating parsed : Z) : Z :=
  match m with
  | depositMode =>
      if (circulating =? 0) || (totalUsdc =? 0) then parsed else (parsed * circulating) ÷ totalUsdc
  | withdrawMode => (parsed * vaultNav totalUsdc circulating) ÷ VAULT_PRECISION
  end.

(** ** The leader's deployed capital *)

Record TradeRow := { tr_open : bool; tr_positionId : string; tr_collateral : string }.

(** [opens.set(id, coll)] keeps the place of an id it has. *)
Fixpoint setOpen (id : string) (coll : Z) (opens : list (string * Z)) : list (string * Z) :=
  match opens with
  | [] => [(id, coll)]
  | (id', c) :: opens => if String.eqb id' id then (id', coll) :: opens else (id', c) :: setOpen id coll opens
  end.

Definition readTrade (st : list (string * Z) * list string) (t : TradeRow) : list (string * Z) * list string :=
  if tr_open t
  then (setOpen (tr_positionId t) (match bigIntOf (tr_collateral t) with inr z => z | inl _ => 0 end) st.1, st.2)
  else (st.1, tr_positionId t :: st.2).

(** The open positions and their collateral. *)
Definition deployedCapital (trades : list TradeRow) : Z * Z :=
  let (opens, closed) := foldl readTrade ([], []) trades in
  let left := bfilter (fun o : string * Z => negb (existsb (String.eqb o.1) closed)) opens in
  (Z.of_nat (length left), foldr Z.add 0 (snd <$> left)).

(** The larger of the trades' count and the gateway's. *)
Definition openPositionCount (deployed : option (Z * Z)) (api : option Z) : Z :=
  Z.max (match deployed with Some d => d.1 | None => 0 end) (default 0 api).

(** ** The code forms *)

Definition codeChar (c : ascii) : bool :=
  isDigit c || isLower c || isUpper c || Ascii.eqb c "_"%char || Ascii.eqb c "-"%char.

Definition MIN : nat := 3.
Definition MAX : nat := 16.

Inductive CodeRefusal := NoWallet | TooShort | TooLong | BadCharacters | Taken.

(** The view's answer as lookupCode reads it: [None] when it throws. *)
Inductive CodeAvailability := taken | free | unknown.

Definition lookupCode (v : Result Native) : CodeAvailability :=
  match v with inl _ => unknown | inr (NStr _) => taken | inr _ => free end.

(** submit of CreateCodeCard: the code to register. *)
Definition createCodeForm (wallet : bool) (code : string) (v : Result Native) : CodeRefusal + string :=
  let trimmed := trim code in
  if negb wallet then inl NoWallet
  else if (String.length trimmed <? MIN)%nat then inl TooShort
  else if (MAX <? String.length trimmed)%nat then inl TooLong
  else if negb (forallb codeChar (String.list_ascii_of_string trimmed)) then inl BadCharacters
  else match lookupCode v with taken => inl Taken | _ => inr trimmed end.

(** submit of BindCodeCard; [/^[A-Za-z0-9_-]{3,16}$/] *)
Definition bindCodeForm (wallet : bool) (code : string) : CodeRefusal + string :=
  let trimmed := trim code in
  if negb wallet then inl NoWallet
  else if forallb codeChar (String.list_ascii_of_string trimmed) && (MIN <=? String.length trimmed)%nat
          && (String.length trimmed <=? MAX)%nat then inr trimmed
  else inl BadCharacters.

(** ** The claim gate (referral.ts, ClaimFeesCard.tsx) *)

(** Probes are numbered as they start. A settled probe has its answer; the
    memo holds one of them. A card waits for the probe of its mount. *)
Record Gate := {
  probes_ : list (option bool); memo : option nat;
  cards : list (nat * bool) }.   (** the probe it waits for, and claimsEnabled *)

Inductive GateStep :=
| Mount
| ProbeEnds (k : nat) (answer : Result (option Native))
| Click (card : nat) (publicKey : option string) (claimable : Z) (isClaiming : bool).

Definition freshGate : Gate := {| probes_ := []; memo := None; cards := [] |}.

(** [String(version) === 'referral_v1'], where a failed simulation is null and
    a throw is caught. *)
Definition claimsOpen (answer : Result (option Native)) : bool :=
  match answer with
  | inl _ => false
  | inr v => String.eqb (match v with Some n => jsText n | None => "null" end) "referral_v1"
  end.

Section gate.
Context (configured : bool).

(** referralClaimsEnabled: the memo's probe, or a new one, which is settled at
    once without an address. *)
Definition ask (g : Gate) : nat * Gate :=
  match memo g with
  | Some k => (k, g)
  | None =>
      let k := length (probes_ g) in
      (k, {| probes_ := probes_ g ++ [if configured then None else Some false]; memo := Some k; cards := cards g |})
  end.

(** A card shows a settled answer from its mount on. *)
Definition mount (g : Gate) : Gate :=
  let (k, g) := ask g in
  {| probes_ := probes_ g; memo := memo g;
     cards := cards g ++ [(k, match probes_ g !! k with Some (Some b) => b | _ => false end)] |}.

Definition probeEnds (k : nat) (answer : Result (option Native)) (g : Gate) : Gate :=
  match probes_ g !! k with
  | Some None =>
      let enabled := claimsOpen answer in
      {| probes_ := <[k := Some enabled]> (probes_ g); memo := if enabled then memo g else None;
         cards := (fun c : nat * bool => if (c.1 =? k)%nat then (k, enabled) else c) <$> cards g |}
  | _ => g
  end.

(** handleClaim behind the button: the wallet the claim is started for. *)
Definition click (card : nat) (publicKey : option string) (claimable : Z) (isClaiming : bool) (g : Gate) : option string :=
  match cards g !! card with
  | Some (_, true) => if (0 <? claimable) && negb isClaiming then given_ publicKey else None
  | _ => None
  end.

Definition gateStep (g : Gate) (s : GateStep) : Gate * option string :=
  match s with
  | Mount => (mount g, None)
  | ProbeEnds k a => (probeEnds k a g, None)
  | Click c pk z b => (g, click c pk z b g)
  end.

(** The claims started, in order. *)
Fixpoint gateRun (g : Gate) (ss : list GateStep) : Gate * list string :=
  match ss with
  | [] => (g, [])
  | s :: ss =>
      let (g', o) := gateStep g s in
      let (g'', os) := gateRun g' ss in
      (g'', match o with Some who => who :: os | None => os end)
  end.
End gate.

(** ** Lemmas: the gate *)

Definition v1Probe (ss : list GateStep) : Prop :=
  exists k v, ProbeEnds k (Ok (Some v)) ∈ ss /\ jsText v = "referral_v1"%string.

(** What a run keeps: a card is open only over a settled probe that found the
    funded registry, and a remembered probe is running or found it. *)
Record GateInv (configured : bool) (ss : list GateStep) (g : Gate) : Prop := {
  inv_cards : forall c k, cards g !! c = Some (k, true) -> probes_ g !! k = Some (Some true);
  inv_probes : forall k, probes_ g !! k = Some (Some true) -> configured = true /\ v1Probe ss;
  inv_running : forall k, probes_ g !! k = Some None -> configured = true;
  inv_memo : configured = true -> forall k, memo g = Some k ->
    probes_ g !! k = Some None \/ probes_ g !! k = Some (Some true) }.

Lemma claimsOpen_v1 a : claimsOpen a = true -> exists v, a = Ok (Some v) /\ jsText v = "referral_v1"%string.
Proof. destruct a as [e|[v|]]; cbn; try done. intros Hv%String.eqb_eq. by exists v. Qed.

Lemma v1Probe_later ss s : v1Probe ss -> v1Probe (ss ++ [s]).
Proof. intros (k & v & Hin & Hv). exists k, v. split; [apply elem_of_app; by left | done]. Qed.

Lemma GateInv_later configured ss s g : GateInv configured ss g -> GateInv configured (ss ++ [s]) g.
Proof. intros [Hc Hp Hr Hm]. split; auto. intros k Hk. destruct (Hp k Hk). auto using v1Probe_later. Qed.

Lemma gate_ask_inv configured ss g k g' :
  GateInv configured ss g -> ask configured g = (k, g') -> GateInv configured ss g' /\ memo g' = Some k /\ cards g' = cards g.
Proof.
  intros Hg. pose proof Hg as [Hc Hp Hr Hm]. unfold ask.
  destruct (memo g) as [k0|] eqn:Hk0; intros [= <- <-]; [by split_and!|].
  cbn. split_and!; [|done|done]. split; cbn [cards probes_ memo].
  - intros c k Hck. pose proof (Hc _ _ Hck) as Hp'. rewrite lookup_app_l; [done|]. by apply lookup_lt_Some in Hp'.
  - intros k [?|[_ Hk]]%lookup_app_Some; [by eapply Hp|]. apply list_lookup_singleton_Some in Hk as [_ Hk]. by destruct configured.
  - intros k [?|[_ Hk]]%lookup_app_Some; [by eapply Hr|]. apply list_lookup_singleton_Some in Hk as [_ Hk]. by destruct configured.
  - intros -> k [= <-]. left. by apply list_lookup_middle.
Qed.

Lemma mount_inv configured ss g : GateInv configured ss g -> GateInv configured ss (mount configured g).
Proof.
  intros Hg. unfold mount. destruct (ask configured g) as [k g'] eqn:Ha.
  destruct (gate_ask_inv _ _ _ _ _ Hg Ha) as ([Hc Hp Hr Hm] & _ & _). split; cbn [cards probes_ memo]; auto.
  intros c k' [?|[_ Hk]]%lookup_app_Some; [by eapply Hc|].
  apply list_lookup_singleton_Some in Hk as [_ [= <- Hb]]. by destruct (probes_ g' !! k) as [[[]|]|].
Qed.

Lemma probeEnds_inv configured ss g k a :
  GateInv configured ss g -> GateInv configured (ss ++ [ProbeEnds k a]) (probeEnds k a g).
Proof.
  intros Hg. unfold probeEnds. destruct (probes_ g !! k) as [[b|]|] eqn:Hk; [by apply GateInv_later| |by apply GateInv_later].
  destruct Hg as [Hc Hp Hr Hm]. pose proof (lookup_lt_Some _ _ _ Hk) as Hlt. split; cbn [cards probes_ memo].
  - intros c k' Hck. apply list_lookup_fmap_Some in Hck as ([k0 b0] & Heq & Hck). cbn in Heq.
    destruct (Nat.eqb_spec k0 k) as [->|Hne].
    + injection Heq as -> Hb. rewrite list_lookup_insert_eq by done. by rewrite <- Hb.
    + injection Heq as ? ?; subst. rewrite list_lookup_insert_ne by done. by eapply Hc.
  - intros k' Hk'. destruct (decide (k = k')) as [<-|Hne].
    + rewrite list_lookup_insert_eq in Hk' by done. injection Hk' as Ho. split; [by eapply Hr|].
      apply claimsOpen_v1 in Ho as (v & -> & Hv). exists k, v. split; [|done]. apply elem_of_app. right. by apply list_elem_of_singleton.
    + rewrite list_lookup_insert_ne in Hk' by done. destruct (Hp k' Hk'). auto using v1Probe_later.
  - intros k' Hk'. destruct (decide (k = k')) as [<-|Hne]; [by rewrite list_lookup_insert_eq in Hk'|].
    rewrite list_lookup_insert_ne in Hk' by done. by eapply Hr.
  - intros Hconf k' Hk'. destruct (claimsOpen a) eqn:Ho; [|done].
    destruct (decide (k = k')) as [<-|Hne]; [right; by rewrite list_lookup_insert_eq|].
    rewrite list_lookup_insert_ne by done. by apply Hm.
Qed.

Lemma gateRun_snoc configured g ss s :
  (gateRun configured g (ss ++ [s])).1 = (gateStep configured (gateRun configured g ss).1 s).1.
Proof.
  revert g. induction ss as [|t ss IH]; intros g; cbn.
  - by destruct (gateStep configured g s).
  - destruct (gateStep configured g t) as [g' o]. specialize (IH g').
    destruct (gateRun configured g' (ss ++ [s])), (gateRun configured g' ss). exact IH.
Qed.

Lemma gateRun_inv configured ss : GateInv configured ss (gateRun configured freshGate ss).1.
Proof.
  induction ss as [|s ss IH] using rev_ind; [by split; cbn; intros; rewrite ?lookup_nil in *|].
  rewrite gateRun_snoc. destruct s as [|k a|c pk z b]; cbn [gateStep fst].
  - by apply mount_inv, GateInv_later.
  - by apply probeEnds_inv.
  - by apply GateInv_later.
Qed.

(** However mounts, probes and clicks overlap, a claim of referral fees
    is started only for a connected wallet with something to claim, on a build
    that knows the registry, and after a probe of the deployed contract
    answered that it is the funded one: the first registry, whose claim would
    burn the balance, is never called. *)
Theorem claims_need_funded_registry configured ss card publicKey claimable isClaiming who :
  click card publicKey claimable isClaiming (gateRun configured freshGate ss).1 = Some who ->
  publicKey = Some who /\ 0 < claimable /\ isClaiming = false /\ configured = true /\ v1Probe ss.
Proof.
  pose proof (gateRun_inv configured ss) as [Hc Hp _ _]. unfold click.
  destruct (cards _ !! card) as [[k []]|] eqn:Hk; try done.
  destruct ((0 <? claimable) && negb isClaiming) eqn:Hb; [|done].
  apply andb_true_iff in Hb as [Hz%Z.ltb_lt Hi%negb_true_iff]. unfold given_.
  destruct publicKey as [pk|]; [|done]. destruct (truthy pk); [|done]. intros [= ->].
  by destruct (Hp _ (Hc _ _ Hk)).
Qed.

(** A negative answer is never remembered on a build that knows the
    registry: the next mount probes again. *)
Theorem negative_probe_is_forgotten ss :
  let g := (gateRun true freshGate ss).1 in
  (forall k, probes_ g !! k <> Some None) ->
  (exists k, memo g = Some k /\ probes_ g !! k = Some (Some true)) \/
  probes_ (mount true g) !! length (probes_ g) = Some None.
Proof.
  intros g Hset. destruct (gateRun_inv true ss) as [_ _ _ Hm]. fold g in Hm.
  unfold mount, ask. destruct (memo g) as [k|] eqn:Hk.
  - left. exists k. split; [done|]. destruct (Hm eq_refl k eq_refl) as [Hn|?]; [by destruct (Hset k)|done].
  - right. cbn. by apply list_lookup_middle.
Qed.

(** ** Lemmas: amounts *)

Lemma digit_value c : isDigit c = true -> 0 <= Z.of_N (Ascii.N_of_ascii c) - 48 <= 9.
Proof. unfold isDigit. intros [H1 H2]%andb_true_iff. apply N.leb_le in H1, H2. lia. Qed.

(** Reading on multiplies by a power of ten at least. *)
Lemma fold_lower l acc :
  Forall (fun c => isDigit c = true) l -> 0 <= acc -> acc * 10 ^ Z.of_nat (length l) <= foldl addDigit acc l.
Proof.
  revert acc. induction l as [|c l IH]; intros acc Hl Hacc; [simpl; lia|].
  inversion Hl as [|? ? Hc Hl']; subst. pose proof (digit_value c Hc).
  cbn [foldl length]. rewrite Nat2Z.inj_succ, Z.pow_succ_r by lia.
  etransitivity; [|apply IH; [done | unfold addDigit; lia]]. unfold addDigit.
  pose proof (Z.pow_nonneg 10 (Z.of_nat (length l)) ltac:(lia)). nia.
Qed.

(** The text of a positive number does not start with a zero. *)
Lemma decimal_head p : exists c s, decimalOfZ (Zpos p) = String c s /\ c <> "0"%char.
Proof.
  unfold decimalOfZ. cbn [Z.to_int DecimalString.NilZero.string_of_int]. unfold DecimalString.NilZero.string_of_uint.
  pose proof (DecimalPos.Unsigned.of_to p) as Hof. pose proof (DecimalPos.Unsigned.to_of (Pos.to_uint p)) as Hto.
  rewrite Hof in Hto. cbn in Hto.
  destruct (Pos.to_uint p) as [|d|d|d|d|d|d|d|d|d|d] eqn:Hd; try (eexists _, _; split; [reflexivity|discriminate]).
  exfalso. cbn in Hof. destruct d; [done|..];
      match type of Hto with _ = Decimal.unorm (Decimal.D0 ?u) =>
        assert (Decimal.nb_digits (Decimal.unorm (Decimal.D0 u)) <= Decimal.nb_digits u)%nat as Hle
          by (rewrite DecimalFacts.unorm_D0; apply DecimalFacts.nb_digits_unorm; discriminate) end;
      rewrite <- Hto in Hle; cbn in Hle; lia.
Qed.

Lemma string_length s : String.length s = length (String.list_ascii_of_string s).
Proof. induction s as [|c s IH]; [done|]. cbn. by rewrite IH. Qed.

Lemma decimal_length n z : 0 <= z < 10 ^ Z.of_nat n -> (0 < n)%nat -> (String.length (decimalOfZ z) <= n)%nat.
Proof.
  intros Hz Hn. destruct z as [|p|p]; [cbn; lia| |lia].
  destruct (decimal_head p) as (c & s & Hs & Hc). destruct (decimalOfZ_digits (Zpos p)) as [Hd _]; [lia|].
  pose proof (decimal_value (Zpos p) ltac:(lia)) as Hv. rewrite Hs in *. unfold digits in Hd.
  cbn [String.list_ascii_of_string foldl] in *. inversion Hd as [|? ? Hcd Hds]; subst.
  pose proof (digit_value c Hcd).
  assert (Z.of_N (Ascii.N_of_ascii c) - 48 <> 0) as Hne.
  { intros Heq. apply Hc. rewrite <- (Ascii.ascii_N_embedding c), <- (Ascii.ascii_N_embedding "0"). f_equal.
    change (Ascii.N_of_ascii "0") with 48%N. lia. }
  pose proof (fold_lower (String.list_ascii_of_string s) (addDigit 0 c) Hds ltac:(unfold addDigit; lia)) as Hlow.
  rewrite Hv in Hlow. cbn [String.length]. rewrite string_length.
  assert (10 ^ Z.of_nat (length (String.list_ascii_of_string s)) < 10 ^ Z.of_nat n) as Hlt.
  { pose proof (Z.pow_pos_nonneg 10 (Z.of_nat (length (String.list_ascii_of_string s))) ltac:(lia) ltac:(lia)).
    unfold addDigit in Hlow. nia. }
  apply Z.pow_lt_mono_r_iff in Hlt; lia.
Qed.

Lemma list_ascii_app a b : String.list_ascii_of_string (a +:+ b) = String.list_ascii_of_string a ++ String.list_ascii_of_string b.
Proof. induction a as [|c a IH]; [done|]. rewrite str_app_cons. cbn. by rewrite IH. Qed.

Lemma length_str_app a b : String.length (a +:+ b) = (String.length a + String.length b)%nat.
Proof. rewrite !string_length, list_ascii_app, length_app. done. Qed.

Lemma length_zeros n : String.length (zeros n) = n.
Proof. induction n as [|n IH]; [done|]. cbn. by rewrite IH. Qed.

Lemma zeros_digits n : digits (zeros n).
Proof. induction n; unfold digits in *; cbn; by constructor. Qed.

Lemma digits_app a b : digits a -> digits b -> digits (a +:+ b).
Proof. unfold digits. rewrite list_ascii_app. apply Forall_app_2. Qed.

Lemma value_zeros n s : valueOf (zeros n +:+ s) = valueOf s.
Proof. unfold valueOf. induction n as [|n IH]; [done|]. cbn [zeros]. rewrite str_app_cons. exact IH. Qed.

(** The seven decimals of a remainder. *)
Lemma padded_decimals r :
  0 <= r < 10000000 ->
  let f := padStart0 7 (decimalOfZ r) in String.length f = 7%nat /\ digits f /\ valueOf f = r.
Proof.
  intros Hr f. pose proof (decimal_length 7 r ltac:(cbn; lia) ltac:(lia)) as Hlen.
  destruct (decimalOfZ_digits r) as [Hd _]; [lia|]. unfold f, padStart0. split_and!.
  - rewrite length_str_app, length_zeros. lia.
  - apply digits_app; [apply zeros_digits | done].
  - rewrite value_zeros. apply decimal_value. lia.
Qed.

Lemma trimZeros_pad s : trimZeros s +:+ zeros (String.length s - String.length (trimZeros s)) = s.
Proof.
  induction s as [|c s IH]; [done|]. cbn [trimZeros].
  destruct (Ascii.eqb c "0" && negb (truthy (trimZeros s))) eqn:Hb.
  - apply andb_true_iff in Hb as [Hc%Ascii.eqb_eq Ht%negb_true_iff]. subst c.
    assert (trimZeros s = EmptyString) as Hs by (by destruct (trimZeros s)). rewrite Hs in IH.
    str_simpl. cbn [String.length Nat.sub zeros] in *. rewrite Nat.sub_0_r in IH. by rewrite IH.
  - str_simpl. cbn [String.length Nat.sub]. by rewrite IH.
Qed.

Lemma trimZeros_digits s : digits s -> digits (trimZeros s).
Proof.
  unfold digits. induction s as [|c s IH]; [done|]. intros Hs. inversion Hs; subst. cbn [trimZeros].
  destruct (_ && _); [constructor|]. cbn. constructor; auto.
Qed.

Lemma trimZeros_empty s : truthy (trimZeros s) = negb (forallb isZero (String.list_ascii_of_string s)).
Proof.
  induction s as [|c s IH]; [done|]. cbn [trimZeros String.list_ascii_of_string forallb]. rewrite IH. unfold isZero at 2.
  destruct (Ascii.eqb c "0"); [|done]. cbn. by destruct (forallb _ _).
Qed.

Lemma digit_not_dot c : isDigit c = true -> Ascii.eqb c "." = false.
Proof. intros Hc. apply Ascii.eqb_neq. by intros ->. Qed.

Lemma cut_cons c s : cutZeros (String c s) = if zerosTail (String c s) then EmptyString else String c (cutZeros s).
Proof. done. Qed.

Lemma cut_digits f : digits f -> cutZeros f = trimZeros f.
Proof.
  induction f as [|c f IH]; [done|]. intros Hf. inversion Hf as [|? ? Hc Hf']; subst. cbn [cutZeros trimZeros].
  unfold zerosTail. rewrite (digit_not_dot c Hc), andb_false_l, orb_false_r. unfold onlyZeros. cbn [String.list_ascii_of_string forallb].
  rewrite trimZeros_empty, negb_involutive. fold (isZero c). rewrite (IH Hf'). by destruct (isZero c && _).
Qed.

(** What is cut from a printed amount. *)
Lemma cut_amount w f :
  digits w -> digits f ->
  cutZeros (w +:+ "." +:+ f) = if truthy (trimZeros f) then w +:+ "." +:+ trimZeros f else if truthy f then w else w +:+ ".".
Proof.
  intros Hw Hf. induction w as [|c w IH].
  - str_simpl. rewrite cut_cons. unfold zerosTail.
    rewrite Ascii.eqb_refl, andb_true_l, (cut_digits f Hf), trimZeros_empty.
    unfold onlyZeros. cbn [String.list_ascii_of_string forallb]. change (isZero ".") with false.
    rewrite andb_false_l, andb_false_r, orb_false_l. destruct f as [|d f]; [done|]. cbn [truthy String.eqb negb].
    destruct (forallb isZero _) eqn:Hz; cbn; [done|]. done.
  - inversion Hw as [|? ? Hc Hw']; subst. str_simpl. rewrite cut_cons. unfold zerosTail.
    rewrite (digit_not_dot c Hc), andb_false_l, orb_false_r. unfold onlyZeros.
    assert (forallb isZero (String.list_ascii_of_string (String c (w +:+ String "." f))) = false) as ->.
    { apply not_true_iff_false. rewrite forallb_forall. intros Hall. specialize (Hall "."%char). discriminate Hall.
      cbn. right. rewrite list_ascii_app. apply in_or_app. right. by left. }
    rewrite andb_false_r. specialize (IH Hw'). str_simpl. rewrite IH.
    destruct (truthy (trimZeros f)); [done|]. by destruct (truthy f).
Qed.

Lemma substring_all s n : (String.length s <= n)%nat -> String.substring 0 n s = s.
Proof. revert n. induction s as [|c s IH]; intros [|n] Hn; cbn in *; try done; try lia. by rewrite IH by lia. Qed.

(** An amount filled into the field reads back as the same amount. *)
Lemma amount_read_back raw : 0 <= raw -> parseAmount (fmtInputAmount raw) = Some raw.
Proof.
  intros Hraw. unfold fmtInputAmount, VAULT_PRECISION.
  rewrite Z.quot_div_nonneg, Z.rem_mod_nonneg by lia.
  pose proof (Z.mod_pos_bound raw 10000000 ltac:(lia)) as Hr.
  destruct (padded_decimals (raw mod 10000000) Hr) as (Hlen & Hdf & Hvf).
  set (f := padStart0 7 _) in *.
  destruct (decimalOfZ_digits (raw / 10000000)) as [Hdw Hne]; [apply Z.div_pos; lia|].
  pose proof (decimal_value (raw / 10000000) ltac:(apply Z.div_pos; lia)) as Hvw.
  set (w := decimalOfZ (raw / 10000000)) in *. fold (valueOf w) in Hvw.
  assert (truthy w = true) as Htw by (by destruct w).
  rewrite (cut_amount w f Hdw Hdf). destruct (truthy (trimZeros f)) eqn:Ht.
  - unfold parseAmount. rewrite (span_app _ w _ Hdw) by done. rewrite Htw. cbn [negb]. str_simpl. rewrite Ascii.eqb_refl.
    rewrite (span_all _ _ (trimZeros_digits f Hdf)), Ht. cbn [truthy String.eqb negb andb].
    assert (String.length (trimZeros f) <= 7)%nat as Hl7.
    { pose proof (f_equal String.length (trimZeros_pad f)) as Hp. rewrite length_str_app in Hp. lia. }
    rewrite (substring_all _ 7 Hl7). unfold padEnd0. rewrite <- Hlen at 1. rewrite trimZeros_pad, Hvf, Hvw.
    f_equal. unfold VAULT_PRECISION. pose proof (Z.div_mod raw 10000000). lia.
  - assert (truthy f = true) as -> by (by destruct f). unfold parseAmount. rewrite (span_all _ w Hdw), Htw. cbn [negb].
    f_equal. rewrite Hvw. change (valueOf (padEnd0 7 EmptyString)) with 0. unfold VAULT_PRECISION.
    assert (raw mod 10000000 = 0) as Hz; [|pose proof (Z.div_mod raw 10000000); lia].
    rewrite <- Hvf. rewrite <- (trimZeros_pad f). assert (trimZeros f = EmptyString) as -> by (by destruct (trimZeros f)).
    rewrite str_app_nil. pose proof (value_zeros (String.length f - 0) EmptyString) as Hv0.
    assert (forall s, s +:+ EmptyString = s) as Hnil by (intros s; induction s as [|c s IH]; [done|by rewrite str_app_cons, IH]).
    rewrite Hnil in Hv0. exact Hv0.
Qed.

(** What the Max button fills in reads back as the balance, to the last
    of its seven decimals, and submitting it moves exactly that balance: it is
    never refused as too much, nor as no amount. *)
Theorem max_moves_the_balance m b who wallet :
  maxRaw m = Some b -> 0 < b -> given_ (address m) = Some who -> given_ (walletId m) = Some wallet ->
  amount (setMax m) = fmtInputAmount b /\ parseAmount (fmtInputAmount b) = Some b /\
  submit (setMax m) = inr (who, match mode m with depositMode => ToVault (vaultId m) b
                                              | withdrawMode => FromVault (vaultId m) b end).
Proof.
  intros Hb Hpos Hwho Hw. unfold setMax. rewrite Hb. destruct b as [|b|b]; try lia.
  pose proof (amount_read_back (Zpos b) ltac:(lia)) as Hp. split_and!; [done|done|].
  unfold submit. cbn [amount address walletId vaultId mode]. rewrite Hp, Hwho, Hw.
  assert (maxRaw {| mode := mode m; amount := fmtInputAmount (Zpos b); usdcBalance := usdcBalance m;
    userShares := userShares m; address := address m; walletId := walletId m; vaultId := vaultId m |} = Some (Zpos b))
    as -> by exact Hb.
  cbn -[Z.ltb]. by rewrite Z.ltb_irrefl.
Qed.

(** ** Deployed capital *)

Lemma setOpen_keys id c opens k : k ∈ fst <$> setOpen id c opens <-> k = id \/ k ∈ fst <$> opens.
Proof.
  induction opens as [|[i d] opens IH]; cbn; [rewrite !elem_of_cons; naive_solver|].
  destruct (String.eqb_spec i id) as [->|Hne]; cbn; rewrite !elem_of_cons; [naive_solver|]. rewrite IH. naive_solver.
Qed.

Lemma setOpen_NoDup id c opens : NoDup (fst <$> opens) -> NoDup (fst <$> setOpen id c opens).
Proof.
  induction opens as [|[i d] opens IH]; cbn; intros Hn; [repeat constructor; by intros ?%elem_of_nil|].
  inversion Hn as [|? ? Hi Hn']; subst. destruct (String.eqb_spec i id) as [->|Hne]; cbn; constructor; auto.
  rewrite setOpen_keys. naive_solver.
Qed.

Lemma trade_cons t trades b id :
  (exists x, x ∈ t :: trades /\ tr_open x = b /\ tr_positionId x = id) <->
  (tr_open t = b /\ tr_positionId t = id) \/ exists x, x ∈ trades /\ tr_open x = b /\ tr_positionId x = id.
Proof.
  split.
  - intros (x & [->|Hx]%elem_of_cons & Hb); [by left | right; by exists x].
  - intros [Hb|(x & Hx & Hb)]; [exists t; split; [by left|done] | exists x; split; [by right|done]].
Qed.

Lemma trades_read trades opens closed :
  NoDup (fst <$> opens) ->
  let st := foldl readTrade (opens, closed) trades in
  NoDup (fst <$> st.1) /\
  (forall id, id ∈ fst <$> st.1 <-> id ∈ fst <$> opens \/ exists t, t ∈ trades /\ tr_open t = true /\ tr_positionId t = id) /\
  (forall id, id ∈ st.2 <-> id ∈ closed \/ exists t, t ∈ trades /\ tr_open t = false /\ tr_positionId t = id).
Proof.
  revert opens closed. induction trades as [|t trades IH]; intros opens closed Hn; cbn.
  { split_and!; [done|..]; intros id; split; try tauto; intros [?|(t & ?%elem_of_nil & _)]; done. }
  assert (readTrade (opens, closed) t =
    if tr_open t then (setOpen (tr_positionId t) (match bigIntOf (tr_collateral t) with inr z => z | inl _ => 0 end) opens, closed)
    else (opens, tr_positionId t :: closed)) as -> by done.
  destruct (tr_open t) eqn:Ht.
  - destruct (IH _ closed (setOpen_NoDup (tr_positionId t) (match bigIntOf (tr_collateral t) with inr z => z | inl _ => 0 end) _ Hn))
      as (Hd & Ho & Hc). split_and!; [exact Hd|..]; intros id.
    + rewrite Ho, setOpen_keys, trade_cons, Ht. intuition congruence.
    + rewrite Hc, trade_cons, Ht. intuition congruence.
  - destruct (IH opens (tr_positionId t :: closed) Hn) as (Hd & Ho & Hc). split_and!; [exact Hd|..]; intros id.
    + rewrite Ho, trade_cons, Ht. intuition congruence.
    + rewrite Hc, trade_cons, Ht, elem_of_cons. intuition congruence.
Qed.

(** The count of the withdrawal warning is that of the positions with an
    opening trade and no closing one among the trades read, in any order. *)
Theorem deployed_counts_open_positions trades :
  exists ids, NoDup ids /\ (deployedCapital trades).1 = Z.of_nat (length ids) /\
    forall id, id ∈ ids <->
      (exists t, t ∈ trades /\ tr_open t = true /\ tr_positionId t = id) /\
      ~ (exists t, t ∈ trades /\ tr_open t = false /\ tr_positionId t = id).
Proof.
  unfold deployedCapital. pose proof (trades_read trades [] [] (NoDup_nil_2 : NoDup (fst <$> ([] : list (string * Z))))) as Hr.
  cbn zeta in Hr. destruct (foldl readTrade ([], []) trades) as [opens closed]. cbn [fst snd] in *.
  destruct Hr as (Hn & Ho & Hc).
  exists (fst <$> bfilter (fun o : string * Z => negb (existsb (String.eqb o.1) closed)) opens). split_and!.
  - clear Ho Hc. induction opens as [|o opens IH]; cbn; [constructor|]. inversion Hn as [|? ? Hi Hn']; subst.
    destruct (negb _); [|by apply IH]. cbn. constructor; [|by apply IH].
    intros Hin. apply Hi. apply list_elem_of_fmap in Hin as (o' & -> & Hin). apply elem_of_bfilter in Hin as [Hin _].
    apply list_elem_of_fmap. by exists o'.
  - by rewrite length_fmap.
  - intros id. assert (id ∈ closed <-> existsb (String.eqb id) closed = true) as He.
    { rewrite existsb_exists. setoid_rewrite String.eqb_eq. rewrite list_elem_of_In. naive_solver. }
    specialize (Ho id). specialize (Hc id). split.
    + intros (o & -> & Hin)%list_elem_of_fmap. apply elem_of_bfilter in Hin as [Hin Hb]. apply negb_true_iff in Hb.
      assert (o.1 ∈ fst <$> opens) as Hk by (by apply list_elem_of_fmap_2).
      apply Ho in Hk as [?%elem_of_nil|Hk]; [done|]. split; [done|]. intros Hx.
      assert (o.1 ∈ closed) as Hcl by (apply Hc; by right). apply He in Hcl. congruence.
    + intros [Hx Hy]. assert (id ∈ fst <$> opens) as Hk by (apply Ho; by right).
      apply list_elem_of_fmap in Hk as (o & -> & Hin). apply list_elem_of_fmap_2, elem_of_bfilter. split; [done|].
      apply negb_true_iff, not_true_iff_false. intros Hb. apply He, Hc in Hb as [?%elem_of_nil|?]; done.
Qed.

(** ** Concrete screens *)

Definition fullModal : VaultModal := {|
  mode := withdrawMode; amount := ""; usdcBalance := None; userShares := Some 12345678900; address := Some "GA"%string;
  walletId := Some "freighter"%string; vaultId := 3 |}.

Lemma max_moves_the_balance_witness :
  amount (setMax fullModal) = "1234.56789"%string /\ submit (setMax fullModal) = inr ("GA"%string, FromVault 3 12345678900).
Proof.
  destruct (max_moves_the_balance fullModal 12345678900 "GA" "freighter" eq_refl ltac:(lia) eq_refl eq_refl) as (Ha & _ & Hs).
  split; [rewrite Ha; vm_compute; reflexivity | exact Hs].
Defined.

(** The first probe fails, the second finds the funded registry. *)
Definition flippedGate : list GateStep :=
  [Mount; ProbeEnds 0 (Ok (Some (NStr "referral_v0"))); Mount; ProbeEnds 1 (Ok (Some (NStr "referral_v1")))].

Lemma claims_need_funded_registry_witness :
  click 1 (Some "GA"%string) 500 false (gateRun true freshGate flippedGate).1 = Some "GA"%string /\
  click 0 (Some "GA"%string) 500 false (gateRun true freshGate flippedGate).1 = None /\ v1Probe flippedGate.
Proof.
  split; [vm_compute; reflexivity|]. split; [vm_compute; reflexivity|].
  apply (claims_need_funded_registry true flippedGate 1 (Some "GA"%string) 500 false "GA"). vm_compute. reflexivity.
Defined.

(** Without an address the negative answer is kept. *)
Example unconfigured_answer_is_kept :
  memo (gateRun false freshGate [Mount; Mount]).1 = Some 0%nat /\
  probes_ (gateRun false freshGate [Mount; Mount]).1 = [Some false].
Proof. vm_compute. split; reflexivity. Qed.
