(* ===== verification/ContractTypes.v ===== *)
(** * The contracts' arguments

    The signatures of the entry points of the market, the router, the pool,
    the vault factory and the referral registry (contracts/*/src/lib.rs), and of
    the oracle's batch as stellar.ts notes it, as types of contract values, and
    what the clients send against them: the gateway's prepared orders
    ([ApiOrders]), the shared builders and the keeper ([ContractCalls]), the web application's trades ([WebTrades]) and its vault
    and referral screens ([WebVaults]). The host refuses a call whose method,
    number of arguments or types are not those of the contract. *)

From S2P Require Import Prelude JsText TxFootprint TxSubmission ApiBoard ApiSockets WebErrors ApiOrders ContractCalls WebTrades.
From S2P Require Import WebVaults.
Open Scope Z_scope.
Open Scope js_scope.

(** ** Types *)

Inductive ScType :=
| TAddress | TSymbol | TI128 | TU32 | TU64 | TBool | TString | TBytes | TBytesN (n : nat)
| TDirection                                  (** the enum of noether_common: 0 or 1 *)
| TVec (t : ScType) | TStruct (fs : list (string * ScType)).

Definition symbolChar (c : ascii) : bool := isDigit c || isLower c || isUpper c || Ascii.eqb c "_"%char.

(** At most 32 letters, digits and underscores. *)
Definition validSymbol (s : string) : bool :=
  (String.length s <=? 32)%nat && forallb symbolChar (String.list_ascii_of_string s).

Definition within (lo hi z : Z) : bool := (lo <=? z) && (z <? hi).

(** A struct travels as its fields in the order of their names. *)
Fixpoint hasType (t : ScType) (v : ScVal) : bool :=
  match t, v with
  | TAddress, ScAddress _ => true
  | TSymbol, ScSymbol s => validSymbol s
  | TI128, ScI128 z => within (- 2 ^ 127) (2 ^ 127) z
  | TU32, ScU32 z => within 0 (2 ^ 32) z
  | TU64, ScU64 z => within 0 (2 ^ 64) z
  | TBool, ScBool _ => true
  | TString, ScString _ => true
  | TBytes, ScBytes _ => true
  | TBytesN n, ScBytes bs => (length bs =? n)%nat
  | TDirection, ScU32 z => within 0 2 z
  | TVec t, ScVec vs => forallb (hasType t) vs
  | TStruct fs, ScMap es =>
      (fix fields (fs : list (string * ScType)) (es : list (string * ScVal)) : bool :=
         match fs, es with
         | [], [] => true
         | (k, t) :: fs, (k', v) :: es => String.eqb k k' && hasType t v && fields fs es
         | _, _ => false
         end) fs es
  | _, _ => false
  end.

Fixpoint checkArgs (ts : list ScType) (vs : list ScVal) : bool :=
  match ts, vs with
  | [], [] => true
  | t :: ts, v :: vs => hasType t v && checkArgs ts vs
  | _, _ => false
  end.

(** ** Interfaces *)

Definition Interface : Type := list (string * list ScType).

(** The router's PriceAttestation. *)
Definition TAttestation : ScType := TStruct
  [ ("asset"%string, TSymbol); ("prices"%string, TVec TI128); ("pubkeys"%string, TVec (TBytesN 32));
    ("round_id"%string, TU64); ("sigs"%string, TVec (TBytesN 64)); ("timestamp"%string, TU64) ].

Definition marketInterface : Interface :=
  [ ("open_position", [TAddress; TSymbol; TI128; TU32; TDirection; TI128]);
    ("close_position", [TAddress; TU64; TI128]);
    ("close_position_partial", [TAddress; TU64; TI128]);
    ("add_collateral", [TAddress; TU64; TI128]);
    ("remove_collateral", [TAddress; TU64; TI128]);
    ("deposit_cross_margin", [TAddress; TI128]);
    ("withdraw_cross_margin", [TAddress; TI128]);
    ("open_position_cross", [TAddress; TSymbol; TI128; TU32; TDirection; TI128]);
    ("close_position_cross", [TAddress; TU64; TI128]);
    ("place_limit_order", [TAddress; TSymbol; TDirection; TI128; TU32; TI128; TBool; TU32; TU32]);
    ("set_stop_loss", [TAddress; TU64; TI128; TU32]);
    ("set_take_profit", [TAddress; TU64; TI128; TU32; TI128]);
    ("cancel_order", [TAddress; TU64]);
    ("place_stop_limit_order", [TAddress; TSymbol; TDirection; TI128; TU32; TI128; TI128; TBool; TU32; TU32]);
    ("place_trailing_stop", [TAddress; TU64; TU32; TU32]);
    ("sync_asset_pnl", [TSymbol]); ("liquidate", [TAddress; TU64]); ("execute_order", [TAddress; TU64]);
    ("liquidate_cross_account", [TAddress; TAddress]); ("check_adl_trigger", [TSymbol]);
    ("adl_close", [TAddress; TU64]); ("update_trailing_peak", [TU64]); ("apply_funding", []) ]%string.

Definition routerInterface : Interface :=
  [ ("open_with_price", [TAddress; TI128; TU32; TDirection; TI128; TAttestation]);
    ("close_with_price", [TAddress; TU64; TI128; TAttestation]);
    ("close_partial_with_price", [TAddress; TU64; TI128; TAttestation]);
    ("liquidate_with_price", [TAddress; TU64; TAttestation]);
    ("adl_with_price", [TAddress; TU64; TAttestation]);
    ("execute_with_price", [TAddress; TU64; TAttestation]);
    ("liquidate_cross_with_prices", [TAddress; TAddress; TVec TAttestation]);
    ("relay_stork", [TBytes]) ]%string.

Definition poolInterface : Interface :=
  [ ("deposit", [TAddress; TI128; TI128]); ("withdraw", [TAddress; TI128; TI128]) ]%string.

Definition factoryInterface : Interface :=
  [ ("create_vault", [TAddress; TString]);
    ("deposit", [TAddress; TU32; TI128; TI128]); ("withdraw", [TAddress; TU32; TI128; TI128]);
    ("leader_open_position", [TAddress; TU32; TSymbol; TI128; TU32; TU32]);
    ("leader_close_position", [TAddress; TU32; TU64]);
    ("reconcile_order", [TU32; TU64]); ("claim_leader_fees", [TU32]); ("set_paused", [TU32; TBool]) ]%string.

(** The oracle, whose source is not in the repository: the types stellar.ts
    notes beside the arguments. *)
Definition oracleInterface : Interface :=
  [ ("update_batch_ed25519_persistent",
     [TVec (TBytesN 8); TVec TI128; TU64; TU64; TBytesN 32; TVec (TBytesN 64)]) ]%string.

Definition referralInterface : Interface :=
  [ ("create_code", [TAddress; TString]); ("set_referrer", [TAddress; TString]); ("claim", [TAddress]) ]%string.

Definition signatureOf (i : Interface) (m : string) : option (list ScType) :=
  firstSome (fun e : string * list ScType => if String.eqb e.1 m then Some e.2 else None) i.

(** The host's check of a call against the interface of its contract. *)
Definition wellTyped (i : Interface) (c : ContractCall) : bool :=
  match signatureOf i (method c) with Some ts => checkArgs ts (args c) | None => false end.

(** ** Lemmas: what the encoders give *)

Section encoders.
Context `{IntCodec}.

Lemma typed_i128 z v : encI128 z = Ok v -> hasType TI128 v = true.
Proof. intros [Hz ->]%encI128_spec. cbn. apply andb_true_iff. rewrite Z.leb_le, Z.ltb_lt. lia. Qed.

Lemma typed_u32 z v : encU32 z = Ok v -> hasType TU32 v = true.
Proof. intros [Hz ->]%encU32_spec. cbn. apply andb_true_iff. rewrite Z.leb_le, Z.ltb_lt. lia. Qed.

Lemma typed_u64 z v : encU64 z = Ok v -> hasType TU64 v = true.
Proof. intros [Hz ->]%encU64_spec. cbn. apply andb_true_iff. rewrite Z.leb_le, Z.ltb_lt. lia. Qed.

Lemma typed_direction d : hasType TDirection (encDirection d) = true.
Proof. by destruct d. Qed.

Lemma encAll_typed {A} (enc : A -> Result ScVal) t (ok : A -> bool) l vs :
  (forall a v, a ∈ l -> enc a = Ok v -> hasType t v = ok a) -> encAll enc l = Ok vs ->
  hasType (TVec t) (ScVec vs) = forallb ok l.
Proof.
  intros He. revert vs. induction l as [|a l IH]; cbn [encAll]; intros vs Hv; inv_binds; injection Hv as <-; [done|].
  cbn [hasType forallb] in *. rewrite (He a) by (by left || done). f_equal. apply IH; [|done]. intros b w Hb. apply He. by right.
Qed.

Lemma forallb_true {A} (l : list A) : forallb (fun _ => true) l = true.
Proof. by induction l. Qed.

(** Keys of 32 bytes and signatures of 64. *)
Definition bytesOf (n : nat) (b : BytesLike) : bool := (length (toBytes b) =? n)%nat.

Lemma typed_bytes n l : hasType (TVec (TBytesN n)) (bytesVec l) = forallb (bytesOf n) l.
Proof. induction l as [|b l IH]; [done|]. unfold bytesVec in *. rewrite fmap_cons. cbn [hasType forallb] in *. by rewrite IH. Qed.

Lemma typed_byte_column {A} n (g : A -> list Z) (l : list A) :
  hasType (TVec (TBytesN n)) (ScVec ((fun a => ScBytes (g a)) <$> l)) = forallb (fun a => (length (g a) =? n)%nat) l.
Proof. induction l as [|a l IH]; [done|]. rewrite fmap_cons. cbn [hasType forallb] in *. by rewrite IH. Qed.

(** A signed round a contract can read: a symbol, keys and signatures of the
    lengths of Ed25519. *)
Definition roundOk (att : PriceAttestation) : bool :=
  validSymbol (pa_asset att) && forallb (bytesOf 32) (pubkeys att) && forallb (bytesOf 64) (sigs att).

Lemma typed_attestation att v : attestationStructArg att = Ok v -> hasType TAttestation v = roundOk att.
Proof.
  intros Hv. unfold attestationStructArg in Hv. inv_binds. injection Hv as <-.
  apply typed_u64 in Ha0, Ha1. unfold roundOk.
  assert (hasType (TVec TI128) (ScVec a) = true) as Hp.
  { rewrite (encAll_typed encI128 TI128 (fun _ => true) (prices att) a); [apply forallb_true| |done]. intros z v _. apply typed_i128. }
  pose proof (typed_bytes 32 (pubkeys att)) as Hk. pose proof (typed_bytes 64 (sigs att)) as Hg.
  unfold TAttestation. cbn [hasType String.eqb Ascii.eqb Bool.eqb andb] in *. rewrite Hp, Hk, Ha0, Hg, Ha1.
  by rewrite !andb_true_r, !andb_true_l, andb_assoc.
Qed.
End encoders.

(** Settle an equation between conjunctions of checks. *)
Ltac by_checks :=
  repeat match goal with
  | |- context [validSymbol ?s] => destruct (validSymbol s)
  | |- context [forallb ?f ?l] => destruct (forallb f l)
  | |- context [bytesOf ?n ?b] => destruct (bytesOf n b)
  | |- context [roundOk ?a] => destruct (roundOk a)
  end; reflexivity.

(** Check the arguments of a call one by one: those that always fit, and those
    that fit exactly when a check holds. *)
Ltac type_check :=
  repeat first
    [ match goal with
      | Hx : encI128 _ = Ok _ |- _ => apply typed_i128 in Hx
      | Hx : encU32 _ = Ok _ |- _ => apply typed_u32 in Hx
      | Hx : encU64 _ = Ok _ |- _ => apply typed_u64 in Hx
      | Hx : Ok _ = Ok _ |- _ => injection Hx as Hx; subst
      end ];
  unfold wellTyped; cbn [method args signatureOf];
  repeat match goal with
  | |- match signatureOf ?i ?m with _ => _ end = _ =>
      let s := eval cbv -[TAttestation] in (signatureOf i m) in change (signatureOf i m) with s; cbn iota beta
  end;
  cbn [checkArgs app];
  repeat match goal with
  | Hx : hasType ?t ?v = _ |- context [hasType ?t ?v] => rewrite Hx
  | Hx : validSymbol ?s = true |- context [hasType TSymbol (ScSymbol ?s)] => change (hasType TSymbol (ScSymbol s)) with (validSymbol s); rewrite Hx
  | |- context [hasType TSymbol (ScSymbol ?s)] => change (hasType TSymbol (ScSymbol s)) with (validSymbol s)
  | |- context [hasType TDirection (encDirection ?d)] => rewrite (typed_direction d)
  end; first [reflexivity | cbn [andb orb negb]; by_checks].

(** ** What each client sends *)

Section clients.
Context `{IntCodec}.

Lemma supported_is_symbol a : isSupportedAsset a = true -> validSymbol a = true.
Proof.
  unfold isSupportedAsset. rewrite existsb_exists. intros (s & Hin & ->%String.eqb_eq).
  assert (forallb validSymbol SUPPORTED_ASSET_SYMBOLS = true) as Hall by (vm_compute; reflexivity).
  rewrite forallb_forall in Hall. by apply Hall.
Qed.

Lemma margin_is_symbol m k c :
  withMargin m k = inr c -> validSymbol (ApiOrders.b_asset m) = true /\ exists z, k z = Ok c.
Proof.
  unfold withMargin. destruct (isSupportedAsset (ApiOrders.b_asset m)) eqn:Ha; [|done]. intros Hc%lift_inr. inv_binds.
  split; [by apply supported_is_symbol | by eexists].
Qed.

(** The gateway's prepared orders. *)
Lemma dispatch_typed market trader b c :
  dispatch market trader b = inr c -> wellTyped marketInterface c = true.
Proof.
  destruct b; cbn [dispatch]; intros Hc;
    first [apply margin_is_symbol in Hc as (Hs & z & Hc) | apply lift_inr in Hc];
    unfold callTo, openArgs, closeArgs, limitArgs, stopLimitArgs, trailingArgs, stopLossArgs, takeProfitArgs, encTrigger in Hc;
    inv_binds; try destruct cross; type_check.
Qed.

(** The web application's trades against the current contracts. *)
Definition symbolOf (r : WebRequest) : option string :=
  match r with
  | WOpen a _ _ _ _ | WClose _ a _ | WClosePartial _ _ a | WLimit a _ _ _ _ _ _ _ | WOpenCross a _ _ _ _
  | WStopLimit a _ _ _ _ _ _ _ _ => Some a
  | _ => None
  end.

Definition throughRouter (cfg : Contracts) (r : WebRequest) : bool :=
  match relays r, NOETHER_ROUTER cfg with Some _, Some _ => true | _, _ => false end.

Definition webInterface (cfg : Contracts) (r : WebRequest) : Interface :=
  if throughRouter cfg r then routerInterface else marketInterface.

(** The keys and signature of a fetched round. *)
Definition fetchedOk (att : Attestation) : bool :=
  bytesOf 32 (Hex (publisherHex att)) && bytesOf 64 (Hex (signatureHex att)).

(** The symbol a trade sends is one (a close sends its own only in the round),
    and so is the round. *)
Definition tradeOk (cfg : Contracts) (r : WebRequest) (att : option Attestation) : bool :=
  if throughRouter cfg r then match symbolOf r with Some a => validSymbol a | None => true end && match att with Some a => fetchedOk a | None => true end
  else match r with WClose _ _ _ | WClosePartial _ _ _ => true | _ => match symbolOf r with Some a => validSymbol a | None => true end end.

(** The trades the first contracts take other arguments for. *)
Definition datedTrade (cfg : Contracts) (r : WebRequest) : bool :=
  match r with WClosePartial _ _ _ => throughRouter cfg r | _ => probes r end.

Lemma webStruct_typed a att v : webStructArg a att = Ok v -> hasType TAttestation v = validSymbol a && fetchedOk att.
Proof.
  intros Hv. rewrite (typed_attestation (attestationOf a att)).
  - unfold roundOk, attestationOf, fetchedOk. cbn. by rewrite !andb_true_r, andb_assoc.
  - rewrite <- Hv. unfold attestationStructArg, webStructArg, attestationOf, encAll. cbn [prices pa_asset roundId pa_timestamp pubkeys sigs].
    by destruct (encI128 _), (encU64 (att_roundId att)), (encU64 (att_timestamp att)).
Qed.

Lemma web_trade_typed cfg who r att c :
  requestCall cfg who r true att = Ok c -> wellTyped (webInterface cfg r) c = tradeOk cfg r att.
Proof.
  destruct r; cbn [requestCall] in *; unfold webInterface, tradeOk, throughRouter; cbn [relays symbolOf]; unfold openPosition, closePosition,
    closePositionPartial, moveCollateral, moveCross, openPositionCross, closePositionCross, placeLimitOrder,
    placeStopLimitOrder, placeTrailingStop, setStopLoss, setTakeProfit, cancelOrder, limitArgs, trailingArgs, stopLossArgs,
    takeProfitArgs, openTradeArgs, callTo, encTrigger; intros Hc.
  all: try (destruct (NOETHER_ROUTER cfg) as [router|]; [destruct att as [att|]|]); inv_binds; try done.
  all: try (match goal with Hx : webStructArg _ _ = Ok _ |- _ => apply webStruct_typed in Hx; unfold fetchedOk in * end).
  all: repeat match goal with Hx : Ok _ = Ok _ |- _ => injection Hx as Hx; subst end.
  all: type_check.
Qed.

(** A call with the wrong number of arguments, or a wrong one, is refused. *)
Ltac refused_by_arity :=
  unfold wellTyped; cbn [method args];
  match goal with |- match signatureOf ?i ?m with _ => _ end = false =>
    let s := eval cbv -[TAttestation] in (signatureOf i m) in change (signatureOf i m) with s; cbn iota beta end;
  cbn [checkArgs app hasType TAttestation]; rewrite ?andb_false_r; reflexivity.

(** A trade built for the first contracts is refused by the current ones where
    the two differ, and the same call where they do not. *)
Lemma old_trade_refused cfg who r att c :
  requestCall cfg who r false att = Ok c -> datedTrade cfg r = true -> wellTyped (webInterface cfg r) c = false.
Proof.
  destruct r; try done; cbn [requestCall datedTrade]; unfold webInterface, throughRouter; cbn [relays]; unfold openPosition, closePosition,
    closePositionPartial, openPositionCross, closePositionCross; intros Hc Hd.
  all: try (destruct (NOETHER_ROUTER cfg) as [router|]; [destruct att as [att|]|]); try done; unfold callTo, priceTailArgs in Hc; inv_binds; try done.
  all: repeat match goal with Hx : openTradeArgs _ _ _ _ = Ok _ |- _ => unfold openTradeArgs in Hx; inv_binds end.
  all: repeat match goal with Hx : Ok _ = Ok _ |- _ => injection Hx as Hx; subst end.
  all: inv_enc; refused_by_arity.
Qed.

Lemma old_trade_same cfg who r att : datedTrade cfg r = false -> requestCall cfg who r false att = requestCall cfg who r true att.
Proof.
  destruct r; try done. cbn. unfold throughRouter. cbn [relays]. unfold closePositionPartial.
  by destruct (NOETHER_ROUTER cfg).
Qed.

Lemma web_generations_typed cfg who r batch1 att c :
  requestCall cfg who r batch1 att = Ok c ->
  wellTyped (webInterface cfg r) c = (batch1 || negb (datedTrade cfg r)) && tradeOk cfg r att.
Proof.
  destruct batch1; cbn [orb andb]; [apply web_trade_typed|]. intros Hc.
  destruct (datedTrade cfg r) eqn:Hd; cbn [negb andb]; [by eapply old_trade_refused|].
  rewrite old_trade_same in Hc by done. by eapply web_trade_typed.
Qed.

(** The router builders of the shared package, with whether their rounds can
    be read. *)
Inductive BuiltByPackage (router : string) : bool -> ContractCall -> Prop :=
| built_open who c l d b att call : openWithPrice router who c l d b att = Ok call -> BuiltByPackage router (roundOk att) call
| built_close who p b att call : closeWithPrice router who p b att = Ok call -> BuiltByPackage router (roundOk att) call
| built_partial who p q att call : closePartialWithPrice router who p q att = Ok call -> BuiltByPackage router (roundOk att) call
| built_execute k o att call : executeWithPrice router k o att = Ok call -> BuiltByPackage router (roundOk att) call
| built_liquidate k p att call : liquidateWithPrice router k p att = Ok call -> BuiltByPackage router (roundOk att) call
| built_adl k p att call : adlWithPrice router k p att = Ok call -> BuiltByPackage router (roundOk att) call
| built_cross k t atts call :
    liquidateCrossWithPrices router k t atts = Ok call -> BuiltByPackage router (forallb roundOk atts) call.

Lemma attestations_typed atts vs :
  encAll attestationStructArg atts = Ok vs -> hasType (TVec TAttestation) (ScVec vs) = forallb roundOk atts.
Proof. apply encAll_typed. intros att v _. apply typed_attestation. Qed.

Lemma package_typed router ok c : BuiltByPackage router ok c -> wellTyped routerInterface c = ok.
Proof.
  destruct 1 as [who x l d b att c Hc|who p b att c Hc|who p q att c Hc|k o att c Hc|k p att c Hc
                |k p att c Hc|k t atts c Hc];
    unfold openWithPrice, closeWithPrice, closePartialWithPrice, executeWithPrice, liquidateWithPrice, adlWithPrice,
      liquidateCrossWithPrices, idWithPrice, callTo in Hc; inv_binds;
    repeat match goal with
    | Hx : attestationStructArg _ = Ok _ |- _ => apply typed_attestation in Hx
    | Hx : encAll attestationStructArg _ = Ok _ |- _ => apply attestations_typed in Hx
    end; type_check.
Qed.

(** What the keeper writes. *)
Definition writeInterface (w : KeeperWrite) : Interface :=
  match w with
  | WUpdateBatch _ => oracleInterface
  | WReconcileOrder _ _ => factoryInterface
  | WExecuteViaRouter _ _ _ | WLiquidateViaRouter _ _ _ | WAdlCloseViaRouter _ _ _ | WLiquidateCrossViaRouter _ _
  | WRelayStork _ => routerInterface
  | _ => marketInterface
  end.

(** A round of the keeper, and a price of a batch: eight bytes of tag before
    the rest of the message, and again the lengths of Ed25519. *)
Definition relayedOk (ar : string * RouterRound) : bool :=
  validSymbol ar.1 && bytesOf 32 (Hex (publisher ar.2)) && bytesOf 64 (Hex (signature ar.2)).

Definition tagOk (a : SignedPrice) : bool := (length (take 8 (toBytes (Hex (sp_message a)))) =? 8)%nat.

Definition batchOk (atts : list SignedPrice) : bool :=
  forallb tagOk atts && match atts with a :: _ => bytesOf 32 (Hex (sp_publisher a)) | [] => true end
  && forallb (fun a => bytesOf 64 (Hex (sp_signature a))) atts.

Definition writeOk (w : KeeperWrite) : bool :=
  match w with
  | WUpdateBatch atts => batchOk atts
  | WSyncAssetPnl a | WCheckAdlTrigger a => validSymbol a
  | WExecuteViaRouter _ a r | WLiquidateViaRouter _ a r | WAdlCloseViaRouter _ a r => relayedOk (a, r)
  | WLiquidateCrossViaRouter _ rounds => forallb relayedOk rounds
  | _ => true
  end.

(** A write that carries a round to the router. *)
Definition carriesRound (w : KeeperWrite) : bool :=
  match w with
  | WExecuteViaRouter _ _ _ | WLiquidateViaRouter _ _ _ | WAdlCloseViaRouter _ _ _ | WLiquidateCrossViaRouter _ (_ :: _) => true
  | _ => false
  end.

Lemma roundStruct_typed a r v : roundStruct true a r = Ok v -> hasType TAttestation v = relayedOk (a, r).
Proof.
  intros Hv. destruct (roundStruct_read true a r v Hv) as (att & Hatt & _).
  destruct (roundStruct_builder a r att Hatt) as [Heq _]. rewrite Heq in Hv. rewrite (typed_attestation att v Hv).
  unfold attOf in Hatt. inv_binds. injection Hatt as <-. unfold roundOk, relayedOk. cbn. by rewrite !andb_true_r.
Qed.

Lemma batch_typed first atts vs c :
  batchArgs first atts = Ok vs -> args c = vs -> method c = "update_batch_ed25519_persistent"%string ->
  wellTyped oracleInterface c
  = forallb tagOk atts && bytesOf 32 (Hex (sp_publisher first)) && forallb (fun a => bytesOf 64 (Hex (sp_signature a))) atts.
Proof.
  unfold batchArgs. intros Hv Ha Hm. inv_binds. injection Hv as <-. unfold wellTyped. rewrite Ha, Hm.
  rename select (encAll _ _ = _) into He.
  apply (encAll_typed _ TI128 (fun _ => true)) in He; [|intros x v _ Hx; inv_binds; by eapply typed_i128].
  rewrite forallb_true in He.
  repeat match goal with Hx : encU64 _ = Ok _ |- _ => apply typed_u64 in Hx end.
  change (signatureOf oracleInterface "update_batch_ed25519_persistent")
    with (Some [TVec (TBytesN 8); TVec TI128; TU64; TU64; TBytesN 32; TVec (TBytesN 64)]). cbn iota beta.
  cbn [checkArgs]. rewrite !typed_byte_column. rewrite He.
  repeat match goal with Hx : hasType TU64 ?v = true |- context [hasType TU64 ?v] => rewrite Hx end.
  cbn [hasType]. unfold tagOk, bytesOf. by rewrite !andb_true_r, !andb_true_l, andb_assoc.
Qed.

(** Its struct names one price, the current one's a list. *)
Lemma legacy_struct_refused a r v : roundStruct false a r = Ok v -> hasType TAttestation v = false.
Proof.
  unfold roundStruct. intros Hv. inv_binds. injection Hv as <-. unfold TAttestation. cbn [hasType String.eqb Ascii.eqb Bool.eqb andb].
  by rewrite ?andb_false_r.
Qed.

Lemma old_write_refused k w c :
  carriesRound w = true -> keeperWrite k false w = inr (Ok c) -> wellTyped (writeInterface w) c = false.
Proof.
  intros Hcarries Hc. destruct w; try discriminate Hcarries; cbn [keeperWrite writeInterface] in *; unfold viaRouter in Hc;
    repeat case_match; try discriminate Hc; apply (inj inr) in Hc; apply keeperCall_inv in Hc as (vs & Hvs & ->).
  1-3: unfold actorRound, routerCallArgs, buildRouterCallArgs, legacyTail in Hvs; inv_binds;
    repeat match goal with Hx : Ok _ = Ok _ |- _ => injection Hx as Hx; subst end; inv_enc; refused_by_arity.
  inv_binds. injection Hvs as <-. destruct rounds as [|[s0 r0] rounds]; [done|].
  rename select (encAll _ _ = _) into He. cbn [encAll] in He. inv_binds. injection He as <-.
  rename select (roundStruct false _ _ = _) into Hs. apply legacy_struct_refused in Hs.
  unfold wellTyped; cbn [method args]. change (signatureOf routerInterface "liquidate_cross_with_prices")
    with (Some [TAddress; TAddress; TVec TAttestation]). cbn iota beta. cbn [checkArgs hasType forallb]. by rewrite Hs.
Qed.

Lemma old_write_same k w : carriesRound w = false -> keeperWrite k false w = keeperWrite k true w.
Proof. destruct w as [| | | | | | | | | |t [|]| | | |]; done. Qed.

Lemma keeper_write_typed k w c : keeperWrite k true w = inr (Ok c) -> wellTyped (writeInterface w) c = writeOk w.
Proof.
  intros Hw. destruct w as [[|first atts]| | | | | | | | | | | | | |]; cbn [writeInterface writeOk keeperWrite] in *; try done.
  1: { destruct (mixed _ _); [done|]. apply (inj inr) in Hw. apply keeperCall_inv in Hw as (vs & Hvs & ->).
       by eapply batch_typed. }
  all: unfold viaRouter in Hw; repeat case_match; try discriminate Hw; apply (inj inr) in Hw;
    apply keeperCall_inv in Hw as (vs & Hvs & ->);
    unfold actorAndId, actorRound, routerCallArgs, buildRouterCallArgsV2, buildPriceAttestationScValV2 in Hvs; inv_binds;
    repeat match goal with
    | Hx : Ok _ = Ok _ |- _ => injection Hx as Hx; subst
    | Hx : roundStruct true _ _ = Ok _ |- _ => apply roundStruct_typed in Hx; unfold relayedOk in *
    | Hx : encAll _ _ = Ok _ |- _ => apply (encAll_typed _ TAttestation relayedOk) in Hx; [|intros [b rr] v _; apply roundStruct_typed]
    end; type_check.
Qed.

Lemma keeper_generations_typed k v2 w c :
  keeperWrite k v2 w = inr (Ok c) -> wellTyped (writeInterface w) c = (v2 || negb (carriesRound w)) && writeOk w.
Proof.
  destruct v2; cbn [orb andb]; [apply keeper_write_typed|]. intros Hc.
  destruct (carriesRound w) eqn:Hd; cbn [negb andb]; [by eapply old_write_refused|].
  rewrite old_write_same in Hc by done. by eapply keeper_write_typed.
Qed.
End clients.

(** The vault and referral screens: what each asks the wallet to sign. *)
Inductive ScreenAction :=
| AMove (m : LpMove)
| ACreateVault (name : string) | APause (vaultId : Z) (paused : bool) | AClaimFees (vaultId : Z)
| ALeaderOpen (vaultId : Z) (a : string) (c l : Z) (d : Side) | ALeaderClose (vaultId positionId : Z)
| ACreateCode (code : string) | ASetReferrer (code : string) | AClaim.

Definition screenInterface (a : ScreenAction) : Interface :=
  match a with
  | AMove (ToPool _) | AMove (FromPool _) => poolInterface
  | ACreateCode _ | ASetReferrer _ | AClaim => referralInterface
  | _ => factoryInterface
  end.

Definition actionOk (a : ScreenAction) : bool :=
  match a with ALeaderOpen _ s _ _ _ => validSymbol s | _ => true end.

Section screens.
Context `{IntCodec} `{FeeBuilder} (toXDR : ContractCall -> Transaction -> string) (cfg : Contracts).

Definition runScreen (who : string) (w : TxWorld) (a : ScreenAction) : Flow () :=
  match a with
  | AMove m => runMove toXDR cfg who w m
  | ACreateVault n => discard (createVault toXDR cfg who w n)
  | APause v b => setVaultPaused toXDR cfg who w v b
  | AClaimFees v => claimLeaderFees toXDR cfg who w v
  | ALeaderOpen v s c l d => leaderOpenPosition toXDR cfg who w v s c l d
  | ALeaderClose v p => leaderClosePosition toXDR cfg who w v p
  | ACreateCode c => createReferralCode toXDR cfg who w c
  | ASetReferrer c => setReferrer toXDR cfg who w c
  | AClaim => discard (claimReferralFees toXDR cfg who w)
  end.

Lemma factoryWrite_asked mk w c xdr :
  WalletAsked c xdr ∈ (factoryWrite toXDR cfg mk w).2 -> exists f, mk f = Ok c.
Proof.
  unfold factoryWrite. intros [Hin|(f & _ & Hin)]%elem_of_flow_bind; [by apply factoryAddress_silent in Hin|].
  in_flow. apply asked_in_submit in Hin as [-> _]. by exists f.
Qed.

Lemma referral_silent e : e ∈ (getReferralAddress cfg).2 -> False.
Proof. unfold getReferralAddress. destruct (REFERRAL cfg) as [a|]; [destruct (truthy a)|]; intros ?; in_flow. Qed.

(** Moves quote before they ask, so the asked call has an amount that fits. *)
Lemma move_typed who w m c xdr :
  WalletAsked c xdr ∈ (runMove toXDR cfg who w m).2 -> wellTyped (screenInterface (AMove m)) c = true.
Proof.
  destruct m as [v a|v a|a|a]; cbn [runMove screenInterface]; unfold depositToVault, withdrawFromVault, quotedMove, deposit,
    withdraw, quotedPool, discard; intros Hin.
  3,4: apply elem_of_flow_bind in Hin as [Hin|(? & _ & Hin)]; [|in_flow].
  1,2: apply elem_of_flow_bind in Hin as [Hin|(f & Hf & Hin)]; [by apply factoryAddress_silent in Hin|].
  all: eapply (quoted_asked toXDR cfg _ _ w c xdr) in Hin as (_ & q & _ & _ & Hc & _);
    [|intros e He; first [by apply returned_silent in He | by in_flow]].
  all: unfold vaultMove, poolMove, callTo in Hc; inv_binds; type_check.
Qed.

Lemma screen_typed who w a c xdr :
  WalletAsked c xdr ∈ (runScreen who w a).2 -> wellTyped (screenInterface a) c = actionOk a.
Proof.
  intros Hin. destruct a; cbn [runScreen screenInterface actionOk] in *; [by apply move_typed in Hin|..];
    unfold setVaultPaused, claimLeaderFees, leaderOpenPosition, leaderClosePosition, createReferralCode, setReferrer,
      createVault, claimReferralFees, referralWrite, discard in Hin.
  2-5: apply factoryWrite_asked in Hin as (f & Hc); unfold callTo, plainCall in Hc; inv_binds; type_check.
  1,4: apply elem_of_flow_bind in Hin as [Hin|(? & _ & Hin)]; [|in_flow].
  all: apply elem_of_flow_bind in Hin as [Hin|(f & _ & Hin)];
    [first [by apply factoryAddress_silent in Hin | by apply referral_silent in Hin]|]; in_flow.
  all: try (by apply returned_silent in Hin).
  all: apply asked_in_submit in Hin as [-> _]; unfold callTo in *; inv_binds; type_check.
Qed.

(** ** Every call of every client *)

(** A call some client sends to a contract of this interface, for either
    generation of the contracts, and whether the host will take it: it was built
    for the current generation, or is the same for both, and what it carries can
    be read. *)
Inductive Issued : Interface -> bool -> ContractCall -> Prop :=
| issued_gateway market trader b c : dispatch market trader b = inr c -> Issued marketInterface true c
| issued_package router ok c : BuiltByPackage router ok c -> Issued routerInterface ok c
| issued_web who r batch1 att c :
    requestCall cfg who r batch1 att = Ok c ->
    Issued (webInterface cfg r) ((batch1 || negb (datedTrade cfg r)) && tradeOk cfg r att) c
| issued_keeper k v2 w c :
    keeperWrite k v2 w = inr (Ok c) -> Issued (writeInterface w) ((v2 || negb (carriesRound w)) && writeOk w) c
| issued_screen who w a c xdr : WalletAsked c xdr ∈ (runScreen who w a).2 -> Issued (screenInterface a) (actionOk a) c.


(** A call through the router built for the current generation, or the first. *)
Inductive RouterCall (v2 : bool) : ContractCall -> Prop :=
| router_trade who r att c :
    is_Some (relays r) -> tradeOk cfg r att = true -> requestCall cfg who r v2 att = Ok c -> RouterCall v2 c
| router_action k w c : carriesRound w = true -> writeOk w = true -> keeperWrite k v2 w = inr (Ok c) -> RouterCall v2 c.

(** Which generation of the router is deployed must be known: a trade or
    keeper action built for the first router is refused by the current one,
    whatever its values, and one built for the current router is accepted. *)
Theorem router_accepts_its_generation v2 c router :
  NOETHER_ROUTER cfg = Some router -> RouterCall v2 c -> wellTyped routerInterface c = v2.
Proof.
  intros Hrouter [who r att c' [a Ha] Hok Hc|k w c' Hcarries Hok Hc].
  - apply web_generations_typed in Hc. unfold webInterface, throughRouter in Hc. rewrite Ha, Hrouter in Hc. rewrite Hc, Hok, andb_true_r.
    destruct v2; [done|]. destruct r; try discriminate Ha; unfold datedTrade, throughRouter; cbn; by rewrite ?Hrouter.
  - apply keeper_generations_typed in Hc. rewrite Hcarries, Hok, andb_true_r, orb_false_r in Hc. by destruct w.
Qed.
End screens.

(** ** Concrete calls *)

Definition ed25519Round : Attestation := {|
  att_price := 600000000000; att_timestamp := 1700000000; att_roundId := 42;
  publisherHex := "0a0a0a0a0a0a0a0a0a0a0a0a0a0a0a0a0a0a0a0a0a0a0a0a0a0a0a0a0a0a0a0a";
  signatureHex := "ffffffffffffffffffffffffffffffffffffffffffffffffffffffffffffffffffffffffffffffffffffffffffffffffffffffffffffffffffffffffffffffff" |}.


Lemma router_accepts_its_generation_witness :
  exists c, @requestCall sdkCodec testnet "GA" openShort false (Some ed25519Round) = Ok c /\
    wellTyped routerInterface c = false.
Proof.
  eexists. split; [vm_compute; reflexivity|].
  apply (@router_accepts_its_generation sdkCodec testnet false _ "CR" eq_refl).
  eapply (router_trade testnet false "GA" openShort (Some ed25519Round)); [by eexists | vm_compute; reflexivity | vm_compute; reflexivity].
Defined.

(** A key of another length does not pass as one of 32 bytes. *)
Example short_key_is_refused :
  forall c, @requestCall sdkCodec testnet "GA" openShort true (Some someRound) = Ok c -> wellTyped routerInterface c = false.
Proof. intros c Hc. vm_compute in Hc. injection Hc as <-. vm_compute. reflexivity. Qed.
