(* ===== verification/WebOrderForm.v ===== *)
(** * The order form

    web/components/trading/OrderPanel.tsx without its markup: what the form
    refuses, what it submits, the orders it attaches to a position it opened,
    the previews of liquidation and fee, and the moves of the cross-margin
    pool. A submission is a [WebTrades.WebRequest]; amounts and prices are
    binary64 numbers read from text ([JsNumber]). *)

From Stdlib Require Import QArith Lqa.
From S2P Require Import Prelude JsText ApiBoard WebErrors ApiOrders WebTrades WebReads WebVaults WebVaultPages JsNumber.
Open Scope Z_scope.
Open Scope js_scope.

(** ** The form *)

Inductive OrderKind := kMarket | kLimit | kStopLimit | kTrailing.

#[export] Instance OrderKind_eq_dec : EqDecision OrderKind.
Proof. solve_decision. Defined.

Record OrderForm := {
  f_asset : string; f_direction : Side; f_kind : OrderKind; f_margin : MarginMode;
  f_collateral : string; f_leverage : Z;
  triggerSideOverride : option TriggerCondition; triggerPrice : string; stopPrice : string; limitPrice : string;
  slippageTolerance : Z; f_timeInForce : Z; f_reduceOnly : bool;
  trailingPercent : string; trailingPositionId : string; attachSl : string; attachTp : string }.

(** What the panel knows: [None] is an unknown balance. *)
Record Panel := {
  isConnected : bool; publicKey : option string;
  xlmBalance : option number; usdcBalance : option number; crossBalance : option number;
  leaderVault : option (Z * Z);     (** id and totalUsdc *)
  batch1Features : bool; assetPrice : number; sideHeadroom : option number;
  positions : list DisplayPosition }.

Definition isLeader (p : Panel) : bool := bool_decide (is_Some (leaderVault p)).

(** Leader mode snaps back to isolated market orders. *)
Definition snapLeader (p : Panel) (f : OrderForm) : OrderForm :=
  if isLeader p then
    {| f_asset := f_asset f; f_direction := f_direction f; f_kind := kMarket; f_margin := Isolated;
       f_collateral := f_collateral f; f_leverage := f_leverage f; triggerSideOverride := triggerSideOverride f;
       triggerPrice := triggerPrice f; stopPrice := stopPrice f; limitPrice := limitPrice f;
       slippageTolerance := slippageTolerance f; f_timeInForce := f_timeInForce f; f_reduceOnly := f_reduceOnly f;
       trailingPercent := trailingPercent f; trailingPositionId := trailingPositionId f;
       attachSl := attachSl f; attachTp := attachTp f |}
  else f.

(** What is left of typed text in the amount fields: [replace(/[^0-9.]/g, '')]. *)
Fixpoint amountField (s : string) : string :=
  match s with
  | String c s => if isDigit c || Ascii.eqb c "."%char then String c (amountField s) else amountField s
  | EmptyString => EmptyString
  end.

(** The custom slippage field: the tolerance it leaves, in basis points. *)
Definition customSlippage (current : Z) (typed : string) : Z :=
  let parsed := parseFloat (amountField typed) in
  if negb (isNaN parsed) && isPositive parsed && leN parsed (numberOfZ 100)
  then default current (roundZ (mulN parsed (numberOfZ 100))) else current.

(** [parseFloat(x) || 0] *)
Definition amountOf (s : string) : number := orZero (parseFloat s).

Definition collateralNum (f : OrderForm) : number := amountOf (f_collateral f).
Definition positionSize (f : OrderForm) : number := mulN (collateralNum f) (numberOfZ (f_leverage f)).

Definition sideDefault (d : Side) : TriggerCondition := match d with Long => Below | Short => Above end.
Definition limitTriggerSide (f : OrderForm) : TriggerCondition := default (sideDefault (f_direction f)) (triggerSideOverride f).
Definition stopTriggerSide (f : OrderForm) : TriggerCondition := default (sideDefault (f_direction f)) (triggerSideOverride f).

Definition vaultBalanceUsdc (p : Panel) : number :=
  match leaderVault p with
  | Some (_, total) => divN (numberOfZ total) (numberOfZ VAULT_PRECISION)
  | None => S754_zero false
  end.

Definition spendableBalance (p : Panel) (f : OrderForm) : option number :=
  if isLeader p then Some (vaultBalanceUsdc p)
  else match f_margin f with
  | Cross => match crossBalance p, usdcBalance p with Some c, Some w => Some (addN c w) | _, _ => None end
  | Isolated => usdcBalance p
  end.

Definition canAttachTpSl (p : Panel) (f : OrderForm) : bool :=
  bool_decide (f_kind f = kMarket) && negb (isLeader p) && (batch1Features p || bool_decide (f_margin f = Isolated)).

(** ** Validation *)

Inductive FormError :=
| SelectPosition | NotForCross | NeedXlm | MinimumCollateral | BalanceTooLow | ExceedsMaximum | PoolCapacity
| LeaderIsolatedOnly | LeaderMarketOnly | BadSlippage | EnterTrigger | EnterStop | EnterLimit | TpWrongSide | SlWrongSide.

Definition when (b : bool) (e : FormError) : list FormError := if b then [e] else [].

(** [positions.find(p => p.id === id)?.marginMode === 'Cross'] *)
Definition crossPosition (p : Panel) (id : Z) : bool :=
  match firstSome (fun d => if d_id d =? id then Some (d_marginMode d) else None) (positions p) with
  | Some Cross => true
  | _ => false
  end.

Definition gt (x y : number) : bool := ltN y x.
Definition ge (x y : number) : bool := leN y x.

Definition noGas (p : Panel) : list FormError :=
  when (match xlmBalance p with Some x => ltN x (numberOfZ 1) | None => false end) NeedXlm.

(** A trigger on the wrong side of the price. *)
Definition tpWrong (d : Side) (level price : number) : bool :=
  match d with Long => leN level price | Short => ge level price end.
Definition slWrong (d : Side) (level price : number) : bool :=
  match d with Long => ge level price | Short => leN level price end.

(** capacityExceeded, and capacityBlocks. *)
Definition capacityBlocks (p : Panel) (f : OrderForm) : bool :=
  match sideHeadroom p with
  | Some h => isPositive (positionSize f) && gt (positionSize f) h && bool_decide (f_kind f = kMarket)
  | None => false
  end.

Definition errors (p : Panel) (f : OrderForm) : list FormError :=
  match f_kind f with
  | kTrailing =>
      when (negb (truthy (trailingPositionId f))) SelectPosition ++
      when (negb (batch1Features p) && crossPosition p (numberOfDigits (trailingPositionId f))) NotForCross ++
      noGas p
  | kind =>
      let c := collateralNum f in
      when (isPositive c && ltN c (numberOfZ 10)) MinimumCollateral ++
      when (match spendableBalance p f with Some b => gt c b | None => false end) BalanceTooLow ++
      when (gt (positionSize f) (numberOfZ 100000)) ExceedsMaximum ++
      when (capacityBlocks p f) PoolCapacity ++
      noGas p ++
      when (isLeader p && bool_decide (f_margin f = Cross)) LeaderIsolatedOnly ++
      when (isLeader p && negb (bool_decide (kind = kMarket))) LeaderMarketOnly ++
      match kind with
      | kLimit =>
          when ((slippageTolerance f <=? 0) || (10000 <? slippageTolerance f)) BadSlippage ++
          when (negb (isPositive (amountOf (triggerPrice f)))) EnterTrigger
      | kStopLimit =>
          when (negb (isPositive (parseFloat (stopPrice f)))) EnterStop ++
          when (negb (isPositive (parseFloat (limitPrice f)))) EnterLimit
      | _ => []
      end ++
      (if canAttachTpSl p f && isPositive (assetPrice p) then
         let tp := amountOf (attachTp f) in
         let sl := amountOf (attachSl f) in
         when (isPositive tp && tpWrong (f_direction f) tp (assetPrice p)) TpWrongSide ++
         when (isPositive sl && slWrong (f_direction f) sl (assetPrice p)) SlWrongSide
       else [])
  end.

Definition canSubmit (p : Panel) (f : OrderForm) : bool :=
  isConnected p && match errors p f with [] => true | _ => false end &&
  match f_kind f with kTrailing => truthy (trailingPositionId f) | _ => ge (collateralNum f) (numberOfZ 10) end.

(** ** Submission *)

(** The worst fill accepted: 0 where there is none. *)
Definition openBound (p : Panel) (f : OrderForm) : Result Z :=
  if batch1Features p && isPositive (assetPrice p) && (0 <? slippageTolerance f) then
    let step := divN (numberOfZ (slippageTolerance f)) (numberOfZ 10000) in
    let factor := match f_direction f with Long => addN oneN step | Short => subN oneN step end in
    bigInt (roundZ (mulN (mulN (assetPrice p) factor) (numberOfZ 10000000)))
  else Ok 0.

Definition encodedTif (f : OrderForm) : Z := Z.lor (f_timeInForce f) (if f_reduceOnly f then 256 else 0).

(** attachTpSlAfterOpen: the orders asked for a position opened with an id.
    An amount that is no integer only loses its own order. *)
Definition attachTpSlAfterOpen (p : Panel) (f : OrderForm) (positionId : option Z) : list WebRequest :=
  match positionId with
  | None | Some 0 => []
  | Some id =>
      if bool_decide (is_Some (publicKey p)) && canAttachTpSl p f then
        (let sl := amountOf (attachSl f) in
         if isPositive sl then
           match toPrecision sl with inr t => [WStopLoss id t (slippageTolerance f)] | inl _ => [] end
         else []) ++
        (let tp := amountOf (attachTp f) in
         if isPositive tp then
           match toPrecision tp with inr t => [WTakeProfit id t (slippageTolerance f) None] | inl _ => [] end
         else [])
      else []
  end.

Inductive Submission :=
| Ignored
| RefusedCross
| LeaderTrade (who : string) (vaultId : Z) (asset : string) (collateral leverage : Z) (direction : Side)
| Trade (who : string) (r : WebRequest) (followUps : option Z -> list WebRequest).

(** handleSubmit. *)
Definition handleSubmit (p : Panel) (f : OrderForm) : Result Submission :=
  match canSubmit p f, publicKey p with
  | true, Some who =>
      let alone r := Trade who r (fun _ => []) in
      match f_kind f with
      | kTrailing =>
          let posId := numberOfDigits (span isDigit (trailingPositionId f)).1 in
          if negb (batch1Features p) && crossPosition p posId then Ok RefusedCross
          else
            let pct := match orZero (parseFloat (trailingPercent f)) with S754_zero _ => numberOfZ 3 | x => x end in
            bps ← bigInt (roundZ (mulN pct (numberOfZ 100)));
            Ok (alone (WTrailing posId bps (slippageTolerance f)))
      | kStopLimit =>
          c ← toPrecision (collateralNum f);
          stop ← toPrecision (amountOf (stopPrice f));
          limit ← toPrecision (amountOf (limitPrice f));
          Ok (alone (WStopLimit (f_asset f) (f_direction f) c (f_leverage f) stop limit
                       (match stopTriggerSide f with Above => true | Below => false end)
                       (slippageTolerance f) (Some (encodedTif f))))
      | kMarket =>
          match leaderVault p with
          | Some (vaultId, _) =>
              c ← toPrecision (collateralNum f);
              Ok (LeaderTrade who vaultId (f_asset f) c (f_leverage f) (f_direction f))
          | None =>
              bound ← openBound p f;
              c ← toPrecision (collateralNum f);
              match f_margin f with
              | Cross => Ok (alone (WOpenCross (f_asset f) c (f_leverage f) (f_direction f) (Some bound)))
              | Isolated =>
                  Ok (Trade who (WOpen (f_asset f) c (f_leverage f) (f_direction f) (Some bound)) (attachTpSlAfterOpen p f))
              end
          end
      | kLimit =>
          t ← toPrecision (amountOf (triggerPrice f));
          c ← toPrecision (collateralNum f);
          Ok (alone (WLimit (f_asset f) (f_direction f) c (f_leverage f) t (limitTriggerSide f)
                       (slippageTolerance f) (Some (encodedTif f))))
      end
  | _, _ => Ok Ignored
  end.

(** The cross-margin pool. *)
Inductive PoolRefusal := BelowMinimum | InsufficientWallet | ExceedsPool.

Definition handleCrossDeposit (p : Panel) (typed : string) : Result (PoolRefusal + WebRequest) :=
  let amount := amountOf typed in
  if ltN amount (numberOfZ 1) then Ok (inl BelowMinimum)
  else if match usdcBalance p with Some b => gt amount b | None => false end then Ok (inl InsufficientWallet)
  else a ← toPrecision amount; Ok (inr (WDeposit a)).

Definition handleCrossWithdraw (p : Panel) (typed : string) : Result (PoolRefusal + WebRequest) :=
  let amount := amountOf typed in
  if ltN amount (numberOfZ 1) then Ok (inl BelowMinimum)
  else if match crossBalance p with Some b => gt amount b | None => false end then Ok (inl ExceedsPool)
  else a ← toPrecision amount; Ok (inr (WWithdraw a)).

(** What a failed withdrawal is told as. *)
Definition crossWithdrawError (msg : string) : string :=
  if includes msg "#77" || includes msg "insufficient free margin" || includes msg "CrossMarginInsufficientFreeMargin" then
    "Insufficient free margin — reduce positions first"
  else if includes msg "#30" || includes msg "#31" || includes msg "Price feed stale" || includes msg "Invalid oracle price" then
    "Withdrawals are paused while an oracle feed for one of your positions is stale — closing positions still works"
  else let t := decodeContractError (ThrownMessage msg) atMarket in if truthy t then t else "Failed to withdraw".

(** ** Sizing buttons *)

(** handlePercentage: nothing while the balance is unknown. *)
Definition handlePercentage (p : Panel) (f : OrderForm) (pct : Z) : option string :=
  match spendableBalance p f with
  | None => None
  | Some b => decimalOfZ <$> floorZ (mulN b (divN (numberOfZ pct) (numberOfZ 100)))
  end.

(** maxCollateralForCapacity: one percent under the headroom. *)
Definition maxCollateralForCapacity (p : Panel) (f : OrderForm) : option Z :=
  match sideHeadroom p with
  | Some h => if 0 <? f_leverage f then floorZ (divN (mulN h (parseFloat "0.99")) (numberOfZ (f_leverage f))) else Some 0
  | None => Some 0
  end.

(** The headroom counts only from a trusted gateway and for a minute. *)
Definition capacityKnown (gatewayTrusted : bool) (now statsUpdatedAt : Z) (headroom : option number) : option number :=
  if gatewayTrusted && (0 <? statsUpdatedAt) && (now - statsUpdatedAt <? 60000) then headroom else None.

(** The clamp of the leverage on a switch of assets. *)
Definition clampLeverage (cap : option Z) (leverage : Z) : Z :=
  let effective := default 10 cap in if effective <? leverage then effective else leverage.

(** ** Previews *)

Definition effectiveEntryPrice (p : Panel) (f : OrderForm) : option number :=
  let positive x := if isPositive x then Some x else None in
  match f_kind f with
  | kLimit => positive (parseFloat (triggerPrice f))
  | kStopLimit => positive (parseFloat (limitPrice f))
  | _ => positive (assetPrice p)
  end.

Definition isLong (f : OrderForm) : bool := match f_direction f with Long => true | Short => false end.

Definition liquidationPrice (p : Panel) (f : OrderForm) : option number :=
  (fun entry => calculateLiquidationPrice entry (numberOfZ (f_leverage f)) (isLong f) (numberOfZ 100)) <$> effectiveEntryPrice p f.

Definition sumN (l : list number) : number := foldl addN (S754_zero false) l.

(** [Math.max(0, x)] *)
Definition floorAtZero (x : number) : number := if isNaN x then x else if isPositive x then x else S754_zero false.

Definition crossLiqEstimate (p : Panel) (f : OrderForm) : option number :=
  match f_margin f, effectiveEntryPrice p f, crossBalance p with
  | Cross, Some entry, Some balance =>
      if negb (isPositive (collateralNum f)) || negb (isPositive (positionSize f)) then None
      else
        let cs := bfilter (fun d => bool_decide (d_marginMode d = Cross)) (positions p) in
        if existsb (fun d => negb (isFinite (d_pnl d))) cs then None
        else
          let walletTopUp := floorAtZero (subN (collateralNum f) balance) in
          let equityAfterOpen :=
            addN (addN (addN balance (sumN (d_collateral <$> cs))) (sumN (d_pnl <$> cs))) walletTopUp in
          let maintenanceAfterOpen := mulN (addN (sumN (d_size <$> cs)) (positionSize f)) (parseFloat "0.01") in
          let ratio := divN (subN maintenanceAfterOpen equityAfterOpen) (positionSize f) in
          let liq := if isLong f then mulN entry (addN oneN ratio) else mulN entry (subN oneN ratio) in
          if isPositive liq then Some liq else None
  | _, _, _ => None
  end.

(** The notional a market order would meet on the other side. *)
Definition opposingNotional (p : Panel) (f : OrderForm) : number :=
  if negb (batch1Features p) || negb (bool_decide (f_kind f = kMarket)) then S754_zero false
  else sumN (d_size <$> bfilter (fun d => String.eqb (d_asset d) (f_asset f) && negb (bool_decide (d_direction d = f_direction f))
                            && bool_decide (d_marginMode d = f_margin f)) (positions p)).

(** ** Fees *)

Record Tier := { minVolume : Z; makerBps : Z; takerBps : Z }.

Definition FEE_TIERS : list Tier :=
  [ {| minVolume := 0; makerBps := 20; takerBps := 50 |}; {| minVolume := 20000; makerBps := 15; takerBps := 40 |};
    {| minVolume := 50000; makerBps := 10; takerBps := 30 |}; {| minVolume := 100000; makerBps := 5; takerBps := 20 |} ].

Definition baseTier : Tier := {| minVolume := 0; makerBps := 20; takerBps := 50 |}.

(** The search of projectedFee, from the last tier down. *)
Definition tierFor (volume : number) : Tier :=
  default baseTier (firstSome (fun t => if ge volume (numberOfZ (minVolume t)) then Some t else None) (rev FEE_TIERS)).

Definition feeUnits (t : Tier) (isMaker : bool) : Z := if isMaker then makerBps t else takerBps t.

Definition isMaker (f : OrderForm) : bool := match f_kind f with kLimit | kStopLimit => true | _ => false end.

Definition projectedFee (existing14dVolume : option number) (f : OrderForm) : Tier * number :=
  let t := tierFor (addN (default (S754_zero false) existing14dVolume) (positionSize f)) in
  (t, divN (mulN (positionSize f) (numberOfZ (feeUnits t (isMaker f)))) (numberOfZ 100000)).

(** contracts/market/src/trading.rs. *)
Definition default_fee_tiers : list Tier :=
  [ {| minVolume := 0; makerBps := 20; takerBps := 50 |}; {| minVolume := 20000 * PRECISION; makerBps := 15; takerBps := 40 |};
    {| minVolume := 50000 * PRECISION; makerBps := 10; takerBps := 30 |};
    {| minVolume := 100000 * PRECISION; makerBps := 5; takerBps := 20 |} ].

Definition determine_fee_tier (volume : Z) (tiers : list Tier) : Tier :=
  foldl (fun best t => if minVolume t <=? volume then t else best) baseTier tiers.

Definition calculate_tiered_fee (size : Z) (is_maker : bool) (t : Tier) : Z := (size * feeUnits t is_maker) ÷ 100000.

(** ** Lemmas: reading amounts *)

Lemma valueOf_app a b : valueOf (a +:+ b) = foldl addDigit (valueOf a) (String.list_ascii_of_string b).
Proof. unfold valueOf. by rewrite list_ascii_app, foldl_app. Qed.

Lemma valueOf_shift n s : foldl addDigit n (String.list_ascii_of_string s) = n * 10 ^ Z.of_nat (String.length s) + valueOf s.
Proof.
  unfold valueOf. revert n. induction s as [|c s IH]; intros n; [cbn; lia|].
  cbn [String.list_ascii_of_string foldl String.length]. rewrite (IH (addDigit n c)), (IH (addDigit 0 c)).
  rewrite Nat2Z.inj_succ, Z.pow_succ_r by lia. unfold addDigit. ring.
Qed.

Lemma valueOf_zeros n : valueOf (zeros n) = 0.
Proof. induction n as [|n IH]; [done|]. exact IH. Qed.

Lemma zeros_length n : String.length (zeros n) = n.
Proof. induction n as [|n IH]; [done|]. cbn. by rewrite IH. Qed.

Lemma digit_first c s : isDigit c = true ->
  skipSpace (String c s) = String c s /\ signOf (String c s) = (false, String c s) /\ startsWith "Infinity" (String c s) = false.
Proof. destruct c as [[] [] [] [] [] [] [] []]; intros Hc; try discriminate Hc; done. Qed.

(** A decimal of at most seven places, as it stands for [n] units. *)
Definition typed (t : string) (n : Z) : Prop :=
  exists w f, digits w /\ digits f /\ truthy w = true /\ (String.length f <= 7)%nat /\
    t = (if truthy f then w +:+ "." +:+ f else w) /\ n = valueOf (w +:+ f) * 10 ^ (7 - Z.of_nat (String.length f)).

(** Such a text is what the exact reader of the vault form accepts. *)
Lemma typed_parse t n : typed t n -> parseAmount t = Some n.
Proof.
  intros (w & f & Hw & Hf & Htw & Hlen & -> & ->). rewrite valueOf_app, valueOf_shift. destruct (truthy f) eqn:Htf.
  - unfold parseAmount. rewrite (span_app _ w _ Hw) by done. rewrite Htw. cbn [negb]. str_simpl. rewrite Ascii.eqb_refl.
    rewrite (span_all _ f Hf), Htf. cbn [truthy String.eqb negb andb]. rewrite (substring_all f 7 Hlen). f_equal.
    unfold padEnd0. rewrite valueOf_app, valueOf_shift, valueOf_zeros, zeros_length.
    unfold VAULT_PRECISION. rewrite Nat2Z.inj_sub by lia. change (Z.of_nat 7) with 7.
    rewrite Z.add_0_r, Z.mul_add_distr_r, <- Z.mul_assoc, <- Z.pow_add_r by lia.
    replace (Z.of_nat (String.length f) + (7 - Z.of_nat (String.length f))) with 7 by lia. lia.
  - destruct f as [|c f]; [|done]. unfold parseAmount. rewrite (span_all _ w Hw), Htw. cbn [negb]. f_equal.
    change (valueOf (padEnd0 7 EmptyString)) with 0. cbn [String.length valueOf]. unfold VAULT_PRECISION. cbn. lia.
Qed.

Lemma typed_read t n :
  typed t n -> exists w f, (String.length f <= 7)%nat /\ n = valueOf (w +:+ f) * 10 ^ (7 - Z.of_nat (String.length f)) /\
    parseFloat t = nearestDecimal false (valueOf (w +:+ f)) (- Z.of_nat (String.length f)).
Proof.
  intros (w & f & Hw & Hf & Htw & Hlen & -> & Hn). exists w, f. split; [done|]. split; [exact Hn|].
  destruct w as [|c w]; [done|]. pose proof Hw as Hw'. inversion Hw' as [|? ? Hc _]; subst.
  unfold parseFloat. destruct (truthy f) eqn:Htf.
  - destruct (digit_first c (w +:+ "." +:+ f) Hc) as (Hs & Hg & Hi). rewrite !str_app_cons in *. rewrite Hs, Hg, Hi.
    rewrite <- str_app_cons, (span_app _ (String c w) _ Hw) by done. str_simpl. rewrite (span_all _ f Hf). rewrite Htw.
    cbn [orb exponentOf]. by rewrite Z.sub_0_l, str_app_cons.
  - destruct f as [|d f]; [|done]. destruct (digit_first c w Hc) as (Hs & Hg & Hi). rewrite Hs, Hg, Hi.
    rewrite (span_all _ (String c w) Hw). rewrite Htw. cbn [orb exponentOf String.length]. done.
Qed.

Lemma TEN7 : numberOfZ 10000000 = S754_finite false 5368709120000000 (-29).
Proof. vm_compute. reflexivity. Qed.

Lemma TEN7_val : (val (S754_finite false 5368709120000000 (-29)) == 10000000 # 1)%Q.
Proof. vm_compute. reflexivity. Qed.

Lemma inject_bounds n lo hi : lo <= n <= hi -> (inject_Z lo <= inject_Z n /\ inject_Z n <= inject_Z hi)%Q.
Proof. intros [H1 H2]. by rewrite <- !Zle_Qle. Qed.

(** The number read is the one nearest to the amount. *)
Lemma typed_nearest t n : typed t n -> 0 < n <= 2 ^ 53 -> nearest (parseFloat t) (inject_Z n * (1 # 10000000)).
Proof.
  intros Ht Hn. destruct (typed_read t n Ht) as (w & f & Hlen & -> & ->). set (k := Z.of_nat (String.length f)) in *.
  assert (0 < 10 ^ (7 - k)) by (apply Z.pow_pos_nonneg; lia).
  destruct (valueOf (w +:+ f)) as [|p|p]; [lia| |lia].
  assert (Zpos p <= 2 ^ 53) by nia.
  assert (2 ^ 53 < 2 ^ 400) by (vm_compute; reflexivity).
  eapply nearest_proper; [|apply (decimal_nearest p k); lia].
  rewrite inject_Z_mult. assert (10 ^ (7 - k) * 10 ^ k = 10 ^ 7) as H7 by (rewrite <- Z.pow_add_r by lia; f_equal; lia).
  assert (0 < 10 ^ k) by (apply Z.pow_pos_nonneg; lia). destruct (10 ^ k) as [|q|q]; try lia. destruct (10 ^ (7 - k)) as [|r|r]; try lia.
  unfold Qeq, Qdiv, Qmult, Qinv, inject_Z. cbn [Qnum Qden]. rewrite ?Pos2Z.inj_mul. change (10 ^ 7) with 10000000 in H7. nia.
Qed.

Lemma nearest_positive x X : nearest x X -> orZero x = x.
Proof. by intros (m & e & -> & _). Qed.

Lemma scaled_nearest t n :
  typed t n -> 0 < n <= 2 ^ 50 ->
  nearest (parseFloat t) (inject_Z n * (1 # 10000000)) /\
  nearest (mulN (parseFloat t) (numberOfZ 10000000)) (val (parseFloat t) * (10000000 # 1)).
Proof.
  intros Ht Hn. pose proof (typed_nearest t n Ht ltac:(lia)) as Hx. split; [done|].
  destruct (inject_bounds n 1 (2 ^ 50) ltac:(lia)) as [H1 H2]. change (inject_Z 1) with 1%Q in H1.
  change (inject_Z (2 ^ 50)) with (1125899906842624 # 1)%Q in H2.
  destruct (nearest_range _ _ Hx) as (m & e & -> & Hm & He); [lra|lra|].
  rewrite TEN7. rewrite <- TEN7_val. apply mul_nearest; lia.
Qed.

Lemma bigInt_finite (x : number) X : nearest x X -> exists z, floorZ x = Some z /\ exists r, roundZ x = Some r.
Proof. intros (m & e & -> & _). cbn. by repeat eexists. Qed.

(** Flooring loses at most a unit, rounding none. *)
Lemma scaled_amount t n :
  typed t n -> 0 < n <= 2 ^ 50 ->
  (toPrecision (amountOf t) = Ok n \/ toPrecision (amountOf t) = Ok (n - 1)) /\ roundUnits (amountOf t) = Ok n /\
  (n mod 10000000 = 0 -> toPrecision (amountOf t) = Ok n).
Proof.
  intros Ht Hn. destruct (scaled_nearest t n Ht Hn) as [Hx Hp].
  unfold amountOf, toPrecision, roundUnits, PRECISION. rewrite (nearest_positive _ _ Hx).
  destruct (bigInt_finite _ _ Hp) as (z & Hz & r & Hr). rewrite Hz, Hr. cbn [bigInt].
  pose proof (floor_val _ _ Hz) as [Hf1 Hf2]. pose proof (round_val _ _ Hr) as [Hr1 Hr2].
  pose proof Hx as (_ & _ & _ & _ & _ & [Hx1 Hx2] & _). pose proof Hp as (_ & _ & _ & _ & _ & [Hp1 Hp2] & _).
  destruct (inject_bounds n 1 (2 ^ 50) ltac:(lia)) as [Hn1 Hn2]. change (inject_Z 1) with 1%Q in Hn1.
  change (inject_Z (2 ^ 50)) with (1125899906842624 # 1)%Q in Hn2. unfold u in *.
  push_inject Hf2. push_inject Hr1. push_inject Hr2. unfold Z.sub in Hr1. push_inject Hr1.
  change (inject_Z 1) with 1%Q in *. change (inject_Z 2) with 2%Q in *. change (inject_Z (- (1))) with (- (1))%Q in *.
  set (v := val (mulN _ _)) in *. set (y := val (parseFloat t)) in *.
  assert (inject_Z n - (1 # 2) < v /\ v < inject_Z n + (1 # 2))%Q as [Hv1 Hv2] by (split; lra).
  assert (z = n \/ z = n - 1) as Hzn.
  { assert (inject_Z z < inject_Z (n + 1))%Q as Hu by (push_goal; lra).
    assert (inject_Z (n - 2) < inject_Z z)%Q as Hl by (unfold Z.sub; push_goal; lra).
    rewrite <- Zlt_Qlt in Hu, Hl. lia. }
  split; [destruct Hzn as [-> | ->]; auto|]. split.
  - f_equal. apply Qeq_Z_between; unfold Z.sub; push_goal; lra.
  - intros Hmod. apply Z.mod_divide in Hmod as [k Hk]; [|lia].
    assert (inject_Z n * (1 # 10000000) == inject_Z k)%Q as Hnk by (rewrite Hk, inject_Z_mult; change (inject_Z 10000000) with (10000000 # 1)%Q; field).
    rewrite Hnk in Hx. pose proof (nearest_integer _ _ Hx ltac:(lia)) as Hyk. fold y in Hyk.
    assert (y * (10000000 # 1) == inject_Z n)%Q as Hyn by (rewrite Hyk, Hk, inject_Z_mult; reflexivity).
    rewrite Hyn in Hp. pose proof (nearest_integer _ _ Hp ltac:(lia)) as Hvn. fold v in Hvn. f_equal.
    rewrite Hvn in Hf1, Hf2. rewrite <- Zle_Qle in Hf1.
    assert (inject_Z n < inject_Z (z + 1))%Q as Hlt by (push_goal; exact Hf2). rewrite <- Zlt_Qlt in Hlt. lia.
Qed.

Lemma TEN : numberOfZ 10 = S754_finite false 5629499534213120 (-49).
Proof. vm_compute. reflexivity. Qed.

Lemma typed_nonneg t n : typed t n -> 0 <= n.
Proof.
  intros (w & f & Hw & Hf & _ & Hlen & _ & ->). apply Z.mul_nonneg_nonneg; [|apply Z.pow_nonneg; lia].
  assert (digits (w +:+ f)) as Hd by (unfold digits; rewrite list_ascii_app; by apply Forall_app_2).
  assert (forall l n, Forall (fun c => isDigit c = true) l -> 0 <= n -> 0 <= foldl addDigit n l) as Hfold.
  { intros l. induction l as [|c l IH]; intros m Hl Hm; [done|]. inversion Hl as [|? ? Hc Hl']; subst. cbn. apply IH; [done|].
    unfold addDigit. unfold isDigit in Hc. apply andb_true_iff in Hc as [H1 _]. apply N.leb_le in H1. lia. }
  by apply Hfold.
Qed.

(** The form's own floor of 10 USDC, on the amount meant. *)
Lemma typed_minimum t n :
  typed t n -> n <= 2 ^ 50 -> ge (amountOf t) (numberOfZ 10) = true -> ltN (amountOf t) (numberOfZ 10) = false -> 100000000 <= n.
Proof.
  intros Ht Hn Hge Hlt. pose proof (typed_nonneg t n Ht) as H0. destruct (Z.eq_dec n 0) as [->|Hne].
  { exfalso. destruct (typed_read t 0 Ht) as (w & f & Hlen & Hv & Hp). unfold amountOf in Hge. rewrite Hp in Hge.
    assert (0 < 10 ^ (7 - Z.of_nat (String.length f))) by (apply Z.pow_pos_nonneg; lia).
    assert (valueOf (w +:+ f) = 0) as Hv0 by nia. rewrite Hv0 in Hge. discriminate Hge. }
  destruct (Z.lt_ge_cases n 100000000) as [Hsmall|]; [exfalso|done].
  pose proof (typed_nearest t n Ht ltac:(lia)) as Hx. unfold amountOf in *. rewrite (nearest_positive _ _ Hx) in Hlt.
  pose proof Hx as (m & e & Hf & Hm & _ & [_ Hu] & _). rewrite TEN in Hlt. rewrite Hf in *.
  apply not_true_iff_false in Hlt. apply Hlt. apply ltN_val; [done|done|].
  assert (val (S754_finite false 5629499534213120 (-49)) == 10 # 1)%Q as Hten by (vm_compute; reflexivity).
  rewrite Hten. destruct (inject_bounds n 1 99999999 ltac:(lia)) as [_ Hn2]. change (inject_Z 99999999) with (99999999 # 1)%Q in Hn2.
  unfold u in Hu. lra.
Qed.

Lemma when_nil b e : when b e = [] -> b = false.
Proof. by destruct b. Qed.

Ltac no_errors H :=
  repeat match type of H with
  | _ ++ _ = [] => let H1 := fresh "Hok" in apply app_nil in H as [H1 H]; try apply when_nil in H1
  end.

Lemma canSubmit_inv p f :
  canSubmit p f = true -> isConnected p = true /\ errors p f = [] /\
  match f_kind f with kTrailing => truthy (trailingPositionId f) | _ => ge (collateralNum f) (numberOfZ 10) end = true.
Proof. unfold canSubmit. intros [[Hc He]%andb_true_iff Hk]%andb_true_iff. split; [done|]. split; [by destruct (errors p f)|done]. Qed.

(** What a clean form says of its amount. *)
Lemma clean_amount p f :
  canSubmit p f = true -> f_kind f <> kTrailing ->
  ge (collateralNum f) (numberOfZ 10) = true /\ (isPositive (collateralNum f) && ltN (collateralNum f) (numberOfZ 10)) = false /\
  (forall b, spendableBalance p f = Some b -> ltN b (collateralNum f) = false) /\
  ltN (numberOfZ 100000) (positionSize f) = false /\ capacityBlocks p f = false.
Proof.
  intros (_ & He & Hk)%canSubmit_inv Hkind. unfold errors in He.
  destruct (f_kind f) eqn:Hf; try done; no_errors He; split_and!; try done;
    intros b Hb; by rewrite Hb in *.
Qed.

Lemma ge_ten_positive x : ge x (numberOfZ 10) = true -> isPositive x = true.
Proof. destruct x as [[]|[]| |[] m e]; done. Qed.

(** What a request commits: asset, side, collateral, leverage. *)
Definition placed (r : WebRequest) : option (string * Side * Z * Z) :=
  match r with
  | WOpen a c l d _ | WOpenCross a c l d _ => Some (a, d, c, l)
  | WLimit a d c l _ _ _ _ | WStopLimit a d c l _ _ _ _ _ => Some (a, d, c, l)
  | _ => None
  end.

(** A positive number as binary64 holds it. *)
Definition stored (x : number) : Prop := exists m e, x = S754_finite false m e /\ 2 ^ 52 <= Zpos m < 2 ^ 53.

Lemma ltN_leN m1 e1 m2 e2 :
  leN (S754_finite false m1 e1) (S754_finite false m2 e2) = negb (ltN (S754_finite false m2 e2) (S754_finite false m1 e1)).
Proof.
  unfold leN, ltN, SFleb, SFltb, SFcompare. rewrite (Z.compare_antisym e1 e2). destruct (e1 ?= e2); cbn; try done.
  fold (Pos.compare m1 m2) (Pos.compare m2 m1). rewrite (Pos.compare_antisym m1 m2). by destruct (m1 ?= m2)%positive.
Qed.

Lemma stored_lt x y : stored x -> stored y -> leN y x = false -> (val x < val y)%Q.
Proof.
  intros (m & e & -> & Hm) (m' & e' & -> & Hm'). rewrite ltN_leN. intros H%negb_false_iff. by apply ltN_val.
Qed.

Lemma stored_le x y : stored x -> stored y -> ltN y x = false -> (val x <= val y)%Q.
Proof.
  intros (m & e & -> & Hm) (m' & e' & -> & Hm') H. apply Qnot_lt_le. intros Hlt. apply ltN_val in Hlt; [|done..]. congruence.
Qed.

Lemma nearest_stored x X : nearest x X -> stored x.
Proof. intros (m & e & -> & Hm & _). by exists m, e. Qed.

(** Where a level belongs: a stop loss under the price for a long and over it
    for a short, a take profit the other way round. *)
Definition rightSide (d : Side) (isStop : bool) (level price : Q) : Prop :=
  match d, isStop with
  | Long, true | Short, false => (level < price)%Q
  | Long, false | Short, true => (price < level)%Q
  end.

(** [t] is the level the text means, to a unit, and the number read from it
    lies on the side of the price shown it belongs on. *)
Definition levelAsked (p : Panel) (f : OrderForm) (isStop : bool) (text : string) (t : Z) : Prop :=
  forall n, typed text n -> 0 < n <= 2 ^ 50 ->
    (t = n \/ t = n - 1) /\ nearest (parseFloat text) (inject_Z n * (1 # 10000000)) /\
    (stored (assetPrice p) -> rightSide (f_direction f) isStop (val (parseFloat text)) (val (assetPrice p))).

(** An order attached to the position opened. *)
Definition protects (p : Panel) (f : OrderForm) (id : Z) (x : WebRequest) : Prop :=
  (exists t, x = WStopLoss id t (slippageTolerance f) /\ levelAsked p f true (attachSl f) t) \/
  (exists t, x = WTakeProfit id t (slippageTolerance f) None /\ levelAsked p f false (attachTp f) t).

(** The form's test of a side. *)
Definition sideWrong (d : Side) (isStop : bool) (level price : number) : bool :=
  if isStop then slWrong d level price else tpWrong d level price.

Lemma level_asked p f isStop text t :
  toPrecision (amountOf text) = Ok t ->
  (isPositive (assetPrice p) = true -> sideWrong (f_direction f) isStop (amountOf text) (assetPrice p) = false) ->
  levelAsked p f isStop text t.
Proof.
  intros Ht Hside n Hn Hb. destruct (scaled_amount text n Hn Hb) as (Hp & _ & _). pose proof (typed_nearest text n Hn ltac:(lia)) as Hx.
  rewrite Ht in Hp. unfold Ok in Hp. split; [destruct Hp as [[= ->]|[= ->]]; auto|]. split; [done|]. intros Hs.
  unfold amountOf in Hside. rewrite (nearest_positive _ _ Hx) in Hside. specialize (Hside ltac:(destruct Hs as (m & e & -> & _); done)).
  apply nearest_stored in Hx. destruct (f_direction f), isStop; cbn in Hside |- *; by apply stored_lt.
Qed.

Lemma attached_protects p f id x :
  canSubmit p f = true -> f_kind f = kMarket -> x ∈ attachTpSlAfterOpen p f id ->
  exists n, id = Some n /\ n <> 0 /\ protects p f n x.
Proof.
  intros (_ & He & _)%canSubmit_inv Hkind Hx. unfold attachTpSlAfterOpen in Hx.
  destruct id as [n|]; [|by apply elem_of_nil in Hx].
  assert (n <> 0) as Hn by (intros ->; by apply elem_of_nil in Hx). exists n. split; [done|]. split; [done|].
  replace (match n with 0 => _ | _ => _ end) with (if bool_decide (is_Some (publicKey p)) && canAttachTpSl p f then
     (if isPositive (amountOf (attachSl f)) then
       match toPrecision (amountOf (attachSl f)) with inr t => [WStopLoss n t (slippageTolerance f)] | inl _ => [] end else []) ++
     (if isPositive (amountOf (attachTp f)) then
       match toPrecision (amountOf (attachTp f)) with inr t => [WTakeProfit n t (slippageTolerance f) None] | inl _ => [] end else [])
     else []) in Hx by (by destruct n).
  destruct (_ && canAttachTpSl p f) eqn:Hc; [|by apply elem_of_nil in Hx]. apply andb_true_iff in Hc as [_ Hcan].
  unfold errors in He. rewrite Hkind in He. no_errors He. rewrite Hcan in He. cbn [andb] in He.
  apply elem_of_app in Hx as [Hx|Hx].
  - left. destruct (isPositive (amountOf (attachSl f))) eqn:Hp; [|by apply elem_of_nil in Hx].
    destruct (toPrecision (amountOf (attachSl f))) as [e|t] eqn:Ht; [by apply elem_of_nil in Hx|].
    apply list_elem_of_singleton in Hx as ->. exists t. split; [done|]. apply level_asked; [done|]. intros Hprice. rewrite Hprice in He.
    by apply app_nil in He as [_ He%when_nil].
  - right. destruct (isPositive (amountOf (attachTp f))) eqn:Hp; [|by apply elem_of_nil in Hx].
    destruct (toPrecision (amountOf (attachTp f))) as [e|t] eqn:Ht; [by apply elem_of_nil in Hx|].
    apply list_elem_of_singleton in Hx as ->. exists t. split; [done|]. apply level_asked; [done|]. intros Hprice. rewrite Hprice in He.
    by apply app_nil in He as [He%when_nil _].
Qed.

(** Every level typed for an isolated market order is asked for. *)
Lemma typed_level_sent text n : typed text n -> 0 < n <= 2 ^ 50 ->
  isPositive (amountOf text) = true /\ exists t, toPrecision (amountOf text) = inr t.
Proof.
  intros Ht Hn. destruct (scaled_amount text n Ht Hn) as (Hp & _ & _). pose proof (typed_nearest text n Ht ltac:(lia)) as Hx.
  split; [|destruct Hp as [-> | ->]; by eexists]. unfold amountOf. rewrite (nearest_positive _ _ Hx).
  by destruct Hx as (m & e & -> & _).
Qed.

Lemma attached_all p f id :
  is_Some (publicKey p) -> isLeader p = false -> f_kind f = kMarket -> f_margin f = Isolated -> id <> 0 ->
  (forall n, typed (attachSl f) n -> 0 < n <= 2 ^ 50 -> exists t, WStopLoss id t (slippageTolerance f) ∈ attachTpSlAfterOpen p f (Some id)) /\
  (forall n, typed (attachTp f) n -> 0 < n <= 2 ^ 50 -> exists t, WTakeProfit id t (slippageTolerance f) None ∈ attachTpSlAfterOpen p f (Some id)).
Proof.
  intros Hk Hl Hm Hi Hid. unfold attachTpSlAfterOpen, canAttachTpSl. rewrite (bool_decide_true _ Hk), Hm, Hl, Hi.
  rewrite !bool_decide_true by done. rewrite orb_true_r. cbn [andb negb].
  destruct id; [done| |]; (split; intros n Ht Hn; destruct (typed_level_sent _ _ Ht Hn) as [-> [t ->]]; exists t; apply elem_of_app;
    [left|right]; by apply list_elem_of_singleton).
Qed.

(** What a submission that trades comes from. *)
Lemma handleSubmit_trade p f who r follow :
  handleSubmit p f = Ok (Trade who r follow) -> f_kind f <> kTrailing ->
  canSubmit p f = true /\ publicKey p = Some who /\ isLeader p = false /\
  (exists c, toPrecision (collateralNum f) = Ok c /\ placed r = Some (f_asset f, f_direction f, c, f_leverage f)) /\
  (follow = (fun _ => []) /\ ~ (f_kind f = kMarket /\ f_margin f = Isolated) \/ (follow = attachTpSlAfterOpen p f /\ f_kind f = kMarket)).
Proof.
  unfold handleSubmit. intros H Hkind. destruct (canSubmit p f) eqn:Hcan; [|discriminate H].
  destruct (publicKey p) as [who'|] eqn:Hkey; [|discriminate H].
  pose proof Hcan as (_ & He & _)%canSubmit_inv. unfold errors in He. destruct (f_kind f) eqn:Hf; try done.
  - destruct (leaderVault p) as [[v total]|] eqn:Hl; inv_binds; [discriminate|].
    assert (isLeader p = false) as Hlead by (unfold isLeader; by rewrite Hl).
    destruct (f_margin f); unfold Ok in *; simplify_eq; split_and!; try done; (try by eexists); [by right|left; split; [done|by intros [_ ?]]].
  - inv_binds. unfold Ok in *. simplify_eq. no_errors He. rewrite andb_true_r in *.
    split_and!; try done; [by eexists|left; split; [done|by intros [? _]]].
  - inv_binds. unfold Ok in *. simplify_eq. no_errors He. rewrite andb_true_r in *.
    split_and!; try done; [by eexists|left; split; [done|by intros [? _]]].
Qed.

(** A known balance or headroom bounds the number it is compared with. *)
Lemma size_nearest f n :
  typed (f_collateral f) n -> 0 < n <= 2 ^ 50 -> 0 < f_leverage f <= 1000 ->
  nearest (positionSize f) (val (collateralNum f) * inject_Z (f_leverage f)).
Proof.
  intros Ht Hn Hl. destruct (scaled_nearest _ n Ht Hn) as [Hx _].
  unfold positionSize, collateralNum, amountOf. rewrite (nearest_positive _ _ Hx).
  destruct (inject_bounds n 1 (2 ^ 50) ltac:(lia)) as [H1 H2]. change (inject_Z 1) with 1%Q in H1.
  change (inject_Z (2 ^ 50)) with (1125899906842624 # 1)%Q in H2.
  destruct (nearest_range _ _ Hx) as (m & e & -> & Hm & He); [lra|lra|].
  destruct (integer_stored (f_leverage f) ltac:(lia)) as (m' & e' & -> & Hm' & He' & Hv).
  eapply nearest_ext; [|apply (mul_nearest m e m' e'); lia]. by rewrite Hv.
Qed.

(** C26. An order placed from the form is the one it shows: for the connected
    wallet, with the asset, side and leverage selected and the collateral
    typed, exactly where it is a whole amount of USDC and otherwise exactly or
    one unit short; never under the contract's minimum of 10 USDC nor above a
    known balance. A market order's size is not above a known headroom; limit
    and stop-limit orders are not held to it. The orders attached to a market
    order are of the position it opened, at the levels typed, each on the side
    of the price shown where it belongs; and every level typed for an isolated
    one is attached. *)
Theorem order_is_what_the_form_shows p f who r follow n :
  handleSubmit p f = Ok (Trade who r follow) -> f_kind f <> kTrailing -> typed (f_collateral f) n -> n <= 2 ^ 50 ->
  publicKey p = Some who /\ isLeader p = false /\
  (exists c, placed r = Some (f_asset f, f_direction f, c, f_leverage f) /\ 100000000 <= c <= n /\ n - 1 <= c /\
     (n mod 10000000 = 0 -> c = n)) /\
  nearest (collateralNum f) (inject_Z n * (1 # 10000000)) /\
  (forall b, spendableBalance p f = Some b -> ltN b (collateralNum f) = false /\ (stored b -> val (collateralNum f) <= val b)%Q) /\
  (forall h, sideHeadroom p = Some h -> f_kind f = kMarket -> 0 < f_leverage f <= 1000 ->
     ltN h (positionSize f) = false /\ nearest (positionSize f) (val (collateralNum f) * inject_Z (f_leverage f)) /\
     (stored h -> val (positionSize f) <= val h)%Q) /\
  (forall id x, x ∈ follow id -> exists position, id = Some position /\ position <> 0 /\ protects p f position x) /\
  (f_kind f = kMarket -> f_margin f = Isolated -> forall id, id <> 0 ->
     (forall k, typed (attachSl f) k -> 0 < k <= 2 ^ 50 -> exists t, WStopLoss id t (slippageTolerance f) ∈ follow (Some id)) /\
     (forall k, typed (attachTp f) k -> 0 < k <= 2 ^ 50 -> exists t, WTakeProfit id t (slippageTolerance f) None ∈ follow (Some id))).
Proof.
  intros H Hkind Ht Hn. destruct (handleSubmit_trade p f who r follow H Hkind) as (Hcan & Hkey & Hl & (c & Hc & Hr) & Hfollow).
  destruct (clean_amount p f Hcan Hkind) as (Hge & Hlt & Hbal & _ & Hcap).
  unfold collateralNum in Hge, Hlt, Hc. rewrite (ge_ten_positive _ Hge) in Hlt. cbn [andb] in Hlt.
  pose proof (typed_minimum _ n Ht Hn Hge Hlt) as Hmin.
  destruct (scaled_amount _ n Ht ltac:(lia)) as (Hsent & _ & Hwhole). pose proof (typed_nearest _ n Ht ltac:(lia)) as Hx.
  assert (nearest (collateralNum f) (inject_Z n * (1 # 10000000))) as Hread
    by (unfold collateralNum, amountOf; by rewrite (nearest_positive _ _ Hx)).
  split; [done|]. split; [done|]. split; [|split; [done|]; split; [|split; [|split]]].
  - exists c. split; [done|]. rewrite Hc in *. unfold Ok in *. destruct (Z.eq_dec (n mod 10000000) 0) as [Hm|Hm].
    + injection (Hwhole Hm) as ->. lia.
    + assert (n <> 100000000) by (intros ->; by apply Hm). destruct Hsent as [[= ->]|[= ->]]; lia.
  - intros b Hb. split; [by apply Hbal|]. intros Hs. apply stored_le; [by eapply nearest_stored|done|by apply Hbal].
  - intros h Hh Hmarket Hlev. pose proof (size_nearest f n Ht ltac:(lia) Hlev) as Hsize.
    unfold capacityBlocks in Hcap. rewrite Hh, Hmarket in Hcap. unfold gt in Hcap.
    assert (isPositive (positionSize f) = true) as Hpos by (by destruct Hsize as (m & e & -> & _)).
    rewrite Hpos, andb_true_r in Hcap. split_and!; [done|done|]. intros Hs.
    apply stored_le; [by eapply nearest_stored|done|done].
  - intros id x Hin. destruct Hfollow as [[-> _]|[-> Hmarket]]; [by apply elem_of_nil in Hin|]. by eapply attached_protects.
  - intros Hm Hi id Hid. destruct Hfollow as [[_ Hno]|[-> _]]; [by destruct Hno|]. by apply attached_all.
Qed.

(** C38. An amount typed with at most seven places, up to 2^50 units (about
    112 million USDC), is sent as meant where it is scaled by rounding, as
    margin changes are, and at most one unit short where it is scaled by
    flooring, as orders and pool moves are; whole amounts are exact either
    way. Meant is what the exact reader of the vault form makes of the text. *)
Theorem typed_amounts_are_sent_to_the_unit t n :
  typed t n -> 0 < n <= 2 ^ 50 ->
  parseAmount t = Some n /\
  (toPrecision (amountOf t) = Ok n \/ toPrecision (amountOf t) = Ok (n - 1)) /\
  (n mod 10000000 = 0 -> toPrecision (amountOf t) = Ok n) /\
  roundUnits (amountOf t) = Ok n.
Proof.
  intros Ht Hn. destruct (scaled_amount t n Ht Hn) as (H1 & H2 & H3). split_and!; try done. by apply typed_parse.
Qed.

(** ** Lemmas: comparing whole numbers *)

Lemma integer_normal a : 0 < a < 2 ^ 53 -> exists m e, numberOfZ a = S754_finite false m e /\ 2 ^ 52 <= Zpos m < 2 ^ 53 /\
  (val (S754_finite false m e) == inject_Z a)%Q.
Proof.
  intros Ha. destruct a as [|p|p]; try lia. assert (2 ^ 53 < 2 ^ 500) by (vm_compute; reflexivity).
  pose proof (integer_nearest p ltac:(lia)) as Hx. pose proof (nearest_integer _ _ Hx Ha) as Hv.
  destruct Hx as (m & e & Hf & Hm & _). exists m, e. split; [exact Hf|]. split; [done|]. by rewrite <- Hf.
Qed.

Lemma leN_integers a b : 0 <= a < 2 ^ 53 -> 0 <= b < 2 ^ 53 -> leN (numberOfZ a) (numberOfZ b) = (a <=? b).
Proof.
  intros Ha Hb. destruct (Z.eq_dec a 0) as [->|Hna].
  { rewrite (proj2 (Z.leb_le 0 b)) by lia. destruct (Z.eq_dec b 0) as [->|]; [done|].
    destruct (integer_normal b ltac:(lia)) as (m & e & -> & _). done. }
  destruct (integer_normal a ltac:(lia)) as (m & e & -> & Hm & Hv).
  destruct (Z.eq_dec b 0) as [->|Hnb]; [cbn; symmetry; apply Z.leb_gt; lia|].
  destruct (integer_normal b ltac:(lia)) as (m' & e' & -> & Hm' & Hv'). rewrite ltN_leN.
  pose proof (ltN_val m' e' m e Hm' Hm) as Hlt. rewrite Hv, Hv', <- Zlt_Qlt in Hlt.
  destruct (ltN _ _); cbn; symmetry; [apply Z.leb_gt; by apply Hlt|apply Z.leb_le].
  apply Z.nlt_ge. intros Hc. apply Hlt in Hc. discriminate Hc.
Qed.

(** The tier quoted is the contract's, for volumes in whole dollars. *)
Theorem quoted_tier_is_the_contracts n maker :
  0 <= n < 2 ^ 53 ->
  feeUnits (tierFor (numberOfZ n)) maker = feeUnits (determine_fee_tier (n * PRECISION) default_fee_tiers) maker.
Proof.
  intros Hn. unfold tierFor, ge. cbn [FEE_TIERS rev app firstSome minVolume].
  rewrite !leN_integers by lia. unfold determine_fee_tier. cbn [default_fee_tiers foldl minVolume]. unfold PRECISION.
  repeat match goal with |- context [?a <=? ?b] => destruct (Z.leb_spec a b) end; try done; lia.
Qed.

(** ** Examples *)

Definition marketForm (collateral sl tp : string) (m : MarginMode) : OrderForm := {|
  f_asset := "BTC"; f_direction := Long; f_kind := kMarket; f_margin := m; f_collateral := collateral; f_leverage := 5;
  triggerSideOverride := None; triggerPrice := ""; stopPrice := ""; limitPrice := ""; slippageTolerance := 50;
  f_timeInForce := 0; f_reduceOnly := false; trailingPercent := "3"; trailingPositionId := ""; attachSl := sl; attachTp := tp |}.

Definition openPanel : Panel := {|
  isConnected := true; publicKey := Some "GTRADER"%string; xlmBalance := Some (numberOfZ 5); usdcBalance := Some (numberOfZ 500);
  crossBalance := Some (numberOfZ 300); leaderVault := None; batch1Features := true; assetPrice := numberOfZ 60000;
  sideHeadroom := Some (numberOfZ 20000); positions := [] |}.

Lemma typed_100_04 : typed "100.04" 1000400000.
Proof.
  exists "100"%string, "04"%string. split_and!; try done; [| |cbn; lia]; repeat constructor.
Qed.

(** A market order over 100.04 USDC at five times, with both levels attached. *)
Lemma order_is_what_the_form_shows_witness :
  exists r follow,
    handleSubmit openPanel (marketForm "100.04" "58000" "64000" Isolated) = Ok (Trade "GTRADER" r follow) /\
    r = WOpen "BTC" 1000400000 5 Long (Some 603000000000) /\
    follow (Some 7) = [WStopLoss 7 580000000000 50; WTakeProfit 7 640000000000 50 None] /\
    exists c, placed r = Some ("BTC"%string, Long, c, 5) /\ 100000000 <= c <= 1000400000.
Proof.
  assert (exists r follow,
    handleSubmit openPanel (marketForm "100.04" "58000" "64000" Isolated) = Ok (Trade "GTRADER" r follow) /\
    r = WOpen "BTC" 1000400000 5 Long (Some 603000000000) /\
    follow (Some 7) = [WStopLoss 7 580000000000 50; WTakeProfit 7 640000000000 50 None]) as (r & follow & H & Hr & Hf).
  { eexists _, _. split; [vm_compute; reflexivity|]. split; vm_compute; reflexivity. }
  exists r, follow. split; [exact H|]. split; [exact Hr|]. split; [exact Hf|].
  destruct (order_is_what_the_form_shows _ _ _ _ _ 1000400000 H ltac:(discriminate) typed_100_04 ltac:(lia))
    as (_ & _ & (c & Hc & Hb & _) & _).
  exists c. split; [exact Hc|exact Hb].
Defined.

Lemma typed_amounts_are_sent_to_the_unit_witness :
  typed "100.04" 1000400000 /\ parseAmount "100.04" = Some 1000400000 /\ roundUnits (amountOf "100.04") = Ok 1000400000.
Proof.
  split; [exact typed_100_04|].
  destruct (typed_amounts_are_sent_to_the_unit "100.04" 1000400000 typed_100_04 ltac:(lia)) as (H1 & _ & _ & H2).
  split; [exact H1|exact H2].
Defined.

(** Flooring does lose the unit: 10.04 USDC are sent as 10.0399999. *)
Example amount_loses_a_unit :
  toPrecision (amountOf "10.04") = Ok 100399999 /\ roundUnits (amountOf "10.04") = Ok 100400000 /\
  parseAmount "10.04" = Some 100400000.
Proof. split_and!; vm_compute; reflexivity. Qed.

(** In cross mode the levels are shown and checked, and never sent. *)
Example cross_open_drops_triggers :
  let f := marketForm "100" "58000" "64000" Cross in
  canAttachTpSl openPanel f = true /\
  errors openPanel (marketForm "100" "61000" "64000" Cross) = [SlWrongSide] /\
  exists r follow, handleSubmit openPanel f = Ok (Trade "GTRADER" r follow) /\ forall id, follow id = [].
Proof.
  split_and!; [vm_compute; reflexivity|vm_compute; reflexivity|]. eexists _, _. split; [vm_compute; reflexivity|done].
Qed.

(** A custom tolerance under half a basis point leaves the order without any bound. *)
Example tiny_tolerance_is_unbounded :
  customSlippage 50 "0.004" = 0 /\
  openBound openPanel
    {| f_asset := "BTC"; f_direction := Long; f_kind := kMarket; f_margin := Isolated; f_collateral := "100"; f_leverage := 5;
       triggerSideOverride := None; triggerPrice := ""; stopPrice := ""; limitPrice := ""; slippageTolerance := customSlippage 50 "0.004";
       f_timeInForce := 0; f_reduceOnly := false; trailingPercent := "3"; trailingPositionId := ""; attachSl := ""; attachTp := "" |} = Ok 0.
Proof. split; vm_compute; reflexivity. Qed.

(** A trailing distance of 0% is placed as 3%. *)
Example zero_trailing_is_three :
  match handleSubmit openPanel
    {| f_asset := "BTC"; f_direction := Long; f_kind := kTrailing; f_margin := Isolated; f_collateral := ""; f_leverage := 5;
       triggerSideOverride := None; triggerPrice := ""; stopPrice := ""; limitPrice := ""; slippageTolerance := 50;
       f_timeInForce := 0; f_reduceOnly := false; trailingPercent := "0"; trailingPositionId := "7"; attachSl := ""; attachTp := "" |}
  with inr (Trade _ r _) => r = WTrailing 7 300 50 | _ => False end.
Proof. vm_compute. reflexivity. Qed.

(** The withdrawal's messages match the texts the decoder gives. *)
Example withdraw_messages_match :
  (crossWithdrawError <$> omap (fun c => messageForCode c atMarket) [77; 30; 31]) =
  [ "Insufficient free margin — reduce positions first"%string;
    "Withdrawals are paused while an oracle feed for one of your positions is stale — closing positions still works"%string;
    "Withdrawals are paused while an oracle feed for one of your positions is stale — closing positions still works"%string ].
Proof. vm_compute. reflexivity. Qed.

(** A limit order over the headroom shown is placed; a market order is refused. *)
Example limit_order_ignores_headroom :
  let p := {| isConnected := true; publicKey := Some "GTRADER"%string; xlmBalance := Some (numberOfZ 5); usdcBalance := Some (numberOfZ 500);
    crossBalance := Some (numberOfZ 300); leaderVault := None; batch1Features := true; assetPrice := numberOfZ 60000;
    sideHeadroom := Some (numberOfZ 100); positions := [] |} in
  let f := marketForm "100" "" "" Isolated in
  let limit := {| f_asset := "BTC"; f_direction := Long; f_kind := kLimit; f_margin := Isolated; f_collateral := "100"; f_leverage := 5;
    triggerSideOverride := None; triggerPrice := "58000"; stopPrice := ""; limitPrice := ""; slippageTolerance := 50;
    f_timeInForce := 0; f_reduceOnly := false; trailingPercent := "3"; trailingPositionId := ""; attachSl := ""; attachTp := "" |} in
  errors p f = [PoolCapacity] /\ errors p limit = [] /\
  match handleSubmit p limit with inr (Trade _ r _) => placed r = Some ("BTC"%string, Long, 1000000000, 5) | _ => False end.
Proof. split_and!; vm_compute; reflexivity. Qed.
