(* ===== verification/WebPositions.v ===== *)
(** * Acting on positions and orders

    The modals of web/components/trading/PositionsList.tsx (close, margin,
    stop-loss, take-profit), the cancel of OrdersList.tsx, and the handlers of
    app/trade/page.tsx they call, up to the trade each starts; with the guards
    of close_position_partial and remove_collateral of the market contract,
    which the modals anticipate. *)

From Stdlib Require Import QArith Lqa.
From S2P Require Import Prelude JsText ApiBoard WebErrors ApiOrders WebTrades WebReads WebVaults WebVaultPages JsNumber WebOrderForm.
Open Scope Z_scope.
Open Scope js_scope.

(** ** The page's handlers *)

Record TradePage := {
  pg_publicKey : option string; pg_leaderVault : option Z; pg_batch1 : bool;
  pg_positions : list DisplayPosition; selectedAsset : string }.

(** What a handler ends in: a trade of the wallet, the close through the
    vault factory, a message, or a throw without a wallet. *)
Inductive PageCall :=
| Sign (who : string) (r : WebRequest)
| LeaderClose (who : string) (vaultId positionId : Z)
| NotForCrossPositions
| WalletNotConnected.

Definition findPosition (g : TradePage) (id : Z) : option DisplayPosition :=
  firstSome (fun d => if d_id d =? id then Some d else None) (pg_positions g).

Definition isLongSide (d : Side) : bool := match d with Long => true | Short => false end.

Definition isCross (d : DisplayPosition) : bool := bool_decide (d_marginMode d = Cross).

Section page.
Context (g : TradePage).

(** Every handler throws without a wallet. *)
Definition withWallet (k : string -> Result PageCall) : Result PageCall :=
  match pg_publicKey g with Some who => k who | None => Ok WalletNotConnected end.

(** [pos?.asset ?? selectedAsset] *)
Definition assetOf (id : Z) : string := match findPosition g id with Some d => d_asset d | None => selectedAsset g end.

Definition handleClosePosition (id : Z) : Result PageCall :=
  withWallet (fun who =>
    match pg_leaderVault g with
    | Some vault => Ok (LeaderClose who vault id)
    | None =>
        bound ← match findPosition g id with
                | Some d => closeAcceptableBound (isLongSide (d_direction d)) (d_currentPrice d) DEFAULT_CLOSE_BOUND_BPS
                | None => Ok 0
                end;
        Ok (Sign who (match findPosition g id with
                      | Some d => if isCross d then WCloseCross id bound else WClose id (assetOf id) bound
                      | None => WClose id (assetOf id) bound
                      end))
    end).

Definition handleClosePartial (id closeSize : Z) : Result PageCall :=
  withWallet (fun who => Ok (Sign who (WClosePartial id closeSize (assetOf id)))).
Definition handleAddCollateral (id amount : Z) : Result PageCall :=
  withWallet (fun who => Ok (Sign who (WAddCollateral id amount))).
Definition handleRemoveCollateral (id amount : Z) : Result PageCall :=
  withWallet (fun who => Ok (Sign who (WRemoveCollateral id amount))).

(** Protective orders stay off cross positions of the old market. *)
Definition crossBlocked (id : Z) : bool :=
  negb (pg_batch1 g) && match findPosition g id with Some d => isCross d | None => false end.

Definition handleSetStopLoss (id : Z) (trigger : number) (slippageBps : Z) : Result PageCall :=
  withWallet (fun who =>
    if crossBlocked id then Ok NotForCrossPositions
    else t ← toPrecision trigger; Ok (Sign who (WStopLoss id t slippageBps))).

(** [limitPrice ? toPrecision(limitPrice) : undefined] *)
Definition optionalPrice (limit : option number) : Result (option Z) :=
  match limit with
  | Some l => match orZero l with S754_zero _ => Ok None | l => z ← toPrecision l; Ok (Some z) end
  | None => Ok None
  end.

Definition handleSetTakeProfit (id : Z) (trigger : number) (slippageBps : Z) (limit : option number) : Result PageCall :=
  withWallet (fun who =>
    if crossBlocked id then Ok NotForCrossPositions
    else
      t ← toPrecision trigger; l ← optionalPrice limit;
      Ok (Sign who (WTakeProfit id t slippageBps l))).

Definition handleCancelOrder (orderId : Z) : Result PageCall :=
  withWallet (fun who => Ok (Sign who (WCancel orderId))).

(** ** The close modal *)

(** The callbacks are missing in leader mode. *)
Definition partialCloseAvailable (d : DisplayPosition) : bool :=
  pg_batch1 g && negb (bool_decide (is_Some (pg_leaderVault g))) && negb (isCross d).

Definition fractionOf (pct : Z) : number := divN (numberOfZ pct) (numberOfZ 100).

Definition MIN_COLLATERAL : Z := 10.
Definition MAX_LEVERAGE : Z := 10.

Definition partialWouldSnap (d : DisplayPosition) (pct : Z) : bool :=
  (pct <? 100) && ltN (mulN (d_collateral d) (subN oneN (fractionOf pct))) (numberOfZ MIN_COLLATERAL).

(** handleClose: [d] is the row as it was when the modal opened. *)
Definition handleClose (d : DisplayPosition) (pct : Z) : Result PageCall :=
  if (100 <=? pct) || negb (partialCloseAvailable d) || partialWouldSnap d pct then handleClosePosition (d_id d)
  else
    closeSize ← bigInt (floorZ (mulN (mulN (d_size d) (fractionOf pct)) (numberOfZ 10000000)));
    handleClosePartial (d_id d) closeSize.

(** ** The margin modal *)

Inductive MarginTab := addTab | removeTab.

(** [Math.max(0, collateral - size / MAX_LEVERAGE)] *)
Definition maxRemovable (d : DisplayPosition) : number :=
  floorAtZero (subN (d_collateral d) (divN (d_size d) (numberOfZ MAX_LEVERAGE))).

Definition newCollateral (tab : MarginTab) (d : DisplayPosition) (amount : number) : number :=
  match tab with addTab => addN (d_collateral d) amount | removeTab => subN (d_collateral d) amount end.

Definition overFloor (tab : MarginTab) (d : DisplayPosition) (amount : number) : bool :=
  match tab with addTab => false | removeTab => gt amount (maxRemovable d) end.

(** The button is disabled. *)
Definition marginInvalid (tab : MarginTab) (d : DisplayPosition) (typed : string) : bool :=
  let amount := amountOf typed in
  leN amount (S754_zero false) || overFloor tab d amount || leN (newCollateral tab d amount) (S754_zero false).

(** The Max button of the removal. *)
Definition maxRemovalText (d : DisplayPosition) : string :=
  if isPositive (maxRemovable d) then toFixed 2 (maxRemovable d) else "0".

Definition previewLiqPrice (d : DisplayPosition) (collateral : number) : option number :=
  if negb (isPositive collateral) || negb (isPositive (d_size d)) then None
  else
    let delta := subN (divN oneN (divN (d_size d) collateral)) (parseFloat "0.01") in
    Some (if isLongSide (d_direction d) then mulN (d_entryPrice d) (subN oneN delta)
          else mulN (d_entryPrice d) (addN oneN delta)).

(** handleEditMargin behind its button; without the callback of the tab, in
    leader mode, nothing is called. *)
Definition handleEditMargin (tab : MarginTab) (d : DisplayPosition) (typed : string) : Result (option PageCall) :=
  if marginInvalid tab d typed then Ok None
  else
    let amount := parseFloat typed in
    if negb (isFinite amount) || leN amount (S754_zero false) then Ok None
    else
      scaled ← roundUnits amount;
      if bool_decide (is_Some (pg_leaderVault g)) then Ok None
      else
        call ← match tab with
               | addTab => handleAddCollateral (d_id d) scaled
               | removeTab => handleRemoveCollateral (d_id d) scaled
               end;
        Ok (Some call).

(** ** The stop-loss and take-profit modals *)

(** The level is on the wrong side of the entry. *)
Definition slInvalid (d : DisplayPosition) (typed : string) : bool :=
  let level := amountOf typed in isPositive level && slWrong (d_direction d) level (d_entryPrice d).
Definition tpInvalid (d : DisplayPosition) (typed : string) : bool :=
  let level := amountOf typed in isPositive level && tpWrong (d_direction d) level (d_entryPrice d).

Definition protectiveHidden : bool := bool_decide (is_Some (pg_leaderVault g)).

Definition submitStopLoss (d : DisplayPosition) (typed : string) (slippageBps : Z) : Result (option PageCall) :=
  if negb (truthy typed) || slInvalid d typed || protectiveHidden then Ok None
  else call ← handleSetStopLoss (d_id d) (parseFloat typed) slippageBps; Ok (Some call).

Definition submitTakeProfit (d : DisplayPosition) (typed limit : string) (slippageBps : Z) : Result (option PageCall) :=
  if negb (truthy typed) || tpInvalid d typed || protectiveHidden then Ok None
  else
    let l := amountOf limit in
    call ← handleSetTakeProfit (d_id d) (parseFloat typed) slippageBps (if isPositive l then Some l else None);
    Ok (Some call).
End page.

(** A quick percentage of the entry, as the modals fill it in. *)
Definition quickLevel (d : DisplayPosition) (pct : Z) : string :=
  toFixed (priceDecimals (d_asset d)) (mulN (d_entryPrice d) (addN oneN (divN (numberOfZ pct) (numberOfZ 100)))).

(** The projected result at a level. *)
Definition estPnl (d : DisplayPosition) (level : number) : number :=
  let entry := d_entryPrice d in
  if isPositive entry then
    mulN (d_size d) (if isLongSide (d_direction d) then divN (subN level entry) entry else divN (subN entry level) entry)
  else S754_zero false.

(** "You receive" of the close modal, where it is known. *)
Definition receiveEstimate (d : DisplayPosition) : option number :=
  match pendingFunding d with
  | Some funding =>
      if isFinite (d_pnl d) then Some (floorAtZero (subN (addN (d_collateral d) (d_pnl d)) funding)) else None
  | None => None
  end.

(** Within a tenth of the price of its liquidation. *)
Definition isLiquidationRisk (d : DisplayPosition) : bool :=
  if isCross d then false
  else match d_currentPrice d with
  | S754_zero _ => false
  | price => ltN (divN (absN (subN (d_liquidationPrice d) price)) price) (parseFloat "0.1")
  end.

(** ** Orders *)

Record DisplayOrder := {
  do_id : Z; do_trader : string; do_asset : string; do_orderType : OrderType; do_direction : Side;
  do_collateral : number; do_leverage : Z; do_triggerPrice : number; do_triggerCondition : TriggerCondition;
  do_slippageToleranceBps : Z; do_positionId : Z; do_hasPosition : bool; do_createdAt : Z; do_status : OrderStatus;
  do_limitPrice : number; do_trailingPercentBps : Z; do_stopLimitPhase : Z; do_timeInForce : string; do_reduceOnly : bool;
  do_positionSize : number }.

Definition tifMap (tifMode : Z) : string :=
  if tifMode =? 1 then "IOC" else if tifMode =? 2 then "PostOnly" else "GTC".

Definition toDisplayOrder (o : Order) : DisplayOrder :=
  let collateral := bigIntToNumber (o_collateral o) in
  {| do_id := o_id o; do_trader := o_trader o; do_asset := o_asset o; do_orderType := orderType o; do_direction := o_direction o;
     do_collateral := collateral; do_leverage := o_leverage o; do_triggerPrice := bigIntToNumber (WebReads.triggerPrice o);
     do_triggerCondition := triggerCondition o; do_slippageToleranceBps := slippageToleranceBps o;
     do_positionId := WebReads.positionId o; do_hasPosition := hasPosition o; do_createdAt := createdAt o * 1000;
     do_status := status o; do_limitPrice := bigIntToNumber (WebReads.limitPrice o);
     do_trailingPercentBps := trailingPercentBps o; do_stopLimitPhase := stopLimitPhase o;
     do_timeInForce := tifMap (Z.land (timeInForce o) 255); do_reduceOnly := negb (Z.land (timeInForce o) 256 =? 0);
     do_positionSize := mulN collateral (numberOfZ (o_leverage o)) |}.

(** The levels a row shows. *)
Record Protection := { pr_sl : option number; pr_tp : option number }.

Definition noProtection : Protection := {| pr_sl := None; pr_tp := None |}.

Definition protects_ (o : DisplayOrder) : bool :=
  bool_decide (do_status o = Pending) && negb (do_positionId o =? 0) &&
  (bool_decide (do_orderType o = StopLoss) || bool_decide (do_orderType o = TakeProfit)).

Definition addProtection (m : gmap Z Protection) (o : DisplayOrder) : gmap Z Protection :=
  if protects_ o then
    let entry := default noProtection (m !! do_positionId o) in
    <[do_positionId o :=
        if bool_decide (do_orderType o = StopLoss)
        then {| pr_sl := Some (do_triggerPrice o); pr_tp := pr_tp entry |}
        else {| pr_sl := pr_sl entry; pr_tp := Some (do_triggerPrice o) |}]> m
  else m.

Definition protectionByPosition (orders : list DisplayOrder) : gmap Z Protection := foldl addProtection ∅ orders.

Definition pendingOrders (orders : list DisplayOrder) : list DisplayOrder :=
  bfilter (fun o => bool_decide (do_status o = Pending)) orders.

(** The stable sort by creation, newest first. *)
Fixpoint insertNewest (o : DisplayOrder) (l : list DisplayOrder) : list DisplayOrder :=
  match l with
  | [] => [o]
  | x :: l' => if do_createdAt x <=? do_createdAt o then o :: l else x :: insertNewest o l'
  end.

Definition historyOrders (orders : list DisplayOrder) : list DisplayOrder :=
  take 20 (foldr insertNewest [] (bfilter (fun o => negb (bool_decide (do_status o = Pending))) orders)).

(** The distance to the trigger in percent, where it is shown. *)
Definition distanceToTrigger (o : DisplayOrder) (currentPrice : option number) : option number :=
  match do_orderType o, orZero <$> currentPrice with
  | TrailingStop, _ | _, None | _, Some (S754_zero _) => None
  | _, Some price =>
      match do_triggerPrice o with
      | S754_zero _ => None
      | t => Some (absN (mulN (divN (subN t price) price) (numberOfZ 100)))
      end
  end.

(** ** The contract's guards (contracts/market/src/lib.rs) *)

Inductive PartialGuard := InvalidAmount | InvalidParameter | PositionTooSmall | ClosesAll | ClosesPart.

(** close_position_partial, from the checks of the amount to the settlement. *)
Definition close_position_partial (size collateral close_size min_collateral : Z) : PartialGuard :=
  if close_size <=? 0 then InvalidAmount
  else if size <? close_size then InvalidParameter
  else if close_size =? size then ClosesAll
  else
    let collateral_closed := (collateral * close_size) ÷ size in
    if collateral - collateral_closed <? min_collateral then PositionTooSmall else ClosesPart.

(** remove_collateral, up to the check at the price: [None] is InvalidAmount,
    [Some false] InsufficientMargin. *)
Definition remove_collateral (size collateral amount max_leverage : Z) : option bool :=
  if (amount <=? 0) || (collateral <=? amount) then None
  else Some (negb (collateral - amount <? size ÷ max_leverage)).

(** ** Lemmas: the numbers of a row *)

(** The number a contract amount is shown as. *)
Lemma shown_nearest z : 0 < z <= 2 ^ 50 -> nearest (bigIntToNumber z) (inject_Z z * (1 # 10000000)).
Proof.
  intros Hz. unfold bigIntToNumber. destruct (integer_normal z ltac:(lia)) as (m & e & Hf & Hm & Hv). rewrite Hf, TEN7.
  assert (-84 <= e <= 9) as He.
  { destruct z as [|p|p]; try lia. assert (2 ^ 50 < 2 ^ 500) by (vm_compute; reflexivity).
    pose proof (integer_nearest p ltac:(lia)) as Hx. destruct (inject_bounds (Zpos p) 1 (2 ^ 50) ltac:(lia)) as [H1 H2].
    change (inject_Z 1) with 1%Q in H1. change (inject_Z (2 ^ 50)) with (1125899906842624 # 1)%Q in H2.
    destruct (nearest_range _ _ Hx) as (m' & e' & Hf' & _ & He'); [lra|lra|].
    change (numberOfZ (Zpos p)) with (binary_round 53 1024 false p 0) in Hf. rewrite Hf in Hf'. by injection Hf' as _ <-. }
  eapply nearest_proper; [|apply div_nearest; lia]. rewrite Hv, TEN7_val. field.
Qed.

(** The quarters of the close modal. *)
Lemma quarters pct :
  pct = 25 \/ pct = 50 \/ pct = 75 ->
  exists m e m' e', fractionOf pct = S754_finite false m e /\ 2 ^ 52 <= Zpos m < 2 ^ 53 /\ -60 <= e <= 0 /\
    subN oneN (fractionOf pct) = S754_finite false m' e' /\ 2 ^ 52 <= Zpos m' < 2 ^ 53 /\ -60 <= e' <= 0 /\
    (val (S754_finite false m e) == inject_Z pct * (1 # 100))%Q /\
    (val (S754_finite false m' e') == inject_Z (100 - pct) * (1 # 100))%Q.
Proof.
  intros [-> | [-> | ->]]; (eexists _, _, _, _; split; [vm_compute; reflexivity|]; split; [lia|]; split; [lia|];
    split; [vm_compute; reflexivity|]; split; [lia|]; split; [lia|]; split; vm_compute; reflexivity).
Qed.

Lemma row_size pos price cum : d_size (toDisplayPosition pos price cum) = bigIntToNumber (p_size pos).
Proof. done. Qed.

Lemma row_collateral pos price cum : d_collateral (toDisplayPosition pos price cum) = bigIntToNumber (p_collateral pos).
Proof. done. Qed.

(** The notional a quarter close asks for. *)
Lemma quarter_size pct s :
  pct = 25 \/ pct = 50 \/ pct = 75 -> 16 <= s <= 2 ^ 49 ->
  exists k, bigInt (floorZ (mulN (mulN (bigIntToNumber s) (fractionOf pct)) (numberOfZ 10000000))) = Ok k /\
    100 * k <= s * pct <= 100 * k + 100.
Proof.
  intros Hpct Hs. destruct (quarters pct Hpct) as (m & e & _ & _ & Hf & Hm & He & _ & _ & _ & Hv & _).
  pose proof (shown_nearest s ltac:(lia)) as Hx. destruct (inject_bounds s 16 (2 ^ 49) ltac:(lia)) as [Hs1 Hs2].
  change (inject_Z 16) with (16 # 1)%Q in Hs1. change (inject_Z (2 ^ 49)) with (562949953421312 # 1)%Q in Hs2.
  destruct (inject_bounds pct 25 75 ltac:(lia)) as [Hp1 Hp2]. change (inject_Z 25) with (25 # 1)%Q in Hp1. change (inject_Z 75) with (75 # 1)%Q in Hp2.
  pose proof Hx as (_ & _ & _ & _ & _ & [Hx1 Hx2] & _). unfold u in Hx1, Hx2.
  destruct (nearest_range _ _ Hx) as (m1 & e1 & Hxf & Hm1 & He1); [lra|lra|]. rewrite Hxf, Hf in *.
  pose proof (mul_nearest m1 e1 m e Hm1 Hm ltac:(lia) ltac:(lia)) as Hy. rewrite Hv in Hy.
  set (vx := val (S754_finite false m1 e1)) in *. set (y := mulN (S754_finite false m1 e1) _) in *.
  pose proof Hy as (_ & _ & _ & _ & _ & [Hy1 Hy2] & _). unfold u in Hy1, Hy2.
  assert (pct = 25 \/ pct = 50 \/ pct = 75) as Hpq by done.
  assert ((1 # 4) * vx <= vx * (inject_Z pct * (1 # 100)) /\ vx * (inject_Z pct * (1 # 100)) <= (3 # 4) * vx)%Q as [Hf1 Hf2]
    by (destruct Hpq as [-> | [-> | ->]]; [change (inject_Z 25) with (25 # 1)%Q|change (inject_Z 50) with (50 # 1)%Q|change (inject_Z 75) with (75 # 1)%Q]; split; lra).
  destruct (nearest_range _ _ Hy) as (m2 & e2 & Hyf & Hm2 & He2); [lra|lra|].
  pose proof (mul_nearest m2 e2 _ _ Hm2 (ltac:(lia) : 2 ^ 52 <= Zpos 5368709120000000 < 2 ^ 53) ltac:(lia) (ltac:(lia) : -500 <= -29 <= 400)) as Hz.
  rewrite TEN7_val in Hz. rewrite <- Hyf in Hz. rewrite TEN7. destruct (bigInt_finite _ _ Hz) as (k & Hk & _). rewrite Hk. cbn [bigInt].
  exists k. split; [done|]. pose proof (floor_val _ _ Hk) as [Hk1 Hk2]. push_inject Hk2. change (inject_Z 1) with 1%Q in Hk2.
  pose proof Hz as (_ & _ & _ & _ & _ & [Hz1 Hz2] & _). unfold u in Hz1, Hz2. set (w := val (mulN y _)) in *. set (vy := val y) in *.
  assert (inject_Z (s * pct) == inject_Z s * inject_Z pct)%Q as Hsp by (by rewrite inject_Z_mult).
  assert (inject_Z s * inject_Z pct * (1 # 100) - (1 # 4) < w /\ w < inject_Z s * inject_Z pct * (1 # 100) + (1 # 4))%Q as [Hw1 Hw2]
    by (destruct Hpq as [-> | [-> | ->]]; [change (inject_Z 25) with (25 # 1)%Q in *|change (inject_Z 50) with (50 # 1)%Q in *|change (inject_Z 75) with (75 # 1)%Q in *]; split; lra).
  rewrite <- Hsp in Hw1, Hw2.
  assert (inject_Z (100 * k) < inject_Z (s * pct + 25) /\ inject_Z (s * pct) < inject_Z (100 * k + 125))%Q as [Ha Hb].
  { rewrite !inject_Z_plus, !(inject_Z_mult 100). change (inject_Z 100) with (100 # 1)%Q. change (inject_Z 25) with (25 # 1)%Q.
    change (inject_Z 125) with (125 # 1)%Q. split; lra. }
  rewrite <- Zlt_Qlt in Ha, Hb. destruct Hpq as [-> | [-> | ->]]; lia.
Qed.

(** The modal's snap rule, on the amounts. *)
Lemma snap_bound pos price cum pct :
  pct = 25 \/ pct = 50 \/ pct = 75 -> 0 < p_collateral pos <= 2 ^ 49 ->
  partialWouldSnap (toDisplayPosition pos price cum) pct = false -> 10000000000 <= p_collateral pos * (100 - pct).
Proof.
  intros Hpct Hc Hsnap. unfold partialWouldSnap in Hsnap. rewrite (proj2 (Z.ltb_lt pct 100)) in Hsnap by lia.
  rewrite andb_true_l, row_collateral in Hsnap. set (c := p_collateral pos) in *.
  destruct (quarters pct Hpct) as (_ & _ & m & e & _ & _ & _ & Hf & Hm & He & _ & Hv).
  pose proof (shown_nearest c ltac:(lia)) as Hx. pose proof Hx as (_ & _ & _ & _ & _ & [Hx1 Hx2] & _).
  destruct (inject_bounds c 1 (2 ^ 49) ltac:(lia)) as [Hc1 Hc2]. change (inject_Z 1) with 1%Q in Hc1.
  change (inject_Z (2 ^ 49)) with (562949953421312 # 1)%Q in Hc2.
  destruct (nearest_range _ _ Hx) as (m1 & e1 & Hxf & Hm1 & He1); [lra|lra|]. rewrite Hxf, Hf in *.
  pose proof (mul_nearest m1 e1 m e Hm1 Hm ltac:(lia) ltac:(lia)) as Hy. rewrite Hv in Hy.
  pose proof Hy as (m2 & e2 & Hyf & Hm2 & _ & [Hy1 Hy2] & _). rewrite Hyf in Hsnap. change MIN_COLLATERAL with 10 in Hsnap. rewrite TEN in Hsnap.
  apply not_true_iff_false in Hsnap. rewrite ltN_val in Hsnap by lia. rewrite <- Hyf in Hsnap.
  assert (val (S754_finite false 5629499534213120 (-49)) == 10 # 1)%Q as Hten by (vm_compute; reflexivity).
  rewrite Hten in Hsnap. apply Qnot_lt_le in Hsnap. set (w := val (mulN _ _)) in *. set (vx := val (S754_finite false m1 e1)) in *.
  unfold u in *. assert (inject_Z 9999999975 < inject_Z (c * (100 - pct)))%Q as Hlt.
  { rewrite inject_Z_mult. change (inject_Z 9999999975) with (9999999975 # 1)%Q.
    destruct Hpct as [-> | [-> | ->]]; [change (inject_Z (100 - 25)) with (75 # 1)%Q in *|change (inject_Z (100 - 50)) with (50 # 1)%Q in *|change (inject_Z (100 - 75)) with (25 # 1)%Q in *]; lra. }
  rewrite <- Zlt_Qlt in Hlt. destruct Hpct as [-> | [-> | ->]]; lia.
Qed.

(** A part-close of the modal passes the contract's guards: what it asks
    to close is the quarters chosen, rounded down to the unit or one less,
    more than nothing and less than the position, and what it leaves is at
    least the minimum collateral, so the snap to a full close comes before
    the contract's dust check would refuse. *)
Theorem partial_close_passes_the_dust_guard g pos price cum pct who id k asset :
  pct = 25 \/ pct = 50 \/ pct = 75 -> 16 <= p_size pos <= 2 ^ 49 -> 0 < p_collateral pos <= 2 ^ 49 ->
  handleClose g (toDisplayPosition pos price cum) pct = Ok (Sign who (WClosePartial id k asset)) ->
  id = p_id pos /\ 100 * k <= p_size pos * pct <= 100 * k + 100 /\ 0 < k < p_size pos /\
  close_position_partial (p_size pos) (p_collateral pos) k 100000000 = ClosesPart.
Proof.
  intros Hpct Hs Hc H. set (d := toDisplayPosition pos price cum) in *. unfold handleClose in H.
  destruct ((100 <=? pct) || negb (partialCloseAvailable g d) || partialWouldSnap d pct) eqn:Hfull.
  { exfalso. unfold handleClosePosition, withWallet in H. destruct (pg_publicKey g); [|discriminate H].
    destruct (pg_leaderVault g); [discriminate H|]. inv_binds. repeat case_match; discriminate. }
  apply orb_false_iff in Hfull as [_ Hsnap]. unfold d in H. rewrite row_size in H. fold d in H.
  destruct (quarter_size pct (p_size pos) Hpct Hs) as (k' & Hk & Hkb). unfold d in H. rewrite Hk in H. cbn [mbind Result_bind] in H.
  unfold handleClosePartial, withWallet in H. destruct (pg_publicKey g); [|discriminate H]. injection H as _ <- <- _.
  assert (10000000000 <= p_collateral pos * (100 - pct)) as Hres by (by apply (snap_bound pos price cum)).
  assert (0 < k' < p_size pos) as Hk0 by (destruct Hpct as [-> | [-> | ->]]; lia).
  split; [done|]. split; [done|]. split; [done|]. unfold close_position_partial.
  rewrite (proj2 (Z.leb_gt k' 0)), (proj2 (Z.ltb_ge (p_size pos) k')), (proj2 (Z.eqb_neq k' (p_size pos))) by lia. cbn zeta.
  assert ((p_collateral pos * k') ÷ p_size pos <= p_collateral pos * pct / 100) as Hq.
  { rewrite Z.quot_div_nonneg by lia. apply Z.div_le_lower_bound; [lia|].
    pose proof (Z.mul_div_le (p_collateral pos * k') (p_size pos) ltac:(lia)) as Hle. nia. }
  pose proof (Z.mul_div_le (p_collateral pos * pct) 100 ltac:(lia)).
  by rewrite (proj2 (Z.ltb_ge _ _)) by lia.
Qed.

(** What the removal tab lets pass stays above a tenth of the position. *)
Lemma removable_bound pos price cum t n :
  16 <= p_size pos <= 2 ^ 49 -> 0 < p_collateral pos <= 2 ^ 49 -> typed t n -> 0 < n <= 2 ^ 50 ->
  gt (amountOf t) (maxRemovable (toDisplayPosition pos price cum)) = false ->
  p_size pos < 10 * (p_collateral pos - n) + 5.
Proof.
  intros Hs Hc Ht Hn Hgt. unfold maxRemovable in Hgt. rewrite row_size, row_collateral in Hgt.
  set (c := p_collateral pos) in *. set (s := p_size pos) in *. pose proof (typed_nearest t n Ht ltac:(lia)) as Ha.
  pose proof (shown_nearest c ltac:(lia)) as Hx. pose proof (shown_nearest s ltac:(lia)) as Hy.
  pose proof Hx as (_ & _ & _ & _ & _ & [Hx1 Hx2] & _). pose proof Hy as (_ & _ & _ & _ & _ & [Hy1 Hy2] & _).
  destruct (inject_bounds c 1 (2 ^ 49) ltac:(lia)) as [Hc1 Hc2]. destruct (inject_bounds s 16 (2 ^ 49) ltac:(lia)) as [Hs1 Hs2].
  change (inject_Z 1) with 1%Q in *. change (inject_Z 16) with (16 # 1)%Q in *. change (inject_Z (2 ^ 49)) with (562949953421312 # 1)%Q in *.
  destruct (nearest_range _ _ Hx) as (m1 & e1 & Hxf & Hm1 & He1); [lra|lra|].
  destruct (nearest_range _ _ Hy) as (m2 & e2 & Hyf & Hm2 & He2); [lra|lra|]. rewrite Hxf, Hyf in *.
  change MAX_LEVERAGE with 10 in Hgt. rewrite TEN in Hgt.
  pose proof (div_nearest m2 e2 _ _ Hm2 (ltac:(lia) : 2 ^ 52 <= Zpos 5629499534213120 < 2 ^ 53) ltac:(lia) (ltac:(lia) : -400 <= -49 <= 400)) as Hd.
  assert (val (S754_finite false 5629499534213120 (-49)) == 10 # 1)%Q as Hten by (vm_compute; reflexivity). rewrite Hten in Hd.
  pose proof Hd as (_ & _ & _ & _ & _ & [Hd1 Hd2] & _). unfold u in *.
  set (vs := val (S754_finite false m2 e2)) in *. set (vc := val (S754_finite false m1 e1)) in *.
  assert (vs / (10 # 1) == vs * (1 # 10))%Q as Hdiv by field. rewrite Hdiv in Hd, Hd1, Hd2.
  destruct (nearest_range _ _ Hd) as (m3 & e3 & Hdf & Hm3 & He3); [lra|lra|]. rewrite Hdf in *.
  destruct (sub_nearest m1 e1 m3 e3 Hm1 Hm3 ltac:(lia) ltac:(lia)) as [Hpos Hneg]. cbn zeta in Hpos, Hneg. fold vc in Hpos, Hneg.
  set (vd := val (S754_finite false m3 e3)) in *. set (D := subN _ _) in *. unfold gt, floorAtZero in Hgt.
  pose proof (nearest_positive _ _ Ha) as Hap. destruct Ha as (m & e & Haf & Hm & _ & [Ha1 Ha2] & _). unfold u in *.
  unfold amountOf in Hgt. rewrite Hap, Haf in Hgt. rewrite Haf in Ha1, Ha2.
  destruct (inject_bounds n 1 (2 ^ 50) ltac:(lia)) as [Hn1 _]. change (inject_Z 1) with 1%Q in *.
  assert (0 < vc - vd)%Q as HX.
  { destruct (Qlt_le_dec 0 (vc - vd)) as [|Hle]; [done|]. destruct (Hneg Hle) as [Hn0 Hnan]. rewrite Hn0 in Hgt. by destruct D. }
  specialize (Hpos HX). pose proof (nearest_positive _ _ Hpos) as HDp.
  destruct Hpos as (m4 & e4 & HDf & Hm4 & _ & [HD1 HD2] & _). rewrite HDf in *. cbn [isNaN isPositive] in Hgt.
  assert (ltN (S754_finite false m4 e4) (S754_finite false m e) = false) as Hlt by exact Hgt.
  apply not_true_iff_false in Hlt. rewrite ltN_val in Hlt by done. apply Qnot_lt_le in Hlt. unfold u in *.
  assert (inject_Z s < inject_Z (10 * (c - n) + 5))%Q as Hq; [|by rewrite <- Zlt_Qlt in Hq].
  unfold Z.sub. rewrite inject_Z_plus, inject_Z_mult, inject_Z_plus, inject_Z_opp. change (inject_Z 10) with (10 # 1)%Q. change (inject_Z 5) with (5 # 1)%Q.
  lra.
Qed.

(** C28. A removal the margin modal lets through passes the contract's checks
    of the amount: for an amount typed with at most seven places the request
    names the row's position and that very amount, which is less than its
    collateral and leaves at least a tenth of its size. *)
Theorem removal_passes_the_margin_floor g pos price cum t n call :
  16 <= p_size pos <= 2 ^ 49 -> 0 < p_collateral pos <= 2 ^ 49 -> typed t n -> 0 < n <= 2 ^ 50 ->
  handleEditMargin g removeTab (toDisplayPosition pos price cum) t = Ok (Some call) ->
  call = WalletNotConnected \/
  exists who, pg_publicKey g = Some who /\ pg_leaderVault g = None /\ call = Sign who (WRemoveCollateral (p_id pos) n) /\
    remove_collateral (p_size pos) (p_collateral pos) n 10 = Some true.
Proof.
  intros Hs Hc Ht Hn H. unfold handleEditMargin in H. destruct (marginInvalid _ _ _) eqn:Hinv; [discriminate H|].
  unfold marginInvalid in Hinv. apply orb_false_iff in Hinv as [[_ Hover]%orb_false_iff _]. cbn [overFloor] in Hover.
  destruct (scaled_amount t n Ht Hn) as (_ & Hround & _). unfold amountOf in Hround.
  pose proof (typed_nearest t n Ht ltac:(lia)) as Hx. rewrite (nearest_positive _ _ Hx) in Hround.
  destruct (_ || _); [discriminate H|]. rewrite Hround in H. cbn [mbind Result_bind] in H.
  destruct (pg_leaderVault g) eqn:Hl; [discriminate H|]. rewrite bool_decide_eq_false_2 in H by apply is_Some_None.
  unfold handleRemoveCollateral, withWallet in H.
  destruct (pg_publicKey g) as [who|]; cbn [mbind Result_bind Ok] in H; injection H as <-; [right|by left].
  exists who. split_and!; [done|done|done|].
  pose proof (removable_bound pos price cum t n Hs Hc Ht Hn Hover) as Hb. unfold remove_collateral.
  rewrite (proj2 (Z.leb_gt n 0)), (proj2 (Z.leb_gt (p_collateral pos) n)) by lia. cbn [orb].
  rewrite Z.quot_div_nonneg by lia. pose proof (Z.mul_div_le (p_size pos) 10 ltac:(lia)).
  rewrite (proj2 (Z.ltb_ge (p_collateral pos - n) (p_size pos / 10))) by lia. done.
Qed.

(** ** Examples *)

Definition longRow (size collateral : Z) : Position := {|
  p_id := 7; p_trader := "GTRADER"; p_asset := "BTC"; p_direction := Long; p_collateral := collateral; p_size := size;
  WebReads.entryPrice := 600000000000; WebReads.liquidationPrice := 545000000000; openedAt := 1700000000; entryCumulativeFunding := 0;
  marginMode := Isolated |}.

Definition tradePage : TradePage := {|
  pg_publicKey := Some "GTRADER"%string; pg_leaderVault := None; pg_batch1 := true; pg_positions := []; selectedAsset := "BTC" |}.

(** Half of a position over 50.0000001 USDC at eight times. *)
Lemma partial_close_passes_the_dust_guard_witness :
  exists k, handleClose tradePage (toDisplayPosition (longRow 4000000009 500000001) (numberOfZ 60000) None) 50
              = Ok (Sign "GTRADER" (WClosePartial 7 k "BTC")) /\
    close_position_partial 4000000009 500000001 k 100000000 = ClosesPart.
Proof.
  assert (exists k, handleClose tradePage (toDisplayPosition (longRow 4000000009 500000001) (numberOfZ 60000) None) 50
              = Ok (Sign "GTRADER" (WClosePartial 7 k "BTC"))) as (k & H) by (eexists; vm_compute; reflexivity).
  exists k. split; [exact H|].
  destruct (partial_close_passes_the_dust_guard tradePage (longRow 4000000009 500000001) (numberOfZ 60000) None 50 "GTRADER" 7 k "BTC"
    ltac:(tauto) ltac:(cbn; lia) ltac:(cbn; lia) H) as (_ & _ & _ & Hp).
  exact Hp.
Defined.

Lemma typed_10_005 : typed "10.005" 100050000.
Proof. exists "10"%string, "005"%string. split_and!; try done; [| |cbn; lia]; repeat constructor. Qed.

Lemma removal_passes_the_margin_floor_witness :
  handleEditMargin tradePage removeTab (toDisplayPosition (longRow 4001000000 500160000) (numberOfZ 60000) None) "10.005"
    = Ok (Some (Sign "GTRADER" (WRemoveCollateral 7 100050000))) /\
  remove_collateral 4001000000 500160000 100050000 10 = Some true.
Proof.
  assert (handleEditMargin tradePage removeTab (toDisplayPosition (longRow 4001000000 500160000) (numberOfZ 60000) None) "10.005"
    = Ok (Some (Sign "GTRADER" (WRemoveCollateral 7 100050000)))) as H by (vm_compute; reflexivity).
  split; [exact H|].
  destruct (removal_passes_the_margin_floor tradePage (longRow 4001000000 500160000) (numberOfZ 60000) None "10.005" 100050000 _
    ltac:(cbn; lia) ltac:(cbn; lia) typed_10_005 ltac:(lia) H) as [Hw|(who & _ & _ & _ & Hr)]; [discriminate Hw|exact Hr].
Defined.

(** The Max button rounds to cents, upwards too: the amount it fills in for
    10.006 USDC is over the floor it was computed from, and the modal stays
    disabled. *)
Example max_removal_is_refused :
  let d := toDisplayPosition (longRow 4001000000 500160000) (numberOfZ 60000) None in
  maxRemovalText d = "10.01"%string /\ marginInvalid removeTab d (maxRemovalText d) = true /\
  marginInvalid removeTab d "10.005" = false.
Proof. split_and!; vm_compute; reflexivity. Qed.

(** A close of a quarter that would leave under 10 USDC closes everything. *)
Example dust_snaps_to_a_full_close :
  let d := toDisplayPosition (longRow 520000000 130000000) (numberOfZ 60000) None in
  partialWouldSnap d 25 = true /\ partialWouldSnap d 23 = false /\
  handleClose tradePage d 25 = Ok (Sign "GTRADER" (WClose 7 "BTC" 0)).
Proof. split_and!; vm_compute; reflexivity. Qed.
