(* ===== verification/SdkSocket.v ===== *)
(** * The SDK's websocket client

    sdk-ts/src/sub/ws.ts: connecting with a timeout, reconnecting under
    backoff, logging in and subscribing again, delivery to the handlers; and
    its meeting with the gateway of [ApiSockets]. Sockets and timers are
    numbered as they are made. A socket is a browser WebSocket: it can send
    only while open, throws while connecting, and drops what it gets or is
    given afterwards. Logging is left out. *)

From S2P Require Import Prelude JsText ApiBoard ApiSockets.
Open Scope Z_scope.
Open Scope js_scope.

(** ** The client *)

Record Credentials := { c_keyId : string; c_secret : string }.

Record WsClientOptions := {
  optCredentials : option Credentials; minBackoff : Z; maxBackoff : Z; autoReconnect : bool; connectTimeoutMs : Z }.

Definition defaults (creds : option Credentials) : WsClientOptions := {|
  optCredentials := creds; minBackoff := 250; maxBackoff := 30000; autoReconnect := true; connectTimeoutMs := 15000 |}.

Inductive ReadyState := CONNECTING | OPEN | CLOSING | CLOSED.

#[export] Instance ReadyState_eq_dec : EqDecision ReadyState.
Proof. solve_decision. Defined.

(** A socket, with the flag its handlers share. *)
Record Sock := { readyState : ReadyState; established : bool }.

(** What a timer does when it fires. *)
Inductive Timer := ConnectTimeout | RetryAttempt | RetryCycle.

(** [socks] are the sockets made, by number; [ready] is the promise behind
    readyResolve and readyReject, [promises] how many were made; [timers] the
    timers running, [nextTimer] how many were started. [subs] is in insertion order. *)
Record WsClient := {
  socket : option nat; socks : list Sock; subs : list (string * nat); credentials : option Credentials;
  closed : bool; reconnectAttempts : Z;
  connectingPromise : option nat; ready : option nat; promises : nat;
  connectTimer : option nat; retryTimer : option nat; timers : list (nat * Timer); nextTimer : nat }.

Definition newClient (o : WsClientOptions) : WsClient := {|
  socket := None; socks := []; subs := []; credentials := optCredentials o; closed := false; reconnectAttempts := 0;
  connectingPromise := None; ready := None; promises := 0; connectTimer := None; retryTimer := None; timers := [];
  nextTimer := 0 |}.

Inductive Request :=
| LoginAs (k : Credentials)
| SubscribeTo (channels : list string)
| UnsubscribeFrom (channels : list string)
| PingServer.

Inductive Out :=
| NewSocket (n : nat)
| Sent (n : nat) (r : Request)
| CloseSocket (n : nat)
| Returned (p : nat)                        (** connect() gives this promise *)
| Resolved (p : nat)
| RejectedP (p : nat) (reason : string)
| Delivered (handler : nat) (data channel : string)
| LoginReported (ok : bool) (error : option string)
| SubscriptionRejected (channels : list string) (reason : option string)
| Started (t : nat) (delay : Z)
| Thrown.

(** What arrives: not JSON, [null], or an object with the fields read. *)
Record WireMsg := {
  m_type : option string; m_channel : option string; m_channels : option (list string); m_data : string;
  m_ok : bool; m_error : option string; m_reason : option string }.

Inductive Inbound := NotJson | NullJson | Message (m : WireMsg).

(** ** Fields *)

Definition setSocket (x : option nat) (c : WsClient) : WsClient := {|
  socket := x; socks := socks c; subs := subs c; credentials := credentials c; closed := closed c;
  reconnectAttempts := reconnectAttempts c; connectingPromise := connectingPromise c; ready := ready c;
  promises := promises c; connectTimer := connectTimer c; retryTimer := retryTimer c; timers := timers c;
  nextTimer := nextTimer c |}.
Definition setSocks (x : list Sock) (c : WsClient) : WsClient := {|
  socket := socket c; socks := x; subs := subs c; credentials := credentials c; closed := closed c;
  reconnectAttempts := reconnectAttempts c; connectingPromise := connectingPromise c; ready := ready c;
  promises := promises c; connectTimer := connectTimer c; retryTimer := retryTimer c; timers := timers c;
  nextTimer := nextTimer c |}.
Definition setSubs (x : list (string * nat)) (c : WsClient) : WsClient := {|
  socket := socket c; socks := socks c; subs := x; credentials := credentials c; closed := closed c;
  reconnectAttempts := reconnectAttempts c; connectingPromise := connectingPromise c; ready := ready c;
  promises := promises c; connectTimer := connectTimer c; retryTimer := retryTimer c; timers := timers c;
  nextTimer := nextTimer c |}.
Definition setCreds (x : option Credentials) (c : WsClient) : WsClient := {|
  socket := socket c; socks := socks c; subs := subs c; credentials := x; closed := closed c;
  reconnectAttempts := reconnectAttempts c; connectingPromise := connectingPromise c; ready := ready c;
  promises := promises c; connectTimer := connectTimer c; retryTimer := retryTimer c; timers := timers c;
  nextTimer := nextTimer c |}.
Definition setClosed (x : bool) (c : WsClient) : WsClient := {|
  socket := socket c; socks := socks c; subs := subs c; credentials := credentials c; closed := x;
  reconnectAttempts := reconnectAttempts c; connectingPromise := connectingPromise c; ready := ready c;
  promises := promises c; connectTimer := connectTimer c; retryTimer := retryTimer c; timers := timers c;
  nextTimer := nextTimer c |}.
Definition setAttempts (x : Z) (c : WsClient) : WsClient := {|
  socket := socket c; socks := socks c; subs := subs c; credentials := credentials c; closed := closed c;
  reconnectAttempts := x; connectingPromise := connectingPromise c; ready := ready c;
  promises := promises c; connectTimer := connectTimer c; retryTimer := retryTimer c; timers := timers c;
  nextTimer := nextTimer c |}.
Definition setConnecting (x : option nat) (c : WsClient) : WsClient := {|
  socket := socket c; socks := socks c; subs := subs c; credentials := credentials c; closed := closed c;
  reconnectAttempts := reconnectAttempts c; connectingPromise := x; ready := ready c;
  promises := promises c; connectTimer := connectTimer c; retryTimer := retryTimer c; timers := timers c;
  nextTimer := nextTimer c |}.
Definition setReady (x : option nat) (c : WsClient) : WsClient := {|
  socket := socket c; socks := socks c; subs := subs c; credentials := credentials c; closed := closed c;
  reconnectAttempts := reconnectAttempts c; connectingPromise := connectingPromise c; ready := x;
  promises := promises c; connectTimer := connectTimer c; retryTimer := retryTimer c; timers := timers c;
  nextTimer := nextTimer c |}.
Definition setConnectTimer (x : option nat) (c : WsClient) : WsClient := {|
  socket := socket c; socks := socks c; subs := subs c; credentials := credentials c; closed := closed c;
  reconnectAttempts := reconnectAttempts c; connectingPromise := connectingPromise c; ready := ready c;
  promises := promises c; connectTimer := x; retryTimer := retryTimer c; timers := timers c;
  nextTimer := nextTimer c |}.
Definition setRetryTimer (x : option nat) (c : WsClient) : WsClient := {|
  socket := socket c; socks := socks c; subs := subs c; credentials := credentials c; closed := closed c;
  reconnectAttempts := reconnectAttempts c; connectingPromise := connectingPromise c; ready := ready c;
  promises := promises c; connectTimer := connectTimer c; retryTimer := x; timers := timers c;
  nextTimer := nextTimer c |}.
Definition setTimers (x : list (nat * Timer)) (c : WsClient) : WsClient := {|
  socket := socket c; socks := socks c; subs := subs c; credentials := credentials c; closed := closed c;
  reconnectAttempts := reconnectAttempts c; connectingPromise := connectingPromise c; ready := ready c;
  promises := promises c; connectTimer := connectTimer c; retryTimer := retryTimer c; timers := x;
  nextTimer := nextTimer c |}.

(** [new Promise] and [setTimeout]: the promise or timer made. *)
Definition makePromise (c : WsClient) : WsClient := {|
  socket := socket c; socks := socks c; subs := subs c; credentials := credentials c; closed := closed c;
  reconnectAttempts := reconnectAttempts c; connectingPromise := Some (promises c); ready := Some (promises c);
  promises := S (promises c); connectTimer := connectTimer c; retryTimer := retryTimer c; timers := timers c;
  nextTimer := nextTimer c |}.
Definition startTimer (x : Timer) (c : WsClient) : WsClient := {|
  socket := socket c; socks := socks c; subs := subs c; credentials := credentials c; closed := closed c;
  reconnectAttempts := reconnectAttempts c; connectingPromise := connectingPromise c; ready := ready c;
  promises := promises c; connectTimer := connectTimer c; retryTimer := retryTimer c;
  timers := timers c ++ [(nextTimer c, x)]; nextTimer := S (nextTimer c) |}.

Definition clearTimeout (t : option nat) (c : WsClient) : WsClient :=
  match t with
  | Some t => setTimers (bfilter (fun x => negb (x.1 =? t)%nat) (timers c)) c
  | None => c
  end.

(** ** Sending *)

Definition stateOf (c : WsClient) (n : nat) : ReadyState :=
  match socks c !! n with Some s => readyState s | None => CLOSED end.

Definition isOpen (c : WsClient) : bool :=
  match socket c with Some n => bool_decide (stateOf c n = OPEN) | None => false end.

(** Sends one after the other, on the client's current socket, until one throws. *)
Fixpoint sends (c : WsClient) (l : list Request) : list Out :=
  match l with
  | [] => []
  | r :: l =>
      match socket c with
      | None => sends c l
      | Some n =>
          match stateOf c n with
          | CONNECTING => [Thrown]
          | OPEN => Sent n r :: sends c l
          | _ => sends c l
          end
      end
  end.

Definition closeSocket (n : nat) (c : WsClient) : WsClient * list Out :=
  match socks c !! n with
  | Some s =>
      match readyState s with
      | CONNECTING | OPEN =>
          (setSocks (<[n := {| readyState := CLOSING; established := established s |}]> (socks c)) c, [CloseSocket n])
      | _ => (c, [])
      end
  | None => (c, [])
  end.

(** ** Connecting *)

(** settleConnect: [None] resolves. *)
Definition settleConnect (err : option string) (c : WsClient) : WsClient * list Out :=
  let pending := ready c in
  let c := setReady None (setConnectTimer None (clearTimeout (connectTimer c) c)) in
  match err with
  | Some e => (setConnecting None c, match pending with Some p => [RejectedP p e] | None => [] end)
  | None => (c, match pending with Some p => [Resolved p] | None => [] end)
  end.

Definition clearRetryTimer (c : WsClient) : WsClient := setRetryTimer None (clearTimeout (retryTimer c) c).

Definition attempt (c : WsClient) : WsClient * list Out :=
  if closed c then (c, [])
  else
    let n := length (socks c) in
    (setSocket (Some n) (setSocks (socks c ++ [{| readyState := CONNECTING; established := false |}]) c), [NewSocket n]).

Section client.
Context (o : WsClientOptions).

Definition startCycle (withTimeout : bool) (c : WsClient) : WsClient * list Out :=
  let c := makePromise (setClosed false c) in
  let '(c, out) :=
    if withTimeout then
      (setConnectTimer (Some (nextTimer c)) (startTimer ConnectTimeout c), [Started (nextTimer c) (connectTimeoutMs o)])
    else (c, []) in
  let '(c, out') := attempt c in (c, out ++ out').

(** [connect()] *)
Definition connect (c : WsClient) : WsClient * list Out :=
  match connectingPromise c with
  | Some p => (c, [Returned p])
  | None => let '(c', out) := startCycle true c in (c', out ++ [Returned (promises c)])
  end.

(** The callback of the connect timeout. *)
Definition connectTimedOut (c : WsClient) : WsClient * list Out :=
  let sock := socket c in
  let '(c, out) := settleConnect (Some ("ws connect timed out after " +:+ decimalOfZ (connectTimeoutMs o) +:+ "ms")%string) (clearRetryTimer c) in
  match sock with
  | Some n => let '(c, out') := closeSocket n c in (c, out ++ out')
  | None => (c, out)
  end.

(** [close()] *)
Definition close (c : WsClient) : WsClient * list Out :=
  let '(c, out) := settleConnect (Some "ws closed by client"%string) (clearRetryTimer (setClosed true c)) in
  let c := setConnecting None c in
  match socket c with
  | Some n => let '(c, out') := closeSocket n c in (setSocket None c, out ++ out')
  | None => (c, out)
  end.

(** [Map.set] and [Map.delete] on the subscriptions. *)
Fixpoint putSub (ch : string) (h : nat) (l : list (string * nat)) : list (string * nat) :=
  match l with
  | [] => [(ch, h)]
  | (k, v) :: l => if String.eqb k ch then (k, h) :: l else (k, v) :: putSub ch h l
  end.

Fixpoint getSub (ch : string) (l : list (string * nat)) : option nat :=
  match l with
  | [] => None
  | (k, v) :: l => if String.eqb k ch then Some v else getSub ch l
  end.

Definition subscribe (ch : string) (h : nat) (c : WsClient) : WsClient * list Out :=
  let c := setSubs (putSub ch h (subs c)) c in
  (c, if isOpen c then sends c [SubscribeTo [ch]] else []).

Definition unsubscribe (ch : string) (c : WsClient) : WsClient * list Out :=
  let c := setSubs (bfilter (fun s => negb (String.eqb s.1 ch)) (subs c)) c in
  (c, if isOpen c then sends c [UnsubscribeFrom [ch]] else []).

Definition ping (c : WsClient) : WsClient * list Out := (c, if isOpen c then sends c [PingServer] else []).

Definition setCredentials (k : option Credentials) (c : WsClient) : WsClient * list Out :=
  let c := setCreds k c in
  (c, match k with Some k => if isOpen c then sends c [LoginAs k] else [] | None => [] end).

(** ** The handlers of a socket *)

Definition channels (c : WsClient) : list string := (subs c).*1.

Definition PRIVATE_CHANNEL_PREFIX : string := "account.".

Definition privateChannels (c : WsClient) : list string := bfilter (startsWith PRIVATE_CHANNEL_PREFIX) (channels c).

Definition ifAny (l : list string) : list Request := match l with [] => [] | _ => [SubscribeTo l] end.

Definition onopen (c : WsClient) : WsClient * list Out :=
  let c := setAttempts 0 c in
  (c, sends c ((match credentials c with Some k => [LoginAs k] | None => [] end) ++ ifAny (channels c))).

Definition establish (n : nat) (c : WsClient) : WsClient :=
  setSocks (alter (fun s => {| readyState := readyState s; established := true |}) n (socks c)) c.

(** A callback after a send runs only if the send did not throw. *)
Definition unlessThrown (out after : list Out) : list Out :=
  if existsb (fun x => match x with Thrown => true | _ => false end) out then out else out ++ after.

Definition onmessage (n : nat) (i : Inbound) (c : WsClient) : WsClient * list Out :=
  match i with
  | NotJson => (c, [])
  | NullJson => (c, [Thrown])
  | Message m =>
      if bool_decide (m_type m = Some "hello"%string) then settleConnect None (establish n c)
      else if bool_decide (m_type m = Some "login"%string) then
        (c, unlessThrown (if m_ok m then sends c (ifAny (privateChannels c)) else []) [LoginReported (m_ok m) (m_error m)])
      else if bool_decide (m_type m = Some "rejected"%string) then
        (c, [SubscriptionRejected (default [] (m_channels m)) (m_reason m)])
      else
        match m_channel m with
        | Some ch =>
            if truthy ch then
              match getSub ch (subs c) with Some h => (c, [Delivered h (m_data m) ch]) | None => (c, []) end
            else (c, [])
        | None => (c, [])
        end
  end.

(** nextBackoff: [2 ** attempts] is exact or past every maximum. *)
Definition nextBackoff (c : WsClient) : Z := Z.min (maxBackoff o) (minBackoff o * 2 ^ reconnectAttempts c).

(** The retry timer for what is to be done after the backoff. *)
Definition retryAfterBackoff (x : Timer) (c : WsClient) : WsClient * list Out :=
  let delay := nextBackoff c in
  let c := setAttempts (reconnectAttempts c + 1) c in
  (setRetryTimer (Some (nextTimer c)) (startTimer x c), [Started (nextTimer c) delay]).

Definition onclose (n : nat) (wasEstablished : bool) (c : WsClient) : WsClient * list Out :=
  let c := if bool_decide (socket c = Some n) then setSocket None c else c in
  let pending := bool_decide (is_Some (ready c)) in
  if closed c then if pending then settleConnect (Some "ws closed by client"%string) c else (c, [])
  else if pending then
    if negb (autoReconnect o) then settleConnect (Some "ws connection failed"%string) c
    else retryAfterBackoff RetryAttempt c
  else if negb wasEstablished then (c, [])
  else
    let c := setConnecting None c in
    if autoReconnect o then retryAfterBackoff RetryCycle c else (c, []).

Definition fire (x : Timer) (c : WsClient) : WsClient * list Out :=
  match x with
  | ConnectTimeout => connectTimedOut c
  | RetryAttempt =>
      let c := setRetryTimer None c in
      if negb (closed c) && bool_decide (is_Some (ready c)) then attempt c else (c, [])
  | RetryCycle =>
      let c := setRetryTimer None c in
      if negb (closed c) && negb (bool_decide (is_Some (connectingPromise c))) then startCycle false c else (c, [])
  end.

(** ** Runs *)

Inductive Event :=
| Connect
| CloseClient
| Subscribe (ch : string) (h : nat)
| Unsubscribe (ch : string)
| PingCall
| SetCredentials (k : option Credentials)
| Opened (n : nat)
| Received (n : nat) (i : Inbound)
| SocketGone (n : nat)
| TimerFired (t : nat).

(** A browser socket opens once, delivers while open, and closes once; only a
    running timer fires. *)
Definition possible (e : Event) (c : WsClient) : bool :=
  match e with
  | Opened n => bool_decide (stateOf c n = CONNECTING)
  | Received n _ => bool_decide (stateOf c n = OPEN)
  | SocketGone n => negb (bool_decide (stateOf c n = CLOSED))
  | TimerFired t => existsb (fun x => (x.1 =? t)%nat) (timers c)
  | _ => true
  end.

Definition withState (n : nat) (s : ReadyState) (c : WsClient) : WsClient :=
  setSocks (alter (fun k => {| readyState := s; established := established k |}) n (socks c)) c.

Definition timerOf (t : nat) (c : WsClient) : option Timer :=
  firstSome (fun x => if (x.1 =? t)%nat then Some x.2 else None) (timers c).

Definition step (e : Event) (c : WsClient) : WsClient * list Out :=
  match e with
  | Connect => connect c
  | CloseClient => close c
  | Subscribe ch h => subscribe ch h c
  | Unsubscribe ch => unsubscribe ch c
  | PingCall => ping c
  | SetCredentials k => setCredentials k c
  | Opened n => onopen (withState n OPEN c)
  | Received n i => onmessage n i c
  | SocketGone n =>
      onclose n (match socks c !! n with Some s => established s | None => false end) (withState n CLOSED c)
  | TimerFired t =>
      match timerOf t c with Some x => fire x (clearTimeout (Some t) c) | None => (c, []) end
  end.

(** The states and outputs of a run of possible events. *)
Fixpoint run (es : list Event) (c : WsClient) : option (WsClient * list Out) :=
  match es with
  | [] => Some (c, [])
  | e :: es =>
      if possible e c then
        let '(c1, out) := step e c in
        match run es c1 with Some (c2, out') => Some (c2, out ++ out') | None => None end
      else None
  end.
End client.

(** ** The gateway's side of the protocol *)

(** A request as the frame the gateway reads. *)
Definition frameOf (r : Request) : Frame :=
  match r with
  | LoginAs k => Json (Some "login"%string) None (Some (c_keyId k)) (Some (c_secret k))
  | SubscribeTo l => Json (Some "subscribe"%string) (Some (Some <$> l)) None None
  | UnsubscribeFrom l => Json (Some "unsubscribe"%string) (Some (Some <$> l)) None None
  | PingServer => Json (Some "ping"%string) None None None
  end.

Definition plain (t : string) : WireMsg := {|
  m_type := Some t; m_channel := None; m_channels := None; m_data := EmptyString; m_ok := false; m_error := None; m_reason := None |}.

(** A message of the gateway as the client reads it. *)
Definition wire (m : ServerMsg) : WireMsg :=
  match m with
  | Hello => plain "hello"
  | Pong => plain "pong"
  | Subscribed l => {| m_type := Some "subscribed"%string; m_channel := None; m_channels := Some l; m_data := EmptyString;
                       m_ok := false; m_error := None; m_reason := None |}
  | Unsubscribed l => {| m_type := Some "unsubscribed"%string; m_channel := None; m_channels := Some l; m_data := EmptyString;
                         m_ok := false; m_error := None; m_reason := None |}
  | Rejected l => {| m_type := Some "rejected"%string; m_channel := None; m_channels := Some l; m_data := EmptyString;
                     m_ok := false; m_error := None; m_reason := None |}
  | LoginOk _ _ => {| m_type := Some "login"%string; m_channel := None; m_channels := None; m_data := EmptyString;
                      m_ok := true; m_error := None; m_reason := None |}
  | LoginFailed e => {| m_type := Some "login"%string; m_channel := None; m_channels := None; m_data := EmptyString;
                        m_ok := false; m_error := Some e; m_reason := None |}
  | ErrorMsg e => {| m_type := Some "error"%string; m_channel := None; m_channels := None; m_data := EmptyString;
                     m_ok := false; m_error := Some e; m_reason := None |}
  end.

(** A broadcast. *)
Definition onChannel (ch payload : string) : Inbound := Message {|
  m_type := None; m_channel := Some ch; m_channels := None; m_data := payload; m_ok := false; m_error := None; m_reason := None |}.

Section served.
Context (opts : WsManagerOptions) (id : string) (u : User).

(** What the gateway does with a request past its message budget, and with
    the end of the lookup of a login. *)
Inductive Served := Handles (r : Request) | LoginFound.

Definition serve (g : Gateway) (x : Served) : Gateway :=
  match x with
  | Handles r => (handleMessage opts id (frameOf r) g).1
  | LoginFound => (finishLogin id (Ok (Some u)) (setPending (removeOne id (pendingLogins g)) g)).1
  end.
End served.

(** ** Lemmas: runs *)

Ltac client_unfold := unfold connectTimedOut, close, connect, startCycle, settleConnect, clearRetryTimer, attempt, closeSocket,
  retryAfterBackoff, makePromise, startTimer, setSocket, setSocks, setSubs, setCreds, setClosed, setAttempts, setConnecting, setReady,
  setConnectTimer, setRetryTimer, setTimers in *.

Lemma run_snoc o es c c1 out e :
  run o es c = Some (c1, out) -> possible e c1 = true ->
  run o (es ++ [e]) c = Some ((step o e c1).1, out ++ (step o e c1).2).
Proof.
  revert c out. induction es as [|e' es IH]; intros c out; cbn [run app].
  - intros [= <- <-] ->. destruct (step o e c) as [c2 o2]. by rewrite app_nil_r.
  - destruct (possible e' c); [|done]. destruct (step o e' c) as [c2 o2]. destruct (run o es c2) as [[c3 o3]|] eqn:Hr; [|done].
    intros [= <- <-] He. by rewrite (IH _ _ Hr He), app_assoc.
Qed.

(** Induction on a run: what holds at first and is kept by every step holds at
    the end, of the state with what was put out. *)
Lemma run_invariant o (I : WsClient -> list Out -> Prop) es c c' out out0 :
  I c out0 -> run o es c = Some (c', out) ->
  (forall c1 e out1, e ∈ es -> possible e c1 = true -> I c1 out1 -> I (step o e c1).1 (out1 ++ (step o e c1).2)) ->
  I c' (out0 ++ out).
Proof.
  revert c out0 out. induction es as [|e es IH]; intros c out0 out HI; cbn [run].
  - intros [= <- <-] _. by rewrite app_nil_r.
  - destruct (possible e c) eqn:Hp; [|done]. intros Hrun Hstep.
    assert (I (step o e c).1 (out0 ++ (step o e c).2)) as Hone by (apply Hstep; [apply elem_of_cons; left; reflexivity|done|done]).
    destruct (step o e c) as [c1 o1]. destruct (run o es c1) as [[c2 o2]|] eqn:Hr; [|done]. injection Hrun as <- <-.
    rewrite app_assoc. apply (IH c1 (out0 ++ o1) o2); [done|done|].
    intros c3 e3 out3 He. apply Hstep. apply elem_of_cons. by right.
Qed.

(** ** Lemmas: timers *)

Lemma timerOf_app t l1 l2 c :
  timerOf t (setTimers (l1 ++ l2) c) = match timerOf t (setTimers l1 c) with Some x => Some x | None => timerOf t (setTimers l2 c) end.
Proof.
  unfold timerOf. cbn [setTimers timers]. induction l1 as [|[t' x] l1 IH]; [done|]. cbn [app firstSome fst snd]. by destruct (t' =? t)%nat.
Qed.

Lemma timerOf_cleared t t' l c :
  t <> t' -> timerOf t (setTimers (bfilter (fun x => negb (x.1 =? t')%nat) l) c) = timerOf t (setTimers l c).
Proof.
  intros Hne. unfold timerOf. cbn [setTimers timers]. induction l as [|[k x] l IH]; [done|]. cbn [bfilter firstSome fst snd].
  destruct (Nat.eqb_spec k t') as [->|Hk]; cbn [negb].
  - rewrite IH. by rewrite (proj2 (Nat.eqb_neq t' t)) by congruence.
  - cbn [firstSome fst snd]. by rewrite IH.
Qed.

(** A connect() whose promise is open, with its timeout running. *)
Definition Waiting (p t : nat) (c : WsClient) : Prop :=
  ready c = Some p /\ connectingPromise c = Some p /\ connectTimer c = Some t /\ timerOf t c = Some ConnectTimeout /\
  (t < nextTimer c)%nat.

Definition settled (p : nat) (out : list Out) : Prop := Resolved p ∈ out \/ exists reason, RejectedP p reason ∈ out.

Lemma settle_settles p err c : ready c = Some p -> settled p (settleConnect err c).2.
Proof.
  intros Hr. unfold settleConnect. rewrite Hr. destruct err; [right; eexists|left]; by apply list_elem_of_singleton.
Qed.

Lemma ready_clearRetry c : ready (clearRetryTimer c) = ready c.
Proof. unfold clearRetryTimer, clearTimeout. by destruct (retryTimer c). Qed.

Lemma timeout_rejects o p c :
  ready c = Some p -> exists reason, RejectedP p reason ∈ (connectTimedOut o c).2.
Proof.
  intros Hr. unfold connectTimedOut, settleConnect. rewrite ready_clearRetry, Hr. eexists.
  destruct (socket c); [destruct (closeSocket _ _) as [c' out]|]; cbn [snd]; rewrite ?elem_of_app, list_elem_of_singleton; eauto.
Qed.

Lemma waiting_retry o x p t c : Waiting p t c -> Waiting p t (retryAfterBackoff o x c).1.
Proof.
  intros (H1 & H2 & H3 & H4 & H5). split_and!; [done..| |cbn; lia]. unfold timerOf in *. cbn [retryAfterBackoff setRetryTimer startTimer setAttempts timers fst].
  clear -H4. induction (timers c) as [|[k y] l IH]; [done|]. cbn [app firstSome fst snd] in *. by destruct (k =? t)%nat; [|apply IH].
Qed.

Lemma waiting_attempt p t c : Waiting p t c -> Waiting p t (attempt c).1.
Proof. intros H. unfold attempt. by destruct (closed c). Qed.

Lemma waiting_fire o x p t c t' :
  Waiting p t c -> timerOf t' c = Some x -> t' <> t ->
  settled p (fire o x (clearTimeout (Some t') c)).2 \/ Waiting p t (fire o x (clearTimeout (Some t') c)).1.
Proof.
  intros (H1 & H2 & H3 & H4 & H5) Hx Hne. cbn [clearTimeout].
  set (c' := setTimers _ c). assert (Waiting p t c') as Hw by (split_and!; try done; unfold c'; by rewrite timerOf_cleared).
  clearbody c'. destruct x; cbn [fire].
  - left. right. apply timeout_rejects, Hw.
  - right. destruct (negb _ && _); [by apply waiting_attempt|exact Hw].
  - right. destruct Hw as (? & Hc & ? & ? & ?). rewrite (bool_decide_eq_true_2 (is_Some (connectingPromise _))) by (by exists p).
    rewrite andb_false_r. by split_and!.
Qed.

Lemma waiting_step o e p t c :
  Waiting p t c -> possible e c = true -> settled p (step o e c).2 \/ Waiting p t (step o e c).1.
Proof.
  intros Hw Hp. pose proof Hw as (H1 & H2 & H3 & H4 & H5). destruct e as [| |ch h|ch| |k|n|n i|n|t']; cbn [step].
  - right. unfold connect. by rewrite H2.
  - left. unfold close. assert (settled p (settleConnect (Some "ws closed by client"%string) (clearRetryTimer (setClosed true c))).2) as Hs
      by (apply settle_settles; by rewrite ready_clearRetry).
    destruct (settleConnect _ _) as [c' out]. cbn [setConnecting socket]. destruct (socket c') as [n|]; [|exact Hs].
    destruct (closeSocket _ _) as [c'' out']. cbn [snd] in *. destruct Hs as [Hs|[r Hs]]; [left|right; exists r]; apply elem_of_app; by left.
  - right. by split_and!.
  - right. by split_and!.
  - by right.
  - right. by split_and!.
  - right. by split_and!.
  - destruct i as [| |m]; [by right|by right|]. cbn [onmessage].
    case_bool_decide; [left; by apply settle_settles|]. right. by repeat case_match.
  - set (c' := withState n CLOSED c). assert (Waiting p t c') as Hw' by (by split_and!).
    clearbody c'. clear Hw H1 H2 H3 H4 H5 Hp. unfold onclose. set (c2 := if bool_decide _ then _ else _).
    assert (Waiting p t c2) as Hw2 by (unfold c2; by case_bool_decide). clearbody c2. clear Hw'.
    pose proof Hw2 as (H1 & _). rewrite bool_decide_eq_true_2 by (by exists p).
    destruct (closed c2); [left; by apply settle_settles|]. destruct (negb _); [left; by apply settle_settles|].
    right. by apply waiting_retry.
  - destruct (timerOf t' c) as [x|] eqn:Hx; [|by right]. destruct (decide (t' = t)) as [->|Hne].
    + rewrite H4 in Hx. injection Hx as <-. left. right. apply timeout_rejects, H1.
    + by apply waiting_fire.
Qed.

(** Timers are numbered below the next one. *)
Definition Numbered (c : WsClient) : Prop := forall x, x ∈ timers c -> (x.1 < nextTimer c)%nat.

(** A step only drops timers and starts timers with new numbers. *)
Lemma numbered_same c c' : timers c' = timers c -> nextTimer c' = nextTimer c -> Numbered c -> Numbered c'.
Proof. intros H1 H2 H x. rewrite H1, H2. apply H. Qed.

Lemma numbered_clear t c : Numbered c -> Numbered (clearTimeout t c).
Proof. intros H. destruct t as [t|]; [|exact H]. intros x [Hx _]%elem_of_bfilter. by apply H. Qed.

Lemma numbered_start x c : Numbered c -> Numbered (startTimer x c).
Proof.
  intros H y [Hy|Hy%list_elem_of_singleton]%elem_of_app; [specialize (H y Hy)|subst y]; cbn; lia.
Qed.

Lemma numbered_settle err c : Numbered c -> Numbered (settleConnect err c).1.
Proof.
  intros H. apply (numbered_clear (connectTimer c)) in H. destruct err; (eapply numbered_same; [| |exact H]; done).
Qed.

Lemma numbered_clearRetry c : Numbered c -> Numbered (clearRetryTimer c).
Proof. intros H. apply (numbered_clear (retryTimer c)) in H. eapply numbered_same; [| |exact H]; done. Qed.

Lemma numbered_closeSocket n c : Numbered c -> Numbered (closeSocket n c).1.
Proof. intros H. unfold closeSocket. by repeat case_match. Qed.

Lemma numbered_attempt c : Numbered c -> Numbered (attempt c).1.
Proof. intros H. unfold attempt. by case_match. Qed.

Lemma numbered_retry o x c : Numbered c -> Numbered (retryAfterBackoff o x c).1.
Proof. intros H. apply (numbered_start x (setAttempts (reconnectAttempts c + 1) c)). exact H. Qed.

Lemma numbered_cycle o b c : Numbered c -> Numbered (startCycle o b c).1.
Proof.
  intros H. unfold startCycle. destruct b.
  - pose proof (numbered_attempt (setConnectTimer (Some (nextTimer c)) (startTimer ConnectTimeout (makePromise (setClosed false c))))
      (numbered_start ConnectTimeout (makePromise (setClosed false c)) H)) as Ha.
    cbn [makePromise nextTimer setClosed]. by destruct (attempt _).
  - pose proof (numbered_attempt (makePromise (setClosed false c)) H) as Ha. by destruct (attempt _).
Qed.

#[export] Hint Resolve numbered_clear numbered_start numbered_settle numbered_clearRetry numbered_closeSocket numbered_attempt
  numbered_retry numbered_cycle : noether.

Lemma numbered_timeout o c : Numbered c -> Numbered (connectTimedOut o c).1.
Proof.
  intros H. unfold connectTimedOut. pose proof (numbered_settle (Some ("ws connect timed out after " +:+ decimalOfZ (connectTimeoutMs o) +:+ "ms")%string)
    (clearRetryTimer c) (numbered_clearRetry c H)) as Hs.
  destruct (settleConnect _ _) as [c' out]. destruct (socket c) as [n|]; [|exact Hs].
  pose proof (numbered_closeSocket n c' Hs). by destruct (closeSocket _ _).
Qed.

Lemma numbered_fire o x c : Numbered c -> Numbered (fire o x c).1.
Proof.
  intros H. destruct x; cbn [fire]; [by apply numbered_timeout| |]; (destruct (_ && _); [|exact H]);
    [by apply (numbered_attempt (setRetryTimer None c))|by apply (numbered_cycle o false (setRetryTimer None c))].
Qed.

Lemma numbered_step o e c : Numbered c -> Numbered (step o e c).1.
Proof.
  intros H. destruct e as [| |ch h|ch| |k|n|n i|n|t']; cbn [step]; try exact H.
  - unfold connect. destruct (connectingPromise c); [done|]. pose proof (numbered_cycle o true c H). by destruct (startCycle o true c).
  - unfold close. pose proof (numbered_settle (Some "ws closed by client"%string) _ (numbered_clearRetry (setClosed true c) H)) as Hs.
    destruct (settleConnect _ _) as [c' out]. cbn [setConnecting socket]. destruct (socket c') as [n|]; [|exact Hs].
    pose proof (numbered_closeSocket n (setConnecting None c') Hs). by destruct (closeSocket _ _).
  - destruct i as [| |m]; [done|done|]. cbn [onmessage]. case_bool_decide; [by apply numbered_settle|]. by repeat case_match.
  - set (c' := withState n CLOSED c). assert (Numbered c') as Hw' by done. clearbody c'.
    unfold onclose. set (c2 := if bool_decide _ then _ else _).
    assert (Numbered c2) as Hw2 by (unfold c2; by case_bool_decide). clearbody c2.
    repeat (case_bool_decide || case_match); auto with noether.
  - destruct (timerOf t' c) as [x|]; [|done]. apply numbered_fire, numbered_clear, H.
Qed.

Lemma numbered_run o es c out : run o es (newClient o) = Some (c, out) -> Numbered c.
Proof.
  intros Hr. apply (run_invariant o (fun c _ => Numbered c) es (newClient o) c out []); [|exact Hr|].
  - by intros x Hx%elem_of_nil.
  - intros c1 e _ _ _. by apply numbered_step.
Qed.

Lemma timerOf_fresh t c : Numbered c -> (nextTimer c <= t)%nat -> timerOf t c = None.
Proof.
  intros H Ht. unfold timerOf, Numbered in *. induction (timers c) as [|[k x] l IH]; [done|]. cbn [firstSome fst snd].
  rewrite (proj2 (Nat.eqb_neq k t)); [|specialize (H (k, x) ltac:(by apply elem_of_cons; left)); cbn in H; lia].
  apply IH. intros y Hy. apply H, elem_of_cons. by right.
Qed.

(** C30. connect() never hangs: from any state a client can reach without a
    connection under way, the promise it returns is settled in every
    continuation, or its timeout is still running, and when that fires the
    promise is rejected. *)
Theorem connect_settles o before c out0 :
  run o before (newClient o) = Some (c, out0) -> connectingPromise c = None ->
  exists p t, Returned p ∈ (step o Connect c).2 /\ Started t (connectTimeoutMs o) ∈ (step o Connect c).2 /\
    forall es c' out, run o es (step o Connect c).1 = Some (c', out) ->
      settled p out \/
      (possible (TimerFired t) c' = true /\ exists reason, RejectedP p reason ∈ (step o (TimerFired t) c').2).
Proof.
  intros Hrun Hnone. pose proof (numbered_run _ _ _ _ Hrun) as Hn. exists (promises c), (nextTimer c).
  cbn [step]. unfold connect. rewrite Hnone. unfold startCycle. cbn [makePromise setClosed nextTimer promises].
  set (c1 := setConnectTimer _ _). assert (Waiting (promises c) (nextTimer c) c1) as Hw.
  { split_and!; [done..| |cbn; lia]. pose proof (timerOf_fresh (nextTimer c) c Hn ltac:(lia)) as Hf. unfold timerOf in *.
    cbn [c1 setConnectTimer startTimer makePromise setClosed timers nextTimer]. clear -Hf.
    induction (timers c) as [|[k x] l IH]; [cbn; by rewrite Nat.eqb_refl|]. cbn [app firstSome fst snd] in *.
    destruct (k =? nextTimer c)%nat; [done|by apply IH]. }
  pose proof (waiting_attempt _ _ _ Hw) as Hw'. destruct (attempt c1) as [c2 o2]. cbn [fst snd] in *.
  split; [apply elem_of_app; right; by apply list_elem_of_singleton|]. split; [apply elem_of_app; left; apply elem_of_app; left; by apply list_elem_of_singleton|].
  intros es c' out Hr.
  set (p := promises c) in *. set (t := nextTimer c) in *.
  destruct (run_invariant o (fun c out => settled p out \/ Waiting p t c) es c2 c' out [] (or_intror Hw') Hr) as [Hs|Hw2].
  - intros c3 e out3 _ Hp [[Hs|[r Hs]]|Hw3]; [left; left|left; right; exists r|]; [apply elem_of_app; by left..|].
    destruct (waiting_step o e p t c3 Hw3 Hp) as [[Hs|[r Hs]]|Hw4]; [left; left|left; right; exists r|by right];
      apply elem_of_app; by right.
  - by left.
  - right. destruct Hw2 as (H1 & _ & _ & H4 & _). cbn [possible step]. rewrite H4. split.
    + apply existsb_exists. unfold timerOf in H4. revert H4. induction (timers c') as [|[k x] l IH]; [done|]. cbn [firstSome fst snd].
      destruct (k =? t)%nat eqn:Hk; [intros _; exists (k, x); split; [by left|exact Hk]|].
      intros Hx. destruct (IH Hx) as (y & Hy & Hyt). exists y. split; [by right|done].
    + by apply timeout_rejects.
Qed.

(** ** Lemmas: a closed client *)

(** Neither a connection nor a timer. *)
Definition quietOut (out : list Out) : Prop := forall n t d, NewSocket n ∉ out /\ Started t d ∉ out.

Definition Stopped (c : WsClient) : Prop := closed c = true /\ ready c = None.

Ltac not_in :=
  cbn [snd onmessage]; let H := fresh in intros H; rewrite ?elem_of_app, ?elem_of_cons, ?elem_of_nil in H;
  repeat match type of H with _ \/ _ => destruct H as [H|H] end; discriminate H || exact H.

Lemma quiet_nil : quietOut [].
Proof. intros n t d. split; by intros ?%elem_of_nil. Qed.

Lemma quiet_app out out' : quietOut out -> quietOut out' -> quietOut (out ++ out').
Proof. intros H1 H2 n t d. destruct (H1 n t d), (H2 n t d). split; intros [?|?]%elem_of_app; by auto. Qed.

Lemma quiet_sends c l : quietOut (sends c l).
Proof.
  induction l as [|r l IH]; [apply quiet_nil|]. cbn [sends]. destruct (socket c); [|done]. destruct (stateOf c _); try done.
  - intros k t d. split; not_in.
  - apply (quiet_app [_]); [|done]. intros k t d. split; not_in.
Qed.

Lemma quiet_settle err c : quietOut (settleConnect err c).2.
Proof. unfold settleConnect. intros n t d. destruct err, (ready c); cbn [snd]; split; not_in. Qed.

Lemma quiet_closeSocket n c : quietOut (closeSocket n c).2.
Proof. unfold closeSocket. intros m t d. repeat case_match; cbn [snd]; split; not_in. Qed.

Lemma stopped_closeSocket n c : Stopped c -> Stopped (closeSocket n c).1.
Proof. intros H. unfold closeSocket. by repeat case_match. Qed.

Lemma stopped_settle err c : closed c = true -> Stopped (settleConnect err c).1.
Proof. intros H. destruct err; (split; [cbn; unfold clearTimeout; by destruct (connectTimer c)|done]). Qed.

Lemma closed_clearRetry c : closed (clearRetryTimer c) = closed c.
Proof. unfold clearRetryTimer, clearTimeout. by destruct (retryTimer c). Qed.

Lemma quiet_timeout o c : closed c = true -> quietOut (connectTimedOut o c).2 /\ Stopped (connectTimedOut o c).1.
Proof.
  intros H. unfold connectTimedOut.
  set (msg := Some _). pose proof (quiet_settle msg (clearRetryTimer c)) as Hq.
  pose proof (stopped_settle msg (clearRetryTimer c) ltac:(by rewrite closed_clearRetry)) as Hs.
  destruct (settleConnect _ _) as [c' out]. destruct (socket c) as [n|]; [|done].
  pose proof (quiet_closeSocket n c'). pose proof (stopped_closeSocket n c' Hs).
  destruct (closeSocket _ _). split; [by apply quiet_app|done].
Qed.

Lemma close_stops c : quietOut (close c).2 /\ Stopped (close c).1.
Proof.
  unfold close. set (msg := Some _). set (c0 := clearRetryTimer _).
  pose proof (quiet_settle msg c0) as Hq. pose proof (stopped_settle msg c0 ltac:(unfold c0; by rewrite closed_clearRetry)) as Hs.
  destruct (settleConnect _ _) as [c' out]. cbn [setConnecting socket]. destruct (socket c') as [n|]; [|done].
  pose proof (quiet_closeSocket n (setConnecting None c')). pose proof (stopped_closeSocket n (setConnecting None c') Hs).
  cbn [setConnecting] in *. destruct (closeSocket _ _). split; [by apply quiet_app|done].
Qed.

Lemma stopped_step o e c : Stopped c -> e <> Connect -> quietOut (step o e c).2 /\ Stopped (step o e c).1.
Proof.
  intros [Hc Hr] He. assert (forall c', closed c' = true -> ready c' = None -> quietOut [] /\ Stopped c') as Hdone
    by (intros; split; [apply quiet_nil|done]).
  destruct e as [| |ch h|ch| |k|n|n i|n|t']; cbn [step]; try done.
  - apply close_stops.
  - split; [|done]. unfold subscribe. cbn [snd]. destruct (isOpen _); [apply quiet_sends|apply quiet_nil].
  - split; [|done]. unfold unsubscribe. cbn [snd]. destruct (isOpen _); [apply quiet_sends|apply quiet_nil].
  - split; [|done]. unfold ping. cbn [snd]. destruct (isOpen _); [apply quiet_sends|apply quiet_nil].
  - split; [|done]. unfold setCredentials. cbn [snd]. destruct k; [destruct (isOpen _); [apply quiet_sends|apply quiet_nil]|apply quiet_nil].
  - split; [apply quiet_sends|done].
  - destruct i as [| |m]; [by apply Hdone|split; [intros m t d; split; not_in|done]|]. cbn [onmessage].
    case_bool_decide; [split; [apply quiet_settle|by apply (stopped_settle None (establish n c))]|].
    case_bool_decide.
    { split; [|done]. cbn [snd]. unfold unlessThrown. destruct (existsb _ _); [|apply quiet_app; [|intros a b d; split; not_in]];
        (destruct (m_ok m); [apply quiet_sends|apply quiet_nil]). }
    repeat case_match; (by apply Hdone) || (split; [intros a b d; split; not_in|done]).
  - unfold onclose. rewrite !(bool_decide_eq_false_2 (is_Some _)) by (case_bool_decide; cbn; rewrite Hr; apply is_Some_None).
    case_bool_decide; cbn [setSocket withState setSocks closed]; rewrite Hc; by apply Hdone.
  - destruct (timerOf t' c) as [x|]; [|by apply Hdone]. cbn [clearTimeout]. destruct x; cbn [fire].
    + by apply quiet_timeout.
    + cbn [setRetryTimer setTimers closed]. rewrite Hc. by apply Hdone.
    + cbn [setRetryTimer setTimers closed]. rewrite Hc. by apply Hdone.
Qed.

(** close() stops the client: an open connect() is rejected at once, and
    until connect() is called again no connection is made and no timer is
    started, whatever fires, closes or arrives. *)
Theorem closed_client_stays_closed o c es c' out :
  run o es (step o CloseClient c).1 = Some (c', out) -> Connect ∉ es ->
  (forall p, ready c = Some p -> RejectedP p "ws closed by client" ∈ (step o CloseClient c).2) /\
  quietOut ((step o CloseClient c).2 ++ out) /\ closed c' = true /\ ready c' = None.
Proof.
  intros Hr Hno. cbn [step] in *. destruct (close_stops c) as [Hq Hs]. split.
  - intros p Hp. unfold close, settleConnect. rewrite ready_clearRetry. cbn [setClosed ready]. rewrite Hp.
    cbn [setConnecting socket]. destruct (socket _); [destruct (closeSocket _ _)|]; cbn [snd]; rewrite ?elem_of_app, list_elem_of_singleton;
      done || by left.
  - apply (run_invariant o (fun c out => quietOut out /\ Stopped c) es _ c' out (close c).2 (conj Hq Hs) Hr).
    intros c1 e out1 Hin _ [Hq1 Hs1]. destruct (stopped_step o e c1 Hs1) as [Hq2 Hs2]; [by intros ->|]. split; [by apply quiet_app|done].
Qed.

(** ** Lemmas: one connection *)

Definition retrying (x : nat * Timer) : bool := match x.2 with ConnectTimeout => false | _ => true end.

Definition retries (c : WsClient) : nat := length (bfilter retrying (timers c)).

(** At most one socket that is not closed, at most one retry timer, never both. *)
Definition Single (c : WsClient) : Prop :=
  (forall n m, stateOf c n <> CLOSED -> stateOf c m <> CLOSED -> n = m) /\ (retries c <= 1)%nat /\
  (retries c = 1%nat -> forall n, stateOf c n = CLOSED).

(** Closing sockets and dropping timers keeps that. *)
Definition shrinks (c c' : WsClient) : Prop :=
  (forall n, stateOf c' n <> CLOSED -> stateOf c n <> CLOSED) /\ (retries c' <= retries c)%nat.

Lemma single_shrinks c c' : shrinks c c' -> Single c -> Single c'.
Proof.
  intros [H1 H2] (Ha & Hb & Hc). split; [|split].
  - intros n m Hn Hm. auto.
  - lia.
  - intros Hr n. destruct (decide (stateOf c' n = CLOSED)) as [|Hn]; [done|]. destruct (H1 n Hn). apply Hc. lia.
Qed.

Lemma shrinks_refl c : shrinks c c.
Proof. by split. Qed.

Lemma shrinks_trans c1 c2 c3 : shrinks c1 c2 -> shrinks c2 c3 -> shrinks c1 c3.
Proof. intros [H1 H2] [H3 H4]. split; [auto|lia]. Qed.

Lemma bfilter_comm {A} (p q : A -> bool) l : bfilter p (bfilter q l) = bfilter q (bfilter p l).
Proof. induction l as [|x l IH]; [done|]. cbn [bfilter]. destruct (p x) eqn:Hp, (q x) eqn:Hq; cbn [bfilter]; by rewrite ?Hp, ?Hq, IH. Qed.

Lemma shrinks_clear t c : shrinks c (clearTimeout t c).
Proof.
  destruct t as [t|]; [|apply shrinks_refl]. split; [done|]. unfold retries. cbn [clearTimeout setTimers timers].
  rewrite bfilter_comm. apply length_bfilter_le.
Qed.

Lemma shrinks_settle err c : shrinks c (settleConnect err c).1.
Proof. destruct (shrinks_clear (connectTimer c) c). by destruct err. Qed.

Lemma shrinks_clearRetry c : shrinks c (clearRetryTimer c).
Proof. by destruct (shrinks_clear (retryTimer c) c). Qed.

Lemma shrinks_closeSocket n c : shrinks c (closeSocket n c).1.
Proof.
  unfold closeSocket. destruct (socks c !! n) as [s|] eqn:Hs; [|apply shrinks_refl].
  assert (readyState s <> CLOSED -> shrinks c (setSocks (<[n := {| readyState := CLOSING; established := established s |}]> (socks c)) c)) as H.
  { intros Hopen. split; [|done]. intros m. unfold stateOf. cbn [setSocks socks]. destruct (decide (n = m)) as [->|Hne]; [by rewrite Hs|].
    by rewrite list_lookup_insert_ne. }
  destruct (readyState s); try apply shrinks_refl; by apply H.
Qed.

Lemma shrinks_alter f n c :
  (forall s, readyState s = CLOSED -> readyState (f s) = CLOSED) -> shrinks c (setSocks (alter f n (socks c)) c).
Proof.
  intros Hf. split; [|done]. intros m. unfold stateOf. cbn [setSocks socks]. destruct (decide (n = m)) as [->|Hne].
  - rewrite list_lookup_alter_eq. destruct (socks c !! m) as [s|]; [|done]. cbn. intros H1 H2. by apply H1, Hf.
  - by rewrite list_lookup_alter_ne.
Qed.

Lemma shrinks_timeout o c : shrinks c (connectTimedOut o c).1.
Proof.
  unfold connectTimedOut. set (msg := Some _).
  pose proof (shrinks_trans _ _ _ (shrinks_clearRetry c) (shrinks_settle msg (clearRetryTimer c))) as H.
  destruct (settleConnect _ _) as [c' out]. destruct (socket c) as [n|]; [|done].
  pose proof (shrinks_closeSocket n c'). destruct (closeSocket _ _). by eapply shrinks_trans.
Qed.

Lemma shrinks_close c : shrinks c (close c).1.
Proof.
  unfold close. set (msg := Some _).
  pose proof (shrinks_trans _ _ _ (shrinks_clearRetry (setClosed true c)) (shrinks_settle msg (clearRetryTimer (setClosed true c)))) as H.
  destruct (settleConnect _ _) as [c' out]. cbn [setConnecting socket]. destruct (socket c') as [n|]; [|exact H].
  pose proof (shrinks_closeSocket n (setConnecting None c')) as H'. cbn [setConnecting] in *. destruct (closeSocket _ _) as [c2 o2].
  exact (shrinks_trans _ _ _ H H').
Qed.

Definition Alone (c : WsClient) : Prop := (forall n, stateOf c n = CLOSED) /\ retries c = 0%nat.

Lemma alone_single c : Alone c -> Single c.
Proof. intros [H1 H2]. split; [|split; [lia|done]]. intros n m Hn. by destruct (Hn (H1 n)). Qed.

Lemma alone_attempt c : Alone c -> Single (attempt c).1.
Proof.
  intros [H1 H2]. unfold attempt. destruct (closed c); [by apply alone_single|]. cbn [fst].
  assert (forall n, stateOf (setSocket (Some (length (socks c))) (setSocks (socks c ++ [{| readyState := CONNECTING; established := false |}]) c)) n <> CLOSED ->
                    n = length (socks c)) as Honly.
  { intros n Hn. destruct (decide (n = length (socks c))) as [|Hne]; [done|]. destruct Hn. specialize (H1 n). unfold stateOf in *.
    cbn [setSocket setSocks socks]. destruct (Nat.lt_ge_cases n (length (socks c))) as [Hlt|Hge].
    - by rewrite lookup_app_l.
    - rewrite lookup_ge_None_2; [done|]. rewrite length_app. cbn. lia. }
  split; [|split].
  - intros n m Hn Hm. by rewrite (Honly n Hn), (Honly m Hm).
  - change (retries c <= 1)%nat. lia.
  - change (retries c = 1%nat -> forall n, stateOf (setSocket (Some (length (socks c))) (setSocks (socks c ++ [{| readyState := CONNECTING; established := false |}]) c)) n = CLOSED). lia.
Qed.

Lemma alone_retry o x c : Alone c -> Single (retryAfterBackoff o x c).1.
Proof.
  intros [H1 H2]. split; [|split].
  - intros n m Hn. by destruct (Hn (H1 n)).
  - unfold retries in *. cbn [retryAfterBackoff fst setRetryTimer startTimer setAttempts timers]. rewrite bfilter_app, length_app, H2.
    destruct x; cbn; lia.
  - intros _. exact H1.
Qed.

(** A retry timer that fires leaves no other behind. *)
Lemma alone_fired t x c :
  Single c -> timerOf t c = Some x -> x <> ConnectTimeout -> Alone (clearTimeout (Some t) c).
Proof.
  intros (_ & Hone & Hclosed) Ht Hx. assert (retries (clearTimeout (Some t) c) < retries c)%nat as Hlt.
  { unfold retries, timerOf in *. cbn [clearTimeout setTimers timers]. clear -Ht Hx. induction (timers c) as [|[k y] l IH]; [done|].
    cbn [firstSome fst snd bfilter] in *. destruct (k =? t)%nat eqn:Hk; cbn [negb].
    - injection Ht as ->. unfold retrying at 2. cbn [snd].
      pose proof (length_bfilter_le (fun x => negb (x.1 =? t)%nat) (bfilter retrying l)) as H. rewrite bfilter_comm in H.
      destruct x; [done|cbn; lia..].
    - specialize (IH Ht). cbn [bfilter]. destruct (retrying (k, y)); cbn; lia. }
  assert (retries c = 1%nat) as H1 by lia. split; [exact (Hclosed H1)|lia].
Qed.

Lemma alone_gone n c : Single c -> stateOf c n <> CLOSED -> Alone (withState n CLOSED c).
Proof.
  intros (Hu & Hone & Hclosed) Hn. assert (retries c = 0%nat) as Hr.
  { destruct (decide (retries c = 1%nat)) as [H1|]; [by destruct (Hn (Hclosed H1 n))|lia]. }
  split; [|exact Hr]. intros m. unfold stateOf, withState. cbn [setSocks socks]. destruct (decide (n = m)) as [->|Hne].
  - rewrite list_lookup_alter_eq. by destruct (socks c !! m).
  - rewrite list_lookup_alter_ne by done. fold (stateOf c m). destruct (decide (stateOf c m = CLOSED)) as [|Hm]; [done|].
    by destruct (Hne (Hu n m Hn Hm)).
Qed.

Lemma single_step o e c : Single c -> e <> Connect -> possible e c = true -> Single (step o e c).1.
Proof.
  intros HS He Hp. destruct e as [| |ch h|ch| |k|n|n i|n|t']; cbn [step possible] in *; try done.
  - by apply (single_shrinks c), HS; apply shrinks_close.
  - apply bool_decide_eq_true in Hp. apply (single_shrinks c); [|exact HS]. split; [|done].
    intros m. unfold onopen, stateOf, withState. cbn [fst setAttempts setSocks socks]. destruct (decide (n = m)) as [->|Hne].
    + intros _. fold (stateOf c m). by rewrite Hp.
    + by rewrite list_lookup_alter_ne.
  - clear Hp. destruct i as [| |m]; [done|done|]. cbn [onmessage]. case_bool_decide; [|by repeat case_match].
    apply (single_shrinks c); [|exact HS]. eapply shrinks_trans; [|apply shrinks_settle]. by apply shrinks_alter.
  - apply negb_true_iff, bool_decide_eq_false in Hp. pose proof (alone_gone n c HS Hp) as HA. set (c' := withState n CLOSED c) in *. clearbody c'.
    unfold onclose. set (c2 := if bool_decide _ then _ else _). assert (Alone c2) as HA2 by (unfold c2; by case_bool_decide). clearbody c2.
    assert (forall m, Single (settleConnect m c2).1) as Hset by (intros m; apply (single_shrinks c2); [apply shrinks_settle|by apply alone_single]).
    repeat (case_bool_decide || case_match); auto using alone_single, alone_retry.
  - destruct (timerOf t' c) as [x|] eqn:Hx; [|done]. pose proof (shrinks_clear (Some t') c) as Hsh. destruct x; cbn [fire].
    + apply (single_shrinks c); [|exact HS]. eapply shrinks_trans; [exact Hsh|apply shrinks_timeout].
    + pose proof (alone_fired t' _ c HS Hx ltac:(done)) as HA. destruct (_ && _); [|by apply alone_single].
      by apply (alone_attempt (setRetryTimer None _)).
    + pose proof (alone_fired t' _ c HS Hx ltac:(done)) as HA. destruct (_ && _); [|by apply alone_single].
      unfold startCycle. match goal with |- context [attempt ?x] => pose proof (alone_attempt x HA) as H end. by destruct (attempt _).
Qed.

(** A client connected once holds at most one connection: through any
    drops, reconnects, timeouts and a close, no two of its sockets are open,
    opening or closing, and a retry is scheduled only when none is. *)
Theorem one_connection_at_a_time o es c out :
  run o (Connect :: es) (newClient o) = Some (c, out) -> Connect ∉ es ->
  (forall n m, stateOf c n <> CLOSED -> stateOf c m <> CLOSED -> n = m) /\
  (forall t, timerOf t c = Some RetryAttempt \/ timerOf t c = Some RetryCycle -> forall n, stateOf c n = CLOSED).
Proof.
  intros Hr Hno. cbn [run possible] in Hr. destruct (step o Connect (newClient o)) as [c1 o1] eqn:Hc1.
  assert (Single c1) as HS.
  { cbn [step] in Hc1. unfold connect in Hc1. cbn [newClient connectingPromise] in Hc1. unfold startCycle in Hc1.
    match type of Hc1 with context [attempt ?x] => pose proof (alone_attempt x) as H end.
    destruct (attempt _) as [c2 o2]. injection Hc1 as <- _. apply H. by split. }
  destruct (run o es c1) as [[c2 o2]|] eqn:Hes; [|done]. injection Hr as <- _.
  pose proof (run_invariant o (fun c _ => Single c) es c1 c2 o2 [] HS Hes) as H.
  assert (Single c2) as (Hu & Hone & Hclosed) by (apply H; intros c3 e out3 Hin Hp HS3; apply single_step; [done|by intros ->|done]).
  split; [exact Hu|]. intros t Ht. apply Hclosed.
  assert (exists x, timerOf t c2 = Some x /\ x <> ConnectTimeout) as (x & Hx & Hne) by (destruct Ht; eexists; by split).
  destruct (alone_fired t x c2 (conj Hu (conj Hone Hclosed)) Hx Hne) as [_ H0].
  destruct (decide (retries c2 = 0%nat)) as [Hz|]; [|lia]. exfalso. unfold retries, timerOf in *. clear -Hz Hx Hne.
  induction (timers c2) as [|[k y] l IH]; [done|]. cbn [firstSome fst snd bfilter] in *.
  destruct (k =? t)%nat; [injection Hx as ->; unfold retrying in Hz; destruct x; done|].
  destruct (retrying (k, y)); [done|by apply IH].
Qed.

(** ** Lemmas: the gateway's subscriptions *)

Definition validName (ch : string) : Prop := (1 <= String.length ch <= 200)%nat.

Lemma pickStrings_valid l : Forall validName l -> pickStrings (Some <$> l) = Some l.
Proof.
  induction 1 as [|ch l Hch _ IH]; [done|]. unfold validName in Hch. change (Some <$> ch :: l) with (Some ch :: (Some <$> l)).
  cbn [pickStrings]. by rewrite (proj2 (Nat.eqb_neq _ 0)), (proj2 (Nat.ltb_ge 200 _)), IH by lia.
Qed.

(** A subscription adds what the connection may see. *)
Lemma serve_subscribe opts id u g conn l :
  connection g id = Some conn -> Forall validName l ->
  connection (serve opts id u g (Handles (SubscribeTo l))) id
    = Some (setSubscriptions (fun s => s ∪ list_to_set (bfilter (canSubscribe conn) l)) conn).
Proof.
  intros Hc Hl. cbn [serve frameOf handleMessage default]. cbn. rewrite (pickStrings_valid l Hl). unfold ApiSockets.subscribe.
  rewrite Hc. cbn. apply connection_Some in Hc as [Hin _]. unfold connection. cbn. rewrite bool_decide_eq_true_2 by done.
  by rewrite lookup_insert_eq.
Qed.

Lemma serve_login opts id u g conn k :
  connection g id = Some conn -> failedLogins g !! id = None -> 0 < maxFailedLogins opts -> truthy (c_keyId k) = true -> truthy (c_secret k) = true ->
  connection (serve opts id u g (Handles (LoginAs k))) id = Some conn /\
  id ∈ pendingLogins (serve opts id u g (Handles (LoginAs k))).
Proof.
  intros Hc Hf Hm H1 H2. cbn [serve frameOf handleMessage default]. cbn. unfold handleLogin. rewrite Hf. cbn [default].
  rewrite (proj2 (Z.leb_gt _ 0)) by done. assert (forall s, truthy s = true -> falsy (Some s) = false) as Hs by (by intros []).
  rewrite !Hs by done. cbn. split; [exact Hc|]. apply elem_of_app. right. by apply list_elem_of_singleton.
Qed.

Lemma serve_found opts id u g conn :
  connection g id = Some conn -> connection (serve opts id u g LoginFound) id = Some (setUserOf u conn).
Proof.
  intros Hc. cbn [serve]. unfold finishLogin. cbn [fst Ok]. unfold setUser.
  assert (connection (setFailed (delete id) (setPending (removeOne id (pendingLogins g)) g)) id = Some conn) as Hc' by exact Hc.
  rewrite Hc'. apply connection_Some in Hc as [Hin _]. unfold connection. cbn. rewrite bool_decide_eq_true_2 by done.
  by rewrite lookup_insert_eq.
Qed.

(** Signing in only opens account channels, which the client knows by prefix. *)
Lemma canSubscribe_login conn u ch :
  user conn = None ->
  canSubscribe (setUserOf u conn) ch = canSubscribe conn ch || (startsWith PRIVATE_CHANNEL_PREFIX ch && canSubscribe (setUserOf u conn) ch).
Proof.
  intros Hu. unfold canSubscribe, setUserOf. cbn [user]. rewrite Hu.
  destruct (String.eqb ch "events"); [done|].
  destruct (stripPrefix "ticker." ch); [by destruct (isSupportedAsset _); rewrite ?andb_false_r|].
  destruct (stripPrefix "trades." ch); [by destruct (isSupportedAsset _); rewrite ?andb_false_r|].
  destruct (stripPrefix ACCOUNT_PREFIX ch) as [who|] eqn:Ha; [|by rewrite andb_false_r]. cbn [orb].
  assert (startsWith PRIVATE_CHANNEL_PREFIX ch = true) as ->; [|done].
  unfold startsWith. unfold ACCOUNT_PREFIX in Ha. unfold PRIVATE_CHANNEL_PREFIX.
  do 8 (destruct ch as [|? ch]; [discriminate Ha|]; cbn [stripPrefix] in Ha |- *;
        match type of Ha with context [Ascii.eqb ?x ?y] => destruct (Ascii.eqb x y) end; [|discriminate Ha]). done.
Qed.

Lemma canSubscribe_user conn conn' ch : user conn = user conn' -> canSubscribe conn ch = canSubscribe conn' ch.
Proof. intros Hu. unfold canSubscribe. by rewrite Hu. Qed.

Definition granted (conn : WsConnection) (l : list string) : gset string := list_to_set (bfilter (canSubscribe conn) l).

Lemma granted_user conn conn' l : user conn = user conn' -> granted conn l = granted conn' l.
Proof. intros Hu. unfold granted. f_equal. apply bfilter_ext. intros ch _. by apply canSubscribe_user. Qed.

Lemma elem_of_granted conn l ch : ch ∈ granted conn l <-> ch ∈ l /\ canSubscribe conn ch = true.
Proof. unfold granted. by rewrite elem_of_list_to_set, elem_of_bfilter. Qed.

(** Asking again for the account channels is all that signing in calls for. *)
Lemma granted_login conn u l :
  user conn = None ->
  granted conn l ∪ granted (setUserOf u conn) (bfilter (startsWith PRIVATE_CHANNEL_PREFIX) l) = granted (setUserOf u conn) l.
Proof.
  intros Hu. apply set_eq. intros ch. rewrite elem_of_union, !elem_of_granted, elem_of_bfilter.
  pose proof (canSubscribe_login conn u ch Hu) as Hcs.
  destruct (canSubscribe conn ch), (startsWith PRIVATE_CHANNEL_PREFIX ch), (canSubscribe (setUserOf u conn) ch); naive_solver.
Qed.

Lemma granted_subset conn l l' : l' ⊆ l -> granted conn l ∪ granted conn l' = granted conn l.
Proof. intros Hl. apply set_eq. intros ch. rewrite elem_of_union, !elem_of_granted. set_solver. Qed.

Lemma ifAny_cases l early late :
  ifAny l = early ++ late -> l = [] /\ early = [] /\ late = [] \/
  (early = [SubscribeTo l] /\ late = []) \/ (early = [] /\ late = [SubscribeTo l]).
Proof.
  destruct l as [|ch l]; cbn [ifAny]; intros H; symmetry in H; [left; by apply app_nil in H|right].
  by apply app_eq_unit in H as [[-> ->]|[-> ->]]; [right|left].
Qed.

Lemma serve_ifAny opts id u g conn l :
  connection g id = Some conn -> Forall validName l ->
  connection (foldl (serve opts id u) g (Handles <$> ifAny l)) id = Some (setSubscriptions (fun s => s ∪ granted conn l) conn).
Proof.
  intros Hc Hl. destruct l as [|ch l]; [|by apply (serve_subscribe opts id u g conn (ch :: l))].
  cbn. rewrite Hc. f_equal. destruct conn as [a b s v]. unfold setSubscriptions, granted. cbn. f_equal. set_solver.
Qed.

Lemma sends_open c n l : socket c = Some n -> stateOf c n = OPEN -> sends c l = Sent n <$> l.
Proof. intros Hs Ho. induction l as [|r l IH]; [done|]. cbn [sends]. by rewrite Hs, Ho, IH. Qed.

#[export] Instance Sent_inj n : Inj eq eq (Sent n).
Proof. by intros r r' [= ->]. Qed.

Lemma valid_private c : Forall validName (channels c) -> Forall validName (privateChannels c).
Proof. rewrite !Forall_forall. intros H ch [Hch _]%elem_of_bfilter. by apply H. Qed.

(** C29. After a reconnect the gateway serves what the client asked for: the
    client logs in and subscribes at once when its socket opens, and asks for
    its account channels again when the login is confirmed; whenever the
    gateway's lookup ends, before or after it handled the subscriptions, the
    connection ends with exactly those of the client's channels that its owner
    may see. *)
Theorem resubscription_is_complete o opts c n k u g id conn early late :
  socket c = Some n -> stateOf c n = CONNECTING -> credentials c = Some k -> Forall validName (channels c) ->
  connection g id = Some conn -> subscriptions conn = ∅ -> user conn = None -> failedLogins g !! id = None ->
  0 < maxFailedLogins opts -> truthy (c_keyId k) = true -> truthy (c_secret k) = true ->
  (step o (Opened n) c).2 = Sent n <$> LoginAs k :: early ++ late ->
  exists again,
    (step o (Received n (Message (wire (LoginOk (owner u) (tier u))))) (step o (Opened n) c).1).2
      = (Sent n <$> again) ++ [LoginReported true None] /\
    (subscriptions <$> connection
      (foldl (serve opts id u) g ((Handles <$> LoginAs k :: early) ++ [LoginFound] ++ (Handles <$> late ++ again))) id)
    = Some (list_to_set (bfilter (canSubscribe (setUserOf u conn)) (channels c))).
Proof.
  intros Hs Hst Hk Hval Hconn Hempty Huser Hfail Hmax H1 H2 Hout. set (c1 := (step o (Opened n) c).1).
  assert (socket c1 = Some n /\ stateOf c1 n = OPEN) as [Hs1 Hst1].
  { split; [exact Hs|]. unfold stateOf, c1, step, onopen, withState in *. cbn [fst setAttempts setSocks socks].
    rewrite list_lookup_alter_eq. by destruct (socks c !! n). }
  assert (ifAny (channels c) = early ++ late) as Hparts.
  { cbn [step] in Hout. unfold onopen in Hout. cbn [snd] in Hout. rewrite sends_open with (n := n) in Hout by done.
    change (credentials (setAttempts 0 (withState n OPEN c))) with (credentials c) in Hout. rewrite Hk in Hout.
    apply (@list_fmap_eq_inj _ _ (Sent n) (Sent_inj n)) in Hout. injection Hout as Hout. exact Hout. }
  exists (ifAny (privateChannels c)). split.
  { cbn [step onmessage wire m_type m_ok m_error]. rewrite bool_decide_eq_false_2 by done. rewrite bool_decide_eq_true_2 by done. cbn [snd].
    rewrite (sends_open c1 n) by done. unfold unlessThrown. destruct (existsb _ _) eqn:Hth; [|done].
    apply existsb_exists in Hth as (x & Hx & Ht). apply list_elem_of_In, list_elem_of_fmap in Hx as (r & -> & _). discriminate Ht. }
  destruct (serve_login opts id u g conn k Hconn Hfail Hmax H1 H2) as [Hlog _]. cbn [fmap list_fmap app foldl].
  set (g1 := serve opts id u g _) in *. clearbody g1.
  rewrite foldl_app. cbn [foldl]. rewrite fmap_app, foldl_app.
  assert (forall g2 conn2, connection g2 id = Some conn2 -> subscriptions conn2 ∪ granted conn2 (privateChannels c) = granted (setUserOf u conn) (channels c) ->
    (subscriptions <$> connection (foldl (serve opts id u) g2 (Handles <$> ifAny (privateChannels c))) id) = Some (granted (setUserOf u conn) (channels c))) as Hend.
  { intros g2 conn2 Hc2 Hset. rewrite (serve_ifAny opts id u g2 conn2) by (done || by apply valid_private). cbn. by rewrite Hset. }
  destruct (ifAny_cases _ _ _ Hparts) as [(Hnil & -> & ->)|[(-> & ->)|(-> & ->)]]; cbn [fmap list_fmap foldl].
  - apply (Hend _ _ (serve_found opts id u g1 conn Hlog)). cbn. unfold privateChannels. rewrite Hnil, Hempty. cbn. set_solver.
  - apply (Hend _ _ (serve_found opts id u _ _ (serve_subscribe opts id u g1 conn (channels c) Hlog Hval))).
    cbn. rewrite Hempty, union_empty_l_L. rewrite (granted_user (setUserOf u _) (setUserOf u conn)) by done. by apply granted_login.
  - apply (Hend _ _ (serve_subscribe opts id u _ _ (channels c) (serve_found opts id u g1 conn Hlog) Hval)).
    cbn. rewrite Hempty, union_empty_l_L. rewrite (granted_user (setSubscriptions _ _) (setUserOf u conn)) by done.
    apply granted_subset. intros ch [Hch _]%elem_of_bfilter. exact Hch.
Qed.

(** ** Examples *)

Definition someKey : Credentials := {| c_keyId := "nk_1"; c_secret := "s3cret" |}.

Definition hello (n : nat) : Event := Received n (Message (wire Hello)).

(** The server answers the second attempt. *)
Lemma connect_settles_witness :
  exists c' out,
    run (defaults None) [Opened 0; SocketGone 0; TimerFired 1; Opened 1; hello 1]
      (step (defaults None) Connect (newClient (defaults None))).1 = Some (c', out) /\ settled 0 out.
Proof.
  assert (exists c' out, run (defaults None) [Opened 0; SocketGone 0; TimerFired 1; Opened 1; hello 1]
      (step (defaults None) Connect (newClient (defaults None))).1 = Some (c', out) /\ possible (TimerFired 0) c' = false) as (c' & out & Hr & Hno)
    by (eexists _, _; split; vm_compute; reflexivity).
  exists c', out. split; [exact Hr|].
  destruct (connect_settles (defaults None) [] (newClient (defaults None)) [] eq_refl eq_refl) as (p & t & Hp & Ht & H).
  assert (p = 0%nat) as ->.
  { apply list_elem_of_In in Hp. vm_compute in Hp. destruct Hp as [Hp|[Hp|[Hp|[]]]]; [discriminate Hp..|by injection Hp]. }
  assert (t = 0%nat) as ->.
  { apply list_elem_of_In in Ht. vm_compute in Ht. destruct Ht as [Ht|[Ht|[Ht|[]]]]; [by injection Ht|discriminate Ht..]. }
  destruct (H _ _ _ Hr) as [Hs|[Hpos _]]; [exact Hs|congruence].
Defined.

(** Closed while waiting for the first answer. *)
Lemma closed_client_stays_closed_witness :
  exists c' out,
    run (defaults None) [SocketGone 0; Subscribe "events" 1; PingCall]
      (step (defaults None) CloseClient (step (defaults None) Connect (newClient (defaults None))).1).1 = Some (c', out) /\
    closed c' = true /\
    RejectedP 0 "ws closed by client" ∈ (step (defaults None) CloseClient (step (defaults None) Connect (newClient (defaults None))).1).2.
Proof.
  assert (exists c' out, run (defaults None) [SocketGone 0; Subscribe "events" 1; PingCall]
      (step (defaults None) CloseClient (step (defaults None) Connect (newClient (defaults None))).1).1 = Some (c', out)) as (c' & out & Hr)
    by (eexists _, _; vm_compute; reflexivity).
  exists c', out. split; [exact Hr|].
  destruct (closed_client_stays_closed (defaults None) (step (defaults None) Connect (newClient (defaults None))).1 _ c' out Hr)
    as (Hp & _ & Hc & _); [by intros Hin%list_elem_of_In; cbn in Hin; intuition discriminate|].
  split; [exact Hc|]. by apply Hp.
Defined.

Definition dropped : list Event := [Opened 0; hello 0; SocketGone 0; TimerFired 1; Opened 1].

(** A drop and the reconnect after it. *)
Lemma one_connection_at_a_time_witness :
  exists c out, run (defaults None) (Connect :: dropped) (newClient (defaults None)) = Some (c, out) /\ stateOf c 1 = OPEN /\
    forall n, stateOf c n <> CLOSED -> n = 1%nat.
Proof.
  assert (exists c out, run (defaults None) (Connect :: dropped) (newClient (defaults None)) = Some (c, out) /\ stateOf c 1 = OPEN)
    as (c & out & Hr & H1) by (eexists _, _; split; vm_compute; reflexivity).
  exists c, out. split; [exact Hr|]. split; [exact H1|]. intros n Hn.
  destruct (one_connection_at_a_time (defaults None) dropped c out Hr) as [Hu _];
    [by intros Hin%list_elem_of_In; cbn in Hin; intuition discriminate|].
  apply Hu; [exact Hn|by rewrite H1].
Defined.

(** Called while a background reconnect is under way, connect() gives that
    cycle's promise, which no timeout ever rejects. *)
Example background_connect_has_no_timeout :
  match run (defaults None) (Connect :: [Opened 0; hello 0; SocketGone 0; TimerFired 1; Connect]) (newClient (defaults None)) with
  | Some (c, out) => head (rev out) = Some (Returned 1) /\ ready c = Some 1%nat /\ timers c = []
  | None => False
  end.
Proof. vm_compute. split_and!; reflexivity. Qed.

(** close() and connect() again: the old socket's close event is taken for a
    failed attempt of the new cycle, a second connection is made beside the
    first, every message is delivered twice, and the next close() leaves one
    of the two open and delivering. *)
Definition reopened : list Event :=
  [Subscribe "events" 5; Connect; Opened 0; hello 0; CloseClient; Connect; SocketGone 0; TimerFired 2; Opened 1; Opened 2; hello 1; hello 2].

Example reopened_client_has_two_connections :
  match run (defaults None) reopened (newClient (defaults None)) with
  | Some (c, _) =>
      stateOf c 1 = OPEN /\ stateOf c 2 = OPEN /\
      match run (defaults None) [Received 1 (onChannel "events" "e"); Received 2 (onChannel "events" "e"); CloseClient;
                                 Received 1 (onChannel "events" "f")] c with
      | Some (_, out) =>
          out = [Delivered 5 "e" "events"; Delivered 5 "e" "events"; CloseSocket 2; Delivered 5 "f" "events"]
      | None => False
      end
  | None => False
  end.
Proof. vm_compute. split_and!; reflexivity. Qed.

(** Waits double up to the cap: 250 ms, 500 ms and so on to 30 s. *)
Example backoff_doubles_to_the_cap :
  nextBackoff (defaults None) <$> ((fun k => setAttempts k (newClient (defaults None))) <$> [0; 1; 2; 6; 7; 100])
  = [250; 500; 1000; 16000; 30000; 30000].
Proof. vm_compute. reflexivity. Qed.

Definition aliceUser : User := {| keyId := "nk_1"; owner := "GALICE"; tier := standard |}.

Definition aliceClient : WsClient := setSubs [("events", 1%nat); ("account.events.GALICE", 2%nat); ("account.events.GBOB", 3%nat)]%string
  (step (defaults (Some someKey)) Connect (newClient (defaults (Some someKey)))).1.

Definition welcomed : Gateway := (wsStep DEFAULTS (SocketOpened "a" "10.0.0.1" 0) freshGateway).1.

(** The lookup ends after the subscriptions were handled: Alice gets her
    account events all the same, and never Bob's. *)
Lemma resubscription_is_complete_witness :
  (subscriptions <$> connection
    (foldl (serve DEFAULTS "a" aliceUser) welcomed
       [Handles (LoginAs someKey); Handles (SubscribeTo (channels aliceClient)); LoginFound;
        Handles (SubscribeTo ["account.events.GALICE"; "account.events.GBOB"]%string)]) "a")
  = Some {["events"%string; "account.events.GALICE"%string]}.
Proof.
  destruct (resubscription_is_complete (defaults (Some someKey)) DEFAULTS aliceClient 0 someKey aliceUser welcomed "a"
    {| ip := "10.0.0.1"; isAlive := true; subscriptions := ∅; user := None |} [SubscribeTo (channels aliceClient)] [])
    as (again & Hag & Hset);
    [vm_compute; reflexivity|vm_compute; reflexivity|vm_compute; reflexivity|repeat constructor; vm_compute; lia|vm_compute; reflexivity..|].
  assert (again = [SubscribeTo ["account.events.GALICE"; "account.events.GBOB"]%string]) as ->.
  { destruct again as [|r [|r' l]]; try discriminate Hag. injection Hag as <-. reflexivity. }
  etransitivity; [exact Hset|]. vm_compute. reflexivity.
Defined.
