(* ===== verification/ApiVaults.v ===== *)
(** * Vaults, referrals and raw events as the gateway serves them

    api/src/services/vaults.ts, referral.ts and events.ts with the routes over
    them, on the tables of [IndexerDb]. A stored row comes with its serial id.
    A query answers with a missing table, rows or an error; where ORDER BY
    leaves ties open, rows come in table order, which is arbitrary. *)

From S2P Require Import Prelude JsText IndexerEvents IndexerDb ApiEvents ApiBoard JsNumber.
Open Scope Z_scope.
Open Scope js_scope.

(** ** Queries *)

(** [if (isMissingTable(err)) return dflt; throw err] *)
Definition orEmpty {A B} (dflt : B) (q : DbAnswer A) (f : A -> B) : Result B :=
  match q with MissingTable => Ok dflt | Answer (inl e) => Err e | Answer (inr rows) => Ok (f rows) end.

(** [try { ... } catch { }]: whatever fails leaves the default. *)
Definition orIgnored {A B} (dflt : B) (q : DbAnswer A) (f : A -> B) : B :=
  match q with Answer (inr rows) => f rows | _ => dflt end.

Definition DEFAULT_LIMIT : Z := 50.
Definition MAX_LIMIT : Z := 200.

Section history.
Context {A : Type} (ts : A -> Z).

(** [ORDER BY ts DESC] *)
Definition laterRow (a b : A) : Prop := ts b <= ts a.

#[export] Instance laterRow_dec : RelDecision laterRow.
Proof. intros a b. unfold laterRow. apply _. Defined.
#[export] Instance laterRow_total : Total laterRow.
Proof. intros a b. unfold laterRow. lia. Qed.
#[export] Instance laterRow_trans : Transitive laterRow.
Proof. intros a b c. unfold laterRow. lia. Qed.

(** [AND ts < ?], where a cursor is given. *)
Definition olderThan (beforeTs : option Z) (a : A) : bool := match beforeTs with Some t => ts a <? t | None => true end.

Definition page (beforeTs : option Z) (limit : nat) (rows : list A) : list A :=
  take limit (merge_sort laterRow (bfilter (olderThan beforeTs) rows)).
End history.

(** ** Vaults *)

Record VaultOut := {
  vo_id : Z; vo_leader : string; vo_name : string; vo_createdAt : Z; vo_totalUsdc : string; vo_circulatingShares : string;
  vo_hwmNav : string; vo_realizedPnl : string; vo_leaderShares : string; vo_profitShareBps : Z; vo_paused : bool; vo_updatedAt : Z }.

Record VaultActivityOut := {
  ao_id : Z; ao_vaultId : Z; ao_principal : string; ao_amount : string; ao_shares : option string; ao_ledger : Z; ao_ts : Z;
  ao_txHash : string }.

Record VaultTradeOut := {
  to_id : Z; to_vaultId : Z; to_positionId : string; to_action : string; to_leader : string; to_collateral : string;
  to_pnl : option string; to_ledger : Z; to_ts : Z; to_txHash : string }.

(** A row of the vaults table: its id, columns and updated_at. *)
Definition StoredVault : Type := Z * VaultRow * Z.
Definition StoredFlow : Type := Z * VaultFlowRow.
Definition StoredTrade : Type := Z * (Z * Z * string * string) * VaultTradeRow.

#[export] Instance VaultTradeRow_eq : EqDecision VaultTradeRow.
Proof. solve_decision. Defined.
#[export] Instance StoredTrade_eq : EqDecision StoredTrade.
Proof. unfold StoredTrade. apply _. Defined.

Record VaultsDb := {
  q_vaults : DbAnswer (list StoredVault);
  q_deposits : DbAnswer (list StoredFlow); q_withdraws : DbAnswer (list StoredFlow); q_feeClaims : DbAnswer (list StoredFlow);
  q_trades : DbAnswer (list StoredTrade) }.

Definition toRow (r : StoredVault) : VaultOut :=
  let '(id, v, updated) := r in
  {| vo_id := id; vo_leader := v_leader v; vo_name := v_name v; vo_createdAt := v_created_at v;
     vo_totalUsdc := decimalOfZ (total_usdc v); vo_circulatingShares := decimalOfZ (circulating_shares v);
     vo_hwmNav := decimalOfZ (hwm_nav v); vo_realizedPnl := decimalOfZ (realized_pnl v);
     vo_leaderShares := decimalOfZ (leader_shares v); vo_profitShareBps := profit_share_bps v; vo_paused := v_paused v;
     vo_updatedAt := updated |}.

Definition createdAt (r : StoredVault) : Z := v_created_at r.1.2.
Definition flowTs (r : StoredFlow) : Z := f_ts r.2.
Definition tradeTs (r : StoredTrade) : Z := vt_ts r.2.

(** [factory]: the live factory's id, where one is configured. *)
Section vaults.
Context (factory : option string).

(** [contract_id = ?], under a configured factory only. *)
Definition inFactory (r : StoredVault) : bool :=
  match factory with
  | Some f => if truthy f then String.eqb (v_contract_id r.1.2) f else true
  | None => true
  end.

Definition ledBy (leader : option string) (r : StoredVault) : bool :=
  match leader with Some l => if truthy l then String.eqb (v_leader r.1.2) l else true | None => true end.

Definition list_ (db : VaultsDb) (leader : option string) (limit : option Z) : Result (list VaultOut) :=
  orEmpty [] (q_vaults db) (fun rows =>
    toRow <$> take (clampLimit MAX_LIMIT DEFAULT_LIMIT limit)
      (merge_sort (laterRow createdAt) (bfilter (fun r => inFactory r && ledBy leader r) rows))).

Definition get (db : VaultsDb) (id : Z) : Result (option VaultOut) :=
  orEmpty None (q_vaults db) (fun rows => toRow <$> head (bfilter (fun r => (r.1.1 =? id) && inFactory r) rows)).
End vaults.

(** activity: the amount column is usdc_out for withdrawals, and the shares
    are left out of fee claims. *)
Definition activityRow (hasShares : bool) (r : StoredFlow) : VaultActivityOut :=
  let '(id, f) := r in
  {| ao_id := id; ao_vaultId := f_vault_id f; ao_principal := f_who f; ao_amount := f_amount f;
     ao_shares := if hasShares then Some (f_shares f) else None; ao_ledger := f_ledger f; ao_ts := f_ts f; ao_txHash := f_tx_hash f |}.

Definition ofVault (vaultId : Z) (r : StoredFlow) : bool := f_vault_id r.2 =? vaultId.

Definition activity (q : DbAnswer (list StoredFlow)) (vaultId : Z) (limit beforeTs : option Z) (hasShares : bool)
  : Result (list VaultActivityOut) :=
  orEmpty [] q (fun rows =>
    activityRow hasShares <$> page flowTs beforeTs (clampLimit MAX_LIMIT DEFAULT_LIMIT limit) (bfilter (ofVault vaultId) rows)).

Definition deposits (db : VaultsDb) (vaultId : Z) (limit beforeTs : option Z) := activity (q_deposits db) vaultId limit beforeTs true.
Definition withdraws (db : VaultsDb) (vaultId : Z) (limit beforeTs : option Z) := activity (q_withdraws db) vaultId limit beforeTs true.
Definition feeClaims (db : VaultsDb) (vaultId : Z) (limit beforeTs : option Z) := activity (q_feeClaims db) vaultId limit beforeTs false.

Definition tradeVault (r : StoredTrade) : Z := r.1.2.1.1.1.
Definition tradeAction (r : StoredTrade) : string := r.1.2.1.2.

Definition tradeOut (r : StoredTrade) : VaultTradeOut :=
  let '(id, (vault, position, action, txHash), t) := r in
  {| to_id := id; to_vaultId := vault; to_positionId := decimalOfZ position; to_action := action; to_leader := vt_leader t;
     to_collateral := vt_collateral t; to_pnl := decimalOfZ <$> vt_pnl t; to_ledger := vt_ledger t; to_ts := vt_ts t; to_txHash := txHash |}.

Definition trades (db : VaultsDb) (vaultId : Z) (limit beforeTs : option Z) : Result (list VaultTradeOut) :=
  orEmpty [] (q_trades db) (fun rows =>
    tradeOut <$> page tradeTs beforeTs (clampLimit MAX_LIMIT DEFAULT_LIMIT limit) (bfilter (fun r => tradeVault r =? vaultId) rows)).

(** ** Aggregates *)

Inductive ApyKind := annualized | inception.

Record VaultAggregates := {
  depositorCount : Z; openPositions : Z; tradeCount : Z; drawdownBps : number; apyBps : number; apyKind : ApyKind;
  closedTradePnl : string }.

Definition countTrades (vaultId : Z) (action : string) (rows : list StoredTrade) : Z :=
  Z.of_nat (length (bfilter (fun r => (tradeVault r =? vaultId) && String.eqb (tradeAction r) action) rows)).

(** [SUM(CASE WHEN action='close' AND pnl IS NOT NULL THEN pnl ELSE 0 END)] *)
Definition closedPnl (vaultId : Z) (rows : list StoredTrade) : Z :=
  sumBy (fun r => if (tradeVault r =? vaultId) && String.eqb (tradeAction r) "close" then default 0 (vt_pnl r.2) else 0) rows.

(** The row's numbers, as [BigInt] reads them back. *)
Record VaultNumbers := { n_total : Z; n_shares : Z; n_hwm : Z; n_createdAt : Z }.

Definition numbersOf (v : VaultOut) : VaultNumbers := {|
  n_total := default 0 (zOfDecimal (vo_totalUsdc v)); n_shares := default 0 (zOfDecimal (vo_circulatingShares v));
  n_hwm := default 0 (zOfDecimal (vo_hwmNav v)); n_createdAt := vo_createdAt v |}.

Definition drawdown (v : VaultNumbers) : Z :=
  let nav := if n_shares v =? 0 then PRECISION else (n_total v * PRECISION) ÷ n_shares v in
  if (nav <? n_hwm v) && (0 <? n_hwm v) then ((n_hwm v - nav) * 10000) ÷ n_hwm v else 0.

(** [Math.round] as a number. *)
Definition roundN (x : number) : number := match roundZ x with Some z => numberOfZ z | None => x end.

(** Days since the vault was made, one at least. *)
Definition ageDays (nowSec : Z) (v : VaultNumbers) : number :=
  let d := divN (numberOfZ (nowSec - n_createdAt v)) (numberOfZ 86400) in if ltN d oneN then oneN else d.

Definition apy (nowSec lifetime : Z) (v : VaultNumbers) : number * ApyKind :=
  let days := ageDays nowSec v in
  if (0 <? n_total v) && negb (lifetime =? 0) then
    let lifeBps := numberOfZ ((lifetime * 10000) ÷ n_total v) in
    if leN (numberOfZ 7) days then (roundN (divN (mulN lifeBps (numberOfZ 365)) days), annualized)
    else (lifeBps, inception)
  else (S754_zero false, if ltN days (numberOfZ 7) then inception else annualized).

(** computeAggregates: [vault] is the row when the caller has it. *)
Definition computeAggregates (factory : option string) (db : VaultsDb) (vaultId : Z) (vault : option VaultOut) (nowSec : Z)
  : Result VaultAggregates :=
  let depositors := orIgnored 0 (q_deposits db) (fun rows =>
    Z.of_nat (length (remove_dups ((fun r => f_who r.2) <$> bfilter (ofVault vaultId) rows)))) in
  let opens := orIgnored 0 (q_trades db) (countTrades vaultId "open") in
  let closes := orIgnored 0 (q_trades db) (countTrades vaultId "close") in
  let lifetime := orIgnored 0 (q_trades db) (closedPnl vaultId) in
  v ← match vault with Some v => Ok (Some v) | None => get factory db vaultId end;
  let '(dd, (bps, kind)) := match v with
    | Some v => (numberOfZ (drawdown (numbersOf v)), apy nowSec lifetime (numbersOf v))
    | None => (S754_zero false, (S754_zero false, annualized))
    end in
  Ok {| depositorCount := depositors; openPositions := Z.max 0 (opens - closes); tradeCount := opens; drawdownBps := dd;
        apyBps := bps; apyKind := kind; closedTradePnl := decimalOfZ lifetime |}.

Definition AGG_TTL_MS : Z := 10000.
Definition NAV_TTL_MS : Z := 15000.

Record VaultsService := { aggCache : TtlCache VaultAggregates; navCache : TtlCache (option string) }.

(** aggregates, at [now] ms, computed by [loaded]. *)
Definition aggregates (factory : option string) (db : VaultsDb) (vaultId : Z) (vault : option VaultOut) (now loaded : Z) (s : VaultsService)
  : Result VaultAggregates * VaultsService :=
  let '(r, c) := getOrLoad AGG_TTL_MS (decimalOfZ vaultId) now loaded (computeAggregates factory db vaultId vault (loaded / 1000)) (aggCache s) in
  (r, {| aggCache := c; navCache := navCache s |}).

(** fullNav: the contract's answer or none, both remembered. *)
Definition fullNav (factory : option string) (read : Result (option Z)) (vaultId now loaded : Z) (s : VaultsService)
  : option string * VaultsService :=
  match factory with
  | Some f =>
      if truthy f then
        let load := match read with inr n => Some (decimalOfZ (default 0 n)) | inl _ => None end in
        let '(r, c) := getOrLoad NAV_TTL_MS (decimalOfZ vaultId) now loaded (Ok load) (navCache s) in
        (match r with inr v => v | inl _ => None end, {| aggCache := aggCache s; navCache := c |})
      else (None, s)
  | None => (None, s)
  end.

(** GET /v1/vaults: every row with its aggregates, one after the other. *)
Fixpoint enrich (factory : option string) (db : VaultsDb) (rows : list VaultOut) (now loaded : Z) (s : VaultsService)
  : Result (list (VaultOut * VaultAggregates)) * VaultsService :=
  match rows with
  | [] => (Ok [], s)
  | v :: rows =>
      let '(a, s) := aggregates factory db (vo_id v) (Some v) now loaded s in
      let '(rest, s) := enrich factory db rows now loaded s in
      (x ← a; xs ← rest; Ok ((v, x) :: xs), s)
  end.

Definition listVaultsRoute (factory : option string) (db : VaultsDb) (leader : option string) (limit : option Z) (now loaded : Z)
    (s : VaultsService) : Result (list (VaultOut * VaultAggregates)) * VaultsService :=
  match list_ factory db leader limit with
  | inl e => (Err e, s)
  | inr rows => enrich factory db rows now loaded s
  end.

Inductive VaultReply := VaultNotFound (id : Z) | VaultFound (v : VaultOut) (a : VaultAggregates) (navFull : option string).

(** GET /v1/vaults/:id *)
Definition vaultRoute (factory : option string) (db : VaultsDb) (read : Result (option Z)) (id now loaded : Z) (s : VaultsService)
  : Result VaultReply * VaultsService :=
  match get factory db id with
  | inl e => (Err e, s)
  | inr None => (Ok (VaultNotFound id), s)
  | inr (Some v) =>
      let '(a, s) := aggregates factory db id (Some v) now loaded s in
      let '(nav, s) := fullNav factory read id now loaded s in
      (x ← a; Ok (VaultFound v x nav), s)
  end.

(** ** Referrals *)

Record ReferrerOut := {
  ro_referrer : string; ro_code : string; ro_createdAt : Z; ro_referredCount : Z; ro_totalVolumeGenerated : string;
  ro_totalEarned : string; ro_claimable : string; ro_updatedAt : Z }.

Record BindingOut := { bo_referee : string; bo_referrer : string; bo_code : string; bo_boundAt : Z; bo_txHash : string }.

Record ReferralTradeOut := {
  rto_id : Z; rto_referee : string; rto_referrer : string; rto_originalFee : string; rto_discount : string; rto_payout : string;
  rto_volume : option string; rto_ledger : Z; rto_ts : Z; rto_txHash : string }.

Record ReferralClaimOut := { rco_id : Z; rco_referrer : string; rco_amount : string; rco_ledger : Z; rco_ts : Z; rco_txHash : string }.

(** Referrers by address with updated_at, bindings by referee, the two logs. *)
Record ReferralDb := {
  q_referrers : DbAnswer (list (string * ReferrerRow * Z)); q_bindings : DbAnswer (list (string * BindingRow));
  q_referralTrades : DbAnswer (list (Z * ReferralTradeRow)); q_referralClaims : DbAnswer (list (Z * ReferralClaimRow)) }.

Definition toReferrerRow (r : string * ReferrerRow * Z) : ReferrerOut :=
  let '(who, x, updated) := r in
  {| ro_referrer := who; ro_code := r_code x; ro_createdAt := r_created_at x; ro_referredCount := referred_count x;
     ro_totalVolumeGenerated := decimalOfZ (total_volume_generated x); ro_totalEarned := decimalOfZ (total_earned x);
     ro_claimable := decimalOfZ (claimable x); ro_updatedAt := updated |}.

Definition toBindingRow (r : string * BindingRow) : BindingOut := {|
  bo_referee := r.1; bo_referrer := bd_referrer r.2; bo_code := bd_code r.2; bo_boundAt := bd_bound_at r.2; bo_txHash := bd_tx_hash r.2 |}.

Definition toTradeRow (r : Z * ReferralTradeRow) : ReferralTradeOut := {|
  rto_id := r.1; rto_referee := rt_referee r.2; rto_referrer := rt_referrer r.2; rto_originalFee := rt_original_fee r.2;
  rto_discount := rt_discount r.2; rto_payout := rt_payout r.2; rto_volume := rt_volume r.2; rto_ledger := rt_ledger r.2;
  rto_ts := rt_ts r.2; rto_txHash := rt_tx_hash r.2 |}.

Definition toClaimRow (r : Z * ReferralClaimRow) : ReferralClaimOut := {|
  rco_id := r.1; rco_referrer := rc_referrer r.2; rco_amount := rc_amount r.2; rco_ledger := rc_ledger r.2; rco_ts := rc_ts r.2;
  rco_txHash := rc_tx_hash r.2 |}.

Definition lookupCode (db : ReferralDb) (code : string) : Result (option ReferrerOut) :=
  orEmpty None (q_referrers db) (fun rows => toReferrerRow <$> head (bfilter (fun r => String.eqb (r_code r.1.2) code) rows)).

Definition getReferrerByAddress (db : ReferralDb) (address : string) : Result (option ReferrerOut) :=
  orEmpty None (q_referrers db) (fun rows => toReferrerRow <$> head (bfilter (fun r => String.eqb r.1.1 address) rows)).

Definition getBindingForReferee (db : ReferralDb) (address : string) : Result (option BindingOut) :=
  orEmpty None (q_bindings db) (fun rows => toBindingRow <$> head (bfilter (fun r => String.eqb r.1 address) rows)).

Definition refTradeTs (r : Z * ReferralTradeRow) : Z := rt_ts r.2.
Definition refClaimTs (r : Z * ReferralClaimRow) : Z := rc_ts r.2.

Definition tradesForReferrer (db : ReferralDb) (referrer : string) (limit : option Z) : Result (list ReferralTradeOut) :=
  orEmpty [] (q_referralTrades db) (fun rows =>
    toTradeRow <$> page refTradeTs None (clampLimit MAX_LIMIT DEFAULT_LIMIT limit) (bfilter (fun r => String.eqb (rt_referrer r.2) referrer) rows)).

Definition claimsForReferrer (db : ReferralDb) (referrer : string) (limit : option Z) : Result (list ReferralClaimOut) :=
  orEmpty [] (q_referralClaims db) (fun rows =>
    toClaimRow <$> page refClaimTs None (clampLimit MAX_LIMIT DEFAULT_LIMIT limit) (bfilter (fun r => String.eqb (rc_referrer r.2) referrer) rows)).

(** The routes under /v1/referral. *)
Inductive ReferralReply :=
| UnknownCode (code : string)
| NoCode (address : string)
| ReferrerFound (r : ReferrerOut)
| ReferralInfo (self : option ReferrerOut) (binding : option BindingOut)
| ReferralTrades (l : list ReferralTradeOut)
| ReferralClaims (l : list ReferralClaimOut).

Definition lookupRoute (db : ReferralDb) (code : string) : Result ReferralReply :=
  r ← lookupCode db code; Ok (match r with Some r => ReferrerFound r | None => UnknownCode code end).

Definition infoRoute (db : ReferralDb) (address : string) : Result ReferralReply :=
  r ← getReferrerByAddress db address;
  match r with
  | None => Ok (NoCode address)
  | Some r => b ← getBindingForReferee db address; Ok (ReferralInfo (Some r) b)
  end.

(** The routes of the signed-in owner. *)
Definition meRoute (db : ReferralDb) (owner : string) : Result ReferralReply :=
  self ← getReferrerByAddress db owner; binding ← getBindingForReferee db owner; Ok (ReferralInfo self binding).

Definition meTradesRoute (db : ReferralDb) (owner : string) (limit : option Z) : Result ReferralReply :=
  l ← tradesForReferrer db owner limit; Ok (ReferralTrades l).

Definition meClaimsRoute (db : ReferralDb) (owner : string) (limit : option Z) : Result ReferralReply :=
  l ← claimsForReferrer db owner limit; Ok (ReferralClaims l).

(** ** Raw events *)

Record EventQuery := {
  eq_topic : option string; eq_contractId : option string; fromLedger : option Z; toLedger : option Z; eq_beforeTs : option Z;
  eq_limit : option Z }.

Definition MAX_EVENTS_LIMIT : Z := 500.

Definition givenText (x : option string) (s : string) : bool :=
  match x with Some x => if truthy x then String.eqb s x else true | None => true end.

Definition matchesQuery (q : EventQuery) (r : EventRow) : bool :=
  givenText (eq_topic q) (topic r) && givenText (eq_contractId q) (contractOf r) &&
  match fromLedger q with Some l => l <=? ledgerOf r | None => true end &&
  match toLedger q with Some l => ledgerOf r <=? l | None => true end &&
  olderThan closeTs (eq_beforeTs q) r.

Definition listEvents (db : DbAnswer (list EventRow)) (q : EventQuery) : Result (list EventRow) :=
  orEmpty [] db (fun rows => take (clampLimit MAX_EVENTS_LIMIT DEFAULT_LIMIT (eq_limit q)) (merge_sort newer (bfilter (matchesQuery q) rows))).

(** ** A client that pages through a history *)

Section walk.
Context {A : Type} (ts : A -> Z) (limit : nat).

(** Page after page, the cursor being the last row's time, until a page comes
    up short; [answers] are the table orders of the successive queries. *)
Fixpoint walkHistory (answers : list (list A)) (beforeTs : option Z) : list (list A) :=
  match answers with
  | [] => []
  | rows :: answers =>
      let p := page ts beforeTs limit rows in
      p :: (if (length p <? limit)%nat then [] else
            match list.last p with Some r => walkHistory answers (Some (ts r)) | None => [] end)
  end.

(** The walk ran to a page that came up short. *)
Definition finished (pages : list (list A)) : Prop :=
  exists p, list.last pages = Some p /\ (length p < limit)%nat.
End walk.

(** ** Lemmas: pages *)

Section pages.
Context {A : Type} (ts : A -> Z).

Lemma elem_of_page beforeTs limit rows x : x ∈ page ts beforeTs limit rows -> x ∈ rows /\ olderThan ts beforeTs x = true.
Proof.
  intros Hx. unfold page in Hx. apply elem_of_take in Hx as (i & Hi & _). apply list_elem_of_lookup_2 in Hi.
  by rewrite merge_sort_Permutation, elem_of_bfilter in Hi.
Qed.

Lemma page_sorted beforeTs limit rows : StronglySorted (laterRow ts) (page ts beforeTs limit rows).
Proof.
  unfold page. pose proof (StronglySorted_merge_sort (laterRow ts) (bfilter (olderThan ts beforeTs) rows)) as H.
  rewrite <- (take_drop limit (merge_sort _ _)) in H. by apply StronglySorted_app_1_l in H.
Qed.

(** What a page leaves out is not newer than its last row. *)
Lemma page_rest beforeTs limit rows x r :
  x ∈ rows -> olderThan ts beforeTs x = true -> x ∉ page ts beforeTs limit rows -> list.last (page ts beforeTs limit rows) = Some r ->
  ts x <= ts r.
Proof.
  intros Hx Hold Hnot Hlast. unfold page in *. set (l := merge_sort _ _) in *.
  assert (x ∈ l) as Hl by (unfold l; by rewrite merge_sort_Permutation, elem_of_bfilter).
  rewrite <- (take_drop limit l) in Hl. apply elem_of_app in Hl as [Hl|Hl]; [done|].
  pose proof (StronglySorted_merge_sort (laterRow ts) (bfilter (olderThan ts beforeTs) rows)) as Hs. fold l in Hs.
  rewrite <- (take_drop limit l) in Hs. apply (StronglySorted_app_1_elem_of _ _ _ r x Hs); [|done].
  apply last_Some in Hlast as [l' Hlast]. rewrite Hlast. apply elem_of_app. right. by apply list_elem_of_singleton.
Qed.

(** A page that comes up short is everything. *)
Lemma page_short beforeTs limit rows x :
  (length (page ts beforeTs limit rows) < limit)%nat -> x ∈ rows -> olderThan ts beforeTs x = true -> x ∈ page ts beforeTs limit rows.
Proof.
  unfold page. rewrite length_take. intros Hlen Hx Hold. rewrite take_ge by lia.
  by rewrite merge_sort_Permutation, elem_of_bfilter.
Qed.

Lemma older_before r x beforeTs :
  olderThan ts beforeTs r = true -> olderThan ts (Some (ts r)) x = true -> olderThan ts beforeTs x = true.
Proof. destruct beforeTs as [t|]; cbn; [|done]. rewrite !Z.ltb_lt. lia. Qed.

Lemma older_count r beforeTs rows :
  r ∈ rows -> olderThan ts beforeTs r = true ->
  (length (bfilter (olderThan ts (Some (ts r))) rows) < length (bfilter (olderThan ts beforeTs) rows))%nat.
Proof.
  intros Hr Hold. apply (length_bfilter_lt _ _ _ r); [|done|done|cbn; apply Z.ltb_irrefl].
  intros x. by apply older_before.
Qed.

Lemma walk_spec limit rows answers : forall beforeTs,
  (1 <= limit)%nat -> NoDup rows -> Forall (fun l => l ≡ₚ rows) answers ->
  (length (bfilter (olderThan ts beforeTs) rows) < length answers)%nat ->
  let pages := walkHistory ts limit answers beforeTs in
  finished limit pages /\ NoDup (concat pages) /\ StronglySorted (laterRow ts) (concat pages) /\
  (forall x, x ∈ concat pages -> x ∈ rows /\ olderThan ts beforeTs x = true) /\
  (forall x, x ∈ rows -> olderThan ts beforeTs x = true -> x ∉ concat pages -> exists r, r ∈ concat pages /\ ts r = ts x).
Proof.
  induction answers as [|a answers IH]; intros beforeTs Hlim Hnd Hans Hlen; [cbn in Hlen; lia|].
  apply Forall_cons in Hans as [Ha Hans]. cbn [walkHistory]. set (p := page ts beforeTs limit a).
  assert (NoDup p) as Hp.
  { unfold p, page. apply (sublist_NoDup _ (merge_sort (laterRow ts) (bfilter (olderThan ts beforeTs) a))); [|apply sublist_take].
    rewrite merge_sort_Permutation. apply NoDup_bfilter. by rewrite Ha. }
  assert (forall x, x ∈ p -> x ∈ rows /\ olderThan ts beforeTs x = true) as Hin.
  { intros x Hx. apply elem_of_page in Hx as [Hx Hold]. by rewrite Ha in Hx. }
  pose proof (page_sorted beforeTs limit a) as Hsort. fold p in Hsort.
  destruct (Nat.ltb_spec (length p) limit) as [Hshort|Hfull].
  { cbn. rewrite app_nil_r. split; [by exists p|]. split; [done|]. split; [done|]. split; [done|].
    intros x Hx Hold Hnot. exfalso. apply Hnot, page_short; [done| |done]. by rewrite Ha. }
  destruct (list.last p) as [r|] eqn:Hlast; [|apply last_None in Hlast; rewrite Hlast in Hfull; cbn in Hfull; lia].
  assert (r ∈ p) as Hr by (apply last_Some in Hlast as [l' ->]; apply elem_of_app; right; by apply list_elem_of_singleton).
  destruct (Hin r Hr) as [Hrr Hrold]. pose proof (older_count r beforeTs rows Hrr Hrold) as Hcount.
  destruct (IH (Some (ts r)) Hlim Hnd Hans ltac:(cbn in Hlen; lia)) as ((q & Hq & Hql) & Hnd2 & Hs2 & Hin2 & Hmiss2).
  set (rest := walkHistory ts limit answers (Some (ts r))) in *.
  assert (forall x y, x ∈ p -> y ∈ concat rest -> ts y < ts x) as Hbelow.
  { intros x y Hx Hy. destruct (Hin2 y Hy) as [_ Hy2]. cbn in Hy2. apply Z.ltb_lt in Hy2.
    assert (ts r <= ts x); [|lia]. apply last_Some in Hlast as [l' Hl']. rewrite Hl' in Hx, Hsort.
    apply elem_of_app in Hx as [Hx|Hx%list_elem_of_singleton]; [|by subst].
    apply (StronglySorted_app_1_elem_of _ _ _ x r Hsort Hx). by apply list_elem_of_singleton. }
  cbn [concat]. split; [exists q; split; [|done]; by destruct rest|]. split; [|split; [|split]].
  - apply NoDup_app. split; [done|]. split; [|done]. intros x Hx Hx2. specialize (Hbelow x x Hx Hx2). lia.
  - apply StronglySorted_app. split; [|split]; [|done..]. intros x y Hx Hy. unfold laterRow. specialize (Hbelow x y Hx Hy). lia.
  - intros x [Hx|Hx]%elem_of_app; [by apply Hin|]. destruct (Hin2 x Hx) as [Hxr Hxo]. split; [done|]. by apply (older_before r).
  - intros x Hx Hold Hnot. rewrite not_elem_of_app in Hnot. destruct Hnot as [Hn1 Hn2].
    assert (ts x <= ts r) as Hle by (eapply page_rest; [|exact Hold|exact Hn1|exact Hlast]; by rewrite Ha).
    destruct (Z.eq_dec (ts x) (ts r)) as [He|Hne].
    + exists r. rewrite elem_of_app. auto.
    + destruct (Hmiss2 x Hx) as (y & Hy & Hyt); [cbn; apply Z.ltb_lt; lia|done|]. exists y. rewrite elem_of_app. auto.
Qed.
End pages.

(** C31. Paging through a vault's history ends, lists rows of the table newest
    first and none twice, and leaves out nothing but rows of the very second
    of a row it lists; so all of them where no two share a second. The table
    may answer in any order of equal times, a new one for every page. *)
Theorem walked_history_misses_only_ties {A} `{!EqDecision A} (ts : A -> Z) limit rows answers :
  (1 <= limit)%nat -> NoDup rows -> Forall (fun l => l ≡ₚ rows) answers -> (length rows < length answers)%nat ->
  let pages := walkHistory ts limit answers None in
  finished limit pages /\ NoDup (concat pages) /\ StronglySorted (laterRow ts) (concat pages) /\ concat pages ⊆ rows /\
  (forall x, x ∈ rows -> x ∉ concat pages -> exists r, r ∈ concat pages /\ ts r = ts x) /\
  ((forall x y, x ∈ rows -> y ∈ rows -> ts x = ts y -> x = y) -> concat pages ≡ₚ rows).
Proof.
  intros Hlim Hnd Hans Hlen pages.
  destruct (walk_spec ts limit rows answers None Hlim Hnd Hans) as (Hf & Hnd2 & Hs & Hin & Hmiss).
  { pose proof (length_bfilter_le (olderThan ts None) rows). lia. }
  split; [exact Hf|]. split; [exact Hnd2|]. split; [exact Hs|]. split; [intros x Hx; by apply Hin|]. split; [intros x Hx; by apply Hmiss|].
  intros Hdistinct. apply NoDup_Permutation; [done..|]. intros x. split; [intros Hx; by apply Hin|]. intros Hx.
  destruct (decide (x ∈ concat pages)) as [|Hn]; [done|]. destruct (Hmiss x Hx eq_refl Hn) as (r & Hr & Hts).
  rewrite (Hdistinct x r Hx); [done| |done]. by apply Hin.
Qed.

(** ** Lemmas: signs in binary64 *)

(** Never above zero. *)
Definition belowZero (x : number) : Prop :=
  match x with S754_zero _ | S754_nan => True | S754_infinity s => s = true | S754_finite s _ _ => s = true end.

Lemma belowZero_not_positive x : belowZero x -> isPositive x = false.
Proof. by destruct x as [|[]| |[] m e]. Qed.

Lemma round_aux_belowZero mx ex l : belowZero (binary_round_aux 53 1024 true mx ex l).
Proof.
  unfold binary_round_aux. destruct (shr_fexp _ _ _ _ _) as [r1 z1]. destruct (shr_fexp _ _ _ _ _) as [r2 z2].
  destruct (shr_m r2); [done| |done]. by destruct (_ <=? _).
Qed.

Lemma round_belowZero m e : belowZero (binary_round 53 1024 true m e).
Proof. unfold binary_round. destruct (shl_align _ _ _). apply round_aux_belowZero. Qed.

Lemma numberOfZ_belowZero z : z <= 0 -> belowZero (numberOfZ z).
Proof. intros Hz. destruct z as [|p|p]; [done|lia|]. apply round_belowZero. Qed.

(** A positive finite number: the scale and the divisor of a rate. *)
Definition positiveFinite (x : number) : Prop := match x with S754_finite false _ _ => True | _ => False end.

Lemma mul_belowZero x y : belowZero x -> positiveFinite y -> belowZero (mulN x y).
Proof.
  destruct y as [|?| |[] m' e']; try done. destruct x as [s|s| |s m e]; cbn; try done; intros -> _; [done|].
  apply round_aux_belowZero.
Qed.

Lemma div_belowZero x y : belowZero x -> positiveFinite y -> belowZero (divN x y).
Proof.
  destruct y as [|?| |[] m' e']; try done. destruct x as [s|s| |s m e]; cbn [divN SFdiv belowZero]; try done; intros -> _; [done|].
  destruct (SFdiv_core_binary _ _ _ _ _ _) as [[q e1] l]. apply round_aux_belowZero.
Qed.

Lemma roundN_belowZero x : belowZero x -> belowZero (roundN x).
Proof.
  unfold roundN. destruct x as [s|s| |s m e]; try done. intros ->. cbn [roundZ]. apply numberOfZ_belowZero.
  destruct (Z.leb_spec 0 e).
  - pose proof (Z.pow_nonneg 2 e). nia.
  - pose proof (Z.pow_pos_nonneg 2 (- e) ltac:(lia) ltac:(lia)) as Hp. replace (1 - e) with (1 + - e) by lia.
    rewrite Z.pow_add_r by lia. assert ((2 * Zneg m + 2 ^ (- e)) / (2 ^ 1 * 2 ^ (- e)) < 1); [|lia].
    apply Z.div_lt_upper_bound; lia.
Qed.

(** Seven days and more are a positive number. *)
Lemma seven_positiveFinite x : leN (numberOfZ 7) x = true -> x <> S754_infinity false -> positiveFinite x.
Proof. destruct x as [s|[]| |[] m e]; done. Qed.

(** ** The aggregates *)

Lemma drawdown_bounds v : 0 <= n_total v -> 0 <= n_shares v -> 0 <= drawdown v <= 10000.
Proof.
  intros Ht Hs. unfold drawdown. set (nav := if _ =? _ then _ else _).
  assert (0 <= nav) as Hnav.
  { unfold nav, PRECISION. destruct (Z.eqb_spec (n_shares v) 0); [lia|]. rewrite Z.quot_div_nonneg by lia. apply Z.div_pos; lia. }
  destruct (Z.ltb_spec nav (n_hwm v)), (Z.ltb_spec 0 (n_hwm v)); cbn; try lia.
  rewrite Z.quot_div_nonneg by lia. split; [apply Z.div_pos; lia|]. apply Z.div_le_upper_bound; lia.
Qed.

Lemma loss_belowZero nowSec lifetime v :
  lifetime <= 0 -> ageDays nowSec v <> S754_infinity false -> belowZero (apy nowSec lifetime v).1.
Proof.
  intros Hl Hinf. unfold apy. destruct ((0 <? n_total v) && negb (lifetime =? 0)) eqn:Hc; [|done].
  apply andb_true_iff in Hc as [Ht%Z.ltb_lt _].
  assert (belowZero (numberOfZ ((lifetime * 10000) ÷ n_total v))) as Hb.
  { apply numberOfZ_belowZero. replace (lifetime * 10000) with (- (- lifetime * 10000)) by lia. rewrite Z.quot_opp_l by lia.
    rewrite Z.quot_div_nonneg by lia. pose proof (Z.div_pos (- lifetime * 10000) (n_total v)). lia. }
  destruct (leN (numberOfZ 7) (ageDays nowSec v)) eqn:Hd; [|exact Hb]. cbn [fst].
  apply roundN_belowZero, div_belowZero; [|by apply seven_positiveFinite]. by apply mul_belowZero.
Qed.

Lemma numbersOf_toRow r : numbersOf (toRow r) =
  {| n_total := total_usdc r.1.2; n_shares := circulating_shares r.1.2; n_hwm := hwm_nav r.1.2; n_createdAt := v_created_at r.1.2 |}.
Proof. destruct r as [[id v] u']. unfold numbersOf, toRow. cbn. by rewrite !zOfDecimal_decimalOfZ. Qed.

(** The figures a vault is judged by are honest: a vault whose closed
    trades lost money never shows a yield above zero, annualised or not, the
    drawdown lies between none and all, the counts are not negative, and the
    closed result is the sum of the vault's closed trades in the table. *)
Theorem vault_aggregates_are_honest factory db vaultId r nowSec a rows :
  q_trades db = Answer (Ok rows) -> 0 <= total_usdc r.1.2 -> 0 <= circulating_shares r.1.2 ->
  ageDays nowSec (numbersOf (toRow r)) <> S754_infinity false ->
  computeAggregates factory db vaultId (Some (toRow r)) nowSec = Ok a ->
  closedTradePnl a = decimalOfZ (closedPnl vaultId rows) /\
  (closedPnl vaultId rows <= 0 -> isPositive (apyBps a) = false) /\
  (exists d, drawdownBps a = numberOfZ d /\ 0 <= d <= 10000) /\
  0 <= openPositions a <= tradeCount a /\ tradeCount a = countTrades vaultId "open" rows /\ 0 <= depositorCount a.
Proof.
  intros Hq Ht Hs Hinf Ha. unfold computeAggregates in Ha. rewrite Hq in Ha. cbn [mbind Result_bind Ok orIgnored] in Ha.
  destruct (apy nowSec (closedPnl vaultId rows) (numbersOf (toRow r))) as [bps kind] eqn:Hapy. injection Ha as <-. cbn.
  assert (0 <= countTrades vaultId "open" rows /\ 0 <= countTrades vaultId "close" rows) as [Ho Hcl] by (unfold countTrades; lia).
  split_and!; [done| | |lia|lia|done|].
  - intros Hl. apply belowZero_not_positive. pose proof (loss_belowZero nowSec _ (numbersOf (toRow r)) Hl Hinf) as Hb. by rewrite Hapy in Hb.
  - eexists. split; [done|]. rewrite numbersOf_toRow. by apply drawdown_bounds.
  - unfold orIgnored. destruct (q_deposits db) as [|[|]]; lia.
Qed.

(** ** The page of a vault against the projected tables *)

(** The tables as the indexer keeps them, rows in any order, ids by the
    database. *)
Record storedAs (t : VaultTables) (db : VaultsDb) : Prop := {
  st_vaults : exists rows, q_vaults db = Answer (Ok rows) /\ forall r, r ∈ rows -> vaults t !! r.1.1 = Some r.1.2;
  st_deposits : exists rows, q_deposits db = Answer (Ok rows) /\ rows.*2 ≡ₚ (map_to_list (vault_deposits t)).*2;
  st_withdraws : exists rows, q_withdraws db = Answer (Ok rows) /\ rows.*2 ≡ₚ (map_to_list (vault_withdraws t)).*2;
  st_feeClaims : exists rows, q_feeClaims db = Answer (Ok rows) /\ rows.*2 ≡ₚ (map_to_list (vault_fee_claims t)).*2 }.

(** A client's sums over the rows it was served. *)
Definition paid (l : list VaultActivityOut) : Z := sumBy (fun r => default 0 (zOfDecimal (ao_amount r))) l.
Definition minted (l : list VaultActivityOut) : Z := sumBy (fun r => default 0 (ao_shares r ≫= zOfDecimal)) l.
Definition whole (limit : option Z) (l : list VaultActivityOut) : Prop := (length l < clampLimit MAX_LIMIT DEFAULT_LIMIT limit)%nat.

Lemma sumMap_sumBy (f : VaultFlowRow -> Z) (m : gmap string VaultFlowRow) : sumMap f m = sumBy f (map_to_list m).*2.
Proof.
  unfold sumMap. rewrite map_fold_foldr. induction (map_to_list m) as [|[k v] l IH]; [done|]. cbn. by rewrite IH.
Qed.

Lemma page_whole {A} (ts : A -> Z) limit rows : (length (page ts None limit rows) < limit)%nat -> page ts None limit rows ≡ₚ rows.
Proof.
  unfold page. rewrite length_take. intros Hlen. rewrite take_ge by lia. rewrite merge_sort_Permutation.
  clear Hlen. induction rows as [|x rows IH]; [done|]. cbn. by constructor.
Qed.

(** A whole history sums up to the vault's flows in the table. *)
Lemma activity_sums q vaultId limit hasShares l rows (m : gmap string VaultFlowRow) :
  q = Answer (Ok rows) -> rows.*2 ≡ₚ (map_to_list m).*2 -> activity q vaultId limit None hasShares = Ok l -> whole limit l ->
  paid l = sumMap (amountIn vaultId) m /\ (hasShares = true -> minted l = sumMap (sharesIn vaultId) m).
Proof.
  intros -> Hm Hl Hw. unfold activity, orEmpty in Hl. injection Hl as <-. unfold whole in Hw. rewrite length_fmap in Hw.
  apply page_whole in Hw. unfold paid, minted. rewrite !sumBy_fmap. split; [|intros ->].
  - rewrite Hw, sumBy_bfilter, sumMap_sumBy, <- Hm, sumBy_fmap. apply sumBy_ext. intros [i f] _. cbn. unfold ofVault, amountIn. cbn.
    destruct (Z.eqb_spec (f_vault_id f) vaultId); by case_bool_decide.
  - rewrite Hw, sumBy_bfilter, sumMap_sumBy, <- Hm, sumBy_fmap. apply sumBy_ext. intros [i f] _. cbn. unfold ofVault, sharesIn. cbn.
    destruct (Z.eqb_spec (f_vault_id f) vaultId); by case_bool_decide.
Qed.

(** What a vault's page shows adds up: where the histories fit their
    pages, the served balance is the served deposits less the served
    withdrawals and fee claims, the circulating shares are those minted less
    those redeemed, and the realised fees are the claims served. *)
Theorem served_vault_adds_up factory t db id limit v ds ws cs :
  VaultInv t -> storedAs t db -> get factory db id = Ok (Some v) ->
  deposits db id limit None = Ok ds -> withdraws db id limit None = Ok ws -> feeClaims db id limit None = Ok cs ->
  whole limit ds -> whole limit ws -> whole limit cs ->
  vo_totalUsdc v = decimalOfZ (paid ds - paid ws - paid cs) /\
  vo_circulatingShares v = decimalOfZ (minted ds - minted ws) /\ vo_realizedPnl v = decimalOfZ (paid cs).
Proof.
  intros Hinv [(vs & Hvs & Hv) (d & Hd & Hdp) (w & Hw & Hwp) (c & Hc & Hcp)] Hget Hds Hws Hcs Hwd Hww Hwc.
  unfold get, orEmpty in Hget. rewrite Hvs in Hget. cbn in Hget. injection Hget as Hget.
  destruct (head _) as [r|] eqn:Hr; [|done]. injection Hget as <-. apply head_Some_elem_of, elem_of_bfilter in Hr as [Hin Hid].
  apply andb_true_iff in Hid as [<-%Z.eqb_eq _]. pose proof (inv_balances t Hinv _ _ (Hv r Hin)) as (H1 & _ & H3 & H4).
  destruct (activity_sums _ _ _ _ _ _ _ Hd Hdp Hds Hwd) as [-> Hd2], (activity_sums _ _ _ _ _ _ _ Hw Hwp Hws Hww) as [-> Hw2],
    (activity_sums _ _ _ _ _ _ _ Hc Hcp Hcs Hwc) as [-> _].
  rewrite Hd2, Hw2 by done. destruct r as [[i x] up]. cbn in *. by rewrite H1, H3, H4.
Qed.

Definition steadyVault : VaultRow := {|
  v_leader := "GLEAD"; v_name := "steady"; v_created_at := 1000; total_usdc := 900; circulating_shares := 1000; hwm_nav := 10000000;
  realized_pnl := 0; leader_shares := 500; profit_share_bps := 1000; v_paused := false; v_contract_id := "CFACT" |}.

Definition tradeAt (id ts : Z) (action : string) (pnl : option Z) : StoredTrade :=
  (id, (7, id, action, "tx"), {| vt_leader := "GLEAD"; vt_collateral := "100"; vt_pnl := pnl; vt_ledger := ts; vt_ts := ts; vt_contract_id := "CFACT" |}).

Definition losing : list StoredTrade := [tradeAt 1 2000 "open" None; tradeAt 2 2500 "close" (Some (-90)); tradeAt 3 2500 "open" None].

Definition losingDb : VaultsDb := {|
  q_vaults := Answer (Ok [(7, steadyVault, 2500)]); q_deposits := MissingTable; q_withdraws := MissingTable; q_feeClaims := MissingTable;
  q_trades := Answer (Ok losing) |}.

Theorem walked_history_misses_only_ties_witness :
  let pages := walkHistory tradeTs 2 [losing; rev losing; losing; losing] None in
  finished 2 pages /\ length (concat pages) = 3%nat.
Proof.
  split; [|reflexivity].
  refine (proj1 (walked_history_misses_only_ties tradeTs 2 losing [losing; rev losing; losing; losing] _ _ _ _)).
  - lia.
  - repeat constructor; rewrite ?elem_of_cons, ?elem_of_nil; intuition discriminate.
  - repeat constructor; try done; exact (symmetry (Permutation_rev losing)).
  - cbn. lia.
Defined.

Theorem vault_aggregates_are_honest_witness :
  exists a, computeAggregates None losingDb 7 (Some (toRow (7, steadyVault, 2500))) 2592000 = Ok a /\ isPositive (apyBps a) = false.
Proof.
  eexists. split; [reflexivity|].
  apply (vault_aggregates_are_honest None losingDb 7 (7, steadyVault, 2500) 2592000 _ losing);
    [reflexivity|cbn; lia|cbn; lia|vm_compute; discriminate|reflexivity|vm_compute; discriminate].
Defined.

Definition oneDeposit : VaultFlowRow := {|
  f_vault_id := 7; f_who := "GLEAD"; f_amount := "900"; f_shares := "1000"; f_ledger := 5; f_ts := 1500; f_tx_hash := "tx"; f_contract_id := "CFACT" |}.

Definition depositedTables : VaultTables := {|
  vaults := {[ 7 := {| v_leader := "GLEAD"; v_name := "steady"; v_created_at := 1000; total_usdc := 900; circulating_shares := 1000;
    hwm_nav := 10000000; realized_pnl := 0; leader_shares := 1000; profit_share_bps := 1000; v_paused := false; v_contract_id := "CFACT" |} ]};
  vault_deposits := {[ "e1" := oneDeposit ]}; vault_withdraws := ∅; vault_fee_claims := ∅; vault_trades := ∅ |}.

Definition depositedDb : VaultsDb := {|
  q_vaults := Answer (Ok ((fun p => (p.1, p.2, 1500)) <$> map_to_list (vaults depositedTables))); q_deposits := Answer (Ok [(1, oneDeposit)]);
  q_withdraws := Answer (Ok []); q_feeClaims := Answer (Ok []); q_trades := Answer (Ok []) |}.

Theorem served_vault_adds_up_witness :
  exists v ds, get (Some "CFACT") depositedDb 7 = Ok (Some v) /\ deposits depositedDb 7 (Some 10) None = Ok ds /\
    vo_totalUsdc v = decimalOfZ (paid ds - 0 - 0).
Proof.
  do 2 eexists. split; [vm_compute; reflexivity|]. split; [reflexivity|].
  refine (proj1 (served_vault_adds_up (Some "CFACT") depositedTables depositedDb 7 (Some 10) _ _ [] [] _ _ _ _ eq_refl eq_refl _ _ _)).
  - apply VaultInv_intro; try (intros k f Hk; by rewrite lookup_empty in Hk).
    + intros k f [<- <-]%lookup_singleton_Some. by eexists.
    + intros id v [<- <-]%lookup_singleton_Some. vm_compute. by split_and!.
  - split; [|eexists; split; [reflexivity|vm_compute; reflexivity]..]. eexists. split; [reflexivity|]. intros r Hr.
    apply list_elem_of_fmap in Hr as ([k v] & -> & Hk). by apply elem_of_map_to_list in Hk.
  - vm_compute. reflexivity.
  - reflexivity.
  - vm_compute. lia.
  - vm_compute. lia.
  - vm_compute. lia.
Defined.

(** ** Examples *)

(** One row a page: of the two trades of second 2500 one is never listed. *)
Example page_boundary_loses_a_trade :
  map (map (fun r : StoredTrade => r.1.1)) (walkHistory tradeTs 1 [losing; losing; losing; losing] None) = [[3]; [1]; []].
Proof. reflexivity. Qed.

(** A database that does not answer shows a vault without trades or
    depositors, and the answer is kept for ten seconds. *)
Definition brokenDb : VaultsDb := {|
  q_vaults := q_vaults losingDb; q_deposits := Answer (Err "timeout"); q_withdraws := MissingTable; q_feeClaims := MissingTable;
  q_trades := Answer (Err "timeout") |}.

Example outage_reads_as_no_record :
  let s0 := {| aggCache := ∅; navCache := ∅ |} in
  let '(a, s) := aggregates None brokenDb 7 (Some (toRow (7, steadyVault, 2500))) 1000 1000 s0 in
  let '(b, _) := aggregates None losingDb 7 (Some (toRow (7, steadyVault, 2500))) 10999 10999 s in
  closedTradePnl <$> a = inr "0" /\ closedTradePnl <$> b = inr "0" /\
  closedTradePnl <$> (computeAggregates None losingDb 7 (Some (toRow (7, steadyVault, 2500))) 10) = inr "-90".
Proof. vm_compute. by split_and!. Qed.

(** An event stream paged by [beforeTs] loses the rest of a ledger. *)
Definition eventIn (id : string) (ledger : Z) : EventRow :=
  (id, {| row_contract_id := "CFACT"; row_topic := "vault_deposit"; row_ledger := ledger; row_close_ts := 100 * ledger; row_tx_hash := "tx";
          row_payload := VaultEvent 7 (VaultDeposit "GA" "1" "1") |}).

Definition firstPage (beforeTs : option Z) : EventQuery := {|
  eq_topic := None; eq_contractId := Some "CFACT"; fromLedger := None; toLedger := None; eq_beforeTs := beforeTs; eq_limit := Some 1 |}.

Example event_page_boundary_loses_an_event :
  let db := Answer (Ok [eventIn "1" 9; eventIn "2" 10; eventIn "3" 10]) in
  map fst <$> listEvents db (firstPage None) = inr ["3"] /\ map fst <$> listEvents db (firstPage (Some 1000)) = inr ["1"].
Proof. by vm_compute. Qed.
