(* ===== verification/ApiAdmin.v ===== *)
(** * The waitlist and its administration

    api/src/routes/access.ts over the grants and challenges of [ApiKeys], with
    the e-mail texts' masking of accessEmail.ts: joining, unlocking with a
    signed challenge, decisions with their approval mails, erasure, listing and
    the CSV export. Requests are handled one after the other. Whether a text
    is a wallet address is stellar-sdk's ([isWallet]), as is decoding a signed
    transaction; the columns [ApiKeys.Grant] leaves out come with [Stamps]. *)

From S2P Require Import Prelude JsText ApiSockets ApiEvents ApiStats ApiBoard ApiAccess ApiKeys.
Open Scope Z_scope.
Open Scope js_scope.

(** ** E-mail addresses *)

Definition allChars (p : ascii -> bool) (s : string) : bool := forallb p (String.list_ascii_of_string s).

(** Neither white space nor "@". *)
Definition plainChar (c : ascii) : bool := negb (isSpace c) && negb (Ascii.eqb c "@").

(** Some dot has a character before and one after. *)
Fixpoint dotInside (s : string) : bool :=
  match s with
  | String _ ((String c rest) as tl) => (Ascii.eqb c "." && truthy rest) || dotInside tl
  | _ => false
  end.

(** EMAIL_RE *)
Definition validEmail (s : string) : bool :=
  match splitOn "@" s with
  | [l; d] => truthy l && allChars plainChar l && allChars plainChar d && dotInside d
  | _ => false
  end.

(** The text from its first "@" on. *)
Fixpoint fromAt (s : string) : option string :=
  match s with
  | EmptyString => None
  | String c rest => if Ascii.eqb c "@" then Some s else fromAt rest
  end.

(** The first character, three stars, and the text from the first later
    "@" on; a text without one stays. *)
Definition maskEmail (email : string) : string :=
  match email with
  | String c rest => match fromAt rest with Some d => String c ("***" +:+ d) | None => email end
  | EmptyString => email
  end.

(** ** CSV *)

Definition quoteChar : ascii := Ascii.ascii_of_nat 34.
Definition newline : ascii := Ascii.ascii_of_nat 10.

Definition special (c : ascii) : bool := Ascii.eqb c quoteChar || Ascii.eqb c "," || Ascii.eqb c newline.

(** [v.replace] of a quote by two. *)
Fixpoint doubled (s : string) : string :=
  match s with
  | EmptyString => EmptyString
  | String c s => if Ascii.eqb c quoteChar then String c (String c (doubled s)) else String c (doubled s)
  end.

Definition esc (v : option string) : string :=
  match v with
  | None => ""
  | Some v => if existsb special (String.list_ascii_of_string v) then String quoteChar (doubled v +:+ String quoteChar "") else v
  end.

Definition csvLine (cells : list (option string)) : string := String.concat "," (esc <$> cells).
Definition csvText (lines : list string) : string := String.concat (String newline "") lines.

Definition CSV_HEADER : string := "wallet,email,status,source,wave,segment,requested_at,decided_at,decided_by,notes".

(** ** The routes *)

(** A row's times: requested_at as a number and text, decided_at. *)
Record Stamps := { requestedAt : string -> Z; requestedText : string -> string; decidedAt : string -> option string }.

Definition statusName (s : GrantStatus) : string :=
  match s with pending_ => "pending" | approved => "approved" | rejected => "rejected" | revoked => "revoked" end.

Definition ACTIONS : list (string * GrantAction) := [("approve", approve); ("reject", reject); ("revoke", revokeGrant)]%string.

Definition actionOf (s : string) : option GrantAction := snd <$> List.find (fun p => String.eqb p.1 s) ACTIONS.

Record ListFilter := { ls_status : option GrantStatus; ls_wave : option string; ls_q : option string; ls_limit : nat; ls_offset : nat }.

(** ILIKE: "%", "_" and the escape character in the pattern. *)
Fixpoint like (p s : string) : bool :=
  match p with
  | EmptyString => String.eqb s ""
  | String c p' =>
      if Ascii.eqb c "%" then existsb (like p') (suffixes s)
      else match s with
        | EmptyString => false
        | String x s' =>
            if Ascii.eqb c "_" then like p' s'
            else if Ascii.eqb c "\" then match p' with String e p'' => Ascii.eqb e x && like p'' s' | EmptyString => false end
            else Ascii.eqb c x && like p' s'
        end
  end.

Definition ilike (s p : string) : bool := like (lower p) (lower s).

Definition statusEqb (a b : GrantStatus) : bool := String.eqb (statusName a) (statusName b).

Definition matchesFilter (f : ListFilter) (r : string * Grant) : bool :=
  match ls_status f with Some s => statusEqb (ApiKeys.status r.2) s | None => true end &&
  match given (ls_wave f) with Some w => eqOpt String.eqb (wave r.2) (Some w) | None => true end &&
  match given (ls_q f) with
  | Some q => ilike r.1 (q +:+ "%") || match email r.2 with Some e => ilike e ("%" +:+ q +:+ "%") | None => false end
  | None => true
  end.

Section stamps.
Context (T : Stamps).

(** [ORDER BY requested_at DESC] *)
Definition laterGrant (a b : string * Grant) : Prop := requestedAt T b.1 <= requestedAt T a.1.

#[export] Instance laterGrant_dec : RelDecision laterGrant.
Proof. intros a b. unfold laterGrant. apply _. Defined.

(** list, on the table's rows. *)
Definition list_ (f : ListFilter) (d : AccessDb) : list (string * Grant) :=
  take (ls_limit f) (drop (ls_offset f) (merge_sort laterGrant (bfilter (matchesFilter f) (map_to_list (grants d))))).

Definition cells (r : string * Grant) : list (option string) :=
  [ Some r.1; email r.2; Some (statusName (ApiKeys.status r.2)); Some (source r.2); wave r.2; segment r.2;
    Some (requestedText T r.1); decidedAt T r.1; decidedBy r.2; notes r.2 ].

Definition EXPORT_LIMIT : nat := Z.to_nat 10000.

Definition exportRows (st : option GrantStatus) (d : AccessDb) : list (string * Grant) :=
  list_ {| ls_status := st; ls_wave := None; ls_q := None; ls_limit := EXPORT_LIMIT; ls_offset := 0 |} d.

Definition exportCsv (rows : list (string * Grant)) : string := csvText (CSV_HEADER :: (csvLine ∘ cells <$> rows)).
End stamps.

(** counts: the statuses some row has, each with its number of rows. *)
Definition counts (d : AccessDb) : list (string * Z) :=
  bfilter (fun p => 0 <? p.2) ((fun st => (statusName st, countOf (statusEqb st) d)) <$> [pending_; approved; rejected; revoked]).

(** The pending unlock challenges (an instance of their own), the tables, and
    the approval mails accepted for delivery, newest first. *)
Record AccessServer := { unlocks : Pending; store : AccessDb; mails : list (string * string) }.

Definition freshAccess : AccessServer := {| unlocks := ∅; store := emptyAccess; mails := [] |}.

Definition setStore (d : AccessDb) (s : AccessServer) : AccessServer := {| unlocks := unlocks s; store := d; mails := mails s |}.

Inductive AccessReply :=
| BadRequest (error : string)
| Unauthorized (error : string)
| Forbidden (error : string)
| ServerError
| Joined (st : GrantStatus)
| StatusIs (st : PublicStatus)
| ChallengeIs (hex : string)
| Unlocked (w : option string)
| Decided (updated emailed : list string)
| Forgotten (done : bool)
| Exported (csv : string)
| Listed (rows : list (string * Grant)) (perStatus : list (string * Z)).

(** What the outside does to one decision: the batch commits or not, the
    statements of the mail loop succeed per wallet, the mailer takes a mail. *)
Record MailWorld := { commits : bool; readable : string -> bool; markable : string -> bool; accepts : list (string * string) -> string -> bool }.

Inductive AccessCall :=
| CallJoin (wallet : string) (mail seg : option string) (attest : bool)
| CallStatus (wallet : string)
| CallChallenge (address bytes : string) (now : Z)
| CallVerify (address challengeHex signature : string) (now : Z)
| CallDecide (user : option string) (wallets : list string) (action : string) (w n : option string) (W : MailWorld)
| CallForget (user : option string) (wallet : string) (committed : bool)
| CallList (user : option string) (f : ListFilter)
| CallExport (user : option string) (st : option GrantStatus).

Definition SEGMENTS : list string := ["trader"; "lp"; "both"].

Section routes.
Context (T : Stamps) (decode : string -> option SignedTx) (isWallet : string -> bool) (admins : list string).

(** requireAuth, whose refusals are told apart in [ApiAccess], then
    requireAdmin: the owner, or the refusal. *)
Definition requireAdmin (user : option string) : AccessReply + string :=
  match user with
  | None => inl (Unauthorized "missing_bearer")
  | Some owner => if member owner admins then inr owner else inl (Forbidden "not_admin")
  end.

Definition joinRoute (wallet : string) (mail seg : option string) (attest : bool) (s : AccessServer) : AccessReply * AccessServer :=
  if negb attest then (BadRequest "attestation_required", s)
  else if negb (isWallet wallet) then (BadRequest "invalid_wallet", s)
  else if match given mail with Some e => negb (validEmail e) | None => false end then (BadRequest "invalid_email", s)
  else if match seg with Some x => negb (member x SEGMENTS) | None => false end then (BadRequest "invalid_segment", s)
  else let '(st, d) := join wallet (given mail) seg (store s) in (Joined st, setStore d s).

Definition statusRoute (wallet : string) (s : AccessServer) : AccessReply * AccessServer :=
  if isWallet wallet then (StatusIs (statusOf (Some (grants (store s))) wallet), s) else (BadRequest "invalid_wallet", s).

Definition challengeRoute (address bytes : string) (now : Z) (s : AccessServer) : AccessReply * AccessServer :=
  (ChallengeIs bytes, {| unlocks := issueChallenge address bytes now (unlocks s); store := store s; mails := mails s |}).

Definition verifyRoute (address challengeHex signature : string) (now : Z) (s : AccessServer) : AccessReply * AccessServer :=
  let '(good, p) := verify decode address challengeHex signature now (unlocks s) in
  let s := {| unlocks := p; store := store s; mails := mails s |} in
  if negb good then (Unauthorized "invalid_signature", s)
  else if negb (isApproved (Some (grants (store s))) address) then (Forbidden "not_approved", s)
  else (Unlocked (grants (store s) !! address ≫= wave), s).

(** The mails of a committed approval: [Err] when a statement throws. *)
Fixpoint emailApproved (W : MailWorld) (updated : list string) (s : AccessServer) : Result (list string) * AccessServer :=
  match updated with
  | [] => (Ok [], s)
  | wallet :: updated =>
      if negb (readable W wallet) then (Err "read failed", s)
      else match grants (store s) !! wallet with
        | None => emailApproved W updated s
        | Some g =>
            match given (email g) with
            | None => emailApproved W updated s
            | Some to =>
                if emailSent g then emailApproved W updated s
                else if accepts W (mails s) to then
                  let s := {| unlocks := unlocks s; store := store s; mails := (wallet, to) :: mails s |} in
                  if negb (markable W wallet) then (Err "mark failed", s)
                  else
                    let '(rest, s) := emailApproved W updated (setStore (markEmailSent wallet (store s)) s) in
                    (l ← rest; Ok (wallet :: l), s)
                else emailApproved W updated s
            end
        end
  end.

Definition decideRoute (user : option string) (wallets : list string) (act : string) (w n : option string) (W : MailWorld) (s : AccessServer)
  : AccessReply * AccessServer :=
  match requireAdmin user with
  | inl refusal => (refusal, s)
  | inr who =>
      match actionOf act with
      | None => (BadRequest "invalid_action", s)
      | Some a =>
          if negb (forallb isWallet wallets) then (BadRequest "invalid_wallet", s)
          else match decide_ a who w n wallets (commits W) (store s) with
            | (inl _, d) => (ServerError, setStore d s)
            | (inr updated, d) =>
                let s := setStore d s in
                match a with
                | approve =>
                    match emailApproved W updated s with
                    | (inl _, s) => (ServerError, s)
                    | (inr emailed, s) => (Decided updated emailed, s)
                    end
                | _ => (Decided updated [], s)
                end
            end
      end
  end.

Definition forgetRoute (user : option string) (wallet : string) (committed : bool) (s : AccessServer) : AccessReply * AccessServer :=
  match requireAdmin user with
  | inl refusal => (refusal, s)
  | inr who =>
      if negb (isWallet wallet) then (BadRequest "invalid_wallet", s)
      else match forget wallet who committed (store s) with
        | (inl _, d) => (ServerError, setStore d s)
        | (inr b, d) => (Forgotten b, setStore d s)
        end
  end.

Definition listRoute (user : option string) (f : ListFilter) (s : AccessServer) : AccessReply * AccessServer :=
  match requireAdmin user with inl refusal => (refusal, s) | inr _ => (Listed (list_ T f (store s)) (counts (store s)), s) end.

(** The rows are read before the export is logged. *)
Definition exportRoute (user : option string) (st : option GrantStatus) (s : AccessServer) : AccessReply * AccessServer :=
  match requireAdmin user with
  | inl refusal => (refusal, s)
  | inr who =>
      let rows := exportRows T st (store s) in
      (Exported (exportCsv T rows), setStore (addAudit who "export" None (store s)) s)
  end.

Definition accessCall (c : AccessCall) (s : AccessServer) : AccessReply * AccessServer :=
  match c with
  | CallJoin wallet mail seg attest => joinRoute wallet mail seg attest s
  | CallStatus wallet => statusRoute wallet s
  | CallChallenge address bytes now => challengeRoute address bytes now s
  | CallVerify address ch sig now => verifyRoute address ch sig now s
  | CallDecide user wallets act w n W => decideRoute user wallets act w n W s
  | CallForget user wallet committed => forgetRoute user wallet committed s
  | CallList user f => listRoute user f s
  | CallExport user st => exportRoute user st s
  end.

Definition accessRun (calls : list AccessCall) (s : AccessServer) : AccessServer := foldl (fun s c => (accessCall c s).2) s calls.
End routes.

(** ** A reader of CSV *)

Inductive CsvState := AtStart | InPlain | InQuoted | AfterQuote.

(** RFC 4180 with lines ended by a newline: the rows of cells of a text. *)
Fixpoint readCsv (s : string) (st : CsvState) (field : string) (row : list string) : list (list string) :=
  match s with
  | EmptyString => [row ++ [field]]
  | String c s =>
      let plain :=
        if Ascii.eqb c "," then readCsv s AtStart "" (row ++ [field])
        else if Ascii.eqb c newline then (row ++ [field]) :: readCsv s AtStart "" []
        else readCsv s InPlain (field +:+ String c "") row in
      match st with
      | AtStart => if Ascii.eqb c quoteChar then readCsv s InQuoted "" row else plain
      | InPlain => plain
      | InQuoted => if Ascii.eqb c quoteChar then readCsv s AfterQuote field row else readCsv s InQuoted (field +:+ String c "") row
      | AfterQuote => if Ascii.eqb c quoteChar then readCsv s InQuoted (field +:+ String c "") row else plain
      end
  end.

(** What may follow a cell. *)
Definition cellEnd (rest : string) : Prop :=
  rest = "" \/ (exists r, rest = String "," r) \/ (exists r, rest = String newline r).

Lemma read_end rest st field row : cellEnd rest -> st <> InQuoted -> (st = AtStart -> field = "") ->
  readCsv rest st field row = readCsv rest InPlain field row.
Proof. intros [->|[[r ->]|[r ->]]] Hst Hf; destruct st; done. Qed.

Lemma str_snoc a c b : (a +:+ String c "") +:+ b = a +:+ String c b.
Proof. by rewrite <- str_app_assoc. Qed.

Lemma special_not c : special c = false -> Ascii.eqb c quoteChar = false /\ Ascii.eqb c "," = false /\ Ascii.eqb c newline = false.
Proof. unfold special. rewrite !orb_false_iff. tauto. Qed.

Lemma read_plain v : existsb special (String.list_ascii_of_string v) = false -> forall rest field row,
  readCsv (v +:+ rest) InPlain field row = readCsv rest InPlain (field +:+ v) row.
Proof.
  induction v as [|c v IH]; intros Hv rest field row; [by rewrite str_app_nil_r|].
  cbn in Hv. apply orb_false_iff in Hv as [Hc Hv]. apply special_not in Hc as (_ & H2 & H3).
  change (String c v +:+ rest) with (String c (v +:+ rest)). cbn [readCsv]. rewrite H2, H3, IH by done. by rewrite str_snoc.
Qed.

Lemma read_doubled v : forall rest field row,
  readCsv (doubled v +:+ rest) InQuoted field row = readCsv rest InQuoted (field +:+ v) row.
Proof.
  induction v as [|c v IH]; intros rest field row; [by rewrite str_app_nil_r|]. cbn [doubled].
  destruct (Ascii.eqb c quoteChar) eqn:Hc.
  - change (String c (String c (doubled v)) +:+ rest) with (String c (String c (doubled v +:+ rest))). cbn [readCsv]. rewrite Hc.
    by rewrite IH, str_snoc.
  - change (String c (doubled v) +:+ rest) with (String c (doubled v +:+ rest)). cbn [readCsv]. rewrite Hc. by rewrite IH, str_snoc.
Qed.

Definition textOf (v : option string) : string := default "" v.

Lemma read_cell v rest row : cellEnd rest -> readCsv (esc v +:+ rest) AtStart "" row = readCsv rest InPlain (textOf v) row.
Proof.
  intros Hr. destruct v as [v|]; cbn [esc textOf default]; [|by apply read_end].
  destruct (existsb special _) eqn:Hs.
  - change (String quoteChar (doubled v +:+ String quoteChar "") +:+ rest)
      with (String quoteChar ((doubled v +:+ String quoteChar "") +:+ rest)). cbn [readCsv]. rewrite Ascii.eqb_refl, <- str_app_assoc, read_doubled.
    change (String quoteChar "" +:+ rest) with (String quoteChar rest). cbn [readCsv]. rewrite Ascii.eqb_refl. by apply read_end.
  - destruct v as [|c v]; [by apply read_end|]. cbn in Hs. apply orb_false_iff in Hs as [Hc Hs]. apply special_not in Hc as (H1 & H2 & H3).
    change (String c v +:+ rest) with (String c (v +:+ rest)). cbn [readCsv]. rewrite H1, H2, H3. by rewrite read_plain.
Qed.

Definition lineEnd (rest : string) : Prop := rest = "" \/ exists r, rest = String newline r.

(** The rows after a line. *)
Definition restRows (rest : string) : list (list string) :=
  match rest with EmptyString => [] | String _ r => readCsv r AtStart "" [] end.

Lemma read_line l : forall rest row, l <> [] -> lineEnd rest ->
  readCsv (csvLine l +:+ rest) AtStart "" row = (row ++ (textOf <$> l)) :: restRows rest.
Proof.
  induction l as [|v l IH]; intros rest row Hne Hr; [done|]. destruct l as [|w l].
  - unfold csvLine. cbn [fmap list_fmap String.concat]. rewrite read_cell.
    + by destruct Hr as [->|[r ->]].
    + destruct Hr as [->|Hr]; [by left|right; by right].
  - assert (csvLine (v :: w :: l) = esc v +:+ String "," (csvLine (w :: l))) as -> by done.
    rewrite <- str_app_assoc. change (String "," (csvLine (w :: l)) +:+ rest) with (String "," (csvLine (w :: l) +:+ rest)).
    rewrite read_cell by (right; left; by eexists). cbn [readCsv]. rewrite (IH rest) by done. by rewrite <- app_assoc.
Qed.

Lemma read_text (L : list (list (option string))) : L <> [] -> Forall (fun l => l <> []) L ->
  readCsv (csvText (csvLine <$> L : list string)) AtStart "" [] = ((fun l : list (option string) => (textOf <$> l : list string)) <$> L : list (list string)).
Proof.
  induction L as [|l L IH]; intros Hne Hall; [done|]. apply Forall_cons in Hall as [Hl Hall]. destruct L as [|l2 L].
  - unfold csvText. cbn [fmap list_fmap String.concat]. rewrite <- (str_app_nil_r (csvLine l)). rewrite read_line by (done || by left). done.
  - assert (csvText (csvLine <$> l :: l2 :: L) = csvLine l +:+ String newline (csvText (csvLine <$> l2 :: L))) as -> by done.
    rewrite read_line; [|done|right; by eexists]. cbn [restRows]. by rewrite IH.
Qed.

(** Reading the export back gives its rows: a spreadsheet gets the header
    and every cell of every row as stored, whatever quotes, commas and line
    ends the texts hold, an absent value being an empty one. *)
Theorem export_roundtrip T rows :
  readCsv (exportCsv T rows) AtStart "" []
  = ["wallet"; "email"; "status"; "source"; "wave"; "segment"; "requested_at"; "decided_at"; "decided_by"; "notes"]%string
    :: ((fun r : string * Grant => (textOf <$> cells T r : list string)) <$> rows : list (list string)).
Proof.
  unfold exportCsv.
  set (header := Some <$> ["wallet"; "email"; "status"; "source"; "wave"; "segment"; "requested_at"; "decided_at"; "decided_by"; "notes"]%string).
  assert (CSV_HEADER :: (csvLine ∘ cells T <$> rows) = csvLine <$> (header :: (cells T <$> rows))) as ->.
  { cbn [fmap list_fmap]. f_equal. by rewrite <- list_fmap_compose. }
  rewrite read_text; [|done|].
  - cbn [fmap list_fmap]. f_equal. by rewrite <- list_fmap_compose.
  - constructor; [done|]. apply Forall_fmap, Forall_true. done.
Qed.

(** ** Lemmas: what a request does to the tables *)

(** An operation an admin's request, or anyone's join, performs. *)
Definition opBy (admins : list string) (o : AccessOp) : Prop :=
  notDecision o /\
  match o with
  | OpDecide _ who _ _ _ _ | OpForget _ who _ | OpAudit who _ _ => member who admins = true
  | OpJoin _ _ _ | OpEmailSent _ => True
  end.

Section steps.
Context (T : Stamps) (decode : string -> option SignedTx) (isWallet : string -> bool) (admins : list string).

Definition stepsTo (d d' : AccessDb) : Prop := exists ops, Forall (opBy admins) ops /\ d' = foldl accessStep d ops.

Lemma steps_refl d : stepsTo d d.
Proof. by exists []. Qed.

Lemma steps_one o d : opBy admins o -> stepsTo d (accessStep d o).
Proof. intros Ho. exists [o]. split; [by constructor|done]. Qed.

Lemma steps_trans d1 d2 d3 : stepsTo d1 d2 -> stepsTo d2 d3 -> stepsTo d1 d3.
Proof.
  intros (o1 & H1 & ->) (o2 & H2 & ->). exists (o1 ++ o2). split; [by apply Forall_app|]. by rewrite foldl_app.
Qed.

Lemma steps_email W updated : forall s, stepsTo (store s) (store (emailApproved W updated s).2).
Proof.
  induction updated as [|w updated IH]; intros s; [apply steps_refl|]. cbn [emailApproved].
  destruct (negb (readable W w)); [apply steps_refl|].
  destruct (grants (store s) !! w) as [g|]; [|apply IH]. destruct (given (email g)) as [to|]; [|apply IH].
  destruct (emailSent g); [apply IH|]. destruct (accepts W (mails s) to); [|apply IH].
  destruct (negb (markable W w)); [apply steps_refl|].
  pose proof (IH (setStore (markEmailSent w (store s)) {| unlocks := unlocks s; store := store s; mails := (w, to) :: mails s |})) as H.
  destruct (emailApproved W updated _) as [r s2]. cbn [snd] in *. eapply steps_trans; [|exact H].
  by apply (steps_one (OpEmailSent w)).
Qed.

Lemma requireAdmin_inr user who : requireAdmin admins user = inr who -> user = Some who /\ member who admins = true.
Proof. unfold requireAdmin. destruct user as [o|]; [|done]. destruct (member o admins) eqn:H; [|done]. by intros [= <-]. Qed.

Lemma steps_call c s : stepsTo (store s) (store (accessCall T decode isWallet admins c s).2).
Proof.
  destruct c as [wallet mail seg attest|wallet|address bytes now|address ch sig now|user wallets act w n W|user wallet committed|user f|user st];
    cbn [accessCall].
  - unfold joinRoute. repeat match goal with |- context [if ?b then (BadRequest _, _) else _] => destruct b; [apply steps_refl|] end.
    pose proof (steps_one (OpJoin wallet (given mail) seg) (store s) ltac:(by split)) as Hop. cbn [accessStep] in Hop.
    destruct (join wallet (given mail) seg (store s)). exact Hop.
  - unfold statusRoute. case_match; apply steps_refl.
  - apply steps_refl.
  - unfold verifyRoute. destruct (verify _ _ _ _ _ _) as [good p]. repeat case_match; apply steps_refl.
  - unfold decideRoute. destruct (requireAdmin admins user) as [r|who] eqn:Hu; [apply steps_refl|].
    apply requireAdmin_inr in Hu as [_ Hwho]. destruct (actionOf act) as [a|]; [|apply steps_refl].
    destruct (negb _); [apply steps_refl|].
    pose proof (steps_one (OpDecide a who w n wallets (commits W)) (store s) ltac:(by split)) as Hop. cbn [accessStep] in Hop.
    destruct (decide_ a who w n wallets (commits W) (store s)) as [[e|updated] d]; [exact Hop|]. cbn [snd] in Hop.
    destruct a; [|exact Hop..]. pose proof (steps_email W updated (setStore d s)) as H1.
    destruct (emailApproved W updated (setStore d s)) as [[e|emailed] s2]; cbn [snd] in *; eapply steps_trans; eassumption.
  - unfold forgetRoute. destruct (requireAdmin admins user) as [r|who] eqn:Hu; [apply steps_refl|].
    apply requireAdmin_inr in Hu as [_ Hwho]. destruct (negb _); [apply steps_refl|].
    pose proof (steps_one (OpForget wallet who committed) (store s) ltac:(by split)) as Hop. cbn [accessStep] in Hop.
    destruct (forget wallet who committed (store s)) as [[e|b] d]; exact Hop.
  - unfold listRoute. case_match; apply steps_refl.
  - unfold exportRoute. destruct (requireAdmin admins user) as [r|who] eqn:Hu; [apply steps_refl|].
    apply requireAdmin_inr in Hu as [_ Hwho]. by apply (steps_one (OpAudit who "export" None)).
Qed.

Lemma steps_run calls : forall s, stepsTo (store s) (store (accessRun T decode isWallet admins calls s)).
Proof.
  induction calls as [|c calls IH]; intros s; [apply steps_refl|]. cbn [accessRun foldl].
  eapply steps_trans; [apply steps_call|]. apply IH.
Qed.

Definition byAdmins (d : AccessDb) : Prop := Forall (fun r => member (actor r) admins = true) (auditLog d).

Lemma byAdmins_decideEach a who w n l : member who admins = true -> forall d, byAdmins d -> byAdmins (decideEach a who w n l d).2.
Proof.
  intros Hwho. induction l as [|x l IH]; intros d Hd; [done|]. cbn [decideEach].
  assert (byAdmins (decideOne a who w n x d).2) as H1.
  { unfold decideOne. destruct a, (grants d !! x); cbn [snd addAudit auditLog setGrants]; try done; by constructor. }
  destruct (decideOne a who w n x d) as [ch d1]. specialize (IH d1 H1). by destruct (decideEach a who w n l d1).
Qed.

Lemma byAdmins_step d o : opBy admins o -> byAdmins d -> byAdmins (accessStep d o).
Proof.
  intros [_ Ho] Hd. destruct o as [w m sg|a who w n l good|w who good|w|who act w]; cbn [accessStep].
  - unfold join. by case_match.
  - unfold decide_. pose proof (byAdmins_decideEach a who w n l Ho d Hd) as H1. destruct (decideEach a who w n l d). by destruct good.
  - unfold forget. destruct (negb good); [done|]. case_match; [|done]. by constructor.
  - done.
  - by constructor.
Qed.

Lemma byAdmins_steps d d' : stepsTo d d' -> byAdmins d -> byAdmins d'.
Proof.
  intros (ops & Hops & ->). revert d. induction Hops as [|o ops Ho _ IH]; intros d Hd; [done|]. apply IH. by apply byAdmins_step.
Qed.

Lemma follows_steps d d' : stepsTo d d' -> Follows d -> Follows d'.
Proof.
  intros (ops & Hops & ->). revert d. induction Hops as [|o ops Ho _ IH]; intros d Hd; [done|]. apply IH.
  apply follows_step; [done|]. by destruct Ho.
Qed.
End steps.

Lemma lastDecision_row w log act : lastDecision w log = Some act -> exists r, r ∈ log /\ action r = act /\ au_wallet r = Some w.
Proof.
  unfold lastDecision. intros Hl. destruct (List.find _ log) as [r|] eqn:Hf; [|done]. injection Hl as Hact.
  apply List.find_some in Hf as [Hin Hr]. apply andb_true_iff in Hr as [_ Hr]. exists r. split; [by apply list_elem_of_In|]. split; [done|].
  destruct (au_wallet r) as [x|]; [|done]. cbn in Hr. by apply String.eqb_eq in Hr as ->.
Qed.

(** C20. The app is unlocked for a wallet only if its one-shot challenge is
    still pending and unexpired, the proof decodes to a plain transaction whose
    first operation carries it and one of whose signatures verifies for the
    wallet, and the last decision the audit log holds about
    the wallet is an approval by an admin; over all requests that came before,
    of anyone. The challenge is used up. *)
Theorem unlock_needs_signature_and_approval T decode isWallet admins calls address ch sig now w s' :
  let s := accessRun T decode isWallet admins calls freshAccess in
  accessCall T decode isWallet admins (CallVerify address ch sig now) s = (Unlocked w, s') ->
  (exists c, unlocks s !! address = Some c /\ challenge c = ch /\ now <= expiresAt c) /\ signsChallenge decode address ch sig /\
  unlocks s' !! address = None /\
  (exists r, lastDecision address (auditLog (store s)) = Some "approve" /\
     r ∈ auditLog (store s) /\ action r = "approve" /\ au_wallet r = Some address /\ member (actor r) admins = true).
Proof.
  intros s. cbn [accessCall]. unfold verifyRoute, verify.
  destruct (gc now (unlocks s) !! address) as [c|] eqn:Hc; [|done]. unfold gc in Hc. apply map_lookup_filter_Some in Hc as [Hc Hexp].
  cbn in Hexp. rewrite (proj2 (Z.ltb_ge _ _) Hexp). destruct (String.eqb_spec (challenge c) ch) as [Hch|]; [|done]. cbn [negb].
  destruct (proves decode address (challenge c) sig) eqn:Hp; [|done]. cbn [negb store].
  destruct (isApproved (Some (grants (store s))) address) eqn:Ha; [|done]. intros [= <- <-]. cbn [unlocks].
  assert (stepsTo admins emptyAccess (store s)) as Hs by apply (steps_run T decode isWallet admins calls freshAccess).
  assert (Follows (store s)) as Hf.
  { eapply follows_steps; [exact Hs|]. intros x. cbn. by rewrite lookup_empty. }
  assert (byAdmins admins (store s)) as Hb by (eapply byAdmins_steps; [exact Hs|]; by constructor).
  split_and!; [by exists c|by rewrite <- Hch; apply proves_signs|apply lookup_delete_eq|].
  assert (lastDecision address (auditLog (store s)) = Some "approve"%string) as Hl.
  { specialize (Hf address). unfold isApproved in Ha. cbn [mbind option_bind] in Ha.
    destruct (grants (store s) !! address) as [g|]; [|done]. rewrite Hf. by destruct (ApiKeys.status g). }
  pose proof (lastDecision_row _ _ _ Hl) as (r & Hr & Hact & Hw). exists r. split_and!; [done..|].
  unfold byAdmins in Hb. rewrite Forall_forall in Hb. by apply Hb.
Qed.

(** ** Approval mails *)

(** Nothing more is mailed to the wallet. *)
Definition settledMail (d : AccessDb) (w : string) : Prop :=
  exists g, grants d !! w = Some g /\ (emailSent g = true \/ email g = None).

Definition approvedIn (admins : list string) (d : AccessDb) (w : string) : Prop :=
  exists r, r ∈ auditLog d /\ action r = "approve" /\ au_wallet r = Some w /\ member (actor r) admins = true.

Definition MailInv (admins : list string) (s : AccessServer) : Prop :=
  NoDup (mails s).*1 /\ forall w to, (w, to) ∈ mails s -> settledMail (store s) w /\ approvedIn admins (store s) w.

(** What a wallet's grant may become. *)
Definition keepsMail (d d' : AccessDb) : Prop :=
  (forall w, settledMail d w -> settledMail d' w) /\ (forall r, r ∈ auditLog d -> r ∈ auditLog d').

Lemma keepsMail_trans d1 d2 d3 : keepsMail d1 d2 -> keepsMail d2 d3 -> keepsMail d1 d3.
Proof. unfold keepsMail. intuition eauto. Qed.

Lemma keepsMail_grant d w g g' log :
  grants d !! w = Some g -> (emailSent g = true \/ email g = None -> emailSent g' = true \/ email g' = None) ->
  (forall r, r ∈ auditLog d -> r ∈ log) -> keepsMail d {| grants := <[w := g']> (grants d); auditLog := log |}.
Proof.
  intros Hg Hm Hl. split; [|exact Hl]. intros x (gx & Hx & Hs). unfold settledMail. cbn.
  destruct (decide (w = x)) as [<-|Hne]; [rewrite lookup_insert_eq|rewrite lookup_insert_ne by done; eauto].
  eexists. split; [done|]. apply Hm. congruence.
Qed.

Lemma keepsMail_new d w g' log :
  grants d !! w = None -> (forall r, r ∈ auditLog d -> r ∈ log) -> keepsMail d {| grants := <[w := g']> (grants d); auditLog := log |}.
Proof.
  intros Hg Hl. split; [|exact Hl]. intros x (gx & Hx & Hs). exists gx. cbn. split; [|done]. by rewrite lookup_insert_ne by congruence.
Qed.

Lemma keepsMail_refl d : keepsMail d d.
Proof. by split. Qed.

#[export] Hint Resolve keepsMail_refl : noether.

Lemma keepsMail_decideEach a who w n l : forall d, keepsMail d (decideEach a who w n l d).2.
Proof.
  induction l as [|x l IH]; intros d; [apply keepsMail_refl|]. cbn [decideEach].
  assert (keepsMail d (decideOne a who w n x d).2) as H1.
  { assert (forall r0 r, r ∈ auditLog d -> r ∈ r0 :: auditLog d) as Hl by (intros r0 r Hr; apply elem_of_cons; by right).
    unfold decideOne. destruct (grants d !! x) as [g|] eqn:E.
    - destruct a; cbn [snd]; apply (keepsMail_grant d x g); auto.
    - destruct a; cbn [snd]; try apply keepsMail_refl. apply keepsMail_new; auto. }
  destruct (decideOne a who w n x d) as [ch d1]. specialize (IH d1). cbn [snd] in H1.
  destruct (decideEach a who w n l d1). cbn [snd] in *. by eapply keepsMail_trans.
Qed.

Lemma keepsMail_step d o : keepsMail d (accessStep d o).
Proof.
  destruct o as [w m sg|a who w n l good|w who good|w|who act w]; cbn [accessStep].
  - unfold join. destruct (grants d !! w) eqn:E; [apply keepsMail_refl|]. by apply keepsMail_new.
  - unfold decide_. pose proof (keepsMail_decideEach a who w n l d) as H1. destruct (decideEach a who w n l d).
    destruct good; [done|apply keepsMail_refl].
  - unfold forget. destruct (negb good); [apply keepsMail_refl|]. destruct (grants d !! w) as [g|] eqn:E; [|apply keepsMail_refl].
    eapply keepsMail_grant; [exact E|by right|]. intros r Hr. apply elem_of_cons. by right.
  - unfold markEmailSent. split; [|done]. intros x (gx & Hx & Hs). unfold settledMail. cbn.
    destruct (decide (w = x)) as [<-|Hne]; [rewrite lookup_alter_eq, Hx; eexists; split; [done|by left]|rewrite lookup_alter_ne by done; eauto].
  - split; [done|]. intros r Hr. apply elem_of_cons. by right.
Qed.

Lemma keepsMail_steps admins d d' : stepsTo admins d d' -> keepsMail d d'.
Proof.
  intros (ops & _ & ->). revert d. induction ops as [|o ops IH]; intros d; [apply keepsMail_refl|].
  eapply keepsMail_trans; [apply keepsMail_step|apply IH].
Qed.

Lemma approvedIn_keeps admins d d' w : keepsMail d d' -> approvedIn admins d w -> approvedIn admins d' w.
Proof. intros [_ Hl] (r & Hr & H). exists r. auto. Qed.

Lemma mailInv_keeps admins s d : keepsMail (store s) d -> MailInv admins s -> MailInv admins (setStore d s).
Proof.
  intros Hk [Hnd Hm]. split; [exact Hnd|]. intros w to [H1 H2]%Hm. split; [by apply Hk|by eapply approvedIn_keeps].
Qed.

Lemma mailInv_email admins W updated : (forall w, markable W w = true) -> forall s,
  (forall w, w ∈ updated -> approvedIn admins (store s) w) -> MailInv admins s -> MailInv admins (emailApproved W updated s).2.
Proof.
  intros Hmark. induction updated as [|w updated IH]; intros s Happ Hs; [exact Hs|]. cbn [emailApproved].
  assert (forall x, x ∈ updated -> approvedIn admins (store s) x) as Happ' by (intros x Hx; apply Happ, elem_of_cons; by right).
  destruct (negb (readable W w)); [exact Hs|]. destruct (grants (store s) !! w) as [g|] eqn:Hg; [|by apply IH].
  destruct (given (email g)) as [to|] eqn:Hto; [|by apply IH]. destruct (emailSent g) eqn:Hsent; [by apply IH|].
  destruct (accepts W (mails s) to); [|by apply IH]. rewrite Hmark. cbn [negb store unlocks mails].
  pose proof (keepsMail_step (store s) (OpEmailSent w)) as Hk. cbn [accessStep] in Hk.
  set (s1 := setStore _ _). assert (MailInv admins s1) as Hs1.
  { destruct Hs as [Hnd Hm]. split.
    - unfold s1. cbn [setStore mails]. cbn [fmap list_fmap fst]. apply NoDup_cons. split; [|exact Hnd].
      intros ([x e] & Hx & Hin)%list_elem_of_fmap. cbn in Hx. subst x. destruct (Hm w e Hin) as [(g' & Hg' & Hset) _].
      rewrite Hg in Hg'. injection Hg' as <-. destruct Hset as [Hset|Hset]; [congruence|]. by rewrite Hset in Hto.
    - intros x e. unfold s1. cbn [setStore mails store]. rewrite elem_of_cons. intros [[= -> ->]|Hin].
      + split; [|eapply approvedIn_keeps; [exact Hk|apply Happ, elem_of_cons; by left]].
        unfold settledMail. cbn. rewrite lookup_alter_eq, Hg. eexists. split; [done|by left].
      + destruct (Hm x e Hin) as [H1 H2]. split; [by apply Hk|by eapply approvedIn_keeps]. }
  specialize (IH s1). destruct (emailApproved W updated s1) as [r s2]. cbn [snd] in *. apply IH; [|done].
  intros x Hx. eapply approvedIn_keeps; [exact Hk|]. by apply Happ'.
Qed.

Lemma decideEach_approves who w n l : forall d x, x ∈ (decideEach approve who w n l d).1 ->
  exists r, r ∈ auditLog (decideEach approve who w n l d).2 /\ action r = "approve" /\ au_wallet r = Some x /\ actor r = who.
Proof.
  induction l as [|y l IH]; intros d x; [by rewrite elem_of_nil|]. cbn [decideEach decideOne].
  set (d1 := addAudit _ _ _ _). pose proof (keepsMail_decideEach approve who w n l d1) as [_ Hl]. specialize (IH d1 x).
  destruct (decideEach approve who w n l d1) as [u d2]. cbn [fst snd] in *. rewrite elem_of_cons. intros [->|Hx]; [|by apply IH].
  eexists. split; [apply Hl; apply elem_of_cons; by left|done].
Qed.

(** The statement that marks a mail as sent succeeds. *)
Definition marksHold (c : AccessCall) : Prop :=
  match c with CallDecide _ _ _ _ _ W => forall w, markable W w = true | _ => True end.

Lemma mailInv_call T decode isWallet admins c s :
  marksHold c -> MailInv admins s -> MailInv admins (accessCall T decode isWallet admins c s).2.
Proof.
  intros Hc Hs. pose proof (keepsMail_steps _ _ _ (steps_call T decode isWallet admins c s)) as Hk.
  assert (forall s', s' = (accessCall T decode isWallet admins c s).2 -> mails s' = mails s -> MailInv admins s') as Hsame.
  { intros s' -> Hm. destruct Hs as [Hnd Hin]. split; [by rewrite Hm|]. intros w to. rewrite Hm. intros [H1 H2]%Hin.
    split; [by apply Hk|by eapply approvedIn_keeps]. }
  destruct c as [wallet mail seg attest|wallet|address bytes now|address ch sig now|user wallets act w n W|user wallet committed|user f|user st].
  - apply Hsame; [done|]. cbn [accessCall]. unfold joinRoute. repeat match goal with |- context [if ?b then (BadRequest _, _) else _] => destruct b; [done|] end. by destruct (join _ _ _ _).
  - apply Hsame; [done|]. cbn [accessCall]. unfold statusRoute. by case_match.
  - by apply Hsame.
  - apply Hsame; [done|]. cbn [accessCall]. unfold verifyRoute. destruct (verify _ _ _ _ _ _). by repeat case_match.
  - cbn [accessCall marksHold] in *. unfold decideRoute. destruct (requireAdmin admins user) as [r|who] eqn:Hu; [exact Hs|].
    apply requireAdmin_inr in Hu as [_ Hwho]. destruct (actionOf act) as [a|]; [|exact Hs]. destruct (negb _); [exact Hs|].
    unfold decide_. pose proof (keepsMail_decideEach a who w n wallets (store s)) as Hd.
    destruct (decideEach a who w n wallets (store s)) as [updated d] eqn:He. cbn [snd] in Hd.
    destruct (commits W); [|by apply (mailInv_keeps _ s (store s) (keepsMail_refl _))].
    unfold Ok. cbv beta iota zeta. destruct a; [|by apply mailInv_keeps..].
    pose proof (mailInv_email admins W updated Hc (setStore d s)) as Hm.
    destruct (emailApproved W updated (setStore d s)) as [[e|emailed] s2]; cbn [snd] in Hm |- *; apply Hm;
      try (by apply mailInv_keeps); intros x Hx; pose proof (decideEach_approves who w n wallets (store s) x) as Hr; rewrite He in Hr;
      destruct (Hr Hx) as (r & H1 & H2 & H3 & <-); by exists r.
  - apply Hsame; [done|]. cbn [accessCall]. unfold forgetRoute. destruct (requireAdmin _ _); [done|]. case_match; [done|]. by destruct (forget _ _ _ _) as [[?|?] ?].
  - apply Hsame; [done|]. cbn [accessCall]. unfold listRoute. by case_match.
  - apply Hsame; [done|]. cbn [accessCall]. unfold exportRoute. by case_match.
Qed.

(** Over any requests of anyone, one after the other, a wallet gets at
    most one approval mail ever, re-approvals, revocations and erasures
    included, and only after an admin's decision about it is in the audit
    log; as long as the statements that mark mails as sent succeed. *)
Theorem approvals_are_mailed_once T decode isWallet admins calls :
  Forall marksHold calls ->
  let s := accessRun T decode isWallet admins calls freshAccess in
  NoDup (mails s).*1 /\ forall w to, (w, to) ∈ mails s -> approvedIn admins (store s) w.
Proof.
  intros Hc s. assert (MailInv admins s) as [H1 H2]; [|split; [done|]; intros w to Hin; by apply (H2 w to)].
  unfold s, accessRun. assert (MailInv admins freshAccess) as H0 by (split; [constructor|intros w to; by rewrite elem_of_nil]).
  revert H0. generalize freshAccess. clear s. induction Hc as [|c calls Hc _ IH]; intros s Hs; [exact Hs|].
  cbn [foldl]. apply IH. by apply mailInv_call.
Qed.

(** ** Concrete requests *)

Definition someStamps : Stamps := {| requestedAt := fun _ => 0; requestedText := fun _ => "2026-08-01"%string; decidedAt := fun _ => None |}.
Definition fineWorld : MailWorld := {| commits := true; readable := fun _ => true; markable := fun _ => true; accepts := fun _ _ => true |}.
Definition anyWallet (w : string) : bool := startsWith "G" w.

Definition launch : list AccessCall :=
  [ CallJoin "GA" (Some "ann@noether.io") (Some "lp") true; CallJoin "GB" (Some "bob@noether.io") None true;
    CallDecide (Some "GADMIN") ["GA"; "GA"] "approve" (Some "w1") None fineWorld; CallDecide (Some "GB") ["GB"] "approve" None None fineWorld;
    CallDecide (Some "GADMIN") ["GA"] "approve" None None fineWorld; CallChallenge "GA" "c1" 10 ]%string.

Lemma approvals_are_mailed_once_witness :
  let s := accessRun someStamps plainDecode anyWallet ["GADMIN"]%string launch freshAccess in
  mails s = [("GA", "ann@noether.io")]%string /\ NoDup (mails s).*1.
Proof.
  split; [vm_compute; reflexivity|].
  refine (proj1 (approvals_are_mailed_once someStamps plainDecode anyWallet ["GADMIN"]%string launch _)).
  repeat constructor.
Defined.

Lemma unlock_needs_signature_and_approval_witness :
  let s := accessRun someStamps plainDecode anyWallet ["GADMIN"]%string launch freshAccess in
  (accessCall someStamps plainDecode anyWallet ["GADMIN"]%string (CallVerify "GA" "c1" "c1" 20) s).1 = Unlocked (Some "w1"%string) /\
  lastDecision "GA" (auditLog (store s)) = Some "approve"%string.
Proof.
  intros s. split; [vm_compute; reflexivity|].
  destruct (unlock_needs_signature_and_approval someStamps plainDecode anyWallet ["GADMIN"]%string launch "GA" "c1" "c1" 20 (Some "w1"%string)
    (accessCall someStamps plainDecode anyWallet ["GADMIN"]%string (CallVerify "GA" "c1" "c1" 20) s).2) as (_ & _ & _ & r & Hl & _).
  - vm_compute. reflexivity.
  - exact Hl.
Defined.

Example emails_checked :
  validEmail "a@b.c" = true /\ validEmail "a@b" = false /\ validEmail "a b@c.d" = false /\ validEmail "a@b@c.d" = false /\
  validEmail "a@.c" = false /\ validEmail "a@b..c" = true /\ maskEmail "ann@noether.io" = "a***@noether.io"%string.
Proof. vm_compute. by split_and!. Qed.
