(* ===== verification/KeeperConfig.v ===== *)
(** * The keeper's configuration

    scripts/keeper/src/config.ts: [loadConfig] from the process environment
    and contracts.json to the configuration the phases run with
    ([KeeperEffects.Config]), and the price bands of the router
    (contracts/noether_router/src/lib.rs), built in and stored, the first of
    which it says it mirrors. Reading and
    parsing the file and resolving a path are the platform's: the file comes as
    what JSON.parse gave or threw. An entry that is not a text is [None]; in
    the file of this repository there is none. Console output is left out. *)

From S2P Require Import Prelude JsText ApiBoard JsNumber KeeperEffects KeeperStork KeeperOracle ApiAccess TxSubmission.
Open Scope Z_scope.
Open Scope js_scope.

(** ** Data *)

(** [AssetConfig] as written out, the bands not yet scaled. *)
Record AssetEntry := {
  a_symbol : string; decimals : Z; a_maxMovePct : number; minPrice : number; maxPrice : number }.

Inductive KeySource := KEEPER_SECRET_KEY | ORACLE_SECRET_KEY | ADMIN_SECRET_KEY.

(** [KeeperConfig]; the empty text stands for what is not set. *)
Record KeeperConfig := {
  network : string; rpcUrl : string; rpcUrls : list string; networkPassphrase : string;
  secretKey : string; keySource : KeySource;
  marketContractId : string; noeracleContractId : string; vaultContractId : string; usdcTokenContractId : string;
  vaultFactoryContractId : string; routerContractId : string; shimContractId : string;
  pollIntervalMs : Z; oracleUpdateIntervalMs : Z;
  adlTriggerRatioBps : Z; adlClearRatioBps : Z; adlMaxClosesPerCycle : Z; adlCheckIntervalMs : Z;
  ttlBumpIntervalMs : Z; ttlExtendToLedgers : Z; ttlContractIds : list (string * string); minKeeperXlm : number;
  instanceId : string; pollOffsetMs : Z; triggeredStuckAlertCycles : Z; healthcheckUrl : string;
  watchdogTimeoutMs : Z; alertErrorStreak : Z;
  stateFilePath : string; discoveryMode : DiscoveryMode; referenceTickerUrl : string; referenceDivergencePct : number;
  triggerConfirmReads : Z; spikeAlertPct : number;
  storkApiKey : string; storkMaxDivergencePct : number; storkMaxAgeMs : Z;
  storkWsUrl : string; storkRelaySecretKey : string; storkRelayIntervalMs : Z; storkAssetIds : list Z;
  heartbeatUrl : string; heartbeatSecret : string;
  discordWebhookUrl : option string; telegramBotToken : option string; telegramChatId : option string;
  assets : list AssetEntry }.

(** How loading ends without a configuration. *)
Inductive BootFailure := Thrown (message : string) | Exited (code : Z).

(** ** Constants *)

(** The number literal [t * 10^x]. *)
Definition lit (t x : Z) : number := nearestDecimal false t x.

Definition entry (s : string) (d : Z) (pct lo hi : number) : AssetEntry :=
  {| a_symbol := s; decimals := d; a_maxMovePct := pct; minPrice := lo; maxPrice := hi |}.

Definition DEFAULT_ASSETS : list AssetEntry :=
  [ entry "BTC" 8 (lit 10 0) (lit 1000 0) (lit 1000000 0);
    entry "ETH" 8 (lit 10 0) (lit 50 0) (lit 100000 0);
    entry "XLM" 7 (lit 20 0) (lit 1 (-2)) (lit 100 0);
    entry "SOL" 7 (lit 20 0) (lit 1 0) (lit 100000 0);
    entry "XRP" 7 (lit 20 0) (lit 1 (-2)) (lit 1000 0);
    entry "ADA" 7 (lit 20 0) (lit 1 (-2)) (lit 1000 0);
    entry "BNB" 7 (lit 20 0) (lit 10 0) (lit 100000 0);
    entry "TRX" 7 (lit 20 0) (lit 1 (-2)) (lit 1000 0);
    entry "HYPE" 7 (lit 20 0) (lit 1 (-1)) (lit 100000 0);
    entry "DOGE" 7 (lit 20 0) (lit 1 (-3)) (lit 100 0);
    entry "ZEC" 7 (lit 20 0) (lit 1 0) (lit 100000 0);
    entry "LINK" 7 (lit 20 0) (lit 1 (-1)) (lit 10000 0);
    entry "BCH" 7 (lit 20 0) (lit 1 0) (lit 100000 0);
    entry "LTC" 7 (lit 20 0) (lit 1 0) (lit 100000 0) ]%string.

Definition LEGACY_PRE_S1_NOERACLE : string := "CAYIP67UDVX5UPXGN3XDAWVIEFBAVG6G7LUESEOU3NUQKTWN55W34YBG".

(** ** Reading variables *)

(** [parseInt(s, 10)]: the digits at the front, as a number. *)
Definition parseInt (s : string) : number :=
  let (neg, s) := signOf (skipSpace s) in
  let d := (span isDigit s).1 in
  if truthy d then nearestDecimal neg (digitsValue d) 0 else S754_nan.

Definition inQuotes (s : string) : string :=
  let q := String (Ascii.ascii_of_nat 34) EmptyString in q +:+ s +:+ q.

(** [STORK_DEFAULT_ID_SYMBOLS.map(([id]) => id)] *)
Definition defaultStorkIds : list Z := STORK_DEFAULT_ID_SYMBOLS.*1.

Definition parseStorkAssetIds (raw : option string) : list Z :=
  match raw with
  | Some raw =>
      if truthy raw then
        let ids := omap (fun s => n ← floorZ (parseInt (trim s)); if 0 <=? n then Some n else None) (splitOn "," raw) in
        match ids with [] => defaultStorkIds | _ => ids end
      else defaultStorkIds
  | None => defaultStorkIds
  end.

Definition parseDiscoveryMode (raw : option string) : Result DiscoveryMode :=
  let given := match raw with Some r => if truthy r then r else "legacy" | None => "legacy" end%string in
  let mode := lower (trim given) in
  if String.eqb mode "legacy" then Ok legacy
  else if String.eqb mode "shadow" then Ok shadow
  else if String.eqb mode "chain" then Ok chain
  else Err ("KEEPER_DISCOVERY must be legacy, shadow or chain (got " +:+ inQuotes (default "undefined"%string raw) +:+ ")").

Section load.
Variable env : string -> option string.

(** [process.env[name] || fallback] *)
Definition envOr (name fallback : string) : string :=
  match env name with Some v => if truthy v then v else fallback | None => fallback end.

(** [process.env[name] || undefined] *)
Definition envSet (name : string) : option string :=
  match env name with Some v => if truthy v then Some v else None | None => None end.

Definition envInt (name : string) (fallback : Z) : Z :=
  match floorZ (parseInt (envOr name "")) with
  | Some n => if 0 <? n then n else fallback
  | None => fallback
  end.

Definition envFloat (name : string) (fallback : number) : number :=
  let parsed := parseFloat (envOr name "") in
  if isFinite parsed && isPositive parsed then parsed else fallback.

Definition resolveAssets : list AssetEntry :=
  (fun a => entry (a_symbol a) (decimals a) (envFloat ("MAX_MOVE_PCT_" +:+ a_symbol a) (a_maxMovePct a)) (minPrice a) (maxPrice a))
  <$> DEFAULT_ASSETS.

(** ** The signing key *)

Definition dirt (c : ascii) : bool := Ascii.eqb c "'" || Ascii.eqb c (Ascii.ascii_of_nat 34) || isSpace c.

Fixpoint withoutDirt (s : string) : string :=
  match s with EmptyString => EmptyString | String c s => if dirt c then withoutDirt s else String c (withoutDirt s) end.

(** The first key set, and where it is from. *)
Definition rawKey : option (string * KeySource) :=
  match envSet "KEEPER_SECRET_KEY" with
  | Some k => Some (k, KEEPER_SECRET_KEY)
  | None =>
      match envSet "ORACLE_SECRET_KEY" with
      | Some k => Some (k, ORACLE_SECRET_KEY)
      | None => (fun k => (k, ADMIN_SECRET_KEY)) <$> envSet "ADMIN_SECRET_KEY"
      end
  end.

Definition isAdminKey (s : KeySource) : bool := match s with ADMIN_SECRET_KEY => true | _ => false end.

Definition resolveSigningKey (network : string) : BootFailure + string * KeySource :=
  match rawKey with
  | None => inl (Thrown "❌ KEEPER_SECRET_KEY, ORACLE_SECRET_KEY, or ADMIN_SECRET_KEY must be set in .env")
  | Some (raw, source) =>
      if isAdminKey source && String.eqb network "mainnet" then inl (Exited 1) else inr (trim (withoutDirt raw), source)
  end.

Definition resolveRpcUrls : list string :=
  match List.filter truthy (trim <$> splitOn "," (envOr "SOROBAN_RPC_URLS" "")) with
  | [] => [envOr "SOROBAN_RPC_URL" (envOr "RPC_URL" "https://soroban-testnet.stellar.org")]
  | list => list
  end.

(** ** The contracts *)

(** [contracts.contracts]: what JSON.parse gave, in the order of the file. *)
Definition Names := list (string * option string).

Variable names : Names.

Definition textOf (name : string) : string :=
  match List.find (fun e => String.eqb e.1 name) names with Some (_, Some id) => id | _ => ""%string end.

(** [NEXT_PUBLIC_<NAME>_ID], the name split before its capitals. [snake]
    lowers the letters that [upper] raises. *)
Definition overrideName (name : string) : string := "NEXT_PUBLIC_" +:+ upper (snake lowerOrDigit false name) +:+ "_ID".

Definition ttlAddress (e : string * option string) : string :=
  let override := trim (default "" (env (overrideName e.1))) in
  if truthy override then override else default ""%string e.2.

Fixpoint ttlList (l : Names) (seen : gset string) : list (string * string) :=
  match l with
  | [] => []
  | e :: l =>
      let addr := ttlAddress e in
      if truthy addr && negb (bool_decide (addr ∈ seen)) then (e.1, addr) :: ttlList l ({[addr]} ∪ seen)
      else ttlList l seen
  end.
End load.

Section boot.
Variable env : string -> option string.
(** [path.resolve(process.cwd(), _)] *)
Variable resolvePath : string -> string.
(** contracts.json: absent, unreadable, or its table of contracts. *)
Variable contractsFile : option (Result Names).

Definition tableOf (file : option (Result Names)) : Names :=
  match file with Some (inr names) => names | _ => [] end.

(** The address of a contract: the variable, or the file's entry. *)
Definition contractId (variable name : string) : string := envOr env variable (textOf (tableOf contractsFile) name).

(** The literal of [loadConfig], the key and the mode resolved. *)
Definition assembled (key : string * KeySource) (mode : DiscoveryMode) : KeeperConfig := {|
  network := envOr env "NETWORK" "testnet";
  rpcUrl := default ""%string (head (resolveRpcUrls env)); rpcUrls := resolveRpcUrls env;
  networkPassphrase := envOr env "NETWORK_PASSPHRASE" "Test SDF Network ; September 2015";
  secretKey := key.1; keySource := key.2;
  marketContractId := contractId "NEXT_PUBLIC_MARKET_ID" "market";
  noeracleContractId := contractId "NEXT_PUBLIC_NOERACLE_ID" "noeracle";
  vaultContractId := contractId "NEXT_PUBLIC_VAULT_ID" "vault";
  usdcTokenContractId := contractId "NEXT_PUBLIC_USDC_TOKEN_ID" "usdcToken";
  vaultFactoryContractId := contractId "NEXT_PUBLIC_VAULT_FACTORY_ID" "vaultFactory";
  routerContractId := contractId "NEXT_PUBLIC_NOETHER_ROUTER_ID" "noetherRouter";
  shimContractId := contractId "NEXT_PUBLIC_NOERACLE_SHIM_ID" "noeracleShim";
  pollIntervalMs := envInt env "POLL_INTERVAL_MS" 5000;
  oracleUpdateIntervalMs := envInt env "ORACLE_UPDATE_INTERVAL_MS" 30000;
  adlTriggerRatioBps := envInt env "ADL_TRIGGER_RATIO_BPS" 12500;
  adlClearRatioBps := envInt env "ADL_CLEAR_RATIO_BPS" 15000;
  adlMaxClosesPerCycle := envInt env "ADL_MAX_CLOSES_PER_CYCLE" 5;
  adlCheckIntervalMs := envInt env "ADL_CHECK_INTERVAL_MS" 30000;
  ttlBumpIntervalMs := envInt env "TTL_BUMP_INTERVAL_MS" (6 * 60 * 60 * 1000);
  ttlExtendToLedgers := envInt env "TTL_EXTEND_TO_LEDGERS" 518400;
  ttlContractIds := ttlList env (tableOf contractsFile) ∅;
  minKeeperXlm := envFloat env "MIN_KEEPER_XLM" (lit 600 0);
  instanceId := envOr env "KEEPER_INSTANCE_ID" "keeper-1";
  pollOffsetMs := envInt env "KEEPER_POLL_OFFSET_MS" 0;
  triggeredStuckAlertCycles := envInt env "TRIGGERED_STUCK_ALERT_CYCLES" 3;
  healthcheckUrl := envOr env "HEALTHCHECK_URL" "";
  watchdogTimeoutMs := envInt env "WATCHDOG_TIMEOUT_MS"
    (Z.max (3 * 60 * 1000) (Z.of_nat (length (resolveAssets env)) * 60 * 1000));
  alertErrorStreak := envInt env "ALERT_ERROR_STREAK" 5;
  stateFilePath := resolvePath (envOr env "KEEPER_STATE_FILE" "./keeper-state.json");
  discoveryMode := mode;
  referenceTickerUrl := envOr env "REFERENCE_TICKER_URL" "https://api.binance.com/api/v3/ticker/price";
  referenceDivergencePct := envFloat env "REFERENCE_DIVERGENCE_PCT" (lit 5 0);
  triggerConfirmReads := Z.max 1 (envInt env "KEEPER_TRIGGER_CONFIRM_READS" 2);
  spikeAlertPct := envFloat env "KEEPER_SPIKE_ALERT_PCT" (lit 15 (-1));
  storkApiKey := envOr env "STORK_API_KEY" "";
  storkMaxDivergencePct := envFloat env "STORK_MAX_DIVERGENCE_PCT" (lit 15 (-1));
  storkMaxAgeMs := envInt env "STORK_MAX_AGE_MS" 120000;
  storkWsUrl := envOr env "STORK_WS_URL" "wss://fast.jp.stork-oracle.network/ws?channel=1s&message_type=signed_ecdsa";
  storkRelaySecretKey := envOr env "STORK_RELAY_SECRET_KEY" "";
  storkRelayIntervalMs := envInt env "STORK_RELAY_INTERVAL_MS" 40000;
  storkAssetIds := parseStorkAssetIds (env "STORK_ASSET_IDS");
  heartbeatUrl := envOr env "KEEPER_HEARTBEAT_URL" ""; heartbeatSecret := envOr env "KEEPER_HEARTBEAT_SECRET" "";
  discordWebhookUrl := envSet env "DISCORD_WEBHOOK_URL"; telegramBotToken := envSet env "TELEGRAM_BOT_TOKEN";
  telegramChatId := envSet env "TELEGRAM_CHAT_ID";
  assets := resolveAssets env |}.

(** [loadConfig] *)
Definition loadConfig : BootFailure + KeeperConfig :=
  match contractsFile with
  | Some (inl e) => inl (Thrown e)
  | _ =>
      match resolveSigningKey env (envOr env "NETWORK" "testnet") with
      | inl e => inl e
      | inr key =>
          match parseDiscoveryMode (env "KEEPER_DISCOVERY") with
          | inl e => inl (Thrown e)
          | inr mode =>
              let config := assembled key mode in
              if negb (truthy (noeracleContractId config)) then
                inl (Thrown ("Noeracle contract id not set. Set NEXT_PUBLIC_NOERACLE_ID (or contracts.json .contracts.noeracle) "
                  +:+ "to a post-S-1 Noeracle deployment — price publishing cannot work without it."))
              else if String.eqb (noeracleContractId config) LEGACY_PRE_S1_NOERACLE then
                inl (Thrown ("Noeracle contract id " +:+ LEGACY_PRE_S1_NOERACLE +:+ " is the LEGACY pre-S-1 deployment — it lacks the "
                  +:+ "hardened batch entrypoint this keeper publishes through. Point NEXT_PUBLIC_NOERACLE_ID at the "
                  +:+ "hardened Noeracle (see the L0-7 cutover runbook)."))
              else inr config
          end
      end
  end.
End boot.

(** ** What the phases take of it *)

(** [Math.round(p * 1e7)], as the publish defenses scale a band. *)
Definition scaled (p : number) : Z := default 0 (roundZ (mulN p (lit 10000000 0))).

Definition assetConfig (a : AssetEntry) : AssetConfig := {|
  symbol := a_symbol a; KeeperEffects.maxMovePct := a_maxMovePct a;
  minScaled := scaled (minPrice a); maxScaled := scaled (maxPrice a) |}.

Definition phaseConfig (c : KeeperConfig) : Config := {|
  KeeperEffects.triggerConfirmReads := triggerConfirmReads c;
  hasRouter := truthy (routerContractId c); hasFactory := truthy (vaultFactoryContractId c);
  hasUsdcToken := truthy (usdcTokenContractId c);
  KeeperEffects.triggeredStuckAlertCycles := triggeredStuckAlertCycles c;
  KeeperEffects.adlMaxClosesPerCycle := adlMaxClosesPerCycle c; KeeperEffects.adlCheckIntervalMs := adlCheckIntervalMs c;
  KeeperEffects.adlTriggerRatioBps := adlTriggerRatioBps c; KeeperEffects.adlClearRatioBps := adlClearRatioBps c;
  KeeperEffects.oracleUpdateIntervalMs := oracleUpdateIntervalMs c;
  KeeperEffects.ttlBumpIntervalMs := ttlBumpIntervalMs c; KeeperEffects.minKeeperXlm := minKeeperXlm c;
  KeeperEffects.ttlContractIds := ttlContractIds c; KeeperEffects.discoveryMode := discoveryMode c;
  KeeperEffects.referenceDivergencePct := referenceDivergencePct c;
  KeeperEffects.storkMaxDivergencePct := storkMaxDivergencePct c; KeeperEffects.spikeAlertPct := spikeAlertPct c;
  KeeperEffects.assets := assetConfig <$> assets c |}.

(** [BANDS] of the router, in 7 decimals. *)
Definition BANDS : list (string * Z * Z) :=
  let P := 10000000 in
  [ ("BTC", 1000 * P, 1000000 * P); ("ETH", 50 * P, 100000 * P); ("XLM", P / 100, 100 * P);
    ("SOL", P, 100000 * P); ("XRP", P / 100, 1000 * P); ("ADA", P / 100, 1000 * P);
    ("BNB", 10 * P, 100000 * P); ("TRX", P / 100, 1000 * P); ("HYPE", P / 10, 100000 * P);
    ("DOGE", P / 1000, 100 * P); ("ZEC", P, 100000 * P); ("LINK", P / 10, 10000 * P);
    ("BCH", P, 100000 * P); ("LTC", P, 100000 * P) ]%string.

(** The bands the admin stored (DataKey::PriceBand), by asset. *)
Definition PriceBands : Type := gmap string (Z * Z).

Definition set_price_band (bands : PriceBands) (asset : string) (lo hi : Z) : Result PriceBands :=
  if (lo <=? 0) || (hi <=? lo) then Err "InvalidParameter"%string else Ok (<[asset := (lo, hi)]> bands).

Definition builtInBand (asset : string) : option (Z * Z) :=
  match List.find (fun b => String.eqb b.1.1 asset) BANDS with Some (_, lo, hi) => Some (lo, hi) | None => None end.

(** [price_bounds]: a stored band wins over the table. *)
Definition price_bounds (bands : PriceBands) (asset : string) : option (Z * Z) :=
  match bands !! asset with Some band => Some band | None => builtInBand asset end.

(** The router's check of a relayed price (validate_attestation). *)
Definition inBand (bands : PriceBands) (asset : string) (price : Z) : bool :=
  match price_bounds bands asset with Some (lo, hi) => negb ((price <? lo) || (hi <? price)) | None => false end.

(** ** Lemmas *)

Definition usable (x : number) : Prop := isFinite x = true /\ isPositive x = true.

Section facts.
Variable env : string -> option string.

Lemma envInt_pos name fallback : 0 < fallback -> 0 < envInt env name fallback.
Proof. intros H. unfold envInt. destruct (floorZ _) as [n|]; [|done]. by destruct (Z.ltb_spec 0 n). Qed.

Lemma envInt_nonneg name fallback : 0 <= fallback -> 0 <= envInt env name fallback.
Proof. intros H. unfold envInt. destruct (floorZ _) as [n|]; [|done]. destruct (Z.ltb_spec 0 n); lia. Qed.

Lemma envFloat_usable name fallback : usable fallback -> usable (envFloat env name fallback).
Proof.
  intros H. unfold envFloat. destruct (isFinite _) eqn:H1; [|done]. cbn [andb].
  destruct (isPositive (parseFloat _)) eqn:H2; done.
Qed.

Lemma envOr_truthy name fallback : truthy fallback = true -> truthy (envOr env name fallback) = true.
Proof. intros H. unfold envOr. destruct (env name) as [v|]; [|done]. by destruct (truthy v) eqn:?. Qed.

Lemma rpcUrls_usable : resolveRpcUrls env <> [] /\ Forall (fun u => truthy u = true) (resolveRpcUrls env).
Proof.
  unfold resolveRpcUrls. set (l := trim <$> _).
  assert (Forall (fun u => truthy u = true) (List.filter truthy l)) as Hl.
  { apply Forall_forall. intros u Hu. apply list_elem_of_In, filter_In in Hu. apply Hu. }
  destruct (List.filter truthy l) as [|u us]; [|done].
  split; [done|]. constructor; [|constructor]. by repeat apply envOr_truthy.
Qed.

Lemma storkIds_usable raw : parseStorkAssetIds raw <> [] /\ Forall (fun n => 0 <= n) (parseStorkAssetIds raw).
Proof.
  assert (defaultStorkIds <> [] /\ Forall (fun n => 0 <= n) defaultStorkIds) as Hd by (split; [done|repeat constructor; done]).
  unfold parseStorkAssetIds. destruct raw as [raw|]; [|done]. destruct (truthy raw); [|done].
  set (ids := omap _ _). assert (Forall (fun n => 0 <= n) ids) as Hn; [|by destruct ids].
  apply Forall_forall. intros n (s & _ & Hs)%list_elem_of_omap. destruct (floorZ _) as [m|]; [|done]. cbn in Hs.
  destruct (Z.leb_spec 0 m); [|done]. by injection Hs as <-.
Qed.

Lemma assets_usable : Forall (fun a => usable (a_maxMovePct a)) (resolveAssets env).
Proof.
  unfold resolveAssets. apply Forall_fmap. repeat (constructor; [apply envFloat_usable; split; vm_compute; reflexivity|]). constructor.
Qed.

(** *** The key *)

Lemma withoutDirt_clean s : Forall (fun c => dirt c = false) (String.list_ascii_of_string (withoutDirt s)).
Proof. induction s as [|c s IH]; cbn; [constructor|]. destruct (dirt c) eqn:Hc; [done|]. by constructor. Qed.
End facts.

Lemma trimEnd_clean s : Forall (fun c => isSpace c = false) (String.list_ascii_of_string s) -> trimEnd s = s.
Proof.
  induction s as [|c s IH]; [done|]. cbn. intros [Hc Hs]%Forall_cons. rewrite (IH Hs). by destruct s; [rewrite Hc|].
Qed.

Lemma trim_clean s : Forall (fun c => isSpace c = false) (String.list_ascii_of_string s) -> trim s = s.
Proof.
  intros H. unfold trim. assert (trimStart s = s) as -> by (destruct s; [done|]; cbn in *; apply Forall_cons in H as [-> _]; done).
  by apply trimEnd_clean.
Qed.

(** *** Extended contracts *)

Section ttl_facts.
Variable env : string -> option string.

Lemma ttlList_addresses l : forall seen addr,
  addr ∈ (ttlList env l seen).*2 <-> truthy addr = true /\ addr ∉ seen /\ exists e, e ∈ l /\ ttlAddress env e = addr.
Proof.
  induction l as [|e l IH]; intros seen addr; cbn [ttlList].
  { split; [by intros ?%elem_of_nil|]. intros (_ & _ & e & He & _). by apply elem_of_nil in He. }
  destruct (truthy (ttlAddress env e)) eqn:Ht; cbn [andb].
  - case_bool_decide as Hs; cbn [negb].
    + rewrite IH. setoid_rewrite elem_of_cons. split; [naive_solver|]. intros (H1 & H2 & e' & [->|He] & <-); [done|eauto 6].
    + cbn [fmap list_fmap snd]. rewrite elem_of_cons, IH. setoid_rewrite elem_of_cons. split.
      * intros [->|(H1 & H2 & e' & H3 & H4)]; [eauto 6|]. split_and!; [done|set_solver|eauto].
      * intros (H1 & H2 & e' & He & Ha). destruct (decide (addr = ttlAddress env e)) as [->|Hne]; [by left|].
        right. split_and!; [done|set_solver|]. destruct He as [->|He]; [done|eauto].
  - rewrite IH. setoid_rewrite elem_of_cons. split; [naive_solver|].
    intros (H1 & H2 & e' & [->|He] & <-); [congruence|eauto 6].
Qed.

Lemma ttlList_nodup l : forall seen, NoDup (ttlList env l seen).*2.
Proof.
  induction l as [|e l IH]; intros seen; cbn [ttlList]; [constructor|]. case_match; [|apply IH].
  cbn [fmap list_fmap snd]. constructor; [|apply IH]. rewrite ttlList_addresses. set_solver.
Qed.

Lemma find_entry (names : Names) name id : NoDup names.*1 -> (name, id) ∈ names ->
  List.find (fun e => String.eqb e.1 name) names = Some (name, id).
Proof.
  induction names as [|[n i] names IH]; intros Hn Hin; [by apply elem_of_nil in Hin|].
  cbn [List.find fst]. inversion Hn as [|? ? Hnot Hrest]; subst. apply elem_of_cons in Hin as [[= -> ->]|Hin]; [by rewrite String.eqb_refl|].
  destruct (String.eqb_spec n name) as [->|]; [|by apply IH]. destruct Hnot. apply list_elem_of_fmap. by exists (name, id).
Qed.
End ttl_facts.

(** The contracts the keeper works with: variable, entry, address. *)
Definition workedWith : list (string * string * (KeeperConfig -> string)) :=
  [ ("NEXT_PUBLIC_MARKET_ID", "market", marketContractId); ("NEXT_PUBLIC_NOERACLE_ID", "noeracle", noeracleContractId);
    ("NEXT_PUBLIC_VAULT_ID", "vault", vaultContractId); ("NEXT_PUBLIC_USDC_TOKEN_ID", "usdcToken", usdcTokenContractId);
    ("NEXT_PUBLIC_VAULT_FACTORY_ID", "vaultFactory", vaultFactoryContractId);
    ("NEXT_PUBLIC_NOETHER_ROUTER_ID", "noetherRouter", routerContractId);
    ("NEXT_PUBLIC_NOERACLE_SHIM_ID", "noeracleShim", shimContractId) ]%string.

Lemma workedWith_names : Forall (fun w => overrideName w.1.2 = w.1.1) workedWith.
Proof. repeat constructor; vm_compute; reflexivity. Qed.

Lemma workedWith_address env resolvePath file key mode :
  Forall (fun w => w.2 (assembled env resolvePath file key mode) = contractId env file w.1.1 w.1.2) workedWith.
Proof. repeat constructor. Qed.

(** Taking a load apart. *)
Lemma loadConfig_inv env resolvePath file c : loadConfig env resolvePath file = inr c ->
  exists key mode, resolveSigningKey env (envOr env "NETWORK" "testnet") = inr key
    /\ parseDiscoveryMode (env "KEEPER_DISCOVERY"%string) = inr mode /\ c = assembled env resolvePath file key mode
    /\ truthy (contractId env file "NEXT_PUBLIC_NOERACLE_ID" "noeracle") = true
    /\ contractId env file "NEXT_PUBLIC_NOERACLE_ID" "noeracle" <> LEGACY_PRE_S1_NOERACLE.
Proof.
  unfold loadConfig. destruct file as [[e|l]|]; [done| |].
  all: destruct (resolveSigningKey _ _) as [e|key]; [done|]; destruct (parseDiscoveryMode _) as [e|mode]; [done|].
  all: cbv zeta; cbn [noeracleContractId assembled]; destruct (truthy _) eqn:Ht; [|done]; cbn [negb].
  all: match goal with |- context [String.eqb ?a ?b] => destruct (String.eqb_spec a b); [done|] end.
  all: intros [= <-]; exists key, mode; by split_and!.
Qed.

(** ** Theorems *)

(** A configuration that loads is usable whatever the environment holds:
    every interval, ratio and threshold is positive, the poll offset not
    negative, at least one read confirms a liquidation, every percentage and
    the wallet's floor is a finite positive number; there is an RPC endpoint
    and none is empty, the primary being the first; the prices have a contract
    to go to, not the one without the batch entry point; and there are ids to
    subscribe to. *)
Theorem loaded_config_is_usable env resolvePath file c : loadConfig env resolvePath file = inr c ->
  Forall (fun n => 0 < n)
    [ pollIntervalMs c; oracleUpdateIntervalMs c; adlTriggerRatioBps c; adlClearRatioBps c; adlMaxClosesPerCycle c;
      adlCheckIntervalMs c; ttlBumpIntervalMs c; ttlExtendToLedgers c; triggeredStuckAlertCycles c; watchdogTimeoutMs c;
      alertErrorStreak c; triggerConfirmReads c; storkMaxAgeMs c; storkRelayIntervalMs c ]
  /\ 0 <= pollOffsetMs c
  /\ Forall usable ([ minKeeperXlm c; referenceDivergencePct c; spikeAlertPct c; storkMaxDivergencePct c ] ++ (a_maxMovePct <$> assets c))
  /\ (exists urls, rpcUrls c = rpcUrl c :: urls) /\ Forall (fun u => truthy u = true) (rpcUrls c)
  /\ truthy (noeracleContractId c) = true /\ noeracleContractId c <> LEGACY_PRE_S1_NOERACLE
  /\ storkAssetIds c <> [] /\ Forall (fun n => 0 <= n) (storkAssetIds c).
Proof.
  intros (key & mode & _ & _ & -> & Hn & Hl)%loadConfig_inv.
  pose proof (rpcUrls_usable env) as [Hr1 Hr2]. pose proof (storkIds_usable (env "STORK_ASSET_IDS"%string)) as [Hs1 Hs2].
  split_and!; try done.
  - repeat (constructor; [cbn; first [apply envInt_pos; vm_compute; reflexivity | apply Z.max_lt_iff; by left]|]). constructor.
  - by apply envInt_nonneg.
  - cbn [app]. do 4 (constructor; [apply envFloat_usable; split; vm_compute; reflexivity|]). apply Forall_fmap, assets_usable.
  - cbn. destruct (resolveRpcUrls env) as [|u us]; [done|]. by exists us.
Qed.

(** The keeper refuses to boot exactly when contracts.json does not
    parse, no key is set, the key is the admin's on mainnet, the discovery
    mode is none of the three, or the prices have no contract to go to or one
    without the batch entry point. *)
Theorem boot_is_refused_exactly_when env resolvePath file :
  (exists e, loadConfig env resolvePath file = inl e) <->
  (exists e, file = Some (inl e)) \/ rawKey env = None
  \/ ((exists k, rawKey env = Some (k, ADMIN_SECRET_KEY)) /\ envOr env "NETWORK" "testnet" = "mainnet"%string)
  \/ (exists e, parseDiscoveryMode (env "KEEPER_DISCOVERY"%string) = inl e)
  \/ contractId env file "NEXT_PUBLIC_NOERACLE_ID" "noeracle" = ""%string
  \/ contractId env file "NEXT_PUBLIC_NOERACLE_ID" "noeracle" = LEGACY_PRE_S1_NOERACLE.
Proof.
  split.
  - intros [e H]. unfold loadConfig in H.
    destruct file as [[f|l]|]; [by left; eexists| |]; right; unfold resolveSigningKey in H;
      (destruct (rawKey env) as [[k src]|]; [|by left]); right;
      (destruct (isAdminKey src && String.eqb (envOr env "NETWORK" "testnet") "mainnet") eqn:Ha;
        [apply andb_true_iff in Ha as [Hs Hm%String.eqb_eq]; left; split; [|done]; destruct src; try discriminate Hs; by eexists|]); right;
      (destruct (parseDiscoveryMode _) as [e'|mode]; [left; by eexists|]); right; cbv zeta in H; cbn [noeracleContractId assembled] in H;
      (destruct (truthy _) eqn:Ht; [|left; unfold truthy in Ht; apply negb_false_iff, String.eqb_eq in Ht; exact Ht]); cbn [negb] in H; right;
      match type of H with context [String.eqb ?a ?b] => by destruct (String.eqb_spec a b) end.
  - intros H. destruct (loadConfig env resolvePath file) as [e|c] eqn:Hc; [by eexists|exfalso].
    pose proof Hc as (key & mode & Hk & Hm & -> & Ht & Hl)%loadConfig_inv. unfold resolveSigningKey in Hk.
    destruct H as [[e ->]|[H|[[[k H] Hnet]|[[e H]|[H|H]]]]]; [done|by rewrite H in Hk| |by rewrite H in Hm|by rewrite H in Ht|done].
    rewrite H, Hnet in Hk. discriminate Hk.
Qed.

(** The keeper's sanity bands are the router's: for the fourteen assets,
    in order, scaling the decimal prices of the configuration in binary64
    gives to the unit the bounds the router rejects a price outside of,
    whatever the environment tunes. *)
Theorem keeper_bands_are_the_routers env resolvePath file c : loadConfig env resolvePath file = inr c ->
  (fun a => (symbol a, minScaled a, maxScaled a)) <$> KeeperEffects.assets (phaseConfig c) = BANDS.
Proof. intros (key & mode & _ & _ & -> & _)%loadConfig_inv. vm_compute. reflexivity. Qed.

(** A stored band that leaves the built-in one whole. *)
Definition widens (bands : PriceBands) : Prop :=
  forall asset lo hi lo' hi', bands !! asset = Some (lo', hi') -> builtInBand asset = Some (lo, hi) -> lo' <= lo /\ hi <= hi'.

(** C15. A price the keeper publishes passes the router's sanity bounds, as
    long as the admin has narrowed none of them: whatever the chain, the price
    service and the clock answer, every attestation of every batch submitted
    under a loaded configuration is for an asset of the router's table and lies
    within its bounds there, and so within the bounds the router uses, which are
    the band the admin stored for the asset if there is one, wherever the stored
    bands are at least as wide. *)
Theorem published_prices_pass_the_router {W : World} env resolvePath file c b h pre batch post bands :
  loadConfig env resolvePath file = inr c ->
  (updateOraclePrices (phaseConfig c) b h).2 = pre ++ UpdateNoeracleBatch batch :: post ->
  forall att, att ∈ batch -> exists asset lo hi,
    att_asset att = pairOf asset /\ builtInBand asset = Some (lo, hi) /\ lo <= att_price att <= hi /\
    is_Some (price_bounds bands asset) /\ (widens bands -> inBand bands asset (att_price att) = true).
Proof.
  intros (key & mode & _ & _ & -> & _)%loadConfig_inv Hn att Hatt.
  pose proof (update_guarded (phaseConfig (assembled env resolvePath file key mode)) b h) as Hg. rewrite Hn in Hg.
  destruct (Hg pre _ post _ eq_refl eq_refl) as (l & _ & _ & _ & Hall).
  destruct (Hall att Hatt) as (symb & _ & Hp & _ & _ & a & Ha & <- & Hband & _).
  exists (symbol a), (minScaled a), (maxScaled a).
  assert (builtInBand (symbol a) = Some (minScaled a, maxScaled a)) as Hbuilt.
  { clear - Ha. cbn [phaseConfig KeeperEffects.assets assembled assets] in Ha.
    assert (Forall (fun a => builtInBand (symbol a) = Some (minScaled a, maxScaled a)) (assetConfig <$> resolveAssets env)) as Hb.
    { repeat (constructor; [vm_compute; reflexivity|]). constructor. }
    rewrite Forall_forall in Hb. by apply Hb. }
  split_and!; [done|done|apply Hband|apply Hband| |].
  - unfold price_bounds. rewrite Hbuilt. destruct (bands !! symbol a); eauto.
  - intros Hw. unfold inBand, price_bounds. destruct (bands !! symbol a) as [[lo hi]|] eqn:Hs.
    + destruct (Hw _ _ _ _ _ Hs Hbuilt) as [Hlo Hhi]. apply negb_true_iff, orb_false_iff. rewrite !Z.ltb_ge. lia.
    + rewrite Hbuilt. apply negb_true_iff, orb_false_iff. rewrite !Z.ltb_ge. lia.
Qed.

(** Every contract the keeper works with that contracts.json lists is kept
    alive: market, price contract, vault, token, factory, router and shim, at
    the address the keeper itself uses, be it the variable's or the file's,
    as long as the variable has no blanks around it. Addresses are extended
    once, and none is empty. *)
Theorem worked_with_is_extended env resolvePath file c variable name address :
  loadConfig env resolvePath file = inr c ->
  (variable, name, address) ∈ workedWith ->
  NoDup (tableOf file).*1 -> (exists id, (name, Some id) ∈ tableOf file) ->
  trim (default "" (env variable)) = default ""%string (env variable) ->
  NoDup (ttlContractIds c).*2 /\ ""%string ∉ (ttlContractIds c).*2
  /\ (address c <> ""%string -> address c ∈ (ttlContractIds c).*2).
Proof.
  intros (key & mode & _ & _ & -> & _)%loadConfig_inv Hw Hn [id Hin] Htrim. cbn [ttlContractIds assembled].
  split_and!; [apply ttlList_nodup|by rewrite ttlList_addresses; intros [? _]|].
  pose proof workedWith_names as Hnames. pose proof (workedWith_address env resolvePath file key mode) as Haddr.
  rewrite Forall_forall in Hnames, Haddr. specialize (Hnames _ Hw). specialize (Haddr _ Hw). cbn [fst snd] in Hnames, Haddr. rewrite Haddr.
  intros Hne. rewrite ttlList_addresses. split_and!; [unfold truthy; by apply negb_true_iff, String.eqb_neq|set_solver|].
  exists (name, Some id). split; [done|]. unfold ttlAddress. cbn [fst snd]. rewrite Hnames, Htrim. cbn [default].
  unfold contractId, envOr, textOf. rewrite (find_entry _ _ _ Hn Hin).
  destruct (env variable) as [v|]; [|reflexivity]. cbn. destruct (truthy v); reflexivity.
Qed.

(** The key that signs is the first one set of the keeper's, the oracle's
    and the admin's, without the quotes and blanks around or inside it; and
    the admin's never signs where the network is called mainnet. *)
Theorem admin_key_never_signs_on_mainnet env resolvePath file c : loadConfig env resolvePath file = inr c ->
  (keySource c = ADMIN_SECRET_KEY -> network c <> "mainnet"%string)
  /\ Forall (fun s => dirt s = false) (String.list_ascii_of_string (secretKey c))
  /\ exists raw, secretKey c = withoutDirt raw /\
       match keySource c with
       | KEEPER_SECRET_KEY => envSet env "KEEPER_SECRET_KEY" = Some raw
       | ORACLE_SECRET_KEY => envSet env "KEEPER_SECRET_KEY" = None /\ envSet env "ORACLE_SECRET_KEY" = Some raw
       | ADMIN_SECRET_KEY => envSet env "KEEPER_SECRET_KEY" = None /\ envSet env "ORACLE_SECRET_KEY" = None
                             /\ envSet env "ADMIN_SECRET_KEY" = Some raw
       end.
Proof.
  intros (key & mode & Hk & _ & -> & _)%loadConfig_inv. cbn [keySource network secretKey assembled].
  unfold resolveSigningKey in Hk. destruct (rawKey env) as [[raw src]|] eqn:Hr; [|done].
  destruct (isAdminKey src && _) eqn:Ha; [done|]. injection Hk as <-. cbn [fst snd].
  rewrite trim_clean by (eapply Forall_impl; [apply withoutDirt_clean|]; intros x [_ ?]%orb_false_iff; done).
  split_and!; [|apply withoutDirt_clean|].
  - intros ->. by apply String.eqb_neq.
  - exists raw. split; [done|]. unfold rawKey in Hr.
    destruct (envSet env "KEEPER_SECRET_KEY"); [by injection Hr as <- <-|].
    destruct (envSet env "ORACLE_SECRET_KEY"); [by injection Hr as <- <-|].
    destruct (envSet env "ADMIN_SECRET_KEY"); [by injection Hr as <- <-|done].
Qed.

(** ** Concrete environments *)

Definition envOf (l : list (string * string)) (name : string) : option string :=
  snd <$> List.find (fun e => String.eqb e.1 name) l.
Definition stay (p : string) : string := p.

Definition deployed : Names :=
  [ ("market", Some "CMARKET"); ("vault", Some "CVAULT"); ("noetherRouter", Some "CROUTER"); ("noeracle", Some "CNOERACLE");
    ("usdcToken", Some "CUSDC"); ("referral", Some "CREF") ]%string.

Definition stagingEnv : list (string * string) :=
  [ ("KEEPER_SECRET_KEY", " 'SKEY' "); ("SOROBAN_RPC_URLS", "https://a, ,https://b"); ("POLL_INTERVAL_MS", "2500ms");
    ("KEEPER_DISCOVERY", " Chain "); ("MAX_MOVE_PCT_BTC", "-3"); ("MAX_MOVE_PCT_ETH", "7.5");
    ("NEXT_PUBLIC_NOETHER_ROUTER_ID", "CROUTER2"); ("STORK_ASSET_IDS", "3, x,40") ]%string.

Definition stagingConfig : KeeperConfig :=
  assembled (envOf stagingEnv) stay (Some (inr deployed)) ("SKEY"%string, KEEPER_SECRET_KEY) chain.

Example staging_loads : loadConfig (envOf stagingEnv) stay (Some (inr deployed)) = inr stagingConfig.
Proof. vm_compute. reflexivity. Qed.

Example staging_values :
  secretKey stagingConfig = "SKEY"%string /\ rpcUrls stagingConfig = ["https://a"; "https://b"]%string /\
  pollIntervalMs stagingConfig = 2500 /\ watchdogTimeoutMs stagingConfig = 840000 /\ discoveryMode stagingConfig = chain /\
  take 2 (a_maxMovePct <$> assets stagingConfig) = [lit 10 0; lit 75 (-1)] /\ storkAssetIds stagingConfig = [3; 40] /\
  ttlContractIds stagingConfig = [ ("market", "CMARKET"); ("vault", "CVAULT"); ("noetherRouter", "CROUTER2"); ("noeracle", "CNOERACLE");
                                   ("usdcToken", "CUSDC"); ("referral", "CREF") ]%string.
Proof. vm_compute. by split_and!. Qed.

(** The list of addresses to extend comes from the file alone: a keeper whose
    addresses are all in its environment, as a hosted one's are, extends none
    of them. *)
Example environment_alone_extends_nothing : exists c,
  loadConfig (envOf [("KEEPER_SECRET_KEY", "S"); ("NEXT_PUBLIC_MARKET_ID", "CM"); ("NEXT_PUBLIC_NOERACLE_ID", "CN");
                     ("NEXT_PUBLIC_NOETHER_ROUTER_ID", "CR")]%string) stay None = inr c
  /\ marketContractId c = "CM"%string /\ hasRouter (phaseConfig c) = true /\ ttlContractIds c = [].
Proof. eexists. split; [vm_compute; reflexivity|]. vm_compute. by split_and!. Qed.

(** The guard on the admin's key goes by NETWORK, not by the passphrase that
    is signed with: where NETWORK is not set, the admin's key signs for the
    public network. *)
Example admin_key_signs_for_the_public_network : exists c,
  loadConfig (envOf [("ADMIN_SECRET_KEY", "SADMIN"); ("NEXT_PUBLIC_NOERACLE_ID", "CN");
                     ("NETWORK_PASSPHRASE", "Public Global Stellar Network ; September 2015")]%string) stay None = inr c
  /\ keySource c = ADMIN_SECRET_KEY /\ networkPassphrase c = "Public Global Stellar Network ; September 2015"%string.
Proof. eexists. split; [vm_compute; reflexivity|]. vm_compute. by split_and!. Qed.

Lemma loaded_config_is_usable_witness : 0 < pollIntervalMs stagingConfig /\ rpcUrls stagingConfig = rpcUrl stagingConfig :: ["https://b"]%string.
Proof.
  split; [|vm_compute; reflexivity].
  pose proof (loaded_config_is_usable (envOf stagingEnv) stay (Some (inr deployed)) stagingConfig ltac:(vm_compute; reflexivity)) as [H _].
  by inversion H.
Defined.

Lemma keeper_bands_are_the_routers_witness :
  (fun a => (symbol a, minScaled a, maxScaled a)) <$> KeeperEffects.assets (phaseConfig stagingConfig) = BANDS.
Proof. apply (keeper_bands_are_the_routers (envOf stagingEnv) stay (Some (inr deployed))). vm_compute. reflexivity. Defined.

Lemma worked_with_is_extended_witness : "CROUTER2"%string ∈ (ttlContractIds stagingConfig).*2.
Proof.
  refine (proj2 (proj2 (worked_with_is_extended (envOf stagingEnv) stay (Some (inr deployed)) stagingConfig
    "NEXT_PUBLIC_NOETHER_ROUTER_ID" "noetherRouter" routerContractId _ _ _ _ _)) _).
  - vm_compute. reflexivity.
  - unfold workedWith. do 5 right. left.
  - apply (bool_decide_unpack _). vm_compute. exact I.
  - exists "CROUTER"%string. do 2 right. left.
  - vm_compute. reflexivity.
  - vm_compute. discriminate.
Defined.

Lemma admin_key_never_signs_on_mainnet_witness : exists raw, secretKey stagingConfig = withoutDirt raw.
Proof.
  destruct (admin_key_never_signs_on_mainnet (envOf stagingEnv) stay (Some (inr deployed)) stagingConfig ltac:(vm_compute; reflexivity))
    as (_ & _ & raw & H & _). by exists raw.
Defined.

(** A round of one price for the oracle's sample world. *)
Definition bitcoin : Attestation := {|
  att_asset := "BTC/USD"; att_price := 500000000000; round_id := 9; timestamp := 1; publisher := "P"; price_human := lit 50000 0 |}.
Definition bitcoinWorld : World := {|
  w_now := fun h => Z.of_nat (length h); w_sim := @w_sim sampleWorld;
  w_exec := @w_exec sampleWorld; w_int := @w_int sampleWorld; w_optInt := @w_optInt sampleWorld;
  w_bool := @w_bool sampleWorld; w_number := fun _ _ => None;
  w_position := @w_position sampleWorld; w_order := @w_order sampleWorld;
  w_idList := @w_idList sampleWorld; w_ids := @w_ids sampleWorld;
  w_rounds := fun _ => Ok [bitcoin] |}.

(** The admin has widened bitcoin's band. *)
Definition widerBand : PriceBands := {[ "BTC"%string := (1000000000, 20000000000000) ]}.

Lemma published_prices_pass_the_router_witness : exists asset lo hi,
  "BTC/USD"%string = pairOf asset /\ builtInBand asset = Some (lo, hi) /\ inBand widerBand asset 500000000000 = true.
Proof.
  assert (exists post, (updateOraclePrices (W := bitcoinWorld) (phaseConfig stagingConfig) emptyBot []).2
                       = collectedActions ++ UpdateNoeracleBatch [bitcoin] :: post) as [post Hpost] by (eexists; vm_compute; reflexivity).
  destruct (published_prices_pass_the_router (W := bitcoinWorld) (envOf stagingEnv) stay (Some (inr deployed)) stagingConfig emptyBot []
    collectedActions [bitcoin] post widerBand ltac:(vm_compute; reflexivity) Hpost bitcoin (list_elem_of_here bitcoin []))
    as (asset & lo & hi & Ha & Hb & _ & _ & Hin).
  exists asset, lo, hi. split; [exact Ha|]. split; [exact Hb|]. apply Hin.
  intros x l h l' h' Hx Hl. unfold widerBand in Hx. apply lookup_singleton_Some in Hx as [<- [= <- <-]].
  vm_compute in Hl. injection Hl as <- <-. lia.
Defined.

(** A band the admin narrows is not the keeper's: with bitcoin capped at
    40,000 in the router, the price of 50,000 is published all the same, and
    the router refuses every round that carries it. *)
Example narrowed_band_is_not_the_keepers : exists bands post,
  set_price_band ∅ "BTC" 10000000000 400000000000 = Ok bands
  /\ (updateOraclePrices (W := bitcoinWorld) (phaseConfig stagingConfig) emptyBot []).2 = collectedActions ++ UpdateNoeracleBatch [bitcoin] :: post
  /\ inBand bands "BTC" (att_price bitcoin) = false.
Proof. eexists _, _. split; [reflexivity|]. split; [vm_compute; reflexivity|]. vm_compute. reflexivity. Qed.
