(* ===== verification/KeeperProcess.v ===== *)
(** * The keeper's process

    What surrounds the cycle in scripts/keeper/src/index.ts and state.ts: the
    memory read back from the state file ([loadKeeperState], the constructor
    and [start]), the main loop with its error streak, the watchdog, and
    shutting down. The state file comes as what JSON.parse gave or threw.
    Console output is left out. *)

From Stdlib Require Import SpecFloat QArith.
From S2P Require Import Prelude JsText ApiBoard WebErrors JsNumber Discovery KeeperEffects KeeperLiquidations KeeperOracle KeeperCycle KeeperConfig.
Open Scope Z_scope.
Open Scope js_scope.

(** ** The state file (state.ts) *)

Record PersistedPrice := { p_price : number; p_priceScaled : string; p_timestamp : number }.

(** [KeeperState]; the walk's memory with its decimal texts as integers. *)
Record KeeperState := {
  st_lastPushedPrices : gmap string PersistedPrice;
  st_lastFundingSubmitTime : option number;
  st_discovery : option DiscoveryState }.

Definition emptyKeeperState : KeeperState :=
  {| st_lastPushedPrices := ∅; st_lastFundingSubmitTime := None; st_discovery := None |}.

(** [isValidPersistedPrice], with the entry it lets through. *)
Definition isValidPersistedPrice (entry : Json) : option PersistedPrice :=
  match memberIfAny (Some entry) "price", memberIfAny (Some entry) "priceScaled", memberIfAny (Some entry) "timestamp" with
  | Some (JNumber p), Some (JString s), Some (JNumber t) =>
      if isFinite p && isPositive p && allDigits s && isPositive t
      then Some {| p_price := p; p_priceScaled := s; p_timestamp := t |} else None
  | _, _, _ => None
  end.

Definition idText (j : Json) : option Z :=
  match j with JString s => if allDigits s then Some (digitsValue s) else None | _ => None end.

(** [isValidWalkState], with the state it lets through. *)
Definition isValidWalkState (entry : option Json) : option EntityWalkState :=
  match memberIfAny entry "watermark", memberIfAny entry "live" with
  | Some w, Some (JArray l) =>
      w ← idText w; l ← mapM idText l; Some {| watermark := w; live := l |}
  | _, _ => None
  end.

(** The part of [loadKeeperState] after the parse. *)
Definition stateOf (parsed : Json) : Result KeeperState :=
  match member parsed "lastPushedPrices", member parsed "lastFundingSubmitTime", member parsed "discovery" with
  | inr prices, inr funding, inr disc =>
      Ok {| st_lastPushedPrices :=
              match prices ≫= objectEntries with
              | Some l => foldl (fun m e => match isValidPersistedPrice e.2 with Some p => <[e.1 := p]> m | None => m end) ∅ l
              | None => ∅
              end;
            st_lastFundingSubmitTime :=
              match funding with Some (JNumber t) => if isPositive t then Some t else None | _ => None end;
            st_discovery :=
              match isValidWalkState (memberIfAny disc "positions"), isValidWalkState (memberIfAny disc "orders") with
              | Some p, Some o => Some {| positions := p; orders := o |}
              | _, _ => None
              end |}
  | inl e, _, _ | _, inl e, _ | _, _, inl e => Err e
  end.

(** [loadKeeperState]: no file, or what reading and parsing it gave. *)
Definition loadKeeperState (file : option (Result Json)) : KeeperState :=
  match file with
  | Some (inr parsed) => match stateOf parsed with inr s => s | inl _ => emptyKeeperState end
  | _ => emptyKeeperState
  end.

(** ** What is written to it *)

Definition priceJson (p : PriceData) : Json :=
  JObject [("price", JNumber (price p)); ("priceScaled", JString (decimalOfZ (priceScaled p)));
           ("timestamp", JNumber (numberOfZ (priceAt p)))]%string.

Definition walkJson (w : EntityWalkState) : Json :=
  JObject [("watermark", JString (decimalOfZ (watermark w))); ("live", JArray (JString ∘ decimalOfZ <$> live w))]%string.

Definition pricesJson (b : Bot) : Json := JObject (prod_map id priceJson <$> map_to_list (lastPushedPrices (oracleS b))).

Definition discoveryJson (d : DiscoveryState) : Json :=
  JObject [("positions", walkJson (positions d)); ("orders", walkJson (orders d))]%string.

(** [this.state], as JSON.stringify writes it: the prices pushed, the time of
    the funding submit if there was one, and the walk's memory. *)
Definition stateJson (b : Bot) (d : DiscoveryState) : Json :=
  let submitted := lastFundingSubmitTime (cycleS b) in
  let funding := if submitted =? 0 then [] else [("lastFundingSubmitTime"%string, JNumber (numberOfZ submitted))] in
  JObject (("lastPushedPrices"%string, pricesJson b) :: app funding [("discovery"%string, discoveryJson d)]).

(** ** Starting *)

(** A restored price; times are whole milliseconds, as the keeper writes them. *)
Definition restoredPrice (p : PersistedPrice) : PriceData :=
  {| price := p_price p; priceScaled := digitsValue (p_priceScaled p); priceAt := default 0 (floorZ (p_timestamp p)) |}.

(** The fields of a new KeeperBot. *)
Definition newBot : Bot := {|
  liqS := {| liqStrikes := ∅; crossBalanceCache := ∅; assetMmBpsCache := ∅; riskLadderSupported := None |};
  routerS := {| latestRounds := ∅; routerFnSupported := ∅ |};
  orderS := {| orphanedOrderIds := ∅; triggeredStuckCounts := ∅; factoryReconcileSupported := None |};
  adlS := {| adlActive := ∅; adlLastProbeAt := ∅; adlSupported := None; vaultCoverageCache := None |};
  oracleS := {| currentPrices := ∅; lastPushedPrices := ∅; lastSyncedPnlPrice := ∅; lastFullPnlSyncAt := 0; spikeAlertAt := ∅ |};
  cycleS := {| lastOracleUpdate := 0; oracleUpdateInProgress := false; lastFullSweepAt := 0; consecutiveReadFailures := 0;
               fundingFailureStreak := 0; nextFundingAttemptAt := 0; lastFundingSubmitTime := 0; nextTtlBumpAt := 0;
               lastCustodyCheckAt := 0; custodyDeficitStreak := 0; lastCustody := None |};
  stats := ∅ |}.

(** The constructor and [start] on what was loaded, at the time [now]. *)
Definition seed (s : KeeperState) (now : Z) : Bot :=
  let prices := restoredPrice <$> st_lastPushedPrices s in
  let submitted := default 0 (st_lastFundingSubmitTime s ≫= floorZ) in
  onCycle (fun c => {|
      lastOracleUpdate := lastOracleUpdate c; oracleUpdateInProgress := oracleUpdateInProgress c;
      lastFullSweepAt := lastFullSweepAt c; consecutiveReadFailures := consecutiveReadFailures c;
      fundingFailureStreak := fundingFailureStreak c;
      nextFundingAttemptAt := match st_lastFundingSubmitTime s with Some _ => submitted + FUNDING_INTERVAL_MS | None => now end;
      lastFundingSubmitTime := submitted; nextTtlBumpAt := nextTtlBumpAt c;
      lastCustodyCheckAt := lastCustodyCheckAt c; custodyDeficitStreak := custodyDeficitStreak c; lastCustody := lastCustody c |})
    (onOracle (fun o => {|
      currentPrices := prices; lastPushedPrices := prices; lastSyncedPnlPrice := lastSyncedPnlPrice o;
      lastFullPnlSyncAt := lastFullPnlSyncAt o; spikeAlertAt := spikeAlertAt o |}) newBot).

(** [this.state.discovery ??= emptyDiscoveryState()] *)
Definition seedDiscovery (s : KeeperState) : DiscoveryState := default emptyDiscoveryState (st_discovery s).

(** The checks [start] begins with; [Some code] is an exit. *)
Definition startRefused (c : KeeperConfig) : option Z :=
  if negb (truthy (marketContractId c)) then Some 1 else if negb (truthy (noeracleContractId c)) then Some 1 else None.

(** ** The main loop *)

Section loop.
Context {W : World} (config : Config) (alertErrorStreak : Z) (healthcheckUrl : string).

Record Loop := {
  bot : Bot; done_ : list Action; consecutiveCycleErrors : Z; cyclesEnded : list Z; pings : nat }.

(** [pingHealthcheck]: a request whose outcome nothing looks at. *)
Definition pingHealthcheck (n : nat) : nat := if truthy healthcheckUrl then S n else n.

(** One turn of the loop of [start], the sleep left out: the cycle, its
    [catch], and the completion time the watchdog looks at. *)
Definition turn (l : Loop) : Loop :=
  match runKeeperCycle config (bot l) (done_ l) with
  | (inr _, b, new) =>
      let h := done_ l ++ new in
      {| bot := b; done_ := h ++ [Now]; consecutiveCycleErrors := 0; cyclesEnded := cyclesEnded l ++ [w_now h];
         pings := pingHealthcheck (pings l) |}
  | (inl e, b, new) =>
      let n := consecutiveCycleErrors l + 1 in
      match (addStat "errors" 1 b (done_ l ++ new)) with
      | (_, b, _) =>
          let h := done_ l ++ new ++ (if alertErrorStreak <=? n then [SendAlert critical "Keeper stuck in an error loop"] else []) in
          {| bot := b; done_ := h ++ [Now]; consecutiveCycleErrors := n; cyclesEnded := cyclesEnded l ++ [w_now h];
         pings := pingHealthcheck (pings l) |}
      end
  end.

Definition started (b : Bot) (h : list Action) : Loop :=
  {| bot := b; done_ := h; consecutiveCycleErrors := 0; cyclesEnded := []; pings := 0 |}.
End loop.

(** ** The watchdog and shutting down

    What decides whether the process lives: the loop reports the end of its
    cycles, timers and signals come in between. A run is a list of events with
    their times. *)

Definition WATCHDOG_CHECK_INTERVAL_MS : Z := 30000.
Definition HARD_EXIT_MS : Z := 6000.

Inductive ProcessEvent :=
| CycleEnded                 (* the loop, after a cycle or its catch *)
| WatchdogCheck              (* the interval timer *)
| RestartAlertSettled        (* the alert of a watchdog check that fired *)
| HardExit                   (* the timer set by such a check *)
| Signalled                  (* SIGINT or SIGTERM *)
| StopAlertSettled.          (* the alert of [stop] *)

Record Proc := {
  isRunning : bool; shuttingDown : bool; lastCycleCompletedAt : Z;
  hardExits : list Z;        (* when the timers that were set are due *)
  stateSaved : bool; exited : option Z }.

Definition startedAt (t : Z) : Proc :=
  {| isRunning := true; shuttingDown := false; lastCycleCompletedAt := t; hardExits := []; stateSaved := false; exited := None |}.

Section watchdog.
Variable watchdogTimeoutMs : Z.

(** [checkWatchdog] *)
Definition checkWatchdog (t : Z) (p : Proc) : Proc :=
  if negb (isRunning p) || shuttingDown p then p
  else if t - lastCycleCompletedAt p <=? watchdogTimeoutMs then p
  else {| isRunning := isRunning p; shuttingDown := shuttingDown p; lastCycleCompletedAt := lastCycleCompletedAt p;
          hardExits := hardExits p ++ [t + HARD_EXIT_MS]; stateSaved := stateSaved p; exited := exited p |}.

(** [stop] up to its alert: the interval is cleared, the state saved. *)
Definition stop (p : Proc) : Proc :=
  if shuttingDown p then p
  else {| isRunning := false; shuttingDown := true; lastCycleCompletedAt := lastCycleCompletedAt p;
          hardExits := hardExits p; stateSaved := true; exited := exited p |}.

(** [process.exit(code)] *)
Definition exit (code : Z) (p : Proc) : Proc :=
  {| isRunning := isRunning p; shuttingDown := shuttingDown p; lastCycleCompletedAt := lastCycleCompletedAt p;
     hardExits := hardExits p; stateSaved := stateSaved p; exited := Some code |}.

Definition completed (t : Z) (p : Proc) : Proc :=
  {| isRunning := isRunning p; shuttingDown := shuttingDown p; lastCycleCompletedAt := t;
     hardExits := hardExits p; stateSaved := stateSaved p; exited := exited p |}.

Definition procStep (p : Proc) (e : Z * ProcessEvent) : Proc :=
  let (t, e) := e in
  if bool_decide (is_Some (exited p)) then p
  else
    match e with
    | CycleEnded => completed t p
    | WatchdogCheck => checkWatchdog t p
    | RestartAlertSettled => match hardExits p with [] => p | _ => exit 1 p end
    | HardExit => if existsb (fun d => d <=? t) (hardExits p) then exit 1 p else p
    | Signalled => stop p
    | StopAlertSettled => if shuttingDown p then exit 0 p else p
    end.

Definition procRun (p : Proc) (events : list (Z * ProcessEvent)) : Proc := foldl procStep p events.
End watchdog.

(** ** Lemmas: the file *)

Lemma numberOfZ_nearest z : 0 < z < 2 ^ 53 -> nearest (numberOfZ z) (inject_Z z).
Proof. intros Hz. destruct z as [|p|p]; try lia. apply integer_nearest. lia. Qed.

Lemma floorZ_numberOfZ z : 0 < z < 2 ^ 53 -> floorZ (numberOfZ z) = Some z.
Proof.
  intros Hz. pose proof (numberOfZ_nearest z Hz) as Hn. pose proof (nearest_integer _ _ Hn Hz) as Hv.
  destruct Hn as (m & e & He & _). destruct (floorZ (numberOfZ z)) as [n|] eqn:Hf; [|by rewrite He in Hf].
  apply floor_val in Hf as [H1 H2]. rewrite Hv in H1, H2. f_equal. rewrite <- Zle_Qle in H1. rewrite <- Zlt_Qlt in H2. lia.
Qed.

Lemma isPositive_numberOfZ z : 0 < z < 2 ^ 53 -> isPositive (numberOfZ z) = true.
Proof. intros Hz. by destruct (numberOfZ_nearest z Hz) as (m & e & -> & _). Qed.

Lemma allDigits_decimal z : 0 <= z -> allDigits (decimalOfZ z) = true.
Proof.
  intros Hz. destruct (decimalOfZ_digits z Hz) as [Hd Hne]. unfold allDigits. apply andb_true_iff. split.
  - apply negb_true_iff. by apply String.eqb_neq.
  - apply forallb_forall. intros c Hc. unfold digits in Hd. rewrite Forall_forall in Hd. apply Hd. by apply list_elem_of_In.
Qed.

Lemma idText_decimal z : 0 <= z -> idText (JString (decimalOfZ z)) = Some z.
Proof. intros Hz. unfold idText. rewrite allDigits_decimal by done. f_equal. by apply decimal_value. Qed.

Definition goodPrice (p : PriceData) : Prop :=
  isFinite (price p) = true /\ isPositive (price p) = true /\ 0 <= priceScaled p /\ 0 < priceAt p < 2 ^ 53.

Definition persisted (p : PriceData) : PersistedPrice :=
  {| p_price := price p; p_priceScaled := decimalOfZ (priceScaled p); p_timestamp := numberOfZ (priceAt p) |}.

Lemma priceJson_valid p : goodPrice p -> isValidPersistedPrice (priceJson p) = Some (persisted p).
Proof.
  intros (H1 & H2 & H3 & H4). unfold isValidPersistedPrice. cbn -[allDigits decimalOfZ numberOfZ].
  by rewrite H1, H2, allDigits_decimal, isPositive_numberOfZ.
Qed.

Lemma restored_persisted p : goodPrice p -> restoredPrice (persisted p) = p.
Proof.
  intros (H1 & H2 & H3 & H4). unfold restoredPrice. cbn [persisted p_price p_priceScaled p_timestamp].
  rewrite floorZ_numberOfZ by done. unfold digitsValue. rewrite decimal_value by done. by destruct p.
Qed.

Definition goodWalk (w : EntityWalkState) : Prop := 0 <= watermark w /\ Forall (fun i => 0 <= i) (live w).

Lemma walkJson_valid w : goodWalk w -> isValidWalkState (Some (walkJson w)) = Some w.
Proof.
  intros [H1 H2]. unfold isValidWalkState. cbn -[idText decimalOfZ mapM]. rewrite idText_decimal by done. cbn [mbind option_bind].
  assert (mapM idText (JString ∘ decimalOfZ <$> live w) = Some (live w)) as ->; [|by destruct w].
  apply mapM_Some_2. rewrite Forall2_fmap_l. induction H2 as [|i l Hi _ IH]; constructor; [|done]. cbn. by apply idText_decimal.
Qed.

Lemma pricesBack (l : list (string * PriceData)) : Forall (fun e => goodPrice e.2) l -> NoDup l.*1 -> forall m k,
  foldl (fun (m : gmap string PersistedPrice) (e : string * Json) =>
           match isValidPersistedPrice e.2 with Some p => <[e.1 := p]> m | None => m end) m (prod_map id priceJson <$> l) !! k
  = match (list_to_map l : gmap string PriceData) !! k with Some p => Some (persisted p) | None => m !! k end.
Proof.
  induction l as [|[i p] l IH]; intros Hg Hn m k; [done|].
  apply Forall_cons in Hg as [Hp Hg]. apply NoDup_cons in Hn as [Hi Hn]. cbn [fmap list_fmap foldl prod_map fst snd id list_to_map foldr curry].
  rewrite (priceJson_valid p Hp), IH by done. destruct (decide (k = i)) as [->|Hne].
  - rewrite lookup_insert_eq, (not_elem_of_list_to_map_1 _ _ Hi). cbn. by rewrite !lookup_insert_eq.
  - cbn. rewrite !lookup_insert_ne by done. done.
Qed.

(** What is written can be read: times before 2^53 milliseconds, positive
    prices, ids that are not negative. *)
Definition storable (b : Bot) (d : DiscoveryState) : Prop :=
  map_Forall (fun _ => goodPrice) (lastPushedPrices (oracleS b)) /\ 0 <= lastFundingSubmitTime (cycleS b) < 2 ^ 53
  /\ goodWalk (positions d) /\ goodWalk (orders d).

Lemma stateOf_stateJson b d : storable b d ->
  stateOf (stateJson b d) = inr {|
    st_lastPushedPrices := persisted <$> lastPushedPrices (oracleS b);
    st_lastFundingSubmitTime := if lastFundingSubmitTime (cycleS b) =? 0 then None else Some (numberOfZ (lastFundingSubmitTime (cycleS b)));
    st_discovery := Some d |}.
Proof.
  intros (Hp & Hf & Hw1 & Hw2). unfold stateOf, stateJson.
  assert (forall X, match isValidWalkState (memberIfAny (Some (discoveryJson d)) "positions"),
                 isValidWalkState (memberIfAny (Some (discoveryJson d)) "orders") with
          | Some p, Some o => X {| positions := p; orders := o |} | _, _ => None end = X d :> option DiscoveryState) as Hwalk.
  { intros X. change (memberIfAny (Some (discoveryJson d)) "positions") with (Some (walkJson (positions d))).
    change (memberIfAny (Some (discoveryJson d)) "orders") with (Some (walkJson (orders d))).
    rewrite !walkJson_valid by done. by destruct d. }
  assert (match Some (pricesJson b) ≫= objectEntries with
          | Some l => foldl (fun (m : gmap string PersistedPrice) (e : string * Json) =>
               match isValidPersistedPrice e.2 with Some p => <[e.1 := p]> m | None => m end) ∅ l
          | None => ∅ end = persisted <$> lastPushedPrices (oracleS b)) as Hprices.
  { cbn [mbind option_bind objectEntries pricesJson]. apply map_eq. intros k. rewrite pricesBack.
    - rewrite list_to_map_to_list, lookup_fmap, lookup_empty. by destruct (lastPushedPrices (oracleS b) !! k).
    - apply Forall_forall. intros [k' p] Hin%elem_of_map_to_list. by apply (Hp k' p).
    - apply NoDup_fst_map_to_list. }
  destruct (Z.eqb_spec (lastFundingSubmitTime (cycleS b)) 0) as [H0|H0].
  - change (member _ "lastPushedPrices") with (Ok (Some (pricesJson b))). change (member _ "lastFundingSubmitTime") with (Ok (@None Json)).
    change (member _ "discovery") with (Ok (Some (discoveryJson d))). cbv beta iota delta [Ok]. by rewrite Hprices, (Hwalk Some).
  - change (member _ "lastPushedPrices") with (Ok (Some (pricesJson b))).
    change (member _ "lastFundingSubmitTime") with (Ok (Some (JNumber (numberOfZ (lastFundingSubmitTime (cycleS b)))))).
    change (member _ "discovery") with (Ok (Some (discoveryJson d))). cbv beta iota delta [Ok].
    rewrite Hprices, (Hwalk Some), isPositive_numberOfZ by lia. done.
Qed.

(** ** Theorems: the memory across a restart *)

Lemma seed_prices b d now : storable b d ->
  let b' := seed (loadKeeperState (Some (Ok (stateJson b d)))) now in
  currentPrices (oracleS b') = lastPushedPrices (oracleS b) /\ lastPushedPrices (oracleS b') = lastPushedPrices (oracleS b).
Proof.
  intros Hs. unfold loadKeeperState, Ok. rewrite stateOf_stateJson by done. unfold seed. cbn.
  assert (restoredPrice <$> (persisted <$> lastPushedPrices (oracleS b)) = lastPushedPrices (oracleS b)) as Hp; [|by split].
  apply map_eq. intros k. rewrite !lookup_fmap. destruct (lastPushedPrices (oracleS b) !! k) as [p|] eqn:Hk; [|done].
  cbn. f_equal. apply restored_persisted. apply Hs in Hk. exact Hk.
Qed.

(** What the keeper remembers survives a restart: reading back the state
    it wrote gives the prices it last pushed, in the circuit breaker and in
    what it will write next, the time of its last funding submit with the
    schedule that follows from it, and the memory of its walk, whatever the
    prices' last bits. *)
Theorem restart_restores_the_memory b d now : storable b d ->
  let s := loadKeeperState (Some (Ok (stateJson b d))) in
  currentPrices (oracleS (seed s now)) = lastPushedPrices (oracleS b)
  /\ lastPushedPrices (oracleS (seed s now)) = lastPushedPrices (oracleS b)
  /\ lastFundingSubmitTime (cycleS (seed s now)) = lastFundingSubmitTime (cycleS b)
  /\ nextFundingAttemptAt (cycleS (seed s now))
     = (if lastFundingSubmitTime (cycleS b) =? 0 then now else lastFundingSubmitTime (cycleS b) + FUNDING_INTERVAL_MS)
  /\ seedDiscovery s = d.
Proof.
  intros Hs s. destruct (seed_prices b d now Hs) as [H1 H2]. split_and!; [exact H1|exact H2|..]; clear H1 H2;
    unfold s, loadKeeperState, Ok; rewrite stateOf_stateJson by done; [| |done];
    destruct Hs as (_ & Hf & _); unfold seed; cbn [st_lastPushedPrices st_lastFundingSubmitTime st_discovery];
    destruct (Z.eqb_spec (lastFundingSubmitTime (cycleS b)) 0) as [H0|H0]; cbn -[numberOfZ FUNDING_INTERVAL_MS floorZ];
    rewrite ?floorZ_numberOfZ by lia; done.
Qed.

Section memory.
Context {W : World} (config : Config).

(** [m] keeps [P] of the memory. *)
Definition Maintains {A} (P : Bot -> Prop) (m : K A) : Prop := forall b h, P b -> P (m b h).1.2.

Lemma maintains_keeps {X A} (f : Bot -> X) (P : X -> Prop) (m : K A) : Keeps f m -> Maintains (fun b => P (f b)) m.
Proof. intros Hm b h Hb. by rewrite Hm. Qed.

Lemma maintains_bind {A B} P (m : K A) (k : A -> K B) : Maintains P m -> (forall a, Maintains P (k a)) -> Maintains P (m ≫= k).
Proof.
  intros Hm Hk b h Hb. specialize (Hm b h Hb). unfold mbind, K_bind. destruct (m b h) as [[[e|a] b1] n1]; [done|].
  specialize (Hk a b1 (h ++ n1) Hm). by destruct (k a b1 (h ++ n1)) as [[r b2] n2].
Qed.

Lemma maintains_try {A} P (m : K A) handler : Maintains P m -> (forall e, Maintains P (handler e)) -> Maintains P (tryCatch m handler).
Proof.
  intros Hm Hk b h Hb. specialize (Hm b h Hb). unfold tryCatch. destruct (m b h) as [[[e|a] b1] n1]; [|done].
  specialize (Hk e b1 (h ++ n1) Hm). by destruct (handler e b1 (h ++ n1)) as [[r b2] n2].
Qed.

Lemma maintains_gets {X A} P (f : Bot -> X) (k : X -> K A) :
  (forall b, P b -> Maintains P (k (f b))) -> Maintains P (gets f ≫= k).
Proof. intros Hk b h Hb. specialize (Hk b Hb b h Hb). unfold mbind, K_bind, gets, Ok. rewrite app_nil_r. by destruct (k (f b) b h) as [[r b2] n2]. Qed.

(** A clock that shows a date before the year 287396. *)
Definition clockWorks : Prop := forall h, 0 < w_now h < 2 ^ 53.

Lemma maintains_now {A} P (k : Z -> K A) : clockWorks -> (forall t, 0 < t < 2 ^ 53 -> Maintains P (k t)) -> Maintains P (now ≫= k).
Proof.
  intros Hc Hk b h Hb. unfold mbind, K_bind, now, io, Ok. specialize (Hk (w_now h) (Hc h) b (h ++ [Now]) Hb).
  by destruct (k (w_now h) b (h ++ [Now])) as [[r b2] n2].
Qed.

Definition pricesOk (b : Bot) : Prop := map_Forall (fun _ => goodPrice) (lastPushedPrices (oracleS b)).

Ltac untouched := apply (maintains_keeps (fun b => lastPushedPrices (oracleS b)) (map_Forall (fun _ => goodPrice))).

(** The prices of an attestation that can be remembered. *)
Definition goodAttestation (att : Attestation) : Prop :=
  isFinite (price_human att) = true /\ isPositive (price_human att) = true /\ 0 <= att_price att.

Lemma recordPush_maintains symb att : clockWorks -> goodAttestation att -> Maintains pricesOk (recordPush config symb att).
Proof.
  intros Hc (H1 & H2 & H3). unfold recordPush.
  apply maintains_bind; [untouched; unfold checkSpike, alertSpike, alert, now; keeps_auto|]. intros _.
  apply maintains_now; [done|]. intros t _. apply maintains_bind; [untouched; keeps_auto|]. intros _.
  apply maintains_now; [done|]. intros t' Ht b h Hb. unfold pricesOk. cbn. by apply map_Forall_insert_2.
Qed.

Lemma recordBatch_maintains m batch : clockWorks -> Forall goodAttestation batch -> Maintains pricesOk (recordBatch config m batch).
Proof.
  intros Hc. induction batch as [|att batch IH]; intros Hg; [by intros b h|]. apply Forall_cons in Hg as [Ha Hg]. cbn [recordBatch].
  destruct (m !! att_asset att) as [s|]; [|by apply IH].
  apply maintains_bind; [by apply recordPush_maintains|]. intros _. apply maintains_bind; [by apply IH|]. intros l. by intros b h.
Qed.

Lemma publishBatch_maintains m batch : clockWorks -> Forall goodAttestation batch -> Maintains pricesOk (publishBatch config m batch).
Proof.
  intros Hc Hg. unfold publishBatch. apply maintains_try; [|intros e; by intros b h].
  apply maintains_bind; [untouched; unfold exec; keeps_auto|]. intros r. destruct (success r); [|by intros b h].
  apply maintains_bind; [by apply recordBatch_maintains|]. intros l. untouched.
  unfold addStat, syncPushed, syncMoved, syncAssetPnl, exec, now, addStat. keeps_auto.
Qed.

Lemma positive_or_not x : isFinite x = true -> leN x (numberOfZ 0) = false -> isPositive x = true.
Proof. by destruct x as [[]|[]| |[] m e]. Qed.

(** The bands of a loaded configuration, at least, are positive. *)
Definition bandsPositive : Prop := Forall (fun a => 0 <= minScaled a) (KeeperEffects.assets config).

Lemma publishable_good prices base l symb att h : bandsPositive -> publishable config prices base l symb att h -> goodAttestation att.
Proof.
  intros Hb (_ & _ & H1 & H2 & a & Ha & _ & [H3 _] & _). split_and!; [done|by apply positive_or_not|].
  unfold bandsPositive in Hb. rewrite Forall_forall in Hb. specialize (Hb a Ha). lia.
Qed.

Lemma update_maintains : clockWorks -> bandsPositive -> Maintains pricesOk (updateOraclePrices config).
Proof.
  intros Hc Hband b h Hb. unfold updateOraclePrices, fetchNoeracleFresh, addStat.
  unfold mbind at 1, K_bind at 1, tryCatch, mbind at 1, K_bind at 1, io at 1, ret at 1.
  destruct (w_rounds h) as [e|[|x l]]; simpl; [done..|].
  destruct (total_run _ b (h ++ [FetchNoeracle]) (collect_total config (x :: l) (KeeperEffects.assets config) [] ltac:(done))) as (eligible & b1 & n1 & Hrun).
  assert (since h (h ++ [FetchNoeracle])) as Hsince by by eexists.
  destruct (collect_publishable config (x :: l) (KeeperEffects.assets config) h (currentPrices (oracleS b)) [] b
    (h ++ [FetchNoeracle]) eligible b1 n1 ltac:(done) Hsince eq_refl (Forall_nil_2 _) Hrun) as [Hall Hk].
  unfold mbind at 1, K_bind at 1. rewrite Hrun. cbv beta iota delta [Ok].
  assert (pricesOk b1) as Hb1 by (unfold pricesOk; by rewrite Hk).
  assert (Maintains pricesOk (publishEligible config eligible)) as Hm.
  { unfold publishEligible. destruct eligible as [|e eligible]; [by intros b' h'|]. apply publishBatch_maintains; [done|].
    apply Forall_forall. intros att Hatt. destruct (pickBatch_one_round (e :: eligible).*2) as (_ & (k & Hin) & _); [done|].
    destruct (Hin att Hatt) as [(y & -> & Hy)%list_elem_of_fmap _]. rewrite Forall_forall in Hall. eapply publishable_good; [done|by apply Hall]. }
  specialize (Hm b1 ((h ++ [FetchNoeracle]) ++ n1) Hb1). by destruct (publishEligible _ _ _ _) as [[r b2] n2].
Qed.
End memory.

(** The circuit breaker survives restarts. Once the prices remembered are
    positive and dated they stay so over every price update, whatever is
    answered; and after any such update, a keeper started from the state that
    was written publishes no price that is outside the jump bound of the one
    last pushed before the restart, unless that push is older than the bound's
    window; whatever the price service sends, on any history. *)
Theorem breaker_survives_restart {W : World} (config : Config) b h d (now : Z) h' pre batch post :
  clockWorks -> bandsPositive config -> pricesOk b ->
  let b1 := (updateOraclePrices config b h).1.2 in
  pricesOk b1 /\
  (storable b1 d ->
   (updateOraclePrices config (seed (loadKeeperState (Some (Ok (stateJson b1 d)))) now) h').2 = pre ++ UpdateNoeracleBatch batch :: post ->
   forall att, att ∈ batch -> exists a, a ∈ KeeperEffects.assets config /\ att_asset att = pairOf (symbol a)
     /\ withinJump config (lastPushedPrices (oracleS b1)) h' a att (h' ++ pre)).
Proof.
  intros Hc Hband Hb b1. split; [by apply update_maintains|]. intros Hs Hn att Hatt.
  pose proof (update_guarded config (seed (loadKeeperState (Some (Ok (stateJson b1 d)))) now) h') as Hg. rewrite Hn in Hg.
  destruct (Hg pre _ post _ eq_refl eq_refl) as (l & _ & _ & _ & Hall).
  destruct (Hall att Hatt) as (symb & _ & Hp & _ & _ & a & Ha & <- & _ & Hj & _).
  exists a. split_and!; [done..|]. by rewrite (proj1 (seed_prices b1 d now Hs)) in Hj.
Qed.

(** ** Theorems: the loop *)

(** C40. The loop goes on for ever and keeps watch over itself: whatever is
    answered to any cycle, each turn runs one whole cycle from where the last
    one left the memory, never reaches the catch, and ends with a completion
    time for the watchdog and a ping where one is configured. *)
Theorem loop_never_gives_up {W : World} config streak url b h n :
  let l := Nat.iter n (turn config streak url) (started b h) in
  consecutiveCycleErrors l = 0 /\ length (cyclesEnded l) = n /\ pings l = (if truthy url then n else 0%nat)
  /\ exists b' new, runKeeperCycle config (bot l) (done_ l) = (Ok (), b', new)
       /\ bot (turn config streak url l) = b' /\ done_ (turn config streak url l) = done_ l ++ new ++ [Now]
       /\ cyclesEnded (turn config streak url l) = cyclesEnded l ++ [w_now (done_ l ++ new)].
Proof.
  assert (forall l, exists b' new, runKeeperCycle config (bot l) (done_ l) = (Ok (), b', new)
    /\ turn config streak url l = {| bot := b'; done_ := (done_ l ++ new) ++ [Now]; consecutiveCycleErrors := 0;
         cyclesEnded := cyclesEnded l ++ [w_now (done_ l ++ new)]; pings := pingHealthcheck url (pings l) |}) as Hturn.
  { intros l. destruct (total_run _ (bot l) (done_ l) (cycle_total config)) as ([] & b' & new & Hr). exists b', new. split; [done|].
    unfold turn. by rewrite Hr. }
  intros l. split_and!.
  4: { destruct (Hturn l) as (b' & new & Hr & ->). exists b', new. cbn. by rewrite <- app_assoc. }
  all: unfold l; clear l; induction n as [|n IH]; [by try destruct (truthy url)|]; rewrite Nat.iter_succ.
  all: destruct (Hturn (Nat.iter n (turn config streak url) (started b h))) as (b' & new & _ & ->);
    cbn [consecutiveCycleErrors cyclesEnded pings].
  - done.
  - rewrite length_app, IH. cbn. lia.
  - unfold pingHealthcheck. rewrite IH. by destruct (truthy url).
Qed.

(** ** Theorems: the watchdog *)

Section watchdog_facts.
Variable timeout : Z.

Definition inTime (events : list (Z * ProcessEvent)) : Prop := StronglySorted (fun a b => a.1 <= b.1) events.

(** Every stretch of thirty seconds between [t0] and [T] has a check, and the
    timer a check sets fires when it is due. *)
Definition timersRun (t0 T : Z) (events : list (Z * ProcessEvent)) : Prop :=
  (forall x, t0 <= x -> x + WATCHDOG_CHECK_INTERVAL_MS <= T -> exists c, x < c <= x + WATCHDOG_CHECK_INTERVAL_MS /\ (c, WatchdogCheck) ∈ events)
  /\ (forall c, (c, WatchdogCheck) ∈ events -> c + HARD_EXIT_MS <= T -> (c + HARD_EXIT_MS, HardExit) ∈ events).

(** No cycle ends and nobody stops the process. *)
Definition frozen (events : list (Z * ProcessEvent)) : Prop :=
  Forall (fun e => match e.2 with CycleEnded | Signalled => False | _ => True end) events.

Lemma exited_stays events : forall p n, exited p = Some n -> exited (procRun timeout p events) = Some n.
Proof.
  induction events as [|[t e] events IH]; intros p n Hp; [done|]. cbn [procRun foldl]. apply IH. unfold procStep.
  rewrite bool_decide_eq_true_2; [done|]. by eexists.
Qed.

(** What a frozen process still is. *)
Definition stillFrozen (p p' : Proc) : Prop :=
  exited p' = Some 1 \/ (exited p' = None /\ isRunning p' = true /\ shuttingDown p' = false
    /\ lastCycleCompletedAt p' = lastCycleCompletedAt p /\ hardExits p ⊆ hardExits p').

Lemma stillFrozen_step p p' t e : frozen [(t, e)] -> stillFrozen p p' -> stillFrozen p (procStep timeout p' (t, e)).
Proof.
  intros [He _]%Forall_cons [H|(H1 & H2 & H3 & H4 & H5)].
  - left. by apply (exited_stays [(t, e)]).
  - assert (stillFrozen p p') as Hsame by (right; by split_and!).
    unfold procStep. rewrite H1. rewrite bool_decide_eq_false_2 by (by intros [? ?]).
    destruct e; try done; [| | |].
    + unfold checkWatchdog. rewrite H2, H3. cbn [negb orb]. destruct (_ <=? _); right; split_and!; cbn; try done. set_solver.
    + destruct (hardExits p') eqn:Hd; [exact Hsame|by left].
    + destruct (existsb _ _); [by left|exact Hsame].
    + rewrite H3. exact Hsame.
Qed.

Lemma stillFrozen_run events : forall p p', frozen events -> stillFrozen p p' -> stillFrozen p (procRun timeout p' events).
Proof.
  induction events as [|[t e] events IH]; intros p p' Hf Hp; [done|]. apply Forall_cons in Hf as [He Hf].
  cbn [procRun foldl]. apply IH; [done|]. apply stillFrozen_step; [by constructor|done].
Qed.

Lemma procRun_app p e1 e2 : procRun timeout p (e1 ++ e2) = procRun timeout (procRun timeout p e1) e2.
Proof. apply foldl_app. Qed.

Lemma inTime_split e1 x e2 y : inTime (e1 ++ x :: e2) -> y ∈ e1 ++ x :: e2 -> x.1 < y.1 -> y ∈ e2.
Proof.
  induction e1 as [|z e1 IH]; intros Hs Hin Hlt; cbn in Hs, Hin.
  - apply elem_of_cons in Hin as [->|Hin]; [lia|done].
  - apply StronglySorted_inv in Hs as [Hs Hz]. apply elem_of_cons in Hin as [->|Hin]; [|by apply IH].
    rewrite Forall_forall in Hz. specialize (Hz x ltac:(set_solver)). lia.
Qed.

Lemma frozen_app e1 e2 : frozen (e1 ++ e2) -> frozen e1 /\ frozen e2.
Proof. apply Forall_app. Qed.

(** C16. A keeper that freezes is restarted: if from some point on no cycle
    ends and nobody stops the process, it has exited with code 1 once the
    watchdog's limit, one check interval and the alert's six seconds have
    passed since the last cycle ended; whether or not the alert gets out. *)
Theorem frozen_keeper_exits p events T :
  0 <= timeout -> isRunning p = true -> shuttingDown p = false -> exited p = None ->
  inTime events -> frozen events -> timersRun (lastCycleCompletedAt p) T events ->
  lastCycleCompletedAt p + timeout + WATCHDOG_CHECK_INTERVAL_MS + HARD_EXIT_MS <= T ->
  exited (procRun timeout p events) = Some 1.
Proof.
  intros H0 H1 H2 H3 Hs Hf [Hchecks Hfire] HT.
  destruct (Hchecks (lastCycleCompletedAt p + timeout) ltac:(lia) ltac:(unfold HARD_EXIT_MS in HT; lia)) as (c & Hc & Hin).
  pose proof (Hfire c Hin ltac:(lia)) as Hin'. apply list_elem_of_split in Hin as (e1 & e2 & ->).
  apply (inTime_split e1 (c, WatchdogCheck) e2 _ Hs) in Hin'; [|cbn; unfold HARD_EXIT_MS; lia].
  apply list_elem_of_split in Hin' as (e3 & e4 & ->).
  apply frozen_app in Hf as [Hf1 [_ [Hf3 [_ _]%Forall_cons]%frozen_app]%Forall_cons].
  assert (stillFrozen p p) as Hpp by (right; by split_and!).
  pose proof (stillFrozen_run e1 p p Hf1 Hpp) as Hp1. rewrite procRun_app. set (p1 := procRun timeout p e1) in *.
  change ((c, WatchdogCheck) :: e3 ++ (c + HARD_EXIT_MS, HardExit) :: e4)
    with ([(c, WatchdogCheck)] ++ e3 ++ [(c + HARD_EXIT_MS, HardExit)] ++ e4). rewrite !procRun_app. apply exited_stays.
  destruct Hp1 as [Hx|(Hx & Hr & Hsd & Hl & _)]; [by do 3 apply exited_stays|].
  set (p2 := procRun timeout p1 [(c, WatchdogCheck)]).
  assert (exited p2 = None /\ isRunning p2 = true /\ shuttingDown p2 = false /\ c + HARD_EXIT_MS ∈ hardExits p2) as (G1 & G2 & G3 & G4).
  { unfold p2. cbn [procRun foldl]. unfold procStep. rewrite Hx. rewrite bool_decide_eq_false_2 by (by intros [? ?]).
    unfold checkWatchdog. rewrite Hr, Hsd, Hl. cbn [negb orb]. destruct (Z.leb_spec (c - lastCycleCompletedAt p) timeout); [lia|].
    cbn. split_and!; try done. set_solver. }
  pose proof (stillFrozen_run e3 p2 p2 Hf3 ltac:(right; by split_and!)) as [Hx3|(Hx3 & _ & _ & _ & Hd)]; [by apply exited_stays|].
  cbn [procRun foldl]. unfold procStep. rewrite Hx3. rewrite bool_decide_eq_false_2 by (by intros [? ?]).
  assert (existsb (fun d => d <=? c + HARD_EXIT_MS) (hardExits (procRun timeout p2 e3)) = true) as ->; [|done].
  apply existsb_exists. exists (c + HARD_EXIT_MS). split; [apply list_elem_of_In, Hd, G4|]. apply Z.leb_refl.
Qed.

(** A watchdog check that found the limit passed. *)
Definition foundFrozen (t0 : Z) (events : list (Z * ProcessEvent)) : Prop :=
  exists e1 c e2, events = e1 ++ (c, WatchdogCheck) :: e2 /\ t0 + timeout < c
    /\ forall t, (t, CycleEnded) ∈ e1 -> t + timeout < c.

Definition stopped (events : list (Z * ProcessEvent)) : Prop := exists t, (t, Signalled) ∈ events.

Lemma foundFrozen_snoc t0 events e : foundFrozen t0 events -> foundFrozen t0 (events ++ [e]).
Proof. intros (e1 & c & e2 & -> & H). exists e1, c, (e2 ++ [e]). by rewrite <- app_assoc. Qed.

Lemma stopped_snoc events e : stopped events -> stopped (events ++ [e]).
Proof. intros [t Ht]. exists t. set_solver. Qed.

Record Justified (t0 : Z) (events : list (Z * ProcessEvent)) (p : Proc) : Prop := {
  j_timers : hardExits p <> [] -> foundFrozen t0 events;
  j_stop : shuttingDown p = true -> stopped events;
  j_exit : forall n, exited p = Some n -> n = 0 /\ stopped events \/ n = 1 /\ foundFrozen t0 events;
  j_last : exited p = None -> t0 <= lastCycleCompletedAt p /\ forall t, (t, CycleEnded) ∈ events -> t <= lastCycleCompletedAt p }.

Lemma inTime_snoc events t e : inTime (events ++ [(t, e)]) -> inTime events /\ Forall (fun x => x.1 <= t) events.
Proof.
  induction events as [|x events IH]; intros Hs; [by split; [constructor|]|]. cbn in Hs. apply StronglySorted_inv in Hs as [Hs Hx].
  destruct (IH Hs) as [H1 H2]. apply Forall_app in Hx as [Hx [Ht _]%Forall_cons]. split; constructor; done.
Qed.

Lemma justified_later t0 events p e : Justified t0 events p -> e.2 <> CycleEnded -> Justified t0 (events ++ [e]) p.
Proof.
  intros [J1 J2 J3 J4] He. constructor.
  - intros H. by apply foundFrozen_snoc, J1.
  - intros H. by apply stopped_snoc, J2.
  - intros n H. destruct (J3 n H) as [[-> H']|[-> H']]; [left|right]; (split; [done|]); [by apply stopped_snoc|by apply foundFrozen_snoc].
  - intros H. destruct (J4 H) as [H1 H2]. split; [done|]. intros t [Ht|<-%list_elem_of_singleton]%elem_of_app; [by apply H2|done].
Qed.

Lemma justified_step t0 events p t e : t0 <= t -> Forall (fun x => x.1 <= t) events ->
  Justified t0 events p -> Justified t0 (events ++ [(t, e)]) (procStep timeout p (t, e)).
Proof.
  intros Ht0 Ht J. unfold procStep. case_bool_decide as Hx.
  { destruct Hx as [n Hn]. destruct J as [J1 J2 J3 J4]. constructor; [intros H; by apply foundFrozen_snoc, J1|intros H; by apply stopped_snoc, J2| |by rewrite Hn].
    intros m H. destruct (J3 m H) as [[-> H']|[-> H']]; [left|right]; (split; [done|]); [by apply stopped_snoc|by apply foundFrozen_snoc]. }
  assert (exited p = None) as Hn by (destruct (exited p); [destruct Hx; by eexists|done]). clear Hx.
  destruct J as [J1 J2 J3 J4]. destruct (J4 Hn) as [Hl1 Hl2].
  assert (e <> CycleEnded -> Justified t0 (events ++ [(t, e)]) p) as Hsame by (intros He; apply justified_later; [by constructor|done]).
  destruct e.
  - constructor; cbn.
    + intros H. by apply foundFrozen_snoc, J1.
    + intros H. by apply stopped_snoc, J2.
    + intros n H. congruence.
    + intros _. split; [done|]. intros t' [H|[= ->]%list_elem_of_singleton]%elem_of_app; [|done].
      rewrite Forall_forall in Ht. by apply (Ht _ H).
  - unfold checkWatchdog. destruct (_ || _); [by apply Hsame|]. destruct (Z.leb_spec (t - lastCycleCompletedAt p) timeout) as [|Hlate]; [by apply Hsame|].
    constructor; cbn.
    + intros _. exists events, t, []. split_and!; [done|lia|]. intros t' H'. specialize (Hl2 t' H'). lia.
    + intros H. by apply stopped_snoc, J2.
    + intros n H. congruence.
    + intros _. split; [done|]. intros t' [H| H%list_elem_of_singleton]%elem_of_app; [by apply Hl2|done].
  - destruct (hardExits p) as [|d ds] eqn:Hd; [by apply Hsame|]. constructor; cbn.
    + intros _. by apply foundFrozen_snoc, J1.
    + intros H. by apply stopped_snoc, J2.
    + intros n [= <-]. right. split; [done|]. by apply foundFrozen_snoc, J1.
    + done.
  - destruct (existsb _ _) eqn:Hd; [|by apply Hsame]. assert (hardExits p <> []) as Hne by (intros H; by rewrite H in Hd).
    constructor; cbn.
    + intros _. by apply foundFrozen_snoc, J1.
    + intros H. by apply stopped_snoc, J2.
    + intros n [= <-]. right. split; [done|]. by apply foundFrozen_snoc, J1.
    + done.
  - unfold stop. destruct (shuttingDown p) eqn:Hs; [by apply Hsame|]. constructor; cbn.
    + intros H. by apply foundFrozen_snoc, J1.
    + intros _. exists t. set_solver.
    + intros n H. congruence.
    + intros _. split; [done|]. intros t' [H| H%list_elem_of_singleton]%elem_of_app; [by apply Hl2|done].
  - destruct (shuttingDown p) eqn:Hs; [|by apply Hsame]. constructor; cbn.
    + intros H. by apply foundFrozen_snoc, J1.
    + intros _. by apply stopped_snoc, J2.
    + intros n [= <-]. left. split; [done|]. by apply stopped_snoc, J2.
    + done.
Qed.

Lemma justified_run t0 events : inTime events -> Forall (fun e => t0 <= e.1) events -> Justified t0 events (procRun timeout (startedAt t0) events).
Proof.
  induction events as [|[t e] events IH] using rev_ind; intros Hs Hl.
  - constructor; [done|done|done|]. intros _. cbn. split; [lia|]. by intros t ?%elem_of_nil.
  - apply inTime_snoc in Hs as [Hs Ht]. apply Forall_app in Hl as [Hl [H0 _]%Forall_cons]. rewrite procRun_app.
    apply justified_step; [done|done|by apply IH].
Qed.

(** The process never exits without a cause, whatever the order of timers,
    signals and alerts: with code 0 only after a signal, with code 1 only
    after a watchdog check more than the limit after the start and after the
    end of every cycle before it; so a keeper whose cycles end in time is not
    restarted. *)
Theorem exits_have_a_cause t0 events n :
  inTime events -> Forall (fun e => t0 <= e.1) events ->
  exited (procRun timeout (startedAt t0) events) = Some n ->
  n = 0 /\ stopped events \/ n = 1 /\ foundFrozen t0 events.
Proof. intros Hs Hl. apply (j_exit _ _ _ (justified_run t0 events Hs Hl)). Qed.
End watchdog_facts.

(** ** Concrete runs *)

(** A process that started at 0 with a limit of a minute and hangs in its
    first cycle. *)
Definition hung : list (Z * ProcessEvent) :=
  [(30000, WatchdogCheck); (36000, HardExit); (60000, WatchdogCheck); (66000, HardExit); (90000, WatchdogCheck); (96000, HardExit)].

Lemma frozen_keeper_exits_witness : exited (procRun 60000 (startedAt 0) hung) = Some 1.
Proof.
  refine (frozen_keeper_exits 60000 (startedAt 0) hung 96000 _ eq_refl eq_refl eq_refl _ _ _ _).
  - lia.
  - repeat constructor; cbn; lia.
  - repeat constructor.
  - split.
    + cbn. intros x H0 Hx. unfold WATCHDOG_CHECK_INTERVAL_MS in *. unfold hung.
      destruct (decide (x < 30000)); [exists 30000; split; [lia|set_solver]|].
      destruct (decide (x < 60000)); [exists 60000; split; [lia|set_solver]|]. exists 90000. split; [lia|set_solver].
    + unfold hung, HARD_EXIT_MS. intros c Hc HT.
      repeat (apply elem_of_cons in Hc as [Hc|Hc]; [first [discriminate Hc | injection Hc as ->; set_solver]|]). by apply elem_of_nil in Hc.
  - vm_compute. discriminate.
Defined.

(** Two cycles end in time; the process is then stopped, its alert slow. *)
Definition quietDay : list (Z * ProcessEvent) :=
  [(20000, CycleEnded); (30000, WatchdogCheck); (55000, CycleEnded); (60000, WatchdogCheck); (80000, Signalled);
   (81000, Signalled); (90000, WatchdogCheck); (99000, StopAlertSettled); (99001, CycleEnded)].

Lemma exits_have_a_cause_witness :
  exited (procRun 60000 (startedAt 0) quietDay) = Some 0 /\ stateSaved (procRun 60000 (startedAt 0) quietDay) = true /\ stopped quietDay.
Proof.
  split_and!; [vm_compute; reflexivity..|].
  destruct (exits_have_a_cause 60000 0 quietDay 0) as [[_ H]|[H _]]; [| |vm_compute; reflexivity|exact H|discriminate H].
  - repeat constructor; cbn; lia.
  - repeat constructor; cbn; lia.
Defined.

(** A signal that arrives between the watchdog's alert and its exit can win:
    the hung process then exits with code 0, not 1. *)
Example a_signal_can_hide_the_freeze :
  exited (procRun 60000 (startedAt 0) [(90000, WatchdogCheck); (91000, Signalled); (92000, StopAlertSettled); (96000, HardExit)]) = Some 0.
Proof. vm_compute. reflexivity. Qed.

(** A file with a broken price, a broken walk and a good price. *)
Example broken_entries_are_skipped :
  let price p s t := JObject [("price", JNumber p); ("priceScaled", JString s); ("timestamp", JNumber t)]%string in
  let s := loadKeeperState (Some (Ok (JObject
    [("lastPushedPrices", JObject [("BTC", price (lit 50000 0) "500000000000" (lit 9 0)); ("ETH", price (lit 0 0) "1" (lit 9 0));
                                   ("XLM", price (lit 1 0) "-1" (lit 9 0)); ("SOL", JNull)]);
     ("lastFundingSubmitTime", JString "9"); ("discovery", JObject [("positions", JNull)])]%string))) in
  (fst <$> map_to_list (st_lastPushedPrices s)) = ["BTC"%string] /\ st_lastFundingSubmitTime s = None /\ st_discovery s = None
  /\ loadKeeperState (Some (Ok JNull)) = emptyKeeperState.
Proof. vm_compute. by split_and!. Qed.

(** Loading lets a configuration without a market through with a warning that
    liquidations and orders will not work; [start] then refuses to run. *)
Example no_market_warned_then_refused : exists c,
  loadConfig (envOf [("KEEPER_SECRET_KEY", "S"); ("NEXT_PUBLIC_NOERACLE_ID", "CN")]%string) stay None = inr c /\ startRefused c = Some 1.
Proof. eexists. split; vm_compute; reflexivity. Qed.

Definition steadyWorld : World := {|
  w_now := fun h => Z.of_nat (S (length h mod 8));
  w_sim := @w_sim bitcoinWorld; w_exec := @w_exec bitcoinWorld; w_int := @w_int bitcoinWorld; w_optInt := @w_optInt bitcoinWorld;
  w_bool := @w_bool bitcoinWorld; w_number := @w_number bitcoinWorld; w_position := @w_position bitcoinWorld;
  w_order := @w_order bitcoinWorld; w_idList := @w_idList bitcoinWorld; w_ids := @w_ids bitcoinWorld; w_rounds := @w_rounds bitcoinWorld |}.

Lemma steady_clock : clockWorks (W := steadyWorld).
Proof. intros h. cbn -[Nat.modulo]. pose proof (Nat.mod_upper_bound (length h) 8 ltac:(lia)). lia. Qed.

Lemma staging_bands : bandsPositive (phaseConfig stagingConfig).
Proof. repeat (constructor; [vm_compute; discriminate|]). constructor. Qed.

Lemma newBot_prices : pricesOk newBot.
Proof. apply map_Forall_empty. Qed.

Definition afterPush : Bot := (updateOraclePrices (W := steadyWorld) (phaseConfig stagingConfig) newBot []).1.2.

Lemma breaker_survives_restart_witness : exists a, a ∈ KeeperEffects.assets (phaseConfig stagingConfig)
  /\ "BTC/USD"%string = pairOf (symbol a)
  /\ withinJump (W := steadyWorld) (phaseConfig stagingConfig) (lastPushedPrices (oracleS afterPush)) [] a bitcoin collectedActions.
Proof.
  destruct (breaker_survives_restart (W := steadyWorld) (phaseConfig stagingConfig) newBot [] emptyDiscoveryState 5 []
    [FetchNoeracle; GetReferencePrice "BTC"; GetStorkPrice "BTC"; Now] [bitcoin]
    (drop 5 (updateOraclePrices (W := steadyWorld) (phaseConfig stagingConfig)
        (seed (loadKeeperState (Some (Ok (stateJson afterPush emptyDiscoveryState)))) 5) []).2)
    steady_clock staging_bands newBot_prices) as [Hp H].
  refine (H _ _ bitcoin _).
  - split_and!; [exact Hp|vm_compute; done..| |].
    + split; [vm_compute; discriminate|constructor].
    + split; [vm_compute; discriminate|constructor].
  - vm_compute. reflexivity.
  - left.
Defined.

Lemma restart_restores_the_memory_witness : exists p,
  currentPrices (oracleS (seed (loadKeeperState (Some (Ok (stateJson afterPush emptyDiscoveryState)))) 5)) !! "BTC"%string = Some p
  /\ price p = lit 50000 0.
Proof.
  destruct (restart_restores_the_memory afterPush emptyDiscoveryState 5) as [H _].
  - split_and!; [apply (update_maintains (W := steadyWorld) (phaseConfig stagingConfig) steady_clock staging_bands newBot [] newBot_prices)|vm_compute; done..| |].
    + split; [vm_compute; discriminate|constructor].
    + split; [vm_compute; discriminate|constructor].
  - rewrite H. eexists. split; vm_compute; reflexivity.
Defined.
