(* ===== verification/ApiHealth.v ===== *)
(** * The health of the exchange as the gateway shows it

    api/src/services/keeperStatus.ts, oracle.ts, markets.ts and the routes
    oracleHealth.ts, oracle.ts and markets.ts, with the heartbeat the keeper
    posts (scripts/keeper/src/index.ts and heartbeat.ts). What the chain
    answers to a price read is an argument, as is the digest secrets are
    compared by. Requests are handled one after the other. *)

From Stdlib Require Import SpecFloat QArith.
From S2P Require Import Prelude JsText ApiBoard WebErrors JsNumber Health KeeperEffects KeeperLiquidations KeeperCycle KeeperConfig KeeperProcess.
Open Scope Z_scope.
Open Scope js_scope.

(** ** Keeper self-reports (services/keeperStatus.ts) *)

Notation Body := (list (string * Json)).

(** [KeeperStatusStore]: the last body with the time it was received. *)
Definition KeeperStatusStore := option (Z * Body).

Definition record (body : Body) (receivedAt : Z) (s : KeeperStatusStore) : KeeperStatusStore := Some (receivedAt, body).

Definition CUSTODY_STALE_MS : Z := 5 * 60000.

(** [/^-?\d+$/.test(s)] *)
Definition intText (s : string) : bool :=
  match s with String "-" s' => allDigits s' | _ => allDigits s end.

Definition AMOUNT_FIELDS : list string :=
  ["marketUsdcBalance"; "trackedCustody"; "isolatedCollateral"; "crossBalances"; "orderEscrow"; "deficit"]%string.

(** [Number.isInteger(v)], with the integer. *)
Definition integerOf (v : option Json) : option Z :=
  match v with
  | Some (JNumber (S754_zero _)) => Some 0
  | Some (JNumber (S754_finite s m e)) =>
      if (0 <=? e) || (Zpos m mod 2 ^ (- e) =? 0) then floorZ (S754_finite s m e) else None
  | _ => None
  end.

Record ServedCustody := {
  amounts : list (string * string); sc_positions : Z; sc_asOf : Z; ageMs : Z; sc_stale : bool }.

Definition amountField (c : Json) (key : string) : option (string * string) :=
  match memberIfAny (Some c) key with
  | Some (JString v) => if intText v then Some (key, v) else None
  | _ => None
  end.

(** [custody] *)
Definition custody (now : Z) (s : KeeperStatusStore) : option ServedCustody :=
  match s with
  | None => None
  | Some (receivedAt, body) =>
      match memberIfAny (Some (JObject body)) "custody" with
      | Some (JObject _ as c) | Some (JArray _ as c) =>
          amounts ← mapM (amountField c) AMOUNT_FIELDS;
          positions ← integerOf (memberIfAny (Some c) "positions");
          asOf ← integerOf (memberIfAny (Some c) "asOf");
          let age := Z.max 0 (now - receivedAt) in
          Some {| amounts := amounts; sc_positions := positions; sc_asOf := asOf; ageMs := age; sc_stale := CUSTODY_STALE_MS <? age |}
      | _ => None
      end
  end.

(** ** The keeper's heartbeat *)

Definition custodyJson (r : option CustodyReport) : Json :=
  match r with
  | None => JNull
  | Some r =>
      JObject [("marketUsdcBalance", JString (decimalOfZ (marketUsdcBalance r))); ("trackedCustody", JString (decimalOfZ (trackedCustody r)));
               ("isolatedCollateral", JString (decimalOfZ (isolatedCollateral r))); ("crossBalances", JString (decimalOfZ (crossBalances r)));
               ("orderEscrow", JString (decimalOfZ (orderEscrow r))); ("deficit", JString (decimalOfZ (deficit r)));
               ("positions", JNumber (numberOfZ (reportPositions r))); ("asOf", JNumber (numberOfZ (asOf r)))]%string
  end.

Definition statJson (b : Bot) (name : string) : string * Json := (name, JNumber (numberOfZ (default 0 (stats b !! name)))).

(** The payload of [sendHeartbeat] after an oracle cycle; [stork] is what
    [getStorkStatus] gives. *)
Definition heartbeatBody (b : Bot) (now : Z) (pushed : list string) (stork : Json) : Body :=
  [("ts", JNumber (numberOfZ now)); ("pushed", JArray (JString <$> pushed)); ("stork", stork);
   ("stats", JObject (statJson b <$> ["oracleUpdates"; "priceSkips"; "errors"]));
   ("custody", custodyJson (lastCustody (cycleS b)))]%string.

(** [sendHeartbeat]: the secret and the body posted, if there is a URL. *)
Definition sendHeartbeat (c : KeeperConfig) (body : Body) : option (string * Body) :=
  if truthy (heartbeatUrl c) then Some (heartbeatSecret c, body) else None.

Section gateway.
(** sha256 of a text. *)
Variable digest : string -> string.

(** [secretsMatch] *)
Definition secretsMatch (presented expected : string) : bool := String.eqb (digest presented) (digest expected).

(** POST /v1/oracle/heartbeat *)
Definition heartbeatRoute (secret presented : option string) (body : Body) (now : Z) (s : KeeperStatusStore) : Z * KeeperStatusStore :=
  let expected := default ""%string secret in
  if negb (truthy expected) then (503, s)
  else
    match presented with
    | Some p => if secretsMatch p expected then (204, record body now s) else (401, s)
    | None => (401, s)
    end.
End gateway.

(** ** Prices (services/oracle.ts, markets.ts, routes/oracle.ts) *)

Record OraclePrice := { op_asset : string; op_price : Z; op_priceFloat : number; op_timestamp : Z }.

Definition PRICE_TTL_MS : Z := 3000.

(** [fromPrecision] with the default of seven decimals (shared/precision.ts). *)
Definition fromPrecision (value : Z) : number := divN (numberOfZ value) (numberOfZ 10000000).

(** [fetch]: the pair the shim answered, or the error of the read. *)
Definition fetch (asset : string) (answer : Result (Z * Z)) : Result OraclePrice :=
  match answer with
  | inl e => Err e
  | inr (price, timestamp) =>
      Ok {| op_asset := asset; op_price := price; op_priceFloat := fromPrecision price; op_timestamp := timestamp |}
  end.

(** [getPrice], the read ending at [loaded]. *)
Definition getPrice (asset : string) (now loaded : Z) (answer : Result (Z * Z)) (c : TtlCache OraclePrice)
  : Result OraclePrice * TtlCache OraclePrice :=
  getOrLoad PRICE_TTL_MS asset now loaded (fetch asset answer) c.

(** [SUPPORTED_ASSETS] of packages/shared/src/assets.ts: symbol and decimals. *)
Definition SUPPORTED_ASSETS : list (string * Z) :=
  [("BTC", 8); ("ETH", 8); ("XLM", 7); ("SOL", 7); ("XRP", 7); ("ADA", 7); ("BNB", 7); ("TRX", 7); ("HYPE", 7); ("DOGE", 7);
   ("ZEC", 7); ("LINK", 7); ("BCH", 7); ("LTC", 7)]%string.

Definition isSupportedAsset (symbol : string) : bool := bool_decide (symbol ∈ SUPPORTED_ASSETS.*1).

(** A price as it is sent: asset, price, price as a number, time. *)
Definition priceJson (p : OraclePrice) : string * string * number * Z := (op_asset p, decimalOfZ (op_price p), op_priceFloat p, op_timestamp p).

(** GET /v1/markets/:asset/price: [None] is 404 *)
Definition priceRoute (asset : string) (prices : string -> Result OraclePrice) : Result (option (string * string * number * Z)) :=
  let symbol := ApiAccess.upper asset in
  if negb (isSupportedAsset symbol) then Ok None
  else
    match prices symbol with
    | inl e => Err e
    | inr p => Ok (Some (priceJson p))
    end.

(** [summary] of services/markets.ts *)
Definition summary (prices : string -> Result OraclePrice) (symbol : string) : Result (option (string * Z * OraclePrice)) :=
  match List.find (fun a => String.eqb a.1 symbol) SUPPORTED_ASSETS with
  | None => Ok None
  | Some a => match prices symbol with inl e => Err e | inr p => Ok (Some (a, p)) end
  end.

(** [getAllPrices]: the price of every asset, or the first error. *)
Fixpoint allPrices {A} (prices : string -> Result OraclePrice) (assets : list (string * A)) : Result (list OraclePrice) :=
  match assets with
  | [] => Ok []
  | a :: assets =>
      match prices a.1 with
      | inl e => Err e
      | inr p => match allPrices prices assets with inl e => Err e | inr l => Ok (p :: l) end
      end
  end.
Definition getAllPrices (prices : string -> Result OraclePrice) : Result (list OraclePrice) := allPrices prices SUPPORTED_ASSETS.

(** [summaries] *)
Definition summaries (prices : string -> Result OraclePrice) : Result (list (string * Z * OraclePrice)) :=
  match getAllPrices prices with inl e => Err e | inr l => Ok (zip SUPPORTED_ASSETS l) end.

(** GET /v1/oracle/prices *)
Definition pricesRoute (prices : string -> Result OraclePrice) : Result (list (string * string * number * Z)) :=
  match getAllPrices prices with inl e => Err e | inr l => Ok (priceJson <$> l) end.

(** GET /v1/markets *)
Definition marketsRoute (prices : string -> Result OraclePrice) : Result (list ((string * Z) * (string * string * number * Z))) :=
  match summaries prices with inl e => Err e | inr l => Ok ((fun s => (s.1, priceJson s.2)) <$> l) end.

(** GET /v1/markets/:asset: [None] is 404 *)
Definition marketRoute (asset : string) (prices : string -> Result OraclePrice)
  : Result (option ((string * Z) * (string * string * number * Z))) :=
  match summary prices (ApiAccess.upper asset) with
  | inl e => Err e
  | inr None => Ok None
  | inr (Some (a, p)) => Ok (Some (a, priceJson p))
  end.

(** ** GET /v1/oracle/health *)

Definition ONCHAIN_STALE_SEC : Z := 60.
Definition KEEPER_STALE_MS : Z := 120000.

Record AssetHealth := {
  ah_asset : string; ah_priceFloat : option number; ah_ageSec : option Z; ah_stale : bool; ah_error : option string }.

Definition assetHealth (nowSec : Z) (prices : string -> Result OraclePrice) (asset : string) : AssetHealth :=
  match prices asset with
  | inr p =>
      let age := Z.max 0 (nowSec - op_timestamp p) in
      {| ah_asset := asset; ah_priceFloat := Some (op_priceFloat p); ah_ageSec := Some age; ah_stale := ONCHAIN_STALE_SEC <? age; ah_error := None |}
  | inl _ =>
      {| ah_asset := asset; ah_priceFloat := None; ah_ageSec := None; ah_stale := true; ah_error := Some "read_failed"%string |}
  end.

Record HealthReply := {
  hr_code : Z; hr_status : string; hr_staleCount : nat; hr_assets : list AssetHealth;
  hr_configured : bool; hr_keeperAgeMs : option Z; hr_keeperStale : bool; hr_lastReport : option Body }.

(** The prices are read at [nowMs]; the rest happens at [later]. *)
Definition healthRoute (secret strict : option string) (nowMs later : Z) (prices : string -> Result OraclePrice) (s : KeeperStatusStore)
  : HealthReply :=
  let assets := assetHealth (nowMs / 1000) prices <$> SUPPORTED_ASSETS.*1 in
  let staleCount := length (bfilter ah_stale assets) in
  let configured := truthy (default ""%string secret) in
  let age := (fun h => later - h.1) <$> s in
  let keeperStale := configured && match age with None => true | Some a => KEEPER_STALE_MS <? a end in
  let status :=
    if Nat.eqb staleCount (length assets) then "down"
    else if (0 <? staleCount)%nat || keeperStale || negb configured then "degraded" else "ok" in
  {| hr_code := if truthy (default ""%string strict) && negb (String.eqb status "ok") then 503 else 200;
     hr_status := status; hr_staleCount := staleCount; hr_assets := assets; hr_configured := configured;
     hr_keeperAgeMs := age; hr_keeperStale := keeperStale; hr_lastReport := snd <$> s |}.

(** ** GET /v1/markets/stats *)

(** The row of an asset with its capacity, the pool, solvency and custody: a
    block that could not be read is left out. *)
Record MarketsStats {A C P S : Type} := {
  ms_rows : list (A * option C); ms_pool : option P; ms_solvency : S; ms_custody : option ServedCustody }.
Arguments MarketsStats : clear implicits.

Definition marketsStats {A C P S} (assetOf : A -> string) (stats : Result (list A)) (solvency : Result S)
    (snapshot : Result (option (P * list (string * C)))) (now : Z) (store : KeeperStatusStore) : Result (MarketsStats A C P S) :=
  match stats, solvency, snapshot with
  | inr rows, inr solvency, inr snapshot =>
      let capacityOf a := match snapshot with
        | Some (_, l) => snd <$> List.find (fun e => String.eqb e.1 (assetOf a)) l
        | None => None
        end in
      Ok {| ms_rows := (fun a => (a, capacityOf a)) <$> rows; ms_pool := fst <$> snapshot;
            ms_solvency := solvency; ms_custody := custody now store |}
  | inl e, _, _ | _, inl e, _ | _, _, inl e => Err e
  end.

(** ** Lemmas *)

Lemma integerOf_number z : 0 <= z < 2 ^ 53 -> integerOf (Some (JNumber (numberOfZ z))) = Some z.
Proof.
  intros Hz. destruct (decide (z = 0)) as [->|Hne]; [reflexivity|].
  assert (0 < z < 2 ^ 53) as Hz' by lia. pose proof (floorZ_numberOfZ z Hz') as Hf.
  destruct (numberOfZ_nearest z Hz') as (m & e & He & Hm & Hrange & _). unfold integerOf. rewrite He in Hf |- *.
  destruct (0 <=? e) eqn:H0; cbn [orb]; [done|].
  pose proof (nearest_integer _ _ (numberOfZ_nearest z Hz') Hz') as Hv. rewrite He in Hv. cbn [val signed] in Hv.
  assert (Zpos m mod 2 ^ (- e) = 0) as ->; [|by rewrite Z.eqb_refl].
  apply Z.leb_gt in H0. assert (Zpos m = z * 2 ^ (- e)) as ->; [|apply Z_mod_mult].
  apply (inject_Z_injective _ _). rewrite inject_Z_mult, <- pow2_Z by lia. rewrite <- Hv, <- Qmult_assoc, <- pow2_add.
  replace (e + - e) with 0 by lia. change (pow2 0) with 1%Q. ring.
Qed.

Lemma intText_decimal z : intText (decimalOfZ z) = true.
Proof.
  destruct (Z.le_gt_cases 0 z) as [Hz|Hz].
  - destruct (decimalOfZ z) as [|c s] eqn:Hd; [by destruct (decimalOfZ_digits z Hz) as [_ []]|].
    pose proof (allDigits_decimal z Hz) as Ha. rewrite Hd in Ha. unfold intText.
    destruct c as [[] [] [] [] [] [] [] []]; first [exact Ha | discriminate Ha].
  - destruct z as [|p|p]; [lia..|]. pose proof (allDigits_decimal (Zpos p) ltac:(lia)) as Ha. exact Ha.
Qed.

Lemma amountField_find c key v : memberIfAny (Some c) key = Some (JString (decimalOfZ v)) -> amountField c key = Some (key, decimalOfZ v).
Proof. intros H. unfold amountField. by rewrite H, intText_decimal. Qed.

(** The report as it is served. *)
Definition shown (r : CustodyReport) (received now : Z) : ServedCustody :=
  let age := Z.max 0 (now - received) in
  {| amounts := [("marketUsdcBalance", decimalOfZ (marketUsdcBalance r)); ("trackedCustody", decimalOfZ (trackedCustody r));
                 ("isolatedCollateral", decimalOfZ (isolatedCollateral r)); ("crossBalances", decimalOfZ (crossBalances r));
                 ("orderEscrow", decimalOfZ (orderEscrow r)); ("deficit", decimalOfZ (deficit r))]%string;
     sc_positions := reportPositions r; sc_asOf := asOf r; ageMs := age; sc_stale := CUSTODY_STALE_MS <? age |}.

Lemma custody_of_report b t pushed stork received now s r :
  lastCustody (cycleS b) = Some r -> 0 <= reportPositions r < 2 ^ 53 -> 0 <= asOf r < 2 ^ 53 ->
  custody now (record (heartbeatBody b t pushed stork) received s) = Some (shown r received now).
Proof.
  intros Hr Hp Ha. unfold custody, record. 
  assert (memberIfAny (Some (JObject (heartbeatBody b t pushed stork))) "custody" = Some (custodyJson (Some r))) as -> by (unfold heartbeatBody; by rewrite Hr).
  cbn [custodyJson]. set (c := JObject _).
  assert (mapM (amountField c) AMOUNT_FIELDS = Some (amounts (shown r received now))) as ->.
  { unfold AMOUNT_FIELDS. cbn [mapM].
    rewrite (amountField_find c "marketUsdcBalance" (marketUsdcBalance r) eq_refl), (amountField_find c "trackedCustody" (trackedCustody r) eq_refl),
      (amountField_find c "isolatedCollateral" (isolatedCollateral r) eq_refl), (amountField_find c "crossBalances" (crossBalances r) eq_refl),
      (amountField_find c "orderEscrow" (orderEscrow r) eq_refl), (amountField_find c "deficit" (deficit r) eq_refl). reflexivity. }
  change (memberIfAny (Some c) "positions") with (Some (JNumber (numberOfZ (reportPositions r)))).
  change (memberIfAny (Some c) "asOf") with (Some (JNumber (numberOfZ (asOf r)))).
  by rewrite !integerOf_number by done.
Qed.

(** A report that can be posted as it is: its time is a date, its count small. *)
Definition datedReport (o : option CustodyReport) : Prop :=
  forall r, o = Some r -> 0 <= reportPositions r < 2 ^ 53 /\ 0 <= asOf r < 2 ^ 53.
Definition dated (b : Bot) : Prop := datedReport (lastCustody (cycleS b)).

Lemma setCustody_dated t n o : datedReport o -> Maintains dated (modify (setCustody t n o)).
Proof. intros Ho b h _. exact Ho. Qed.

Lemma checkCustody_dated {W : World} config snapshot t :
  0 <= t < 2 ^ 53 -> Z.of_nat (length (s_positions snapshot)) < 2 ^ 53 -> Maintains dated (checkCustody config snapshot t).
Proof.
  intros Ht Hl. unfold checkCustody. destruct (negb _); [by intros b h|]. apply maintains_gets. intros b0 Hb0.
  destruct (_ <? CUSTODY_CHECK_INTERVAL_MS); [by intros b h|]. apply maintains_bind; [by apply setCustody_dated|]. intros _.
  apply maintains_try; [|intros e; by intros b h].
  apply maintains_bind; [apply (maintains_keeps cycleS (fun c => datedReport (lastCustody c))), sumCross_keeps|]. intros cross.
  apply maintains_bind; [apply (maintains_keeps cycleS (fun c => datedReport (lastCustody c))); unfold readInt; keeps_auto|]. intros balance.
  match goal with |- context [Some ?r] => assert (datedReport (Some r)) as Hr by (intros r' [= <-]; cbn; lia) end.
  cbv zeta. destruct (0 <? _).
  - apply maintains_bind; [by apply setCustody_dated|]. intros _.
    apply (maintains_keeps cycleS (fun c => datedReport (lastCustody c))). unfold alert. keeps_auto.
  - apply maintains_bind; [apply (maintains_keeps cycleS (fun c => datedReport (lastCustody c))); unfold alert; keeps_auto|]. intros _.
    by apply setCustody_dated.
Qed.

(** ** Theorems *)

(** C27. The custody block shown is the keeper's reckoning of the market, to
    the unit: when a check of the keeper has read the market's balance, a
    heartbeat sent after it makes the gateway serve that balance, the
    collateral held for isolated positions, cross pools and orders, their sum
    and the deficit between them, which is zero exactly when the balance covers
    them; whatever else the heartbeat carries. *)
Theorem shown_custody_is_the_keepers {W : World} config snapshot t b h b' new ts pushed stork received now s :
  0 <= t < 2 ^ 53 -> Z.of_nat (length (s_positions snapshot)) < 2 ^ 53 -> dated b ->
  checkCustody config snapshot t b h = (Ok (), b', new) -> (exists balance, checked h new balance) ->
  exists balance r, checked h new balance /\ reportExact snapshot balance r
    /\ custody now (record (heartbeatBody b' ts pushed stork) received s) = Some (shown r received now)
    /\ (("deficit", "0")%string ∈ amounts (shown r received now) <-> isolatedCollateral r + crossBalances r + orderEscrow r <= balance).
Proof.
  intros Ht Hl Hb Hrun [balance0 Hc]. pose proof (checkCustody_dated config snapshot t Ht Hl b h Hb) as Hd. rewrite Hrun in Hd. cbn in Hd.
  destruct (checkCustody_run config snapshot t b h) as (b'' & new' & Hrun' & Hcase). rewrite Hrun in Hrun'. injection Hrun' as <- <-.
  destruct Hcase as [(balance & r & Hc' & Hr & Hex & _)|(Hno & _)]; [|by destruct (Hno balance0)].
  destruct (Hd r Hr) as [Hp Ha]. exists balance, r. rewrite (custody_of_report _ _ _ _ _ _ _ r Hr Hp Ha).
  split_and!; [done..|]. destruct Hex as (Hbal & _ & _ & Htr & Hdef). rewrite <- Htr, <- Hbal.
  assert (decimalOfZ (deficit r) = "0"%string <-> deficit r = 0) as Hzero.
  { split; [|by intros ->]. intros H0. assert (zOfDecimal (decimalOfZ (deficit r)) = zOfDecimal "0") as H1 by by rewrite H0.
    rewrite zOfDecimal_decimalOfZ in H1. by injection H1. }
  unfold shown. cbn [amounts]. rewrite !elem_of_cons, elem_of_nil. split.
  - intros [H|[H|[H|[H|[H|[H|[]]]]]]]; try discriminate H. injection H as H. symmetry in H. apply Hzero in H. lia.
  - intros Hle. do 5 right. left. f_equal. symmetry. apply Hzero. lia.
Qed.

(** The oracle's health is "ok" exactly when nothing is wrong: a heartbeat
    secret is set, the last heartbeat is at most two minutes old, and the price
    of every supported asset was read and is at most a minute old; a strict
    request is answered 200 exactly then, and any other request always. *)
Theorem health_is_ok_exactly_when secret strict nowMs later prices s :
  let r := healthRoute secret strict nowMs later prices s in
  (hr_status r = "ok"%string <->
     truthy (default "" secret) = true
     /\ (exists received body, s = Some (received, body) /\ later - received <= KEEPER_STALE_MS)
     /\ forall a, a ∈ SUPPORTED_ASSETS.*1 -> exists p, prices a = inr p /\ nowMs / 1000 - op_timestamp p <= ONCHAIN_STALE_SEC)
  /\ (hr_code r = 200 <-> hr_status r = "ok"%string \/ truthy (default "" strict) = false).
Proof.
  intros r. set (assets := assetHealth (nowMs / 1000) prices <$> SUPPORTED_ASSETS.*1).
  assert (bfilter ah_stale assets = [] <->
    forall a, a ∈ SUPPORTED_ASSETS.*1 -> exists p, prices a = inr p /\ nowMs / 1000 - op_timestamp p <= ONCHAIN_STALE_SEC) as Hfresh.
  { unfold assets. generalize (SUPPORTED_ASSETS.*1). intros l. induction l as [|a l IH].
    - split; [|done]. by intros _ a ?%elem_of_nil.
    - cbn [fmap list_fmap bfilter List.filter]. setoid_rewrite elem_of_cons. unfold assetHealth at 1. destruct (prices a) as [e|p] eqn:Hp; cbn [ah_stale].
      + split; [done|]. intros H. destruct (H a (or_introl eq_refl)) as (p & Hp' & _). congruence.
      + destruct (Z.ltb_spec ONCHAIN_STALE_SEC (Z.max 0 (nowMs / 1000 - op_timestamp p))) as [Hs|Hs].
        * split; [done|]. intros H. destruct (H a (or_introl eq_refl)) as (p' & Hp' & Hle). rewrite Hp in Hp'. injection Hp' as <-.
          unfold ONCHAIN_STALE_SEC in *. lia.
        * unfold bfilter in IH. rewrite IH. split; [intros H x [->|Hx]; [exists p; split; [done|lia]|by apply H]|intros H x Hx; apply H; by right]. }
  assert (length assets = 14%nat) as Hlen by reflexivity.
  assert (forall st, st = "ok"%string \/ st <> "ok"%string) as Hdec by (intros st; destruct (decide (st = "ok"%string)); [by left|by right]).
  split.
  - unfold r, healthRoute. fold assets. cbn [hr_status]. rewrite <- Hfresh, Hlen. destruct (bfilter ah_stale assets) as [|x l] eqn:Hb.
    + cbn [length Nat.eqb Nat.ltb Nat.leb orb]. destruct (truthy (default "" secret)); cbn [negb andb orb]; [|split; [done|by intros (? & _)]].
      destruct s as [[received body]|]; cbn; [|split; [done|by intros (_ & (? & ? & ? & _) & _)]].
      destruct (Z.ltb_spec KEEPER_STALE_MS (later - received)) as [Hk|Hk]; cbn.
      * split; [done|]. intros (_ & (? & ? & [= <- <-] & Hle) & _). lia.
      * split; [|done]. intros _. split_and!; [done|by exists received, body|done].
    + split; [|by intros (_ & _ & ?)]. destruct (Nat.eqb _ _); [done|]. cbn. done.
  - unfold r, healthRoute. cbn [hr_code hr_status]. match goal with |- context [String.eqb ?st "ok"] => set (status := st) end.
    destruct (String.eqb_spec status "ok") as [->|Hne]; cbn [negb]; [rewrite andb_false_r; split; [by left|done]|].
    rewrite andb_true_r. destruct (truthy (default "" strict)); split; try done; [|by right].
    by intros [?|?].
Qed.

(** Only the holder of the secret reports for the keeper: a heartbeat
    changes what is shown only if a secret is set and what was presented has
    the secret's digest, and then it replaces the report by its own; where the
    digest does not collide, what was presented is the secret. *)
Theorem heartbeat_needs_the_secret digest secret presented body now s code s' :
  heartbeatRoute digest secret presented body now s = (code, s') ->
  (s' <> s -> exists k p, secret = Some k /\ truthy k = true /\ presented = Some p /\ digest p = digest k
                          /\ code = 204 /\ s' = Some (now, body))
  /\ (code = 204 \/ s' = s) /\ (code = 503 <-> truthy (default "" secret) = false).
Proof.
  unfold heartbeatRoute. destruct (truthy (default "" secret)) eqn:Ht; cbn [negb]; [|intros [= <- <-]; split_and!; [done|by right|done]].
  destruct presented as [p|]; [|intros [= <- <-]; split_and!; [done|by right|done]].
  unfold secretsMatch. destruct (String.eqb_spec (digest p) (digest (default "" secret))) as [He|];
    intros [= <- <-]; split_and!; try done; [|by left|by right].
  intros _. destruct secret as [k|]; [|done]. by exists k, p.
Qed.

(** ** Theorems: prices *)

(** Calls of [getPrice]: asset, time, the time the read ends, its answer. *)
Definition PriceCall : Type := string * Z * Z * Result (Z * Z).

Definition priceStep (c : TtlCache OraclePrice) (e : PriceCall) : TtlCache OraclePrice :=
  let '(asset, now, loaded, answer) := e in (getPrice asset now loaded answer c).2.

Definition priceRun (calls : list PriceCall) : TtlCache OraclePrice := foldl priceStep ∅ calls.

(** Every entry is the answer of a read that ended three seconds before it expires. *)
Definition fromReads (calls : list PriceCall) (c : TtlCache OraclePrice) : Prop :=
  forall asset p expires, c !! asset = Some (p, expires) ->
    exists now loaded price ts, (asset, now, loaded, Ok (price, ts)) ∈ calls /\ expires = loaded + PRICE_TTL_MS
      /\ p = {| op_asset := asset; op_price := price; op_priceFloat := fromPrecision price; op_timestamp := ts |}.

Lemma fromReads_run calls : fromReads calls (priceRun calls).
Proof.
  induction calls as [|[[[asset now] loaded] answer] calls IH] using rev_ind; [intros a p x Hx; cbn in Hx; by rewrite lookup_empty in Hx|].
  unfold priceRun. rewrite foldl_app. cbn [foldl]. fold (priceRun calls). set (c := priceRun calls) in *.
  assert (forall c', fromReads calls c' -> fromReads (calls ++ [(asset, now, loaded, answer)]) c') as Hmono.
  { intros c' H a p x Hx. destruct (H a p x Hx) as (n & l & pr & ts & Hin & Hrest). exists n, l, pr, ts. split; [set_solver|done]. }
  assert (forall c', c' ⊆ c -> fromReads calls c') as Hsub by (intros c' Hc a p x Hx; apply IH; by eapply lookup_weaken).
  unfold priceStep, getPrice, getOrLoad, cacheGet. destruct (c !! asset) as [[v x]|] eqn:Hc.
  - destruct (x <=? now); [|by apply Hmono]. destruct answer as [e|[price ts]]; cbn; [apply Hmono, Hsub, delete_subseteq|].
    intros a p y. unfold cacheSet. destruct (decide (a = asset)) as [->|Hne].
    + rewrite lookup_insert_eq. intros [= <- <-]. exists now, loaded, price, ts. split; [set_solver|done].
    + rewrite lookup_insert_ne, lookup_delete_ne by done. intros Hy. by apply (Hmono c IH).
  - destruct answer as [e|[price ts]]; cbn; [by apply Hmono|].
    intros a p y. unfold cacheSet. destruct (decide (a = asset)) as [->|Hne].
    + rewrite lookup_insert_eq. intros [= <- <-]. exists now, loaded, price, ts. split; [set_solver|done].
    + rewrite lookup_insert_ne by done. intros Hy. by apply (Hmono c IH).
Qed.

(** A price served is one the chain answered, now or less than three
    seconds ago, for the same asset, after any calls; and an error is the one of
    the read just made. *)
Theorem served_price_is_recent calls asset now loaded answer :
  match (getPrice asset now loaded answer (priceRun calls)).1 with
  | inr p => op_asset p = asset /\
      ((exists price ts, answer = Ok (price, ts) /\ op_price p = price /\ op_timestamp p = ts)
       \/ exists n l price ts, (asset, n, l, Ok (price, ts)) ∈ calls /\ now < l + PRICE_TTL_MS /\ op_price p = price /\ op_timestamp p = ts)
  | inl e => answer = Err e
  end.
Proof.
  pose proof (fromReads_run calls) as Hinv. unfold getPrice, getOrLoad, cacheGet. destruct (priceRun calls !! asset) as [[v x]|] eqn:Hc.
  - destruct (Z.leb_spec x now) as [Hx|Hx].
    + destruct answer as [e|[price ts]]; cbn; [done|]. split; [done|]. left. by exists price, ts.
    + cbn. destruct (Hinv _ _ _ Hc) as (n & l & price & ts & Hin & -> & ->). split; [done|]. right. by exists n, l, price, ts.
  - destruct answer as [e|[price ts]]; cbn; [done|]. split; [done|]. left. by exists price, ts.
Qed.

Lemma allPrices_zip {A} prices (assets : list (string * A)) l :
  allPrices prices assets = Ok l -> forall a p, (a, p) ∈ zip assets l -> prices a.1 = inr p.
Proof.
  revert l. induction assets as [|b assets IH]; intros l; cbn; [intros [= <-] a p ?%elem_of_nil; done|].
  destruct (prices b.1) as [e|q] eqn:Hb; [done|]. destruct (allPrices prices assets) as [e|l'] eqn:Hl; [done|]. intros [= <-] a p. cbn.
  rewrite elem_of_cons. intros [[= -> ->]|Hin]; [done|]. by apply (IH l').
Qed.

Lemma allPrices_length {A} prices (assets : list (string * A)) l : allPrices prices assets = Ok l -> length l = length assets.
Proof.
  revert l. induction assets as [|b assets IH]; intros l; cbn; [by intros [= <-]|].
  destruct (prices b.1); [done|]. destruct (allPrices prices assets) as [e|l'] eqn:Hl; [done|]. intros [= <-]. cbn. f_equal. by apply IH.
Qed.

Lemma find_supported (l : list (string * Z)) a : NoDup l.*1 -> a ∈ l -> List.find (fun b => String.eqb b.1 a.1) l = Some a.
Proof.
  induction l as [|b l IH]; [by intros _ ?%elem_of_nil|]. cbn. rewrite NoDup_cons, elem_of_cons. intros [Hb Hl] [->|Hin]; [by rewrite String.eqb_refl|].
  destruct (String.eqb_spec b.1 a.1) as [He|]; [|by apply IH]. destruct Hb. rewrite He. apply list_elem_of_fmap. by exists a.
Qed.

(** The price routes agree: when every price is read, a market's row in
    the list of markets, its own page and its price are the same, whichever
    case its symbol is asked in; and a symbol outside the list is not found by
    either, whatever the chain would say. *)
Theorem price_routes_agree prices asset rows :
  marketsRoute prices = Ok rows ->
  length rows = length SUPPORTED_ASSETS
  /\ (forall a q, (a, q) ∈ rows -> a.1 = ApiAccess.upper asset ->
        marketRoute asset prices = Ok (Some (a, q)) /\ priceRoute asset prices = Ok (Some q))
  /\ (isSupportedAsset (ApiAccess.upper asset) = false -> marketRoute asset prices = Ok None /\ priceRoute asset prices = Ok None).
Proof.
  unfold marketsRoute, summaries. destruct (getAllPrices prices) as [e|l] eqn:Hl; [done|]. intros Hr.
  assert (rows = (fun s => (s.1, priceJson s.2)) <$> zip SUPPORTED_ASSETS l) as -> by (unfold Ok in Hr; congruence).
  clear Hr. unfold getAllPrices in Hl. pose proof (allPrices_length _ _ _ Hl) as Hlen. split; [|split].
  - rewrite length_fmap, length_zip_with, Hlen. apply Nat.min_id.
  - intros a q Hq Ha. apply list_elem_of_fmap in Hq as ([a' p] & [= <- ->] & Hin). cbn [fst snd].
    pose proof (allPrices_zip _ _ _ Hl _ _ Hin) as Hp. apply elem_of_zip_l in Hin.
    unfold marketRoute, summary, priceRoute, isSupportedAsset. rewrite <- Ha, Hp.
    rewrite find_supported by (done || (apply (bool_decide_unpack (NoDup SUPPORTED_ASSETS.*1)); vm_compute; exact I)).
    rewrite bool_decide_true by (apply list_elem_of_fmap; by exists a). done.
  - unfold priceRoute, marketRoute, summary. intros Hs. rewrite Hs. split; [|done].
    destruct (List.find _ _) as [a|] eqn:Hf; [|done]. apply find_some in Hf as [Hin He]. apply String.eqb_eq in He.
    apply bool_decide_eq_false_1 in Hs. destruct Hs. apply list_elem_of_fmap. exists a. split; [done|]. by apply list_elem_of_In.
Qed.

(** ** Assets *)

(** The gateway's assets are the keeper's: the same symbols with the same
    decimals, in the same order, so every market served has a publisher and
    every price published is served. *)
Theorem supported_assets_are_the_keepers env : (fun a => (a_symbol a, decimals a)) <$> resolveAssets env = SUPPORTED_ASSETS.
Proof. vm_compute. reflexivity. Qed.

(** ** Concrete runs *)

Definition pricedAt (p : Z) (asset : string) : Result OraclePrice := Ok {| op_asset := asset; op_price := p; op_priceFloat := fromPrecision p; op_timestamp := 5 |}.

Lemma price_routes_agree_witness : priceRoute "doge" (pricedAt 12345678) = Ok (Some (priceJson {| op_asset := "DOGE"; op_price := 12345678; op_priceFloat := fromPrecision 12345678; op_timestamp := 5 |})).
Proof.
  destruct (price_routes_agree (pricedAt 12345678) "doge" ((fun a => (a, priceJson {| op_asset := a.1; op_price := 12345678; op_priceFloat := fromPrecision 12345678; op_timestamp := 5 |})) <$> SUPPORTED_ASSETS)) as (_ & H & _); [vm_compute; reflexivity|].
  destruct (H ("DOGE"%string, 7) (priceJson {| op_asset := "DOGE"; op_price := 12345678; op_priceFloat := fromPrecision 12345678; op_timestamp := 5 |})) as [_ H2]; [|reflexivity|exact H2].
  apply list_elem_of_fmap. exists ("DOGE"%string, 7). split; [reflexivity|]. unfold SUPPORTED_ASSETS. set_solver.
Defined.

Definition plain (s : string) : string := s.

(** A bot whose check found a deficit of 100. *)
Definition shortReport : CustodyReport := {|
  marketUsdcBalance := 900; isolatedCollateral := 700; crossBalances := 200; orderEscrow := 100;
  trackedCustody := 1000; deficit := 100; reportPositions := 2; asOf := 60000 |}.

(** The age shown is the heartbeat's, not the report's: a keeper whose custody
    reads fail keeps posting the last report it made, and two days later it is
    still served as fresh. *)
Example old_report_reads_fresh :
  let b := onCycle (fun c => {|
      lastOracleUpdate := 0; oracleUpdateInProgress := false; lastFullSweepAt := 0; consecutiveReadFailures := 0;
      fundingFailureStreak := 0; nextFundingAttemptAt := 0; lastFundingSubmitTime := 0; nextTtlBumpAt := 0;
      lastCustodyCheckAt := 0; custodyDeficitStreak := 0; lastCustody := Some shortReport |}) newBot in
  let served := custody 172801000 (record (heartbeatBody b 172800000 [] JNull) 172800000 None) in
  (sc_stale <$> served) = Some false /\ (ageMs <$> served) = Some 1000 /\ (sc_asOf <$> served) = Some 60000.
Proof. vm_compute. by split_and!. Qed.

(** A report with one malformed amount is not shown at all. *)
Example malformed_report_is_not_shown :
  custody 5 (record [("custody", JObject [("marketUsdcBalance", JString "1"); ("trackedCustody", JString "1.5")])]%string 1 None) = None /\
  custody 5 (record [("custody", JNull)]%string 1 None) = None /\ custody 5 None = None.
Proof. vm_compute. by split_and!. Qed.

(** Any text turns strictness on, "0" too. *)
Example strict_zero_is_strict :
  hr_code (healthRoute None (Some "0"%string) 0 0 (fun _ => Err "down"%string) None) = 503.
Proof. vm_compute. reflexivity. Qed.

Lemma heartbeat_needs_the_secret_witness :
  exists k, Some "hunter2"%string = Some k /\ truthy k = true.
Proof.
  destruct (heartbeat_needs_the_secret plain (Some "hunter2") (Some "hunter2") [] 7 None 204 (Some (7, [])) eq_refl) as [H _].
  destruct (H ltac:(discriminate)) as (k & p & Hk & Ht & _). by exists k.
Defined.

Lemma shown_custody_is_the_keepers_witness : exists balance r, reportExact oneLong balance r /\
  custody 200000 (record (heartbeatBody checkedOnce 61000 [] JNull) 61000 None) = Some (shown r 61000 200000).
Proof.
  destruct (shown_custody_is_the_keepers (W := poorWorld) sampleConfig oneLong 60000 emptyBot [] checkedOnce
    (checkCustody (W := poorWorld) sampleConfig oneLong 60000 emptyBot []).2 61000 [] JNull 61000 200000 None)
    as (balance & r & _ & H1 & H2 & _); [lia|vm_compute; reflexivity| |vm_compute; reflexivity| |by exists balance, r].
  - intros r H. discriminate H.
  - eexists _, [], _. split; vm_compute; reflexivity.
Defined.
