(* ===== verification/ServiceConfig.v ===== *)
(** * Configuration and start of the gateway and the indexer

    packages/shared/src/contracts.ts, rpc.ts and network.ts (which contracts
    and endpoints a service talks to), api/src/config.ts and indexer/src/config.ts
    (what the environment makes of the rest), and what api/src/server.ts and
    indexer/src/index.ts hand to their parts at the start, with the gateway's
    error replies. The environment is a function from names to values, the
    manifest contracts.json as parsed or the error of reading it. *)

From Stdlib Require Import SpecFloat.
From S2P Require Import Prelude JsText ApiStats ApiBoard ApiAccess ApiKeys ApiSockets JsNumber KeeperConfig IndexerHandlers.
Open Scope Z_scope.
Open Scope js_scope.

(** ** Numbers from variables *)

(** The digits of a literal in a base, if all are. *)
Definition hexDigit (c : ascii) : option Z :=
  let n := Z.of_N (Ascii.N_of_ascii (lowerAscii c)) in
  if (48 <=? n) && (n <=? 57) then Some (n - 48) else if (97 <=? n) && (n <=? 102) then Some (n - 87) else None.

Fixpoint radixDigits (base acc : Z) (s : string) : option Z :=
  match s with
  | EmptyString => Some acc
  | String c s => d ← hexDigit c; if d <? base then radixDigits base (acc * base + d) s else None
  end.

Definition radixNumber (base : Z) (s : string) : number :=
  match (if truthy s then radixDigits base 0 s else None) with Some z => numberOfZ z | None => S754_nan end.

(** Nothing, or an exponent to the end of the text. *)
Definition exponentEnds (s : string) : bool :=
  match s with
  | EmptyString => true
  | String ("e" | "E") s' => allDigits (signOf s').2
  | _ => false
  end.

(** [Number(s)]: the whole text is a literal, or it is not a number. *)
Definition numberOfText (s : string) : number :=
  match trim s with
  | EmptyString => S754_zero false
  | String "0" (String ("x" | "X") d) => radixNumber 16 d
  | String "0" (String ("o" | "O") d) => radixNumber 8 d
  | String "0" (String ("b" | "B") d) => radixNumber 2 d
  | s =>
      let r := (signOf s).2 in
      if String.eqb r "Infinity" then parseFloat s
      else
        let (w, r) := span isDigit r in
        let (f, r) := match r with String "." r' => span isDigit r' | _ => (EmptyString, r) end in
        if (truthy w || truthy f) && exponentEnds r then parseFloat s else S754_nan
  end.

(** ** Contracts (shared/src/contracts.ts) *)

Record Manifest := { m_network : string; m_contracts : list (string * string); m_admin : string }.

(** [manifest.contracts[key]] *)
Definition addressIn (m : Manifest) (key : string) : option string :=
  snd <$> List.find (fun e => String.eqb e.1 key) (m_contracts m).

Definition isUpper (c : ascii) : bool := let n := Ascii.N_of_ascii c in N.leb 65 n && N.leb n 90.

(** [key.replace(/[A-Z]/g, (c) => `_${c}`)] *)
Fixpoint snakeCase (s : string) : string :=
  match s with
  | EmptyString => EmptyString
  | String c s => if isUpper c then String "_" (String c (snakeCase s)) else String c (snakeCase s)
  end.

Definition contractEnvVar (key : string) : string := "CONTRACT_" +:+ ApiAccess.upper (snakeCase key).

Inductive Source := FromEnv | FromManifest | Unset.

Section env.
Variable env : string -> option string.

(** The override of a key, where one is set and not blank. *)
Definition overrideOf (key : string) : option string :=
  match env (contractEnvVar key) with
  | Some o => if truthy (trim o) then Some (trim o) else None
  | None => None
  end.

Definition getContract (m : Manifest) (key : string) : Result string :=
  match overrideOf key with
  | Some a => Ok a
  | None =>
      match given (addressIn m key) with
      | Some a => Ok a
      | None => Err ("Contract '" +:+ key +:+ "' not present in contracts.json (network: " +:+ m_network m +:+ ")")
      end
  end.

Definition hasContract (m : Manifest) (key : string) : bool :=
  match overrideOf key with
  | Some _ => true
  | None => match given (addressIn m key) with Some _ => true | None => false end
  end.

Definition resolvedManifest (m : Manifest) : Manifest :=
  let changed := existsb (fun e => match overrideOf e.1 with Some _ => true | None => false end) (m_contracts m) in
  if changed then
    {| m_network := m_network m; m_contracts := (fun e => (e.1, default e.2 (overrideOf e.1))) <$> m_contracts m; m_admin := m_admin m |}
  else m.

Definition resolvedContract (m : Manifest) (key : string) : string * Source :=
  match overrideOf key with
  | Some a => (a, FromEnv)
  | None => match given (addressIn m key) with Some a => (a, FromManifest) | None => (""%string, Unset) end
  end.

Definition resolvedContracts (keys : list string) (m : Manifest) : list (string * (string * Source)) :=
  (fun key => (key, resolvedContract m key)) <$> keys.

(** ** Networks and endpoints (network.ts, rpc.ts) *)

Definition NETWORK_PASSPHRASES : list (string * string) :=
  [("testnet", "Test SDF Network ; September 2015"); ("mainnet", "Public Global Stellar Network ; September 2015");
   ("futurenet", "Test SDF Future Network ; October 2022")]%string.

Definition DEFAULT_RPC_URLS : list (string * string) :=
  [("testnet", "https://soroban-testnet.stellar.org"); ("mainnet", "https://mainnet.sorobanrpc.com");
   ("futurenet", "https://rpc-futurenet.stellar.org")]%string.

Definition entryOf (l : list (string * string)) (key : string) : option string :=
  snd <$> List.find (fun e => String.eqb e.1 key) l.

Definition getNetworkPassphrase (network : string) : Result string :=
  match entryOf NETWORK_PASSPHRASES network with
  | Some p => Ok p
  | None => Err ("Unknown network: " +:+ network)
  end.

(** [None] is the default of a network without one, undefined. *)
Definition getRpcUrls (network : string) : list (option string) :=
  match given (env "SOROBAN_RPC_URLS") with
  | Some l => Some <$> bfilter truthy (trim <$> splitOn "," l)
  | None =>
      match given (env "SOROBAN_RPC_URL") with
      | Some u => [Some (trim u)]
      | None => [entryOf DEFAULT_RPC_URLS network]
      end
  end.

(** [rpcUrls[0]] *)
Definition rpcUrl (network : string) : option string := match getRpcUrls network with u :: _ => u | [] => None end.

(** ** The gateway's configuration (api/src/config.ts) *)

Definition DEFAULT_HMAC_PEPPER : string := "change-me-in-production".

Inductive Origin := OneOrigin (o : string) | Origins (l : list string).

Record WsLimits := { ws_maxConnections : number; ws_maxPerIp : number; ws_pingIntervalMs : number; ws_msgRate : number; ws_maxBufferedBytes : number }.

Record ApiConfig := {
  ac_network : string; ac_host : string; ac_port : number; ac_corsOrigin : Origin; ac_rpcUrls : list (option string);
  ac_sourceAccount : string; ac_databaseUrl : string; ac_contracts : Manifest; ac_ws : WsLimits;
  ac_heartbeatSecret : option string; ac_turnstileSecret : option string; ac_acsConnectionString : option string;
  ac_acsSender : option string; ac_adminWallets : list string }.

(** [process.env[name] ?? d] *)
Definition envOrElse (name d : string) : string := default d (env name).

(** [Number(process.env[name] ?? d)] *)
Definition envNumber (name : string) (d : Z) : number :=
  match env name with Some s => numberOfText s | None => numberOfZ d end.

(** [assertProductionEnv]: the error it throws, if any. *)
Definition assertProductionEnv (corsOrigin : string) : option string :=
  let pepper := default ""%string (env "API_HMAC_PEPPER") in
  if negb (truthy pepper) || String.eqb pepper DEFAULT_HMAC_PEPPER then
    Some "API_HMAC_PEPPER must be set to a non-default value in production (generate with: openssl rand -hex 32)"%string
  else if negb (truthy (trim (default ""%string (env "API_KEY_ALLOWLIST")))) then
    Some "API_KEY_ALLOWLIST must be set in production — leaving it unset opens API key issuance to anyone"%string
  else if String.eqb corsOrigin "*" then Some "API_CORS_ORIGIN must not be the wildcard default in production"%string
  else None.

Definition isProduction : bool := String.eqb (default ""%string (env "NODE_ENV")) "production".

Definition corsOriginOf (raw : string) : Origin :=
  if includes raw "," then Origins (bfilter truthy (trim <$> splitOn "," raw)) else OneOrigin raw.

Definition adminWalletsOf (raw : option string) : list string :=
  bfilter (fun s => Nat.eqb (String.length s) 56 && startsWith "G" s) (trim <$> splitOn "," (default ""%string raw)).

Definition wsLimits : WsLimits := {|
  ws_maxConnections := envNumber "WS_MAX_CONNECTIONS" 1000; ws_maxPerIp := envNumber "WS_MAX_PER_IP" 20;
  ws_pingIntervalMs := envNumber "WS_PING_INTERVAL_MS" 30000; ws_msgRate := envNumber "WS_MSG_RATE" 20;
  ws_maxBufferedBytes := envNumber "WS_MAX_BUFFERED_BYTES" 1048576 |}.

Definition NO_DATABASE : string := 
  "DATABASE_URL is not set (postgresql://…). The libsql LIBSQL_URL/LIBSQL_AUTH_TOKEN pair was retired in the Supabase migration.".

(** [loadConfig] of the gateway *)
Definition loadApiConfig (manifest : Result Manifest) : Result ApiConfig :=
  match manifest with
  | inl e => Err e
  | inr base =>
      let contracts := resolvedManifest base in
      let network := envOrElse "NETWORK" "testnet" in
      let corsOriginRaw := envOrElse "API_CORS_ORIGIN" "*" in
      match (if isProduction then assertProductionEnv corsOriginRaw else None) with
      | Some e => Err e
      | None =>
          match given (env "DATABASE_URL") with
          | None => Err NO_DATABASE
          | Some databaseUrl =>
              Ok {| ac_network := network; ac_host := envOrElse "API_HOST" "0.0.0.0"; ac_port := envNumber "API_PORT" 4000;
                    ac_corsOrigin := corsOriginOf corsOriginRaw; ac_rpcUrls := getRpcUrls network;
                    ac_sourceAccount := envOrElse "API_SOURCE_ACCOUNT" (m_admin contracts); ac_databaseUrl := databaseUrl;
                    ac_contracts := contracts; ac_ws := wsLimits;
                    ac_heartbeatSecret := given (env "KEEPER_HEARTBEAT_SECRET"); ac_turnstileSecret := given (env "TURNSTILE_SECRET");
                    ac_acsConnectionString := given (env "ACS_CONNECTION_STRING"); ac_acsSender := given (env "ACS_SENDER");
                    ac_adminWallets := adminWalletsOf (env "ADMIN_WALLETS") |}
          end
      end
  end.

(** ** What the gateway hands to its services (server.ts, index.ts) *)

Record Gateway := {
  g_rpcUrl : string; g_passphrase : string; g_pepper : string; g_sourceAccount : string; g_shim : option string; g_market : option string;
  g_vault : option string; g_vaultFactory : string; g_keys : KeyConfig; g_heartbeatSecret : option string;
  g_turnstile : option string; g_emails : bool; g_cors : Origin; g_reported : list (string * (string * Source)) }.

Definition ECHOED_KEYS : list string :=
  ["market"; "vault"; "noeracleShim"; "noetherRouter"; "usdcToken"; "noeToken"; "vaultFactory"; "referral"]%string.

(** [buildDefaultDeps] and the routes' configuration, with what /v1/health
    echoes: the error is the one that ends the process. *)
Definition buildGateway (c : ApiConfig) : Result Gateway :=
  match (match ac_rpcUrls c with u :: _ => u | [] => None end) with
  | None => Err "Cannot read properties of undefined (reading 'startsWith')"%string
  | Some url =>
      match getNetworkPassphrase (ac_network c) with
      | inl e => Err e
      | inr passphrase =>
          let at_ := addressIn (ac_contracts c) in
          Ok {| g_rpcUrl := url; g_passphrase := passphrase; g_pepper := envOrElse "API_HMAC_PEPPER" DEFAULT_HMAC_PEPPER;
                g_sourceAccount := ac_sourceAccount c; g_shim := at_ "noeracleShim"%string; g_market := at_ "market"%string;
                g_vault := at_ "vault"%string; g_vaultFactory := default ""%string (at_ "vaultFactory"%string);
                g_keys := {| allowlist := loadAllowlist (env "API_KEY_ALLOWLIST"); adminWallets := ac_adminWallets c; maxKeys := MAX_KEYS_PER_OWNER |};
                g_heartbeatSecret := ac_heartbeatSecret c; g_turnstile := ac_turnstileSecret c;
                g_emails := match ac_acsConnectionString c, ac_acsSender c with Some _, Some _ => true | _, _ => false end;
                g_cors := ac_corsOrigin c; g_reported := resolvedContracts ECHOED_KEYS (ac_contracts c) |}
      end
  end.

Definition bootGateway (manifest : Result Manifest) : Result Gateway :=
  match loadApiConfig manifest with inl e => Err e | inr c => buildGateway c end.

(** ** The indexer's configuration (indexer/src/config.ts, index.ts) *)

Definition parseCandleAssets (raw : option string) : list string :=
  match bfilter truthy ((fun s => ApiAccess.upper (trim s)) <$> splitOn "," (default ""%string raw)) with
  | [] => SUPPORTED_ASSET_SYMBOLS
  | l => l
  end.

Record IndexerConfig := {
  ic_network : string; ic_rpcUrls : list (option string); ic_databaseUrl : string; ic_pollIntervalMs : number;
  ic_coldStartLedgers : number; ic_healthPort : number; ic_retentionWarnLedgers : number; ic_noeracleApiUrl : string;
  ic_candles : bool; ic_candleAssets : list string; ic_candlePollIntervalMs : number; ic_seedBars : number; ic_contracts : Manifest }.

(** [loadConfig] of the indexer *)
Definition loadIndexerConfig (manifest : Result Manifest) : Result IndexerConfig :=
  match manifest with
  | inl e => Err e
  | inr contracts =>
      let network := envOrElse "NETWORK" "testnet" in
      match given (env "DATABASE_URL") with
      | None => Err NO_DATABASE
      | Some databaseUrl =>
          Ok {| ic_network := network; ic_rpcUrls := getRpcUrls network; ic_databaseUrl := databaseUrl;
                ic_pollIntervalMs := envNumber "INDEXER_POLL_INTERVAL_MS" 2000; ic_coldStartLedgers := envNumber "INDEXER_COLD_START_LEDGERS" 20000;
                ic_healthPort := envNumber "INDEXER_HEALTH_PORT" 8080; ic_retentionWarnLedgers := envNumber "INDEXER_RETENTION_WARN_LEDGERS" 10000;
                ic_noeracleApiUrl := envOrElse "NOERACLE_API_URL" (envOrElse "NEXT_PUBLIC_NOERACLE_API_URL" "https://api.noeracle.org");
                ic_candles := negb (String.eqb (envOrElse "CANDLE_AGGREGATOR_ENABLED" "true") "false");
                ic_candleAssets := parseCandleAssets (env "CANDLE_ASSETS"); ic_candlePollIntervalMs := envNumber "CANDLE_POLL_INTERVAL_MS" 3000;
                ic_seedBars := envNumber "CANDLE_SEED_BARS" 1000; ic_contracts := contracts |}
      end
  end.

(** A contract that may not be deployed. *)
Definition optionalContract (m : Manifest) (key : string) : Result (option string) :=
  if hasContract m key then match getContract m key with inl e => Err e | inr a => Ok (Some a) end else Ok None.

(** The contracts [main] hands to the router and the poller. *)
Definition indexerContracts (m : Manifest) : Result Contracts :=
  match getContract m "market" with
  | inl e => Err e
  | inr market =>
      match optionalContract m "vaultFactory", optionalContract m "referral", optionalContract m "vault" with
      | inr vaultFactory, inr referral, inr lpVault =>
          Ok {| marketContract := market; lpVaultContract := lpVault; vaultFactoryContract := vaultFactory; referralContract := referral |}
      | inl e, _, _ | _, inl e, _ | _, _, inl e => Err e
      end
  end.

(** [contractIds], what the poller asks the events of. *)
Definition contractIds (cs : Contracts) : list string :=
  [marketContract cs] ++ match lpVaultContract cs with Some c => [c] | None => [] end
  ++ match vaultFactoryContract cs with Some c => [c] | None => [] end
  ++ match referralContract cs with Some c => [c] | None => [] end.

Definition bootIndexer (manifest : Result Manifest) : Result (IndexerConfig * Contracts) :=
  match loadIndexerConfig manifest with
  | inl e => Err e
  | inr c =>
      match indexerContracts (ic_contracts c) with
      | inl e => Err e
      | inr cs =>
          match ic_rpcUrls c with
          | [] => Err "RpcPool requires at least one server"%string
          | urls => if existsb (fun u => match u with None => true | Some _ => false end) urls
                    then Err "Cannot read properties of undefined (reading 'startsWith')"%string else Ok (c, cs)
          end
      end
  end.
End env.

(** ** Error replies and headers (server.ts) *)

Record FastifyError := { e_statusCode : option Z; e_code : option string; e_message : string; e_validation : option (list string) }.

Record ErrorReply := {
  er_status : Z; er_error : string; er_message : string; er_validation : option (list string); er_requestId : option string }.

(** The error handler of the server. *)
Definition errorReply (requestId : string) (err : FastifyError) : ErrorReply :=
  let status := default 500 (e_statusCode err) in
  if status <? 500 then
    {| er_status := status; er_error := default "bad_request"%string (e_code err); er_message := e_message err;
       er_validation := e_validation err; er_requestId := None |}
  else
    {| er_status := 500; er_error := "internal_error"; er_message := "The request could not be completed.";
       er_validation := None; er_requestId := Some requestId |}.

(** The headers of the onSend hook. *)
Definition headersOf (url requestId : string) : list (string * string) :=
  [("x-request-id", requestId); ("X-Content-Type-Options", "nosniff"); ("Strict-Transport-Security", "max-age=63072000; includeSubDomains");
   ("X-Frame-Options", "DENY"); ("Referrer-Policy", "no-referrer")]%string
  ++ if startsWith "/docs" url then [] else [("Content-Security-Policy", "default-src 'none'; frame-ancestors 'none'")]%string.

(** ** Lemmas *)

Lemma given_truthy s a : given s = Some a -> truthy a = true.
Proof. unfold given, truthy. destruct s as [s|]; [|done]. destruct (String.eqb_spec s ""); [done|]. intros [= <-]. by destruct (String.eqb_spec s ""). Qed.

Lemma given_default s : default ""%string (given s) = default ""%string s.
Proof. destruct s as [s|]; [|done]. cbn. by destruct (String.eqb_spec s "") as [->|]. Qed.

Lemma overrideOf_truthy env key o : overrideOf env key = Some o -> truthy o = true.
Proof. unfold overrideOf. destruct (env _) as [v|]; [|done]. destruct (truthy (trim v)) eqn:Ht; [|done]. by intros [= <-]. Qed.

Lemma find_map_value {A B} (f : string * A -> B) key (l : list (string * A)) :
  List.find (fun e : string * B => String.eqb e.1 key) ((fun e => (e.1, f e)) <$> l)
  = (fun e => (e.1, f e)) <$> List.find (fun e => String.eqb e.1 key) l.
Proof. induction l as [|e l IH]; [done|]. cbn. destruct (String.eqb e.1 key); [done|]. exact IH. Qed.

Lemma find_key_None {A} key (l : list (string * A)) : List.find (fun e => String.eqb e.1 key) l = None <-> key ∉ l.*1.
Proof.
  induction l as [|e l IH]; cbn; [split; [intros _; apply not_elem_of_nil|done]|]. rewrite elem_of_cons.
  destruct (String.eqb_spec e.1 key) as [<-|Hne]; [split; [done|intros H; exfalso; apply H; by left]|].
  rewrite IH. split; [by intros H [?|?]|intros H Hin; apply H; by right].
Qed.

Lemma find_key_name {A} key (l : list (string * A)) e : List.find (fun e => String.eqb e.1 key) l = Some e -> e.1 = key.
Proof. intros H. apply find_some in H as [_ H]. by apply String.eqb_eq. Qed.

(** The manifest with the overrides, key by key. *)
Lemma addressIn_resolved env m key :
  addressIn (resolvedManifest env m) key = (fun a => default a (overrideOf env key)) <$> addressIn m key.
Proof.
  unfold resolvedManifest, addressIn. destruct (existsb _ _) eqn:He; cbn [m_contracts].
  - rewrite find_map_value. destruct (List.find _ _) as [e|] eqn:Hf; [|done]. cbn. by rewrite (find_key_name _ _ _ Hf).
  - destruct (List.find _ _) as [e|] eqn:Hf; [|done]. cbn. f_equal. pose proof (find_key_name _ _ _ Hf) as <-.
    apply find_some in Hf as [Hin _]. destruct (overrideOf env e.1) eqn:Ho; [|done].
    exfalso. assert (existsb (fun e => match overrideOf env e.1 with Some _ => true | None => false end) (m_contracts m) = true) as Ht; [|congruence].
    apply existsb_exists. exists e. by rewrite Ho.
Qed.

Lemma addressIn_None m key : addressIn m key = None <-> key ∉ (m_contracts m).*1.
Proof. unfold addressIn. rewrite fmap_None. apply find_key_None. Qed.

(** What [getContract] gives, and [resolvedContract] reports, is the same
    before and after the manifest is resolved. *)
Definition reported env m key : string := default (default ""%string (addressIn m key)) (overrideOf env key).

Lemma resolvedContract_reported env m key : (resolvedContract env m key).1 = reported env m key.
Proof.
  unfold resolvedContract, reported. destruct (overrideOf env key); [done|]. cbn. rewrite <- given_default.
  by destruct (given (addressIn m key)).
Qed.

Lemma reported_resolved env m key : reported env (resolvedManifest env m) key = reported env m key.
Proof. unfold reported. rewrite addressIn_resolved. destruct (overrideOf env key), (addressIn m key); done. Qed.

Lemma hasContract_reported env m key : hasContract env m key = truthy (reported env m key).
Proof.
  unfold hasContract, reported. destruct (overrideOf env key) as [o|] eqn:Ho; cbn; [by rewrite (overrideOf_truthy _ _ _ Ho)|].
  rewrite <- given_default. destruct (given (addressIn m key)) as [a|] eqn:Hg; [cbn|done]. by rewrite (given_truthy _ _ Hg).
Qed.

Lemma getContract_reported env m key a : getContract env m key = inr a <-> reported env m key = a /\ truthy a = true.
Proof.
  unfold getContract, reported. destruct (overrideOf env key) as [o|] eqn:Ho; cbn.
  - split; [intros [= <-]; by rewrite (overrideOf_truthy _ _ _ Ho)|by intros [-> _]].
  - rewrite <- given_default. destruct (given (addressIn m key)) as [b|] eqn:Hg; cbn.
    + split; [intros [= <-]; by rewrite (given_truthy _ _ Hg)|by intros [-> _]].
    + split; [done|]. by intros [<- ?].
Qed.

Lemma optionalContract_reported env m key o : optionalContract env m key = inr o -> default ""%string o = reported env m key.
Proof.
  unfold optionalContract. rewrite hasContract_reported. destruct (truthy _) eqn:Ht.
  - destruct (getContract env m key) as [e|a] eqn:Hg; [done|]. intros [= <-]. by apply getContract_reported in Hg as [-> _].
  - intros [= <-]. symmetry. unfold truthy in Ht. by destruct (String.eqb_spec (reported env m key) "").
Qed.

Lemma optionalContract_total env m key : exists o, optionalContract env m key = inr o.
Proof.
  unfold optionalContract. rewrite hasContract_reported. destruct (truthy _) eqn:Ht; [|by exists None].
  destruct (getContract env m key) as [e|a] eqn:Hg; [|by exists (Some a)].
  assert (getContract env m key = inr (reported env m key)) as H by by apply getContract_reported. congruence.
Qed.

(** ** Theorems: addresses *)

(** What a service reads out of its resolved manifest is the address
    /v1/health reports for it exactly when the manifest names the contract or
    no override is set: an override of a contract the manifest leaves out is
    reported, and not served. *)
Theorem served_address_is_the_reported_one env m key :
  let m' := resolvedManifest env m in
  default ""%string (addressIn m' key) = (resolvedContract env m' key).1
  <-> key ∈ (m_contracts m).*1 \/ overrideOf env key = None.
Proof.
  cbv zeta. rewrite resolvedContract_reported, reported_resolved, addressIn_resolved. unfold reported.
  destruct (addressIn m key) as [a|] eqn:Ha; cbn.
  - split; [intros _; left|by destruct (overrideOf env key)]. destruct (decide (key ∈ (m_contracts m).*1)); [done|].
    by rewrite (proj2 (addressIn_None m key)) in Ha.
  - apply addressIn_None in Ha. destruct (overrideOf env key) as [o|] eqn:Ho; cbn; [|split; [by right|done]].
    apply overrideOf_truthy in Ho. split; [by intros <-|]. by intros [?|?].
Qed.

(** The gateway and the indexer follow the same contracts: started with the
    same variables and the same manifest, the market the indexer reads the
    events of is the one the gateway reports, and the one it prepares
    transactions for and scopes its reads to, when the manifest names a market
    at all; and likewise for the vault factory. *)
Theorem gateway_and_indexer_agree env m g c cs :
  bootGateway env (Ok m) = inr g -> bootIndexer env (Ok m) = inr (c, cs) ->
  (exists s, ("market"%string, (marketContract cs, s)) ∈ g_reported g)
  /\ (exists s, ("vaultFactory"%string, (default ""%string (vaultFactoryContract cs), s)) ∈ g_reported g)
  /\ (g_market g = Some (marketContract cs) <-> "market"%string ∈ (m_contracts m).*1)
  /\ (g_vaultFactory g = default ""%string (vaultFactoryContract cs) <->
        "vaultFactory"%string ∈ (m_contracts m).*1 \/ overrideOf env "vaultFactory" = None).
Proof.
  unfold bootGateway, loadApiConfig, Ok. destruct (if isProduction env then _ else None); [done|].
  destruct (given (env "DATABASE_URL")) as [url|] eqn:Hdb; [|done]. unfold buildGateway. cbn [ac_rpcUrls ac_network ac_contracts].
  destruct (match getRpcUrls _ _ with _ :: _ => _ | [] => _ end) as [u|]; [|done]. destruct (getNetworkPassphrase _) as [e|p]; [done|].
  intros Hg. assert (g_reported g = resolvedContracts env ECHOED_KEYS (resolvedManifest env m)
    /\ g_market g = addressIn (resolvedManifest env m) "market"
    /\ g_vaultFactory g = default ""%string (addressIn (resolvedManifest env m) "vaultFactory")) as (Hr & Hm & Hf)
    by (injection Hg as <-; split_and!; reflexivity). clear Hg.
  unfold bootIndexer, loadIndexerConfig, indexerContracts, Ok. rewrite Hdb. cbn [ic_contracts ic_rpcUrls].
  destruct (getContract env m "market") as [e|market] eqn:Hgm; [done|]. apply getContract_reported in Hgm as [Hgm Htm].
  destruct (optionalContract env m "vaultFactory") as [e|vf] eqn:Hvf; [done|]. apply optionalContract_reported in Hvf.
  destruct (optionalContract env m "referral") as [e|rf]; [done|]. destruct (optionalContract env m "vault") as [e|lp]; [done|].
  intros Hc. assert (marketContract cs = market /\ vaultFactoryContract cs = vf) as [-> ->].
  { destruct (getRpcUrls _ _) as [|x l]; [done|]. destruct (existsb _ _); [done|]. injection Hc as _ <-. done. }
  assert (forall key, key ∈ ECHOED_KEYS -> exists s, (key, (reported env m key, s)) ∈ g_reported g) as Hrep.
  { intros key Hk. exists (resolvedContract env (resolvedManifest env m) key).2. rewrite Hr. unfold resolvedContracts. apply list_elem_of_fmap.
    exists key. split; [|done]. f_equal. rewrite <- reported_resolved, <- resolvedContract_reported. by destruct (resolvedContract _ _ _). }
  split; [|split; [|split]].
  - rewrite <- Hgm. apply Hrep. by left.
  - rewrite Hvf. apply Hrep. unfold ECHOED_KEYS. set_solver.
  - rewrite Hm, addressIn_resolved, <- Hgm. unfold reported. destruct (addressIn m "market") as [a|] eqn:Ha; cbn.
    + split; [intros _|by destruct (overrideOf env "market")]. destruct (decide ("market"%string ∈ (m_contracts m).*1)); [done|].
      by rewrite (proj2 (addressIn_None m "market")) in Ha.
    + apply addressIn_None in Ha. by split.
  - rewrite Hf, Hvf, <- reported_resolved, <- resolvedContract_reported. apply served_address_is_the_reported_one.
Qed.

(** ** Theorems: overrides *)

Definition noUnderscore (s : string) : bool := forallb (fun c => negb (Ascii.eqb c "_")) (String.list_ascii_of_string s).

(** A capital is not a letter that becomes one, nor the underscore. *)
Lemma upperAscii_inj c d : isUpper c = false -> isUpper d = false -> upperAscii c = upperAscii d -> c = d.
Proof.
  intros Hc Hd H.
  assert (forallb (fun n => forallb (fun k => let c := Ascii.ascii_of_nat n in let d := Ascii.ascii_of_nat k in
    isUpper c || isUpper d || negb (Ascii.eqb (upperAscii c) (upperAscii d)) || Ascii.eqb c d) (seq 0 256)) (seq 0 256) = true) as Hall
    by (vm_compute; reflexivity).
  rewrite forallb_forall in Hall. pose proof (Ascii.nat_ascii_bounded c) as Bc. pose proof (Ascii.nat_ascii_bounded d) as Bd.
  specialize (Hall (Ascii.nat_of_ascii c) ltac:(apply in_seq; lia)). rewrite forallb_forall in Hall.
  specialize (Hall (Ascii.nat_of_ascii d) ltac:(apply in_seq; lia)). cbv zeta in Hall. rewrite !Ascii.ascii_nat_embedding, Hc, Hd, H in Hall.
  rewrite Ascii.eqb_refl in Hall. cbn in Hall. by apply Ascii.eqb_eq.
Qed.

Lemma upperAscii_underscore c : Ascii.eqb c "_" = false -> upperAscii c <> "_"%char.
Proof. destruct c as [[] [] [] [] [] [] [] []]; vm_compute; congruence. Qed.

Lemma upperAscii_upper c : isUpper c = true -> upperAscii c = c.
Proof. destruct c as [[] [] [] [] [] [] [] []]; vm_compute; congruence. Qed.

Lemma upper_snake_inj s t : noUnderscore s = true -> noUnderscore t = true ->
  ApiAccess.upper (snakeCase s) = ApiAccess.upper (snakeCase t) -> s = t.
Proof.
  revert t. induction s as [|c s IH]; intros [|d t]; unfold noUnderscore; cbn; [done| | |].
  - intros _ _. destruct (isUpper d); discriminate.
  - intros _ _. destruct (isUpper c); discriminate.
  - intros [Hc Hs]%andb_true_iff [Hd Ht]%andb_true_iff. apply negb_true_iff in Hc, Hd.
    assert (forall x, Ascii.eqb x "_" = false -> upperAscii x <> upperAscii "_") as Hu by (intros x Hx; by apply upperAscii_underscore).
    destruct (isUpper c) eqn:Uc, (isUpper d) eqn:Ud; cbn [ApiAccess.upper]; intros [= H1 H2].
    + f_equal; [by rewrite <- (upperAscii_upper c Uc), <- (upperAscii_upper d Ud)|by apply IH].
    + destruct (Hu d Hd). by rewrite H1.
    + by destruct (Hu c Hc).
    + f_equal; [by apply upperAscii_inj|by apply IH].
Qed.

(** An override re-points one contract: names without an underscore, as
    the manifest's are, have different variables. *)
Theorem override_names_are_distinct key1 key2 :
  noUnderscore key1 = true -> noUnderscore key2 = true -> contractEnvVar key1 = contractEnvVar key2 -> key1 = key2.
Proof. intros H1 H2 H. apply upper_snake_inj; [done..|]. unfold contractEnvVar in H. cbn in H. by injection H. Qed.

(** ** Theorems: starting the gateway *)

Lemma bootGateway_inv env m g : bootGateway env m = inr g ->
  exists base c url p, m = inr base /\ c = resolvedManifest env base
    /\ (if isProduction env then assertProductionEnv env (envOrElse env "API_CORS_ORIGIN" "*") else None) = None
    /\ is_Some (given (env "DATABASE_URL"%string)) /\ rpcUrl env (envOrElse env "NETWORK" "testnet") = Some url
    /\ getNetworkPassphrase (envOrElse env "NETWORK" "testnet") = inr p
    /\ g_rpcUrl g = url /\ g_passphrase g = p /\ g_pepper g = envOrElse env "API_HMAC_PEPPER" DEFAULT_HMAC_PEPPER
    /\ allowlist (g_keys g) = loadAllowlist (env "API_KEY_ALLOWLIST"%string)
    /\ adminWallets (g_keys g) = adminWalletsOf (env "ADMIN_WALLETS"%string)
    /\ g_cors g = corsOriginOf (envOrElse env "API_CORS_ORIGIN" "*").
Proof.
  unfold bootGateway, loadApiConfig, Ok. destruct m as [e|base]; [done|]. destruct (if isProduction env then _ else None); [done|].
  destruct (given (env "DATABASE_URL")) as [url|]; [|done]. unfold buildGateway, rpcUrl. cbn [ac_rpcUrls ac_network ac_contracts].
  destruct (match getRpcUrls _ _ with _ :: _ => _ | [] => _ end) as [u|]; [|done]. destruct (getNetworkPassphrase _) as [e|p]; [done|].
  intros [= <-]. exists base, (resolvedManifest env base), u, p. split_and!; try reflexivity. by eexists.
Qed.

Lemma given_is_set s : is_Some (given s) <-> exists d, s = Some d /\ truthy d = true.
Proof.
  split.
  - intros [d Hd]. exists d. pose proof (given_truthy _ _ Hd). unfold given in Hd. destruct s as [x|]; [|done].
    destruct (String.eqb x ""); [done|]. by injection Hd as <-.
  - intros (d & -> & Ht). exists d. unfold given, truthy in *. by destruct (String.eqb d "").
Qed.

Lemma given_some s l : given s = Some l -> s = Some l /\ truthy l = true.
Proof. unfold given, truthy. destruct s as [x|]; [|done]. destruct (String.eqb x "") eqn:E; [done|]. intros [= <-]. by rewrite E. Qed.

(** Entries of a comma-separated list. *)
Lemma listed_entries l : bfilter truthy (trim <$> splitOn "," l) <> [] <-> exists u, u ∈ splitOn "," l /\ truthy (trim u) = true.
Proof.
  split.
  - destruct (bfilter truthy (trim <$> splitOn "," l)) as [|u us] eqn:Hb; [done|intros _].
    assert (u ∈ bfilter truthy (trim <$> splitOn "," l)) as Hin by (rewrite Hb; by left).
    apply elem_of_bfilter in Hin as [Hin Hu]. apply list_elem_of_fmap in Hin as (w & -> & Hw). by exists w.
  - intros (u & Hu & Hut) Hb. assert (trim u ∈ bfilter truthy (trim <$> splitOn "," l)) as Hin.
    { apply elem_of_bfilter. split; [|done]. apply list_elem_of_fmap. by exists u. }
    rewrite Hb in Hin. by apply elem_of_nil in Hin.
Qed.

Lemma rpcUrl_is_set env network : is_Some (entryOf NETWORK_PASSPHRASES network) ->
  is_Some (rpcUrl env network) <->
  forall l, env "SOROBAN_RPC_URLS"%string = Some l -> truthy l = true -> exists u, u ∈ splitOn "," l /\ truthy (trim u) = true.
Proof.
  intros Hn. unfold rpcUrl, getRpcUrls. destruct (given (env "SOROBAN_RPC_URLS")) as [l|] eqn:Hl.
  - apply given_some in Hl as [He Ht]. rewrite He. split.
    + intros Hs l' [= <-] _. apply listed_entries. intros H0. rewrite H0 in Hs. by destruct Hs.
    + intros H. specialize (H l eq_refl Ht). apply listed_entries in H. destruct (bfilter _ _); [done|by eexists].
  - split.
    + intros _ l He Ht. rewrite He in Hl. unfold given, truthy in *. by destruct (String.eqb l "").
    + intros _. destruct (given (env "SOROBAN_RPC_URL")) as [u|]; [by eexists|].
      unfold entryOf in *. cbn in Hn |- *. repeat (case_match; [by eexists|]). exact Hn.
Qed.

(** The gateway starts exactly when the manifest was read, the network is
    known, a database and an endpoint are configured, and, in production, the
    checks of the secrets pass. An endpoint list of blanks is a refusal too:
    it is never read as the network's default. *)
Theorem gateway_boots_exactly_when env m :
  let network := envOrElse env "NETWORK" "testnet" in
  (exists g, bootGateway env m = inr g) <->
  (exists base, m = inr base) /\ (isProduction env = true -> assertProductionEnv env (envOrElse env "API_CORS_ORIGIN" "*") = None)
  /\ (exists d, env "DATABASE_URL"%string = Some d /\ truthy d = true) /\ is_Some (entryOf NETWORK_PASSPHRASES network)
  /\ (forall l, env "SOROBAN_RPC_URLS"%string = Some l -> truthy l = true -> exists u, u ∈ splitOn "," l /\ truthy (trim u) = true).
Proof.
  cbv zeta. set (network := envOrElse env "NETWORK" "testnet"). rewrite <- given_is_set. split.
  - intros [g Hg]. apply bootGateway_inv in Hg as (base & c & url & p & -> & _ & Hp & Hdb & Hu & Hpass & _).
    assert (is_Some (entryOf NETWORK_PASSPHRASES network)) as Hn.
    { unfold getNetworkPassphrase in Hpass. fold network in Hpass. destruct (entryOf _ _); [by eexists|done]. }
    split; [by eexists|]. split; [intros Hprod; by rewrite Hprod in Hp|]. split; [done|]. split; [done|].
    apply (proj1 (rpcUrl_is_set env network Hn)). by exists url.
  - intros ([base ->] & Hp & [d Hd] & Hn & Hu). destruct (proj2 (rpcUrl_is_set env network Hn) Hu) as [u Hu'] ; clear Hu; rename Hu' into Hu.
    unfold bootGateway, loadApiConfig, Ok.
    assert ((if isProduction env then assertProductionEnv env (envOrElse env "API_CORS_ORIGIN" "*") else None) = None) as -> by (destruct (isProduction env); auto).
    rewrite Hd. unfold buildGateway. cbn [ac_rpcUrls ac_network ac_contracts]. fold network. unfold rpcUrl in Hu. rewrite Hu.
    unfold getNetworkPassphrase. destruct Hn as [p ->]. cbn. by eexists.
Qed.

(** What the CORS plugin makes of an origin option: every origin is allowed
    by a star, alone or in a list. *)
Definition anyOrigin (o : Origin) : bool :=
  match o with OneOrigin o => String.eqb o "*" | Origins l => existsb (String.eqb "*") l end.

Lemma anyOrigin_of raw : raw <> "*"%string ->
  anyOrigin (corsOriginOf raw) = true <-> includes raw "," = true /\ "*"%string ∈ trim <$> splitOn "," raw.
Proof.
  intros Hne. unfold corsOriginOf. destruct (includes raw ","); cbn [anyOrigin].
  - rewrite existsb_exists. split.
    + intros (x & Hx & <-%String.eqb_eq). apply list_elem_of_In, elem_of_bfilter in Hx as [Hx _]. done.
    + intros [_ Hx]. exists "*"%string. split; [|done]. apply list_elem_of_In, elem_of_bfilter. by split.
  - split; [by intros Hx%String.eqb_eq|by intros [? _]].
Qed.

(** C17. A gateway in production does not run on the permissive defaults: it
    hashes keys with a pepper of its own, and issues keys only to wallets on the
    list, to administrators and to approved wallets, whatever the tables hold;
    and it does not answer every origin, with one exception the check of the
    start does not see: where API_CORS_ORIGIN is a comma-separated list and a
    star is one of its items, every origin is allowed. *)
Theorem production_gateway_is_closed env m g :
  bootGateway env m = inr g -> isProduction env = true ->
  truthy (g_pepper g) = true /\ g_pepper g <> DEFAULT_HMAC_PEPPER
  /\ (anyOrigin (g_cors g) = true <-> exists raw, env "API_CORS_ORIGIN"%string = Some raw
        /\ includes raw "," = true /\ "*"%string ∈ trim <$> splitOn "," raw)
  /\ exists l, loadAllowlist (env "API_KEY_ALLOWLIST"%string) = Some l
       /\ forall table address, inBeta (g_keys g) table address = true ->
            address ∈ l \/ address ∈ adminWalletsOf (env "ADMIN_WALLETS"%string) \/ isApproved table address = true.
Proof.
  intros Hg Hprod. apply bootGateway_inv in Hg as (base & c & url & p & _ & _ & Hp & _ & _ & _ & _ & _ & Hpep & Hal & Had & Hcors).
  rewrite Hprod in Hp. unfold assertProductionEnv in Hp. unfold envOrElse in Hpep. rewrite Hpep, Hcors.
  destruct (env "API_HMAC_PEPPER"%string) as [pepper|]; cbn [default from_option] in Hp |- *; unfold id in Hp |- *; [|done].
  destruct (truthy pepper) eqn:Hpt; cbn [negb orb] in Hp; [|done]. destruct (String.eqb_spec pepper DEFAULT_HMAC_PEPPER); [done|].
  destruct (env "API_KEY_ALLOWLIST"%string) as [raw|]; cbn [default from_option] in Hp; unfold id in Hp; [|done].
  destruct (truthy (trim raw)) eqn:Hrt; cbn [negb] in Hp; [|done].
  destruct (String.eqb_spec (envOrElse env "API_CORS_ORIGIN" "*") "*") as [|Ho]; [done|].
  split; [done|]. split; [done|]. split.
  { rewrite (anyOrigin_of _ Ho). unfold envOrElse in *. destruct (env "API_CORS_ORIGIN"%string) as [o|]; [|done]. cbn.
    split; [intros Hx; by exists o|by intros (o' & [= <-] & Hx)]. }
  assert (is_Some (loadAllowlist (Some raw))) as [l Hl].
  { unfold loadAllowlist, given, truthy in *. cbn. destruct (String.eqb (trim raw) ""); [done|by eexists]. }
  exists l. split; [done|]. intros table address. unfold inBeta. rewrite Hal, Hl, Had. unfold ApiKeys.member.
  intros [[H|H]%orb_true_iff|H]%orb_true_iff; [left|right; left|by right; right];
    apply existsb_exists in H as (x & Hx & ->%String.eqb_eq); by apply list_elem_of_In.
Qed.

(** ** Theorems: error replies *)

(** A failure of the server tells the caller nothing: the reply to an error
    of the server's own is the same whatever the error was, with the id to find
    it by, while a refusal of the request keeps its status and its text. *)
Theorem server_errors_are_opaque requestId err1 err2 :
  (500 <= default 500 (e_statusCode err1) -> 500 <= default 500 (e_statusCode err2) ->
     errorReply requestId err1 = errorReply requestId err2 /\ er_requestId (errorReply requestId err1) = Some requestId)
  /\ (forall status, e_statusCode err1 = Some status -> status < 500 ->
        er_status (errorReply requestId err1) = status /\ er_message (errorReply requestId err1) = e_message err1).
Proof.
  unfold errorReply. split.
  - intros H1 H2. destruct (Z.ltb_spec (default 500 (e_statusCode err1)) 500); [lia|]. destruct (Z.ltb_spec (default 500 (e_statusCode err2)) 500); [lia|done].
  - intros status -> Hs. cbn. by destruct (Z.ltb_spec status 500); [|lia].
Qed.

(** ** Concrete runs *)

Definition vars (l : list (string * string)) (name : string) : option string := snd <$> List.find (fun e => String.eqb e.1 name) l.

Definition deployedManifest : Manifest := {|
  m_network := "testnet"; m_admin := "GADMIN";
  m_contracts := [("market", "CMARKET"); ("vault", "CVAULT"); ("noeracleShim", "CSHIM")]%string |}.

Definition prodVars : list (string * string) :=
  [("NODE_ENV", "production"); ("API_HMAC_PEPPER", "0f0f"); ("API_KEY_ALLOWLIST", ","); ("API_CORS_ORIGIN", "https://noether.exchange");
   ("DATABASE_URL", "postgresql://db"); ("CONTRACT_VAULT_FACTORY", " CFACTORY "); ("CONTRACT_MARKET", "CMARKET2")]%string.

Definition prodGateway : Gateway :=
  match bootGateway (vars prodVars) (Ok deployedManifest) with
  | inr g => g
  | inl _ => {| g_rpcUrl := ""; g_passphrase := ""; g_pepper := ""; g_sourceAccount := ""; g_shim := None; g_market := None; g_vault := None;
                g_vaultFactory := ""; g_keys := {| allowlist := None; adminWallets := []; maxKeys := 0 |}; g_heartbeatSecret := None;
                g_turnstile := None; g_emails := false; g_cors := OneOrigin ""; g_reported := [] |}
  end.

(** The vault factory is given by an override only: the indexer follows it and
    /v1/health reports it, and the gateway's vault reads have no factory. *)
Example factory_by_override_is_not_served :
  g_vaultFactory prodGateway = ""%string
  /\ List.find (fun e => String.eqb e.1 "vaultFactory") (g_reported prodGateway) = Some ("vaultFactory", ("CFACTORY", FromEnv))%string
  /\ match bootIndexer (vars prodVars) (Ok deployedManifest) with inr (_, cs) => vaultFactoryContract cs = Some "CFACTORY"%string | _ => False end.
Proof. vm_compute. by split_and!. Qed.

(** A cap that is not a number caps nothing: every comparison with it fails. *)
Example mistyped_cap_is_no_cap :
  let limits := wsLimits (vars [("WS_MAX_CONNECTIONS", "1k"); ("WS_MAX_PER_IP", "")])%string in
  leN (ws_maxConnections limits) (numberOfZ 1000000) = false /\ ws_maxPerIp limits = S754_zero false /\ ws_msgRate limits = numberOfZ 20.
Proof. vm_compute. by split_and!. Qed.

Example read_numbers :
  numberOfText " 2000 " = numberOfZ 2000 /\ numberOfText "0x10" = numberOfZ 16 /\ numberOfText "1e3" = numberOfZ 1000
  /\ numberOfText "12px" = S754_nan /\ numberOfText "." = S754_nan /\ numberOfText "-5" = numberOfZ (-5).
Proof. vm_compute. by split_and!. Qed.

Lemma gateway_and_indexer_agree_witness : exists c cs, g_market prodGateway = Some (marketContract cs)
  /\ bootIndexer (vars prodVars) (Ok deployedManifest) = inr (c, cs).
Proof.
  destruct (bootIndexer (vars prodVars) (Ok deployedManifest)) as [e|[c cs]] eqn:Hb; [vm_compute in Hb; discriminate Hb|].
  exists c, cs. split; [|reflexivity].
  destruct (gateway_and_indexer_agree (vars prodVars) deployedManifest prodGateway c cs) as (_ & _ & H & _); [vm_compute; reflexivity|exact Hb|].
  apply H. left.
Defined.

Lemma override_names_are_distinct_witness : contractEnvVar "noetherRouter" = contractEnvVar "noetherRouter" -> "noetherRouter"%string = "noetherRouter"%string.
Proof. apply (override_names_are_distinct "noetherRouter" "noetherRouter"); reflexivity. Defined.

Lemma production_gateway_is_closed_witness : g_pepper prodGateway <> DEFAULT_HMAC_PEPPER
  /\ forall address, inBeta (g_keys prodGateway) None address = true -> isApproved None address = true.
Proof.
  destruct (production_gateway_is_closed (vars prodVars) (Ok deployedManifest) prodGateway) as (_ & H & _ & l & Hl & Hin); [vm_compute; reflexivity|reflexivity|].
  split; [exact H|]. intros address Ha. vm_compute in Hl. injection Hl as <-. destruct (Hin None address Ha) as [H1|[H1|H1]]; [| |exact H1].
  - by apply elem_of_nil in H1.
  - vm_compute in H1. by apply elem_of_nil in H1.
Defined.

(** A star among other origins passes the check for production. *)
Example star_in_a_list_boots :
  match bootGateway (vars (("API_CORS_ORIGIN", "*, https://noether.exchange") :: prodVars))%string (Ok deployedManifest) with
  | inr g => g_cors g = Origins ["*"; "https://noether.exchange"]%string /\ anyOrigin (g_cors g) = true
  | inl _ => False
  end.
Proof. vm_compute. by split. Qed.

Lemma server_errors_are_opaque_witness :
  errorReply "r1" {| e_statusCode := None; e_code := Some "28P01"; e_message := "password authentication failed for user postgres"; e_validation := None |}
  = errorReply "r1" {| e_statusCode := Some 503; e_code := None; e_message := "down"; e_validation := None |}.
Proof. apply server_errors_are_opaque; cbn; lia. Defined.
