(* ===== verification/IndexerShell.v ===== *)
(** * The indexer's process: migrations, start, poll loop and health

    indexer/src/migrations.ts, the start in indexer/src/index.ts, the loop
    around [pollOnce] in indexer/src/poll.ts and indexer/src/health.ts. The
    schema a migration works on, with what a statement does to it, is the
    database's; a transaction is atomic, and transactions of several processes
    are taken one at a time. No statement of the migrations writes to the rows
    of schema_versions. *)

From stdpp Require Import sorting.
From S2P Require Import Prelude JsText ApiBoard IndexerEvents IndexerRpc IndexerDb IndexerHandlers IndexerPoller.
Open Scope Z_scope.
Open Scope js_scope.

(** ** Migration files *)

Record Migration := { m_id : Z; m_name : string; m_filename : string; m_sql : string }.

Definition endsWith (p s : string) : bool := existsb (String.eqb p) (suffixes s).

Definition isLineEnd (c : ascii) : bool := let n := Ascii.N_of_ascii c in N.eqb n 10 || N.eqb n 13.

(** [/^(\d+)_(.+)\.sql$/]: the number and the name. *)
Definition parseFilename (filename : string) : option (Z * string) :=
  let (d, r) := span isDigit filename in
  match r with
  | String "_" r =>
      let name := String.substring 0 (String.length r - 4) r in
      if truthy d && endsWith ".sql" r && truthy name && negb (existsb isLineEnd (String.list_ascii_of_string name))
      then Some (numberOfDigits d, name) else None
  | _ => None
  end.

Definition invalidName (filename : string) : string :=
  "Invalid migration filename: " +:+ filename +:+ ". Expected format: NNN_description.sql".

Definition duplicateId (m : Migration) (seen : string) : string :=
  let q := String (Ascii.ascii_of_nat 34) EmptyString in
  "Duplicate migration id " +:+ decimalOfZ (m_id m) +:+ ": " +:+ q +:+ seen +:+ q +:+ " and " +:+ q +:+ m_filename m +:+ q +:+
  ". Each migration needs a unique numeric prefix — delete the stray copy.".

(** Reading the files in order, until a name or a read fails. *)
Fixpoint readAll (files : list (string * Result string)) : Result (list Migration) :=
  match files with
  | [] => Ok []
  | (filename, content) :: files =>
      match parseFilename filename with
      | None => Err (invalidName filename)
      | Some (id, name) =>
          match content with
          | inl e => Err e
          | inr sql =>
              match readAll files with
              | inl e => Err e
              | inr ms => Ok ({| m_id := id; m_name := name; m_filename := filename; m_sql := sql |} :: ms)
              end
          end
      end
  end.

(** The loop over [byId]: the first id that was seen before. *)
Fixpoint firstDuplicate (byId : gmap Z string) (ms : list Migration) : option (Migration * string) :=
  match ms with
  | [] => None
  | m :: ms => match byId !! m_id m with Some seen => Some (m, seen) | None => firstDuplicate (<[m_id m := m_filename m]> byId) ms end
  end.

Definition byName (a b : string * Result string) : Prop := String.le a.1 b.1.
#[export] Instance byName_dec : RelDecision byName.
Proof. intros a b. unfold byName. apply _. Defined.

(** [loadMigrations]: the directory in any order, with what reading each gives. *)
Definition loadMigrations (directory : list (string * Result string)) : Result (list Migration) :=
  match readAll (merge_sort byName (bfilter (fun f => endsWith ".sql" f.1) directory)) with
  | inl e => Err e
  | inr ms => match firstDuplicate ∅ ms with Some (m, seen) => Err (duplicateId m seen) | None => Ok ms end
  end.

(** ** Statements of a file: [m.sql.split(/^--#\s*split\s*$/gim)] *)

(** The end of a run of blanks that [$] accepts: the text's end, or the last
    line end of the run. [ws] is the run, [rest] what follows it. *)
Fixpoint blankEnd (ws rest : string) : option string :=
  match ws with
  | EmptyString => match rest with EmptyString => Some EmptyString | _ => None end
  | String c ws' =>
      match blankEnd ws' rest with
      | Some r => Some r
      | None => if isLineEnd c then Some (ws +:+ rest) else None
      end
  end.

(** What follows a marker at the start of a line. *)
Definition markerAt (s : string) : option string :=
  match stripPrefix "--#" s with
  | None => None
  | Some s =>
      let s := (span isSpace s).2 in
      if String.eqb (lower (String.substring 0 5 s)) "split" then
        let (ws, rest) := span isSpace (String.substring 5 (String.length s - 5) s) in blankEnd ws rest
      else None
  end.

(** The pieces between the markers; [bol] says whether a line starts here. *)
Fixpoint splitFrom (fuel : nat) (bol : bool) (s : string) : list string :=
  match fuel with
  | O => [s]
  | S fuel =>
      match (if bol then markerAt s else None) with
      | Some rest => EmptyString :: splitFrom fuel false rest
      | None =>
          match s with
          | EmptyString => [EmptyString]
          | String c s =>
              match splitFrom fuel (isLineEnd c) s with
              | [] => []
              | w :: ws => String c w :: ws
              end
          end
      end
  end.

(** Each step takes a character off, so the length is fuel enough. *)
Definition splitMarkers (s : string) : list string := splitFrom (S (String.length s)) true s.

Definition statements (sql : string) : list string := bfilter truthy (trim <$> splitMarkers sql).

(** ** Applying migrations *)

Section runner.
Context {S : Type} (exec : string -> S -> Result S).

(** The schema, and the rows of schema_versions: name and time by id. *)
Record MigDb := { schema : S; versions : gmap Z (string * Z) }.

Fixpoint runStatements (l : list string) (s : S) : Result S :=
  match l with
  | [] => Ok s
  | q :: l => match exec q s with inl e => Err e | inr s => runStatements l s end
  end.

(** What a transaction meets besides its statements: the time its record is
    given, and the error of a connection that fails on the way or at the commit. *)
Record Attempt := { at_ : Z; fault : option string }.

Definition DUPLICATE_KEY : string := "duplicate key value violates unique constraint".

(** The transaction of one migration: the statements and the record, or nothing. *)
Definition migrateOne (m : Migration) (a : Attempt) (db : MigDb) : Result MigDb :=
  match fault a with
  | Some e => Err e
  | None =>
      match runStatements (statements (m_sql m)) (schema db) with
      | inl e => Err e
      | inr s =>
          match versions db !! m_id m with
          | Some _ => Err DUPLICATE_KEY
          | None => Ok {| schema := s; versions := <[m_id m := (m_name m, at_ a)]> (versions db) |}
          end
      end
  end.

(** Those whose id is not recorded ([appliedIds]). *)
Definition pendingOf (ms : list Migration) (db : MigDb) : list Migration :=
  bfilter (fun m => match versions db !! m_id m with Some _ => false | None => true end) ms.

(** The loop: the migrations applied, with the error that ended it, if any. *)
Fixpoint runPending (attempt : Migration -> Attempt) (ms : list Migration) (db : MigDb) : list Migration * option string * MigDb :=
  match ms with
  | [] => ([], None, db)
  | m :: ms =>
      match migrateOne m (attempt m) db with
      | inl e => ([], Some e, db)
      | inr db => let '(applied, e, db) := runPending attempt ms db in (m :: applied, e, db)
      end
  end.

Definition runMigrations (directory : list (string * Result string)) (attempt : Migration -> Attempt) (db : MigDb)
  : Result (list Migration) * MigDb :=
  match loadMigrations directory with
  | inl e => (Err e, db)
  | inr ms =>
      let '(applied, e, db) := runPending attempt (pendingOf ms db) db in
      (match e with Some e => Err e | None => Ok applied end, db)
  end.

(** ** Several runners on one database *)

(** A runner has read the versions and holds what it found pending; one that
    meets an error is gone. [history] lists what was committed, in order. *)
Record Sys := { db_ : MigDb; runners : gmap nat (list Migration); history : list Migration }.

Inductive Act := Starts (runner : nat) | Works (runner : nat) (a : Attempt).

Definition sysStep (ms : list Migration) (s : Sys) (act : Act) : Sys :=
  match act with
  | Starts r => {| db_ := db_ s; runners := <[r := pendingOf ms (db_ s)]> (runners s); history := history s |}
  | Works r a =>
      match runners s !! r with
      | Some (m :: rest) =>
          match migrateOne m a (db_ s) with
          | inl _ => {| db_ := db_ s; runners := delete r (runners s); history := history s |}
          | inr db => {| db_ := db; runners := <[r := rest]> (runners s); history := history s ++ [m] |}
          end
      | _ => s
      end
  end.

(** The migrations one after the other. *)
Fixpoint applyAll (ms : list Migration) (s : S) : Result S :=
  match ms with
  | [] => Ok s
  | m :: ms => match runStatements (statements (m_sql m)) s with inl e => Err e | inr s => applyAll ms s end
  end.
End runner.
Arguments MigDb : clear implicits.
Arguments Sys : clear implicits.

(** ** Start: the vault tables (index.ts) *)

(** [pruneRetiredFactoryRows] up to the table whose statement fails. *)
Definition pruneUpTo (n : nat) (factory : string) (t : VaultTables) : VaultTables :=
  let p := pruneRetiredFactoryRows factory t in
  {| vaults := vaults (if (0 <? n)%nat then p else t); vault_deposits := vault_deposits (if (1 <? n)%nat then p else t);
     vault_withdraws := vault_withdraws (if (2 <? n)%nat then p else t); vault_fee_claims := vault_fee_claims (if (3 <? n)%nat then p else t);
     vault_trades := vault_trades (if (4 <? n)%nat then p else t) |}.

(** With a factory configured: the prune, then the reconcile, whatever becomes
    of the prune. [pruned] tables are pruned before a failure, [listed] tells
    whether the reconcile could list the vaults. *)
Definition bootVaults (chain : Chain) (factory : option string) (pruned : nat) (listed : bool) (t : VaultTables) : VaultTables :=
  match factory with
  | None => t
  | Some factory =>
      let t := pruneUpTo pruned factory t in
      {| vaults := if listed then reconcileAllVaults chain factory (vaults t) else vaults t; vault_deposits := vault_deposits t;
         vault_withdraws := vault_withdraws t; vault_fee_claims := vault_fee_claims t; vault_trades := vault_trades t |}
  end.

(** ** The poll loop *)

Record Poller := {
  running : bool; stopped : bool; p_fatal : option string; startedAt : option Z; lastPollOkAt : option Z;
  p_lastLedger : option Z; lastEventCloseTs : option Z }.

Definition newPoller : Poller := {|
  running := false; stopped := false; p_fatal := None; startedAt := None; lastPollOkAt := None; p_lastLedger := None; lastEventCloseTs := None |}.

(** The poller with its database and RPC pool. *)
Record Shell := { poller : Poller; s_db : Db; s_pool : RpcPool }.

(** [start] at a time, [stop], and one turn of the loop ending at a time. *)
Inductive ShellEvent := Start (now : Z) | Stop | Turn (inp : PollInput) (endsAt : Z).

Definition orKept {A} (new old : option A) : option A := match new with Some _ => new | None => old end.

(** What a poll leaves of the poller. *)
Definition afterPoll (o : PollOutcome) (endsAt : Z) (p : Poller) : Poller := {|
  running := running p; stopped := stopped p || fatal o;
  p_fatal := if fatal o then Some "cursor_cas_miss"%string else p_fatal p;
  startedAt := startedAt p;
  lastPollOkAt := match result o with Completed _ => Some endsAt | PollThrew => lastPollOkAt p end;
  p_lastLedger := orKept (committed o) (p_lastLedger p); lastEventCloseTs := orKept (closeTs o) (lastEventCloseTs p) |}.

Definition shellStep (cs : Contracts) (cold : Z) (s : Shell) (e : ShellEvent) : Shell :=
  let p := poller s in
  match e with
  | Start now =>
      if running p then s
      else {| poller := {| running := true; stopped := stopped p; p_fatal := p_fatal p; startedAt := Some now; lastPollOkAt := lastPollOkAt p;
                           p_lastLedger := p_lastLedger p; lastEventCloseTs := lastEventCloseTs p |};
              s_db := s_db s; s_pool := s_pool s |}
  | Stop =>
      {| poller := {| running := running p; stopped := true; p_fatal := p_fatal p; startedAt := startedAt p; lastPollOkAt := lastPollOkAt p;
                      p_lastLedger := p_lastLedger p; lastEventCloseTs := lastEventCloseTs p |};
         s_db := s_db s; s_pool := s_pool s |}
  | Turn inp endsAt =>
      if running p && negb (stopped p) then
        let o := pollOnce cs inp cold (s_db s) (s_pool s) in
        {| poller := afterPoll o endsAt p; s_db := db_after o; s_pool := pool_after o |}
      else s
  end.

Definition shellRun (cs : Contracts) (cold : Z) (s : Shell) (es : list ShellEvent) : Shell := foldl (shellStep cs cold) s es.

(** [sleep]: the steps of 250 ms slept, when the poller is seen stopped from
    step [stoppedFrom] on. *)
Definition SLEEP_STEP : Z := 250.
Definition sleepSteps (ms : Z) (stoppedFrom : option nat) : nat :=
  let iterations := Z.to_nat (Z.max 1 (ms / SLEEP_STEP)) in
  match stoppedFrom with Some k => Nat.min k iterations | None => iterations end.

(** ** Health (health.ts) *)

Record PollerHealth := {
  h_running : bool; h_fatal : option string; h_startedAt : option Z; h_lastPollOkAt : option Z; h_lastLedger : option Z; h_lastEventCloseTs : option Z }.

Definition health (p : Poller) : PollerHealth := {|
  h_running := running p && negb (stopped p); h_fatal := p_fatal p; h_startedAt := startedAt p; h_lastPollOkAt := lastPollOkAt p;
  h_lastLedger := p_lastLedger p; h_lastEventCloseTs := lastEventCloseTs p |}.

Record HealthPayload := {
  statusCode : Z; hp_status : string; hp_fatal : option string; hp_lastLedger : option Z; hp_pollAgeMs : option Z;
  hp_cursorLagSeconds : option Z; hp_cursorUpdatedAt : option Z }.

Definition buildHealthPayload (h : PollerHealth) (cursor : option PollCursor) (nowMs maxPollAgeMs : Z) : HealthPayload :=
  let pollAgeMs := (fun since => nowMs - since) <$> orKept (h_lastPollOkAt h) (h_startedAt h) in
  let healthy := h_running h && match h_fatal h with None => true | Some _ => false end
                 && match pollAgeMs with Some a => a <=? maxPollAgeMs | None => false end in
  {| statusCode := if healthy then 200 else 503; hp_status := if healthy then "ok" else "unhealthy"; hp_fatal := h_fatal h;
     hp_lastLedger := orKept (h_lastLedger h) (lastLedger <$> cursor); hp_pollAgeMs := pollAgeMs;
     hp_cursorLagSeconds := (fun t => Z.max 0 (nowMs / 1000 - t)) <$> h_lastEventCloseTs h;
     hp_cursorUpdatedAt := updatedAt <$> cursor |}.

(** [Math.max(60_000, config.pollIntervalMs * 10)] *)
Definition maxPollAgeMs (pollIntervalMs : Z) : Z := Z.max 60000 (pollIntervalMs * 10).

(** The request listener: [None] is 404; a cursor that cannot be read is null. *)
Definition healthz (url : string) (s : Shell) (cursorFails : bool) (nowMs pollIntervalMs : Z) : option HealthPayload :=
  match splitOn "?" url with
  | path :: _ =>
      if String.eqb path "/healthz" then
        Some (buildHealthPayload (health (poller s)) (if cursorFails then None else poll_cursor (s_db s)) nowMs (maxPollAgeMs pollIntervalMs))
      else None
  | [] => None
  end.

(** ** Lemmas: loading *)

#[export] Instance byName_total : Total byName.
Proof. intros a b. apply (total String.le). Qed.

#[export] Instance byName_trans : Transitive byName.
Proof. intros a b c. unfold byName. apply transitivity. Qed.

Lemma byName_sorted l : StronglySorted byName (merge_sort byName l).
Proof. apply (Sorted_StronglySorted _ _). apply (Sorted_merge_sort _ _). Qed.

(** Names that differ leave one order. *)
Lemma sorted_directory d1 d2 : d1 ≡ₚ d2 -> NoDup d1.*1 -> merge_sort byName d1 = merge_sort byName d2.
Proof.
  intros Hp Hnd. apply (StronglySorted_unique_strong byName); [|apply byName_sorted..|by rewrite !merge_sort_Permutation].
  intros x1 x2 H1 H2 R1 R2. rewrite merge_sort_Permutation in H1. rewrite merge_sort_Permutation, <- Hp in H2.
  assert (x1.1 = x2.1) as He by (apply (anti_symm String.le); [exact R1|exact R2]).
  apply list_elem_of_lookup in H1 as [i Hi], H2 as [j Hj].
  assert (i = j) as <-; [|congruence].
  eapply (NoDup_lookup d1.*1); [done|rewrite list_lookup_fmap, Hi; reflexivity|rewrite list_lookup_fmap, Hj, He; reflexivity].
Qed.

Lemma bfilter_permutation {A} (p : A -> bool) l k : l ≡ₚ k -> bfilter p l ≡ₚ bfilter p k.
Proof.
  induction 1 as [|x l k _ IH|x y l|l k m _ IH1 _ IH2]; cbn; [done| |by destruct (p x), (p y); [apply Permutation_swap|..]|by etrans].
  destruct (p x); [by apply Permutation_skip|done].
Qed.

Lemma bfilter_NoDup_fst {A B} (p : A * B -> bool) l : NoDup l.*1 -> NoDup (bfilter p l).*1.
Proof.
  induction l as [|x l IH]; cbn; [done|]. rewrite NoDup_cons. intros [Hx Hl]. destruct (p x); [|auto]. cbn. rewrite NoDup_cons. split; [|auto].
  intros (y & He & Hy)%list_elem_of_fmap. apply elem_of_bfilter in Hy as [Hy _]. apply Hx. rewrite He. apply list_elem_of_fmap. by exists y.
Qed.

Lemma firstDuplicate_none ms : forall byId, firstDuplicate byId ms = None ->
  NoDup (m_id <$> ms) /\ forall m, m ∈ ms -> byId !! m_id m = None.
Proof.
  induction ms as [|m ms IH]; intros byId; cbn; [intros _; split; [constructor|by intros m ?%elem_of_nil]|].
  destruct (byId !! m_id m) as [seen|] eqn:Hm; [done|]. intros H. apply IH in H as [Hnd Hms]. split.
  - rewrite NoDup_cons. split; [|done]. intros (m' & He & Hin)%list_elem_of_fmap. specialize (Hms m' Hin). rewrite He, lookup_insert_eq in Hms. done.
  - intros m' [->|Hin]%elem_of_cons; [done|]. specialize (Hms m' Hin). by apply lookup_insert_None in Hms as [? _].
Qed.

Lemma loaded_ids_differ directory ms : loadMigrations directory = inr ms -> NoDup (m_id <$> ms).
Proof.
  unfold loadMigrations, Ok. destruct (readAll _) as [e|l]; [done|]. destruct (firstDuplicate ∅ l) as [[]|] eqn:Hf; [done|].
  intros [= <-]. by apply firstDuplicate_none in Hf as [].
Qed.

(** ** Lemmas: applying *)

Section apply_facts.
Context {S : Type} (exec : string -> S -> Result S).

Lemma applyAll_app ms1 ms2 s : applyAll exec (ms1 ++ ms2) s = match applyAll exec ms1 s with inl e => inl e | inr s => applyAll exec ms2 s end.
Proof. revert s. induction ms1 as [|m ms1 IH]; intros s; cbn; [done|]. destruct (runStatements _ _ _); [done|]. apply IH. Qed.

(** A transaction that commits: what it did to the schema, and one record. *)
Lemma migrateOne_inv m a db db' : migrateOne exec m a db = inr db' ->
  applyAll exec [m] (schema db) = inr (schema db') /\ versions db !! m_id m = None /\ versions db' = <[m_id m := (m_name m, at_ a)]> (versions db).
Proof.
  unfold migrateOne, Ok. destruct (fault a); [done|]. cbn. destruct (runStatements _ _ _) as [e|s]; [done|].
  destruct (versions db !! m_id m) eqn:Hv; [done|]. by intros [= <-].
Qed.

Lemma pendingOf_all ms (db : MigDb S) : (forall m, m ∈ ms -> versions db !! m_id m = None) -> pendingOf ms db = ms.
Proof.
  induction ms as [|m ms IH]; cbn; [done|]. intros H. rewrite (H m) by by left. f_equal. apply IH. intros m' Hm'. apply H. by right.
Qed.

Lemma pendingOf_none ms (db : MigDb S) : (forall m, m ∈ ms -> is_Some (versions db !! m_id m)) -> pendingOf ms db = [].
Proof.
  induction ms as [|m ms IH]; cbn; [done|]. intros H. destruct (H m) as [v ->]; [by left|]. apply IH. intros m' Hm'. apply H. by right.
Qed.

Lemma pendingOf_app ms1 ms2 (db : MigDb S) : pendingOf (ms1 ++ ms2) db = pendingOf ms1 db ++ pendingOf ms2 db.
Proof. apply bfilter_app. Qed.

Lemma pending_unrecorded ms (db : MigDb S) m : m ∈ pendingOf ms db <-> m ∈ ms /\ versions db !! m_id m = None.
Proof. unfold pendingOf. rewrite elem_of_bfilter. destruct (versions db !! m_id m); split; by intros []. Qed.

(** The loop over a list of distinct migrations none of which is recorded. *)
Lemma runPending_inv attempt ms : forall db applied e db',
  runPending exec attempt ms db = (applied, e, db') ->
  (exists rest, ms = applied ++ rest /\ (e = None <-> rest = []))
  /\ applyAll exec applied (schema db) = inr (schema db')
  /\ (forall id, is_Some (versions db' !! id) <-> is_Some (versions db !! id) \/ id ∈ (m_id <$> applied)).
Proof.
  induction ms as [|m ms IH]; intros db applied e db'; cbn.
  - intros [= <- <- <-]. split; [by exists []|]. split; [done|]. intros id. rewrite elem_of_nil. tauto.
  - destruct (migrateOne exec m (attempt m) db) as [err|db1] eqn:Hm.
    + intros [= <- <- <-]. split; [exists (m :: ms); by split|]. split; [done|]. intros id. rewrite elem_of_nil. tauto.
    + destruct (runPending exec attempt ms db1) as [[applied1 e1] db2] eqn:Hr. intros [= <- <- <-].
      apply IH in Hr as ((rest & -> & He) & Ha & Hv). apply migrateOne_inv in Hm as (H1 & _ & Hv1).
      split; [by exists rest|]. split.
      * change (m :: applied1) with ([m] ++ applied1). by rewrite applyAll_app, H1.
      * intros id. rewrite Hv, Hv1. cbn. rewrite elem_of_cons. destruct (decide (id = m_id m)) as [->|Hne].
        -- rewrite lookup_insert_eq. split; [tauto|]. intros _. left. by eexists.
        -- rewrite lookup_insert_ne by done. tauto.
Qed.
End apply_facts.

(** ** Theorems: migrations *)

(** The order the directory is listed in does not matter: the same files
    give the same migrations, or the same refusal. *)
Theorem directory_order_is_irrelevant d1 d2 : d1 ≡ₚ d2 -> NoDup d1.*1 -> loadMigrations d1 = loadMigrations d2.
Proof.
  intros Hp Hnd. unfold loadMigrations.
  by rewrite (sorted_directory _ _ (bfilter_permutation (fun f => endsWith ".sql" f.1) _ _ Hp) (bfilter_NoDup_fst _ _ Hnd)).
Qed.

(** A run of the migrations takes the database exactly as far as it reports:
    what is applied are the files not yet recorded, in their order, up to the
    first that fails; each leaves its statements and its record together and a
    failing one leaves neither; and when the run succeeds every file is
    recorded and the next run does nothing. *)
Theorem migration_run_is_exact {S} (exec : string -> S -> Result S) directory attempt db r db' ms :
  loadMigrations directory = inr ms -> runMigrations exec directory attempt db = (r, db') ->
  exists applied rest, pendingOf ms db = applied ++ rest
    /\ applyAll exec applied (schema db) = inr (schema db')
    /\ (forall id, is_Some (versions db' !! id) <-> is_Some (versions db !! id) \/ id ∈ (m_id <$> applied))
    /\ match r with
       | inr l => l = applied /\ rest = [] /\ forall attempt', runMigrations exec directory attempt' db' = (Ok [], db')
       | inl _ => rest <> []
       end.
Proof.
  intros Hl. unfold runMigrations. rewrite Hl. destruct (runPending exec attempt (pendingOf ms db) db) as [[applied e] db1] eqn:Hr.
  intros [= <- <-]. apply runPending_inv in Hr as ((rest & Hp & He) & Ha & Hv). exists applied, rest. split; [done|]. split; [done|]. split; [done|].
  destruct e as [e|]; [intros Hrest; by apply He in Hrest|]. assert (rest = []) as -> by by apply He. split; [done|]. split; [done|].
  intros attempt'. rewrite pendingOf_none; [done|]. intros m Hm. apply Hv.
  destruct (versions db !! m_id m) as [v|] eqn:Hmv; [left; by eexists|right]. rewrite app_nil_r in Hp.
  apply list_elem_of_fmap. exists m. split; [done|]. rewrite <- Hp. by apply pending_unrecorded.
Qed.

(** What holds between transactions: the first [k] migrations are applied and
    recorded, and a runner's list starts at one of them or at the next. *)
Record inStep {S} (exec : string -> S -> Result S) (ms : list Migration) (db0 : MigDb S) (s : Sys S) (k : nat) : Prop := {
  st_le : (k <= length ms)%nat;
  st_history : history s = take k ms;
  st_schema : applyAll exec (take k ms) (schema db0) = inr (schema (db_ s));
  st_done : forall m, m ∈ take k ms -> is_Some (versions (db_ s) !! m_id m);
  st_open : forall m, m ∈ drop k ms -> versions (db_ s) !! m_id m = None;
  st_runners : forall r p, runners s !! r = Some p -> exists j, (j <= k)%nat /\ p = drop j ms }.

Lemma inStep_step {S} (exec : string -> S -> Result S) ms db0 s k act :
  NoDup (m_id <$> ms) -> inStep exec ms db0 s k -> exists k', inStep exec ms db0 (sysStep exec ms s act) k'.
Proof.
  intros Hnd [Hle Hh Hs Hd Ho Hr]. destruct act as [r|r a]; cbn [sysStep].
  - exists k. split; try done. cbn. intros r' p. destruct (decide (r' = r)) as [->|Hne].
    + rewrite lookup_insert_eq. intros [= <-]. exists k. split; [done|].
      rewrite <- (take_drop k ms) at 1. by rewrite pendingOf_app, (pendingOf_none (take k ms)), (pendingOf_all (drop k ms)).
    + rewrite lookup_insert_ne by done. apply Hr.
  - destruct (runners s !! r) as [[|m rest]|] eqn:Hp; [by exists k| |by exists k].
    destruct (Hr r (m :: rest) Hp) as (j & Hj & Hdrop). symmetry in Hdrop.
    assert (ms !! j = Some m) as Hmj by (rewrite <- (Nat.add_0_r j), <- lookup_drop, Hdrop; reflexivity).
    destruct (migrateOne exec m a (db_ s)) as [e|db] eqn:Hm.
    + exists k. split; try done. cbn. intros r' p. rewrite lookup_delete_Some. intros [_ H]. by apply (Hr r').
    + apply migrateOne_inv in Hm as (Hsch & Hnone & Hv).
      assert (j = k) as ->.
      { destruct (decide (j = k)) as [|Hne]; [done|]. destruct (Hd m) as [v Hv']; [|congruence].
        apply list_elem_of_lookup. exists j. rewrite lookup_take_lt by lia. done. }
      exists (Datatypes.S k). assert (take (Datatypes.S k) ms = take k ms ++ [m]) as Htk by by apply take_S_r.
      split; cbn; rewrite ?Htk.
      * apply lookup_lt_Some in Hmj. lia.
      * by rewrite Hh.
      * by rewrite applyAll_app, Hs.
      * intros m' [Hm'|Hm']%elem_of_app; rewrite Hv.
        -- destruct (decide (m_id m' = m_id m)) as [->|]; [rewrite lookup_insert_eq; by eexists|rewrite lookup_insert_ne by done; by apply Hd].
        -- apply list_elem_of_singleton in Hm' as ->. rewrite lookup_insert_eq. by eexists.
      * intros m' Hm'. rewrite Hv. assert (m' ∈ drop k ms) as Hin by (rewrite (drop_S ms m k) by done; by right).
        rewrite lookup_insert_ne; [by apply Ho|]. intros He.
        apply list_elem_of_lookup in Hm' as [i Hi]. rewrite lookup_drop in Hi.
        assert (k = Datatypes.S k + i)%nat; [|lia].
        eapply (NoDup_lookup _ _ _ (m_id m) Hnd); rewrite list_lookup_fmap, ?Hmj, ?Hi; cbn; congruence.
      * intros r' p. destruct (decide (r' = r)) as [->|Hne].
        -- rewrite lookup_insert_eq. intros [= <-]. exists (Datatypes.S k). split; [lia|].
           rewrite (drop_S ms m k) in Hdrop by done. by injection Hdrop.
        -- rewrite lookup_insert_ne by done. intros H. destruct (Hr r' p H) as (i & Hi & ->). exists i. split; [lia|done].
Qed.

(** C39. However many processes migrate one database at once, and wherever any
    of them fails or is started again, the outcome is that of one run: what was
    committed is an initial part of the files in their order, each once, the
    schema is what those make of the first one, and exactly those are recorded. *)
Theorem concurrent_migrations_are_one_run {S} (exec : string -> S -> Result S) directory ms db0 acts :
  loadMigrations directory = inr ms -> (forall m, m ∈ ms -> versions db0 !! m_id m = None) ->
  let s := foldl (sysStep exec ms) {| db_ := db0; runners := ∅; history := [] |} acts in
  exists k, history s = take k ms /\ applyAll exec (history s) (schema db0) = inr (schema (db_ s))
    /\ forall m, m ∈ ms -> (is_Some (versions (db_ s) !! m_id m) <-> m ∈ history s).
Proof.
  intros Hl Hfresh s. pose proof (loaded_ids_differ _ _ Hl) as Hnd.
  assert (exists k, inStep exec ms db0 s k) as [k [Hle Hh Hs Hd Ho Hr]].
  { unfold s. clear s. assert (forall s0 k, inStep exec ms db0 s0 k -> exists k', inStep exec ms db0 (foldl (sysStep exec ms) s0 acts) k') as Hgo.
    { induction acts as [|a acts IH]; cbn; [by intros s0 k; exists k|]. intros s0 k Hk. destruct (inStep_step _ _ _ _ _ a Hnd Hk) as [k' Hk']. by eapply IH. }
    apply (Hgo _ 0%nat). split; cbn; [lia|done..|by intros m ?%elem_of_nil|done|intros r p; by rewrite lookup_empty]. }
  exists k. split; [done|]. rewrite Hh. split; [done|]. intros m Hm. split; [|apply Hd]. intros Hv.
  rewrite <- (take_drop k ms) in Hm. apply elem_of_app in Hm as [Hm|Hm]; [done|]. rewrite (Ho m Hm) in Hv. by destruct Hv.
Qed.

(** ** Theorems: statements of a file *)

Definition newline : string := String (Ascii.ascii_of_nat 10) EmptyString.

(** Statements written one after the other, a marker on a line between two. *)
Fixpoint joined (l : list string) : string :=
  match l with
  | [] => EmptyString
  | [q] => q
  | q :: l => q +:+ newline +:+ "--# split" +:+ newline +:+ joined l
  end.

(** A statement as the runner sends it: not blank, no blanks around it, and
    nowhere the start of a marker. *)
Definition plainStatement (q : string) : bool :=
  match q with
  | EmptyString => false
  | String c _ => negb (isSpace c) && String.eqb (trimEnd q) q && negb (includes q "--#")
  end.

(** A marker does not start in text without one, whatever line follows it. *)
Lemma no_marker_in q rest : includes q "--#" = false -> q <> EmptyString -> (forall c r, rest = String c r -> isLineEnd c = true) -> markerAt (q +:+ rest) = None.
Proof.
  intros Hq Hne Hr. unfold markerAt. destruct (stripPrefix "--#" (q +:+ rest)) as [s|] eqn:Hs; [|done]. exfalso.
  assert (forall c r, rest = String c r -> c <> "-"%char /\ c <> "#"%char) as Hc.
  { intros c r Hcr. specialize (Hr c r Hcr). split; intros ->; discriminate Hr. }
  assert (startsWith "--#" q = false) as Hst.
  { unfold includes in Hq. destruct q; cbn [suffixes existsb] in Hq; by apply orb_false_iff in Hq as [? _]. }
  unfold startsWith in Hst.
  destruct q as [|a [|b [|d q]]]; [done| | |]; rewrite !str_app_cons, ?str_app_nil in Hs; cbn [stripPrefix] in Hs, Hst.
  - destruct (Ascii.eqb_spec "-" a); [|done]. destruct rest as [|x rest]; [done|]. destruct (Hc x rest eq_refl) as [Hx _].
    destruct (Ascii.eqb_spec "-" x); [congruence|done].
  - destruct (Ascii.eqb "-" a); [|done]. destruct (Ascii.eqb "-" b); [|done]. destruct rest as [|x rest]; [done|].
    destruct (Hc x rest eq_refl) as [_ Hx]. destruct (Ascii.eqb_spec "#" x); [congruence|done].
  - destruct (Ascii.eqb "-" a); [|done]. destruct (Ascii.eqb "-" b); [|done]. by destruct (Ascii.eqb "#" d).
Qed.

Lemma includes_tail c q p : includes (String c q) p = false -> includes q p = false.
Proof. unfold includes. cbn [suffixes existsb]. by intros [_ ?]%orb_false_iff. Qed.

(** Text without a marker goes into the piece that follows it. *)
Lemma splitFrom_piece q : forall rest fuel bol,
  includes q "--#" = false -> (forall c r, rest = String c r -> isLineEnd c = true) ->
  exists bol', splitFrom (String.length q + fuel) bol (q +:+ rest)
    = match splitFrom fuel bol' rest with [] => [] | w :: ws => (q +:+ w) :: ws end.
Proof.
  induction q as [|c q IH]; intros rest fuel bol Hq Hr.
  - exists bol. cbn [String.length Nat.add]. rewrite str_app_nil. destruct (splitFrom fuel bol rest) as [|w ws]; [done|by rewrite str_app_nil].
  - destruct (IH rest fuel (isLineEnd c) (includes_tail _ _ _ Hq) Hr) as [bol' He]. exists bol'.
    cbn [String.length Nat.add splitFrom].
    assert ((if bol then markerAt (String c q +:+ rest) else None) = None) as -> by (destruct bol; [by apply no_marker_in|done]).
    rewrite str_app_cons, He. destruct (splitFrom fuel bol' rest) as [|w ws]; [done|by rewrite str_app_cons].
Qed.

Lemma substring_self s : String.substring 0 (String.length s) s = s.
Proof. induction s as [|c s IH]; [done|]. cbn. by rewrite IH. Qed.

(** A marker on a line of its own, a statement after it. *)
Lemma markerAt_line c r : isSpace c = false -> markerAt ("--# split" +:+ newline +:+ String c r) = Some (newline +:+ String c r).
Proof.
  intros Hc. set (t := newline +:+ String c r).
  change ("--# split" +:+ t) with ("--#" +:+ (" split" +:+ t)). unfold markerAt.
  assert (stripPrefix "--#" ("--#" +:+ (" split" +:+ t)) = Some (" split" +:+ t)) as -> by reflexivity.
  assert ((span isSpace (" split" +:+ t)).2 = "split" +:+ t) as -> by reflexivity. cbv zeta.
  assert (String.substring 0 5 ("split" +:+ t) = "split"%string) as -> by (change ("split" +:+ t) with (String "s" (String "p" (String "l" (String "i" (String "t" t))))); by destruct t).
  assert (String.substring 5 (String.length ("split" +:+ t) - 5) ("split" +:+ t) = t) as ->.
  { change ("split" +:+ t) with (String "s" (String "p" (String "l" (String "i" (String "t" t))))). cbn [String.length Nat.sub String.substring].
    rewrite Nat.sub_0_r. apply substring_self. }
  assert (span isSpace t = (newline, String c r)) as ->; [|reflexivity].
  unfold t, newline. rewrite str_app_cons, str_app_nil. cbn [span]. rewrite Hc. reflexivity.
Qed.

Lemma splitFrom_marker fuel bol c r : isSpace c = false ->
  splitFrom (3 + fuel) bol (newline +:+ "--# split" +:+ newline +:+ String c r)
  = newline :: match splitFrom fuel true (String c r) with [] => [] | w :: ws => (newline +:+ w) :: ws end.
Proof.
  intros Hc. pose proof (markerAt_line c r Hc) as Hm. cbn [Nat.add splitFrom]. set (marker := "--# split" +:+ newline +:+ String c r) in *.
  unfold newline. rewrite !str_app_cons, !str_app_nil.
  assert ((if bol then markerAt (String (Ascii.ascii_of_nat 10) marker) else None) = None) as -> by (by destruct bol).
  change (isLineEnd (Ascii.ascii_of_nat 10)) with true. cbn [splitFrom]. rewrite Hm. unfold newline. rewrite str_app_cons, str_app_nil.
  cbn [splitFrom]. change (isLineEnd (Ascii.ascii_of_nat 10)) with true. by destruct (splitFrom fuel true (String c r)).
Qed.

Lemma plainStatement_spec q : plainStatement q = true ->
  exists c r, q = String c r /\ isSpace c = false /\ trimEnd q = q /\ includes q "--#" = false.
Proof.
  unfold plainStatement. destruct q as [|c r]; [done|]. intros [[Hc He]%andb_true_iff Hi]%andb_true_iff.
  apply negb_true_iff in Hc, Hi. apply String.eqb_eq in He. by exists c, r.
Qed.

Lemma trimEnd_newline q : trimEnd (q +:+ newline) = trimEnd q.
Proof. induction q as [|c q IH]; [reflexivity|]. rewrite str_app_cons. cbn [trimEnd]. by rewrite IH. Qed.

Lemma trim_plain q : plainStatement q = true -> trim q = q /\ trim (q +:+ newline) = q.
Proof.
  intros (c & r & -> & Hc & He & _)%plainStatement_spec. unfold trim. rewrite str_app_cons. cbn [trimStart]. rewrite Hc. split; [done|].
  rewrite <- str_app_cons. by rewrite trimEnd_newline.
Qed.

Lemma trim_newline_front w : trim (newline +:+ w) = trim w.
Proof. reflexivity. Qed.

Lemma joined_head q l : forallb plainStatement (q :: l) = true -> exists c r, joined (q :: l) = String c r /\ isSpace c = false.
Proof.
  intros [(c & r & -> & Hc & _)%plainStatement_spec _]%andb_true_iff.
  destruct l; cbn [joined]; [by exists c, r|]. rewrite str_app_cons. by eexists _, _.
Qed.

Lemma splitFrom_empty fuel bol : splitFrom fuel bol EmptyString = [EmptyString].
Proof. by destruct fuel, bol. Qed.

Lemma splitFrom_joined q l : forall fuel bol,
  forallb plainStatement (q :: l) = true -> (String.length (joined (q :: l)) < fuel)%nat ->
  exists w ws, splitFrom fuel bol (joined (q :: l)) = w :: ws /\ bfilter truthy (trim <$> w :: ws) = q :: l.
Proof.
  revert q. induction l as [|q' l IH]; intros q fuel bol Hp Hf; pose proof Hp as [Hq Hl]%andb_true_iff;
    destruct (trim_plain q Hq) as [Ht1 Ht2]; pose proof (plainStatement_spec q Hq) as (c & r & Hqr & _ & _ & Hi).
  - cbn [joined] in *. replace fuel with (String.length q + (fuel - String.length q))%nat by lia.
    destruct (splitFrom_piece q EmptyString (fuel - String.length q) bol Hi) as [bol' He]; [done|]. rewrite splitFrom_empty, str_app_nil_r in He.
    exists q, []. split; [done|]. cbn [fmap list_fmap bfilter]. rewrite Ht1, Hqr. done.
  - destruct (joined_head q' l Hl) as (c' & r' & Hj & Hc').
    change (joined (q :: q' :: l)) with (q +:+ (newline +:+ "--# split" +:+ newline +:+ joined (q' :: l))) in *.
    rewrite !length_append in Hf. set (f := (fuel - String.length q - 3)%nat). change (String.length newline) with 1%nat in Hf.
    change (String.length "--# split") with 9%nat in Hf.
    replace fuel with (String.length q + (3 + f))%nat by (unfold f; lia).
    destruct (splitFrom_piece q (newline +:+ "--# split" +:+ newline +:+ joined (q' :: l)) (3 + f) bol Hi) as [bol' ->].
    { intros x y Hxy. injection Hxy as <- _. reflexivity. }
    destruct (IH q' f true Hl) as (w & ws & Hw & Hws); [unfold f; lia|]. rewrite Hj in Hw |- *. rewrite (splitFrom_marker f bol' c' r' Hc'), Hw.
    exists (q +:+ newline), ((newline +:+ w) :: ws). split; [done|].
    assert (forall x, bfilter truthy (trim <$> x :: (newline +:+ w) :: ws) = bfilter truthy (trim <$> [x]) ++ bfilter truthy (trim <$> w :: ws)) as ->.
    { intros x. rewrite <- bfilter_app. reflexivity. }
    rewrite Hws. cbn [fmap list_fmap bfilter]. rewrite Ht2, Hqr. done.
Qed.

(** What is written is what is run: a file of statements with a marker line
    between each two is taken apart into exactly those statements, in order. *)
Theorem statements_roundtrip l : forallb plainStatement l = true -> statements (joined l) = l.
Proof.
  destruct l as [|q l]; [reflexivity|]. intros Hp. unfold statements, splitMarkers.
  destruct (splitFrom_joined q l (Datatypes.S (String.length (joined (q :: l)))) true Hp) as (w & ws & -> & Hw); [lia|exact Hw].
Qed.

(** ** Theorems: start *)

Lemma syncVaultRow_lookup chain factory vs id id' :
  syncVaultRow chain factory id vs !! id' =
  (if decide (id' = id) then (fun r => match view_vault chain factory id with Some o => syncedRow o r | None => r end) <$> vs !! id else vs !! id').
Proof.
  unfold syncVaultRow. destruct (view_vault chain factory id) as [o|]; destruct (decide (id' = id)) as [->|Hne].
  - apply lookup_alter_eq.
  - by apply lookup_alter_ne.
  - by destruct (vs !! id).
  - done.
Qed.

Lemma reconcile_lookup chain factory ids : forall vs id,
  NoDup ids -> foldl (fun vs id => syncVaultRow chain factory id vs) vs ids !! id =
  (if decide (id ∈ ids) then (fun r => match view_vault chain factory id with Some o => syncedRow o r | None => r end) <$> vs !! id else vs !! id).
Proof.
  induction ids as [|i ids IH]; intros vs id Hnd; cbn [foldl]; [by rewrite decide_False by by apply not_elem_of_nil|].
  apply NoDup_cons in Hnd as [Hi Hnd]. rewrite IH by done. rewrite syncVaultRow_lookup.
  destruct (decide (id = i)) as [->|Hne].
  - rewrite decide_False by done. by rewrite decide_True by by left.
  - destruct (decide (id ∈ ids)); [by rewrite decide_True by by right|rewrite decide_False; [done|]]. by rewrite elem_of_cons; intros [?|?].
Qed.

(** When the indexer starts with a factory, the vaults it goes on with are
    that factory's: rows of any other are gone, and each that is left holds the
    chain's figures where the chain could be read, and its own otherwise. *)
Theorem boot_leaves_live_vaults chain factory t id :
  isBlank factory = false ->
  vaults (bootVaults chain (Some factory) 5 true t) !! id =
  (r ← vaults t !! id;
   if decide (v_contract_id r = factory) then Some (match view_vault chain factory id with Some o => syncedRow o r | None => r end) else None).
Proof.
  intros Hb. unfold bootVaults, reconcileAllVaults. cbn [vaults].
  assert (vaults (pruneUpTo 5 factory t) = liveRows v_contract_id factory (vaults t)) as ->.
  { unfold pruneUpTo, pruneRetiredFactoryRows. rewrite Hb. reflexivity. }
  set (vs := liveRows v_contract_id factory (vaults t)).
  assert (vs !! id = (r ← vaults t !! id; if decide (v_contract_id r = factory) then Some r else None)) as Hvs.
  { unfold vs, liveRows. rewrite map_lookup_filter. destruct (vaults t !! id) as [r|]; [|done]. cbn. unfold guard. by destruct (decide (v_contract_id r = factory)). }
  rewrite reconcile_lookup by apply NoDup_fst_map_to_list.
  assert (id ∈ (map_to_list vs).*1 <-> is_Some (vs !! id)) as Hin.
  { rewrite list_elem_of_fmap. split; [intros ([? r] & -> & H%elem_of_map_to_list); by exists r|intros [r Hr]; exists (id, r); by rewrite elem_of_map_to_list]. }
  destruct (decide (id ∈ (map_to_list vs).*1)) as [H|H].
  - rewrite Hvs. destruct (vaults t !! id) as [r|]; [cbn|done]. by destruct (decide (v_contract_id r = factory)).
  - assert (vs !! id = None) as Hnone by (destruct (vs !! id) eqn:E; [exfalso; apply H, Hin; by eexists|done]). rewrite Hnone. rewrite Hnone in Hvs.
    destruct (vaults t !! id) as [r|]; [cbn in *|done]. by destruct (decide (v_contract_id r = factory)).
Qed.

(** ** Theorems: health *)

Definition newShell (db : Db) (pool : RpcPool) : Shell := {| poller := newPoller; s_db := db; s_pool := pool |}.

(** A poll that completed at a time in a run. *)
Definition completedAt cs cold s0 (es : list ShellEvent) (t : Z) : Prop :=
  exists pre inp post n, es = pre ++ Turn inp t :: post
    /\ result (pollOnce cs inp cold (s_db (shellRun cs cold s0 pre)) (s_pool (shellRun cs cold s0 pre))) = Completed n.

Lemma completedAt_snoc cs cold s0 es e t : completedAt cs cold s0 es t -> completedAt cs cold s0 (es ++ [e]) t.
Proof. intros (pre & inp & post & n & -> & H). exists pre, inp, (post ++ [e]), n. split; [by rewrite <- app_assoc|done]. Qed.

Record tells cs cold s0 (es : list ShellEvent) (p : Poller) : Prop := {
  t_stop : stopped p = false -> Stop ∉ es;
  t_fatal : is_Some (p_fatal p) -> stopped p = true;
  t_start : forall t, startedAt p = Some t -> Start t ∈ es;
  t_poll : forall t, lastPollOkAt p = Some t -> completedAt cs cold s0 es t }.

Lemma shellRun_tells cs cold db pool es : tells cs cold (newShell db pool) es (poller (shellRun cs cold (newShell db pool) es)).
Proof.
  set (s0 := newShell db pool). induction es as [|e es [Hs Hf Ht Hp]] using rev_ind.
  - split; cbn; [intros _; apply not_elem_of_nil|by intros []|done|done].
  - unfold shellRun. rewrite foldl_app. cbn [foldl]. fold (shellRun cs cold s0 es).
    assert (e <> Stop -> tells cs cold s0 (es ++ [e]) (poller (shellRun cs cold s0 es))) as Hsame.
    { intros He. split; [intros H; rewrite elem_of_app, list_elem_of_singleton; intros [?|?]; [by apply Hs in H|by subst]
        |done|intros t H; apply elem_of_app; left; auto|intros t H; apply completedAt_snoc; auto]. }
    destruct e as [now| |inp endsAt]; cbn [shellStep].
    + destruct (running _); [by apply Hsame|]. destruct (Hsame ltac:(done)) as [H1 H2 H3 H4]. split; cbn; [done|done| |done].
      intros t [= ->]. apply elem_of_app. right. by left.
    + split; cbn; [done|done|intros t H; apply elem_of_app; left; auto|intros t H; apply completedAt_snoc; auto].
    + destruct (running _ && negb (stopped _)) eqn:Hr; [|by apply Hsame]. destruct (Hsame ltac:(done)) as [H1 H2 H3 H4].
      set (o := pollOnce cs inp cold (s_db (shellRun cs cold s0 es)) (s_pool (shellRun cs cold s0 es))). split; cbn.
      * intros [H _]%orb_false_iff. auto.
      * destruct (fatal o); [by rewrite orb_true_r|]. rewrite orb_false_r. auto.
      * auto.
      * intros t. destruct (result o) as [n|] eqn:Ho; [|auto]. intros [= <-]. by exists es, inp, [], n.
Qed.

(** A healthy answer means polling: when /healthz answers 200, the poller
    was started and never stopped, it missed no cursor, and a poll has
    completed, or the poller started, within the allowed age. *)
Theorem healthy_means_polling cs cold db pool es cursor now maxAge :
  let p := poller (shellRun cs cold (newShell db pool) es) in
  statusCode (buildHealthPayload (health p) cursor now maxAge) = 200 ->
  Stop ∉ es /\ p_fatal p = None
  /\ exists t, now - t <= maxAge /\ (completedAt cs cold (newShell db pool) es t \/ Start t ∈ es).
Proof.
  intros p. destruct (shellRun_tells cs cold db pool es) as [Hs Hf Ht Hp]. fold p in Hs, Hf, Ht, Hp.
  unfold buildHealthPayload, health. cbn [statusCode h_running h_fatal h_lastPollOkAt h_startedAt].
  destruct (_ && _ && _) eqn:Hall; [|done]. intros _.
  apply andb_true_iff in Hall as [[[_ Hst]%andb_true_iff Hfa]%andb_true_iff Hage]. apply negb_true_iff in Hst.
  split; [auto|]. split; [by destruct (p_fatal p)|].
  destruct (lastPollOkAt p) as [t|] eqn:Hl; cbn in Hage; [exists t; split; [lia|left; auto]|].
  destruct (startedAt p) as [t|] eqn:Hsa; cbn in Hage; [exists t; split; [lia|right; auto]|done].
Qed.

(** C14. A poller that lost its cursor to another stops for good: whatever is
    asked of it afterwards, it makes no poll, changes nothing in the database,
    and its health is 503 with the reason. *)
Theorem lost_cursor_is_final cs cold db pool es es' cursor now maxAge :
  let s := shellRun cs cold (newShell db pool) es in
  let s' := shellRun cs cold s es' in
  is_Some (p_fatal (poller s)) ->
  s_db s' = s_db s /\ s_pool s' = s_pool s
  /\ statusCode (buildHealthPayload (health (poller s')) cursor now maxAge) = 503
  /\ hp_fatal (buildHealthPayload (health (poller s')) cursor now maxAge) = p_fatal (poller s).
Proof.
  intros s s' Hf. pose proof (t_fatal _ _ _ _ _ (shellRun_tells cs cold db pool es) Hf) as Hs. fold s in Hs.
  assert (forall s1, stopped (poller s1) = true -> let s2 := shellRun cs cold s1 es' in
    stopped (poller s2) = true /\ s_db s2 = s_db s1 /\ s_pool s2 = s_pool s1 /\ p_fatal (poller s2) = p_fatal (poller s1)) as Hgo.
  { clear. unfold shellRun. induction es' as [|e es' IH]; cbn; [done|]. intros s1 Hs1.
    assert (stopped (poller (shellStep cs cold s1 e)) = true /\ s_db (shellStep cs cold s1 e) = s_db s1
      /\ s_pool (shellStep cs cold s1 e) = s_pool s1 /\ p_fatal (poller (shellStep cs cold s1 e)) = p_fatal (poller s1)) as (H1 & H2 & H3 & H4).
    { destruct e; cbn; [by destruct (running _)|done|]. by rewrite Hs1, andb_false_r. }
    destruct (IH _ H1) as (I1 & I2 & I3 & I4). rewrite <- H2, <- H3, <- H4. by split_and!. }
  destruct (Hgo s Hs) as (H1 & H2 & H3 & H4). fold s' in H1, H2, H3, H4. split; [done|]. split; [done|].
  unfold buildHealthPayload, health. cbn [statusCode hp_fatal h_running h_fatal]. rewrite H1, andb_false_r. done.
Qed.

(** A sleep lasts the interval, in whole steps and at least one, and ends within
    a step of a stop. *)
Lemma sleep_is_prompt ms stoppedFrom :
  (forall k, stoppedFrom = Some k -> (sleepSteps ms stoppedFrom <= k)%nat)
  /\ (stoppedFrom = None -> 250 <= 250 * Z.of_nat (sleepSteps ms stoppedFrom) <= Z.max 250 ms).
Proof.
  unfold sleepSteps, SLEEP_STEP. split; [intros k ->; apply Nat.le_min_l|intros ->].
  assert (250 * (ms / 250) <= ms) by (apply Z.mul_div_le; lia). lia.
Qed.

(** ** Concrete runs *)

(** The names of the files under indexer/migrations. *)
Definition migrationFiles : list string :=
  ["001_baseline.sql"; "002_rls_hardening.sql"; "003_bad_debt.sql"; "004_referral_volume.sql"; "005_leaderboard_join_index.sql";
   "006_lp_vault_projections.sql"; "007_vaults_factory_scope.sql"; "008_leaderboard_scope.sql"; "009_access_grants.sql"]%string.

Definition asDirectory (names : list string) : list (string * Result string) := (fun n => (n, Ok ("CREATE " +:+ n))) <$> names.

Example shipped_migrations_load :
  match loadMigrations (asDirectory (rev migrationFiles)) with
  | inr ms => m_filename <$> ms = migrationFiles /\ m_id <$> ms = seqZ 1 9
  | inl _ => False
  end.
Proof. vm_compute. by split. Qed.

(** A copy a file manager made is refused by name. *)
Example stray_copy_is_refused :
  match loadMigrations (asDirectory ["003_bad_debt.sql"; "003_bad_debt 2.sql"]%string) with inl e => startsWith "Duplicate migration id 3" e = true | inr _ => False end.
Proof. vm_compute. reflexivity. Qed.

(** Ids follow the names' order, not the numbers': a tenth file without the
    leading zeros comes before the second. *)
Example unpadded_ids_come_early :
  match loadMigrations (asDirectory ["10_tenth.sql"; "2_second.sql"]%string) with inr ms => m_id <$> ms = [10; 2] | inl _ => False end.
Proof. vm_compute. reflexivity. Qed.

(** A schema that is the list of the statements run; one that names "bad" fails. *)
Definition logged (q : string) (s : list string) : Result (list string) := if includes q "bad" then Err "syntax error"%string else Ok (s ++ [q]).

Definition atTime (t : Z) : Attempt := {| at_ := t; fault := None |}.
Definition emptyDb : MigDb (list string) := {| schema := []; versions := ∅ |}.

Definition twoFiles : list (string * Result string) :=
  [("001_a.sql", Ok ("CREATE a" +:+ newline +:+ "--# split" +:+ newline +:+ "CREATE b")); ("002_c.sql", Ok "CREATE c"%string)]%string.

Definition twoMigrations : list Migration := match loadMigrations twoFiles with inr ms => ms | inl _ => [] end.

(** Two runners start together: the second one's first transaction finds the
    record and it ends; the first goes on, and the statements ran once. *)
Definition raced : Sys (list string) :=
  foldl (sysStep logged twoMigrations) {| db_ := emptyDb; runners := ∅; history := [] |}
    [Starts 0; Starts 1; Works 0 (atTime 5); Works 1 (atTime 6); Works 0 (atTime 7)].

Example race_applies_once : schema (db_ raced) = ["CREATE a"; "CREATE b"; "CREATE c"]%string /\ m_id <$> history raced = [1; 2].
Proof. vm_compute. by split. Qed.

Lemma directory_order_is_irrelevant_witness : loadMigrations twoFiles = loadMigrations (rev twoFiles).
Proof.
  apply directory_order_is_irrelevant; [exact (Permutation_rev twoFiles)|].
  apply (bool_decide_unpack (NoDup twoFiles.*1)). vm_compute. exact I.
Defined.

Lemma migration_run_is_exact_witness : exists applied rest,
  pendingOf twoMigrations emptyDb = applied ++ rest /\ applyAll logged applied [] = inr ["CREATE a"; "CREATE b"; "CREATE c"]%string.
Proof.
  destruct (migration_run_is_exact logged twoFiles (fun _ => atTime 5) emptyDb
    (runMigrations logged twoFiles (fun _ => atTime 5) emptyDb).1 (runMigrations logged twoFiles (fun _ => atTime 5) emptyDb).2 twoMigrations)
    as (applied & rest & H1 & H2 & _); [vm_compute; reflexivity|apply surjective_pairing|].
  exists applied, rest. split; [exact H1|]. etransitivity; [exact H2|]. vm_compute. reflexivity.
Defined.

Lemma concurrent_migrations_are_one_run_witness : exists k, history raced = take k twoMigrations.
Proof.
  destruct (concurrent_migrations_are_one_run logged twoFiles twoMigrations emptyDb
    [Starts 0; Starts 1; Works 0 (atTime 5); Works 1 (atTime 6); Works 0 (atTime 7)]) as (k & Hk & _); [vm_compute; reflexivity|reflexivity|].
  exists k. exact Hk.
Defined.

Lemma statements_roundtrip_witness : statements (joined ["CREATE a"; "CREATE b"]%string) = ["CREATE a"; "CREATE b"]%string.
Proof. apply statements_roundtrip. vm_compute. reflexivity. Defined.

Lemma boot_leaves_live_vaults_witness : vaults (bootVaults {| get_position := fun _ _ => LookupFailed; view_vault := fun _ _ => None |} (Some "CFACTORY"%string) 5 true
  {| vaults := ∅; vault_deposits := ∅; vault_withdraws := ∅; vault_fee_claims := ∅; vault_trades := ∅ |}) !! 3 = None.
Proof. rewrite (boot_leaves_live_vaults _ "CFACTORY"); reflexivity. Defined.

(** Another process stores a cursor while this one's first batch is handled. *)
Definition overtakenInput : PollInput := {|
  now := 4; latestLedger := latestLedger cleanInput; oldestLedger := None; chain := chain cleanInput; read_fails := false; write_fails := false;
  gap_fails := false; dead_letter_fails := fun _ => false; faults := faults cleanInput; rival := Some (cursorAt 600) |}.

Definition startedAlone : list ShellEvent := [Start 0; Turn cleanInput 5].
Definition startedTwice : list ShellEvent := [Start 0; Turn overtakenInput 5].

Lemma healthy_means_polling_witness : exists t, 100 - t <= 60000 /\
  (completedAt contracts_abc 100 (newShell IndexerHandlers.emptyDb (livePool [raw_opened])) startedAlone t \/ Start t ∈ startedAlone).
Proof.
  destruct (healthy_means_polling contracts_abc 100 IndexerHandlers.emptyDb (livePool [raw_opened]) startedAlone None 100 60000) as (_ & _ & H);
    [vm_compute; reflexivity|exact H].
Defined.

Lemma lost_cursor_is_final_witness :
  let s := shellRun contracts_abc 100 (newShell IndexerHandlers.emptyDb (livePool [raw_opened])) startedTwice in
  poll_cursor (s_db (shellRun contracts_abc 100 s [Turn cleanInput 9; Start 10])) = Some (cursorAt 600)
  /\ hp_fatal (buildHealthPayload (health (poller (shellRun contracts_abc 100 s [Turn cleanInput 9; Start 10]))) None 11 60000) = Some "cursor_cas_miss"%string.
Proof.
  destruct (lost_cursor_is_final contracts_abc 100 IndexerHandlers.emptyDb (livePool [raw_opened]) startedTwice [Turn cleanInput 9; Start 10] None 11 60000)
    as (H1 & _ & _ & H2); [eexists; vm_compute; reflexivity|].
  cbv zeta. rewrite H1, H2. split; vm_compute; reflexivity.
Defined.
