(* ===== verification/ApiReader.v ===== *)
(** * What the gateway reads from the chain, and what it says of itself

    api/src/services/contractReader.ts (views by simulation, ledger entries of
    the market), the services on top of it (oracle.ts, pauseState.ts,
    shortfall.ts, the reads of capacity.ts) and /v1/health of routes/health.ts,
    with the web application's trust in it. What the RPC answers is the class
    [ReaderRpc]; a value is what scValToNative makes of it, and two keys are
    the same when their texts are. *)

From Stdlib Require Import SpecFloat.
From S2P Require Import Prelude JsText IndexerEvents IndexerDb IndexerHandlers ApiStats ApiBoard WebReads WebHistory JsNumber ApiCapacity ServiceConfig ApiHealth.
Open Scope Z_scope.
Open Scope js_scope.

(** ** Ledger entries and simulations *)

(** The key of a contract's entry: a name, and a symbol for keys that have one. *)
Definition DataKey : Type := string * option string.

Record Entries := { entries : option (list (DataKey * Native)); latest : option Z }.

Inductive SimAnswer := SimFailed (error : string) | SimNothing | SimValue (v : Native).

(** The endpoint: [inl] is a request that fails. *)
Class ReaderRpc := {
  getLedgerEntries : string -> list DataKey -> Result Entries;
  simulate : string -> string -> list string -> Result SimAnswer;
  getAccount : string -> Result Z }.

(** ** contractReader.ts *)

Definition ACCOUNT_TTL_MS : Z := 30000.
Definition LEDGER_KEY_CHUNK : nat := 50.

(** [cachedSource]: the account's sequence number and when it was fetched. *)
Definition SourceCache := option (Z * Z).

Section reader.
Context `{ReaderRpc} (sourceAccount : string).

(** [getSourceAccount]: a cached account is used with its next number. *)
Definition getSourceAccount (now : Z) (c : SourceCache) : Result Z * SourceCache :=
  match c with
  | Some (seq, fetchedAt) =>
      if now - fetchedAt <? ACCOUNT_TTL_MS then (Ok (seq + 1), Some (seq + 1, fetchedAt))
      else match getAccount sourceAccount with inl e => (Err e, c) | inr s => (Ok s, Some (s, now)) end
  | None => match getAccount sourceAccount with inl e => (Err e, c) | inr s => (Ok s, Some (s, now)) end
  end.

(** [read]: building the transaction takes the account's next number. *)
Definition read (contract method : string) (args : list string) (now : Z) (c : SourceCache) : Result Native * SourceCache :=
  match getSourceAccount now c with
  | (inl e, c) => (Err e, c)
  | (inr seq, c) =>
      let c := (fun a => (seq + 1, a.2)) <$> c in
      (match simulate contract method args with
       | inl e => Err e
       | inr (SimFailed e) => Err ("Contract read failed: " +:+ contract +:+ "." +:+ method +:+ ": " +:+ e)
       | inr SimNothing => Err ("Contract read returned no result: " +:+ contract +:+ "." +:+ method)
       | inr (SimValue v) => Ok v
       end, c)
  end.

(** [readOpenCounts]: the counts, a value that is not a number as [Some None]. *)
Definition countKey (name : string) : DataKey := (name, None).

(** The counters of a response: each is the last value given for its key. *)
Definition countStep (acc : option (option Z) * option (option Z)) (e : DataKey * Native) : option (option Z) * option (option Z) :=
  if bool_decide (e.1 = countKey "OpenPositionCount") then (Some (jsNumber e.2), acc.2)
  else if bool_decide (e.1 = countKey "OpenOrderCount") then (acc.1, Some (jsNumber e.2))
  else acc.

Definition readOpenCounts (market : string) : Result (option (option Z) * option (option Z)) :=
  match getLedgerEntries market [countKey "OpenPositionCount"; countKey "OpenOrderCount"] with
  | inl e => Err e
  | inr r => Ok (foldl countStep (None, None) (default [] (entries r)))
  end.

Definition exposureKey (symbol : string) : DataKey := ("AssetExposure"%string, Some symbol).

(** [bySymbol.get(key)] *)
Definition symbolOf (symbols : list string) (key : DataKey) : option string :=
  match key with
  | (name, Some s) => if String.eqb name "AssetExposure" && bool_decide (s ∈ symbols) then Some s else None
  | _ => None
  end.

(** The sizes of a tuple; [Ok None] is a value that is passed over. *)
Definition exposureOf (v : Native) : Result (option (Z * Z)) :=
  match v with
  | NArr (_ :: long :: _ :: short :: _) =>
      match jsBigInt long with
      | inl e => Err e
      | inr l => match jsBigInt short with inl e => Err e | inr s => Ok (Some (l, s)) end
      end
  | _ => Ok None
  end.

(** The entries of one response, in order. *)
Fixpoint takeEntries (symbols : list string) (es : list (DataKey * Native)) (exposure : gmap string (Z * Z)) : Result (gmap string (Z * Z)) :=
  match es with
  | [] => Ok exposure
  | (key, v) :: es =>
      match symbolOf symbols key with
      | Some s =>
          if truthy s then
            match exposureOf v with
            | inl e => Err e
            | inr None => takeEntries symbols es exposure
            | inr (Some x) => takeEntries symbols es (<[s := x]> exposure)
            end
          else takeEntries symbols es exposure
      | None => takeEntries symbols es exposure
      end
  end.

(** The loop over the keys in chunks; the list is longer than the chunks. *)
Fixpoint readChunks (fuel : nat) (market : string) (symbols todo : list string) (acc : gmap string (Z * Z) * option Z)
  : Result (gmap string (Z * Z) * option Z) :=
  match fuel, todo with
  | _, [] | O, _ => Ok acc
  | S fuel, _ =>
      match getLedgerEntries market (exposureKey <$> take LEDGER_KEY_CHUNK todo) with
      | inl e => Err e
      | inr r =>
          match takeEntries symbols (default [] (entries r)) acc.1 with
          | inl e => Err e
          | inr x => readChunks fuel market symbols (drop LEDGER_KEY_CHUNK todo) (x, match latest r with Some l => Some l | None => acc.2 end)
          end
      end
  end.

Definition zeros_ (symbols : list string) : gmap string (Z * Z) := foldl (fun m s => <[s := (0, 0)]> m) ∅ symbols.

Definition readAssetExposure (market : string) (symbols : list string) : Result (gmap string (Z * Z) * option Z) :=
  readChunks (length symbols) market symbols symbols (zeros_ symbols, None).

(** ** Services on top of it *)

(** [fetch] of oracle.ts: the first two values of what the shim answers. *)
Definition pairOf (v : Native) : Native * Native :=
  match v with NArr (a :: b :: _) => (a, b) | NArr [a] => (a, NUndef) | _ => (NUndef, NUndef) end.

Definition readHot (market vault : string) (symbols : list string) (values : string -> Result Native) : Result HotReads :=
  match readAssetExposure market symbols with
  | inl e => Err e
  | inr (x, l) =>
      match values "get_aum"%string, values "get_reserved_payout"%string, values "get_usdc_balance"%string, values "get_shortfall_reserve"%string with
      | inr a, inr r, inr u, inr s =>
          match jsBigInt a, jsBigInt r, jsBigInt u, jsBigInt s with
          | inr a, inr r, inr u, inr s =>
              Ok {| exposure := x; latestLedger := l; h_aum := a; h_reservedPayout := r; h_usdcBalance := u; h_shortfallReserve := s |}
          | inl e, _, _, _ | _, inl e, _, _ | _, _, inl e, _ | _, _, _, inl e => Err e
          end
      | inl e, _, _, _ | _, inl e, _, _ | _, _, inl e, _ | _, _, _, inl e => Err e
      end
  end.
End reader.

(** pauseState.ts *)
Record MarketPauseState := { supported : bool; mode : option (option Z); since : option (option Z) }.

Definition unsupported : MarketPauseState := {| supported := false; mode := None; since := None |}.

Definition PAUSE_TTL_MS : Z := 15000.

(** The load of [pauseState]: [answer] is the read of get_pause_state. *)
Definition loadPauseState (market : string) (answer : Result Native) : MarketPauseState :=
  if negb (truthy market) then unsupported
  else
    match answer with
    | inr (NArr (a :: b :: _)) => {| supported := true; mode := Some (jsNumber a); since := Some (jsNumber b) |}
    | _ => unsupported
    end.

Definition pauseState (market : string) (now loaded : Z) (answer : Result Native) (c : TtlCache MarketPauseState)
  : Result MarketPauseState * TtlCache MarketPauseState :=
  getOrLoad PAUSE_TTL_MS "pause" now loaded (Ok (loadPauseState market answer)) c.

(** shortfall.ts *)
Record AccountShortfall := { as_address : string; owed : string; reserve : string; as_supported : bool }.

Definition SHORTFALL_TTL_MS : Z := 5000.

(** [BigInt(v ?? 0).toString()] *)
Definition amountText (v : Native) : Result string :=
  match (match v with NNull | NUndef => Ok 0 | _ => jsBigInt v end) with inl e => Err e | inr z => Ok (decimalOfZ z) end.

Definition loadShortfall (vault address : string) (owedAnswer reserveAnswer : Result Native) : AccountShortfall :=
  let none := {| as_address := address; owed := "0"; reserve := "0"; as_supported := false |} in
  if negb (truthy vault) then none
  else
    match owedAnswer, reserveAnswer with
    | inr o, inr r =>
        match amountText o, amountText r with
        | inr o, inr r => {| as_address := address; owed := o; reserve := r; as_supported := true |}
        | _, _ => none
        end
    | _, _ => none
    end.

Definition accountShortfall (vault address : string) (now loaded : Z) (owedAnswer reserveAnswer : Result Native) (c : TtlCache AccountShortfall)
  : Result AccountShortfall * TtlCache AccountShortfall :=
  getOrLoad SHORTFALL_TTL_MS address now loaded (Ok (loadShortfall vault address owedAnswer reserveAnswer)) c.

(** ** GET /v1/health (routes/health.ts) *)

Definition COUNTS_TTL_MS : Z := 15000.
Definition COUNTS_RPC_TIMEOUT_MS : Z := 3000.

(** [withTimeout]: a promise that takes [taken] ms, or never settles. *)
Definition withTimeout {A} (p : option (Z * Result A)) (ms : Z) : Result A :=
  let late := Err ("timed out after " +:+ decimalOfZ ms +:+ "ms") in
  match p with
  | Some (taken, r) => if taken <? ms then r else late
  | None => late
  end.

Record CountsBlock := {
  chainOpenPositions : option (option Z); chainOpenOrders : option (option Z); indexedOpenPositions : option Z; drift : option bool }.

(** One sample: the chain's counters and the rows of the market's positions;
    a number that is NaN differs from every number. *)
Definition sampleCounts (chain : option (Z * Result (option (option Z) * option (option Z)))) (marketId : option string)
    (indexed : Result Z) : CountsBlock :=
  let c := match withTimeout chain COUNTS_RPC_TIMEOUT_MS with inr c => c | inl _ => (None, None) end in
  let n := match given marketId with Some _ => match indexed with inr n => Some n | inl _ => None end | None => None end in
  {| chainOpenPositions := c.1; chainOpenOrders := c.2; indexedOpenPositions := n;
     drift := match c.1, n with
              | Some x, Some n => Some (match x with Some x => negb (x =? n) | None => true end)
              | _, _ => None
              end |}.

(** The block from the cache, sampled when it is not there. *)
Definition countsBlock (now loaded : Z) (sample : CountsBlock) (c : TtlCache CountsBlock) : Result CountsBlock * TtlCache CountsBlock :=
  getOrLoad COUNTS_TTL_MS "counts" now loaded (Ok sample) c.

Record IndexerBlock := { ib_lastLedger : option Z; ib_lastUpdatedAt : option Z; ledgerAgeSeconds : option Z }.

(** [Math.max(0, Math.round(Date.now() / 1000 - updatedAt / 1000))] *)
Definition ageSeconds (now updatedAt : Z) : Z :=
  Z.max 0 (default 0 (roundZ (subN (divN (numberOfZ now) (numberOfZ 1000)) (divN (numberOfZ updatedAt) (numberOfZ 1000))))).

(** The cursor's row, if it was read and there is one. *)
Definition indexerBlock (now : Z) (cursor : Result (option PollCursor)) : IndexerBlock :=
  match cursor with
  | inr (Some c) => {| ib_lastLedger := Some (lastLedger c); ib_lastUpdatedAt := Some (IndexerHandlers.updatedAt c); ledgerAgeSeconds := Some (ageSeconds now (IndexerHandlers.updatedAt c)) |}
  | _ => {| ib_lastLedger := None; ib_lastUpdatedAt := None; ledgerAgeSeconds := None |}
  end.

Record GatewayHealth := {
  gh_network : string; gh_contracts : list (string * (string * Source)); gh_indexer : IndexerBlock;
  gh_market : Result MarketPauseState; gh_counts : Result CountsBlock }.

(** The route with its services configured, over the two caches. *)
Definition gatewayHealth (env : string -> option string) (m : Manifest) (now : Z) (cursor : Result (option PollCursor))
    (pauseAnswer : Result Native) (sample : CountsBlock) (pauses : TtlCache MarketPauseState) (counts : TtlCache CountsBlock)
  : GatewayHealth * TtlCache MarketPauseState * TtlCache CountsBlock :=
  let market := default ""%string (addressIn m "market") in
  let (p, pauses) := pauseState market now now pauseAnswer pauses in
  let (c, counts) := countsBlock now now sample counts in
  ({| gh_network := m_network m; gh_contracts := resolvedContracts env ECHOED_KEYS m; gh_indexer := indexerBlock now cursor;
      gh_market := p; gh_counts := c |}, pauses, counts).

(** What the web application reads in the answer. *)
Definition healthAnswer (h : GatewayHealth) : HealthAnswer :=
  HealthBody ((fun e => e.2.1) <$> List.find (fun e => String.eqb e.1 "market") (gh_contracts h)) (ledgerAgeSeconds (gh_indexer h)).

(** ** Lemmas *)

Section answers.
Context `{ReaderRpc} (ledger : gmap DataKey Native) (market : string).

(** The endpoint answers from a ledger: of the keys asked, those that exist,
    with their values, in any order. *)
Definition answersFrom : Prop := forall keys r, getLedgerEntries market keys = inr r ->
  forall k v, (k, v) ∈ default [] (entries r) <-> k ∈ keys /\ ledger !! k = Some v.

(** The sizes the ledger holds for a symbol, where there is a tuple of them. *)
Definition held (s : string) : option (Z * Z) :=
  match ledger !! exposureKey s with
  | Some v => match exposureOf v with inr o => o | inl _ => None end
  | None => None
  end.

Lemma symbolOf_key symbols key s : symbolOf symbols key = Some s <-> key = exposureKey s /\ s ∈ symbols.
Proof.
  unfold symbolOf, exposureKey. destruct key as [name [s'|]]; [|by split; [|intros []]].
  destruct (String.eqb_spec name "AssetExposure") as [->|Hne]; cbn [andb]; [|split; [done|by intros [[=] _]]].
  case_bool_decide; split; [by intros [= <-]|by intros [[= <-] _]|done|by intros [[= <-] ?]].
Qed.

Lemma takeEntries_spec symbols es : forall x x', takeEntries symbols es x = inr x' -> forall s, s ∈ symbols -> truthy s = true ->
  (x' !! s = x !! s /\ forall v, (exposureKey s, v) ∈ es -> exposureOf v = inr None)
  \/ exists v p, (exposureKey s, v) ∈ es /\ exposureOf v = inr (Some p) /\ x' !! s = Some p.
Proof.
  induction es as [|[key v] es IH]; intros x x'; cbn [takeEntries].
  - intros [= <-] s _ _. left. split; [done|]. by intros v ?%elem_of_nil.
  - assert (forall y, takeEntries symbols es y = inr x' -> forall s, s ∈ symbols -> truthy s = true ->
      (y !! s = x !! s) -> (key = exposureKey s -> exposureOf v = inr None) ->
      (x' !! s = x !! s /\ forall w, (exposureKey s, w) ∈ (key, v) :: es -> exposureOf w = inr None)
      \/ exists w p, (exposureKey s, w) ∈ (key, v) :: es /\ exposureOf w = inr (Some p) /\ x' !! s = Some p) as Hskip.
    { intros y Hy s Hs Ht Hys Hkey. destruct (IH y x' Hy s Hs Ht) as [[Hx Hno]|(w & p & Hin & Hw)].
      - left. split; [by rewrite Hx|]. intros w [[= <- <-]|Hw]%elem_of_cons; [by apply Hkey|by apply Hno].
      - right. exists w, p. split; [by right|done]. }
    destruct (symbolOf symbols key) as [s'|] eqn:Hs'.
    + apply symbolOf_key in Hs' as [-> Hin']. destruct (truthy s') eqn:Ht'.
      * destruct (exposureOf v) as [e|[p|]] eqn:Hv; [done| |]; intros Hrest s Hs Ht.
        -- destruct (decide (s' = s)) as [->|Hne].
           ++ destruct (IH _ _ Hrest s Hs Ht) as [[Hx _]|(w & q & Hin & Hw)].
              ** right. exists v, p. split; [by left|]. split; [done|]. by rewrite Hx, lookup_insert_eq.
              ** right. exists w, q. split; [by right|done].
           ++ apply (Hskip _ Hrest s Hs Ht); [by apply lookup_insert_ne|]. unfold exposureKey. by intros [= ->].
        -- by apply (Hskip _ Hrest s Hs Ht).
      * intros Hrest s Hs Ht. apply (Hskip _ Hrest s Hs Ht); [done|]. unfold exposureKey. intros [= ->]. congruence.
    + intros Hrest s Hs Ht. apply (Hskip _ Hrest s Hs Ht); [done|]. intros ->.
      assert (symbolOf symbols (exposureKey s) = Some s) by by apply symbolOf_key. congruence.
Qed.

Lemma readChunks_spec symbols : answersFrom -> forall fuel todo acc x l,
  readChunks fuel market symbols todo acc = inr (x, l) -> (length todo <= fuel)%nat -> todo ⊆ symbols ->
  forall s, s ∈ symbols -> truthy s = true ->
  x !! s = match held s with Some p => if decide (s ∈ todo) then Some p else acc.1 !! s | None => acc.1 !! s end.
Proof.
  intros Hans. induction fuel as [|fuel IH]; intros todo acc x l Hrun Hlen Hsub s Hs Ht.
  - destruct todo; [|cbn in Hlen; lia]. cbn in Hrun. injection Hrun as ->. by destruct (held s).
  - destruct todo as [|t todo'] eqn:Htodo; [cbn in Hrun; injection Hrun as ->; by destruct (held s)|]. rewrite <- Htodo in *.
    assert (length (drop LEDGER_KEY_CHUNK todo) <= fuel)%nat as Hlen'.
    { rewrite length_drop. assert (length todo = Datatypes.S (length todo')) by by rewrite Htodo. unfold LEDGER_KEY_CHUNK. lia. }
    assert (readChunks (Datatypes.S fuel) market symbols todo acc =
      match getLedgerEntries market (exposureKey <$> take LEDGER_KEY_CHUNK todo) with
      | inl e => Err e
      | inr r => match takeEntries symbols (default [] (entries r)) acc.1 with
                 | inl e => Err e
                 | inr y => readChunks fuel market symbols (drop LEDGER_KEY_CHUNK todo) (y, match latest r with Some l => Some l | None => acc.2 end)
                 end
      end) as Hstep by by rewrite Htodo.
    rewrite Hstep in Hrun. clear Hstep Htodo. destruct (getLedgerEntries _ _) as [e|r] eqn:Hg; [done|].
    destruct (takeEntries _ _ _) as [e|y] eqn:Hte; [done|].
    rewrite (IH _ _ _ _ Hrun Hlen') by (done || (etrans; [apply subseteq_drop|done])). cbn [fst].
    assert (forall v, (exposureKey s, v) ∈ default [] (entries r) <-> s ∈ take LEDGER_KEY_CHUNK todo /\ ledger !! exposureKey s = Some v) as Hent.
    { intros v. rewrite (Hans _ _ Hg). split; intros [Hk Hv]; (split; [|done]).
      - apply list_elem_of_fmap in Hk as (s' & Heq & Hin). unfold exposureKey in Heq. by injection Heq as ->.
      - apply list_elem_of_fmap. by exists s. }
    assert (s ∈ todo <-> s ∈ take LEDGER_KEY_CHUNK todo \/ s ∈ drop LEDGER_KEY_CHUNK todo) as Hsplit
      by (rewrite <- elem_of_app, take_drop; done).
    destruct (takeEntries_spec _ _ _ _ Hte s Hs Ht) as [[Hy Hno]|(v & p & Hin & Hv & Hy)].
    + rewrite Hy. unfold held. destruct (ledger !! exposureKey s) as [v|] eqn:Hl; [|done]. destruct (exposureOf v) as [e|[p|]] eqn:Hv; try done.
      destruct (decide (s ∈ drop _ todo)), (decide (s ∈ todo)) as [Hin|]; [done|tauto| |done].
      rewrite Hno in Hv; [done|]. apply Hent. tauto.
    + apply Hent in Hin as [Hin Hl]. unfold held. rewrite Hl, Hv, Hy. destruct (decide (s ∈ drop _ todo)), (decide (s ∈ todo)); try done; tauto.
Qed.

Lemma zeros_lookup symbols s : s ∈ symbols -> zeros_ symbols !! s = Some (0, 0).
Proof.
  unfold zeros_. intros Hs. assert (forall m : gmap string (Z * Z), (s ∈ symbols \/ m !! s = Some (0, 0)) ->
    foldl (fun m s => <[s := (0, 0)]> m) m symbols !! s = Some (0, 0)) as H1; [|apply H1; by left]. clear Hs.
  induction symbols as [|t l IH]; cbn [foldl]; intros m; [by intros [?%elem_of_nil|?]|]. intros Hm. apply IH.
  destruct (decide (s = t)) as [->|Hne]; [right; by rewrite lookup_insert_eq|]. rewrite lookup_insert_ne by done.
  destruct Hm as [[?|?]%elem_of_cons|?]; [done|by left|by right].
Qed.
End answers.

(** ** Theorems *)

(** The open interest the gateway works with is the ledger's: for every
    market asked, however many requests it takes, the sizes of its entry, and
    zero where there is none or the entry is not a tuple of sizes. *)
Theorem exposure_is_the_ledgers `{ReaderRpc} ledger market symbols x l :
  answersFrom ledger market -> readAssetExposure market symbols = inr (x, l) ->
  forall s, s ∈ symbols -> truthy s = true -> x !! s = Some (default (0, 0) (held ledger s)).
Proof.
  intros Hans Hrun s Hs Ht. unfold readAssetExposure in Hrun.
  rewrite (readChunks_spec ledger market symbols Hans _ _ _ _ _ Hrun) by done. cbn [fst]. rewrite zeros_lookup by done.
  destruct (held ledger s); [by rewrite decide_True|done].
Qed.

Lemma counts_of (ledger : gmap DataKey Native) es : forall acc, (forall k v, (k, v) ∈ es -> ledger !! k = Some v) ->
  let KP := countKey "OpenPositionCount" in let KO := countKey "OpenOrderCount" in
  let res := foldl countStep acc es in
  ((res.1 = acc.1 /\ forall v, (KP, v) ∉ es) \/ res.1 = jsNumber <$> ledger !! KP)
  /\ ((res.2 = acc.2 /\ forall v, (KO, v) ∉ es) \/ res.2 = jsNumber <$> ledger !! KO).
Proof.
  induction es as [|[k w] es IH]; intros acc Hes; cbv zeta; cbn [foldl].
  - split; left; (split; [done|]); intros v; apply not_elem_of_nil.
  - specialize (IH (countStep acc (k, w)) ltac:(intros k' v' Hin; apply Hes; by right)). cbv zeta in IH. destruct IH as [IH1 IH2].
    pose proof (Hes k w ltac:(by left)) as Hk.
    assert (countKey "OpenPositionCount" <> countKey "OpenOrderCount") as Hne by by intros [=].
    split; [destruct IH1 as [[-> Hno]|H]; [|by right]|destruct IH2 as [[-> Hno]|H]; [|by right]]; unfold countStep; cbn [fst snd].
    + case_bool_decide as E; [right; cbn; by rewrite <- E, Hk|]. left. split; [by case_bool_decide|].
      intros v [[= E' _]|Hin]%elem_of_cons; [by apply E|by apply (Hno v)].
    + case_bool_decide as E; [left; split; [done|]; intros v [[= E' _]|Hin]%elem_of_cons; [congruence|by apply (Hno v)]|].
      case_bool_decide as E2; [right; cbn; by rewrite <- E2, Hk|]. left. split; [done|].
      intros v [[= E' _]|Hin]%elem_of_cons; [by apply E2|by apply (Hno v)].
Qed.

Lemma openCounts_are_the_ledgers `{ReaderRpc} ledger market p o :
  answersFrom ledger market -> readOpenCounts market = inr (p, o) ->
  p = jsNumber <$> ledger !! countKey "OpenPositionCount" /\ o = jsNumber <$> ledger !! countKey "OpenOrderCount".
Proof.
  intros Hans. unfold readOpenCounts, Ok. destruct (getLedgerEntries _ _) as [e|r] eqn:Hg; [done|]. pose proof (Hans _ _ Hg) as Hent.
  intros Hpo. assert (foldl countStep (None, None) (default [] (entries r)) = (p, o)) as Hf by (by injection Hpo).
  destruct (counts_of ledger (default [] (entries r)) (None, None)) as [H1 H2]; [intros k v Hin; apply Hent in Hin as [_ Hin]; exact Hin|].
  rewrite Hf in H1, H2. cbn [fst snd] in H1, H2.
  assert (forall k, k ∈ [countKey "OpenPositionCount"; countKey "OpenOrderCount"] -> (forall v, (k, v) ∉ default [] (entries r)) -> ledger !! k = None) as Hnone.
  { intros k Hk Hno. destruct (ledger !! k) as [v|] eqn:Hl; [|done]. exfalso. apply (Hno v). by apply Hent. }
  split; [destruct H1 as [[-> Hno]|]|destruct H2 as [[-> Hno]|]]; try done; rewrite Hnone; try done; [by left|by right; left].
Qed.

(** The drift alarm compares the chain with the index and nothing else:
    over an endpoint that answers from the ledger, "no drift" means both were
    read, the chain in time, and the ledger's counter is the number of rows;
    an alarm means both were read and they differ; and it is silent otherwise. *)
Theorem drift_compares_the_ledger `{ReaderRpc} ledger market marketId taken indexed :
  answersFrom ledger market ->
  let d := drift (sampleCounts (Some (taken, readOpenCounts market)) marketId indexed) in
  let known := taken < COUNTS_RPC_TIMEOUT_MS /\ (exists r, readOpenCounts market = inr r)
               /\ is_Some (ledger !! countKey "OpenPositionCount") /\ is_Some (given marketId) in
  (d = Some false <-> known /\ exists n, indexed = inr n /\ jsNumber <$> ledger !! countKey "OpenPositionCount" = Some (Some n))
  /\ (d = None <-> ~ (known /\ exists n, indexed = inr n)).
Proof.
  intros Hans d known. unfold d, sampleCounts, withTimeout. cbn [drift].
  destruct (Z.ltb_spec taken COUNTS_RPC_TIMEOUT_MS) as [Ht|Ht]; cbn [fst]; [|split; split; try done; [intros [[? _] _]; lia|intros _ [[? _] _]; lia]].
  destruct (readOpenCounts market) as [e|[p o]] eqn:Hr; cbn [fst]; [split; split; try done; [by intros [(_ & [? ?] & _) _]|by intros _ [(_ & [? ?] & _) _]]|].
  destruct (openCounts_are_the_ledgers ledger market p o Hans Hr) as [-> _].
  destruct (ledger !! countKey "OpenPositionCount") as [v|] eqn:Hl; cbn [fmap option_fmap option_map];
    [|split; split; try done; [by intros [(_ & _ & [? ?] & _) _]|by intros _ [(_ & _ & [? ?] & _) _]]].
  destruct (given marketId) as [mid|] eqn:Hm; [|split; split; try done; [by intros [(_ & _ & _ & [? ?]) _]|by intros _ [(_ & _ & _ & [? ?]) _]]].
  assert (known) as Hk by (unfold known; split_and!; [done|by eexists..]).
  destruct indexed as [e|n]; [split; split; try done; [by intros [_ (? & ? & _)]|by intros _ [_ [? ?]]]|].
  split; split.
  - intros [= Hx]. split; [done|]. exists n. split; [done|]. destruct (jsNumber v) as [x|]; [|done]. apply negb_false_iff, Z.eqb_eq in Hx. by subst.
  - intros [_ (n' & [= <-] & Hx)]. injection Hx as ->. by rewrite Z.eqb_refl.
  - done.
  - intros Hno. destruct Hno. split; [done|]. by exists n.
Qed.

(** C21. When the web application trusts the gateway, they speak of the same
    market: the address configured in the web application is the one the
    gateway reports, the one the indexer started with the same variables reads
    the events of, and, where the manifest names a market, the one the gateway
    works on; and the cursor it last read is as young as the trust requires. *)
Theorem trusted_gateway_reads_this_market env m MARKET t now cursor pauseAnswer sample pauses counts cached :
  let h := (gatewayHealth env (resolvedManifest env m) now cursor pauseAnswer sample pauses counts).1.1 in
  gatewayServesThisMarket MARKET t (healthAnswer h) None = (true, cached) ->
  MARKET <> ""%string /\ reported env m "market" = MARKET
  /\ (exists c, cursor = inr (Some c) /\ ageSeconds now (IndexerHandlers.updatedAt c) <= MAX_INDEXER_LAG_SECONDS)
  /\ ("market"%string ∈ (m_contracts m).*1 -> addressIn (resolvedManifest env m) "market" = Some MARKET)
  /\ (forall c cs, bootIndexer env (Ok m) = inr (c, cs) -> marketContract cs = MARKET).
Proof.
  intros h Hg. destruct (fresh_verdict MARKET t (healthAnswer h) None) as [(? & ? & [=] & _)|(v & Hv & Hs)].
  rewrite Hv in Hg. injection Hg as -> _. destruct (Hs eq_refl) as (Hne & lag & Hans & Hlag). clear Hs Hv.
  assert (healthAnswer h = HealthBody (Some (reported env m "market")) (ledgerAgeSeconds (indexerBlock now cursor))) as Hh.
  { unfold h, gatewayHealth, healthAnswer. destruct (pauseState _ _ _ _ _), (countsBlock _ _ _ _). cbn [fst gh_contracts gh_indexer].
    rewrite <- reported_resolved, <- resolvedContract_reported. reflexivity. }
  rewrite Hh in Hans. injection Hans as Hm Hage. split; [done|]. split; [done|]. split.
  { unfold indexerBlock in Hage. destruct cursor as [e|[c|]]; try done. exists c. split; [done|]. cbn in Hage. injection Hage as ->. done. }
  split.
  - intros Hin. rewrite addressIn_resolved. rewrite <- Hm. unfold reported. destruct (addressIn m "market") as [a|] eqn:Ha; [done|].
    by apply addressIn_None in Ha.
  - intros c cs. unfold bootIndexer, loadIndexerConfig, indexerContracts, Ok. destruct (given (env "DATABASE_URL")); [|done]. cbn [ic_contracts ic_rpcUrls].
    destruct (getContract env m "market") as [e|a] eqn:Hgm; [done|]. apply getContract_reported in Hgm as [Hgm _].
    destruct (optionalContract env m "vaultFactory") as [|vf]; [done|]. destruct (optionalContract env m "referral") as [|rf]; [done|].
    destruct (optionalContract env m "vault") as [|lp]; [done|]. intros Hb.
    destruct (getRpcUrls env _) as [|u us]; [done|]. destruct (existsb _ _); [done|]. injection Hb as _ <-. cbn. by rewrite <- Hgm.
Qed.

(** ** Concrete runs *)

(** A ledger with one market traded, and one entry that is no tuple of sizes. *)
Definition someLedger : gmap DataKey Native :=
  <[exposureKey "BTC" := NArr [NBig 5; NBig 700; NBig 3; NBig 200]]>
  (<[exposureKey "ETH" := NOther]> (<[countKey "OpenPositionCount" := NNum 4]> ∅)).

#[local] Instance ledgerRpc : ReaderRpc := {|
  getLedgerEntries := fun _ keys => Ok {| entries := Some (omap (fun k => (fun v => (k, v)) <$> someLedger !! k) keys); latest := Some 77 |};
  simulate := fun _ _ _ => Ok SimNothing; getAccount := fun _ => Ok 1 |}.

Lemma ledgerRpc_answers market : answersFrom someLedger market.
Proof.
  intros keys r [= <-] k v. cbn [entries default from_option]. unfold id. rewrite list_elem_of_omap. split.
  - intros (k' & Hk & H). destruct (someLedger !! k') as [w|] eqn:Hw; [|done]. cbn in H. injection H as -> ->. done.
  - intros [Hk Hv]. exists k. by rewrite Hv.
Qed.

(** The malformed entry reads as no open interest at all. *)
Example malformed_exposure_is_zero :
  match readAssetExposure "CMARKET" ["BTC"; "ETH"; "XLM"]%string with
  | inr (x, l) => x !! "BTC"%string = Some (700, 200) /\ x !! "ETH"%string = Some (0, 0) /\ x !! "XLM"%string = Some (0, 0) /\ l = Some 77
  | inl _ => False
  end.
Proof. vm_compute. by split_and!. Qed.

Lemma exposure_is_the_ledgers_witness : exists x l, readAssetExposure "CMARKET" ["BTC"; "ETH"]%string = inr (x, l) /\ x !! "BTC"%string = Some (700, 200).
Proof.
  destruct (readAssetExposure "CMARKET" ["BTC"; "ETH"]%string) as [e|[x l]] eqn:Hr; [vm_compute in Hr; discriminate Hr|].
  exists x, l. split; [reflexivity|].
  etransitivity; [apply (exposure_is_the_ledgers someLedger "CMARKET" ["BTC"; "ETH"]%string x l (ledgerRpc_answers _) Hr); [by left|reflexivity]|vm_compute; reflexivity].
Defined.

Lemma drift_compares_the_ledger_witness :
  drift (sampleCounts (Some (120, readOpenCounts "CMARKET")) (Some "CMARKET"%string) (Ok 4)) = Some false.
Proof.
  destruct (drift_compares_the_ledger someLedger "CMARKET" (Some "CMARKET"%string) 120 (Ok 4) (ledgerRpc_answers _)) as [H _].
  apply H. split; [split_and!; [reflexivity|eexists; vm_compute; reflexivity|eexists; vm_compute; reflexivity|eexists; vm_compute; reflexivity]|].
  exists 4. split; vm_compute; reflexivity.
Defined.

Lemma trusted_gateway_reads_this_market_witness : addressIn (resolvedManifest (vars prodVars) deployedManifest) "market" = Some "CMARKET2"%string.
Proof.
  destruct (trusted_gateway_reads_this_market (vars prodVars) deployedManifest "CMARKET2" 0 1000000
    (Ok (Some {| lastLedger := 9; lastPagingToken := None; IndexerHandlers.updatedAt := 950000 |})) (Err "absent"%string)
    (sampleCounts None None (Ok 0)) ∅ ∅ (Some (0, true))) as (_ & _ & _ & H & _); [vm_compute; reflexivity|].
  apply H. left.
Defined.
