(* ===== verification/ApiAccount.v ===== *)
(** * The account routes and the open positions of the gateway

    api/src/routes/account.ts, positions.ts and the queue route of adl.ts, as
    functions on the archive rows and the positions projection. A table is the
    list of its rows in any order. *)

From stdpp Require Import sorting.
From S2P Require Import Prelude JsText IndexerEvents IndexerDb IndexerHandlers ApiEvents ApiStats ApiBoard ApiSockets ApiAccess ApiVaults ApiCapacity.
Open Scope Z_scope.
Open Scope js_scope.

(** ** routes/account.ts *)

(** [payload_json ->> 'trader'] of any event: the fields of the pool's events
    are read by name. *)
Definition lpTrader (b : LpVaultBody) : option string :=
  match List.find (fun f => String.eqb f.1 "trader") (lp_fields b) with
  | Some (_, NStr s) => Some s
  | _ => None
  end.

Definition traderText (b : EventBody string) : option string :=
  match b with LpVaultEvent l => lpTrader l | _ => traderCol b end.

Definition namesTrader (owner : string) (r : EventRow) : bool :=
  match traderText (payload r) with Some t => String.eqb t owner | None => false end.

Definition POSITION_TOPICS : list string := ["position_opened"; "position_closed"; "position_liquidated"]%string.
Definition ORDER_TOPICS : list string := ["order_placed"; "order_executed"; "order_cancelled"]%string.

(** The newest rows that pass a test. *)
Definition newest (n : nat) (keep : EventRow -> bool) (rows : list EventRow) : list EventRow :=
  take n (merge_sort newer (bfilter keep rows)).

(** GET /v1/account/me *)
Definition me (u : User) : string * KeyTier * string := (owner u, tier u, keyId u).

(** GET /v1/account/me/events *)
Definition myEvents (db : DbAnswer (list EventRow)) (who : string) (topic_ : option string) (beforeTs limit : option Z) : Result (list EventRow) :=
  orEmpty [] db (newest (clampLimit 500 50 limit) (fun r =>
    namesTrader who r && givenText topic_ (topic r) && olderThan closeTs beforeTs r)).

(** [traderEventsSql] *)
Definition traderEvents (topics : list string) (who : string) (beforeTs : option Z) (n : nat) : list EventRow -> list EventRow :=
  newest n (fun r => namesTrader who r && topicIn topics r && olderThan closeTs beforeTs r).

(** A row of the positions table, with its id. *)
Definition StoredPosition : Type := Z * PositionRow.
Definition openedAt (r : StoredPosition) : Z := p_opened_at r.2.

(** GET /v1/account/me/positions: either statement may find no table. *)
Definition myPositions (positions : DbAnswer (list StoredPosition)) (events : DbAnswer (list EventRow)) (who : string)
  : Result (list StoredPosition * list EventRow) :=
  match positions, events with
  | Answer (inl e), _ => Err e
  | MissingTable, _ => Ok ([], [])
  | Answer (inr _), Answer (inl e) => Err e
  | Answer (inr _), MissingTable => Ok ([], [])
  | Answer (inr rows), Answer (inr es) =>
      Ok (merge_sort (laterRow openedAt) (bfilter (fun r => String.eqb (p_trader r.2) who) rows), traderEvents POSITION_TOPICS who None 200 es)
  end.

(** GET /v1/account/me/orders *)
Definition myOrders (db : DbAnswer (list EventRow)) (who : string) (beforeTs limit : option Z) : Result (list EventRow) :=
  orEmpty [] db (traderEvents ORDER_TOPICS who beforeTs (clampLimit 500 500 limit)).

(** ** routes/positions.ts *)

Definition GLOBAL_POSITIONS_LIMIT : nat := 200.
Definition TRADER_POSITIONS_LIMIT : nat := 500.

(** The statement of either branch. *)
Definition selectOpen (trader : option string) (rows : list StoredPosition) : list StoredPosition :=
  match trader with
  | Some t => take TRADER_POSITIONS_LIMIT (merge_sort (laterRow openedAt) (bfilter (fun r => String.eqb (p_trader r.2) t) rows))
  | None => take GLOBAL_POSITIONS_LIMIT (merge_sort (laterRow openedAt) rows)
  end.

(** [quintiles] of adlQueue.ts: the queue's rows as a map, the last row of an
    id winning. *)
Definition quintiles (q : AdlQueueResult) (id : Z) : option Z :=
  quintile <$> List.find (fun r => q_positionId r =? id) (rev (aq_rows q)).

(** GET /v1/positions/open: the queues by asset, when the service is there; a
    queue that fails leaves every row without a quintile. *)
Definition openPositions (rows : Result (list StoredPosition)) (trader : option string) (queues : option (string -> Result AdlQueueResult))
  : Result (list (StoredPosition * option Z)) :=
  match rows with
  | inl e => Err e
  | inr rows =>
      let shown := selectOpen (given (trim <$> trader)) rows in
      let bare := (fun r => (r, None)) <$> shown in
      match queues with
      | None => Ok bare
      | Some queue =>
          if forallb (fun r => match queue (p_asset r.2) with inr _ => true | inl _ => false end) shown then
            Ok ((fun r => (r, match queue (p_asset r.2) with inr q => quintiles q r.1 | inl _ => None end)) <$> shown)
          else Ok bare
      end
  end.

(** GET /v1/adl/queue: the asset as it is looked up, and the rows shown. *)
Definition queueRoute (asset : string) (trader : option string) (queue : string -> AdlQueueResult) : AdlQueueResult :=
  let q := queue (ApiAccess.upper (trim asset)) in
  match given trader with
  | Some t =>
      {| aq_asset := aq_asset q; ApiCapacity.updatedAt := ApiCapacity.updatedAt q; degraded := degraded q;
         aq_rows := bfilter (fun r => String.eqb (q_trader r) t) (aq_rows q) |}
  | None => q
  end.

(** ** Lemmas *)

Lemma elem_of_newest n keep rows r : r ∈ newest n keep rows -> r ∈ rows /\ keep r = true.
Proof. intros (i & Hi & _)%elem_of_take. apply list_elem_of_lookup_2 in Hi. by rewrite merge_sort_Permutation, elem_of_bfilter in Hi. Qed.

Lemma newest_sorted n keep rows : StronglySorted newer (newest n keep rows).
Proof.
  unfold newest. pose proof (StronglySorted_merge_sort newer (bfilter keep rows)) as H.
  rewrite <- (take_drop n (merge_sort _ _)) in H. by apply StronglySorted_app_1_l in H.
Qed.

(** What is left out comes after everything shown. *)
Lemma newest_rest n keep rows r s : r ∈ rows -> keep r = true -> r ∉ newest n keep rows -> s ∈ newest n keep rows -> newer s r.
Proof.
  intros Hr Hk Hno Hs. unfold newest in *. pose proof (StronglySorted_merge_sort newer (bfilter keep rows)) as H.
  assert (r ∈ merge_sort newer (bfilter keep rows)) as Hin by (rewrite merge_sort_Permutation, elem_of_bfilter; done).
  rewrite <- (take_drop n (merge_sort _ _)) in H, Hin. apply elem_of_app in Hin as [Hin|Hin]; [done|].
  by eapply StronglySorted_app_1_elem_of.
Qed.

(** A shown list that is shorter than the limit is complete. *)
Lemma newest_complete n keep rows r : (length (newest n keep rows) < n)%nat -> r ∈ rows -> keep r = true -> r ∈ newest n keep rows.
Proof.
  unfold newest. rewrite length_take. intros Hl Hr Hk. rewrite firstn_all2 by lia. rewrite merge_sort_Permutation, elem_of_bfilter. done.
Qed.


(** Events that a decoder made. *)
Definition decodedBy (cs : Contracts) (events : list (Event Z)) : Prop :=
  Forall (fun e => exists raw, decodeFor cs raw = Ok (Some e)) events.

Lemma decoded_lp_topic cs raw e b : decodeFor cs raw = Ok (Some e) -> body e = LpVaultEvent b -> topicOf e ∉ ORDER_TOPICS.
Proof.
  unfold decodeFor. intros Hd Hb. repeat case_bool_decide;
    [apply decodeVaultEvent_inv in Hd as (_ & (? & ? & H') & _)|apply decodeReferralEvent_inv in Hd as (_ & (? & H') & _)
    |apply decodeLpVaultEvent_inv in Hd as (_ & _ & Hf & _)|apply decodeMarketEvent_inv in Hd as (_ & (? & H') & _)]; try congruence.
  apply lpVaultFields_registered in Hf. intros Ho.
  assert (Forall (fun t => t ∉ ORDER_TOPICS) LP_VAULT_TOPICS) as Hall by (apply (bool_decide_unpack _); vm_compute; exact I).
  rewrite Forall_forall in Hall. by apply (Hall (topicOf e) Hf).
Qed.

(** Of the topics of an order's life only the placement names a trader. *)
Lemma order_rows_name_traders cs events r :
  decodedBy cs events -> r ∈ archiveOf events -> topicIn ORDER_TOPICS r = true -> is_Some (traderText (payload r)) -> topic r = "order_placed"%string.
Proof.
  intros Hdec (e & -> & He)%list_elem_of_fmap Ht. unfold topicIn, topic, payload, rawRow in *. cbn [snd row_topic row_payload] in *.
  unfold decodedBy in Hdec. rewrite Forall_forall in Hdec. destruct (Hdec e He) as [raw Hraw].
  apply existsb_exists in Ht as (t & Hin & Heq%String.eqb_eq). apply list_elem_of_In in Hin. rewrite <- Heq in Hin.
  pose proof Hin as Htop. unfold ORDER_TOPICS in Htop. rewrite !elem_of_cons, elem_of_nil in Htop.
  destruct (body e) as [m|v b|b|b] eqn:Hb; [|by intros [? [=]]..|by destruct (decoded_lp_topic cs raw e b Hraw Hb)].
  unfold topicOf in *. rewrite Hb in *. intros [tr Htr].
  destruct m; cbn in *; try discriminate Htr; try (repeat match goal with x : bool |- _ => destruct x end; cbn in *; destruct Htop as [?|[?|[?|[]]]]; discriminate).
  reflexivity.
Qed.

(** ** Theorems *)

(** What an account is shown is its own and nothing newer is kept from it:
    every event listed names the account as its trader and passes the filters,
    the list is newest first, and an event of the account that passes them and
    is left out is no newer than any listed, and only when the list is full. *)
Theorem account_events_are_the_owners db who topic_ beforeTs limit rows l :
  db = Answer (Ok rows) -> myEvents db who topic_ beforeTs limit = Ok l ->
  let passes r := namesTrader who r = true /\ givenText topic_ (topic r) = true /\ olderThan closeTs beforeTs r = true in
  (forall r, r ∈ l -> r ∈ rows /\ passes r) /\ StronglySorted newer l
  /\ (forall r s, r ∈ rows -> passes r -> r ∉ l -> s ∈ l -> newer s r)
  /\ (forall r, r ∈ rows -> passes r -> r ∉ l -> (clampLimit 500 50 limit <= length l)%nat).
Proof.
  intros ->. unfold myEvents, orEmpty, Ok. intros [= <-]. cbv zeta.
  set (keep := fun r => namesTrader who r && givenText topic_ (topic r) && olderThan closeTs beforeTs r).
  assert (forall r, keep r = true <-> namesTrader who r = true /\ givenText topic_ (topic r) = true /\ olderThan closeTs beforeTs r = true) as Hkeep.
  { intros r. unfold keep. rewrite !andb_true_iff. tauto. }
  split; [|split; [|split]].
  - intros r Hr. apply elem_of_newest in Hr as [Hr Hk]. split; [done|]. by apply Hkeep.
  - apply newest_sorted.
  - intros r s Hr Hp Hno Hs. apply Hkeep in Hp. by apply (newest_rest _ _ _ _ _ Hr Hp Hno Hs).
  - intros r Hr Hp Hno. apply Hkeep in Hp. destruct (Nat.le_gt_cases (clampLimit 500 50 limit) (length (newest (clampLimit 500 50 limit) keep rows))); [done|].
    exfalso. apply Hno. by apply newest_complete.
Qed.

(** The list of order events of an account holds placements only: the
    archive's rows of executions and cancellations carry no trader, so none is
    ever listed, whoever placed the order. *)
Theorem my_orders_are_placements cs events rows who beforeTs limit l :
  decodedBy cs events -> rows ≡ₚ archiveOf events -> myOrders (Answer (Ok rows)) who beforeTs limit = Ok l ->
  forall r, r ∈ l -> topic r = "order_placed"%string /\ namesTrader who r = true.
Proof.
  intros Hdec Hrows. unfold myOrders, orEmpty, Ok. intros [= <-] r Hr. apply elem_of_newest in Hr as [Hr Hk].
  apply andb_true_iff in Hk as [[Hn Ht]%andb_true_iff _]. split; [|done]. rewrite Hrows in Hr.
  apply (order_rows_name_traders cs events r Hdec Hr Ht). unfold namesTrader in Hn. by destruct (traderText (payload r)).
Qed.

(** The quintile shown beside a position is the queue's: when every queue
    asked answers, a row shows the quintile the queue of its asset gives its id,
    and none if it is not in it; when one fails, or there is no queue, the same
    rows are shown without. *)
Theorem open_positions_show_the_queue rows trader queues l :
  openPositions (Ok rows) trader queues = Ok l ->
  l.*1 = selectOpen (given (trim <$> trader)) rows
  /\ forall r q, (r, Some q) ∈ l -> exists queue a, queues = Some queue /\ queue (p_asset r.2) = inr a /\ quintiles a r.1 = Some q
       /\ exists w, w ∈ aq_rows a /\ q_positionId w = r.1 /\ quintile w = q.
Proof.
  unfold openPositions, Ok. cbv beta iota zeta. set (shown := selectOpen _ rows).
  assert (forall (f : StoredPosition -> option Z), ((fun r => (r, f r)) <$> shown).*1 = shown) as Hfst.
  { intros f. rewrite <- list_fmap_compose. unfold compose. cbn. apply list_fmap_id. }
  assert (forall r q, (r, Some q) ∉ (fun r : StoredPosition => (r, @None Z)) <$> shown) as Hbare by (by intros r q (? & [=] & _)%list_elem_of_fmap).
  destruct queues as [queue|]; [|intros [= <-]; split; [apply Hfst|intros r q Hin; by apply Hbare in Hin]].
  match goal with |- context [forallb ?p shown] => destruct (forallb p shown) eqn:Hall end; intros [= <-]; (split; [apply Hfst|]); [|intros r q Hin; by apply Hbare in Hin].
  intros r q (r' & Heq & Hin)%list_elem_of_fmap. injection Heq as <- Hq. rewrite forallb_forall in Hall. specialize (Hall r ltac:(by apply list_elem_of_In)).
  destruct (queue (p_asset r.2)) as [e|a] eqn:Ha; [done|]. exists queue, a. split; [done|]. split; [done|]. split; [done|].
  unfold quintiles in Hq. destruct (List.find _ _) as [w|] eqn:Hf; [|done]. injection Hq as ->. apply find_some in Hf as [Hw He].
  exists w. split; [|split; [by apply Z.eqb_eq|done]]. apply list_elem_of_In. by apply in_rev.
Qed.

(** ** Concrete runs *)

Definition lifeOf (id : Z) (who : string) : list (Event Z) :=
  let envAt n := {| ev_id := "e" +:+ decimalOfZ n; ev_contractId := "CMARKET"; ev_ledger := n; ev_ledgerCloseTs := n; ev_txHash := "t" |} in
  [ {| env := envAt 10; body := MarketEvent (OrderPlaced id who 500) |}; {| env := envAt 20; body := MarketEvent (OrderExecuted id 3) |} ].

(** An order was placed and executed: its account sees the placement. *)
Example execution_is_not_listed :
  match myOrders (Answer (Ok (archiveOf (lifeOf 7 "GALICE")))) "GALICE" None None with
  | inr l => topic <$> l = ["order_placed"]%string
  | inl _ => False
  end.
Proof. vm_compute. reflexivity. Qed.

Definition rawOrder (id : string) (name : string) (values : list Native) : RawEvent := {|
  raw_id := id; raw_contractId := "CM"; raw_ledger := 7; raw_closedAt := 1700000000999; raw_txHash := "tx";
  raw_topics := Ok [NStr name]; raw_value := Ok (NArr values) |}.

Definition rawLife : list RawEvent :=
  [rawOrder "0001" "order_placed" [NBig 7; NStr "GALICE"; NBig 500]; rawOrder "0002" "order_executed" [NBig 7; NBig 3]].

Definition decodedLife : list (Event Z) := omap (fun raw => match decodeFor contracts_abc raw with inr (Some e) => Some e | _ => None end) rawLife.

Lemma my_orders_are_placements_witness : exists r, myOrders (Answer (Ok (archiveOf decodedLife))) "GALICE" None None = Ok [r] /\ topic r = "order_placed"%string.
Proof.
  destruct (myOrders (Answer (Ok (archiveOf decodedLife))) "GALICE" None None) as [e|[|r [|]]] eqn:Hm; try (vm_compute in Hm; discriminate Hm).
  exists r. split; [reflexivity|].
  refine (proj1 (my_orders_are_placements contracts_abc decodedLife (archiveOf decodedLife) "GALICE" None None [r] _ (Permutation_refl _) Hm r _)); [|by left].
  constructor; [exists (rawOrder "0001" "order_placed" [NBig 7; NStr "GALICE"; NBig 500]); vm_compute; reflexivity|].
  constructor; [exists (rawOrder "0002" "order_executed" [NBig 7; NBig 3]); vm_compute; reflexivity|constructor].
Defined.

Lemma account_events_are_the_owners_witness : exists l, myEvents (Answer (Ok (archiveOf (lifeOf 7 "GALICE")))) "GALICE" None None None = Ok l /\ StronglySorted newer l.
Proof.
  destruct (myEvents (Answer (Ok (archiveOf (lifeOf 7 "GALICE")))) "GALICE" None None None) as [e|l] eqn:Hm; [vm_compute in Hm; discriminate Hm|].
  exists l. split; [reflexivity|].
  destruct (account_events_are_the_owners _ "GALICE" None None None (archiveOf (lifeOf 7 "GALICE")) l eq_refl Hm) as (_ & H & _). exact H.
Defined.

Definition shortRow : StoredPosition := (4, {| p_trader := "GALICE"; p_asset := "BTC"; p_direction := 1; p_size := "70"; p_entry_price := "9"; p_opened_at := 5;
  p_opened_tx_hash := "t"; p_contract_id := "CMARKET" |})%string.

Definition oneInQueue (asset : string) : Result AdlQueueResult :=
  Ok {| aq_asset := asset; ApiCapacity.updatedAt := 9; degraded := false;
        aq_rows := [{| q_positionId := 4; q_trader := "GALICE"; q_asset := asset; q_direction := 1; q_size := "70"; q_pnl := "2"; q_score := "8"; q_rank := 1; quintile := 1 |}] |}.

Lemma open_positions_show_the_queue_witness : exists queue a, Some oneInQueue = Some queue /\ queue "BTC"%string = inr a /\ quintiles a 4 = Some 1.
Proof.
  destruct (open_positions_show_the_queue [shortRow] None (Some oneInQueue) [(shortRow, Some 1)]) as [_ H]; [vm_compute; reflexivity|].
  destruct (H shortRow 1) as (queue & a & H1 & H2 & H3 & _); [by left|]. exists queue, a. split; [exact H1|]. split; [exact H2|exact H3].
Defined.
